(* ===== verification/_CoqProject ===== *)
-Q . S2P
Prelude.v
Endian.v
Intset.v
Util.v
Glob.v
Adlist.v
Ziplist.v
ZiplistRep.v
ZiplistOps.v
ZiplistIns.v
ZiplistSpec.v
ZiplistProps.v
Dict.v
DictScan.v
Crc.v
Lzf.v
Sds.v
SdsText.v
Skiplist.v
SkipRep.v
SkipOps.v
SkipSpec.v
SkipRange.v
Object.v
Zset.v
Protocol.v
ProtocolSpec.v
ProtocolSafe.v
Server.v
Keyspace.v
ServerRep.v
ServerOps.v
KeyspaceSpec.v
StringCmd.v
StringSpec.v
StringProofs.v
StringEdits.v
Frames.v
KeySpec.v
KeyProofs.v
Commands.v
Pubsub.v
Multi.v
MultiSpec.v
MultiOps.v
CommandFrame.v
MultiRep.v
MultiProofs.v
MultiExec.v
Requests.v
Subscriptions.v
Values.v
Rdb.v
RdbStrings.v
RdbValues.v
Snapshots.v
