(* ===== verification/Prelude.v ===== *)
(** * The data structures, the request path and the snapshots of Redis 3.0

    This library models the parts of the server under [src/redis-3.0.0/src] that
    hold its data, take in its requests and save it, and proves what each promises
    to the rest of the program.

    ** The program and its parts

    A client's bytes reach the query buffer, an sds (sds.c), where the request
    parser (networking.c) cuts them into arguments, string objects (object.c)
    that are counted and encoded as integers or embedded strings when they can
    be.  A command (db.c, t_string.c) looks keys up in the databases, which are
    dictionaries (dict.c), works on the values, signals what it changed to the
    clients that watch it (multi.c) and appends to the client's reply.  The
    command is found in a table, refused, queued or run by redis.c; EXEC runs
    what was queued, and PUBLISH replies to other clients (pubsub.c).  Values
    are strings, or small and compact (intset.c, ziplist.c) or linked (adlist.c,
    the skip list of t_zset.c).  All of them use the conversions and the glob
    matcher of util.c, the byte order of endianconv.c and the checksums of
    crc16.c and crc64.c.  A snapshot of the databases (rdb.c over rio.c) writes
    every value in its encoding, long strings compressed (lzf_c.c, lzf_d.c).

    ** Files

    - [Endian]: endianconv.c.
    - [Intset]: intset.c.  The state is the structure with its bytes; [irep] ties
      it to the strictly increasing list of its elements.
    - [Util], [Glob]: util.c, the conversions and [stringmatchlen].
    - [Adlist]: adlist.c on a heap of nodes.
    - [Ziplist]: ziplist.c on the bytes of a block.  [ZiplistRep] is the encoding
      and the layout of the entries, [ZiplistOps] resizing, the cascade of size
      fields and deletion, [ZiplistIns] insertion, [ZiplistSpec] the cursors and
      the contract ([zrep]), [ZiplistProps] the properties.
    - [Dict], [DictScan]: dict.c, with the chains as lists; the [dictType]
      callbacks are parameters that satisfy the class [KeyType].
    - [Crc]: crc16.c, crc64.c and [keyHashSlot] of cluster.c.
    - [Lzf]: lzf_c.c and lzf_d.c, the compression of long strings in snapshots.
    - [Sds], [SdsText]: sds.c, the header and the allocation of every operation
      ([rep]), and the operations on text.
    - [Skiplist]: the zsl functions of t_zset.c on a heap of nodes, for any
      [Score] and [Member]; [SkipRep], [SkipOps], [SkipSpec] and [SkipRange] prove
      them against the ordered list of pairs, [Zset] states the properties.
    - [Object]: object.c, a store of objects with their reference counts.
    - [Protocol]: the request parser of networking.c, over [Sds] and [Object];
      [ProtocolSpec] is the request format and the execution of pipelined
      requests, [ProtocolSafe] the behaviour on arbitrary bytes.
    - [Server]: the databases, clients and replies (redis.h, networking.c,
      object.c) as a state monad over the store of [Object].  [Keyspace] is db.c
      with its commands, [StringCmd] t_string.c.  A server stands for an abstract
      one, whose keys hold byte strings or values of other types: [ServerRep] is
      the invariant (each count is the number of references) and the rules of
      total correctness, [ServerOps] the rules of replies, arguments and heap
      operations, [KeyspaceSpec] those of the key space, [Frames] what an
      operation leaves alone.  [StringSpec] and [KeySpec] specify the commands on
      the abstract server; [StringProofs], [StringEdits] and [KeyProofs] prove
      them, [Commands] puts them together.
    - [Pubsub]: pubsub.c, and [Multi]: multi.c, the command table, [processCommand],
      [call] and [propagate] of redis.c, and the life of a client in networking.c
      around a request ([serve]).  [MultiSpec] specifies a session on the abstract
      server, where arguments and queued commands are byte strings.  [MultiOps]
      moves the operations on tables to the abstract server, [CommandFrame] is
      what a command leaves to other clients, [MultiRep], [MultiProofs] and
      [MultiExec] prove the procedures and EXEC, [Requests] whole sessions.
      [Subscriptions] is the agreement of the tables of subscribers.
    - [Values]: a key's value as snapshots see it, with the conversions of t_list.c,
      t_set.c and t_hash.c from the small representations to the large ones, and
      the content it stands for.  [Rdb]: rdb.c over the file streams of rio.c, as
      computations that yield, fail or go wrong; the settings and the answers of
      the system are parameters.  [RdbStrings] has the calculus of what a
      computation writes and reads, lengths and strings, [RdbValues] the values,
      [Snapshots] the rounds of the loader, whole databases and files.  The loop
      over a file has fuel for its length and one round more, as a round takes a
      byte or more.
    A component's file holds its state as a record or as the bytes of its block,
    one definition per C function (named as in the source), loops with fuel, and
    then its lemmas; the interfaces between components are classes ([KeyType],
    [Score], [Member]) whose instances the implementing files give.

    ** What the theorems show

    - Refinement: sequences of operations on integer sets, linked lists,
      compressed lists, dictionaries, strings and skip lists behave as on sets,
      lists, maps, byte strings and ordered lists, with every access inside its
      block and nothing leaked.
    - Functional behaviour and errors: lookups, ranks, ranges, iterations, integer
      conversions, formatting, duplication with a failing allocator.
    - Round trips: decimal notation, byte order, quoting, splitting and joining,
      string encodings, compression.
    - Equivalence: the glob matcher with a declarative relation, table-driven
      checksums with division bit by bit, comparisons with lexicographic order.
    - Termination, liveness and safety: [sdssplitargs] and [dictScan] terminate; all
      pipelined requests are executed however they are cut into reads; the
      parser never faults; a full scan misses no element that stays.
    - Bounds: sizes computed in 32 bits that wrap (intset.c), blocks that are cut
      too early (ziplist.c), ranges of ranks.
    - Type soundness: a command on strings or keys, run on a well-formed server,
      does not go wrong, keeps types, encodings, reference counts and deadlines
      consistent, and does what its specification says.
    - Sessions: any sequence of connections, requests and disconnections follows
      its specification, transactions included, and leaves the server well
      formed.  It is specified as long as every command that runs is modelled,
      the arguments fit a string, and the references taken fit an [int].
    - Invariant: the tables of subscribers of the clients and of the server agree
      throughout a session, and a published message reaches whom it should.
    - Snapshots: the file that [rdbSave] leaves loads to the same keys, contents and
      deadlines, under other settings too, and a save that fails keeps the file
      that was there.  The theorem leaves out a failing [fclose], after which the
      code closes the stream again, and values whose size overflows the count of
      bytes written.
    Several theorems prove that the code departs from what it means to do; they
    are listed with their source lines in the findings of the manifest.

    ** Conventions

    Integers are [Z] with the width of a C type written at each operation
    ([+[32]], [u64], [s32]).  An access outside an allocation, a dereference of a
    null pointer, a failed assertion and a signed overflow that C leaves
    undefined are [None], so that a theorem that concludes [Some _] also says
    that the code does none of these.  A loop that is given too little fuel
    returns [None] as well; the fuel is the size of the block or of the structure
    the loop walks (plus one), and each theorem shows that it is enough.  Memory
    that an allocation leaves uninitialised holds what a parameter [junk] says.
    The host is little-endian with 64-bit pointers and [long].

    ** Not modelled

    Floating-point code ([d2string], [zslParseRange], INCRBYFLOAT, HyperLogLog),
    the LRU clock and eviction, the commands of t_list.c, t_set.c, t_hash.c and
    t_zset.c, clients blocked on lists, monitors, the slow log and statistics,
    the references the tables of watchers and subscribers hold on the texts of
    keys and channels (the tables hold the texts); start-up, cron and the event
    loop, the append-only file, background saving, sorted sets in snapshots,
    replication, cluster and sentinel, whose core is system
    calls and time; scripting, the client programs, and the third-party code in
    deps/ and in sha1.c and pqsort.c.
*)

(** The prelude itself: C integers at their width, byte strings and
    little-endian words, bounds-checked memory, fuelled loops, and the tactics,
    hints and generic lemmas that the component files share. *)
From Stdlib Require Import ZArith Lia.
From stdpp Require Export strings base tactics list numbers option sorting.

Declare Scope c_scope.
Delimit Scope c_scope with c.
Global Open Scope Z_scope.

(** ** Machine integers *)

(** [wrap w x] is [x] converted to a [w]-bit unsigned integer. *)
Definition wrap (w x : Z) : Z := x mod 2 ^ w.

(** [swrap w x] is [x] converted to a [w]-bit two's complement integer. *)
Definition swrap (w x : Z) : Z :=
  (x + 2 ^ (w - 1)) mod 2 ^ w - 2 ^ (w - 1).

Abbreviation u8 := (wrap 8).
Abbreviation u16 := (wrap 16).
Abbreviation u32 := (wrap 32).
Abbreviation u64 := (wrap 64).
Abbreviation s8 := (swrap 8).
Abbreviation s16 := (swrap 16).
Abbreviation s32 := (swrap 32).
Abbreviation s64 := (swrap 64).

Notation "a +[ w ] b" := (wrap w (a + b))
  (at level 50, left associativity) : c_scope.
Notation "a -[ w ] b" := (wrap w (a - b))
  (at level 50, left associativity) : c_scope.
Notation "a *[ w ] b" := (wrap w (a * b))
  (at level 40, left associativity) : c_scope.
Notation "a <<[ w ] n" := (wrap w (Z.shiftl a n))
  (at level 45, left associativity) : c_scope.
Notation "a >> n" := (Z.shiftr a n)
  (at level 45, left associativity) : c_scope.
Notation "a .& b" := (Z.land a b)
  (at level 47, left associativity) : c_scope.
Notation "a .^ b" := (Z.lxor a b)
  (at level 48, left associativity) : c_scope.
Notation "a .| b" := (Z.lor a b)
  (at level 49, left associativity) : c_scope.

(** [bnot w x] is the C complement of a [w]-bit unsigned [x]. *)
Definition bnot (w x : Z) : Z := 2 ^ w - 1 - x.

Definition in_u (w x : Z) : Prop := 0 <= x < 2 ^ w.
Definition in_s (w x : Z) : Prop := - 2 ^ (w - 1) <= x < 2 ^ (w - 1).

Global Instance in_u_dec w x : Decision (in_u w x).
Proof. unfold in_u. apply _. Defined.
Global Instance in_s_dec w x : Decision (in_s w x).
Proof. unfold in_s. apply _. Defined.

Lemma wrap_small w x : in_u w x -> wrap w x = x.
Proof. unfold in_u, wrap. intros. apply Z.mod_small. lia. Qed.

Lemma wrap_in_u w x : 0 <= w -> in_u w (wrap w x).
Proof.
  intros. unfold in_u, wrap. apply Z.mod_pos_bound. apply Z.pow_pos_nonneg; lia.
Qed.

Lemma swrap_small w x : 0 < w -> in_s w x -> swrap w x = x.
Proof.
  unfold in_s, swrap. intros Hw Hx.
  replace (2 ^ w) with (2 ^ (w - 1) + 2 ^ (w - 1)).
  - rewrite Z.mod_small; lia.
  - replace w with (w - 1 + 1) at 3 by lia. rewrite Z.pow_add_r; lia.
Qed.

Lemma pow2_pos w : 0 <= w -> 0 < 2 ^ w.
Proof. intros. apply Z.pow_pos_nonneg; lia. Qed.

Lemma wrap_idemp w x : wrap w (wrap w x) = wrap w x.
Proof. unfold wrap. apply Zmod_mod. Qed.

Lemma wrap_add_l w x y : wrap w (wrap w x + y) = wrap w (x + y).
Proof. unfold wrap. apply Zplus_mod_idemp_l. Qed.

Lemma wrap_add_r w x y : wrap w (x + wrap w y) = wrap w (x + y).
Proof. unfold wrap. apply Zplus_mod_idemp_r. Qed.

Lemma wrap_0 w : wrap w 0 = 0.
Proof. unfold wrap. apply Zmod_0_l. Qed.

Create HintDb cint discriminated.
Create Rewrite HintDb cint.
Create Rewrite HintDb zlen.
#[export] Hint Rewrite wrap_idemp wrap_add_l wrap_add_r wrap_0 : cint.
#[export] Hint Resolve wrap_in_u pow2_pos : cint.

(** Closed powers of two, for [lia]. *)
Ltac pow2 :=
  repeat match goal with
  | |- context [2 ^ ?n] =>
      let v := eval vm_compute in (2 ^ n) in change (2 ^ n) with v
  | H : context [2 ^ ?n] |- _ =>
      let v := eval vm_compute in (2 ^ n) in change (2 ^ n) with v in H
  end.

(** Bounds written with [in_u]/[in_s], then [lia]. *)
Ltac cint :=
  unfold in_u, in_s in *; cbn [Z.sub Z.opp Z.add Z.pos_sub] in *; pow2; lia.

(** One step of the option monad, without unfolding anything else. *)
Ltac step := cbn [mbind option_bind mret option_ret].

(** A closed decidable goal, by evaluation. *)
Ltac by_decide := apply (bool_decide_unpack _); vm_compute; exact I.

(** ** Bits *)

Local Open Scope c_scope.

Lemma bits_above w v i : in_u w v -> w <= i -> 0 <= w -> Z.testbit v i = false.
Proof.
  intros [H0 H1] Hi Hw. destruct (Z.eq_dec v 0) as [->|]; [apply Z.bits_0|].
  apply Z.bits_above_log2; [lia|]. assert (Z.log2 v < w) by (apply Z.log2_lt_pow2; lia). lia.
Qed.

Lemma lor_add a b : Z.land a b = 0 -> Z.lor a b = a + b.
Proof. intros H. rewrite <- Z.lxor_lor by done. symmetry. by apply Z.add_nocarry_lxor. Qed.

Lemma land_high_low a k lo : 0 <= k -> 0 <= lo < 2 ^ k -> Z.land (a * 2 ^ k) lo = 0.
Proof.
  intros Hk Hlo. apply Z.bits_inj'. intros i Hi. rewrite Z.land_spec, Z.bits_0.
  destruct (Z.lt_ge_cases i k).
  - by rewrite Z.mul_pow2_bits_low.
  - by rewrite (bits_above k lo), andb_false_r.
Qed.

Lemma high_lor_low a k lo : 0 <= k -> 0 <= lo < 2 ^ k -> a * 2 ^ k .| lo = a * 2 ^ k + lo.
Proof. intros. apply lor_add. by apply land_high_low. Qed.

Local Close Scope c_scope.

(** ** Loops with fuel *)

Section While.
Context {S : Type} (cond : S -> option bool) (body : S -> option S).

(** [while (cond) body], stopped with [None] when the fuel runs out or
    when the condition or the body is undefined. *)
Fixpoint while (fuel : nat) (s : S) : option S :=
  match fuel with
  | O => None
  | Datatypes.S fuel' =>
      b ← cond s;
      if (b : bool) then s' ← body s; while fuel' s' else Some s
  end.

(** Total correctness of a loop: an invariant that makes the condition
    defined and a measure the body decreases. *)
Lemma while_total (I : S -> Prop) (m : S -> nat) :
  (forall s, I s -> exists b, cond s = Some b /\
     (b = true -> exists s', body s = Some s' /\ I s' /\ (m s' < m s)%nat)) ->
  forall fuel s, I s -> (m s < fuel)%nat ->
  exists s', while fuel s = Some s' /\ I s' /\ cond s' = Some false.
Proof.
  intros Hstep. induction fuel as [|fuel IH]; intros s Hs Hm; [lia|].
  destruct (Hstep s Hs) as ([] & Hc & Hb); simpl; rewrite Hc; simpl.
  - destruct (Hb eq_refl) as (s' & -> & HI & Hlt). simpl.
    apply IH; [done | lia].
  - eauto.
Qed.
End While.

(** ** Bytes *)

Definition byte_ok (b : Z) : Prop := 0 <= b < 256.
Definition bytes_ok (bs : list Z) : Prop := Forall byte_ok bs.

Global Instance byte_ok_dec b : Decision (byte_ok b).
Proof. unfold byte_ok. apply _. Defined.

(** The bytes of a string literal. *)
Fixpoint bytes_of (s : string) : list Z :=
  match s with
  | EmptyString => []
  | String a s => Z.of_N (Ascii.N_of_ascii a) :: bytes_of s
  end.

(** The length of a list as an integer. *)
Definition zlen {A} (l : list A) : Z := Z.of_nat (length l).

Lemma zlen_to_nat {A} (l : list A) : Z.to_nat (zlen l) = length l.
Proof. unfold zlen. lia. Qed.

Lemma zlen_nonneg {A} (l : list A) : 0 <= zlen l.
Proof. unfold zlen. lia. Qed.
Lemma zlen_app {A} (l k : list A) : zlen (l ++ k) = zlen l + zlen k.
Proof. unfold zlen. rewrite length_app. lia. Qed.
Lemma zlen_cons {A} (x : A) l : zlen (x :: l) = 1 + zlen l.
Proof. unfold zlen. simpl. lia. Qed.
Lemma zlen_nil {A} : zlen (@nil A) = 0.
Proof. done. Qed.
Lemma zlen_one {A} (x : A) : zlen [x] = 1.
Proof. done. Qed.
Lemma zlen_app_one {A} (l : list A) x : zlen (l ++ [x]) = zlen l + 1.
Proof. by rewrite zlen_app, zlen_one. Qed.
Lemma zlen_reverse {A} (l : list A) : zlen (reverse l) = zlen l.
Proof. unfold zlen. by rewrite length_reverse. Qed.
Lemma zlen_fmap {A B} (f : A -> B) l : zlen (f <$> l) = zlen l.
Proof. unfold zlen. by rewrite length_fmap. Qed.
#[export] Hint Rewrite @zlen_app @zlen_cons @zlen_nil @zlen_reverse @zlen_fmap : zlen.

(** Reading a list at an integer index; [None] out of range. *)
Definition znth {A} (l : list A) (i : Z) : option A :=
  if decide (0 <= i) then l !! Z.to_nat i else None.

(** Writing at an integer index; [None] out of range. *)
Definition zset {A} (l : list A) (i : Z) (x : A) : option (list A) :=
  if decide (0 <= i < zlen l) then Some (<[Z.to_nat i := x]> l) else None.

Lemma znth_nat {A} (l : list A) (i : nat) : znth l (Z.of_nat i) = l !! i.
Proof. unfold znth. rewrite decide_True by lia. by rewrite Nat2Z.id. Qed.

Lemma znth_Some {A} (l : list A) i :
  0 <= i < zlen l -> exists x, znth l i = Some x.
Proof.
  unfold znth, zlen. intros. rewrite decide_True by lia.
  apply lookup_lt_is_Some. lia.
Qed.

Lemma znth_Some_bound {A} (l : list A) i x :
  znth l i = Some x -> 0 <= i < zlen l.
Proof.
  unfold znth, zlen. case_decide; [|done]. intros ?%lookup_lt_Some. lia.
Qed.

Lemma znth_ge {A} (l : list A) i : zlen l <= i -> znth l i = None.
Proof.
  unfold znth, zlen. intros. case_decide; [|done]. apply lookup_ge_None_2. lia.
Qed.

Lemma znth_app_l {A} (l k : list A) i :
  i < zlen l -> znth (l ++ k) i = znth l i.
Proof.
  unfold znth, zlen. intros. case_decide; [|done]. apply lookup_app_l. lia.
Qed.

Lemma znth_app_r {A} (l k : list A) i :
  zlen l <= i -> znth (l ++ k) i = znth k (i - zlen l).
Proof.
  unfold znth, zlen. intros. rewrite !decide_True by lia.
  rewrite lookup_app_r by lia. f_equal. lia.
Qed.

Lemma zset_nat {A} (l : list A) (i : nat) x :
  (i < length l)%nat -> zset l (Z.of_nat i) x = Some (<[i := x]> l).
Proof.
  intros. unfold zset, zlen. rewrite decide_True by lia. by rewrite Nat2Z.id.
Qed.

Lemma zset_length {A} (l l' : list A) i x :
  zset l i x = Some l' -> length l' = length l.
Proof.
  unfold zset. case_decide; [|done]. intros [= <-]. apply length_insert.
Qed.

Lemma znth_cons_0 {A} (x : A) l : znth (x :: l) 0 = Some x.
Proof. done. Qed.

Lemma znth_cons_S {A} (x : A) l i :
  0 <= i -> znth (x :: l) (1 + i) = znth l i.
Proof.
  unfold znth. intros. rewrite !decide_True by lia.
  replace (Z.to_nat (1 + i)) with (S (Z.to_nat i)) by lia. done.
Qed.

Lemma znth_app_mid {A} (a b : list A) x i :
  i = zlen a -> znth (a ++ x :: b) i = Some x.
Proof.
  intros ->. rewrite znth_app_r by lia. by rewrite Z.sub_diag.
Qed.

Lemma zset_app_mid {A} (a b : list A) x y i :
  i = zlen a -> zset (a ++ x :: b) i y = Some (a ++ y :: b).
Proof.
  intros ->. unfold zset. rewrite decide_True.
  - unfold zlen. rewrite Nat2Z.id. f_equal.
    replace (length a) with (length a + 0)%nat by lia. by rewrite insert_app_r.
  - rewrite zlen_app, zlen_cons. pose proof (zlen_nonneg a).
    pose proof (zlen_nonneg b). lia.
Qed.

(** The last element of a non-empty list. *)
Lemma zlen_snoc {A} (l : list A) k :
  0 <= k -> zlen l = k + 1 -> exists l' x, l = l' ++ [x] /\ zlen l' = k.
Proof.
  intros Hk H. destruct l as [|x l _] using rev_ind; [rewrite zlen_nil in H; lia|].
  rewrite zlen_app, zlen_cons, zlen_nil in H. exists l, x. split; [done|lia].
Qed.

(** ** Memory blocks *)

(** [n] bytes read at offset [off]; [None] unless they are all inside. *)
Definition mem_read (m : list Z) (off n : Z) : option (list Z) :=
  if decide (0 <= off /\ 0 <= n /\ off + n <= zlen m)
  then Some (take (Z.to_nat n) (drop (Z.to_nat off) m)) else None.

(** The bytes [bs] written at offset [off]. *)
Definition mem_write (m : list Z) (off : Z) (bs : list Z) : option (list Z) :=
  if decide (0 <= off /\ off + zlen bs <= zlen m)
  then Some (take (Z.to_nat off) m ++ bs ++ drop (Z.to_nat off + length bs) m)
  else None.

(** [memmove(m + dst, m + src, n)]: the overlapping copy inside one block. *)
Definition memmove (m : list Z) (dst src n : Z) : option (list Z) :=
  bs ← mem_read m src n; mem_write m dst bs.

(** [realloc]: the common prefix is kept, and a byte the new block has and the
    old one had not is whatever [junk] says about its offset. *)
Definition realloc (junk : nat -> Z) (m : list Z) (n : Z) : list Z :=
  take (Z.to_nat n) m ++
  (junk <$> seq (length m) (Z.to_nat n - length m)).

Lemma realloc_length junk m n : length (realloc junk m n) = Z.to_nat n.
Proof.
  unfold realloc. rewrite length_app, length_take, length_fmap, length_seq. lia.
Qed.

Lemma realloc_grow junk m n :
  zlen m <= n -> exists j, realloc junk m n = m ++ j /\ zlen j = n - zlen m.
Proof.
  intros. unfold zlen in *. eexists. unfold realloc. rewrite take_ge by lia.
  split; [done|]. rewrite length_fmap, length_seq. lia.
Qed.

Lemma realloc_shrink junk m k n :
  zlen m = n -> realloc junk (m ++ k) n = m.
Proof.
  unfold zlen, realloc. intros <-. rewrite Nat2Z.id, length_app.
  replace (_ - _)%nat with 0%nat by lia. simpl.
  by rewrite app_nil_r, take_app_length.
Qed.

Global Arguments mem_read : simpl never.
Global Arguments mem_write : simpl never.
Global Arguments realloc : simpl never.
Global Arguments wrap : simpl never.
Global Arguments swrap : simpl never.

(** Reading and writing a block that is given as three pieces. *)
Lemma mem_read_app a b c off n :
  off = zlen a -> n = zlen b -> mem_read (a ++ b ++ c) off n = Some b.
Proof.
  intros -> ->. unfold mem_read. rewrite decide_True.
  - unfold zlen. rewrite !Nat2Z.id.
    by rewrite drop_app_length, take_app_length.
  - rewrite !zlen_app. pose proof (zlen_nonneg a). pose proof (zlen_nonneg b).
    pose proof (zlen_nonneg c). lia.
Qed.

Lemma mem_write_app a b b' c off :
  off = zlen a -> zlen b = zlen b' ->
  mem_write (a ++ b ++ c) off b' = Some (a ++ b' ++ c).
Proof.
  intros -> Hb. unfold mem_write. rewrite decide_True.
  - unfold zlen in *. rewrite Nat2Z.id, take_app_length. do 3 f_equal.
    rewrite app_assoc, drop_app_length'; [done|]. rewrite length_app. lia.
  - rewrite !zlen_app. pose proof (zlen_nonneg a). pose proof (zlen_nonneg c).
    lia.
Qed.

Lemma mem_read_spec m off n bs :
  mem_read m off n = Some bs ->
  0 <= off /\ 0 <= n /\ zlen bs = n /\
  m = take (Z.to_nat off) m ++ bs ++ drop (Z.to_nat (off + n)) m.
Proof.
  unfold mem_read. case_decide as H; [|done]. intros [= <-].
  destruct H as (H1 & H2 & H3).
  split; [done|]. split; [done|]. unfold zlen in *.
  rewrite length_take, length_drop. split; [lia|].
  replace (Z.to_nat (off + n)) with (Z.to_nat off + Z.to_nat n)%nat by lia.
  rewrite <- drop_drop, (take_drop (Z.to_nat n)). by rewrite take_drop.
Qed.

Lemma mem_write_length m off bs m' :
  mem_write m off bs = Some m' -> length m' = length m.
Proof.
  unfold mem_write, zlen. case_decide as H; [|done]. intros [= <-].
  rewrite !length_app, length_take, length_drop. unfold zlen in H. lia.
Qed.

(** ** Little-endian words *)

Fixpoint le_encode (n : nat) (v : Z) : list Z :=
  match n with
  | O => []
  | S n' => v mod 256 :: le_encode n' (v / 256)
  end.

Fixpoint le_decode (bs : list Z) : Z :=
  match bs with
  | [] => 0
  | b :: bs' => b + 256 * le_decode bs'
  end.

Lemma le_encode_length n v : length (le_encode n v) = n.
Proof. revert v. induction n; intros; simpl; auto. Qed.

Lemma le_encode_ok n v : bytes_ok (le_encode n v).
Proof.
  revert v. induction n as [|n IH]; intros; simpl; constructor; [|apply IH].
  unfold byte_ok. pose proof (Z.mod_pos_bound v 256). lia.
Qed.

Lemma le_decode_encode n v : le_decode (le_encode n v) = v mod 256 ^ Z.of_nat n.
Proof.
  revert v. induction n as [|n IH]; intros v.
  - simpl. by rewrite Z.mod_1_r.
  - cbn [le_encode le_decode]. rewrite IH, Nat2Z.inj_succ, Z.pow_succ_r by lia.
    rewrite Z.rem_mul_r by (try apply Z.pow_pos_nonneg; lia). lia.
Qed.

Lemma le_encode_decode bs :
  bytes_ok bs -> le_encode (length bs) (le_decode bs) = bs.
Proof.
  induction 1 as [|b bs Hb _ IH]; simpl; [done|]. unfold byte_ok in Hb.
  rewrite Z.add_comm, Z.mul_comm, Z_div_plus_full_l, Z.div_small by lia.
  rewrite Z.add_comm, Z.mod_add, Z.mod_small by lia.
  by rewrite Z.add_0_r, IH.
Qed.

Lemma le_decode_bound bs :
  bytes_ok bs -> 0 <= le_decode bs < 256 ^ zlen bs.
Proof.
  unfold zlen. induction 1 as [|b bs Hb _ IH]; simpl length; [simpl; lia|].
  cbn [le_decode]. rewrite Nat2Z.inj_succ, Z.pow_succ_r by lia.
  unfold byte_ok in Hb. lia.
Qed.

Lemma le_decode_app a b :
  le_decode (a ++ b) = le_decode a + 256 ^ zlen a * le_decode b.
Proof.
  induction a as [|x a IH]; [unfold zlen; simpl; lia|].
  rewrite <- app_comm_cons. cbn [le_decode]. rewrite IH, zlen_cons.
  rewrite Z.pow_add_r by (try apply zlen_nonneg; lia). lia.
Qed.

(** ** Lists *)

Lemma Forall_lookup_Z {A} (P : A -> Prop) l i x :
  Forall P l -> znth l i = Some x -> P x.
Proof.
  unfold znth. case_decide; [|done]. intros. by eapply Forall_lookup_1.
Qed.

(** Chunks of one size, laid out one after the other. *)
Lemma concat_split_at (e : nat) (cs : list (list Z)) i c :
  cs !! i = Some c -> Forall (fun c => length c = e) cs ->
  concat cs = concat (take i cs) ++ c ++ concat (drop (S i) cs) /\
  length (concat (take i cs)) = (i * e)%nat /\ length c = e.
Proof.
  intros Hi Hall. split; [|split].
  - rewrite <- (take_drop_middle cs i c Hi) at 1.
    by rewrite concat_app.
  - apply lookup_lt_Some in Hi. clear c. revert i Hi.
    induction Hall as [|c cs Hc _ IH]; intros [|i] Hi; simpl in *; try lia.
    rewrite length_app, IH by lia. lia.
  - by eapply Forall_lookup_1 in Hall.
Qed.

Section Filter.
Context {A : Type} (P : A -> Prop).
Context `{forall x, Decision (P x)}.

Lemma filter_all l : Forall P l -> filter P l = l.
Proof.
  induction 1 as [|x l Hx _ IH]; [done|]. rewrite filter_cons_True by done. by rewrite IH.
Qed.

Lemma filter_none l : Forall (fun x => ~ P x) l -> filter P l = [].
Proof.
  induction 1 as [|x l Hx _ IH]; [done|]. by rewrite filter_cons_False by done.
Qed.
End Filter.

(** Case analysis on boolean comparisons of the goal and the context. *)
Ltac bool_cases :=
  repeat match goal with
  | |- context [Z.eqb ?a ?b] => destruct (Z.eqb_spec a b)
  | |- context [Z.leb ?a ?b] => destruct (Z.leb_spec a b)
  | |- context [Z.ltb ?a ?b] => destruct (Z.ltb_spec a b)
  end.
