(* ===== verification/Endian.v ===== *)
(** [src/redis-3.0.0/src/endianconv.c]: in-place byte reversal of 16, 32 and
    64-bit words.  The development fixes a little-endian host, where the
    [memrev*ifbe] and [intrev*ifbe] macros of endianconv.h are the identity. *)
From S2P Require Import Prelude.

(** [t = x[i]; x[i] = x[j]; x[j] = t], the step each [memrev] repeats. *)
Definition byte_swap (x : list Z) (i j : Z) : option (list Z) :=
  t ← znth x i;
  u ← znth x j;
  x1 ← zset x i u;
  zset x1 j t.

Definition memrev16 (x : list Z) : option (list Z) := byte_swap x 0 1.

Definition memrev32 (x : list Z) : option (list Z) :=
  x ← byte_swap x 0 3; byte_swap x 1 2.

Definition memrev64 (x : list Z) : option (list Z) :=
  x ← byte_swap x 0 7;
  x ← byte_swap x 1 6;
  x ← byte_swap x 2 5;
  byte_swap x 3 4.

(** [memrevN(&v)] on the bytes of a local variable, then its value. *)
Definition intrev (memrev : list Z -> option (list Z)) (n : nat) (v : Z)
  : option Z :=
  x ← memrev (le_encode n v); Some (le_decode x).

Definition intrev16 : Z -> option Z := intrev memrev16 2.
Definition intrev32 : Z -> option Z := intrev memrev32 4.
Definition intrev64 : Z -> option Z := intrev memrev64 8.

(** The big-endian bytes of a word. *)
Definition be_encode (n : nat) (v : Z) : list Z := reverse (le_encode n v).
Definition be_decode (bs : list Z) : Z := le_decode (reverse bs).

Lemma byte_swap_nat x (i j : nat) a b :
  x !! i = Some a -> x !! j = Some b ->
  byte_swap x (Z.of_nat i) (Z.of_nat j) = Some (<[j := a]> (<[i := b]> x)).
Proof.
  intros Hi Hj. pose proof (lookup_lt_Some _ _ _ Hi).
  pose proof (lookup_lt_Some _ _ _ Hj).
  unfold byte_swap. rewrite !znth_nat, Hi, Hj. simpl.
  rewrite zset_nat by done. simpl. by rewrite zset_nat by (by rewrite length_insert).
Qed.

(** One swap of a block whose bytes are written out. *)
Ltac byte_swap_step i j :=
  erewrite (byte_swap_nat _ i j) by reflexivity; cbn [mbind option_bind list_insert insert].

Lemma memrev16_reverse a b r : memrev16 (a :: b :: r) = Some (b :: a :: r).
Proof. unfold memrev16. by byte_swap_step 0%nat 1%nat. Qed.

Lemma memrev32_reverse a b c d r :
  memrev32 (a :: b :: c :: d :: r) = Some (d :: c :: b :: a :: r).
Proof.
  unfold memrev32. byte_swap_step 0%nat 3%nat. byte_swap_step 1%nat 2%nat. reflexivity.
Qed.

Lemma memrev64_reverse a b c d e f g h r :
  memrev64 (a :: b :: c :: d :: e :: f :: g :: h :: r) =
  Some (h :: g :: f :: e :: d :: c :: b :: a :: r).
Proof.
  unfold memrev64. byte_swap_step 0%nat 7%nat. byte_swap_step 1%nat 6%nat.
  byte_swap_step 2%nat 5%nat. byte_swap_step 3%nat 4%nat. reflexivity.
Qed.

(** A word reversal that reverses every block of [n] bytes. *)
Definition reverses (memrev : list Z -> option (list Z)) (n : nat) : Prop :=
  forall x, length x = n -> memrev x = Some (reverse x).

Lemma memrev16_reverses : reverses memrev16 2.
Proof. by intros [|a [|b [|]]]. Qed.

Lemma memrev32_reverses : reverses memrev32 4.
Proof. by intros [|a [|b [|c [|d [|]]]]]. Qed.

Lemma memrev64_reverses : reverses memrev64 8.
Proof. by intros [|a [|b [|c [|d [|e [|f [|g [|h [|]]]]]]]]]. Qed.

Lemma intrev_spec memrev n v :
  reverses memrev n -> intrev memrev n v = Some (le_decode (be_encode n v)).
Proof.
  intros H. unfold intrev. rewrite H by apply le_encode_length. done.
Qed.

Lemma bytes_ok_reverse bs : bytes_ok bs -> bytes_ok (reverse bs).
Proof. apply Forall_reverse. Qed.

(** Reversing twice gives the word back: the shared proof of the three. *)
Lemma intrev_involutive memrev n v :
  reverses memrev n -> 0 <= v < 256 ^ Z.of_nat n ->
  (intrev memrev n v ≫= intrev memrev n) = Some v.
Proof.
  intros H Hv. rewrite (intrev_spec memrev n v H). simpl.
  rewrite intrev_spec by done. f_equal. unfold be_encode.
  set (x := reverse (le_encode n v)).
  assert (length x = n) as Hlen
    by (unfold x; rewrite length_reverse; apply le_encode_length).
  rewrite <- Hlen at 1. rewrite le_encode_decode.
  - unfold x. rewrite reverse_involutive, le_decode_encode.
    by rewrite Z.mod_small.
  - apply bytes_ok_reverse, le_encode_ok.
Qed.

(** [intrev16], [intrev32] and [intrev64] turn a word into the one whose
    little-endian bytes are its big-endian bytes, and each undoes itself. *)
Theorem intrev_correct (v16 v32 v64 : Z)
  (H16 : in_u 16 v16) (H32 : in_u 32 v32) (H64 : in_u 64 v64) :
  (intrev16 v16 = Some (be_decode (le_encode 2 v16)) /\
   (intrev16 v16 ≫= intrev16) = Some v16) /\
  (intrev32 v32 = Some (be_decode (le_encode 4 v32)) /\
   (intrev32 v32 ≫= intrev32) = Some v32) /\
  (intrev64 v64 = Some (be_decode (le_encode 8 v64)) /\
   (intrev64 v64 ≫= intrev64) = Some v64).
Proof.
  unfold intrev16, intrev32, intrev64.
  repeat split;
    (apply intrev_spec || apply intrev_involutive);
    try apply memrev16_reverses; try apply memrev32_reverses;
    try apply memrev64_reverses; cint.
Qed.

Lemma intrev_correct_witness :
  (intrev16 258 ≫= intrev16) = Some 258 /\ intrev32 1 = Some 16777216 /\
  (intrev64 1 ≫= intrev64) = Some 1.
Proof.
  pose proof (intrev_correct 258 1 1 ltac:(cint) ltac:(cint) ltac:(cint))
    as ((_ & H16) & (H32 & _) & (_ & H64)).
  split; [exact H16|]. split; [rewrite H32; reflexivity | exact H64].
Defined.
