(* ===== verification/Intset.v ===== *)
(** [src/redis-3.0.0/src/intset.c]: the set of integers that small Redis sets
    of integers are stored in.  The elements are a sorted array of 2, 4 or
    8-byte little-endian integers in one allocation, and the whole array is
    rewritten when an element needs a wider encoding.

    The state is the structure with its [contents] as bytes.  The abstract
    state is the strictly increasing list of its elements, related to it by
    [irep]; the theorems show that each operation implements the operation on
    sets and never leaves the allocation. *)
From stdpp Require Import gmap.
From S2P Require Import Prelude.
Local Open Scope c_scope.

Definition INTSET_ENC_INT16 : Z := 2.
Definition INTSET_ENC_INT32 : Z := 4.
Definition INTSET_ENC_INT64 : Z := 8.

Definition INT16_MIN : Z := -32768.
Definition INT16_MAX : Z := 32767.
Definition INT32_MIN : Z := -2147483648.
Definition INT32_MAX : Z := 2147483647.

(** [typedef struct intset]. *)
Record intset := mk_intset {
  is_encoding : Z;
  is_length : Z;
  is_contents : list Z;
}.

Definition set_encoding (e : Z) (s : intset) : intset :=
  mk_intset e (is_length s) (is_contents s).
Definition set_length (n : Z) (s : intset) : intset :=
  mk_intset (is_encoding s) n (is_contents s).
Definition set_contents (m : list Z) (s : intset) : intset :=
  mk_intset (is_encoding s) (is_length s) m.

Definition _intsetValueEncoding (v : Z) : Z :=
  if (v <? INT32_MIN) || (INT32_MAX <? v) then INTSET_ENC_INT64
  else if (v <? INT16_MIN) || (INT16_MAX <? v) then INTSET_ENC_INT32
  else INTSET_ENC_INT16.

Definition _intsetGetEncoded (s : intset) (pos enc : Z) : option Z :=
  if enc =? INTSET_ENC_INT64 then
    bs ← mem_read (is_contents s) (8 * pos) 8; Some (s64 (le_decode bs))
  else if enc =? INTSET_ENC_INT32 then
    bs ← mem_read (is_contents s) (4 * pos) 4; Some (s32 (le_decode bs))
  else
    bs ← mem_read (is_contents s) (2 * pos) 2; Some (s16 (le_decode bs)).

Definition _intsetGet (s : intset) (pos : Z) : option Z :=
  _intsetGetEncoded s pos (is_encoding s).

Definition _intsetSet (s : intset) (pos value : Z) : option intset :=
  let encoding := is_encoding s in
  m ← (if encoding =? INTSET_ENC_INT64 then
         mem_write (is_contents s) (8 * pos) (le_encode 8 value)
       else if encoding =? INTSET_ENC_INT32 then
         mem_write (is_contents s) (4 * pos) (le_encode 4 value)
       else
         mem_write (is_contents s) (2 * pos) (le_encode 2 value));
  Some (set_contents m s).

Definition intsetNew : intset := mk_intset INTSET_ENC_INT16 0 [].

(** The binary search loop; the result is [(min, mid, cur)] where it stops. *)
Fixpoint intsetSearch_loop (s : intset) (value : Z) (fuel : nat)
    (min max mid cur : Z) : option (Z * Z * Z) :=
  match fuel with
  | O => None
  | S fuel =>
      if min <=? max then
        let mid := s32 ((u32 min +[32] u32 max) >> 1) in
        cur ← _intsetGet s mid;
        if cur <? value then
          intsetSearch_loop s value fuel (s32 (mid + 1)) max mid cur
        else if value <? cur then
          intsetSearch_loop s value fuel min (s32 (mid - 1)) mid cur
        else Some (min, mid, cur)
      else Some (min, mid, cur)
  end.

(** The result is [(found, *pos)]. *)
Definition intsetSearch (s : intset) (value : Z) : option (Z * Z) :=
  let length := is_length s in
  let min := 0 in
  let max := s32 (length -[32] 1) in
  if length =? 0 then Some (0, 0)
  else
    last ← _intsetGet s (s32 (length -[32] 1));
    if last <? value then Some (0, length)
    else
      first ← _intsetGet s 0;
      if value <? first then Some (0, 0)
      else
        '(min, mid, cur) ←
          intsetSearch_loop s value (S (Z.to_nat length)) min max (-1) (-1);
        if value =? cur then Some (1, u32 mid) else Some (0, u32 min).

Definition intsetMoveTail (s : intset) (from to : Z) : option intset :=
  let bytes := is_length s -[32] from in
  let encoding := is_encoding s in
  m ← (if encoding =? INTSET_ENC_INT64 then
         memmove (is_contents s) (8 * to) (8 * from) (bytes *[32] 8)
       else if encoding =? INTSET_ENC_INT32 then
         memmove (is_contents s) (4 * to) (4 * from) (bytes *[32] 4)
       else
         memmove (is_contents s) (2 * to) (2 * from) (bytes *[32] 2));
  Some (set_contents m s).

(** [while(length--) _intsetSet(is,length+prepend,_intsetGetEncoded(...))] *)
Fixpoint intsetUpgrade_loop (s : intset) (curenc prepend : Z) (length : nat)
  : option intset :=
  match length with
  | O => Some s
  | S length =>
      v ← _intsetGetEncoded s (Z.of_nat length) curenc;
      s ← _intsetSet s (Z.of_nat length + prepend) v;
      intsetUpgrade_loop s curenc prepend length
  end.

Section Allocator.
(** The contents of memory that [realloc] adds to a block. *)
Context (junk : nat -> Z).

Definition intsetResize (s : intset) (len : Z) : intset :=
  let size := len *[32] is_encoding s in
  set_contents (realloc junk (is_contents s) size) s.

Definition intsetUpgradeAndAdd (s : intset) (value : Z) : option intset :=
  let curenc := u8 (is_encoding s) in
  let newenc := _intsetValueEncoding value in
  let length := s32 (is_length s) in
  let prepend := if value <? 0 then 1 else 0 in
  let s := set_encoding newenc s in
  let s := intsetResize s (is_length s +[32] 1) in
  s ← intsetUpgrade_loop s curenc prepend (Z.to_nat length);
  s ← (if prepend =? 1 then _intsetSet s 0 value
        else _intsetSet s (s32 (is_length s)) value);
  Some (set_length (is_length s +[32] 1) s).

(** The result is the set and [*success]. *)
Definition intsetAdd (s : intset) (value : Z) : option (intset * Z) :=
  let valenc := _intsetValueEncoding value in
  if is_encoding s <? valenc then
    s ← intsetUpgradeAndAdd s value; Some (s, 1)
  else
    '(found, pos) ← intsetSearch s value;
    if found =? 1 then Some (s, 0)
    else
      let s := intsetResize s (is_length s +[32] 1) in
      s ← (if pos <? is_length s then intsetMoveTail s pos (pos +[32] 1)
            else Some s);
      s ← _intsetSet s (s32 pos) value;
      Some (set_length (is_length s +[32] 1) s, 1).

Definition intsetRemove (s : intset) (value : Z) : option (intset * Z) :=
  let valenc := _intsetValueEncoding value in
  if valenc <=? is_encoding s then
    '(found, pos) ← intsetSearch s value;
    if found =? 1 then
      let len := is_length s in
      s ← (if pos <? len -[32] 1 then intsetMoveTail s (pos +[32] 1) pos
            else Some s);
      let s := intsetResize s (len -[32] 1) in
      Some (set_length (len -[32] 1) s, 1)
    else Some (s, 0)
  else Some (s, 0).
End Allocator.

Definition intsetFind (s : intset) (value : Z) : option Z :=
  let valenc := _intsetValueEncoding value in
  if valenc <=? is_encoding s then
    '(found, _) ← intsetSearch s value; Some found
  else Some 0.

(** [intsetRandom] with the value [rand()] returned; a division by zero is
    undefined. *)
Definition intsetRandom (rand : Z) (s : intset) : option Z :=
  if is_length s =? 0 then None
  else _intsetGet s (s32 (u32 rand mod is_length s)).

(** The result is the returned flag and [*value] when it is written. *)
Definition intsetGet (s : intset) (pos : Z) : option (Z * option Z) :=
  if pos <? is_length s then
    v ← _intsetGet s (s32 pos); Some (1, Some v)
  else Some (0, None).

Definition intsetLen (s : intset) : Z := is_length s.

(** [sizeof(intset)] is 8; [uint32_t * uint32_t] wraps, the sum is a size_t. *)
Definition intsetBlobLen (s : intset) : Z :=
  8 + (is_length s *[32] is_encoding s).

(** ** The abstract state *)

Definition enc_ok (e : Z) : Prop := e = 2 \/ e = 4 \/ e = 8.

(** The bytes of an element, and of an array of elements. *)
Definition elem (e x : Z) : list Z := le_encode (Z.to_nat e) x.
Definition elems (e : Z) (xs : list Z) : list Z := concat (elem e <$> xs).
Global Arguments elem : simpl never.
Global Arguments elems : simpl never.

(** [irep s xs]: the structure [s] holds exactly the elements [xs]. *)
Record irep (s : intset) (xs : list Z) : Prop := mk_irep {
  irep_enc : enc_ok (is_encoding s);
  irep_len : is_length s = zlen xs;
  irep_mem : is_contents s = elems (is_encoding s) xs;
  irep_range : Forall (in_s (8 * is_encoding s)) xs;
  irep_sorted : StronglySorted Z.lt xs;
}.

(** The blob of the set stays below 4 GiB after one more insertion, so that
    [intsetResize] does not wrap. *)
Definition fits (xs : list Z) : Prop := 8 * (zlen xs + 1) < 2 ^ 32.

(** ** Reading and writing elements *)

Lemma elem_zlen e x : enc_ok e -> zlen (elem e x) = e.
Proof. intros H. unfold elem, zlen. rewrite le_encode_length. unfold enc_ok in H. lia. Qed.

Lemma elems_zlen e xs : enc_ok e -> zlen (elems e xs) = e * zlen xs.
Proof.
  intros He. induction xs as [|x xs IH]; [unfold zlen; simpl; lia|].
  change (elems e (x :: xs)) with (elem e x ++ elems e xs).
  rewrite zlen_app, elem_zlen, zlen_cons, IH by done. lia.
Qed.

Lemma elems_app e xs ys : elems e (xs ++ ys) = elems e xs ++ elems e ys.
Proof. unfold elems. by rewrite fmap_app, concat_app. Qed.

Lemma elems_cons e x xs : elems e (x :: xs) = elem e x ++ elems e xs.
Proof. done. Qed.

Lemma elems_one e x : elems e [x] = elem e x.
Proof. unfold elems. simpl. by rewrite app_nil_r. Qed.

Lemma sdecode_elem e x :
  enc_ok e -> in_s (8 * e) x -> swrap (8 * e) (le_decode (elem e x)) = x.
Proof.
  intros He Hx. unfold elem. rewrite le_decode_encode.
  replace (256 ^ Z.of_nat (Z.to_nat e)) with (2 ^ (8 * e))
    by (destruct He as [->|[->| ->]]; reflexivity).
  rewrite <- (swrap_small (8 * e) x) at 2
    by (done || (unfold enc_ok in He; lia)).
  unfold swrap. f_equal. rewrite Zplus_mod_idemp_l. done.
Qed.

(** The three branches on the encoding, as one. *)
Lemma getEncoded_eq s pos e :
  enc_ok e ->
  _intsetGetEncoded s pos e =
  (bs ← mem_read (is_contents s) (e * pos) e;
   Some (swrap (8 * e) (le_decode bs))).
Proof. by intros [->|[->| ->]]. Qed.

Lemma setEncoded_eq s pos v :
  enc_ok (is_encoding s) ->
  _intsetSet s pos v =
  (m ← mem_write (is_contents s) (is_encoding s * pos) (elem (is_encoding s) v);
   Some (set_contents m s)).
Proof. unfold _intsetSet. by intros [->|[->| ->]]. Qed.

Lemma moveTail_eq s from to :
  enc_ok (is_encoding s) ->
  intsetMoveTail s from to =
  (m ← memmove (is_contents s) (is_encoding s * to) (is_encoding s * from)
         ((is_length s -[32] from) *[32] is_encoding s);
   Some (set_contents m s)).
Proof. unfold intsetMoveTail. by intros [->|[->| ->]]. Qed.

Lemma getEncoded_at s a x b pos e :
  enc_ok e -> is_contents s = a ++ elem e x ++ b -> zlen a = e * pos ->
  in_s (8 * e) x -> _intsetGetEncoded s pos e = Some x.
Proof.
  intros He Hm Ha Hx. rewrite getEncoded_eq, Hm by done.
  rewrite mem_read_app by (rewrite ?elem_zlen by done; lia).
  simpl. by rewrite sdecode_elem.
Qed.

Lemma set_at s a c b pos v :
  enc_ok (is_encoding s) -> is_contents s = a ++ c ++ b ->
  zlen a = is_encoding s * pos -> zlen c = is_encoding s ->
  _intsetSet s pos v =
  Some (set_contents (a ++ elem (is_encoding s) v ++ b) s).
Proof.
  intros He Hm Ha Hc. rewrite setEncoded_eq, Hm by done.
  by rewrite mem_write_app by (rewrite ?elem_zlen by done; lia).
Qed.

Lemma znth_split {A} (xs : list A) i x :
  znth xs i = Some x ->
  xs = take (Z.to_nat i) xs ++ x :: drop (S (Z.to_nat i)) xs /\
  zlen (take (Z.to_nat i) xs) = i.
Proof.
  intros H. pose proof (znth_Some_bound _ _ _ H) as Hb. unfold zlen in *.
  unfold znth in H. rewrite decide_True in H by lia. split.
  - by rewrite (take_drop_middle xs _ x H).
  - rewrite length_take. lia.
Qed.

Lemma get_nth s xs i x :
  irep s xs -> znth xs i = Some x -> _intsetGet s i = Some x.
Proof.
  intros [He Hn Hm Hr _] Hi. destruct (znth_split _ _ _ Hi) as [Hx Hl].
  unfold _intsetGet. eapply getEncoded_at; eauto.
  - rewrite Hm, Hx at 1. by rewrite elems_app, elems_cons.
  - by rewrite elems_zlen, Hl.
  - by eapply Forall_lookup_Z in Hr.
Qed.

(** ** Sorted lists *)

Lemma sorted_znth_lt xs i j x y :
  StronglySorted Z.lt xs -> znth xs i = Some x -> znth xs j = Some y ->
  i < j -> x < y.
Proof.
  intros Hs Hi Hj Hij. destruct (znth_split _ _ _ Hi) as [Hx Hl].
  rewrite Hx in Hs. apply StronglySorted_app in Hs as (_ & _ & Hs).
  apply StronglySorted_cons in Hs as [Hf _].
  rewrite Hx in Hj. rewrite znth_app_r in Hj by lia.
  rewrite Hl in Hj. replace (j - i) with (1 + (j - i - 1)) in Hj by lia.
  rewrite znth_cons_S in Hj by lia. by eapply Forall_lookup_Z in Hf.
Qed.

(** A position that separates the smaller from the greater elements. *)
Definition splits (xs : list Z) (v m : Z) : Prop :=
  0 <= m <= zlen xs /\
  forall i x, znth xs i = Some x -> (i < m -> x < v) /\ (m <= i -> v < x).

Lemma splits_lists xs v m :
  splits xs v m ->
  exists l r, xs = l ++ r /\ zlen l = m /\
    Forall (fun x => x < v) l /\ Forall (fun x => v < x) r.
Proof.
  intros [Hm H]. exists (take (Z.to_nat m) xs), (drop (Z.to_nat m) xs).
  rewrite take_drop. unfold zlen in *. split; [done|].
  split; [rewrite length_take; lia|].
  split; apply Forall_lookup; intros i x Hi.
  - apply lookup_take_Some in Hi as [Hi ?].
    apply (H (Z.of_nat i)); [by rewrite znth_nat | lia].
  - rewrite lookup_drop in Hi.
    apply (H (Z.of_nat (Z.to_nat m + i))); [by rewrite znth_nat | lia].
Qed.

(** ** The search *)

Lemma midpoint min max :
  0 <= min -> min <= max -> max < 2 ^ 31 ->
  let mid := s32 (Z.shiftr (u32 (u32 min + u32 max)) 1) in
  min <= mid <= max.
Proof.
  intros H0 H1 H2. cbv zeta.
  rewrite (wrap_small 32 min), (wrap_small 32 max) by cint.
  rewrite wrap_small by cint. rewrite Z.shiftr_div_pow2 by lia.
  rewrite swrap_small; [| lia |]; unfold in_s; pow2;
    pose proof (Z.div_mod (min + max) 2); pose proof (Z.mod_pos_bound (min + max) 2);
    lia.
Qed.

(** What the loop leaves in [(min, mid, cur)]. *)
Definition search_post (xs : list Z) (v : Z) (r : Z * Z * Z) : Prop :=
  let '(m, md, c) := r in
  (c = v /\ znth xs md = Some v) \/ (c <> v /\ splits xs v m).

Lemma intsetSearch_loop_spec s xs v : irep s xs -> zlen xs < 2 ^ 31 ->
  forall fuel min max mid cur,
  0 <= min -> min <= max + 1 -> max < zlen xs ->
  (forall i x, znth xs i = Some x -> (i < min -> x < v) /\ (max < i -> v < x)) ->
  (min <= max \/ cur <> v) -> (Z.to_nat (max - min + 1) < fuel)%nat ->
  exists r, intsetSearch_loop s v fuel min max mid cur = Some r /\
    search_post xs v r.
Proof.
  intros Hr Hlen. induction fuel as [|fuel IH];
    intros min max mid cur H0 H1 H2 Hsep Hc Hf; [lia|].
  cbn [intsetSearch_loop]. destruct (Z.leb_spec min max) as [Hle|Hgt].
  2: { eexists; split; [done|]. right. split; [lia|].
       split; [lia|]. intros i x Hi. destruct (Hsep i x Hi). lia. }
  pose proof (midpoint min max H0 Hle ltac:(lia)) as Hmid. cbv zeta in Hmid.
  set (m := s32 (Z.shiftr (u32 (u32 min + u32 max)) 1)) in *.
  destruct (znth_Some xs m) as [c Hm]; [lia|].
  rewrite (get_nth _ _ _ _ Hr Hm). simpl.
  pose proof (irep_sorted _ _ Hr) as Hs.
  assert (forall i x, znth xs i = Some x -> (i < m -> x < c) /\ (m < i -> c < x))
    as Hcmp by (split; intros; by eauto using sorted_znth_lt).
  destruct (Z.ltb_spec c v) as [Hlt|Hge]; [|destruct (Z.ltb_spec v c) as [Hlt|Hge']].
  - rewrite swrap_small by cint. apply IH; try lia.
    intros i x Hi. destruct (Hsep i x Hi), (Hcmp i x Hi). split; [|lia].
    intros. destruct (decide (i = m)) as [->|]; [|lia].
    assert (x = c) by congruence. lia.
  - rewrite swrap_small by cint. apply IH; try lia.
    intros i x Hi. destruct (Hsep i x Hi), (Hcmp i x Hi). split; [lia|].
    intros. destruct (decide (i = m)) as [->|]; [|lia].
    assert (x = c) by congruence. lia.
  - eexists; split; [done|]. left. assert (c = v) by lia. by subst.
Qed.

Definition search_result (xs : list Z) (v found pos : Z) : Prop :=
  (found = 1 /\ znth xs pos = Some v) \/ (found = 0 /\ splits xs v pos).

Lemma intsetSearch_spec s xs v :
  irep s xs -> zlen xs < 2 ^ 31 ->
  exists found pos, intsetSearch s v = Some (found, pos) /\
    search_result xs v found pos.
Proof.
  intros Hr Hlen. unfold intsetSearch. rewrite (irep_len _ _ Hr).
  pose proof (zlen_nonneg xs) as Hnn.
  destruct (Z.eqb_spec (zlen xs) 0) as [E|E].
  { do 2 eexists. split; [done|]. right. split; [done|]. split; [lia|].
    intros i x Hi%znth_Some_bound. lia. }
  rewrite wrap_small, swrap_small by cint.
  destruct (znth_Some xs (zlen xs - 1)) as [last Hlast]; [lia|].
  destruct (znth_Some xs 0) as [first Hfirst]; [lia|].
  rewrite (get_nth _ _ _ _ Hr Hlast), (get_nth _ _ _ _ Hr Hfirst). step.
  pose proof (irep_sorted _ _ Hr) as Hs.
  destruct (Z.ltb_spec last v); [|destruct (Z.ltb_spec v first)].
  - do 2 eexists. split; [done|]. right. split; [done|]. split; [lia|].
    intros i x Hi. pose proof (znth_Some_bound _ _ _ Hi). split; [|lia]. intros _.
    destruct (decide (i = zlen xs - 1)) as [->|]; [congruence|].
    assert (x < last) by (eapply sorted_znth_lt; eauto; lia). lia.
  - do 2 eexists. split; [done|]. right. split; [done|]. split; [lia|].
    intros i x Hi. pose proof (znth_Some_bound _ _ _ Hi). split; [lia|]. intros _.
    destruct (decide (i = 0)) as [->|]; [congruence|].
    assert (first < x) by (eapply sorted_znth_lt; eauto; lia). lia.
  - destruct (intsetSearch_loop_spec s xs v Hr Hlen (S (Z.to_nat (zlen xs)))
      0 (zlen xs - 1) (-1) (-1)) as ([[m md] c] & -> & Hpost); try lia.
    { intros i x Hi%znth_Some_bound. lia. }
    simpl. destruct Hpost as [(-> & Hmd)|(Hne & Hsp)].
    + rewrite Z.eqb_refl. pose proof (znth_Some_bound _ _ _ Hmd).
      rewrite wrap_small by cint. do 2 eexists. split; [done|]. by left.
    + destruct (Z.eqb_spec v c); [congruence|]. pose proof (proj1 Hsp).
      rewrite wrap_small by cint. do 2 eexists. split; [done|]. by right.
Qed.

Lemma search_result_found xs v pos : search_result xs v 1 pos -> v ∈ xs.
Proof.
  intros [[_ H]|[? _]]; [|done]. destruct (znth_split _ _ _ H) as [-> _].
  rewrite elem_of_app, elem_of_cons. auto.
Qed.

Lemma search_result_absent xs v pos : search_result xs v 0 pos -> v ∉ xs.
Proof.
  intros [[? _]|[_ [_ H]]]; [done|]. intros [i Hi]%list_elem_of_lookup.
  specialize (H (Z.of_nat i) v). rewrite znth_nat in H.
  destruct (H Hi). lia.
Qed.

(** ** Insertion and removal *)

Lemma enc_pos e : enc_ok e -> 2 <= e <= 8.
Proof. unfold enc_ok. lia. Qed.

Lemma valueEncoding_ok v : enc_ok (_intsetValueEncoding v).
Proof.
  unfold _intsetValueEncoding, enc_ok, INTSET_ENC_INT16, INTSET_ENC_INT32,
    INTSET_ENC_INT64. repeat case_match; lia.
Qed.

Lemma valueEncoding_range e v :
  enc_ok e -> in_s 64 v -> (_intsetValueEncoding v <= e <-> in_s (8 * e) v).
Proof.
  unfold _intsetValueEncoding, INTSET_ENC_INT16, INTSET_ENC_INT32,
    INTSET_ENC_INT64, INT32_MIN, INT32_MAX, INT16_MIN, INT16_MAX, in_s.
  intros He Hv. destruct He as [->|[->| ->]]; simpl in *; pow2;
    bool_cases; simpl; lia.
Qed.

Lemma in_s_mono e e' x : enc_ok e -> enc_ok e' -> e <= e' ->
  in_s (8 * e) x -> in_s (8 * e') x.
Proof.
  intros He He' Hle. unfold in_s. destruct He as [->|[->| ->]];
    destruct He' as [->|[->| ->]]; simpl; pow2; lia.
Qed.

(** [intsetMoveTail] copies the block [b] from element [from] to [to]. *)
Lemma moveTail_at s a b c d e from to :
  enc_ok (is_encoding s) ->
  is_contents s = a ++ b ++ c -> a ++ b ++ c = d ++ e ->
  zlen a = is_encoding s * from -> zlen d = is_encoding s * to ->
  zlen b = (is_length s - from) * is_encoding s ->
  in_u 32 (is_length s - from) -> in_u 32 (zlen b) -> zlen b <= zlen e ->
  intsetMoveTail s from to =
  Some (set_contents (d ++ b ++ drop (length b) e) s).
Proof.
  intros He Hm Heq Ha Hd Hb Hu Hu' Hle.
  rewrite moveTail_eq, Hm by done. unfold memmove.
  rewrite (wrap_small 32 (_ - _)) by done. rewrite <- Hb, wrap_small by done.
  rewrite mem_read_app by lia. step. rewrite Heq.
  rewrite <- (take_drop (length b) e) at 1.
  rewrite (mem_write_app d (take (length b) e) b); [done | lia |].
  unfold zlen in *. rewrite length_take. lia.
Qed.

Lemma resize_grow junk s xs :
  irep s xs -> fits xs ->
  exists j, intsetResize junk s (is_length s +[32] 1) =
    set_contents (elems (is_encoding s) xs ++ j) s /\ zlen j = is_encoding s.
Proof.
  intros [He Hn Hm _ _] Hf. unfold intsetResize, fits in *. pow2.
  pose proof (enc_pos _ He). pose proof (zlen_nonneg xs). pose proof (elems_zlen _ xs He).
  rewrite Hn, (wrap_small 32 (_ + _)) by cint.
  rewrite wrap_small by (unfold in_u; pow2; nia). rewrite Hm.
  destruct (realloc_grow junk (elems (is_encoding s) xs)
    ((zlen xs + 1) * is_encoding s)) as (j & -> & Hj); [nia|].
  exists j. split; [done|]. nia.
Qed.

Lemma insert_sorted_lists (l r : list Z) v :
  StronglySorted Z.lt (l ++ r) -> Forall (fun x => x < v) l ->
  Forall (fun x => v < x) r -> StronglySorted Z.lt (l ++ v :: r).
Proof.
  intros (Hx & Hl & Hr)%StronglySorted_app Hfl Hfr.
  apply StronglySorted_app. split; [|split; [done|]].
  - rewrite Forall_forall in Hfl.
    intros x1 x2 H1 [->|H2]%elem_of_cons; auto.
  - by constructor.
Qed.

(** Insertion at a splitting position, without a change of encoding. *)
Lemma insert_at junk s l r v :
  irep s (l ++ r) -> fits (l ++ r) -> in_s (8 * is_encoding s) v ->
  Forall (fun x => x < v) l -> Forall (fun x => v < x) r ->
  exists s',
    (let s := intsetResize junk s (is_length s +[32] 1) in
     s ← (if zlen l <? is_length s then intsetMoveTail s (zlen l) (zlen l +[32] 1)
          else Some s);
     s ← _intsetSet s (s32 (zlen l)) v;
     Some (set_length (is_length s +[32] 1) s, 1)) = Some (s', 1) /\
    irep s' (l ++ v :: r).
Proof.
  intros Hr Hf Hv Hl Hrr. destruct (resize_grow junk s _ Hr Hf) as (j & -> & Hj).
  pose proof Hr as [He Hn Hm Hrange Hs]. set (e := is_encoding s) in *.
  pose proof (enc_pos e He) as Hpos. unfold fits in Hf.
  rewrite zlen_app in *. pose proof (zlen_nonneg l). pose proof (zlen_nonneg r).
  pow2. cbv zeta. rewrite elems_app, <- app_assoc.
  cbn [is_length set_contents]. rewrite Hn.
  pose proof (elems_zlen e l He) as Hel. pose proof (elems_zlen e r He) as Her.
  assert (irep (set_length (zlen l + zlen r + 1)
     (set_contents (elems e l ++ elem e v ++ elems e r) s)) (l ++ v :: r)) as Hfin.
  { split; cbn [is_encoding is_length is_contents set_contents set_length]; fold e;
      [done | rewrite zlen_app, zlen_cons; lia | by rewrite elems_app | |].
    - apply Forall_app in Hrange as [??]. apply Forall_app; auto.
    - by apply insert_sorted_lists. }
  exists (set_length (zlen l + zlen r + 1)
     (set_contents (elems e l ++ elem e v ++ elems e r) s)). split; [|done].
  rewrite swrap_small by cint. destruct (Z.ltb_spec (zlen l) (zlen l + zlen r)).
  - rewrite (wrap_small 32 (zlen l + 1)) by cint.
    set (x := elems e r ++ j). assert (e <= zlen x) as Hx by (unfold x; rewrite zlen_app; nia).
    rewrite (moveTail_at _ (elems e l) (elems e r) j
      (elems e l ++ take (Z.to_nat e) x) (drop (Z.to_nat e) x)); fold e;
      cbn [is_encoding is_length is_contents set_contents]; fold e; try done.
    + step. rewrite drop_ge by (unfold x, zlen in *; rewrite length_drop, length_app; nia).
      rewrite app_nil_r, <- app_assoc.
      erewrite set_at; [|done|done|done|]; cycle 1.
      { cbn [is_encoding set_contents]. unfold zlen in *. rewrite length_take. fold e. lia. }
      step. cbn [is_length set_contents is_encoding]. rewrite Hn, wrap_small by cint. done.
    + rewrite <- app_assoc. by rewrite take_drop.
    + rewrite zlen_app. unfold zlen in *. rewrite length_take. nia.
    + rewrite Hn. nia.
    + rewrite Hn. cint.
    + unfold in_u. pow2. nia.
    + unfold x, zlen in *. rewrite length_drop, length_app. nia.
  - assert (r = []) as -> by (destruct r; [done|rewrite zlen_cons in *; pose proof (zlen_nonneg r); lia]).
    step. change (elems e []) with (@nil Z). rewrite app_nil_l.
    rewrite <- (app_nil_r j). erewrite set_at; [|done|done|done|done].
    step. cbn [is_length set_contents is_encoding]. rewrite Hn, wrap_small by cint.
    done.
Qed.

(** The state of the in-place upgrade when the first [n] elements are still in
    the old encoding: old elements at the front, new ones from element
    [n + prepend] on. *)
Definition upgrading (s : intset) (xs : list Z) (cur p : Z) (n : nat)
    (tail : list Z) : Prop :=
  let e := is_encoding s in
  zlen (is_contents s) = (zlen xs + 1) * e /\
  take (n * Z.to_nat cur) (is_contents s) = elems cur (take n xs) /\
  drop ((n + Z.to_nat p) * Z.to_nat e) (is_contents s) =
    elems e (drop n xs) ++ tail.

Lemma upgrade_loop_spec cur p xs tail :
  enc_ok cur -> (p = 0 \/ p = 1) -> Forall (in_s (8 * cur)) xs ->
  forall n s, enc_ok (is_encoding s) -> cur <= is_encoding s ->
  (n <= length xs)%nat -> upgrading s xs cur p n tail ->
  exists s', intsetUpgrade_loop s cur p n = Some s' /\
    upgrading s' xs cur p 0 tail /\
    is_encoding s' = is_encoding s /\ is_length s' = is_length s.
Proof.
  intros Hc Hp Hall. induction n as [|n IH]; intros s He Hle Hn Hup.
  { exists s. auto. }
  destruct (lookup_lt_is_Some_2 xs n) as [x Hx]; [lia|].
  assert (in_s (8 * cur) x) as Hxs by (by eapply Forall_lookup_1 in Hall).
  pose proof (enc_pos _ Hc) as Hcp. pose proof (enc_pos _ He) as Hep.
  destruct Hup as (Hlen & Hold & Hnew). set (m := is_contents s) in *.
  set (e := is_encoding s) in *. cbn [intsetUpgrade_loop].
  assert (length (elems cur (take n xs)) = n * Z.to_nat cur)%nat as Hln.
  { pose proof (elems_zlen cur (take n xs) Hc) as H. unfold zlen in H.
    rewrite length_take in H. lia. }
  assert (m = elems cur (take n xs) ++ elem cur x ++ drop (S n * Z.to_nat cur) m)
    as Hm.
  { rewrite <- (take_drop (S n * Z.to_nat cur) m) at 1. rewrite Hold.
    by rewrite (take_S_r _ _ _ Hx), elems_app, elems_one, <- app_assoc. }
  erewrite getEncoded_at; [|done|exact Hm|unfold zlen; nia|done]. step.
  set (off := ((n + Z.to_nat p) * Z.to_nat e)%nat).
  assert (off + Z.to_nat e <= length m)%nat as Hoff by (unfold zlen in Hlen; nia).
  assert (drop (off + Z.to_nat e) m = elems e (drop (S n) xs) ++ tail) as Hdr.
  { rewrite <- Hnew. f_equal. unfold off. lia. }
  assert (m = take off m ++ take (Z.to_nat e) (drop off m) ++
              drop (off + Z.to_nat e) m) as Hm'.
  { rewrite <- (take_drop off m) at 1. f_equal.
    rewrite <- (take_drop (Z.to_nat e) (drop off m)) at 1. by rewrite drop_drop. }
  erewrite set_at; [|done|exact Hm'| |]; fold e; cycle 1.
  { unfold zlen. rewrite length_take, Nat.min_l by lia. unfold off. nia. }
  { unfold zlen. rewrite length_take, length_drop, Nat.min_l by lia. lia. }
  step. set (s' := set_contents _ s).
  assert (length (take off m) = off) as Hto by (rewrite length_take; lia).
  destruct (IH s') as (s'' & ? & ? & ? & ?); [done|done|lia| |by eauto].
  unfold upgrading, s'. cbn [is_contents set_contents is_encoding]. fold e.
  split; [|split].
  - rewrite !zlen_app, elem_zlen by done. unfold zlen in *.
    rewrite Hto, length_drop. lia.
  - rewrite take_app_le by (rewrite Hto; unfold off; nia).
    rewrite take_take, Nat.min_l by (unfold off; nia).
    rewrite Hm, take_app_le by lia. by rewrite take_ge by lia.
  - fold off. rewrite drop_app_length' by done. rewrite Hdr.
    rewrite (drop_S _ _ _ Hx), elems_cons, <- app_assoc. done.
Qed.

Definition upgraded (v : Z) (xs : list Z) : list Z :=
  if v <? 0 then v :: xs else xs ++ [v].

(** A value that needs a wider encoding lies outside the range of the set. *)
Lemma upgraded_sorted e v xs :
  enc_ok e -> ~ in_s (8 * e) v -> Forall (in_s (8 * e)) xs ->
  StronglySorted Z.lt xs -> StronglySorted Z.lt (upgraded v xs).
Proof.
  intros He Hv Hall Hs. unfold upgraded. pose proof (enc_pos e He) as Hpos.
  assert (0 < 2 ^ (8 * e - 1)) by (apply pow2_pos; lia).
  unfold in_s in *. destruct (Z.ltb_spec v 0).
  - constructor; [done|]. eapply Forall_impl; [done|]. simpl. intros. lia.
  - apply StronglySorted_app. split; [|split; [done|repeat constructor]].
    rewrite Forall_forall in Hall.
    intros x1 x2 H1 ->%list_elem_of_singleton. specialize (Hall _ H1). lia.
Qed.

Lemma upgrade_start junk s xs v p :
  irep s xs -> fits xs -> (p = 0 \/ p = 1) ->
  let new := _intsetValueEncoding v in
  let s1 := set_encoding new s in
  let s0 := intsetResize junk s1 (is_length s1 +[32] 1) in
  is_encoding s <= new ->
  exists tail, upgrading s0 xs (is_encoding s) p (length xs) tail /\
    zlen tail = (1 - p) * new.
Proof.
  intros [He Hn Hm Hr Hs] Hf Hp new s1 s0 Hle.
  pose proof (valueEncoding_ok v) as Hnew. fold new in Hnew.
  pose proof (enc_pos _ He). pose proof (enc_pos _ Hnew).
  pose proof (zlen_nonneg xs). pose proof (elems_zlen _ xs He) as Hle'.
  unfold fits in Hf. pow2. set (cur := is_encoding s) in *.
  unfold s0, intsetResize, s1. cbn [is_length is_encoding is_contents set_encoding].
  rewrite Hn, (wrap_small 32 (_ + _)) by cint.
  rewrite wrap_small by (unfold in_u; pow2; nia). rewrite Hm.
  destruct (realloc_grow junk (elems cur xs) ((zlen xs + 1) * new))
    as (j & -> & Hj); [nia|].
  set (m := elems cur xs ++ j).
  exists (drop ((length xs + Z.to_nat p) * Z.to_nat new) m).
  unfold upgrading. cbn [is_contents is_encoding set_contents set_encoding]. unfold m.
  rewrite zlen_app, drop_all. split.
  - split; [lia|]. split; [|done]. unfold zlen in *.
    rewrite take_app_le by nia. by rewrite !take_ge by nia.
  - unfold zlen in *. rewrite length_drop, length_app. nia.
Qed.

Lemma intsetUpgradeAndAdd_spec junk s xs v :
  irep s xs -> fits xs -> in_s 64 v -> is_encoding s < _intsetValueEncoding v ->
  exists s', intsetUpgradeAndAdd junk s v = Some s' /\ irep s' (upgraded v xs).
Proof.
  intros Hr Hf Hv Hlt. unfold intsetUpgradeAndAdd.
  set (new := _intsetValueEncoding v). set (p := if v <? 0 then 1 else 0).
  assert (p = 0 \/ p = 1) as Hp by (unfold p; case_match; auto).
  destruct (upgrade_start junk s xs v p Hr Hf Hp) as (tail & Hup & Htail); [lia|].
  fold new in Hup, Htail. cbv zeta in *. set (s0 := intsetResize _ _ _) in *.
  pose proof Hr as [He Hn Hm Hrange Hs]. pose proof (valueEncoding_ok v) as Hnew.
  fold new in Hnew. pose proof (enc_pos _ He). pose proof (enc_pos _ Hnew).
  pose proof (zlen_nonneg xs). unfold fits in Hf. pow2.
  rewrite wrap_small by cint. rewrite Hn. rewrite swrap_small by cint.
  destruct (upgrade_loop_spec (is_encoding s) p xs tail He Hp Hrange (length xs) s0)
    as (s1 & Hloop & (Hlen & _ & Hdrop) & He1 & Hn1);
    [exact Hnew | unfold s0; cbn; fold new; lia | lia | exact Hup |].
  unfold zlen at 1. rewrite Nat2Z.id. rewrite Hloop. step.
  change (is_encoding s0) with new in He1. change (is_length s0) with (is_length s) in Hn1.
  rewrite He1 in *. rewrite Hn in Hn1. rewrite drop_0 in Hdrop.
  change (0 + Z.to_nat p)%nat with (Z.to_nat p) in Hdrop.
  assert (Hfin : forall m, m = elems new (upgraded v xs) ->
    irep (set_length (is_length s1 +[32] 1) (set_contents m s1)) (upgraded v xs)).
  { intros m ->. unfold upgraded. split;
      cbn [is_encoding is_length is_contents set_contents set_length]; rewrite ?He1;
      [done | | done | |].
    - rewrite Hn1, wrap_small by cint.
      case_match; rewrite ?zlen_app, ?zlen_cons, ?zlen_nil; lia.
    - assert (Forall (in_s (8 * new)) xs).
      { eapply Forall_impl; [exact Hrange|]. intros y Hy.
        apply (in_s_mono (is_encoding s)); [done|done|lia|exact Hy]. }
      assert (in_s (8 * new) v) by (apply valueEncoding_range; done).
      case_match; [by constructor | apply Forall_app; auto].
    - apply (upgraded_sorted (is_encoding s)); try done.
      rewrite <- valueEncoding_range by done. lia. }
  unfold upgraded in *. unfold p in *. destruct (Z.ltb_spec v 0); simpl Z.eqb; cbv iota.
  - assert (tail = []) as -> by (apply nil_length_inv; unfold zlen in *; lia).
    erewrite (set_at s1 [] (take (Z.to_nat new) (is_contents s1))
      (elems new xs)); rewrite ?He1; try done; cycle 1.
    + rewrite <- (take_drop (Z.to_nat new) (is_contents s1)) at 1. simpl.
      f_equal. replace (Z.to_nat new) with (Z.to_nat 1 * Z.to_nat new)%nat by lia.
      by rewrite Hdrop, app_nil_r.
    + rewrite zlen_nil. lia.
    + unfold zlen in *. rewrite length_take. nia.
    + step. eexists. split; [done|]. by apply Hfin.
  - simpl in Hdrop. rewrite drop_0 in Hdrop.
    erewrite (set_at s1 (elems new xs) tail []); rewrite ?He1; try done; cycle 1.
    + by rewrite Hdrop, app_nil_r.
    + rewrite elems_zlen, Hn1, swrap_small by (done || cint). done.
    + lia.
    + step. eexists. split; [done|]. apply Hfin. by rewrite elems_app, elems_one, app_nil_r.
Qed.

(** [x = v] or [x ∈ xs], as the elements of the set with [v] added. *)
Lemma elem_of_middle (l r : list Z) v x :
  x ∈ l ++ v :: r <-> x = v \/ x ∈ l ++ r.
Proof. rewrite !elem_of_app, elem_of_cons. tauto. Qed.

Lemma upgraded_elem v xs x : x ∈ upgraded v xs <-> x = v \/ x ∈ xs.
Proof.
  unfold upgraded. case_match; rewrite ?elem_of_app, ?elem_of_cons, ?elem_of_nil;
    tauto.
Qed.

Lemma not_in_range e v xs :
  Forall (in_s (8 * e)) xs -> ~ in_s (8 * e) v -> v ∉ xs.
Proof. rewrite Forall_forall. intros H Hv Hin. by apply Hv, H. Qed.

Lemma fits_len xs : fits xs -> zlen xs < 2 ^ 31.
Proof. unfold fits. pow2. lia. Qed.

Lemma intsetAdd_spec junk s xs v :
  irep s xs -> fits xs -> in_s 64 v ->
  exists s' xs', intsetAdd junk s v = Some (s', if decide (v ∈ xs) then 0 else 1) /\
    irep s' xs' /\ forall x, x ∈ xs' <-> x = v \/ x ∈ xs.
Proof.
  intros Hr Hf Hv. unfold intsetAdd. pose proof (irep_enc _ _ Hr) as He.
  pose proof (irep_range _ _ Hr) as Hrange.
  pose proof (valueEncoding_range _ v He Hv) as Hvr.
  destruct (Z.ltb_spec (is_encoding s) (_intsetValueEncoding v)) as [Hlt|Hge].
  - destruct (intsetUpgradeAndAdd_spec junk s xs v Hr Hf Hv Hlt) as (s' & -> & Hr').
    exists s', (upgraded v xs). step. rewrite decide_False.
    + split; [done|]. split; [done|]. apply upgraded_elem.
    + eapply not_in_range; [done|]. rewrite <- Hvr. lia.
  - destruct (intsetSearch_spec s xs v Hr (fits_len _ Hf))
      as (found & pos & -> & Hres). step.
    pose proof Hres as [(-> & Hnth)|(-> & Hsp)].
    + apply search_result_found in Hres. rewrite Z.eqb_refl, decide_True by done.
      exists s, xs. split; [done|]. split; [done|]. naive_solver.
    + apply search_result_absent in Hres. rewrite decide_False by done.
      destruct (splits_lists _ _ _ Hsp) as (l & r & -> & <- & Hl & Hrr).
      destruct (insert_at junk s l r v Hr Hf (proj1 Hvr Hge) Hl Hrr) as (s' & Heq & Hr').
      cbv zeta in Heq. change (0 =? 1) with false. cbv iota zeta. rewrite Heq.
      exists s', (l ++ v :: r). split; [done|]. split; [done|]. apply elem_of_middle.
Qed.

(** Removing the element between [l] and [r]. *)
Lemma remove_at junk s l v r :
  irep s (l ++ v :: r) -> fits (l ++ v :: r) ->
  exists s',
    (let len := is_length s in
     s ← (if zlen l <? len -[32] 1 then intsetMoveTail s (zlen l +[32] 1) (zlen l)
          else Some s);
     let s := intsetResize junk s (len -[32] 1) in
     Some (set_length (len -[32] 1) s, 1)) = Some (s', 1) /\
    irep s' (l ++ r).
Proof.
  intros [He Hn Hm Hr Hs] Hf. pose proof (enc_pos _ He). unfold fits in Hf.
  set (e := is_encoding s) in *. rewrite zlen_app, zlen_cons in *.
  pose proof (zlen_nonneg l). pose proof (zlen_nonneg r). pow2.
  pose proof (elems_zlen e l He) as Hel. pose proof (elems_zlen e r He) as Her.
  pose proof (elem_zlen e v He) as Hev.
  rewrite elems_app, elems_cons in Hm. cbv zeta. rewrite Hn.
  rewrite (wrap_small 32 (_ - 1)), (wrap_small 32 (zlen l + 1)) by cint.
  assert (Hres : forall t, zlen t = e ->
    irep (set_length (zlen l + (1 + zlen r) - 1)
      (intsetResize junk (set_contents (elems e l ++ elems e r ++ t) s)
        (zlen l + (1 + zlen r) - 1))) (l ++ r)).
  { intros t Ht. unfold intsetResize. cbn [is_encoding is_contents set_contents]. fold e.
    rewrite wrap_small by (unfold in_u; pow2; nia).
    rewrite app_assoc, realloc_shrink by (rewrite zlen_app; nia).
    split; cbn [is_encoding is_length is_contents set_contents set_length]; fold e;
      [done | rewrite zlen_app; lia | by rewrite elems_app | |].
    - apply Forall_app in Hr as [? [? ?]%Forall_cons]. by apply Forall_app.
    - apply StronglySorted_app in Hs as (Hx & ? & [_ ?]%StronglySorted_cons).
      apply StronglySorted_app. split; [|done]. intros x1 x2 ??. apply Hx; [done|].
      rewrite elem_of_cons. auto. }
  destruct (Z.ltb_spec (zlen l) (zlen l + (1 + zlen r) - 1)).
  - rewrite (moveTail_at s (elems e l ++ elem e v) (elems e r) [] (elems e l)
      (elem e v ++ elems e r)); fold e; rewrite ?app_nil_r, <- ?app_assoc; try done.
    + step. eexists. split; [reflexivity|]. apply Hres. unfold zlen in *.
      rewrite length_drop, length_app. lia.
    + rewrite zlen_app. lia.
    + rewrite Hn. nia.
    + rewrite Hn. cint.
    + unfold in_u. pow2. nia.
    + rewrite zlen_app. lia.
  - assert (r = []) as -> by (apply nil_length_inv; unfold zlen in *; lia).
    step. eexists. split; [reflexivity|]. specialize (Hres (elem e v) Hev).
    change (elems e []) with (@nil Z) in Hres, Hm. rewrite app_nil_l in Hres.
    rewrite app_nil_r in Hm. rewrite <- Hm in Hres. by destruct s.
Qed.

Lemma intsetRemove_spec junk s xs v :
  irep s xs -> fits xs -> in_s 64 v ->
  exists s' xs', intsetRemove junk s v = Some (s', if decide (v ∈ xs) then 1 else 0) /\
    irep s' xs' /\ (forall x, x ∈ xs' <-> x <> v /\ x ∈ xs) /\ zlen xs' <= zlen xs.
Proof.
  intros Hr Hf Hv. unfold intsetRemove. pose proof (irep_enc _ _ Hr) as He.
  pose proof (valueEncoding_range _ v He Hv) as Hvr.
  destruct (Z.leb_spec (_intsetValueEncoding v) (is_encoding s)) as [Hle|Hgt].
  - destruct (intsetSearch_spec s xs v Hr (fits_len _ Hf))
      as (found & pos & -> & Hres). step.
    pose proof Hres as [(-> & Hnth)|(-> & Hsp)].
    + apply search_result_found in Hres. rewrite Z.eqb_refl, decide_True by done.
      destruct (znth_split _ _ _ Hnth) as [Hxs Hpos]. rewrite Hxs in Hr, Hf.
      set (l := take _ xs) in *. set (r := drop _ xs) in *. rewrite <- Hpos.
      destruct (remove_at junk s l v r Hr Hf) as (s' & Heq & Hr').
      cbv zeta in *. rewrite Heq. exists s', (l ++ r). split; [done|].
      split; [done|]. rewrite Hxs. split; [|rewrite !zlen_app, zlen_cons; lia].
      intros x. rewrite elem_of_middle. pose proof (irep_sorted _ _ Hr) as Hs.
      apply StronglySorted_app in Hs as (Hlv & _ & [Hrv _]%StronglySorted_cons).
      rewrite Forall_forall in Hrv. split; [|tauto]. intros Hx.
      split; [|auto]. intros ->. apply elem_of_app in Hx as [Hx|Hx].
      * specialize (Hlv v v Hx). rewrite elem_of_cons in Hlv.
        specialize (Hlv (or_introl eq_refl)). lia.
      * specialize (Hrv _ Hx). lia.
    + apply search_result_absent in Hres. rewrite decide_False by done.
      exists s, xs. split; [done|]. split; [done|]. split; [|lia].
      intros x. split; [|tauto]. intros. split; [congruence|done].
  - assert (v ∉ xs) as Hni.
    { eapply not_in_range; [apply (irep_range _ _ Hr)|]. rewrite <- Hvr. lia. }
    rewrite decide_False by done. exists s, xs. split; [done|]. split; [done|].
    split; [|lia]. intros x. split; [|tauto]. intros. split; [congruence|done].
Qed.

Lemma intsetFind_spec s xs v :
  irep s xs -> fits xs -> in_s 64 v ->
  intsetFind s v = Some (if decide (v ∈ xs) then 1 else 0).
Proof.
  intros Hr Hf Hv. unfold intsetFind.
  pose proof (valueEncoding_range _ v (irep_enc _ _ Hr) Hv) as Hvr.
  destruct (Z.leb_spec (_intsetValueEncoding v) (is_encoding s)) as [Hle|Hgt].
  - destruct (intsetSearch_spec s xs v Hr (fits_len _ Hf))
      as (found & pos & -> & Hres). step.
    pose proof Hres as [(-> & _)|(-> & _)].
    + apply search_result_found in Hres. by rewrite decide_True.
    + apply search_result_absent in Hres. by rewrite decide_False.
  - rewrite decide_False; [done|].
    eapply not_in_range; [apply (irep_range _ _ Hr)|]. rewrite <- Hvr. lia.
Qed.

Lemma irep_new : irep intsetNew [].
Proof. split; [by left|done|done|constructor|constructor]. Qed.

(** ** Sequences of operations against sets of integers *)

Inductive op := OAdd (v : Z) | ORemove (v : Z) | OFind (v : Z).

Definition op_value (o : op) : Z :=
  match o with OAdd v | ORemove v | OFind v => v end.

Definition run_op (junk : nat -> Z) (s : intset) (o : op)
  : option (intset * Z) :=
  match o with
  | OAdd v => intsetAdd junk s v
  | ORemove v => intsetRemove junk s v
  | OFind v => r ← intsetFind s v; Some (s, r)
  end.

(** The returned flags, in order. *)
Fixpoint run (junk : nat -> Z) (s : intset) (ops : list op)
  : option (intset * list Z) :=
  match ops with
  | [] => Some (s, [])
  | o :: ops =>
      '(s, r) ← run_op junk s o;
      '(s, rs) ← run junk s ops;
      Some (s, r :: rs)
  end.

Definition spec_op (X : gset Z) (o : op) : gset Z * Z :=
  match o with
  | OAdd v => ({[v]} ∪ X, if decide (v ∈ X) then 0 else 1)
  | ORemove v => (X ∖ {[v]}, if decide (v ∈ X) then 1 else 0)
  | OFind v => (X, if decide (v ∈ X) then 1 else 0)
  end.

Fixpoint spec_run (X : gset Z) (ops : list op) : gset Z * list Z :=
  match ops with
  | [] => (X, [])
  | o :: ops =>
      let '(X, r) := spec_op X o in
      let '(X, rs) := spec_run X ops in (X, r :: rs)
  end.

Lemma decide_iff {A} (P Q : Prop) `{Decision P, Decision Q} (a b : A) :
  (P <-> Q) -> (if decide P then a else b) = (if decide Q then a else b).
Proof. intros. by destruct (decide P), (decide Q); naive_solver. Qed.

(** The elements of [s] are those of [X]. *)
Definition models (s : intset) (xs : list Z) (X : gset Z) : Prop :=
  irep s xs /\ X = list_to_set xs.

Lemma models_size xs : StronglySorted Z.lt xs ->
  zlen xs = Z.of_nat (size (list_to_set xs : gset Z)).
Proof.
  intros Hs. rewrite size_list_to_set; [done|].
  induction Hs as [|x xs _ IH Hf]; constructor; [|done].
  intros Hx. rewrite Forall_forall in Hf. specialize (Hf _ Hx). lia.
Qed.

Lemma run_op_spec junk s xs X o :
  models s xs X -> fits xs -> in_s 64 (op_value o) ->
  exists s' xs', run_op junk s o = Some (s', (spec_op X o).2) /\
    models s' xs' (spec_op X o).1.
Proof.
  intros [Hr ->] Hf Hv.
  assert (Hdec : forall v (a b : Z), (if decide (v ∈ xs) then a else b) =
    if decide (v ∈ (list_to_set xs : gset Z)) then a else b).
  { intros. apply decide_iff. by rewrite elem_of_list_to_set. }
  destruct o as [v|v|v]; simpl in *; rewrite <- Hdec.
  - destruct (intsetAdd_spec junk s xs v Hr Hf Hv) as (s' & xs' & -> & Hr' & Hx).
    exists s', xs'. split; [done|]. split; [done|]. apply set_eq. intros x. specialize (Hx x). set_solver.
  - destruct (intsetRemove_spec junk s xs v Hr Hf Hv) as (s' & xs' & -> & Hr' & Hx & _).
    exists s', xs'. split; [done|]. split; [done|]. apply set_eq. intros x. specialize (Hx x). set_solver.
  - rewrite (intsetFind_spec s xs v Hr Hf Hv). exists s, xs. done.
Qed.

Lemma spec_op_size X o : (size (spec_op X o).1 <= S (size X))%nat.
Proof.
  destruct o as [v|v|v]; simpl; [| |lia].
  - rewrite size_union_alt, size_singleton.
    pose proof (subseteq_size (X ∖ {[v]}) X ltac:(set_solver)). lia.
  - pose proof (subseteq_size (X ∖ {[v]}) X ltac:(set_solver)). lia.
Qed.

Lemma run_spec junk ops : forall s xs X,
  models s xs X -> Forall (fun o => in_s 64 (op_value o)) ops ->
  8 * (zlen xs + zlen ops + 1) < 2 ^ 32 ->
  exists s' xs', run junk s ops = Some (s', (spec_run X ops).2) /\
    models s' xs' (spec_run X ops).1.
Proof.
  induction ops as [|o ops IH]; intros s xs X HX Hall Hb; [by exists s, xs|].
  apply Forall_cons in Hall as [Hv Hall]. rewrite zlen_cons in Hb.
  pose proof (zlen_nonneg ops).
  destruct (run_op_spec junk s xs X o HX) as (s1 & xs1 & Hrun & HX1);
    [unfold fits; lia|done|].
  assert (zlen xs1 <= zlen xs + 1) as Hle.
  { pose proof (models_size xs (irep_sorted _ _ (proj1 HX))) as E.
    pose proof (models_size xs1 (irep_sorted _ _ (proj1 HX1))) as E1.
    pose proof (spec_op_size X o). destruct HX as [_ ->], HX1 as [_ HX1].
    rewrite HX1 in *. lia. }
  cbn [run spec_run]. rewrite Hrun. step.
  destruct (IH s1 xs1 (spec_op X o).1 HX1 Hall) as (s2 & xs2 & -> & HX2); [lia|].
  step. destruct (spec_op X o) as [X1 r1]. simpl in *.
  destruct (spec_run X1 ops) as [X2 rs]. by exists s2, xs2.
Qed.

(** C11: running any sequence of [intsetAdd], [intsetRemove] and [intsetFind] of
    64-bit values from [intsetNew] gives the flags that the same operations give
    on a mathematical set, stays inside the allocation, and leaves the strictly
    sorted array of exactly that set's elements, in an encoding that holds them.
    The bound keeps the blob below the 4 GiB that the sizes can express. *)
Theorem intset_refines_set (junk : nat -> Z) (ops : list op)
  (Hvals : Forall (fun o => in_s 64 (op_value o)) ops)
  (Hsize : 8 * (zlen ops + 1) < 2 ^ 32) :
  exists s xs,
    run junk intsetNew ops = Some (s, (spec_run ∅ ops).2) /\
    irep s xs /\ (spec_run ∅ ops).1 = list_to_set xs.
Proof.
  destruct (run_spec junk ops intsetNew [] ∅) as (s & xs & Hrun & Hr & HX).
  - split; [apply irep_new|done].
  - done.
  - rewrite zlen_nil. lia.
  - by exists s, xs.
Qed.

Lemma intset_refines_set_witness :
  let ops := [OAdd 5; OAdd (-3); OAdd 70000; OAdd 5; OFind 70000;
              OAdd (-5000000000); ORemove 5; OFind 5] in
  Forall (fun o => in_s 64 (op_value o)) ops /\
  (exists s xs, run (fun _ => 170) intsetNew ops = Some (s, (spec_run ∅ ops).2) /\
    irep s xs /\ (spec_run ∅ ops).1 = list_to_set xs) /\
  snd <$> run (fun _ => 170) intsetNew ops = Some [1; 1; 1; 0; 1; 1; 1; 0].
Proof.
  assert (Forall (fun o => in_s 64 (op_value o))
    [OAdd 5; OAdd (-3); OAdd 70000; OAdd 5; OFind 70000;
     OAdd (-5000000000); ORemove 5; OFind 5]) as H
    by by_decide.
  split; [exact H|]. split; [|reflexivity].
  apply intset_refines_set; [exact H | reflexivity].
Defined.

(** Reading a set that represents [xs].  [intsetGet] yields the elements in
    increasing order and refuses every position past the end, [intsetLen] is the
    cardinality, [intsetRandom] yields an element whatever [rand()] returns, and
    [intsetBlobLen] is the header plus the bytes of the array. *)
Theorem intset_reads (s : intset) (xs : list Z) (pos rand : Z)
  (Hr : irep s xs) (Hf : fits xs) (Hpos : in_u 32 pos) :
  intsetLen s = zlen xs /\ NoDup xs /\
  intsetBlobLen s = 8 + zlen (is_contents s) /\
  intsetGet s pos =
    match znth xs pos with Some x => Some (1, Some x) | None => Some (0, None) end /\
  (xs <> [] -> exists x, intsetRandom rand s = Some x /\ x ∈ xs).
Proof.
  pose proof Hr as [He Hn Hm _ Hs]. pose proof (enc_pos _ He).
  unfold fits in Hf. pose proof (zlen_nonneg xs). pow2.
  unfold intsetLen, intsetBlobLen, intsetGet, intsetRandom. rewrite Hn.
  split; [done|]. split.
  { clear -Hs. induction Hs as [|x xs _ IH Hfa]; constructor; [|done].
    rewrite Forall_forall in Hfa. intros Hx%Hfa. lia. }
  split.
  { rewrite Hm, elems_zlen by done. rewrite wrap_small by (unfold in_u; pow2; nia). lia. }
  split.
  - destruct (Z.ltb_spec pos (zlen xs)).
    + destruct (znth_Some xs pos) as [x Hx]; [cint|]. rewrite Hx.
      rewrite swrap_small by cint. by rewrite (get_nth _ _ _ _ Hr Hx).
    + destruct (znth xs pos) eqn:Hx; [|done]. apply znth_Some_bound in Hx. lia.
  - intros Hne. destruct (Z.eqb_spec (zlen xs) 0) as [E|E].
    { exfalso. apply Hne, nil_length_inv. unfold zlen in E. lia. }
    pose proof (Z.mod_pos_bound (u32 rand) (zlen xs)).
    destruct (znth_Some xs (u32 rand mod zlen xs)) as [x Hx]; [lia|].
    exists x. rewrite swrap_small by cint. rewrite (get_nth _ _ _ _ Hr Hx).
    split; [done|]. destruct (znth_split _ _ _ Hx) as [-> _].
    rewrite elem_of_app, elem_of_cons. auto.
Qed.

Lemma intset_reads_witness :
  intsetGet (mk_intset 2 2 [253; 255; 7; 0]) 1 = Some (1, Some 7) /\
  intsetBlobLen (mk_intset 2 2 [253; 255; 7; 0]) = 12.
Proof.
  assert (irep (mk_intset 2 2 [253; 255; 7; 0]) [-3; 7]) as Hr.
  { split; simpl; [by left | done | done | by_decide | by_decide]. }
  destruct (intset_reads _ _ 1 0 Hr ltac:(reflexivity) ltac:(cint))
    as (_ & _ & Hb & Hg & _).
  split; [exact Hg | exact Hb].
Defined.

(** ** The size computation wraps *)

(** A set with the 64-bit encoding and one element less than 2^29. *)
Definition full (xs : list Z) : Prop := zlen xs = 2 ^ 29 - 1.

Lemma resize_full junk s xs :
  irep s xs -> is_encoding s = 8 -> full xs ->
  intsetResize junk s (is_length s +[32] 1) = set_contents [] s.
Proof.
  unfold full, intsetResize. intros Hr He Hl. rewrite (irep_len _ _ Hr), Hl, He.
  change ((2 ^ 29 - 1 +[32] 1) *[32] 8) with 0. unfold realloc. by simpl.
Qed.

Lemma set_empty s pos v :
  enc_ok (is_encoding s) -> _intsetSet (set_contents [] s) pos v = None.
Proof.
  intros He. rewrite setEncoded_eq by done. cbn [is_contents set_contents is_encoding].
  unfold mem_write. case_decide as H; [|done]. exfalso.
  rewrite elem_zlen in H by done. change (zlen []) with 0 in H.
  pose proof (enc_pos _ He). lia.
Qed.

Lemma move_empty s from to :
  is_encoding s = 8 -> 0 < (is_length s -[32] from) *[32] 8 ->
  intsetMoveTail (set_contents [] s) from to = None.
Proof.
  intros He Hpos. rewrite moveTail_eq; cbn [is_contents is_length is_encoding set_contents].
  - rewrite He. unfold memmove, mem_read. case_decide as H; [|done].
    change (zlen []) with 0 in H. lia.
  - rewrite He. by right; right.
Qed.

(** C20: [intsetResize] computes the size in 32 bits, so inserting a new element
    into a set of 2^29 - 1 elements of 8 bytes shrinks the allocation to the bare
    header, and the store that follows is outside it. *)
Theorem intsetAdd_size_overflow (junk : nat -> Z) (s : intset) (xs : list Z) (v : Z)
  (Hr : irep s xs) (Henc : is_encoding s = 8) (Hfull : full xs)
  (Hv : in_s 64 v) (Hnew : v ∉ xs) :
  is_contents (intsetResize junk s (is_length s +[32] 1)) = [] /\
  intsetAdd junk s v = None.
Proof.
  rewrite (resize_full junk s xs) by done. split; [done|].
  pose proof (irep_enc _ _ Hr) as He. pose proof (irep_len _ _ Hr) as Hn.
  unfold intsetAdd. pose proof (valueEncoding_ok v) as Hve.
  apply enc_pos in Hve. rewrite Henc.
  destruct (Z.ltb_spec 8 (_intsetValueEncoding v)); [lia|].
  destruct (intsetSearch_spec s xs v Hr) as (found & pos & -> & Hres).
  { rewrite Hfull. by pow2. }
  step. pose proof Hres as [(-> & _)|(-> & Hsp & _)].
  { by apply search_result_found in Hres. }
  change (0 =? 1) with false. cbv iota. rewrite (resize_full junk s xs) by done.
  unfold full in Hfull. cbn [is_length set_contents]. rewrite Hn, Hfull in *.
  destruct (Z.ltb_spec pos (2 ^ 29 - 1)).
  - rewrite move_empty; [done..|]. rewrite Hn. pow2.
    rewrite (wrap_small 32 (_ - pos)) by cint. rewrite wrap_small by cint. lia.
  - step. by rewrite set_empty.
Qed.

(** The set of the even numbers from 2^40. *)
Definition big_set : list Z :=
  (fun i => 2 ^ 40 + 2 * Z.of_nat i) <$> seq 0 (Z.to_nat (2 ^ 29 - 1)).

Lemma big_set_elem x :
  x ∈ big_set -> 2 ^ 40 <= x < 2 ^ 41 /\ x mod 2 = 0.
Proof.
  intros (i & -> & Hi%elem_of_seq)%list_elem_of_fmap. split; [pow2; lia|].
  rewrite Z.mul_comm, Z_mod_plus_full. reflexivity.
Qed.

Lemma big_set_irep :
  irep (mk_intset 8 (2 ^ 29 - 1) (elems 8 big_set)) big_set.
Proof.
  split; cbn [is_encoding is_length is_contents]; [by right; right | | done | |].
  - unfold big_set, zlen. rewrite length_fmap, length_seq. by rewrite Z2Nat.id by (pow2; lia).
  - apply Forall_forall. intros x Hx%big_set_elem. cint.
  - apply (StronglySorted_fmap _ lt); [intros; lia|].
    generalize (Z.to_nat (2 ^ 29 - 1)), 0%nat. intros n.
    induction n as [|n IH]; intros k; constructor; [apply IH|].
    apply Forall_forall. intros x ?%elem_of_seq. lia.
Qed.

Lemma intsetAdd_size_overflow_witness :
  intsetAdd (fun _ => 0) (mk_intset 8 (2 ^ 29 - 1) (elems 8 big_set)) 1 = None.
Proof.
  apply (intsetAdd_size_overflow (fun _ => 0) _ big_set 1 big_set_irep);
    [reflexivity | | cint |].
  - unfold full, big_set, zlen. rewrite length_fmap, length_seq.
    rewrite Z2Nat.id; [reflexivity | pow2; lia].
  - intros [H _]%big_set_elem. pow2. lia.
Defined.
