(* ===== verification/Util.v ===== *)
(** [src/redis-3.0.0/src/util.c]: conversions between 64-bit integers and their
    decimal strings, and the glob-style matcher behind KEYS, PSUBSCRIBE and
    CONFIG GET.

    A string that the C code reads through a pointer is the block of its bytes
    with the terminating zero, and the pointer is an index into the block. *)
From S2P Require Import Prelude.
Local Open Scope c_scope.

Definition LLONG_MIN : Z := - 2 ^ 63.
Definition LLONG_MAX : Z := 2 ^ 63 - 1.
Definition ULLONG_MAX : Z := 2 ^ 64 - 1.

(** ** Integers to strings *)

(** The recursion divides by 10^12, so it is at most two deep on 64 bits. *)
Fixpoint digits10_rec (fuel : nat) (v : Z) : option Z :=
  if v <? 10 then Some 1
  else if v <? 100 then Some 2
  else if v <? 1000 then Some 3
  else if v <? 1000000000000 then
    if v <? 100000000 then
      if v <? 1000000 then
        if v <? 10000 then Some 4
        else Some (5 + Z.b2z (100000 <=? v))
      else Some (7 + Z.b2z (10000000 <=? v))
    else if v <? 10000000000 then
      Some (9 + Z.b2z (1000000000 <=? v))
    else Some (11 + Z.b2z (100000000000 <=? v))
  else
    match fuel with
    | O => None
    | S fuel =>
        r ← digits10_rec fuel (v / 1000000000000); Some (12 +[32] r)
    end.

Definition digits10 (v : Z) : option Z := digits10_rec 2 v.

(** [static const char digits[201]], without its terminator. *)
Definition digits : list Z := bytes_of
  ("0001020304050607080910111213141516171819" ++
   "2021222324252627282930313233343536373839" ++
   "4041424344454647484950515253545556575859" ++
   "6061626364656667686970717273747576777879" ++
   "8081828384858687888990919293949596979899")%string.

(** The loop that writes two digits at a time; the result is the buffer, the
    remaining value and [next]. *)
Fixpoint ll2string_loop (fuel : nat) (dst : list Z) (value next : Z)
  : option (list Z * Z * Z) :=
  match fuel with
  | O => None
  | S fuel =>
      if 100 <=? value then
        let i := (value mod 100) * 2 in
        let value := value / 100 in
        d1 ← znth digits (i + 1);
        dst ← zset dst next d1;
        d0 ← znth digits i;
        dst ← zset dst (next -[32] 1) d0;
        ll2string_loop fuel dst value (next -[32] 2)
      else Some (dst, value, next)
  end.

(** [dst] is the caller's buffer; the result is the returned length and the
    buffer afterwards. *)
Definition ll2string (dst : list Z) (dstlen : Z) (svalue : Z)
  : option (Z * list Z) :=
  let '(value, negative) :=
    if svalue <? 0 then
      (if negb (svalue =? LLONG_MIN) then u64 (- svalue)
       else u64 (LLONG_MAX + 1), 1)
    else (svalue, 0) in
  d ← digits10 value;
  let length := d +[32] negative in
  if dstlen <=? length then Some (0, dst)
  else
    let next := length in
    dst ← zset dst next 0;
    let next := next -[32] 1 in
    '(dst, value, next) ← ll2string_loop 11 dst value next;
    dst ← (if value <? 10 then zset dst next (48 + value)
           else
             let i := value * 2 in
             d1 ← znth digits (i + 1);
             dst ← zset dst next d1;
             d0 ← znth digits i;
             zset dst (next -[32] 1) d0);
    dst ← (if negative =? 1 then zset dst 0 45 else Some dst);
    Some (length, dst).

(** ** Strings to integers *)

(** [p[0] >= '0' && p[0] <= '9'] *)
Definition is_digit (c : Z) : bool := (48 <=? c) && (c <=? 57).

(** The accumulation loop: [None] of the inner option is the overflow return;
    the result is [v] and [plen]. *)
Fixpoint string2ll_loop (s : list Z) (slen : Z) (fuel : nat) (v plen : Z)
  : option (option (Z * Z)) :=
  match fuel with
  | O => None
  | S fuel =>
      if plen <? slen then
        c ← znth s plen;
        if is_digit c then
          if ULLONG_MAX / 10 <? v then Some None
          else
            let v := v *[64] 10 in
            if ULLONG_MAX - (c - 48) <? v then Some None
            else string2ll_loop s slen fuel (v +[64] (c - 48)) (plen + 1)
        else Some (Some (v, plen))
      else Some (Some (v, plen))
  end.

(** The result is the returned flag and [*value] when it is written. *)
Definition string2ll (s : list Z) (slen : Z) : option (Z * option Z) :=
  if 0 =? slen then Some (0, None)
  else
    c0 ← znth s 0;
    if (slen =? 1) && (c0 =? 48) then Some (1, Some 0)
    else
      let negative := c0 =? 45 in
      let plen := if negative then 1 else 0 in
      if negative && (plen =? slen) then Some (0, None)
      else
        c ← znth s plen;
        if (49 <=? c) && (c <=? 57) then
          r ← string2ll_loop s slen (S (Z.to_nat slen)) (c - 48) (plen + 1);
          match r with
          | None => Some (0, None)
          | Some (v, plen) =>
              if plen <? slen then Some (0, None)
              else if negative then
                if u64 (- (LLONG_MIN + 1)) +[64] 1 <? v then Some (0, None)
                else Some (1, Some (s64 (u64 (- v))))
              else
                if LLONG_MAX <? v then Some (0, None)
                else Some (1, Some (s64 v))
          end
        else if (c =? 48) && (slen =? 1) then Some (1, Some 0)
        else Some (0, None).

(** [long] has the width of [long long] on the platform modelled. *)
Definition string2l (s : list Z) (slen : Z) : option (Z * option Z) :=
  '(ok, llval) ← string2ll s slen;
  if ok =? 0 then Some (0, None)
  else
    v ← llval;
    if (v <? LLONG_MIN) || (LLONG_MAX <? v) then Some (0, None)
    else Some (1, Some v).

(** ** Decimal notation, the reference *)

Fixpoint dec_rec (n : nat) (v : Z) : list Z :=
  match n with
  | O => []
  | S n => if v <? 10 then [48 + v] else dec_rec n (v / 10) ++ [48 + v mod 10]
  end.

(** The canonical decimal digits of a 64-bit unsigned integer. *)
Definition dec (v : Z) : list Z := dec_rec 20 v.

(** The canonical decimal notation of a signed one. *)
Definition sdec (v : Z) : list Z := if v <? 0 then 45 :: dec (- v) else dec v.

(** The value of a list of digits read from the left, from [a]. *)
Definition dval (a : Z) (l : list Z) : Z :=
  fold_left (fun a c => 10 * a + (c - 48)) l a.

Global Arguments dec : simpl never.

Definition digit (c : Z) : Prop := 48 <= c <= 57.

Lemma is_digit_spec c : reflect (digit c) (is_digit c).
Proof.
  apply Bool.iff_reflect. unfold is_digit, digit. lia.
Qed.

Lemma pow10_pos n : 0 < 10 ^ Z.of_nat n.
Proof. apply Z.pow_pos_nonneg; lia. Qed.

Lemma pow10_S n : 10 ^ Z.of_nat (S n) = 10 * 10 ^ Z.of_nat n.
Proof. rewrite Nat2Z.inj_succ, Z.pow_succ_r by lia. done. Qed.

Lemma div10 v n : 10 <= v -> v < 10 ^ Z.of_nat (S n) ->
  1 <= v / 10 < 10 ^ Z.of_nat n.
Proof.
  rewrite pow10_S. intros. split; [apply Z.div_le_lower_bound; lia|].
  apply Z.div_lt_upper_bound; lia.
Qed.

Lemma dval_app a l k : dval a (l ++ k) = dval (dval a l) k.
Proof. unfold dval. apply fold_left_app. Qed.

(** Induction over the digits of a number. *)
Lemma dec_rec_ind (P : nat -> Z -> list Z -> Prop) :
  (forall n v, 0 <= v < 10 -> P (S n) v [48 + v]) ->
  (forall n v, 10 <= v -> v < 10 ^ Z.of_nat (S n) ->
     P n (v / 10) (dec_rec n (v / 10)) ->
     P (S n) v (dec_rec n (v / 10) ++ [48 + v mod 10])) ->
  forall n v, (0 < n)%nat -> 0 <= v < 10 ^ Z.of_nat n -> P n v (dec_rec n v).
Proof.
  intros H0 HS. induction n as [|n IH]; intros v Hn Hv; [lia|].
  cbn [dec_rec]. destruct (Z.ltb_spec v 10); [apply H0; lia|].
  apply HS; [lia|lia|]. pose proof (div10 v n ltac:(lia) ltac:(lia)) as Hd.
  apply IH; [|lia]. destruct n; [change (10 ^ Z.of_nat 0) with 1 in Hd|]; lia.
Qed.

Lemma dec_digits n v :
  (0 < n)%nat -> 0 <= v < 10 ^ Z.of_nat n -> Forall digit (dec_rec n v).
Proof.
  revert n v. apply (dec_rec_ind (fun _ _ d => Forall digit d)); unfold digit.
  - intros. repeat constructor; lia.
  - intros. apply Forall_app. split; [done|]. pose proof (Z.mod_pos_bound v 10).
    repeat constructor; lia.
Qed.

Lemma dval_dec n v :
  (0 < n)%nat -> 0 <= v < 10 ^ Z.of_nat n -> dval 0 (dec_rec n v) = v.
Proof.
  revert n v. apply (dec_rec_ind (fun _ v d => dval 0 d = v)).
  - intros. unfold dval. simpl. lia.
  - intros n v ? ? IH. rewrite dval_app, IH. unfold dval. simpl.
    pose proof (Z.div_mod v 10). lia.
Qed.

Lemma dec_rec_head n v :
  1 <= v < 10 ^ Z.of_nat n -> exists c l, dec_rec n v = c :: l /\ 49 <= c <= 57.
Proof.
  intros Hv. cut (1 <= v -> exists c l, dec_rec n v = c :: l /\ 49 <= c <= 57);
    [intros H; apply H; lia|].
  assert (0 <= v < 10 ^ Z.of_nat n) as Hv' by lia.
  assert (0 < n)%nat as Hn by (destruct n; [change (10 ^ Z.of_nat 0) with 1 in Hv|]; lia).
  clear Hv. revert n v Hn Hv'.
  apply (dec_rec_ind (fun n v d => 1 <= v -> exists c l, d = c :: l /\ 49 <= c <= 57)).
  - intros. eexists _, []. split; [done|]. lia.
  - intros n v ? ? IH _. destruct IH as (c & l & -> & ?); [pose proof (div10 v n ltac:(lia) ltac:(lia)); lia|].
    eexists _, _. split; [done|lia].
Qed.

(** The number of digits: [10^(k-1) <= v < 10^k], or a single digit. *)
Lemma dec_rec_len n v :
  (0 < n)%nat -> 0 <= v < 10 ^ Z.of_nat n ->
  v < 10 ^ zlen (dec_rec n v) /\ 1 <= zlen (dec_rec n v) /\
  (10 <= v -> 10 ^ (zlen (dec_rec n v) - 1) <= v).
Proof.
  revert n v. apply (dec_rec_ind (fun _ v d => v < 10 ^ zlen d /\ 1 <= zlen d /\
    (10 <= v -> 10 ^ (zlen d - 1) <= v))).
  - intros. rewrite zlen_cons, zlen_nil. simpl. lia.
  - intros n v H1 H2 (Hlt & Hlen & Hge). rewrite zlen_app, zlen_cons, zlen_nil.
    set (k := zlen _) in *.
    replace (k + (1 + 0)) with (Z.succ k) by lia. rewrite Z.pow_succ_r by lia.
    replace (Z.succ k - 1) with (Z.succ (k - 1)) by lia.
    rewrite Z.pow_succ_r by lia. pose proof (Z.div_mod v 10).
    pose proof (Z.mod_pos_bound v 10). split; [lia|]. split; [lia|]. intros _.
    destruct (Z.leb_spec 10 (v / 10)); [lia|].
    assert (1 <= v / 10) by (apply Z.div_le_lower_bound; lia).
    assert (k = 1) as ->; [|simpl; lia].
    unfold k. destruct n; [change (10 ^ Z.of_nat 0) with 1 in H2; lia|]. cbn [dec_rec].
    destruct (Z.ltb_spec (v / 10) 10); [done|lia].
Qed.

Lemma dec_len_unique v k :
  in_u 64 v -> 1 <= k -> (10 <= v -> 10 ^ (k - 1) <= v) -> v < 10 ^ k ->
  (v < 10 -> k = 1) -> zlen (dec v) = k.
Proof.
  intros Hv Hk Hlo Hhi H1. unfold dec.
  destruct (dec_rec_len 20 v) as (A & B & C); [lia|cint|].
  set (d := zlen (dec_rec 20 v)) in *.
  destruct (Z.ltb_spec v 10) as [Hs|Hb].
  - unfold d. cbn [dec_rec]. destruct (Z.ltb_spec v 10); [|lia].
    rewrite H1 by done. done.
  - specialize (C Hb). specialize (Hlo Hb).
    assert (10 ^ (d - 1) < 10 ^ k) as E1 by lia.
    assert (10 ^ (k - 1) < 10 ^ d) as E2 by lia.
    apply Z.pow_lt_mono_r_iff in E1; [|lia|lia].
    apply Z.pow_lt_mono_r_iff in E2; lia.
Qed.

(** A list of digits without a leading zero is the notation of its value. *)
Lemma dec_canonical c l :
  Forall digit (c :: l) -> c <> 48 ->
  forall n, dval 0 (c :: l) < 10 ^ Z.of_nat n -> dec_rec n (dval 0 (c :: l)) = c :: l.
Proof.
  intros Hall Hc. cut (Forall digit l -> forall n,
    1 <= dval 0 (c :: l) /\
    (dval 0 (c :: l) < 10 ^ Z.of_nat n -> dec_rec n (dval 0 (c :: l)) = c :: l)).
  { intros H n. apply H. by apply Forall_cons in Hall as [_ ?]. }
  apply Forall_cons in Hall as [Hd _]. unfold digit in Hd.
  induction l as [|d l IH] using rev_ind; intros Hl n.
  - replace (dval 0 [c]) with (c - 48) by (unfold dval; simpl; lia).
    split; [lia|]. intros Hn.
    destruct n as [|n]; [change (10 ^ Z.of_nat 0) with 1 in Hn; lia|].
    cbn [dec_rec]. destruct (Z.ltb_spec (c - 48) 10); [|lia].
    by replace (48 + (c - 48)) with c by lia.
  - apply Forall_app in Hl as [Hl [Hd' _]%Forall_cons]. unfold digit in Hd'.
    change (c :: l ++ [d]) with ((c :: l) ++ [d]). rewrite dval_app.
    destruct (IH Hl 0%nat) as [Hpos _]. set (w := dval 0 (c :: l)) in *.
    unfold dval. simpl fold_left. split; [lia|]. intros Hn.
    destruct n as [|n]; [change (10 ^ Z.of_nat 0) with 1 in Hn; lia|].
    rewrite pow10_S in Hn. cbn [dec_rec].
    destruct (Z.ltb_spec (10 * w + (d - 48)) 10); [lia|].
    assert ((10 * w + (d - 48)) / 10 = w) as ->.
    { symmetry. apply (Z.div_unique_pos _ _ _ (d - 48)); lia. }
    assert ((10 * w + (d - 48)) mod 10 = d - 48) as ->.
    { symmetry. apply (Z.mod_unique_pos _ _ w); lia. }
    destruct (IH Hl n) as [_ E]. rewrite E by lia. by replace (48 + (d - 48)) with d by lia.
Qed.

(** ** Printing *)

(** [k] is the number of decimal digits of [w]. *)
Definition ndigits (w k : Z) : Prop :=
  1 <= k <= 20 /\ (10 <= w -> 10 ^ (k - 1) <= w) /\ w < 10 ^ k /\ (w < 10 -> k = 1).

Lemma digits10_small fuel w : 0 <= w < 1000000000000 ->
  exists k, digits10_rec fuel w = Some k /\ k <= 12 /\ ndigits w k.
Proof.
  intros Hw. unfold ndigits.
  destruct fuel; cbn [digits10_rec]; bool_cases; try lia;
    (eexists; split; [reflexivity|]); cbn [Z.b2z]; simpl Z.add; simpl Z.sub;
    repeat match goal with |- context [10 ^ ?n] =>
      let v := eval vm_compute in (10 ^ n) in change (10 ^ n) with v end; lia.
Qed.

Lemma digits10_spec v : in_u 64 v -> digits10 v = Some (zlen (dec v)).
Proof.
  intros Hv. assert (exists k, digits10 v = Some k /\ ndigits v k)
    as (k & -> & Hk & Hlo & Hhi & H1).
  2: { f_equal. symmetry. apply dec_len_unique; [done|lia|done..]. }
  unfold digits10. destruct (Z.ltb_spec v 1000000000000).
  { destruct (digits10_small 2 v) as (k & -> & _ & Hk); [cint|]. by exists k. }
  destruct (digits10_small 1 (v / 1000000000000)) as (k & Hk & Hk12 & H1 & Hlo & Hhi & Hs).
  { split; [apply Z.div_pos; cint|]. apply Z.div_lt_upper_bound; cint. }
  exists (12 + k). cbn [digits10_rec] in *.
  destruct (Z.ltb_spec v 10); [lia|]. destruct (Z.ltb_spec v 100); [lia|].
  destruct (Z.ltb_spec v 1000); [lia|].
  destruct (Z.ltb_spec v 1000000000000); [lia|]. rewrite Hk. step.
  rewrite wrap_small by cint. split; [done|]. unfold ndigits.
  replace (12 + k - 1) with (12 + (k - 1)) by lia.
  rewrite !Z.pow_add_r by lia. change (10 ^ 12) with 1000000000000.
  pose proof (Z.div_mod v 1000000000000 ltac:(lia)).
  pose proof (Z.mod_pos_bound v 1000000000000 ltac:(lia)).
  assert (k <= 8).
  { destruct (Z.leb_spec k 8); [done|].
    assert (10 ^ 8 <= 10 ^ (k - 1)) by (apply Z.pow_le_mono_r; lia).
    assert (v / 1000000000000 < 10 ^ 8) by (apply Z.div_lt_upper_bound; cint).
    destruct (Z.leb_spec 10 (v / 1000000000000)); lia. }
  split; [lia|]. split; [|nia]. intros _.
  destruct (Z.leb_spec 10 (v / 1000000000000)); [nia|].
  rewrite Hs by lia. simpl Z.sub. change (10 ^ 0) with 1. nia.
Qed.

Lemma dec_rec_fuel n m v :
  (0 < n)%nat -> (n <= m)%nat -> 0 <= v < 10 ^ Z.of_nat n -> dec_rec m v = dec_rec n v.
Proof.
  intros Hn Hm Hv. revert n v Hn Hv m Hm.
  apply (dec_rec_ind (fun n v d => forall m, (n <= m)%nat -> dec_rec m v = d)).
  - intros n v Hv m Hm. destruct m as [|m]; [lia|]. cbn [dec_rec].
    destruct (Z.ltb_spec v 10); [done|lia].
  - intros n v H1 H2 IH m Hm. destruct m as [|m]; [lia|]. cbn [dec_rec].
    destruct (Z.ltb_spec v 10); [lia|]. rewrite (IH m) by lia. done.
Qed.

Lemma dec_small v : 0 <= v < 10 -> dec v = [48 + v].
Proof.
  intros. unfold dec. cbn [dec_rec]. destruct (Z.ltb_spec v 10); [done|lia].
Qed.

Lemma dec_two v : 10 <= v < 100 -> dec v = [48 + v / 10; 48 + v mod 10].
Proof.
  intros. unfold dec. cbn [dec_rec]. destruct (Z.ltb_spec v 10); [lia|].
  destruct (Z.ltb_spec (v / 10) 10); [done|].
  pose proof (Z.div_mod v 10 ltac:(lia)). pose proof (Z.mod_pos_bound v 10). lia.
Qed.

Lemma dec_100 v : in_u 64 v -> 100 <= v ->
  dec v = dec (v / 100) ++ [48 + (v mod 100) / 10; 48 + (v mod 100) mod 10].
Proof.
  intros Hv H100. unfold dec.
  assert (v / 100 < 10 ^ Z.of_nat 18) by (apply Z.div_lt_upper_bound; cint).
  assert (1 <= v / 100) by (apply Z.div_le_lower_bound; lia).
  rewrite (dec_rec_fuel 18 20 (v / 100)) by lia.
  change (dec_rec 20 v) with (if v <? 10 then [48 + v]
    else (if v / 10 <? 10 then [48 + v / 10]
          else dec_rec 18 (v / 10 / 10) ++ [48 + (v / 10) mod 10]) ++ [48 + v mod 10]).
  assert (10 <= v / 10) by (apply Z.div_le_lower_bound; lia).
  destruct (Z.ltb_spec v 10); [lia|]. destruct (Z.ltb_spec (v / 10) 10); [lia|].
  rewrite Z.div_div by lia. change (10 * 10) with 100. rewrite <- app_assoc. cbn [app].
  replace ((v mod 100) mod 10) with (v mod 10).
  2: { change 100 with (10 * 10). rewrite Z.rem_mul_r by lia.
       rewrite (Z.mul_comm 10), Z_mod_plus_full. by rewrite Zmod_mod. }
  replace ((v mod 100) / 10) with ((v / 10) mod 10); [done|].
  change 100 with (10 * 10). rewrite Z.rem_mul_r by lia.
  rewrite (Z.mul_comm 10), Z_div_plus_full by lia.
  rewrite (Z.div_small (v mod 10)) by (apply Z.mod_pos_bound; lia). lia.
Qed.

(** The table holds the two digits of every number below 100. *)
Lemma digits_pair r : 0 <= r < 100 ->
  znth digits (r * 2 + 1) = Some (48 + r mod 10) /\
  znth digits (r * 2) = Some (48 + r / 10).
Proof.
  intros Hr.
  assert (Forall (fun r => znth digits (r * 2 + 1) = Some (48 + r mod 10) /\
    znth digits (r * 2) = Some (48 + r / 10)) (seqZ 0 100)) as H by by_decide.
  rewrite Forall_forall in H. apply H, elem_of_seqZ. lia.
Qed.

Global Opaque digits.

(** Writing two digits at the end of the hole [b]. *)
Lemma write_pair a b x y c r next :
  0 <= r < 100 -> next = zlen a + zlen b + 1 -> in_u 32 next ->
  exists dst, zset (a ++ b ++ [x; y] ++ c) next (48 + r mod 10) = Some dst /\
    zset dst (next -[32] 1) (48 + r / 10) =
    Some (a ++ b ++ [48 + r / 10; 48 + r mod 10] ++ c).
Proof.
  intros Hr -> Hn. pose proof (zlen_nonneg a). pose proof (zlen_nonneg b).
  rewrite wrap_small by cint. eexists. split.
  - replace (a ++ b ++ [x; y] ++ c) with ((a ++ b ++ [x]) ++ y :: c)
      by (by rewrite <- !app_assoc).
    apply zset_app_mid. rewrite !zlen_app, zlen_cons, zlen_nil. lia.
  - rewrite <- !app_assoc. simpl. rewrite (app_assoc a b).
    rewrite zset_app_mid by (rewrite zlen_app; lia). by rewrite <- app_assoc.
Qed.

Lemma ll2string_loop_spec : forall fuel a b c value next,
  in_u 64 value -> value < 100 ^ Z.of_nat fuel -> (0 < fuel)%nat ->
  zlen b = zlen (dec value) ->
  next = zlen a + zlen b - 1 -> in_u 32 next ->
  exists b' ds v' next',
    ll2string_loop fuel (a ++ b ++ c) value next =
      Some (a ++ b' ++ ds ++ c, v', next') /\
    0 <= v' < 100 /\ dec value = dec v' ++ ds /\ zlen b' = zlen (dec v') /\
    next' = zlen a + zlen b' - 1 /\ in_u 32 next'.
Proof.
  induction fuel as [|fuel IH]; intros a b c value next Hv Hf Hpos Hb Hn Hu; [lia|].
  cbn [ll2string_loop]. destruct (Z.leb_spec 100 value) as [H100|Hlt].
  2: { exists b, [], value, next. rewrite app_nil_r. split; [done|]. split; [cint|]. done. }
  rewrite Nat2Z.inj_succ, Z.pow_succ_r in Hf by lia.
  pose proof (Z.mod_pos_bound value 100 ltac:(lia)) as Hm.
  destruct (digits_pair _ Hm) as [Hd1 Hd0]. rewrite Hd1. step.
  rewrite (dec_100 value Hv H100), zlen_app, !zlen_cons, zlen_nil in Hb.
  destruct (zlen_snoc b (zlen (dec (value / 100)) + 1)) as (b1 & y & -> & Hb1);
    [pose proof (zlen_nonneg (dec (value / 100))); lia | lia |].
  destruct (zlen_snoc b1 (zlen (dec (value / 100)))) as (b2 & x & -> & Hb2);
    [apply zlen_nonneg | lia |].
  rewrite !zlen_app, !zlen_cons, !zlen_nil in Hn.
  destruct (write_pair a b2 x y c (value mod 100) next) as (dst & Hw1 & Hw2);
    [done | lia | done |].
  rewrite <- !app_assoc in *. cbn [app] in *. rewrite Hw1. step. rewrite Hd0. step.
  rewrite Hw2. step.
  assert (1 <= value / 100) by (apply Z.div_le_lower_bound; lia).
  assert (value / 100 < 100 ^ Z.of_nat fuel) by (apply Z.div_lt_upper_bound; lia).
  assert (1 <= zlen (dec (value / 100))) as Hdpos.
  { unfold dec. apply dec_rec_len; [lia|]. split; [lia|].
    apply Z.div_lt_upper_bound; cint. }
  assert (0 < fuel)%nat.
  { destruct fuel; [|lia]. change (100 ^ Z.of_nat 0) with 1 in *. lia. }
  pose proof (zlen_nonneg a).
  destruct (IH a b2 ([48 + value mod 100 / 10; 48 + (value mod 100) mod 10] ++ c)
    (value / 100) (next -[32] 2)) as (b' & ds & v' & next' & Heq & Hv' & Hdec & Hb' & Hn' & Hu');
    [ | done | done | lia | rewrite wrap_small by cint; lia | rewrite wrap_small by cint; cint | ].
  { unfold in_u in *. split; [lia|]. apply Z.div_lt_upper_bound; lia. }
  cbn [app] in Heq. rewrite Heq.
  exists b', (ds ++ [48 + value mod 100 / 10; 48 + (value mod 100) mod 10]), v', next'.
  rewrite <- !app_assoc. split; [done|]. split; [done|]. split; [|done].
  by rewrite (dec_100 value Hv H100), Hdec, <- app_assoc.
Qed.

(** The last one or two digits. *)
Lemma ll2string_last a b c v next :
  0 <= v < 100 -> zlen b = zlen (dec v) -> next = zlen a + zlen b - 1 ->
  in_u 32 next ->
  (if v <? 10 then zset (a ++ b ++ c) next (48 + v)
   else
     d1 ← znth digits (v * 2 + 1); dst ← zset (a ++ b ++ c) next d1;
     d0 ← znth digits (v * 2); zset dst (next -[32] 1) d0) = Some (a ++ dec v ++ c).
Proof.
  intros Hv Hb Hn Hu. pose proof (zlen_nonneg a). destruct (Z.ltb_spec v 10).
  - rewrite dec_small in * by lia. rewrite zlen_cons, zlen_nil in Hb.
    destruct (zlen_snoc b 0) as (b1 & x & -> & Hb1); [lia..|].
    destruct b1; [|rewrite zlen_cons in Hb1; pose proof (zlen_nonneg b1); lia].
    cbn [app]. apply zset_app_mid. rewrite Hn. cbn [app]. rewrite zlen_cons, zlen_nil. lia.
  - rewrite dec_two in * by lia. rewrite !zlen_cons, zlen_nil in Hb.
    destruct (zlen_snoc b 1) as (b1 & y & -> & Hb1); [lia..|].
    destruct (zlen_snoc b1 0) as (b2 & x & -> & Hb2); [lia..|].
    destruct b2; [|rewrite zlen_cons in Hb2; pose proof (zlen_nonneg b2); lia].
    destruct (digits_pair v Hv) as [Hd1 Hd0]. rewrite Hd1. step.
    destruct (write_pair a [] x y c v next) as (dst & H1 & H2);
      [lia | rewrite zlen_nil; cbn [app] in Hn; rewrite !zlen_cons, zlen_nil in Hn; lia | done |].
    cbn [app] in *. rewrite H1. step. rewrite Hd0. step. exact H2.
Qed.

Lemma dec_zlen v : in_u 64 v -> 1 <= zlen (dec v) <= 20.
Proof.
  intros Hv. destruct (dec_rec_len 20 v) as (_ & H1 & H2); [lia|cint|].
  unfold dec. split; [lia|]. destruct (Z.leb_spec (zlen (dec_rec 20 v)) 20); [lia|].
  assert (10 ^ 20 <= 10 ^ (zlen (dec_rec 20 v) - 1)) by (apply Z.pow_le_mono_r; lia).
  destruct (Z.leb_spec 10 v); [specialize (H2 ltac:(lia)); cint|].
  change (dec_rec 20 v) with (dec v) in *. rewrite dec_small in * by cint.
  rewrite zlen_cons, zlen_nil in *. lia.
Qed.

(** The sign and the absolute value the printer works with. *)
Lemma sdec_parts v : in_s 64 v ->
  exists u neg,
    (if v <? 0 then
      (if negb (v =? LLONG_MIN) then u64 (- v) else u64 (LLONG_MAX + 1), 1)
     else (v, 0)) = (u, neg) /\ in_u 64 u /\ (neg = 0 \/ neg = 1) /\
    sdec v = (if neg =? 1 then [45] else []) ++ dec u.
Proof.
  intros Hv. unfold sdec, LLONG_MIN, LLONG_MAX.
  destruct (Z.ltb_spec v 0); [|exists v, 0; repeat split; auto; cint].
  exists (- v), 1. split; [|repeat split; auto; cint].
  rewrite !wrap_small by cint. destruct (Z.eqb_spec v (- 2 ^ 63)) as [->|]; done.
Qed.

Lemma ll2string_spec dst v :
  in_s 64 v ->
  ll2string dst (zlen dst) v =
  if zlen (sdec v) <? zlen dst
  then Some (zlen (sdec v), sdec v ++ 0 :: drop (S (length (sdec v))) dst)
  else Some (0, dst).
Proof.
  intros Hv. unfold ll2string.
  destruct (sdec_parts v Hv) as (u & neg & -> & Hu & Hneg & Hs). rewrite Hs.
  rewrite digits10_spec by done. step. pose proof (dec_zlen u Hu) as Hlen.
  set (sg := if neg =? 1 then [45] else []) in *.
  assert (zlen sg = neg) as Hsg by (unfold sg; destruct Hneg as [->| ->]; done).
  rewrite zlen_app, Hsg, wrap_small by (destruct Hneg; cint).
  replace (neg + zlen (dec u)) with (zlen (dec u) + neg) by lia.
  set (n := zlen (dec u) + neg).
  destruct (Z.leb_spec (zlen dst) n), (Z.ltb_spec n (zlen dst)); try lia; [done|].
  set (c := drop (S (length (sg ++ dec u))) dst).
  assert (exists b x, dst = take (length sg) dst ++ b ++ x :: c /\
    zlen b = zlen (dec u) /\ length (take (length sg) dst) = length sg)
    as (b & x & Hd & Hb & Hsl).
  { destruct (lookup_lt_is_Some_2 dst (length (sg ++ dec u))) as [x Hx].
    { unfold n, zlen in *. rewrite length_app. lia. }
    exists (drop (length sg) (take (length (sg ++ dec u)) dst)), x.
    apply take_drop_middle in Hx. fold c in Hx. unfold n, zlen in *.
    rewrite length_app in *. split; [|split].
    - rewrite <- Hx at 1. rewrite app_assoc. f_equal.
      rewrite <- (take_drop (length sg) (take _ dst)) at 1.
      rewrite take_take. f_equal. f_equal. lia.
    - rewrite length_drop, length_take. lia.
    - rewrite length_take. lia. }
  set (a := take (length sg) dst) in *. rewrite Hd.
  assert (zlen a = neg) as Ha by (rewrite <- Hsg; unfold zlen; congruence).
  rewrite app_assoc, zset_app_mid by (rewrite zlen_app; lia). step.
  rewrite <- app_assoc. rewrite (wrap_small 32 (n - 1)) by (unfold n; destruct Hneg; cint).
  destruct (ll2string_loop_spec 11 a b (0 :: c) u (n - 1))
    as (b' & ds & v' & next' & Hloop & Hv' & Hdec & Hb' & Hn' & Hu');
    [done | cint | lia | done | lia | unfold n; destruct Hneg; cint |].
  rewrite Hloop. step. rewrite (ll2string_last a b' (ds ++ 0 :: c) v' next') by done.
  step. rewrite (app_assoc (dec v')), <- Hdec.
  assert (sg = if neg =? 1 then [45] else []) as Esg by done.
  clearbody a c n sg. clear Hd Hsl Hs. subst sg.
  destruct Hneg as [E|E]; rewrite E in *; simpl Z.eqb; cbv iota; step.
  - destruct a; [done|]. rewrite zlen_cons in Ha. pose proof (zlen_nonneg a). lia.
  - destruct (zlen_snoc a 0) as (a' & y & -> & Ha'); [lia..|].
    destruct a'; [|rewrite zlen_cons in Ha'; pose proof (zlen_nonneg a'); lia].
    pose proof (zset_app_mid [] (dec u ++ 0 :: c) y 45 0 eq_refl) as Hz.
    cbn [app] in *. by rewrite Hz.
Qed.

(** ** Parsing *)

(** Every digit read makes the value grow. *)
Lemma dval_ge a l : 0 <= a -> Forall digit l -> a <= dval a l.
Proof.
  intros Ha Hl. revert a Ha. unfold digit in Hl.
  induction Hl as [|c l Hc _ IH]; intros a Ha; unfold dval in *; simpl; [lia|].
  specialize (IH (10 * a + (c - 48))). lia.
Qed.

(** The loop over the digits [ds] that follow position [plen]. *)
Lemma string2ll_loop_spec s ds : Forall digit ds -> forall pre rest v fuel,
  s = pre ++ ds ++ rest ->
  match rest with [] => True | c :: _ => ~ digit c end ->
  0 <= v <= ULLONG_MAX -> (length ds < fuel)%nat ->
  string2ll_loop s (zlen s) fuel v (zlen pre) =
  Some (if dval v ds <=? ULLONG_MAX then Some (dval v ds, zlen pre + zlen ds) else None).
Proof.
  induction 1 as [|c ds Hc Hds IH]; intros pre rest v fuel Hs Hrest Hv Hf;
    (destruct fuel as [|fuel]; [simpl in Hf; lia|]); cbn [string2ll_loop].
  - replace (dval v [] <=? ULLONG_MAX) with true by (unfold dval; simpl; lia).
    rewrite zlen_nil, Z.add_0_r. cbn [app] in Hs.
    destruct (Z.ltb_spec (zlen pre) (zlen s)) as [Hlt|]; [|done].
    destruct rest as [|c rest]; [rewrite Hs, app_nil_r in Hlt; lia|].
    rewrite Hs, znth_app_mid by done. step. by destruct (is_digit_spec c).
  - destruct (Z.ltb_spec (zlen pre) (zlen s)) as [|Hge].
    2: { rewrite Hs, !zlen_app, zlen_cons in Hge. pose proof (zlen_nonneg ds).
         pose proof (zlen_nonneg rest). lia. }
    assert (znth s (zlen pre) = Some c) as Hz by (rewrite Hs; by apply znth_app_mid).
    rewrite Hz. step. destruct (is_digit_spec c) as [_|]; [|done].
    change (dval v (c :: ds)) with (dval (10 * v + (c - 48)) ds).
    unfold digit in Hc. change (ULLONG_MAX / 10) with 1844674407370955161.
    unfold ULLONG_MAX in *.
    pose proof (dval_ge (10 * v + (c - 48)) ds ltac:(lia) Hds) as Hge.
    destruct (Z.ltb_spec 1844674407370955161 v).
    { destruct (Z.leb_spec (dval (10 * v + (c - 48)) ds) (2 ^ 64 - 1)); [|done].
      pow2. lia. }
    rewrite (wrap_small 64 (v * 10)) by cint.
    destruct (Z.ltb_spec (2 ^ 64 - 1 - (c - 48)) (v * 10)).
    { destruct (Z.leb_spec (dval (10 * v + (c - 48)) ds) (2 ^ 64 - 1)); [|done]. lia. }
    rewrite wrap_small by cint. replace (v * 10 + (c - 48)) with (10 * v + (c - 48)) by lia.
    specialize (IH (pre ++ [c]) rest (10 * v + (c - 48)) fuel).
    rewrite zlen_app_one in IH.
    rewrite IH; [ | by rewrite Hs, <- app_assoc | done | lia | simpl in Hf; lia].
    rewrite zlen_cons. by replace (zlen pre + 1 + zlen ds) with (zlen pre + (1 + zlen ds)) by lia.
Qed.

(** The longest prefix of digits. *)
Lemma digits_prefix l : exists ds rest, l = ds ++ rest /\ Forall digit ds /\
  match rest with [] => True | c :: _ => ~ digit c end.
Proof.
  induction l as [|c l (ds & rest & -> & Hds & Hr)]; [by exists [], []|].
  destruct (is_digit_spec c) as [Hc|Hc].
  - exists (c :: ds), rest. split; [done|]. split; [by constructor|done].
  - exists [], (c :: ds ++ rest). done.
Qed.

Lemma dec_0 : dec 0 = [48].
Proof. done. Qed.

(** A canonical positive notation starts with a digit from 1 to 9. *)
Lemma dec_head u : in_u 64 u -> u <> 0 -> exists c l, dec u = c :: l /\ 49 <= c <= 57.
Proof. intros. unfold dec. apply dec_rec_head. cint. Qed.

Lemma dec_inj u w : in_u 64 u -> in_u 64 w -> dec u = dec w -> u = w.
Proof.
  intros Hu Hw H. apply (f_equal (dval 0)) in H.
  unfold dec in H. rewrite !dval_dec in H by (lia || cint). done.
Qed.

(** What the parser finds after the sign: either the rest of the string is the
    notation of a positive number, or it is not and the parser notices. *)
Lemma string2ll_body s pre c tl fuel :
  s = pre ++ c :: tl -> (length tl < fuel)%nat ->
  let loop := string2ll_loop s (zlen s) fuel (c - 48) (zlen pre + 1) in
  (exists u, in_u 64 u /\ u <> 0 /\ c :: tl = dec u /\ 49 <= c <= 57 /\
     loop = Some (Some (u, zlen s))) \/
  ((forall u, in_u 64 u -> u <> 0 -> c :: tl <> dec u) /\
   (~ 49 <= c <= 57 \/ loop = Some None \/
    exists v p, loop = Some (Some (v, p)) /\ p < zlen s)).
Proof.
  intros Hs Hf loop.
  destruct (decide (49 <= c <= 57)) as [Hc|Hc].
  2: { right. split; [|by left]. intros u Hu Hne Heq.
       destruct (dec_head u Hu Hne) as (c' & l & Hd & ?). rewrite Hd in Heq.
       injection Heq as -> _. done. }
  destruct (digits_prefix tl) as (ds & rest & Htl & Hds & Hrest).
  assert (loop = Some (if dval (c - 48) ds <=? ULLONG_MAX
    then Some (dval (c - 48) ds, zlen pre + 1 + zlen ds) else None)) as Hloop.
  { unfold loop. rewrite <- (zlen_app_one pre c).
    apply (string2ll_loop_spec s ds Hds (pre ++ [c]) rest); [|done| |].
    - by rewrite Hs, Htl, <- app_assoc.
    - unfold ULLONG_MAX. pow2. lia.
    - rewrite Htl, length_app in Hf. lia. }
  assert (dval (c - 48) ds = dval 0 (c :: ds)) as Hdv.
  { unfold dval. simpl. by replace (10 * 0 + (c - 48)) with (c - 48) by lia. }
  destruct rest as [|r rest].
  - rewrite app_nil_r in Htl. subst ds.
    assert (zlen s = zlen pre + 1 + zlen tl) as Hlen
      by (rewrite Hs, zlen_app, zlen_cons; lia).
    assert (Forall digit (c :: tl)) as Hall by (constructor; [unfold digit; lia|done]).
    destruct (Z.leb_spec (dval (c - 48) tl) ULLONG_MAX) as [Hle|Hgt].
    + left. exists (dval 0 (c :: tl)). unfold ULLONG_MAX in Hle. pow2.
      pose proof (dval_ge (c - 48) tl ltac:(lia) Hds).
      split; [cint|]. split; [lia|]. split.
      * symmetry. apply dec_canonical; [done|lia|]. change (10 ^ Z.of_nat 20) with (10 ^ 20).
        change (10 ^ 20) with 100000000000000000000. lia.
      * split; [done|]. by rewrite Hloop, Hdv, Hlen.
    + right. split; [|by right; left]. intros u Hu Hne Heq.
      rewrite Hdv, Heq in Hgt. unfold dec in Hgt.
      rewrite dval_dec in Hgt by (lia || cint). unfold ULLONG_MAX in Hgt. cint.
  - right. split.
    + intros u Hu Hne Heq. assert (Forall digit (dec u)) as Hall
        by (apply dec_digits; [lia|cint]).
      rewrite <- Heq, Htl in Hall. apply Forall_cons in Hall as [_ Hall].
      apply Forall_app in Hall as [_ [? _]%Forall_cons]. done.
    + right. rewrite Hloop. case_match; [|by left]. right. eexists _, _.
      split; [done|]. rewrite Hs, Htl, !zlen_app, !zlen_cons, zlen_app, zlen_cons.
      pose proof (zlen_nonneg rest). lia.
Qed.

(** The sign and the digits of a canonical notation. *)
Lemma sdec_cases v : in_s 64 v ->
  (v = 0 /\ sdec v = [48]) \/
  (exists u, in_u 64 u /\ u <> 0 /\ u <= LLONG_MAX /\ v = u /\ sdec v = dec u) \/
  (exists u, in_u 64 u /\ u <> 0 /\ u <= 2 ^ 63 /\ v = - u /\ sdec v = 45 :: dec u).
Proof.
  unfold sdec, LLONG_MAX. intros Hv. destruct (Z.ltb_spec v 0).
  - right; right. exists (- v). repeat split; try done; cint.
  - destruct (decide (v = 0)) as [->|]; [by left|]. right; left. exists v.
    repeat split; try done; cint.
Qed.

(** The parser accepts exactly the canonical notations. *)
Definition parsed (s : list Z) (r : option (Z * option Z)) : Prop :=
  (exists v, in_s 64 v /\ s = sdec v /\ r = Some (1, Some v)) \/
  ((forall v, in_s 64 v -> s <> sdec v) /\ r = Some (0, None)).

Lemma not_sdec s :
  s <> [48] ->
  (forall u, in_u 64 u -> u <> 0 -> u <= LLONG_MAX -> s <> dec u) ->
  (forall u, in_u 64 u -> u <> 0 -> u <= 2 ^ 63 -> s <> 45 :: dec u) ->
  forall v, in_s 64 v -> s <> sdec v.
Proof.
  intros H0 Hp Hn v Hv Heq.
  destruct (sdec_cases v Hv) as [[_ Hs]|[(u & ? & ? & ? & _ & Hs)|(u & ? & ? & ? & _ & Hs)]];
    rewrite Hs in Heq; [done | by eapply Hp | by eapply Hn].
Qed.

Lemma dec_not_minus u l : in_u 64 u -> u <> 0 -> 45 :: l <> dec u.
Proof.
  intros Hu Hne H. destruct (dec_head u Hu Hne) as (c & ? & Hd & ?).
  rewrite Hd in H. injection H as <- _. lia.
Qed.

Lemma string2ll_spec s : parsed s (string2ll s (zlen s)).
Proof.
  destruct s as [|c0 t].
  { right. split; [|done]. apply not_sdec; [done| |done].
    intros u Hu Hne _ H. destruct (dec_head u Hu Hne) as (? & ? & Hd & _). by rewrite Hd in H. }
  unfold string2ll. rewrite znth_cons_0. step.
  assert (0 =? zlen (c0 :: t) = false) as ->
    by (rewrite zlen_cons; pose proof (zlen_nonneg t); lia).
  destruct ((zlen (c0 :: t) =? 1) && (c0 =? 48)) eqn:Hz.
  { assert (t = [] /\ c0 = 48) as [-> ->].
    { rewrite zlen_cons in Hz. split; [apply nil_length_inv; unfold zlen in Hz|]; lia. }
    left. exists 0. repeat split; cint. }
  assert (c0 :: t <> [48]) as Hnz by (intros [= -> ->]; done).
  destruct (Z.eqb_spec c0 45) as [->|Hc0]; cbn [andb].
  - destruct (Z.eqb_spec 1 (zlen (45 :: t))) as [E|E].
    { assert (t = []) as -> by (rewrite zlen_cons in E; apply nil_length_inv; unfold zlen in E; lia).
      right. split; [|done]. apply not_sdec; [done| |].
      - intros. by apply dec_not_minus.
      - intros u Hu Hne _ [= H]. destruct (dec_head u Hu Hne) as (? & ? & Hd & _).
        by rewrite Hd in H. }
    destruct t as [|c tl]; [done|].
    change (znth (45 :: c :: tl) 1) with (Some c). step.
    destruct (string2ll_body (45 :: c :: tl) [45] c tl
      (S (Z.to_nat (zlen (45 :: c :: tl)))) eq_refl) as
      [(u & Hu & Hne & Hd & Hc & Hloop)|[Hno Hcase]].
    { unfold zlen. rewrite Nat2Z.id. simpl. lia. }
    + change (zlen [45] + 1) with (1 + 1) in Hloop.
      replace ((49 <=? c) && (c <=? 57)) with true by lia. rewrite Hloop. step.
      rewrite Z.ltb_irrefl. change (u64 (- (LLONG_MIN + 1)) +[64] 1) with (2 ^ 63).
      destruct (Z.ltb_spec (2 ^ 63) u).
      * right. split; [|done]. apply not_sdec; [done|intros; by apply dec_not_minus|].
        intros u' Hu' Hne' Hle [= Heq]. rewrite Hd in Heq. apply dec_inj in Heq; [lia|done..].
      * left. exists (- u). unfold sdec. assert (1 <= u) by cint.
        destruct (Z.ltb_spec (- u) 0); [|lia]. split; [cint|].
        rewrite Z.opp_involutive, Hd. split; [done|]. repeat f_equal.
        unfold swrap, wrap. rewrite Zplus_mod_idemp_l.
        change (s64 (- u) = - u). apply swrap_small; cint.
    + change (zlen [45] + 1) with (1 + 1) in Hcase. right. split.
      * apply not_sdec; [done|intros; by apply dec_not_minus|].
        intros u Hu Hne _ [= Heq]. by eapply Hno.
      * replace ((c =? 48) && (zlen (45 :: c :: tl) =? 1)) with false
          by (rewrite !zlen_cons; pose proof (zlen_nonneg tl); lia).
        destruct Hcase as [Hc|[Hl|(v & p & Hl & Hp)]].
        -- by replace ((49 <=? c) && (c <=? 57)) with false by lia.
        -- rewrite Hl. by case_match.
        -- rewrite Hl. step. destruct (Z.ltb_spec p (zlen (45 :: c :: tl))); [|lia].
           by case_match.
  - change (znth (c0 :: t) 0) with (Some c0). step.
    destruct (string2ll_body (c0 :: t) [] c0 t (S (Z.to_nat (zlen (c0 :: t)))) eq_refl) as
      [(u & Hu & Hne & Hd & Hc & Hloop)|[Hno Hcase]].
    { unfold zlen. rewrite Nat2Z.id. simpl. lia. }
    + change (zlen [] + 1) with (0 + 1) in Hloop.
      replace ((49 <=? c0) && (c0 <=? 57)) with true by lia. rewrite Hloop. step.
      rewrite Z.ltb_irrefl. unfold LLONG_MAX. destruct (Z.ltb_spec (2 ^ 63 - 1) u).
      * right. split; [|done]. apply not_sdec; [done| |by intros ???? [=]].
        intros u' Hu' Hne' Hle Heq. rewrite Hd in Heq. apply dec_inj in Heq; [|done..].
        unfold LLONG_MAX in Hle. lia.
      * left. exists u. unfold sdec. destruct (Z.ltb_spec u 0); [cint|]. split; [cint|].
        rewrite Hd. split; [done|]. rewrite swrap_small by cint. done.
    + change (zlen [] + 1) with (0 + 1) in Hcase. right. split.
      * apply not_sdec; [done| |by intros ???? [=]]. intros u Hu Hne _. by apply Hno.
      * replace ((c0 =? 48) && (zlen (c0 :: t) =? 1)) with false by lia.
        destruct Hcase as [Hc|[Hl|(v & p & Hl & Hp)]].
        -- by replace ((49 <=? c0) && (c0 <=? 57)) with false by lia.
        -- rewrite Hl. by case_match.
        -- rewrite Hl. step. destruct (Z.ltb_spec p (zlen (c0 :: t))); [|lia].
           by case_match.
Qed.

(** The integer a notation stands for, so that notations are distinct. *)
Definition sval (s : list Z) : Z :=
  match s with
  | c :: t => if c =? 45 then - dval 0 t else dval 0 s
  | [] => 0
  end.

Lemma sval_sdec v : in_s 64 v -> sval (sdec v) = v.
Proof.
  intros Hv. unfold sdec. destruct (Z.ltb_spec v 0).
  - cbn [sval]. simpl Z.eqb. cbv iota. unfold dec. rewrite dval_dec by (lia || cint). lia.
  - assert (Forall digit (dec v)) as Hd by (apply dec_digits; [lia|cint]).
    assert (dval 0 (dec v) = v) as Hv' by (apply dval_dec; [lia|cint]).
    destruct (dec v) as [|c t]; [done|]. apply Forall_cons in Hd as [Hc _].
    unfold digit in Hc. cbn [sval]. destruct (Z.eqb_spec c 45); [lia|done].
Qed.

Lemma sdec_inj v w : in_s 64 v -> in_s 64 w -> sdec v = sdec w -> v = w.
Proof. intros Hv Hw E. by rewrite <- (sval_sdec v Hv), E, (sval_sdec w Hw). Qed.

Lemma sdec_zlen v : in_s 64 v -> 1 <= zlen (sdec v) <= 21.
Proof.
  intros Hv. destruct (sdec_parts v Hv) as (u & neg & _ & Hu & Hneg & ->).
  pose proof (dec_zlen u Hu). rewrite zlen_app.
  destruct Hneg as [-> | ->]; simpl; rewrite ?zlen_cons, ?zlen_nil; lia.
Qed.

(** C18: [ll2string] writes the canonical decimal notation of every 64-bit
    integer and its terminator, touches nothing else, and [string2ll] reads the
    integer back; when the buffer cannot hold the notation and the terminator it
    returns 0 and leaves the buffer alone. *)
Theorem ll2string_roundtrip (dst : list Z) (v : Z) (Hv : in_s 64 v) :
  if zlen (sdec v) <? zlen dst then
    ll2string dst (zlen dst) v =
      Some (zlen (sdec v), sdec v ++ 0 :: drop (S (length (sdec v))) dst) /\
    string2ll (sdec v) (zlen (sdec v)) = Some (1, Some v)
  else ll2string dst (zlen dst) v = Some (0, dst).
Proof.
  pose proof (ll2string_spec dst v Hv) as Hp.
  destruct (zlen (sdec v) <? zlen dst); [|done]. split; [done|].
  destruct (string2ll_spec (sdec v)) as [(w & Hw & Heq & ->)|[Hno _]].
  - by rewrite (sdec_inj v w Hv Hw Heq).
  - by destruct (Hno v Hv).
Qed.

Lemma ll2string_roundtrip_witness :
  ll2string (replicate 24 7) 24 (-9223372036854775808) =
    Some (20, bytes_of "-9223372036854775808" ++ [0; 7; 7; 7]) /\
  ll2string [7; 7; 7] 3 100 = Some (0, [7; 7; 7]).
Proof.
  split.
  - pose proof (ll2string_roundtrip (replicate 24 7) (-9223372036854775808)
      ltac:(cint)) as H.
    replace (zlen (sdec (-9223372036854775808)) <? _) with true in H
      by (vm_compute; reflexivity).
    destruct H as [H _]. change 24 with (zlen (replicate 24 7)). rewrite H.
    vm_compute. reflexivity.
  - pose proof (ll2string_roundtrip [7; 7; 7] 100 ltac:(cint)) as H.
    replace (zlen (sdec 100) <? _) with false in H by (vm_compute; reflexivity).
    exact H.
Defined.

(** C21: [string2ll] never reads past the string and accepts exactly the
    canonical notations of the 64-bit integers: no leading zero or plus sign, no
    minus zero, no space, no trailing byte, no value out of range. *)
Theorem string2ll_exact (s : list Z) (r : option (Z * option Z)) :
  string2ll s (zlen s) = r <->
  (exists v, in_s 64 v /\ s = sdec v /\ r = Some (1, Some v)) \/
  ((forall v, in_s 64 v -> s <> sdec v) /\ r = Some (0, None)).
Proof.
  pose proof (string2ll_spec s) as Hs. split; [by intros <-|]. intros Hr.
  destruct Hs as [(v & Hv & E & ->)|[Hno ->]],
    Hr as [(w & Hw & E' & ->)|[Hno' ->]];
    [ | by destruct (Hno' v Hv) | by destruct (Hno w Hw) | done].
  by rewrite (sdec_inj v w) by (done || congruence).
Qed.
