(* ===== verification/Glob.v ===== *)
(** [stringmatchlen] of [src/redis-3.0.0/src/util.c]: the glob-style matcher
    behind KEYS, PSUBSCRIBE, CONFIG GET and SCAN MATCH, with the relation it
    decides and the inputs on which it goes wrong.

    Pattern and string are blocks of bytes that end with a zero, as the matcher
    reads the terminator; [pi] and [si] are the two moving pointers. *)
From S2P Require Import Prelude.
Local Open Scope c_scope.

(** [tolower] in the C locale, on a [char] converted to [int]. *)
Definition tolower (c : Z) : Z :=
  if (65 <=? c) && (c <=? 90) then c + 32 else c.

(** The loop that collapses a run of stars to its last one. *)
Fixpoint skip_stars (pat : list Z) (fuel : nat) (pi plen : Z) : option (Z * Z) :=
  match fuel with
  | O => None
  | S fuel =>
      c ← znth pat (pi + 1);
      if c =? 42 then skip_stars pat fuel (pi + 1) (plen - 1) else Some (pi, plen)
  end.

(** The loop that skips the stars left when the string is used up. *)
Fixpoint skip_tail (pat : list Z) (fuel : nat) (pi plen : Z) : option (Z * Z) :=
  match fuel with
  | O => None
  | S fuel =>
      c ← znth pat pi;
      if c =? 42 then skip_tail pat fuel (pi + 1) (plen - 1) else Some (pi, plen)
  end.

(** The loop over the items of a set; [c] is [string[0]].  The result is the
    pattern pointer, its length and [match]. *)
Fixpoint set_loop (pat : list Z) (nocase : bool) (c : Z) (fuel : nat)
    (pi plen : Z) (matched : bool) : option (Z * Z * bool) :=
  match fuel with
  | O => None
  | S fuel =>
      p0 ← znth pat pi;
      if p0 =? 92 then
        let pi := pi + 1 in
        let plen := plen - 1 in
        p0 ← znth pat pi;
        set_loop pat nocase c fuel (pi + 1) (plen - 1) (matched || (p0 =? c))
      else if p0 =? 93 then Some (pi, plen, matched)
      else if plen =? 0 then Some (pi - 1, plen + 1, matched)
      else
        p1 ← znth pat (pi + 1);
        if (p1 =? 45) && (3 <=? plen) then
          p2 ← znth pat (pi + 2);
          let start := s8 p0 in
          let end_ := s8 p2 in
          let ch := s8 c in
          let '(start, end_) := if end_ <? start then (end_, start) else (start, end_) in
          let '(start, end_, ch) :=
            if nocase then (tolower start, tolower end_, tolower ch)
            else (start, end_, ch) in
          set_loop pat nocase c fuel (pi + 3) (plen - 3)
            (matched || ((start <=? ch) && (ch <=? end_)))
        else
          let eq :=
            if nocase then tolower (s8 p0) =? tolower (s8 c) else p0 =? c in
          set_loop pat nocase c fuel (pi + 1) (plen - 1) (matched || eq)
  end.

(** [while(stringLen) { if (stringmatchlen(...)) return 1; string++; ... }
    return 0;] with the recursive call as [rec]. *)
Fixpoint star_loop (rec : Z -> Z -> option Z) (fuel : nat) (si slen : Z) : option Z :=
  match fuel with
  | O => None
  | S fuel =>
      if slen =? 0 then Some 0
      else
        r ← rec si slen;
        if r =? 1 then Some 1 else star_loop rec fuel (si + 1) (slen - 1)
  end.

Section Match.
Context (pat str : list Z) (nocase : bool).

(** What follows the [switch]: advance the pattern, and stop when the string is
    used up; [rec] is the next turn of the loop. *)
Definition match_next (rec : Z -> Z -> Z -> Z -> option Z) (pi plen si slen : Z)
  : option Z :=
  let pi := pi + 1 in
  let plen := plen - 1 in
  if slen =? 0 then
    '(pi, plen) ← skip_tail pat (S (length pat)) pi plen;
    Some (if (plen =? 0) && (slen =? 0) then 1 else 0)
  else rec pi plen si slen.

Fixpoint match_loop (fuel : nat) (pi plen si slen : Z) : option Z :=
  match fuel with
  | O => None
  | S fuel =>
      if plen =? 0 then Some (if (plen =? 0) && (slen =? 0) then 1 else 0)
      else
        p0 ← znth pat pi;
        if p0 =? 42 then
          '(pi, plen) ← skip_stars pat (S (length pat)) pi plen;
          if plen =? 1 then Some 1
          else
            star_loop (fun si slen => match_loop fuel (pi + 1) (plen - 1) si slen)
              (S (length str)) si slen
        else if p0 =? 63 then
          if slen =? 0 then Some 0
          else match_next (match_loop fuel) pi plen (si + 1) (slen - 1)
        else if p0 =? 91 then
          let pi := pi + 1 in
          let plen := plen - 1 in
          p0 ← znth pat pi;
          let not := p0 =? 94 in
          let '(pi, plen) := if not then (pi + 1, plen - 1) else (pi, plen) in
          c ← znth str si;
          '(pi, plen, matched) ← set_loop pat nocase c (S (length pat)) pi plen false;
          let matched := if not then negb matched else matched in
          if matched then match_next (match_loop fuel) pi plen (si + 1) (slen - 1)
          else Some 0
        else
          let '(pi, plen) :=
            if (p0 =? 92) && (2 <=? plen) then (pi + 1, plen - 1) else (pi, plen) in
          p0 ← znth pat pi;
          c ← znth str si;
          let eq :=
            if nocase then tolower (s8 p0) =? tolower (s8 c) else p0 =? c in
          if eq then match_next (match_loop fuel) pi plen (si + 1) (slen - 1)
          else Some 0
  end.

(** [stringmatchlen(pattern, patternLen, string, stringLen, nocase)]. *)
Definition stringmatchlen (fuel : nat) (patternLen stringLen : Z) : option Z :=
  match_loop fuel 0 patternLen 0 stringLen.
End Match.

(** [stringmatch]: the lengths are those of the zero-terminated strings. *)
Definition stringmatch (p s : list Z) (nocase : bool) : option Z :=
  stringmatchlen (p ++ [0]) (s ++ [0]) nocase (S (length p)) (zlen p) (zlen s).

(** A pattern and a string given by their bytes. *)
Definition glob_match (p s : string) (nocase : bool) : option Z :=
  stringmatch (bytes_of p) (bytes_of s) nocase.

Example glob_ex1 : glob_match "h*llo" "heeeello" false = Some 1.
Proof. reflexivity. Qed.
Example glob_ex2 : glob_match "h[^ae-f]ll?" "hello" false = Some 0.
Proof. reflexivity. Qed.
Example glob_ex3 : glob_match "H[^A-D]l\l?**" "hello" true = Some 1.
Proof. reflexivity. Qed.
Example glob_ex4 : glob_match "[^a]*" "" false = Some 1.
Proof. reflexivity. Qed.
Example glob_ex5 : glob_match "[abc" "c" false = Some 1.
Proof. reflexivity. Qed.
Example glob_ex6 : glob_match "[ab\" "c" false = None.
Proof. reflexivity. Qed.

(** ** The relation the matcher decides *)

(** An item of a set: a character, an escaped one (compared exactly even when
    case is ignored), or a range with its ends in either order. *)
Inductive item := IChar (c : Z) | IEsc (c : Z) | IRange (a b : Z).

(** The items of a set up to its closing bracket, or to the end of the pattern,
    and the pattern after it; [None] when a backslash ends the pattern. *)
Fixpoint parse_set (p : list Z) : option (list item * list Z) :=
  match p with
  | [] => Some ([], [])
  | c :: p' =>
      if c =? 92 then
        match p' with
        | [] => None
        | d :: p' => '(l, r) ← parse_set p'; Some (IEsc d :: l, r)
        end
      else if c =? 93 then Some ([], p')
      else
        match p' with
        | h :: d :: p'' =>
            if h =? 45 then '(l, r) ← parse_set p''; Some (IRange c d :: l, r)
            else '(l, r) ← parse_set p'; Some (IChar c :: l, r)
        | _ => '(l, r) ← parse_set p'; Some (IChar c :: l, r)
        end
  end.

Definition char_eq (nocase : bool) (a c : Z) : bool :=
  if nocase then tolower (s8 a) =? tolower (s8 c) else a =? c.

Definition in_range (nocase : bool) (a b c : Z) : bool :=
  let lo := Z.min (s8 a) (s8 b) in
  let hi := Z.max (s8 a) (s8 b) in
  if nocase then (tolower lo <=? tolower (s8 c)) && (tolower (s8 c) <=? tolower hi)
  else (lo <=? s8 c) && (s8 c <=? hi).

Definition item_matches (nocase : bool) (c : Z) (it : item) : bool :=
  match it with
  | IChar a => char_eq nocase a c
  | IEsc a => a =? c
  | IRange a b => in_range nocase a b c
  end.

(** [p] starts with the body of a set, [neg] when it starts with a caret. *)
Definition set_body (p : list Z) : bool * list Z :=
  match p with
  | 94 :: p => (true, p)
  | _ => (false, p)
  end.

Inductive glob (nocase : bool) : list Z -> list Z -> Prop :=
| glob_nil : glob nocase [] []
| glob_star_stop p s : glob nocase p s -> glob nocase (42 :: p) s
| glob_star_more p c s : glob nocase (42 :: p) s -> glob nocase (42 :: p) (c :: s)
| glob_any p c s : glob nocase p s -> glob nocase (63 :: p) (c :: s)
| glob_set p c s items rest :
    parse_set (set_body p).2 = Some (items, rest) ->
    existsb (item_matches nocase c) items = negb (set_body p).1 ->
    glob nocase rest s -> glob nocase (91 :: p) (c :: s)
| glob_esc d p c s :
    char_eq nocase d c = true -> glob nocase p s -> glob nocase (92 :: d :: p) (c :: s)
| glob_lit d p c s :
    d <> 42 -> d <> 63 -> d <> 91 -> (d = 92 -> p = []) ->
    char_eq nocase d c = true -> glob nocase p s -> glob nocase (d :: p) (c :: s).

(** The outcome [r] decides [Q]. *)
Definition decides (r : option Z) (Q : Prop) : Prop :=
  (Q /\ r = Some 1) \/ (~ Q /\ r = Some 0).

Lemma decides_iff r Q Q' : (Q <-> Q') -> decides r Q -> decides r Q'.
Proof. unfold decides. tauto. Qed.

(** The pointer [i] into the block [m] is at the string [l], which the zero at
    the end of the block terminates. *)
Definition at_str (m : list Z) (i : Z) (l : list Z) : Prop :=
  0 <= i /\ drop (Z.to_nat i) m = l ++ [0].

Lemma at_hd_app m i c l : at_str m i l -> head (l ++ [0]) = Some c -> znth m i = Some c.
Proof.
  intros [Hi Hd] Hh. unfold znth. rewrite decide_True by done.
  rewrite <- (Nat.add_0_r (Z.to_nat i)), <- lookup_drop, Hd.
  by destruct (l ++ [0]).
Qed.

Lemma at_hd m i c l : at_str m i (c :: l) -> znth m i = Some c.
Proof. intros H. by apply (at_hd_app _ _ _ _ H). Qed.

Lemma at_nil m i : at_str m i [] -> znth m i = Some 0.
Proof. intros H. by apply (at_hd_app _ _ _ _ H). Qed.

Lemma at_tl m i c l : at_str m i (c :: l) -> at_str m (i + 1) l.
Proof.
  intros [Hi Hd]. split; [lia|]. replace (Z.to_nat (i + 1)) with (Z.to_nat i + 1)%nat by lia.
  by rewrite <- drop_drop, Hd.
Qed.

Lemma at_length m i l : at_str m i l -> (length l < length m)%nat.
Proof.
  intros [_ Hd]. apply (f_equal length) in Hd. rewrite length_drop, length_app in Hd.
  simpl in Hd. lia.
Qed.

Create HintDb glob discriminated.
#[export] Hint Resolve at_hd at_nil at_tl : glob.

(** ** Runs of stars *)

Lemma stars_prefix p : exists k q, p = replicate k 42 ++ q /\ head q <> Some 42.
Proof.
  induction p as [|c p (k & q & -> & Hq)]; [by exists 0%nat, []|].
  destruct (decide (c = 42)) as [->|].
  - by exists (S k), q.
  - exists 0%nat, (c :: replicate k 42 ++ q). split; [done|]. simpl. congruence.
Qed.

Lemma skip_stars_spec pat q : head q <> Some 42 ->
  forall k fuel pi, at_str pat pi (42 :: replicate k 42 ++ q) -> (k < fuel)%nat ->
  exists pi', skip_stars pat fuel pi (1 + Z.of_nat k + zlen q) = Some (pi', 1 + zlen q) /\
    at_str pat (pi' + 1) q.
Proof.
  intros Hq. induction k as [|k IH]; intros fuel pi Hat Hf;
    (destruct fuel as [|fuel]; [lia|]); cbn [skip_stars].
  - pose proof (at_tl _ _ _ _ Hat) as Ht. cbn [replicate app] in Ht.
    assert (exists c, head (q ++ [0]) = Some c /\ c <> 42) as (c & Hc & Hne).
    { destruct q as [|c q]; [by exists 0|]. exists c. split; [done|].
      simpl in Hq. congruence. }
    rewrite (at_hd_app _ _ _ _ Ht Hc). step. destruct (Z.eqb_spec c 42); [done|].
    by exists pi.
  - pose proof (at_tl _ _ _ _ Hat) as Ht.
    rewrite (at_hd _ _ _ _ Ht). step. rewrite Z.eqb_refl.
    destruct (IH fuel (pi + 1) Ht) as (pi' & Heq & Hat'); [lia|].
    exists pi'. split; [|done]. rewrite <- Heq. f_equal. lia.
Qed.

Lemma skip_tail_spec pat q : head q <> Some 42 ->
  forall k fuel pi, at_str pat pi (replicate k 42 ++ q) -> (k < fuel)%nat ->
  exists pi', skip_tail pat fuel pi (Z.of_nat k + zlen q) = Some (pi', zlen q).
Proof.
  intros Hq. induction k as [|k IH]; intros fuel pi Hat Hf;
    (destruct fuel as [|fuel]; [lia|]); cbn [skip_tail].
  - cbn [replicate app] in Hat.
    assert (exists c, head (q ++ [0]) = Some c /\ c <> 42) as (c & Hc & Hne).
    { destruct q as [|c q]; [by exists 0|]. exists c. split; [done|].
      simpl in Hq. congruence. }
    rewrite (at_hd_app _ _ _ _ Hat Hc). step. destruct (Z.eqb_spec c 42); [done|].
    exists pi. done.
  - rewrite (at_hd _ _ _ _ Hat). step. rewrite Z.eqb_refl.
    destruct (IH fuel (pi + 1)) as (pi' & Heq); [by apply at_tl in Hat|lia|].
    exists pi'. rewrite <- Heq. f_equal. lia.
Qed.

Lemma glob_empty nc k q : head q <> Some 42 ->
  glob nc (replicate k 42 ++ q) [] <-> q = [].
Proof.
  intros Hq. split.
  - induction k as [|k IH]; cbn [replicate app]; intros H.
    + inversion H; subst; [done|]. by destruct Hq.
    + apply IH. by inversion H.
  - intros ->. rewrite app_nil_r. clear Hq. induction k; simpl; by constructor.
Qed.

Lemma glob_star_star nc p s : glob nc (42 :: 42 :: p) s -> glob nc (42 :: p) s.
Proof.
  intros H. remember (42 :: 42 :: p) as p' eqn:Hp.
  induction H; simplify_eq; try done. by apply glob_star_more, IHglob.
Qed.

Lemma glob_stars nc k q s :
  glob nc (42 :: replicate k 42 ++ q) s <-> glob nc (42 :: q) s.
Proof.
  induction k as [|k IH]; [done|]. rewrite <- IH.
  split; [apply glob_star_star | apply glob_star_stop].
Qed.

(** ** The end of a turn *)

Lemma all_stars_nil p : exists k q, p = replicate k 42 ++ q /\ head q <> Some 42 /\
  forall nc, glob nc p [] <-> q = [].
Proof.
  destruct (stars_prefix p) as (k & q & -> & Hq). exists k, q.
  split; [done|]. split; [done|]. intros nc. by apply glob_empty.
Qed.

Lemma match_next_spec pat nc rec pi plen si p s :
  at_str pat (pi + 1) p -> plen = 1 + zlen p ->
  (s <> [] -> decides (rec (pi + 1) (zlen p) si (zlen s)) (glob nc p s)) ->
  decides (match_next pat rec pi plen si (zlen s)) (glob nc p s).
Proof.
  intros Hat -> Hrec. unfold match_next. cbv zeta.
  replace (1 + zlen p - 1) with (zlen p) by lia.
  destruct (Z.eqb_spec (zlen s) 0) as [E|E].
  - assert (s = []) as -> by (apply nil_length_inv; unfold zlen in E; lia).
    destruct (all_stars_nil p) as (k & q & -> & Hq & Hg).
    pose proof (at_length _ _ _ Hat) as Hlen. rewrite length_app, length_replicate in Hlen.
    destruct (skip_tail_spec pat q Hq k (S (length pat)) (pi + 1) Hat) as (pi' & Heq); [lia|].
    replace (zlen (replicate k 42 ++ q)) with (Z.of_nat k + zlen q)
      by (rewrite zlen_app; unfold zlen; rewrite length_replicate; lia).
    rewrite Heq. step. unfold decides. rewrite Hg.
    destruct q as [|c q]; [by left|]. right. split; [done|].
    rewrite zlen_cons. pose proof (zlen_nonneg q).
    destruct (Z.eqb_spec (1 + zlen q) 0); [lia|done].
  - apply Hrec. intros ->. done.
Qed.

(** ** Sets *)

Lemma parse_set_cons c p :
  parse_set (c :: p) =
  if c =? 92 then
    match p with
    | [] => None
    | d :: p => '(l, r) ← parse_set p; Some (IEsc d :: l, r)
    end
  else if c =? 93 then Some ([], p)
  else
    match p with
    | h :: d :: p' =>
        if h =? 45 then '(l, r) ← parse_set p'; Some (IRange c d :: l, r)
        else '(l, r) ← parse_set p; Some (IChar c :: l, r)
    | _ => '(l, r) ← parse_set p; Some (IChar c :: l, r)
    end.
Proof. by destruct p as [|h [|d p]]. Qed.

(** The comparison the loop makes is the one of the item. *)
Lemma in_range_eq nc a b c :
  (let start := s8 a in
   let end_ := s8 b in
   let ch := s8 c in
   let '(start, end_) := if end_ <? start then (end_, start) else (start, end_) in
   let '(start, end_, ch) :=
     if nc : bool then (tolower start, tolower end_, tolower ch)
     else (start, end_, ch) in
   (start <=? ch) && (ch <=? end_)) = in_range nc a b c.
Proof.
  unfold in_range. cbv zeta. destruct (Z.ltb_spec (s8 b) (s8 a)).
  - rewrite Z.min_r, Z.max_l by lia. by destruct nc.
  - rewrite Z.min_l, Z.max_r by lia. by destruct nc.
Qed.

Lemma set_loop_spec pat nc c : forall fuel p items rest pi m,
  (length p < fuel)%nat -> at_str pat pi p -> 0 < pi ->
  parse_set p = Some (items, rest) ->
  exists pi', set_loop pat nc c fuel pi (zlen p) m =
      Some (pi', 1 + zlen rest, m || existsb (item_matches nc c) items) /\
    at_str pat (pi' + 1) rest.
Proof.
  induction fuel as [|fuel IH]; intros p items rest pi m Hf Hat Hpi Hp; [lia|].
  destruct p as [|a p]; cbn [set_loop].
  { injection Hp as <- <-. rewrite (at_nil _ _ Hat). step. change (zlen []) with 0.
    exists (pi - 1). rewrite orb_false_r. split; [done|].
    by replace (pi - 1 + 1) with pi by lia. }
  rewrite (at_hd _ _ _ _ Hat). step. pose proof (at_tl _ _ _ _ Hat) as Ht.
  rewrite parse_set_cons in Hp. rewrite zlen_cons.
  simpl in Hf.
  destruct (Z.eqb_spec a 92) as [->|Hne]; [|destruct (Z.eqb_spec a 93) as [->|Hne']].
  - destruct p as [|d p]; [done|].
    destruct (parse_set p) as [[l r]|] eqn:Hl; [|done]. injection Hp as <- <-.
    rewrite (at_hd _ _ _ _ Ht). step. pose proof (at_tl _ _ _ _ Ht) as Ht'.
    destruct (IH p l r (pi + 1 + 1) (m || (d =? c))) as (pi' & Heq & Hat');
      [simpl in Hf; lia | done | lia | done |].
    exists pi'. split; [|done]. rewrite zlen_cons.
    replace (1 + (1 + zlen p) - 1 - 1) with (zlen p) by lia.
    rewrite Heq. simpl. by rewrite orb_assoc.
  - injection Hp as <- <-. exists pi. rewrite orb_false_r. done.
  - assert (1 + zlen p =? 0 = false) as -> by (pose proof (zlen_nonneg p); lia).
    assert (Hchar : forall l r, parse_set p = Some (l, r) ->
      exists pi', set_loop pat nc c fuel (pi + 1) (1 + zlen p - 1)
        (m || (if nc then tolower (s8 a) =? tolower (s8 c) else a =? c)) =
        Some (pi', 1 + zlen r, m || existsb (item_matches nc c) (IChar a :: l)) /\
      at_str pat (pi' + 1) r).
    { intros l r Hl. replace (1 + zlen p - 1) with (zlen p) by lia.
      destruct (IH p l r (pi + 1) (m || char_eq nc a c)) as (pi' & Heq & Hat');
        [lia | done | lia | done |].
      exists pi'. split; [|done]. unfold char_eq in Heq. rewrite Heq.
      simpl. by rewrite orb_assoc. }
    destruct p as [|h p].
    + rewrite (at_nil _ _ Ht). step. simpl Z.eqb. cbn [andb].
      injection Hp as <- <-. by apply Hchar.
    + rewrite (at_hd _ _ _ _ Ht). step. destruct p as [|d p].
      * replace (3 <=? 1 + zlen [h]) with false by done. rewrite andb_false_r.
        destruct (parse_set [h]) as [[l r]|] eqn:Hl; [|done].
        injection Hp as <- <-. by apply Hchar.
      * replace (3 <=? 1 + zlen (h :: d :: p)) with true
          by (rewrite !zlen_cons; pose proof (zlen_nonneg p); lia).
        rewrite andb_true_r. destruct (Z.eqb_spec h 45) as [->|].
        -- destruct (parse_set p) as [[l r]|] eqn:Hl; [|done]. injection Hp as <- <-.
           pose proof (at_tl _ _ _ _ Ht) as Ht2. replace (pi + 1 + 1) with (pi + 2) in Ht2 by lia.
           rewrite (at_hd _ _ _ _ Ht2). step. pose proof (at_tl _ _ _ _ Ht2) as Ht3.
           replace (pi + 2 + 1) with (pi + 3) in Ht3 by lia.
           destruct (IH p l r (pi + 3) (m || in_range nc a d c)) as (pi' & Heq & Hat');
             [simpl in Hf; lia | done | lia | done |].
           exists pi'. split; [|done]. rewrite !zlen_cons.
           replace (1 + (1 + (1 + zlen p)) - 3) with (zlen p) by lia.
           rewrite <- in_range_eq in Heq. cbn [existsb item_matches].
           rewrite orb_assoc, <- in_range_eq.
           cbv zeta in *. repeat case_match; exact Heq.
        -- destruct (parse_set (h :: d :: p)) as [[l r]|] eqn:Hl; [|done].
           injection Hp as <- <-. by apply Hchar.
Qed.

(** A pattern of non-zero bytes that does not end in a backslash. *)
Definition pattern_ok (p : list Z) : Prop :=
  Forall (fun c => 0 < c < 256) p /\ last p <> Some 92.

Global Instance pattern_ok_dec p : Decision (pattern_ok p).
Proof. unfold pattern_ok. apply _. Defined.

Lemma pattern_ok_suffix a p : pattern_ok (a ++ p) -> pattern_ok p.
Proof.
  intros [[_ Hf]%Forall_app Hl]. split; [done|].
  rewrite last_app in Hl. by destruct (last p).
Qed.

Lemma pattern_ok_tl c p : pattern_ok (c :: p) -> pattern_ok p.
Proof. apply (pattern_ok_suffix [c]). Qed.

(** Sets of such patterns are closed and leave a suffix. *)
Lemma parse_set_ok : forall n p, (length p <= n)%nat -> pattern_ok p ->
  exists items a rest, parse_set p = Some (items, rest) /\ p = a ++ rest.
Proof.
  induction n as [|n IH]; intros p Hn Hok; (destruct p as [|c p]; [by exists [], [], []|]);
    [simpl in Hn; lia|].
  rewrite parse_set_cons. simpl in Hn. pose proof (pattern_ok_tl _ _ Hok) as Hok'.
  assert (Hnext : forall f : list item -> list item, exists items a rest,
    ('(l, r) ← parse_set p; Some (f l, r)) = Some (items, rest) /\ c :: p = a ++ rest).
  { intros f. destruct (IH p) as (l & a & r & -> & Hp); [lia|done|].
    exists (f l), (c :: a), r. split; [done|]. by rewrite Hp. }
  destruct (Z.eqb_spec c 92) as [->|].
  { destruct p as [|d p]; [by destruct Hok as [_ []]|].
    destruct (IH p) as (l & a & r & -> & Hp);
      [simpl in Hn; lia | by eapply pattern_ok_tl |].
    exists (IEsc d :: l), (92 :: d :: a), r. split; [done|]. by rewrite Hp. }
  destruct (Z.eqb_spec c 93) as [->|]; [by exists [], [93], p|].
  destruct p as [|h [|d p]]; try apply (Hnext (cons (IChar c))).
  destruct (h =? 45); [|apply (Hnext (cons (IChar c)))].
  destruct (IH p) as (l & a & r & -> & Hp);
    [simpl in Hn; lia | by do 2 eapply pattern_ok_tl |].
  exists (IRange c d :: l), (c :: h :: d :: a), r. split; [done|]. by rewrite Hp.
Qed.

(** ** One star *)

Lemma glob_star_inv nc q c s :
  glob nc (42 :: q) (c :: s) <-> glob nc q (c :: s) \/ glob nc (42 :: q) s.
Proof.
  split; [|intros []; by constructor].
  intros H. inversion H; subst; auto; done.
Qed.

Lemma star_loop_spec str nc q rec : q <> [] -> head q <> Some 42 ->
  (forall si s, at_str str si s -> s <> [] -> decides (rec si (zlen s)) (glob nc q s)) ->
  forall s fuel si, at_str str si s -> (length s < fuel)%nat ->
  decides (star_loop rec fuel si (zlen s)) (glob nc (42 :: q) s).
Proof.
  intros Hne Hq Hrec. induction s as [|c s IH]; intros fuel si Hat Hf;
    (destruct fuel as [|fuel]; [lia|]); cbn [star_loop].
  - right. split; [|done]. intros H. by apply (glob_empty nc 1 q Hq) in H.
  - rewrite zlen_cons. destruct (Z.eqb_spec (1 + zlen s) 0);
      [pose proof (zlen_nonneg s); lia|].
    specialize (Hrec si (c :: s) Hat ltac:(done)). rewrite zlen_cons in Hrec.
    destruct Hrec as [(Hg & ->)|(Hg & ->)]; step; simpl Z.eqb; cbv iota.
    + left. split; [by apply glob_star_stop|done].
    + replace (1 + zlen s - 1) with (zlen s) by lia.
      eapply decides_iff; [|apply IH; [by eapply at_tl|simpl in Hf; lia]].
      rewrite glob_star_inv. tauto.
Qed.

(** ** One character *)

Lemma glob_any_inv nc p c s : glob nc (63 :: p) (c :: s) <-> glob nc p s.
Proof. split; [|by constructor]. intros H. by inversion H; subst. Qed.

Lemma glob_set_inv nc p c s items rest :
  parse_set (set_body p).2 = Some (items, rest) ->
  glob nc (91 :: p) (c :: s) <->
  existsb (item_matches nc c) items = negb (set_body p).1 /\ glob nc rest s.
Proof.
  intros Hp. split; [|intros []; by eapply glob_set].
  intros H. inversion H; subst; [by simplify_eq | done].
Qed.

Lemma glob_lit_inv nc d p c s :
  d <> 42 -> d <> 63 -> d <> 91 -> (d = 92 -> p = []) ->
  glob nc (d :: p) (c :: s) <-> char_eq nc d c = true /\ glob nc p s.
Proof.
  intros. split; [|intros []; by constructor].
  intros H'. inversion H'; subst; try done. naive_solver.
Qed.

Lemma glob_esc_inv nc d p c s :
  glob nc (92 :: d :: p) (c :: s) <-> char_eq nc d c = true /\ glob nc p s.
Proof.
  split; [|intros []; by apply glob_esc].
  intros H. inversion H; subst; [done|]. naive_solver.
Qed.

Lemma glob_nil_inv nc d p : d <> 42 -> ~ glob nc (d :: p) [].
Proof. intros Hd H. inversion H. done. Qed.

Lemma char_eq_0 nc d : 0 < d < 256 -> char_eq nc d 0 = false.
Proof.
  intros Hd. unfold char_eq. destruct nc; [|lia].
  change (s8 0) with 0. change (tolower 0) with 0.
  assert (s8 d <> 0).
  { unfold swrap. change (2 ^ (8 - 1)) with 128. change (2 ^ 8) with 256.
    intros E. assert ((d + 128) mod 256 = 128) as E' by lia.
    pose proof (Z.div_mod (d + 128) 256 ltac:(lia)). lia. }
  unfold tolower. destruct ((65 <=? s8 d) && (s8 d <=? 90)) eqn:E; lia.
Qed.

(** The optional caret after the bracket. *)
Lemma set_body_spec pat pi p :
  at_str pat pi p -> 0 < pi ->
  exists p0 pi', znth pat pi = Some p0 /\ (p0 =? 94) = (set_body p).1 /\
    (if p0 =? 94 then (pi + 1, zlen p - 1) else (pi, zlen p)) =
      (pi', zlen (set_body p).2) /\
    at_str pat pi' (set_body p).2 /\ 0 < pi' /\
    exists a, p = a ++ (set_body p).2.
Proof.
  intros Hat Hpi. destruct p as [|c p].
  { exists 0, pi. rewrite (at_nil _ _ Hat).
    do 5 (split; [done|]). by exists []. }
  exists c. rewrite (at_hd _ _ _ _ Hat). destruct (Z.eqb_spec c 94) as [->|Hne].
  - exists (pi + 1). rewrite zlen_cons. split; [done|]. split; [done|]. split.
    { cbn [set_body snd]. f_equal. lia. }
    split; [by eapply at_tl|]. split; [lia|]. by exists [94].
  - assert (set_body (c :: p) = (false, c :: p)) as ->.
    { unfold set_body. repeat (case_match; try done). }
    exists pi. do 5 (split; [done|]). by exists [].
Qed.

Section Correct.
Context (pat str : list Z) (nc : bool).

(** With this much fuel the matcher decides [glob] from any point it can reach. *)
Definition turn_ok (fuel : nat) : Prop := forall p s pi si,
  at_str pat pi p -> at_str str si s -> (length p < fuel)%nat ->
  pattern_ok p -> (s <> [] \/ 91 ∉ p) ->
  decides (match_loop pat str nc fuel pi (zlen p) si (zlen s)) (glob nc p s).

Section Turn.
Context (fuel : nat) (IH : turn_ok fuel).

(** The next turn, on the pattern [q] that is left. *)
Lemma next_turn q c s pi si :
  pattern_ok q -> at_str str si (c :: s) -> at_str pat (pi + 1) q ->
  (length q < fuel)%nat ->
  decides (match_next pat (match_loop pat str nc fuel) pi (1 + zlen q) (si + 1)
    (zlen (c :: s) - 1)) (glob nc q s).
Proof.
  intros Hok Hs Hq Hlen. rewrite zlen_cons.
  replace (1 + zlen s - 1) with (zlen s) by lia.
  apply match_next_spec; [done|done|]. intros Hne.
  apply IH; [done | by eapply at_tl | done | done | by left].
Qed.

Lemma star_turn p s pi si :
  at_str pat pi (42 :: p) -> at_str str si s -> (length p < fuel)%nat ->
  pattern_ok (42 :: p) ->
  decides ('(pi, plen) ← skip_stars pat (S (length pat)) pi (1 + zlen p);
    if plen =? 1 then Some 1
    else star_loop (fun si slen => match_loop pat str nc fuel (pi + 1) (plen - 1) si slen)
           (S (length str)) si (zlen s)) (glob nc (42 :: p) s).
Proof.
  intros Hp Hs Hf Hok. destruct (stars_prefix p) as (k & q & -> & Hq).
  pose proof (at_length _ _ _ Hp) as Hlp. simpl in Hlp.
  rewrite length_app, length_replicate in *.
  destruct (skip_stars_spec pat q Hq k (S (length pat)) pi Hp) as (pi' & Heq & Hat'); [lia|].
  replace (1 + zlen (replicate k 42 ++ q)) with (1 + Z.of_nat k + zlen q)
    by (rewrite zlen_app; unfold zlen; rewrite length_replicate; lia).
  rewrite Heq. step. pose proof (zlen_nonneg q).
  eapply decides_iff; [symmetry; apply glob_stars|].
  destruct (Z.eqb_spec (1 + zlen q) 1) as [E|E].
  - assert (q = []) as -> by (apply nil_length_inv; unfold zlen in E; lia).
    left. split; [|done]. clear.
    induction s; [apply glob_star_stop, glob_nil | by apply glob_star_more].
  - replace (1 + zlen q - 1) with (zlen q) by lia.
    pose proof (at_length _ _ _ Hs).
    apply (star_loop_spec str); [by intros ->|done| |done|lia].
    intros si' s' Hs' Hne. apply IH; [done|done|lia| |by left].
    by apply (pattern_ok_suffix (42 :: replicate k 42)).
Qed.

Lemma set_turn p c s pi si :
  at_str pat pi p -> 0 < pi -> at_str str si (c :: s) -> (length p < fuel)%nat ->
  pattern_ok p ->
  decides (p0 ← znth pat pi;
    let not := p0 =? 94 in
    let '(pi, plen) := if not then (pi + 1, zlen p - 1) else (pi, zlen p) in
    c ← znth str si;
    '(pi, plen, matched) ← set_loop pat nc c (S (length pat)) pi plen false;
    let matched := if not then negb matched else matched in
    if matched
    then match_next pat (match_loop pat str nc fuel) pi plen (si + 1) (zlen (c :: s) - 1)
    else Some 0) (glob nc (91 :: p) (c :: s)).
Proof.
  intros Hp Hpi Hs Hf Hok.
  destruct (set_body_spec pat pi p Hp Hpi)
    as (p0 & pi' & -> & Hneg & Hpair & Hat' & Hpi' & (a & Ha)). step.
  rewrite Hpair. rewrite (at_hd _ _ _ _ Hs). step.
  rewrite Ha in Hok. apply pattern_ok_suffix in Hok.
  destruct (parse_set_ok _ _ (le_n _) Hok) as (items & b & rest & Hps & Hrest).
  pose proof (at_length _ _ _ Hat') as Hl.
  destruct (set_loop_spec pat nc c (S (length pat)) (set_body p).2 items rest pi' false
    ltac:(lia) Hat' Hpi' Hps) as (pi2 & Hloop & Hat2).
  rewrite Hloop. step. cbn [orb]. rewrite Hneg.
  eapply decides_iff; [symmetry; by apply glob_set_inv|].
  set (m := existsb _ items).
  replace (if (set_body p).1 then negb m else m) with (Bool.eqb m (negb (set_body p).1))
    by (destruct (set_body p).1, m; done).
  destruct (Bool.eqb_spec m (negb (set_body p).1)) as [E|E].
  - eapply decides_iff; [|apply (next_turn rest c s pi2 si); [|done|done|]].
    + tauto.
    + rewrite Hrest in Hok. by eapply pattern_ok_suffix.
    + apply (f_equal length) in Ha. rewrite Hrest in Ha. rewrite !length_app in Ha. lia.
  - right. split; [tauto|done].
Qed.

(** A character [d], which stands for itself in the pattern [full]. *)
Lemma char_turn full d q s pi si :
  at_str pat pi (d :: q) -> at_str str si s -> 0 < d < 256 -> pattern_ok q ->
  (length q < fuel)%nat -> ~ glob nc full [] ->
  (forall c s', glob nc full (c :: s') <-> char_eq nc d c = true /\ glob nc q s') ->
  decides (p0 ← znth pat pi; c ← znth str si;
    let eq := if nc then tolower (s8 p0) =? tolower (s8 c) else p0 =? c in
    if eq then match_next pat (match_loop pat str nc fuel) pi (1 + zlen q) (si + 1)
                 (zlen s - 1) else Some 0) (glob nc full s).
Proof.
  intros Hat Hs Hd Hok Hlen Hnil Hinv. rewrite (at_hd _ _ _ _ Hat). step.
  destruct s as [|c s].
  - rewrite (at_nil _ _ Hs). step. cbv zeta. fold (char_eq nc d 0).
    rewrite char_eq_0 by done. by right.
  - rewrite (at_hd _ _ _ _ Hs). step. cbv zeta. fold (char_eq nc d c).
    eapply decides_iff; [symmetry; apply Hinv|]. destruct (char_eq nc d c).
    + eapply decides_iff; [|by apply (next_turn q c s pi si); [| |by eapply at_tl|]].
      tauto.
    + right. by split; [intros [? _]|].
Qed.

Lemma loop_turn : turn_ok (S fuel).
Proof.
  intros p s pi si Hp Hs Hf Hok Hset. cbn [match_loop]. destruct p as [|d p].
  { change (zlen []) with 0. simpl. destruct s as [|c s].
    - left. split; [constructor|done].
    - right. split; [by intros H; inversion H|]. rewrite zlen_cons.
      by destruct (Z.eqb_spec (1 + zlen s) 0); [pose proof (zlen_nonneg s); lia|]. }
  rewrite zlen_cons. pose proof (zlen_nonneg p) as Hzp.
  destruct (Z.eqb_spec (1 + zlen p) 0); [lia|]. rewrite (at_hd _ _ _ _ Hp). step.
  pose proof (at_tl _ _ _ _ Hp) as Hp1. pose proof (proj1 Hp) as Hpi. simpl in Hf.
  pose proof (pattern_ok_tl _ _ Hok) as Hok1.
  destruct (Z.eqb_spec d 42) as [->|Hd42]; [apply star_turn; [done..|lia|done]|].
  destruct (Z.eqb_spec d 63) as [->|Hd63].
  { destruct s as [|c s]; [right; split; [by apply glob_nil_inv|done]|].
    destruct (Z.eqb_spec (zlen (c :: s)) 0);
      [rewrite zlen_cons in *; pose proof (zlen_nonneg s); lia|].
    eapply decides_iff; [symmetry; apply glob_any_inv|]. apply next_turn; [done..|lia]. }
  destruct (Z.eqb_spec d 91) as [->|Hd91].
  { destruct s as [|c s]; [destruct Hset as [|Hni]; [done|];
      exfalso; apply Hni; rewrite elem_of_cons; by left|].
    replace (1 + zlen p - 1) with (zlen p) by lia. apply set_turn; try done; lia. }
  pose proof Hok as [[Hd Hnz]%Forall_cons Hlast].
  destruct (Z.eqb_spec d 92) as [->|Hd92]; cbn [andb].
  - destruct p as [|d' p]; [by destruct Hlast|].
    apply Forall_cons in Hnz as [Hd' _]. rewrite zlen_cons in *.
    destruct (Z.leb_spec 2 (1 + (1 + zlen p))); [|pose proof (zlen_nonneg p); lia].
    replace (1 + (1 + zlen p) - 1) with (1 + zlen p) by lia.
    apply char_turn with (d := d'); [done..| | | |].
    + by eapply pattern_ok_tl.
    + simpl in Hf. lia.
    + by apply glob_nil_inv.
    + intros. apply glob_esc_inv.
  - apply char_turn with (d := d); [done..|lia| |].
    + by apply glob_nil_inv.
    + intros. by apply glob_lit_inv.
Qed.
End Turn.

Lemma match_loop_spec fuel : turn_ok fuel.
Proof. induction fuel as [|fuel IH]; [intros ?????? H; lia | by apply loop_turn]. Qed.
End Correct.



