(* ===== verification/Adlist.v ===== *)
(** [src/redis-3.0.0/src/adlist.c]: doubly linked lists, on a heap of nodes.

    A pointer is an integer with 0 for NULL; the heap maps the addresses of the
    live nodes to their contents, so that a read of a released node is
    undefined.  The [list] structure is passed by value: its updated fields are
    part of each result.  The values are pointers; the calls of the [free]
    method are recorded in order. *)
From stdpp Require Import gmap.
From S2P Require Import Prelude.

Record listNode := mkNode { n_prev : Z; n_next : Z; n_value : Z }.

(** [l_free] says whether a [free] method is set. *)
Record alist := mkList {
  l_head : Z; l_tail : Z; l_len : Z;
  l_dup : option (Z -> option Z);
  l_free : bool;
  l_match : option (Z -> Z -> bool) }.

Record listIter := mkIter { it_next : Z; it_direction : Z }.

Record heap := mkHeap { nodes : gmap Z listNode; freed : list Z }.

Definition AL_START_HEAD : Z := 0.
Definition AL_START_TAIL : Z := 1.

(** ** Access to nodes *)

Definition deref (h : heap) (p : Z) : option listNode :=
  if p =? 0 then None else nodes h !! p.

Definition store (h : heap) (p : Z) (n : listNode) : heap :=
  mkHeap (<[p := n]> (nodes h)) (freed h).

Definition set_next (h : heap) (p v : Z) : option heap :=
  n ← deref h p; Some (store h p (mkNode (n_prev n) v (n_value n))).

Definition set_prev (h : heap) (p v : Z) : option heap :=
  n ← deref h p; Some (store h p (mkNode v (n_next n) (n_value n))).

Definition zfree (h : heap) (p : Z) : option heap :=
  _ ← deref h p; Some (mkHeap (base.delete p (nodes h)) (freed h)).

(** A call of the list's [free] method on a value, when it is set. *)
Definition call_free (ls : alist) (h : heap) (v : Z) : heap :=
  if l_free ls then mkHeap (nodes h) (freed h ++ [v]) else h.

Definition set_ends (ls : alist) (hd tl len : Z) : alist :=
  mkList hd tl len (l_dup ls) (l_free ls) (l_match ls).

(** ** Operations *)

Definition listCreate : alist := mkList 0 0 0 None false None.

Fixpoint listRelease_loop (ls : alist) (len : nat) (h : heap) (current : Z)
  : option heap :=
  match len with
  | O => Some h
  | S len =>
      n ← deref h current;
      h ← zfree (call_free ls h (n_value n)) current;
      listRelease_loop ls len h (n_next n)
  end.

Definition listRelease (h : heap) (ls : alist) : option heap :=
  listRelease_loop ls (Z.to_nat (l_len ls)) h (l_head ls).

Section Alloc.
(** The allocator; [None] is a failed allocation. *)
Context (zmalloc : gmap Z listNode -> option Z).

(** The insertions return no list when the allocation fails. *)
Definition listAddNodeHead (h : heap) (ls : alist) (v : Z)
  : option (option alist * heap) :=
  match zmalloc (nodes h) with
  | None => Some (None, h)
  | Some node =>
      if l_len ls =? 0 then
        let h := store h node (mkNode 0 0 v) in
        Some (Some (set_ends ls node node (u64 (l_len ls + 1))), h)
      else
        let h := store h node (mkNode 0 (l_head ls) v) in
        h ← set_prev h (l_head ls) node;
        Some (Some (set_ends ls node (l_tail ls) (u64 (l_len ls + 1))), h)
  end.

Definition listAddNodeTail (h : heap) (ls : alist) (v : Z)
  : option (option alist * heap) :=
  match zmalloc (nodes h) with
  | None => Some (None, h)
  | Some node =>
      if l_len ls =? 0 then
        let h := store h node (mkNode 0 0 v) in
        Some (Some (set_ends ls node node (u64 (l_len ls + 1))), h)
      else
        let h := store h node (mkNode (l_tail ls) 0 v) in
        h ← set_next h (l_tail ls) node;
        Some (Some (set_ends ls (l_head ls) node (u64 (l_len ls + 1))), h)
  end.

Definition listInsertNode (h : heap) (ls : alist) (old v : Z) (after : bool)
  : option (option alist * heap) :=
  match zmalloc (nodes h) with
  | None => Some (None, h)
  | Some node =>
      o ← deref h old;
      let '(nprev, nnext, hd, tl) :=
        if after then
          (old, n_next o, l_head ls, if l_tail ls =? old then node else l_tail ls)
        else
          (n_prev o, old, if l_head ls =? old then node else l_head ls, l_tail ls) in
      let h := store h node (mkNode nprev nnext v) in
      h ← (if negb (nprev =? 0) then set_next h nprev node else Some h);
      h ← (if negb (nnext =? 0) then set_prev h nnext node else Some h);
      Some (Some (set_ends ls hd tl (u64 (l_len ls + 1))), h)
  end.

Definition listDelNode (h : heap) (ls : alist) (node : Z) : option (alist * heap) :=
  n ← deref h node;
  '(hd, h) ← (if negb (n_prev n =? 0)
              then h ← set_next h (n_prev n) (n_next n); Some (l_head ls, h)
              else Some (n_next n, h));
  '(tl, h) ← (if negb (n_next n =? 0)
              then h ← set_prev h (n_next n) (n_prev n); Some (l_tail ls, h)
              else Some (n_prev n, h));
  let h := call_free ls h (n_value n) in
  h ← zfree h node;
  Some (set_ends ls hd tl (u64 (l_len ls - 1)), h).

Definition listGetIterator (ls : alist) (direction : Z) : listIter :=
  mkIter (if direction =? AL_START_HEAD then l_head ls else l_tail ls) direction.

Definition listRewind (ls : alist) : listIter := mkIter (l_head ls) AL_START_HEAD.
Definition listRewindTail (ls : alist) : listIter := mkIter (l_tail ls) AL_START_TAIL.

Definition listNext (h : heap) (it : listIter) : option (Z * listIter) :=
  let current := it_next it in
  if negb (current =? 0) then
    n ← deref h current;
    Some (current,
      mkIter (if it_direction it =? AL_START_HEAD then n_next n else n_prev n)
        (it_direction it))
  else Some (current, it).

(** The loop of [listDup]; the result is [None] when it gave up. *)
Fixpoint listDup_loop (fuel : nat) (h : heap) (copy : alist) (it : listIter)
  : option (option alist * heap) :=
  match fuel with
  | O => None
  | S fuel =>
      '(node, it) ← listNext h it;
      if node =? 0 then Some (Some copy, h)
      else
        n ← deref h node;
        let value :=
          match l_dup copy with Some dup => dup (n_value n) | None => Some (n_value n) end in
        match value with
        | None => h ← listRelease h copy; Some (None, h)
        | Some v =>
            '(r, h) ← listAddNodeTail h copy v;
            match r with
            | None => h ← listRelease h copy; Some (None, h)
            | Some copy => listDup_loop fuel h copy it
            end
        end
  end.

Definition listDup (h : heap) (orig : alist) : option (option alist * heap) :=
  let copy := mkList 0 0 0 (l_dup orig) (l_free orig) (l_match orig) in
  listDup_loop (S (Z.to_nat (l_len orig))) h copy (listGetIterator orig AL_START_HEAD).

Fixpoint listSearchKey_loop (fuel : nat) (h : heap) (ls : alist) (key : Z)
    (it : listIter) : option Z :=
  match fuel with
  | O => None
  | S fuel =>
      '(node, it) ← listNext h it;
      if node =? 0 then Some 0
      else
        n ← deref h node;
        let found :=
          match l_match ls with
          | Some match_ => match_ (n_value n) key
          | None => key =? n_value n
          end in
        if (found : bool) then Some node else listSearchKey_loop fuel h ls key it
  end.

Definition listSearchKey (h : heap) (ls : alist) (key : Z) : option Z :=
  listSearchKey_loop (S (Z.to_nat (l_len ls))) h ls key
    (listGetIterator ls AL_START_HEAD).

(** [while(index-- && n) n = n->prev] (or [n->next]). *)
Fixpoint listIndex_loop (fuel : nat) (h : heap) (fwd : bool) (index n : Z)
  : option Z :=
  match fuel with
  | O => None
  | S fuel =>
      if negb (index =? 0) && negb (n =? 0) then
        nd ← deref h n;
        listIndex_loop fuel h fwd (index - 1) (if fwd then n_next nd else n_prev nd)
      else Some n
  end.

(** [-index] overflows on the smallest [long]. *)
Definition listIndex (h : heap) (ls : alist) (index : Z) : option Z :=
  let fuel := S (Z.to_nat (l_len ls)) in
  if index <? 0 then
    if index =? - 2 ^ 63 then None
    else listIndex_loop fuel h false (- index - 1) (l_tail ls)
  else listIndex_loop fuel h true index (l_head ls).

Definition listRotate (h : heap) (ls : alist) : option (alist * heap) :=
  if l_len ls <=? 1 then Some (ls, h)
  else
    let tail := l_tail ls in
    t ← deref h tail;
    let tl := n_prev t in
    h ← set_next h tl 0;
    h ← set_prev h (l_head ls) tail;
    h ← set_prev h tail 0;
    h ← set_next h tail (l_head ls);
    Some (set_ends ls tail tl (l_len ls), h).
End Alloc.

(** ** Representation *)

(** The nodes of a list, as pairs of an address and a value. *)
Abbreviation cells := (list (Z * Z)).

Definition first (l : cells) (d : Z) : Z :=
  match l with [] => d | (p, _) :: _ => p end.

Fixpoint final (l : cells) (d : Z) : Z :=
  match l with [] => d | (p, _) :: l => final l p end.

(** [l] is laid out in [m], after the node [prev] and before [next]. *)
Fixpoint seg (m : gmap Z listNode) (prev : Z) (l : cells) (next : Z) : Prop :=
  match l with
  | [] => True
  | (p, v) :: l => m !! p = Some (mkNode prev (first l next) v) /\ seg m p l next
  end.

Definition valid_ptr (p : Z) : Prop := 0 < p < 2 ^ 64.

Record is_list (m : gmap Z listNode) (ls : alist) (l : cells) : Prop := {
  il_seg : seg m 0 l 0;
  il_nodup : NoDup l.*1;
  il_ptr : Forall valid_ptr l.*1;
  il_head : l_head ls = first l 0;
  il_tail : l_tail ls = final l 0;
  il_len : l_len ls = zlen l }.

(** Two heaps agree outside [X]. *)
Definition same_outside (X : list Z) (m m' : gmap Z listNode) : Prop :=
  forall p, p ∉ X -> m' !! p = m !! p.

Definition same_methods (ls ls' : alist) : Prop :=
  l_dup ls' = l_dup ls /\ l_free ls' = l_free ls /\ l_match ls' = l_match ls.

Lemma final_app a b d : final (a ++ b) d = final b (final a d).
Proof. revert d. induction a as [|[p v] a IH]; intros; simpl; auto. Qed.

Lemma final_snoc a p v d : final (a ++ [(p, v)]) d = p.
Proof. by rewrite final_app. Qed.

Lemma first_app a b d : first (a ++ b) d = first a (first b d).
Proof. by destruct a as [|[] ?]. Qed.

Lemma seg_app m prev a b next :
  seg m prev (a ++ b) next <->
  seg m prev a (first b next) /\ seg m (final a prev) b next.
Proof.
  revert prev. induction a as [|[p v] a IH]; intros prev; simpl; [tauto|].
  rewrite IH, first_app. tauto.
Qed.

Lemma seg_frame m m' X prev l next :
  same_outside X m m' -> (forall p, p ∈ l.*1 -> p ∉ X) ->
  seg m prev l next -> seg m' prev l next.
Proof.
  intros Hm. revert prev. induction l as [|[p v] l IH]; intros prev Hd; simpl; [done|].
  intros [H1 H2]. rewrite Hm by (apply Hd; left). split; [done|].
  apply IH; [|done]. intros q Hq. apply Hd. by right.
Qed.

Lemma same_outside_refl X m : same_outside X m m.
Proof. done. Qed.

Lemma same_outside_trans X m1 m2 m3 :
  same_outside X m1 m2 -> same_outside X m2 m3 -> same_outside X m1 m3.
Proof. intros H1 H2 p Hp. rewrite H2 by done. auto. Qed.

Lemma same_outside_mono X Y m m' :
  X ⊆ Y -> same_outside X m m' -> same_outside Y m m'.
Proof. intros HX H p Hp. apply H. auto. Qed.

Lemma same_outside_insert m p n : same_outside [p] m (<[p := n]> m).
Proof. intros q Hq. apply lookup_insert_ne. intros ->. apply Hq. left. Qed.

Lemma same_outside_delete m p : same_outside [p] m (base.delete p m).
Proof. intros q Hq. apply lookup_delete_ne. intros ->. apply Hq. left. Qed.

#[export] Hint Resolve same_outside_refl same_outside_insert same_outside_delete : core.

Lemma first_ptr l d : Forall valid_ptr l.*1 -> l <> [] -> 0 < first l d.
Proof.
  destruct l as [|[p v] l]; [done|]. simpl. intros [[? ?] ?]%Forall_cons _. done.
Qed.

Lemma final_ptr l d : Forall valid_ptr l.*1 -> l <> [] -> 0 < final l d.
Proof.
  destruct l as [|[p v] l _] using rev_ind; [done|].
  rewrite fmap_app, Forall_app, final_snoc. simpl. intros [_ [[? ?] ?]%Forall_cons] _. done.
Qed.

(** Distinct addresses of 64 bits are fewer than 2^64. *)
Lemma ptr_count (l : list Z) : NoDup l -> Forall valid_ptr l -> zlen l < 2 ^ 64.
Proof.
  intros Hn Hv. unfold zlen.
  assert (length l <= length (seqZ 1 (2 ^ 64 - 1)))%nat as H.
  { apply submseteq_length, NoDup_submseteq; [done|].
    intros p Hp. rewrite Forall_forall in Hv. specialize (Hv p Hp).
    unfold valid_ptr in Hv. apply elem_of_seqZ. lia. }
  rewrite length_seqZ in H. pow2. lia.
Qed.

Lemma is_list_len m ls l : is_list m ls l -> 0 <= zlen l < 2 ^ 64.
Proof.
  intros H. split; [apply zlen_nonneg|].
  rewrite <- (zlen_fmap fst l). apply ptr_count; apply H.
Qed.

Lemma deref_valid h p n : valid_ptr p -> nodes h !! p = Some n -> deref h p = Some n.
Proof.
  unfold valid_ptr, deref. intros. destruct (Z.eqb_spec p 0); [lia|done].
Qed.

(** Changing what follows, or precedes, a piece of list. *)
Definition relinked (h h' : heap) (X : list Z) : Prop :=
  same_outside X (nodes h) (nodes h') /\ freed h' = freed h.

Lemma relink_next h prev l n n' :
  seg (nodes h) prev l n -> NoDup l.*1 -> Forall valid_ptr l.*1 -> l <> [] ->
  exists h', set_next h (final l 0) n' = Some h' /\
    seg (nodes h') prev l n' /\ relinked h h' l.*1.
Proof.
  intros Hs Hn Hv Hl. destruct l as [|[p v] l _] using rev_ind; [done|].
  rewrite final_snoc. rewrite fmap_app in *. simpl in *.
  apply seg_app in Hs as [Ha [Hp _]]. simpl in *.
  apply Forall_app in Hv as [_ Hv%Forall_inv].
  unfold set_next. rewrite (deref_valid _ _ _ Hv Hp). step.
  eexists. split; [reflexivity|]. split; [|split; [|done]].
  - apply seg_app. split; [|split; [|done]]; simpl.
    + eapply (seg_frame _ _ [p]); [apply same_outside_insert | | done].
      intros q Hq ->%list_elem_of_singleton.
      apply NoDup_app in Hn as (_ & Hn & _). apply (Hn p); [done | left].
    + by rewrite lookup_insert_eq.
  - eapply same_outside_mono; [|apply same_outside_insert].
    intros q. rewrite elem_of_app. auto.
Qed.

Lemma relink_prev h prev prev' l n :
  seg (nodes h) prev l n -> NoDup l.*1 -> Forall valid_ptr l.*1 -> l <> [] ->
  exists h', set_prev h (first l 0) prev' = Some h' /\
    seg (nodes h') prev' l n /\ relinked h h' l.*1.
Proof.
  intros Hs Hn Hv Hl. destruct l as [|[p v] l]; [done|].
  simpl in *. destruct Hs as [Hp Hs]. apply Forall_inv in Hv.
  unfold set_prev. rewrite (deref_valid _ _ _ Hv Hp). step.
  eexists. split; [reflexivity|]. split; [|split; [|done]].
  - split; simpl; [by rewrite lookup_insert_eq|].
    eapply (seg_frame _ _ [p]); [apply same_outside_insert | | done].
    intros q Hq ->%list_elem_of_singleton. apply NoDup_cons in Hn as [Hn _]. auto.
  - eapply same_outside_mono; [|apply same_outside_insert].
    intros q ->%list_elem_of_singleton. left.
Qed.

(** The same behind the test for NULL, for pieces that may be empty. *)
Lemma relink_next_opt h l n n' :
  seg (nodes h) 0 l n -> NoDup l.*1 -> Forall valid_ptr l.*1 ->
  exists h', (if negb (final l 0 =? 0) then set_next h (final l 0) n' else Some h) = Some h' /\
    seg (nodes h') 0 l n' /\ relinked h h' l.*1.
Proof.
  intros Hs Hn Hv. destruct (decide (l = [])) as [->|Hl].
  - exists h. repeat split; done.
  - pose proof (final_ptr l 0 Hv Hl). destruct (Z.eqb_spec (final l 0) 0); [lia|].
    by apply relink_next with n.
Qed.

Lemma relink_prev_opt h prev prev' l :
  seg (nodes h) prev l 0 -> NoDup l.*1 -> Forall valid_ptr l.*1 ->
  exists h', (if negb (first l 0 =? 0) then set_prev h (first l 0) prev' else Some h) = Some h' /\
    seg (nodes h') prev' l 0 /\ relinked h h' l.*1.
Proof.
  intros Hs Hn Hv. destruct (decide (l = [])) as [->|Hl].
  - exists h. repeat split; done.
  - pose proof (first_ptr l 0 Hv Hl). destruct (Z.eqb_spec (first l 0) 0); [lia|].
    by apply relink_prev with prev.
Qed.

Lemma fresh_cells m prev l n p :
  seg m prev l n -> m !! p = None -> p ∉ l.*1.
Proof.
  revert prev. induction l as [|[q v] l IH]; intros prev; simpl; [set_solver|].
  intros [H1 H2] Hp. apply not_elem_of_cons. split; [congruence|eauto].
Qed.

(** A fresh node linked between two pieces. *)
Lemma link_new h a b node v :
  seg (nodes h) 0 (a ++ b) 0 -> NoDup (a ++ b).*1 -> Forall valid_ptr (a ++ b).*1 ->
  valid_ptr node -> nodes h !! node = None ->
  exists h1 h2,
    (if negb (final a 0 =? 0) then set_next (store h node (mkNode (final a 0) (first b 0) v)) (final a 0) node
     else Some (store h node (mkNode (final a 0) (first b 0) v))) = Some h1 /\
    (if negb (first b 0 =? 0) then set_prev h1 (first b 0) node else Some h1) = Some h2 /\
    seg (nodes h2) 0 (a ++ (node, v) :: b) 0 /\
    same_outside (node :: (a ++ b).*1) (nodes h) (nodes h2) /\ freed h2 = freed h.
Proof.
  intros Hs Hn Hv Hnv Hf. pose proof (fresh_cells _ _ _ _ _ Hs Hf) as Hnode.
  rewrite fmap_app in *. apply seg_app in Hs as [Ha Hb].
  apply NoDup_app in Hn as (Hna & Hab & Hnb). apply Forall_app in Hv as [Hva Hvb].
  rewrite not_elem_of_app in Hnode. destruct Hnode as [Hnoa Hnob].
  set (h0 := store h node _).
  assert (forall q, q ∈ a.*1 -> q ∉ [node]) as Hda by set_solver.
  assert (forall q, q ∈ b.*1 -> q ∉ [node]) as Hdb by set_solver.
  assert (same_outside [node] (nodes h) (nodes h0)) as H0 by apply same_outside_insert.
  destruct (relink_next_opt h0 a (first b 0) node) as (h1 & E1 & S1 & R1 & F1);
    [by eapply seg_frame | done | done |].
  destruct (relink_prev_opt h1 (final a 0) node b) as (h2 & E2 & S2 & R2 & F2); [| done | done |].
  { eapply seg_frame; [exact R1 | | by eapply seg_frame]. set_solver. }
  exists h1, h2. split; [done|]. split; [done|]. split; [|split].
  - apply seg_app. simpl. split; [|split; [|done]].
    + eapply seg_frame; [exact R2 | | done]. set_solver.
    + rewrite R2, R1 by done. unfold h0. simpl. by rewrite lookup_insert_eq.
  - intros q Hq. rewrite R2, R1, H0; set_solver.
  - by rewrite F2, F1.
Qed.

(** A node unlinked and released. *)
Lemma unlink h a b p v :
  seg (nodes h) 0 (a ++ (p, v) :: b) 0 -> NoDup (a ++ (p, v) :: b).*1 ->
  Forall valid_ptr (a ++ (p, v) :: b).*1 ->
  exists h1 h2,
    deref h p = Some (mkNode (final a 0) (first b 0) v) /\
    (if negb (final a 0 =? 0) then set_next h (final a 0) (first b 0) else Some h) = Some h1 /\
    (if negb (first b 0 =? 0) then set_prev h1 (first b 0) (final a 0) else Some h1) = Some h2 /\
    nodes h2 !! p = Some (mkNode (final a 0) (first b 0) v) /\
    seg (nodes h2) 0 (a ++ b) 0 /\
    same_outside (a ++ b).*1 (nodes h) (nodes h2) /\ freed h2 = freed h.
Proof.
  intros Hs Hn Hv. rewrite !fmap_app in *. simpl in *.
  apply seg_app in Hs as (Ha & Hp & Hb). simpl in *.
  apply NoDup_app in Hn as (Hna & Hab & [Hpb Hnb]%NoDup_cons).
  apply Forall_app in Hv as [Hva [Hvp Hvb]%Forall_cons].
  destruct (relink_next_opt h a p (first b 0)) as (h1 & E1 & S1 & R1 & F1); [done..|].
  destruct (relink_prev_opt h1 p (final a 0) b) as (h2 & E2 & S2 & R2 & F2); [| done | done |].
  { eapply seg_frame; [exact R1 | | done]. set_solver. }
  exists h1, h2. split; [by apply deref_valid|]. split; [done|]. split; [done|].
  split; [|split; [|split]].
  - rewrite R2, R1; [done | | done]. intros H. apply (Hab p); [done|left].
  - apply seg_app. split; [|done].
    eapply seg_frame; [exact R2 | | done]. set_solver.
  - intros q Hq. rewrite R2, R1; set_solver.
  - by rewrite F2, F1.
Qed.

(** ** The operations on represented lists *)

Lemma set_ends_methods ls hd tl n : same_methods ls (set_ends ls hd tl n).
Proof. done. Qed.

Lemma is_list_intro m ls l :
  seg m 0 l 0 -> NoDup l.*1 -> Forall valid_ptr l.*1 ->
  is_list m (set_ends ls (first l 0) (final l 0) (zlen l)) l.
Proof. by constructor. Qed.

Lemma is_list_eq m ls l hd tl n :
  seg m 0 l 0 -> NoDup l.*1 -> Forall valid_ptr l.*1 ->
  hd = first l 0 -> tl = final l 0 -> n = zlen l -> is_list m (set_ends ls hd tl n) l.
Proof. intros ??? -> -> ->. by apply is_list_intro. Qed.

Lemma ends_first l : Forall valid_ptr l.*1 -> first l 0 = 0 -> l = [].
Proof.
  intros Hv H0. destruct (decide (l = [])) as [|Hl]; [done|].
  pose proof (first_ptr l 0 Hv Hl). lia.
Qed.

Section Spec.
Context (zmalloc : gmap Z listNode -> option Z).

(** What the code relies on: an allocation is a non-NULL 64-bit address where
    no live node is. *)
Definition fresh_alloc : Prop :=
  forall m p, zmalloc m = Some p -> valid_ptr p /\ m !! p = None.

Context (Hz : fresh_alloc).

(** Insertion between two pieces: either the allocation failed and nothing
    changed, or the new node is there. *)
Definition inserted (h : heap) (ls : alist) (a b : cells) (v : Z)
    (r : option (option alist * heap)) : Prop :=
  match zmalloc (nodes h) with
  | None => r = Some (None, h)
  | Some node => exists ls' h',
      r = Some (Some ls', h') /\ is_list (nodes h') ls' (a ++ (node, v) :: b) /\
      same_methods ls ls' /\
      same_outside (node :: (a ++ b).*1) (nodes h) (nodes h') /\ freed h' = freed h
  end.

Lemma new_cells h a b node v :
  is_list (nodes h) (mkList (first (a ++ b) 0) (final (a ++ b) 0) (zlen (a ++ b)) None false None) (a ++ b) ->
  zmalloc (nodes h) = Some node ->
  NoDup (a ++ (node, v) :: b).*1 /\ Forall valid_ptr (a ++ (node, v) :: b).*1 /\
  wrap 64 (zlen (a ++ b) + 1) = zlen (a ++ (node, v) :: b).
Proof.
  intros [Hs Hn Hv _ _ _] E. apply Hz in E as [Hnv Hf].
  pose proof (fresh_cells _ _ _ _ _ Hs Hf) as Hno.
  assert (NoDup (a ++ (node, v) :: b).*1) as Hn'.
  { rewrite fmap_app in *. simpl. rewrite <- Permutation_middle. by apply NoDup_cons. }
  assert (Forall valid_ptr (a ++ (node, v) :: b).*1) as Hv'.
  { rewrite fmap_app in *. simpl. rewrite <- Permutation_middle. by apply Forall_cons. }
  split; [done|]. split; [done|].
  pose proof (ptr_count _ Hn' Hv') as Hc. rewrite zlen_fmap in Hc.
  rewrite zlen_app, zlen_cons in Hc. rewrite !zlen_app, zlen_cons.
  pose proof (zlen_nonneg a). pose proof (zlen_nonneg b).
  rewrite wrap_small; [lia|]. split; [lia|]. pow2. lia.
Qed.

Lemma is_list_plain m ls l :
  is_list m ls l -> is_list m (mkList (first l 0) (final l 0) (zlen l) None false None) l.
Proof. intros []. by constructor. Qed.

Lemma first_mid (a b : cells) p v : a = [] -> first (a ++ (p, v) :: b) 0 = p.
Proof. by intros ->. Qed.

Lemma nodup_mid (a b : cells) p v :
  NoDup (a ++ (p, v) :: b).*1 -> p ∉ a.*1 /\ p ∉ b.*1.
Proof.
  rewrite fmap_app. simpl. intros (H1 & H2 & [H3 H4]%NoDup_cons)%NoDup_app.
  split; [|done]. intros H. apply (H2 p); [done|left].
Qed.

Lemma final_notin (l : cells) p : Forall valid_ptr l.*1 -> valid_ptr p ->
  p ∉ l.*1 -> final l 0 <> p.
Proof.
  unfold valid_ptr. destruct l as [|[q v] l _] using rev_ind; intros Hv Hp Hin; simpl; [lia|].
  rewrite final_snoc. intros ->. apply Hin. rewrite fmap_app, elem_of_app. right. left.
Qed.

Lemma first_notin (l : cells) p : Forall valid_ptr l.*1 -> valid_ptr p ->
  p ∉ l.*1 -> first l 0 <> p.
Proof.
  unfold valid_ptr. destruct l as [|[q v] l]; intros Hv Hp Hin; simpl; [lia|].
  intros ->. apply Hin. left.
Qed.

Lemma link_list h ls a b v node :
  is_list (nodes h) ls (a ++ b) -> zmalloc (nodes h) = Some node ->
  let h0 := store h node (mkNode (final a 0) (first b 0) v) in
  exists h1 h2,
    (if negb (final a 0 =? 0) then set_next h0 (final a 0) node else Some h0) = Some h1 /\
    (if negb (first b 0 =? 0) then set_prev h1 (first b 0) node else Some h1) = Some h2 /\
    (forall hd tl, hd = first (a ++ (node, v) :: b) 0 -> tl = final (a ++ (node, v) :: b) 0 ->
      is_list (nodes h2) (set_ends ls hd tl (u64 (l_len ls + 1))) (a ++ (node, v) :: b)) /\
    same_outside (node :: (a ++ b).*1) (nodes h) (nodes h2) /\ freed h2 = freed h.
Proof.
  intros Hl E. destruct (Hz _ _ E) as [Hnv Hf].
  destruct (new_cells h a b node v (is_list_plain _ _ _ Hl) E) as (Hn' & Hv' & Hw).
  destruct (link_new h a b node v) as (h1 & h2 & E1 & E2 & S & R & F); try apply Hl; try done.
  exists h1, h2. split; [done|]. split; [done|]. split; [|done].
  intros hd tl -> ->. rewrite (il_len _ _ _ Hl), Hw. by apply is_list_intro.
Qed.

Lemma listAddNodeHead_spec h ls l v :
  is_list (nodes h) ls l ->
  inserted h ls [] l v (listAddNodeHead zmalloc h ls v).
Proof.
  intros Hl. unfold inserted, listAddNodeHead. destruct (zmalloc (nodes h)) as [node|] eqn:E; [|done].
  destruct (link_list h ls [] l v node Hl E) as (h1 & h2 & E1 & E2 & I & R & F).
  simpl in E1. injection E1 as <-. rewrite (il_len _ _ _ Hl) in *.
  destruct l as [|[p w] l].
  - simpl in *. injection E2 as <-. change (zlen [] =? 0) with true.
    eexists _, _. split; [reflexivity|]. split; [by apply I|]. done.
  - pose proof (zlen_nonneg l). rewrite zlen_cons in *.
    destruct (Z.eqb_spec (1 + zlen l) 0); [lia|].
    pose proof (il_ptr _ _ _ Hl) as [[? ?] _]%Forall_cons. simpl in *.
    rewrite (il_head _ _ _ Hl). simpl.
    destruct (Z.eqb_spec p 0); [lia|]. simpl in E2. rewrite E2. step.
    eexists _, _. split; [reflexivity|]. split; [apply I; [done|]|done].
    by rewrite (il_tail _ _ _ Hl).
Qed.

Lemma listAddNodeTail_spec h ls l v :
  is_list (nodes h) ls l ->
  inserted h ls l [] v (listAddNodeTail zmalloc h ls v).
Proof.
  intros Hl. unfold inserted, listAddNodeTail. destruct (zmalloc (nodes h)) as [node|] eqn:E; [|done].
  rewrite <- (app_nil_r l) in Hl.
  destruct (link_list h ls l [] v node Hl E) as (h1 & h2 & E1 & E2 & I & R & F).
  simpl in E2. injection E2 as <-. rewrite app_nil_r in Hl.
  rewrite (il_len _ _ _ Hl) in *.
  destruct l as [|[p w] l _] using rev_ind.
  - simpl in *. injection E1 as <-. change (zlen [] =? 0) with true.
    eexists _, _. split; [reflexivity|]. split; [by apply I|]. done.
  - pose proof (zlen_nonneg l). rewrite zlen_app_one in *.
    destruct (Z.eqb_spec (zlen l + 1) 0); [lia|].
    pose proof (il_ptr _ _ _ Hl) as Hv. rewrite fmap_app, Forall_app in Hv.
    destruct Hv as [_ [[? ?] _]%Forall_cons]. simpl in *.
    rewrite (il_tail _ _ _ Hl), final_snoc in *.
    destruct (Z.eqb_spec p 0); [lia|]. simpl in E1. rewrite E1. step.
    eexists _, _. split; [reflexivity|]. split; [apply I|done].
    + rewrite (il_head _ _ _ Hl). by rewrite !first_app.
    + done.
Qed.

(** What the code reads of a node, and its tests for the ends of the list. *)
Lemma old_parts h ls a b p w :
  is_list (nodes h) ls (a ++ (p, w) :: b) ->
  deref h p = Some (mkNode (final a 0) (first b 0) w) /\
  (l_tail ls =? p) = bool_decide (b = []) /\ (l_head ls =? p) = bool_decide (a = []) /\ 0 < p.
Proof.
  intros Hl. destruct (nodup_mid _ _ _ _ (il_nodup _ _ _ Hl)) as [Ha Hb].
  pose proof (il_ptr _ _ _ Hl) as Hv. rewrite fmap_app, Forall_app in Hv.
  destruct Hv as [Hva [Hp Hvb]%Forall_cons]. simpl in *.
  split; [|split; [|split]].
  - apply deref_valid; [done|].
    pose proof (il_seg _ _ _ Hl) as Hs. by apply seg_app in Hs as (_ & H & _).
  - rewrite (il_tail _ _ _ Hl), final_app. simpl. destruct b as [|[q z] b].
    + simpl. by rewrite Z.eqb_refl.
    + rewrite bool_decide_false by done. apply Z.eqb_neq.
      by apply (final_notin ((q, z) :: b)).
  - rewrite (il_head _ _ _ Hl). destruct a as [|[q z] a].
    + simpl. by rewrite Z.eqb_refl.
    + rewrite bool_decide_false by done. apply Z.eqb_neq.
      by apply (first_notin ((q, z) :: a)).
  - apply Hp.
Qed.

Lemma listInsertNode_spec h ls a b p w v (after : bool) :
  is_list (nodes h) ls (a ++ (p, w) :: b) ->
  inserted h ls (if after then a ++ [(p, w)] else a)
    (if after then b else (p, w) :: b) v (listInsertNode zmalloc h ls p v after).
Proof.
  intros Hl. unfold inserted, listInsertNode.
  destruct (zmalloc (nodes h)) as [node|] eqn:E; [|done].
  destruct (old_parts _ _ _ _ _ _ Hl) as (-> & Ht & Hh & Hp). step.
  destruct after.
  - replace (a ++ (p, w) :: b) with ((a ++ [(p, w)]) ++ b) in * by by rewrite <- app_assoc.
    destruct (link_list h ls (a ++ [(p, w)]) b v node Hl E) as (h1 & h2 & E1 & E2 & I & R & F).
    rewrite !final_snoc in E1. simpl n_next. rewrite E1. step. rewrite E2. step.
    eexists _, _. split; [reflexivity|]. split; [apply I|done].
    + rewrite (il_head _ _ _ Hl). by rewrite !first_app.
    + rewrite Ht. rewrite (il_tail _ _ _ Hl). rewrite !final_app. simpl.
      destruct b as [|[q z] b]; [done|]. by rewrite bool_decide_false.
  - destruct (link_list h ls a ((p, w) :: b) v node Hl E) as (h1 & h2 & E1 & E2 & I & R & F).
    simpl first in E1, E2. simpl n_prev. rewrite E1. step. rewrite E2. step.
    eexists _, _. split; [reflexivity|]. split; [apply I|done].
    + rewrite Hh. rewrite (il_head _ _ _ Hl). destruct a as [|[q z] a]; [done|].
      by rewrite bool_decide_false.
    + rewrite (il_tail _ _ _ Hl). by rewrite !final_app.
Qed.
End Spec.

(** The calls of the [free] method made by a list. *)
Definition frees (ls : alist) (vs : list Z) : list Z := if l_free ls then vs else [].

Lemma listDelNode_spec h ls a b p w :
  is_list (nodes h) ls (a ++ (p, w) :: b) ->
  exists ls' h', listDelNode h ls p = Some (ls', h') /\
    is_list (nodes h') ls' (a ++ b) /\ same_methods ls ls' /\
    same_outside (a ++ (p, w) :: b).*1 (nodes h) (nodes h') /\ nodes h' !! p = None /\
    freed h' = freed h ++ frees ls [w].
Proof.
  intros Hl. destruct (nodup_mid _ _ _ _ (il_nodup _ _ _ Hl)) as [Ha Hb].
  destruct (old_parts _ _ _ _ _ _ Hl) as (Ed & _ & _ & Hp).
  destruct (unlink h a b p w) as (h1 & h2 & _ & E1 & E2 & Hn & S & R & F); try apply Hl.
  set (h3 := call_free ls h2 w).
  assert (nodes h3 = nodes h2) as Hh3 by (unfold h3, call_free; by destruct (l_free ls)).
  assert (freed h3 = freed h ++ frees ls [w]) as Hf.
  { unfold h3, call_free, frees. destruct (l_free ls); simpl; [by rewrite F|].
    by rewrite app_nil_r. }
  eexists _, (mkHeap (base.delete p (nodes h2)) (freed h3)).
  split; [|split; [|split; [|split; [|split]]]]; cycle 3.
  - simpl. intros q Hq. rewrite lookup_delete_ne.
    + apply R. rewrite fmap_app in *. set_solver.
    + intros ->. apply Hq. rewrite fmap_app, elem_of_app. right. left.
  - simpl. by rewrite lookup_delete_eq.
  - done.
  - unfold listDelNode. rewrite Ed. step. simpl n_prev. simpl n_next. simpl n_value.
    instantiate (1 := set_ends ls (if negb (final a 0 =? 0) then l_head ls else first b 0)
      (if negb (first b 0 =? 0) then l_tail ls else final a 0) (u64 (l_len ls - 1))).
    destruct (negb (final a 0 =? 0)); [rewrite E1|injection E1 as <-]; step;
      (destruct (negb (first b 0 =? 0)); [rewrite E2|injection E2 as <-]; step;
      (unfold zfree, deref; fold h3; rewrite Hh3, Hn;
       destruct (Z.eqb_spec p 0); [lia|done])).
  - pose proof (il_nodup _ _ _ Hl) as Hnd. pose proof (il_ptr _ _ _ Hl) as Hv.
    rewrite fmap_app in Hnd, Hv. simpl in Hnd, Hv.
    rewrite <- Permutation_middle in Hnd, Hv.
    apply NoDup_cons in Hnd as [Hpn Hnd]. apply Forall_cons in Hv as [Hpv Hv].
    rewrite <- fmap_app in Hnd, Hv, Hpn.
    apply is_list_eq; simpl; [|done|done| | |].
    + eapply seg_frame; [apply same_outside_delete | | done]. intros q Hq ->%list_elem_of_singleton. done.
    + rewrite (il_head _ _ _ Hl). rewrite fmap_app in Hv. apply Forall_app in Hv as [Hv _].
      destruct a as [|[q z] a]; [done|].
      pose proof (final_ptr ((q, z) :: a) 0 Hv ltac:(done)).
      destruct (Z.eqb_spec (final ((q, z) :: a) 0) 0); [lia|done].
    + rewrite (il_tail _ _ _ Hl), !final_app. rewrite fmap_app in Hv. apply Forall_app in Hv as [_ Hv].
      destruct b as [|[q z] b]; [done|].
      pose proof (first_ptr ((q, z) :: b) 0 Hv ltac:(done)).
      destruct (Z.eqb_spec (first ((q, z) :: b) 0) 0); [lia|done].
    + rewrite (il_len _ _ _ Hl). pose proof (is_list_len _ _ _ Hl) as Hc.
      rewrite !zlen_app, zlen_cons. rewrite zlen_app, zlen_cons in Hc.
      pose proof (zlen_nonneg a). pose proof (zlen_nonneg b). rewrite wrap_small; [lia|]. split; [lia|]. pow2. lia.
  - done.
Qed.

(** The address of the cell at position [i], NULL out of range. *)
Definition addr_at (l : cells) (i : nat) : Z := from_option fst 0 (l !! i).

Lemma final_snoc_reverse (l : cells) : final (reverse l) 0 = first l 0.
Proof. destruct l as [|[p v] l]; [done|]. by rewrite reverse_cons, final_snoc. Qed.

Lemma first_reverse (l : cells) : first (reverse l) 0 = final l 0.
Proof. rewrite <- (reverse_involutive l) at 2. by rewrite final_snoc_reverse. Qed.

Lemma listIndex_fwd h ls : forall b a fuel i,
  is_list (nodes h) ls (a ++ b) -> (length b < fuel)%nat -> 0 <= i ->
  listIndex_loop fuel h true i (first b 0) = Some (addr_at b (Z.to_nat i)).
Proof.
  induction b as [|[p w] b IH]; intros a fuel i Hl Hf Hi.
  - destruct fuel; [lia|]. simpl. rewrite andb_false_r. done.
  - destruct fuel; [simpl in *; lia|]. simpl.
    destruct (old_parts _ _ _ _ _ _ Hl) as (-> & _ & _ & Hp).
    destruct (Z.eqb_spec i 0) as [->|Hi0]; [done|].
    destruct (Z.eqb_spec p 0); [lia|]. simpl.
    rewrite (IH (a ++ [(p, w)])); [| by rewrite <- app_assoc | simpl in Hf; lia | lia].
    by replace (Z.to_nat i) with (S (Z.to_nat (i - 1))) by lia.
Qed.

Lemma listIndex_bwd h ls : forall a b fuel i,
  is_list (nodes h) ls (reverse a ++ b) -> (length a < fuel)%nat -> 0 <= i ->
  listIndex_loop fuel h false i (first a 0) = Some (addr_at a (Z.to_nat i)).
Proof.
  induction a as [|[p w] a IH]; intros b fuel i Hl Hf Hi.
  - destruct fuel; [lia|]. simpl. rewrite andb_false_r. done.
  - destruct fuel; [simpl in *; lia|]. simpl. rewrite reverse_cons, <- app_assoc in Hl.
    destruct (old_parts _ _ _ _ _ _ Hl) as (-> & _ & _ & Hp).
    destruct (Z.eqb_spec i 0) as [->|Hi0]; [done|].
    destruct (Z.eqb_spec p 0); [lia|]. simpl. rewrite final_snoc_reverse.
    rewrite (IH ([(p, w)] ++ b)); [| done | simpl in Hf; lia | lia].
    by replace (Z.to_nat i) with (S (Z.to_nat (i - 1))) by lia.
Qed.

(** The position an index names, counted from the end when negative. *)
Definition position (n i : Z) : Z := if i <? 0 then n + i else i.

Lemma listIndex_spec h ls l i :
  is_list (nodes h) ls l -> - 2 ^ 63 < i ->
  listIndex h ls i = Some (from_option fst 0 (znth l (position (zlen l) i))).
Proof.
  intros Hl Hi. unfold listIndex, position. rewrite (il_len _ _ _ Hl).
  destruct (Z.ltb_spec i 0).
  - destruct (Z.eqb_spec i (- 2 ^ 63)); [lia|].
    rewrite (il_tail _ _ _ Hl), <- first_reverse.
    rewrite (listIndex_bwd h ls _ []); [| by rewrite app_nil_r, reverse_involutive | |lia].
    + f_equal. unfold addr_at. f_equal. unfold znth. case_decide.
      * rewrite reverse_lookup; unfold zlen in *; [f_equal; lia | lia].
      * apply lookup_ge_None. rewrite length_reverse. unfold zlen in *. lia.
    + rewrite length_reverse. unfold zlen. lia.
  - rewrite (il_head _ _ _ Hl), (listIndex_fwd h ls _ []); [|done| unfold zlen; lia | done].
    f_equal. unfold addr_at, znth. by rewrite decide_True by lia.
Qed.

Lemma listRotate_spec h ls l :
  is_list (nodes h) ls l ->
  exists ls' h', listRotate h ls = Some (ls', h') /\
    is_list (nodes h') ls' (match reverse l with x :: r => x :: reverse r | [] => [] end) /\
    same_methods ls ls' /\ same_outside l.*1 (nodes h) (nodes h') /\ freed h' = freed h.
Proof.
  intros Hl. unfold listRotate. rewrite (il_len _ _ _ Hl).
  destruct l as [|[p w] a _] using rev_ind; [by exists ls, h|].
  rewrite reverse_snoc, reverse_involutive, zlen_app_one.
  destruct (Z.leb_spec (zlen a + 1) 1) as [Ha|Ha].
  { destruct a as [|x a]; [by exists ls, h|]. rewrite zlen_cons in Ha.
    pose proof (zlen_nonneg a). lia. }
  assert (a <> []) as Hne by (intros ->; simpl in Ha; rewrite zlen_nil in Ha; lia).
  destruct (old_parts _ _ _ _ _ _ Hl) as (Hd & _ & _ & Hp).
  destruct (nodup_mid _ _ _ _ (il_nodup _ _ _ Hl)) as [Hpa _].
  pose proof (il_nodup _ _ _ Hl) as Hn. pose proof (il_ptr _ _ _ Hl) as Hv.
  pose proof (il_seg _ _ _ Hl) as (S1 & S2 & _)%seg_app.
  rewrite fmap_app in Hn, Hv |- *. apply NoDup_app in Hn as (Hn & _ & _).
  apply Forall_app in Hv as [Hva [Hvp _]%Forall_cons]. simpl in *.
  rewrite (il_tail _ _ _ Hl), (il_head _ _ _ Hl), final_snoc, Hd. step. simpl n_prev.
  destruct (relink_next h 0 a p 0) as (h1 & -> & T1 & R1 & F1); try done. step.
  rewrite first_app. simpl first.
  replace (first a p) with (first a 0) by (destruct a as [|[] ?]; done).
  destruct (relink_prev h1 0 p a 0) as (h2 & -> & T2 & R2 & F2); try done. step.
  assert (nodes h2 !! p = Some (mkNode (final a 0) 0 w)) as H2 by (by rewrite R2, R1).
  unfold set_prev at 1. rewrite (deref_valid h2 p _ Hvp H2). step.
  unfold set_next. rewrite (deref_valid _ p (mkNode 0 0 w) Hvp) by (simpl; by rewrite lookup_insert_eq).
  step. eexists _, _. split; [reflexivity|]. simpl. split; [|split; [done|split]].
  - apply is_list_eq; simpl; try done.
    + split; [by rewrite lookup_insert_eq|].
      eapply (seg_frame (nodes h2) _ [p]); [|set_solver|done].
      intros q Hq. rewrite !lookup_insert_ne; set_solver.
    + by apply NoDup_cons.
    + by apply Forall_cons.
    + destruct a as [|[q z] a]; [done|]. done.
    + rewrite zlen_cons. lia.
  - intros q Hq. rewrite !lookup_insert_ne by set_solver. rewrite R2, R1; set_solver.
  - by rewrite F2, F1.
Qed.

(** ** Sequences of operations *)

Inductive cmd :=
  | AddHead (v : Z)
  | AddTail (v : Z)
  | Insert (index v : Z) (after : bool)
  | Delete (index : Z)
  | Rotate.

Section Commands.
Context (zmalloc : gmap Z listNode -> option Z).

(** An insertion leaves the list it was given when it returns NULL. *)
Definition keep (ls : alist) (r : option (option alist * heap))
  : option (alist * heap * bool) :=
  '(o, h) ← r;
  Some (match o with Some ls' => (ls', h, true) | None => (ls, h, false) end).

(** The client: a position is looked up with [listIndex], and a command whose
    position is out of range does nothing. *)
Definition exec (h : heap) (ls : alist) (c : cmd) : option (alist * heap * bool) :=
  match c with
  | AddHead v => keep ls (listAddNodeHead zmalloc h ls v)
  | AddTail v => keep ls (listAddNodeTail zmalloc h ls v)
  | Insert i v after =>
      n ← listIndex h ls i;
      if n =? 0 then Some (ls, h, false)
      else keep ls (listInsertNode zmalloc h ls n v after)
  | Delete i =>
      n ← listIndex h ls i;
      if n =? 0 then Some (ls, h, false)
      else '(ls, h) ← listDelNode h ls n; Some (ls, h, true)
  | Rotate => '(ls, h) ← listRotate h ls; Some (ls, h, true)
  end.

Fixpoint exec_all (h : heap) (ls : alist) (cs : list cmd)
  : option (alist * heap * list bool) :=
  match cs with
  | [] => Some (ls, h, [])
  | c :: cs =>
      '(ls, h, b) ← exec h ls c;
      '(ls, h, bs) ← exec_all h ls cs; Some (ls, h, b :: bs)
  end.
End Commands.

(** The commands on a plain list of values, with the values freed. *)
Definition spec (vs : list Z) (c : cmd) : list Z * list Z :=
  match c with
  | AddHead v => (v :: vs, [])
  | AddTail v => (vs ++ [v], [])
  | Insert i v after =>
      let k := Z.to_nat (position (zlen vs) i + Z.b2z after) in
      (take k vs ++ v :: drop k vs, [])
  | Delete i =>
      let k := Z.to_nat (position (zlen vs) i) in
      (take k vs ++ drop (S k) vs, take 1 (drop k vs))
  | Rotate => (match reverse vs with x :: r => x :: reverse r | [] => [] end, [])
  end.

(** Only the commands that succeeded count. *)
Fixpoint spec_all (vs : list Z) (cs : list cmd) (bs : list bool) : list Z * list Z :=
  match cs, bs with
  | c :: cs, true :: bs =>
      let '(vs, fs) := spec vs c in
      let '(vs, fs') := spec_all vs cs bs in (vs, fs ++ fs')
  | _ :: cs, false :: bs => spec_all vs cs bs
  | _, _ => (vs, [])
  end.

(** A command that may succeed: its position exists, and the allocator has
    memory for an insertion. *)
Definition possible (room : bool) (n : Z) (c : cmd) : bool :=
  match c with
  | AddHead _ | AddTail _ => room
  | Insert i _ _ => room && bool_decide (0 <= position n i < n)
  | Delete i => bool_decide (0 <= position n i < n)
  | Rotate => true
  end.

(** Which commands succeed when there is always memory. *)
Fixpoint attempt (vs : list Z) (cs : list cmd) : list bool :=
  match cs with
  | [] => []
  | c :: cs =>
      let b := possible true (zlen vs) c in
      b :: attempt (if b then (spec vs c).1 else vs) cs
  end.

Definition index_ok (c : cmd) : Prop :=
  match c with Insert i _ _ | Delete i => - 2 ^ 63 < i | _ => True end.

Global Instance index_ok_dec c : Decision (index_ok c).
Proof. destruct c; simpl; apply _. Defined.

Lemma split_at (l : cells) k p w :
  l !! k = Some (p, w) -> exists a b, l = a ++ (p, w) :: b /\ length a = k.
Proof.
  intros H. exists (take k l), (drop (S k) l). split.
  - symmetry. by apply take_drop_middle.
  - apply length_take_le. apply lookup_lt_Some in H. lia.
Qed.

(** What [listIndex] gives: NULL, or a node of the list at that position. *)
Lemma index_cases h ls l i :
  is_list (nodes h) ls l -> - 2 ^ 63 < i ->
  (listIndex h ls i = Some 0 /\ ~ 0 <= position (zlen l) i < zlen l) \/
  exists a b p w, listIndex h ls i = Some p /\ p <> 0 /\ l = a ++ (p, w) :: b /\
    0 <= position (zlen l) i < zlen l /\ length a = Z.to_nat (position (zlen l) i).
Proof.
  intros Hl Hi. rewrite (listIndex_spec h ls l) by done.
  destruct (znth l (position (zlen l) i)) as [[p w]|] eqn:E; simpl.
  - right. pose proof (znth_Some_bound _ _ _ E) as Hb. unfold znth in E.
    rewrite decide_True in E by lia. apply split_at in E as (a & b & -> & Ha).
    exists a, b, p, w. split; [done|]. split; [|done].
    destruct (old_parts _ _ _ _ _ _ Hl) as (_ & _ & _ & Hp). lia.
  - left. split; [done|]. intros Hb. apply znth_Some in Hb as [x Hx]. congruence.
Qed.

Lemma zlen_snd (l : cells) : zlen l.*2 = zlen l.
Proof. apply zlen_fmap. Qed.

Lemma listRelease_loop_spec ls : forall l h prev,
  seg (nodes h) prev l 0 -> NoDup l.*1 -> Forall valid_ptr l.*1 ->
  exists h', listRelease_loop ls (length l) h (first l 0) = Some h' /\
    freed h' = freed h ++ frees ls l.*2 /\
    forall p, nodes h' !! p = if decide (p ∈ l.*1) then None else nodes h !! p.
Proof.
  induction l as [|[p w] l IH]; intros h prev Hs Hn Hv.
  - exists h. split; [done|]. split; [unfold frees; destruct (l_free ls); by rewrite app_nil_r|].
    intros p. by rewrite decide_False by apply not_elem_of_nil.
  - simpl in Hs, Hn, Hv. destruct Hs as [Hp Hs]. apply NoDup_cons in Hn as [Hpn Hn].
    apply Forall_cons in Hv as [Hvp Hv]. simpl. rewrite (deref_valid _ _ _ Hvp Hp). step.
    simpl n_value. simpl n_next.
    set (h1 := call_free ls h w).
    assert (nodes h1 = nodes h) as Hh1 by (unfold h1, call_free; by destruct (l_free ls)).
    unfold zfree. rewrite <- Hh1 in Hp. rewrite (deref_valid h1 p _ Hvp Hp). step.
    destruct (IH (mkHeap (base.delete p (nodes h1)) (freed h1)) p) as (h' & E & Hf & Hd); [|done..|].
    { simpl. rewrite Hh1. eapply seg_frame; [apply same_outside_delete | set_solver | done]. }
    exists h'. split; [done|]. split.
    + rewrite Hf. unfold h1, call_free, frees. simpl. destruct (l_free ls); simpl; [|done].
      by rewrite <- app_assoc.
    + intros q. rewrite Hd. simpl. rewrite Hh1. destruct (decide (q = p)) as [->|Hq].
      * rewrite lookup_delete_eq. simpl. case_decide; case_decide as Hn'; try done.
        exfalso. apply Hn'. left.
      * rewrite lookup_delete_ne by done.
        destruct (decide (q ∈ l.*1)); [rewrite decide_True by set_solver; done|].
        rewrite decide_False by set_solver. done.
Qed.

Lemma listRelease_spec h ls l : is_list (nodes h) ls l ->
  exists h', listRelease h ls = Some h' /\ freed h' = freed h ++ frees ls l.*2 /\
    forall p, nodes h' !! p = if decide (p ∈ l.*1) then None else nodes h !! p.
Proof.
  intros Hl. unfold listRelease. rewrite (il_len _ _ _ Hl), (il_head _ _ _ Hl).
  unfold zlen. rewrite Nat2Z.id. apply listRelease_loop_spec with 0; apply Hl.
Qed.

Section Refine.
Context (zmalloc : gmap Z listNode -> option Z) (Hz : fresh_alloc zmalloc).

(** Only nodes of the list change: the ones it loses are released, and the
    ones it gains were not allocated. *)
Definition framed (m : gmap Z listNode) (l : cells) (m' : gmap Z listNode) (l' : cells) : Prop :=
  (forall p, p ∉ l'.*1 -> m' !! p = if decide (p ∈ l.*1) then None else m !! p) /\
  (forall p, p ∈ l'.*1 -> p ∉ l.*1 -> m !! p = None).

Lemma framed_same m l m' l' :
  (forall p, p ∈ l.*1 <-> p ∈ l'.*1) -> same_outside l.*1 m m' -> framed m l m' l'.
Proof.
  intros Hl Hm. split.
  - intros p Hp. rewrite <- Hl in Hp. rewrite decide_False by done. by apply Hm.
  - intros p Hp Hn. rewrite <- Hl in Hp. done.
Qed.

Lemma framed_trans m0 l0 m1 l1 m2 l2 :
  framed m0 l0 m1 l1 -> framed m1 l1 m2 l2 -> (forall p, p ∈ l0.*1 -> is_Some (m0 !! p)) ->
  framed m0 l0 m2 l2.
Proof.
  intros [A1 A2] [B1 B2] H0. split.
  - intros p Hp. rewrite (B1 p Hp). case_decide as H1; [|by rewrite A1].
    case_decide as H2; [done|]. symmetry. by apply A2.
  - intros p Hp Hn. destruct (decide (p ∈ l1.*1)) as [H1|H1]; [by apply A2|].
    specialize (B2 p Hp H1). rewrite A1 in B2 by done. by rewrite decide_False in B2.
Qed.

(** One command refines its counterpart on the list of values. *)
Definition refined (h : heap) (ls : alist) (l : cells) (c : cmd)
    (r : option (alist * heap * bool)) : Prop :=
  exists ls' h' l' b, r = Some (ls', h', b) /\
    is_list (nodes h') ls' l' /\ same_methods ls ls' /\
    b = possible (bool_decide (is_Some (zmalloc (nodes h)))) (zlen l) c /\
    l'.*2 = (if b then (spec l.*2 c).1 else l.*2) /\
    freed h' = freed h ++ (if b then frees ls (spec l.*2 c).2 else []) /\
    framed (nodes h) l (nodes h') l'.

Lemma inserted_refined h ls a b v c r :
  is_list (nodes h) ls (a ++ b) -> inserted zmalloc h ls a b v r ->
  spec (a ++ b).*2 c = (a.*2 ++ v :: b.*2, []) ->
  possible (bool_decide (is_Some (zmalloc (nodes h)))) (zlen (a ++ b)) c =
    bool_decide (is_Some (zmalloc (nodes h))) ->
  refined h ls (a ++ b) c (keep ls r).
Proof.
  unfold inserted, refined. intros Hl Hi Hs Hp.
  rewrite Hp, Hs. destruct (zmalloc (nodes h)) as [node|] eqn:E.
  - destruct Hi as (ls' & h' & -> & H1 & H2 & Hr & H3).
    eexists ls', h', _, true. simpl. split; [done|]. split; [exact H1|].
    split; [done|]. split; [done|]. split; [by rewrite fmap_app|]. split.
    + rewrite H3. unfold frees. destruct (l_free ls); by rewrite app_nil_r.
    + apply Hz in E as [_ E]. split; intros p; rewrite !fmap_app; simpl; intros Hin.
      * rewrite decide_False by set_solver. apply Hr. rewrite fmap_app. set_solver.
      * intros Hn. assert (p = node) as -> by set_solver. done.
  - subst r. eexists ls, h, _, false. simpl. split; [done|]. split; [exact Hl|].
    rewrite app_nil_r. split; [done|]. split; [done|]. split; [done|]. split; [done|].
    by apply framed_same.
Qed.

Lemma exec_refined h ls l c :
  is_list (nodes h) ls l -> index_ok c -> refined h ls l c (exec zmalloc h ls c).
Proof.
  intros Hl Hc. destruct c as [v|v|i v after|i|]; simpl.
  - apply (inserted_refined h ls [] l v); [done| |done|done].
    by apply listAddNodeHead_spec.
  - rewrite <- (app_nil_r l) in Hl |- *.
    apply (inserted_refined h ls l [] v); [done| |by rewrite fmap_app, app_nil_r|done].
    rewrite app_nil_r in Hl. by apply listAddNodeTail_spec.
  - destruct (index_cases h ls l i Hl Hc) as [[-> Hb]|(a & b & p & w & -> & Hp & -> & Hb & Ha)]; step.
    + exists ls, h, l, false. simpl. rewrite (bool_decide_false _ Hb), andb_false_r.
      rewrite app_nil_r. repeat (split; [done|]). by apply framed_same.
    + destruct (Z.eqb_spec p 0); [done|].
      pose proof (listInsertNode_spec zmalloc Hz h ls a b p w v after Hl) as Hi.
      assert (spec (a ++ (p, w) :: b).*2 (Insert i v after) =
        ((if after then a ++ [(p, w)] else a).*2 ++ v :: (if after then b else (p, w) :: b).*2, [])) as Hs.
      { cbn [spec]. rewrite zlen_snd. f_equal.
        assert (length a.*2 = length a) as Hla by apply length_fmap.
        destruct after; simpl Z.b2z.
        - replace (Z.to_nat _) with (length (a ++ [(p, w)]).*2)
            by (rewrite length_fmap, length_app; simpl; lia).
          replace ((a ++ (p, w) :: b).*2) with ((a ++ [(p, w)]).*2 ++ b.*2)
            by (rewrite <- fmap_app, <- app_assoc; done).
          by rewrite take_app_length, drop_app_length.
        - replace (Z.to_nat _) with (length a.*2) by lia.
          rewrite fmap_app. by rewrite take_app_length, drop_app_length. }
      assert (possible (bool_decide (is_Some (zmalloc (nodes h)))) (zlen (a ++ (p, w) :: b)) (Insert i v after) =
        bool_decide (is_Some (zmalloc (nodes h)))) as Hpo.
      { cbn [possible]. by rewrite (bool_decide_true _ Hb), andb_true_r. }
      revert Hi Hs Hpo Hl. destruct after; intros.
      * replace (a ++ (p, w) :: b) with ((a ++ [(p, w)]) ++ b) in * by by rewrite <- app_assoc.
        by apply inserted_refined with v.
      * by apply inserted_refined with v.
  - destruct (index_cases h ls l i Hl Hc) as [[-> Hb]|(a & b & p & w & -> & Hp & -> & Hb & Ha)]; step.
    + exists ls, h, l, false. simpl. rewrite (bool_decide_false _ Hb).
      rewrite app_nil_r. repeat (split; [done|]). by apply framed_same.
    + destruct (Z.eqb_spec p 0); [done|].
      destruct (listDelNode_spec h ls a b p w Hl) as (ls' & h' & -> & H1 & H2 & Hr & Hd & H3). step.
      eexists ls', h', _, true. split; [done|]. split; [exact H1|]. split; [done|].
      cbn [possible spec]. rewrite bool_decide_true by done. split; [done|].
      rewrite zlen_snd, H3. simpl.
      assert (length a.*2 = length a) as Hla by apply length_fmap.
      replace (Z.to_nat _) with (length a.*2 + 0)%nat by lia.
      split; [|split]; [| |split].
      * rewrite !fmap_app. rewrite <- Nat.add_succ_r.
        by rewrite take_app_add, !drop_app_add, app_nil_r.
      * rewrite !fmap_app. by rewrite !drop_app_add.
      * intros q Hq. case_decide as Hin; [|by apply Hr].
        assert (q = p) as -> by (rewrite fmap_app in *; set_solver). done.
      * intros q Hq Hn. rewrite !fmap_app in *. set_solver.
  - destruct (listRotate_spec h ls l Hl) as (ls' & h' & -> & H1 & H2 & Hr & H3). step.
    eexists ls', h', _, true. split; [done|]. split; [exact H1|]. split; [done|].
    split; [done|]. simpl. rewrite H3. split; [|split].
    + rewrite <- fmap_reverse. destruct (reverse l) as [|[p w] r]; [done|].
      simpl. by rewrite fmap_reverse.
    + unfold frees. destruct (l_free ls); by rewrite app_nil_r.
    + apply framed_same; [|done]. intros q. rewrite <- (reverse_involutive l) at 1.
      destruct (reverse l) as [|x r]; [done|]. rewrite reverse_cons, fmap_app.
      simpl. set_solver.
Qed.

Lemma exec_all_refined cs : forall h ls l,
  is_list (nodes h) ls l -> Forall index_ok cs ->
  exists ls' h' l' bs, exec_all zmalloc h ls cs = Some (ls', h', bs) /\
    is_list (nodes h') ls' l' /\ same_methods ls ls' /\
    l'.*2 = (spec_all l.*2 cs bs).1 /\
    freed h' = freed h ++ frees ls (spec_all l.*2 cs bs).2 /\
    framed (nodes h) l (nodes h') l' /\
    ((forall m, is_Some (zmalloc m)) -> bs = attempt l.*2 cs).
Proof.
  induction cs as [|c cs IH]; intros h ls l Hl Hc.
  - exists ls, h, l, []. simpl. split; [done|]. split; [done|]. split; [done|].
    split; [done|]. split; [unfold frees; destruct (l_free ls); by rewrite app_nil_r|].
    split; [by apply framed_same|done].
  - apply Forall_cons in Hc as [Hc Hcs].
    destruct (exec_refined h ls l c Hl Hc) as (ls1 & h1 & l1 & b & E & H1 & M1 & Hb & Hv & Hf & Hr).
    destruct (IH h1 ls1 l1 H1 Hcs) as (ls2 & h2 & l2 & bs & E2 & H2 & M2 & Hv2 & Hf2 & Hr2 & Hb2).
    exists ls2, h2, l2, (b :: bs). cbn [exec_all]. rewrite E. step. rewrite E2. step.
    split; [done|]. split; [done|].
    assert (forall X, frees ls1 X = frees ls X) as Hfr
      by (unfold frees; destruct M1 as (_ & -> & _); done).
    split; [destruct M1 as (?&?&?), M2 as (?&?&?); repeat split; congruence|].
    assert (framed (nodes h) l (nodes h2) l2) as Hframe.
    { apply framed_trans with (nodes h1) l1; [done..|].
      intros p Hp. apply list_elem_of_fmap in Hp as ([q w] & -> & Hp).
      apply list_elem_of_split in Hp as (a & b' & ->).
      destruct (old_parts _ _ _ _ _ _ Hl) as (Hd & _). unfold deref in Hd.
      case_match; [done|]. by eexists. }
    destruct b; cbn [spec_all]; rewrite Hv in *.
    + destruct (spec l.*2 c) as [vs fs] eqn:Es. simpl in *.
      destruct (spec_all vs cs bs) as [vs' fs'] eqn:Es'. simpl in *.
      split; [done|]. split; [|split; [done|]].
      * rewrite Hf2, Hf, Hfr. unfold frees. destruct (l_free ls); simpl;
          rewrite ?app_nil_r, ?app_assoc; done.
      * intros Hz'. rewrite zlen_snd. rewrite (bool_decide_true _ (Hz' (nodes h))) in Hb.
        rewrite <- Hb, Es. simpl. by rewrite Hb2.
    + split; [done|]. split; [|split; [done|]].
      * rewrite Hf2, Hf, app_nil_r, Hfr. done.
      * intros Hz'. simpl. rewrite zlen_snd.
        rewrite (bool_decide_true _ (Hz' (nodes h))) in Hb. rewrite <- Hb.
        by rewrite Hb2.
Qed.
End Refine.

(** A heap with no list in it has an empty list in it. *)
Lemma is_list_empty m d f ma : is_list m (mkList 0 0 0 d f ma) [].
Proof. constructor; try done; by constructor. Qed.

(** C12: Any sequence of insertions at the head, at the tail and around a node,
    of deletions and rotations, addressed by signed positions, never touches a
    node that is not allocated, and gives the list of values the same commands
    give on plain lists (a command whose position does not exist, or whose
    allocation fails, changes nothing, and there is no other failure); the
    [free] method is called on the deleted values in order, and releasing the
    list at the end calls it on the rest and leaves exactly the nodes that were
    allocated before. *)
Theorem adlist_refines_list (zmalloc : gmap Z listNode -> option Z)
    (Hz : fresh_alloc zmalloc) (cs : list cmd) (Hc : Forall index_ok cs)
    (h0 : heap) dup has_free match_ :
  let ls0 := mkList (l_head listCreate) (l_tail listCreate) (l_len listCreate) dup has_free match_ in
  exists ls h l bs, exec_all zmalloc h0 ls0 cs = Some (ls, h, bs) /\
    is_list (nodes h) ls l /\
    let '(vs, fs) := spec_all [] cs bs in
    l.*2 = vs /\ freed h = freed h0 ++ (if has_free then fs else []) /\
    ((forall m, is_Some (zmalloc m)) -> bs = attempt [] cs) /\
    exists h', listRelease h ls = Some h' /\ nodes h' = nodes h0 /\
      freed h' = freed h0 ++ (if has_free then fs ++ vs else []).
Proof.
  intros ls0.
  destruct (exec_all_refined zmalloc Hz cs h0 ls0 [] (is_list_empty _ _ _ _) Hc)
    as (ls & h & l & bs & E & Hl & M & Hv & Hf & [Hr Hr'] & Hb).
  exists ls, h, l, bs. split; [done|]. split; [done|]. simpl fmap in *.
  destruct (listRelease_spec h ls l Hl) as (h' & E' & Hf' & Hd).
  destruct (spec_all [] cs bs) as [vs fs]. simpl in *. split; [done|]. split; [done|].
  split; [done|]. exists h'. split; [done|]. split.
  - apply map_eq. intros p. rewrite Hd. case_decide as Hp.
    + symmetry. apply Hr'; [done|]. apply not_elem_of_nil.
    + by rewrite Hr.
  - rewrite Hf', Hf, Hv. destruct M as (_ & M & _). unfold frees. rewrite M. simpl.
    destruct has_free; by rewrite <- ?app_assoc, ?app_nil_r.
Qed.

(** An allocator that never fails on the heaps of the witnesses. *)
Definition bump (m : gmap Z listNode) : option Z :=
  let p := 1 + foldr Z.max 0 (map_to_list m).*1 in
  if decide (valid_ptr p) then Some p else None.

Lemma max_bound (l : list Z) x : x ∈ l -> x <= foldr Z.max 0 l.
Proof. induction 1; simpl; lia. Qed.

Lemma bump_fresh : fresh_alloc bump.
Proof.
  intros m p. unfold bump. case_decide; [|done]. intros [= <-]. split; [done|].
  destruct (m !! _) as [n|] eqn:E; [|done]. exfalso.
  apply elem_of_map_to_list in E.
  assert (1 + foldr Z.max 0 (map_to_list m).*1 ∈ (map_to_list m).*1) as Hin
    by (apply list_elem_of_fmap; eexists (_, n); done).
  apply max_bound in Hin. lia.
Qed.

Lemma adlist_refines_list_witness :
  let cs := [AddTail 10; AddHead 20; Insert (-1) 30 false; Insert 0 40 true; Rotate;
             Delete 1; Delete 9; Insert 1 50 true] in
  exists ls h bs, exec_all bump (mkHeap ∅ []) (mkList 0 0 0 None true None) cs = Some (ls, h, bs) /\
    bs = [true; true; true; true; true; true; false; true] /\
    (spec_all [] cs bs) = ([10; 40; 50; 30], [20]).
Proof.
  intros cs.
  destruct (adlist_refines_list bump bump_fresh cs ltac:(by_decide) (mkHeap ∅ []) None true None)
    as (ls & h & l & bs & E & _).
  exists ls, h, bs. split; [exact E|].
  assert (forall ls h bs, exec_all bump (mkHeap ∅ []) (mkList 0 0 0 None true None) cs = Some (ls, h, bs) ->
    bs = [true; true; true; true; true; true; false; true]) as H.
  { clear. intros ls h bs H. vm_compute in H. congruence. }
  apply H in E. subst bs. split; reflexivity.
Defined.

(** ** Iteration *)

(** The usage the comment of [listNext] gives: visit every node, and delete
    the current one when its value satisfies [P].  The result is the values
    visited, the list and the heap. *)
Fixpoint sweep (P : Z -> bool) (fuel : nat) (h : heap) (ls : alist) (it : listIter)
  : option (list Z * alist * heap) :=
  match fuel with
  | O => None
  | S fuel =>
      '(node, it) ← listNext h it;
      if node =? 0 then Some ([], ls, h)
      else
        n ← deref h node;
        '(ls, h) ← (if P (n_value n) then listDelNode h ls node else Some (ls, h));
        '(vs, ls, h) ← sweep P fuel h ls it; Some (n_value n :: vs, ls, h)
  end.

Definition keeps (P : Z -> bool) (l : cells) : cells := filter (fun c => P c.2 = false) l.

Lemma keeps_snoc P a p w :
  keeps P (a ++ [(p, w)]) = keeps P a ++ if P w then [] else [(p, w)].
Proof. unfold keeps. rewrite filter_app, filter_cons, filter_nil. simpl. by destruct (P w). Qed.

Lemma sweep_fwd P : forall b a fuel h ls,
  is_list (nodes h) ls (a ++ b) -> (length b < fuel)%nat ->
  exists ls' h', sweep P fuel h ls (mkIter (first b 0) AL_START_HEAD) = Some (b.*2, ls', h') /\
    is_list (nodes h') ls' (a ++ keeps P b).
Proof.
  induction b as [|[p w] b IH]; intros a fuel h ls Hl Hf; (destruct fuel; [simpl in *; lia|]).
  - exists ls, h. done.
  - destruct (old_parts _ _ _ _ _ _ Hl) as (Hd & _ & _ & Hp). simpl.
    unfold listNext. simpl. destruct (Z.eqb_spec p 0); [lia|]. simpl.
    rewrite Hd. step. destruct (Z.eqb_spec p 0); [lia|]. rewrite Hd. step. simpl n_value. simpl n_next.
    destruct (P w) eqn:Pw.
    + destruct (listDelNode_spec _ _ _ _ _ _ Hl) as (ls1 & h1 & -> & H1 & _). step.
      destruct (IH a fuel h1 ls1 H1 ltac:(simpl in Hf; lia)) as (ls2 & h2 & -> & H2). step.
      exists ls2, h2. split; [done|]. unfold keeps in *. rewrite filter_cons. simpl.
      by rewrite Pw.
    + step. destruct (IH (a ++ [(p, w)]) fuel h ls) as (ls2 & h2 & -> & H2);
        [by rewrite <- app_assoc | simpl in Hf; lia |]. step.
      exists ls2, h2. split; [done|]. unfold keeps in *. rewrite filter_cons. simpl.
      rewrite Pw. by rewrite <- app_assoc in H2.
Qed.

Lemma sweep_bwd P : forall a b fuel h ls,
  is_list (nodes h) ls (reverse a ++ b) -> (length a < fuel)%nat ->
  exists ls' h', sweep P fuel h ls (mkIter (first a 0) AL_START_TAIL) = Some (a.*2, ls', h') /\
    is_list (nodes h') ls' (keeps P (reverse a) ++ b).
Proof.
  induction a as [|[p w] a IH]; intros b fuel h ls Hl Hf; (destruct fuel; [simpl in *; lia|]).
  - exists ls, h. done.
  - rewrite reverse_cons, <- app_assoc in Hl. simpl in Hl.
    destruct (old_parts _ _ _ _ _ _ Hl) as (Hd & _ & _ & Hp). simpl.
    unfold listNext. simpl. destruct (Z.eqb_spec p 0); [lia|]. simpl.
    rewrite Hd. step. destruct (Z.eqb_spec p 0); [lia|]. rewrite Hd. step. simpl n_value. simpl n_prev.
    rewrite final_snoc_reverse, reverse_cons, keeps_snoc.
    destruct (P w) eqn:Pw.
    + destruct (listDelNode_spec _ _ _ _ _ _ Hl) as (ls1 & h1 & -> & H1 & _). step.
      destruct (IH b fuel h1 ls1 H1 ltac:(simpl in Hf; lia)) as (ls2 & h2 & -> & H2). step.
      exists ls2, h2. split; [done|]. by rewrite app_nil_r.
    + step. destruct (IH ((p, w) :: b) fuel h ls Hl) as (ls2 & h2 & -> & H2); [simpl in Hf; lia|]. step.
      exists ls2, h2. split; [done|]. by rewrite <- app_assoc.
Qed.

(** What [listSearchKey] tests. *)
Definition matches (ls : alist) (key v : Z) : bool :=
  match l_match ls with Some match_ => match_ v key | None => key =? v end.

Lemma listSearchKey_loop_spec h ls key : forall b a fuel,
  is_list (nodes h) ls (a ++ b) -> (length b < fuel)%nat ->
  listSearchKey_loop fuel h ls key (mkIter (first b 0) AL_START_HEAD) =
    Some (first (filter (fun c => matches ls key c.2 = true) b) 0).
Proof.
  induction b as [|[p w] b IH]; intros a fuel Hl Hf; (destruct fuel; [simpl in *; lia|]); [done|].
  destruct (old_parts _ _ _ _ _ _ Hl) as (Hd & _ & _ & Hp). simpl.
  unfold listNext. simpl. destruct (Z.eqb_spec p 0); [lia|]. simpl.
  rewrite Hd. step. destruct (Z.eqb_spec p 0); [lia|]. rewrite Hd. step. simpl n_value. simpl n_next.
  rewrite filter_cons. cbn [snd]. fold (matches ls key w).
  destruct (matches ls key w); [done|]. simpl.
  rewrite (IH (a ++ [(p, w)])); [done | by rewrite <- app_assoc | simpl in Hf; lia].
Qed.

(** C23: Iterating with [listNext] from either end visits every value once in
    order and ends, also when the client deletes with [listDelNode] the node it
    was just given, and exactly those nodes are gone afterwards; and
    [listSearchKey] returns the first node that matches, or NULL. *)
Theorem listNext_sweep (P : Z -> bool) (h : heap) (ls : alist) (l : cells)
    (Hl : is_list (nodes h) ls l) (key : Z) :
  (exists ls' h', sweep P (S (length l)) h ls (listGetIterator ls AL_START_HEAD) = Some (l.*2, ls', h') /\
    is_list (nodes h') ls' (keeps P l)) /\
  (exists ls' h', sweep P (S (length l)) h ls (listGetIterator ls AL_START_TAIL) = Some (reverse l.*2, ls', h') /\
    is_list (nodes h') ls' (keeps P l)) /\
  listRewind ls = listGetIterator ls AL_START_HEAD /\
  listRewindTail ls = listGetIterator ls AL_START_TAIL /\
  listSearchKey h ls key = Some (first (filter (fun c => matches ls key c.2 = true) l) 0).
Proof.
  unfold listGetIterator, listSearchKey, listGetIterator. simpl.
  rewrite (il_head _ _ _ Hl), (il_tail _ _ _ Hl), (il_len _ _ _ Hl).
  split; [|split; [|split; [|split]]].
  - destruct (sweep_fwd P l [] (S (length l)) h ls Hl ltac:(lia)) as (ls' & h' & ? & ?).
    by exists ls', h'.
  - rewrite <- first_reverse.
    destruct (sweep_bwd P (reverse l) [] (S (length l)) h ls) as (ls' & h' & E & H).
    + by rewrite reverse_involutive, app_nil_r.
    + rewrite length_reverse. lia.
    + exists ls', h'. rewrite reverse_involutive, app_nil_r in H.
      by rewrite <- fmap_reverse.
  - unfold listRewind. by rewrite (il_head _ _ _ Hl).
  - unfold listRewindTail. by rewrite (il_tail _ _ _ Hl).
  - apply (listSearchKey_loop_spec h ls key l [] (S (Z.to_nat (zlen l)))); [done|].
    unfold zlen. lia.
Qed.

(** The list 10, 20, 30 at the addresses 1, 2, 3. *)
Definition three : heap :=
  mkHeap (list_to_map [(1, mkNode 0 2 10); (2, mkNode 1 3 20); (3, mkNode 2 0 30)]) [].

Definition three_list (dup : option (Z -> option Z)) : alist := mkList 1 3 3 dup true None.

Lemma three_ok dup : is_list (nodes three) (three_list dup) [(1, 10); (2, 20); (3, 30)].
Proof. constructor; try by_decide; done. Qed.

Lemma listNext_sweep_witness :
  is_list (nodes three) (three_list None) [(1, 10); (2, 20); (3, 30)] /\
  listSearchKey three (three_list None) 20 = Some 2 /\
  exists ls' h', sweep (fun v => 15 <? v) 4 three (three_list None)
      (listGetIterator (three_list None) AL_START_TAIL) = Some ([30; 20; 10], ls', h') /\
    is_list (nodes h') ls' [(1, 10)].
Proof.
  split; [apply three_ok|].
  destruct (listNext_sweep (fun v => 15 <? v) three (three_list None) _ (three_ok None) 20)
    as (_ & H & _ & _ & Hs).
  split; [exact Hs|exact H].
Defined.

(** ** Duplication *)

(** The value the copy gets, by the [dup] method when it is set. *)
Definition dup_value (ls : alist) (v : Z) : option Z :=
  match l_dup ls with Some dup => dup v | None => Some v end.

Section Dup.
Context (zmalloc : gmap Z listNode -> option Z) (Hz : fresh_alloc zmalloc).

(** The result of [listDup] for the values [vs] of the original. *)
Definition dup_result (m0 : gmap Z listNode) (f0 : list Z) (orig : alist) (vs : list Z)
    (r : option (option alist * heap)) : Prop :=
  (exists copy c h', r = Some (Some copy, h') /\ is_list (nodes h') copy c /\
     same_methods orig copy /\ mapM (dup_value orig) vs = Some c.*2 /\
     framed m0 [] (nodes h') c /\ freed h' = f0) \/
  (exists h' k ws, r = Some (None, h') /\ nodes h' = m0 /\
     mapM (dup_value orig) (take k vs) = Some ws /\ freed h' = f0 ++ frees orig ws /\
     (exists v, vs !! k = Some v /\
        (dup_value orig v = None \/ exists m, zmalloc m = None))).

Lemma seg_live m prev l next p : seg m prev l next -> p ∈ l.*1 -> is_Some (m !! p).
Proof.
  revert prev. induction l as [|[q w] l IH]; intros prev; simpl; [set_solver|].
  intros [H1 H2] [->|Hp]%elem_of_cons; [by eexists|eauto].
Qed.

Lemma release_framed m0 h copy c :
  is_list (nodes h) copy c -> framed m0 [] (nodes h) c ->
  exists h', listRelease h copy = Some h' /\ nodes h' = m0 /\
    freed h' = freed h ++ frees copy c.*2.
Proof.
  intros Hc [F1 F2]. destruct (listRelease_spec h copy c Hc) as (h' & E & Hf & Hd).
  exists h'. split; [done|]. split; [|done]. apply map_eq. intros p. rewrite Hd.
  case_decide as Hp; [symmetry; apply F2; [done|apply not_elem_of_nil]|by rewrite F1].
Qed.

Lemma listDup_loop_spec m0 f0 orig : forall b a c h copy fuel,
  is_list m0 orig (a ++ b) -> is_list (nodes h) copy c -> same_methods orig copy ->
  mapM (dup_value orig) a.*2 = Some c.*2 -> framed m0 [] (nodes h) c -> freed h = f0 ->
  (length b < fuel)%nat ->
  dup_result m0 f0 orig (a ++ b).*2
    (listDup_loop zmalloc fuel h copy (mkIter (first b 0) AL_START_HEAD)).
Proof.
  induction b as [|[p w] b IH]; intros a c h copy fuel Ho Hc M Hm Hf Hfr Hlt;
    (destruct fuel; [simpl in *; lia|]).
  - left. exists copy, c, h. rewrite app_nil_r in *. done.
  - destruct (old_parts (mkHeap m0 []) _ _ _ _ _ Ho) as (Hd & _ & _ & Hp).
    assert (deref h p = Some (mkNode (final a 0) (first b 0) w)) as Hd'.
    { unfold deref in *. destruct (Z.eqb_spec p 0); [done|]. simpl in Hd. rewrite <- Hd.
      destruct Hf as [Hf1 Hf2]. rewrite Hf1; [done|]. intros Hin.
      rewrite Hf2 in Hd; [done|done|apply not_elem_of_nil]. }
    assert (l_dup copy = l_dup orig) as Hdup by apply M.
    assert (l_free copy = l_free orig) as Hfree by apply M.
    simpl. unfold listNext. simpl. destruct (Z.eqb_spec p 0); [lia|]. simpl.
    rewrite Hd'. step. destruct (Z.eqb_spec p 0); [lia|]. rewrite Hd'. step.
    simpl n_value. simpl n_next. rewrite Hdup. fold (dup_value orig w).
    assert (forall h1 copy1 c1, is_list (nodes h1) copy1 c1 -> l_free copy1 = l_free orig ->
      framed m0 [] (nodes h1) c1 -> freed h1 = f0 -> c1.*2 = c.*2 ->
      (dup_value orig w = None \/ exists m, zmalloc m = None) ->
      dup_result m0 f0 orig (a ++ (p, w) :: b).*2 (h2 ← listRelease h1 copy1; Some (None, h2))) as Hfail.
    { intros h1 copy1 c1 H1 Hf1 F1 E1 Ec Hwhy.
      destruct (release_framed m0 h1 copy1 c1 H1 F1) as (h2 & -> & Hn & Hf2). step. right.
      exists h2, (length a), c.*2. split; [done|]. split; [done|].
      rewrite fmap_app. replace (length a) with (length a.*2) by apply length_fmap.
      rewrite take_app_length. split; [done|]. split.
      - rewrite Hf2, E1, Ec. unfold frees. by rewrite Hf1.
      - exists w. split; [|done].
        rewrite lookup_app_r by lia. by rewrite Nat.sub_diag. }
    destruct (dup_value orig w) as [v|] eqn:Ev; [|by eapply Hfail; eauto].
    pose proof (listAddNodeTail_spec zmalloc Hz h copy c v Hc) as Hi. unfold inserted in Hi.
    destruct (zmalloc (nodes h)) as [node|] eqn:En.
    + destruct Hi as (copy1 & h1 & -> & H1 & M1 & R1 & Hf1). step.
      replace (a ++ (p, w) :: b) with ((a ++ [(p, w)]) ++ b) in * by by rewrite <- app_assoc.
      apply (IH _ (c ++ [(node, v)]) h1 copy1 fuel); [done|done| | | |congruence|simpl in Hlt; lia].
      * destruct M as (?&?&?), M1 as (?&?&?). repeat split; congruence.
      * rewrite mapM_Some in Hm |- *. rewrite !fmap_app. apply Forall2_app; [done|].
        by apply Forall2_cons.
      * apply framed_trans with (nodes h) c; [done| |set_solver].
        apply Hz in En as [_ En]. rewrite app_nil_r in R1. split; intros q; rewrite fmap_app; simpl; intros Hq.
        -- rewrite decide_False by set_solver. apply R1. set_solver.
        -- intros Hn. assert (q = node) as -> by set_solver. done.
    + rewrite Hi. step. by eapply Hfail; eauto.
Qed.

End Dup.

