(* ===== verification/Ziplist.v ===== *)
(** The compressed list of [src/redis-3.0.0/src/ziplist.c]: small lists, hashes
    and sorted sets kept as one block of bytes.  A block is a header (its size,
    the offset of the last entry, the number of entries), the entries, and the
    byte 255; an entry is the size of the entry before it (1 or 5 bytes), an
    encoding with the length (1, 2 or 5 bytes), and the data.

    The state is the block; a pointer into it is an offset.  A read or a write
    outside the block is [None], and so is a failed assertion.  The host is
    little-endian, so the [intrev*ifbe] and [memrev*ifbe] do nothing. *)
From S2P Require Import Prelude Util.
Local Open Scope c_scope.

Definition ZIP_END : Z := 255.
Definition ZIP_BIGLEN : Z := 254.
Definition ZIP_STR_MASK : Z := 0xc0.
Definition ZIP_STR_06B : Z := Z.shiftl 0 6.
Definition ZIP_STR_14B : Z := Z.shiftl 1 6.
Definition ZIP_STR_32B : Z := Z.shiftl 2 6.
Definition ZIP_INT_16B : Z := 0xc0 .| (Z.shiftl 0 4).
Definition ZIP_INT_32B : Z := 0xc0 .| (Z.shiftl 1 4).
Definition ZIP_INT_64B : Z := 0xc0 .| (Z.shiftl 2 4).
Definition ZIP_INT_24B : Z := 0xc0 .| (Z.shiftl 3 4).
Definition ZIP_INT_8B : Z := 0xfe.
Definition ZIP_INT_IMM_MASK : Z := 0x0f.
Definition ZIP_INT_IMM_MIN : Z := 0xf1.
Definition ZIP_INT_IMM_MAX : Z := 0xfd.
Definition INT24_MAX : Z := 0x7fffff.
Definition INT24_MIN : Z := - INT24_MAX - 1.
Definition UINT16_MAX : Z := 65535.
Definition UCHAR_MAX : Z := 255.
Definition ZIPLIST_HEADER_SIZE : Z := 4 * 2 + 2.
Definition ZIPLIST_HEAD : Z := 0.
Definition ZIPLIST_TAIL : Z := 1.

Definition ZIP_IS_STR (enc : Z) : bool := enc .& ZIP_STR_MASK <? ZIP_STR_MASK.

(** ** The header *)

Definition get_word (n : nat) (zl : list Z) (off : Z) : option Z :=
  bs ← mem_read zl off (Z.of_nat n); Some (le_decode bs).

Definition ZIPLIST_BYTES (zl : list Z) : option Z := get_word 4 zl 0.
Definition ZIPLIST_TAIL_OFFSET (zl : list Z) : option Z := get_word 4 zl 4.
Definition ZIPLIST_LENGTH (zl : list Z) : option Z := get_word 2 zl 8.
Definition set_bytes (zl : list Z) (v : Z) : option (list Z) := mem_write zl 0 (le_encode 4 v).
Definition set_tail (zl : list Z) (v : Z) : option (list Z) := mem_write zl 4 (le_encode 4 v).
Definition set_length (zl : list Z) (v : Z) : option (list Z) := mem_write zl 8 (le_encode 2 v).

Definition ZIPLIST_ENTRY_HEAD : Z := ZIPLIST_HEADER_SIZE.
Definition ZIPLIST_ENTRY_TAIL (zl : list Z) : option Z := ZIPLIST_TAIL_OFFSET zl.
Definition ZIPLIST_ENTRY_END (zl : list Z) : option Z :=
  n ← ZIPLIST_BYTES zl; Some (n - 1).

Definition ZIPLIST_INCR_LENGTH (zl : list Z) (incr : Z) : option (list Z) :=
  n ← ZIPLIST_LENGTH zl;
  if n <? UINT16_MAX then set_length zl (u16 (n + incr)) else Some zl.

(** ** Encoding and decoding the fields of an entry *)

(** [typedef struct zlentry]. *)
Record zlentry := mk_zlentry {
  e_prevrawlensize : Z; e_prevrawlen : Z;
  e_lensize : Z; e_len : Z; e_headersize : Z; e_encoding : Z; e_p : Z }.

Definition ZIP_ENTRY_ENCODING (zl : list Z) (ptr : Z) : option Z :=
  c ← znth zl ptr; Some (if c <? ZIP_STR_MASK then c .& ZIP_STR_MASK else c).

Definition zipIntSize (encoding : Z) : Z :=
  if encoding =? ZIP_INT_8B then 1
  else if encoding =? ZIP_INT_16B then 2
  else if encoding =? ZIP_INT_24B then 3
  else if encoding =? ZIP_INT_32B then 4
  else if encoding =? ZIP_INT_64B then 8
  else 0.

(** The bytes [buf[0..len)] of [zipEncodeLength]; their number is what it
    returns. *)
Definition zipEncodeLength_buf (encoding rawlen : Z) : list Z :=
  if ZIP_IS_STR encoding then
    if rawlen <=? 0x3f then [ZIP_STR_06B .| rawlen]
    else if rawlen <=? 0x3fff then
      [ZIP_STR_14B .| ((rawlen >> 8) .& 0x3f); rawlen .& 0xff]
    else
      [ZIP_STR_32B; (rawlen >> 24) .& 0xff; (rawlen >> 16) .& 0xff; (rawlen >> 8) .& 0xff;
       rawlen .& 0xff]
  else [encoding].

(** With [p == NULL] only the length; otherwise it is written at [p]. *)
Definition zipEncodeLength_len (encoding rawlen : Z) : Z :=
  zlen (zipEncodeLength_buf encoding rawlen).
Definition zipEncodeLength (zl : list Z) (p encoding rawlen : Z) : option (list Z * Z) :=
  zl ← mem_write zl p (zipEncodeLength_buf encoding rawlen);
  Some (zl, zipEncodeLength_len encoding rawlen).

(** The result is [(encoding, lensize, len)]; a shift into the sign bit of an
    [int] is undefined. *)
Definition ZIP_DECODE_LENGTH (zl : list Z) (ptr : Z) : option (Z * Z * Z) :=
  encoding ← ZIP_ENTRY_ENCODING zl ptr;
  if encoding <? ZIP_STR_MASK then
    if encoding =? ZIP_STR_06B then
      c0 ← znth zl ptr; Some (encoding, 1, c0 .& 0x3f)
    else if encoding =? ZIP_STR_14B then
      c0 ← znth zl ptr; c1 ← znth zl (ptr + 1);
      Some (encoding, 2, Z.shiftl (c0 .& 0x3f) 8 .| c1)
    else if encoding =? ZIP_STR_32B then
      c1 ← znth zl (ptr + 1); c2 ← znth zl (ptr + 2);
      c3 ← znth zl (ptr + 3); c4 ← znth zl (ptr + 4);
      if 128 <=? c1 then None
      else Some (encoding, 5, Z.shiftl c1 24 .| Z.shiftl c2 16 .| Z.shiftl c3 8 .| c4)
    else None
  else Some (encoding, 1, zipIntSize encoding).

Definition zipPrevEncodeLength_len (len : Z) : Z := if len <? ZIP_BIGLEN then 1 else 4 + 1.
Definition zipPrevEncodeLength (zl : list Z) (p len : Z) : option (list Z * Z) :=
  if len <? ZIP_BIGLEN then zl ← mem_write zl p [u8 len]; Some (zl, 1)
  else
    zl ← mem_write zl p [ZIP_BIGLEN];
    zl ← mem_write zl (p + 1) (le_encode 4 len);
    Some (zl, 1 + 4).

Definition zipPrevEncodeLengthForceLarge (zl : list Z) (p len : Z) : option (list Z) :=
  zl ← mem_write zl p [ZIP_BIGLEN]; mem_write zl (p + 1) (le_encode 4 len).

Definition ZIP_DECODE_PREVLENSIZE (zl : list Z) (ptr : Z) : option Z :=
  c ← znth zl ptr; Some (if c <? ZIP_BIGLEN then 1 else 5).

(** The result is [(prevlensize, prevlen)]. *)
Definition ZIP_DECODE_PREVLEN (zl : list Z) (ptr : Z) : option (Z * Z) :=
  prevlensize ← ZIP_DECODE_PREVLENSIZE zl ptr;
  if prevlensize =? 1 then c ← znth zl ptr; Some (prevlensize, c)
  else bs ← mem_read zl (ptr + 1) 4; Some (prevlensize, le_decode bs).

Definition zipPrevLenByteDiff (zl : list Z) (p len : Z) : option Z :=
  prevlensize ← ZIP_DECODE_PREVLENSIZE zl p;
  Some (s32 (zipPrevEncodeLength_len len -[32] prevlensize)).

Definition zipRawEntryLength (zl : list Z) (p : Z) : option Z :=
  prevlensize ← ZIP_DECODE_PREVLENSIZE zl p;
  '(encoding, lensize, len) ← ZIP_DECODE_LENGTH zl (p + prevlensize);
  Some (u32 (prevlensize + lensize + len)).

(** [None] inside is the result 0; otherwise [*v] and [*encoding]. *)
Definition zipTryEncoding (entry : list Z) (entrylen : Z) : option (option (Z * Z)) :=
  if (32 <=? entrylen) || (entrylen =? 0) then Some None
  else
    '(ok, value) ← string2ll entry entrylen;
    if ok =? 0 then Some None
    else
      value ← value;
      let encoding :=
        if (0 <=? value) && (value <=? 12) then u8 (ZIP_INT_IMM_MIN + value)
        else if (-128 <=? value) && (value <=? 127) then ZIP_INT_8B
        else if (-32768 <=? value) && (value <=? 32767) then ZIP_INT_16B
        else if (INT24_MIN <=? value) && (value <=? INT24_MAX) then ZIP_INT_24B
        else if (-2147483648 <=? value) && (value <=? 2147483647) then ZIP_INT_32B
        else ZIP_INT_64B in
      Some (Some (value, encoding)).

Definition zipSaveInteger (zl : list Z) (p value encoding : Z) : option (list Z) :=
  if encoding =? ZIP_INT_8B then mem_write zl p (le_encode 1 (s8 value))
  else if encoding =? ZIP_INT_16B then mem_write zl p (le_encode 2 (s16 value))
  else if encoding =? ZIP_INT_24B then
    let i32 := s32 (Z.shiftl value 8) in
    mem_write zl p (drop 1 (le_encode 4 i32))
  else if encoding =? ZIP_INT_32B then mem_write zl p (le_encode 4 (s32 value))
  else if encoding =? ZIP_INT_64B then mem_write zl p (le_encode 8 (s64 value))
  else if (ZIP_INT_IMM_MIN <=? encoding) && (encoding <=? ZIP_INT_IMM_MAX) then Some zl
  else None.

Definition zipLoadInteger (zl : list Z) (p encoding : Z) : option Z :=
  if encoding =? ZIP_INT_8B then bs ← mem_read zl p 1; Some (s8 (le_decode bs))
  else if encoding =? ZIP_INT_16B then bs ← mem_read zl p 2; Some (s16 (le_decode bs))
  else if encoding =? ZIP_INT_32B then bs ← mem_read zl p 4; Some (s32 (le_decode bs))
  else if encoding =? ZIP_INT_24B then
    bs ← mem_read zl p 3; Some (s32 (le_decode (0 :: bs)) >> 8)
  else if encoding =? ZIP_INT_64B then bs ← mem_read zl p 8; Some (s64 (le_decode bs))
  else if (ZIP_INT_IMM_MIN <=? encoding) && (encoding <=? ZIP_INT_IMM_MAX) then
    Some ((encoding .& ZIP_INT_IMM_MASK) - 1)
  else None.

Definition zipEntry (zl : list Z) (p : Z) : option zlentry :=
  '(prevrawlensize, prevrawlen) ← ZIP_DECODE_PREVLEN zl p;
  '(encoding, lensize, len) ← ZIP_DECODE_LENGTH zl (p + prevrawlensize);
  Some (mk_zlentry prevrawlensize prevrawlen lensize len
          (prevrawlensize + lensize) encoding p).

(** ** Operations *)

Section Allocator.
(** The contents of fresh memory. *)
Context (junk : nat -> Z).

Definition ziplistNew : option (list Z) :=
  let bytes := ZIPLIST_HEADER_SIZE + 1 in
  let zl := realloc junk [] bytes in
  zl ← set_bytes zl bytes;
  zl ← set_tail zl ZIPLIST_HEADER_SIZE;
  zl ← set_length zl 0;
  zset zl (bytes - 1) ZIP_END.

Definition ziplistResize (zl : list Z) (len : Z) : option (list Z) :=
  let zl := realloc junk zl len in
  zl ← set_bytes zl len;
  zset zl (len - 1) ZIP_END.

Fixpoint cascade_loop (fuel : nat) (zl : list Z) (p curlen : Z) : option (list Z) :=
  match fuel with
  | O => None
  | S fuel =>
      c ← znth zl p;
      if c =? ZIP_END then Some zl
      else
        cur ← zipEntry zl p;
        let rawlen := u32 (e_headersize cur + e_len cur) in
        let rawlensize := zipPrevEncodeLength_len rawlen in
        c ← znth zl (p + rawlen);
        if c =? ZIP_END then Some zl
        else
          next ← zipEntry zl (p + rawlen);
          if e_prevrawlen next =? rawlen then Some zl
          else if e_prevrawlensize next <? rawlensize then
            let extra := rawlensize - e_prevrawlensize next in
            zl ← ziplistResize zl (u32 (curlen + extra));
            let np := p + rawlen in
            let noffset := np in
            tail ← ZIPLIST_TAIL_OFFSET zl;
            zl ← (if negb (tail =? np) then set_tail zl (tail +[32] extra) else Some zl);
            zl ← memmove zl (np + rawlensize) (np + e_prevrawlensize next)
                   (curlen -[64] noffset -[64] e_prevrawlensize next -[64] 1);
            '(zl, _) ← zipPrevEncodeLength zl np rawlen;
            cascade_loop fuel zl (p + rawlen) (curlen + extra)
          else if rawlensize <? e_prevrawlensize next then
            zipPrevEncodeLengthForceLarge zl (p + rawlen) rawlen
          else
            '(zl, _) ← zipPrevEncodeLength zl (p + rawlen) rawlen; Some zl
  end.

Definition __ziplistCascadeUpdate (zl : list Z) (p : Z) : option (list Z) :=
  curlen ← ZIPLIST_BYTES zl;
  cascade_loop (S (length zl)) zl p curlen.

(** [for (i = 0; p[0] != ZIP_END && i < num; i++)]: the pointer and
    [deleted]. *)
Fixpoint skip_entries (fuel : nat) (zl : list Z) (p i num : Z) : option (Z * Z) :=
  match fuel with
  | O => None
  | S fuel =>
      c ← znth zl p;
      if negb (c =? ZIP_END) && (i <? num) then
        n ← zipRawEntryLength zl p;
        skip_entries fuel zl (p + n) (i + 1) num
      else Some (p, i)
  end.

(** [if (p[0] != ZIP_END)] of the deletion: the entry [p] after the deleted ones
    stores the size of the entry before them, and the tail moves to the front.
    The result is the block and [nextdiff]. *)
Definition pull_tail (zl : list Z) (first : zlentry) (p totlen : Z) : option (list Z * Z) :=
  nextdiff ← zipPrevLenByteDiff zl p (e_prevrawlen first);
  let p := p - nextdiff in
  '(zl, _) ← zipPrevEncodeLength zl p (e_prevrawlen first);
  off ← ZIPLIST_TAIL_OFFSET zl;
  zl ← set_tail zl (off -[32] totlen);
  tail ← zipEntry zl p;
  c ← znth zl (p + u32 (e_headersize tail + e_len tail));
  zl ← (if negb (c =? ZIP_END) then
          off ← ZIPLIST_TAIL_OFFSET zl; set_tail zl (off +[32] nextdiff)
        else Some zl);
  bytes ← ZIPLIST_BYTES zl;
  zl ← memmove zl (e_p first) p (bytes -[64] p -[64] 1);
  Some (zl, nextdiff).

Definition __ziplistDelete (zl : list Z) (p num : Z) : option (list Z) :=
  first ← zipEntry zl p;
  '(p, deleted) ← skip_entries (S (length zl)) zl p 0 num;
  let totlen := u32 (p - e_p first) in
  if 0 <? totlen then
    c ← znth zl p;
    '(zl, nextdiff) ←
      (if negb (c =? ZIP_END) then pull_tail zl first p totlen
       else
         zl ← set_tail zl (u32 (e_p first - e_prevrawlen first));
         Some (zl, 0));
    let offset := e_p first in
    bytes ← ZIPLIST_BYTES zl;
    zl ← ziplistResize zl (u32 (bytes - totlen + nextdiff));
    zl ← ZIPLIST_INCR_LENGTH zl (- deleted);
    if negb (nextdiff =? 0) then __ziplistCascadeUpdate zl offset else Some zl
  else Some zl.

(** The size of the entry before the one that is inserted. *)
Definition insert_prevlen (zl : list Z) (p : Z) : option Z :=
  c ← znth zl p;
  if negb (c =? ZIP_END) then '(_, prevlen) ← ZIP_DECODE_PREVLEN zl p; Some prevlen
  else
    ptail ← ZIPLIST_ENTRY_TAIL zl;
    c ← znth zl ptail;
    if negb (c =? ZIP_END) then zipRawEntryLength zl ptail else Some 0.

(** [if (p[0] != ZIP_END)] of the insertion: the tail moves to the back, and its
    first entry stores the size of the new one. *)
Definition push_tail (zl : list Z) (p curlen reqlen nextdiff : Z) : option (list Z) :=
  zl ← memmove zl (p + reqlen) (p - nextdiff) (u64 (curlen - p - 1 + nextdiff));
  '(zl, _) ← zipPrevEncodeLength zl (p + reqlen) (u32 reqlen);
  off ← ZIPLIST_TAIL_OFFSET zl;
  zl ← set_tail zl (off +[32] reqlen);
  tail ← zipEntry zl (p + reqlen);
  c ← znth zl (p + reqlen + u32 (e_headersize tail + e_len tail));
  if negb (c =? ZIP_END) then
    off ← ZIPLIST_TAIL_OFFSET zl; set_tail zl (off +[32] nextdiff)
  else Some zl.

(** The entry itself, written at [p]. *)
Definition write_entry (zl : list Z) (p prevlen encoding value : Z) (s : list Z) (slen : Z)
    : option (list Z) :=
  '(zl, n) ← zipPrevEncodeLength zl p prevlen;
  let p := p + n in
  '(zl, n) ← zipEncodeLength zl p encoding slen;
  let p := p + n in
  if ZIP_IS_STR encoding then bs ← mem_read s 0 slen; mem_write zl p bs
  else zipSaveInteger zl p value encoding.

Definition __ziplistInsert (zl : list Z) (p : Z) (s : list Z) (slen : Z) : option (list Z) :=
  curlen ← ZIPLIST_BYTES zl;
  prevlen ← insert_prevlen zl p;
  enc ← zipTryEncoding s slen;
  let '(value, encoding, reqlen) :=
    match enc with
    | Some (value, encoding) => (value, encoding, zipIntSize encoding)
    | None => (123456789, 0, slen)
    end in
  let reqlen := reqlen + zipPrevEncodeLength_len prevlen in
  let reqlen := reqlen + zipEncodeLength_len encoding slen in
  c ← znth zl p;
  nextdiff ← (if negb (c =? ZIP_END) then zipPrevLenByteDiff zl p (u32 reqlen) else Some 0);
  zl ← ziplistResize zl (u32 (curlen + reqlen + nextdiff));
  c ← znth zl p;
  zl ← (if negb (c =? ZIP_END) then push_tail zl p curlen reqlen nextdiff else set_tail zl p);
  zl ← (if negb (nextdiff =? 0) then __ziplistCascadeUpdate zl (p + reqlen) else Some zl);
  zl ← write_entry zl p prevlen encoding value s slen;
  ZIPLIST_INCR_LENGTH zl 1.

Definition ziplistPush (zl : list Z) (s : list Z) (slen where_ : Z) : option (list Z) :=
  p ← (if where_ =? ZIPLIST_HEAD then Some ZIPLIST_ENTRY_HEAD else ZIPLIST_ENTRY_END zl);
  __ziplistInsert zl p s slen.

Definition ziplistInsert (zl : list Z) (p : Z) (s : list Z) (slen : Z) : option (list Z) :=
  __ziplistInsert zl p s slen.

(** The block and [*p]. *)
Definition ziplistDelete (zl : list Z) (p : Z) : option (list Z * Z) :=
  let offset := p in
  zl ← __ziplistDelete zl p 1; Some (zl, offset).

(** [while (prevlen > 0 && index--)]: the pointer and the index. *)
Fixpoint index_back (fuel : nat) (zl : list Z) (p prevlen index : Z) : option (Z * Z) :=
  match fuel with
  | O => None
  | S fuel =>
      if 0 <? prevlen then
        if index =? 0 then Some (p, index - 1)
        else
          let p := p - prevlen in
          '(_, prevlen) ← ZIP_DECODE_PREVLEN zl p;
          index_back fuel zl p prevlen (index - 1)
      else Some (p, index)
  end.

(** [while (p[0] != ZIP_END && index--)]. *)
Fixpoint index_forward (fuel : nat) (zl : list Z) (p index : Z) : option (Z * Z) :=
  match fuel with
  | O => None
  | S fuel =>
      c ← znth zl p;
      if negb (c =? ZIP_END) then
        if index =? 0 then Some (p, index - 1)
        else
          n ← zipRawEntryLength zl p;
          index_forward fuel zl (p + n) (index - 1)
      else Some (p, index)
  end.

(** [None] inside is NULL; the negation of [INT_MIN] is undefined. *)
Definition ziplistIndex (zl : list Z) (index : Z) : option (option Z) :=
  '(p, index) ←
    (if index <? 0 then
       if index =? -2147483648 then None
       else
         let index := - index - 1 in
         p ← ZIPLIST_ENTRY_TAIL zl;
         c ← znth zl p;
         if negb (c =? ZIP_END) then
           '(_, prevlen) ← ZIP_DECODE_PREVLEN zl p;
           index_back (S (length zl)) zl p prevlen index
         else Some (p, index)
     else index_forward (S (length zl)) zl ZIPLIST_ENTRY_HEAD index);
  c ← znth zl p;
  Some (if (c =? ZIP_END) || (0 <? index) then None else Some p).

Definition ziplistDeleteRange (zl : list Z) (index num : Z) : option (list Z) :=
  p ← ziplistIndex zl (s32 index);
  match p with
  | None => Some zl
  | Some p => __ziplistDelete zl p num
  end.

Definition ziplistNext (zl : list Z) (p : Z) : option (option Z) :=
  c ← znth zl p;
  if c =? ZIP_END then Some None
  else
    n ← zipRawEntryLength zl p;
    c ← znth zl (p + n);
    Some (if c =? ZIP_END then None else Some (p + n)).

Definition ziplistPrev (zl : list Z) (p : Z) : option (option Z) :=
  c ← znth zl p;
  if c =? ZIP_END then
    p ← ZIPLIST_ENTRY_TAIL zl;
    c ← znth zl p;
    Some (if c =? ZIP_END then None else Some p)
  else if p =? ZIPLIST_ENTRY_HEAD then Some None
  else
    '(_, prevlen) ← ZIP_DECODE_PREVLEN zl p;
    if 0 <? prevlen then Some (Some (p - prevlen)) else None.

(** What [ziplistGet] stores: [*sstr] and [*slen], or [*sval]. *)
Inductive zvalue := ZStr (sstr slen : Z) | ZInt (sval : Z).

(** [None] inside is the result 0. *)
Definition ziplistGet (zl : list Z) (p : option Z) : option (option zvalue) :=
  match p with
  | None => Some None
  | Some p =>
      c ← znth zl p;
      if c =? ZIP_END then Some None
      else
        entry ← zipEntry zl p;
        if ZIP_IS_STR (e_encoding entry)
        then Some (Some (ZStr (p + e_headersize entry) (e_len entry)))
        else
          v ← zipLoadInteger zl (p + e_headersize entry) (e_encoding entry);
          Some (Some (ZInt v))
  end.

(** [memcmp(q, s, n) == 0], [q] in the block. *)
Definition mem_equal (zl : list Z) (q : Z) (s : list Z) (n : Z) : option bool :=
  a ← mem_read zl q n; b ← mem_read s 0 n; Some (bool_decide (a = b)).

Definition ziplistCompare (zl : list Z) (p : Z) (sstr : list Z) (slen : Z) : option bool :=
  c ← znth zl p;
  if c =? ZIP_END then Some false
  else
    entry ← zipEntry zl p;
    if ZIP_IS_STR (e_encoding entry) then
      if e_len entry =? slen then mem_equal zl (p + e_headersize entry) sstr slen
      else Some false
    else
      enc ← zipTryEncoding sstr slen;
      match enc with
      | Some (sval, _) =>
          zval ← zipLoadInteger zl (p + e_headersize entry) (e_encoding entry);
          Some (zval =? sval)
      | None => Some false
      end.

(** One comparison of [ziplistFind]: whether the entry is the one sought, and
    [vll], [vencoding] afterwards. *)
Definition find_here (zl : list Z) (q encoding len : Z) (vstr : list Z) (vlen vll vencoding : Z)
    : option (bool * Z * Z) :=
  if ZIP_IS_STR encoding then
    b ← (if len =? vlen then mem_equal zl q vstr vlen else Some false);
    Some (b, vll, vencoding)
  else
    '(vll, vencoding) ←
      (if vencoding =? 0 then
         enc ← zipTryEncoding vstr vlen;
         match enc with
         | Some (vll, vencoding) => if vencoding =? 0 then None else Some (vll, vencoding)
         | None => Some (vll, UCHAR_MAX)
         end
       else Some (vll, vencoding));
    if negb (vencoding =? UCHAR_MAX) then
      ll ← zipLoadInteger zl q encoding; Some (ll =? vll, vll, vencoding)
    else Some (false, vll, vencoding).

Fixpoint find_loop (fuel : nat) (zl : list Z) (p : Z) (vstr : list Z) (vlen skip : Z)
    (skipcnt vll vencoding : Z) : option (option Z) :=
  match fuel with
  | O => None
  | S fuel =>
      c ← znth zl p;
      if c =? ZIP_END then Some None
      else
        prevlensize ← ZIP_DECODE_PREVLENSIZE zl p;
        '(encoding, lensize, len) ← ZIP_DECODE_LENGTH zl (p + prevlensize);
        let q := p + prevlensize + lensize in
        if skipcnt =? 0 then
          '(found, vll, vencoding) ← find_here zl q encoding len vstr vlen vll vencoding;
          if (found : bool) then Some (Some p)
          else find_loop fuel zl (q + len) vstr vlen skip (s32 skip) vll vencoding
        else find_loop fuel zl (q + len) vstr vlen skip (skipcnt - 1) vll vencoding
  end.

Definition ziplistFind (zl : list Z) (p : Z) (vstr : list Z) (vlen skip : Z)
    : option (option Z) :=
  find_loop (S (length zl)) zl p vstr vlen skip 0 0 0.

(** The entries counted from the head. *)
Fixpoint count_loop (fuel : nat) (zl : list Z) (p len : Z) : option Z :=
  match fuel with
  | O => None
  | S fuel =>
      c ← znth zl p;
      if c =? ZIP_END then Some len
      else
        n ← zipRawEntryLength zl p;
        count_loop fuel zl (p + n) (len +[32] 1)
  end.

(** The length, and the block, whose header the call may correct. *)
Definition ziplistLen (zl : list Z) : option (Z * list Z) :=
  n ← ZIPLIST_LENGTH zl;
  if n <? UINT16_MAX then Some (n, zl)
  else
    len ← count_loop (S (length zl)) zl ZIPLIST_HEADER_SIZE 0;
    zl ← (if len <? UINT16_MAX then set_length zl len else Some zl);
    Some (len, zl).

Definition ziplistBlobLen (zl : list Z) : option Z := ZIPLIST_BYTES zl.
End Allocator.
