(* ===== verification/ZiplistRep.v ===== *)
(** The bytes of a compressed list: the canonical encoding of an entry, the
    layout of a list of entries in the block, and what the decoding functions
    of [Ziplist] read in it. *)
From S2P Require Import Prelude Util Ziplist.
Local Open Scope c_scope.

(** ** The canonical encoding of a byte string *)

(** The integer a string is the canonical notation of. *)
Definition int_of (s : list Z) : option Z :=
  if 21 <? zlen s then None
  else if decide (in_s 64 (sval s) /\ s = sdec (sval s)) then Some (sval s) else None.

(** The smallest encoding of an integer, and its bytes after the encoding. *)
Definition int_code (v : Z) : Z :=
  if (0 <=? v) && (v <=? 12) then ZIP_INT_IMM_MIN + v
  else if (-128 <=? v) && (v <=? 127) then ZIP_INT_8B
  else if (-32768 <=? v) && (v <=? 32767) then ZIP_INT_16B
  else if (INT24_MIN <=? v) && (v <=? INT24_MAX) then ZIP_INT_24B
  else if (-2147483648 <=? v) && (v <=? 2147483647) then ZIP_INT_32B
  else ZIP_INT_64B.

Definition int_bytes (v : Z) : list Z := le_encode (Z.to_nat (zipIntSize (int_code v))) v.

Definition code (s : list Z) : Z :=
  match int_of s with Some v => int_code v | None => 0 end.
Definition payload (s : list Z) : list Z :=
  match int_of s with Some v => int_bytes v | None => s end.
Definition hdr (s : list Z) : list Z := zipEncodeLength_buf (code s) (zlen s).

(** The encoding [ZIP_DECODE_LENGTH] reports: strings show their mask only. *)
Definition shown_code (s : list Z) : Z :=
  match int_of s with
  | Some v => int_code v
  | None => if zlen s <=? 0x3f then ZIP_STR_06B
            else if zlen s <=? 0x3fff then ZIP_STR_14B else ZIP_STR_32B
  end.

(** Sizes below 2 GiB. *)
Definition small (s : list Z) : Prop := zlen s < 2 ^ 31.

Lemma int_of_Some s v : int_of s = Some v <-> in_s 64 v /\ s = sdec v.
Proof.
  unfold int_of. destruct (Z.ltb_spec 21 (zlen s)); [|case_decide as H1]; split.
  - done.
  - intros [Hv ->]. pose proof (sdec_zlen v Hv). lia.
  - intros [= <-]. done.
  - intros [Hv ->]. by rewrite sval_sdec.
  - done.
  - intros [Hv ->]. destruct H1. by rewrite !sval_sdec.
Qed.

Lemma int_of_sdec v : in_s 64 v -> int_of (sdec v) = Some v.
Proof. intros H. by apply int_of_Some. Qed.

(** The cases of [int_code], with the range and the size of each. *)
Lemma int_code_cases v : in_s 64 v ->
  (0 <= v <= 12 /\ int_code v = ZIP_INT_IMM_MIN + v) \/
  (exists c n, In (c, n) [(ZIP_INT_8B, 1); (ZIP_INT_16B, 2); (ZIP_INT_24B, 3); (ZIP_INT_32B, 4);
     (ZIP_INT_64B, 8)] /\ int_code v = c /\ in_s (8 * n) v).
Proof.
  intros Hv. unfold int_code.
  destruct ((0 <=? v) && (v <=? 12)) eqn:E0; [left; split; [lia|done]|right].
  destruct ((-128 <=? v) && (v <=? 127)) eqn:E1.
  { exists ZIP_INT_8B, 1. split; [by left|split; [done|cint]]. }
  destruct ((-32768 <=? v) && (v <=? 32767)) eqn:E2.
  { exists ZIP_INT_16B, 2. split; [by right; left|split; [done|cint]]. }
  destruct ((INT24_MIN <=? v) && (v <=? INT24_MAX)) eqn:E3.
  { exists ZIP_INT_24B, 3. split; [by do 2 right; left|split; [done|]].
    unfold INT24_MIN, INT24_MAX in E3. cint. }
  destruct ((-2147483648 <=? v) && (v <=? 2147483647)) eqn:E4.
  { exists ZIP_INT_32B, 4. split; [by do 3 right; left|split; [done|cint]]. }
  exists ZIP_INT_64B, 8. split; [by do 4 right; left|done].
Qed.

(** *** [zipTryEncoding] *)

Lemma zipTryEncoding_spec s :
  zipTryEncoding s (zlen s) = Some (match int_of s with Some v => Some (v, int_code v) | None => None end).
Proof.
  unfold zipTryEncoding. destruct ((32 <=? zlen s) || (zlen s =? 0)) eqn:E.
  - destruct (int_of s) as [v|] eqn:Hi; [|done]. apply int_of_Some in Hi as [Hv ->].
    pose proof (sdec_zlen v Hv). lia.
  - destruct (string2ll_spec s) as [(v & Hv & Hs & ->)|[Hn ->]]; step.
    + rewrite (proj2 (int_of_Some s v)) by done. simpl Z.eqb. cbv iota. step.
      do 3 f_equal. unfold int_code. destruct ((0 <=? v) && (v <=? 12)) eqn:E0; [|done].
      apply wrap_small. unfold ZIP_INT_IMM_MIN. cint.
    + destruct (int_of s) as [v|] eqn:Hi; [|done]. apply int_of_Some in Hi as [Hv Hs].
      by eapply Hn in Hs.
Qed.

(** *** Bytes of a length *)

Lemma byte_part x n : 0 <= n -> (x >> n) .& 0xff = x / 2 ^ n mod 256.
Proof. intros. change 0xff with (Z.ones 8). by rewrite Z.land_ones, Z.shiftr_div_pow2. Qed.

Lemma low_byte x : x .& 0xff = x mod 256.
Proof. change 0xff with (Z.ones 8). by rewrite Z.land_ones. Qed.

Lemma shiftl_lor a b n : 0 <= n -> 0 <= b < 2 ^ n -> Z.shiftl a n .| b = a * 2 ^ n + b.
Proof. intros. rewrite Z.shiftl_mul_pow2 by done. by apply high_lor_low. Qed.

Lemma hdr_str s : int_of s = None ->
  hdr s = if zlen s <=? 0x3f then [zlen s]
          else if zlen s <=? 0x3fff then [64 + zlen s / 256; zlen s mod 256]
          else [128; zlen s / 2 ^ 24 mod 256; zlen s / 2 ^ 16 mod 256; zlen s / 2 ^ 8 mod 256;
                zlen s mod 256].
Proof.
  intros Hi. unfold hdr, code, zipEncodeLength_buf. rewrite Hi. pose proof (zlen_nonneg s).
  simpl ZIP_IS_STR. cbv iota. destruct (Z.leb_spec (zlen s) 0x3f); [done|].
  destruct (Z.leb_spec (zlen s) 0x3fff).
  - f_equal; [|by rewrite low_byte].
    change 0x3f with (Z.ones 6). rewrite Z.land_ones, Z.shiftr_div_pow2 by lia.
    rewrite Z.mod_small by (change (2 ^ 8) with 256; change (2 ^ 6) with 64; split; [apply Z.div_pos; lia|
      apply Z.div_lt_upper_bound; lia]).
    unfold ZIP_STR_14B. rewrite shiftl_lor; [by change (2 ^ 6) with 64|lia|].
    change (2 ^ 8) with 256. split; [apply Z.div_pos; lia|apply Z.div_lt_upper_bound; cint].
  - by rewrite !byte_part, low_byte by lia.
Qed.

(** *** Reading an entry *)

Lemma znth_skip {A} (a l : list A) k : 0 <= k -> znth (a ++ l) (zlen a + k) = znth l k.
Proof. intros. rewrite znth_app_r by lia. f_equal. lia. Qed.

Lemma znth_skip_0 {A} (a l : list A) : znth (a ++ l) (zlen a) = znth l 0.
Proof. rewrite <- (znth_skip a l 0) by lia. f_equal. lia. Qed.

Lemma int_hdr s v : int_of s = Some v -> hdr s = [int_code v].
Proof.
  intros Hi. unfold hdr, code. rewrite Hi. apply int_of_Some in Hi as [Hv _].
  unfold zipEncodeLength_buf. replace (ZIP_IS_STR (int_code v)) with false; [done|].
  destruct (int_code_cases v Hv) as [[H ->]|(c & n & Hin & -> & _)].
  - assert (Hd : Forall (fun d => false = ZIP_IS_STR (ZIP_INT_IMM_MIN + d)) (seqZ 0 13)) by by_decide.
    rewrite Forall_forall in Hd. apply Hd, elem_of_seqZ. lia.
  - cbn [In] in Hin. by repeat destruct Hin as [[= <- <-]|Hin].
Qed.

Lemma int_code_range v : in_s 64 v -> 0xc0 <= int_code v < 255.
Proof.
  intros Hv. destruct (int_code_cases v Hv) as [[H ->]|(c & n & Hin & -> & _)].
  - unfold ZIP_INT_IMM_MIN. lia.
  - cbn [In] in Hin. repeat destruct Hin as [[= <- <-]|Hin]; try done; by vm_compute.
Qed.

Lemma int_payload s v : int_of s = Some v -> zlen (payload s) = zipIntSize (int_code v).
Proof.
  intros Hi. unfold payload, int_bytes. rewrite Hi. unfold zlen. rewrite le_encode_length.
  unfold zipIntSize. repeat case_match; lia.
Qed.

(** What is stored for an integer reads back as it. *)
Lemma sdecode n v : 0 < n -> in_s (8 * n) v ->
  swrap (8 * n) (le_decode (le_encode (Z.to_nat n) v)) = v.
Proof.
  intros Hn Hv. rewrite le_decode_encode, Z2Nat.id by lia.
  replace (256 ^ n) with (2 ^ (8 * n)) by (by rewrite Z.pow_mul_r by lia).
  rewrite <- (swrap_small (8 * n) v) at 2 by (done || lia).
  unfold swrap. f_equal. by rewrite Zplus_mod_idemp_l.
Qed.

Lemma sdecode24 v : in_s 24 v -> s32 (le_decode (0 :: le_encode 3 v)) >> 8 = v.
Proof.
  intros Hv. cbn [le_decode]. rewrite le_decode_encode, Z.shiftr_div_pow2 by lia.
  change (256 ^ Z.of_nat 3) with (2 ^ 24). unfold swrap.
  change (2 ^ (32 - 1)) with (128 * 2 ^ 24). change (2 ^ 32) with (256 * 2 ^ 24).
  change (2 ^ 8) with 256. unfold in_s in Hv. cbn [Z.sub Z.opp Z.add Z.pos_sub] in Hv.
  change (2 ^ 23) with 8388608 in Hv. change (2 ^ 24) with 16777216.
  destruct (Z.lt_ge_cases v 0).
  - assert (E : v mod 16777216 = v + 16777216)
      by (symmetry; apply (Z.mod_unique_pos v 16777216 (-1)); lia).
    rewrite E.
    assert (E2 : (0 + 256 * (v + 16777216) + 128 * 16777216) mod (256 * 16777216) =
      256 * v + 128 * 16777216) by (symmetry; apply (Z.mod_unique_pos _ _ 1); lia).
    rewrite E2. replace (256 * v + 128 * 16777216 - 128 * 16777216) with (v * 256) by lia.
    by rewrite Z.div_mul.
  - rewrite (Z.mod_small v) by lia. rewrite Z.mod_small by lia.
    replace (0 + 256 * v + 128 * 16777216 - 128 * 16777216) with (v * 256) by lia.
    by rewrite Z.div_mul.
Qed.

Lemma zipLoadInteger_spec a b s v q : int_of s = Some v -> q = zlen a ->
  zipLoadInteger (a ++ payload s ++ b) q (int_code v) = Some v.
Proof.
  intros Hi ->. assert (Hp : payload s = int_bytes v) by (unfold payload; by rewrite Hi).
  apply int_of_Some in Hi as [Hv _]. rewrite Hp. clear Hp s. unfold int_bytes.
  destruct (int_code_cases v Hv) as [[Hr ->]|(c & n & Hin & -> & Hn)].
  - assert (Hin : In v (seqZ 0 13)) by (apply list_elem_of_In, elem_of_seqZ; lia).
    cbn in Hin. by repeat destruct Hin as [<-|Hin].
  - cbn [In] in Hin. repeat destruct Hin as [[= <- <-]|Hin]; try done; unfold zipLoadInteger;
      repeat match goal with |- context [?x =? ?y] => change (x =? y) with true || change (x =? y) with false end;
      cbv iota; (rewrite mem_read_app; [|done|unfold zlen; by rewrite le_encode_length]); step; f_equal.
    + exact (sdecode 1 v eq_refl Hn).
    + exact (sdecode 2 v eq_refl Hn).
    + by apply sdecode24.
    + exact (sdecode 4 v eq_refl Hn).
    + exact (sdecode 8 v eq_refl Hn).
Qed.

Lemma shown_is_str s : ZIP_IS_STR (shown_code s) = bool_decide (int_of s = None).
Proof.
  unfold shown_code. destruct (int_of s) as [v|] eqn:Hi.
  - pose proof (int_hdr s v Hi) as H. unfold hdr, code, zipEncodeLength_buf in H. rewrite Hi in H.
    destruct (ZIP_IS_STR (int_code v)) eqn:E; [|done]. apply int_of_Some in Hi as [Hv _].
    exfalso. clear H. pose proof (int_code_range v Hv).
    unfold ZIP_IS_STR, ZIP_STR_MASK in E.
    assert (Hd : Forall (fun d => 0xc0 <= d .& 0xc0) (seqZ 0xc0 64)) by by_decide.
    rewrite Forall_forall in Hd. specialize (Hd (int_code v) ltac:(apply elem_of_seqZ; lia)). lia.
  - by repeat case_match.
Qed.

(** The size of the fields of an entry. *)
Definition dsize (s : list Z) : Z := zlen (hdr s) + zlen (payload s).

Lemma hdr_zlen s : int_of s = None ->
  zlen (hdr s) = if zlen s <=? 0x3f then 1 else if zlen s <=? 0x3fff then 2 else 5.
Proof. intros Hi. rewrite hdr_str by done. by repeat case_match. Qed.

Lemma dsize_pos s : 1 <= dsize s.
Proof.
  unfold dsize. pose proof (zlen_nonneg (payload s)).
  destruct (int_of s) as [v|] eqn:Hi.
  - rewrite (int_hdr s v Hi). change (zlen [int_code v]) with 1. lia.
  - rewrite hdr_zlen by done. repeat case_match; lia.
Qed.

Lemma ZIP_ENTRY_ENCODING_spec a r c :
  ZIP_ENTRY_ENCODING (a ++ c :: r) (zlen a) = Some (if c <? 0xc0 then c .& 0xc0 else c).
Proof. unfold ZIP_ENTRY_ENCODING. by rewrite znth_app_mid. Qed.

(** A byte with the mask of its kind of length. *)
Lemma mask_bits k x : 0 <= k < 3 -> 0 <= x < 64 ->
  (64 * k + x) .& 0xc0 = 64 * k /\ (64 * k + x) .& 0x3f = x.
Proof.
  intros Hk Hx.
  assert (Hd : Forall (fun k => Forall (fun x => (64 * k + x) .& 0xc0 = 64 * k /\
    (64 * k + x) .& 0x3f = x) (seqZ 0 64)) (seqZ 0 3)) by by_decide.
  rewrite Forall_forall in Hd. specialize (Hd k ltac:(apply elem_of_seqZ; lia)).
  rewrite Forall_forall in Hd. apply Hd, elem_of_seqZ. lia.
Qed.

(** The four bytes of a length, most significant first. *)
Lemma be_bytes n : 0 <= n < 2 ^ 31 ->
  n / 2 ^ 24 mod 256 < 128 /\
  Z.shiftl (n / 2 ^ 24 mod 256) 24 .| Z.shiftl (n / 2 ^ 16 mod 256) 16
    .| Z.shiftl (n / 2 ^ 8 mod 256) 8 .| n mod 256 = n.
Proof.
  intros Hn.
  assert (H1 : n / 2 ^ 24 mod 256 = n / 2 ^ 24)
    by (apply Z.mod_small; split; [apply Z.div_pos; lia|apply Z.div_lt_upper_bound; cint]).
  assert (E : forall a b, 0 <= b < 256 -> Z.shiftl a 8 .| b = a * 256 + b)
    by (intros; by rewrite shiftl_lor by (cbn; lia)).
  pose proof (Z.mod_pos_bound n 256 ltac:(lia)). pose proof (Z.mod_pos_bound (n / 2 ^ 8) 256 ltac:(lia)).
  pose proof (Z.mod_pos_bound (n / 2 ^ 16) 256 ltac:(lia)).
  assert (D1 : n = n / 2 ^ 8 * 256 + n mod 256) by (change (2 ^ 8) with 256; pose proof (Z.div_mod n 256); lia).
  assert (D2 : n / 2 ^ 8 = n / 2 ^ 16 * 256 + n / 2 ^ 8 mod 256)
    by (change (2 ^ 16) with (2 ^ 8 * 256); rewrite <- Z.div_div by lia; pose proof (Z.div_mod (n / 2 ^ 8) 256); lia).
  assert (D3 : n / 2 ^ 16 = n / 2 ^ 24 * 256 + n / 2 ^ 16 mod 256)
    by (change (2 ^ 24) with (2 ^ 16 * 256); rewrite <- Z.div_div by lia; pose proof (Z.div_mod (n / 2 ^ 16) 256); lia).
  split; [rewrite H1; apply Z.div_lt_upper_bound; cint|]. rewrite H1.
  replace (Z.shiftl (n / 2 ^ 24) 24) with (Z.shiftl (Z.shiftl (Z.shiftl (n / 2 ^ 24) 8) 8) 8)
    by by rewrite !Z.shiftl_shiftl by lia.
  replace (Z.shiftl (n / 2 ^ 16 mod 256) 16) with (Z.shiftl (Z.shiftl (n / 2 ^ 16 mod 256) 8) 8)
    by by rewrite !Z.shiftl_shiftl by lia.
  rewrite <- !Z.shiftl_lor. rewrite (E (n / 2 ^ 24)), <- D3 by lia.
  rewrite (E (n / 2 ^ 16)), <- D2 by lia. rewrite (E (n / 2 ^ 8)) by lia. lia.
Qed.

Lemma ZIP_DECODE_LENGTH_spec a s b q : small s -> q = zlen a ->
  ZIP_DECODE_LENGTH (a ++ hdr s ++ payload s ++ b) q =
    Some (shown_code s, zlen (hdr s), zlen (payload s)).
Proof.
  intros Hs ->. unfold ZIP_DECODE_LENGTH. pose proof (zlen_nonneg s).
  destruct (int_of s) as [v|] eqn:Hi.
  - rewrite (int_payload s v Hi), (int_hdr s v Hi). unfold shown_code. rewrite Hi.
    cbn [app]. rewrite ZIP_ENTRY_ENCODING_spec. step. unfold ZIP_STR_MASK.
    apply int_of_Some in Hi as [Hv _]. pose proof (int_code_range v Hv).
    assert (Hc : (int_code v <? 0xc0) = false) by lia. by rewrite !Hc.
  - assert (Hp : payload s = s) by (unfold payload; by rewrite Hi). rewrite Hp.
    rewrite (hdr_zlen s Hi), (hdr_str s Hi). unfold shown_code. rewrite Hi.
    destruct (Z.leb_spec (zlen s) 0x3f); [|destruct (Z.leb_spec (zlen s) 0x3fff)].
    + cbn [app]. rewrite ZIP_ENTRY_ENCODING_spec, znth_app_mid by done. step.
      destruct (mask_bits 0 (zlen s)) as [E1 E2]; [lia..|].
      change (64 * 0 + zlen s) with (zlen s) in *. rewrite (proj2 (Z.ltb_lt (zlen s) 0xc0)) by lia.
      rewrite E1, E2. done.
    + cbn [app]. rewrite ZIP_ENTRY_ENCODING_spec, znth_app_mid by done. step.
      assert (0 <= zlen s / 256 < 64) by (split; [apply Z.div_pos; lia|apply Z.div_lt_upper_bound; lia]).
      destruct (mask_bits 1 (zlen s / 256)) as [E1 E2]; [lia..|].
      change (64 * 1) with 64 in *. rewrite (proj2 (Z.ltb_lt (64 + _) 0xc0)) by lia. rewrite E1, E2.
      rewrite znth_skip by lia. change (znth (_ :: ?x :: ?r) 1) with (Some x). step.
      rewrite shiftl_lor by (pose proof (Z.mod_pos_bound (zlen s) 256); cbn; lia).
      change (2 ^ 8) with 256. rewrite Z.mul_comm, <- Z.div_mod by lia. done.
    + cbn [app]. rewrite ZIP_ENTRY_ENCODING_spec, !znth_skip by lia. step.
      change (znth (?x :: ?y :: ?z :: ?t :: ?r) 1) with (Some y).
      change (znth (?x :: ?y :: ?z :: ?t :: ?r) 2) with (Some z).
      change (znth (?x :: ?y :: ?z :: ?t :: ?r) 3) with (Some t).
      change (znth (?x :: ?y :: ?z :: ?t :: ?u :: ?r) 4) with (Some u). step.
      destruct (be_bytes (zlen s)) as [Hc E]; [unfold small in Hs; lia|].
      cbv beta iota delta [ZIP_STR_MASK ZIP_STR_06B ZIP_STR_14B ZIP_STR_32B].
      change (128 <? 192) with true. cbv iota. change (128 .& 192) with 128.
      change (128 =? Z.shiftl 0 6) with false. change (128 =? Z.shiftl 1 6) with false.
      change (128 =? Z.shiftl 2 6) with true. change (128 <? 192) with true. cbv iota.
      rewrite (proj2 (Z.leb_gt _ _)) by lia. rewrite E. done.
Qed.

(** ** The layout of the entries *)

(** An entry, with whether the size before it takes 5 bytes. *)
Record zent := Ze { ze_large : bool; ze_data : list Z }.

Definition psize (large : bool) : Z := if large then 5 else 1.
Definition enc_prev (large : bool) (n : Z) : list Z :=
  if large then ZIP_BIGLEN :: le_encode 4 n else [n].
Definition enc_data (s : list Z) : list Z := hdr s ++ payload s.
Definition esize (e : zent) : Z := psize (ze_large e) + dsize (ze_data e).
Definition enc_ent (prev : Z) (e : zent) : list Z :=
  enc_prev (ze_large e) prev ++ enc_data (ze_data e).

(** The entries of [l], the first one after an entry of [prev] bytes. *)
Fixpoint ents (prev : Z) (l : list zent) : list Z :=
  match l with
  | [] => []
  | e :: l => enc_ent prev e ++ ents (esize e) l
  end.

Fixpoint total (l : list zent) : Z :=
  match l with [] => 0 | e :: l => esize e + total l end.

(** The size of the last entry of [l], [prev] if there is none. *)
Fixpoint prev_of (prev : Z) (l : list zent) : Z :=
  match l with [] => prev | e :: l => prev_of (esize e) l end.

(** The offset of the last entry. *)
Fixpoint last_off (off : Z) (l : list zent) : Z :=
  match l with
  | e :: (_ :: _) as l => last_off (off + esize e) l
  | _ => off
  end.

(** The size [n] can be written in the field of that width. *)
Definition prev_ok (large : bool) (n : Z) : Prop :=
  0 <= n < 2 ^ 31 /\ (large = false -> n < ZIP_BIGLEN).

Fixpoint wf (prev : Z) (l : list zent) : Prop :=
  match l with
  | [] => True
  | e :: l => prev_ok (ze_large e) prev /\ small (ze_data e) /\ wf (esize e) l
  end.

Global Arguments enc_data : simpl never.
Global Arguments enc_prev : simpl never.
Global Arguments dsize : simpl never.
Global Arguments esize : simpl never.

(** *** Sizes *)

Lemma enc_prev_zlen lg n : zlen (enc_prev lg n) = psize lg.
Proof. by destruct lg. Qed.

Lemma psize_cases lg : psize lg = 1 \/ psize lg = 5.
Proof. destruct lg; cbn; lia. Qed.

Lemma enc_data_zlen s : zlen (enc_data s) = dsize s.
Proof. unfold enc_data, dsize. by rewrite zlen_app. Qed.

Lemma enc_ent_zlen prev e : zlen (enc_ent prev e) = esize e.
Proof. unfold enc_ent, esize. by rewrite zlen_app, enc_prev_zlen, enc_data_zlen. Qed.

Lemma esize_pos e : 2 <= esize e.
Proof. unfold esize. pose proof (dsize_pos (ze_data e)). destruct (psize_cases (ze_large e)); lia. Qed.

Lemma dsize_small s : small s -> dsize s <= zlen s + 9.
Proof.
  unfold small, dsize. intros Hs. pose proof (zlen_nonneg s). destruct (int_of s) as [v|] eqn:Hi.
  - rewrite (int_hdr s v Hi), (int_payload s v Hi). change (zlen [int_code v]) with 1.
    unfold zipIntSize. repeat case_match; lia.
  - rewrite (hdr_zlen s Hi). unfold payload. rewrite Hi. repeat case_match; lia.
Qed.

Lemma ents_zlen l : forall prev, zlen (ents prev l) = total l.
Proof.
  induction l as [|e l IH]; intros prev; [done|]. cbn [ents total].
  by rewrite zlen_app, enc_ent_zlen, IH.
Qed.

Lemma ents_app l1 l2 : forall prev,
  ents prev (l1 ++ l2) = ents prev l1 ++ ents (prev_of prev l1) l2.
Proof.
  induction l1 as [|e l1 IH]; intros prev; [done|]. cbn [app ents prev_of].
  by rewrite IH, app_assoc.
Qed.

Lemma total_app l1 l2 : total (l1 ++ l2) = total l1 + total l2.
Proof. induction l1 as [|e l1 IH]; cbn [app total]; [done|]. rewrite IH. lia. Qed.

Lemma prev_of_app l1 l2 : forall prev, prev_of prev (l1 ++ l2) = prev_of (prev_of prev l1) l2.
Proof. induction l1 as [|e l1 IH]; intros prev; [done|]. apply IH. Qed.

Lemma total_ge l : 2 * zlen l <= total l.
Proof.
  induction l as [|e l IH]; [done|]. rewrite zlen_cons. cbn [total]. pose proof (esize_pos e). lia.
Qed.

Lemma total_nonneg l : 0 <= total l.
Proof. pose proof (total_ge l). pose proof (zlen_nonneg l). lia. Qed.

Lemma last_off_app l1 e l2 : forall off,
  last_off off (l1 ++ e :: l2) = last_off (off + total l1) (e :: l2).
Proof.
  induction l1 as [|d l1 IH]; intros off; [cbn [app total]; by rewrite Z.add_0_r|].
  cbn [app total]. rewrite Z.add_assoc, <- IH. by destruct l1.
Qed.

Lemma last_off_ge l : forall off, off <= last_off off l.
Proof.
  induction l as [|e [|d l] IH]; intros off; cbn [last_off]; try lia.
  pose proof (IH (off + esize e)). pose proof (esize_pos e). cbn [last_off] in *. lia.
Qed.

Lemma last_off_le l : forall off, last_off off l <= off + total l.
Proof.
  induction l as [|e [|d l] IH]; intros off; cbn [last_off total]; try (pose proof (esize_pos e)); try lia.
  pose proof (IH (off + esize e)). cbn [last_off total] in *. lia.
Qed.

Lemma wf_app l1 l2 : forall prev, wf prev (l1 ++ l2) <-> wf prev l1 /\ wf (prev_of prev l1) l2.
Proof.
  induction l1 as [|e l1 IH]; intros prev; cbn [app wf prev_of]; [tauto|]. rewrite IH. tauto.
Qed.

(** *** What is read at an entry *)

Section Reads.
Context (a : list Z) (q : Z) (Hq : q = zlen a).

Lemma prevlensize_spec b lg n : prev_ok lg n ->
  ZIP_DECODE_PREVLENSIZE (a ++ enc_prev lg n ++ b) q = Some (psize lg).
Proof using Hq.
  intros [Hn Hs]. subst q. unfold ZIP_DECODE_PREVLENSIZE, enc_prev, ZIP_BIGLEN in *.
  destruct lg; cbn [app psize].
  - by rewrite znth_app_mid.
  - rewrite znth_app_mid by done. step. by rewrite (proj2 (Z.ltb_lt _ _)) by auto.
Qed.

Lemma prevlen_spec b lg n : prev_ok lg n ->
  ZIP_DECODE_PREVLEN (a ++ enc_prev lg n ++ b) q = Some (psize lg, n).
Proof using Hq.
  intros Hok. unfold ZIP_DECODE_PREVLEN. rewrite prevlensize_spec by done. destruct Hok as [Hn Hs].
  subst q. step. unfold enc_prev. destruct lg; cbn [psize].
  - change (5 =? 1) with false. cbv iota.
    replace (a ++ (ZIP_BIGLEN :: le_encode 4 n) ++ b) with ((a ++ [ZIP_BIGLEN]) ++ le_encode 4 n ++ b)
      by by rewrite <- app_assoc.
    rewrite mem_read_app by (rewrite ?zlen_app_one; unfold zlen; rewrite ?le_encode_length; lia). step.
    rewrite le_decode_encode. do 2 f_equal. apply Z.mod_small. cbn. lia.
  - change (1 =? 1) with true. cbv iota. cbn [app]. by rewrite znth_app_mid.
Qed.

Lemma zipEntry_spec b prev e : prev_ok (ze_large e) prev -> small (ze_data e) ->
  zipEntry (a ++ enc_ent prev e ++ b) q =
    Some (mk_zlentry (psize (ze_large e)) prev (zlen (hdr (ze_data e))) (zlen (payload (ze_data e)))
            (psize (ze_large e) + zlen (hdr (ze_data e))) (shown_code (ze_data e)) q).
Proof using Hq.
  intros Hp Hs. unfold zipEntry, enc_ent. rewrite <- app_assoc, prevlen_spec by done. step.
  unfold enc_data. rewrite <- app_assoc, app_assoc.
  by rewrite ZIP_DECODE_LENGTH_spec by (try done; rewrite zlen_app, enc_prev_zlen; lia).
Qed.

Lemma decode_length_spec b prev e : small (ze_data e) ->
  ZIP_DECODE_LENGTH (a ++ enc_ent prev e ++ b) (q + psize (ze_large e)) =
    Some (shown_code (ze_data e), zlen (hdr (ze_data e)), zlen (payload (ze_data e))).
Proof using Hq.
  intros Hs. unfold enc_ent, enc_data. rewrite <- !app_assoc, app_assoc.
  apply ZIP_DECODE_LENGTH_spec; [done|]. rewrite zlen_app, enc_prev_zlen. lia.
Qed.

Lemma esize_sum e : psize (ze_large e) + zlen (hdr (ze_data e)) + zlen (payload (ze_data e)) = esize e.
Proof using. unfold esize, dsize. lia. Qed.

Lemma esize_bound e : small (ze_data e) -> in_u 32 (esize e).
Proof using.
  intros Hs. pose proof (dsize_small _ Hs). pose proof (esize_pos e). unfold small in Hs.
  unfold esize in *. destruct (psize_cases (ze_large e)); cint.
Qed.

Lemma prevlensize_ent b prev e : prev_ok (ze_large e) prev ->
  ZIP_DECODE_PREVLENSIZE (a ++ enc_ent prev e ++ b) q = Some (psize (ze_large e)).
Proof using Hq. intros. unfold enc_ent. rewrite <- app_assoc. by apply prevlensize_spec. Qed.

Lemma prevlen_ent b prev e : prev_ok (ze_large e) prev ->
  ZIP_DECODE_PREVLEN (a ++ enc_ent prev e ++ b) q = Some (psize (ze_large e), prev).
Proof using Hq. intros. unfold enc_ent. rewrite <- app_assoc. by apply prevlen_spec. Qed.

Lemma rawlen_spec b prev e : prev_ok (ze_large e) prev -> small (ze_data e) ->
  zipRawEntryLength (a ++ enc_ent prev e ++ b) q = Some (esize e).
Proof using Hq.
  intros Hp Hs. unfold zipRawEntryLength.
  rewrite prevlensize_ent by done. step. rewrite decode_length_spec by done. step.
  by rewrite esize_sum, wrap_small by by apply esize_bound.
Qed.

(** An entry does not start with the end mark. *)
Lemma first_byte b prev l : wf prev l ->
  exists c, znth (a ++ ents prev l ++ ZIP_END :: b) q = Some c /\
    Z.eqb c ZIP_END = bool_decide (l = []).
Proof using Hq.
  intros Hw. subst q. destruct l as [|e l]; cbn [ents app].
  - exists ZIP_END. by rewrite znth_app_mid.
  - destruct Hw as ([Hn Hs] & _). unfold enc_ent, enc_prev. destruct (ze_large e); cbn [app].
    + exists ZIP_BIGLEN. by rewrite znth_app_mid.
    + exists prev. rewrite znth_app_mid by done. split; [done|]. specialize (Hs eq_refl).
      unfold ZIP_BIGLEN, ZIP_END in *. rewrite bool_decide_false by done. lia.
Qed.

Lemma end_byte b : znth (a ++ ZIP_END :: b) q = Some ZIP_END.
Proof using Hq. by apply znth_app_mid. Qed.
End Reads.
