(* ===== verification/ZiplistOps.v ===== *)
(** The operations of [Ziplist] that change the block: resizing it, updating the
    sizes of previous entries in cascade, deleting and inserting entries. *)
From S2P Require Import Prelude Util Ziplist ZiplistRep.
Local Open Scope c_scope.

(** ** The header *)

Definition zhead (len tail cnt : Z) : list Z :=
  le_encode 4 len ++ le_encode 4 tail ++ le_encode 2 cnt.
Global Arguments zhead : simpl never.

Lemma zhead_zlen len tail cnt : zlen (zhead len tail cnt) = 10.
Proof. done. Qed.

Lemma le_word n v : in_u (8 * Z.of_nat n) v -> le_decode (le_encode n v) = v.
Proof.
  intros Hv. rewrite le_decode_encode. replace (256 ^ Z.of_nat n) with (2 ^ (8 * Z.of_nat n)).
  - by apply Z.mod_small.
  - by rewrite Z.pow_mul_r by lia.
Qed.

Section Head.
Context (len tail cnt : Z) (X : list Z).

Lemma bytes_spec : in_u 32 len -> ZIPLIST_BYTES (zhead len tail cnt ++ X) = Some len.
Proof.
  intros H. unfold ZIPLIST_BYTES, get_word, zhead. rewrite <- !app_assoc.
  pose proof (mem_read_app [] (le_encode 4 len) (le_encode 4 tail ++ le_encode 2 cnt ++ X) 0
    (Z.of_nat 4) eq_refl eq_refl) as E.
  cbn [app] in E. rewrite E. step. by rewrite le_word.
Qed.

Lemma tail_spec : in_u 32 tail -> ZIPLIST_TAIL_OFFSET (zhead len tail cnt ++ X) = Some tail.
Proof.
  intros H. unfold ZIPLIST_TAIL_OFFSET, get_word, zhead. rewrite <- !app_assoc.
  rewrite mem_read_app by done. step. by rewrite le_word.
Qed.

Lemma length_spec : in_u 16 cnt -> ZIPLIST_LENGTH (zhead len tail cnt ++ X) = Some cnt.
Proof.
  intros H. unfold ZIPLIST_LENGTH, get_word, zhead. rewrite <- !app_assoc, (app_assoc (le_encode 4 len)).
  rewrite mem_read_app by done. step. by rewrite le_word.
Qed.

Lemma set_bytes_spec v : set_bytes (zhead len tail cnt ++ X) v = Some (zhead v tail cnt ++ X).
Proof.
  unfold set_bytes, zhead. rewrite <- !app_assoc.
  exact (mem_write_app [] (le_encode 4 len) (le_encode 4 v) (le_encode 4 tail ++ le_encode 2 cnt ++ X)
    0 eq_refl eq_refl).
Qed.

Lemma set_tail_spec v : set_tail (zhead len tail cnt ++ X) v = Some (zhead len v cnt ++ X).
Proof. unfold set_tail, zhead. rewrite <- !app_assoc. by rewrite mem_write_app by done. Qed.

Lemma set_length_spec v : set_length (zhead len tail cnt ++ X) v = Some (zhead len tail v ++ X).
Proof.
  unfold set_length, zhead. rewrite <- !app_assoc, (app_assoc (le_encode 4 len)).
  rewrite mem_write_app by done. by rewrite <- app_assoc.
Qed.
End Head.

(** Splitting a list at a length. *)
Lemma split_zlen {A} (l : list A) n : 0 <= n <= zlen l ->
  exists a b, l = a ++ b /\ zlen a = n /\ zlen b = zlen l - n.
Proof.
  intros Hn. exists (take (Z.to_nat n) l), (drop (Z.to_nat n) l). rewrite take_drop.
  unfold zlen in *. rewrite length_take, length_drop. split; [done|lia].
Qed.

(** [memmove] on a block seen as pieces in two ways. *)
Lemma memmove_pieces m q bs t a b c src dst n :
  m = q ++ bs ++ t -> m = a ++ b ++ c -> src = zlen q -> n = zlen bs -> dst = zlen a ->
  zlen b = n -> memmove m dst src n = Some (a ++ bs ++ c).
Proof.
  intros Hm1 Hm2 Hs Hn Hd Hb. unfold memmove. rewrite Hm1, mem_read_app by done. step.
  rewrite <- Hm1, Hm2. apply mem_write_app; lia.
Qed.

(** Writing at the end of the first piece. *)
Lemma write_at a b b' c off : off = zlen a -> zlen b' = zlen b ->
  mem_write (a ++ b ++ c) off b' = Some (a ++ b' ++ c).
Proof. intros. by apply mem_write_app. Qed.

(** [zipPrevEncodeLength] fills the field of the width it chooses. *)
Lemma prev_encode_spec a g b p n lg : p = zlen a -> 0 <= n < 2 ^ 31 ->
  lg = bool_decide (ZIP_BIGLEN <= n) -> zlen g = psize lg ->
  zipPrevEncodeLength (a ++ g ++ b) p n = Some (a ++ enc_prev lg n ++ b, psize lg).
Proof.
  intros Hp Hn -> Hg. unfold zipPrevEncodeLength, enc_prev.
  destruct (Z.ltb_spec n ZIP_BIGLEN) as [H|H].
  - rewrite bool_decide_false in * by lia. cbn [psize] in *.
    rewrite write_at by done. step. rewrite (wrap_small 8) by (unfold ZIP_BIGLEN in H; cint). done.
  - rewrite bool_decide_true in * by lia. cbn [psize] in *.
    destruct g as [|g0 g]; [done|]. rewrite zlen_cons in Hg.
    change ((g0 :: g) ++ b) with ([g0] ++ g ++ b). rewrite write_at by done. step.
    rewrite app_assoc, (write_at (a ++ [ZIP_BIGLEN]) g) by
      (rewrite ?zlen_app_one; unfold zlen in *; rewrite ?le_encode_length; lia).
    step. by rewrite <- app_assoc.
Qed.

Lemma force_large_spec a g b p n : p = zlen a -> zlen g = 5 ->
  zipPrevEncodeLengthForceLarge (a ++ g ++ b) p n = Some (a ++ enc_prev true n ++ b).
Proof.
  intros Hp Hg. unfold zipPrevEncodeLengthForceLarge, enc_prev.
  destruct g as [|g0 g]; [done|]. rewrite zlen_cons in Hg.
  change ((g0 :: g) ++ b) with ([g0] ++ g ++ b). rewrite write_at by done. step.
  rewrite app_assoc, (write_at (a ++ [ZIP_BIGLEN]) g) by
    (rewrite ?zlen_app_one; unfold zlen in *; rewrite ?le_encode_length; lia).
  by rewrite <- app_assoc.
Qed.

(** The width [zipPrevEncodeLength] chooses is enough. *)
Lemma prev_ok_width n : 0 <= n < 2 ^ 31 -> prev_ok (bool_decide (ZIP_BIGLEN <= n)) n.
Proof. intros Hn. split; [done|]. case_bool_decide; [done|]. lia. Qed.

Lemma encode_len_psize n : zipPrevEncodeLength_len n = psize (bool_decide (ZIP_BIGLEN <= n)).
Proof.
  unfold zipPrevEncodeLength_len. destruct (Z.ltb_spec n ZIP_BIGLEN).
  - by rewrite bool_decide_false by lia.
  - by rewrite bool_decide_true by lia.
Qed.

Section Allocator.
Context (junk : nat -> Z).
Notation ziplistResize := (ziplistResize junk).

(** ** Resizing *)

(** Common bytes are kept and the end mark is written in the last one. *)
Lemma zl_resize_spec len tail cnt X n : 11 <= n < 2 ^ 32 -> exists Y,
  ziplistResize (zhead len tail cnt ++ X) n = Some (zhead n tail cnt ++ Y ++ [ZIP_END]) /\
  zlen Y = n - 11 /\
  forall k, 0 <= k < n - 11 -> k < zlen X -> znth Y k = znth X k.
Proof.
  intros Hn. unfold ziplistResize.
  set (H := zhead len tail cnt). set (m := realloc junk (H ++ X) n).
  assert (Hl : zlen m = n) by (unfold m, zlen; rewrite realloc_length; lia).
  assert (Hsame : forall k, 0 <= k < n -> k < zlen (H ++ X) -> znth m k = znth (H ++ X) k).
  { intros k Hk Hk2. unfold m, realloc, znth. rewrite !decide_True by lia. unfold zlen in *.
    rewrite lookup_app_l by (rewrite length_take; lia). apply lookup_take_lt. lia. }
  destruct (split_zlen m 10) as (h & Z & Em & Hh & HZ); [lia|].
  assert (h = H) as ->.
  { apply list_eq. intros i. destruct (Nat.lt_ge_cases i 10).
    - specialize (Hsame (Z.of_nat i) ltac:(lia)). rewrite zlen_app in Hsame.
      pose proof (zlen_nonneg X). change (zlen H) with 10 in Hsame. specialize (Hsame ltac:(lia)).
      rewrite Em, !znth_app_l, !znth_nat in Hsame by (change (zlen H) with 10; lia). done.
    - rewrite !lookup_ge_None_2; [done|..]; unfold zlen in Hh; [change (length H) with 10%nat|]; lia. }
  destruct (zlen_snoc Z (n - 11)) as (Y & z & -> & HY); [lia|lia|].
  exists Y. rewrite Em. unfold H. rewrite set_bytes_spec. step.
  rewrite app_assoc, zset_app_mid by (rewrite zlen_app, HY, zhead_zlen; lia).
  rewrite <- app_assoc. split; [done|]. split; [done|].
  intros k Hk Hx. specialize (Hsame (10 + k) ltac:(lia)).
  rewrite zlen_app in Hsame. change (zlen H) with 10 in Hsame. specialize (Hsame ltac:(lia)).
  rewrite Em in Hsame. change 10 with (zlen H) in Hsame. rewrite !znth_skip in Hsame by lia.
  by rewrite znth_app_l in Hsame by lia.
Qed.

(** A list that agrees with [b] on its first bytes. *)
Lemma prefix_of_znth (b Y : list Z) : zlen b <= zlen Y ->
  (forall k, 0 <= k < zlen b -> znth Y k = znth b k) -> exists g, Y = b ++ g.
Proof.
  intros Hl Hk. destruct (split_zlen Y (zlen b)) as (a & g & -> & Ha & _).
  { pose proof (zlen_nonneg b). lia. }
  exists g. f_equal. apply list_eq. intros i. destruct (Nat.lt_ge_cases i (length b)) as [Hi|Hi].
  - specialize (Hk (Z.of_nat i) ltac:(unfold zlen; lia)).
    by rewrite znth_app_l, !znth_nat in Hk by (unfold zlen in *; lia).
  - rewrite !lookup_ge_None_2; [done|..]; unfold zlen in Ha; lia.
Qed.

(** Growing by [k] keeps the entries; the old end mark stays where it was. *)
Lemma zl_resize_grow len tail cnt B k n : 0 <= k -> n = 11 + zlen B + k -> n < 2 ^ 32 -> exists G,
  ziplistResize (zhead len tail cnt ++ B ++ [ZIP_END]) n =
    Some (zhead n tail cnt ++ B ++ G ++ [ZIP_END]) /\
  zlen G = k /\ znth (G ++ [ZIP_END]) 0 = Some ZIP_END.
Proof.
  intros Hk Hn Hb. pose proof (zlen_nonneg B).
  destruct (zl_resize_spec len tail cnt (B ++ [ZIP_END]) n) as (Y & E & HY & Hs); [lia|].
  rewrite zlen_app_one in Hs. destruct (prefix_of_znth B Y) as (G & ->); [lia| |].
  { intros i Hi. rewrite Hs by lia. apply znth_app_l. lia. }
  exists G. rewrite <- app_assoc in E. rewrite zlen_app in HY. split; [done|]. split; [lia|].
  destruct G as [|g G]; [done|]. rewrite zlen_cons in HY. pose proof (zlen_nonneg G).
  specialize (Hs (zlen B) ltac:(lia) ltac:(lia)). rewrite !znth_skip_0 in Hs. exact Hs.
Qed.

(** Shrinking to the first bytes [B]. *)
Lemma zl_resize_shrink len tail cnt B X n : n = 11 + zlen B -> n < 2 ^ 32 -> 
  ziplistResize (zhead len tail cnt ++ B ++ X) n = Some (zhead n tail cnt ++ B ++ [ZIP_END]).
Proof.
  intros Hn Hb. pose proof (zlen_nonneg B). pose proof (zlen_nonneg X).
  destruct (zl_resize_spec len tail cnt (B ++ X) n) as (Y & E & HY & Hs); [lia|].
  rewrite zlen_app in Hs. destruct (prefix_of_znth B Y) as (G & ->); [lia| |].
  { intros i Hi. rewrite Hs by lia. apply znth_app_l. lia. }
  rewrite zlen_app in HY. rewrite E. destruct G; [by rewrite app_nil_r|].
  rewrite zlen_cons in HY. pose proof (zlen_nonneg G). lia.
Qed.

(** ** The cascade *)

(** The entries after one whose size became [n]: a field of one byte that is too
    small becomes one of five, and so on while the sizes change. *)
Fixpoint grow (n : Z) (l : list zent) : list zent :=
  match l with
  | [] => []
  | e :: l =>
      if negb (ze_large e) && (ZIP_BIGLEN <=? n)
      then let e := Ze true (ze_data e) in e :: grow (esize e) l
      else e :: l
  end.

Lemma esize_large s : esize (Ze true s) = esize (Ze false s) + 4.
Proof. unfold esize. cbn. lia. Qed.

Lemma total_grow l : forall n, total l <= total (grow n l).
Proof.
  induction l as [|[lg s] l IH]; intros n; [done|]. cbn [grow ze_large ze_data].
  destruct (negb lg && (ZIP_BIGLEN <=? n)) eqn:E; [|lia]. cbn [total].
  destruct lg; [done|]. specialize (IH (esize (Ze true s))). pose proof (esize_large s). lia.
Qed.

Lemma grow_data l : forall n, ze_data <$> grow n l = ze_data <$> l.
Proof.
  induction l as [|e l IH]; intros n; [done|]. cbn [grow]. case_match; [|done].
  rewrite !fmap_cons. by rewrite IH.
Qed.

(** Nothing grows when the sizes are right already. *)
Lemma grow_id l n : wf n l -> grow n l = l.
Proof.
  destruct l as [|e l]; [done|]. intros ([Hn Hs] & _). cbn [grow].
  destruct (ze_large e); [done|]. specialize (Hs eq_refl).
  by rewrite (proj2 (Z.leb_gt _ _)) by done.
Qed.

Lemma last_off_shift l : forall o k, last_off (o + k) l = last_off o l + k.
Proof.
  induction l as [|e [|d l] IH]; intros o k; [done|done|].
  change (last_off (o + k + esize e) (d :: l) = last_off (o + esize e) (d :: l) + k).
  rewrite <- IH. f_equal. lia.
Qed.

Lemma ent_first a b prev e q : q = zlen a -> prev_ok (ze_large e) prev ->
  exists c, znth (a ++ enc_ent prev e ++ b) q = Some c /\ (c =? ZIP_END) = false.
Proof.
  intros -> [Hn Hs]. unfold enc_ent, enc_prev. destruct (ze_large e); cbn [app].
  - exists ZIP_BIGLEN. by rewrite znth_app_mid.
  - exists prev. rewrite znth_app_mid by done. split; [done|]. specialize (Hs eq_refl).
    unfold ZIP_BIGLEN, ZIP_END in *. lia.
Qed.

(** One field of one byte widened: the block is resized, the tail offset moves
    unless the entry is the last one, and the bytes after the field move. *)
Lemma widen_spec A D old T c n np {B} (k : list Z -> option B) (lst : bool) :
  np = 10 + zlen A -> ZIP_BIGLEN <= n < 2 ^ 31 -> 17 + zlen A + zlen D < 2 ^ 32 ->
  0 <= T < 2 ^ 32 - 4 -> (T =? np) = lst ->
  let L := 12 + zlen A + zlen D in
  (zl ← ziplistResize (zhead L T c ++ A ++ [old] ++ D ++ [ZIP_END]) (u32 (L + 4));
   tail ← ZIPLIST_TAIL_OFFSET zl;
   zl ← (if negb (tail =? np) then set_tail zl (tail +[32] 4) else Some zl);
   zl ← memmove zl (np + 5) (np + 1) (L -[64] np -[64] 1 -[64] 1);
   '(zl, _) ← zipPrevEncodeLength zl np n;
   k zl) =
  k (zhead (L + 4) (if lst then T else T + 4) c ++ A ++ enc_prev true n ++ D ++ [ZIP_END]).
Proof.
  intros Hnp Hn Hb HT Hlst L. pose proof (zlen_nonneg A). pose proof (zlen_nonneg D).
  rewrite (wrap_small 32) by (unfold L; cint).
  replace (A ++ [old] ++ D ++ [ZIP_END]) with ((A ++ [old] ++ D) ++ [ZIP_END])
    by by rewrite <- !app_assoc.
  destruct (zl_resize_grow L T c (A ++ [old] ++ D) 4 (L + 4)) as (G & -> & HG & _);
    [lia|rewrite !zlen_app, zlen_one; unfold L; lia|unfold L; lia|]. step.
  rewrite tail_spec by cint. step. rewrite Hlst.
  assert (E : (if negb lst then set_tail (zhead (L + 4) T c ++ (A ++ [old] ++ D) ++ G ++ [ZIP_END])
      (T +[32] 4) else Some (zhead (L + 4) T c ++ (A ++ [old] ++ D) ++ G ++ [ZIP_END])) =
    Some (zhead (L + 4) (if lst then T else T + 4) c ++ (A ++ [old] ++ D) ++ G ++ [ZIP_END])).
  { destruct lst; cbn [negb]; [done|]. rewrite set_tail_spec. by rewrite wrap_small by cint. }
  rewrite E. step. clear E. set (Hd0 := zhead (L + 4) _ c).
  assert (En : L -[64] np -[64] 1 -[64] 1 = zlen D).
  { rewrite (wrap_small 64 (L - np)) by (unfold L; cint).
    rewrite (wrap_small 64 (L - np - 1)) by (unfold L; cint). rewrite wrap_small by (unfold L; cint).
    unfold L. lia. }
  rewrite En. clear En. destruct (split_zlen ([old] ++ D ++ G) 5) as (W & Dd & EW & HW & HDd);
    [rewrite !zlen_app, zlen_one; lia|]. rewrite !zlen_app, zlen_one in HDd.
  rewrite (memmove_pieces _ (Hd0 ++ A ++ [old]) D (G ++ [ZIP_END]) (Hd0 ++ A ++ W) Dd [ZIP_END]).
  - step. rewrite <- !app_assoc, (app_assoc Hd0).
    rewrite (prev_encode_spec _ W _ _ n true); [step; by rewrite <- !app_assoc|..].
    + rewrite zlen_app. change (zlen Hd0) with 10. lia.
    + unfold ZIP_BIGLEN in Hn. lia.
    + by rewrite bool_decide_true by lia.
    + done.
  - by rewrite <- !app_assoc.
  - rewrite <- !app_assoc. do 2 f_equal. rewrite (app_assoc W), <- EW. by rewrite <- !app_assoc.
  - rewrite !zlen_app, zlen_one. change (zlen Hd0) with 10. lia.
  - done.
  - rewrite !zlen_app. change (zlen Hd0) with 10. lia.
  - lia.
Qed.

(** The block between two entries: the sizes after [cur] are those of before. *)
Definition cblock (a : list Z) (c pv : Z) (cur : zent) (old : Z) (rest : list zent) : list Z :=
  zhead (11 + zlen a + total (cur :: rest)) (last_off (10 + zlen a) (cur :: rest)) c ++
  a ++ enc_ent pv cur ++ ents old rest ++ [ZIP_END].

(** What the loop reads before it decides about the entry after [cur]. *)
Lemma cascade_reads fuel a c pv cur old e r : prev_ok (ze_large cur) pv -> small (ze_data cur) ->
  wf old (e :: r) -> let zl := cblock a c pv cur old (e :: r) in let p := 10 + zlen a in
  let n := esize cur in let curlen := 11 + zlen a + total (cur :: e :: r) in
  let np := p + n in let ps := psize (ze_large e) in let rs := psize (bool_decide (ZIP_BIGLEN <= n)) in
  cascade_loop junk (S fuel) zl p curlen =
    if old =? n then Some zl
    else if ps <? rs then
      zl ← ziplistResize zl (u32 (curlen + (rs - ps)));
      tail ← ZIPLIST_TAIL_OFFSET zl;
      zl ← (if negb (tail =? np) then set_tail zl (tail +[32] (rs - ps)) else Some zl);
      zl ← memmove zl (np + rs) (np + ps) (curlen -[64] np -[64] ps -[64] 1);
      '(zl, _) ← zipPrevEncodeLength zl np n;
      cascade_loop junk fuel zl np (curlen + (rs - ps))
    else if rs <? ps then zipPrevEncodeLengthForceLarge zl np n
    else '(zl, _) ← zipPrevEncodeLength zl np n; Some zl.
Proof.
  intros Hpv Hs (Ho & Hse & _) zl p n curlen np ps rs. cbn [cascade_loop].
  assert (Ezl : zl = (zhead (11 + zlen a + total (cur :: e :: r)) (last_off (10 + zlen a) (cur :: e :: r)) c
    ++ a) ++ enc_ent pv cur ++ ents old (e :: r) ++ [ZIP_END])
    by (unfold zl, cblock; by rewrite <- !app_assoc).
  set (h := zhead _ _ _ ++ a) in Ezl.
  assert (Hp : p = zlen h) by (unfold p, h; by rewrite zlen_app).
  destruct (ent_first h (ents old (e :: r) ++ [ZIP_END]) pv cur p Hp Hpv) as (c0 & E0 & Ec0).
  pose proof (zipEntry_spec h p Hp (ents old (e :: r) ++ [ZIP_END]) pv cur Hpv Hs) as F0.
  rewrite <- Ezl in E0, F0. rewrite E0. step. rewrite Ec0, F0. step.
  cbn [e_headersize e_len].
  assert (En : u32 (psize (ze_large cur) + zlen (hdr (ze_data cur)) + zlen (payload (ze_data cur))) = n)
    by (rewrite esize_sum; by apply wrap_small, esize_bound).
  rewrite !En, !encode_len_psize.
  assert (Ezl2 : zl = (h ++ enc_ent pv cur) ++ enc_ent old e ++ ents (esize e) r ++ [ZIP_END])
    by (rewrite Ezl; cbn [ents]; by rewrite <- !app_assoc).
  assert (Hnp : p + n = zlen (h ++ enc_ent pv cur)) by (rewrite zlen_app, enc_ent_zlen; lia).
  destruct (ent_first _ (ents (esize e) r ++ [ZIP_END]) old e _ Hnp Ho) as (c1 & E1 & Ec1).
  pose proof (zipEntry_spec _ _ Hnp (ents (esize e) r ++ [ZIP_END]) old e Ho Hse) as F1.
  rewrite <- Ezl2 in E1, F1. rewrite E1. step. rewrite Ec1, F1. step.
  cbn [e_prevrawlen e_prevrawlensize]. done.
Qed.

Lemma grow_wf l : forall old n, wf old l -> 0 <= n < 2 ^ 31 -> total (grow n l) < 2 ^ 31 ->
  wf n (grow n l).
Proof.
  induction l as [|e l IH]; intros old n Hw Hn Ht; [done|].
  destruct Hw as (Ho & Hs & Hw). cbn [grow] in *.
  destruct (negb (ze_large e) && (ZIP_BIGLEN <=? n)) eqn:E; cbn [wf ze_large ze_data].
  - split; [by split|]. split; [done|]. cbn [total] in Ht.
    pose proof (total_nonneg (grow (esize (Ze true (ze_data e))) l)).
    pose proof (esize_pos (Ze true (ze_data e))). eapply IH; [done|lia|lia].
  - split; [|done]. split; [done|]. intros El. rewrite El in E. cbn in E. lia.
Qed.

(** The field of the next entry is rewritten in its own width. *)
Lemma cascade_rewrite a c pv cur old e r :
  esize cur < 2 ^ 31 -> (ze_large e = false -> esize cur < ZIP_BIGLEN) ->
  let n := esize cur in let np := 10 + zlen a + n in let zl := cblock a c pv cur old (e :: r) in
  (if psize (bool_decide (ZIP_BIGLEN <= n)) <? psize (ze_large e)
   then zipPrevEncodeLengthForceLarge zl np n
   else '(zl, _) ← zipPrevEncodeLength zl np n; Some zl) =
  Some (cblock a c pv cur n (e :: r)).
Proof.
  intros Hb Hl n np zl. pose proof (esize_pos cur). fold n in Hb, Hl, H.
  set (h := zhead (11 + zlen a + total (cur :: e :: r)) (last_off (10 + zlen a) (cur :: e :: r)) c
    ++ a ++ enc_ent pv cur).
  assert (E : forall k, cblock a c pv cur k (e :: r) =
    h ++ enc_prev (ze_large e) k ++ enc_data (ze_data e) ++ ents (esize e) r ++ [ZIP_END]).
  { intros k. unfold cblock, h, enc_ent at 2. cbn [ents]. unfold enc_ent. by rewrite <- !app_assoc. }
  assert (Hnp : np = zlen h) by (unfold h, np, n; rewrite !zlen_app, enc_ent_zlen, zhead_zlen; lia).
  unfold zl. rewrite !E. destruct (ze_large e) eqn:El; cbn [psize].
  - destruct (psize (bool_decide (ZIP_BIGLEN <= n)) <? 5) eqn:Ep.
    + by rewrite force_large_spec by done.
    + rewrite (prev_encode_spec _ _ _ _ n true); [done|done|lia| |done].
      case_bool_decide; [done|]. cbn in Ep. lia.
  - specialize (Hl eq_refl). rewrite (bool_decide_false (ZIP_BIGLEN <= n)) by lia. cbn [psize].
    change (1 <? 1) with false. cbv iota.
    rewrite (prev_encode_spec _ _ _ _ n false); [done|done|lia| |done].
    by rewrite bool_decide_false by lia.
Qed.

Lemma cascade_end fuel a c pv cur old curlen : prev_ok (ze_large cur) pv -> small (ze_data cur) ->
  cascade_loop junk (S fuel) (cblock a c pv cur old []) (10 + zlen a) curlen =
    Some (cblock a c pv cur (esize cur) []).
Proof.
  intros Hpv Hs. cbn [cascade_loop]. set (zl := cblock a c pv cur old []).
  set (h := zhead (11 + zlen a + total [cur]) (last_off (10 + zlen a) [cur]) c ++ a).
  assert (Ezl : zl = h ++ enc_ent pv cur ++ [ZIP_END]) by (unfold zl, cblock, h; by rewrite <- app_assoc).
  assert (Hp : 10 + zlen a = zlen h) by (unfold h; by rewrite zlen_app).
  destruct (ent_first h [ZIP_END] pv cur _ Hp Hpv) as (c0 & E0 & Ec0).
  pose proof (zipEntry_spec h _ Hp [ZIP_END] pv cur Hpv Hs) as F0.
  rewrite <- Ezl in E0, F0. rewrite E0. step. rewrite Ec0, F0. step. cbn [e_headersize e_len].
  rewrite esize_sum, wrap_small by by apply esize_bound.
  assert (E1 : znth zl (10 + zlen a + esize cur) = Some ZIP_END)
    by (rewrite Ezl, app_assoc; apply end_byte; rewrite zlen_app, enc_ent_zlen; lia).
  rewrite E1. step. done.
Qed.

Lemma cblock_cons a c pv cur old e r :
  cblock a c pv cur old (e :: r) = cblock (a ++ enc_ent pv cur) c old e (esize e) r.
Proof.
  unfold cblock. rewrite zlen_app, enc_ent_zlen. cbn [total ents]. rewrite <- !app_assoc.
  change (last_off (10 + zlen a) (cur :: e :: r)) with (last_off (10 + zlen a + esize cur) (e :: r)).
  do 2 f_equal; [lia|f_equal; lia].
Qed.

Lemma last_off_widen o s r :
  last_off o (Ze true s :: r) =
  if bool_decide (r = []) then last_off o (Ze false s :: r) else last_off o (Ze false s :: r) + 4.
Proof.
  destruct r as [|d r]; [done|]. rewrite bool_decide_false by done.
  change (last_off (o + esize (Ze true s)) (d :: r) = last_off (o + esize (Ze false s)) (d :: r) + 4).
  rewrite esize_large, Z.add_assoc. apply last_off_shift.
Qed.

Lemma last_off_here o e r : (last_off o (e :: r) =? o) = bool_decide (r = []).
Proof.
  destruct r as [|d r]; [by rewrite Z.eqb_refl|]. rewrite bool_decide_false by done.
  change (last_off o (e :: d :: r)) with (last_off (o + esize e) (d :: r)).
  pose proof (last_off_ge (d :: r) (o + esize e)). pose proof (esize_pos e). lia.
Qed.

(** The widening step of the loop. *)
Lemma cascade_widen fuel a c pv cur old e r : ze_large e = false ->
  ZIP_BIGLEN <= esize cur < 2 ^ 31 ->
  let n := esize cur in let np := 10 + zlen a + n in let zl := cblock a c pv cur old (e :: r) in
  let ps := psize false in let rs := psize (bool_decide (ZIP_BIGLEN <= n)) in
  let curlen := 11 + zlen a + total (cur :: e :: r) in
  let e' := Ze true (ze_data e) in let a' := a ++ enc_ent pv cur in
  11 + zlen a' + total (e' :: r) < 2 ^ 31 ->
  (if ps <? rs then
      zl ← ziplistResize zl (u32 (curlen + (rs - ps)));
      tail ← ZIPLIST_TAIL_OFFSET zl;
      zl ← (if negb (tail =? np) then set_tail zl (tail +[32] (rs - ps)) else Some zl);
      zl ← memmove zl (np + rs) (np + ps) (curlen -[64] np -[64] ps -[64] 1);
      '(zl, _) ← zipPrevEncodeLength zl np n;
      cascade_loop junk fuel zl np (curlen + (rs - ps))
   else if rs <? ps then zipPrevEncodeLengthForceLarge zl np n
   else '(zl, _) ← zipPrevEncodeLength zl np n; Some zl) =
  cascade_loop junk fuel (cblock a' c n e' (esize e) r) (10 + zlen a') (11 + zlen a' + total (e' :: r)).
Proof.
  intros El Hn n np zl ps rs curlen e' a' Hb. unfold rs, ps. rewrite bool_decide_true by lia.
  change (psize true) with 5. change (psize false) with 1. change (1 <? 5) with true.
  change (5 - 1) with 4. cbv iota. set (D := enc_data (ze_data e) ++ ents (esize e) r).
  destruct e as [lg s]. cbn [ze_large ze_data] in *. subst lg.
  assert (Ha : zlen a' = zlen a + n) by (unfold a'; rewrite zlen_app, enc_ent_zlen; lia).
  assert (Hsz : esize (Ze false s) = 1 + dsize s) by done. pose proof (esize_large s) as Hlg.
  assert (HD : zlen D = dsize s + total r) by (unfold D; rewrite zlen_app, enc_data_zlen, ents_zlen; lia).
  assert (Hcl : curlen = 12 + zlen a' + zlen D) by (unfold curlen; cbn [total]; fold n; lia).
  cbn [total] in Hb. unfold e' in Hb. pose proof (zlen_nonneg a). pose proof (total_nonneg r).
  pose proof (dsize_pos s). unfold ZIP_BIGLEN in Hn. fold n in Hn.
  set (T := last_off np (Ze false s :: r)).
  assert (HT : np <= T <= np + esize (Ze false s) + total r)
    by (split; [apply last_off_ge|]; pose proof (last_off_le (Ze false s :: r) np) as Hle; cbn [total] in Hle; lia).
  assert (Ezl : zl = zhead curlen T c ++ a' ++ [old] ++ D ++ [ZIP_END]).
  { unfold zl. rewrite cblock_cons. unfold cblock. fold a'. unfold T, np, D, enc_ent at 1.
    rewrite Ha, Hcl, HD. cbn [total]. rewrite <- !app_assoc. do 2 f_equal; [lia|f_equal; lia]. }
  rewrite Ezl, Hcl.
  rewrite (widen_spec a' D old T c n np (fun zl => cascade_loop junk fuel zl np
    (12 + zlen a' + zlen D + 4)) (bool_decide (r = []))); cycle 1.
  { lia. } { unfold ZIP_BIGLEN. lia. } { lia. } { lia. } { apply last_off_here. }
  unfold cblock, e'. rewrite last_off_widen. fold n. replace (10 + zlen a') with np by lia. fold T.
  assert (EL : 12 + zlen a' + zlen D + 4 = 11 + zlen a' + total (Ze true s :: r)) by (cbn [total]; lia).
  rewrite EL. unfold enc_ent, D. by rewrite <- !app_assoc.
Qed.

Lemma cascade_loop_spec rest : forall fuel a c pv cur old,
  prev_ok (ze_large cur) pv -> small (ze_data cur) -> wf old rest ->
  11 + zlen a + total (cur :: grow (esize cur) rest) < 2 ^ 31 -> (length rest < fuel)%nat ->
  cascade_loop junk fuel (cblock a c pv cur old rest) (10 + zlen a) (11 + zlen a + total (cur :: rest)) =
    Some (cblock a c pv cur (esize cur) (grow (esize cur) rest)).
Proof.
  induction rest as [|e r IH]; intros fuel a c pv cur old Hpv Hs Hw Hb Hf;
    (destruct fuel as [|fuel]; [cbn in Hf; lia|]).
  - apply cascade_end; try done.
  - pose proof (zlen_nonneg a). pose proof (esize_pos cur).
    rewrite cascade_reads by done. cbv zeta. destruct (Z.eqb_spec old (esize cur)) as [->|Hne].
    { by rewrite grow_id by done. }
    destruct Hw as (Ho & Hse & Hw). cbn [grow] in *.
    destruct (negb (ze_large e) && (ZIP_BIGLEN <=? esize cur)) eqn:Eg.
    + destruct (ze_large e) eqn:El; [done|]. cbn [negb andb total] in Eg, Hb.
      set (e' := Ze true (ze_data e)) in *. pose proof (esize_pos e').
      pose proof (total_grow r (esize e')). pose proof (total_nonneg r).
      rewrite (cascade_widen fuel a c pv cur old e r El); [|lia|].
      * rewrite cblock_cons. apply (IH fuel (a ++ enc_ent pv cur) c (esize cur) e' (esize e)); try done.
        -- split; [lia|done].
        -- rewrite zlen_app, enc_ent_zlen. cbn [total]. lia.
        -- cbn in Hf. lia.
      * rewrite zlen_app, enc_ent_zlen. cbn [total]. fold e'. lia.
    + destruct (Z.ltb_spec (psize (ze_large e)) (psize (bool_decide (ZIP_BIGLEN <= esize cur)))).
      { exfalso. destruct (ze_large e); cbn in *; case_bool_decide; cbn in *; lia. }
      rewrite (cascade_rewrite a c pv cur old e r); [done| |].
      * cbn [total] in Hb. pose proof (total_nonneg r). pose proof (esize_pos e). lia.
      * intros El. rewrite El in Eg. cbn in Eg. lia.
Qed.

Lemma cascade_update_spec rest a c pv cur old :
  prev_ok (ze_large cur) pv -> small (ze_data cur) -> wf old rest ->
  11 + zlen a + total (cur :: grow (esize cur) rest) < 2 ^ 31 ->
  __ziplistCascadeUpdate junk (cblock a c pv cur old rest) (10 + zlen a) =
    Some (cblock a c pv cur (esize cur) (grow (esize cur) rest)).
Proof.
  intros Hpv Hs Hw Hb. pose proof (zlen_nonneg a). pose proof (esize_pos cur).
  pose proof (total_grow rest (esize cur)). pose proof (total_ge rest). pose proof (zlen_nonneg rest).
  assert (Eb : ZIPLIST_BYTES (cblock a c pv cur old rest) = Some (11 + zlen a + total (cur :: rest)))
    by (unfold cblock; apply bytes_spec; cbn [total] in *; cint).
  unfold __ziplistCascadeUpdate. rewrite Eb. step.
  rewrite <- (cascade_loop_spec rest (S (length (cblock a c pv cur old rest))) a c pv cur old); try done.
  assert (Hl : zlen (cblock a c pv cur old rest) = 11 + zlen a + esize cur + total rest)
    by (unfold cblock; rewrite !zlen_app, zhead_zlen, enc_ent_zlen, ents_zlen, zlen_one; lia).
  unfold zlen in *. lia.
Qed.

(** The end of an insertion and of a deletion: the entry after the change has
    its new field, the ones after it follow. *)
Lemma settle a c pv lg e r : let e' := Ze lg (ze_data e) in
  prev_ok lg pv -> small (ze_data e) -> wf (esize e) r ->
  11 + zlen a + total (e' :: grow (esize e') r) < 2 ^ 31 ->
  let nextdiff := psize lg - psize (ze_large e) in
  (if negb (nextdiff =? 0) then __ziplistCascadeUpdate junk (cblock a c pv e' (esize e) r) (10 + zlen a)
   else Some (cblock a c pv e' (esize e) r)) =
  Some (cblock a c pv e' (esize e') (grow (esize e') r)).
Proof.
  intros e' Hpv Hs Hw Hb nextdiff. destruct (Z.eqb_spec nextdiff 0) as [E|E]; cbn [negb].
  - assert (Ee : esize e' = esize e) by (unfold esize, nextdiff, e' in *; cbn; lia).
    rewrite Ee, grow_id by done. done.
  - by apply cascade_update_spec.
Qed.

(** ** The block of a list *)

Definition zblock (c : Z) (l : list zent) : list Z :=
  zhead (11 + total l) (last_off 10 l) c ++ ents 0 l ++ [ZIP_END].

Lemma zblock_split c l1 e r :
  zblock c (l1 ++ e :: r) = cblock (ents 0 l1) c (prev_of 0 l1) e (esize e) r.
Proof.
  unfold zblock, cblock. rewrite ents_app, total_app, last_off_app, ents_zlen. cbn [ents total].
  rewrite <- !app_assoc. do 2 f_equal. lia.
Qed.

(** The entries from a position on, the first one after an entry of [n] bytes. *)
Definition fix_next (n : Z) (l : list zent) : list zent :=
  match l with
  | [] => []
  | e :: l => let e := Ze (bool_decide (ZIP_BIGLEN <= n)) (ze_data e) in e :: grow (esize e) l
  end.

Lemma fix_next_data n l : ze_data <$> fix_next n l = ze_data <$> l.
Proof. destruct l as [|e l]; [done|]. cbn [fix_next]. rewrite !fmap_cons. by rewrite grow_data. Qed.

Lemma last_off_prev l : forall o p, l <> [] -> last_off o l + prev_of p l = o + total l.
Proof.
  induction l as [|e [|d l] IH]; intros o p Hne; [done|cbn; lia|].
  change (last_off (o + esize e) (d :: l) + prev_of (esize e) (d :: l) = o + (esize e + total (d :: l))).
  rewrite (IH (o + esize e) (esize e)) by done. lia.
Qed.

Lemma last_off_cons_diff o e e' k r : esize e' = esize e + k ->
  last_off o (e' :: r) = last_off o (e :: r) + (if bool_decide (r = []) then 0 else k).
Proof.
  intros He. destruct r as [|d r]; [cbn; lia|]. rewrite bool_decide_false by done.
  change (last_off (o + esize e') (d :: r) = last_off (o + esize e) (d :: r) + k).
  rewrite He, Z.add_assoc. apply last_off_shift.
Qed.

Lemma byte_diff_spec a b q lg n m : q = zlen a -> prev_ok lg n ->
  zipPrevLenByteDiff (a ++ enc_prev lg n ++ b) q m =
    Some (psize (bool_decide (ZIP_BIGLEN <= m)) - psize lg).
Proof.
  intros Hq Hok. unfold zipPrevLenByteDiff. rewrite (prevlensize_spec a q Hq) by done. step.
  rewrite encode_len_psize. f_equal. case_bool_decide; destruct lg; done.
Qed.

(** ** Deletion *)

Lemma skip_entries_spec ld : forall fuel a pv l2 b i num p,
  p = zlen a -> wf pv (ld ++ l2) -> (length ld < fuel)%nat ->
  i + zlen ld = num \/ (l2 = [] /\ i + zlen ld <= num) ->
  skip_entries fuel (a ++ ents pv (ld ++ l2) ++ ZIP_END :: b) p i num =
    Some (p + total ld, i + zlen ld).
Proof.
  induction ld as [|e ld IH]; intros [|fuel] a pv l2 b i num p Hp Hw Hf Hn;
    [cbn in Hf; lia| |cbn in Hf; lia|]; cbn [skip_entries].
  - destruct (first_byte a p Hp b pv ([] ++ l2) Hw) as (c & -> & Ec). step. rewrite Ec.
    cbn [app total]. rewrite zlen_nil, !Z.add_0_r in *. destruct Hn as [->|[-> Hn]]; [|done].
    by rewrite Z.ltb_irrefl, andb_false_r.
  - destruct (first_byte a p Hp b pv ((e :: ld) ++ l2) Hw) as (c & -> & Ec). step. rewrite Ec.
    rewrite bool_decide_false by done. rewrite zlen_cons in *. pose proof (zlen_nonneg ld).
    rewrite (proj2 (Z.ltb_lt i num)) by lia. cbn [negb andb]. destruct Hw as (Ho & Hs & Hw).
    cbn [app ents]. rewrite <- app_assoc, (rawlen_spec a p Hp) by done. step.
    rewrite app_assoc. rewrite (IH fuel (a ++ enc_ent pv e) (esize e) l2 b (i + 1) num); try done.
    + cbn [total]. do 2 f_equal; lia.
    + rewrite zlen_app, enc_ent_zlen. lia.
    + cbn in Hf. lia.
    + destruct Hn as [Hn|[-> Hn]]; [left; lia|right; split; [done|lia]].
Qed.

(** The tail offset after the first of the entries [e :: r] got a field of
    another width. *)
Lemma retail L T c X Y e e' r o k p : p = zlen (zhead L T c ++ X) -> wf (esize e) r ->
  esize e' = esize e + k -> T = last_off o (e :: r) -> 0 <= T + k < 2 ^ 32 -> in_u 32 T ->
  let zl := zhead L T c ++ X ++ ents (esize e) r ++ ZIP_END :: Y in
  exists c0, znth zl p = Some c0 /\
   (if negb (c0 =? ZIP_END) then off ← ZIPLIST_TAIL_OFFSET zl; set_tail zl (off +[32] k)
    else Some zl) =
   Some (zhead L (last_off o (e' :: r)) c ++ X ++ ents (esize e) r ++ ZIP_END :: Y).
Proof.
  intros Hp Hw He HT Hb Hu zl.
  destruct (first_byte _ _ Hp Y _ _ Hw) as (c0 & E & Ec). rewrite <- app_assoc in E. fold zl in E.
  exists c0. split; [done|]. rewrite Ec, (last_off_cons_diff o e e' k r He).
  case_bool_decide as Hr; cbn [negb].
  - subst r. unfold zl. by rewrite Z.add_0_r, HT.
  - unfold zl. rewrite tail_spec by done. step. rewrite set_tail_spec, wrap_small by (unfold in_u; lia).
    by rewrite HT.
Qed.

(** Of a deletion: what follows the deleted bytes [Dl] comes to their place. *)
Lemma pull_tail_spec L c A Dl pe e r pv first p totlen :
  prev_ok (ze_large e) pe -> small (ze_data e) -> wf (esize e) r -> 0 <= pv < 2 ^ 31 ->
  e_p first = 10 + zlen A -> e_prevrawlen first = pv -> p = 10 + zlen A + totlen ->
  totlen = zlen Dl -> (ZIP_BIGLEN <= pv -> 4 <= totlen) ->
  L = 11 + zlen A + totlen + esize e + total r -> L < 2 ^ 31 ->
  let e' := Ze (bool_decide (ZIP_BIGLEN <= pv)) (ze_data e) in
  exists W, pull_tail (zhead L (last_off p (e :: r)) c ++ A ++ Dl ++ enc_ent pe e ++
      ents (esize e) r ++ [ZIP_END]) first p totlen =
    Some (zhead L (last_off (10 + zlen A) (e' :: r)) c ++ A ++ (enc_ent pv e' ++ ents (esize e) r) ++ W,
      psize (ze_large e') - psize (ze_large e)).
Proof.
  intros Hpe Hs Hw Hpv Hf1 Hf2 Hp Ht Hroom HL Hb e'. set (lg := bool_decide (ZIP_BIGLEN <= pv)) in *.
  set (T := last_off p (e :: r)). set (nd := psize lg - psize (ze_large e)).
  pose proof (zlen_nonneg A). pose proof (zlen_nonneg Dl). pose proof (total_nonneg r).
  pose proof (dsize_pos (ze_data e)). pose proof (last_off_ge (e :: r) p) as HT1.
  pose proof (last_off_le (e :: r) p) as HT2. fold T in HT1, HT2. cbn [total] in HT2.
  assert (Hnd : psize lg <= totlen + psize (ze_large e)).
  { unfold lg in *. case_bool_decide; destruct (psize_cases (ze_large e)); cbn [psize]; lia. }
  assert (Hsz : esize e = psize (ze_large e) + dsize (ze_data e)) by done.
  set (D := enc_data (ze_data e) ++ ents (esize e) r).
  destruct (split_zlen (Dl ++ enc_prev (ze_large e) pe) (totlen - nd)) as (Q & Gs & EQ & HQ & HGs);
    [rewrite zlen_app, enc_prev_zlen; unfold nd; destruct (psize_cases (ze_large e)), (psize_cases lg); lia|].
  rewrite zlen_app, enc_prev_zlen in HGs.
  set (zl := zhead L T c ++ _). unfold pull_tail.
  assert (E1 : zl = (zhead L T c ++ A ++ Dl) ++ enc_prev (ze_large e) pe ++ D ++ [ZIP_END])
    by (unfold zl, enc_ent, D; by rewrite <- !app_assoc).
  assert (E2 : zl = (zhead L T c ++ A ++ Q) ++ Gs ++ D ++ [ZIP_END]).
  { rewrite E1. rewrite <- !app_assoc. do 2 f_equal. rewrite !app_assoc. by rewrite EQ. }
  assert (F1 : zipPrevLenByteDiff zl p pv = Some nd)
    by (rewrite E1; apply byte_diff_spec; [rewrite !zlen_app, zhead_zlen; lia|done]).
  assert (F2 : zipPrevEncodeLength zl (p - nd) pv = Some (zhead L T c ++ (A ++ Q) ++ enc_prev lg pv ++ D ++
      [ZIP_END], psize lg)).
  { rewrite E2. rewrite (prev_encode_spec _ Gs _ _ pv lg).
    - by rewrite <- !app_assoc.
    - rewrite !zlen_app, zhead_zlen. unfold nd in *. lia.
    - done.
    - done.
    - unfold nd in *. lia. }
  clearbody zl. rewrite Hf2, F1. step. rewrite F2. step. clear F1 F2.
  rewrite tail_spec by cint. step. rewrite set_tail_spec, (wrap_small 32) by cint. step.
  set (h := zhead L (T - totlen) c).
  assert (E3 : h ++ (A ++ Q) ++ enc_prev lg pv ++ D ++ [ZIP_END] =
    (h ++ (A ++ Q)) ++ enc_ent pv e' ++ ents (esize e) r ++ [ZIP_END])
    by (unfold enc_ent, D; by rewrite <- !app_assoc).
  assert (Hp' : p - nd = zlen (h ++ (A ++ Q))) by (rewrite !zlen_app; unfold h; rewrite zhead_zlen; lia).
  assert (Hlg : prev_ok lg pv) by by apply prev_ok_width.
  rewrite E3, (zipEntry_spec _ _ Hp') by done. step. cbn [e_headersize e_len].
  rewrite (esize_sum e'), (wrap_small 32 (esize e')) by by apply (esize_bound e').
  assert (Hk : esize e' = esize e + nd) by (unfold esize, nd, e'; cbn [ze_large ze_data]; lia).
  destruct (retail L (T - totlen) c ((A ++ Q) ++ enc_ent pv e') [] e e' r (10 + zlen A) nd
    (p - nd + esize e')) as (c0 & F1 & F2); try done.
  { rewrite !zlen_app, enc_ent_zlen, zhead_zlen, Hp, HQ. lia. }
  { unfold T. rewrite Hp, last_off_shift. lia. }
  { unfold nd. destruct (psize_cases (ze_large e)), (psize_cases lg); cint. }
  { cint. }
  rewrite <- !app_assoc in F1, F2. fold h in F1, F2. rewrite <- !app_assoc. rewrite F1. step.
  rewrite F2. step. rewrite bytes_spec by (pose proof (esize_pos e); cint). step.
  set (h2 := zhead L _ c). set (bs := enc_ent pv e' ++ ents (esize e) r).
  assert (Hbs : zlen bs = psize lg + zlen D)
    by (unfold bs, D; rewrite !zlen_app, enc_ent_zlen, enc_data_zlen; unfold esize, e'; cbn; lia).
  assert (HD : zlen D = dsize (ze_data e) + total r)
    by (unfold D; rewrite zlen_app, enc_data_zlen, ents_zlen; lia).
  assert (En : L -[64] (p - nd) -[64] 1 = zlen bs).
  { assert (HL2 : L - (p - nd) = zlen bs + 1) by (unfold nd; lia). rewrite HL2.
    pose proof (zlen_nonneg bs). assert (zlen bs < 2 ^ 32)
      by (rewrite Hbs, HD; destruct (psize_cases lg), (psize_cases (ze_large e)); lia).
    rewrite (wrap_small 64 (zlen bs + 1)), wrap_small by cint. lia. }
  destruct (split_zlen (Q ++ bs) (zlen bs)) as (b & w & Eb & Hbl & _);
    [rewrite zlen_app; pose proof (zlen_nonneg Q); pose proof (zlen_nonneg bs); lia|].
  rewrite (memmove_pieces _ (h2 ++ A ++ Q) bs [ZIP_END] (h2 ++ A) b (w ++ [ZIP_END])).
  - exists (w ++ [ZIP_END]). step. by rewrite <- !app_assoc.
  - unfold bs. by rewrite <- !app_assoc.
  - rewrite <- !app_assoc. do 2 f_equal. rewrite !app_assoc. f_equal. by rewrite <- Eb, <- app_assoc.
  - rewrite !zlen_app. unfold h2. rewrite zhead_zlen. lia.
  - exact En.
  - rewrite zlen_app. unfold h2. rewrite zhead_zlen. lia.
  - rewrite En. lia.
Qed.

(** The entry count after [incr] entries were added. *)
Definition incr_cnt (c incr : Z) : Z := if c <? UINT16_MAX then u16 (c + incr) else c.

Lemma incr_length_spec len tail c X k : in_u 16 c ->
  ZIPLIST_INCR_LENGTH (zhead len tail c ++ X) k = Some (zhead len tail (incr_cnt c k) ++ X).
Proof.
  intros Hc. unfold ZIPLIST_INCR_LENGTH, incr_cnt. rewrite length_spec by done. step.
  case_match; [apply set_length_spec|done].
Qed.

(** After the bytes moved: the block is resized and the count and the entries
    after the change are brought up to date. *)
Lemma delete_finish L n T c k A bs W e' old r pv nd : in_u 32 L -> in_u 16 c ->
  bs = enc_ent pv e' ++ ents old r -> n = 11 + zlen A + zlen bs -> 0 <= n < 2 ^ 32 ->
  T = last_off (10 + zlen A) (e' :: r) ->
  (bytes ← ZIPLIST_BYTES (zhead L T c ++ A ++ bs ++ W);
   zl ← ziplistResize (zhead L T c ++ A ++ bs ++ W) (u32 (bytes - (L - n + nd) + nd));
   zl ← ZIPLIST_INCR_LENGTH zl k;
   if negb (nd =? 0) then __ziplistCascadeUpdate junk zl (10 + zlen A) else Some zl) =
  (if negb (nd =? 0) then __ziplistCascadeUpdate junk (cblock A (incr_cnt c k) pv e' old r) (10 + zlen A)
   else Some (cblock A (incr_cnt c k) pv e' old r)).
Proof.
  intros HL Hc -> Hn Hb ->. rewrite bytes_spec by done. step.
  replace (L - (L - n + nd) + nd) with n by lia. rewrite (wrap_small 32) by done.
  replace (A ++ (enc_ent pv e' ++ ents old r) ++ W) with ((A ++ enc_ent pv e' ++ ents old r) ++ W)
    by by rewrite <- !app_assoc.
  rewrite zl_resize_shrink by (rewrite ?zlen_app in *; lia). step.
  rewrite incr_length_spec by done. step.
  assert (E : cblock A (incr_cnt c k) pv e' old r =
    zhead n (last_off (10 + zlen A) (e' :: r)) (incr_cnt c k) ++ (A ++ enc_ent pv e' ++ ents old r) ++ [ZIP_END]).
  { unfold cblock. rewrite <- !app_assoc. f_equal. f_equal. rewrite Hn, zlen_app, enc_ent_zlen, ents_zlen.
    cbn [total]. lia. }
  by rewrite E.
Qed.

Lemma delete_last c l1 ld k : in_u 16 c -> 11 + total (l1 ++ ld) < 2 ^ 31 ->
  let zl := zblock c (l1 ++ ld) in
  exists zl1, set_tail zl (u32 (10 + total l1 - prev_of 0 l1)) = Some zl1 /\
  (bytes ← ZIPLIST_BYTES zl1;
   zl ← ziplistResize zl1 (u32 (bytes - total ld + 0));
   ZIPLIST_INCR_LENGTH zl k) = Some (zblock (incr_cnt c k) l1).
Proof.
  intros Hc Hb zl. rewrite total_app in Hb.
  pose proof (total_nonneg l1). pose proof (total_nonneg ld).
  assert (Ht : 10 + total l1 - prev_of 0 l1 = last_off 10 l1).
  { destruct l1 as [|d l1]; [done|]. pose proof (last_off_prev (d :: l1) 10 0 ltac:(done)). lia. }
  pose proof (last_off_ge l1 10). pose proof (last_off_le l1 10).
  rewrite Ht, (wrap_small 32) by cint. unfold zl, zblock. rewrite set_tail_spec.
  eexists. split; [done|]. rewrite total_app, bytes_spec by cint. step. rewrite ents_app, <- app_assoc.
  rewrite (wrap_small 32) by cint.
  rewrite zl_resize_shrink by (rewrite ?ents_zlen; lia). step. rewrite incr_length_spec by done.
  do 2 f_equal. f_equal. lia.
Qed.

Lemma zblock_length c l : length (zblock c l) = Z.to_nat (11 + total l).
Proof.
  rewrite <- zlen_to_nat. f_equal. unfold zblock. rewrite !zlen_app, zhead_zlen, ents_zlen, zlen_one. lia.
Qed.

Lemma zblock_at c l1 l2 :
  zblock c (l1 ++ l2) = (zhead (11 + total (l1 ++ l2)) (last_off 10 (l1 ++ l2)) c ++ ents 0 l1) ++
    ents (prev_of 0 l1) l2 ++ ZIP_END :: [].
Proof. unfold zblock. rewrite ents_app. by rewrite <- !app_assoc. Qed.

(** A run of entries starts with one whose field holds the size before it. *)
Lemma run_room pv ld l2 : wf pv (ld ++ l2) -> ld <> [] ->
  0 <= pv < 2 ^ 31 /\ 2 <= total ld /\ (ZIP_BIGLEN <= pv -> 4 <= total ld).
Proof.
  destruct ld as [|d ld]; [done|]. intros ((Hp & Hs) & _) _. cbn [total].
  pose proof (total_nonneg ld). pose proof (esize_pos d). pose proof (dsize_pos (ze_data d)).
  split; [done|]. split; [lia|]. intros Hbig. unfold esize. destruct (ze_large d); cbn; [lia|].
  specialize (Hs eq_refl). lia.
Qed.

(** The deletion up to the two cases of what follows the deleted entries. *)
Lemma delete_start c l1 ld l2 num (pv := prev_of 0 l1) (zl := zblock c (l1 ++ ld ++ l2)) :
  wf 0 (l1 ++ ld ++ l2) -> ld <> [] -> zlen ld = num \/ (l2 = [] /\ zlen ld <= num) ->
  11 + total (l1 ++ ld ++ l2) < 2 ^ 31 ->
  exists first, e_p first = 10 + total l1 /\ e_prevrawlen first = pv /\
  __ziplistDelete junk zl (10 + total l1) num =
    ('(zl, nd) ←
       (if bool_decide (l2 = []) then
          zl ← set_tail zl (u32 (10 + total l1 - pv)); Some (zl, 0)
        else pull_tail zl first (10 + total l1 + total ld) (total ld));
     bytes ← ZIPLIST_BYTES zl;
     zl ← ziplistResize zl (u32 (bytes - total ld + nd));
     zl ← ZIPLIST_INCR_LENGTH zl (- zlen ld);
     if negb (nd =? 0) then __ziplistCascadeUpdate junk zl (10 + total l1) else Some zl).
Proof.
  intros Hw Hne Hnum Hb. apply wf_app in Hw as [Hw1 Hw]. fold pv in Hw.
  destruct (run_room pv ld l2 Hw Hne) as (Hpv & Htl & Hroom).
  set (h := zhead (11 + total (l1 ++ ld ++ l2)) (last_off 10 (l1 ++ ld ++ l2)) c ++ ents 0 l1).
  assert (Hp : 10 + total l1 = zlen h) by (unfold h; by rewrite zlen_app, ents_zlen).
  pose proof (zblock_at c l1 (ld ++ l2)) as Ez. fold h pv zl in Ez.
  assert (Hf : exists first, zipEntry zl (10 + total l1) = Some first /\
    e_p first = 10 + total l1 /\ e_prevrawlen first = pv).
  { rewrite Ez. destruct ld as [|d ld]; [done|]. destruct Hw as (Ho & Hs & _). cbn [app ents].
    rewrite <- app_assoc, (zipEntry_spec h _ Hp) by done. by eexists. }
  destruct Hf as (first & Hf & Hf1 & Hf2). exists first. split; [done|]. split; [done|].
  unfold __ziplistDelete. rewrite Hf. step.
  pose proof (total_nonneg l1). rewrite !total_app in Hb. pose proof (total_nonneg l2).
  assert (Hsk : skip_entries (S (length zl)) zl (10 + total l1) 0 num =
    Some (10 + total l1 + total ld, zlen ld)).
  { rewrite Ez at 2. rewrite (skip_entries_spec ld _ h pv l2 [] 0 num) by
      (try done; unfold zl; rewrite zblock_length, !total_app; pose proof (total_ge ld); unfold zlen in *; lia).
    done. }
  rewrite Hsk. step. rewrite Hf1, Hf2.
  replace (10 + total l1 + total ld - (10 + total l1)) with (total ld) by lia.
  rewrite (wrap_small 32 (total ld)) by cint. rewrite (proj2 (Z.ltb_lt 0 _)) by lia.
  assert (Ez2 : zl = (h ++ ents pv ld) ++ ents (prev_of pv ld) l2 ++ ZIP_END :: [])
    by (rewrite Ez, ents_app; by rewrite <- !app_assoc).
  assert (Hp2 : 10 + total l1 + total ld = zlen (h ++ ents pv ld)) by (rewrite zlen_app, ents_zlen; lia).
  apply wf_app in Hw as [_ Hw2].
  destruct (first_byte _ _ Hp2 [] _ _ Hw2) as (c0 & E0 & Ec0). rewrite <- Ez2 in E0.
  rewrite E0. step. rewrite Ec0. by case_bool_decide.
Qed.

Lemma ziplistDelete_spec c l1 ld l2 num (pv := prev_of 0 l1) :
  in_u 16 c -> wf 0 (l1 ++ ld ++ l2) -> ld <> [] -> zlen ld = num \/ (l2 = [] /\ zlen ld <= num) ->
  11 + total (l1 ++ ld ++ l2) < 2 ^ 31 -> 11 + total (l1 ++ fix_next pv l2) < 2 ^ 31 ->
  __ziplistDelete junk (zblock c (l1 ++ ld ++ l2)) (10 + total l1) num =
    Some (zblock (incr_cnt c (- zlen ld)) (l1 ++ fix_next pv l2)).
Proof.
  intros Hc Hw Hne Hnum Hb Hb2.
  destruct (delete_start c l1 ld l2 num Hw Hne Hnum Hb) as (first & Hf1 & Hf2 & ->). fold pv in Hf2 |- *.
  apply wf_app in Hw as [Hw1 Hw]. fold pv in Hw. destruct (run_room pv ld l2 Hw Hne) as (Hpv & Htl & Hroom).
  destruct l2 as [|e r].
  - rewrite bool_decide_true by done. cbn [fix_next]. rewrite !app_nil_r in *.
    destruct (delete_last c l1 ld (- zlen ld) Hc Hb) as (zl1 & E1 & E).
    fold pv in E1. rewrite E1. step. rewrite <- E. destruct (ZIPLIST_BYTES zl1); step; [|done]. destruct (ziplistResize zl1 _); step; [|done].
    by destruct (ZIPLIST_INCR_LENGTH _ _).
  - rewrite bool_decide_false by done. cbn [fix_next] in *. set (e' := Ze _ (ze_data e)) in *.
    rewrite (total_app l1), (total_app ld) in Hb. rewrite total_app in Hb2. cbn [total] in Hb, Hb2. pose proof (total_nonneg l1).
    pose proof (total_nonneg r). pose proof (esize_pos e). pose proof (esize_pos e').
    pose proof (total_grow r (esize e')).
    apply wf_app in Hw as [_ (Ho & Hs & Hw)]. set (L := 11 + total l1 + total ld + esize e + total r).
    destruct (pull_tail_spec L c (ents 0 l1) (ents pv ld) (prev_of pv ld) e r pv first
      (10 + total l1 + total ld) (total ld)) as (W & E); try done; rewrite ?ents_zlen; try (unfold L; lia).
    assert (Ez : zblock c (l1 ++ ld ++ e :: r) = zhead L (last_off (10 + total l1 + total ld) (e :: r)) c ++
      ents 0 l1 ++ ents pv ld ++ enc_ent (prev_of pv ld) e ++ ents (esize e) r ++ [ZIP_END]).
    { unfold zblock. rewrite (app_assoc l1 ld), last_off_app, !ents_app, !total_app, prev_of_app. cbn [ents total].
      rewrite <- !app_assoc. unfold L. do 2 f_equal; [lia|f_equal; lia]. }
    rewrite ents_zlen in E. rewrite Ez, E. step. fold e'. set (nd := psize (ze_large e') - psize (ze_large e)).
    assert (Hnd : esize e' = esize e + nd) by (unfold nd, esize, e'; cbn; lia).
    set (bs := enc_ent pv e' ++ ents (esize e) r). set (n := 11 + zlen (ents 0 l1) + zlen bs).
    assert (Hn : n = L - total ld + nd)
      by (unfold n, bs, L; rewrite zlen_app, enc_ent_zlen, !ents_zlen; lia).
    pose proof (delete_finish L n (last_off (10 + total l1) (e' :: r)) c (- zlen ld) (ents 0 l1) bs W e'
      (esize e) r pv nd) as F. rewrite ents_zlen in F.
    replace (L - n + nd) with (total ld) in F by lia. rewrite F; try done; try (unfold L; cint).
    clear F. pose proof (settle (ents 0 l1) (incr_cnt c (- zlen ld)) pv (ze_large e') e r) as G.
    rewrite ents_zlen in G. cbn zeta in G. unfold nd. fold e' in G. rewrite zblock_split. apply G; try done.
    + by apply prev_ok_width.
    + change (Ze (ze_large e') (ze_data e)) with e'. cbn [total]. lia.
    + unfold n. by rewrite ents_zlen.
Qed.
End Allocator.
