(* ===== verification/ZiplistIns.v ===== *)
(** Insertion into a compressed list: the gap for the new entry, the entry
    written in it, and the whole of [__ziplistInsert]. *)
From S2P Require Import Prelude Util Ziplist ZiplistRep ZiplistOps.
Local Open Scope c_scope.

(** ** Writing the entry *)

Lemma le_encode_zlen n v : zlen (le_encode n v) = Z.of_nat n.
Proof. unfold zlen. by rewrite le_encode_length. Qed.

Lemma le_encode_shift v : le_encode 4 (v * 256) = 0 :: le_encode 3 v.
Proof.
  change (le_encode 4 (v * 256)) with ((v * 256) mod 256 :: le_encode 3 (v * 256 / 256)).
  by rewrite Z.mod_mul, Z.div_mul by lia.
Qed.

Lemma zipSaveInteger_spec a g b s v q : int_of s = Some v -> q = zlen a ->
  zlen g = zlen (payload s) ->
  zipSaveInteger (a ++ g ++ b) q v (int_code v) = Some (a ++ payload s ++ b).
Proof.
  intros Hi -> Hg. rewrite (int_payload s v Hi) in Hg.
  assert (Hp : payload s = int_bytes v) by (unfold payload; by rewrite Hi).
  apply int_of_Some in Hi as [Hv _]. rewrite Hp. clear Hp s. unfold int_bytes.
  destruct (int_code_cases v Hv) as [[Hr E]|(c & n & Hin & E & Hn)]; rewrite E in *.
  - assert (Hin : In v (seqZ 0 13)) by (apply list_elem_of_In, elem_of_seqZ; lia).
    cbn in Hin. repeat destruct Hin as [<-|Hin]; try done; (destruct g; [done|]);
      rewrite zlen_cons in Hg; pose proof (zlen_nonneg g);
      change (zipIntSize _) with 0 in Hg; lia.
  - cbn [In] in Hin. repeat destruct Hin as [[= <- <-]|Hin]; try done; unfold zipSaveInteger;
      repeat match goal with |- context [?x =? ?y] => change (x =? y) with true || change (x =? y) with false end;
      cbv iota.
    1,2,4,5: rewrite swrap_small by (lia || exact Hn); apply write_at; [done|by rewrite Hg].
    rewrite Z.shiftl_mul_pow2 by lia. change (2 ^ 8) with 256.
    rewrite swrap_small by (try lia; unfold in_s in *; cbn in Hn; cbn; lia).
    rewrite le_encode_shift. apply write_at; [done|by rewrite Hg].
Qed.

(** The value and the encoding [__ziplistInsert] passes on. *)
Definition ins_value (s : list Z) : Z := match int_of s with Some v => v | None => 123456789 end.

Lemma hdr_is_str s : ZIP_IS_STR (code s) = bool_decide (int_of s = None).
Proof.
  unfold code. destruct (int_of s) as [v|] eqn:Hi; [|done].
  pose proof (shown_is_str s) as H. unfold shown_code in H. by rewrite Hi in H.
Qed.

Lemma write_entry_spec a g b p pv s : p = zlen a -> 0 <= pv < 2 ^ 31 ->
  let ni := Ze (bool_decide (ZIP_BIGLEN <= pv)) s in zlen g = esize ni ->
  write_entry (a ++ g ++ b) p pv (code s) (ins_value s) s (zlen s) = Some (a ++ enc_ent pv ni ++ b).
Proof.
  intros -> Hpv ni Hg. unfold write_entry, enc_ent, ni. cbn [ze_large ze_data].
  unfold esize, dsize, ni in Hg. cbn [ze_large ze_data] in Hg. set (lg := bool_decide _) in *.
  pose proof (zlen_nonneg (hdr s)). pose proof (zlen_nonneg (payload s)).
  destruct (split_zlen g (psize lg)) as (g1 & g' & -> & H1 & H2); [destruct (psize_cases lg); lia|].
  rewrite Hg in H2. rewrite <- app_assoc, (prev_encode_spec a g1 _ _ pv lg) by done. step.
  destruct (split_zlen g' (zlen (hdr s))) as (g2 & g3 & -> & H3 & H4); [lia|].
  unfold zipEncodeLength, zipEncodeLength_len. fold (hdr s).
  rewrite <- app_assoc, app_assoc, write_at by (rewrite ?zlen_app, ?enc_prev_zlen; lia). step.
  unfold enc_data. rewrite hdr_is_str. rewrite (app_assoc (a ++ _) (hdr s)).
  assert (Hq : zlen a + psize lg + zlen (hdr s) = zlen ((a ++ enc_prev lg pv) ++ hdr s))
    by (rewrite !zlen_app, enc_prev_zlen; lia).
  destruct (int_of s) as [v|] eqn:Hi.
  - rewrite bool_decide_false by done. unfold code, ins_value. rewrite Hi.
    rewrite (zipSaveInteger_spec _ _ _ s v) by (try done; lia). by rewrite <- !app_assoc.
  - rewrite bool_decide_true by done. assert (Hp : payload s = s) by (unfold payload; by rewrite Hi).
    assert (Hr : mem_read s 0 (zlen s) = Some s).
    { pose proof (mem_read_app [] s [] 0 (zlen s) eq_refl eq_refl) as E. by rewrite app_nil_r in E. }
    rewrite Hr. step. rewrite Hp in *. rewrite write_at by (try done; lia). by rewrite <- !app_assoc.
Qed.

(** ** The size of the entry before the position *)

Lemma prev_of_bound l : forall p, 0 <= p -> 0 <= prev_of p l <= p + total l.
Proof.
  induction l as [|e l IH]; intros p Hp; cbn [prev_of total]; [lia|].
  pose proof (esize_pos e). specialize (IH (esize e) ltac:(lia)). lia.
Qed.

Lemma insert_prevlen_spec c l1 l2 : wf 0 (l1 ++ l2) -> 11 + total (l1 ++ l2) < 2 ^ 31 ->
  insert_prevlen (zblock c (l1 ++ l2)) (10 + total l1) = Some (prev_of 0 l1).
Proof.
  intros Hw Hb. unfold insert_prevlen. rewrite total_app in Hb.
  pose proof (total_nonneg l1). pose proof (total_nonneg l2).
  pose proof (zblock_at c l1 l2) as Ez. set (zl := zblock c (l1 ++ l2)) in *.
  pose proof Hw as Hw2. apply wf_app in Hw2 as [Hw1 Hw2].
  match type of Ez with _ = ?h ++ _ => assert (Hp : 10 + total l1 = zlen h)
    by (by rewrite zlen_app, ents_zlen); set (h0 := h) in * end.
  destruct (first_byte h0 _ Hp [] _ _ Hw2) as (c0 & E0 & Ec0). rewrite <- Ez in E0.
  rewrite E0. step. rewrite Ec0. destruct l2 as [|e r].
  - rewrite bool_decide_true by done. cbn [negb]. unfold ZIPLIST_ENTRY_TAIL.
    assert (Et : ZIPLIST_TAIL_OFFSET zl = Some (last_off 10 l1)).
    { unfold zl, zblock. rewrite app_nil_r. pose proof (last_off_ge l1 10). pose proof (last_off_le l1 10).
      apply tail_spec. cint. }
    rewrite Et. step. destruct l1 as [|x l0 _] using rev_ind.
    + change (10 + total []) with (last_off 10 []) in E0. rewrite E0. step.
      by rewrite Ec0, bool_decide_true.
    + rewrite last_off_app. cbn [last_off]. rewrite prev_of_app. cbn [prev_of].
      unfold zl. rewrite app_nil_r in *. rewrite zblock_at.
      apply wf_app in Hw1 as [_ Hw1]. match goal with |- context [?h ++ ents (prev_of 0 l0) [x] ++ _] =>
        assert (Hq : 10 + total l0 = zlen h) by (by rewrite zlen_app, ents_zlen);
        destruct (first_byte h _ Hq [] _ _ Hw1) as (c1 & E1 & Ec1) end.
      rewrite E1. step. rewrite Ec1, bool_decide_false by done. cbn [negb ents]. rewrite app_nil_r.
      destruct Hw1 as (Ho & Hs & _). by apply rawlen_spec.
  - rewrite bool_decide_false by done. cbn [negb]. destruct Hw2 as (Ho & Hs & _).
    rewrite Ez. cbn [ents]. rewrite <- app_assoc, (prevlen_ent h0 _ Hp) by done. done.
Qed.

(** ** The gap *)

(** The tail moves to the back and its first entry stores the size [req] of the
    entry that is going to be written in the gap [W]. *)
Lemma push_tail_spec L c A pv e r G p req curlen :
  let lg := bool_decide (ZIP_BIGLEN <= req) in let e' := Ze lg (ze_data e) in
  let nd := psize lg - psize (ze_large e) in
  prev_ok (ze_large e) pv -> small (ze_data e) -> wf (esize e) r -> 2 <= req < 2 ^ 31 ->
  p = 10 + zlen A -> zlen G = req + nd ->
  curlen = 11 + zlen A + esize e + total r -> L = curlen + req + nd -> L < 2 ^ 31 -> curlen < 2 ^ 31 ->
  exists W, zlen W = req /\
  push_tail (zhead L (last_off p (e :: r)) c ++ A ++ enc_ent pv e ++ ents (esize e) r ++ G ++ [ZIP_END])
      p curlen req nd =
    Some (zhead L (last_off (p + req) (e' :: r)) c ++ (A ++ W) ++ enc_ent req e' ++ ents (esize e) r ++
            [ZIP_END]).
Proof.
  intros lg e' nd Hpv Hs Hw Hreq Hp HG Hcur HL Hb Hb2. set (T := last_off p (e :: r)).
  pose proof (zlen_nonneg A). pose proof (total_nonneg r). pose proof (dsize_pos (ze_data e)).
  pose proof (last_off_ge (e :: r) p) as HT1. pose proof (last_off_le (e :: r) p) as HT2.
  fold T in HT1, HT2. cbn [total] in HT2.
  assert (Hsz : esize e = psize (ze_large e) + dsize (ze_data e)) by done.
  assert (Hlg : prev_ok lg req) by (apply prev_ok_width; lia).
  pose proof (psize_cases lg) as Hc1. pose proof (psize_cases (ze_large e)) as Hc2.
  set (P := enc_prev (ze_large e) pv). set (D := enc_data (ze_data e) ++ ents (esize e) r).
  assert (HD : zlen D = dsize (ze_data e) + total r)
    by (unfold D; rewrite zlen_app, enc_data_zlen, ents_zlen; lia).
  set (h0 := zhead L T c). set (zl := h0 ++ _).
  assert (E1 : zl = (h0 ++ A ++ P) ++ D ++ G ++ [ZIP_END])
    by (unfold zl, enc_ent, D, P; by rewrite <- !app_assoc).
  destruct (split_zlen (h0 ++ A ++ P) (zlen (h0 ++ A ++ P) - psize lg)) as (Q & Gs & EQ & HQ & HGs);
    [rewrite !zlen_app; unfold P, h0; rewrite enc_prev_zlen, zhead_zlen; lia|].
  rewrite !zlen_app in HQ, HGs. unfold P, h0 in HQ, HGs. rewrite enc_prev_zlen, zhead_zlen in HQ, HGs.
  destruct (split_zlen (P ++ D ++ G) req) as (W & b & EW & HW & Hbl);
    [rewrite !zlen_app; unfold P; rewrite enc_prev_zlen; unfold nd in *; lia|].
  rewrite !zlen_app in Hbl. unfold P in Hbl. rewrite enc_prev_zlen in Hbl.
  exists W. split; [done|]. unfold push_tail.
  assert (En : u64 (curlen - p - 1 + nd) = zlen (Gs ++ D)).
  { rewrite wrap_small by (unfold nd; cint). rewrite zlen_app. unfold nd. lia. }
  rewrite En, (memmove_pieces zl Q (Gs ++ D) (G ++ [ZIP_END]) (h0 ++ A ++ W) b [ZIP_END]); cycle 1.
  { rewrite E1, EQ. by rewrite <- !app_assoc. }
  { rewrite E1. rewrite <- !app_assoc. do 2 f_equal. rewrite (app_assoc W), <- EW. by rewrite <- !app_assoc. }
  { unfold nd. lia. } { done. } { unfold h0. rewrite !zlen_app, zhead_zlen. lia. }
  { rewrite zlen_app. unfold nd in *. lia. }
  step. rewrite <- (app_assoc Gs), (prev_encode_spec (h0 ++ A ++ W) Gs _ _ _ lg); cycle 1.
  { unfold h0. rewrite !zlen_app, zhead_zlen. lia. } { rewrite wrap_small by cint. lia. }
  { by rewrite wrap_small by cint. } { lia. }
  step. rewrite (wrap_small 32 req) by cint. rewrite <- app_assoc. unfold h0. rewrite tail_spec by cint. step.
  rewrite set_tail_spec, (wrap_small 32) by cint. step. set (h1 := zhead L (T + req) c).
  assert (E3 : h1 ++ (A ++ W) ++ enc_prev lg req ++ D ++ [ZIP_END] =
    (h1 ++ (A ++ W)) ++ enc_ent req e' ++ ents (esize e) r ++ [ZIP_END])
    by (unfold enc_ent, D; by rewrite <- !app_assoc).
  assert (Hp' : p + req = zlen (h1 ++ (A ++ W))) by (unfold h1; rewrite !zlen_app, zhead_zlen; lia).
  rewrite E3, (zipEntry_spec _ _ Hp') by done. step. cbn [e_headersize e_len].
  rewrite (esize_sum e'), (wrap_small 32 (esize e')) by by apply (esize_bound e').
  destruct (retail L (T + req) c ((A ++ W) ++ enc_ent req e') [] e e' r (p + req) nd
    (p + req + esize e')) as (c0 & F1 & F2); try done.
  { rewrite !zlen_app, enc_ent_zlen, zhead_zlen. lia. }
  { unfold esize, nd, e'. cbn [ze_large ze_data]. lia. }
  { unfold T. by rewrite last_off_shift. }
  { unfold nd. cint. } { cint. }
  rewrite <- !app_assoc in F1, F2. fold h1 in F1, F2. rewrite <- !app_assoc. rewrite F1. step.
  exact F2.
Qed.

(** ** The whole insertion *)

(** The entry for [s] after an entry of [pv] bytes. *)
Definition new_ent (pv : Z) (s : list Z) : zent := Ze (bool_decide (ZIP_BIGLEN <= pv)) s.

(** What the insertion in front of the entries [l2] needs: a next entry whose
    field keeps five bytes for a size of one byte shrinks by four, which must not
    be more than the new entry takes. *)
Definition can_insert (pv : Z) (s : list Z) (l2 : list zent) : Prop :=
  match l2 with
  | e :: _ => ze_large e = true -> 4 <= esize (new_ent pv s)
  | [] => True
  end.

Global Instance can_insert_dec pv s l2 : Decision (can_insert pv s l2).
Proof. unfold can_insert. destruct l2; apply _. Defined.

Section Allocator.
Context (junk : nat -> Z).
Notation ziplistResize := (ziplistResize junk).

(** The insertion up to the two cases of what follows the position. *)
Lemma insert_start c l1 l2 s (pv := prev_of 0 l1) (req := esize (new_ent pv s))
    (p := 10 + total l1) (curlen := 11 + total (l1 ++ l2))
    (nd := match l2 with [] => 0
           | e :: _ => psize (bool_decide (ZIP_BIGLEN <= req)) - psize (ze_large e) end) :
  wf 0 (l1 ++ l2) -> curlen < 2 ^ 31 -> req < 2 ^ 31 ->
  __ziplistInsert junk (zblock c (l1 ++ l2)) p s (zlen s) =
    (zl ← ziplistResize (zblock c (l1 ++ l2)) (u32 (curlen + req + nd));
     c ← znth zl p;
     zl ← (if negb (c =? ZIP_END) then push_tail zl p curlen req nd else set_tail zl p);
     zl ← (if negb (nd =? 0) then __ziplistCascadeUpdate junk zl (p + req) else Some zl);
     zl ← write_entry zl p pv (code s) (ins_value s) s (zlen s);
     ZIPLIST_INCR_LENGTH zl 1).
Proof.
  intros Hw Hb Hreq. pose proof (total_nonneg (l1 ++ l2)). unfold __ziplistInsert.
  assert (E1 : ZIPLIST_BYTES (zblock c (l1 ++ l2)) = Some curlen)
    by (unfold zblock; apply bytes_spec; cint).
  pose proof (insert_prevlen_spec c l1 l2 Hw Hb) as E2. fold p pv in E2.
  rewrite E1. step. rewrite E2. step. rewrite zipTryEncoding_spec. step.
  assert (E3 : match match int_of s with Some v => Some (v, int_code v) | None => None end with
    | Some (value, encoding) => (value, encoding, zipIntSize encoding)
    | None => (123456789, 0, zlen s) end = (ins_value s, code s, zlen (payload s))).
  { unfold ins_value, code. destruct (int_of s) as [v|] eqn:Hi.
    - by rewrite (int_payload s v Hi).
    - unfold payload. by rewrite Hi. }
  rewrite E3, encode_len_psize. unfold zipEncodeLength_len. fold (hdr s).
  assert (Er : zlen (payload s) + psize (bool_decide (ZIP_BIGLEN <= pv)) + zlen (hdr s) = req)
    by (unfold req, esize, new_ent, dsize; cbn [ze_large ze_data]; lia).
  rewrite Er. clear E1 E2 E3 Er. pose proof (zblock_at c l1 l2) as Ez. fold pv in Ez.
  pose proof Hw as Hw2. apply wf_app in Hw2 as [_ Hw2]. fold pv in Hw2.
  match type of Ez with _ = ?h ++ _ => assert (Hp : p = zlen h)
    by (unfold p; by rewrite zlen_app, ents_zlen); set (h0 := h) in * end.
  destruct (first_byte h0 p Hp [] _ _ Hw2) as (c0 & E0 & Ec0). rewrite <- Ez in E0.
  rewrite E0. step. rewrite Ec0. destruct l2 as [|e r].
  - rewrite bool_decide_true by done. done.
  - rewrite bool_decide_false by done. cbn [negb]. destruct Hw2 as (Ho & Hs & _).
    assert (E4 : zipPrevLenByteDiff (zblock c (l1 ++ e :: r)) p (u32 req) = Some nd).
    { pose proof (esize_pos (new_ent pv s)). rewrite wrap_small by (unfold req in *; cint).
      rewrite Ez. cbn [ents]. unfold enc_ent. rewrite <- !app_assoc. by rewrite byte_diff_spec by done. }
    rewrite E4. done.
Qed.

Lemma insert_last c l1 s (pv := prev_of 0 l1) (ni := new_ent pv s) :
  in_u 16 c -> wf 0 l1 -> 11 + total (l1 ++ [ni]) < 2 ^ 31 ->
  __ziplistInsert junk (zblock c l1) (10 + total l1) s (zlen s) =
    Some (zblock (incr_cnt c 1) (l1 ++ [ni])).
Proof.
  intros Hc Hw Hb. rewrite total_app in Hb. cbn [total] in Hb.
  pose proof (total_nonneg l1). pose proof (esize_pos ni). pose proof (prev_of_bound l1 0 ltac:(lia)).
  pose proof (insert_start c l1 [] s) as E. cbv zeta in E. rewrite app_nil_r in E.
  fold pv in E. fold ni in E. rewrite E by (try done; lia). clear E.
  rewrite (wrap_small 32) by cint. unfold zblock at 1.
  destruct (zl_resize_grow junk (11 + total l1) (last_off 10 l1) c (ents 0 l1) (esize ni)
    (11 + total l1 + esize ni + 0)) as (G & -> & HG & Hend); [lia|rewrite ents_zlen; lia|lia|]. step.
  set (n := 11 + total l1 + esize ni + 0).
  assert (E0 : znth (zhead n (last_off 10 l1) c ++ ents 0 l1 ++ G ++ [ZIP_END]) (10 + total l1) = Some ZIP_END).
  { rewrite app_assoc. replace (10 + total l1) with (zlen (zhead n (last_off 10 l1) c ++ ents 0 l1))
      by (by rewrite zlen_app, ents_zlen). by rewrite znth_skip_0, Hend. }
  rewrite E0. step. change (negb (ZIP_END =? ZIP_END)) with false. cbv iota. rewrite set_tail_spec. step.
  change (negb (0 =? 0)) with false. cbv iota. step.
  rewrite app_assoc, (write_entry_spec _ G [ZIP_END] _ pv s); cycle 1.
  { by rewrite zlen_app, ents_zlen. } { lia. } { done. }
  step. rewrite <- app_assoc, incr_length_spec by done. fold (new_ent pv s). fold ni.
  unfold zblock. rewrite ents_app, total_app, last_off_app. cbn [ents total last_off]. fold pv.
  rewrite app_nil_r, <- !app_assoc. unfold n. do 3 f_equal. lia.
Qed.

Lemma insert_before c l1 e r s (pv := prev_of 0 l1) (ni := new_ent pv s) :
  in_u 16 c -> wf 0 (l1 ++ e :: r) -> can_insert pv s (e :: r) ->
  11 + total (l1 ++ e :: r) < 2 ^ 31 -> 11 + total (l1 ++ ni :: fix_next (esize ni) (e :: r)) < 2 ^ 31 ->
  __ziplistInsert junk (zblock c (l1 ++ e :: r)) (10 + total l1) s (zlen s) =
    Some (zblock (incr_cnt c 1) (l1 ++ ni :: fix_next (esize ni) (e :: r))).
Proof.
  intros Hc Hw Hcan Hb Hb2. pose proof Hw as Hw2. apply wf_app in Hw2 as [_ (Ho & Hs & Hw2)].
  fold pv in Ho. rewrite total_app in Hb, Hb2. cbn [total fix_next] in Hb, Hb2.
  pose proof (total_nonneg l1). pose proof (total_nonneg r). pose proof (esize_pos ni).
  pose proof (esize_pos e). pose proof (prev_of_bound l1 0 ltac:(lia)) as Hpv. fold pv in Hpv.
  set (req := esize ni) in *. set (e' := Ze (bool_decide (ZIP_BIGLEN <= req)) (ze_data e)) in *.
  pose proof (esize_pos e'). pose proof (total_grow r (esize e')). pose proof (total_nonneg (grow (esize e') r)).
  rewrite (insert_start c l1 (e :: r) s Hw) by (try (fold pv ni req); rewrite ?total_app; cbn [total]; lia).
  fold pv. fold ni. fold req. set (nd := psize _ - psize (ze_large e)).
  assert (Hnd : esize e' = esize e + nd) by (unfold esize, nd, e'; cbn [ze_large ze_data]; lia).
  assert (Hk : 0 <= req + nd).
  { unfold nd. cbn [can_insert] in Hcan. destruct (ze_large e); cbn [psize].
    - specialize (Hcan eq_refl). fold ni req in Hcan. case_bool_decide; cbn [psize]; lia.
    - case_bool_decide; cbn [psize]; lia. }
  set (L := 11 + total (l1 ++ e :: r) + req + nd).
  assert (HL : L = 11 + total l1 + esize e + total r + req + nd) by (unfold L; rewrite total_app; cbn; lia).
  rewrite (wrap_small 32) by cint. unfold zblock at 1.
  destruct (zl_resize_grow junk (11 + total (l1 ++ e :: r)) (last_off 10 (l1 ++ e :: r)) c
    (ents 0 (l1 ++ e :: r)) (req + nd) L) as (G & -> & HG & _);
    [done|rewrite ents_zlen, HL, total_app; cbn [total]; lia|lia|]. step.
  rewrite last_off_app, ents_app. fold pv. cbn [ents]. rewrite <- !app_assoc.
  set (p := 10 + total l1). set (h := zhead L (last_off p (e :: r)) c).
  destruct (ent_first (h ++ ents 0 l1) (ents (esize e) r ++ G ++ [ZIP_END]) pv e p) as (c0 & E0 & Ec0);
    [by rewrite zlen_app, ents_zlen|done|]. rewrite <- app_assoc in E0. rewrite E0. step.
  rewrite Ec0. cbn [negb].
  destruct (push_tail_spec L c (ents 0 l1) pv e r G p req (11 + total (l1 ++ e :: r))) as (W & HW & E);
    try done; rewrite ?ents_zlen, ?total_app; cbn [total]; try (unfold p; lia).
  fold e' in E. fold h in E. fold nd in E. rewrite total_app in E. cbn [total] in E.
  rewrite E. step. clear E E0.
  set (A := ents 0 l1 ++ W). assert (HA : zlen A = total l1 + req) by (unfold A; rewrite zlen_app, ents_zlen; lia).
  assert (Ec : zhead L (last_off (p + req) (e' :: r)) c ++ A ++ enc_ent req e' ++ ents (esize e) r ++
    [ZIP_END] = cblock A c req e' (esize e) r).
  { unfold cblock. do 2 f_equal; [cbn [total]; lia|f_equal; unfold p; lia]. }
  rewrite Ec. replace (p + req) with (10 + zlen A) by (unfold p; lia).
  pose proof (settle junk A c req (bool_decide (ZIP_BIGLEN <= req)) e r) as F. cbv zeta in F.
  fold e' in F. fold nd in F. rewrite F; try done; [|apply prev_ok_width; lia|cbn [total]; lia].
  step. clear F Ec. unfold cblock, A. rewrite <- app_assoc, app_assoc.
  rewrite (write_entry_spec _ W _ _ pv s); cycle 1.
  { unfold p. by rewrite zlen_app, ents_zlen. } { lia. } { done. }
  step. rewrite <- app_assoc, incr_length_spec by done. fold (new_ent pv s). fold ni. fold A.
  unfold zblock. cbn [fix_next]. fold req e'. rewrite ents_app, total_app, last_off_app.
  change (last_off (10 + total l1) (ni :: e' :: grow (esize e') r))
    with (last_off (10 + total l1 + req) (e' :: grow (esize e') r)).
  cbn [ents total]. fold pv req. rewrite <- !app_assoc. do 3 f_equal; [lia|f_equal; lia].
Qed.
End Allocator.
