(* ===== verification/ZiplistSpec.v ===== *)
(** What a compressed list promises: the block represents a list of byte
    strings, the cursors walk it in both directions, and insertions and
    deletions are those of lists. *)
From S2P Require Import Prelude Util Ziplist ZiplistRep ZiplistOps ZiplistIns.
Local Open Scope c_scope.

(** The block [zl] holds the entries [l]; the count is exact below 65535. *)
Record zrep (zl : list Z) (l : list zent) : Prop := mk_zrep {
  z_cnt : Z;
  z_block : zl = zblock z_cnt l;
  z_wf : wf 0 l;
  z_size : 11 + total l < 2 ^ 31;
  z_word : in_u 16 z_cnt;
  z_exact : z_cnt < UINT16_MAX -> z_cnt = zlen l;
}.

(** The offset of entry number [i], of the end mark when there is none. *)
Definition offset (l : list zent) (i : nat) : Z := 10 + total (take i l).

(** ** Moving between entries *)

Section Walk.
Context (c : Z) (l1 l2 : list zent) (Hw : wf 0 (l1 ++ l2)).
Notation zl := (zblock c (l1 ++ l2)).
Notation p := (10 + total l1).

Definition before : list Z :=
  zhead (11 + total (l1 ++ l2)) (last_off 10 (l1 ++ l2)) c ++ ents 0 l1.

Lemma before_zlen : p = zlen before.
Proof using. unfold before. by rewrite zlen_app, ents_zlen. Qed.

Lemma block_at : zl = before ++ ents (prev_of 0 l1) l2 ++ ZIP_END :: [].
Proof using. apply zblock_at. Qed.

Lemma wf_here : wf (prev_of 0 l1) l2.
Proof using Hw. pose proof Hw as H. by apply wf_app in H as [_ H]. Qed.

Lemma byte_here : exists x, znth zl p = Some x /\ Z.eqb x ZIP_END = bool_decide (l2 = []).
Proof using Hw. rewrite block_at. apply first_byte; [apply before_zlen|apply wf_here]. Qed.

End Walk.

Section Entry.
Context (c : Z) (l1 : list zent) (e : zent) (r : list zent) (Hw : wf 0 (l1 ++ e :: r)).
Notation zl := (zblock c (l1 ++ e :: r)).
Notation p := (10 + total l1).

Lemma entry_ok : prev_ok (ze_large e) (prev_of 0 l1) /\ small (ze_data e).
Proof using Hw. apply wf_here in Hw. by destruct Hw as (? & ? & _). Qed.

Lemma block_entry : zl = before c l1 (e :: r) ++ enc_ent (prev_of 0 l1) e ++
  ents (esize e) r ++ ZIP_END :: [].
Proof using. rewrite block_at. cbn [ents]. by rewrite <- app_assoc. Qed.

Lemma rawlen_here : zipRawEntryLength zl p = Some (esize e).
Proof using Hw.
  destruct entry_ok. rewrite block_entry. apply rawlen_spec; [apply before_zlen|done|done].
Qed.

Lemma prevlen_here : ZIP_DECODE_PREVLEN zl p = Some (psize (ze_large e), prev_of 0 l1).
Proof using Hw. destruct entry_ok. rewrite block_entry. apply prevlen_ent; [apply before_zlen|done]. Qed.

Lemma prevlensize_here : ZIP_DECODE_PREVLENSIZE zl p = Some (psize (ze_large e)).
Proof using Hw.
  destruct entry_ok. rewrite block_entry. eapply prevlensize_ent; [apply before_zlen|done].
Qed.

Lemma decode_here : ZIP_DECODE_LENGTH zl (p + psize (ze_large e)) =
  Some (shown_code (ze_data e), zlen (hdr (ze_data e)), zlen (payload (ze_data e))).
Proof using Hw.
  destruct entry_ok. rewrite block_entry. apply decode_length_spec; [apply before_zlen|done].
Qed.

Lemma zipEntry_here : zipEntry zl p =
  Some (mk_zlentry (psize (ze_large e)) (prev_of 0 l1) (zlen (hdr (ze_data e)))
    (zlen (payload (ze_data e))) (psize (ze_large e) + zlen (hdr (ze_data e))) (shown_code (ze_data e)) p).
Proof using Hw.
  destruct entry_ok. rewrite block_entry. apply zipEntry_spec; [apply before_zlen|done|done].
Qed.

(** The payload, at the offset the header leads to. *)
Lemma payload_here : exists a b, zl = a ++ payload (ze_data e) ++ b /\
  p + (psize (ze_large e) + zlen (hdr (ze_data e))) = zlen a.
Proof using.
  exists (before c l1 (e :: r) ++ enc_prev (ze_large e) (prev_of 0 l1) ++ hdr (ze_data e)),
    (ents (esize e) r ++ ZIP_END :: []). split.
  - rewrite block_entry. unfold enc_ent, enc_data. by rewrite <- !app_assoc.
  - rewrite !zlen_app, enc_prev_zlen, <- before_zlen. lia.
Qed.

Lemma next_offset : p + esize e = 10 + total (l1 ++ [e]).
Proof using. rewrite total_app. cbn [total]. lia. Qed.
End Entry.

Lemma snoc_split {A} (l1 : list A) e r : l1 ++ e :: r = (l1 ++ [e]) ++ r.
Proof. by rewrite <- app_assoc. Qed.

(** ** [ziplistNext], [ziplistPrev] *)

Lemma ziplistNext_spec c l1 e r : wf 0 (l1 ++ e :: r) ->
  ziplistNext (zblock c (l1 ++ e :: r)) (10 + total l1) =
    Some (if bool_decide (r = []) then None else Some (10 + total (l1 ++ [e]))).
Proof.
  intros Hw. unfold ziplistNext. destruct (byte_here c l1 (e :: r) Hw) as (x & -> & Ex). step.
  rewrite Ex, bool_decide_false, rawlen_here by done. step. rewrite next_offset.
  rewrite (snoc_split l1 e r) in Hw |- *. destruct (byte_here c (l1 ++ [e]) r Hw) as (y & -> & Ey). step.
  rewrite Ey. by case_bool_decide.
Qed.

Lemma ziplistPrev_spec c l1 e x r : wf 0 (l1 ++ e :: x :: r) ->
  ziplistPrev (zblock c (l1 ++ e :: x :: r)) (10 + total (l1 ++ [e])) = Some (Some (10 + total l1)).
Proof.
  rewrite (snoc_split l1 e). intros Hw. unfold ziplistPrev, ZIPLIST_ENTRY_HEAD.
  destruct (byte_here c (l1 ++ [e]) (x :: r) Hw) as (y & -> & Ey). step.
  rewrite Ey, bool_decide_false, prevlen_here by done. pose proof (esize_pos e).
  pose proof (total_nonneg l1). rewrite total_app, prev_of_app. cbn [total prev_of].
  rewrite (proj2 (Z.eqb_neq _ _)) by (unfold ZIPLIST_HEADER_SIZE; lia). step. rewrite (proj2 (Z.ltb_lt _ _)) by lia.
  do 2 f_equal. lia.
Qed.

Lemma ziplistPrev_head c e r : wf 0 (e :: r) -> ziplistPrev (zblock c (e :: r)) 10 = Some None.
Proof.
  intros Hw. unfold ziplistPrev. destruct (byte_here c [] (e :: r) Hw) as (y & E & Ey).
  change (10 + total []) with 10 in E. cbn [app] in E. rewrite E. step.
  by rewrite Ey, bool_decide_false.
Qed.

Lemma tail_offset_spec c l : 11 + total l < 2 ^ 31 ->
  ZIPLIST_TAIL_OFFSET (zblock c l) = Some (last_off 10 l).
Proof.
  intros Hb. unfold zblock. apply tail_spec. pose proof (last_off_ge l 10).
  pose proof (last_off_le l 10). cint.
Qed.

Lemma ziplistPrev_end c l : wf 0 l -> 11 + total l < 2 ^ 31 ->
  ziplistPrev (zblock c l) (10 + total l) =
    Some (if bool_decide (l = []) then None else Some (last_off 10 l)).
Proof.
  intros Hw Hb. unfold ziplistPrev, ZIPLIST_ENTRY_TAIL. rewrite tail_offset_spec by done.
  assert (Hw2 : wf 0 (l ++ [])) by by rewrite app_nil_r.
  destruct (byte_here c l [] Hw2) as (x & E & Ex). rewrite app_nil_r in E. rewrite E. step.
  rewrite Ex, bool_decide_true by done. destruct l as [|e l _] using rev_ind.
  - change (10 + total []) with (last_off 10 []) in E. rewrite E. step.
    by rewrite Ex, !bool_decide_true.
  - rewrite last_off_app. cbn [last_off]. destruct (byte_here c l [e] Hw) as (y & -> & Ey). step.
    rewrite Ey, !bool_decide_false; [done|by destruct l|done].
Qed.

(** ** [ziplistIndex] *)

(** The entry a signed index denotes in a list of [n] entries. *)
Definition index_pos (n i : Z) : option nat :=
  if 0 <=? i then (if i <? n then Some (Z.to_nat i) else None)
  else if - i <=? n then Some (Z.to_nat (n + i)) else None.

Lemma index_forward_spec c l2 : forall fuel l1 i, wf 0 (l1 ++ l2) -> 0 <= i ->
  (length l2 < fuel)%nat ->
  index_forward fuel (zblock c (l1 ++ l2)) (10 + total l1) i =
    Some (if i <? zlen l2 then (10 + total (l1 ++ take (Z.to_nat i) l2), -1)
          else (10 + total (l1 ++ l2), i - zlen l2)).
Proof.
  induction l2 as [|e l2 IH]; intros [|fuel] l1 i Hw Hi Hf; [cbn in Hf; lia| |cbn in Hf; lia|];
    cbn [index_forward]; destruct (byte_here c l1 _ Hw) as (x & -> & Ex); step; rewrite Ex.
  - rewrite bool_decide_true by done. cbn [negb]. rewrite zlen_nil, app_nil_r.
    rewrite (proj2 (Z.ltb_ge _ _)) by lia. by rewrite Z.sub_0_r.
  - rewrite bool_decide_false by done. cbn [negb]. rewrite zlen_cons. pose proof (zlen_nonneg l2).
    destruct (Z.eqb_spec i 0) as [->|Hi0].
    + rewrite (proj2 (Z.ltb_lt _ _)) by lia. change (Z.to_nat 0) with 0%nat. by rewrite take_0, app_nil_r.
    + rewrite rawlen_here by done. step. rewrite (snoc_split l1 e l2) in Hw |- *.
      rewrite next_offset, IH by (try done; cbn in Hf; lia).
      replace (Z.to_nat i) with (S (Z.to_nat (i - 1))) by lia. cbn [take]. rewrite <- (snoc_split l1 e).
      destruct (Z.ltb_spec (i - 1) (zlen l2)), (Z.ltb_spec i (1 + zlen l2)); try lia; [done|].
      do 2 f_equal. lia.
Qed.

Lemma index_back_spec c l1 : forall fuel e r i, wf 0 (l1 ++ e :: r) -> 0 <= i ->
  (length l1 < fuel)%nat ->
  index_back fuel (zblock c (l1 ++ e :: r)) (10 + total l1) (prev_of 0 l1) i =
    Some (if i <=? zlen l1
          then (10 + total (take (Z.to_nat (zlen l1 - i)) l1), if i =? zlen l1 then 0 else -1)
          else (10, i - zlen l1)).
Proof.
  induction l1 as [|x l0 IH] using rev_ind; intros [|fuel] e r i Hw Hi Hf;
    [cbn in Hf; lia| |rewrite length_app in Hf; cbn in Hf; lia|]; cbn [index_back].
  - cbn [prev_of]. change (0 <? 0) with false. cbv iota. change (zlen (@nil zent)) with 0; rewrite Z.sub_0_r.
    destruct (Z.leb_spec i 0); [|done]. assert (i = 0) as -> by lia. done.
  - rewrite prev_of_app. cbn [prev_of]. pose proof (esize_pos x). pose proof (zlen_nonneg l0).
    rewrite (proj2 (Z.ltb_lt _ _)) by lia. rewrite zlen_app_one.
    destruct (Z.eqb_spec i 0) as [->|Hi0].
    + rewrite (proj2 (Z.leb_le _ _)) by lia. rewrite (proj2 (Z.eqb_neq _ _)) by lia.
      rewrite take_ge by (unfold zlen; rewrite length_app; cbn; lia). done.
    + rewrite <- (snoc_split l0 x) in Hw |- *.
      replace (10 + total (l0 ++ [x]) - esize x) with (10 + total l0) by (rewrite total_app; cbn; lia).
      rewrite prevlen_here by done. step. rewrite IH by (try done; rewrite ?length_app in Hf; cbn in Hf; lia).
      replace (zlen l0 - (i - 1)) with (zlen l0 + 1 - i) by lia.
      destruct (Z.leb_spec (i - 1) (zlen l0)), (Z.leb_spec i (zlen l0 + 1)); try lia.
      * rewrite take_app_le by (unfold zlen; lia). do 3 f_equal.
        by destruct (Z.eqb_spec (i - 1) (zlen l0)), (Z.eqb_spec i (zlen l0 + 1)); try lia.
      * do 2 f_equal. lia.
Qed.

Lemma offset_byte c l i : wf 0 l -> exists x, znth (zblock c l) (offset l i) = Some x /\
  Z.eqb x ZIP_END = bool_decide ((length l <= i)%nat).
Proof.
  intros Hw. rewrite <- (take_drop i l) in Hw. destruct (byte_here c _ _ Hw) as (x & E & Ex).
  rewrite take_drop in E. exists x. split; [done|]. rewrite Ex. apply bool_decide_ext.
  split; intros H; [|by apply drop_ge]. apply (f_equal length) in H. rewrite length_drop in H. cbn in H. lia.
Qed.

Lemma zblock_fuel c l : (length l < S (length (zblock c l)))%nat.
Proof. rewrite zblock_length. pose proof (total_ge l). unfold zlen in *. lia. Qed.

Lemma ziplistIndex_spec c l i : wf 0 l -> 11 + total l < 2 ^ 31 -> -2 ^ 31 < i < 2 ^ 31 ->
  ziplistIndex (zblock c l) i = Some (offset l <$> index_pos (zlen l) i).
Proof.
  intros Hw Hb Hi. unfold ziplistIndex, index_pos. pose proof (zlen_nonneg l).
  destruct (Z.ltb_spec i 0) as [Hneg|Hpos].
  - rewrite (proj2 (Z.leb_gt 0 i)) by lia. rewrite (proj2 (Z.eqb_neq i _)) by lia.
    unfold ZIPLIST_ENTRY_TAIL. rewrite tail_offset_spec by done. step.
    destruct l as [|e l0 _] using rev_ind.
    + destruct (offset_byte c [] 0 Hw) as (x & E & Ex). change (offset [] 0) with (last_off 10 []) in E.
      rewrite E. step. rewrite Ex, bool_decide_true by done. cbn [negb]. step. rewrite E. step.
      rewrite Ex, bool_decide_true by done. by rewrite (proj2 (Z.leb_gt (- i) (zlen (@nil zent)))) by (rewrite zlen_nil; lia).
    + rewrite last_off_app. cbn [last_off]. destruct (byte_here c l0 [e] Hw) as (x & -> & Ex). step.
      rewrite Ex, bool_decide_false by done. cbn [negb]. rewrite prevlen_here by done. step.
      rewrite index_back_spec; [|done|lia|pose proof (zblock_fuel c (l0 ++ [e])); rewrite length_app in *; lia].
      rewrite zlen_app_one in *. step.
      destruct (Z.leb_spec (- i - 1) (zlen l0)), (Z.leb_spec (- i) (zlen l0 + 1)); try lia.
      * replace (zlen l0 - (- i - 1)) with (zlen l0 + 1 + i) by lia.
        destruct (offset_byte c (l0 ++ [e]) (Z.to_nat (zlen l0 + 1 + i)) Hw) as (y & E & Ey).
        unfold offset in E. rewrite take_app_le in E by (unfold zlen; lia). rewrite E. step.
        rewrite Ey, bool_decide_false by (rewrite length_app; unfold zlen; cbn; lia).
        cbn [fmap option_fmap option_map]. unfold offset. rewrite take_app_le by (unfold zlen; lia).
        by destruct (- i - 1 =? zlen l0).
      * destruct (offset_byte c (l0 ++ [e]) 0 Hw) as (y & E & Ey). change (offset _ 0) with 10 in E.
        rewrite E. step. rewrite (proj2 (Z.ltb_lt _ _)) by lia. by rewrite orb_true_r.
  - rewrite (proj2 (Z.leb_le 0 i)) by lia. pose proof (zblock_fuel c l).
    pose proof (index_forward_spec c l (S (length (zblock c l))) [] i Hw Hpos ltac:(lia)) as E.
    change (10 + total []) with ZIPLIST_ENTRY_HEAD in E. cbn [app] in E. rewrite E. step.
    destruct (Z.ltb_spec i (zlen l)).
    + destruct (offset_byte c l (Z.to_nat i) Hw) as (y & E2 & Ey). fold (offset l (Z.to_nat i)).
      rewrite E2. step. by rewrite Ey, bool_decide_false by (unfold zlen in *; lia).
    + destruct (offset_byte c l (length l) Hw) as (y & E2 & Ey). unfold offset in E2.
      rewrite take_ge in E2 by done. rewrite E2. step. by rewrite Ey, bool_decide_true.
Qed.

(** ** Reading and comparing the contents *)

(** The bytes a result of [ziplistGet] stands for. *)
Definition value_bytes (zl : list Z) (v : zvalue) : option (list Z) :=
  match v with
  | ZStr sstr slen => mem_read zl sstr slen
  | ZInt sval => Some (sdec sval)
  end.

Lemma payload_str s : int_of s = None -> payload s = s.
Proof. intros H. unfold payload. by rewrite H. Qed.

Lemma shown_int s v : int_of s = Some v -> shown_code s = int_code v.
Proof. intros H. unfold shown_code. by rewrite H. Qed.

Lemma mem_equal_spec a s b t q n : q = zlen a -> n = zlen s -> zlen t = n ->
  mem_equal (a ++ s ++ b) q t n = Some (bool_decide (s = t)).
Proof.
  intros -> -> Ht. unfold mem_equal. rewrite mem_read_app by done. step.
  pose proof (mem_read_app [] t [] 0 (zlen t) eq_refl eq_refl) as E. rewrite app_nil_r in E.
  cbn [app] in E. rewrite <- Ht, E. done.
Qed.

Section Contents.
Context (c : Z) (l1 : list zent) (e : zent) (r : list zent) (Hw : wf 0 (l1 ++ e :: r)).
Notation zl := (zblock c (l1 ++ e :: r)).
Notation p := (10 + total l1).
Notation s := (ze_data e).

Lemma load_here v : int_of s = Some v ->
  zipLoadInteger zl (p + (psize (ze_large e) + zlen (hdr s))) (shown_code s) = Some v.
Proof using.
  intros Hi. destruct (payload_here c l1 e r) as (a & b & -> & Ha).
  rewrite (shown_int s v Hi). by apply zipLoadInteger_spec.
Qed.

Lemma compare_here t : int_of s = None -> zlen s = zlen t ->
  mem_equal zl (p + (psize (ze_large e) + zlen (hdr s))) t (zlen t) = Some (bool_decide (s = t)).
Proof using.
  intros Hi Hl. destruct (payload_here c l1 e r) as (a & b & -> & Ha).
  rewrite (payload_str s Hi). by apply mem_equal_spec.
Qed.

Lemma ziplistGet_spec : exists v, ziplistGet zl (Some p) = Some (Some v) /\ value_bytes zl v = Some s.
Proof using Hw.
  unfold ziplistGet. destruct (byte_here c l1 (e :: r) Hw) as (x & -> & Ex). step.
  rewrite Ex, bool_decide_false, zipEntry_here by done. step. cbn [e_encoding e_headersize e_len].
  rewrite shown_is_str. destruct (int_of s) as [v|] eqn:Hi.
  - rewrite bool_decide_false, (load_here v Hi) by done. step. exists (ZInt v). split; [done|].
    apply int_of_Some in Hi as [_ Hs]. cbn. by rewrite <- Hs.
  - rewrite bool_decide_true by done. eexists. split; [done|]. cbn [value_bytes].
    destruct (payload_here c l1 e r) as (a & b & -> & Ha). rewrite (payload_str s Hi).
    by apply mem_read_app.
Qed.

Lemma int_eq (v v' : Z) (t : list Z) : int_of s = Some v -> int_of t = Some v' ->
  (v =? v') = bool_decide (s = t).
Proof using.
  intros [Hv Hs]%int_of_Some [Hv' Ht]%int_of_Some. rewrite Hs, Ht. symmetry.
  destruct (Z.eqb_spec v v') as [->|Hn]; [by apply bool_decide_eq_true|].
  apply bool_decide_eq_false. intros E. by apply Hn, sdec_inj.
Qed.

Lemma ziplistCompare_spec t : ziplistCompare zl p t (zlen t) = Some (bool_decide (s = t)).
Proof using Hw.
  unfold ziplistCompare. destruct (byte_here c l1 (e :: r) Hw) as (x & -> & Ex). step.
  rewrite Ex, bool_decide_false, zipEntry_here by done. step. cbn [e_encoding e_headersize e_len].
  rewrite shown_is_str. destruct (int_of s) as [v|] eqn:Hi.
  - rewrite bool_decide_false, zipTryEncoding_spec by done. step. destruct (int_of t) as [v'|] eqn:Ht.
    + rewrite (load_here v Hi). step. f_equal. by apply int_eq.
    + f_equal. symmetry. apply bool_decide_eq_false. intros <-. congruence.
  - rewrite bool_decide_true, (payload_str s Hi) by done. destruct (Z.eqb_spec (zlen s) (zlen t)).
    + by apply compare_here.
    + f_equal. symmetry. apply bool_decide_eq_false. intros <-. done.
Qed.

(** The lazily decoded integer of [ziplistFind]. *)
Definition found_code (t : list Z) (vll vencoding : Z) : Prop :=
  vencoding = 0 \/ (exists v, int_of t = Some v /\ vll = v /\ vencoding = int_code v) \/
  (int_of t = None /\ vencoding = UCHAR_MAX).

Lemma find_here_spec t vll vencoding : found_code t vll vencoding -> exists vll' vencoding',
  find_here zl (p + (psize (ze_large e) + zlen (hdr s))) (shown_code s) (zlen (payload s)) t (zlen t)
    vll vencoding = Some (bool_decide (s = t), vll', vencoding') /\ found_code t vll' vencoding'.
Proof using.
  intros Hc. unfold find_here. rewrite shown_is_str. destruct (int_of s) as [v|] eqn:Hi.
  - rewrite bool_decide_false, zipTryEncoding_spec, (load_here v Hi) by done.
    destruct (int_of t) as [v'|] eqn:Ht.
    + assert (E : (if vencoding =? 0 then
          enc ← Some (Some (v', int_code v'));
          match enc with
          | Some (vll, vencoding) => if vencoding =? 0 then None else Some (vll, vencoding)
          | None => Some (vll, UCHAR_MAX) end
        else Some (vll, vencoding)) = Some (v', int_code v')).
      { pose proof Ht as Ht2. apply int_of_Some in Ht2 as [Hv' _]. pose proof (int_code_range v' Hv').
        destruct Hc as [->|[(w & Hw' & -> & ->)|[Hn _]]]; [| |congruence].
        - step. change (0 =? 0) with true. cbv iota. by rewrite (proj2 (Z.eqb_neq _ 0)) by lia.
        - assert (w = v') as -> by congruence. by rewrite (proj2 (Z.eqb_neq _ 0)) by lia. }
      rewrite E. step. pose proof Ht as Ht2. apply int_of_Some in Ht2 as [Hv' _].
      pose proof (int_code_range v' Hv'). unfold UCHAR_MAX. rewrite (proj2 (Z.eqb_neq _ 255)) by lia.
      cbn [negb]. rewrite (int_eq v v' t Hi Ht). eexists _, _. split; [done|]. right; left. by exists v'.
    + assert (E : bool_decide (s = t) = false) by (apply bool_decide_eq_false; intros <-; congruence).
      rewrite E. exists vll, UCHAR_MAX. split; [|by right; right].
      destruct Hc as [->|[(w & Hw' & _)|[_ ->]]]; [done|congruence|done].
  - rewrite bool_decide_true, (payload_str s Hi) by done. exists vll, vencoding. split; [|done].
    destruct (Z.eqb_spec (zlen s) (zlen t)).
    + by rewrite compare_here.
    + step. do 3 f_equal. symmetry. apply bool_decide_eq_false. by intros <-.
Qed.
End Contents.

(** ** [ziplistFind] *)

(** The first entry equal to [t] among every [skip + 1]-th, [cnt] of them being
    passed over first. *)
Fixpoint find_pos (t : list Z) (skip cnt : nat) (l : list (list Z)) : option nat :=
  match l with
  | [] => None
  | s :: l =>
      match cnt with
      | O => if decide (s = t) then Some O else S <$> find_pos t skip skip l
      | S cnt => S <$> find_pos t skip cnt l
      end
  end.

Lemma find_loop_spec c t (skip : nat) l2 : forall fuel l1 cnt vll vencoding,
  wf 0 (l1 ++ l2) -> Z.of_nat skip < 2 ^ 31 -> found_code t vll vencoding -> (length l2 < fuel)%nat ->
  find_loop fuel (zblock c (l1 ++ l2)) (10 + total l1) t (zlen t) (Z.of_nat skip) (Z.of_nat cnt)
    vll vencoding =
    Some ((fun k => 10 + total (l1 ++ take k l2)) <$> find_pos t skip cnt (ze_data <$> l2)).
Proof.
  induction l2 as [|e l2 IH]; intros [|fuel] l1 cnt vll vencoding Hw Hskip Hc Hf;
    [cbn in Hf; lia| |cbn in Hf; lia|]; cbn [find_loop];
    destruct (byte_here c l1 _ Hw) as (x & -> & Ex); step; rewrite Ex.
  - by rewrite bool_decide_true.
  - rewrite bool_decide_false, prevlensize_here by done. step. rewrite decode_here by done. step.
    rewrite <- (Z.add_assoc (10 + total l1) (psize (ze_large e))).
    assert (Eq : 10 + total l1 + (psize (ze_large e) + zlen (hdr (ze_data e))) +
      zlen (payload (ze_data e)) = 10 + total (l1 ++ [e]))
      by (rewrite total_app; cbn [total]; unfold esize, dsize; lia).
    assert (Ek : forall k, total ((l1 ++ [e]) ++ take k l2) = total (l1 ++ take (S k) (e :: l2)))
      by (intros k; cbn [take]; by rewrite <- app_assoc).
    cbn [fmap list_fmap find_pos]. destruct cnt as [|cnt].
    + change (Z.of_nat 0 =? 0) with true. cbv iota.
      destruct (find_here_spec c l1 e l2 t vll vencoding Hc) as (vll' & venc' & -> & Hc'). step.
      destruct (bool_decide_reflect (ze_data e = t)) as [Hst|Hst]; [rewrite decide_True by done; cbn; by rewrite app_nil_r|].
      rewrite decide_False by done. rewrite Eq. rewrite (snoc_split l1 e l2) in Hw |- *.
      rewrite swrap_small by cint. rewrite IH by (try done; cbn in Hf; lia).
      rewrite <- option_fmap_compose. f_equal. apply option_fmap_ext. intros k. cbn. by rewrite Ek.
    + rewrite (proj2 (Z.eqb_neq _ 0)) by lia. replace (Z.of_nat (S cnt) - 1) with (Z.of_nat cnt) by lia.
      rewrite Eq. rewrite (snoc_split l1 e l2) in Hw |- *. rewrite IH by (try done; cbn in Hf; lia).
      rewrite <- option_fmap_compose. f_equal. apply option_fmap_ext. intros k. cbn. by rewrite Ek.
Qed.

(** From entry number [i]: the number of the entry found. *)
Definition find_from (l : list zent) (i : nat) (t : list Z) (skip : nat) : option nat :=
  Nat.add i <$> find_pos t skip 0 (ze_data <$> drop i l).

Lemma ziplistFind_spec c l i t (skip : nat) : wf 0 l -> (i <= length l)%nat -> Z.of_nat skip < 2 ^ 31 ->
  ziplistFind (zblock c l) (offset l i) t (zlen t) (Z.of_nat skip) =
    Some (offset l <$> find_from l i t skip).
Proof.
  intros Hw Hi Hs. unfold ziplistFind. pose proof (zblock_fuel c l).
  pose proof (find_loop_spec c t skip (drop i l) (S (length (zblock c l))) (take i l) 0 0 0) as F.
  rewrite take_drop in F. etrans; [apply F; [done|done|by left|rewrite length_drop; lia]|].
  f_equal. unfold find_from. rewrite <- option_fmap_compose. apply option_fmap_ext. intros k.
  unfold offset, compose. do 2 f_equal. apply take_take_drop.
Qed.

(** ** [ziplistLen] *)

Lemma count_loop_spec c l2 : forall fuel l1, wf 0 (l1 ++ l2) -> 11 + total (l1 ++ l2) < 2 ^ 31 ->
  (length l2 < fuel)%nat ->
  count_loop fuel (zblock c (l1 ++ l2)) (10 + total l1) (zlen l1) = Some (zlen (l1 ++ l2)).
Proof.
  induction l2 as [|e l2 IH]; intros [|fuel] l1 Hw Hb Hf; [cbn in Hf; lia| |cbn in Hf; lia|];
    cbn [count_loop]; destruct (byte_here c l1 _ Hw) as (x & -> & Ex); step; rewrite Ex.
  - by rewrite bool_decide_true, app_nil_r.
  - rewrite bool_decide_false, rawlen_here by done. step. rewrite next_offset.
    rewrite (snoc_split l1 e l2) in Hw, Hb |- *. pose proof (total_ge ((l1 ++ [e]) ++ l2)) as Ht.
    rewrite zlen_app, zlen_app_one in Ht. pose proof (zlen_nonneg l1). pose proof (zlen_nonneg l2).
    rewrite wrap_small by cint. rewrite <- (zlen_app_one l1 e). apply IH; try done. cbn in Hf. lia.
Qed.

Lemma zrep_cnt zl l : zrep zl l -> zlen l < 2 ^ 31.
Proof. intros []. pose proof (total_ge l). pose proof (zlen_nonneg l). lia. Qed.

Lemma cnt_spec c l : in_u 16 c -> ZIPLIST_LENGTH (zblock c l) = Some c.
Proof. apply length_spec. Qed.

Lemma set_cnt_spec c l v : set_length (zblock c l) v = Some (zblock v l).
Proof. apply set_length_spec. Qed.

Lemma ziplistLen_spec zl l : zrep zl l -> exists zl', ziplistLen zl = Some (zlen l, zl') /\ zrep zl' l.
Proof.
  intros Hr. pose proof (zrep_cnt zl l Hr) as Hn. destruct Hr as [c Hz Hw Hb Hc Hx]. subst zl.
  unfold ziplistLen. rewrite cnt_spec by done. step. unfold UINT16_MAX in *.
  destruct (Z.ltb_spec c 65535) as [Hlt|Hge].
  - rewrite (Hx Hlt). exists (zblock (zlen l) l). split; [done|]. rewrite <- (Hx Hlt) at 1.
    by econstructor.
  - pose proof (count_loop_spec c l (S (length (zblock c l))) [] Hw Hb (zblock_fuel c l)) as E.
    change (10 + total []) with ZIPLIST_HEADER_SIZE in E. cbn [app] in E. rewrite zlen_nil in E.
    rewrite E. step. destruct (Z.ltb_spec (zlen l) 65535).
    + rewrite set_cnt_spec. step. exists (zblock (zlen l) l). split; [done|].
      pose proof (zlen_nonneg l). econstructor; try done; cint.
    + step. exists (zblock c l). split; [done|]. econstructor; try done.
Qed.

Lemma ziplistBlobLen_spec zl l : zrep zl l -> ziplistBlobLen zl = Some (zlen zl).
Proof.
  intros [c Hz Hw Hb Hc Hx]. subst zl. pose proof (total_nonneg l). unfold ziplistBlobLen.
  assert (E : zlen (zblock c l) = 11 + total l) by (unfold zlen; rewrite zblock_length; lia).
  rewrite E. unfold zblock. apply bytes_spec. cint.
Qed.

(** ** Changing the list *)

Section Allocator.
Context (junk : nat -> Z).

Lemma ziplistNew_spec : exists zl, ziplistNew junk = Some zl /\ zrep zl [].
Proof.
  assert (E : ziplistNew junk = Some (zblock 0 [])) by (cbn; done).
  exists (zblock 0 []). split; [done|]. econstructor; try done; cint.
Qed.

(** The entries after an insertion at position [i] and after the deletion of
    [n] entries from there. *)
Definition ins_ents (l : list zent) (i : nat) (s : list Z) : list zent :=
  let ni := new_ent (prev_of 0 (take i l)) s in
  take i l ++ ni :: fix_next (esize ni) (drop i l).
Definition del_ents (l : list zent) (i n : nat) : list zent :=
  take i l ++ fix_next (prev_of 0 (take i l)) (drop (i + n) l).

Lemma fix_next_wf n old l : wf old l -> 0 <= n < 2 ^ 31 -> total (fix_next n l) < 2 ^ 31 -> wf n (fix_next n l).
Proof.
  intros Hw Hn Ht. destruct l as [|e l]; [done|]. destruct Hw as (Ho & Hs & Hw). cbn [fix_next total] in *.
  set (e' := Ze _ (ze_data e)) in *. pose proof (total_nonneg (grow (esize e') l)). pose proof (esize_pos e').
  split; [by apply prev_ok_width|]. split; [done|]. eapply grow_wf; [done|lia|lia].
Qed.

Lemma ins_data l i s : (i <= length l)%nat ->
  ze_data <$> ins_ents l i s = take i (ze_data <$> l) ++ s :: drop i (ze_data <$> l).
Proof.
  intros Hi. unfold ins_ents. rewrite fmap_app, fmap_cons, fix_next_data, fmap_take, fmap_drop. done.
Qed.

Lemma del_data l i n :
  ze_data <$> del_ents l i n = take i (ze_data <$> l) ++ drop (i + n) (ze_data <$> l).
Proof. unfold del_ents. by rewrite fmap_app, fix_next_data, fmap_take, fmap_drop. Qed.

Lemma zlen_data (l l' : list zent) : ze_data <$> l = ze_data <$> l' -> zlen l = zlen l'.
Proof. intros H. by rewrite <- (zlen_fmap ze_data l), H, zlen_fmap. Qed.

Lemma ziplistInsert_spec zl l i s : zrep zl l -> (i <= length l)%nat -> small s ->
  can_insert (prev_of 0 (take i l)) s (drop i l) -> 11 + total (ins_ents l i s) < 2 ^ 31 ->
  exists zl', ziplistInsert junk zl (offset l i) s (zlen s) = Some zl' /\ zrep zl' (ins_ents l i s).
Proof.
  intros [c Hz Hw Hb Hc Hx] Hi Hs Hcan Ht. subst zl. unfold ziplistInsert, offset.
  set (l1 := take i l) in *. set (l2 := drop i l) in *.
  assert (El : l = l1 ++ l2) by (unfold l1, l2; by rewrite take_drop).
  rewrite El in Hw, Hb. exists (zblock (incr_cnt c 1) (ins_ents l i s)).
  pose proof (zlen_nonneg l). assert (Hn : zlen (ins_ents l i s) = zlen l + 1).
  { rewrite <- (zlen_fmap ze_data), ins_data by done. rewrite zlen_app, zlen_cons.
    unfold zlen. rewrite length_take, length_drop, length_fmap. lia. }
  split.
  - rewrite El at 1. unfold ins_ents in *. fold l1 l2 in Ht |- *. destruct l2 as [|e r].
    + rewrite app_nil_r in *. by apply insert_last.
    + by apply insert_before.
  - assert (Hcnt : incr_cnt c 1 < UINT16_MAX -> incr_cnt c 1 = zlen l + 1).
    { unfold incr_cnt. destruct (Z.ltb_spec c UINT16_MAX); [|unfold UINT16_MAX in *; lia].
      rewrite (Hx H0). unfold UINT16_MAX in *. rewrite wrap_small by cint. done. }
    econstructor; [done| |done| |by rewrite Hn].
    + unfold ins_ents in *. fold l1 l2 in Ht |- *. apply wf_app in Hw as [Hw1 Hw2].
      set (ni := new_ent _ s) in *. rewrite total_app in Ht. cbn [total] in Ht.
      pose proof (total_nonneg l1). pose proof (total_nonneg (fix_next (esize ni) l2)). pose proof (esize_pos ni).
      pose proof (prev_of_bound l1 0 ltac:(lia)). apply wf_app. split; [done|].
      split; [apply prev_ok_width; lia|]. split; [done|]. eapply fix_next_wf; [done|lia|lia].
    + unfold incr_cnt. case_match; [apply wrap_in_u; lia|done].
Qed.

Lemma del_zlen l i n : (i + n <= length l)%nat -> zlen (del_ents l i n) = zlen l - Z.of_nat n.
Proof.
  intros Hi. rewrite <- (zlen_fmap ze_data), del_data. unfold zlen.
  rewrite length_app, length_take, length_drop, length_fmap. lia.
Qed.

(** Deleting [num] entries, or as many as there are. *)
Lemma ziplistDelete_rep zl l i num (n := Nat.min (Z.to_nat num) (length l - i)) :
  zrep zl l -> (i < length l)%nat -> 1 <= num -> 11 + total (del_ents l i n) < 2 ^ 31 ->
  exists zl', __ziplistDelete junk zl (offset l i) num = Some zl' /\ zrep zl' (del_ents l i n).
Proof.
  intros [c Hz Hw Hb Hc Hx] Hi Hnum Ht. subst zl. unfold offset.
  set (l1 := take i l). set (ld := take n (drop i l)). set (l2 := drop (i + n) l).
  assert (El : l = l1 ++ ld ++ l2).
  { unfold l1, ld, l2. rewrite <- drop_drop. by rewrite take_drop, take_drop. }
  assert (Hld : length ld = n) by (unfold ld; rewrite length_take, length_drop; lia).
  pose proof (del_zlen l i n ltac:(lia)) as Hn. pose proof Hw as Hw0. pose proof Hb as Hb0.
  rewrite El in Hw0, Hb0. exists (zblock (incr_cnt c (- zlen ld)) (del_ents l i n)). split.
  - rewrite El at 1. apply ziplistDelete_spec; try done.
    + intros E. rewrite E in Hld. cbn in Hld. lia.
    + unfold zlen. rewrite Hld. unfold n. destruct (Nat.le_gt_cases (Z.to_nat num) (length l - i)).
      * left. lia.
      * right. split; [|lia]. unfold l2. apply drop_ge. lia.
  - assert (Hcnt : incr_cnt c (- zlen ld) < UINT16_MAX -> incr_cnt c (- zlen ld) = zlen l - Z.of_nat n).
    { unfold incr_cnt. destruct (Z.ltb_spec c UINT16_MAX) as [Hlt|]; [|unfold UINT16_MAX in *; lia].
      rewrite (Hx Hlt) in *. unfold UINT16_MAX, zlen in *. rewrite Hld, wrap_small by cint. lia. }
    econstructor; [done| |done| |by rewrite Hn].
    + unfold del_ents in *. fold l1 l2 in Ht |- *. apply wf_app in Hw0 as [Hw1 Hw2].
      apply wf_app in Hw2 as [_ Hw2]. rewrite total_app in Ht. pose proof (total_nonneg l1).
      pose proof (total_nonneg (fix_next (prev_of 0 l1) l2)). rewrite !total_app in Hb0.
      pose proof (prev_of_bound l1 0 ltac:(lia)). apply wf_app. split; [done|].
      eapply fix_next_wf; [done|lia|lia].
    + unfold incr_cnt. case_match; [apply wrap_in_u; lia|done].
Qed.

Lemma end_offset zl l : zrep zl l -> ZIPLIST_ENTRY_END zl = Some (offset l (length l)).
Proof.
  intros Hr. pose proof (ziplistBlobLen_spec zl l Hr) as E. unfold ziplistBlobLen in E.
  destruct Hr as [c -> _ Hb _ _]. unfold ZIPLIST_ENTRY_END. rewrite E. step. unfold offset.
  rewrite take_ge by done. f_equal. unfold zlen. rewrite zblock_length. pose proof (total_nonneg l). lia.
Qed.

(** ** Sequences of operations *)

Inductive zop :=
  | ZPush (s : list Z) (where_ : Z)
  | ZInsert (index : Z) (s : list Z)
  | ZDelete (index : Z)
  | ZDeleteRange (index num : Z).

(** The calls a client makes: positions are found with [ziplistIndex], and
    nothing is done when there is no such entry. *)
Definition zexec (zl : list Z) (op : zop) : option (list Z) :=
  match op with
  | ZPush s w => ziplistPush junk zl s (zlen s) w
  | ZInsert i s =>
      p ← ziplistIndex zl i;
      match p with Some p => ziplistInsert junk zl p s (zlen s) | None => Some zl end
  | ZDelete i =>
      p ← ziplistIndex zl i;
      match p with Some p => '(zl, _) ← ziplistDelete junk zl p; Some zl | None => Some zl end
  | ZDeleteRange i n => ziplistDeleteRange junk zl i n
  end.

(** The same on lists of byte strings. *)
Definition zplain (l : list (list Z)) (op : zop) : list (list Z) :=
  match op with
  | ZPush s w => if w =? ZIPLIST_HEAD then s :: l else l ++ [s]
  | ZInsert i s =>
      match index_pos (zlen l) i with Some k => take k l ++ s :: drop k l | None => l end
  | ZDelete i => match index_pos (zlen l) i with Some k => take k l ++ drop (S k) l | None => l end
  | ZDeleteRange i n =>
      match index_pos (zlen l) i with Some k => take k l ++ drop (k + Z.to_nat n) l | None => l end
  end.

(** The entries with their widths, which say what the operation needs. *)
Definition zpos (l : list zent) (op : zop) : option nat :=
  match op with
  | ZPush _ w => Some (if w =? ZIPLIST_HEAD then O else length l)
  | ZInsert i _ | ZDelete i | ZDeleteRange i _ => index_pos (zlen l) i
  end.

Definition znext (l : list zent) (op : zop) : list zent :=
  match zpos l op, op with
  | Some k, (ZPush s _ | ZInsert _ s) => ins_ents l k s
  | Some k, ZDelete _ => del_ents l k 1
  | Some k, ZDeleteRange _ n => if 0 <? n then del_ents l k (Nat.min (Z.to_nat n) (length l - k)) else l
  | None, _ => l
  end.

Definition zvalid (l : list zent) (op : zop) : Prop :=
  11 + total (znext l op) < 2 ^ 31 /\
  match op with
  | ZPush s _ => True
  | ZInsert i s => -2 ^ 31 < i < 2 ^ 31
  | ZDelete i => -2 ^ 31 < i < 2 ^ 31
  | ZDeleteRange i n => -2 ^ 31 < i < 2 ^ 31 /\ 0 <= n < 2 ^ 32
  end /\
  match op, zpos l op with
  | (ZPush s _ | ZInsert _ s), Some k => can_insert (prev_of 0 (take k l)) s (drop k l)
  | _, _ => True
  end.

Global Instance zvalid_dec l op : Decision (zvalid l op).
Proof.
  unfold zvalid. apply and_dec; [apply _|]. apply and_dec; [destruct op; apply _|].
  destruct op; try match goal with |- context [zpos ?a ?b] => destruct (zpos a b) end; apply _.
Defined.

Fixpoint zvalid_all (l : list zent) (ops : list zop) : Prop :=
  match ops with
  | [] => True
  | op :: ops => zvalid l op /\ zvalid_all (znext l op) ops
  end.

Fixpoint zexec_all (zl : list Z) (ops : list zop) : option (list Z) :=
  match ops with
  | [] => Some zl
  | op :: ops => zl ← zexec zl op; zexec_all zl ops
  end.

Fixpoint znext_all (l : list zent) (ops : list zop) : list zent :=
  match ops with [] => l | op :: ops => znext_all (znext l op) ops end.

Lemma index_pos_lt {A} (l : list A) i k : index_pos (zlen l) i = Some k -> (k < length l)%nat.
Proof. unfold index_pos, zlen. repeat case_match; intros [= <-]; lia. Qed.

Lemma small_of_size pv s : esize (new_ent pv s) < 2 ^ 31 -> small s.
Proof.
  unfold small, esize, dsize, new_ent. cbn [ze_large ze_data]. pose proof (zlen_nonneg (hdr s)).
  destruct (int_of s) as [v|] eqn:Hi; [|rewrite (payload_str s Hi)].
  - intros _. apply int_of_Some in Hi as [Hv ->]. pose proof (sdec_zlen v Hv). lia.
  - destruct (psize_cases (bool_decide (ZIP_BIGLEN <= pv))); lia.
Qed.

Lemma insert_exec zl l k s : zrep zl l -> (k <= length l)%nat -> 11 + total (ins_ents l k s) < 2 ^ 31 ->
  can_insert (prev_of 0 (take k l)) s (drop k l) ->
  exists zl', __ziplistInsert junk zl (offset l k) s (zlen s) = Some zl' /\ zrep zl' (ins_ents l k s).
Proof.
  intros Hr Hk Hb Hcan. apply (ziplistInsert_spec zl l k s); try done.
  apply (small_of_size (prev_of 0 (take k l))). unfold ins_ents in Hb. rewrite total_app in Hb.
  cbn [total] in Hb. pose proof (total_nonneg (take k l)). set (ni := new_ent _ s) in *.
  pose proof (total_nonneg (fix_next (esize ni) (drop k l))). lia.
Qed.

Lemma delete_none zl l k : zrep zl l -> (k < length l)%nat -> __ziplistDelete junk zl (offset l k) 0 = Some zl.
Proof.
  intros [c -> Hw Hb _ _] Hk. destruct (drop k l) as [|e r] eqn:Ed.
  { apply (f_equal length) in Ed. rewrite length_drop in Ed. cbn in Ed. lia. }
  assert (El : l = take k l ++ e :: r) by by rewrite <- Ed, take_drop.
  assert (Ez : zblock c l = zblock c (take k l ++ e :: r)) by by rewrite <- El.
  rewrite El in Hw. rewrite Ez. unfold __ziplistDelete, offset. rewrite zipEntry_here by done. step.
  cbn [skip_entries]. destruct (byte_here c _ _ Hw) as (x & -> & Ex). step.
  change (0 <? 0) with false. rewrite andb_false_r. step. cbn [e_p].
  by rewrite Z.sub_diag, wrap_0.
Qed.

Lemma zexec_spec zl l op : zrep zl l -> zvalid l op ->
  exists zl', zexec zl op = Some zl' /\ zrep zl' (znext l op) /\
    ze_data <$> znext l op = zplain (ze_data <$> l) op.
Proof.
  intros Hr (Hb & Hop & Hcan).
  assert (Hidx : forall i, -2 ^ 31 < i < 2 ^ 31 ->
    ziplistIndex zl i = Some (offset l <$> index_pos (zlen l) i)).
  { intros i Hi. destruct Hr. subst. by apply ziplistIndex_spec. }
  destruct op as [s w|i s|i|i n]; unfold znext in *; cbn [zpos zplain zexec] in *; rewrite ?zlen_fmap.
  - unfold ziplistPush. set (k := if w =? ZIPLIST_HEAD then 0%nat else length l) in *.
    assert (Hp : (if w =? ZIPLIST_HEAD then Some ZIPLIST_ENTRY_HEAD else ZIPLIST_ENTRY_END zl) =
      Some (offset l k)) by (unfold k; case_match; [done|by apply end_offset]).
    rewrite Hp. step. assert (Hk : (k <= length l)%nat) by (unfold k; case_match; lia).
    destruct (insert_exec zl l k s Hr Hk Hb Hcan) as (zl' & -> & Hr'). exists zl'. split; [done|].
    split; [done|]. rewrite ins_data by done. unfold k. case_match; [done|].
    by rewrite take_ge, drop_ge by by rewrite length_fmap.
  - rewrite Hidx by done. step. destruct (index_pos (zlen l) i) as [k|] eqn:Ek; cbn; [|by exists zl].
    pose proof (index_pos_lt l i k Ek). unfold ziplistInsert.
    destruct (insert_exec zl l k s Hr ltac:(lia) Hb Hcan) as (zl' & -> & Hr'). exists zl'.
    split; [done|]. split; [done|]. by rewrite ins_data by lia.
  - rewrite Hidx by done. step. destruct (index_pos (zlen l) i) as [k|] eqn:Ek; cbn; [|by exists zl].
    pose proof (index_pos_lt l i k Ek) as Hk. unfold ziplistDelete.
    destruct (ziplistDelete_rep zl l k 1 Hr Hk ltac:(lia)) as (zl' & -> & Hr').
    { replace (Nat.min (Z.to_nat 1) (length l - k)) with 1%nat by lia. done. }
    replace (Nat.min (Z.to_nat 1) (length l - k)) with 1%nat in Hr' by lia.
    exists zl'. split; [done|]. split; [done|]. rewrite del_data. by rewrite Nat.add_1_r.
  - unfold ziplistDeleteRange. rewrite swrap_small by (try lia; cint).
    rewrite Hidx by apply Hop. step. destruct (index_pos (zlen l) i) as [k|] eqn:Ek; cbn; [|by exists zl].
    pose proof (index_pos_lt l i k Ek) as Hk. destruct (Z.ltb_spec 0 n) as [Hn|Hn].
    + destruct (ziplistDelete_rep zl l k n Hr Hk ltac:(lia) Hb) as (zl' & -> & Hr'). exists zl'.
      split; [done|]. split; [done|]. rewrite del_data. f_equal.
      destruct (Nat.le_gt_cases (Z.to_nat n) (length l - k)); [by rewrite Nat.min_l by lia|].
      rewrite !drop_ge; [done|..]; rewrite length_fmap; lia.
    + assert (n = 0) as -> by lia. rewrite (delete_none zl l k Hr Hk). exists zl. split; [done|].
      split; [done|]. by rewrite Nat.add_0_r, take_drop.
Qed.

Lemma zexec_all_rep ops : forall zl l, zrep zl l -> zvalid_all l ops ->
  exists zl', zexec_all zl ops = Some zl' /\ zrep zl' (znext_all l ops) /\
    ze_data <$> znext_all l ops = fold_left zplain ops (ze_data <$> l).
Proof.
  induction ops as [|op ops IH]; intros zl l Hr Hv; [by exists zl|]. destruct Hv as [Hv Hvs].
  destruct (zexec_spec zl l op Hr Hv) as (zl' & E & Hr' & Hd). cbn [zexec_all]. rewrite E. step.
  destruct (IH zl' _ Hr' Hvs) as (zl2 & E2 & Hr2 & Hd2). exists zl2. split; [done|]. split; [done|].
  cbn [fold_left znext_all]. by rewrite <- Hd.
Qed.
End Allocator.
