(* ===== verification/ZiplistProps.v ===== *)
(** The properties of compressed lists. *)
From S2P Require Import Prelude Util Ziplist ZiplistRep ZiplistOps ZiplistIns ZiplistSpec.
Local Open Scope c_scope.

Lemma split_entry {A} (l : list A) k x : l !! k = Some x -> l = take k l ++ x :: drop (S k) l.
Proof. intros H. by rewrite take_drop_middle. Qed.

Lemma offset_S l k e : l !! k = Some e -> 10 + total (take k l ++ [e]) = offset l (S k).
Proof. intros H. unfold offset. by rewrite (take_S_r _ _ _ H). Qed.

Lemma next_at c l k e : wf 0 l -> l !! k = Some e ->
  ziplistNext (zblock c l) (offset l k) =
    Some (if decide (S k < length l)%nat then Some (offset l (S k)) else None).
Proof.
  intros Hw He. pose proof (split_entry l k e He) as El. rewrite El in Hw.
  rewrite El at 1. unfold offset at 1. rewrite ziplistNext_spec by done. rewrite (offset_S l k e He).
  case_bool_decide as Hr; case_decide as Hk; try done; exfalso.
  - apply (f_equal length) in Hr. rewrite length_drop in Hr. cbn in Hr. lia.
  - apply Hr, drop_ge. lia.
Qed.

Lemma prev_at c l k e : wf 0 l -> l !! k = Some e ->
  ziplistPrev (zblock c l) (offset l k) =
    Some (match k with O => None | S j => Some (offset l j) end).
Proof.
  intros Hw He. destruct k as [|j].
  - destruct l as [|d l]; [done|]. by apply ziplistPrev_head.
  - pose proof (lookup_lt_Some _ _ _ He) as Hl.
    destruct (lookup_lt_is_Some_2 l j ltac:(lia)) as [d Hd].
    pose proof (split_entry l j d Hd) as El. pose proof (split_entry l (S j) e He) as El2.
    assert (Ed : drop (S j) l = e :: drop (S (S j)) l) by by rewrite <- (drop_S _ _ _ He).
    rewrite Ed in El. rewrite <- (offset_S l j d Hd). rewrite El in Hw. rewrite El at 1.
    by rewrite ziplistPrev_spec.
Qed.

Lemma last_offset l : l <> [] -> last_off 10 l = offset l (length l - 1).
Proof.
  destruct l as [|e l _] using rev_ind; [done|]. intros _. rewrite last_off_app. cbn [last_off].
  unfold offset. rewrite length_app. cbn. by rewrite Nat.add_sub, take_app_length.
Qed.

(** C5: Any sequence of pushes, insertions, deletions and range deletions on a new
    compressed list, with positions found by [ziplistIndex], stays inside the
    block and gives the list of byte strings the same calls give on plain
    lists, whatever sizes cascade, as long as the block stays below 2 GiB and no
    insertion is in front of an entry that would shrink by more than it adds. *)
Theorem ziplist_refines_list (junk : nat -> Z) (ops : list zop) (Hv : zvalid_all [] ops) :
  exists zl0 zl l, ziplistNew junk = Some zl0 /\ zexec_all junk zl0 ops = Some zl /\
    zrep zl l /\ ze_data <$> l = fold_left zplain ops [].
Proof.
  destruct (ziplistNew_spec junk) as (zl0 & E0 & Hr0).
  destruct (zexec_all_rep junk ops zl0 [] Hr0 Hv) as (zl & E & Hr & Hd).
  by exists zl0, zl, (znext_all [] ops).
Qed.

Global Instance zvalid_all_dec ops : forall l, Decision (zvalid_all l ops).
Proof. induction ops as [|op ops IH]; intros l; cbn [zvalid_all]; apply _. Defined.

(** Two long strings, whose sizes cascade, and small ones. *)
Definition sample_ops : list zop :=
  [ZPush (repeat 97 250) 1; ZPush (repeat 98 250) 1; ZPush (bytes_of "12345") 1;
   ZPush (repeat 99 300) 0; ZInsert (-1) (bytes_of "-7"); ZDelete 0; ZDeleteRange 1 1].

Lemma ziplist_refines_list_witness :
  exists zl0 zl l, ziplistNew (fun _ => 7) = Some zl0 /\ zexec_all (fun _ => 7) zl0 sample_ops = Some zl /\
    zrep zl l /\ ze_data <$> l = fold_left zplain sample_ops [] /\
    fold_left zplain sample_ops [] = [repeat 97 250; bytes_of "-7"; bytes_of "12345"].
Proof.
  destruct (ziplist_refines_list (fun _ => 7) sample_ops ltac:(by_decide)) as
    (zl0 & zl & l & E0 & E & Hr & Hd).
  exists zl0, zl, l. split; [exact E0|]. split; [exact E|]. split; [exact Hr|]. split; [exact Hd|].
  vm_compute. reflexivity.
Defined.

(** C39: The reading operations of a compressed list of the byte strings [d]:
    signed indexes, both directions, the value at an entry (a string in place or
    the integer it is the notation of), comparison with any string, search with
    a skip, the length beyond 16 bits, and the size. *)
Theorem ziplist_reads (zl : list Z) (l : list zent) (Hr : zrep zl l) :
  let d := ze_data <$> l in
  (forall i, -2 ^ 31 < i < 2 ^ 31 -> ziplistIndex zl i = Some (offset l <$> index_pos (zlen d) i)) /\
  (forall k s, d !! k = Some s ->
     ziplistNext zl (offset l k) =
       Some (if decide (S k < length d)%nat then Some (offset l (S k)) else None) /\
     ziplistPrev zl (offset l k) = Some (match k with O => None | S j => Some (offset l j) end) /\
     (exists v, ziplistGet zl (Some (offset l k)) = Some (Some v) /\ value_bytes zl v = Some s) /\
     (forall t, ziplistCompare zl (offset l k) t (zlen t) = Some (bool_decide (s = t))) /\
     (forall t (skip : nat), Z.of_nat skip < 2 ^ 31 ->
        ziplistFind zl (offset l k) t (zlen t) (Z.of_nat skip) =
          Some ((fun j => offset l (k + j)) <$> find_pos t skip 0 (drop k d)))) /\
  ziplistPrev zl (offset l (length d)) =
    Some (if bool_decide (d = []) then None else Some (offset l (length d - 1))) /\
  (exists zl', ziplistLen zl = Some (zlen d, zl') /\ zrep zl' l) /\
  ziplistBlobLen zl = Some (zlen zl).
Proof.
  intros d. assert (Hz : zlen d = zlen l) by apply zlen_fmap.
  assert (Hl : length d = length l) by apply length_fmap. rewrite Hz, Hl.
  split; [|split; [|split; [|split]]].
  - intros i Hi. destruct Hr. subst. by apply ziplistIndex_spec.
  - intros k s Hk. unfold d in Hk. apply list_lookup_fmap_Some in Hk as (e & -> & He).
    destruct Hr as [c -> Hw Hb _ _]. pose proof (split_entry l k e He) as El.
    assert (Hw2 : wf 0 (take k l ++ e :: drop (S k) l)) by by rewrite <- El.
    assert (Ez : zblock c l = zblock c (take k l ++ e :: drop (S k) l)) by by rewrite <- El.
    split; [by eapply next_at|]. split; [by eapply prev_at|]. split; [|split].
    + rewrite Ez. by apply ziplistGet_spec.
    + intros t. rewrite Ez. by apply ziplistCompare_spec.
    + intros t skip Hs. apply lookup_lt_Some in He. rewrite ziplistFind_spec by (done || lia).
      unfold find_from. rewrite <- option_fmap_compose. unfold d. by rewrite fmap_drop.
  - destruct Hr as [c -> Hw Hb _ _]. unfold offset at 1. rewrite take_ge by done.
    rewrite ziplistPrev_end by done. destruct l as [|e l]; [done|].
    by rewrite !bool_decide_false, last_offset by done.
  - apply (ziplistLen_spec zl l Hr).
  - apply (ziplistBlobLen_spec zl l Hr).
Qed.

Lemma ziplist_reads_witness :
  exists zl0 zl l, ziplistNew (fun _ => 7) = Some zl0 /\ zexec_all (fun _ => 7) zl0 sample_ops = Some zl /\
    zrep zl l /\ ziplistIndex zl (-1) = Some (offset l <$> index_pos (zlen (ze_data <$> l)) (-1)).
Proof.
  destruct (ziplistNew_spec (fun _ => 7)) as (zl0 & E0 & Hr0).
  destruct (zexec_all_rep (fun _ => 7) sample_ops zl0 [] Hr0 ltac:(by_decide)) as (zl & E & Hr & _).
  exists zl0, zl, (znext_all [] sample_ops). split; [exact E0|]. split; [exact E|]. split; [exact Hr|].
  apply (proj1 (ziplist_reads zl (znext_all [] sample_ops) Hr)). lia.
Defined.

(** ** The insertion that shrinks the block *)

(** The resize before the move cuts off bytes that the move has to copy. *)
Lemma insert_cut junk c l1 e r s : wf 0 (l1 ++ e :: r) -> 11 + total (l1 ++ e :: r) < 2 ^ 31 ->
  ze_large e = true -> esize (new_ent (prev_of 0 l1) s) = 2 ->
  __ziplistInsert junk (zblock c (l1 ++ e :: r)) (10 + total l1) s (zlen s) = None.
Proof.
  intros Hw Hb Hl Hreq. rewrite insert_start by (done || lia). rewrite Hreq, Hl.
  change (psize (bool_decide (ZIP_BIGLEN <= 2)) - psize true) with (-4).
  rewrite total_app in *. cbn [total] in *. pose proof (total_nonneg l1). pose proof (total_nonneg r).
  pose proof (dsize_pos (ze_data e)). assert (He : 6 <= esize e) by (unfold esize; rewrite Hl; cbn; lia).
  set (curlen := 11 + (total l1 + (esize e + total r))). rewrite (wrap_small 32) by (unfold curlen; cint).
  destruct (zl_resize_spec junk (11 + total (l1 ++ e :: r)) (last_off 10 (l1 ++ e :: r)) c
    (ents 0 (l1 ++ e :: r) ++ [ZIP_END]) (curlen + 2 + -4)) as (Y & E & HY & Hs); [unfold curlen; lia|].
  fold (zblock c (l1 ++ e :: r)) in E. rewrite E. step. set (h := zhead _ _ c).
  assert (Hp : znth (h ++ Y ++ [ZIP_END]) (10 + total l1) = Some ZIP_BIGLEN).
  { change 10 with (zlen h). rewrite znth_skip by lia. rewrite znth_app_l by (unfold curlen in *; lia).
    rewrite Hs by (rewrite ?zlen_app_one, ?ents_zlen, ?total_app; cbn [total]; unfold curlen; lia).
    rewrite ents_app, <- app_assoc, <- (ents_zlen l1 0), znth_skip_0. cbn [ents]. unfold enc_ent.
    by rewrite Hl. }
  rewrite Hp. step. change (negb (ZIP_BIGLEN =? ZIP_END)) with true. cbv iota. unfold push_tail, memmove.
  rewrite (wrap_small 64) by (unfold curlen; cint). unfold mem_read. rewrite decide_False; [done|].
  rewrite !zlen_app, zlen_one. change (zlen h) with 10. unfold curlen in *. lia.
Qed.

(** A list whose last entry keeps five bytes for the size 253. *)
Definition flapping : list zop :=
  [ZPush (repeat 100 300) 1; ZPush (repeat 98 250) 1; ZPush (bytes_of "abc") 1; ZDelete 0].

Definition last_value (zl : list Z) : option (list Z) :=
  p ← ziplistIndex zl (-1); v ← ziplistGet zl p; v ← v; value_bytes zl v.

(** C40: Inserting an entry of two bytes in front of one whose five-byte size field
    would shrink reads outside the block, which [ziplistResize] has already cut
    below the bytes to move; with an entry of three bytes it stays inside and
    the last byte of the list is lost. *)
Theorem ziplistInsert_cuts_tail :
  (forall junk zl l k e s, zrep zl l -> l !! k = Some e -> ze_large e = true ->
     esize (new_ent (prev_of 0 (take k l)) s) = 2 ->
     ziplistInsert junk zl (offset l k) s (zlen s) = None) /\
  (forall junk,
     (zl ← ziplistNew junk; zl ← zexec_all junk zl flapping; before ← last_value zl;
      zl ← zexec junk zl (ZInsert 1 (bytes_of "x")); after ← last_value zl; Some (before, after)) =
     Some (bytes_of "abc", bytes_of "ab" ++ [255])).
Proof.
  split.
  - intros junk zl l k e s [c -> Hw Hb _ _] He Hl Hreq. pose proof (split_entry l k e He) as El.
    assert (Ez : zblock c l = zblock c (take k l ++ e :: drop (S k) l)) by by rewrite <- El.
    rewrite El in Hw, Hb. rewrite Ez. by apply insert_cut.
  - intros junk. vm_compute. reflexivity.
Qed.

Lemma ziplistInsert_cuts_tail_witness :
  exists zl0 zl l, ziplistNew (fun _ => 7) = Some zl0 /\ zexec_all (fun _ => 7) zl0 flapping = Some zl /\
    zrep zl l /\ ziplistInsert (fun _ => 7) zl (offset l 1) (bytes_of "1") 1 = None.
Proof.
  destruct (ziplistNew_spec (fun _ => 7)) as (zl0 & E0 & Hr0).
  destruct (zexec_all_rep (fun _ => 7) flapping zl0 [] Hr0 ltac:(by_decide)) as (zl & E & Hr & _).
  exists zl0, zl, (znext_all [] flapping). split; [exact E0|]. split; [exact E|]. split; [exact Hr|].
  apply (proj1 ziplistInsert_cuts_tail (fun _ => 7) zl (znext_all [] flapping) 1%nat
    (Ze true (bytes_of "abc")) (bytes_of "1") Hr); vm_compute; reflexivity.
Defined.
