(* ===== verification/Dict.v ===== *)
(** [src/redis-3.0.0/src/dict.c]: hash tables with chaining and incremental
    rehashing, and the refinement to finite maps.

    Keys and values are pointers; the bucket of a table, a chain of entries
    linked by [next], is the list of its entries, and a pointer to an entry is
    the place where it is.  The calls of the destructors are recorded in order.
    The callbacks of a [dictType] are parameters; what the table needs of them
    is the class [KeyType]. *)
From stdpp Require Import gmap.
From S2P Require Import Prelude.
Local Open Scope c_scope.

Definition DICT_OK : Z := 0.
Definition DICT_ERR : Z := 1.
Definition DICT_HT_INITIAL_SIZE : Z := 4.
Definition LONG_MAX : Z := 2 ^ 63 - 1.
Definition dict_force_resize_ratio : Z := 5.

Record dictEntry := mkEntry { e_key : Z; e_val : Z }.

(** The destructors only say whether they are set. *)
Record dictType := mkType {
  hashFunction : Z -> Z;
  keyDup : option (Z -> Z);
  valDup : option (Z -> Z);
  keyCompare : option (Z -> Z -> bool);
  keyDestructor : bool;
  valDestructor : bool }.

(** The table is NULL or the list of its chains. *)
Record dictht := mkHt {
  ht_table : option (list (list dictEntry));
  ht_size : Z; ht_sizemask : Z; ht_used : Z }.

Inductive event := FreedKey (k : Z) | FreedVal (v : Z).

Record dict := mkDict {
  ht0 : dictht; ht1 : dictht; rehashidx : Z; iterators : Z; log : list event }.

(** A pointer to an entry: the table, the bucket and the place in the chain. *)
Record entry_ptr := mkPtr { p_table : Z; p_idx : Z; p_pos : nat }.

Definition get_ht (d : dict) (table : Z) : dictht := if table =? 0 then ht0 d else ht1 d.
Definition set_ht (d : dict) (table : Z) (ht : dictht) : dict :=
  if table =? 0 then mkDict ht (ht1 d) (rehashidx d) (iterators d) (log d)
  else mkDict (ht0 d) ht (rehashidx d) (iterators d) (log d).
Definition set_rehashidx (d : dict) (i : Z) : dict :=
  mkDict (ht0 d) (ht1 d) i (iterators d) (log d).
Definition add_log (d : dict) (es : list event) : dict :=
  mkDict (ht0 d) (ht1 d) (rehashidx d) (iterators d) (log d ++ es).

Definition bucket (ht : dictht) (idx : Z) : option (list dictEntry) :=
  t ← ht_table ht; znth t idx.
Definition set_bucket (ht : dictht) (idx : Z) (c : list dictEntry) : option dictht :=
  t ← ht_table ht; t ← zset t idx c;
  Some (mkHt (Some t) (ht_size ht) (ht_sizemask ht) (ht_used ht)).
Definition set_used (ht : dictht) (n : Z) : dictht :=
  mkHt (ht_table ht) (ht_size ht) (ht_sizemask ht) n.

Definition dictIsRehashing (d : dict) : bool := negb (rehashidx d =? -1).
Definition dictSize (d : dict) : Z := u64 (ht_used (ht0 d) + ht_used (ht1 d)).

(** [_dictReset] and [_dictInit]. *)
Definition _dictReset : dictht := mkHt None 0 0 0.
Definition _dictInit : dict := mkDict _dictReset _dictReset (-1) 0 [].
Definition dictCreate : dict := _dictInit.

(** [while(1) { if (i >= size) return i; i *= 2; }] *)
Fixpoint nextPower_loop (fuel : nat) (i size : Z) : option Z :=
  match fuel with
  | O => None
  | S fuel => if size <=? i then Some i else nextPower_loop fuel (i *[64] 2) size
  end.

Definition _dictNextPower (size : Z) : option Z :=
  if LONG_MAX <=? size then Some LONG_MAX
  else nextPower_loop 62 DICT_HT_INITIAL_SIZE size.

Definition dictExpand (d : dict) (size : Z) : option (Z * dict) :=
  realsize ← _dictNextPower size;
  if dictIsRehashing d || (size <? ht_used (ht0 d)) then Some (DICT_ERR, d)
  else if realsize =? ht_size (ht0 d) then Some (DICT_ERR, d)
  else
    let n := mkHt (Some (replicate (Z.to_nat realsize) [])) realsize (realsize - 1) 0 in
    match ht_table (ht0 d) with
    | None => Some (DICT_OK, set_ht d 0 n)
    | Some _ => Some (DICT_OK, set_rehashidx (set_ht d 1 n) 0)
    end.

Definition dictResize (dict_can_resize : bool) (d : dict) : option (Z * dict) :=
  if negb dict_can_resize || dictIsRehashing d then Some (DICT_ERR, d)
  else
    let minimal := s32 (ht_used (ht0 d)) in
    let minimal := if minimal <? DICT_HT_INITIAL_SIZE then DICT_HT_INITIAL_SIZE else minimal in
    dictExpand d minimal.

Definition _dictExpandIfNeeded (dict_can_resize : bool) (d : dict) : option (Z * dict) :=
  if dictIsRehashing d then Some (DICT_OK, d)
  else if ht_size (ht0 d) =? 0 then dictExpand d DICT_HT_INITIAL_SIZE
  else if (ht_size (ht0 d) <=? ht_used (ht0 d)) &&
          (dict_can_resize ||
           (dict_force_resize_ratio <? ht_used (ht0 d) / ht_size (ht0 d)))
  then dictExpand d (ht_used (ht0 d) *[64] 2)
  else Some (DICT_OK, d).

Section Operations.
Context (T : dictType).

(** [dictHashKey], [dictCompareKeys], [dictSetKey], [dictSetVal],
    [dictFreeKey] and [dictFreeVal]. *)
Definition dictHashKey (key : Z) : Z := hashFunction T key.
Definition dictCompareKeys (key1 key2 : Z) : bool :=
  match keyCompare T with Some f => f key1 key2 | None => key1 =? key2 end.
Definition dup_key (key : Z) : Z :=
  match keyDup T with Some f => f key | None => key end.
Definition dup_val (val : Z) : Z :=
  match valDup T with Some f => f val | None => val end.
Definition free_key (e : dictEntry) : list event :=
  if keyDestructor T then [FreedKey (e_key e)] else [].
Definition free_val (e : dictEntry) : list event :=
  if valDestructor T then [FreedVal (e_val e)] else [].

(** Skipping the empty buckets: the new index and number of visits left, and
    whether the visits are used up. *)
Fixpoint rehash_skip (fuel : nat) (ht : dictht) (idx empty_visits : Z)
  : option (Z * Z * bool) :=
  match fuel with
  | O => None
  | S fuel =>
      c ← bucket ht idx;
      match c with
      | [] =>
          let idx := idx + 1 in
          let empty_visits := empty_visits - 1 in
          if empty_visits =? 0 then Some (idx, empty_visits, true)
          else rehash_skip fuel ht idx empty_visits
      | _ => Some (idx, empty_visits, false)
      end
  end.

(** Moving the entries of a bucket one by one to the second table. *)
Fixpoint rehash_move (c : list dictEntry) (used0 : Z) (h1 : dictht) : option (Z * dictht) :=
  match c with
  | [] => Some (used0, h1)
  | de :: c =>
      let h := dictHashKey (e_key de) .& ht_sizemask h1 in
      b ← bucket h1 h;
      h1 ← set_bucket h1 h (de :: b);
      rehash_move c (u64 (used0 - 1)) (set_used h1 (u64 (ht_used h1 + 1)))
  end.

(** The [n] steps; the flag says that the code returned early. *)
Fixpoint rehash_loop (n : nat) (d : dict) (empty_visits : Z) : option (dict * bool) :=
  match n with
  | O => Some (d, false)
  | S n =>
      if ht_used (ht0 d) =? 0 then Some (d, false)
      else if ht_size (ht0 d) <=? rehashidx d then None (* assert *)
      else
        '(idx, empty_visits, out) ←
          rehash_skip (S (Z.to_nat (ht_size (ht0 d)))) (ht0 d) (rehashidx d) empty_visits;
        let d := set_rehashidx d idx in
        if (out : bool) then Some (d, true)
        else
          c ← bucket (ht0 d) (rehashidx d);
          '(used0, h1) ← rehash_move c (ht_used (ht0 d)) (ht1 d);
          h0 ← set_bucket (ht0 d) (rehashidx d) [];
          let d := set_ht (set_ht d 0 (set_used h0 used0)) 1 h1 in
          rehash_loop n (set_rehashidx d (rehashidx d + 1)) empty_visits
  end.

Definition dictRehash (d : dict) (n : Z) : option (Z * dict) :=
  let empty_visits := n * 10 in
  if negb (dictIsRehashing d) then Some (0, d)
  else
    '(d, out) ← rehash_loop (Z.to_nat n) d empty_visits;
    if (out : bool) then Some (1, d)
    else if ht_used (ht0 d) =? 0 then
      Some (0, set_rehashidx (set_ht (set_ht d 0 (ht1 d)) 1 _dictReset) (-1))
    else Some (1, d).

Definition _dictRehashStep (d : dict) : option dict :=
  if iterators d =? 0 then '(_, d) ← dictRehash d 1; Some d else Some d.

(** [if (dictIsRehashing(d)) _dictRehashStep(d);] *)
Definition rehash_step_if (d : dict) : option dict :=
  if dictIsRehashing d then _dictRehashStep d else Some d.

(** The place of a key in a chain. *)
Fixpoint chain_find (key : Z) (c : list dictEntry) (pos : nat) : option nat :=
  match c with
  | [] => None
  | he :: c => if dictCompareKeys key (e_key he) then Some pos else chain_find key c (S pos)
  end.

Definition _dictKeyIndex (can_resize : bool) (d : dict) (key : Z) : option (Z * dict) :=
  '(r, d) ← _dictExpandIfNeeded can_resize d;
  if r =? DICT_ERR then Some (-1, d)
  else
    let h := dictHashKey key in
    let idx0 := h .& ht_sizemask (ht0 d) in
    c0 ← bucket (ht0 d) idx0;
    match chain_find key c0 0 with
    | Some _ => Some (-1, d)
    | None =>
        if negb (dictIsRehashing d) then Some (s32 idx0, d)
        else
          let idx1 := h .& ht_sizemask (ht1 d) in
          c1 ← bucket (ht1 d) idx1;
          match chain_find key c1 0 with
          | Some _ => Some (-1, d)
          | None => Some (s32 idx1, d)
          end
    end.

(** The new entry has whatever [junk] was in its memory as value. *)
Definition dictAddRaw (can_resize : bool) (junk : Z) (d : dict) (key : Z)
  : option (option entry_ptr * dict) :=
  d ← rehash_step_if d;
  '(index, d) ← _dictKeyIndex can_resize d key;
  if index =? -1 then Some (None, d)
  else
    let table := if dictIsRehashing d then 1 else 0 in
    let ht := get_ht d table in
    c ← bucket ht index;
    ht ← set_bucket ht index (mkEntry (dup_key key) junk :: c);
    Some (Some (mkPtr table index 0), set_ht d table (set_used ht (u64 (ht_used ht + 1)))).

(** Reading and writing through a pointer to an entry. *)
Definition entry_at (d : dict) (p : entry_ptr) : option dictEntry :=
  c ← bucket (get_ht d (p_table p)) (p_idx p); c !! p_pos p.

Definition dictSetVal (d : dict) (p : entry_ptr) (val : Z) : option dict :=
  let ht := get_ht d (p_table p) in
  c ← bucket ht (p_idx p);
  e ← c !! p_pos p;
  ht ← set_bucket ht (p_idx p) (<[p_pos p := mkEntry (e_key e) (dup_val val)]> c);
  Some (set_ht d (p_table p) ht).

Definition dictAdd (can_resize : bool) (junk : Z) (d : dict) (key val : Z)
  : option (Z * dict) :=
  '(entry, d) ← dictAddRaw can_resize junk d key;
  match entry with
  | None => Some (DICT_ERR, d)
  | Some p => d ← dictSetVal d p val; Some (DICT_OK, d)
  end.

(** Searching one table, then the other while rehashing. *)
Definition find_in (d : dict) (table key : Z) : option (option entry_ptr) :=
  let idx := dictHashKey key .& ht_sizemask (get_ht d table) in
  c ← bucket (get_ht d table) idx;
  Some (mkPtr table idx <$> chain_find key c 0).

Definition dictFind (d : dict) (key : Z) : option (option entry_ptr * dict) :=
  if ht_size (ht0 d) =? 0 then Some (None, d)
  else
    d ← rehash_step_if d;
    r ← find_in d 0 key;
    match r with
    | Some p => Some (Some p, d)
    | None =>
        if negb (dictIsRehashing d) then Some (None, d)
        else r ← find_in d 1 key; Some (r, d)
    end.

(** NULL is [None]. *)
Definition dictFetchValue (d : dict) (key : Z) : option (option Z * dict) :=
  '(he, d) ← dictFind d key;
  match he with
  | None => Some (None, d)
  | Some p => e ← entry_at d p; Some (Some (e_val e), d)
  end.

Definition dictReplace (can_resize : bool) (junk : Z) (d : dict) (key val : Z)
  : option (Z * dict) :=
  '(r, d) ← dictAdd can_resize junk d key val;
  if r =? DICT_OK then Some (1, d)
  else
    '(entry, d) ← dictFind d key;
    p ← entry;
    auxentry ← entry_at d p;
    d ← dictSetVal d p val;
    Some (0, add_log d (free_val auxentry)).

Definition dictReplaceRaw (can_resize : bool) (junk : Z) (d : dict) (key : Z)
  : option (option entry_ptr * dict) :=
  '(entry, d) ← dictFind d key;
  match entry with
  | Some p => Some (Some p, d)
  | None => dictAddRaw can_resize junk d key
  end.

(** The unlinking of the entry found in a table. *)
Definition delete_at (d : dict) (p : entry_ptr) (nofree : bool) : option dict :=
  let ht := get_ht d (p_table p) in
  c ← bucket ht (p_idx p);
  e ← c !! p_pos p;
  ht ← set_bucket ht (p_idx p) (base.delete (p_pos p) c);
  let d := set_ht d (p_table p) (set_used ht (u64 (ht_used ht - 1))) in
  Some (if nofree then d else add_log d (free_key e ++ free_val e)).

Definition dictGenericDelete (d : dict) (key : Z) (nofree : bool) : option (Z * dict) :=
  if ht_size (ht0 d) =? 0 then Some (DICT_ERR, d)
  else
    d ← rehash_step_if d;
    r ← find_in d 0 key;
    match r with
    | Some p => d ← delete_at d p nofree; Some (DICT_OK, d)
    | None =>
        if negb (dictIsRehashing d) then Some (DICT_ERR, d)
        else
          r ← find_in d 1 key;
          match r with
          | Some p => d ← delete_at d p nofree; Some (DICT_OK, d)
          | None => Some (DICT_ERR, d)
          end
    end.

Definition dictDelete (d : dict) (key : Z) := dictGenericDelete d key false.
Definition dictDeleteNoFree (d : dict) (key : Z) := dictGenericDelete d key true.

(** The loop of [_dictClear] over the buckets, stopped when no entry is left. *)
Fixpoint clear_loop (t : list (list dictEntry)) (used : Z) : list event :=
  match t with
  | [] => []
  | c :: t =>
      if 0 <? used then
        concat ((fun e => free_key e ++ free_val e) <$> c) ++
        clear_loop t (u64 (used - zlen c))
      else []
  end.

Definition _dictClear (ht : dictht) : list event * dictht :=
  (clear_loop (default [] (ht_table ht)) (ht_used ht), _dictReset).

Definition dictEmpty (d : dict) : dict :=
  let '(l0, h0) := _dictClear (ht0 d) in
  let '(l1, h1) := _dictClear (ht1 d) in
  mkDict h0 h1 (-1) 0 (log d ++ l0 ++ l1).

(** [dictRelease] clears both tables; the structure is gone afterwards. *)
Definition dictRelease (d : dict) : list event :=
  log d ++ (_dictClear (ht0 d)).1 ++ (_dictClear (ht1 d)).1.
End Operations.

(** ** What a table needs of its type *)

(** [content] is what a key pointer stands for: keys compare equal when their
    contents are the same, and the hash function and the duplication of keys
    only depend on it. *)
Class KeyType (T : dictType) (C : Type) {eqC : EqDecision C} {cntC : Countable C} := {
  content : Z -> C;
  compare_content a b : dictCompareKeys T a b = bool_decide (content a = content b);
  hash_content a b : content a = content b -> dictHashKey T a = dictHashKey T b;
  hash_u32 a : in_u 32 (dictHashKey T a);
  dup_content a : content (dup_key T a) = content a }.

(** ** Invariant *)

Definition table_entries (ht : dictht) : list dictEntry := concat (default [] (ht_table ht)).
Definition all (d : dict) : list dictEntry := table_entries (ht0 d) ++ table_entries (ht1 d).

Section Invariant.
Context (T : dictType) {C : Type} {eqC : EqDecision C} {cntC : Countable C} {KT : KeyType T C}.

Definition index (k : Z) (key : Z) : Z := dictHashKey T key .& (2 ^ k - 1).

(** A table of [2 ^ k] buckets [t], with every entry in its bucket. *)
Record live (ht : dictht) (t : list (list dictEntry)) (k : Z) : Prop := {
  lv_table : ht_table ht = Some t;
  lv_size : ht_size ht = 2 ^ k;
  lv_mask : ht_sizemask ht = 2 ^ k - 1;
  lv_len : zlen t = 2 ^ k;
  lv_k : 2 <= k <= 31;
  lv_used : ht_used ht = zlen (concat t);
  lv_placed i c e : t !! i = Some c -> e ∈ c -> index k (e_key e) = Z.of_nat i }.

(** While rehashing: the buckets before the rehashing index are empty. *)
Record two (d : dict) (t0 : list (list dictEntry)) (k0 : Z) (t1 : list (list dictEntry)) (k1 : Z) : Prop := {
  tw_live0 : live (ht0 d) t0 k0;
  tw_live1 : live (ht1 d) t1 k1;
  tw_idx : 0 <= rehashidx d <= 2 ^ k0;
  tw_empty i c : Z.of_nat i < rehashidx d -> t0 !! i = Some c -> c = [] }.

Inductive shape (d : dict) : Prop :=
  | ShapeEmpty : rehashidx d = -1 -> ht0 d = _dictReset -> ht1 d = _dictReset -> shape d
  | ShapeOne t k : rehashidx d = -1 -> live (ht0 d) t k -> ht1 d = _dictReset -> shape d
  | ShapeTwo t0 k0 t1 k1 : two d t0 k0 t1 k1 -> shape d.

(** The number of entries up to which an index fits in an [int]. *)
Definition max_entries : Z := 2 ^ 30.

Definition key_of (e : dictEntry) : C := content (e_key e).

Record dict_ok (d : dict) : Prop := {
  ok_shape : shape d;
  ok_nodup : NoDup (key_of <$> all d);
  ok_count : zlen (all d) <= max_entries }.

(** The map a dictionary represents. *)
Definition pairs (es : list dictEntry) : list (C * dictEntry) := (fun e => (key_of e, e)) <$> es.
Definition dmap (d : dict) : gmap C dictEntry := list_to_map (pairs (all d)).

Lemma pairs_fst es : (pairs es).*1 = key_of <$> es.
Proof. unfold pairs. rewrite <- list_fmap_compose. done. Qed.

Lemma index_bound k key : 2 <= k -> 0 <= index k key < 2 ^ k.
Proof.
  intros. unfold index. replace (2 ^ k - 1) with (Z.ones k) by (rewrite Z.ones_equiv; lia).
  rewrite Z.land_ones by lia. apply Z.mod_pos_bound. apply pow2_pos. lia.
Qed.

Lemma live_lookup ht t k i :
  live ht t k -> 0 <= i < 2 ^ k ->
  exists c, bucket ht i = Some c /\ t !! Z.to_nat i = Some c.
Proof.
  intros L Hi. rewrite <- (lv_len _ _ _ L) in Hi.
  destruct (znth_Some t i Hi) as [c Hc]. exists c. unfold bucket.
  rewrite (lv_table _ _ _ L). step. split; [done|].
  unfold znth in Hc. by rewrite decide_True in Hc by lia.
Qed.

Lemma concat_split (t : list (list dictEntry)) i c :
  t !! i = Some c -> exists rest, concat t ≡ₚ c ++ rest /\
    forall c', concat (<[i := c']> t) ≡ₚ c' ++ rest.
Proof.
  intros H. exists (concat (take i t) ++ concat (drop (S i) t)).
  pose proof (take_drop_middle t i c H) as E. split.
  - rewrite <- E at 1. rewrite concat_app. simpl.
    rewrite app_assoc, (Permutation_app_comm _ c). by rewrite <- app_assoc.
  - intros c'. rewrite insert_take_drop by (by eapply lookup_lt_Some).
    rewrite concat_app. simpl.
    rewrite app_assoc, (Permutation_app_comm _ c'). by rewrite <- app_assoc.
Qed.

(** Replacing a bucket. *)
Lemma set_bucket_live ht t k i c c' u :
  live ht t k -> t !! i = Some c ->
  (forall e, e ∈ c' -> index k (e_key e) = Z.of_nat i) ->
  u = ht_used ht - zlen c + zlen c' ->
  exists ht' rest, set_bucket ht (Z.of_nat i) c' = Some ht' /\ ht_used ht' = ht_used ht /\
    live (set_used ht' u) (<[i := c']> t) k /\
    concat t ≡ₚ c ++ rest /\ concat (<[i := c']> t) ≡ₚ c' ++ rest.
Proof.
  intros L Hc Hp ->. pose proof (lookup_lt_Some _ _ _ Hc) as Hlt.
  destruct (concat_split t i c Hc) as (rest & P1 & P2).
  eexists _, rest. split.
  { unfold set_bucket. rewrite (lv_table _ _ _ L). step. rewrite zset_nat by done. step. reflexivity. }
  split; [done|]. split; [|done]. constructor; simpl; try apply L; try done.
  - rewrite <- (lv_len _ _ _ L). unfold zlen. by rewrite length_insert.
  - rewrite (lv_used _ _ _ L). unfold zlen. rewrite P1, (P2 c'), !length_app. lia.
  - intros j cj e Hj He. apply list_lookup_insert_Some in Hj as [(<- & <- & _)|[_ Hj]]; [by apply Hp|].
    by apply (lv_placed _ _ _ L) with cj.
Qed.

Lemma elem_of_concat {A} (t : list (list A)) (e : A) :
  e ∈ concat t <-> exists c, e ∈ c /\ c ∈ t.
Proof.
  rewrite list_elem_of_In, in_concat. split.
  - intros (c & ? & ?). exists c. by rewrite !list_elem_of_In.
  - intros (c & ? & ?). exists c. by rewrite <- !list_elem_of_In.
Qed.

Lemma in_concat_bucket t i c (e : dictEntry) : t !! i = Some c -> e ∈ c -> e ∈ concat t.
Proof. intros H He. apply concat_split in H as (rest & -> & _). set_solver. Qed.

Lemma in_bucket ht t k e c :
  live ht t k -> e ∈ concat t -> bucket ht (index k (e_key e)) = Some c -> e ∈ c.
Proof.
  intros L He Hb. apply elem_of_concat in He as (c' & Hc' & He').
  apply list_elem_of_lookup in He' as [i Hi].
  pose proof (lv_placed _ _ _ L i c' e Hi Hc') as Hix. rewrite Hix in Hb.
  unfold bucket in Hb. rewrite (lv_table _ _ _ L) in Hb. revert Hb. step.
  rewrite znth_nat. congruence.
Qed.

Lemma index_content k a b : content a = content b -> index k a = index k b.
Proof. intros E. unfold index. by rewrite (hash_content a b E). Qed.

Lemma chain_find_spec key : forall c pos,
  match chain_find T key c pos with
  | Some p => exists i e, p = (pos + i)%nat /\ c !! i = Some e /\ key_of e = content key
  | None => forall e, e ∈ c -> key_of e <> content key
  end.
Proof.
  induction c as [|e c IH]; intros pos; simpl; [set_solver|].
  rewrite compare_content. case_bool_decide as E.
  - exists 0%nat, e. split; [lia|]. done.
  - specialize (IH (S pos)). destruct (chain_find T key c (S pos)) as [p|].
    + destruct IH as (i & e' & -> & H1 & H2). exists (S i), e'. split; [lia|done].
    + intros e' [->|He']%elem_of_cons; [unfold key_of; congruence|by apply IH].
Qed.

(** Searching one table. *)
Lemma find_in_spec d table key t k :
  live (get_ht d table) t k ->
  exists r, find_in T d table key = Some r /\
    match r with
    | Some p => exists i c pos e, p = mkPtr table (Z.of_nat i) pos /\
        t !! i = Some c /\ c !! pos = Some e /\ key_of e = content key
    | None => forall e, e ∈ concat t -> key_of e <> content key
    end.
Proof.
  intros L. unfold find_in. rewrite (lv_mask _ _ _ L). fold (index k key).
  pose proof (index_bound k key (proj1 (lv_k _ _ _ L))) as Hi.
  destruct (live_lookup _ _ _ _ L Hi) as (c & Hb & Hc). rewrite Hb. step.
  pose proof (chain_find_spec key c 0) as Hf. eexists. split; [reflexivity|].
  destruct (chain_find T key c 0) as [pos|]; simpl.
  - destruct Hf as (i & e & -> & He & Hk).
    exists (Z.to_nat (index k key)), c, i, e. rewrite Z2Nat.id by lia. done.
  - intros e He Ek. apply (Hf e); [|done].
    apply (in_bucket _ _ _ e c L He). by rewrite (index_content k _ key Ek).
Qed.

(** ** Rehashing *)

Lemma live_size ht t k : live ht t k -> ht_size ht <> 0.
Proof.
  intros L. rewrite (lv_size _ _ _ L). pose proof (lv_k _ _ _ L).
  pose proof (pow2_pos k). lia.
Qed.

Lemma live_entries ht t k : live ht t k -> table_entries ht = concat t.
Proof. intros L. unfold table_entries. by rewrite (lv_table _ _ _ L). Qed.

Lemma rehash_skip_spec ht t k : live ht t k -> concat t <> [] ->
  forall fuel idx ev, 0 <= idx -> (Z.to_nat (2 ^ k - idx) < fuel)%nat ->
  (forall i c, Z.of_nat i < idx -> t !! i = Some c -> c = []) ->
  exists idx' ev' out, rehash_skip fuel ht idx ev = Some (idx', ev', out) /\
    idx <= idx' < 2 ^ k /\ (forall i c, Z.of_nat i < idx' -> t !! i = Some c -> c = []) /\
    if out : bool then idx < idx' else exists c, t !! Z.to_nat idx' = Some c /\ c <> [].
Proof.
  intros L Hne. induction fuel as [|fuel IH]; intros idx ev Hi Hf Hemp; [lia|].
  assert (idx < 2 ^ k) as Hlt.
  { destruct (Z.lt_ge_cases idx (2 ^ k)) as [|Hge]; [done|]. exfalso. apply Hne.
    apply concat_nil_Forall, Forall_lookup. intros i c Hc. apply (Hemp i c); [|done].
    apply lookup_lt_Some in Hc. pose proof (lv_len _ _ _ L). unfold zlen in *. lia. }
  destruct (live_lookup ht t k idx L ltac:(lia)) as (c & Hb & Hc).
  simpl. rewrite Hb. step. destruct c as [|e c].
  - assert (forall i c, Z.of_nat i < idx + 1 -> t !! i = Some c -> c = []) as Hemp'.
    { intros i c Hlt' Hc'. destruct (Z.eq_dec (Z.of_nat i) idx) as [E|].
      - assert (i = Z.to_nat idx) as -> by lia. congruence.
      - apply (Hemp i c); [lia|done]. }
    assert (idx + 1 < 2 ^ k) as Hlt1.
    { destruct (Z.lt_ge_cases (idx + 1) (2 ^ k)) as [|Hge]; [done|]. exfalso. apply Hne.
      apply concat_nil_Forall, Forall_lookup. intros i c Hc'. apply (Hemp' i c); [|done].
      apply lookup_lt_Some in Hc'. pose proof (lv_len _ _ _ L). unfold zlen in *. lia. }
    destruct (ev - 1 =? 0).
    + eexists _, _, true. split; [reflexivity|]. split; [lia|]. split; [done|lia].
    + destruct (IH (idx + 1) (ev - 1)) as (idx' & ev' & out & E & H1 & H2 & H3); [lia|lia|done|].
      exists idx', ev', out. split; [done|]. split; [lia|]. split; [done|].
      destruct out; [lia|done].
  - eexists _, _, false. split; [reflexivity|]. split; [lia|]. split; [done|]. by exists (e :: c).
Qed.

Lemma rehash_move_spec c : forall used0 h1 t1 k1,
  live h1 t1 k1 -> zlen c <= used0 < 2 ^ 32 -> zlen (concat t1) + zlen c < 2 ^ 32 ->
  exists h1' t1', rehash_move T c used0 h1 = Some (used0 - zlen c, h1') /\
    live h1' t1' k1 /\ concat t1' ≡ₚ c ++ concat t1.
Proof.
  induction c as [|e c IH]; intros used0 h1 t1 k1 L Hu Hs.
  - exists h1, t1. simpl. by rewrite Z.sub_0_r.
  - rewrite zlen_cons in *. pose proof (zlen_nonneg c). pose proof (zlen_nonneg (concat t1)).
    cbn [rehash_move]. rewrite (lv_mask _ _ _ L). fold (index k1 (e_key e)).
    pose proof (index_bound k1 (e_key e) (proj1 (lv_k _ _ _ L))) as Hi.
    destruct (live_lookup _ _ _ _ L Hi) as (b & Hb & Hc). rewrite Hb. step.
    destruct (set_bucket_live h1 t1 k1 (Z.to_nat (index k1 (e_key e))) b (e :: b) (ht_used h1 + 1))
      as (h1' & rest & E & Hu' & L' & P1 & P2); [done|done| | |].
    { rewrite Z2Nat.id by lia. intros e' [->|He']%elem_of_cons; [done|].
      rewrite (lv_placed _ _ _ L _ _ e' Hc He'). lia. }
    { rewrite zlen_cons. lia. }
    rewrite Z2Nat.id in E by lia. rewrite E. step.
    rewrite Hu'. rewrite (lv_used _ _ _ L) in *.
    rewrite (wrap_small 64 (used0 - 1)) by (unfold in_u; pow2; lia).
    rewrite (wrap_small 64 (zlen (concat t1) + 1)) by (unfold in_u; pow2; lia).
    destruct (IH (used0 - 1) _ _ k1 L') as (h2 & t2 & -> & L2 & P); [lia| |].
    { unfold zlen in *. rewrite P2, P1 in *. rewrite !length_app in *. simpl in *. lia. }
    eexists h2, t2. split; [do 2 f_equal; lia|]. split; [done|].
    rewrite P, P2, P1. simpl. symmetry. apply Permutation_middle.
Qed.

Definition small (d : dict) : Prop := zlen (all d) <= max_entries.

(** What rehashing keeps: the entries, the iterators and the log. *)
Definition same_entries (d d' : dict) : Prop :=
  all d' ≡ₚ all d /\ iterators d' = iterators d /\ log d' = log d.

Lemma same_entries_refl d : same_entries d d.
Proof. done. Qed.

Lemma same_entries_trans d d1 d2 : same_entries d d1 -> same_entries d1 d2 -> same_entries d d2.
Proof. intros (P1 & I1 & L1) (P2 & I2 & L2). split; [by rewrite P2|]. by rewrite I2, L2. Qed.

Lemma all_two d t0 k0 t1 k1 : two d t0 k0 t1 k1 -> all d = concat t0 ++ concat t1.
Proof.
  intros W. unfold all. by rewrite (live_entries _ _ _ (tw_live0 _ _ _ _ _ W)),
    (live_entries _ _ _ (tw_live1 _ _ _ _ _ W)).
Qed.

Lemma rehash_loop_spec : forall n d ev t0 k0 t1 k1,
  two d t0 k0 t1 k1 -> small d ->
  exists d' out t0' t1', rehash_loop T n d ev = Some (d', out) /\
    two d' t0' k0 t1' k1 /\ same_entries d d' /\ rehashidx d <= rehashidx d' /\
    (n <> O -> concat t0 <> [] -> rehashidx d < rehashidx d') /\
    (out = true -> concat t0' <> []) /\ (concat t0' <> [] -> concat t0 <> []).
Proof.
  induction n as [|n IH]; intros d ev t0 k0 t1 k1 W Hsm.
  { exists d, false, t0, t1. split; [done|]. split; [done|]. split; [done|]. split; [lia|]. done. }
  pose proof (tw_live0 _ _ _ _ _ W) as L0. pose proof (tw_live1 _ _ _ _ _ W) as L1.
  pose proof (tw_idx _ _ _ _ _ W) as Hidx.
  cbn [rehash_loop]. rewrite (lv_used _ _ _ L0).
  destruct (Z.eqb_spec (zlen (concat t0)) 0) as [E0|E0].
  { exists d, false, t0, t1. split; [done|]. split; [done|]. split; [done|]. split; [lia|].
    split; [|split; [done|done]]. intros _ Hne. destruct (concat t0); [done|]. rewrite zlen_cons in E0.
    pose proof (zlen_nonneg l). lia. }
  assert (concat t0 <> []) as Hne by (intros E; rewrite E in E0; done).
  destruct (rehash_skip_spec _ t0 k0 L0 Hne (S (Z.to_nat (ht_size (ht0 d)))) (rehashidx d) ev)
    as (idx & ev' & out & E & Hi & Hemp & Hout).
  { lia. } { rewrite (lv_size _ _ _ L0). lia. } { apply W. }
  rewrite (lv_size _ _ _ L0). destruct (Z.leb_spec (2 ^ k0) (rehashidx d)); [lia|].
  rewrite (lv_size _ _ _ L0) in E. rewrite E. step.
  assert (two (set_rehashidx d idx) t0 k0 t1 k1) as W1 by (constructor; simpl; [done|done|lia|done]).
  destruct out.
  { exists (set_rehashidx d idx), true, t0, t1. split; [done|]. split; [done|].
    split; [done|]. simpl. split; [lia|]. split; [lia|]. done. }
  destruct Hout as (c & Hc & Hcne). simpl ht0. simpl rehashidx. simpl ht1.
  destruct (live_lookup _ _ _ idx L0 ltac:(lia)) as (c' & Hb & Hc'). rewrite Hb. step.
  assert (c' = c) as -> by congruence.
  assert (zlen (concat t0) + zlen (concat t1) <= max_entries) as Hcnt.
  { unfold small in Hsm. rewrite (all_two _ _ _ _ _ W), zlen_app in Hsm. done. }
  unfold max_entries in Hcnt.
  pose proof (zlen_nonneg (concat t0)). pose proof (zlen_nonneg (concat t1)).
  destruct (set_bucket_live (ht0 d) t0 k0 (Z.to_nat idx) c [] (ht_used (ht0 d) - zlen c) L0 Hc)
    as (h0' & rest & E1 & _ & L0' & P1 & P2).
  { intros e He. by apply elem_of_nil in He. } { rewrite zlen_nil. lia. }
  assert (zlen (concat t0) = zlen c + zlen rest) as Hz.
  { unfold zlen. rewrite P1, length_app. lia. }
  pose proof (zlen_nonneg rest).
  rewrite (lv_used _ _ _ L0).
  destruct (rehash_move_spec c (zlen (concat t0)) (ht1 d) t1 k1 L1) as (h1' & t1' & -> & L1' & P3);
    [split; [|pow2]; lia|pow2; lia|]. step.
  rewrite Z2Nat.id in E1 by lia. rewrite E1. step.
  rewrite (lv_used _ _ _ L0) in L0'.
  set (d2 := set_rehashidx _ (idx + 1)).
  assert (two d2 (<[Z.to_nat idx := []]> t0) k0 t1' k1) as W2.
  { constructor; simpl; [done|done|lia|]. intros i x Hlt Hx.
    apply list_lookup_insert_Some in Hx as [(_ & <- & _)|[Hn Hx]]; [done|].
    apply (Hemp i x); [lia|done]. }
  assert (same_entries d d2) as S2.
  { split; [|done]. rewrite (all_two _ _ _ _ _ W2), (all_two _ _ _ _ _ W), P2, P3, P1. simpl.
    rewrite (Permutation_app_comm c rest), <- app_assoc. done. }
  destruct (IH d2 ev' _ _ _ _ W2) as (d' & out & t0' & t1'' & -> & W3 & S3 & Hle & _ & Hout' & _).
  { unfold small, zlen in *. by rewrite (proj1 S2). }
  exists d', out, t0', t1''. split; [done|]. split; [done|].
  split; [by eapply same_entries_trans|]. simpl in Hle. split; [lia|]. split; [lia|]. done.
Qed.

Lemma dict_ok_same d d' : dict_ok d -> shape d' -> same_entries d d' -> dict_ok d'.
Proof.
  intros [_ Hn Hc] Hs (P & _). constructor; [done| |].
  - by rewrite P.
  - unfold zlen in *. by rewrite P.
Qed.

Lemma dmap_same d d' : dict_ok d -> same_entries d d' -> dmap d' = dmap d.
Proof.
  intros [_ Hn Hc] (P & _). unfold dmap. symmetry. apply list_to_map_proper.
  - by rewrite pairs_fst.
  - unfold pairs. by rewrite P.
Qed.

Lemma two_rehashing d t0 k0 t1 k1 : two d t0 k0 t1 k1 -> dictIsRehashing d = true.
Proof.
  intros W. unfold dictIsRehashing. pose proof (tw_idx _ _ _ _ _ W).
  destruct (Z.eqb_spec (rehashidx d) (-1)); [lia|done].
Qed.

Lemma all_one d t k : live (ht0 d) t k -> ht1 d = _dictReset -> all d = concat t.
Proof.
  intros L E. unfold all. rewrite (live_entries _ _ _ L), E. simpl. apply app_nil_r.
Qed.

(** The shapes, as [dictIsRehashing] tells them apart. *)
Lemma shape_cases d : shape d ->
  (dictIsRehashing d = false /\ ht1 d = _dictReset /\ rehashidx d = -1 /\
     (ht0 d = _dictReset \/ exists t k, live (ht0 d) t k)) \/
  (dictIsRehashing d = true /\ exists t0 k0 t1 k1, two d t0 k0 t1 k1).
Proof.
  intros [E H0 H1|t k E L H1|t0 k0 t1 k1 W].
  - left. unfold dictIsRehashing. rewrite E. eauto.
  - left. unfold dictIsRehashing. rewrite E. eauto 10.
  - right. split; [by eapply two_rehashing|eauto 8].
Qed.

Lemma dictRehash_spec d n : dict_ok d ->
  exists r d', dictRehash T d n = Some (r, d') /\ dict_ok d' /\ same_entries d d' /\
    r = (if dictIsRehashing d' then 1 else 0) /\
    (dictIsRehashing d = false -> d' = d) /\
    (0 < n -> r = 1 -> rehashidx d < rehashidx d' <= ht_size (ht0 d') /\
       ht_size (ht0 d') = ht_size (ht0 d)) /\
    (ht_size (ht0 d) <> 0 -> ht_size (ht0 d') <> 0).
Proof.
  intros Hok. unfold dictRehash.
  destruct (shape_cases d (ok_shape _ Hok)) as [(E & _)|(E & t0 & k0 & t1 & k1 & W)]; rewrite E; simpl.
  { exists 0, d. rewrite E. done. }
  destruct (rehash_loop_spec (Z.to_nat n) d (n * 10) _ _ _ _ W (ok_count _ Hok))
    as (d1 & out & t0' & t1' & -> & W1 & S1 & Hle & Hlt & Hout & Hback). step.
  pose proof (tw_live0 _ _ _ _ _ W1) as L0. pose proof (tw_live1 _ _ _ _ _ W1) as L1.
  pose proof (two_rehashing _ _ _ _ _ W1) as E1.
  assert (dict_ok d1) as Hok1 by (apply (dict_ok_same d); [done|by eapply ShapeTwo|done]).
  assert (concat t0' <> [] -> exists r d', Some (1, d1) = Some (r, d') /\ dict_ok d' /\
    same_entries d d' /\ r = (if dictIsRehashing d' then 1 else 0) /\
    (true = false -> d' = d) /\
    (0 < n -> r = 1 -> rehashidx d < rehashidx d' <= ht_size (ht0 d') /\
       ht_size (ht0 d') = ht_size (ht0 d)) /\
    (ht_size (ht0 d) <> 0 -> ht_size (ht0 d') <> 0)) as Hmore.
  { intros Hne. exists 1, d1. rewrite E1. repeat (split; [done|]).
    split; [|intros _; by apply (live_size _ _ _ L0)]. intros Hn _.
    rewrite (lv_size _ _ _ L0), (lv_size _ _ _ (tw_live0 _ _ _ _ _ W)).
    split; [|done]. split; [|apply W1]. apply Hlt; [lia|auto]. }
  destruct out; [auto|]. rewrite (lv_used _ _ _ L0).
  destruct (Z.eqb_spec (zlen (concat t0')) 0) as [E0|E0].
  - assert (concat t0' = []) as En.
    { destruct (concat t0') as [|x l]; [done|]. rewrite zlen_cons in E0. pose proof (zlen_nonneg l). lia. }
    set (d2 := set_rehashidx _ (-1)).
    assert (same_entries d d2) as S2.
    { destruct S1 as (P & ? & ?). split; [|done]. rewrite <- P.
      rewrite (all_two _ _ _ _ _ W1), En. unfold d2, all. simpl.
      rewrite (live_entries _ _ _ L1). by rewrite app_nil_r. }
    exists 0, d2. split; [done|]. split.
    + apply (dict_ok_same d); [done| |done]. by eapply (ShapeOne d2).
    + split; [done|]. split; [done|]. split; [done|]. split; [done|].
      intros _. by apply (live_size (ht1 d1) t1' k1).
  - apply Hmore. intros E2. rewrite E2 in E0. done.
Qed.

Lemma rehash_step_spec d : dict_ok d ->
  exists d', rehash_step_if T d = Some d' /\ dict_ok d' /\ same_entries d d' /\
    (iterators d <> 0 -> d' = d) /\ (dictIsRehashing d = false -> d' = d) /\
    (ht_size (ht0 d) <> 0 -> ht_size (ht0 d') <> 0).
Proof.
  intros Hok. unfold rehash_step_if, _dictRehashStep.
  destruct (dictIsRehashing d) eqn:E; [|by exists d].
  destruct (Z.eqb_spec (iterators d) 0); [|by exists d].
  destruct (dictRehash_spec d 1 Hok) as (r & d' & -> & Hok' & S & Hr & _ & _ & Hs). step.
  by exists d'.
Qed.

(** ** Growing *)

Lemma nextPower_loop_spec n : forall fuel j size, 2 <= j -> j + Z.of_nat n = 62 ->
  (n < fuel)%nat -> size <= 2 ^ 62 -> (j = 2 \/ 2 ^ (j - 1) < size) ->
  exists k, nextPower_loop fuel (2 ^ j) size = Some (2 ^ k) /\ j <= k <= 62 /\
    size <= 2 ^ k /\ (k = 2 \/ 2 ^ (k - 1) < size).
Proof.
  induction n as [|n IH]; intros fuel j size Hj Hn Hf Hs Hlow; (destruct fuel; [lia|]); simpl.
  - assert (j = 62) as -> by lia. destruct (Z.leb_spec size (2 ^ 62)); [|lia].
    exists 62. split; [done|]. split; [lia|]. done.
  - destruct (Z.leb_spec size (2 ^ j)); [exists j; split; [done|]; split; [lia|done]|].
    assert (2 ^ j * 2 = 2 ^ (j + 1)) as E by (rewrite Z.pow_add_r by lia; lia).
    rewrite E. rewrite wrap_small.
    2: { split; [apply Z.pow_nonneg; lia|]. apply Z.pow_lt_mono_r; lia. }
    destruct (IH fuel (j + 1) size) as (k & E' & H1 & H2); [lia|lia|lia|done| |].
    { right. by replace (j + 1 - 1) with j by lia. }
    exists k. split; [done|]. split; [lia|done].
Qed.

Lemma _dictNextPower_spec size : size <= 2 ^ 62 ->
  exists k, _dictNextPower size = Some (2 ^ k) /\ 2 <= k <= 62 /\ size <= 2 ^ k /\
    (k = 2 \/ 2 ^ (k - 1) < size).
Proof.
  intros Hs. unfold _dictNextPower. destruct (Z.leb_spec LONG_MAX size) as [Hl|_].
  - unfold LONG_MAX in Hl. pow2. lia.
  - change DICT_HT_INITIAL_SIZE with (2 ^ 2).
    apply (nextPower_loop_spec 60); [lia|lia|lia|done|by left].
Qed.

Lemma live_new k : 2 <= k <= 31 ->
  live (mkHt (Some (replicate (Z.to_nat (2 ^ k)) [])) (2 ^ k) (2 ^ k - 1) 0)
    (replicate (Z.to_nat (2 ^ k)) []) k.
Proof.
  intros Hk. constructor; simpl; try done.
  - unfold zlen. rewrite length_replicate. pose proof (pow2_pos k). lia.
  - assert (forall n, concat (replicate n (@nil dictEntry)) = []) as -> by (induction n; done). done.
  - intros i c e Hc He. apply lookup_replicate in Hc as [-> _]. by apply elem_of_nil in He.
Qed.

Lemma concat_replicate_nil {A} n : concat (replicate n (@nil A)) = [].
Proof. induction n; done. Qed.

Lemma reset_entries : table_entries _dictReset = [].
Proof. done. Qed.

(** A table of at most 2^31 buckets. *)
Lemma dictExpand_spec d size : dict_ok d -> size <= 2 ^ 31 ->
  exists r d', dictExpand d size = Some (r, d') /\ dict_ok d' /\ same_entries d d' /\
    (r = DICT_OK -> ht_size (ht0 d') <> 0 /\ dictIsRehashing d = false) /\
    (r <> DICT_OK -> d' = d) /\
    (dictIsRehashing d = false -> zlen (all d) <= size -> (ht_size (ht0 d) = 0 \/ 2 * ht_size (ht0 d) <= size) ->
       r = DICT_OK).
Proof.
  intros Hok Hs. unfold dictExpand.
  assert (size <= 2 ^ 62) as Hs' by (pow2; lia).
  destruct (_dictNextPower_spec size Hs') as (k & -> & Hk & Hle & Hmin). step.
  assert (k <= 31) as Hk31.
  { destruct (Z.le_gt_cases k 31); [done|]. destruct Hmin as [->|Hmin]; [lia|].
    assert (2 ^ 31 <= 2 ^ (k - 1)) by (apply Z.pow_le_mono_r; lia). lia. }
  destruct (shape_cases d (ok_shape _ Hok)) as [(E & H1 & Ei & Hd)|(E & W)]; rewrite E; simpl.
  2: { exists DICT_ERR, d. by repeat (split; [done|]). }
  assert (ht_used (ht0 d) = zlen (all d)) as Hu.
  { destruct Hd as [H0|(t & k' & L)].
    - unfold all. by rewrite H0, H1.
    - by rewrite (all_one d t k' L H1), (lv_used _ _ _ L). }
  pose proof (pow2_pos k ltac:(lia)) as Hpk.
  rewrite Hu. destruct (Z.ltb_spec size (zlen (all d))) as [Hlt|Hge].
  { exists DICT_ERR, d. do 5 (split; [done|]). intros; lia. }
  destruct (Z.eqb_spec (2 ^ k) (ht_size (ht0 d))) as [Heq|Hne].
  { exists DICT_ERR, d. do 5 (split; [done|]). intros; lia. }
  set (n := mkHt _ _ _ _).
  assert (live n (replicate (Z.to_nat (2 ^ k)) []) k) as Ln by (apply live_new; lia).
  assert (table_entries n = []) as En by apply concat_replicate_nil.
  destruct Hd as [H0|(t & k' & L)].
  - rewrite H0. simpl. set (d' := set_ht d 0 n).
    assert (same_entries d d') as S.
    { split; [|done]. unfold all, d'. simpl. by rewrite H0, H1, En. }
    exists DICT_OK, d'. split; [done|]. split; [|split; [done|]].
    + apply (dict_ok_same d); [done| |done]. by apply (ShapeOne d' (replicate (Z.to_nat (2 ^ k)) []) k).
    + split; [|done]. split; [by apply (live_size _ _ _ Ln)|done].
  - rewrite (lv_table _ _ _ L). set (d' := set_rehashidx (set_ht d 1 n) 0).
    assert (same_entries d d') as S.
    { split; [|done]. unfold all, d'. simpl. by rewrite H1, En. }
    exists DICT_OK, d'. split; [done|]. split; [|split; [done|]].
    + apply (dict_ok_same d); [done| |done].
      apply (ShapeTwo d' t k' (replicate (Z.to_nat (2 ^ k)) []) k). constructor; [done|done| |].
      * pose proof (lv_k _ _ _ L). pose proof (pow2_pos k'). simpl. lia.
      * simpl. intros; lia.
    + split; [|done]. split; [by apply (live_size _ _ _ L)|done].
Qed.

Lemma _dictExpandIfNeeded_spec can_resize d : dict_ok d -> zlen (all d) < max_entries ->
  exists d', _dictExpandIfNeeded can_resize d = Some (DICT_OK, d') /\ dict_ok d' /\
    same_entries d d' /\ ht_size (ht0 d') <> 0.
Proof.
  intros Hok Hc. unfold _dictExpandIfNeeded, max_entries in *.
  destruct (shape_cases d (ok_shape _ Hok)) as [(E & H1 & Ei & Hd)|(E & t0 & k0 & t1 & k1 & W)]; rewrite E.
  2: { exists d. do 3 (split; [done|]). apply (live_size _ _ _ (tw_live0 _ _ _ _ _ W)). }
  destruct Hd as [H0|(t & k & L)].
  - rewrite H0. simpl.
    destruct (dictExpand_spec d DICT_HT_INITIAL_SIZE Hok) as (r & d' & -> & Hok' & S & Hr & _ & Hyes);
      [unfold DICT_HT_INITIAL_SIZE; pow2; lia|].
    assert (r = DICT_OK) as ->.
    { apply Hyes; [done| |left; by rewrite H0]. unfold all. by rewrite H0, H1. }
    exists d'. do 3 (split; [done|]). by apply Hr.
  - pose proof (live_size _ _ _ L) as Hsz.
    destruct (Z.eqb_spec (ht_size (ht0 d)) 0) as [?|_]; [done|].
    destruct (_ && _) eqn:Eb; [|by exists d].
    apply andb_true_iff in Eb as [Eb _]. apply Z.leb_le in Eb.
    rewrite (lv_used _ _ _ L) in *. rewrite <- (all_one d t k L H1) in *.
    pose proof (zlen_nonneg (all d)).
    rewrite wrap_small by (unfold in_u; pow2; lia).
    destruct (dictExpand_spec d (zlen (all d) * 2) Hok) as (r & d' & -> & Hok' & S & Hr & _ & Hyes);
      [pow2; lia|].
    assert (r = DICT_OK) as -> by (apply Hyes; [done|lia|right; lia]).
    exists d'. do 3 (split; [done|]). by apply Hr.
Qed.

Lemma dictResize_spec can_resize d : dict_ok d ->
  exists r d', dictResize can_resize d = Some (r, d') /\ dict_ok d' /\ same_entries d d'.
Proof.
  intros Hok. unfold dictResize. destruct (_ || _); [by exists DICT_ERR, d|].
  cbv zeta. set (m := if s32 (ht_used (ht0 d)) <? DICT_HT_INITIAL_SIZE
                      then DICT_HT_INITIAL_SIZE else s32 (ht_used (ht0 d))).
  assert (m <= 2 ^ 31) as Hm.
  { unfold m, DICT_HT_INITIAL_SIZE, swrap.
    pose proof (Z.mod_pos_bound (ht_used (ht0 d) + 2 ^ (32 - 1)) (2 ^ 32)).
    destruct (Z.ltb_spec ((ht_used (ht0 d) + 2 ^ (32 - 1)) mod 2 ^ 32 - 2 ^ (32 - 1)) 4); pow2; lia. }
  destruct (dictExpand_spec d m Hok Hm) as (r & d' & -> & ? & ? & _). by exists r, d'.
Qed.

(** ** One bucket of a dictionary *)

(** Selecting one of the two tables. *)
Ltac which_ht :=
  unfold get_ht, set_ht in *; change (0 =? 0) with true in *;
  change (1 =? 0) with false in *; cbv iota in *; simpl in *.

Definition table_ok (d : dict) (table : Z) : Prop :=
  table = 0 \/ (table = 1 /\ dictIsRehashing d = true).

Lemma table_live d table : shape d -> table_ok d table -> ht_size (ht0 d) <> 0 ->
  exists t k, live (get_ht d table) t k.
Proof.
  intros Hs [->|(-> & E)] Hz.
  - destruct Hs as [_ H0 _|t k _ L _|t0 k0 t1 k1 W]; [by rewrite H0 in Hz|by exists t, k|].
    exists t0, k0. apply W.
  - destruct (shape_cases d Hs) as [(E' & _)|(_ & t0 & k0 & t1 & k1 & W)]; [congruence|].
    exists t1, k1. apply W.
Qed.

(** A bucket replaced: what the dictionary is made of before and after. *)
Lemma put_bucket d table t k i c c' u :
  shape d -> table_ok d table -> live (get_ht d table) t k -> t !! i = Some c ->
  (forall e, e ∈ c' -> index k (e_key e) = Z.of_nat i) ->
  u = ht_used (get_ht d table) - zlen c + zlen c' ->
  (table = 0 -> dictIsRehashing d = true -> c = [] -> c' = []) ->
  exists ht' rest, set_bucket (get_ht d table) (Z.of_nat i) c' = Some ht' /\
    ht_used ht' = ht_used (get_ht d table) /\
    let d' := set_ht d table (set_used ht' u) in
    shape d' /\ all d ≡ₚ c ++ rest /\ all d' ≡ₚ c' ++ rest /\
    live (get_ht d' table) (<[i := c']> t) k /\ ht_size (ht0 d') = ht_size (ht0 d).
Proof.
  intros Hs Ht L Hc Hp Hu Hemp.
  destruct (set_bucket_live _ t k i c c' u L Hc Hp Hu) as (ht' & rest & E & Hu' & L' & P1 & P2).
  exists ht'. destruct Ht as [->|(-> & Hre)]; which_ht.
  - exists (rest ++ table_entries (ht1 d)). split; [done|]. split; [done|].
    split; [|split; [|split; [|split; [done|]]]].
    + destruct Hs as [_ H0 _|t' k' Hi L0 H1|t0 k0 t1 k1 W].
      * rewrite H0 in L. by destruct L.
      * by apply (ShapeOne _ (<[i:=c']> t) k).
      * assert (t0 = t) as ->.
        { pose proof (lv_table _ _ _ L). pose proof (lv_table _ _ _ (tw_live0 _ _ _ _ _ W)). congruence. }
        assert (2 ^ k0 = 2 ^ k) as Hk.
        { rewrite <- (lv_len _ _ _ L). by rewrite <- (lv_len _ _ _ (tw_live0 _ _ _ _ _ W)). }
        apply (ShapeTwo _ (<[i:=c']> t) k t1 k1). constructor; simpl; [done|apply W| |].
        -- rewrite <- Hk. apply W.
        -- intros j x Hj Hx. apply list_lookup_insert_Some in Hx as [(<- & <- & _)|[_ Hx]].
           ++ apply Hemp; [done|by eapply two_rehashing|]. by apply (tw_empty _ _ _ _ _ W i).
           ++ by apply (tw_empty _ _ _ _ _ W j).
    + unfold all. rewrite (live_entries _ _ _ L), P1. by rewrite app_assoc.
    + unfold all. simpl. rewrite (live_entries _ _ _ L'), P2. by rewrite app_assoc.
    + rewrite (lv_size _ _ _ L). exact (lv_size _ _ _ L').
  - exists (rest ++ table_entries (ht0 d)). split; [done|]. split; [done|].
    split; [|split; [|split; [|split; [done|done]]]].
    + destruct (shape_cases d Hs) as [(E' & _)|(_ & t0 & k0 & t1 & k1 & W)]; [congruence|].
      apply (ShapeTwo _ t0 k0 (<[i:=c']> t) k). constructor; simpl; [apply W|done|apply W|apply W].
    + unfold all. rewrite (live_entries _ _ _ L), Permutation_app_comm, P1. by rewrite app_assoc.
    + unfold all. simpl. rewrite (live_entries _ _ _ L'), Permutation_app_comm, P2. by rewrite app_assoc.
Qed.

(** A pointer to an entry of the dictionary. *)
Definition points (d : dict) (p : entry_ptr) (e : dictEntry) : Prop :=
  table_ok d (p_table p) /\ exists t k i c, live (get_ht d (p_table p)) t k /\
    p_idx p = Z.of_nat i /\ t !! i = Some c /\ c !! p_pos p = Some e.

Lemma live_bucket ht t k i c : live ht t k -> t !! i = Some c -> bucket ht (Z.of_nat i) = Some c.
Proof. intros L Hc. unfold bucket. rewrite (lv_table _ _ _ L). step. by rewrite znth_nat. Qed.

Lemma points_entry d p e : points d p e -> entry_at d p = Some e.
Proof.
  intros (_ & t & k & i & c & L & Hi & Hc & He). unfold entry_at.
  rewrite Hi, (live_bucket _ _ _ _ _ L Hc). done.
Qed.

Lemma points_in d p e : points d p e -> e ∈ all d.
Proof.
  intros ([Ht|(Ht & _)] & t & k & i & c & L & Hi & Hc & He); rewrite Ht in L; which_ht;
    unfold all; rewrite elem_of_app; [left|right]; rewrite (live_entries _ _ _ L);
    apply (in_concat_bucket t i c); try done; by eapply list_elem_of_lookup_2.
Qed.

(** Writing the value of an entry. *)
Lemma dictSetVal_spec d p e val : dict_ok d -> points d p e ->
  exists d', dictSetVal T d p val = Some d' /\ dict_ok d' /\
    (exists rest, all d ≡ₚ e :: rest /\ all d' ≡ₚ mkEntry (e_key e) (dup_val T val) :: rest) /\
    iterators d' = iterators d /\ log d' = log d /\
    points d' p (mkEntry (e_key e) (dup_val T val)).
Proof.
  intros Hok Hpt. destruct Hpt as (Ht & t & k & i & c & L & Hi & Hc & He).
  set (e' := mkEntry (e_key e) (dup_val T val)). unfold dictSetVal.
  rewrite Hi, (live_bucket _ _ _ _ _ L Hc). step. rewrite He. step. fold e'.
  pose proof (lookup_lt_Some _ _ _ He) as Hlt.
  destruct (put_bucket d (p_table p) t k i c (<[p_pos p := e']> c) (ht_used (get_ht d (p_table p))))
    as (ht' & rest & E & Hu & Hs' & P1 & P2 & L' & _); [apply Hok|done|done|done| | | |].
  { intros x Hx. apply list_elem_of_lookup in Hx as [j Hj].
    apply list_lookup_insert_Some in Hj as [(_ & <- & _)|[_ Hj]].
    - simpl. apply (lv_placed _ _ _ L i c e Hc). by eapply list_elem_of_lookup_2.
    - apply (lv_placed _ _ _ L i c x Hc). by eapply list_elem_of_lookup_2. }
  { unfold zlen. rewrite length_insert. lia. }
  { intros _ _ ->. done. }
  rewrite E. step. rewrite <- Hu in Hs', P2, L'.
  assert (set_used ht' (ht_used ht') = ht') as Heta by by destruct ht'.
  rewrite Heta in *. eexists. split; [reflexivity|].
  set (rest' := take (p_pos p) c ++ drop (S (p_pos p)) c ++ rest).
  assert (all d ≡ₚ e :: rest') as Q1.
  { rewrite P1. rewrite <- (take_drop_middle c _ e He) at 1. rewrite <- app_assoc.
    simpl. by rewrite <- Permutation_middle. }
  assert (all (set_ht d (p_table p) ht') ≡ₚ e' :: rest') as Q2.
  { rewrite P2. rewrite insert_take_drop by done. rewrite <- app_assoc.
    simpl. by rewrite <- Permutation_middle. }
  split; [|split; [by exists rest'|]].
  - constructor; [done| |].
    + rewrite Q2. pose proof (ok_nodup _ Hok) as Hn. rewrite Q1 in Hn. done.
    + pose proof (ok_count _ Hok) as Hn. unfold zlen in *. rewrite Q2. rewrite Q1 in Hn. done.
  - unfold set_ht. destruct (p_table p =? 0) eqn:Et; simpl; (split; [done|split; [done|]]);
      (split; [exact Ht|]); exists (<[i := <[p_pos p := e']> c]> t), k, i, (<[p_pos p := e']> c);
      (split; [revert L'; unfold set_ht; by rewrite Et|split; [done|]]);
      rewrite !list_lookup_insert_eq; try done; by apply lookup_lt_Some in Hc.
Qed.

Lemma set_ht_rest d table ht :
  iterators (set_ht d table ht) = iterators d /\ log (set_ht d table ht) = log d /\
  rehashidx (set_ht d table ht) = rehashidx d.
Proof. unfold set_ht. by destruct (table =? 0). Qed.

Lemma dict_ok_log d es : dict_ok d -> dict_ok (add_log d es).
Proof.
  intros [Hs Hn Hc]. constructor; [|done|done].
  destruct Hs as [|t k|t0 k0 t1 k1 W];
    [by apply ShapeEmpty|by apply (ShapeOne _ t k)|apply (ShapeTwo _ t0 k0 t1 k1); by destruct W].
Qed.

(** Unlinking an entry. *)
Lemma delete_at_spec d p e nofree : dict_ok d -> points d p e ->
  exists d', delete_at T d p nofree = Some d' /\ dict_ok d' /\ all d ≡ₚ e :: all d' /\
    iterators d' = iterators d /\
    log d' = log d ++ (if nofree then [] else free_key T e ++ free_val T e).
Proof.
  intros Hok (Ht & t & k & i & c & L & Hi & Hc & He). unfold delete_at.
  rewrite Hi, (live_bucket _ _ _ _ _ L Hc). step. rewrite He. step.
  pose proof (lookup_lt_Some _ _ _ He) as Hlt.
  destruct (put_bucket d (p_table p) t k i c (base.delete (p_pos p) c) (ht_used (get_ht d (p_table p)) - 1))
    as (ht' & rest & E & Hu & Hs' & P1 & P2 & L' & _); [apply Hok|done|done|done| | | |].
  { intros x Hx. apply (lv_placed _ _ _ L i c x Hc). apply list_elem_of_lookup in Hx as [j Hj].
    destruct (decide (j < p_pos p)%nat).
    - rewrite list_lookup_delete_lt in Hj by done. by eapply list_elem_of_lookup_2.
    - rewrite list_lookup_delete_ge in Hj by lia. by eapply list_elem_of_lookup_2. }
  { unfold zlen. rewrite length_delete by (by eexists). lia. }
  { intros _ _ ->. done. }
  rewrite E. step.
  assert (all d ≡ₚ e :: base.delete (p_pos p) c ++ rest) as Q1.
  { rewrite P1. rewrite <- (take_drop_middle c _ e He) at 1. rewrite <- app_assoc. simpl.
    rewrite delete_take_drop, <- app_assoc. by rewrite <- Permutation_middle. }
  rewrite Hu. rewrite wrap_small.
  2: { rewrite (lv_used _ _ _ L) in *. pose proof (ok_count _ Hok) as Hn. unfold max_entries in Hn.
       assert (zlen (concat t) <= zlen (all d)).
       { unfold all. rewrite zlen_app. destruct Ht as [Ht|(Ht & _)]; rewrite Ht in L; which_ht;
           rewrite (live_entries _ _ _ L);
           [pose proof (zlen_nonneg (table_entries (ht1 d)))|pose proof (zlen_nonneg (table_entries (ht0 d)))]; lia. }
       destruct (concat_split t i c Hc) as (r & Pc & _).
       assert (0 < zlen (concat t)).
       { unfold zlen. rewrite Pc, length_app. lia. }
       unfold in_u. pow2. lia. }
  set (d' := set_ht d _ _) in *.
  assert (all d ≡ₚ e :: all d') as Q by by rewrite Q1, P2.
  assert (dict_ok d') as Hok'.
  { constructor; [done| |].
    - pose proof (ok_nodup _ Hok) as Hn. rewrite Q in Hn. by apply NoDup_cons in Hn as [_ Hn].
    - pose proof (ok_count _ Hok) as Hn. unfold zlen in *. rewrite Q in Hn. simpl in Hn. lia. }
  destruct (set_ht_rest d (p_table p) (set_used ht' (ht_used (get_ht d (p_table p)) - 1))) as (R1 & R2 & _).
  fold d' in R1, R2. destruct nofree; eexists; (split; [reflexivity|]).
  - by rewrite app_nil_r.
  - split; [by apply dict_ok_log|]. split; [done|]. split; [done|]. simpl. by rewrite R2.
Qed.

(** ** Searching *)

Definition found (d : dict) (key : Z) (p : entry_ptr) : Prop :=
  exists e, points d p e /\ key_of e = content key.
Definition absent (d : dict) (key : Z) : Prop :=
  forall e, e ∈ all d -> key_of e <> content key.

Lemma find_table d table key t k : live (get_ht d table) t k -> table_ok d table ->
  exists r, find_in T d table key = Some r /\
    match r with
    | Some p => found d key p
    | None => forall e, e ∈ concat t -> key_of e <> content key
    end.
Proof.
  intros L Ht. destruct (find_in_spec d table key t k L) as (r & E & Hr).
  exists r. split; [done|]. destruct r as [p|]; [|done].
  destruct Hr as (i & c & pos & e & -> & Hc & He & Hk).
  exists e. split; [|done]. split; [done|]. by exists t, k, i, c.
Qed.

Lemma find_both d key : shape d -> ht_size (ht0 d) <> 0 ->
  exists r0, find_in T d 0 key = Some r0 /\
    match r0 with
    | Some p => found d key p
    | None =>
        if dictIsRehashing d then
          exists r1, find_in T d 1 key = Some r1 /\
            match r1 with Some p => found d key p | None => absent d key end
        else absent d key
    end.
Proof.
  intros Hs Hz.
  destruct (table_live d 0 Hs ltac:(by left) Hz) as (t & k & L).
  destruct (find_table d 0 key t k L ltac:(by left)) as (r0 & E & Hr).
  exists r0. split; [done|]. destruct r0 as [p|]; [done|].
  destruct (dictIsRehashing d) eqn:Ere.
  - assert (table_ok d 1) as Ht by (by right).
    destruct (table_live d 1 Hs Ht Hz) as (t1 & k1 & L1).
    destruct (find_table d 1 key t1 k1 L1 Ht) as (r1 & E1 & Hr1).
    exists r1. split; [done|]. destruct r1 as [p|]; [done|].
    intros e. unfold all. rewrite elem_of_app. which_ht.
    rewrite (live_entries _ _ _ L), (live_entries _ _ _ L1). intros [?|?]; auto.
  - destruct (shape_cases d Hs) as [(_ & H1 & _)|(E' & _)]; [|congruence].
    intros e. rewrite (all_one d t k L H1). auto.
Qed.

Lemma absent_same d d' key : same_entries d d' -> absent d' key -> absent d key.
Proof. intros (P & _) H e He. apply H. by rewrite P. Qed.

Lemma dictFind_spec d key : dict_ok d ->
  exists r d', dictFind T d key = Some (r, d') /\ dict_ok d' /\ same_entries d d' /\
    match r with Some p => found d' key p | None => absent d' key end.
Proof.
  intros Hok. unfold dictFind. destruct (Z.eqb_spec (ht_size (ht0 d)) 0) as [Hz|Hz].
  { exists None, d. repeat (split; [done|]). intros e He.
    destruct (ok_shape _ Hok) as [_ H0 H1|t k _ L _|t0 k0 t1 k1 W].
    - unfold all in He. rewrite H0, H1 in He. by apply elem_of_nil in He.
    - by apply live_size in L.
    - by pose proof (live_size _ _ _ (tw_live0 _ _ _ _ _ W)). }
  destruct (rehash_step_spec d Hok) as (d' & -> & Hok' & S & _ & _ & Hz'). step.
  destruct (find_both d' key (ok_shape _ Hok') (Hz' Hz)) as (r0 & -> & Hr). step.
  destruct r0 as [p|]; [by exists (Some p), d'|].
  destruct (dictIsRehashing d'); simpl.
  - destruct Hr as (r1 & -> & Hr). step. by exists r1, d'.
  - by exists None, d'.
Qed.

Lemma dictGenericDelete_spec d key nofree : dict_ok d ->
  exists r d', dictGenericDelete T d key nofree = Some (r, d') /\ dict_ok d' /\
    iterators d' = iterators d /\
    ((r = DICT_OK /\ exists e, key_of e = content key /\ all d ≡ₚ e :: all d' /\
        log d' = log d ++ (if nofree then [] else free_key T e ++ free_val T e)) \/
     (r = DICT_ERR /\ same_entries d d' /\ absent d' key)).
Proof.
  intros Hok. unfold dictGenericDelete. destruct (Z.eqb_spec (ht_size (ht0 d)) 0) as [Hz|Hz].
  { destruct (dictFind_spec d key Hok) as (r & d' & E & _ & _ & Hr).
    unfold dictFind in E. rewrite Hz in E. simpl in E. injection E as <- <-.
    exists DICT_ERR, d. do 3 (split; [done|]). by right. }
  destruct (rehash_step_spec d Hok) as (d' & -> & Hok' & S & _ & _ & Hz'). step.
  destruct S as (P & I1 & L1).
  assert (forall p, found d' key p -> exists r d2,
    (d ← delete_at T d' p nofree; Some (DICT_OK, d)) = Some (r, d2) /\ dict_ok d2 /\
    iterators d2 = iterators d /\ r = DICT_OK /\
    exists e, key_of e = content key /\ all d ≡ₚ e :: all d2 /\
        log d2 = log d ++ (if nofree then [] else free_key T e ++ free_val T e)) as Hdel.
  { intros p (e & Hp & He).
    destruct (delete_at_spec d' p e nofree Hok' Hp) as (d2 & -> & Hok2 & P2 & I2 & L2). step.
    exists DICT_OK, d2. split; [done|]. split; [done|]. split; [congruence|]. split; [done|].
    exists e. split; [done|]. rewrite <- P, P2, L2, L1. done. }
  destruct (find_both d' key (ok_shape _ Hok') (Hz' Hz)) as (r0 & -> & Hr). step.
  destruct r0 as [p|].
  { destruct (Hdel p Hr) as (r & d2 & E & ? & ? & ? & ?). exists r, d2. do 3 (split; [done|]). by left. }
  destruct (dictIsRehashing d'); simpl.
  - destruct Hr as (r1 & -> & Hr). step. destruct r1 as [p|].
    + destruct (Hdel p Hr) as (r & d2 & E & ? & ? & ? & ?). exists r, d2. do 3 (split; [done|]). by left.
    + exists DICT_ERR, d'. do 3 (split; [done|]). by right.
  - exists DICT_ERR, d'. do 3 (split; [done|]). by right.
Qed.

(** ** Adding *)

Lemma s32_index k key : 2 <= k <= 31 -> s32 (index k key) = index k key.
Proof.
  intros Hk. apply swrap_small; [lia|]. pose proof (index_bound k key (proj1 Hk)).
  assert (2 ^ k <= 2 ^ 31) by (apply Z.pow_le_mono_r; lia). unfold in_s. simpl (32 - 1).
  pow2. lia.
Qed.

Lemma chain_absent t k key c : (exists ht, live ht t k) ->
  t !! Z.to_nat (index k key) = Some c ->
  (forall e, e ∈ c -> key_of e <> content key) ->
  forall e, e ∈ concat t -> key_of e <> content key.
Proof.
  intros [ht L] Hc Hn e He Ek. apply (Hn e); [|done].
  pose proof (index_bound k (e_key e) (proj1 (lv_k _ _ _ L))) as Hi.
  rewrite <- (index_content k _ key Ek) in Hc.
  apply (in_bucket ht t k e c L He).
  rewrite <- (Z2Nat.id (index k (e_key e))) by lia. by apply (live_bucket ht t k).
Qed.

Lemma dictKeyIndex_spec can_resize d key : dict_ok d -> zlen (all d) < max_entries ->
  exists r d', _dictKeyIndex T can_resize d key = Some (r, d') /\ dict_ok d' /\
    same_entries d d' /\
    ((r = -1 /\ exists e, e ∈ all d' /\ key_of e = content key) \/
     (absent d' key /\ exists t k, let table := if dictIsRehashing d' then 1 else 0 in
        live (get_ht d' table) t k /\ r = index k key)).
Proof.
  intros Hok Hc. unfold _dictKeyIndex.
  destruct (_dictExpandIfNeeded_spec can_resize d Hok Hc) as (d' & -> & Hok' & S & Hz). step.
  change (DICT_OK =? DICT_ERR) with false. cbv iota.
  destruct (table_live d' 0 (ok_shape _ Hok') ltac:(by left) Hz) as (t & k & L).
  which_ht. rewrite (lv_mask _ _ _ L). fold (index k key).
  pose proof (index_bound k key (proj1 (lv_k _ _ _ L))) as Hi.
  destruct (live_lookup _ _ _ _ L Hi) as (c & -> & Hcl). step.
  pose proof (chain_find_spec key c 0) as Hf.
  destruct (chain_find T key c 0) as [pos|].
  { exists (-1), d'. do 3 (split; [done|]). left. split; [done|].
    destruct Hf as (j & e & _ & He & Ek). exists e. split; [|done].
    unfold all. rewrite elem_of_app, (live_entries _ _ _ L). left.
    eapply in_concat_bucket; [done|by eapply list_elem_of_lookup_2]. }
  assert (forall e, e ∈ concat t -> key_of e <> content key) as Ha
    by (apply (chain_absent t k key c); [by exists (ht0 d')|done|done]).
  destruct (shape_cases d' (ok_shape _ Hok')) as [(E & H1 & _)|(E & t0 & k0 & t1 & k1 & W)];
    rewrite E; simpl negb; cbv iota.
  { exists (s32 (index k key)), d'. do 3 (split; [done|]). right. split.
    - intros e. rewrite (all_one d' t k L H1). auto.
    - exists t, k. split; [rewrite E; exact L|]. apply s32_index, (lv_k _ _ _ L). }
  pose proof (tw_live1 _ _ _ _ _ W) as L1.
  rewrite (lv_mask _ _ _ L1). fold (index k1 key).
  pose proof (index_bound k1 key (proj1 (lv_k _ _ _ L1))) as Hi1.
  destruct (live_lookup _ _ _ _ L1 Hi1) as (c1 & -> & Hcl1). step.
  pose proof (chain_find_spec key c1 0) as Hf1.
  destruct (chain_find T key c1 0) as [pos|].
  { exists (-1), d'. do 3 (split; [done|]). left. split; [done|].
    destruct Hf1 as (j & e & _ & He & Ek). exists e. split; [|done].
    unfold all. rewrite elem_of_app, (live_entries _ _ _ L1). right.
    eapply in_concat_bucket; [done|by eapply list_elem_of_lookup_2]. }
  exists (s32 (index k1 key)), d'. do 3 (split; [done|]). right. split.
  - intros e. unfold all. rewrite elem_of_app, (live_entries _ _ _ L), (live_entries _ _ _ L1).
    intros [?|He]; [auto|]. revert e He. apply (chain_absent t1 k1 key c1); [by exists (ht1 d')|done|done].
  - exists t1, k1. split; [rewrite E; exact L1|]. apply s32_index, (lv_k _ _ _ L1).
Qed.

Lemma dictAddRaw_spec can_resize junk d key : dict_ok d -> zlen (all d) < max_entries ->
  exists r d', dictAddRaw T can_resize junk d key = Some (r, d') /\ dict_ok d' /\
    iterators d' = iterators d /\ log d' = log d /\
    match r with
    | None => all d' ≡ₚ all d /\ exists e, e ∈ all d /\ key_of e = content key
    | Some p => let e := mkEntry (dup_key T key) junk in
        points d' p e /\ all d' ≡ₚ e :: all d /\ absent d key
    end.
Proof.
  intros Hok Hc. unfold dictAddRaw.
  destruct (rehash_step_spec d Hok) as (d1 & -> & Hok1 & S1 & _). step.
  assert (zlen (all d1) < max_entries) as Hc1 by (unfold zlen in *; by rewrite (proj1 S1)).
  destruct (dictKeyIndex_spec can_resize d1 key Hok1 Hc1) as (r & d2 & -> & Hok2 & S2 & Hr). step.
  pose proof (same_entries_trans _ _ _ S1 S2) as (P & I & Lg).
  destruct Hr as [(-> & e & He & Ek)|(Ha & t & k & L & ->)].
  { exists None, d2. do 4 (split; [done|]). split; [done|]. exists e. by rewrite <- P. }
  pose proof (index_bound k key (proj1 (lv_k _ _ _ L))) as Hi.
  destruct (Z.eqb_spec (index k key) (-1)); [lia|].
  set (table := if dictIsRehashing d2 then 1 else 0) in *.
  destruct (live_lookup _ _ _ _ L Hi) as (c & Hb & Hcl). rewrite Hb. step.
  set (e := mkEntry (dup_key T key) junk).
  assert (key_of e = content key) as Ek by apply dup_content.
  assert (table_ok d2 table) as Ht by (unfold table, table_ok; destruct (dictIsRehashing d2); auto).
  destruct (put_bucket d2 table t k (Z.to_nat (index k key)) c (e :: c) (ht_used (get_ht d2 table) + 1))
    as (ht' & rest & E & Hu & Hs' & P1 & P2 & L' & _); [apply Hok2|done|done|done| | | |].
  { rewrite Z2Nat.id by lia. intros x [->|Hx]%elem_of_cons.
    - by apply index_content.
    - rewrite (lv_placed _ _ _ L _ _ x Hcl Hx). lia. }
  { rewrite zlen_cons. lia. }
  { intros Ht0 Hre. unfold table in Ht0. by rewrite Hre in Ht0. }
  rewrite Z2Nat.id in E by lia. rewrite E. step. rewrite Hu.
  assert (zlen (all d2) < max_entries) as Hc2 by (unfold zlen in *; by rewrite P).
  assert (0 <= ht_used (get_ht d2 table) <= zlen (all d2)) as Hub.
  { rewrite (lv_used _ _ _ L). split; [apply zlen_nonneg|].
    unfold zlen. rewrite P1. destruct (concat_split t _ c Hcl) as (r & Pc & _).
    destruct Ht as [Ht|(Ht & _)]; rewrite Ht in *; which_ht;
      rewrite <- P1; unfold all; rewrite length_app, (live_entries _ _ _ L); lia. }
  rewrite wrap_small by (unfold max_entries in *; unfold in_u; pow2; lia).
  set (d3 := set_ht d2 table _) in *.
  assert (all d3 ≡ₚ e :: all d) as P3 by by rewrite P2, <- P, P1.
  assert (absent d key) as Hab by (intros x Hx; apply Ha; by rewrite P).
  destruct (set_ht_rest d2 table (set_used ht' (ht_used (get_ht d2 table) + 1))) as (R1 & R2 & R3).
  fold d3 in R1, R2, R3.
  exists (Some (mkPtr table (index k key) 0)), d3. split; [done|]. split; [|split; [congruence|split; [congruence|]]].
  - constructor; [done| |].
    + rewrite P3. simpl. apply NoDup_cons. split; [|apply Hok].
      rewrite Ek. intros (x & E' & Hx)%list_elem_of_fmap. by apply (Hab x).
    + unfold zlen in *. rewrite P3. simpl. rewrite <- P. unfold max_entries in *. lia.
  - simpl. split; [|done]. split.
    + simpl. unfold table_ok, dictIsRehashing in *. by rewrite R3.
    + simpl. exists (<[Z.to_nat (index k key) := e :: c]> t), k, (Z.to_nat (index k key)), (e :: c).
      split; [exact L'|]. split; [by rewrite Z2Nat.id by lia|]. split; [|done].
      apply list_lookup_insert_eq. by eapply lookup_lt_Some.
Qed.

(** ** The map a dictionary represents *)

Lemma dmap_lookup d x e : dict_ok d -> dmap d !! x = Some e <-> e ∈ all d /\ key_of e = x.
Proof.
  intros Hok. unfold dmap. rewrite <- elem_of_list_to_map.
  - unfold pairs. rewrite list_elem_of_fmap. split.
    + intros (e' & [= -> ->] & He). done.
    + intros (He & <-). by exists e.
  - rewrite pairs_fst. apply Hok.
Qed.

Lemma dmap_absent d key : dict_ok d -> absent d key <-> dmap d !! content key = None.
Proof.
  intros Hok. split.
  - intros Ha. destruct (dmap d !! content key) as [e|] eqn:E; [|done].
    apply dmap_lookup in E as (He & Ek); [|done]. by apply (Ha e) in He.
  - intros Hn e He Ek. assert (dmap d !! content key = Some e); [|congruence].
    by apply dmap_lookup.
Qed.

Lemma dmap_cons d d' e : dict_ok d' -> all d' ≡ₚ e :: all d ->
  dmap d' = <[key_of e := e]> (dmap d).
Proof.
  intros Hok P. transitivity (list_to_map (pairs (e :: all d)) : gmap C dictEntry); [|done].
  apply list_to_map_proper.
  - rewrite pairs_fst. apply Hok.
  - unfold pairs. by rewrite P.
Qed.

Lemma dmap_uncons d d' e : dict_ok d -> all d ≡ₚ e :: all d' ->
  dmap d' = base.delete (key_of e) (dmap d) /\ dmap d !! key_of e = Some e.
Proof.
  intros Hok P. rewrite (dmap_cons d' d e Hok P). split; [|apply lookup_insert_eq].
  rewrite delete_insert_id; [done|].
  destruct (dmap d' !! key_of e) as [x|] eqn:E; [|done]. exfalso.
  pose proof (ok_nodup _ Hok) as Hn. rewrite P in Hn. simpl in Hn.
  apply NoDup_cons in Hn as [Hn Hn']. apply Hn.
  unfold dmap in E. apply elem_of_list_to_map_2 in E.
  apply list_elem_of_fmap in E as (y & [= -> _] & Hy). apply list_elem_of_fmap. by exists y.
Qed.

Lemma dmap_size d : dict_ok d -> Z.of_nat (size (dmap d)) = zlen (all d).
Proof.
  intros Hok. unfold dmap. rewrite <- size_dom, dom_list_to_map_L, pairs_fst.
  rewrite size_list_to_set by apply Hok. by rewrite length_fmap.
Qed.

Lemma fmap_snd_pairs es : (pairs es).*2 = es.
Proof. unfold pairs. rewrite <- list_fmap_compose. apply list_fmap_id. Qed.

Lemma dictSize_spec d : dict_ok d -> dictSize d = zlen (all d).
Proof.
  intros Hok. unfold dictSize. pose proof (ok_count _ Hok) as Hc. unfold max_entries in Hc.
  pose proof (zlen_nonneg (all d)).
  assert (ht_used (ht0 d) + ht_used (ht1 d) = zlen (all d)) as ->.
  { destruct (ok_shape _ Hok) as [_ H0 H1|t k _ L H1|t0 k0 t1 k1 W].
    - unfold all. by rewrite H0, H1.
    - rewrite (all_one d t k L H1), (lv_used _ _ _ L), H1. simpl. lia.
    - rewrite (all_two _ _ _ _ _ W), zlen_app.
      by rewrite (lv_used _ _ _ (tw_live0 _ _ _ _ _ W)), (lv_used _ _ _ (tw_live1 _ _ _ _ _ W)). }
  apply wrap_small. unfold in_u. pow2. lia.
Qed.

(** ** Clearing *)

Definition free_events (e : dictEntry) : list event := free_key T e ++ free_val T e.
Definition all_events (es : list dictEntry) : list event := concat (free_events <$> es).

Lemma all_events_app a b : all_events (a ++ b) = all_events a ++ all_events b.
Proof. unfold all_events. by rewrite fmap_app, concat_app. Qed.

Lemma Permutation_concat {A} (l k : list (list A)) : l ≡ₚ k -> concat l ≡ₚ concat k.
Proof.
  induction 1; simpl; [done|by f_equiv| |by etrans].
  rewrite !app_assoc. by rewrite (Permutation_app_comm x y).
Qed.

Lemma clear_loop_spec t : zlen (concat t) < 2 ^ 64 ->
  clear_loop T t (zlen (concat t)) = all_events (concat t).
Proof.
  induction t as [|c t IH]; [done|]. simpl. rewrite zlen_app. intros Hb.
  pose proof (zlen_nonneg c). pose proof (zlen_nonneg (concat t)).
  destruct (Z.ltb_spec 0 (zlen c + zlen (concat t))).
  - rewrite all_events_app. f_equal. rewrite wrap_small by (unfold in_u; lia).
    replace (zlen c + zlen (concat t) - zlen c) with (zlen (concat t)) by lia. apply IH. lia.
  - destruct c as [|e c]; [|rewrite zlen_cons in *; pose proof (zlen_nonneg c); lia].
    destruct (concat t) as [|e l]; [done|]. rewrite zlen_cons in *. pose proof (zlen_nonneg l). lia.
Qed.

Lemma live_or_reset d table : shape d ->
  get_ht d table = _dictReset \/ exists t k, live (get_ht d table) t k.
Proof.
  intros Hs. unfold get_ht. destruct (table =? 0); destruct Hs as [_ H0 H1|t k _ L H1|t0 k0 t1 k1 W]; eauto.
  - right. exists t0, k0. apply W.
  - right. exists t1, k1. apply W.
Qed.

Lemma _dictClear_spec d table : dict_ok d ->
  _dictClear T (get_ht d table) = (all_events (table_entries (get_ht d table)), _dictReset).
Proof.
  intros Hok. unfold _dictClear.
  destruct (live_or_reset d table (ok_shape _ Hok)) as [->|(t & k & L)]; [done|].
  rewrite (live_entries _ _ _ L), (lv_table _ _ _ L), (lv_used _ _ _ L). simpl.
  rewrite clear_loop_spec; [done|]. pose proof (ok_count _ Hok) as Hc. unfold max_entries in Hc.
  unfold all in Hc. rewrite zlen_app in Hc. rewrite <- (live_entries _ _ _ L).
  pose proof (zlen_nonneg (table_entries (ht0 d))). pose proof (zlen_nonneg (table_entries (ht1 d))).
  unfold get_ht. destruct (table =? 0); pow2; lia.
Qed.

Lemma dictEmpty_spec d : dict_ok d ->
  dict_ok (dictEmpty T d) /\ dmap (dictEmpty T d) = ∅ /\
  log (dictEmpty T d) = log d ++ all_events (all d) /\
  dictRelease T d = log d ++ all_events (all d).
Proof.
  intros Hok. unfold dictEmpty, dictRelease.
  pose proof (_dictClear_spec d 0 Hok) as E0. pose proof (_dictClear_spec d 1 Hok) as E1.
  change (get_ht d 0) with (ht0 d) in E0. change (get_ht d 1) with (ht1 d) in E1.
  rewrite E0, E1. unfold all. rewrite all_events_app. split; [|done].
  constructor; [by apply ShapeEmpty|by apply NoDup_nil|]. unfold max_entries. simpl. by change (zlen _) with 0.
Qed.

Lemma dictCreate_ok : dict_ok dictCreate.
Proof. constructor; [by apply ShapeEmpty|by apply NoDup_nil|]. by change (zlen _) with 0. Qed.

(** ** Setting values *)

Lemma dictAdd_spec can_resize junk d key val : dict_ok d -> zlen (all d) < max_entries ->
  exists r d', dictAdd T can_resize junk d key val = Some (r, d') /\ dict_ok d' /\
    log d' = log d /\
    match dmap d !! content key with
    | Some _ => r = DICT_ERR /\ dmap d' = dmap d
    | None => r = DICT_OK /\
        dmap d' = <[content key := mkEntry (dup_key T key) (dup_val T val)]> (dmap d)
    end.
Proof.
  intros Hok Hc. unfold dictAdd.
  destruct (dictAddRaw_spec can_resize junk d key Hok Hc) as (r & d1 & -> & Hok1 & I1 & L1 & Hr). step.
  destruct r as [p|].
  - destruct Hr as (Hp & P & Ha).
    destruct (dictSetVal_spec d1 p _ val Hok1 Hp) as (d2 & -> & Hok2 & (rest & P1 & P2) & I2 & L2 & _). step.
    exists DICT_OK, d2. split; [done|]. split; [done|]. split; [congruence|].
    pose proof Ha as Hn. rewrite dmap_absent in Hn by done. rewrite Hn. split; [done|].
    rewrite P in P1. apply Permutation_cons_inv in P1.
    rewrite (dmap_cons d d2 (mkEntry (dup_key T key) (dup_val T val)) Hok2) by by rewrite P1.
    unfold key_of. simpl. by rewrite dup_content.
  - destruct Hr as (P & e & He & Ek). exists DICT_ERR, d1. split; [done|]. split; [done|]. split; [done|].
    assert (dmap d !! content key = Some e) as -> by by apply dmap_lookup.
    split; [done|]. apply dmap_same; [done|]. split; [done|]. by rewrite I1, L1.
Qed.

Lemma found_lookup d key p : dict_ok d -> found d key p ->
  exists e, points d p e /\ key_of e = content key /\ dmap d !! content key = Some e.
Proof.
  intros Hok (e & Hp & Ek). exists e. split; [done|]. split; [done|].
  apply dmap_lookup; [done|]. split; [by eapply points_in|done].
Qed.

Lemma dictReplace_spec can_resize junk d key val : dict_ok d -> zlen (all d) < max_entries ->
  exists r d', dictReplace T can_resize junk d key val = Some (r, d') /\ dict_ok d' /\
    match dmap d !! content key with
    | Some e => r = 0 /\ dmap d' = <[content key := mkEntry (e_key e) (dup_val T val)]> (dmap d) /\
        log d' = log d ++ free_val T e
    | None => r = 1 /\ log d' = log d /\
        dmap d' = <[content key := mkEntry (dup_key T key) (dup_val T val)]> (dmap d)
    end.
Proof.
  intros Hok Hc. unfold dictReplace.
  destruct (dictAdd_spec can_resize junk d key val Hok Hc) as (r & d1 & -> & Hok1 & L1 & Hr). step.
  destruct (dmap d !! content key) as [e|] eqn:E; destruct Hr as (-> & Hm); simpl.
  2: { exists 1, d1. done. }
  destruct (dictFind_spec d1 key Hok1) as (r & d2 & -> & Hok2 & S & Hf). step.
  pose proof (dmap_same d1 d2 Hok1 S) as Hm2.
  destruct r as [p|]; [|by rewrite dmap_absent, Hm2, Hm, E in Hf by done].
  destruct (found_lookup d2 key p Hok2 Hf) as (e' & Hp & Ek & He'). step.
  assert (e' = e) as -> by congruence.
  rewrite (points_entry _ _ _ Hp). step.
  destruct (dictSetVal_spec d2 p e val Hok2 Hp) as (d3 & -> & Hok3 & (rest & P1 & P2) & I3 & L3 & _). step.
  exists 0, (add_log d3 (free_val T e)). split; [done|]. split; [by apply dict_ok_log|].
  split; [done|]. split.
  - change (dmap (add_log d3 _)) with (dmap d3). rewrite <- Hm, <- Hm2.
    unfold dmap. rewrite <- Ek.
    rewrite (list_to_map_proper (pairs (all d3)) (pairs (mkEntry (e_key e) (dup_val T val) :: rest))).
    + rewrite (list_to_map_proper (pairs (all d2)) (pairs (e :: rest))).
      * simpl. by rewrite insert_insert_eq.
      * rewrite pairs_fst. apply Hok2.
      * unfold pairs. by rewrite P1.
    + rewrite pairs_fst. apply Hok3.
    + unfold pairs. by rewrite P2.
  - simpl. rewrite L3. destruct S as (_ & _ & ->). by rewrite L1.
Qed.
End Invariant.

(** ** Sequences of operations *)

Inductive cmd :=
  | Add (key val : Z)
  | Replace (key val : Z)
  | ReplaceRaw (key : Z)
  | Delete (key : Z) (nofree : bool)
  | Find (key : Z)
  | FetchValue (key : Z)
  | Expand (size : Z)
  | Resize
  | Rehash (n : Z)
  | Empty.

Inductive result := Code (r : Z) | Entry (e : option dictEntry) | Value (v : option Z).

Section Commands.
Context (T : dictType) (junk : Z).

(** The entry a returned pointer points to. *)
Definition deref (d : dict) (p : option entry_ptr) : option (option dictEntry) :=
  match p with None => Some None | Some p => e ← entry_at d p; Some (Some e) end.

(** [b] is [dict_can_resize] at the time of the command. *)
Definition exec (d : dict) (cb : cmd * bool) : option (result * dict) :=
  let '(c, b) := cb in
  match c with
  | Add k v => '(r, d) ← dictAdd T b junk d k v; Some (Code r, d)
  | Replace k v => '(r, d) ← dictReplace T b junk d k v; Some (Code r, d)
  | ReplaceRaw k =>
      '(p, d) ← dictReplaceRaw T b junk d k; e ← deref d p; Some (Entry e, d)
  | Delete k false => '(r, d) ← dictDelete T d k; Some (Code r, d)
  | Delete k true => '(r, d) ← dictDeleteNoFree T d k; Some (Code r, d)
  | Find k => '(p, d) ← dictFind T d k; e ← deref d p; Some (Entry e, d)
  | FetchValue k => '(v, d) ← dictFetchValue T d k; Some (Value v, d)
  | Expand n => '(r, d) ← dictExpand d n; Some (Code r, d)
  | Resize => '(r, d) ← dictResize b d; Some (Code r, d)
  | Rehash n => '(r, d) ← dictRehash T d n; Some (Code r, d)
  | Empty => Some (Code 0, dictEmpty T d)
  end.

Fixpoint exec_all (d : dict) (cs : list (cmd * bool)) : option (list result * dict) :=
  match cs with
  | [] => Some ([], d)
  | c :: cs => '(r, d) ← exec d c; '(rs, d) ← exec_all d cs; Some (r :: rs, d)
  end.

(** The sizes an [int] index allows, and a number of steps that does not
    overflow the count of visits. *)
Definition cmd_ok (c : cmd) : Prop :=
  match c with
  | Expand n => n <= 2 ^ 31
  | Rehash n => 0 <= n < 2 ^ 31 / 10
  | _ => True
  end.

Global Instance cmd_ok_dec c : Decision (cmd_ok c).
Proof. destruct c; simpl; apply _. Defined.
End Commands.

Section Refinement.
Context (T : dictType) {C : Type} {eqC : EqDecision C} {cntC : Countable C} {KT : KeyType T C}.
Context (junk : Z).

(** One command on a finite map from contents of keys to entries, with its
    result and the calls of the destructors. *)
Definition spec (m : gmap C dictEntry) (c : cmd) (r : result) (m' : gmap C dictEntry)
    (evs : list event) : Prop :=
  match c with
  | Add k v =>
      evs = [] /\
      match m !! content k with
      | Some _ => r = Code DICT_ERR /\ m' = m
      | None => r = Code DICT_OK /\
          m' = <[content k := mkEntry (dup_key T k) (dup_val T v)]> m
      end
  | Replace k v =>
      match m !! content k with
      | Some e => r = Code 0 /\ evs = free_val T e /\
          m' = <[content k := mkEntry (e_key e) (dup_val T v)]> m
      | None => r = Code 1 /\ evs = [] /\
          m' = <[content k := mkEntry (dup_key T k) (dup_val T v)]> m
      end
  | ReplaceRaw k =>
      evs = [] /\
      match m !! content k with
      | Some e => r = Entry (Some e) /\ m' = m
      | None => let e := mkEntry (dup_key T k) junk in
          r = Entry (Some e) /\ m' = <[content k := e]> m
      end
  | Delete k nofree =>
      match m !! content k with
      | Some e => r = Code DICT_OK /\ m' = base.delete (content k) m /\
          evs = if nofree then [] else free_key T e ++ free_val T e
      | None => r = Code DICT_ERR /\ m' = m /\ evs = []
      end
  | Find k => r = Entry (m !! content k) /\ m' = m /\ evs = []
  | FetchValue k => r = Value (e_val <$> m !! content k) /\ m' = m /\ evs = []
  | Expand _ | Resize | Rehash _ => m' = m /\ evs = []
  | Empty => m' = ∅ /\ evs ≡ₚ all_events T (map_to_list m).*2
  end.

(** A sequence of commands from [m] to [m'], with all the results and calls. *)
Fixpoint spec_all (m : gmap C dictEntry) (cs : list cmd) (rs : list result)
    (m' : gmap C dictEntry) (evs : list event) : Prop :=
  match cs, rs with
  | [], [] => m' = m /\ evs = []
  | c :: cs, r :: rs => exists m1 e1 e2,
      spec m c r m1 e1 /\ spec_all m1 cs rs m' e2 /\ evs = e1 ++ e2
  | _, _ => False
  end.

Lemma dictReplaceRaw_spec can_resize d key : dict_ok T d -> zlen (all d) < max_entries ->
  exists p d' e, dictReplaceRaw T can_resize junk d key = Some (Some p, d') /\ dict_ok T d' /\
    log d' = log d /\ entry_at d' p = Some e /\
    match dmap T d !! content key with
    | Some e' => e = e' /\ dmap T d' = dmap T d
    | None => e = mkEntry (dup_key T key) junk /\ dmap T d' = <[content key := e]> (dmap T d)
    end.
Proof.
  intros Hok Hc. unfold dictReplaceRaw.
  destruct (dictFind_spec T d key Hok) as (r & d1 & -> & Hok1 & S & Hr). step.
  pose proof (dmap_same T d d1 Hok S) as Hm.
  destruct r as [p|].
  - destruct (found_lookup T d1 key p Hok1 Hr) as (e & Hp & Ek & He).
    exists p, d1, e. split; [done|]. split; [done|]. split; [apply S|].
    split; [by apply points_entry with T|]. rewrite <- Hm, He. done.
  - assert (zlen (all d1) < max_entries) as Hc1 by (unfold zlen in *; by rewrite (proj1 S)).
    destruct (dictAddRaw_spec T can_resize junk d1 key Hok1 Hc1) as (r & d2 & -> & Hok2 & I2 & L2 & Hr2).
    destruct r as [p|].
    + destruct Hr2 as (Hp & P & Ha). exists p, d2, (mkEntry (dup_key T key) junk).
      split; [done|]. split; [done|]. split; [rewrite L2; apply S|].
      split; [by apply points_entry with T|].
      rewrite dmap_absent in Hr by done. rewrite <- Hm, Hr. split; [done|].
      rewrite (dmap_cons T d1 d2 _ Hok2 P). unfold key_of. simpl. by rewrite dup_content.
    + destruct Hr2 as (P & e & He & Ek). by apply Hr in He.
Qed.

Lemma find_deref d key : dict_ok T d ->
  exists r d', dictFind T d key = Some (r, d') /\ dict_ok T d' /\ same_entries d d' /\
    deref d' r = Some (dmap T d !! content key).
Proof.
  intros Hok. destruct (dictFind_spec T d key Hok) as (r & d1 & E & Hok1 & S & Hr).
  exists r, d1. split; [done|]. split; [done|]. split; [done|].
  rewrite <- (dmap_same T d d1 Hok S). destruct r as [p|]; simpl.
  - destruct (found_lookup T d1 key p Hok1 Hr) as (e & Hp & Ek & He).
    by rewrite (points_entry T _ _ _ Hp), He.
  - rewrite dmap_absent in Hr by done. by rewrite Hr.
Qed.

Lemma exec_spec d c b : dict_ok T d -> cmd_ok c -> zlen (all d) < max_entries ->
  exists r d' evs, exec T junk d (c, b) = Some (r, d') /\ dict_ok T d' /\
    spec (dmap T d) c r (dmap T d') evs /\ log d' = log d ++ evs.
Proof.
  intros Hok Hc Hn.
  assert (forall d', dict_ok T d' -> same_entries d d' ->
    (dmap T d' = dmap T d /\ [] = @nil event) /\ log d' = log d ++ []) as Hsame.
  { intros d' Hok' S. rewrite app_nil_r. split; [|apply S]. split; [|done]. by apply dmap_same. }
  destruct c as [k v|k v|k|k nofree|k|k|n| |n|]; cbn [exec spec].
  - destruct (dictAdd_spec T b junk d k v Hok Hn) as (r & d' & -> & Hok' & L & Hr). step.
    exists (Code r), d', []. rewrite app_nil_r. split; [done|]. split; [done|]. split; [|done].
    split; [done|]. destruct (dmap T d !! content k); destruct Hr as [-> ->]; done.
  - destruct (dictReplace_spec T b junk d k v Hok Hn) as (r & d' & -> & Hok' & Hr). step.
    destruct (dmap T d !! content k) as [e|].
    + destruct Hr as (-> & Hm & L). by exists (Code 0), d', (free_val T e).
    + destruct Hr as (-> & L & Hm). exists (Code 1), d', []. by rewrite app_nil_r.
  - destruct (dictReplaceRaw_spec b d k Hok Hn) as (p & d' & e & -> & Hok' & L & He & Hr). step.
    unfold deref. rewrite He. step. exists (Entry (Some e)), d', []. rewrite app_nil_r.
    split; [done|]. split; [done|]. split; [|done]. split; [done|].
    destruct (dmap T d !! content k); destruct Hr as [-> ->]; done.
  - destruct (dictGenericDelete_spec T d k nofree Hok) as (r & d' & E & Hok' & I & Hr).
    assert (exec T junk d (Delete k nofree, b) = Some (Code r, d')) as E'.
    { cbn [exec]. unfold dictDelete, dictDeleteNoFree. destruct nofree; rewrite E; done. }
    cbn [exec] in E'.
    destruct Hr as [(-> & e & Ek & P & L)|(-> & S & Ha)].
    + destruct (dmap_uncons T d d' e Hok P) as [Hm He]. rewrite <- Ek. fold (key_of T e).
      rewrite He. eexists _, d', _. split; [exact E'|]. split; [done|].
      split; [|exact L]. done.
    + rewrite dmap_absent, (dmap_same T d d' Hok S) in Ha by done. rewrite Ha.
      eexists _, d', []. split; [exact E'|]. split; [done|]. rewrite app_nil_r.
      split; [|apply S]. split; [done|]. split; [|done]. by apply dmap_same.
  - destruct (find_deref d k Hok) as (r & d' & -> & Hok' & S & He). step. rewrite He. step.
    eexists _, d', []. split; [reflexivity|]. split; [done|].
    destruct (Hsame d' Hok' S) as [[??] ?]. done.
  - unfold dictFetchValue.
    destruct (find_deref d k Hok) as (r & d' & -> & Hok' & S & He). step.
    exists (Value (e_val <$> dmap T d !! content k)), d', [].
    split; [|split; [done|destruct (Hsame d' Hok' S) as [[??] ?]; done]].
    unfold deref in He. destruct r as [p|]; [|by injection He as <-].
    destruct (entry_at d' p) as [e|]; [|done]. revert He. step. by intros [= <-].
  - destruct (dictExpand_spec T d n Hok Hc) as (r & d' & -> & Hok' & S & _). step.
    exists (Code r), d', []. split; [done|]. split; [done|]. by apply Hsame.
  - destruct (dictResize_spec T b d Hok) as (r & d' & -> & Hok' & S). step.
    exists (Code r), d', []. split; [done|]. split; [done|]. by apply Hsame.
  - destruct (dictRehash_spec T d n Hok) as (r & d' & -> & Hok' & S & _). step.
    exists (Code r), d', []. split; [done|]. split; [done|]. by apply Hsame.
  - destruct (dictEmpty_spec T d Hok) as (Hok' & Hm & L & _).
    eexists _, _, _. split; [reflexivity|]. split; [done|]. split; [split; [done|]|exact L].
    unfold all_events. rewrite <- (fmap_snd_pairs T (all d)).
    apply Permutation_concat. apply fmap_Permutation.
    unfold dmap. rewrite map_to_list_to_map; [done|]. rewrite pairs_fst. apply Hok.
Qed.

Lemma spec_size m c r m' evs : spec m c r m' evs -> (size m' <= S (size m))%nat.
Proof.
  assert (forall x (e : dictEntry), (size (<[x := e]> m) <= S (size m))%nat) as Hi.
  { intros x e. rewrite map_size_insert. case_match; unfold id; lia. }
  assert (forall x, (size (base.delete x m) <= S (size m))%nat) as Hd.
  { intros x. rewrite map_size_delete. case_match; unfold id; lia. }
  destruct c as [k v|k v|k|k nofree|k|k|n| |n|]; simpl;
    try destruct (m !! content k); intros H; destruct_and?; subst; auto.
  rewrite map_size_empty. lia.
Qed.

Lemma exec_all_spec cs : forall d, dict_ok T d -> Forall (fun cb => cmd_ok cb.1) cs ->
  zlen (all d) + zlen cs <= max_entries ->
  exists rs d' evs, exec_all T junk d cs = Some (rs, d') /\ dict_ok T d' /\
    spec_all (dmap T d) cs.*1 rs (dmap T d') evs /\ log d' = log d ++ evs.
Proof.
  induction cs as [|[c b] cs IH]; intros d Hok Hcs Hn.
  - exists [], d, []. rewrite app_nil_r. done.
  - apply Forall_cons in Hcs as [Hc Hcs]. rewrite zlen_cons in Hn. pose proof (zlen_nonneg cs).
    destruct (exec_spec d c b Hok Hc) as (r & d1 & e1 & E1 & Hok1 & S1 & L1); [lia|].
    pose proof (spec_size _ _ _ _ _ S1) as Hsz.
    pose proof (dmap_size T d Hok) as Z0. pose proof (dmap_size T d1 Hok1) as Z1.
    destruct (IH d1 Hok1 Hcs) as (rs & d2 & e2 & E2 & Hok2 & S2 & L2); [lia|].
    exists (r :: rs), d2, (e1 ++ e2). cbn [exec_all]. rewrite E1. step. rewrite E2. step.
    split; [done|]. split; [done|]. rewrite L2, L1, <- app_assoc. split; [|done].
    cbn. by exists (dmap T d1), e1, e2.
Qed.

(** C7: Any sequence of at most 2^30 operations on a new dictionary (additions,
    replacements, deletions, searches, explicit and automatic resizes, steps of
    rehashing, clearing) with resizing enabled or not reads and writes inside its
    tables and trips no assertion, keeps the invariant (every key once, in its
    bucket, no entry before the rehashing index), returns what the same
    operations return on a finite map, and calls the destructors on exactly the
    keys and values that are dropped; [dictSize] is the number of keys, and
    releasing the dictionary destroys what is left. *)
Theorem dict_refines_map (cs : list (cmd * bool)) (Hcs : Forall (fun cb => cmd_ok cb.1) cs)
    (Hn : zlen cs <= max_entries) :
  exists rs d evs, exec_all T junk dictCreate cs = Some (rs, d) /\ dict_ok T d /\
    spec_all ∅ cs.*1 rs (dmap T d) evs /\ log d = evs /\
    dictSize d = Z.of_nat (size (dmap T d)) /\
    dictRelease T d ≡ₚ evs ++ all_events T (map_to_list (dmap T d)).*2.
Proof.
  destruct (exec_all_spec cs dictCreate (dictCreate_ok T) Hcs) as (rs & d & evs & E & Hok & S & L);
    [by change (zlen (all dictCreate)) with 0|].
  exists rs, d, evs. split; [done|]. split; [done|]. split; [done|]. split; [done|].
  rewrite (dictSize_spec T d Hok), (dmap_size T d Hok). split; [done|].
  destruct (dictEmpty_spec T d Hok) as (_ & _ & _ & ->). rewrite L. simpl. f_equiv.
  unfold all_events. rewrite <- (fmap_snd_pairs T (all d)) at 1.
  apply Permutation_concat, fmap_Permutation, fmap_Permutation.
  unfold dmap. rewrite map_to_list_to_map; [done|]. rewrite pairs_fst. apply Hok.
Qed.
End Refinement.

(** Keys compared as pointers, with a hash function that makes them collide. *)
Definition int_type : dictType :=
  mkType (fun k => u32 k .& 13) None (Some (fun v => v + 1)) None true true.

#[export] Instance int_keys : KeyType int_type Z.
Proof.
  refine {| content := fun k => k |}; try done.
  - intros a b. unfold dictCompareKeys. simpl. case_bool_decide; lia.
  - congruence.
  - intros a. unfold dictHashKey. simpl. replace 13 with (Z.land 13 (Z.ones 4)) by done.
    rewrite Z.land_assoc, Z.land_ones by lia.
    pose proof (Z.mod_pos_bound (Z.land (u32 a) 13) (2 ^ 4)). unfold in_u. pow2. lia.
Defined.

Lemma dict_refines_map_witness :
  let cs := (fun c => (c, true)) <$>
    [Add 1 10; Add 2 20; Add 17 30; Add 1 40; Replace 2 50; Add 3 60; Add 4 70; Find 17;
     Delete 17 false; FetchValue 2; ReplaceRaw 9; Expand 64; Resize; Rehash 3; Delete 5 true] in
  exists rs d evs, exec_all int_type 99 dictCreate cs = Some (rs, d) /\ dict_ok int_type d /\
    log d = evs /\
    rs = [Code 0; Code 0; Code 0; Code 1; Code 0; Code 0; Code 0; Entry (Some (mkEntry 17 31));
          Code 0; Value (Some 51); Entry (Some (mkEntry 9 99)); Code 0; Code 1; Code 0; Code 1] /\
    evs = [FreedVal 21; FreedKey 17; FreedVal 31].
Proof.
  intros cs.
  destruct (dict_refines_map int_type 99 cs ltac:(by_decide) ltac:(by_decide))
    as (rs & d & evs & E & Hok & _ & L & _).
  exists rs, d, evs. split; [exact E|]. split; [exact Hok|]. split; [exact L|].
  assert (forall rs d, exec_all int_type 99 dictCreate cs = Some (rs, d) ->
    rs = [Code 0; Code 0; Code 0; Code 1; Code 0; Code 0; Code 0; Entry (Some (mkEntry 17 31));
          Code 0; Value (Some 51); Entry (Some (mkEntry 9 99)); Code 0; Code 1; Code 0; Code 1] /\
    log d = [FreedVal 21; FreedKey 17; FreedVal 31]) as H.
  { clear. intros rs d H. vm_compute in H. injection H as <- <-. done. }
  destruct (H _ _ E) as [-> H2]. split; [done|congruence].
Defined.
