(* ===== verification/DictScan.v ===== *)
(** [dictScan] of [src/redis-3.0.0/src/dict.c]: the reverse-binary cursor, what
    its calls guarantee while the dictionary is resized between them, and the
    case in which an element is missed.

    The callback is the list of the entries it is called on; the bits that the
    code logs while it advances the cursor are not modelled. *)
From stdpp Require Import gmap.
From S2P Require Import Prelude Dict.
Local Open Scope c_scope.

(** [while ((s >>= 1) > 0) { mask ^= (mask << s);
    v = ((v >> s) & mask) | ((v << s) & ~mask); }] *)
Fixpoint rev_loop (fuel : nat) (s mask v : Z) : option Z :=
  match fuel with
  | O => None
  | S fuel =>
      let s := s >> 1 in
      if 0 <? s then
        let mask := mask .^ (mask <<[64] s) in
        rev_loop fuel s mask (((v >> s) .& mask) .| ((v <<[64] s) .& bnot 64 mask))
      else Some v
  end.

Definition rev (v : Z) : option Z := rev_loop 8 64 (bnot 64 0) v.

(** The loop over the expansions of the cursor in the larger table. *)
Fixpoint expand_loop (fuel : nat) (t1 : dictht) (m0 m1 v : Z) (acc : list dictEntry)
  : option (Z * list dictEntry) :=
  match fuel with
  | O => None
  | S fuel =>
      c ← bucket t1 (v .& m1);
      let acc := acc ++ c in
      let v := (((v .| m0) +[64] 1) .& bnot 64 m0) .| (v .& m0) in
      if negb (v .& (m0 .^ m1) =? 0) then expand_loop fuel t1 m0 m1 v acc
      else Some (v, acc)
  end.

(** The entries emitted, and the new cursor. *)
Definition dictScan (d : dict) (v : Z) : option (list dictEntry * Z) :=
  if dictSize d =? 0 then Some ([], 0)
  else
    '(m0, v, emitted) ←
      (if negb (dictIsRehashing d) then
         let t0 := ht0 d in
         let m0 := ht_sizemask t0 in
         c ← bucket t0 (v .& m0);
         Some (m0, v, c)
       else
         let '(t0, t1) :=
           if ht_size (ht1 d) <? ht_size (ht0 d) then (ht1 d, ht0 d) else (ht0 d, ht1 d) in
         let m0 := ht_sizemask t0 in
         let m1 := ht_sizemask t1 in
         c ← bucket t0 (v .& m0);
         '(v, es) ← expand_loop (S (Z.to_nat (ht_size t1))) t1 m0 m1 v c;
         Some (m0, v, es));
    let v := v .| bnot 64 m0 in
    v ← rev v;
    let v := v +[64] 1 in
    v ← rev v;
    Some (emitted, v).

(** ** Reversal of the bits *)

(** One round swaps the neighbouring blocks of [s] bits. *)
Lemma rev_round s mask v :
  (forall i, 0 <= i < 64 -> Z.testbit mask i = (Z.lxor i s =? i + s)) ->
  (forall i, 0 <= i < 64 -> Z.lxor i s = i + s \/ Z.lxor i s = i - s) ->
  (forall i, 0 <= i < 64 -> 0 <= Z.lxor i s < 64) -> 0 < s -> in_u 64 v ->
  let v' := ((v >> s) .& mask) .| ((v <<[64] s) .& bnot 64 mask) in
  forall i, 0 <= i < 64 -> Z.testbit v' i = Z.testbit v (Z.lxor i s).
Proof.
  intros Hm Hx Hb Hs Hv v' i Hi. unfold v', bnot.
  rewrite Z.lor_spec, !Z.land_spec, Z.shiftr_spec by lia.
  replace (2 ^ 64 - 1 - mask) with (Z.lnot mask + 2 ^ 64 * 1) by (unfold Z.lnot; lia).
  rewrite <- (Z.mod_pow2_bits_low (Z.lnot mask + 2 ^ 64 * 1) 64 i) by lia.
  rewrite Z.mul_comm, Z.mod_add by lia. rewrite Z.mod_pow2_bits_low, Z.lnot_spec by lia.
  unfold wrap. rewrite Z.mod_pow2_bits_low, Z.shiftl_spec by lia.
  rewrite (Hm i Hi). destruct (Hx i Hi) as [E|E]; rewrite E.
  - rewrite Z.eqb_refl, andb_true_r, andb_false_r. apply orb_false_r.
  - destruct (Z.eqb_spec (i - s) (i + s)); [lia|]. rewrite andb_false_r, andb_true_r. done.
Qed.

Definition bits64 : list Z := seqZ 0 64.

Lemma bits64_all (P : Z -> bool) : forallb P bits64 = true -> forall i, 0 <= i < 64 -> P i = true.
Proof.
  intros H i Hi. rewrite forallb_forall in H. apply H. apply list_elem_of_In.
  apply elem_of_seqZ. lia.
Qed.

Lemma in_u_bits v : (forall i, 64 <= i -> Z.testbit v i = false) -> 0 <= v -> in_u 64 v.
Proof.
  intros H Hv. split; [done|].
  destruct (Z.eq_dec v 0) as [->|Hn]; [reflexivity|].
  apply Z.log2_lt_pow2; [lia|]. destruct (Z.lt_ge_cases (Z.log2 v) 64) as [|Hge]; [done|].
  specialize (H (Z.log2 v) Hge). rewrite Z.bit_log2 in H by lia. done.
Qed.

Lemma land_in_u w a b : 0 <= w -> in_u w a -> 0 <= b -> in_u w (a .& b).
Proof.
  intros Hw Ha Hb. split; [apply Z.land_nonneg; left; apply Ha|].
  destruct (Z.eq_dec (a .& b) 0) as [->|]; [apply pow2_pos, Hw|].
  assert (0 <= a .& b) by (apply Z.land_nonneg; left; apply Ha).
  apply Z.log2_lt_pow2; [lia|]. destruct (Z.lt_ge_cases (Z.log2 (a .& b)) w) as [|Hge]; [done|].
  assert (Z.testbit (a .& b) (Z.log2 (a .& b)) = true) as Hbit by (apply Z.bit_log2; lia).
  by rewrite Z.land_spec, (bits_above w a) in Hbit.
Qed.

Lemma lor_in_u w a b : 0 <= w -> in_u w a -> in_u w b -> in_u w (a .| b).
Proof.
  intros Hw Ha Hb. assert (0 <= a .| b) by (apply Z.lor_nonneg; split; [apply Ha|apply Hb]).
  split; [done|].
  destruct (Z.eq_dec (a .| b) 0) as [->|]; [apply pow2_pos, Hw|].
  apply Z.log2_lt_pow2; [lia|]. destruct (Z.lt_ge_cases (Z.log2 (a .| b)) w) as [|Hge]; [done|].
  assert (Z.testbit (a .| b) (Z.log2 (a .| b)) = true) as Hbit by (apply Z.bit_log2; lia).
  by rewrite Z.lor_spec, (bits_above w a), (bits_above w b) in Hbit.
Qed.

Lemma bnot_in_u w m : in_u w m -> in_u w (bnot w m).
Proof. unfold in_u, bnot. lia. Qed.

(** The rounds of [rev]: the sizes of the blocks and the masks. *)
Definition round (sm : Z * Z) (v : Z) : Z :=
  ((v >> sm.1) .& sm.2) .| ((v <<[64] sm.1) .& bnot 64 sm.2).

Definition rounds : list (Z * Z) :=
  [(32, 0x00000000FFFFFFFF); (16, 0x0000FFFF0000FFFF); (8, 0x00FF00FF00FF00FF);
   (4, 0x0F0F0F0F0F0F0F0F); (2, 0x3333333333333333); (1, 0x5555555555555555)].

Definition round_ok (sm : Z * Z) : bool :=
  (0 <? sm.1) && bool_decide (in_u 64 sm.2) &&
  forallb (fun i =>
    Bool.eqb (Z.testbit sm.2 i) (Z.lxor i sm.1 =? i + sm.1) &&
    ((Z.lxor i sm.1 =? i + sm.1) || (Z.lxor i sm.1 =? i - sm.1)) &&
    (0 <=? Z.lxor i sm.1) && (Z.lxor i sm.1 <? 64)) bits64.

Lemma rounds_ok : forallb round_ok rounds = true.
Proof. vm_compute. reflexivity. Qed.

Lemma round_bits sm v : sm ∈ rounds -> in_u 64 v ->
  in_u 64 (round sm v) /\
  forall i, 0 <= i < 64 -> 0 <= Z.lxor i sm.1 < 64 /\
    Z.testbit (round sm v) i = Z.testbit v (Z.lxor i sm.1).
Proof.
  intros Hin Hv. pose proof rounds_ok as H. rewrite forallb_forall in H.
  specialize (H sm ltac:(by apply list_elem_of_In)).
  apply andb_true_iff in H as [H Hall]. apply andb_true_iff in H as [Hs Hm].
  apply Z.ltb_lt in Hs. apply bool_decide_eq_true in Hm.
  pose proof (bits64_all _ Hall) as Hi. simpl in Hi. clear Hall.
  assert (forall i, 0 <= i < 64 ->
    Z.testbit sm.2 i = (Z.lxor i sm.1 =? i + sm.1) /\
    (Z.lxor i sm.1 = i + sm.1 \/ Z.lxor i sm.1 = i - sm.1) /\ 0 <= Z.lxor i sm.1 < 64) as Hb.
  { intros i Hi'. specialize (Hi i Hi').
    repeat (apply andb_true_iff in Hi as [Hi ?]). apply Bool.eqb_prop in Hi.
    split; [done|]. split; [|lia]. destruct (Z.eqb_spec (Z.lxor i sm.1) (i + sm.1)); [by left|right; lia]. }
  split.
  - unfold round. apply lor_in_u; [lia| |].
    + rewrite Z.land_comm. apply land_in_u; [lia|done|]. apply Z.shiftr_nonneg. apply Hv.
    + apply land_in_u; [lia|by apply wrap_in_u|]. apply bnot_in_u, Hm.
  - intros i Hi'. split; [by apply Hb|].
    apply (rev_round sm.1 sm.2 v); [| | |done|done|done]; intros j Hj; by apply Hb.
Qed.

Lemma rev_step fuel s mask s' mask' v :
  s >> 1 = s' -> (0 <? s') = true -> mask .^ (mask <<[64] s') = mask' ->
  rev_loop (S fuel) s mask v = rev_loop fuel s' mask' (round (s', mask') v).
Proof. intros <- H <-. cbn [rev_loop]. by rewrite H. Qed.

Lemma rev_rounds v : rev v = Some (foldl (fun v sm => round sm v) v rounds).
Proof.
  unfold rev, rounds. cbn [foldl].
  rewrite (rev_step _ _ _ 32 0x00000000FFFFFFFF) by (vm_compute; reflexivity).
  rewrite (rev_step _ _ _ 16 0x0000FFFF0000FFFF) by (vm_compute; reflexivity).
  rewrite (rev_step _ _ _ 8 0x00FF00FF00FF00FF) by (vm_compute; reflexivity).
  rewrite (rev_step _ _ _ 4 0x0F0F0F0F0F0F0F0F) by (vm_compute; reflexivity).
  rewrite (rev_step _ _ _ 2 0x3333333333333333) by (vm_compute; reflexivity).
  rewrite (rev_step _ _ _ 1 0x5555555555555555) by (vm_compute; reflexivity).
  cbn [rev_loop]. change (0 <? 1 >> 1) with false. reflexivity.
Qed.

(** The effect of [rev] on each bit. *)
Lemma rev_bits v : in_u 64 v ->
  exists r, rev v = Some r /\ in_u 64 r /\
    forall i, 0 <= i < 64 -> Z.testbit r i = Z.testbit v (63 - i).
Proof.
  intros Hv. eexists. split; [apply rev_rounds|].
  assert (forall l v, l ⊆ rounds -> in_u 64 v ->
    in_u 64 (foldl (fun v sm => round sm v) v l) /\
    forall i, 0 <= i < 64 ->
      0 <= foldr (fun sm i => Z.lxor i sm.1) i l < 64 /\
      Z.testbit (foldl (fun v sm => round sm v) v l) i =
      Z.testbit v (foldr (fun sm i => Z.lxor i sm.1) i l)) as H.
  { clear v Hv. induction l as [|sm l IH]; intros v Hl Hv; [done|]. simpl.
    destruct (round_bits sm v ltac:(set_solver) Hv) as [H1 H2].
    destruct (IH (round sm v) ltac:(set_solver) H1) as [H3 H4]. split; [done|].
    intros i Hi. destruct (H4 i Hi) as [H5 H6]. destruct (H2 _ H5) as [H7 H8].
    split; [done|]. by rewrite H6. }
  destruct (H rounds v ltac:(done) Hv) as [H1 H2]. split; [done|].
  intros i Hi. destruct (H2 i Hi) as [_ ->]. f_equal.
  apply Z.eqb_eq. revert i Hi. apply bits64_all. vm_compute. reflexivity.
Qed.

Lemma bits_eq a b : in_u 64 a -> in_u 64 b ->
  (forall i, 0 <= i < 64 -> Z.testbit a i = Z.testbit b i) -> a = b.
Proof.
  intros Ha Hb H. apply Z.bits_inj'. intros i Hi.
  destruct (Z.lt_ge_cases i 64); [by apply H|].
  by rewrite (bits_above 64 a), (bits_above 64 b).
Qed.

Lemma rev_involutive v r : in_u 64 v -> rev v = Some r -> rev r = Some v.
Proof.
  intros Hv E. destruct (rev_bits v Hv) as (r' & E' & Hr & Hb).
  assert (r' = r) as -> by congruence.
  destruct (rev_bits r Hr) as (w & -> & Hw & Hb'). f_equal.
  apply bits_eq; [done|done|]. intros i Hi. rewrite Hb', Hb by lia. f_equal. lia.
Qed.

(** ** Arithmetic of masks *)

Definition R (v : Z) : Z := foldl (fun v sm => round sm v) v rounds.

Lemma rev_R v : rev v = Some (R v).
Proof. exact (rev_rounds v). Qed.

Opaque R rev.

Lemma R_spec v : in_u 64 v ->
  rev v = Some (R v) /\ in_u 64 (R v) /\
  forall i, 0 <= i < 64 -> Z.testbit (R v) i = Z.testbit v (63 - i).
Proof.
  intros Hv. destruct (rev_bits v Hv) as (r & E & H). rewrite rev_R in E.
  injection E as <-. split; [apply rev_R|exact H].
Qed.

Lemma R_R v : in_u 64 v -> R (R v) = v.
Proof.
  intros Hv. destruct (R_spec v Hv) as (E & Hr & _).
  pose proof (rev_involutive v _ Hv E) as E2. rewrite rev_R in E2. by injection E2.
Qed.

Lemma land_mask v k : 0 <= k -> v .& (2 ^ k - 1) = v mod 2 ^ k.
Proof.
  intros. replace (2 ^ k - 1) with (Z.ones k) by (rewrite Z.ones_equiv; lia).
  by apply Z.land_ones.
Qed.

Lemma div_mod_pow v k : 0 <= k -> v = v / 2 ^ k * 2 ^ k + v mod 2 ^ k.
Proof. intros. pose proof (Z.div_mod v (2 ^ k)). pose proof (pow2_pos k). lia. Qed.

Lemma ones_bits k i : 0 <= k -> 0 <= i -> Z.testbit (2 ^ k - 1) i = (i <? k).
Proof.
  intros. replace (2 ^ k - 1) with (Z.ones k) by (rewrite Z.ones_equiv; lia).
  destruct (Z.ltb_spec i k); [by apply Z.ones_spec_low|by apply Z.ones_spec_high].
Qed.

Lemma mask_in_u k : 0 <= k <= 64 -> in_u 64 (2 ^ k - 1).
Proof.
  intros. pose proof (pow2_pos k). assert (2 ^ k <= 2 ^ 64) by (apply Z.pow_le_mono_r; lia).
  unfold in_u. lia.
Qed.

Lemma bnot_bits m i : in_u 64 m -> 0 <= i < 64 -> Z.testbit (bnot 64 m) i = negb (Z.testbit m i).
Proof.
  intros Hm Hi. unfold bnot.
  replace (2 ^ 64 - 1 - m) with (Z.lnot m + 1 * 2 ^ 64) by (unfold Z.lnot; lia).
  rewrite <- (Z.mod_pow2_bits_low _ 64 i) by lia.
  rewrite Z.mod_add by lia. rewrite Z.mod_pow2_bits_low, Z.lnot_spec by lia. done.
Qed.

Lemma lor_mask v k : 0 <= k -> v .| (2 ^ k - 1) = v / 2 ^ k * 2 ^ k + (2 ^ k - 1).
Proof.
  intros Hk. pose proof (pow2_pos k Hk).
  rewrite <- high_lor_low by lia. apply Z.bits_inj'. intros i Hi.
  rewrite !Z.lor_spec, !ones_bits by lia. destruct (Z.ltb_spec i k).
  - by rewrite !orb_true_r.
  - rewrite !orb_false_r. rewrite <- Z.shiftr_div_pow2, Z.mul_pow2_bits by lia.
    rewrite Z.shiftr_spec by lia. f_equal. lia.
Qed.

Lemma land_bnot_mask v k : 0 <= k <= 64 -> in_u 64 v ->
  v .& bnot 64 (2 ^ k - 1) = v / 2 ^ k * 2 ^ k.
Proof.
  intros Hk Hv. pose proof (mask_in_u k Hk) as Hm.
  assert (0 < 2 ^ k) by (apply pow2_pos; lia).
  apply bits_eq; [apply land_in_u; [lia|done|apply bnot_in_u, Hm]| |].
  - pose proof (div_mod_pow v k). pose proof (Z.mod_pos_bound v (2 ^ k)).
    pose proof (Z.div_pos v (2 ^ k)). unfold in_u in *. split; [|lia].
    apply Z.mul_nonneg_nonneg; lia.
  - intros i Hi. rewrite Z.land_spec, bnot_bits, ones_bits by (done || lia).
    destruct (Z.ltb_spec i k); simpl.
    + by rewrite andb_false_r, Z.mul_pow2_bits_low.
    + rewrite andb_true_r, Z.mul_pow2_bits, <- Z.shiftr_div_pow2 by lia.
      rewrite Z.shiftr_spec by lia. f_equal. lia.
Qed.

(** ** The cursor *)

(** A cursor and a hash agree on their [k] low bits when their reversals have
    the same [k] high bits. *)
Lemma same_class a b k : 0 <= k <= 64 -> in_u 64 a -> in_u 64 b ->
  R a / 2 ^ (64 - k) = R b / 2 ^ (64 - k) -> a mod 2 ^ k = b mod 2 ^ k.
Proof.
  intros Hk Ha Hb E. destruct (R_spec a Ha) as (_ & _ & Ba). destruct (R_spec b Hb) as (_ & _ & Bb).
  apply Z.bits_inj'. intros i Hi. destruct (Z.lt_ge_cases i k).
  - rewrite !Z.mod_pow2_bits_low by lia.
    assert (Z.testbit (R a / 2 ^ (64 - k)) (k - 1 - i) = Z.testbit (R b / 2 ^ (64 - k)) (k - 1 - i)) as Et
      by by rewrite E.
    rewrite <- !Z.shiftr_div_pow2, !Z.shiftr_spec in Et by lia.
    rewrite Ba, Bb in Et by lia.
    replace (63 - (k - 1 - i + (64 - k))) with i in Et by lia. done.
  - by rewrite !Z.mod_pow2_bits_high by lia.
Qed.

(** Setting the unmasked bits fills the low bits of the reversal. *)
Lemma R_fill v k : 0 <= k <= 64 -> in_u 64 v ->
  R (v .| bnot 64 (2 ^ k - 1)) = R v / 2 ^ (64 - k) * 2 ^ (64 - k) + (2 ^ (64 - k) - 1).
Proof.
  intros Hk Hv. pose proof (mask_in_u k Hk) as Hm. pose proof (bnot_in_u _ _ Hm) as Hb.
  assert (in_u 64 (v .| bnot 64 (2 ^ k - 1))) as Hv' by (apply lor_in_u; [lia|done|done]).
  destruct (R_spec v Hv) as (_ & Hr & Br). destruct (R_spec _ Hv') as (_ & Hr' & Br').
  rewrite <- lor_mask by lia.
  apply bits_eq; [done|apply lor_in_u; [lia|done|apply mask_in_u; lia]|].
  intros i Hi. rewrite Br' by done. rewrite !Z.lor_spec, bnot_bits, !ones_bits, Br by (done || lia).
  destruct (Z.ltb_spec i (64 - k)); destruct (Z.ltb_spec (63 - i) k); try lia;
    simpl; by rewrite ?orb_true_r, ?orb_false_r.
Qed.

Lemma lor_bnot_low v w k : 0 <= k <= 64 -> in_u 64 v -> in_u 64 w -> v mod 2 ^ k = w mod 2 ^ k ->
  v .| bnot 64 (2 ^ k - 1) = w .| bnot 64 (2 ^ k - 1).
Proof.
  intros Hk Hv Hw E. pose proof (mask_in_u k Hk) as Hm. pose proof (bnot_in_u _ _ Hm) as Hb.
  apply bits_eq; [by apply lor_in_u|by apply lor_in_u|].
  intros i Hi. rewrite !Z.lor_spec, bnot_bits, ones_bits by (done || lia).
  destruct (Z.ltb_spec i k); [|by rewrite !orb_true_r]. f_equal.
  rewrite <- (Z.mod_pow2_bits_low v k i), <- (Z.mod_pow2_bits_low w k i) by lia. by rewrite E.
Qed.

(** The cursor that follows [v] in a table of [2 ^ k] buckets. *)
Definition next_cursor (k v : Z) : Z := R (u64 (R (v .| bnot 64 (2 ^ k - 1)) + 1)).

Lemma next_cursor_R k v : 0 <= k <= 64 -> in_u 64 v ->
  in_u 64 (next_cursor k v) /\
  R (next_cursor k v) = u64 ((R v / 2 ^ (64 - k) + 1) * 2 ^ (64 - k)).
Proof.
  intros Hk Hv. unfold next_cursor. rewrite R_fill by done.
  replace (_ + (2 ^ (64 - k) - 1) + 1) with ((R v / 2 ^ (64 - k) + 1) * 2 ^ (64 - k)) by lia.
  assert (in_u 64 (u64 ((R v / 2 ^ (64 - k) + 1) * 2 ^ (64 - k)))) as Hw by (apply wrap_in_u; lia).
  split; [by apply R_spec|by apply R_R].
Qed.

(** It has no bits outside the mask. *)
Lemma next_cursor_small k v : 0 <= k <= 64 -> in_u 64 v -> 0 <= next_cursor k v < 2 ^ k.
Proof.
  intros Hk Hv. destruct (next_cursor_R k v Hk Hv) as [Hn HR].
  destruct (R_spec _ Hn) as (_ & _ & Bn). rewrite HR in Bn.
  split; [apply Hn|].
  assert (next_cursor k v = next_cursor k v mod 2 ^ k) as ->; [|apply Z.mod_pos_bound, pow2_pos; lia].
  apply Z.bits_inj'. intros i Hi. destruct (Z.lt_ge_cases i k).
  - by rewrite Z.mod_pow2_bits_low.
  - rewrite Z.mod_pow2_bits_high by lia.
    destruct (Z.lt_ge_cases i 64); [|by apply (bits_above 64)].
    specialize (Bn (63 - i) ltac:(lia)). replace (63 - (63 - i)) with i in Bn by lia.
    rewrite <- Bn. unfold wrap. rewrite Z.mod_pow2_bits_low by lia.
    by apply Z.mul_pow2_bits_low; lia.
Qed.

(** Every hash whose reversal is below that of the next cursor was below that
    of the cursor, or is in its class. *)
Lemma next_cursor_covers k v h : 0 <= k <= 64 -> in_u 64 v -> in_u 64 h ->
  R h < R (next_cursor k v) \/ next_cursor k v = 0 ->
  R h < R v \/ h mod 2 ^ k = v mod 2 ^ k.
Proof.
  intros Hk Hv Hh Hlt. destruct (next_cursor_R k v Hk Hv) as [Hn HR].
  destruct (R_spec v Hv) as (_ & Hrv & _). destruct (R_spec h Hh) as (_ & Hrh & _).
  destruct (Z.lt_ge_cases (R h) (R v)) as [|Hge]; [by left|right].
  apply same_class; [done|done|done|].
  set (b := 2 ^ (64 - k)) in *. assert (0 < b) as Hbp by (apply pow2_pos; lia).
  assert (2 ^ 64 = 2 ^ k * b) as E64 by (unfold b; rewrite <- Z.pow_add_r by lia; f_equal; lia).
  assert (0 <= R v / b < 2 ^ k) as Hq.
  { unfold in_u in Hrv. split; [apply Z.div_pos; lia|]. apply Z.div_lt_upper_bound; lia. }
  assert (R v / b <= R h / b) as Hle by (apply Z.div_le_mono; lia).
  assert (R h / b < R v / b + 1); [|lia].
  apply Z.div_lt_upper_bound; [lia|]. rewrite Z.mul_comm.
  destruct (Z.lt_ge_cases (R v / b + 1) (2 ^ k)) as [Hlt2|Hge2].
  - assert (R (next_cursor k v) = (R v / b + 1) * b) as E.
    { rewrite HR. apply wrap_small. unfold in_u. rewrite E64. nia. }
    destruct Hlt as [Hlt|H0]; [lia|].
    rewrite H0 in E. assert (R 0 = 0) as R0.
    { apply bits_eq; [by apply R_spec|done|]. intros i Hi.
      destruct (R_spec 0 ltac:(done)) as (_ & _ & B). rewrite B by done. by rewrite !Z.bits_0. }
    nia.
  - assert (R v / b + 1 = 2 ^ k) as -> by lia. rewrite <- E64. apply Hrh.
Qed.

(** ** The loop over the larger table *)

(** One step of the cursor over the expansions. *)
Definition bump_high (k v : Z) : Z :=
  (((v .| (2 ^ k - 1)) +[64] 1) .& bnot 64 (2 ^ k - 1)) .| (v .& (2 ^ k - 1)).

Lemma bump_high_spec k v : 0 <= k <= 64 -> in_u 64 v ->
  in_u 64 (bump_high k v) /\ bump_high k v mod 2 ^ k = v mod 2 ^ k /\
  bump_high k v / 2 ^ k = (v / 2 ^ k + 1) mod 2 ^ (64 - k).
Proof.
  intros Hk Hv. unfold bump_high.
  assert (0 < 2 ^ k) as Hp by (apply pow2_pos; lia).
  assert (2 ^ 64 = 2 ^ k * 2 ^ (64 - k)) as E64 by (rewrite <- Z.pow_add_r by lia; f_equal; lia).
  assert (0 < 2 ^ (64 - k)) as Hq by (apply pow2_pos; lia).
  rewrite lor_mask, land_mask by lia.
  replace (v / 2 ^ k * 2 ^ k + (2 ^ k - 1) + 1) with ((v / 2 ^ k + 1) * 2 ^ k) by lia.
  assert (u64 ((v / 2 ^ k + 1) * 2 ^ k) = (v / 2 ^ k + 1) mod 2 ^ (64 - k) * 2 ^ k) as E.
  { unfold wrap. rewrite E64, (Z.mul_comm (v / 2 ^ k + 1)), Z.mul_mod_distr_l by lia. lia. }
  assert (in_u 64 (u64 ((v / 2 ^ k + 1) * 2 ^ k))) as Hw by (apply wrap_in_u; lia).
  rewrite land_bnot_mask by done. rewrite E, Z.div_mul by lia.
  pose proof (Z.mod_pos_bound v (2 ^ k) Hp) as Hlo.
  pose proof (Z.mod_pos_bound (v / 2 ^ k + 1) (2 ^ (64 - k)) Hq) as Hhi.
  rewrite high_lor_low by lia.
  split; [unfold in_u; rewrite E64; nia|]. split.
  - rewrite Z.add_comm, Z.mod_add by lia. apply Z.mod_mod. lia.
  - rewrite Z.div_add_l by lia. rewrite (Z.div_small (v mod 2 ^ k)) by lia. lia.
Qed.

(** The bits of the mask difference. *)
Lemma mask_diff k0 k1 v : 0 <= k0 <= k1 ->
  (v .& ((2 ^ k0 - 1) .^ (2 ^ k1 - 1)) =? 0) = ((v / 2 ^ k0) mod 2 ^ (k1 - k0) =? 0).
Proof.
  intros Hk. set (a := v .& _). set (b := (v / 2 ^ k0) mod 2 ^ (k1 - k0)).
  assert (a = b * 2 ^ k0) as ->.
  { apply Z.bits_inj'. intros i Hi. unfold a, b.
    rewrite Z.land_spec, Z.lxor_spec, !ones_bits by lia.
    rewrite Z.mul_pow2_bits by lia.
    destruct (Z.ltb_spec i k0).
    - destruct (Z.ltb_spec i k1); [|lia]. rewrite andb_false_r.
      symmetry. apply Z.testbit_neg_r. lia.
    - simpl. destruct (Z.ltb_spec i k1).
      + rewrite Z.mod_pow2_bits_low by lia. rewrite <- Z.shiftr_div_pow2, Z.shiftr_spec by lia.
        rewrite andb_true_r. f_equal. lia.
      + rewrite Z.mod_pow2_bits_high by lia. by rewrite andb_false_r. }
  pose proof (pow2_pos k0 (proj1 Hk)).
  destruct (Z.eqb_spec b 0); destruct (Z.eqb_spec (b * 2 ^ k0) 0); nia.
Qed.

Lemma index_in_large k0 k1 v : 0 <= k0 <= k1 ->
  v mod 2 ^ k1 = (v / 2 ^ k0) mod 2 ^ (k1 - k0) * 2 ^ k0 + v mod 2 ^ k0.
Proof.
  intros Hk. replace (2 ^ k1) with (2 ^ k0 * 2 ^ (k1 - k0)).
  - pose proof (pow2_pos k0). pose proof (pow2_pos (k1 - k0)).
    rewrite Z.rem_mul_r by lia. lia.
  - rewrite <- Z.pow_add_r by lia. f_equal. lia.
Qed.

Lemma bump_high_mod k0 k1 v : 0 <= k0 <= k1 -> k1 <= 64 -> in_u 64 v ->
  (bump_high k0 v / 2 ^ k0) mod 2 ^ (k1 - k0) =
  ((v / 2 ^ k0) mod 2 ^ (k1 - k0) + 1) mod 2 ^ (k1 - k0).
Proof.
  intros Hk Hk1 Hv. destruct (bump_high_spec k0 v ltac:(lia) Hv) as (_ & _ & ->).
  rewrite Z.add_mod_idemp_l by (pose proof (pow2_pos (k1 - k0)); lia).
  symmetry. apply Znumtheory.Zmod_div_mod; [apply pow2_pos; lia|apply pow2_pos; lia|].
  exists (2 ^ (64 - k1)). rewrite <- Z.pow_add_r by lia. f_equal. lia.
Qed.

Section Loop.
Context (T : dictType).

Lemma expand_loop_spec ht t k0 k1 : live T ht t k1 -> 0 <= k0 <= k1 ->
  forall n fuel v acc, in_u 64 v ->
  (v / 2 ^ k0) mod 2 ^ (k1 - k0) = 2 ^ (k1 - k0) - Z.of_nat (S n) -> (n < fuel)%nat ->
  exists v' es, expand_loop fuel ht (2 ^ k0 - 1) (2 ^ k1 - 1) v acc = Some (v', acc ++ es) /\
    in_u 64 v' /\ v' mod 2 ^ k0 = v mod 2 ^ k0 /\
    (forall e, e ∈ es -> e ∈ concat t) /\
    (forall r c e, (v / 2 ^ k0) mod 2 ^ (k1 - k0) <= r < 2 ^ (k1 - k0) ->
       t !! Z.to_nat (r * 2 ^ k0 + v mod 2 ^ k0) = Some c -> e ∈ c -> e ∈ es).
Proof.
  intros L Hk. pose proof (lv_k _ _ _ _ L) as Hk1.
  assert (0 < 2 ^ (k1 - k0)) as Hq by (apply pow2_pos; lia).
  induction n as [|n IH]; intros fuel v acc Hv Hr Hf; (destruct fuel as [|fuel]; [lia|]);
    cbn [expand_loop]; rewrite (land_mask v k1) by lia;
    (assert (0 <= v mod 2 ^ k1 < 2 ^ k1) as Hidx by (apply Z.mod_pos_bound, pow2_pos; lia));
    destruct (live_lookup _ _ _ _ _ L Hidx) as (c & -> & Hc); step;
    fold (bump_high k0 v); rewrite mask_diff by lia;
    destruct (bump_high_spec k0 v ltac:(lia) Hv) as (Hv' & Hlo & _);
    pose proof (bump_high_mod k0 k1 v Hk ltac:(lia) Hv) as Hmod; rewrite Hr in Hmod;
    rewrite (index_in_large k0 k1 v Hk), Hr in Hc;
    (assert (forall e, e ∈ c -> e ∈ concat t) as Hin by (intros e He; by eapply in_concat_bucket)).
  - replace (2 ^ (k1 - k0) - Z.of_nat 1 + 1) with (2 ^ (k1 - k0)) in Hmod by lia.
    rewrite Z.mod_same in Hmod by lia. rewrite Hmod. simpl.
    exists (bump_high k0 v), c. split; [done|]. split; [done|]. split; [done|]. split; [done|].
    intros r c' e Hrr Hc' He. rewrite Hr in Hrr.
    assert (r = 2 ^ (k1 - k0) - Z.of_nat 1) as -> by lia. congruence.
  - pose proof (Z.mod_pos_bound (v / 2 ^ k0) (2 ^ (k1 - k0)) Hq) as Hpos. rewrite Hr in Hpos.
    rewrite (Z.mod_small (2 ^ (k1 - k0) - Z.of_nat (S (S n)) + 1)) in Hmod by lia. rewrite Hmod.
    destruct (Z.eqb_spec (2 ^ (k1 - k0) - Z.of_nat (S (S n)) + 1) 0) as [E0|_]; [lia|].
    simpl negb. cbv iota.
    destruct (IH fuel (bump_high k0 v) (acc ++ c) Hv') as (v2 & es & E & Hv2 & Hlo2 & Hes & Hcov); [lia|lia|].
    exists v2, (c ++ es). rewrite E, app_assoc. split; [done|]. split; [done|].
    split; [congruence|]. split.
    + intros e. rewrite elem_of_app. intros [?|?]; auto.
    + intros r c' e Hrr Hc' He. rewrite Hr in Hrr. apply elem_of_app.
      destruct (Z.eq_dec r (2 ^ (k1 - k0) - Z.of_nat (S (S n)))) as [->|].
      * left. congruence.
      * right. apply (Hcov r c'); [lia|by rewrite Hlo|done].
Qed.
End Loop.

(** ** What one call emits *)

(** The number of buckets of the smaller table in use. *)
Definition small_size (d : dict) : Z :=
  if dictIsRehashing d then Z.min (ht_size (ht0 d)) (ht_size (ht1 d)) else ht_size (ht0 d).

Section Scan.
Context (T : dictType) {C : Type} {eqC : EqDecision C} {cntC : Countable C} {KT : KeyType T C}.

Definition hash (e : dictEntry) : Z := dictHashKey T (e_key e).

Lemma hash_in_u64 e : in_u 64 (hash e).
Proof.
  pose proof (hash_u32 (e_key e)) as H. unfold hash. unfold in_u in *. pow2. lia.
Qed.

Lemma in_table ht t k e : live T ht t k -> e ∈ concat t ->
  exists c, t !! Z.to_nat (hash e mod 2 ^ k) = Some c /\ e ∈ c.
Proof.
  intros L He. pose proof (lv_k _ _ _ _ L). pose proof (index_bound T k (e_key e) ltac:(lia)) as Hi.
  destruct (live_lookup _ _ _ _ _ L Hi) as (c & Hb & Hc).
  exists c. split; [|by eapply in_bucket].
  unfold index in Hc. rewrite land_mask in Hc by lia. exact Hc.
Qed.

(** The entries in the class of the cursor, in the smaller and the larger
    table. *)
Lemma scan_two d ts ks tl kl hs hl v :
  live T hs ts ks -> live T hl tl kl -> ks <= kl -> in_u 64 v ->
  all d ≡ₚ concat ts ++ concat tl ->
  exists c v' es,
    bucket hs (v .& ht_sizemask hs) = Some c /\
    expand_loop (S (Z.to_nat (ht_size hl))) hl (ht_sizemask hs) (ht_sizemask hl) v c = Some (v', c ++ es) /\
    in_u 64 v' /\ v' mod 2 ^ ks = v mod 2 ^ ks /\
    (forall e, e ∈ c ++ es -> e ∈ all d) /\
    (v < 2 ^ ks -> forall e, e ∈ all d -> hash e mod 2 ^ ks = v mod 2 ^ ks -> e ∈ c ++ es).
Proof.
  intros Ls Ll Hle Hv P. pose proof (lv_k _ _ _ _ Ls) as Hks. pose proof (lv_k _ _ _ _ Ll) as Hkl.
  rewrite (lv_mask _ _ _ _ Ls), (lv_mask _ _ _ _ Ll), (lv_size _ _ _ _ Ll), land_mask by lia.
  assert (0 <= v mod 2 ^ ks < 2 ^ ks) as Hi by (apply Z.mod_pos_bound, pow2_pos; lia).
  destruct (live_lookup _ _ _ _ _ Ls Hi) as (c & Hb & Hc).
  assert (0 < 2 ^ (kl - ks)) as Hq by (apply pow2_pos; lia).
  pose proof (Z.mod_pos_bound (v / 2 ^ ks) (2 ^ (kl - ks)) Hq) as Hr.
  assert (2 ^ (kl - ks) <= 2 ^ kl) as Hp by (apply Z.pow_le_mono_r; lia).
  destruct (expand_loop_spec T hl tl ks kl Ll ltac:(lia)
    (Z.to_nat (2 ^ (kl - ks) - (v / 2 ^ ks) mod 2 ^ (kl - ks) - 1)) (S (Z.to_nat (2 ^ kl))) v c Hv)
    as (v' & es & E & Hv' & Hlo & Hin & Hcov); [lia|lia|].
  exists c, v', es. split; [done|]. split; [done|]. split; [done|]. split; [done|]. split.
  - intros e. rewrite P, !elem_of_app. intros [He|He]; [left|right; by apply Hin].
    by eapply in_concat_bucket.
  - intros Hsmall e. rewrite P, !elem_of_app. intros [He|He] Eh.
    + left. destruct (in_table _ _ _ _ Ls He) as (c' & Hc' & He'). rewrite Eh in Hc'. congruence.
    + right. destruct (in_table _ _ _ _ Ll He) as (c' & Hc' & He').
      rewrite (index_in_large ks kl) in Hc' by lia. rewrite Eh in Hc'.
      eapply Hcov; [|exact Hc'|done].
      destruct Hv as [Hv0 _]. rewrite (Z.div_small v) by lia. rewrite Z.mod_0_l by lia.
      apply Z.mod_pos_bound, Hq.
Qed.

Lemma bind_Some {A B} (x : A) (f : A -> option B) : (Some x ≫= f) = f x.
Proof. reflexivity. Qed.

(** The advance of the cursor. *)
Lemma scan_end (es : list dictEntry) k v v' : 2 <= k <= 31 -> in_u 64 v -> in_u 64 v' ->
  v' mod 2 ^ k = v mod 2 ^ k ->
  (v ← rev (v' .| bnot 64 (2 ^ k - 1)); v ← rev (v +[64] 1); Some (es, v)) =
    Some (es, next_cursor k v).
Proof.
  intros Hk Hv Hv' Hlo. rewrite (lor_bnot_low v' v k) by (done || lia).
  rewrite rev_R, bind_Some. cbv beta. rewrite rev_R, bind_Some. cbv beta.
  unfold next_cursor. reflexivity.
Qed.

Lemma dictScan_spec d v : dict_ok T d -> all d <> [] -> in_u 64 v ->
  exists es k, dictScan d v = Some (es, next_cursor k v) /\ 2 <= k <= 31 /\ small_size d = 2 ^ k /\
    (forall e, e ∈ es -> e ∈ all d) /\
    ((dictIsRehashing d = true -> v < 2 ^ k) ->
     forall e, e ∈ all d -> hash e mod 2 ^ k = v mod 2 ^ k -> e ∈ es).
Proof.
  intros Hok Hne Hv. unfold dictScan. rewrite (dictSize_spec T d Hok).
  destruct (Z.eqb_spec (zlen (all d)) 0) as [E0|_].
  { destruct (all d) as [|x l]; [done|]. rewrite zlen_cons in E0. pose proof (zlen_nonneg l). lia. }
  destruct (shape_cases T d (ok_shape _ _ Hok)) as [(E & H1 & _ & Hd)|(E & t0 & k0 & t1 & k1 & W)]; rewrite E; simpl negb; cbv iota.
  - destruct Hd as [H0|(t & k & L)].
    { exfalso. apply Hne. unfold all. by rewrite H0, H1. }
    pose proof (lv_k _ _ _ _ L) as Hk.
    rewrite (lv_mask _ _ _ _ L), land_mask by lia.
    assert (0 <= v mod 2 ^ k < 2 ^ k) as Hi by (apply Z.mod_pos_bound, pow2_pos; lia).
    destruct (live_lookup _ _ _ _ _ L Hi) as (c & -> & Hc). step.
    exists c, k. cbv zeta. rewrite (scan_end c k v v Hk Hv Hv eq_refl). split; [done|]. split; [done|].
    split; [unfold small_size; by rewrite E, (lv_size _ _ _ _ L)|].
    rewrite (all_one T d t k L H1). split.
    + intros e He. by eapply in_concat_bucket.
    + intros _ e He Eh. destruct (in_table _ _ _ _ L He) as (c' & Hc' & He').
      rewrite Eh in Hc'. congruence.
  - pose proof (tw_live0 _ _ _ _ _ _ W) as L0. pose proof (tw_live1 _ _ _ _ _ _ W) as L1.
    pose proof (lv_k _ _ _ _ L0) as Hk0. pose proof (lv_k _ _ _ _ L1) as Hk1.
    pose proof (all_two _ _ _ _ _ _ W) as Hall. unfold small_size. rewrite E.
    rewrite (lv_size _ _ _ _ L0), (lv_size _ _ _ _ L1).
    destruct (Z.ltb_spec (2 ^ k1) (2 ^ k0)) as [Hlt|Hge].
    + assert (k1 <= k0) as Hk by (apply Z.pow_lt_mono_r_iff in Hlt; lia).
      destruct (scan_two d t1 k1 t0 k0 (ht1 d) (ht0 d) v L1 L0 Hk Hv) as (c & v' & es & Hb & El & Hv' & Hlo & Hin & Hcov).
      { by rewrite Hall, Permutation_app_comm. }
      rewrite Hb. step. rewrite El. step. rewrite (lv_mask _ _ _ _ L1).
      exists (c ++ es), k1. cbv zeta. rewrite (scan_end (c ++ es) k1 v v' Hk1 Hv Hv' Hlo). split; [done|]. split; [done|].
      split; [lia|]. split; [done|]. intros Hsm. apply Hcov, Hsm, eq_refl.
    + assert (k0 <= k1) as Hk by (apply Z.pow_le_mono_r_iff in Hge; lia).
      destruct (scan_two d t0 k0 t1 k1 (ht0 d) (ht1 d) v L0 L1 Hk Hv) as (c & v' & es & Hb & El & Hv' & Hlo & Hin & Hcov).
      { by rewrite Hall. }
      rewrite Hb. step. rewrite El. step. rewrite (lv_mask _ _ _ _ L0).
      exists (c ++ es), k0. cbv zeta. rewrite (scan_end (c ++ es) k0 v v' Hk0 Hv Hv' Hlo). split; [done|]. split; [done|].
      split; [lia|]. split; [done|]. intros Hsm. apply Hcov, Hsm, eq_refl.
Qed.

(** ** What a whole iteration emits *)

(** The calls of an iteration, each on the state the dictionary is in then. *)
Fixpoint scan_all (ds : list dict) (v : Z) : option (list (list dictEntry) * Z) :=
  match ds with
  | [] => Some ([], v)
  | d :: ds =>
      '(es, v) ← dictScan d v;
      '(ess, v) ← scan_all ds v; Some (es :: ess, v)
  end.

(** A call made while a resize is under way sees no smaller table than the
    call before it, of [n] buckets. *)
Fixpoint not_shrinking (n : Z) (ds : list dict) : Prop :=
  match ds with
  | [] => True
  | d :: ds =>
      (dictIsRehashing d = true -> n <= small_size d) /\ not_shrinking (small_size d) ds
  end.

Definition present (x : C) (d : dict) : Prop := dict_ok T d /\ is_Some (dmap T d !! x).

Lemma hash_of_key e e' : key_of T e = key_of T e' -> hash e = hash e'.
Proof. apply hash_content. Qed.

Lemma R_0 : R 0 = 0.
Proof.
  apply bits_eq; [by apply R_spec|done|]. intros i Hi.
  destruct (R_spec 0 ltac:(done)) as (_ & _ & B). rewrite B by done. by rewrite !Z.bits_0.
Qed.

Lemma scan_all_covers x h : (forall e, key_of T e = x -> hash e = h) -> in_u 64 h ->
  forall ds v n, Forall (present x) ds -> not_shrinking n ds -> in_u 64 v -> v < n ->
  exists ess v', scan_all ds v = Some (ess, v') /\ in_u 64 v' /\
    Forall2 (fun d es => forall e, e ∈ es -> e ∈ all d) ds ess /\
    (R h < R v' \/ (v' = 0 /\ ds <> []) ->
     R h < R v \/ exists e, e ∈ concat ess /\ key_of T e = x).
Proof.
  intros Hx Hh. induction ds as [|d ds IH]; intros v n Hds Hns Hv Hn.
  { exists [], v. split; [done|]. split; [done|]. split; [constructor|]. intros [?|[_ ?]]; [by left|done]. }
  apply Forall_cons in Hds as [[Hok [e He]] Hds]. destruct Hns as [Hn1 Hns].
  apply dmap_lookup in He as [He Ek]; [|done].
  assert (all d <> []) as Hne by (intros E; rewrite E in He; by apply elem_of_nil in He).
  destruct (dictScan_spec d v Hok Hne Hv) as (es & k & Es & Hk & Hsz & Hin & Hcov).
  rewrite Hsz in Hns, Hn1. assert (0 <= k <= 64) as Hk64 by lia.
  destruct (next_cursor_R k v Hk64 Hv) as [Hv1 _].
  destruct (IH (next_cursor k v) (2 ^ k) Hds Hns Hv1) as (ess & v' & E & Hv' & Hf & Hc);
    [by apply next_cursor_small|].
  exists (es :: ess), v'. cbn [scan_all]. rewrite Es. step. rewrite E. step.
  split; [done|]. split; [done|]. split; [by constructor|]. intros Hlt.
  assert (R h < R (next_cursor k v) \/ next_cursor k v = 0 ->
    R h < R v \/ exists e, e ∈ concat (es :: ess) /\ key_of T e = x) as Hhead.
  { intros H. destruct (next_cursor_covers k v h Hk64 Hv Hh H) as [?|Hcl]; [by left|right].
    exists e. split; [|done]. simpl. apply elem_of_app. left.
    apply Hcov; [|done|by rewrite (Hx e Ek)]. intros Hre. specialize (Hn1 Hre). lia. }
  destruct ds as [|d2 ds].
  - simpl in E. injection E as <- <-. apply Hhead. destruct Hlt as [?|[? _]]; auto.
  - destruct Hc as [Hc|(e' & He' & Ek')]; [destruct Hlt as [?|[? _]]; [by left|by right]|auto|].
    right. exists e'. split; [|done]. simpl. apply elem_of_app. by right.
Qed.

(** C8: An iteration with [dictScan] from cursor 0, with any operations on the
    dictionary between its calls, never reads outside the tables, only emits
    elements of the dictionary, and when the cursor comes back to 0 it has
    emitted every key that was present in all the calls, provided no call made
    during a resize sees a smaller table than the previous call saw. *)
Theorem dictScan_complete (x : C) (ds : list dict)
    (Hds : Forall (present x) ds) (Hne : ds <> []) (Hns : not_shrinking 1 ds) :
  exists ess v, scan_all ds 0 = Some (ess, v) /\
    Forall2 (fun d es => forall e, e ∈ es -> e ∈ all d) ds ess /\
    (v = 0 -> exists e, e ∈ concat ess /\ key_of T e = x).
Proof.
  destruct ds as [|d0 ds0] eqn:Eds; [done|]. rewrite <- Eds in *.
  assert (exists e0, key_of T e0 = x) as [e0 Ex].
  { subst ds. apply Forall_cons in Hds as [[Hok [e He]] _].
    apply dmap_lookup in He as [_ ?]; [by exists e|done]. }
  destruct (scan_all_covers x (hash e0)) with (ds := ds) (v := 0) (n := 1)
    as (ess & v & E & _ & Hf & Hc); [|apply hash_in_u64|done|done|done|lia|].
  { intros e Ek. apply hash_of_key. congruence. }
  exists ess, v. split; [done|]. split; [done|]. intros ->.
  destruct Hc as [Hlt|?]; [by right; subst ds| |done].
  rewrite R_0 in Hlt. destruct (R_spec _ (hash_in_u64 e0)) as (_ & [? _] & _). lia.
Qed.

(** The cursors of an iteration over a dictionary that does not change. *)
Lemma scan_steps d k : dict_ok T d -> all d <> [] -> small_size d = 2 ^ k -> 2 <= k <= 31 ->
  forall n v, in_u 64 v -> R v / 2 ^ (64 - k) + Z.of_nat (S n) = 2 ^ k ->
  exists ess, scan_all (replicate (S n) d) v = Some (ess, 0).
Proof.
  intros Hok Hne Hsz Hk. assert (0 <= k <= 64) as Hk64 by lia.
  assert (2 ^ 64 = 2 ^ k * 2 ^ (64 - k)) as E64 by (rewrite <- Z.pow_add_r by lia; f_equal; lia).
  assert (0 < 2 ^ (64 - k)) as Hb by (apply pow2_pos; lia).
  induction n as [|n IH]; intros v Hv Hr;
    destruct (dictScan_spec d v Hok Hne Hv) as (es & k' & Es & Hk' & Hsz' & _);
    (assert (k' = k) as -> by (apply (Z.pow_inj_r 2); lia));
    destruct (next_cursor_R k v Hk64 Hv) as [Hv1 HR1].
  - exists [es]. cbn [replicate scan_all]. rewrite Es. step. do 2 f_equal.
    rewrite <- (R_R (next_cursor k v)) by done. rewrite HR1.
    replace (R v / 2 ^ (64 - k) + 1) with (2 ^ k) by lia. rewrite <- E64.
    change (u64 (2 ^ 64)) with 0. apply R_0.
  - assert (R (next_cursor k v) = (R v / 2 ^ (64 - k) + 1) * 2 ^ (64 - k)) as E1.
    { rewrite HR1. apply wrap_small. destruct (R_spec v Hv) as (_ & [Hv0 _] & _).
      assert (0 <= R v / 2 ^ (64 - k)) by (apply Z.div_pos; lia).
      unfold in_u. rewrite E64. nia. }
    destruct (IH (next_cursor k v) Hv1) as [ess E].
    { rewrite E1, Z.div_mul by lia. lia. }
    exists (es :: ess). change (replicate (S (S n)) d) with (d :: replicate (S n) d).
    cbn [scan_all]. rewrite Es. step. rewrite E. done.
Qed.

(** C25: On a dictionary that does not change any more the iteration comes to
    its end: from any cursor, wherever it came from, at most as many calls as
    the smaller table has buckets bring the cursor back to 0. *)
Theorem dictScan_terminates (d : dict) (v : Z) (Hok : dict_ok T d) (Hne : all d <> [])
    (Hv : in_u 64 v) :
  exists n ess, 0 < Z.of_nat n <= small_size d /\ scan_all (replicate n d) v = Some (ess, 0).
Proof.
  destruct (dictScan_spec d v Hok Hne Hv) as (_ & k & _ & Hk & Hsz & _).
  assert (2 ^ 64 = 2 ^ k * 2 ^ (64 - k)) as E64 by (rewrite <- Z.pow_add_r by lia; f_equal; lia).
  assert (0 < 2 ^ (64 - k)) as Hb by (apply pow2_pos; lia).
  destruct (R_spec v Hv) as (_ & [Hv0 Hv1] & _).
  assert (0 <= R v / 2 ^ (64 - k) < 2 ^ k) as Hq.
  { split; [apply Z.div_pos; lia|]. apply Z.div_lt_upper_bound; lia. }
  destruct (scan_steps d k Hok Hne Hsz Hk (Z.to_nat (2 ^ k - R v / 2 ^ (64 - k) - 1)) v Hv) as [ess E]; [lia|].
  eexists _, ess. split; [|exact E]. lia.
Qed.
End Scan.

(** Keys that are their own hash. *)
Definition id_type : dictType := mkType u32 None None None false false.

#[export] Instance id_keys : KeyType id_type Z.
Proof.
  refine {| content := fun k => k |}; try done.
  - intros a b. unfold dictCompareKeys. simpl. case_bool_decide; lia.
  - congruence.
  - intros a. by apply wrap_in_u.
Defined.

(** A dictionary made by operations, and one more operation on it. *)
Definition build (cs : list cmd) : dict :=
  match exec_all id_type 0 dictCreate ((fun c => (c, true)) <$> cs) with
  | Some (_, d) => d
  | None => dictCreate
  end.

Lemma build_ok cs : Forall (fun cb => cmd_ok cb.1) ((fun c => (c, true)) <$> cs) ->
  zlen ((fun c => (c, true)) <$> cs) <= max_entries -> dict_ok id_type (build cs).
Proof.
  intros H1 H2. unfold build.
  destruct (exec_all_spec id_type 0 _ dictCreate (dictCreate_ok id_type) H1) as (rs & d & evs & -> & Hok & _);
    [by change (zlen (all dictCreate)) with 0|done].
Qed.

(** Sixteen buckets, of which two are used, and a resize under way. *)
Definition wide : list cmd := [Expand 16; Add 4 0; Add 3 0].
Definition narrowing : list cmd := wide ++ [Resize].

Lemma present_build cs x e : 
  bool_decide (Forall (fun cb : cmd * bool => cmd_ok cb.1) ((fun c => (c, true)) <$> cs)) = true ->
  zlen cs <= max_entries -> dmap id_type (build cs) !! x = Some e ->
  present id_type x (build cs).
Proof.
  intros H1%bool_decide_eq_true H2 H3. split; [|by exists e].
  apply build_ok; [done|by rewrite zlen_fmap].
Qed.

Definition growing : list cmd := [Expand 4; Add 4 0; Add 3 0].

Lemma dictScan_complete_witness :
  let ds := build growing :: replicate 3 (build (growing ++ [Expand 16])) in
  exists ess v, scan_all ds 0 = Some (ess, v) /\ v = 0 /\
    exists e, e ∈ concat ess /\ key_of id_type e = 4.
Proof.
  intros ds.
  assert (Forall (present id_type 4) ds) as H.
  { apply Forall_cons. split; [|apply Forall_replicate];
      (apply (present_build _ _ (mkEntry 4 0)); [vm_compute; reflexivity|by_decide|vm_compute; reflexivity]). }
  destruct (dictScan_complete id_type 4 ds H ltac:(done)) as (ess & v & E & _ & Hv).
  { cbn [ds replicate not_shrinking]. do 4 (split; [intros _; vm_compute; congruence|]). exact I. }
  exists ess, v. split; [exact E|].
  assert (v = 0) as Hz.
  { assert (forall r, scan_all ds 0 = Some r -> r.2 = 0) as Hr; [|exact (Hr _ E)].
    clear. intros r Hr. vm_compute in Hr. injection Hr as <-. reflexivity. }
  split; [exact Hz|exact (Hv Hz)].
Defined.

Lemma dictScan_terminates_witness :
  exists n ess, 0 < Z.of_nat n <= small_size (build narrowing) /\
    scan_all (replicate n (build narrowing)) 8 = Some (ess, 0).
Proof.
  apply (dictScan_terminates id_type (build narrowing) 8).
  - apply build_ok; by_decide.
  - vm_compute. discriminate.
  - by_decide.
Defined.

(** C26: The guarantee does not hold when a table shrinks: after one call on a
    table of 16 buckets, a resize to 4 buckets starts and the rest of the
    iteration runs while it is under way. The cursor comes back to 0 and the key
    4, present all the time and never moved, has not been emitted. *)
Theorem dictScan_misses_on_shrink :
  let ds := build wide :: replicate 4 (build narrowing) in
  Forall (present id_type 4) ds /\
  exec id_type 0 (build wide) (Resize, true) = Some (Code DICT_OK, build narrowing) /\
  exists ess, scan_all ds 0 = Some (ess, 0) /\
    forall e, e ∈ concat ess -> key_of id_type e <> 4.
Proof.
  intros ds. split; [|split].
  - apply Forall_cons. split; [|apply Forall_replicate];
      (apply (present_build _ _ (mkEntry 4 0)); [vm_compute; reflexivity|by_decide|vm_compute; reflexivity]).
  - vm_compute. reflexivity.
  - exists [[]; []; []; []; [mkEntry 3 0]]. split; [vm_compute; reflexivity|].
    simpl. intros e ->%list_elem_of_singleton. vm_compute. discriminate.
Qed.
