(* ===== verification/Crc.v ===== *)
(** [src/redis-3.0.0/src/crc16.c], [crc64.c] and [keyHashSlot] of [cluster.c]:
    the checksums, against the bit-by-bit division they tabulate, what CRC-64
    detects, and the hash slot of a key. *)
From stdpp Require Import sets.
From S2P Require Import Prelude.
Local Open Scope c_scope.

(** [crc16tab[256]] *)
Definition crc16tab : list Z :=
  [0x0000; 0x1021; 0x2042; 0x3063; 0x4084; 0x50a5; 0x60c6; 0x70e7;
   0x8108; 0x9129; 0xa14a; 0xb16b; 0xc18c; 0xd1ad; 0xe1ce; 0xf1ef;
   0x1231; 0x0210; 0x3273; 0x2252; 0x52b5; 0x4294; 0x72f7; 0x62d6;
   0x9339; 0x8318; 0xb37b; 0xa35a; 0xd3bd; 0xc39c; 0xf3ff; 0xe3de;
   0x2462; 0x3443; 0x0420; 0x1401; 0x64e6; 0x74c7; 0x44a4; 0x5485;
   0xa56a; 0xb54b; 0x8528; 0x9509; 0xe5ee; 0xf5cf; 0xc5ac; 0xd58d;
   0x3653; 0x2672; 0x1611; 0x0630; 0x76d7; 0x66f6; 0x5695; 0x46b4;
   0xb75b; 0xa77a; 0x9719; 0x8738; 0xf7df; 0xe7fe; 0xd79d; 0xc7bc;
   0x48c4; 0x58e5; 0x6886; 0x78a7; 0x0840; 0x1861; 0x2802; 0x3823;
   0xc9cc; 0xd9ed; 0xe98e; 0xf9af; 0x8948; 0x9969; 0xa90a; 0xb92b;
   0x5af5; 0x4ad4; 0x7ab7; 0x6a96; 0x1a71; 0x0a50; 0x3a33; 0x2a12;
   0xdbfd; 0xcbdc; 0xfbbf; 0xeb9e; 0x9b79; 0x8b58; 0xbb3b; 0xab1a;
   0x6ca6; 0x7c87; 0x4ce4; 0x5cc5; 0x2c22; 0x3c03; 0x0c60; 0x1c41;
   0xedae; 0xfd8f; 0xcdec; 0xddcd; 0xad2a; 0xbd0b; 0x8d68; 0x9d49;
   0x7e97; 0x6eb6; 0x5ed5; 0x4ef4; 0x3e13; 0x2e32; 0x1e51; 0x0e70;
   0xff9f; 0xefbe; 0xdfdd; 0xcffc; 0xbf1b; 0xaf3a; 0x9f59; 0x8f78;
   0x9188; 0x81a9; 0xb1ca; 0xa1eb; 0xd10c; 0xc12d; 0xf14e; 0xe16f;
   0x1080; 0x00a1; 0x30c2; 0x20e3; 0x5004; 0x4025; 0x7046; 0x6067;
   0x83b9; 0x9398; 0xa3fb; 0xb3da; 0xc33d; 0xd31c; 0xe37f; 0xf35e;
   0x02b1; 0x1290; 0x22f3; 0x32d2; 0x4235; 0x5214; 0x6277; 0x7256;
   0xb5ea; 0xa5cb; 0x95a8; 0x8589; 0xf56e; 0xe54f; 0xd52c; 0xc50d;
   0x34e2; 0x24c3; 0x14a0; 0x0481; 0x7466; 0x6447; 0x5424; 0x4405;
   0xa7db; 0xb7fa; 0x8799; 0x97b8; 0xe75f; 0xf77e; 0xc71d; 0xd73c;
   0x26d3; 0x36f2; 0x0691; 0x16b0; 0x6657; 0x7676; 0x4615; 0x5634;
   0xd94c; 0xc96d; 0xf90e; 0xe92f; 0x99c8; 0x89e9; 0xb98a; 0xa9ab;
   0x5844; 0x4865; 0x7806; 0x6827; 0x18c0; 0x08e1; 0x3882; 0x28a3;
   0xcb7d; 0xdb5c; 0xeb3f; 0xfb1e; 0x8bf9; 0x9bd8; 0xabbb; 0xbb9a;
   0x4a75; 0x5a54; 0x6a37; 0x7a16; 0x0af1; 0x1ad0; 0x2ab3; 0x3a92;
   0xfd2e; 0xed0f; 0xdd6c; 0xcd4d; 0xbdaa; 0xad8b; 0x9de8; 0x8dc9;
   0x7c26; 0x6c07; 0x5c64; 0x4c45; 0x3ca2; 0x2c83; 0x1ce0; 0x0cc1;
   0xef1f; 0xff3e; 0xcf5d; 0xdf7c; 0xaf9b; 0xbfba; 0x8fd9; 0x9ff8;
   0x6e17; 0x7e36; 0x4e55; 0x5e74; 0x2e93; 0x3eb2; 0x0ed1; 0x1ef0].

(** [crc64_tab[256]] *)
Definition crc64_tab : list Z :=
  [0x0000000000000000; 0x7ad870c830358979; 0xf5b0e190606b12f2;
   0x8f689158505e9b8b; 0xc038e5739841b68f; 0xbae095bba8743ff6;
   0x358804e3f82aa47d; 0x4f50742bc81f2d04; 0xab28ecb46814fe75;
   0xd1f09c7c5821770c; 0x5e980d24087fec87; 0x24407dec384a65fe;
   0x6b1009c7f05548fa; 0x11c8790fc060c183; 0x9ea0e857903e5a08;
   0xe478989fa00bd371; 0x7d08ff3b88be6f81; 0x07d08ff3b88be6f8;
   0x88b81eabe8d57d73; 0xf2606e63d8e0f40a; 0xbd301a4810ffd90e;
   0xc7e86a8020ca5077; 0x4880fbd87094cbfc; 0x32588b1040a14285;
   0xd620138fe0aa91f4; 0xacf86347d09f188d; 0x2390f21f80c18306;
   0x594882d7b0f40a7f; 0x1618f6fc78eb277b; 0x6cc0863448deae02;
   0xe3a8176c18803589; 0x997067a428b5bcf0; 0xfa11fe77117cdf02;
   0x80c98ebf2149567b; 0x0fa11fe77117cdf0; 0x75796f2f41224489;
   0x3a291b04893d698d; 0x40f16bccb908e0f4; 0xcf99fa94e9567b7f;
   0xb5418a5cd963f206; 0x513912c379682177; 0x2be1620b495da80e;
   0xa489f35319033385; 0xde51839b2936bafc; 0x9101f7b0e12997f8;
   0xebd98778d11c1e81; 0x64b116208142850a; 0x1e6966e8b1770c73;
   0x8719014c99c2b083; 0xfdc17184a9f739fa; 0x72a9e0dcf9a9a271;
   0x08719014c99c2b08; 0x4721e43f0183060c; 0x3df994f731b68f75;
   0xb29105af61e814fe; 0xc849756751dd9d87; 0x2c31edf8f1d64ef6;
   0x56e99d30c1e3c78f; 0xd9810c6891bd5c04; 0xa3597ca0a188d57d;
   0xec09088b6997f879; 0x96d1784359a27100; 0x19b9e91b09fcea8b;
   0x636199d339c963f2; 0xdf7adabd7a6e2d6f; 0xa5a2aa754a5ba416;
   0x2aca3b2d1a053f9d; 0x50124be52a30b6e4; 0x1f423fcee22f9be0;
   0x659a4f06d21a1299; 0xeaf2de5e82448912; 0x902aae96b271006b;
   0x74523609127ad31a; 0x0e8a46c1224f5a63; 0x81e2d7997211c1e8;
   0xfb3aa75142244891; 0xb46ad37a8a3b6595; 0xceb2a3b2ba0eecec;
   0x41da32eaea507767; 0x3b024222da65fe1e; 0xa2722586f2d042ee;
   0xd8aa554ec2e5cb97; 0x57c2c41692bb501c; 0x2d1ab4dea28ed965;
   0x624ac0f56a91f461; 0x1892b03d5aa47d18; 0x97fa21650afae693;
   0xed2251ad3acf6fea; 0x095ac9329ac4bc9b; 0x7382b9faaaf135e2;
   0xfcea28a2faafae69; 0x8632586aca9a2710; 0xc9622c4102850a14;
   0xb3ba5c8932b0836d; 0x3cd2cdd162ee18e6; 0x460abd1952db919f;
   0x256b24ca6b12f26d; 0x5fb354025b277b14; 0xd0dbc55a0b79e09f;
   0xaa03b5923b4c69e6; 0xe553c1b9f35344e2; 0x9f8bb171c366cd9b;
   0x10e3202993385610; 0x6a3b50e1a30ddf69; 0x8e43c87e03060c18;
   0xf49bb8b633338561; 0x7bf329ee636d1eea; 0x012b592653589793;
   0x4e7b2d0d9b47ba97; 0x34a35dc5ab7233ee; 0xbbcbcc9dfb2ca865;
   0xc113bc55cb19211c; 0x5863dbf1e3ac9dec; 0x22bbab39d3991495;
   0xadd33a6183c78f1e; 0xd70b4aa9b3f20667; 0x985b3e827bed2b63;
   0xe2834e4a4bd8a21a; 0x6debdf121b863991; 0x1733afda2bb3b0e8;
   0xf34b37458bb86399; 0x8993478dbb8deae0; 0x06fbd6d5ebd3716b;
   0x7c23a61ddbe6f812; 0x3373d23613f9d516; 0x49aba2fe23cc5c6f;
   0xc6c333a67392c7e4; 0xbc1b436e43a74e9d; 0x95ac9329ac4bc9b5;
   0xef74e3e19c7e40cc; 0x601c72b9cc20db47; 0x1ac40271fc15523e;
   0x5594765a340a7f3a; 0x2f4c0692043ff643; 0xa02497ca54616dc8;
   0xdafce7026454e4b1; 0x3e847f9dc45f37c0; 0x445c0f55f46abeb9;
   0xcb349e0da4342532; 0xb1eceec59401ac4b; 0xfebc9aee5c1e814f;
   0x8464ea266c2b0836; 0x0b0c7b7e3c7593bd; 0x71d40bb60c401ac4;
   0xe8a46c1224f5a634; 0x927c1cda14c02f4d; 0x1d148d82449eb4c6;
   0x67ccfd4a74ab3dbf; 0x289c8961bcb410bb; 0x5244f9a98c8199c2;
   0xdd2c68f1dcdf0249; 0xa7f41839ecea8b30; 0x438c80a64ce15841;
   0x3954f06e7cd4d138; 0xb63c61362c8a4ab3; 0xcce411fe1cbfc3ca;
   0x83b465d5d4a0eece; 0xf96c151de49567b7; 0x76048445b4cbfc3c;
   0x0cdcf48d84fe7545; 0x6fbd6d5ebd3716b7; 0x15651d968d029fce;
   0x9a0d8ccedd5c0445; 0xe0d5fc06ed698d3c; 0xaf85882d2576a038;
   0xd55df8e515432941; 0x5a3569bd451db2ca; 0x20ed197575283bb3;
   0xc49581ead523e8c2; 0xbe4df122e51661bb; 0x3125607ab548fa30;
   0x4bfd10b2857d7349; 0x04ad64994d625e4d; 0x7e7514517d57d734;
   0xf11d85092d094cbf; 0x8bc5f5c11d3cc5c6; 0x12b5926535897936;
   0x686de2ad05bcf04f; 0xe70573f555e26bc4; 0x9ddd033d65d7e2bd;
   0xd28d7716adc8cfb9; 0xa85507de9dfd46c0; 0x273d9686cda3dd4b;
   0x5de5e64efd965432; 0xb99d7ed15d9d8743; 0xc3450e196da80e3a;
   0x4c2d9f413df695b1; 0x36f5ef890dc31cc8; 0x79a59ba2c5dc31cc;
   0x037deb6af5e9b8b5; 0x8c157a32a5b7233e; 0xf6cd0afa9582aa47;
   0x4ad64994d625e4da; 0x300e395ce6106da3; 0xbf66a804b64ef628;
   0xc5bed8cc867b7f51; 0x8aeeace74e645255; 0xf036dc2f7e51db2c;
   0x7f5e4d772e0f40a7; 0x05863dbf1e3ac9de; 0xe1fea520be311aaf;
   0x9b26d5e88e0493d6; 0x144e44b0de5a085d; 0x6e963478ee6f8124;
   0x21c640532670ac20; 0x5b1e309b16452559; 0xd476a1c3461bbed2;
   0xaeaed10b762e37ab; 0x37deb6af5e9b8b5b; 0x4d06c6676eae0222;
   0xc26e573f3ef099a9; 0xb8b627f70ec510d0; 0xf7e653dcc6da3dd4;
   0x8d3e2314f6efb4ad; 0x0256b24ca6b12f26; 0x788ec2849684a65f;
   0x9cf65a1b368f752e; 0xe62e2ad306bafc57; 0x6946bb8b56e467dc;
   0x139ecb4366d1eea5; 0x5ccebf68aecec3a1; 0x2616cfa09efb4ad8;
   0xa97e5ef8cea5d153; 0xd3a62e30fe90582a; 0xb0c7b7e3c7593bd8;
   0xca1fc72bf76cb2a1; 0x45775673a732292a; 0x3faf26bb9707a053;
   0x70ff52905f188d57; 0x0a2722586f2d042e; 0x854fb3003f739fa5;
   0xff97c3c80f4616dc; 0x1bef5b57af4dc5ad; 0x61372b9f9f784cd4;
   0xee5fbac7cf26d75f; 0x9487ca0fff135e26; 0xdbd7be24370c7322;
   0xa10fceec0739fa5b; 0x2e675fb4576761d0; 0x54bf2f7c6752e8a9;
   0xcdcf48d84fe75459; 0xb71738107fd2dd20; 0x387fa9482f8c46ab;
   0x42a7d9801fb9cfd2; 0x0df7adabd7a6e2d6; 0x772fdd63e7936baf;
   0xf8474c3bb7cdf024; 0x829f3cf387f8795d; 0x66e7a46c27f3aa2c;
   0x1c3fd4a417c62355; 0x935745fc4798b8de; 0xe98f353477ad31a7;
   0xa6df411fbfb21ca3; 0xdc0731d78f8795da; 0x536fa08fdfd90e51;
   0x29b7d047efec8728].

(** The loop over the bytes that are left; [*buf++] is a [char], of which only
    the low byte matters. *)
Fixpoint crc16_loop (n : nat) (buf : list Z) (counter crc : Z) : option Z :=
  match n with
  | O => Some crc
  | S n =>
      b ← znth buf counter;
      t ← znth crc16tab (((crc >> 8) .^ s8 b) .& 0x00FF);
      crc16_loop n buf (counter + 1) (u16 ((Z.shiftl crc 8) .^ t))
  end.

Definition crc16 (buf : list Z) (len : Z) : option Z :=
  crc16_loop (Z.to_nat len) buf 0 0.

Fixpoint crc64_loop (n : nat) (s : list Z) (j crc : Z) : option Z :=
  match n with
  | O => Some crc
  | S n =>
      byte ← znth s j;
      t ← znth crc64_tab (u8 crc .^ byte);
      crc64_loop n s (j + 1) (t .^ (crc >> 8))
  end.

Definition crc64 (crc : Z) (s : list Z) (l : Z) : option Z :=
  crc64_loop (Z.to_nat l) s 0 crc.

(** [for (s = i; s < keylen; s++) if (key[s] == c) break;] *)
Fixpoint find_byte (n : nat) (key : list Z) (c s : Z) : option Z :=
  match n with
  | O => Some s
  | S n =>
      b ← znth key s;
      if b =? c then Some s else find_byte n key c (s + 1)
  end.

Definition keyHashSlot (key : list Z) (keylen : Z) : option Z :=
  s ← find_byte (Z.to_nat keylen) key 123 0;
  if s =? keylen then crc ← crc16 key keylen; Some (crc .& 0x3FFF)
  else
    e ← find_byte (Z.to_nat (keylen - (s + 1))) key 125 (s + 1);
    if (e =? keylen) || (e =? s + 1) then crc ← crc16 key keylen; Some (crc .& 0x3FFF)
    else crc ← crc16 (drop (Z.to_nat (s + 1)) key) (e - s - 1); Some (crc .& 0x3FFF).

(** ** The reference: division bit by bit *)

(** CRC-16/XMODEM: polynomial 0x1021, most significant bit first. *)
Definition step16 (x : Z) : Z :=
  if Z.testbit x 15 then u16 (Z.shiftl x 1) .^ 0x1021 else u16 (Z.shiftl x 1).

(** CRC-64/Jones: the reflection of polynomial 0xad93d23594c935a9, least
    significant bit first. *)
Definition poly64 : Z := 0x95ac9329ac4bc9b5.
Definition step64 (x : Z) : Z :=
  if Z.testbit x 0 then (x >> 1) .^ poly64 else x >> 1.

Definition ref16 (msg : list Z) : Z :=
  foldl (fun c b => Nat.iter 8 step16 (c .^ (Z.shiftl b 8))) 0 msg.
Definition ref64 (c : Z) (msg : list Z) : Z :=
  foldl (fun c b => Nat.iter 8 step64 (c .^ b)) c msg.

(** ** The tables *)

Definition table16_ok (x : Z) : bool :=
  match znth crc16tab x with
  | Some t => (t =? Nat.iter 8 step16 (Z.shiftl x 8)) && bool_decide (in_u 16 t) &&
              (Z.shiftl x 8 =? Nat.iter 8 step16 x)
  | None => false
  end.

Lemma table16_all : forallb table16_ok (seqZ 0 256) = true.
Proof. vm_compute. reflexivity. Qed.

Definition table64_ok (x : Z) : bool :=
  match znth crc64_tab x with
  | Some t => (t =? Nat.iter 8 step64 x) && bool_decide (in_u 64 t)
  | None => false
  end.

Lemma table64_all : forallb table64_ok (seqZ 0 256) = true.
Proof. vm_compute. reflexivity. Qed.

Lemma forallb_seqZ (P : Z -> bool) n x : forallb P (seqZ 0 n) = true -> 0 <= x < n -> P x = true.
Proof.
  intros H Hx. rewrite forallb_forall in H. apply H, list_elem_of_In, elem_of_seqZ. lia.
Qed.

(** ** Bits *)

Lemma bits_above_u w x i : in_u w x -> 0 <= w <= i -> Z.testbit x i = false.
Proof.
  unfold in_u. intros H Hi. destruct (Z.eq_dec x 0) as [->|]; [apply Z.bits_0|].
  apply Z.bits_above_log2; [lia|]. assert (Z.log2 x < w) by (apply Z.log2_lt_pow2; lia). lia.
Qed.

Lemma in_u_of_bits w x : 0 <= w -> 0 <= x -> (forall i, w <= i -> Z.testbit x i = false) -> in_u w x.
Proof.
  intros Hw Hx H. split; [done|]. destruct (Z.eq_dec x 0) as [->|]; [by apply pow2_pos|].
  apply Z.log2_lt_pow2; [lia|]. destruct (Z.lt_ge_cases (Z.log2 x) w) as [|Hge]; [done|].
  specialize (H _ Hge). rewrite Z.bit_log2 in H by lia. done.
Qed.

Lemma lxor_in_u w a b : 0 <= w -> in_u w a -> in_u w b -> in_u w (a .^ b).
Proof.
  intros Hw Ha Hb. apply in_u_of_bits; [done| |].
  - apply Z.lxor_nonneg. unfold in_u in *. lia.
  - intros i Hi. rewrite Z.lxor_spec, !(bits_above_u w) by (done || lia). done.
Qed.

Lemma shiftr_in_u w a n : 0 <= w -> 0 <= n -> in_u w a -> in_u w (a >> n).
Proof.
  intros Hw Hn [H0 H1]. split; [by apply Z.shiftr_nonneg|].
  rewrite Z.shiftr_div_pow2 by lia. apply Z.le_lt_trans with a; [|done].
  apply Z.div_le_upper_bound; [by apply pow2_pos|]. pose proof (pow2_pos n Hn). nia.
Qed.

Lemma wrap_lxor w a b : 0 <= w -> wrap w (a .^ b) = wrap w a .^ wrap w b.
Proof.
  intros Hw. apply Z.bits_inj'. intros i Hi. unfold wrap. rewrite Z.lxor_spec.
  destruct (Z.lt_ge_cases i w).
  - rewrite !Z.mod_pow2_bits_low by lia. apply Z.lxor_spec.
  - by rewrite !Z.mod_pow2_bits_high by lia.
Qed.

Lemma lxor_swap a b c d : (a .^ b) .^ (c .^ d) = (a .^ c) .^ (b .^ d).
Proof.
  apply Z.bits_inj'. intros i _. rewrite !Z.lxor_spec.
  destruct (Z.testbit a i), (Z.testbit b i), (Z.testbit c i), (Z.testbit d i); done.
Qed.

(** The steps are linear. *)
Lemma step16_lxor a b : step16 (a .^ b) = step16 a .^ step16 b.
Proof.
  unfold step16. rewrite Z.lxor_spec, Z.shiftl_lxor, wrap_lxor by lia.
  destruct (Z.testbit a 15), (Z.testbit b 15); simpl.
  - rewrite lxor_swap, Z.lxor_nilpotent. by rewrite Z.lxor_0_r.
  - rewrite !Z.lxor_assoc. f_equal. apply Z.lxor_comm.
  - apply Z.lxor_assoc.
  - done.
Qed.

Lemma step64_lxor a b : step64 (a .^ b) = step64 a .^ step64 b.
Proof.
  unfold step64. rewrite Z.lxor_spec, Z.shiftr_lxor.
  destruct (Z.testbit a 0), (Z.testbit b 0); simpl.
  - rewrite lxor_swap, Z.lxor_nilpotent. by rewrite Z.lxor_0_r.
  - rewrite !Z.lxor_assoc. f_equal. apply Z.lxor_comm.
  - apply Z.lxor_assoc.
  - done.
Qed.

Lemma iter_lxor f : (forall a b, f (a .^ b) = f a .^ f b) ->
  forall n a b, Nat.iter n f (a .^ b) = Nat.iter n f a .^ Nat.iter n f b.
Proof. intros Hf. induction n as [|n IH]; intros a b; simpl; [done|]. by rewrite IH, Hf. Qed.

(** Eight steps shift out a word with no low bits. *)
Lemma step64_even x : step64 (Z.shiftl x 1) = x.
Proof.
  unfold step64. rewrite Z.shiftl_spec_low by lia. rewrite Z.shiftr_shiftl_l by lia. apply Z.shiftl_0_r.
Qed.

Lemma iter64_shift n : forall x, Nat.iter n step64 (Z.shiftl x (Z.of_nat n)) = x.
Proof.
  induction n as [|n IH]; intros x; [apply Z.shiftl_0_r|].
  rewrite Nat.iter_succ_r.
  replace (Z.of_nat (S n)) with (Z.of_nat n + 1) by lia. rewrite <- Z.shiftl_shiftl by lia.
  by rewrite step64_even, IH.
Qed.

Lemma split_byte x : x = Z.shiftl (x >> 8) 8 .^ (x .& 255).
Proof.
  apply Z.bits_inj'. intros i Hi. change 255 with (Z.ones 8).
  rewrite Z.lxor_spec, Z.land_spec, Z.shiftl_spec by lia.
  destruct (Z.lt_ge_cases i 8).
  - rewrite Z.ones_spec_low by lia. rewrite (Z.testbit_neg_r _ (i - 8)) by lia.
    rewrite andb_true_r. by destruct (Z.testbit x i).
  - rewrite Z.ones_spec_high, Z.shiftr_spec by lia. rewrite andb_false_r, xorb_false_r. f_equal. lia.
Qed.

Lemma land255_bound x : 0 <= x .& 255 < 256.
Proof. change 255 with (Z.ones 8). rewrite Z.land_ones by lia. apply Z.mod_pos_bound. lia. Qed.

(** One lookup is eight steps. *)
Lemma lookup64 c b : in_u 64 c -> byte_ok b ->
  exists t, znth crc64_tab (u8 c .^ b) = Some t /\
    t .^ (c >> 8) = Nat.iter 8 step64 (c .^ b) /\ in_u 64 (t .^ (c >> 8)).
Proof.
  intros Hc Hb.
  assert (u8 c .^ b = (c .^ b) .& 255) as ->.
  { change 255 with (Z.ones 8). rewrite Z.land_ones by lia. change (?a mod 2 ^ 8) with (u8 a).
    rewrite wrap_lxor by lia. rewrite (wrap_small 8 b); [done|]. exact Hb. }
  pose proof (land255_bound (c .^ b)) as Hi.
  pose proof (forallb_seqZ _ _ _ table64_all Hi) as Ht. unfold table64_ok in Ht.
  destruct (znth crc64_tab ((c .^ b) .& 255)) as [t|]; [|done].
  apply andb_true_iff in Ht as [Ht Hu%bool_decide_eq_true]. apply Z.eqb_eq in Ht.
  exists t. split; [done|]. split; [|apply lxor_in_u; [lia|done|by apply shiftr_in_u]].
  rewrite (split_byte (c .^ b)) at 1. rewrite (iter_lxor _ step64_lxor), <- Ht.
  pose proof (iter64_shift 8 ((c .^ b) >> 8)) as E. change (Z.of_nat 8) with 8 in E. rewrite E.
  rewrite Z.lxor_comm. f_equal.
  rewrite Z.shiftr_lxor. replace (b >> 8) with 0; [by rewrite Z.lxor_0_r|].
  unfold byte_ok in Hb. rewrite Z.shiftr_div_pow2 by lia. symmetry. by apply Z.div_small.
Qed.

Lemma lookup16 c b : in_u 16 c -> byte_ok b ->
  exists t, znth crc16tab (((c >> 8) .^ s8 b) .& 0x00FF) = Some t /\
    u16 (Z.shiftl c 8 .^ t) = Nat.iter 8 step16 (c .^ Z.shiftl b 8).
Proof.
  intros Hc Hb.
  assert (((c >> 8) .^ s8 b) .& 0x00FF = (c >> 8) .^ b) as ->.
  { change 0x00FF with (Z.ones 8). rewrite Z.land_ones by lia. change (?a mod 2 ^ 8) with (u8 a).
    rewrite wrap_lxor by lia. f_equal.
    - apply wrap_small. unfold in_u in *. rewrite Z.shiftr_div_pow2 by lia.
      split; [apply Z.div_pos; lia|apply Z.div_lt_upper_bound; pow2; lia].
    - unfold swrap, wrap. unfold byte_ok in Hb. change (8 - 1) with 7. pow2.
      destruct (Z.lt_ge_cases b 128).
      + rewrite (Z.mod_small (b + 128)) by lia. replace (b + 128 - 128) with b by lia. by apply Z.mod_small.
      + replace (b + 128) with (b - 128 + 1 * 256) by lia. rewrite Z.mod_add, (Z.mod_small (b - 128)) by lia.
        replace (b - 128 - 128) with (b + (-1) * 256) by lia. rewrite Z.mod_add by lia. by apply Z.mod_small. }
  set (x := (c >> 8) .^ b).
  assert (0 <= x < 256) as Hx.
  { apply (lxor_in_u 8); [lia| |exact Hb]. unfold in_u in *. rewrite Z.shiftr_div_pow2 by lia.
    split; [apply Z.div_pos; lia|apply Z.div_lt_upper_bound; pow2; lia]. }
  pose proof (forallb_seqZ _ _ _ table16_all Hx) as Ht. unfold table16_ok in Ht.
  destruct (znth crc16tab x) as [t|]; [|done].
  apply andb_true_iff in Ht as [Ht _]. apply andb_true_iff in Ht as [Ht Hu%bool_decide_eq_true].
  apply Z.eqb_eq in Ht. exists t. split; [done|].
  assert (c .^ Z.shiftl b 8 = Z.shiftl x 8 .^ (c .& 255)) as ->.
  { unfold x. rewrite (split_byte c) at 1. rewrite Z.shiftl_lxor, !Z.lxor_assoc. f_equal. apply Z.lxor_comm. }
  rewrite (iter_lxor _ step16_lxor), <- Ht.
  pose proof (forallb_seqZ _ _ _ table16_all (land255_bound c)) as Hl. unfold table16_ok in Hl.
  destruct (znth crc16tab (c .& 255)); [|done].
  apply andb_true_iff in Hl as [_ Hl]. apply Z.eqb_eq in Hl. rewrite <- Hl.
  rewrite wrap_lxor by lia. rewrite (wrap_small 16 t) by done. rewrite Z.lxor_comm. f_equal.
  unfold wrap. rewrite !Z.shiftl_mul_pow2 by lia. change 255 with (Z.ones 8). rewrite Z.land_ones by lia.
  change (2 ^ 16) with (2 ^ 8 * 2 ^ 8). rewrite Z.mul_mod_distr_r by lia. done.
Qed.

(** ** The checksums of whole strings *)

Lemma znth_app_one {A} (a b : list A) x : znth (a ++ x :: b) (zlen a) = Some x.
Proof. by apply znth_app_mid. Qed.

Lemma crc64_loop_spec msg : forall pre post c, in_u 64 c -> bytes_ok msg ->
  crc64_loop (length msg) (pre ++ msg ++ post) (zlen pre) c = Some (ref64 c msg) /\
  in_u 64 (ref64 c msg).
Proof.
  induction msg as [|b msg IH]; intros pre post c Hc Hb; [done|].
  apply Forall_cons in Hb as [Hb Hm]. cbn [length crc64_loop].
  change ((b :: msg) ++ post) with (b :: msg ++ post). rewrite znth_app_one. step.
  destruct (lookup64 c b Hc Hb) as (t & -> & E & Hu). step. rewrite E in *.
  specialize (IH (pre ++ [b]) post _ Hu Hm). rewrite zlen_app_one, <- app_assoc in IH. exact IH.
Qed.

Lemma crc16_loop_spec msg : forall pre post c, in_u 16 c -> bytes_ok msg ->
  crc16_loop (length msg) (pre ++ msg ++ post) (zlen pre) c =
    Some (foldl (fun c b => Nat.iter 8 step16 (c .^ (Z.shiftl b 8))) c msg) /\
  in_u 16 (foldl (fun c b => Nat.iter 8 step16 (c .^ (Z.shiftl b 8))) c msg).
Proof.
  induction msg as [|b msg IH]; intros pre post c Hc Hb; [done|].
  apply Forall_cons in Hb as [Hb Hm]. cbn [length crc16_loop].
  change ((b :: msg) ++ post) with (b :: msg ++ post). rewrite znth_app_one. step.
  destruct (lookup16 c b Hc Hb) as (t & -> & E). step. rewrite E.
  assert (in_u 16 (Nat.iter 8 step16 (c .^ Z.shiftl b 8))) as Hu by (rewrite <- E; apply wrap_in_u; lia).
  specialize (IH (pre ++ [b]) post _ Hu Hm). rewrite zlen_app_one, <- app_assoc in IH. exact IH.
Qed.

Lemma crc64_spec c msg : in_u 64 c -> bytes_ok msg ->
  crc64 c msg (zlen msg) = Some (ref64 c msg) /\ in_u 64 (ref64 c msg).
Proof.
  intros Hc Hb. unfold crc64, zlen. rewrite Nat2Z.id.
  pose proof (crc64_loop_spec msg [] [] c Hc Hb) as H. rewrite app_nil_r in H. exact H.
Qed.

Lemma crc16_prefix msg post : bytes_ok msg ->
  crc16 (msg ++ post) (zlen msg) = Some (ref16 msg) /\ in_u 16 (ref16 msg).
Proof.
  intros Hb. unfold crc16, zlen. rewrite Nat2Z.id.
  exact (crc16_loop_spec msg [] post 0 ltac:(done) Hb).
Qed.

(** C17: The table-driven checksums read inside their buffer and compute the
    bit-by-bit division by their polynomials, CRC-16/XMODEM and CRC-64/Jones,
    and the CRC-64 of a concatenation can be computed piecewise, as the streams
    of an RDB file do. *)
Theorem crc_tables_divide (c : Z) (a b : list Z) (Hc : in_u 64 c) (Ha : bytes_ok a)
    (Hb : bytes_ok b) :
  crc16 a (zlen a) = Some (ref16 a) /\
  crc64 c a (zlen a) = Some (ref64 c a) /\
  (c' ← crc64 c a (zlen a); crc64 c' b (zlen b)) = crc64 c (a ++ b) (zlen (a ++ b)).
Proof.
  split; [|split].
  - pose proof (crc16_prefix a [] Ha) as [H _]. by rewrite app_nil_r in H.
  - by apply crc64_spec.
  - destruct (crc64_spec c a Hc Ha) as [-> Hu]. step.
    destruct (crc64_spec _ b Hu Hb) as [-> _].
    destruct (crc64_spec c (a ++ b) Hc ltac:(by apply Forall_app)) as [-> _].
    unfold ref64. by rewrite foldl_app.
Qed.

Lemma crc_tables_divide_witness :
  let msg := bytes_of "123456789" in
  crc16 msg 9 = Some 0x31C3 /\ crc64 0 msg 9 = Some 0xe9c6d914c4b8d9ca /\
  ref16 msg = 0x31C3 /\ ref64 0 msg = 0xe9c6d914c4b8d9ca.
Proof.
  intros msg.
  destruct (crc_tables_divide 0 msg [] ltac:(done) ltac:(by_decide) ltac:(by_decide)) as (H1 & H2 & _).
  change (zlen msg) with 9 in *.
  assert (ref16 msg = 0x31C3) as E1 by (vm_compute; reflexivity).
  assert (ref64 0 msg = 0xe9c6d914c4b8d9ca) as E2 by (vm_compute; reflexivity).
  rewrite E1 in H1. rewrite E2 in H2.
  split; [exact H1|]. split; [exact H2|]. split; [exact E1|exact E2].
Defined.

(** ** Detection of bursts *)

Lemma step64_in_u x : in_u 64 x -> in_u 64 (step64 x).
Proof.
  intros Hx. unfold step64. destruct (Z.testbit x 0); [|by apply shiftr_in_u].
  apply lxor_in_u; [lia|by apply shiftr_in_u|done].
Qed.

Lemma step64_top x : in_u 64 x -> Z.testbit (step64 x) 63 = Z.testbit x 0.
Proof.
  intros Hx. unfold step64. destruct (Z.testbit x 0); rewrite ?Z.lxor_spec, Z.shiftr_spec by lia;
    rewrite (bits_above_u 64 x) by (done || lia); reflexivity.
Qed.

Lemma step64_inj a b : in_u 64 a -> in_u 64 b -> step64 a = step64 b -> a = b.
Proof.
  intros Ha Hb E. pose proof (step64_top a Ha) as Ta. pose proof (step64_top b Hb) as Tb.
  rewrite E in Ta. assert (a >> 1 = b >> 1) as Es.
  { unfold step64 in E. rewrite <- Ta, Tb in E. destruct (Z.testbit b 0); [|done].
    apply (f_equal (fun x => x .^ poly64)) in E.
    by rewrite !Z.lxor_assoc, Z.lxor_nilpotent, !Z.lxor_0_r in E. }
  apply Z.bits_inj'. intros i Hi. destruct (Z.eq_dec i 0) as [->|Hn]; [congruence|].
  replace i with (i - 1 + 1) by lia. rewrite <- !Z.shiftr_spec by lia. by rewrite Es.
Qed.

Lemma iter64_inj n : forall a b, in_u 64 a -> in_u 64 b ->
  Nat.iter n step64 a = Nat.iter n step64 b -> a = b.
Proof.
  induction n as [|n IH]; intros a b Ha Hb E; [done|]. rewrite !Nat.iter_succ_r in E.
  apply IH in E; [by apply step64_inj| |]; by apply step64_in_u.
Qed.

Lemma lxor_inj_r a b c : a .^ c = b .^ c -> a = b.
Proof.
  intros E. apply (f_equal (fun x => x .^ c)) in E.
  by rewrite !Z.lxor_assoc, Z.lxor_nilpotent, !Z.lxor_0_r in E.
Qed.

Lemma byte_in_u64 b : byte_ok b -> in_u 64 b.
Proof. unfold byte_ok, in_u. pow2. lia. Qed.

(** Different states stay different over the same bytes. *)
Lemma ref64_inj msg : forall a b, in_u 64 a -> in_u 64 b -> bytes_ok msg ->
  ref64 a msg = ref64 b msg -> a = b.
Proof.
  induction msg as [|x msg IH]; intros a b Ha Hb Hm E; [done|].
  apply Forall_cons in Hm as [Hx Hm]. pose proof (byte_in_u64 x Hx) as Hxu.
  assert (forall c, in_u 64 c -> in_u 64 (Nat.iter 8 step64 (c .^ x))) as Hi.
  { intros c Hc. assert (forall n y, in_u 64 y -> in_u 64 (Nat.iter n step64 y)) as Hn
      by (induction n; intros y Hy; simpl; [done|by apply step64_in_u, IHn]).
    apply Hn, lxor_in_u; [lia|done|done]. }
  apply IH in E; [|by apply Hi|by apply Hi|done].
  apply iter64_inj in E; [by apply lxor_inj_r in E| |]; apply lxor_in_u; done || lia.
Qed.

(** Up to eight bytes are absorbed like one word. *)
Lemma ref64_absorb msg : forall c, bytes_ok msg ->
  ref64 c msg = Nat.iter (8 * length msg) step64 (c .^ le_decode msg).
Proof.
  induction msg as [|b msg IH]; intros c Hm; [by rewrite Z.lxor_0_r|].
  apply Forall_cons in Hm as [Hb Hm].
  change (ref64 c (b :: msg)) with (ref64 (Nat.iter 8 step64 (c .^ b)) msg).
  rewrite IH by done. replace (8 * length (b :: msg))%nat with (8 * length msg + 8)%nat by (simpl; lia).
  rewrite Nat.iter_add. f_equal. cbn [le_decode].
  pose proof (iter64_shift 8 (le_decode msg)) as E. change (Z.of_nat 8) with 8 in E.
  rewrite <- E at 1. rewrite <- (iter_lxor _ step64_lxor). f_equal. rewrite Z.lxor_assoc. f_equal.
  rewrite Z.shiftl_mul_pow2 by lia. change (2 ^ 8) with 256.
  rewrite Z.mul_comm. rewrite <- Z.add_nocarry_lxor; [done|].
  apply Z.bits_inj'. intros i Hi. rewrite Z.land_spec, Z.bits_0. change 256 with (2 ^ 8).
  destruct (Z.lt_ge_cases i 8).
  - rewrite (Z.mul_comm (2 ^ 8)), (Z.mul_pow2_bits_low _ 8 i) by lia. apply andb_false_r.
  - rewrite (bits_above_u 8 b); [done|exact Hb|lia].
Qed.

Lemma le_decode_in_u64 msg : bytes_ok msg -> (length msg <= 8)%nat -> in_u 64 (le_decode msg).
Proof.
  intros Hm Hl. pose proof (le_decode_encode (length msg) (le_decode msg)) as E.
  rewrite le_encode_decode in E by done. rewrite E.
  assert (0 < 256 ^ Z.of_nat (length msg)) by (apply Z.pow_pos_nonneg; lia).
  assert (256 ^ Z.of_nat (length msg) <= 256 ^ 8) by (apply Z.pow_le_mono_r; lia).
  pose proof (Z.mod_pos_bound (le_decode msg) (256 ^ Z.of_nat (length msg)) ltac:(lia)).
  unfold in_u. change (2 ^ 64) with (256 ^ 8). lia.
Qed.

(** C27: CRC-64 detects every corruption within eight consecutive bytes: two
    strings that differ only there have different checksums, whatever surrounds
    them and whatever the checksum they start from. *)
Theorem crc64_detects_bursts (c : Z) (pre x y post : list Z)
    (Hc : in_u 64 c) (Hpre : bytes_ok pre) (Hx : bytes_ok x) (Hy : bytes_ok y) (Hpost : bytes_ok post)
    (Hlen : length x = length y) (H8 : (length x <= 8)%nat) (Hne : x <> y) :
  crc64 c (pre ++ x ++ post) (zlen (pre ++ x ++ post)) <>
  crc64 c (pre ++ y ++ post) (zlen (pre ++ y ++ post)).
Proof.
  assert (forall z, bytes_ok z -> bytes_ok (pre ++ z ++ post)) as Hok
    by (intros z Hz; by repeat apply Forall_app_2).
  destruct (crc64_spec c _ Hc (Hok x Hx)) as [-> _]. destruct (crc64_spec c _ Hc (Hok y Hy)) as [-> _].
  intros [= E]. apply Hne. unfold ref64 in E. rewrite !foldl_app in E.
  fold (ref64 c pre) in E. destruct (crc64_spec c pre Hc Hpre) as [_ Hp].
  fold (ref64 (ref64 c pre) x) in E. fold (ref64 (ref64 c pre) y) in E.
  destruct (crc64_spec _ x Hp Hx) as [_ Hpx]. destruct (crc64_spec _ y Hp Hy) as [_ Hpy].
  apply ref64_inj in E; [|done|done|done]. revert Hp Hpx Hpy E. generalize (ref64 c pre).
  intros s Hp _ _ E. rewrite !ref64_absorb, Hlen in E by done.
  pose proof (le_decode_in_u64 x Hx H8) as Bx. pose proof (le_decode_in_u64 y Hy ltac:(lia)) as By.
  apply iter64_inj in E; [|apply lxor_in_u; [lia|exact Hp|exact Bx]|apply lxor_in_u; [lia|exact Hp|exact By]].
  rewrite !(Z.lxor_comm s) in E. apply lxor_inj_r in E.
  rewrite <- (le_encode_decode x Hx), <- (le_encode_decode y Hy). by rewrite E, Hlen.
Qed.

Lemma crc64_detects_bursts_witness :
  crc64 0 (bytes_of "REDIS0006 dump") 14 <> crc64 0 (bytes_of "REDIS00f6 dump") 14.
Proof.
  apply (crc64_detects_bursts 0 (bytes_of "REDIS00") (bytes_of "0") (bytes_of "f") (bytes_of "6 dump"));
    try done; by_decide.
Defined.

(** ** The slot of a key *)

Lemma find_byte_absent c mid : forall pre, c ∉ mid ->
  find_byte (length mid) (pre ++ mid) c (zlen pre) = Some (zlen (pre ++ mid)).
Proof.
  induction mid as [|b mid IH]; intros pre Hc.
  - by rewrite app_nil_r.
  - cbn [length find_byte]. rewrite znth_app_one. step.
    destruct (Z.eqb_spec b c) as [->|Hn]; [exfalso; apply Hc; left|].
    specialize (IH (pre ++ [b])). rewrite zlen_app_one, <- app_assoc in IH. apply IH.
    intros H. apply Hc. by right.
Qed.

Lemma find_byte_first c mid post : forall n pre, c ∉ mid -> (length mid < n)%nat ->
  find_byte n (pre ++ mid ++ c :: post) c (zlen pre) = Some (zlen (pre ++ mid)).
Proof.
  induction mid as [|b mid IH]; intros n pre Hc Hn; (destruct n; [simpl in *; lia|]); cbn [find_byte].
  - simpl. rewrite znth_app_one. step. by rewrite Z.eqb_refl, app_nil_r.
  - change ((b :: mid) ++ c :: post) with (b :: mid ++ c :: post). rewrite znth_app_one. step.
    destruct (Z.eqb_spec b c) as [->|Hb]; [exfalso; apply Hc; left|].
    specialize (IH n (pre ++ [b])). rewrite zlen_app_one, <- app_assoc in IH.
    simpl in IH. rewrite IH; [by rewrite <- app_assoc| |simpl in Hn; lia].
    intros H. apply Hc. by right.
Qed.

Lemma first_occurrence (c : Z) l : c ∈ l -> exists a b, l = a ++ c :: b /\ c ∉ a.
Proof.
  induction l as [|x l IH]; [by intros ?%elem_of_nil|].
  destruct (decide (x = c)) as [->|Hn]; [exists [], l; split; [done|apply not_elem_of_nil]|].
  intros [->|Hl]%elem_of_cons; [done|]. destruct (IH Hl) as (a & b & -> & Ha).
  exists (x :: a), b. split; [done|]. intros [->|?]%elem_of_cons; done.
Qed.

(** What is between the first brace and the first closing brace after it. *)
Definition tagged (key tag : list Z) : Prop :=
  exists a b, key = a ++ 123 :: tag ++ 125 :: b /\ 123 ∉ a /\ 125 ∉ tag /\ tag <> [].

Lemma slot_mask x : in_u 16 x -> x .& 0x3FFF = x mod 16384 /\ 0 <= x mod 16384 < 16384.
Proof.
  intros Hx. split; [|apply Z.mod_pos_bound; lia].
  change 0x3FFF with (Z.ones 14). by rewrite Z.land_ones.
Qed.

Lemma whole_slot key : bytes_ok key ->
  (crc ← crc16 key (zlen key); Some (crc .& 0x3FFF)) = Some (ref16 key mod 16384) /\
  0 <= ref16 key mod 16384 < 16384.
Proof.
  intros Hk. destruct (crc16_prefix key [] Hk) as [E Hu]. rewrite app_nil_r in E. rewrite E. step.
  destruct (slot_mask _ Hu) as [-> ?]. done.
Qed.

Lemma split_first (c : Z) a : forall a' r r', c ∉ a -> c ∉ a' ->
  a ++ c :: r = a' ++ c :: r' -> a = a' /\ r = r'.
Proof.
  induction a as [|x a IH]; intros [|y a'] r r' Ha Ha' Eq; simpl in Eq.
  - by injection Eq as ->.
  - injection Eq as <- _. exfalso. apply Ha'. left.
  - injection Eq as -> _. exfalso. apply Ha. left.
  - injection Eq as -> Eq. rewrite not_elem_of_cons in Ha, Ha'.
    destruct (IH a' r r') as [-> ->]; naive_solver.
Qed.

(** A key is without tag, or splits at the two braces in one way. *)
Lemma key_cases key :
  (123 ∉ key) \/ (exists a r, key = a ++ 123 :: r /\ 123 ∉ a /\ 125 ∉ r) \/
  (exists a t b, key = a ++ 123 :: t ++ 125 :: b /\ 123 ∉ a /\ 125 ∉ t).
Proof.
  destruct (decide (123 ∈ key)) as [Hin|]; [right|by left].
  destruct (first_occurrence 123 key Hin) as (a & r & -> & Ha).
  destruct (decide (125 ∈ r)) as [Hin2|]; [right|left; by eexists _, _].
  destruct (first_occurrence 125 r Hin2) as (t & b & -> & Ht). by eexists _, _, _.
Qed.

(** The first loop of [keyHashSlot] stops at the first opening brace. *)
Lemma open_brace a r : 123 ∉ a ->
  find_byte (Z.to_nat (zlen (a ++ 123 :: r))) (a ++ 123 :: r) 123 0 = Some (zlen a).
Proof.
  intros Ha. rewrite zlen_to_nat.
  pose proof (find_byte_first 123 a r (length (a ++ 123 :: r)) [] Ha) as E. cbn [app] in E.
  apply E. rewrite length_app. cbn [length]. lia.
Qed.

(** What is left to do after it, in a key [pre ++ r] with [pre] up to the brace. *)
Lemma after_brace a r : let key := a ++ 123 :: r in let pre := a ++ [123] in
  123 ∉ a ->
  keyHashSlot key (zlen key) =
    (e ← find_byte (length r) (pre ++ r) 125 (zlen pre);
     if (e =? zlen key) || (e =? zlen pre)
     then crc ← crc16 key (zlen key); Some (crc .& 0x3FFF)
     else crc ← crc16 (drop (length pre) key) (e - zlen a - 1); Some (crc .& 0x3FFF)).
Proof.
  intros key pre Ha. unfold keyHashSlot, key. rewrite (open_brace a r Ha). step.
  assert (Hp : zlen a + 1 = zlen pre) by (unfold pre; by rewrite zlen_app_one).
  assert (Hl : zlen (a ++ 123 :: r) = zlen pre + zlen r)
    by (rewrite zlen_app, zlen_cons; lia).
  pose proof (zlen_nonneg r). destruct (Z.eqb_spec (zlen a) (zlen (a ++ 123 :: r))); [lia|].
  rewrite Hp, Hl. replace (zlen pre + zlen r - zlen pre) with (zlen r) by lia.
  rewrite !zlen_to_nat. unfold pre. by rewrite <- app_assoc.
Qed.

(** The slot when a pair of braces is found. *)
Lemma slot_braces a t b : let key := a ++ 123 :: t ++ 125 :: b in
  bytes_ok key -> 123 ∉ a -> 125 ∉ t ->
  keyHashSlot key (zlen key) = Some (ref16 (if bool_decide (t = []) then key else t) mod 16384).
Proof.
  intros key Hk Ha Ht. destruct (whole_slot key Hk) as [Hw _]. unfold key.
  rewrite (after_brace a _ Ha). set (pre := a ++ [123]).
  rewrite (find_byte_first 125 t b _ pre Ht) by (rewrite length_app; cbn [length]; lia). step.
  assert (Hl : zlen (a ++ 123 :: t ++ 125 :: b) = zlen pre + zlen t + 1 + zlen b)
    by (unfold pre; rewrite !zlen_app, !zlen_cons, zlen_app, zlen_cons; change (zlen []) with 0; lia).
  pose proof (zlen_nonneg b). pose proof (zlen_nonneg t). rewrite zlen_app, Hl.
  destruct (Z.eqb_spec (zlen pre + zlen t) (zlen pre + zlen t + 1 + zlen b)); [lia|].
  destruct t as [|x t].
  - rewrite <- Hl. change (zlen []) with 0. rewrite (proj2 (Z.eqb_eq _ _)) by lia. exact Hw.
  - pose proof (zlen_nonneg t). rewrite zlen_cons, (proj2 (Z.eqb_neq _ _)) by lia. cbn [orb].
    replace (a ++ 123 :: (x :: t) ++ 125 :: b) with (pre ++ (x :: t) ++ 125 :: b)
      by (unfold pre; by rewrite <- app_assoc).
    rewrite drop_app_length. unfold pre. rewrite zlen_app_one.
    replace (zlen a + 1 + (1 + zlen t) - zlen a - 1) with (zlen (x :: t)) by (rewrite zlen_cons; lia).
    assert (Hb : bytes_ok (x :: t))
      by (apply Forall_app in Hk as [_ Hk]; apply Forall_cons in Hk as [_ Hk];
          by apply Forall_app in Hk as [Hk _]).
    destruct (crc16_prefix (x :: t) (125 :: b) Hb) as [-> Hu]. step.
    by destruct (slot_mask _ Hu) as [-> _].
Qed.

(** The slot when there is no tag to look at. *)
Lemma slot_whole key : bytes_ok key ->
  (123 ∉ key) \/ (exists a r, key = a ++ 123 :: r /\ 123 ∉ a /\ 125 ∉ r) ->
  keyHashSlot key (zlen key) = Some (ref16 key mod 16384).
Proof.
  intros Hk Hc. destruct (whole_slot key Hk) as [Hw _]. destruct Hc as [Hno|(a & r & -> & Ha & Hr)].
  - unfold keyHashSlot. pose proof (find_byte_absent 123 key [] Hno) as E. cbn [app] in E.
    rewrite zlen_to_nat. change (zlen []) with 0 in E. rewrite E. step.
    by rewrite Z.eqb_refl, Hw.
  - rewrite (after_brace a r Ha), (find_byte_absent 125 r _ Hr). step.
    by rewrite <- app_assoc, Z.eqb_refl, Hw.
Qed.

(** C28: The slot of a key is the CRC16 of its hash tag modulo 16384 when it has
    a tag, a non-empty string between the first opening brace and the first
    closing brace after it, and of the whole key otherwise; nothing outside the
    key is read, and keys with the same tag have the same slot. *)
Theorem keyHashSlot_tag (key : list Z) (Hk : bytes_ok key) :
  exists slot, keyHashSlot key (zlen key) = Some slot /\ 0 <= slot < 16384 /\
    (forall tag, tagged key tag -> slot = ref16 tag mod 16384) /\
    ((forall tag, ~ tagged key tag) -> slot = ref16 key mod 16384).
Proof.
  destruct (whole_slot key Hk) as [_ Hwb].
  destruct (key_cases key) as [Hno|[Hno|(a & t & b & -> & Ha & Ht)]].
  - exists (ref16 key mod 16384). split; [apply slot_whole; auto|]. split; [done|]. split; [|done].
    intros tag (a & b & -> & _). exfalso. apply Hno. set_solver.
  - exists (ref16 key mod 16384). split; [apply slot_whole; auto|]. split; [done|]. split; [|done].
    destruct Hno as (a & r & -> & Ha & Hr). intros tag (a' & b & Eq & Ha' & _).
    destruct (split_first _ _ _ _ _ Ha Ha' Eq) as [_ ->]. exfalso. apply Hr. set_solver.
  - eexists. split; [by apply slot_braces|]. split; [apply Z.mod_pos_bound; lia|].
    case_bool_decide as Ht0; split; try done.
    + intros tag (a' & b' & Eq & Ha' & Ht' & Hne).
      destruct (split_first _ _ _ _ _ Ha Ha' Eq) as [_ Eq'].
      by destruct (split_first _ _ _ _ _ Ht Ht' Eq') as [<- _].
    + intros tag (a' & b' & Eq & Ha' & Ht' & Hne).
      destruct (split_first _ _ _ _ _ Ha Ha' Eq) as [_ Eq'].
      by destruct (split_first _ _ _ _ _ Ht Ht' Eq') as [<- _].
    + intros Hno. exfalso. apply (Hno t). by exists a, b.
Qed.

Lemma keyHashSlot_tag_witness :
  exists slot, keyHashSlot (bytes_of "{user1000}.following") 20 = Some slot /\
    slot = ref16 (bytes_of "user1000") mod 16384.
Proof.
  destruct (keyHashSlot_tag (bytes_of "{user1000}.following") ltac:(by_decide)) as (slot & E & _ & H & _).
  exists slot. split; [exact E|]. apply H. exists [], (bytes_of ".following").
  split; [reflexivity|]. split; [apply not_elem_of_nil|]. split; [by_decide|discriminate].
Defined.
