(* ===== verification/Lzf.v ===== *)
(** LibLZF, with which snapshots compress long strings: [lzf_compress] of
    [src/redis-3.0.0/src/lzf_c.c] and [lzf_decompress] of lzf_d.c, with the
    settings of lzfP.h (VERY_FAST, no STRICT_ALIGN, INIT_HTAB 0, CHECK_INPUT).

    Pointers are offsets into the two buffers.  The table of the compressor lies
    on the stack and is not initialised: [junk] is what it holds.  The block of
    the output has one byte more than [out_len], as the callers allocate it. *)
From stdpp Require Import sets.
From S2P Require Import Prelude.
Local Open Scope c_scope.

Definition HLOG : Z := 16.
Definition HSIZE : Z := Z.shiftl 1 HLOG.
Definition MAX_LIT : Z := Z.shiftl 1 5.
Definition MAX_OFF : Z := Z.shiftl 1 13.
Definition MAX_REF : Z := Z.shiftl 1 8 + Z.shiftl 1 3.

(** ** Compression *)

Section Compress.
Context (inp : list Z) (in_len out_len : Z).

Definition FRST (p : Z) : option Z :=
  a ← znth inp p; b ← znth inp (p + 1); Some (Z.shiftl a 8 .| b).
Definition NEXT (v p : Z) : option Z :=
  a ← znth inp (p + 2); Some ((v <<[32] 8) .| a).
Definition IDX (h : Z) : Z := ((h >> (3 * 8 - HLOG)) -[32] (h * 5)) .& (HSIZE - 1).

Record cstate := mkState {
  c_ip : Z; c_op : Z; c_lit : Z; c_hval : Z; c_out : list Z; c_htab : Z -> Z }.

(** [htab[i] = p] *)
Definition put (htab : Z -> Z) (i p : Z) : Z -> Z := fun j => if j =? i then p else htab j.

Definition same_at (ref ip k : Z) : option bool :=
  a ← znth inp (ref + k); b ← znth inp (ip + k); Some (a =? b).

(** The test of a candidate, in the order of the conditions. *)
Definition found (ref ip : Z) : option bool :=
  if ((ip - ref) -[64] 1 <? MAX_OFF) && (ip + 4 <? in_len) && (0 <? ref) then
    a ← same_at ref ip 0; b ← same_at ref ip 1;
    if (a && b : bool) then same_at ref ip 2 else Some false
  else Some false.

(** [len++; if (ref[len] != ip[len]) break;], sixteen times; the flag says that
    it has broken off. *)
Fixpoint unrolled (n : nat) (ref ip len : Z) : option (Z * bool) :=
  match n with
  | O => Some (len, false)
  | S n => e ← same_at ref ip (len + 1);
      if (e : bool) then unrolled n ref ip (len + 1) else Some (len + 1, true)
  end.
(** [do len++; while (len < maxlen && ref[len] == ip[len]);] *)
Fixpoint extend (fuel : nat) (ref ip len maxlen : Z) : option Z :=
  match fuel with
  | O => None
  | S fuel =>
      let len := len + 1 in
      if len <? maxlen then
        e ← same_at ref ip len; if (e : bool) then extend fuel ref ip len maxlen else Some len
      else Some len
  end.
Definition match_length (ref ip maxlen : Z) : option Z :=
  '(len, broken) ← (if 16 <? maxlen then unrolled 16 ref ip 2 else Some (2, false));
  if (broken : bool) then Some len else extend (Z.to_nat MAX_REF) ref ip len maxlen.

(** [op[-lit-1] = lit - 1] *)
Definition stop_run (out : list Z) (op lit : Z) : option (list Z) :=
  mem_write out (op - lit - 1) [wrap 8 (lit - 1)].

(** [return 0]; the end of the round; [break]. *)
Inductive verdict := Give_up (out : list Z) | Next (s : cstate) | Break (s : cstate).

(** A match of [len + 2] bytes at distance [off + 1] is written. *)
Definition put_ref (out : list Z) (op off len : Z) : option (list Z * Z) :=
  '(out, op) ← (if len <? 7 then
                  out ← mem_write out op [wrap 8 ((off >> 8) + Z.shiftl len 5)]; Some (out, op + 1)
                else
                  out ← mem_write out op [wrap 8 ((off >> 8) + Z.shiftl 7 5)];
                  out ← mem_write out (op + 1) [wrap 8 (len - 7)]; Some (out, op + 2));
  out ← mem_write out op [wrap 8 off]; Some (out, op + 1).

Definition match_step (s : cstate) (ref : Z) : option verdict :=
  let ip := c_ip s in let off := (ip - ref) -[64] 1 in
  let maxlen := Z.min MAX_REF (in_len - ip - 2) in
  out ← stop_run (c_out s) (c_op s) (c_lit s);
  let op := if c_lit s =? 0 then c_op s - 1 else c_op s in
  if out_len <=? op + 3 + 1 then Some (Give_up out)
  else
    len ← match_length ref ip maxlen;
    '(out, op) ← put_ref out op off (len - 2);
    let op := op + 1 in let ip := ip + 1 + (len - 2 + 1) in
    if in_len - 2 <=? ip then Some (Break (mkState ip op 0 (c_hval s) out (c_htab s)))
    else
      let ip := ip - 2 in
      hval ← FRST ip; hval ← NEXT hval ip;
      let htab := put (c_htab s) (IDX hval) ip in let ip := ip + 1 in
      hval ← NEXT hval ip;
      let htab := put htab (IDX hval) ip in
      Some (Next (mkState (ip + 1) op 0 hval out htab)).

Definition lit_step (s : cstate) : option cstate :=
  b ← znth inp (c_ip s);
  out ← mem_write (c_out s) (c_op s) [b];
  let lit := c_lit s + 1 in let op := c_op s + 1 in
  if lit =? MAX_LIT then
    out ← stop_run out op lit; Some (mkState (c_ip s + 1) (op + 1) 0 (c_hval s) out (c_htab s))
  else Some (mkState (c_ip s + 1) op lit (c_hval s) out (c_htab s)).

Definition round (s : cstate) : option verdict :=
  hval ← NEXT (c_hval s) (c_ip s);
  let ref := c_htab s (IDX hval) in
  let s := mkState (c_ip s) (c_op s) (c_lit s) hval (c_out s) (put (c_htab s) (IDX hval) (c_ip s)) in
  m ← found ref (c_ip s);
  if (m : bool) then match_step s ref
  else if out_len <=? c_op s then Some (Give_up (c_out s))
  else s ← lit_step s; Some (Next s).

Fixpoint rounds (fuel : nat) (s : cstate) : option (list Z + cstate) :=
  match fuel with
  | O => None
  | S fuel =>
      if c_ip s <? in_len - 2 then
        v ← round s;
        match v with
        | Give_up out => Some (inl out)
        | Next s => rounds fuel s
        | Break s => Some (inr s)
        end
      else Some (inr s)
  end.
Fixpoint rest_literal (fuel : nat) (s : cstate) : option cstate :=
  match fuel with
  | O => None
  | S fuel => if c_ip s <? in_len then s ← lit_step s; rest_literal fuel s else Some s
  end.

(** The count of bytes written, and the block of the output. *)
Definition lzf_compress (junk : Z -> Z) (out : list Z) : option (Z * list Z) :=
  if (in_len =? 0) || (out_len =? 0) then Some (0, out)
  else
    hval ← FRST 0;
    r ← rounds (S (Z.to_nat in_len)) (mkState 0 1 0 hval out junk);
    match r with
    | inl out => Some (0, out)
    | inr s =>
        if out_len <? c_op s + 3 then Some (0, c_out s)
        else
          s ← rest_literal (S (Z.to_nat in_len)) s;
          out ← stop_run (c_out s) (c_op s) (c_lit s);
          Some (if c_lit s =? 0 then c_op s - 1 else c_op s, out)
    end.
End Compress.

(** ** Decompression *)

Section Decompress.
Context (inp : list Z) (in_len out_len : Z).

Record dstate := mkD { d_ip : Z; d_op : Z; d_out : list Z }.

(** [do *op++ = *ref++; while (--n);] *)
Fixpoint copy_back (n : nat) (out : list Z) (op ref : Z) : option (list Z) :=
  match n with
  | O => Some out
  | S n => b ← znth out ref; out ← zset out op b; copy_back n out (op + 1) (ref + 1)
  end.

(** A round of the loop; [Some None] is [return 0]. *)
Definition d_round (s : dstate) : option (option dstate) :=
  ctrl ← znth inp (d_ip s);
  let ip := d_ip s + 1 in let op := d_op s in
  if ctrl <? Z.shiftl 1 5 then
    let ctrl := ctrl + 1 in
    if out_len <? op + ctrl then Some None
    else if in_len <? ip + ctrl then Some None
    else
      bs ← mem_read inp ip ctrl; out ← mem_write (d_out s) op bs;
      Some (Some (mkD (ip + ctrl) (op + ctrl) out))
  else
    let len := ctrl >> 5 in
    let ref := op - Z.shiftl (ctrl .& 0x1f) 8 - 1 in
    if in_len <=? ip then Some None
    else
      r ← (if len =? 7 then
             b ← znth inp ip;
             if in_len <=? ip + 1 then Some None else Some (Some (len + b, ip + 1))
           else Some (Some (len, ip)));
      match r with
      | None => Some None
      | Some (len, ip) =>
          b ← znth inp ip;
          let ref := ref - b in let ip := ip + 1 in
          if out_len <? op + len + 2 then Some None
          else if ref <? 0 then Some None
          else out ← copy_back (Z.to_nat (len + 2)) (d_out s) op ref; Some (Some (mkD ip (op + len + 2) out))
      end.

Fixpoint d_rounds (fuel : nat) (s : dstate) : option (Z * list Z) :=
  match fuel with
  | O => None
  | S fuel =>
      r ← d_round s;
      match r with
      | None => Some (0, d_out s)
      | Some s => if d_ip s <? in_len then d_rounds fuel s else Some (d_op s, d_out s)
      end
  end.
(** Each round reads a byte or more; with none the first read is out of bounds. *)
Definition lzf_decompress (out : list Z) : option (Z * list Z) :=
  d_rounds (Z.to_nat in_len) (mkD 0 0 out).
End Decompress.

(** ** The format *)

(** Literal bytes, and a match of [len + 2] bytes at distance [off + 1]. *)
Inductive seg := Lit (l : list Z) | Ref (off len : Z).

Definition seg_bytes (g : seg) : list Z :=
  match g with
  | Lit l => (zlen l - 1) :: l
  | Ref off len =>
      if len <? 7 then [off / 256 + 32 * len; off mod 256]
      else [off / 256 + 224; len - 7; off mod 256]
  end.
Definition segs_bytes (gs : list seg) : list Z := concat (seg_bytes <$> gs).

(** The last [off + 1] bytes repeat. *)
Fixpoint repeated (n : nat) (off : Z) (d : list Z) : list Z :=
  match n with
  | O => d
  | S n => repeated n off (d ++ [default 0 (znth d (zlen d - off - 1))])
  end.
Definition seg_text (d : list Z) (g : seg) : list Z :=
  match g with Lit l => d ++ l | Ref off len => repeated (Z.to_nat (len + 2)) off d end.
Definition segs_text (gs : list seg) : list Z := fold_left seg_text gs [].

Definition seg_ok (d : list Z) (g : seg) : Prop :=
  match g with
  | Lit l => 1 <= zlen l <= MAX_LIT
  | Ref off len => 0 <= off < MAX_OFF /\ off < zlen d /\ 1 <= len <= 262
  end.
Inductive segs_ok : list seg -> Prop :=
  | ok_nil : segs_ok []
  | ok_snoc gs g : segs_ok gs -> seg_ok (segs_text gs) g -> segs_ok (gs ++ [g]).

Ltac zl := repeat rewrite ?zlen_app, ?zlen_cons, ?zlen_nil in *.

Lemma segs_text_snoc gs g : segs_text (gs ++ [g]) = seg_text (segs_text gs) g.
Proof. unfold segs_text. by rewrite fold_left_app. Qed.
Lemma segs_bytes_snoc gs g : segs_bytes (gs ++ [g]) = segs_bytes gs ++ seg_bytes g.
Proof. unfold segs_bytes. rewrite fmap_app, concat_app. cbn. by rewrite app_nil_r. Qed.

(** A match found in the text itself. *)
Lemma repeated_prefix inp off n : forall p, 0 <= off < p -> p + Z.of_nat n <= zlen inp ->
  (forall i, 0 <= i < Z.of_nat n -> znth inp (p - off - 1 + i) = znth inp (p + i)) ->
  repeated n off (take (Z.to_nat p) inp) = take (Z.to_nat (p + Z.of_nat n)) inp.
Proof.
  induction n as [|n IH]; intros p Hp Hn Heq; [cbn; f_equal; lia|]. cbn [repeated].
  assert (Hl : zlen (take (Z.to_nat p) inp) = p) by (unfold zlen in *; rewrite length_take; lia).
  rewrite Hl. replace (take (Z.to_nat p) inp ++ _) with (take (Z.to_nat (p + 1)) inp).
  - rewrite IH; [f_equal; lia|lia|lia|]. intros i Hi. specialize (Heq (i + 1) ltac:(lia)).
    replace (p + 1 - off - 1 + i) with (p - off - 1 + (i + 1)) by lia. rewrite Heq. f_equal. lia.
  - replace (Z.to_nat (p + 1)) with (S (Z.to_nat p)) by lia.
    destruct (inp !! Z.to_nat p) as [b|] eqn:Eb; [|apply lookup_ge_None in Eb; unfold zlen in *; lia].
    rewrite (take_S_r inp _ b Eb). do 2 f_equal. specialize (Heq 0 ltac:(lia)). rewrite !Z.add_0_r in Heq.
    rewrite <- (take_drop (Z.to_nat p) inp) in Heq at 1. rewrite znth_app_l in Heq by lia. rewrite Heq.
    unfold znth. rewrite decide_True by lia. by rewrite Eb.
Qed.

(** ** The search *)

Section Search.
Context (inp : list Z).
Notation in_len := (zlen inp).

Definition matches (ref ip n : Z) : Prop :=
  forall i, 0 <= i < n -> znth inp (ref + i) = znth inp (ip + i).
Lemma matches_snoc ref ip n : matches ref ip n -> znth inp (ref + n) = znth inp (ip + n) -> matches ref ip (n + 1).
Proof.
  intros Hm He i Hi. destruct (decide (i = n)) as [->|]; [done|]. apply Hm. lia.
Qed.

Lemma same_at_spec ref ip k : 0 <= ref + k -> ref <= ip -> ip + k < in_len ->
  same_at inp ref ip k = Some (bool_decide (znth inp (ref + k) = znth inp (ip + k))).
Proof.
  intros H1 H2 H3. unfold same_at. destruct (znth_Some inp (ref + k) ltac:(lia)) as [a Ha].
  destruct (znth_Some inp (ip + k) ltac:(lia)) as [b Hb]. rewrite Ha, Hb. cbn. f_equal.
  destruct (Z.eqb_spec a b); symmetry; [by apply bool_decide_eq_true; subst|apply bool_decide_eq_false; congruence].
Qed.

Lemma wrap_far x : - 2 ^ 63 <= x < 2 ^ 63 -> wrap 64 x < MAX_OFF -> 0 <= x < MAX_OFF.
Proof.
  intros Hx Hw. change MAX_OFF with 8192 in *. unfold wrap in Hw. change (2 ^ 64) with 18446744073709551616 in Hw.
  change (2 ^ 63) with 9223372036854775808 in Hx. destruct (decide (0 <= x)) as [H0|H0].
  - rewrite Z.mod_small in Hw by lia. lia.
  - rewrite <- (Z_mod_plus_full x 1), Z.mod_small in Hw by lia. lia.
Qed.

Lemma found_spec ref ip : 0 <= ip < in_len - 2 -> in_len < 2 ^ 32 -> - 2 ^ 62 <= ref < 2 ^ 62 ->
  exists b, found inp in_len ref ip = Some b /\
    (b = true -> 0 < ref < ip /\ ip - ref - 1 < MAX_OFF /\ ip + 4 < in_len /\ matches ref ip 3).
Proof.
  intros Hip Hlen Href. unfold found. destruct (_ && _ && _) eqn:E; [|by exists false].
  apply andb_true_iff in E as [E E3%Z.ltb_lt]. apply andb_true_iff in E as [E1%Z.ltb_lt E2%Z.ltb_lt].
  apply wrap_far in E1; [|lia].
  rewrite !same_at_spec by lia. cbn [mbind option_bind].
  destruct (bool_decide _ && bool_decide _) eqn:E.
  - apply andb_true_iff in E as [Ha%bool_decide_eq_true Hb%bool_decide_eq_true].
    eexists. split; [done|]. intros Hc%bool_decide_eq_true. split; [lia|]. split; [lia|]. split; [lia|].
    intros i Hi. assert (i = 0 \/ i = 1 \/ i = 2) as [-> | [-> | ->]] by lia; done.
  - by exists false.
Qed.

Lemma unrolled_spec ref ip n : forall len, 0 <= ref < ip -> 0 <= len -> ip + len + Z.of_nat n < in_len ->
  matches ref ip (len + 1) -> exists len' b, unrolled inp n ref ip len = Some (len', b) /\
    len < len' + 1 <= len + Z.of_nat n + 1 /\ matches ref ip len' /\
    (b = false -> len' = len + Z.of_nat n /\ matches ref ip (len' + 1)) /\ (b = true -> len < len').
Proof.
  induction n as [|n IH]; intros len Href Hlen Hip Hm.
  { exists len, false. split; [done|]. split; [lia|]. split; [|split; [|done]].
    - intros i Hi. apply Hm. lia.
    - intros _. split; [lia|done]. }
  cbn [unrolled]. rewrite same_at_spec by lia. cbn [mbind option_bind].
  case_bool_decide as He.
  - destruct (IH (len + 1)) as (len' & b & E & H1 & H2 & H3 & H4); [lia|lia|lia|by apply matches_snoc|].
    exists len', b. split; [done|]. split; [lia|]. split; [done|]. split; [intros Hb; destruct (H3 Hb); split; [lia|done]|].
    intros Hb. specialize (H4 Hb). lia.
  - exists (len + 1), true. split; [done|]. split; [lia|]. split; [done|]. split; [done|]. intros _. lia.
Qed.

Lemma extend_spec ref ip maxlen fuel : forall len, 0 <= ref < ip -> 0 <= len -> ip + maxlen <= in_len ->
  matches ref ip (len + 1) -> maxlen <= len + Z.of_nat fuel -> (1 <= fuel)%nat -> exists len',
    extend inp fuel ref ip len maxlen = Some len' /\ len < len' <= Z.max maxlen (len + 1) /\ matches ref ip len'.
Proof.
  induction fuel as [|fuel IH]; intros len Href Hlen Hip Hm Hf Hf1; [lia|]. cbn [extend].
  destruct (Z.ltb_spec (len + 1) maxlen) as [Hlt|Hge]; [|exists (len + 1); split; [done|]; split; [lia|done]].
  rewrite same_at_spec by lia. cbn [mbind option_bind]. case_bool_decide as He.
  - destruct (IH (len + 1)) as (len' & E & H1 & H2); [lia|lia|lia|by apply matches_snoc|lia|lia|].
    exists len'. split; [done|]. split; [lia|done].
  - exists (len + 1). split; [done|]. split; [lia|done].
Qed.

Lemma match_length_spec ref ip : 0 <= ref < ip -> ip + 4 < in_len -> matches ref ip 3 ->
  exists len, match_length inp ref ip (Z.min MAX_REF (in_len - ip - 2)) = Some len /\
    3 <= len <= 264 /\ ip + len <= in_len /\ matches ref ip len.
Proof.
  intros Href Hip Hm. unfold match_length. change MAX_REF with 264.
  destruct (Z.ltb_spec 16 (Z.min 264 (in_len - ip - 2))) as [Hlt|Hge].
  - destruct (unrolled_spec ref ip 16 2) as (len & b & E & H1 & H2 & H3 & H4); [lia|lia|lia|done|].
    rewrite E. cbn [mbind option_bind]. destruct b.
    + exists len. split; [done|]. specialize (H4 eq_refl). split; [lia|]. split; [lia|done].
    + destruct (H3 eq_refl) as [-> H3']. clear H3.
      destruct (extend_spec ref ip (Z.min 264 (in_len - ip - 2)) (Z.to_nat 264) (2 + 16)) as (len & E' & H5 & H6);
        [lia|lia|lia|exact H3'|vm_compute Z.to_nat; lia|vm_compute Z.to_nat; lia|].
      exists len. split; [exact E'|]. split; [lia|]. split; [lia|done].
  - cbn [mbind option_bind].
    destruct (extend_spec ref ip (Z.min 264 (in_len - ip - 2)) (Z.to_nat 264) 2) as (len & E' & H5 & H6);
      [lia|lia|lia|done|vm_compute Z.to_nat; lia|vm_compute Z.to_nat; lia|].
    exists len. split; [exact E'|]. split; [lia|]. split; [lia|done].
Qed.
End Search.

(** ** What the compressor has written *)

Lemma mem_write_one a x y rest i : i = zlen a -> mem_write (a ++ x :: rest) i [y] = Some (a ++ y :: rest).
Proof. intros ->. by rewrite (mem_write_app a [x] [y] rest). Qed.
Lemma snoc_cons {A} (a : list A) x k : (a ++ [x]) ++ k = a ++ x :: k.
Proof. by rewrite <- app_assoc. Qed.

Section Written.
Context (inp : list Z) (out_len : Z).
Hypothesis Hlen : 2 <= zlen inp < 2 ^ 32.
Notation in_len := (zlen inp).

(** The segments written, a byte for the length of the run, and the run. *)
Record cinv (gs : list seg) (h : Z) (lits todo rest : list Z) (s : cstate) : Prop := {
  ci_ok : segs_ok gs;
  ci_text : inp = segs_text gs ++ lits ++ todo;
  ci_out : c_out s = segs_bytes gs ++ h :: lits ++ rest;
  ci_size : zlen (c_out s) = out_len + 1;
  ci_op : c_op s = zlen (segs_bytes gs) + 1 + zlen lits;
  ci_lit : c_lit s = zlen lits;
  ci_short : zlen lits < MAX_LIT;
  ci_ip : c_ip s = zlen (segs_text gs) + zlen lits;
  ci_htab : forall i, - 2 ^ 62 <= c_htab s i < 2 ^ 62 }.
Definition cgood (s : cstate) : Prop := exists gs h lits todo rest, cinv gs h lits todo rest s.

Lemma cinv_rest gs h lits todo rest s : cinv gs h lits todo rest s -> zlen rest = out_len + 1 - c_op s.
Proof. intros [? ? Ho Hs Hop ? ? ? ?]. rewrite Ho in Hs. zl. lia. Qed.
Lemma cinv_todo gs h lits todo rest s : cinv gs h lits todo rest s -> zlen todo = in_len - c_ip s.
Proof.
  intros [? Ht ? ? ? ? ? Hip ?]. apply (f_equal zlen) in Ht. zl. lia.
Qed.

(** The run is closed. *)
Lemma stop_run_spec gs h lits rest op lit : segs_ok gs -> zlen lits <= MAX_LIT ->
  op = zlen (segs_bytes gs) + 1 + zlen lits -> lit = zlen lits ->
  exists gs' rest', stop_run (segs_bytes gs ++ h :: lits ++ rest) op lit = Some (segs_bytes gs' ++ rest') /\
    (if lit =? 0 then op - 1 else op) = zlen (segs_bytes gs') /\ segs_ok gs' /\
    segs_text gs' = segs_text gs ++ lits /\ zlen (segs_bytes gs') + zlen rest' = zlen (segs_bytes gs) + 1 + zlen lits + zlen rest.
Proof.
  intros Hok Hl -> ->. unfold stop_run. replace (zlen (segs_bytes gs) + 1 + zlen lits - zlen lits - 1) with (zlen (segs_bytes gs)) by lia.
  change (h :: lits ++ rest) with ([h] ++ lits ++ rest). rewrite (mem_write_app (segs_bytes gs) [h]) by done.
  pose proof (zlen_nonneg lits) as Hp. destruct (Z.eqb_spec (zlen lits) 0) as [H0|H0].
  - destruct lits as [|b lits]; [|zl; pose proof (zlen_nonneg lits); lia].
    exists gs, (wrap 8 (zlen (@nil Z) - 1) :: rest). split; [done|]. zl. split; [lia|]. split; [done|].
    split; [by rewrite app_nil_r|lia].
  - exists (gs ++ [Lit lits]), rest. rewrite segs_bytes_snoc, segs_text_snoc. cbn [seg_bytes seg_text].
    assert (Ew : wrap 8 (zlen lits - 1) = zlen lits - 1) by (apply wrap_small; change MAX_LIT with 32 in Hl; cint).
    rewrite Ew. split; [by rewrite <- app_assoc|]. zl. split; [lia|]. split; [|split; [done|lia]].
    apply ok_snoc; [done|]. cbn. lia.
Qed.

Lemma lit_step_spec gs h lits b todo rest s : cinv gs h lits (b :: todo) rest s -> 2 <= zlen rest ->
  exists s' gs' h' lits' rest', lit_step inp s = Some s' /\ cinv gs' h' lits' todo rest' s' /\
    c_ip s' = c_ip s + 1 /\ zlen rest - 2 <= zlen rest' /\ c_htab s' = c_htab s.
Proof.
  intros H Hr. pose proof (cinv_rest _ _ _ _ _ _ H) as Hrest. destruct H as [Hok Ht Ho Hs Hop Hl Hsh Hip Hh].
  unfold lit_step. assert (Eb : znth inp (c_ip s) = Some b).
  { rewrite Ht, app_assoc. apply znth_app_mid. zl. lia. }
  rewrite Eb. cbn [mbind option_bind]. destruct rest as [|r1 rest]; [zl; lia|]. destruct rest as [|r2 rest]; [zl; lia|].
  assert (Ew : mem_write (c_out s) (c_op s) [b] = Some (segs_bytes gs ++ h :: (lits ++ [b]) ++ r2 :: rest)).
  { rewrite Ho. replace (segs_bytes gs ++ h :: lits ++ r1 :: r2 :: rest) with ((segs_bytes gs ++ h :: lits) ++ [r1] ++ r2 :: rest)
      by (by rewrite <- app_assoc). rewrite (mem_write_app _ [r1] [b]); [|zl; lia|done]. by rewrite <- !app_assoc. }
  rewrite Ew. cbn [mbind option_bind].
  destruct (Z.eqb_spec (c_lit s + 1) MAX_LIT) as [E|E].
  - destruct (stop_run_spec gs h (lits ++ [b]) (r2 :: rest) (c_op s + 1) (c_lit s + 1)) as (gs' & rest' & E1 & E2 & E3 & E4 & E5);
      [done|zl; lia|zl; lia|zl; lia|].
    rewrite E1. cbn [mbind option_bind]. replace (c_lit s + 1 =? 0) with false in E2 by (symmetry; apply Z.eqb_neq; change MAX_LIT with 32 in E; lia).
    destruct rest' as [|h' rest']; [zl; lia|].
    eexists _, gs', h', [], rest'. split; [done|]. split; [|cbn; split; [lia|split; [zl; lia|done]]].
    split; cbn [c_out c_op c_lit c_ip c_htab]; [done| | | |zl; lia|done|done|rewrite E4; zl; lia|done].
    + by rewrite E4, Ht, <- !app_assoc.
    + done.
    + rewrite Ho in Hs. zl. lia.
  - eexists _, gs, h, (lits ++ [b]), (r2 :: rest). split; [done|]. split; [|cbn; split; [done|split; [zl; lia|done]]].
    split; cbn [c_out c_op c_lit c_ip c_htab]; [done| |done| |zl; lia|zl; lia|zl; lia|zl; lia|done].
    + by rewrite Ht, <- !app_assoc.
    + rewrite Ho in Hs. zl. lia.
Qed.

Lemma put_ref_spec a rest off len : 0 <= off < MAX_OFF -> 1 <= len <= 262 -> 4 <= zlen rest ->
  exists rest', put_ref (a ++ rest) (zlen a) off len =
    Some (a ++ seg_bytes (Ref off len) ++ rest', zlen a + zlen (seg_bytes (Ref off len))) /\
    zlen (seg_bytes (Ref off len)) + zlen rest' = zlen rest /\ 1 <= zlen rest'.
Proof.
  intros Ho Hl Hr. change MAX_OFF with 8192 in Ho. unfold put_ref, seg_bytes.
  rewrite !Z.shiftl_mul_pow2, Z.shiftr_div_pow2 by lia. change (2 ^ 8) with 256. change (2 ^ 5) with 32.
  assert (Hd : 0 <= off / 256 < 32) by (split; [apply Z.div_pos; lia|apply Z.div_lt_upper_bound; lia]).
  replace (wrap 8 off) with (off mod 256) by done.
  destruct rest as [|r1 [|r2 [|r3 [|r4 rest]]]]; [zl; lia..|].
  destruct (Z.ltb_spec len 7) as [H7|H7].
  - rewrite wrap_small by cint. rewrite mem_write_one by done. cbn [mbind option_bind].
    rewrite <- snoc_cons, mem_write_one by (zl; lia). cbn [mbind option_bind].
    exists (r3 :: r4 :: rest). split; [|zl; pose proof (zlen_nonneg rest); lia].
    rewrite snoc_cons, (Z.mul_comm len 32). cbn. do 2 f_equal. zl. lia.
  - rewrite !wrap_small by cint. rewrite mem_write_one by done. cbn [mbind option_bind].
    rewrite <- snoc_cons, mem_write_one by (zl; lia). cbn [mbind option_bind].
    rewrite <- snoc_cons, mem_write_one by (zl; lia). cbn [mbind option_bind].
    exists (r4 :: rest). split; [|zl; pose proof (zlen_nonneg rest); lia].
    rewrite !snoc_cons. cbn. do 2 f_equal. zl. lia.
Qed.

Lemma FRST_ok p : 0 <= p -> p + 1 < in_len -> exists v, FRST inp p = Some v.
Proof.
  intros H0 H1. unfold FRST. destruct (znth_Some inp p ltac:(lia)) as [a ->].
  destruct (znth_Some inp (p + 1) ltac:(lia)) as [b ->]. cbn. by eexists.
Qed.
Lemma NEXT_ok v p : 0 <= p -> p + 2 < in_len -> exists v', NEXT inp v p = Some v'.
Proof. intros H0 H1. unfold NEXT. destruct (znth_Some inp (p + 2) ltac:(lia)) as [a ->]. cbn. by eexists. Qed.
Lemma put_bounded (htab : Z -> Z) i p : (forall j, - 2 ^ 62 <= htab j < 2 ^ 62) -> 0 <= p < 2 ^ 32 ->
  forall j, - 2 ^ 62 <= put htab i p j < 2 ^ 62.
Proof. intros Hh Hp j. unfold put. destruct (j =? i); [lia|apply Hh]. Qed.

(** The text after a match. *)
Lemma text_ref gs lits todo ref len : inp = (segs_text gs ++ lits) ++ todo ->
  let ip := zlen (segs_text gs ++ lits) in
  0 < ref < ip -> 3 <= len -> ip + len <= in_len -> matches inp ref ip len ->
  seg_text (segs_text gs ++ lits) (Ref (ip - ref - 1) (len - 2)) = take (Z.to_nat (ip + len)) inp.
Proof.
  intros Ht ip Hr Hl Hip Hm. cbn [seg_text]. replace (len - 2 + 2) with len by lia.
  replace (segs_text gs ++ lits) with (take (Z.to_nat ip) inp).
  - rewrite (repeated_prefix inp (ip - ref - 1) (Z.to_nat len) ip); [f_equal; lia|lia|lia|].
    intros i Hi. replace (ip - (ip - ref - 1) - 1 + i) with (ref + i) by lia. apply Hm. lia.
  - rewrite Ht at 1. unfold ip. rewrite zlen_to_nat. apply take_app_length.
Qed.

Definition moved (s : cstate) (v : verdict) : Prop :=
  match v with
  | Give_up _ => True
  | Next s' => cgood s' /\ c_ip s < c_ip s'
  | Break s' => cgood s' /\ in_len - 2 <= c_ip s'
  end.

Lemma match_step_spec gs h lits todo rest s ref : cinv gs h lits todo rest s ->
  0 < ref < c_ip s -> c_ip s - ref - 1 < MAX_OFF -> c_ip s + 4 < in_len -> matches inp ref (c_ip s) 3 ->
  exists v, match_step inp in_len out_len s ref = Some v /\ moved s v.
Proof.
  intros H Hr Ho Hip4 Hm. pose proof (cinv_rest _ _ _ _ _ _ H) as Hrest.
  destruct H as [Hok Ht Hout Hs Hop Hl Hsh Hip Hh]. unfold match_step. rewrite Hout.
  destruct (stop_run_spec gs h lits rest (c_op s) (c_lit s)) as (gs' & rest' & E1 & E2 & E3 & E4 & E5); [done|lia|lia|lia|].
  rewrite E1. cbn [mbind option_bind]. rewrite E2.
  destruct (Z.leb_spec out_len (zlen (segs_bytes gs') + 3 + 1)) as [|Hroom]; [by eexists|].
  destruct (match_length_spec inp ref (c_ip s)) as (len & Elen & Hlen3 & Hlen4 & Hm'); [lia|lia|done|].
  rewrite Elen. cbn [mbind option_bind].
  assert (Ew : (c_ip s - ref) -[64] 1 = c_ip s - ref - 1) by (apply wrap_small; unfold MAX_OFF in *; cint).
  rewrite Ew. destruct (put_ref_spec (segs_bytes gs') rest' (c_ip s - ref - 1) (len - 2)) as (rest2 & E6 & E7 & E8); [lia|lia|lia|].
  rewrite E6. cbn [mbind option_bind]. destruct rest2 as [|h2 rest2]; [zl; lia|].
  assert (Ht' : inp = (segs_text gs ++ lits) ++ todo) by (by rewrite <- app_assoc).
  assert (Hipl : c_ip s = zlen (segs_text gs ++ lits)) by (rewrite zlen_app; lia).
  pose proof (text_ref gs lits todo ref len Ht') as Htext. cbv zeta in Htext. rewrite <- Hipl in Htext.
  specialize (Htext ltac:(lia) ltac:(lia) ltac:(lia) Hm').
  set (gs2 := gs' ++ [Ref (c_ip s - ref - 1) (len - 2)]).
  assert (Htx : segs_text gs2 = take (Z.to_nat (c_ip s + len)) inp)
    by (unfold gs2; rewrite segs_text_snoc, E4; exact Htext).
  assert (Hzt : zlen (segs_text gs2) = c_ip s + len)
    by (rewrite Htx; unfold zlen in *; rewrite length_take; lia).
  assert (Hinv : forall ip hval htab, ip = c_ip s + len -> (forall i, - 2 ^ 62 <= htab i < 2 ^ 62) ->
    cgood (mkState ip (zlen (segs_bytes gs') + zlen (seg_bytes (Ref (c_ip s - ref - 1) (len - 2))) + 1) 0 hval
      (segs_bytes gs' ++ seg_bytes (Ref (c_ip s - ref - 1) (len - 2)) ++ h2 :: rest2) htab)).
  { intros ip hval htab -> Hb. exists gs2, h2, [], (drop (Z.to_nat (c_ip s + len)) inp), rest2.
    assert (Hb2 : segs_bytes gs2 = segs_bytes gs' ++ seg_bytes (Ref (c_ip s - ref - 1) (len - 2))) by apply segs_bytes_snoc.
    split; cbn [c_out c_op c_lit c_ip c_htab]; [|by rewrite Htx; symmetry; apply take_drop| | | |done|done|zl; lia|done].
    - apply ok_snoc; [done|]. rewrite E4. cbn. split; [lia|]. rewrite <- Hipl. lia.
    - rewrite Hb2. by rewrite <- app_assoc.
    - rewrite Hout in Hs. zl. lia.
    - rewrite Hb2. zl. lia. }
  replace (c_ip s + 1 + (len - 2 + 1)) with (c_ip s + len) by lia.
  destruct (Z.leb_spec (in_len - 2) (c_ip s + len)) as [Hend|Hmore].
  - eexists. split; [done|]. split; [by apply Hinv|cbn; lia].
  - destruct (FRST_ok (c_ip s + len - 2)) as [v1 ->]; [lia|lia|]. cbn [mbind option_bind].
    destruct (NEXT_ok v1 (c_ip s + len - 2)) as [v2 ->]; [lia|lia|]. cbn [mbind option_bind].
    destruct (NEXT_ok v2 (c_ip s + len - 2 + 1)) as [v3 ->]; [lia|lia|]. cbn [mbind option_bind].
    eexists. split; [done|]. split; [|cbn; lia]. apply Hinv; [lia|].
    apply put_bounded; [apply put_bounded; [done|lia]|lia].
Qed.

Lemma round_spec s : cgood s -> c_ip s < in_len - 2 ->
  exists v, round inp in_len out_len s = Some v /\ moved s v.
Proof.
  intros (gs & h & lits & todo & rest & H) Hip. pose proof (cinv_rest _ _ _ _ _ _ H) as Hrest.
  pose proof (cinv_todo _ _ _ _ _ _ H) as Htodo.
  assert (H0 : 0 <= c_ip s) by (rewrite (ci_ip _ _ _ _ _ _ H); pose proof (zlen_nonneg (segs_text gs)); pose proof (zlen_nonneg lits); lia).
  unfold round. destruct (NEXT_ok (c_hval s) (c_ip s)) as [v ->]; [lia|lia|]. cbn [mbind option_bind c_ip c_op c_lit c_out c_htab].
  destruct (found_spec inp (c_htab s (IDX v)) (c_ip s)) as (b & Eb & Hb); [lia|lia|apply H|].
  rewrite Eb. cbn [mbind option_bind].
  set (s1 := mkState (c_ip s) (c_op s) (c_lit s) v (c_out s) (put (c_htab s) (IDX v) (c_ip s))).
  assert (H1 : cinv gs h lits todo rest s1) by (destruct H; split; cbn; try done; apply put_bounded; [done|lia]).
  destruct b.
  - destruct (Hb eq_refl) as (Hr & Ho & Hi & Hm). by eapply (match_step_spec _ _ _ _ _ s1).
  - destruct (Z.leb_spec out_len (c_op s)) as [|Hroom]; [by eexists|].
    destruct todo as [|b todo]; [zl; lia|].
    destruct (lit_step_spec gs h lits b todo rest s1 H1) as (s2 & gs2 & h2 & lits2 & rest2 & E & H2 & Hi & _); [lia|].
    rewrite E. cbn [mbind option_bind]. eexists. split; [done|]. split; [by eexists _, _, _, _, _|]. rewrite Hi. cbn. lia.
Qed.

Lemma rounds_spec fuel : forall s, cgood s -> in_len - c_ip s < Z.of_nat fuel ->
  exists r, rounds inp in_len out_len fuel s = Some r /\
    match r with inl _ => True | inr s' => cgood s' /\ in_len - 2 <= c_ip s' end.
Proof.
  induction fuel as [|fuel IH]; intros s Hs Hf.
  { destruct Hs as (gs & h & lits & todo & rest & H). pose proof (cinv_todo _ _ _ _ _ _ H). pose proof (zlen_nonneg todo). lia. }
  cbn [rounds]. destruct (Z.ltb_spec (c_ip s) (in_len - 2)) as [Hip|Hip]; [|by eexists].
  destruct (round_spec s Hs Hip) as (v & E & Hv). rewrite E. cbn [mbind option_bind].
  destruct v as [out|s'|s']; [by eexists|destruct Hv as [Hv Hi]; apply IH; [done|lia]|by eexists].
Qed.

Lemma rest_literal_spec fuel : forall gs h lits todo rest s, cinv gs h lits todo rest s ->
  2 * zlen todo <= zlen rest -> zlen todo < Z.of_nat fuel ->
  exists s' gs' h' lits' rest', rest_literal inp in_len fuel s = Some s' /\ cinv gs' h' lits' [] rest' s'.
Proof.
  induction fuel as [|fuel IH]; intros gs h lits todo rest s H Hr Hf; [pose proof (zlen_nonneg todo); lia|].
  pose proof (cinv_todo _ _ _ _ _ _ H) as Htodo. cbn [rest_literal].
  destruct (Z.ltb_spec (c_ip s) in_len) as [Hip|Hip].
  - destruct todo as [|b todo]; [zl; lia|]. pose proof (zlen_nonneg todo). zl.
    destruct (lit_step_spec gs h lits b todo rest s H) as (s2 & gs2 & h2 & lits2 & rest2 & E & H2 & Hi & Hr2 & _); [lia|].
    rewrite E. cbn [mbind option_bind]. eapply IH; [exact H2|lia|lia].
  - destruct todo as [|b todo]; [by eexists s, _, _, _, _|]. zl. pose proof (zlen_nonneg todo). lia.
Qed.

Lemma lzf_compress_spec junk out : zlen out = out_len + 1 -> 1 <= out_len -> (forall i, - 2 ^ 62 <= junk i < 2 ^ 62) ->
  exists n out', lzf_compress inp in_len out_len junk out = Some (n, out') /\
    (n = 0 \/ exists gs rest, segs_ok gs /\ segs_text gs = inp /\ out' = segs_bytes gs ++ rest /\ n = zlen (segs_bytes gs) /\
       zlen out' = out_len + 1).
Proof.
  intros Hout H1 Hj. unfold lzf_compress. replace ((in_len =? 0) || (out_len =? 0)) with false
    by (symmetry; apply orb_false_iff; split; apply Z.eqb_neq; lia).
  destruct (FRST_ok 0) as [v ->]; [lia|lia|]. cbn [mbind option_bind].
  destruct out as [|h rest]; [zl; lia|].
  destruct (rounds_spec (S (Z.to_nat in_len)) (mkState 0 1 0 v (h :: rest) junk)) as (r & E & Hr); [|cbn; lia|].
  { exists [], h, [], inp, rest. split; try done. constructor. }
  rewrite E. cbn [mbind option_bind]. destruct r as [out|s]; [eexists _, _; split; [reflexivity|by left]|].
  destruct Hr as [(gs & h1 & lits & todo & rest1 & H) Hip].
  destruct (Z.ltb_spec out_len (c_op s + 3)) as [|Hroom]; [eexists _, _; split; [reflexivity|by left]|].
  pose proof (cinv_rest _ _ _ _ _ _ H) as Hrest. pose proof (cinv_todo _ _ _ _ _ _ H) as Htodo.
  destruct (rest_literal_spec (S (Z.to_nat in_len)) gs h1 lits todo rest1 s H) as (s2 & gs2 & h2 & lits2 & rest2 & E2 & H2); [lia|lia|].
  rewrite E2. cbn [mbind option_bind]. destruct H2 as [Hok Ht Ho Hs Hop Hl Hsh _ _]. rewrite Ho.
  destruct (stop_run_spec gs2 h2 lits2 rest2 (c_op s2) (c_lit s2)) as (gs3 & rest3 & E3 & E4 & E5 & E6 & E7); [done|lia|lia|lia|].
  rewrite E3. cbn [mbind option_bind]. rewrite E4. eexists _, _. split; [done|]. right. exists gs3, rest3.
  split; [done|]. split; [rewrite E6, Ht at 1; by rewrite !app_nil_r|]. split; [done|]. split; [done|].
  rewrite Ho in Hs. zl. lia.
Qed.
End Written.

(** ** The decompressor reads it back *)

Lemma repeated_length n off : forall d, zlen (repeated n off d) = zlen d + Z.of_nat n.
Proof.
  induction n as [|n IH]; intros d; [cbn [repeated]; lia|]. cbn [repeated]. rewrite IH, zlen_app_one. lia.
Qed.
Lemma seg_text_length d g : zlen d <= zlen (seg_text d g).
Proof.
  destruct g as [l|off len]; cbn [seg_text]; [rewrite zlen_app; pose proof (zlen_nonneg l); lia|].
  rewrite repeated_length. lia.
Qed.
Lemma segs_text_mono gs k : zlen (segs_text gs) <= zlen (segs_text (gs ++ k)).
Proof.
  induction k as [|g k IH] using rev_ind; [by rewrite app_nil_r|]. rewrite app_assoc, segs_text_snoc.
  pose proof (seg_text_length (segs_text (gs ++ k)) g). lia.
Qed.
Lemma segs_ok_last gs g : segs_ok (gs ++ [g]) -> segs_ok gs /\ seg_ok (segs_text gs) g.
Proof.
  intros H. inversion H as [E|gs' g' Hgs Hg E]; [by destruct gs|]. apply app_inj_tail in E as [-> ->]. done.
Qed.
Lemma segs_ok_prefix gs k : segs_ok (gs ++ k) -> segs_ok gs.
Proof.
  induction k as [|g k IH] using rev_ind; [by rewrite app_nil_r|]. rewrite app_assoc. intros [H _]%segs_ok_last. by apply IH.
Qed.

Lemma copy_back_spec n off : forall d rest, 0 <= off < zlen d -> Z.of_nat n <= zlen rest ->
  copy_back n (d ++ rest) (zlen d) (zlen d - off - 1) = Some (repeated n off d ++ drop n rest).
Proof.
  induction n as [|n IH]; intros d rest Ho Hr; [done|]. cbn [copy_back repeated].
  destruct rest as [|r rest]; [zl; lia|]. rewrite znth_app_l by lia.
  destruct (znth_Some d (zlen d - off - 1) ltac:(lia)) as [b ->]. cbn [mbind option_bind default from_option].
  rewrite zset_app_mid by done. cbn [mbind option_bind]. rewrite <- snoc_cons. cbn [drop].
  pose proof (IH (d ++ [b]) rest) as E. rewrite zlen_app_one in E.
  replace (zlen d + 1 - off - 1) with (zlen d - off - 1 + 1) in E by lia. apply E; [lia|]. zl. lia.
Qed.

Lemma zlen_drop {A} n (l : list A) : Z.of_nat n <= zlen l -> zlen (drop n l) = zlen l - Z.of_nat n.
Proof. unfold zlen. rewrite length_drop. lia. Qed.

Lemma znth_third {A} (a k : list A) x y z : znth (a ++ x :: y :: z :: k) (zlen a + 1 + 1) = Some z.
Proof.
  replace (a ++ x :: y :: z :: k) with ((a ++ [x; y]) ++ z :: k) by (by rewrite <- app_assoc).
  apply znth_app_mid. zl. lia.
Qed.

Section Back.
Context (inp : list Z) (out_len : Z).
Notation in_len := (zlen inp).

Lemma d_round_spec gs g tl rest : segs_ok (gs ++ [g]) ->
  inp = segs_bytes gs ++ seg_bytes g ++ tl -> zlen (segs_text (gs ++ [g])) <= out_len ->
  zlen (segs_text gs ++ rest) = out_len ->
  exists rest', d_round inp in_len out_len (mkD (zlen (segs_bytes gs)) (zlen (segs_text gs)) (segs_text gs ++ rest)) =
    Some (Some (mkD (zlen (segs_bytes (gs ++ [g]))) (zlen (segs_text (gs ++ [g]))) (segs_text (gs ++ [g]) ++ rest'))) /\
    zlen (segs_text (gs ++ [g]) ++ rest') = out_len.
Proof.
  intros [Hok Hg]%segs_ok_last Hi Ht Hs. rewrite segs_bytes_snoc, segs_text_snoc in *.
  pose proof (zlen_nonneg tl) as Htl. unfold d_round. cbn [d_ip d_op d_out].
  destruct g as [l|off len]; cbn [seg_bytes seg_text seg_ok] in *.
  - change (Z.shiftl 1 5) with 32. change MAX_LIT with 32 in Hg.
    assert (E0 : znth inp (zlen (segs_bytes gs)) = Some (zlen l - 1)) by (rewrite Hi; by apply znth_app_mid).
    rewrite E0. cbn [mbind option_bind]. destruct (Z.ltb_spec (zlen l - 1) 32) as [_|]; [|lia].
    assert (Hlen : in_len = zlen (segs_bytes gs) + 1 + zlen l + zlen tl) by (rewrite Hi; zl; lia).
    zl. destruct (Z.ltb_spec out_len (zlen (segs_text gs) + (zlen l - 1 + 1))) as [|_]; [lia|].
    destruct (Z.ltb_spec in_len (zlen (segs_bytes gs) + 1 + (zlen l - 1 + 1))) as [|_]; [lia|].
    assert (E1 : mem_read inp (zlen (segs_bytes gs) + 1) (zlen l - 1 + 1) = Some l).
    { rewrite Hi. replace (segs_bytes gs ++ (zlen l - 1 :: l) ++ tl) with ((segs_bytes gs ++ [zlen l - 1]) ++ l ++ tl)
        by (by rewrite <- app_assoc). apply mem_read_app; [zl; lia|lia]. }
    rewrite E1. cbn [mbind option_bind]. exists (drop (length l) rest).
    assert (E2 : mem_write (segs_text gs ++ rest) (zlen (segs_text gs)) l = Some (segs_text gs ++ l ++ drop (length l) rest)).
    { rewrite <- (take_drop (length l) rest) at 1. apply mem_write_app; [done|]. unfold zlen in *. rewrite length_take. lia. }
    rewrite E2. cbn [mbind option_bind]. split; [do 2 f_equal; f_equal; [lia|lia|by rewrite <- app_assoc]|].
    zl. rewrite zlen_drop; unfold zlen in *; lia.
  - destruct Hg as (Ho & Hod & Hl). change MAX_OFF with 8192 in Ho. change (Z.shiftl 1 5) with 32.
    assert (Hd : 0 <= off / 256 < 32) by (split; [apply Z.div_pos; lia|apply Z.div_lt_upper_bound; lia]).
    pose proof (Z.div_mod off 256 ltac:(lia)) as Hdm. rewrite repeated_length in Ht. zl.
    assert (Hctrl : forall k, 0 <= k -> (off / 256 + 32 * k) >> 5 = k /\ (off / 256 + 32 * k) .& 31 = off / 256).
    { intros k Hk. change 31 with (Z.ones 5). rewrite Z.shiftr_div_pow2, Z.land_ones by lia. change (2 ^ 5) with 32.
      replace (off / 256 + 32 * k) with (off / 256 + k * 32) by lia. rewrite Z.div_add, Z_mod_plus_full by lia.
      rewrite Z.div_small, Z.mod_small by lia. lia. }
    assert (Hcopy : copy_back (Z.to_nat (len + 2)) (segs_text gs ++ rest) (zlen (segs_text gs)) (zlen (segs_text gs) - off - 1) =
      Some (repeated (Z.to_nat (len + 2)) off (segs_text gs) ++ drop (Z.to_nat (len + 2)) rest))
      by (apply copy_back_spec; lia).
    assert (Hend : zlen (repeated (Z.to_nat (len + 2)) off (segs_text gs) ++ drop (Z.to_nat (len + 2)) rest) = out_len).
    { rewrite zlen_app, repeated_length, zlen_drop; lia. }
    exists (drop (Z.to_nat (len + 2)) rest). split; [|done].
    destruct (Z.ltb_spec len 7) as [H7|H7]; cbn [app] in Hi.
    + destruct (Hctrl len ltac:(lia)) as [Hc1 Hc2].
      assert (E0 : znth inp (zlen (segs_bytes gs)) = Some (off / 256 + 32 * len)) by (rewrite Hi; by apply znth_app_mid).
      assert (E1 : znth inp (zlen (segs_bytes gs) + 1) = Some (off mod 256)).
      { rewrite Hi, <- snoc_cons. apply znth_app_mid. zl. lia. }
      assert (Hlen : in_len = zlen (segs_bytes gs) + 2 + zlen tl) by (rewrite Hi; zl; lia).
      rewrite E0. cbn [mbind option_bind]. destruct (Z.ltb_spec (off / 256 + 32 * len) 32) as [|_]; [lia|].
      rewrite Hc1, Hc2. destruct (Z.leb_spec in_len (zlen (segs_bytes gs) + 1)) as [|_]; [lia|].
      replace (len =? 7) with false by (symmetry; apply Z.eqb_neq; lia). cbn [mbind option_bind]. rewrite E1.
      cbn [mbind option_bind]. destruct (Z.ltb_spec out_len (zlen (segs_text gs) + len + 2)) as [|_]; [lia|].
      rewrite Z.shiftl_mul_pow2 by lia. change (2 ^ 8) with 256.
      replace (zlen (segs_text gs) - off / 256 * 256 - 1 - off mod 256) with (zlen (segs_text gs) - off - 1) by lia.
      destruct (Z.ltb_spec (zlen (segs_text gs) - off - 1) 0) as [|_]; [lia|]. rewrite Hcopy. cbn [mbind option_bind].
      rewrite repeated_length. do 3 f_equal; zl; lia.
    + destruct (Hctrl 7 ltac:(lia)) as [Hc1 Hc2]. change (32 * 7) with 224 in Hc1, Hc2.
      assert (E0 : znth inp (zlen (segs_bytes gs)) = Some (off / 256 + 224)) by (rewrite Hi; by apply znth_app_mid).
      assert (E1 : znth inp (zlen (segs_bytes gs) + 1) = Some (len - 7)).
      { rewrite Hi, <- snoc_cons. apply znth_app_mid. zl. lia. }
      assert (E2 : znth inp (zlen (segs_bytes gs) + 1 + 1) = Some (off mod 256)).
      { rewrite Hi. apply znth_third. }
      assert (Hlen : in_len = zlen (segs_bytes gs) + 3 + zlen tl) by (rewrite Hi; zl; lia).
      rewrite E0. cbn [mbind option_bind]. destruct (Z.ltb_spec (off / 256 + 224) 32) as [|_]; [lia|].
      rewrite Hc1, Hc2. destruct (Z.leb_spec in_len (zlen (segs_bytes gs) + 1)) as [|_]; [lia|].
      rewrite (Z.eqb_refl 7). rewrite E1. cbn [mbind option_bind].
      destruct (Z.leb_spec in_len (zlen (segs_bytes gs) + 1 + 1)) as [|_]; [lia|]. cbn [mbind option_bind]. rewrite E2.
      cbn [mbind option_bind]. replace (7 + (len - 7)) with len by lia.
      destruct (Z.ltb_spec out_len (zlen (segs_text gs) + len + 2)) as [|_]; [lia|].
      rewrite Z.shiftl_mul_pow2 by lia. change (2 ^ 8) with 256.
      replace (zlen (segs_text gs) - off / 256 * 256 - 1 - off mod 256) with (zlen (segs_text gs) - off - 1) by lia.
      destruct (Z.ltb_spec (zlen (segs_text gs) - off - 1) 0) as [|_]; [lia|]. rewrite Hcopy. cbn [mbind option_bind].
      rewrite repeated_length. do 3 f_equal; zl; lia.
Qed.

Lemma segs_bytes_app gs k : segs_bytes (gs ++ k) = segs_bytes gs ++ segs_bytes k.
Proof. unfold segs_bytes. by rewrite fmap_app, concat_app. Qed.
Lemma seg_bytes_length g : 1 <= zlen (seg_bytes g).
Proof.
  destruct g as [l|off len]; cbn [seg_bytes]; [zl; pose proof (zlen_nonneg l); lia|]. destruct (len <? 7); zl; lia.
Qed.

Lemma d_rounds_spec gs2 : forall gs1 rest fuel, segs_ok (gs1 ++ gs2) -> gs2 <> [] -> inp = segs_bytes (gs1 ++ gs2) ->
  zlen (segs_text (gs1 ++ gs2)) <= out_len -> zlen (segs_text gs1 ++ rest) = out_len -> (length gs2 <= fuel)%nat ->
  exists rest', d_rounds inp in_len out_len fuel (mkD (zlen (segs_bytes gs1)) (zlen (segs_text gs1)) (segs_text gs1 ++ rest)) =
    Some (zlen (segs_text (gs1 ++ gs2)), segs_text (gs1 ++ gs2) ++ rest') /\
    zlen (segs_text (gs1 ++ gs2) ++ rest') = out_len.
Proof.
  induction gs2 as [|g gs2 IH]; intros gs1 rest fuel Hok Hne Hi Ht Hs Hf; [done|].
  destruct fuel as [|fuel]; [cbn in Hf; lia|]. cbn [d_rounds].
  assert (Ea : gs1 ++ g :: gs2 = (gs1 ++ [g]) ++ gs2) by (by rewrite <- app_assoc). rewrite Ea in *.
  destruct (d_round_spec gs1 g (segs_bytes gs2) rest) as (rest' & E & Hs'); [by eapply segs_ok_prefix| | |done|].
  { by rewrite Hi, segs_bytes_app, segs_bytes_snoc, <- app_assoc. }
  { pose proof (segs_text_mono (gs1 ++ [g]) gs2). lia. }
  rewrite E. cbn [mbind option_bind d_ip d_op d_out].
  assert (Hlen : in_len = zlen (segs_bytes (gs1 ++ [g])) + zlen (segs_bytes gs2)) by (by rewrite Hi, segs_bytes_app, zlen_app).
  destruct gs2 as [|g2 gs2].
  - rewrite app_nil_r. replace (zlen (segs_bytes []) ) with 0 in Hlen by done.
    destruct (Z.ltb_spec (zlen (segs_bytes (gs1 ++ [g]))) in_len); [lia|]. by exists rest'.
  - assert (Hpos : 1 <= zlen (segs_bytes (g2 :: gs2))).
    { unfold segs_bytes. cbn. pose proof (seg_bytes_length g2). pose proof (zlen_nonneg (concat (seg_bytes <$> gs2))). zl. lia. }
    destruct (Z.ltb_spec (zlen (segs_bytes (gs1 ++ [g]))) in_len); [|lia].
    apply IH; [done|done|done|done|done|cbn in *; lia].
Qed.

(** ** Arbitrary input *)

Lemma copy_back_safe n : forall out op ref, 0 <= ref < op -> op + Z.of_nat n <= zlen out ->
  exists out', copy_back n out op ref = Some out' /\ zlen out' = zlen out.
Proof.
  induction n as [|n IH]; intros out op ref Hr Ho; [by eexists|]. cbn [copy_back].
  destruct (znth_Some out ref ltac:(lia)) as [b ->]. cbn [mbind option_bind].
  destruct (zset out op b) as [out1|] eqn:E; [|unfold zset in E; case_decide; [done|lia]].
  cbn [mbind option_bind]. apply zset_length in E as El.
  destruct (IH out1 (op + 1) (ref + 1)) as (out' & E' & El'); [lia|unfold zlen in *; lia|].
  exists out'. split; [done|]. unfold zlen in *. lia.
Qed.

Lemma d_round_safe s : bytes_ok inp -> 0 <= d_ip s < in_len -> 0 <= d_op s <= out_len -> zlen (d_out s) = out_len ->
  exists r, d_round inp in_len out_len s = Some r /\ match r with
    | None => True
    | Some s' => d_ip s < d_ip s' <= in_len /\ 0 <= d_op s' <= out_len /\ zlen (d_out s') = out_len
    end.
Proof.
  intros Hb Hip Hop Hs. unfold d_round. destruct (znth_Some inp (d_ip s) Hip) as [ctrl Ec]. rewrite Ec. cbn [mbind option_bind].
  assert (Hbyte : forall i b, znth inp i = Some b -> 0 <= b < 256) by (intros i b Hi; by eapply (Forall_lookup_Z byte_ok)).
  apply Hbyte in Ec as Hc. change (Z.shiftl 1 5) with 32. destruct (Z.ltb_spec ctrl 32) as [H32|H32].
  - destruct (Z.ltb_spec out_len (d_op s + (ctrl + 1))) as [|H1]; [by eexists|].
    destruct (Z.ltb_spec in_len (d_ip s + 1 + (ctrl + 1))) as [|H2]; [by eexists|].
    unfold mem_read, mem_write. rewrite decide_True by lia. cbn [mbind option_bind]. rewrite decide_True.
    + cbn [mbind option_bind]. eexists. split; [done|]. cbn. split; [lia|]. split; [lia|].
      unfold zlen in *. rewrite !length_app, length_take, length_take, !length_drop. lia.
    + unfold zlen in *. rewrite length_take, length_drop. lia.
  - destruct (Z.leb_spec in_len (d_ip s + 1)) as [|H1]; [by eexists|].
    assert (Hl : 1 <= ctrl >> 5 <= 7).
    { rewrite Z.shiftr_div_pow2 by lia. change (2 ^ 5) with 32. split; [apply Z.div_le_lower_bound; lia|].
      assert (ctrl / 32 < 8) by (apply Z.div_lt_upper_bound; lia). lia. }
    assert (Hlow : 0 <= ctrl .& 31) by (apply Z.land_nonneg; lia).
    assert (Htail : forall len ip, 1 <= len -> d_ip s < ip < in_len -> exists r,
      (b ← znth inp ip;
       if out_len <? d_op s + len + 2 then Some None
       else if d_op s - Z.shiftl (ctrl .& 0x1f) 8 - 1 - b <? 0 then Some None
       else out ← copy_back (Z.to_nat (len + 2)) (d_out s) (d_op s) (d_op s - Z.shiftl (ctrl .& 0x1f) 8 - 1 - b);
            Some (Some (mkD (ip + 1) (d_op s + len + 2) out))) = Some r /\ match r with
        | None => True
        | Some s' => d_ip s < d_ip s' <= in_len /\ 0 <= d_op s' <= out_len /\ zlen (d_out s') = out_len
        end).
    { intros len ip Hlen Hi. destruct (znth_Some inp ip ltac:(lia)) as [b Eb]. rewrite Eb. cbn [mbind option_bind].
      apply Hbyte in Eb. destruct (Z.ltb_spec out_len (d_op s + len + 2)) as [|H2]; [by eexists|].
      destruct (Z.ltb_spec (d_op s - Z.shiftl (ctrl .& 31) 8 - 1 - b) 0) as [|H3]; [by eexists|].
      rewrite Z.shiftl_mul_pow2 in * by lia.
      destruct (copy_back_safe (Z.to_nat (len + 2)) (d_out s) (d_op s) (d_op s - (ctrl .& 31) * 2 ^ 8 - 1 - b)) as (out' & -> & El); [lia|lia|].
      cbn [mbind option_bind]. eexists. split; [done|]. cbn. lia. }
    destruct (ctrl >> 5 =? 7).
    + destruct (znth_Some inp (d_ip s + 1) ltac:(lia)) as [b Eb]. rewrite Eb. cbn [mbind option_bind].
      apply Hbyte in Eb. destruct (Z.leb_spec in_len (d_ip s + 1 + 1)) as [|H2]; [by eexists|]. apply Htail; lia.
    + cbn [mbind option_bind]. apply Htail; lia.
Qed.

Lemma d_rounds_safe fuel : forall s, bytes_ok inp -> 0 <= d_ip s < in_len -> 0 <= d_op s <= out_len ->
  zlen (d_out s) = out_len -> in_len - d_ip s <= Z.of_nat fuel ->
  exists n out', d_rounds inp in_len out_len fuel s = Some (n, out') /\ 0 <= n <= out_len.
Proof.
  induction fuel as [|fuel IH]; intros s Hb Hip Hop Hs Hf; [lia|]. cbn [d_rounds].
  destruct (d_round_safe s Hb Hip Hop Hs) as (r & -> & Hr). cbn [mbind option_bind].
  destruct r as [s'|]; [|eexists _, _; split; [done|lia]]. destruct Hr as (H1 & H2 & H3).
  destruct (Z.ltb_spec (d_ip s') in_len); [apply IH; [done|lia|lia|done|lia]|]. by eexists _, _.
Qed.
End Back.

(** Bytes are written for bytes. *)
Lemma repeated_app n off : forall d, exists e, repeated n off d = d ++ e.
Proof.
  induction n as [|n IH]; intros d; [exists []; by rewrite app_nil_r|]. cbn [repeated].
  destruct (IH (d ++ [default 0 (znth d (zlen d - off - 1))])) as [e ->]. eexists. by rewrite <- app_assoc.
Qed.
Lemma segs_bytes_ok gs : segs_ok gs -> bytes_ok (segs_text gs) -> bytes_ok (segs_bytes gs).
Proof.
  induction 1 as [|gs g _ IH Hg]; [constructor|]. rewrite segs_text_snoc, segs_bytes_snoc. intros Ht. apply Forall_app.
  destruct g as [l|off len]; cbn [seg_text seg_bytes seg_ok] in *.
  - apply Forall_app in Ht as [H1 H2]. split; [by apply IH|]. constructor; [|done]. change MAX_LIT with 32 in Hg. unfold byte_ok. lia.
  - destruct (repeated_app (Z.to_nat (len + 2)) off (segs_text gs)) as [e E]. rewrite E in Ht. apply Forall_app in Ht as [H1 _].
    split; [by apply IH|]. change MAX_OFF with 8192 in Hg. pose proof (Z.mod_pos_bound off 256 ltac:(lia)).
    assert (0 <= off / 256 < 32) by (split; [apply Z.div_pos; lia|apply Z.div_lt_upper_bound; lia]).
    destruct (Z.ltb_spec len 7); repeat constructor; unfold byte_ok; lia.
Qed.

(** What was compressed comes back. *)
Lemma lzf_back (inp : list Z) (out_len : Z) (junk : Z -> Z) (out : list Z) :
  2 <= zlen inp < 2 ^ 32 -> 1 <= out_len -> zlen out = out_len + 1 -> (forall i, - 2 ^ 62 <= junk i < 2 ^ 62) ->
  exists n out', lzf_compress inp (zlen inp) out_len junk out = Some (n, out') /\
    (n = 0 \/ 1 <= n <= out_len + 1 /\ n <= zlen out' /\ (bytes_ok inp -> bytes_ok (take (Z.to_nat n) out')) /\
      forall back, zlen back = zlen inp -> lzf_decompress (take (Z.to_nat n) out') n (zlen inp) back = Some (zlen inp, inp)).
Proof.
  intros Hin Ho Hout Hj.
  destruct (lzf_compress_spec inp out_len Hin junk out Hout Ho Hj) as (n & out' & E & Hn).
  exists n, out'. split; [done|]. destruct Hn as [->|(gs & rest & Hok & Ht & -> & -> & Hz)]; [by left|]. right.
  assert (Hne : gs <> []) by (intros ->; rewrite <- Ht in Hin; change (zlen (segs_text [])) with 0 in Hin; lia).
  assert (Hcount : Z.of_nat (length gs) <= zlen (segs_bytes gs)).
  { clear. induction gs as [|g gs IH]; [done|]. change (g :: gs) with ([g] ++ gs). rewrite segs_bytes_app, zlen_app.
    change (segs_bytes [g]) with (seg_bytes g ++ []). pose proof (seg_bytes_length g). rewrite app_nil_r, length_app. cbn [length]. lia. }
  split; [|split; [zl; pose proof (zlen_nonneg rest); lia|]].
  { assert (1 <= Z.of_nat (length gs)) by (destruct gs; [done|cbn [length]; lia]). zl. pose proof (zlen_nonneg rest). lia. }
  split; [intros Hb; rewrite zlen_to_nat, take_app_length; apply segs_bytes_ok; [done|by rewrite Ht]|].
  intros back Hb. rewrite zlen_to_nat, take_app_length. unfold lzf_decompress.
  destruct (d_rounds_spec (segs_bytes gs) (zlen inp) gs [] back (Z.to_nat (zlen (segs_bytes gs)))) as (rest' & Er & Hr);
    [done|done|done|change ([] ++ gs) with gs; rewrite Ht; lia|done|lia|].
  change ([] ++ gs) with gs in Er, Hr. rewrite Ht in Er, Hr. rewrite zlen_app in Hr.
  destruct rest' as [|b rest']; [|zl; pose proof (zlen_nonneg rest'); lia]. rewrite app_nil_r in Er. exact Er.
Qed.
Lemma lzf_decompress_safe bs back : bytes_ok bs -> bs <> [] ->
  exists n out', lzf_decompress bs (zlen bs) (zlen back) back = Some (n, out') /\ 0 <= n <= zlen back.
Proof.
  intros Hb Hne. apply d_rounds_safe; [done| |cbn; pose proof (zlen_nonneg back); lia|done|cbn; lia].
  cbn. destruct bs as [|b bs]; [done|]. zl. pose proof (zlen_nonneg bs). lia.
Qed.

(** The end of a run of literals may fall behind [out_len]: after the thirty-second
    literal a match closes an empty run in the byte that follows the block. *)
Lemma lzf_compress_past_end :
  let inp := bytes_of "0abc123456789defghijklmnopqrstuvabcabcabc" in
  lzf_compress inp (zlen inp) 33 (fun _ => 0) (replicate 33 0) = None /\
  fst <$> lzf_compress inp (zlen inp) 33 (fun _ => 0) (replicate 34 0) = Some 0.
Proof. by vm_compute. Qed.
(** The first two bytes are read before the length is looked at. *)
Lemma lzf_compress_one_byte (b out_len : Z) (junk : Z -> Z) (out : list Z) :
  1 <= out_len -> lzf_compress [b] 1 out_len junk out = None.
Proof. intros H. unfold lzf_compress. cbn. destruct (Z.eqb_spec out_len 0); [lia|done]. Qed.

(** C16: the compressor, whatever its uninitialised table holds, reads the input and
    writes the output within their blocks (the output one byte longer than
    [out_len]), and either gives up with 0 or writes bytes that the decompressor
    turns back into exactly the input; and the decompressor, given arbitrary bytes,
    always terminates without leaving either block. *)
Theorem lzf_roundtrip (inp : list Z) (out_len : Z) (junk : Z -> Z) (out : list Z) :
  2 <= zlen inp < 2 ^ 32 -> 1 <= out_len -> zlen out = out_len + 1 -> (forall i, - 2 ^ 62 <= junk i < 2 ^ 62) ->
  (exists n out', lzf_compress inp (zlen inp) out_len junk out = Some (n, out') /\
     (n = 0 \/ forall back, zlen back = zlen inp ->
        lzf_decompress (take (Z.to_nat n) out') n (zlen inp) back = Some (zlen inp, inp))) /\
  (forall bs back, bytes_ok bs -> bs <> [] ->
     exists n out', lzf_decompress bs (zlen bs) (zlen back) back = Some (n, out') /\ 0 <= n <= zlen back).
Proof.
  intros Hin Ho Hout Hj. split; [|apply lzf_decompress_safe].
  destruct (lzf_back inp out_len junk out Hin Ho Hout Hj) as (n & out' & E & Hn). exists n, out'. split; [done|].
  destruct Hn as [->|(_ & _ & _ & Hn)]; [by left|by right].
Qed.

(** A text of 39 bytes, and a table that suggests a position that does not match. *)
Definition a_text : list Z := bytes_of "abcabcabcabcabcabcabcabcabcabcabcabcxyz".
Lemma lzf_roundtrip_witness : exists n out',
  lzf_compress a_text 39 30 (fun _ => 5) (replicate 31 0) = Some (n, out') /\ n = 12 /\
  lzf_decompress (take (Z.to_nat n) out') n 39 (replicate 39 0) = Some (39, a_text).
Proof.
  destruct (lzf_roundtrip a_text 30 (fun _ => 5) (replicate 31 0)) as [(n & out' & E & Hn) _];
    [by_decide|lia|done|intros i; lia|].
  exists n, out'. split; [exact E|]. assert (n = 12) as ->.
  { change 39 with (zlen a_text) in E. vm_compute in E. by injection E as <- _. }
  split; [done|]. destruct Hn as [Hn|Hn]; [discriminate Hn|]. by apply (Hn (replicate 39 0)).
Defined.
