(* ===== verification/Sds.v ===== *)
(** Dynamic strings (sds.c): the header with its [len] and [free] fields, the
    operations that resize, overwrite, trim and compare, number and argument
    formatting, splitting and joining, and the quoted notation read by
    [sdssplitargs] and written by [sdscatrepr].

    A string value is the header plus the bytes of its allocation after the
    header.  A [const char *] argument is the list of the bytes that may be
    read from it; a C string is such a list with a zero in it.  Memory that
    [zmalloc] and [zrealloc] leave uninitialised holds what [junk] says. *)
From Stdlib Require Import ZArith Lia.
From stdpp Require Import sets list numbers option.
From S2P Require Import Prelude Util Glob.
Local Open Scope c_scope.

Definition SDS_MAX_PREALLOC : Z := 1024 * 1024.
Definition SDS_LLSTR_SIZE : Z := 21.

(** [struct sdshdr]. *)
Record sds := mkSds { sds_len : Z; sds_free : Z; sds_buf : list Z }.

Definition sizeof_sdshdr : Z := 8.

(** ** The C string functions the code calls *)

Fixpoint strlen (s : list Z) : option Z :=
  match s with
  | [] => None
  | c :: s => if c =? 0 then Some 0 else n ← strlen s; Some (1 + n)
  end.

(** [strchr(cset, c) != NULL]; the terminator is found too. *)
Fixpoint strchr (cset : list Z) (c : Z) : option bool :=
  match cset with
  | [] => None
  | x :: cset =>
      if x =? c then Some true
      else if x =? 0 then Some false
      else strchr cset c
  end.

(** The sign of [memcmp] on two blocks of one length. *)
Fixpoint memcmp (a b : list Z) : Z :=
  match a, b with
  | x :: a, y :: b =>
      if x <? y then -1 else if y <? x then 1 else memcmp a b
  | _, _ => 0
  end.

Definition toupper (c : Z) : Z :=
  if (97 <=? c) && (c <=? 122) then c - 32 else c.
Definition isprint (c : Z) : bool := (32 <=? c) && (c <=? 126).
Definition isspace (c : Z) : bool := (c =? 32) || ((9 <=? c) && (c <=? 13)).

(** A digit of [printf]'s lower-case hexadecimal notation. *)
Definition hexdigit (n : Z) : Z := if n <? 10 then 48 + n else 87 + n.

(** The short-circuit conjunction of two tests that read memory. *)
Definition andthen (a b : option bool) : option bool :=
  x ← a; if (x : bool) then b else Some false.

(** The sizes for which no header field overflows. *)
Definition fits (n : Z) : Prop := 0 <= n /\ n + SDS_MAX_PREALLOC < 2 ^ 32.

(** The facts about lengths that the arithmetic of this file needs. *)
Ltac lens :=
  repeat match goal with
  | |- context [zlen ?l] =>
      lazymatch goal with
      | _ : 0 <= zlen l |- _ => fail
      | |- _ => pose proof (zlen_nonneg l)
      end
  | _ : context [zlen ?l] |- _ =>
      lazymatch goal with
      | _ : 0 <= zlen l |- _ => fail
      | |- _ => pose proof (zlen_nonneg l)
      end
  end; unfold fits, SDS_MAX_PREALLOC in *; cint.

Section Alloc.
Context (junk : nat -> Z).

(** ** Creation *)

Definition sdsnewlen (init : option (list Z)) (initlen : Z) : option sds :=
  let size := (sizeof_sdshdr +[64] initlen) +[64] 1 in
  let buf := match init with
             | Some _ => realloc junk [] (size - sizeof_sdshdr)
             | None => replicate (Z.to_nat (size - sizeof_sdshdr)) 0
             end in
  buf ← match init with
        | Some t =>
            if initlen =? 0 then Some buf
            else bs ← mem_read t 0 initlen; mem_write buf 0 bs
        | None => Some buf
        end;
  buf ← zset buf initlen 0;
  Some (mkSds (u32 initlen) 0 buf).

Definition sdsempty : option sds := sdsnewlen (Some [0]) 0.

Definition sdsnew (init : option (list Z)) : option sds :=
  initlen ← match init with None => Some 0 | Some t => strlen t end;
  sdsnewlen init initlen.

Definition sdsdup (s : sds) : option sds :=
  sdsnewlen (Some (sds_buf s)) (sds_len s).

(** ** Length and room *)

Definition sdsupdatelen (s : sds) : option sds :=
  n ← strlen (sds_buf s);
  let reallen := s32 n in
  Some (mkSds (u32 reallen)
          (sds_free s +[32] (sds_len s -[32] u32 reallen)) (sds_buf s)).

Definition sdsclear (s : sds) : option sds :=
  buf ← zset (sds_buf s) 0 0;
  Some (mkSds 0 (sds_free s +[32] sds_len s) buf).

Definition sdsMakeRoomFor (s : sds) (addlen : Z) : sds :=
  if addlen <=? sds_free s then s
  else
    let len := sds_len s in
    let newlen := len +[64] addlen in
    let newlen := if newlen <? SDS_MAX_PREALLOC then newlen *[64] 2
                  else newlen +[64] SDS_MAX_PREALLOC in
    let size := (sizeof_sdshdr +[64] newlen) +[64] 1 in
    mkSds len (newlen -[32] len)
      (realloc junk (sds_buf s) (size - sizeof_sdshdr)).

Definition sdsRemoveFreeSpace (s : sds) : sds :=
  let size := (sizeof_sdshdr +[64] sds_len s) +[64] 1 in
  mkSds (sds_len s) 0 (realloc junk (sds_buf s) (size - sizeof_sdshdr)).

Definition sdsAllocSize (s : sds) : Z :=
  ((sizeof_sdshdr +[64] sds_len s) +[64] sds_free s) +[64] 1.

(** The two [assert]s fail with [None]. *)
Definition sdsIncrLen (s : sds) (incr : Z) : option sds :=
  if (if 0 <=? incr then u32 incr <=? sds_free s
      else u32 (- incr) <=? sds_len s) then
    let len := sds_len s +[32] incr in
    buf ← zset (sds_buf s) len 0;
    Some (mkSds len (sds_free s -[32] incr) buf)
  else None.

Definition sdsgrowzero (s : sds) (len : Z) : option sds :=
  let curlen := sds_len s in
  if len <=? curlen then Some s
  else
    let s := sdsMakeRoomFor s (len - curlen) in
    buf ← mem_write (sds_buf s) curlen
            (replicate (Z.to_nat (len - curlen + 1)) 0);
    let totlen := sds_len s +[32] sds_free s in
    Some (mkSds (u32 len) (totlen -[32] u32 len) buf).

(** ** Appending and overwriting *)

Definition sdscatlen (s : sds) (t : list Z) (len : Z) : option sds :=
  let curlen := sds_len s in
  let s := sdsMakeRoomFor s len in
  bs ← mem_read t 0 len;
  buf ← mem_write (sds_buf s) curlen bs;
  buf ← zset buf (curlen + len) 0;
  Some (mkSds (curlen +[32] len) (sds_free s -[32] len) buf).

Definition sdscat (s : sds) (t : list Z) : option sds :=
  n ← strlen t; sdscatlen s t n.

Definition sdscatsds (s t : sds) : option sds :=
  sdscatlen s (sds_buf t) (sds_len t).

Definition sdscpylen (s : sds) (t : list Z) (len : Z) : option sds :=
  let totlen := sds_free s +[32] sds_len s in
  let '(s, totlen) :=
    if totlen <? len then
      let s := sdsMakeRoomFor s (len -[64] sds_len s) in
      (s, sds_free s +[32] sds_len s)
    else (s, totlen) in
  bs ← mem_read t 0 len;
  buf ← mem_write (sds_buf s) 0 bs;
  buf ← zset buf len 0;
  Some (mkSds (u32 len) (totlen -[32] len) buf).

Definition sdscpy (s : sds) (t : list Z) : option sds :=
  n ← strlen t; sdscpylen s t n.

(** ** Trimming, slicing, mapping *)

(** [while(sp <= end && strchr(cset, *sp)) sp++]. *)
Fixpoint trim_left (fuel : nat) (buf cset : list Z) (sp ep : Z) : option Z :=
  match fuel with
  | O => None
  | S fuel =>
      b ← (if sp <=? ep then c ← znth buf sp; strchr cset c else Some false);
      if (b : bool) then trim_left fuel buf cset (sp + 1) ep else Some sp
  end.

(** [while(ep > start && strchr(cset, *ep)) ep--], with [start] at 0. *)
Fixpoint trim_right (fuel : nat) (buf cset : list Z) (ep : Z) : option Z :=
  match fuel with
  | O => None
  | S fuel =>
      b ← (if 0 <? ep then c ← znth buf ep; strchr cset c else Some false);
      if (b : bool) then trim_right fuel buf cset (ep - 1) else Some ep
  end.

Definition sdstrim (s : sds) (cset : list Z) : option sds :=
  let ep := sds_len s - 1 in
  let fuel := S (Z.to_nat (sds_len s)) in
  sp ← trim_left fuel (sds_buf s) cset 0 ep;
  ep ← trim_right fuel (sds_buf s) cset ep;
  let len := if ep <? sp then 0 else ep - sp + 1 in
  buf ← (if sp =? 0 then Some (sds_buf s) else memmove (sds_buf s) 0 sp len);
  buf ← zset buf len 0;
  Some (mkSds (u32 len) (sds_free s +[32] (sds_len s -[64] len)) buf).

(** A signed [int] result that does not fit is undefined. *)
Definition int_ok (x : Z) : option Z := if decide (in_s 32 x) then Some x else None.

(** [(start > end) ? 0 : (end-start)+1]. *)
Definition range_len (start last : Z) : option Z :=
  if last <? start then Some 0
  else d ← int_ok (last - start); d ← int_ok (d + 1); Some (u64 d).

Definition sdsrange (s : sds) (start last : Z) : option sds :=
  let len := sds_len s in
  if len =? 0 then Some s
  else
    let start := if start <? 0 then
        let start := s32 (len +[64] start) in
        if start <? 0 then 0 else start else start in
    let last := if last <? 0 then
        let last := s32 (len +[64] last) in
        if last <? 0 then 0 else last else last in
    newlen ← range_len start last;
    '(start, newlen) ←
      (if negb (newlen =? 0) then
         if s32 len <=? start then Some (start, 0)
         else if s32 len <=? last then
           let last := s32 (len - 1) in
           newlen ← range_len start last; Some (start, newlen)
         else Some (start, newlen)
       else Some (0, newlen));
    buf ← (if negb (start =? 0) && negb (newlen =? 0)
           then memmove (sds_buf s) 0 start newlen else Some (sds_buf s));
    buf ← zset buf newlen 0;
    Some (mkSds (u32 newlen) (sds_free s +[32] (sds_len s -[64] newlen)) buf).

(** [for (; j < len; j++) s[j] = f(s[j])]. *)
Fixpoint char_loop (f : Z -> option Z) (fuel : nat) (buf : list Z) (j len : Z)
    : option (list Z) :=
  match fuel with
  | O => None
  | S fuel =>
      if j <? len then
        c ← znth buf j; c ← f c; buf ← zset buf j c;
        char_loop f fuel buf (j + 1) len
      else Some buf
  end.

Definition sdstolower (s : sds) : option sds :=
  let len := s32 (sds_len s) in
  buf ← char_loop (fun c => Some (tolower c)) (S (Z.to_nat len)) (sds_buf s) 0 len;
  Some (mkSds (sds_len s) (sds_free s) buf).

Definition sdstoupper (s : sds) : option sds :=
  let len := s32 (sds_len s) in
  buf ← char_loop (fun c => Some (toupper c)) (S (Z.to_nat len)) (sds_buf s) 0 len;
  Some (mkSds (sds_len s) (sds_free s) buf).

(** The inner loop of [sdsmapchars]: the first [i] with [from[i] == c]. *)
Fixpoint mapchar (fuel : nat) (from to : list Z) (setlen i c : Z) : option Z :=
  match fuel with
  | O => None
  | S fuel =>
      if i <? setlen then
        x ← znth from i;
        if c =? x then znth to i else mapchar fuel from to setlen (i + 1) c
      else Some c
  end.

Definition sdsmapchars (s : sds) (from to : list Z) (setlen : Z) : option sds :=
  let l := sds_len s in
  buf ← char_loop (mapchar (S (Z.to_nat setlen)) from to setlen 0)
          (S (Z.to_nat l)) (sds_buf s) 0 l;
  Some (mkSds (sds_len s) (sds_free s) buf).

(** ** Comparison *)

Definition sdscmp (s1 s2 : sds) : option Z :=
  let l1 := sds_len s1 in
  let l2 := sds_len s2 in
  let minlen := if l1 <? l2 then l1 else l2 in
  a ← mem_read (sds_buf s1) 0 minlen;
  b ← mem_read (sds_buf s2) 0 minlen;
  let cmp := memcmp a b in
  if cmp =? 0 then Some (s32 (l1 -[64] l2)) else Some cmp.

(** ** What a string stands for *)

(** [s] holds the bytes [bs]: the header's length is theirs, a terminator
    follows them, [free] counts exactly the rest of the allocation, and the
    two together fit the header's fields. *)
Definition rep (s : sds) (bs : list Z) : Prop :=
  sds_len s = zlen bs /\ in_u 32 (zlen bs + sds_free s) /\
  exists tail, sds_buf s = bs ++ 0 :: tail /\ zlen tail = sds_free s.

Lemma rep_intro bs tail fr :
  zlen tail = fr -> in_u 32 (zlen bs + fr) ->
  rep (mkSds (zlen bs) fr (bs ++ 0 :: tail)) bs.
Proof. intros <- Hb. split; [done|]. split; [done|]. by exists tail. Qed.

Lemma rep_inv s bs : rep s bs ->
  exists tail, s = mkSds (zlen bs) (zlen tail) (bs ++ 0 :: tail) /\
    in_u 32 (zlen bs + zlen tail).
Proof.
  destruct s as [l f b]. intros (Hl & Hb & tail & Hbuf & Ht). simpl in *.
  exists tail. by subst.
Qed.

Lemma u32_id n : in_u 32 n -> u32 n = n.
Proof. apply wrap_small. Qed.
Lemma u64_id n : in_u 64 n -> u64 n = n.
Proof. apply wrap_small. Qed.

Lemma s32_u64 x : s32 (u64 x) = s32 x.
Proof.
  unfold swrap, wrap. rewrite (Z.mod_eq x) by cint.
  replace (x - 2 ^ 64 * (x / 2 ^ 64) + 2 ^ (32 - 1))
    with (x + 2 ^ (32 - 1) + (- 2 ^ 32 * (x / 2 ^ 64)) * 2 ^ 32) by cint.
  by rewrite Z_mod_plus_full.
Qed.

Lemma sdsnewlen_spec t n bs :
  mem_read t 0 n = Some bs -> fits n ->
  exists s, sdsnewlen (Some t) n = Some s /\ rep s bs /\ sds_free s = 0.
Proof.
  intros Hr [H0 Hn]. pose proof (mem_read_spec _ _ _ _ Hr) as (_ & _ & Hz & _).
  unfold SDS_MAX_PREALLOC in Hn. unfold sdsnewlen, sizeof_sdshdr.
  rewrite !(u64_id _) by (rewrite ?(u64_id _) by cint; cint).
  replace (8 + n + 1 - 8) with (n + 1) by lia.
  destruct (realloc_grow junk [] (n + 1)) as (j & -> & Hj); [change (zlen []) with 0; lia|].
  change (zlen []) with 0 in Hj. rewrite Z.sub_0_r in Hj.
  destruct (zlen_snoc j n H0 Hj) as (j' & x & -> & Hj').
  assert (Hw : (if n =? 0 then Some ([] ++ j' ++ [x])
                else bs ← mem_read t 0 n; mem_write ([] ++ j' ++ [x]) 0 bs)
               = Some (bs ++ [x])).
  { destruct (Z.eqb_spec n 0) as [->|Hne].
    - destruct j'; [|rewrite zlen_cons in Hj'; pose proof (zlen_nonneg j'); lia].
      destruct bs; [done|]. rewrite zlen_cons in Hz. pose proof (zlen_nonneg bs). lia.
    - rewrite Hr. step. by rewrite (mem_write_app [] j' bs [x]) by (done || lia). }
  rewrite Hw. step. rewrite zset_app_mid by done. step.
  eexists. split; [done|]. split; [|done].
  rewrite u32_id, <- Hz by cint. apply rep_intro; [done|cint].
Qed.

Lemma sdsempty_spec : exists s, sdsempty = Some s /\ rep s [] /\ sds_free s = 0.
Proof. apply sdsnewlen_spec; [done|]. lens. Qed.

Lemma strlen_spec bs k : 0 ∉ bs -> strlen (bs ++ 0 :: k) = Some (zlen bs).
Proof.
  induction bs as [|c bs IH]; intros H; [done|]. simpl.
  rewrite not_elem_of_cons in H. destruct H as [Hc H].
  destruct (Z.eqb_spec c 0); [done|]. rewrite IH by done. simpl.
  by rewrite zlen_cons.
Qed.

Lemma mem_read_prefix bs k n : n = zlen bs -> mem_read (bs ++ k) 0 n = Some bs.
Proof. intros ->. by apply (mem_read_app [] bs k). Qed.

(** Growing keeps the header's length and every byte, and gives room. *)
Lemma sdsMakeRoomFor_spec s n :
  0 <= sds_len s -> in_u 32 (sds_len s + sds_free s) ->
  zlen (sds_buf s) = sds_len s + sds_free s + 1 ->
  0 <= n -> fits (sds_len s + n) ->
  exists j, sdsMakeRoomFor s n =
    mkSds (sds_len s) (sds_free s + zlen j) (sds_buf s ++ j) /\
    n <= sds_free s + zlen j /\ in_u 32 (sds_len s + (sds_free s + zlen j)).
Proof.
  destruct s as [l f b]. cbn [sds_len sds_free sds_buf]. unfold fits, SDS_MAX_PREALLOC.
  intros Hl Hf Hb Hn Hfit. unfold sdsMakeRoomFor. cbn [sds_len sds_free sds_buf].
  destruct (Z.leb_spec n f) as [Hle|Hgt].
  { exists []. rewrite zlen_nil, Z.add_0_r, app_nil_r. by repeat split; try apply Hf. }
  unfold sizeof_sdshdr, SDS_MAX_PREALLOC.
  rewrite (u64_id (l + n)) by cint.
  set (k := if _ <? _ then _ else _).
  assert (Hk : l + n <= k /\ k < 2 ^ 32).
  { unfold k. destruct (Z.ltb_spec (l + n) (1024 * 1024));
      rewrite u64_id by cint; cint. }
  clearbody k. rewrite !(u64_id _) by (rewrite ?(u64_id _) by cint; cint).
  replace (8 + k + 1 - 8) with (k + 1) by lia.
  destruct (realloc_grow junk b (k + 1)) as (j & -> & Hj); [lia|].
  exists j. rewrite u32_id by cint.
  replace (f + zlen j) with (k - l) by lia. repeat split; cint.
Qed.

Lemma rep_bufs s bs : rep s bs ->
  0 <= sds_len s /\ in_u 32 (sds_len s + sds_free s) /\
  zlen (sds_buf s) = sds_len s + sds_free s + 1.
Proof.
  intros (tail & -> & Hb)%rep_inv. simpl. rewrite zlen_app, zlen_cons.
  repeat split; lens.
Qed.

Lemma sdsMakeRoomFor_rep s bs n :
  rep s bs -> 0 <= n -> fits (zlen bs + n) ->
  rep (sdsMakeRoomFor s n) bs /\ n <= sds_free (sdsMakeRoomFor s n).
Proof.
  intros Hs Hn Hfit. destruct (rep_bufs s bs Hs) as (H1 & H2 & H3).
  assert (Hlen : sds_len s = zlen bs) by apply Hs.
  destruct (sdsMakeRoomFor_spec s n H1 H2 H3 Hn) as (j & -> & Hroom & Hu).
  { by rewrite Hlen. }
  split; [|done]. apply rep_inv in Hs as (tail & -> & Hb). simpl in *.
  rewrite <- app_assoc. rewrite <- app_comm_cons.
  apply rep_intro; [by rewrite zlen_app|done].
Qed.

(** A buffer with room: its first [n] bytes, one more, and the rest. *)
Lemma buf_split (l : list Z) n :
  0 <= n < zlen l -> exists old x rest, l = old ++ x :: rest /\ zlen old = n.
Proof.
  unfold zlen. intros Hn. exists (take (Z.to_nat n) l).
  destruct (drop (Z.to_nat n) l) as [|x rest] eqn:Ed.
  - apply (f_equal length) in Ed. rewrite length_drop in Ed. simpl in Ed. lia.
  - exists x, rest. rewrite <- Ed, take_drop. split; [done|].
    rewrite length_take. lia.
Qed.

(** Room for [n] more bytes: the [n] bytes after the string, the byte the new
    terminator goes to, and the rest. *)
Lemma room_split s bs n :
  rep s bs -> 0 <= n -> fits (zlen bs + n) ->
  exists old x rest,
    sdsMakeRoomFor s n = mkSds (zlen bs) (n + zlen rest) (bs ++ old ++ x :: rest) /\
    zlen old = n /\ in_u 32 (zlen bs + (n + zlen rest)).
Proof.
  intros Hs Hn Hfit. destruct (sdsMakeRoomFor_rep s bs n Hs Hn Hfit) as [Hr Hroom].
  apply rep_inv in Hr as (tail & E & Hb). rewrite E in Hroom |- *. simpl in Hroom.
  destruct (buf_split (0 :: tail) n) as (old & x & rest & Hsp & Hold).
  { rewrite zlen_cons. lia. }
  exists old, x, rest. rewrite Hsp.
  assert (Hz : zlen tail = n + zlen rest).
  { apply (f_equal zlen) in Hsp. rewrite zlen_app, !zlen_cons in Hsp. lia. }
  rewrite Hz in *. done.
Qed.

Lemma sdscatlen_spec s bs t n ts :
  rep s bs -> mem_read t 0 n = Some ts -> fits (zlen bs + n) ->
  exists s', sdscatlen s t n = Some s' /\ rep s' (bs ++ ts).
Proof.
  intros Hs Hr Hfit. pose proof (mem_read_spec _ _ _ _ Hr) as (_ & H0 & Hz & _).
  destruct (room_split s bs n Hs H0 Hfit) as (old & x & rest & E & Hold & Hu).
  unfold sdscatlen. rewrite E, Hr. step. cbn [sds_len sds_free sds_buf].
  assert (Hlen : sds_len s = zlen bs) by apply Hs. rewrite Hlen.
  rewrite (mem_write_app bs old ts (x :: rest)) by (done || lia). step.
  rewrite app_assoc. rewrite zset_app_mid by (rewrite zlen_app; lia). step.
  eexists. split; [done|].
  replace (zlen bs +[32] n) with (zlen (bs ++ ts)) by
    (rewrite zlen_app, u32_id; lens).
  apply rep_intro; [rewrite u32_id; lens|].
  rewrite zlen_app, u32_id; lens.
Qed.

Lemma sdscpylen_spec s bs t n ts :
  rep s bs -> mem_read t 0 n = Some ts -> fits n ->
  exists s', sdscpylen s t n = Some s' /\ rep s' ts.
Proof.
  intros Hs Hr Hfit.
  pose proof (mem_read_spec _ _ _ _ Hr) as (_ & H0 & Hz & _).
  assert (Hlen : sds_len s = zlen bs) by apply Hs.
  assert (Hroom : exists s' fr, sds_free s' + sds_len s' = fr /\
    (if sds_free s +[32] sds_len s <? n
     then (sdsMakeRoomFor s (n -[64] sds_len s),
           sds_free (sdsMakeRoomFor s (n -[64] sds_len s)) +[32]
           sds_len (sdsMakeRoomFor s (n -[64] sds_len s)))
     else (s, sds_free s +[32] sds_len s)) = (s', fr) /\
    n <= fr /\ rep s' bs).
  { destruct (rep_bufs s bs Hs) as (H1 & H2 & H3). rewrite Hlen in *.
    rewrite (u32_id (sds_free s + zlen bs)) by lens.
    assert (Hf0 : 0 <= sds_free s) by (destruct Hs as (_ & _ & tail & _ & <-); lens).
    destruct (Z.ltb_spec (sds_free s + zlen bs) n) as [Hlt|Hge].
    - rewrite (u64_id (n - zlen bs)) by lens.
      destruct (sdsMakeRoomFor_rep s bs (n - zlen bs) Hs) as [Hr' Hroom'];
        [lia|by replace (zlen bs + (n - zlen bs)) with n by lia|].
      destruct (rep_bufs _ _ Hr') as (_ & H2' & _).
      assert (E2 : sds_len (sdsMakeRoomFor s (n - zlen bs)) = zlen bs) by apply Hr'.
      eexists (sdsMakeRoomFor s (n - zlen bs)), _. split; [done|]. rewrite E2.
      split; [|split; [lia|done]]. f_equal. rewrite u32_id; lens.
    - eexists s, _. split; [done|]. rewrite Hlen. done. }
  destruct Hroom as (s' & fr & Hfr & E & Hn & Hr').
  destruct (rep_bufs _ _ Hr') as (_ & Hu & Hzb).
  destruct (buf_split (sds_buf s') n) as (old & x & rest & Hb & Ho); [lia|].
  unfold sdscpylen. rewrite E, Hr. step. rewrite Hb.
  rewrite (mem_write_app [] old ts (x :: rest)) by (done || lia). step.
  cbn [app]. rewrite zset_app_mid by done. step. eexists. split; [done|].
  rewrite Hb, zlen_app, zlen_cons in Hzb.
  rewrite (u32_id n) by lens. rewrite <- Hz in *.
  apply rep_intro; [rewrite u32_id; lens|rewrite u32_id; lens].
Qed.

Lemma sdsgrowzero_spec s bs n :
  rep s bs -> fits n ->
  exists s', sdsgrowzero s n = Some s' /\
    rep s' (bs ++ replicate (Z.to_nat (n - zlen bs)) 0).
Proof.
  intros Hs Hfit. assert (Hlen : sds_len s = zlen bs) by apply Hs.
  unfold sdsgrowzero. rewrite Hlen. destruct (Z.leb_spec n (zlen bs)) as [Hle|Hgt].
  { exists s. replace (Z.to_nat (n - zlen bs)) with 0%nat by lia.
    simpl. by rewrite app_nil_r. }
  destruct (room_split s bs (n - zlen bs) Hs) as (old & x & rest & E & Hold & Hu);
    [lia|by replace (zlen bs + (n - zlen bs)) with n by lia|].
  rewrite E. cbn [sds_len sds_free sds_buf].
  assert (Hrep : replicate (Z.to_nat (n - zlen bs + 1)) 0
                 = replicate (Z.to_nat (n - zlen bs)) 0 ++ [0]).
  { replace (Z.to_nat (n - zlen bs + 1)) with (S (Z.to_nat (n - zlen bs))) by lia.
    by rewrite replicate_S_end. }
  set (zs := replicate (Z.to_nat (n - zlen bs)) 0) in *.
  assert (Hz : zlen zs = n - zlen bs)
    by (unfold zs; unfold zlen at 1; rewrite length_replicate; lia).
  rewrite Hrep. replace (old ++ x :: rest) with ((old ++ [x]) ++ rest)
    by (by rewrite <- app_assoc).
  rewrite mem_write_app by (rewrite ?zlen_app_one; lia). step.
  eexists. split; [done|]. rewrite <- app_assoc, app_assoc. simpl app at 2.
  rewrite (u32_id n) by lens.
  rewrite (u32_id (zlen bs + _)) by lens.
  rewrite (u32_id (_ - n)) by lens.
  replace (zlen bs + (n - zlen bs + zlen rest) - n) with (zlen rest) by lia.
  replace n with (zlen (bs ++ zs)) by (rewrite zlen_app; lens).
  apply rep_intro; [done|]. rewrite zlen_app; lens.
Qed.

Lemma sdsclear_spec s bs :
  rep s bs -> exists s', sdsclear s = Some s' /\ rep s' [].
Proof.
  intros (tail & -> & Hb)%rep_inv.
  unfold sdsclear. cbn [sds_len sds_free sds_buf].
  destruct (buf_split (bs ++ 0 :: tail) 0) as (old & x & rest & E & Ho).
  { rewrite zlen_app, zlen_cons. lens. }
  destruct old; [|rewrite zlen_cons in Ho; lens].
  assert (Hz := f_equal zlen E). rewrite zlen_app, zlen_cons in Hz. cbn [app] in *.
  rewrite zlen_cons in Hz. rewrite E.
  rewrite (zset_app_mid [] rest x 0) by done. step.
  eexists. split; [done|]. change 0 with (zlen (@nil Z)) at 1.
  apply (rep_intro [] rest); [rewrite u32_id; lens|].
  rewrite zlen_nil, u32_id; lens.
Qed.

Lemma sdsRemoveFreeSpace_spec s bs :
  rep s bs -> rep (sdsRemoveFreeSpace s) bs.
Proof.
  intros (tail & -> & Hb)%rep_inv. unfold sdsRemoveFreeSpace, sizeof_sdshdr.
  cbn [sds_len sds_free sds_buf].
  rewrite !(u64_id _) by (rewrite ?(u64_id _) by lens; lens).
  replace (bs ++ 0 :: tail) with ((bs ++ [0]) ++ tail) by (by rewrite <- app_assoc).
  rewrite realloc_shrink by (rewrite zlen_app_one; lia).
  apply rep_intro; [done|lens].
Qed.

(** A prefix of the bytes kept, with its terminator in place. *)
Lemma rep_cut bs k tail n buf :
  zlen bs = n -> in_u 32 (n + zlen (k ++ 0 :: tail)) ->
  buf = bs ++ 0 :: tail ->
  rep (mkSds n (zlen tail) buf) bs.
Proof. intros <- H ->. apply rep_intro; [done|]. rewrite zlen_app, zlen_cons in H. lens. Qed.

Lemma take_first_zero bs tail :
  exists a k, bs ++ 0 :: tail = a ++ 0 :: k /\ 0 ∉ a /\ zlen a <= zlen bs.
Proof.
  induction bs as [|b bs (a & k & E & Hn & Hle)]; [exists [], tail; by repeat split; set_solver|].
  destruct (decide (b = 0)) as [->|Hb].
  - exists [], (bs ++ 0 :: tail). repeat split; [set_solver|]. rewrite zlen_nil. lens.
  - exists (b :: a), k. rewrite <- !app_comm_cons, E, !zlen_cons.
    repeat split; [set_solver|lia].
Qed.

Lemma sdsupdatelen_spec s bs :
  rep s bs -> zlen bs < 2 ^ 31 ->
  exists s' a k, sdsupdatelen s = Some s' /\ bs ++ [0] = a ++ 0 :: k /\ 0 ∉ a /\
    rep s' a.
Proof.
  intros (tail & -> & Hb)%rep_inv Hlt.
  unfold sdsupdatelen. cbn [sds_len sds_free sds_buf].
  destruct (take_first_zero bs []) as (a & k & E & Hn & Hle).
  assert (Hbuf : bs ++ 0 :: tail = a ++ 0 :: (k ++ tail)).
  { change (0 :: tail) with ([0] ++ tail). by rewrite app_assoc, E, <- app_assoc. }
  assert (Hz := f_equal zlen Hbuf). rewrite !zlen_app, !zlen_cons in Hz.
  rewrite Hbuf, (strlen_spec a _ Hn). step.
  rewrite swrap_small by lens. rewrite (u32_id (zlen a)) by lens.
  eexists _, a, k. split; [done|]. split; [done|]. split; [done|].
  rewrite zlen_app in Hz.
  apply rep_intro; rewrite ?zlen_app; rewrite (u32_id (zlen bs - zlen a)), u32_id; lens.
Qed.

Lemma sdsIncrLen_cut s bs n :
  rep s bs -> 0 < n < 2 ^ 31 -> n <= zlen bs ->
  exists s', sdsIncrLen s (- n) = Some s' /\
    rep s' (take (Z.to_nat (zlen bs - n)) bs).
Proof.
  intros (tail & -> & Hb)%rep_inv Hn Hle. unfold sdsIncrLen.
  cbn [sds_len sds_free sds_buf].
  destruct (buf_split bs (zlen bs - n)) as (a & x & k & -> & Ha); [lia|].
  rewrite <- Ha. replace (take _ _) with a
    by (unfold zlen; by rewrite Nat2Z.id, take_app_length).
  rewrite !zlen_app, !zlen_cons in *. rewrite <- app_assoc. cbn [app].
  destruct (Z.leb_spec 0 (- n)); [lia|].
  rewrite (u32_id (- - n)) by lens. replace (- - n) with n by lia.
  destruct (Z.leb_spec n (zlen a + (1 + zlen k))); [|lens].
  rewrite (u32_id (_ + - n)) by lens.
  replace (zlen a + (1 + zlen k) + - n) with (zlen a) by lia.
  rewrite zset_app_mid by done. step. eexists. split; [done|].
  apply rep_intro; rewrite u32_id by lens; rewrite ?zlen_app, ?zlen_cons; lens.
Qed.

(** Room is made, [ts] is stored after the string (a [read]), and the length
    adjusted. *)
Definition sdsread (s : sds) (ts : list Z) : option sds :=
  let s := sdsMakeRoomFor s (zlen ts) in
  buf ← mem_write (sds_buf s) (sds_len s) ts;
  sdsIncrLen (mkSds (sds_len s) (sds_free s) buf) (zlen ts).

Lemma sdsread_spec s bs ts :
  rep s bs -> fits (zlen bs + zlen ts) -> zlen ts < 2 ^ 31 ->
  exists s', sdsread s ts = Some s' /\ rep s' (bs ++ ts).
Proof.
  intros Hs Hfit Hlt.
  destruct (room_split s bs (zlen ts) Hs) as (old & x & rest & E & Hold & Hu);
    [lens|done|].
  unfold sdsread. rewrite E. cbn [sds_len sds_free sds_buf].
  rewrite mem_write_app by done. step. unfold sdsIncrLen.
  cbn [sds_len sds_free sds_buf].
  destruct (Z.leb_spec 0 (zlen ts)); [|lens].
  rewrite (u32_id (zlen ts)) by lens.
  destruct (Z.leb_spec (zlen ts) (zlen ts + zlen rest)); [|lens].
  rewrite (u32_id (_ + _)), (u32_id (_ - _)) by lens.
  rewrite app_assoc, zset_app_mid by (by rewrite zlen_app). step.
  eexists. split; [done|]. rewrite <- zlen_app.
  apply rep_intro; rewrite ?zlen_app; lens.
Qed.

Lemma sdsdup_spec s bs :
  rep s bs -> fits (zlen bs) ->
  exists s', sdsdup s = Some s' /\ rep s' bs.
Proof.
  intros (tail & -> & Hb)%rep_inv Hfit. unfold sdsdup. cbn [sds_len sds_buf].
  destruct (sdsnewlen_spec (bs ++ 0 :: tail) (zlen bs) bs) as (s' & -> & Hs' & _);
    [by apply mem_read_prefix|done|]. by exists s'.
Qed.

(** Bytes moved to the front of a longer buffer. *)
Lemma move_front a m k :
  0 < zlen k -> exists x rest,
    memmove (a ++ m ++ k) 0 (zlen a) (zlen m) = Some (m ++ x :: rest) /\
    zlen rest = zlen a + zlen k - 1.
Proof.
  intros Hk. unfold memmove. rewrite mem_read_app by done. step.
  destruct (buf_split (a ++ m ++ k) (zlen m)) as (old & x & rest & E & Ho).
  { rewrite !zlen_app. lens. }
  exists x, rest. rewrite E, (mem_write_app [] old m (x :: rest)) by done. split; [done|].
  apply (f_equal zlen) in E. rewrite !zlen_app, zlen_cons in E. lia.
Qed.

(** *** [sdstrim] *)

Fixpoint lstrip (p : Z -> bool) (l : list Z) : list Z :=
  match l with [] => [] | c :: k => if p c then lstrip p k else l end.
Definition rstrip (p : Z -> bool) (l : list Z) : list Z :=
  reverse (lstrip p (reverse l)).

(** [strchr] finds the bytes of the set, and its terminator. *)
Definition in_cset (cs : list Z) (c : Z) : bool :=
  bool_decide (c ∈ cs) || (c =? 0).

Lemma strchr_spec cs k c : 0 ∉ cs -> strchr (cs ++ 0 :: k) c = Some (in_cset cs c).
Proof.
  unfold in_cset. induction cs as [|x cs IH]; intros Hn.
  - cbn [strchr app]. rewrite bool_decide_false by set_solver.
    destruct (Z.eqb_spec 0 c), (Z.eqb_spec c 0); try done; lia.
  - apply not_elem_of_cons in Hn as [Hx Hn]. cbn [strchr app]. destruct (Z.eqb_spec x c) as [->|Hc].
    + by rewrite bool_decide_true by set_solver.
    + destruct (Z.eqb_spec x 0); [lia|]. rewrite IH by done. do 2 f_equal.
      apply bool_decide_ext. set_solver.
Qed.

Lemma lstrip_split p l :
  exists a, l = a ++ lstrip p l /\ Forall (fun c => p c = true) a /\
    match lstrip p l with [] => True | c :: _ => p c = false end.
Proof.
  induction l as [|c l (a & E & Ha & Hh)]; [by exists []|]. simpl.
  destruct (p c) eqn:Hc.
  - exists (c :: a). split; [by rewrite <- app_comm_cons, <- E|]. split; [by constructor|done].
  - by exists [].
Qed.

Lemma rstrip_split p l :
  exists b, l = rstrip p l ++ b /\ Forall (fun c => p c = true) b /\
    (rstrip p l = [] \/ exists m x, rstrip p l = m ++ [x] /\ p x = false).
Proof.
  unfold rstrip. destruct (lstrip_split p (reverse l)) as (a & E & Ha & Hh).
  exists (reverse a). split; [|split].
  - rewrite <- reverse_app, <- E. by rewrite reverse_involutive.
  - by apply Forall_reverse.
  - destruct (lstrip p (reverse l)) as [|x m]; [by left|]. right.
    exists (reverse m), x. by rewrite reverse_cons.
Qed.

Section Trim.
Context (cs k : list Z) (Hcs : 0 ∉ cs).
Notation p := (in_cset cs).
Notation cset := (cs ++ 0 :: k).

Lemma trim_left_spec a : forall fuel l bs rest ep,
  Forall (fun c => p c = true) a ->
  match bs with [] => True | c :: _ => p c = false end ->
  ep = zlen l + zlen a + zlen bs - 1 -> (length a < fuel)%nat ->
  trim_left fuel (l ++ a ++ bs ++ rest) cset (zlen l) ep = Some (zlen l + zlen a).
Proof.
  induction a as [|c a IH]; intros [|fuel] l bs rest ep Ha Hb Hep Hf;
    simpl in Hf; try lia; cbn [trim_left].
  - change (zlen (@nil Z)) with 0 in *. destruct bs as [|c bs].
    + change (zlen (@nil Z)) with 0 in *. destruct (Z.leb_spec (zlen l) ep); [lia|].
      step. f_equal. lia.
    + rewrite zlen_cons in Hep. destruct (Z.leb_spec (zlen l) ep); [|lens].
      cbn [app]. rewrite znth_app_mid by done. step.
      rewrite strchr_spec, Hb by done. step. f_equal. lia.
  - inversion Ha as [|? ? Hc Ha']; subst. rewrite zlen_cons in *.
    destruct (Z.leb_spec (zlen l) (zlen l + (1 + zlen a) + zlen bs - 1)); [|lens].
    cbn [app]. rewrite znth_app_mid by done. step. rewrite strchr_spec, Hc by done. step.
    replace (l ++ c :: a ++ bs ++ rest) with ((l ++ [c]) ++ a ++ bs ++ rest)
      by (by rewrite <- app_assoc).
    rewrite <- zlen_app_one with (x := c). rewrite IH with (ep := _) (bs := bs);
      try done; rewrite ?zlen_app_one; [f_equal; lia|lia|lia].
Qed.

Lemma trim_right_spec b : forall fuel m x rest,
  Forall (fun c => p c = true) b -> p x = false -> (length b < fuel)%nat ->
  trim_right fuel ((m ++ [x]) ++ b ++ rest) cset (zlen m + zlen b) = Some (zlen m).
Proof.
  induction b as [|c b IH] using rev_ind; intros [|fuel] m x rest Hb Hx Hf;
    rewrite ?length_app in Hf; simpl in Hf; try lia; cbn [trim_right].
  - change (zlen (@nil Z)) with 0. rewrite Z.add_0_r. destruct (Z.ltb_spec 0 (zlen m)); [|done].
    rewrite <- app_assoc. cbn [app]. rewrite znth_app_mid by done. step.
    by rewrite strchr_spec, Hx by done.
  - apply Forall_app in Hb as [Hb Hc]. inversion Hc as [|? ? Hc' _]; subst.
    rewrite zlen_app_one. destruct (Z.ltb_spec 0 (zlen m + (zlen b + 1))); [|lens].
    replace ((m ++ [x]) ++ (b ++ [c]) ++ rest) with (((m ++ [x]) ++ b) ++ c :: rest)
      by (by rewrite <- !app_assoc).
    rewrite znth_app_mid by (rewrite !zlen_app, zlen_one; lia). step.
    rewrite strchr_spec, Hc' by done. step.
    replace (zlen m + (zlen b + 1) - 1) with (zlen m + zlen b) by lia.
    rewrite <- app_assoc. by rewrite IH by (done || lia).
Qed.

Lemma trim_right_all b : forall fuel rest,
  Forall (fun c => p c = true) b -> (length b < fuel)%nat ->
  exists e, trim_right fuel (b ++ rest) cset (zlen b - 1) = Some e /\
    e < zlen b /\ e <= 0.
Proof.
  induction b as [|c b IH] using rev_ind; intros [|fuel] rest Hb Hf;
    rewrite ?length_app in Hf; simpl in Hf; try lia; cbn [trim_right].
  - by exists (-1).
  - rewrite zlen_app_one. replace (zlen b + 1 - 1) with (zlen b) by lia.
    destruct (Z.ltb_spec 0 (zlen b)); [|exists (zlen b); split; [done|lia]].
    apply Forall_app in Hb as [Hb Hc]. inversion Hc as [|? ? Hc' _]; subst.
    rewrite <- app_assoc. cbn [app]. rewrite znth_app_mid by done. step.
    rewrite strchr_spec, Hc' by done. step.
    destruct (IH fuel (c :: rest)) as (e & He & ? & ?); [done|lia|].
    exists e. split; [done|lia].
Qed.

Definition trim_bytes (l : list Z) : list Z := rstrip p (lstrip p l).

Lemma sdstrim_spec s bs :
  rep s bs -> exists s', sdstrim s cset = Some s' /\ rep s' (trim_bytes bs).
Proof.
  intros (tail & -> & Hb)%rep_inv. unfold sdstrim, trim_bytes.
  cbn [sds_len sds_free sds_buf].
  destruct (lstrip_split p bs) as (a & E & Ha & Hh).
  destruct (rstrip_split p (lstrip p bs)) as (b & E' & Hb' & Hl).
  set (fuel := S (Z.to_nat (zlen bs))).
  assert (Hsp : trim_left fuel (bs ++ 0 :: tail) cset 0 (zlen bs - 1) = Some (zlen a)).
  { pose proof (trim_left_spec a fuel [] (lstrip p bs) (0 :: tail) (zlen bs - 1) Ha Hh) as H.
    cbn [app] in H. rewrite app_assoc, <- E in H. apply H.
    - apply (f_equal zlen) in E. rewrite zlen_app in E. rewrite zlen_nil. lia.
    - unfold fuel, zlen. apply (f_equal length) in E. rewrite length_app in E. lia. }
  rewrite Hsp. step. set (m := rstrip p (lstrip p bs)) in *.
  assert (Habm : bs = a ++ m ++ b) by (by rewrite <- E').
  assert (Hmb : m = [] -> b = []).
  { intros Hm. destruct b as [|c b]; [done|]. rewrite E', Hm in Hh. simpl in Hh.
    inversion Hb' as [|? ? Hc _]; congruence. }
  clearbody m. clear E E' Hh Hsp.
  assert (Hep : exists e, trim_right fuel (bs ++ 0 :: tail) cset (zlen bs - 1) = Some e /\
    (if e <? zlen a then 0 else e - zlen a + 1) = zlen m).
  { subst bs. destruct Hl as [->|(m' & x & -> & Hx)].
    - rewrite Hmb, !app_nil_r by done.
      destruct (trim_right_all a fuel (0 :: tail)) as (e & He & Hlt & Hle); [done| |].
      + unfold fuel, zlen. rewrite !length_app. simpl. lia.
      + exists e. split; [done|]. destruct (Z.ltb_spec e (zlen a)); [done|lia].
    - exists (zlen a + zlen m'). split.
      + pose proof (trim_right_spec b fuel (a ++ m') x (0 :: tail) Hb' Hx) as H.
        rewrite <- !app_assoc in *. rewrite !zlen_app, zlen_one, <- ?Z.add_assoc in *.
        replace (zlen a + (zlen m' + (1 + zlen b)) - 1)
          with (zlen a + (zlen m' + zlen b)) by lia.
        replace (zlen a + (zlen m' + (1 + zlen b) + -1))
          with (zlen a + (zlen m' + zlen b)) by lia.
        apply H. unfold fuel, zlen. rewrite !length_app. simpl. lia.
      + rewrite zlen_app_one. destruct (Z.ltb_spec (zlen a + zlen m') (zlen a)); lens. }
  destruct Hep as (e & -> & Hlen). step. cbv zeta. rewrite Hlen. clear Hlen.
  assert (Hmv : exists x rest, (if zlen a =? 0 then Some (bs ++ 0 :: tail)
      else memmove (bs ++ 0 :: tail) 0 (zlen a) (zlen m)) = Some (m ++ x :: rest) /\
      zlen rest = zlen tail + (zlen bs - zlen m)).
  { subst bs. rewrite <- !app_assoc.
    destruct (move_front a m (b ++ 0 :: tail)) as (x & rest & E & Hz).
    { rewrite zlen_app, zlen_cons. lens. }
    exists x, rest. split; [|rewrite !zlen_app, zlen_cons in *; lia].
    destruct (Z.eqb_spec (zlen a) 0) as [Ha0|Ha0]; [|done].
    destruct a as [|? a]; [|rewrite zlen_cons in Ha0; lens].
    cbn [app] in *. unfold memmove in E. rewrite mem_read_prefix in E by done.
    revert E. step. rewrite (mem_write_app [] m m (b ++ 0 :: tail)) by done. done. }
  destruct Hmv as (x & rest & -> & Hz). step.
  rewrite zset_app_mid by done. step. eexists. split; [done|].
  assert (zlen m <= zlen bs) by (subst bs; rewrite !zlen_app; lens).
  rewrite (u32_id (zlen m)), (u64_id (zlen bs - _)) by lens.
  rewrite u32_id by lens. apply rep_intro; [lia|lens].
Qed.
End Trim.

(** *** [sdsrange] *)

(** An index counted from the end when negative, then cut at the start. *)
Definition norm_index (len i : Z) : Z := if i <? 0 then Z.max 0 (len + i) else i.

Definition range_bytes (l : list Z) (start last : Z) : list Z :=
  let a := norm_index (zlen l) start in
  let b := norm_index (zlen l) last in
  if b <? a then []
  else take (Z.to_nat (b - a + 1)) (drop (Z.to_nat a) l).

Lemma slice_split (l : list Z) a n :
  0 <= a -> 0 <= n -> a + n <= zlen l ->
  exists p m k, l = p ++ m ++ k /\ zlen p = a /\ zlen m = n /\
    m = take (Z.to_nat n) (drop (Z.to_nat a) l).
Proof.
  unfold zlen. intros Ha Hn Hl.
  exists (take (Z.to_nat a) l), (take (Z.to_nat n) (drop (Z.to_nat a) l)),
    (drop (Z.to_nat n) (drop (Z.to_nat a) l)).
  rewrite !take_drop, !length_take, length_drop. repeat split; lia.
Qed.

(** The tail of [sdsrange]: [n] bytes from [a] become the whole string. *)
Lemma range_move bs tail a n :
  0 <= a -> 0 <= n -> (n <> 0 -> a + n <= zlen bs) ->
  exists x rest,
    (if negb (a =? 0) && negb (n =? 0) then memmove (bs ++ 0 :: tail) 0 a n
     else Some (bs ++ 0 :: tail)) =
    Some (take (Z.to_nat n) (drop (Z.to_nat a) bs) ++ x :: rest) /\
    zlen (take (Z.to_nat n) (drop (Z.to_nat a) bs)) = n /\
    n + zlen rest = zlen bs + zlen tail.
Proof.
  intros Ha Hn Hle. destruct (Z.eqb_spec n 0) as [->|Hn0].
  - rewrite andb_false_r.
    destruct (buf_split (bs ++ 0 :: tail) 0) as (old & x & rest & E & Ho).
    { rewrite zlen_app, zlen_cons. lens. }
    destruct old; [|rewrite zlen_cons in Ho; lens]. exists x, rest.
    split; [by rewrite E|]. split; [done|].
    apply (f_equal zlen) in E. rewrite zlen_app, !zlen_cons in E.
    change (zlen (@nil Z)) with 0 in *. cbn [app] in E. rewrite zlen_cons in E. lia.
  - destruct (slice_split bs a n) as (p & m & k & E & Hp & Hm & Hmt); [lia|lia|auto|].
    rewrite <- Hmt. rewrite E, <- !app_assoc.
    destruct (move_front p m (k ++ 0 :: tail)) as (x & rest & Emv & Hz).
    { rewrite zlen_app, zlen_cons. lens. }
    exists x, rest. rewrite Hp, Hm in Emv. rewrite andb_true_r.
    split; [|split; [done|]]; [|rewrite !zlen_app, zlen_cons in *; lia].
    destruct (Z.eqb_spec a 0) as [Ha0|Ha0]; [|done]. cbn [negb]. 
    destruct p as [|? p]; [|rewrite zlen_cons in Hp; lens].
    cbn [app] in *. subst a. unfold memmove in Emv. rewrite mem_read_prefix in Emv by done.
    revert Emv. step. by rewrite (mem_write_app [] m m (k ++ 0 :: tail)) by done.
Qed.

Lemma norm_index_spec len i :
  0 < len < 2 ^ 31 -> in_s 32 i ->
  (if i <? 0 then let i := s32 (len +[64] i) in if i <? 0 then 0 else i else i)
  = norm_index len i.
Proof.
  intros Hl Hi. unfold norm_index. destruct (Z.ltb_spec i 0); [|done]. cbv zeta.
  rewrite s32_u64, swrap_small by cint. destruct (Z.ltb_spec (len + i) 0); lia.
Qed.

Lemma range_len_spec a b :
  0 <= a -> b < 2 ^ 31 - 1 ->
  range_len a b = Some (if b <? a then 0 else b - a + 1).
Proof.
  intros. unfold range_len, int_ok. destruct (Z.ltb_spec b a); [done|].
  rewrite decide_True by cint. step. rewrite decide_True by cint. step.
  rewrite u64_id; [done|cint].
Qed.

Lemma sdsrange_spec s bs start last :
  rep s bs -> zlen bs < 2 ^ 31 -> in_s 32 start -> in_s 32 last ->
  last <> 2 ^ 31 - 1 ->
  exists s', sdsrange s start last = Some s' /\ rep s' (range_bytes bs start last).
Proof.
  intros Hs Hlt Hst Hla Hmax. unfold sdsrange, range_bytes.
  assert (Hlen : sds_len s = zlen bs) by apply Hs. rewrite Hlen.
  destruct (Z.eqb_spec (zlen bs) 0) as [H0|H0].
  { destruct bs; [|rewrite zlen_cons in H0; lens]. exists s. split; [done|].
    rewrite drop_nil, take_nil. by case_match. }
  apply rep_inv in Hs as (tail & -> & Hb). cbn [sds_len sds_free sds_buf].
  pose proof (zlen_nonneg bs). cbv zeta.
  pose proof (norm_index_spec (zlen bs) start) as Ea. cbv zeta in Ea.
  rewrite Ea by cint. clear Ea.
  pose proof (norm_index_spec (zlen bs) last) as Eb. cbv zeta in Eb.
  rewrite Eb by cint. clear Eb.
  set (a := norm_index (zlen bs) start). set (b := norm_index (zlen bs) last).
  assert (Ha : 0 <= a) by (unfold a, norm_index; destruct (Z.ltb_spec start 0); lia).
  assert (Hbm : 0 <= b < 2 ^ 31 - 1)
    by (unfold b, norm_index; destruct (Z.ltb_spec last 0); cint).
  clearbody a b. rewrite (range_len_spec a b) by cint. step.
  rewrite !swrap_small by cint. rewrite (range_len_spec a (zlen bs - 1)) by cint.
  set (res := if b <? a then [] else _).
  assert (Hpick : exists a' n',
    (if negb ((if b <? a then 0 else b - a + 1) =? 0) then
       if zlen bs <=? a then Some (a, 0)
       else if zlen bs <=? b
            then newlen ← Some (if zlen bs - 1 <? a then 0 else zlen bs - 1 - a + 1);
                 Some (a, newlen)
            else Some (a, if b <? a then 0 else b - a + 1)
     else Some (0, if b <? a then 0 else b - a + 1)) = Some (a', n') /\
    0 <= a' /\ 0 <= n' /\ (n' <> 0 -> a' + n' <= zlen bs) /\
    res = take (Z.to_nat n') (drop (Z.to_nat a') bs)).
  { unfold res. destruct (Z.ltb_spec b a).
    - exists 0, 0. repeat split; lia.
    - replace (b - a + 1 =? 0) with false by (symmetry; apply Z.eqb_neq; lia). cbn [negb].
      destruct (Z.leb_spec (zlen bs) a).
      { exists a, 0. repeat split; try lia. rewrite drop_ge by (unfold zlen in *; lia).
        by rewrite take_nil. }
      destruct (Z.leb_spec (zlen bs) b).
      + destruct (Z.ltb_spec (zlen bs - 1) a); [lia|]. step.
        exists a, (zlen bs - 1 - a + 1). repeat split; try lia.
        rewrite !take_ge; [done| |]; rewrite length_drop; unfold zlen in *; lia.
      + exists a, (b - a + 1). repeat split; lia. }
  destruct Hpick as (a' & n' & -> & Ha' & Hn' & Hle & ->). step. cbv zeta.
  destruct (range_move bs tail a' n' Ha' Hn' Hle) as (x & rest & -> & Hz & Hr). step.
  set (m := take _ _) in *. rewrite zset_app_mid by done. step.
  eexists. split; [done|].
  assert (n' <= zlen bs).
  { destruct (decide (n' = 0)); [lia|]. specialize (Hle n). lia. }
  rewrite (u32_id n'), (u64_id (zlen bs - _)) by cint.
  rewrite u32_id by lens. rewrite <- Hz in *. apply rep_intro; lens.
Qed.

(** *** Loops over the characters *)

Lemma char_loop_spec f g bs : forall fuel a k,
  Forall (fun c => f c = Some (g c)) bs -> (length bs < fuel)%nat ->
  char_loop f fuel (a ++ bs ++ k) (zlen a) (zlen a + zlen bs) =
  Some (a ++ (g <$> bs) ++ k).
Proof.
  induction bs as [|c bs IH]; intros [|fuel] a k Hf Hlt; simpl in Hlt; try lia;
    cbn [char_loop].
  - change (zlen (@nil Z)) with 0. by rewrite Z.add_0_r, Z.ltb_irrefl.
  - inversion Hf as [|? ? Hc Hf']; subst. rewrite zlen_cons.
    destruct (Z.ltb_spec (zlen a) (zlen a + (1 + zlen bs))); [|lens].
    cbn [app]. rewrite znth_app_mid by done. step. rewrite Hc. step.
    rewrite zset_app_mid by done. step.
    replace (a ++ g c :: bs ++ k) with ((a ++ [g c]) ++ bs ++ k)
      by (by rewrite <- app_assoc).
    rewrite <- zlen_app_one with (x := g c).
    replace (zlen a + (1 + zlen bs)) with (zlen (a ++ [g c]) + zlen bs)
      by (rewrite zlen_app_one; lia).
    rewrite IH by (done || lia). by rewrite <- app_assoc.
Qed.

Lemma rep_map s bs f g n :
  rep s bs -> Forall (fun c => f c = Some (g c)) bs -> n = zlen bs ->
  exists buf, char_loop f (S (Z.to_nat n)) (sds_buf s) 0 n = Some buf /\
    rep (mkSds (sds_len s) (sds_free s) buf) (g <$> bs).
Proof.
  intros (tail & -> & Hb)%rep_inv Hf ->. cbn [sds_len sds_free sds_buf].
  exists ((g <$> bs) ++ 0 :: tail). split.
  - apply (char_loop_spec f g bs _ [] (0 :: tail) Hf). unfold zlen. lia.
  - rewrite <- (zlen_fmap g bs). apply rep_intro; [done|]. by rewrite zlen_fmap.
Qed.

(** The reference for [sdsmapchars]: the first match decides. *)
Fixpoint mapped (from to : list Z) (c : Z) : Z :=
  match from, to with
  | x :: from, y :: to => if c =? x then y else mapped from to c
  | _, _ => c
  end.

Lemma mapchar_spec : forall from to fuel a b k k' c,
  length from = length to -> (length from < fuel)%nat -> zlen a = zlen b ->
  mapchar fuel (a ++ from ++ k) (b ++ to ++ k') (zlen a + zlen from) (zlen a) c
  = Some (mapped from to c).
Proof.
  induction from as [|x from IH]; intros [|y to] [|fuel] a b k k' c Hl Hf Hab;
    simpl in Hl, Hf; try lia; cbn [mapchar mapped].
  - change (zlen (@nil Z)) with 0. by rewrite Z.add_0_r, Z.ltb_irrefl.
  - rewrite zlen_cons. destruct (Z.ltb_spec (zlen a) (zlen a + (1 + zlen from))); [|lens].
    cbn [app]. rewrite !znth_app_mid by done. step.
    destruct (Z.eqb_spec c x); [done|].
    replace (a ++ x :: from ++ k) with ((a ++ [x]) ++ from ++ k)
      by (by rewrite <- app_assoc).
    replace (b ++ y :: to ++ k') with ((b ++ [y]) ++ to ++ k')
      by (by rewrite <- app_assoc).
    replace (zlen a + (1 + zlen from)) with (zlen (a ++ [x]) + zlen from)
      by (rewrite zlen_app_one; lia).
    rewrite <- zlen_app_one with (x := x). apply IH; [lia|lia|].
    rewrite !zlen_app_one. lia.
Qed.

Lemma sdsmapchars_spec s bs from to :
  rep s bs -> length from = length to ->
  exists s', sdsmapchars s from to (zlen from) = Some s' /\
    rep s' (mapped from to <$> bs).
Proof.
  intros Hs Hl. unfold sdsmapchars.
  assert (Hlen : sds_len s = zlen bs) by apply Hs.
  destruct (rep_map s bs (mapchar (S (Z.to_nat (zlen from))) from to (zlen from) 0)
              (mapped from to) (sds_len s) Hs) as (buf & -> & Hr); [|done|].
  - apply Forall_forall. intros c _.
    pose proof (mapchar_spec from to (S (Z.to_nat (zlen from))) [] [] [] [] c Hl) as H.
    cbn [app] in H. rewrite !app_nil_r in H. apply H; [unfold zlen; lia|done].
  - step. eexists. split; [done|]. exact Hr.
Qed.

Lemma sdstolower_spec s bs :
  rep s bs -> zlen bs < 2 ^ 31 ->
  exists s', sdstolower s = Some s' /\ rep s' (tolower <$> bs).
Proof.
  intros Hs Hlt. assert (Hlen : sds_len s = zlen bs) by apply Hs. unfold sdstolower.
  destruct (rep_map s bs (fun c => Some (tolower c)) tolower (s32 (sds_len s)) Hs)
    as (buf & -> & Hr).
  - by apply Forall_forall.
  - rewrite Hlen, swrap_small; lens.
  - step. eexists. split; [done|]. exact Hr.
Qed.

Lemma sdstoupper_spec s bs :
  rep s bs -> zlen bs < 2 ^ 31 ->
  exists s', sdstoupper s = Some s' /\ rep s' (toupper <$> bs).
Proof.
  intros Hs Hlt. assert (Hlen : sds_len s = zlen bs) by apply Hs. unfold sdstoupper.
  destruct (rep_map s bs (fun c => Some (toupper c)) toupper (s32 (sds_len s)) Hs)
    as (buf & -> & Hr).
  - by apply Forall_forall.
  - rewrite Hlen, swrap_small; lens.
  - step. eexists. split; [done|]. exact Hr.
Qed.

(** *** [sdscmp] *)

(** The lexicographic order on byte strings, a proper prefix first. *)
Fixpoint lex (a b : list Z) : comparison :=
  match a, b with
  | [], [] => Eq
  | [], _ => Lt
  | _, [] => Gt
  | x :: a, y :: b => match x ?= y with Eq => lex a b | c => c end
  end.

Lemma memcmp_lex a : forall b a' b',
  length a = length b ->
  (memcmp a b = 0 /\ lex (a ++ a') (b ++ b') = lex a' b') \/
  (memcmp a b <> 0 /\ (memcmp a b ?= 0) = lex (a ++ a') (b ++ b')).
Proof.
  induction a as [|x a IH]; intros [|y b] a' b' Hl; simpl in Hl; try lia; [by left|].
  cbn [memcmp lex app]. destruct (Z.compare_spec x y) as [->|Hlt|Hgt].
  - rewrite !Z.ltb_irrefl. apply IH. lia.
  - right. destruct (Z.ltb_spec x y); [done|lia].
  - right. destruct (Z.ltb_spec x y); [lia|]. by destruct (Z.ltb_spec y x); [|lia].
Qed.

Lemma lex_antisym a : forall b, lex b a = CompOpp (lex a b).
Proof.
  induction a as [|x a IH]; intros [|y b]; try done. cbn [lex].
  rewrite (Z.compare_antisym x y). destruct (x ?= y); cbn; [apply IH|done|done].
Qed.

Lemma lex_eq a : forall b, lex a b = Eq <-> a = b.
Proof.
  induction a as [|x a IH]; intros [|y b]; cbn [lex]; try (split; congruence).
  destruct (Z.compare_spec x y) as [->|Hlt|Hgt].
  - rewrite IH. split; congruence.
  - split; [done|]. intros [=]. lia.
  - split; [done|]. intros [=]. lia.
Qed.

Lemma lex_trans a : forall b c, lex a b = Lt -> lex b c = Lt -> lex a c = Lt.
Proof.
  induction a as [|x a IH]; intros [|y b] [|w c]; try done. cbn [lex].
  destruct (Z.compare_spec x y) as [->|Hlt|Hgt], (Z.compare_spec y w) as [->|Hlt'|Hgt'];
    try done.
  - apply IH.
  - intros _ _. by rewrite (proj2 (Z.compare_lt_iff x w)) by done.
  - intros _ _. rewrite (proj2 (Z.compare_lt_iff x w)) by lia. done.
Qed.

(** Two terminated byte strings compared on the shorter length, then by length. *)
Lemma compare_prefixes a b ta tb :
  zlen a < 2 ^ 31 -> zlen b < 2 ^ 31 ->
  let n := if zlen a <? zlen b then zlen a else zlen b in
  exists c, (x ← mem_read (a ++ ta) 0 n; y ← mem_read (b ++ tb) 0 n;
    let cmp := memcmp x y in
    if cmp =? 0 then Some (s32 (zlen a -[64] zlen b)) else Some cmp) = Some c /\
    (c ?= 0) = lex a b.
Proof.
  intros Ha Hb n.
  assert (Hn : 0 <= n <= zlen a /\ n <= zlen b /\ (n = zlen a \/ n = zlen b))
    by (unfold n; destruct (Z.ltb_spec (zlen a) (zlen b)); lens).
  clearbody n. destruct Hn as (Hna & Hnb & Hor).
  destruct (slice_split a 0 n) as (p & a1 & a2 & -> & Hp & Ha1 & _); [lia|lia|lia|].
  destruct (slice_split b 0 n) as (q & b1 & b2 & -> & Hq & Hb1 & _); [lia|lia|lia|].
  destruct p; [|rewrite zlen_cons in Hp; lens].
  destruct q; [|rewrite zlen_cons in Hq; lens]. cbn [app] in *.
  rewrite <- !app_assoc, !mem_read_prefix by done. step. cbv zeta.
  destruct (memcmp_lex a1 b1 a2 b2) as [[-> ->]|[Hne Hc]].
  - unfold zlen in *. lia.
  - rewrite Z.eqb_refl. eexists. split; [done|]. rewrite !zlen_app in *.
    rewrite s32_u64, swrap_small by lens.
    destruct Hor as [Hor|Hor].
    + destruct a2; [|rewrite zlen_cons in Hor; lens]. change (zlen (@nil Z)) with 0.
      destruct b2; simpl lex; rewrite ?zlen_cons; [by apply Z.compare_eq_iff; lens|].
      apply Z.compare_lt_iff. lens.
    + destruct b2; [|rewrite zlen_cons in Hor; lens]. change (zlen (@nil Z)) with 0.
      destruct a2; simpl lex; rewrite ?zlen_cons; [by apply Z.compare_eq_iff; lens|].
      apply Z.compare_gt_iff. lens.
  - destruct (Z.eqb_spec (memcmp a1 b1) 0); [done|]. by exists (memcmp a1 b1).
Qed.

Lemma sdscmp_spec s1 s2 a b :
  rep s1 a -> rep s2 b -> zlen a < 2 ^ 31 -> zlen b < 2 ^ 31 ->
  exists c, sdscmp s1 s2 = Some c /\ (c ?= 0) = lex a b.
Proof.
  intros (ta & -> & _)%rep_inv (tb & -> & _)%rep_inv Ha Hb. unfold sdscmp.
  cbn [sds_len sds_buf]. by apply compare_prefixes.
Qed.

(** ** Sequences of operations *)

(** What a client does with a string it owns. *)
Inductive sdsop :=
  | OpNewDup
  | OpUpdateLen
  | OpClear
  | OpMakeRoom (addlen : Z)
  | OpRemoveFree
  | OpCut (n : Z)
  | OpRead (bs : list Z)
  | OpGrowZero (len : Z)
  | OpCat (t : list Z) (len : Z)
  | OpCpy (t : list Z) (len : Z)
  | OpTrim (cs : list Z)
  | OpRange (start last : Z)
  | OpMapChars (from to : list Z)
  | OpLower
  | OpUpper.

Definition exec (s : sds) (op : sdsop) : option sds :=
  match op with
  | OpNewDup => sdsdup s
  | OpUpdateLen => sdsupdatelen s
  | OpClear => sdsclear s
  | OpMakeRoom n => Some (sdsMakeRoomFor s n)
  | OpRemoveFree => Some (sdsRemoveFreeSpace s)
  | OpCut n => sdsIncrLen s (- n)
  | OpRead bs => sdsread s bs
  | OpGrowZero n => sdsgrowzero s n
  | OpCat t n => sdscatlen s t n
  | OpCpy t n => sdscpylen s t n
  | OpTrim cs => sdstrim s (cs ++ [0])
  | OpRange a b => sdsrange s a b
  | OpMapChars from to => sdsmapchars s from to (zlen from)
  | OpLower => sdstolower s
  | OpUpper => sdstoupper s
  end.

Fixpoint exec_all (s : sds) (ops : list sdsop) : option sds :=
  match ops with
  | [] => Some s
  | op :: ops => s ← exec s op; exec_all s ops
  end.
End Alloc.

(** The same operations on plain byte lists. *)
Fixpoint until_zero (l : list Z) : list Z :=
  match l with
  | [] => []
  | c :: l => if c =? 0 then [] else c :: until_zero l
  end.

Definition spec (bs : list Z) (op : sdsop) : list Z :=
  match op with
  | OpNewDup | OpMakeRoom _ | OpRemoveFree => bs
  | OpUpdateLen => until_zero bs
  | OpClear => []
  | OpCut n => take (Z.to_nat (zlen bs - n)) bs
  | OpRead ts => bs ++ ts
  | OpGrowZero n => bs ++ replicate (Z.to_nat (n - zlen bs)) 0
  | OpCat t n => bs ++ take (Z.to_nat n) t
  | OpCpy t n => take (Z.to_nat n) t
  | OpTrim cs => trim_bytes cs bs
  | OpRange a b => range_bytes bs a b
  | OpMapChars from to => mapped from to <$> bs
  | OpLower => tolower <$> bs
  | OpUpper => toupper <$> bs
  end.

(** The arguments a caller may give: what is read is there, and the string
    stays below 2 GB. *)
Definition valid (bs : list Z) (op : sdsop) : bool :=
  (zlen bs <? 2 ^ 31 - 1) &&
  match op with
  | OpNewDup | OpUpdateLen | OpClear | OpRemoveFree | OpLower | OpUpper => true
  | OpMakeRoom n => (0 <=? n) && (zlen bs + n <? 2 ^ 31)
  | OpCut n => (0 <? n) && (n <=? zlen bs)
  | OpRead ts => zlen bs + zlen ts <? 2 ^ 31
  | OpGrowZero n => (0 <=? n) && (n <? 2 ^ 31)
  | OpCat t n => (0 <=? n) && (n <=? zlen t) && (zlen bs + n <? 2 ^ 31)
  | OpCpy t n => (0 <=? n) && (n <=? zlen t) && (n <? 2 ^ 31)
  | OpTrim cs => negb (bool_decide (0 ∈ cs))
  | OpRange a b => bool_decide (in_s 32 a /\ in_s 32 b /\ b <> 2 ^ 31 - 1)
  | OpMapChars from to => bool_decide (length from = length to)
  end.

Fixpoint valid_all (bs : list Z) (ops : list sdsop) : bool :=
  match ops with
  | [] => true
  | op :: ops => valid bs op && valid_all (spec bs op) ops
  end.

Lemma until_zero_spec bs : forall a k,
  bs ++ [0] = a ++ 0 :: k -> 0 ∉ a -> until_zero bs = a.
Proof.
  induction bs as [|b bs IH]; intros [|x a] k E Hn; simpl in *.
  - done.
  - injection E as <- E. destruct a; discriminate.
  - by injection E as -> E.
  - injection E as -> E. apply not_elem_of_cons in Hn as [Hx Hn].
    destruct (Z.eqb_spec x 0); [lia|]. by rewrite (IH a k).
Qed.

Lemma mem_read_take t n :
  0 <= n <= zlen t -> mem_read t 0 n = Some (take (Z.to_nat n) t).
Proof. intros. unfold mem_read. rewrite decide_True by lia. by rewrite drop_0. Qed.

Ltac valid_cases :=
  repeat match goal with
  | H : _ && _ = true |- _ => apply andb_true_iff in H as [? ?]
  | H : (_ <=? _) = true |- _ => apply Z.leb_le in H
  | H : (_ <? _) = true |- _ => apply Z.ltb_lt in H
  | H : bool_decide _ = true |- _ => apply bool_decide_eq_true in H
  | H : negb _ = true |- _ => apply negb_true_iff, bool_decide_eq_false in H
  end.

Lemma sds_exec_spec junk s bs op :
  rep s bs -> valid bs op = true ->
  exists s', exec junk s op = Some s' /\ rep s' (spec bs op).
Proof.
  intros Hs Hv. unfold valid in Hv.
  destruct op; cbn [exec spec] in *; valid_cases.
  - apply sdsdup_spec; [done|lens].
  - destruct (sdsupdatelen_spec s bs) as (s' & a & k & -> & E & Hn & Hr); [done|cint|].
    exists s'. by rewrite (until_zero_spec bs a k).
  - by apply (sdsclear_spec s bs).
  - eexists. split; [done|]. apply sdsMakeRoomFor_rep; [done|lia|lens].
  - eexists. split; [done|]. by apply sdsRemoveFreeSpace_spec.
  - apply sdsIncrLen_cut; [done|cint|done].
  - apply sdsread_spec; [done|lens|lens].
  - apply sdsgrowzero_spec; [done|lens].
  - apply sdscatlen_spec; [done| |lens]. apply mem_read_take. lia.
  - apply (sdscpylen_spec junk s bs); [done| |lens]. apply mem_read_take. lia.
  - by apply sdstrim_spec.
  - destruct_and!. apply sdsrange_spec; (done || cint).
  - by apply sdsmapchars_spec.
  - apply sdstolower_spec; [done|cint].
  - apply sdstoupper_spec; [done|cint].
Qed.

Lemma sds_exec_all_spec junk ops : forall s bs,
  rep s bs -> valid_all bs ops = true ->
  exists s', exec_all junk s ops = Some s' /\ rep s' (fold_left spec ops bs).
Proof.
  induction ops as [|op ops IH]; intros s bs Hs Hv; [by exists s|].
  apply andb_true_iff in Hv as [H1 H2].
  destruct (sds_exec_spec junk s bs op Hs H1) as (s' & E & Hs').
  cbn [exec_all fold_left]. rewrite E. step. by apply IH.
Qed.

(** C13: strings created by [sdsnewlen] and changed by any sequence of calls
    with valid arguments keep the header invariant -- the recorded length is
    the number of bytes held, they are followed by a zero, and [len], [free]
    and the terminator account for the whole allocation -- and hold exactly the
    bytes the same operations give on plain byte lists; no call reads or writes
    outside the allocation, whatever uninitialised memory contains. *)
Theorem sds_ops_refine junk t n ops
    (Hn : 0 <= n <= zlen t) (Hlt : n < 2 ^ 31)
    (Hv : valid_all (take (Z.to_nat n) t) ops = true) :
  exists s0 s tail,
    sdsnewlen junk (Some t) n = Some s0 /\ exec_all junk s0 ops = Some s /\
    let bs := fold_left spec ops (take (Z.to_nat n) t) in
    s = mkSds (zlen bs) (zlen tail) (bs ++ 0 :: tail) /\
    sdsAllocSize s = sizeof_sdshdr + zlen (sds_buf s).
Proof.
  destruct (sdsnewlen_spec junk t n (take (Z.to_nat n) t)) as (s0 & E0 & Hs0 & _);
    [by apply mem_read_take|lens|].
  destruct (sds_exec_all_spec junk ops s0 _ Hs0 Hv) as (s & E & Hs).
  apply rep_inv in Hs as (tail & -> & Hb). eexists s0, _, tail.
  split; [done|]. split; [done|]. split; [done|].
  unfold sdsAllocSize, sizeof_sdshdr. cbn [sds_len sds_free sds_buf].
  rewrite zlen_app, zlen_cons.
  rewrite !(u64_id _) by (rewrite ?(u64_id _) by (rewrite ?(u64_id _) by lens; lens); lens).
  lia.
Qed.

Lemma sds_ops_refine_witness :
  exists s0 s tail,
    sdsnewlen (fun _ => 170) (Some (bytes_of "  Hello ")) 8 = Some s0 /\
    exec_all (fun _ => 170) s0
      [OpTrim [32]; OpCat (bytes_of ", World") 7; OpRange (-5) (-1); OpUpper;
       OpCut 1; OpGrowZero 6; OpUpdateLen; OpRemoveFree] = Some s /\
    let bs := fold_left spec
      [OpTrim [32]; OpCat (bytes_of ", World") 7; OpRange (-5) (-1); OpUpper;
       OpCut 1; OpGrowZero 6; OpUpdateLen; OpRemoveFree]
      (take (Z.to_nat 8) (bytes_of "  Hello ")) in
    s = mkSds (zlen bs) (zlen tail) (bs ++ 0 :: tail) /\
    sdsAllocSize s = sizeof_sdshdr + zlen (sds_buf s).
Proof.
  apply sds_ops_refine; [vm_compute; intuition congruence|reflexivity|].
  vm_compute. reflexivity.
Defined.

(** C29: [sdscmp] orders strings lexicographically by unsigned bytes, a proper
    prefix first: the sign of its result is the comparison of the bytes held,
    and both strings' spare memory is irrelevant. *)
Theorem sdscmp_lexicographic s1 s2 a b
    (H1 : rep s1 a) (H2 : rep s2 b)
    (La : zlen a < 2 ^ 31) (Lb : zlen b < 2 ^ 31) :
  exists c, sdscmp s1 s2 = Some c /\ (c ?= 0) = lex a b /\
    (c = 0 <-> a = b).
Proof.
  destruct (sdscmp_spec s1 s2 a b H1 H2 La Lb) as (c & Ec & Hc).
  exists c. split; [done|]. split; [done|].
  rewrite <- Z.compare_eq_iff, Hc. clear. revert b.
  induction a as [|x a IH]; intros [|y b]; simpl; try (split; congruence).
  destruct (Z.compare_spec x y) as [->|Hlt|Hgt].
  - rewrite IH. split; congruence.
  - split; [done|]. intros [=]. lia.
  - split; [done|]. intros [=]. lia.
Qed.

Lemma sdscmp_lexicographic_witness :
  exists c, sdscmp (mkSds 2 0 [97; 98; 0]) (mkSds 1 2 [97; 0; 7; 7]) = Some c /\
    (c ?= 0) = lex [97; 98] [97] /\ (c = 0 <-> [97; 98] = [97]).
Proof.
  apply sdscmp_lexicographic; [| |done|done].
  - split; [done|]. split; [vm_compute; intuition congruence|]. by exists [].
  - split; [done|]. split; [vm_compute; intuition congruence|]. by exists [7; 7].
Defined.
