(* ===== verification/SdsText.v ===== *)
(** Text operations on dynamic strings (sds.c): decimal conversion
    ([sdsll2str], [sdsull2str]), formatted appending ([sdscatfmt]), splitting
    and joining ([sdssplitlen], [sdsjoin]), and the quoted notation that
    [sdscatrepr] writes and [sdssplitargs] reads. *)
From Stdlib Require Import ZArith Lia.
From stdpp Require Import sets list numbers option.
From S2P Require Import Prelude Util Glob Sds.
Local Open Scope c_scope.

(** ** Decimal conversion *)

(** [do *p++ = '0'+(v%10); v /= 10; while(v)]. *)
Fixpoint digit_loop (fuel : nat) (buf : list Z) (p v : Z) : option (list Z * Z) :=
  match fuel with
  | O => None
  | S fuel =>
      buf ← zset buf p (48 + v mod 10);
      let v := v / 10 in
      if v =? 0 then Some (buf, p + 1) else digit_loop fuel buf (p + 1) v
  end.

(** [while(s < p)]: the two ends swapped inwards. *)
Fixpoint reverse_loop (fuel : nat) (buf : list Z) (s p : Z) : option (list Z) :=
  match fuel with
  | O => None
  | S fuel =>
      if s <? p then
        aux ← znth buf s;
        x ← znth buf p;
        buf ← zset buf s x;
        buf ← zset buf p aux;
        reverse_loop fuel buf (s + 1) (p - 1)
      else Some buf
  end.

(** The result is the buffer and the length returned.  Negating [LLONG_MIN]
    overflows a signed integer, which is undefined. *)
Definition sdsll2str (s : list Z) (value : Z) : option (list Z * Z) :=
  v ← (if value <? 0 then if value =? LLONG_MIN then None else Some (- value)
       else Some value);
  '(s, p) ← digit_loop 20 s 0 v;
  '(s, p) ← (if value <? 0 then s ← zset s p 45; Some (s, p + 1) else Some (s, p));
  let l := p in
  s ← zset s p 0;
  s ← reverse_loop 20 s 0 (p - 1);
  Some (s, l).

Definition sdsull2str (s : list Z) (v : Z) : option (list Z * Z) :=
  '(s, p) ← digit_loop 20 s 0 v;
  let l := p in
  s ← zset s p 0;
  s ← reverse_loop 20 s 0 (p - 1);
  Some (s, l).

(** ** Quoted notation: one character *)

Definition is_hex_digit (c : Z) : bool :=
  ((48 <=? c) && (c <=? 57)) || ((97 <=? c) && (c <=? 102)) ||
  ((65 <=? c) && (c <=? 70)).

Definition hex_digit_to_int (c : Z) : Z :=
  if (48 <=? c) && (c <=? 57) then c - 48
  else if (97 <=? c) && (c <=? 102) then c - 87
  else if (65 <=? c) && (c <=? 70) then c - 55
  else 0.

(** The [switch] of [sdssplitargs] on the byte after a backslash. *)
Definition unescape (c : Z) : Z :=
  if c =? 110 then 10
  else if c =? 114 then 13
  else if c =? 116 then 9
  else if c =? 98 then 8
  else if c =? 97 then 7
  else c.

Section Text.
Context (junk : nat -> Z).
Notation sdscatlen := (sdscatlen junk).
Notation sdscat := (sdscat junk).
Notation sdsnewlen := (sdsnewlen junk).
Notation sdsMakeRoomFor := (sdsMakeRoomFor junk).

Definition sdsfromlonglong (value : Z) : option sds :=
  '(buf, len) ← sdsll2str (realloc junk [] SDS_LLSTR_SIZE) value;
  sdsnewlen (Some buf) len.

(** ** Formatted appending *)

(** The arguments of a variadic call, as [va_arg] takes them. *)
Inductive va :=
  | VaStr (str : list Z)
  | VaSds (s : sds)
  | VaInt (n : Z)
  | VaLL (n : Z)
  | VaUInt (n : Z)
  | VaULL (n : Z).

(** Room, [memcpy(s+i,str,l)], and the header and [i] moved by [l]. *)
Definition catfmt_copy (s : sds) (i : Z) (str : list Z) (l : Z)
    : option (sds * Z) :=
  let l := u32 l in
  let s := if sds_free s <? l then sdsMakeRoomFor s l else s in
  bs ← mem_read str 0 l;
  buf ← mem_write (sds_buf s) i bs;
  Some (mkSds (sds_len s +[32] l) (sds_free s -[32] l) buf, s32 (i + l)).

(** [s[i++] = c] with the header moved by one. *)
Definition catfmt_char (s : sds) (i c : Z) : option (sds * Z) :=
  buf ← zset (sds_buf s) i c;
  Some (mkSds (sds_len s +[32] 1) (sds_free s -[32] 1) buf, s32 (i + 1)).

(** One conversion: the byte after a percent sign and the arguments left. *)
Definition catfmt_conv (s : sds) (i next : Z) (ap : list va)
    : option (sds * Z * list va) :=
  if next =? 115 then
    match ap with
    | VaStr str :: ap =>
        l ← strlen str; '(s, i) ← catfmt_copy s i str l; Some (s, i, ap)
    | _ => None
    end
  else if next =? 83 then
    match ap with
    | VaSds str :: ap =>
        '(s, i) ← catfmt_copy s i (sds_buf str) (sds_len str); Some (s, i, ap)
    | _ => None
    end
  else if (next =? 105) || (next =? 73) then
    num ← match ap with
          | VaInt n :: _ => if next =? 105 then Some n else None
          | VaLL n :: _ => if next =? 105 then None else Some n
          | _ => None
          end;
    '(buf, l) ← sdsll2str (realloc junk [] SDS_LLSTR_SIZE) num;
    '(s, i) ← catfmt_copy s i buf l; Some (s, i, tail ap)
  else if (next =? 117) || (next =? 85) then
    unum ← match ap with
           | VaUInt n :: _ => if next =? 117 then Some n else None
           | VaULL n :: _ => if next =? 117 then None else Some n
           | _ => None
           end;
    '(buf, l) ← sdsull2str (realloc junk [] SDS_LLSTR_SIZE) unum;
    '(s, i) ← catfmt_copy s i buf l; Some (s, i, tail ap)
  else '(s, i) ← catfmt_char s i next; Some (s, i, ap).

Fixpoint catfmt_loop (fuel : nat) (fmt : list Z) (s : sds) (i f : Z)
    (ap : list va) : option (sds * Z) :=
  match fuel with
  | O => None
  | S fuel =>
      c ← znth fmt f;
      if c =? 0 then Some (s, i)
      else
        let s := if sds_free s =? 0 then sdsMakeRoomFor s 1 else s in
        if c =? 37 then
          next ← znth fmt (f + 1);
          '(s, i, ap) ← catfmt_conv s i next ap;
          catfmt_loop fuel fmt s i (f + 2) ap
        else
          '(s, i) ← catfmt_char s i c;
          catfmt_loop fuel fmt s i (f + 1) ap
  end.

Definition sdscatfmt (s : sds) (fmt : list Z) (ap : list va) : option sds :=
  '(s, i) ← catfmt_loop (S (length fmt)) fmt s (s32 (sds_len s)) 0 ap;
  buf ← zset (sds_buf s) i 0;
  Some (mkSds (sds_len s) (sds_free s) buf).

(** ** Splitting and joining *)

(** [tokens] holds [elements] strings; a store past [slots] is undefined. *)
Definition push_token (slots : Z) (tokens : list sds) (t : sds)
    : option (list sds) :=
  if zlen tokens <? slots then Some (tokens ++ [t]) else None.

(** The test of the [if] on the separator at position [j]. *)
Definition sep_at (s : list Z) (j : Z) (sep : list Z) (seplen : Z) : option bool :=
  one ← andthen (Some (seplen =? 1))
          (x ← znth s j; y ← znth sep 0; Some (x =? y));
  if (one : bool) then Some true
  else a ← mem_read s j seplen; b ← mem_read sep 0 seplen;
       Some (memcmp a b =? 0).

Fixpoint split_loop (fuel : nat) (s : list Z) (len : Z) (sep : list Z)
    (seplen j start slots : Z) (tokens : list sds) : option (list sds) :=
  match fuel with
  | O => None
  | S fuel =>
      if j <? len - (seplen - 1) then
        slots ← (if slots <? zlen tokens + 2 then int_ok (slots * 2) else Some slots);
        found ← sep_at s j sep seplen;
        if (found : bool) then
          t ← sdsnewlen (Some (drop (Z.to_nat start) s)) (j - start);
          tokens ← push_token slots tokens t;
          split_loop fuel s len sep seplen (j + seplen - 1 + 1) (j + seplen)
            slots tokens
        else split_loop fuel s len sep seplen (j + 1) start slots tokens
      else
        t ← sdsnewlen (Some (drop (Z.to_nat start) s)) (len - start);
        push_token slots tokens t
  end.

(** [Some None] is the null pointer; the tokens come with their count. *)
Definition sdssplitlen (s : list Z) (len : Z) (sep : list Z) (seplen : Z)
    : option (option (list sds)) :=
  if (seplen <? 1) || (len <? 0) then Some None
  else if len =? 0 then Some (Some [])
  else
    tokens ← split_loop (S (Z.to_nat len)) s len sep seplen 0 0 5 [];
    Some (Some tokens).

Fixpoint join_loop (join : sds) (argv : list (list Z)) (j argc : Z) (sep : list Z)
    : option sds :=
  match argv with
  | [] => Some join
  | a :: argv =>
      join ← sdscat join a;
      join ← (if negb (j =? argc - 1) then sdscat join sep else Some join);
      join_loop join argv (j + 1) argc sep
  end.

Definition sdsjoin (argv : list (list Z)) (sep : list Z) : option sds :=
  join ← sdsempty junk;
  join_loop join argv 0 (zlen argv) sep.

(** ** The quoted notation *)

(** [while(len--)]: one character escaped and appended per round.
    [sdscatprintf] formats into a buffer and appends it as a C string. *)
Fixpoint repr_loop (s : sds) (p : list Z) : option sds :=
  match p with
  | [] => Some s
  | c :: p =>
      s ← (if (c =? 92) || (c =? 34) then sdscat s [92; c; 0]
           else if c =? 10 then sdscatlen s [92; 110; 0] 2
           else if c =? 13 then sdscatlen s [92; 114; 0] 2
           else if c =? 9 then sdscatlen s [92; 116; 0] 2
           else if c =? 7 then sdscatlen s [92; 97; 0] 2
           else if c =? 8 then sdscatlen s [92; 98; 0] 2
           else if isprint c then sdscat s [c; 0]
           else sdscat s [92; 120; hexdigit (c / 16); hexdigit (c mod 16); 0]);
      repr_loop s p
  end.

Definition sdscatrepr (s : sds) (p : list Z) (len : Z) : option sds :=
  s ← sdscatlen s [34; 0] 1;
  bs ← mem_read p 0 len;
  s ← repr_loop s bs;
  sdscatlen s [34; 0] 1.

(** [while] over the blanks at [p]. *)
Fixpoint skip_blanks (fuel : nat) (line : list Z) (p : Z) : option Z :=
  match fuel with
  | O => None
  | S fuel =>
      c ← znth line p;
      if negb (c =? 0) && isspace c then skip_blanks fuel line (p + 1) else Some p
  end.

(** The scanner inside a token: position, the two quote modes, [done] and the
    token so far. *)
Record scanner := mkScan { sp : Z; inq : bool; insq : bool; fin : bool; cur : sds }.

(** [closing quote must be followed by a space or nothing at all]. *)
Definition closing_ok (line : list Z) (p : Z) : option bool :=
  x ← znth line (p + 1); Some ((x =? 0) || isspace x).

(** The body of [while(!done)] up to its last line; [Some None] is
    [goto err]. *)
Definition scan_char (line : list Z) (st : scanner) : option (option scanner) :=
  let p := sp st in
  c ← znth line p;
  if inq st then
    hex ← andthen (Some (c =? 92)) (andthen (x ← znth line (p + 1); Some (x =? 120))
          (andthen (x ← znth line (p + 2); Some (is_hex_digit x))
                   (x ← znth line (p + 3); Some (is_hex_digit x))));
    if (hex : bool) then
      a ← znth line (p + 2);
      b ← znth line (p + 3);
      let byte := u8 (hex_digit_to_int a * 16 + hex_digit_to_int b) in
      cur ← sdscatlen (cur st) [byte] 1;
      Some (Some (mkScan (p + 3) true (insq st) false cur))
    else
      esc ← andthen (Some (c =? 92)) (x ← znth line (p + 1); Some (negb (x =? 0)));
      if (esc : bool) then
        let p := p + 1 in
        x ← znth line p;
        cur ← sdscatlen (cur st) [unescape x] 1;
        Some (Some (mkScan p true (insq st) false cur))
      else if c =? 34 then
        ok ← closing_ok line p;
        if (ok : bool) then Some (Some (mkScan p true (insq st) true (cur st)))
        else Some None
      else if c =? 0 then Some None
      else
        cur ← sdscatlen (cur st) [c] 1;
        Some (Some (mkScan p true (insq st) false cur))
  else if insq st then
    esc ← andthen (Some (c =? 92)) (x ← znth line (p + 1); Some (x =? 39));
    if (esc : bool) then
      cur ← sdscatlen (cur st) [39; 0] 1;
      Some (Some (mkScan (p + 1) false true false cur))
    else if c =? 39 then
      ok ← closing_ok line p;
      if (ok : bool) then Some (Some (mkScan p false true true (cur st)))
      else Some None
    else if c =? 0 then Some None
    else
      cur ← sdscatlen (cur st) [c] 1;
      Some (Some (mkScan p false true false cur))
  else if (c =? 32) || (c =? 10) || (c =? 13) || (c =? 9) || (c =? 0) then
    Some (Some (mkScan p false false true (cur st)))
  else if c =? 34 then Some (Some (mkScan p true false false (cur st)))
  else if c =? 39 then Some (Some (mkScan p false true false (cur st)))
  else
    cur ← sdscatlen (cur st) [c] 1;
    Some (Some (mkScan p false false false cur)).

(** [while(!done)], with the conditional [p++] after each round. *)
Fixpoint scan_token (fuel : nat) (line : list Z) (st : scanner)
    : option (option (Z * sds)) :=
  match fuel with
  | O => None
  | S fuel =>
      r ← scan_char line st;
      match r with
      | None => Some None
      | Some st =>
          c ← znth line (sp st);
          let p := if c =? 0 then sp st else sp st + 1 in
          if fin st then Some (Some (p, cur st))
          else scan_token fuel line
                 (mkScan p (inq st) (insq st) false (cur st))
      end
  end.

Fixpoint splitargs_loop (fuel : nat) (line : list Z) (p : Z) (vector : list sds)
    : option (option (list sds)) :=
  match fuel with
  | O => None
  | S fuel =>
      p ← skip_blanks (S (length line)) line p;
      c ← znth line p;
      if c =? 0 then Some (Some vector)
      else
        current ← sdsempty junk;
        r ← scan_token (S (length line)) line (mkScan p false false false current);
        match r with
        | None => Some None
        | Some (p, current) => splitargs_loop fuel line p (vector ++ [current])
        end
  end.

(** [Some None] is the null pointer returned for unbalanced quotes. *)
Definition sdssplitargs (line : list Z) : option (option (list sds)) :=
  splitargs_loop (S (length line)) line 0 [].

(** ** Decimal conversion is correct *)

Lemma digit_loop_spec fuel : forall a old k v,
  (0 < fuel)%nat -> 0 <= v < 10 ^ Z.of_nat fuel ->
  length old = length (dec_rec fuel v) ->
  digit_loop fuel (a ++ old ++ k) (zlen a) v =
  Some (a ++ reverse (dec_rec fuel v) ++ k, zlen a + zlen (dec_rec fuel v)).
Proof.
  induction fuel as [|fuel IH]; intros a old k v Hf Hv Hl; [lia|].
  rewrite Nat2Z.inj_succ, Z.pow_succ_r in Hv by lia.
  cbn [digit_loop dec_rec] in *. destruct (Z.ltb_spec v 10) as [Hlt|Hge].
  - destruct old as [|x [|]]; try discriminate. cbn [app].
    rewrite zset_app_mid by done. step. rewrite Z.div_small, Z.mod_small by lia.
    done.
  - rewrite length_app in Hl. simpl in Hl. destruct old as [|x old]; [simpl in *; lia|].
    cbn [app]. rewrite zset_app_mid by done. step.
    pose proof (Z.div_str_pos v 10 ltac:(lia)).
    pose proof (Z.div_lt_upper_bound v 10 (10 ^ Z.of_nat fuel) ltac:(lia) ltac:(lia)).
    destruct (Z.eqb_spec (v / 10) 0) as [E|E]; [lia|].
    replace (a ++ 48 + v mod 10 :: old ++ k) with ((a ++ [48 + v mod 10]) ++ old ++ k)
      by (by rewrite <- app_assoc).
    rewrite <- zlen_app_one with (x := 48 + v mod 10).
    rewrite IH; [|destruct fuel; [change (10 ^ Z.of_nat 0) with 1 in Hv|]; lia|lia|simpl in Hl; lia].
    f_equal. f_equal.
    + by rewrite reverse_snoc, <- app_assoc.
    + rewrite !zlen_app_one. lia.
Qed.

Lemma reverse_loop_spec fuel : forall a m k,
  (length m < 2 * fuel)%nat ->
  reverse_loop fuel (a ++ m ++ k) (zlen a) (zlen a + zlen m - 1) =
  Some (a ++ reverse m ++ k).
Proof.
  induction fuel as [|fuel IH]; intros a m k Hl; [lia|]. cbn [reverse_loop].
  destruct m as [|x m].
  { change (zlen (@nil Z)) with 0. by destruct (Z.ltb_spec (zlen a) (zlen a + 0 - 1)); [lia|]. }
  destruct m as [|y m _] using rev_ind.
  { rewrite zlen_one. by destruct (Z.ltb_spec (zlen a) (zlen a + 1 - 1)); [lia|]. }
  rewrite zlen_cons, zlen_app_one. destruct (Z.ltb_spec (zlen a) (zlen a + (1 + (zlen m + 1)) - 1)); [|lens].
  replace (a ++ (x :: m ++ [y]) ++ k) with (a ++ x :: m ++ y :: k)
    by (by rewrite <- app_comm_cons, <- app_assoc).
  rewrite (znth_app_mid a _ x (zlen a)) by done. step.
  replace (a ++ x :: m ++ y :: k) with ((a ++ x :: m) ++ y :: k)
    by (by rewrite <- app_assoc, <- app_comm_cons).
  rewrite znth_app_mid by (rewrite zlen_app, zlen_cons; lia). step.
  rewrite <- app_assoc, <- app_comm_cons. rewrite zset_app_mid by done. step.
  replace (a ++ y :: m ++ y :: k) with ((a ++ y :: m) ++ y :: k)
    by (by rewrite <- app_assoc, <- app_comm_cons).
  rewrite zset_app_mid by (rewrite zlen_app, zlen_cons; lia). step.
  replace ((a ++ y :: m) ++ x :: k) with ((a ++ [y]) ++ m ++ x :: k)
    by (by rewrite <- !app_assoc).
  rewrite <- zlen_app_one with (x := y).
  replace (zlen a + (1 + (zlen m + 1)) - 1 - 1) with (zlen (a ++ [y]) + zlen m - 1)
    by (rewrite zlen_app_one; lia).
  rewrite IH by (simpl in Hl; rewrite length_app in Hl; simpl in Hl; lia).
  f_equal. rewrite reverse_cons, reverse_snoc. by rewrite <- !app_assoc.
Qed.

Lemma dec_rec_length n : forall v, (length (dec_rec n v) <= n)%nat.
Proof.
  induction n as [|n IH]; intros v; simpl; [lia|]. case_match; simpl; [lia|].
  rewrite length_app. simpl. specialize (IH (v / 10)). lia.
Qed.

Lemma dec_length v : (length (dec v) <= 20)%nat.
Proof. apply dec_rec_length. Qed.

Lemma dec_length_pos v : 0 <= v <= 2 ^ 63 -> (length (dec v) <= 19)%nat.
Proof.
  intros Hv. unfold dec. rewrite (dec_rec_fuel 19 20) by (try lia; cint).
  apply dec_rec_length.
Qed.

Lemma digits_spec old k v :
  in_u 64 v -> length old = length (dec v) ->
  digit_loop 20 (old ++ k) 0 v = Some (reverse (dec v) ++ k, zlen (dec v)).
Proof.
  intros Hv Hl. apply (digit_loop_spec 20 [] old k v); [lia| |exact Hl].
  change (10 ^ Z.of_nat 20) with 100000000000000000000. cint.
Qed.

(** A buffer of [SDS_LLSTR_SIZE] bytes has room for the digits. *)
Lemma buf_room (buf d : list Z) :
  (length d < length buf)%nat -> exists old x k,
    buf = old ++ x :: k /\ length old = length d.
Proof.
  intros H. destruct (buf_split buf (zlen d)) as (old & x & k & E & Ho).
  { unfold zlen. lia. }
  exists old, x, k. split; [done|]. unfold zlen in Ho. lia.
Qed.

Lemma sdsull2str_spec buf v :
  in_u 64 v -> (20 < length buf)%nat ->
  exists k, sdsull2str buf v = Some (dec v ++ 0 :: k, zlen (dec v)) /\
    length (dec v ++ 0 :: k) = length buf.
Proof.
  intros Hv Hb. pose proof (dec_length v).
  destruct (buf_room buf (dec v)) as (old & x & k & -> & Ho); [lia|].
  unfold sdsull2str. rewrite digits_spec by done. step.
  rewrite zset_app_mid by (by rewrite zlen_reverse). step.
  pose proof (reverse_loop_spec 20 [] (reverse (dec v)) (0 :: k)) as Hr.
  rewrite zlen_reverse, reverse_involutive in Hr. cbn [app] in Hr.
  change (zlen (@nil Z)) with 0 in Hr. rewrite Z.add_0_l in Hr.
  rewrite Hr by (rewrite length_reverse; lia). step. exists k. split; [done|].
  rewrite !length_app. simpl. lia.
Qed.

Lemma sdsll2str_spec buf v :
  in_s 64 v -> v <> LLONG_MIN -> (20 < length buf)%nat ->
  exists k, sdsll2str buf v = Some (sdec v ++ 0 :: k, zlen (sdec v)) /\
    length (sdec v ++ 0 :: k) = length buf.
Proof.
  intros Hv Hmin Hb. unfold sdsll2str, sdec, LLONG_MIN in *.
  destruct (Z.ltb_spec v 0) as [Hn|Hp].
  - destruct (Z.eqb_spec v (- 2 ^ 63)) as [|_]; [done|]. step.
    assert (Hu : in_u 64 (- v)) by cint.
    pose proof (dec_length_pos (- v) ltac:(cint)) as Hd.
    destruct (buf_room buf (dec (- v) ++ [45])) as (old & x & k & -> & Ho);
      [rewrite length_app; simpl; lia|].
    rewrite length_app in Ho. simpl in Ho.
    destruct old as [|y old _] using rev_ind; [simpl in Ho; lia|].
    rewrite length_app in Ho. simpl in Ho. rewrite <- app_assoc. cbn [app].
    rewrite digits_spec by (done || lia). step.
    rewrite zset_app_mid by (by rewrite zlen_reverse). step.
    replace (reverse (dec (- v)) ++ 45 :: x :: k)
      with ((reverse (dec (- v)) ++ [45]) ++ x :: k) by (by rewrite <- app_assoc).
    rewrite zset_app_mid by (by rewrite zlen_app_one, zlen_reverse). step.
    rewrite <- reverse_cons.
    pose proof (reverse_loop_spec 20 [] (reverse (45 :: dec (- v))) (0 :: k)) as Hr.
    rewrite zlen_reverse, reverse_involutive in Hr. cbn [app] in Hr.
    change (zlen (@nil Z)) with 0 in Hr. rewrite Z.add_0_l, zlen_cons in Hr.
    replace (zlen (dec (- v)) + 1 - 1) with (1 + zlen (dec (- v)) - 1) by lia.
    rewrite Hr by (rewrite length_reverse; simpl; lia). step. exists k. split.
    + f_equal. f_equal. rewrite zlen_cons. lia.
    + rewrite !length_app. simpl. rewrite length_app. simpl. lia.
  - step. pose proof (dec_length v).
    assert (Hu : in_u 64 v) by cint.
    destruct (buf_room buf (dec v)) as (old & x & k & -> & Ho); [lia|].
    rewrite digits_spec by done. step.
    rewrite zset_app_mid by (by rewrite zlen_reverse). step.
    pose proof (reverse_loop_spec 20 [] (reverse (dec v)) (0 :: k)) as Hr.
    rewrite zlen_reverse, reverse_involutive in Hr. cbn [app] in Hr.
    change (zlen (@nil Z)) with 0 in Hr. rewrite Z.add_0_l in Hr.
    rewrite Hr by (rewrite length_reverse; lia). step. exists k. split; [done|].
    rewrite !length_app. simpl. lia.
Qed.

(** ** [sdscatfmt] *)

(** Between two bytes of the format the terminator may be missing: [s] holds
    [bs] at its start and [free] counts one byte less than what follows. *)
Definition raw (s : sds) (bs : list Z) : Prop :=
  sds_len s = zlen bs /\ in_u 32 (zlen bs + sds_free s) /\ 0 <= sds_free s /\
  exists tail, sds_buf s = bs ++ tail /\ zlen tail = sds_free s + 1.

Lemma rep_raw s bs : rep s bs -> raw s bs.
Proof.
  intros (tail & -> & Hb)%rep_inv. split; [done|]. split; [done|]. cbn [sds_free sds_buf].
  split; [lens|]. exists (0 :: tail). split; [done|]. rewrite zlen_cons. lia.
Qed.

Lemma raw_room s bs n :
  raw s bs -> 0 <= n -> fits (zlen bs + n) ->
  raw (sdsMakeRoomFor s n) bs /\ n <= sds_free (sdsMakeRoomFor s n).
Proof.
  intros (Hl & Hb & Hf & tail & Hbuf & Ht) Hn Hfit.
  destruct (sdsMakeRoomFor_spec junk s n) as (j & -> & Hroom & Hu);
    [rewrite Hl; lens|by rewrite Hl|rewrite Hbuf, zlen_app; lia|done|by rewrite Hl|].
  split; [|done]. split; [done|]. cbn [sds_len sds_free sds_buf] in *.
  rewrite Hl in Hu. split; [done|]. split; [lens|].
  exists (tail ++ j). rewrite Hbuf, app_assoc, zlen_app. split; [done|lia].
Qed.

(** Bytes stored at the end of a string that has room for them. *)
Lemma raw_put s bs ts l :
  raw s bs -> zlen ts <= sds_free s -> l = zlen ts ->
  exists buf, mem_write (sds_buf s) (zlen bs) ts = Some buf /\
    raw (mkSds (sds_len s +[32] l) (sds_free s -[32] l) buf) (bs ++ ts).
Proof.
  intros (Hl & Hb & Hf & tail & -> & Ht) Hle ->.
  destruct (buf_split tail (zlen ts)) as (old & x & rest & -> & Ho); [lens|].
  exists (bs ++ ts ++ x :: rest). rewrite mem_write_app by (done || lia).
  split; [done|]. rewrite zlen_app, zlen_cons in Ht.
  rewrite Hl, u32_id, u32_id by lens. unfold raw. cbn [sds_len sds_free sds_buf].
  rewrite zlen_app. split; [done|]. split; [lens|]. split; [lens|].
  exists (x :: rest). rewrite <- app_assoc, zlen_cons. split; [done|lia].
Qed.

Lemma catfmt_copy_spec s bs t l ts :
  raw s bs -> mem_read t 0 l = Some ts -> zlen bs + l < 2 ^ 31 ->
  exists s', catfmt_copy s (zlen bs) t l = Some (s', zlen (bs ++ ts)) /\
    raw s' (bs ++ ts).
Proof.
  intros Hs Hr Hlt. pose proof (mem_read_spec _ _ _ _ Hr) as (_ & H0 & Hz & _).
  unfold catfmt_copy. rewrite (u32_id l) by lens. cbv zeta. rewrite Hr.
  set (s1 := if sds_free s <? l then _ else _).
  assert (H1 : raw s1 bs /\ l <= sds_free s1).
  { unfold s1. destruct (Z.ltb_spec (sds_free s) l); [|done].
    apply raw_room; [done|done|lens]. }
  clearbody s1. destruct H1 as [H1 Hle]. step.
  destruct (raw_put s1 bs ts l H1) as (buf & -> & Hraw); [lia|lia|]. step.
  rewrite swrap_small by lens. rewrite zlen_app, Hz. by eexists.
Qed.

Lemma catfmt_char_spec s bs c :
  raw s bs -> 1 <= sds_free s -> zlen bs + 1 < 2 ^ 31 ->
  exists s', catfmt_char s (zlen bs) c = Some (s', zlen (bs ++ [c])) /\
    raw s' (bs ++ [c]).
Proof.
  intros Hs Hf Hlt. destruct (raw_put s bs [c] 1 Hs) as (buf & Hw & Hraw); [done|done|].
  destruct Hs as (Hl & Hb & _ & tail & Hbuf & Ht).
  unfold catfmt_char. rewrite Hbuf in *.
  destruct tail as [|x tail]; [change (zlen (@nil Z)) with 0 in Ht; lia|].
  rewrite zset_app_mid by done. step.
  pose proof (mem_write_app bs [x] [c] tail (zlen bs) eq_refl eq_refl) as Hw'.
  cbn [app] in Hw'. rewrite Hw' in Hw. injection Hw as <-.
  rewrite swrap_small by lens. rewrite zlen_app_one. by eexists.
Qed.

(** One piece of a format: how it is written, its argument, its output. *)
Inductive piece :=
  | PChar (c : Z)
  | PStr (bs rest : list Z)
  | PSds (s : sds) (bs : list Z)
  | PInt (n : Z)
  | PLL (n : Z)
  | PUInt (n : Z)
  | PULL (n : Z)
  | POther (c : Z).

Definition piece_fmt (p : piece) : list Z :=
  match p with
  | PChar c => [c]
  | PStr _ _ => [37; 115]
  | PSds _ _ => [37; 83]
  | PInt _ => [37; 105]
  | PLL _ => [37; 73]
  | PUInt _ => [37; 117]
  | PULL _ => [37; 85]
  | POther c => [37; c]
  end.

Definition piece_arg (p : piece) : list va :=
  match p with
  | PChar _ | POther _ => []
  | PStr bs rest => [VaStr (bs ++ 0 :: rest)]
  | PSds s _ => [VaSds s]
  | PInt n => [VaInt n]
  | PLL n => [VaLL n]
  | PUInt n => [VaUInt n]
  | PULL n => [VaULL n]
  end.

Definition piece_out (p : piece) : list Z :=
  match p with
  | PChar c | POther c => [c]
  | PStr bs _ | PSds _ bs => bs
  | PInt n | PLL n => sdec n
  | PUInt n | PULL n => dec n
  end.

Definition piece_ok (p : piece) : Prop :=
  match p with
  | PChar c => c <> 0 /\ c <> 37
  | PStr bs _ => 0 ∉ bs
  | PSds s bs => rep s bs
  | PInt n => in_s 32 n
  | PLL n => in_s 64 n /\ n <> LLONG_MIN
  | PUInt n => in_u 32 n
  | PULL n => in_u 64 n
  | POther c => c ∉ [0; 115; 83; 105; 73; 117; 85]
  end.

Lemma llstr_room : (20 < length (realloc junk [] SDS_LLSTR_SIZE))%nat.
Proof. rewrite realloc_length. unfold SDS_LLSTR_SIZE. lia. Qed.

Lemma ll_copy s bs n ap :
  raw s bs -> in_s 64 n -> n <> LLONG_MIN -> zlen bs + zlen (sdec n) < 2 ^ 31 ->
  exists s',
    ('(buf, l) ← sdsll2str (realloc junk [] SDS_LLSTR_SIZE) n;
     '(s, i) ← catfmt_copy s (zlen bs) buf l; Some (s, i, ap : list va)) =
    Some (s', zlen (bs ++ sdec n), ap) /\ raw s' (bs ++ sdec n).
Proof.
  intros Hs Hn Hmin Hlt.
  destruct (sdsll2str_spec _ n Hn Hmin llstr_room) as (k & -> & _). step.
  destruct (catfmt_copy_spec s bs (sdec n ++ 0 :: k) (zlen (sdec n)) (sdec n))
    as (s' & -> & Hr); [done|by apply mem_read_prefix|done|]. step. by exists s'.
Qed.

Lemma ull_copy s bs n ap :
  raw s bs -> in_u 64 n -> zlen bs + zlen (dec n) < 2 ^ 31 ->
  exists s',
    ('(buf, l) ← sdsull2str (realloc junk [] SDS_LLSTR_SIZE) n;
     '(s, i) ← catfmt_copy s (zlen bs) buf l; Some (s, i, ap : list va)) =
    Some (s', zlen (bs ++ dec n), ap) /\ raw s' (bs ++ dec n).
Proof.
  intros Hs Hn Hlt.
  destruct (sdsull2str_spec _ n Hn llstr_room) as (k & -> & _). step.
  destruct (catfmt_copy_spec s bs (dec n ++ 0 :: k) (zlen (dec n)) (dec n))
    as (s' & -> & Hr); [done|by apply mem_read_prefix|done|]. step. by exists s'.
Qed.

(** One conversion after a percent sign. *)
Lemma catfmt_conv_spec s bs p next ap :
  raw s bs -> 1 <= sds_free s -> piece_ok p -> piece_fmt p = [37; next] ->
  zlen bs + zlen (piece_out p) < 2 ^ 31 ->
  exists s', catfmt_conv s (zlen bs) next (piece_arg p ++ ap) =
      Some (s', zlen (bs ++ piece_out p), ap) /\
    raw s' (bs ++ piece_out p).
Proof.
  intros Hs Hf Hok Hfmt Hlt.
  destruct p; cbn [piece_fmt piece_arg piece_out piece_ok app] in *;
    try discriminate; injection Hfmt as <-; unfold catfmt_conv; cbn [tail].
  - change (115 =? 115) with true. cbn match. rewrite strlen_spec by done. step.
    destruct (catfmt_copy_spec s bs (bs0 ++ 0 :: rest) (zlen bs0) bs0)
      as (s' & -> & Hr); [done|by apply mem_read_prefix|lia|]. step. by exists s'.
  - change (83 =? 115) with false. change (83 =? 83) with true. cbn match.
    apply rep_inv in Hok as (tail & -> & _). cbn [sds_len sds_buf].
    destruct (catfmt_copy_spec s bs (bs0 ++ 0 :: tail) (zlen bs0) bs0)
      as (s' & -> & Hr); [done|by apply mem_read_prefix|lia|]. step. by exists s'.
  - change (105 =? 115) with false. change (105 =? 83) with false.
    change (105 =? 105) with true. cbn [orb]. step.
    apply ll_copy; [done|cint|unfold LLONG_MIN; cint|done].
  - change (73 =? 115) with false. change (73 =? 83) with false.
    change (73 =? 105) with false. change (73 =? 73) with true. cbn [orb]. step.
    destruct Hok. by apply ll_copy.
  - change (117 =? 115) with false. change (117 =? 83) with false.
    change (117 =? 105) with false. change (117 =? 73) with false.
    change (117 =? 117) with true. cbn [orb]. step.
    apply ull_copy; [done|cint|done].
  - change (85 =? 115) with false. change (85 =? 83) with false.
    change (85 =? 105) with false. change (85 =? 73) with false.
    change (85 =? 117) with false. change (85 =? 85) with true. cbn [orb]. step.
    by apply ull_copy.
  - rewrite !not_elem_of_cons in Hok. destruct_and!.
    rewrite !(proj2 (Z.eqb_neq _ _)) by done. cbn [orb].
    rewrite zlen_one in Hlt.
    destruct (catfmt_char_spec s bs c Hs Hf Hlt) as (s' & -> & Hr). step. by exists s'.
Qed.

Definition fmt_of (ps : list piece) : list Z := concat (piece_fmt <$> ps).
Definition args_of (ps : list piece) : list va := concat (piece_arg <$> ps).
Definition out_of (ps : list piece) : list Z := concat (piece_out <$> ps).

(** The loop consumes the pieces and stops in front of [k]. *)
Lemma catfmt_loop_spec ps : forall fuel a s bs k ap,
  raw s bs -> Forall piece_ok ps -> zlen bs + zlen (out_of ps) < 2 ^ 31 ->
  (length (fmt_of ps) < fuel)%nat ->
  exists s' fuel', raw s' (bs ++ out_of ps) /\ (0 < fuel')%nat /\
    catfmt_loop fuel (a ++ fmt_of ps ++ k) s (zlen bs) (zlen a) (args_of ps ++ ap) =
    catfmt_loop fuel' (a ++ fmt_of ps ++ k) s' (zlen (bs ++ out_of ps))
      (zlen (a ++ fmt_of ps)) ap.
Proof.
  induction ps as [|p ps IH]; intros fuel a s bs k ap Hs Hok Hlt Hf.
  { exists s, fuel. unfold fmt_of, out_of, args_of. simpl. rewrite !app_nil_r.
    split; [done|]. split; [lia|done]. }
  inversion Hok as [|? ? Hp Hok']; subst. unfold fmt_of, out_of, args_of in *.
  rewrite !fmap_cons in *. cbn [concat] in *. rewrite zlen_app in Hlt.
  rewrite length_app in Hf. destruct fuel as [|fuel]; [lia|].
  assert (H1 : exists s1, (if sds_free s =? 0 then sdsMakeRoomFor s 1 else s) = s1 /\
            raw s1 bs /\ 1 <= sds_free s1).
  { eexists. split; [done|]. pose proof (zlen_nonneg (concat (piece_out <$> ps))).
    destruct (Z.eqb_spec (sds_free s) 0).
    - apply raw_room; [done|lia|lens].
    - split; [done|]. destruct Hs as (_ & _ & ? & _). lia. }
  destruct H1 as (s1 & E1 & Hs1 & Hf1).
  assert (Hlt1 : zlen bs + zlen (piece_out p) < 2 ^ 31)
    by (pose proof (zlen_nonneg (concat (piece_out <$> ps))); lia).
  assert (Hstep : exists s2 fuel2, raw s2 (bs ++ piece_out p) /\
    (length (concat (piece_fmt <$> ps)) < fuel2)%nat /\
    catfmt_loop (S fuel) (a ++ (piece_fmt p ++ concat (piece_fmt <$> ps)) ++ k) s
      (zlen bs) (zlen a) ((piece_arg p ++ concat (piece_arg <$> ps)) ++ ap) =
    catfmt_loop fuel2 ((a ++ piece_fmt p) ++ concat (piece_fmt <$> ps) ++ k) s2
      (zlen (bs ++ piece_out p)) (zlen (a ++ piece_fmt p))
      (concat (piece_arg <$> ps) ++ ap)).
  { rewrite <- !app_assoc.
    assert (Hcase : (exists c, p = PChar c) \/ exists next, piece_fmt p = [37; next])
      by (destruct p; [left|right..]; by eexists).
    destruct Hcase as [[c ->]|[next Hnext]].
    - cbn [piece_fmt piece_arg piece_out piece_ok app] in *. destruct Hp as [Hc0 Hc37].
      destruct (catfmt_char_spec s1 bs c Hs1 Hf1 Hlt1) as (s2 & E2 & Hs2).
      exists s2, fuel. split; [done|]. split; [simpl in Hf; lia|].
      cbn [catfmt_loop]. rewrite (znth_app_mid a _ c (zlen a)) by done. step.
      rewrite (proj2 (Z.eqb_neq c 0)), (proj2 (Z.eqb_neq c 37)) by done. cbv zeta.
      rewrite E1, E2. step. by rewrite (zlen_app_one a c).
    - destruct (catfmt_conv_spec s1 bs p next (concat (piece_arg <$> ps) ++ ap) Hs1 Hf1 Hp Hnext Hlt1)
        as (s2 & E2 & Hs2).
      exists s2, fuel. rewrite Hnext in *. split; [done|]. split; [simpl in Hf; lia|].
      cbn [catfmt_loop app]. rewrite (znth_app_mid a _ 37 (zlen a)) by done. step.
      change (37 =? 0) with false. change (37 =? 37) with true. cbv zeta. cbn match.
      replace (a ++ 37 :: next :: concat (piece_fmt <$> ps) ++ k)
        with ((a ++ [37]) ++ next :: concat (piece_fmt <$> ps) ++ k)
        by (by rewrite <- app_assoc).
      rewrite znth_app_mid by (by rewrite zlen_app_one). step.
      rewrite E1, E2. step. rewrite <- app_assoc. cbn [app]. f_equal.
      rewrite zlen_app. done. }
  destruct Hstep as (s2 & fuel2 & Hs2 & Hf2 & ->).
  destruct (IH fuel2 (a ++ piece_fmt p) s2 (bs ++ piece_out p) k ap Hs2 Hok')
    as (s3 & fuel3 & Hs3 & Hf3 & ->); [rewrite zlen_app; lia|done|].
  exists s3, fuel3. rewrite <- !app_assoc in *. done.
Qed.

Lemma sdscatfmt_run s bs ps k :
  rep s bs -> Forall piece_ok ps -> zlen bs + zlen (out_of ps) < 2 ^ 31 ->
  exists s' fuel, raw s' (bs ++ out_of ps) /\ (0 < fuel)%nat /\
    catfmt_loop (S (length (fmt_of ps ++ k))) (fmt_of ps ++ k) s
      (s32 (sds_len s)) 0 (args_of ps) =
    catfmt_loop fuel (fmt_of ps ++ k) s' (zlen (bs ++ out_of ps))
      (zlen (fmt_of ps)) [].
Proof.
  intros Hs Hok Hlt. assert (Hl : sds_len s = zlen bs) by apply Hs.
  rewrite Hl, swrap_small by lens.
  destruct (catfmt_loop_spec ps (S (length (fmt_of ps ++ k))) [] s bs k [] (rep_raw s bs Hs) Hok Hlt)
    as (s' & fuel & Hr & Hf & E); [rewrite length_app; lia|].
  exists s', fuel. split; [done|]. split; [done|].
  cbn [app] in E. rewrite app_nil_r in E. exact E.
Qed.

Lemma sdscatfmt_ok s bs ps :
  rep s bs -> Forall piece_ok ps -> zlen bs + zlen (out_of ps) < 2 ^ 31 ->
  exists s', sdscatfmt s (fmt_of ps ++ [0]) (args_of ps) = Some s' /\
    rep s' (bs ++ out_of ps).
Proof.
  intros Hs Hok Hlt.
  destruct (sdscatfmt_run s bs ps [0] Hs Hok Hlt) as (s' & [|fuel] & Hr & Hf & E); [lia|].
  unfold sdscatfmt. rewrite E. cbn [catfmt_loop].
  rewrite (znth_app_mid (fmt_of ps) _ 0 (zlen (fmt_of ps))) by done. step. change (0 =? 0) with true. cbn match. step.
  destruct Hr as (Hl' & Hb & Hf0 & tail & Hbuf & Ht). rewrite Hbuf.
  destruct tail as [|x tail]; [change (zlen (@nil Z)) with 0 in Ht; lia|].
  rewrite zset_app_mid by done. step. eexists. split; [done|].
  rewrite zlen_cons in Ht. rewrite Hl'. apply rep_intro; [lia|done].
Qed.

(** A format that ends in a lone percent sign is read past its terminator. *)
Lemma sdscatfmt_lone_percent s bs ps :
  rep s bs -> Forall piece_ok ps -> zlen bs + zlen (out_of ps) + 1 < 2 ^ 31 ->
  sdscatfmt s (fmt_of ps ++ [37; 0]) (args_of ps) = None.
Proof.
  intros Hs Hok Hlt.
  destruct (sdscatfmt_run s bs ps [37; 0] Hs Hok) as (s' & [|fuel] & Hr & Hf & E);
    [lia|lia|].
  unfold sdscatfmt. rewrite E. cbn [catfmt_loop].
  rewrite (znth_app_mid (fmt_of ps) _ 37 (zlen (fmt_of ps))) by done. step. change (37 =? 0) with false.
  change (37 =? 37) with true. cbv zeta. cbn match.
  replace (fmt_of ps ++ [37; 0]) with ((fmt_of ps ++ [37]) ++ [0])
    by (by rewrite <- app_assoc).
  rewrite (znth_app_mid (fmt_of ps ++ [37]) [] 0) by (by rewrite zlen_app_one). step.
  set (s1 := if sds_free s' =? 0 then _ else _).
  unfold catfmt_conv. rewrite !(proj2 (Z.eqb_neq _ _)) by done. cbn [orb].
  destruct (catfmt_char s1 _ 0) as [[s2 i2]|]; [|done]. step.
  destruct fuel as [|fuel]; [done|]. cbn [catfmt_loop].
  rewrite (znth_ge ((fmt_of ps ++ [37]) ++ [0]) (zlen (fmt_of ps) + 2))
    by (rewrite !zlen_app_one; lia).
  reflexivity.
Qed.

(** ** Splitting and joining are correct *)

(** [ts] are the pieces of [l] between the leftmost, non-overlapping
    occurrences of [sep]. *)
Inductive splits (sep : list Z) : list Z -> list (list Z) -> Prop :=
  | splits_last l :
      (forall a b, l <> a ++ sep ++ b) -> splits sep l [l]
  | splits_cons t l ts :
      (forall a b, t ++ sep ++ l = a ++ sep ++ b -> (length t <= length a)%nat) ->
      splits sep l ts -> splits sep (t ++ sep ++ l) (t :: ts).

Fixpoint join_bytes (sep : list Z) (ts : list (list Z)) : list Z :=
  match ts with
  | [] => []
  | [t] => t
  | t :: ts => t ++ sep ++ join_bytes sep ts
  end.

Lemma splits_join sep l ts : splits sep l ts -> join_bytes sep ts = l.
Proof.
  induction 1 as [l Hno|t l ts Hfirst Hs IH]; [done|].
  assert (E : join_bytes sep (t :: ts) = t ++ sep ++ join_bytes sep ts)
    by (by destruct Hs).
  by rewrite E, IH.
Qed.

Lemma memcmp_eq a : forall b, length a = length b -> memcmp a b = 0 <-> a = b.
Proof.
  induction a as [|x a IH]; intros [|y b] Hl; simpl in Hl; try lia; [done|].
  cbn [memcmp]. destruct (Z.ltb_spec x y); [split; [done|intros [=]; lia]|].
  destruct (Z.ltb_spec y x); [split; [done|intros [=]; lia]|].
  rewrite IH by lia. split; [intros ->; f_equal; lia|by intros [=]].
Qed.

(** The test at position [j]: is there a separator there? *)
Lemma sep_test a rest k sep j :
  j = zlen a -> 1 <= zlen sep <= zlen rest ->
  exists b, sep_at (a ++ rest ++ k) j sep (zlen sep) = Some b /\
    (b = true <-> exists l, rest = sep ++ l).
Proof.
  intros -> Hz. destruct (slice_split rest 0 (zlen sep)) as (p & m & l & -> & Hp & Hm & _);
    [lia|lia|lia|].
  destruct p; [|rewrite zlen_cons in Hp; lens]. cbn [app].
  assert (Hiff : (exists l', m ++ l = sep ++ l') <-> m = sep).
  { split; [|by intros ->; exists l]. intros [l' E].
    apply (app_inj_1 _ _ _ _) in E; [by destruct E|]. unfold zlen in Hm. lia. }
  assert (Hb : forall x, memcmp m sep =? 0 = x -> (x = true <-> exists l', m ++ l = sep ++ l')).
  { intros x <-. rewrite Hiff, Z.eqb_eq. apply memcmp_eq. unfold zlen in Hm. lia. }
  assert (Hread : (a0 ← mem_read (a ++ (m ++ l) ++ k) (zlen a) (zlen sep);
                   b ← mem_read sep 0 (zlen sep); Some (memcmp a0 b =? 0))
                  = Some (memcmp m sep =? 0)).
  { rewrite <- app_assoc, mem_read_app by done. step.
    pose proof (mem_read_prefix sep [] (zlen sep) eq_refl) as E.
    rewrite app_nil_r in E. by rewrite E. }
  unfold sep_at, andthen. step. destruct (Z.eqb_spec (zlen sep) 1) as [H1|H1].
  - destruct m as [|x m]; [change (zlen (@nil Z)) with 0 in Hm; lia|].
    destruct sep as [|y sep]; [change (zlen (@nil Z)) with 0 in Hm; lia|].
    cbn [app]. rewrite znth_app_mid by done. rewrite znth_cons_0. step.
    destruct (Z.eqb_spec x y) as [->|Hne].
    + exists true. split; [done|]. split; [|done]. intros _. apply Hiff.
      rewrite zlen_cons in *. destruct m, sep; try (rewrite !zlen_cons in *; lens). done.
    + cbn [app] in Hread. rewrite Hread. eexists. split; [done|]. by apply Hb.
  - rewrite Hread. eexists. split; [done|]. by apply Hb.
Qed.

Lemma split_loop_spec k sep : forall fuel d c rest slots tokens,
  1 <= zlen sep -> zlen (d ++ c ++ rest) < 2 ^ 29 ->
  zlen tokens < slots <= 2 ^ 30 -> zlen tokens <= zlen d ->
  (forall a b, c ++ rest = a ++ sep ++ b -> (length c <= length a)%nat) ->
  (length rest < fuel)%nat ->
  exists tokens' ts,
    split_loop fuel (d ++ c ++ rest ++ k) (zlen (d ++ c ++ rest)) sep (zlen sep)
      (zlen (d ++ c)) (zlen d) slots tokens = Some (tokens ++ tokens') /\
    Forall2 rep tokens' ts /\ splits sep (c ++ rest) ts.
Proof.
  induction fuel as [|fuel IH]; intros d c rest slots tokens Hsep Hlen Hsl Htk Hno Hf; [lia|].
  cbn [split_loop].
  assert (Hdrop : drop (Z.to_nat (zlen d)) (d ++ c ++ rest ++ k) = c ++ rest ++ k)
    by (unfold zlen; by rewrite Nat2Z.id, drop_app_length).
  rewrite Hdrop.
  destruct (Z.ltb_spec (zlen (d ++ c)) (zlen (d ++ c ++ rest) - (zlen sep - 1))) as [Hin|Hend].
  - assert (Hslots : exists slots',
      (if slots <? zlen tokens + 2 then int_ok (slots * 2) else Some slots) = Some slots' /\
      zlen tokens + 1 < slots' <= 2 ^ 30).
    { rewrite !zlen_app in *. destruct (Z.ltb_spec slots (zlen tokens + 2)).
      - exists (slots * 2). unfold int_ok. rewrite decide_True by lens. split; [done|lens].
      - exists slots. split; [done|lia]. }
    destruct Hslots as (slots' & -> & Hsl'). step.
    rewrite !zlen_app in Hin.
    destruct (sep_test (d ++ c) rest k sep (zlen (d ++ c)) eq_refl) as (b & Hb & Hiff); [lia|].
    rewrite <- app_assoc in Hb. rewrite Hb. step. clear Hb.
    destruct b.
    + destruct (proj1 Hiff eq_refl) as [l ->].
      destruct (sdsnewlen_spec junk (c ++ (sep ++ l) ++ k) (zlen c) c) as (t & Ht & Hrep & _);
        [by apply mem_read_prefix|rewrite !zlen_app in *; lens|].
      replace (zlen (d ++ c) - zlen d) with (zlen c) by (rewrite zlen_app; lia).
      rewrite Ht. step. unfold push_token.
      destruct (Z.ltb_spec (zlen tokens) slots'); [|lia]. step.
      destruct (IH (d ++ c ++ sep) [] l slots' (tokens ++ [t])) as (tk & ts & E & Htk' & Hs).
      * done.
      * rewrite !zlen_app in *. change (zlen (@nil Z)) with 0. lens.
      * rewrite zlen_app_one. lia.
      * rewrite zlen_app_one, !zlen_app in *. lens.
      * intros. simpl. lia.
      * rewrite length_app in Hf. unfold zlen in Hsep. lia.
      * exists (t :: tk), (c :: ts). cbn [app] in E. rewrite app_nil_r in E.
        rewrite <- !app_assoc in *. cbn [app] in *.
        replace (zlen (d ++ c) + zlen sep - 1 + 1) with (zlen (d ++ c ++ sep))
          by (rewrite !zlen_app; lia).
        replace (zlen (d ++ c) + zlen sep) with (zlen (d ++ c ++ sep))
          by (rewrite !zlen_app; lia).
        split; [exact E|]. split; [by constructor|].
        apply splits_cons; [|done]. intros a b Eab. by apply (Hno a b).
    + destruct rest as [|x rest]; [change (zlen (@nil Z)) with 0 in Hin; lia|].
      destruct (IH d (c ++ [x]) rest slots' tokens) as (tk & ts & E & Htk' & Hs).
      * done.
      * rewrite <- app_assoc. done.
      * lia.
      * lia.
      * intros a b Eab. rewrite <- app_assoc in Eab. cbn [app] in Eab.
        pose proof (Hno a b Eab) as Hle.
        destruct (decide (length a = length c)) as [Heq|Hne];
          [|rewrite length_app; simpl; lia].
        apply app_inj_1 in Eab as [_ Eab]; [|lia].
        assert (true = false); [|done]. symmetry. apply Hiff. by exists b.
      * simpl in Hf. lia.
      * exists tk, ts. rewrite <- !app_assoc in *. cbn [app] in *.
        rewrite (app_assoc d c [x]), zlen_app_one in E. done.
  - destruct (sdsnewlen_spec junk (c ++ rest ++ k) (zlen (c ++ rest)) (c ++ rest))
      as (t & Ht & Hrep & _);
      [rewrite app_assoc; by apply mem_read_prefix|rewrite !zlen_app in *; lens|].
    replace (zlen (d ++ c ++ rest) - zlen d) with (zlen (c ++ rest))
      by (rewrite (zlen_app d); lia).
    rewrite Ht. step. unfold push_token.
    destruct (Z.ltb_spec (zlen tokens) slots); [|lia].
    exists [t], [c ++ rest]. split; [done|]. split; [by constructor; [|constructor]|].
    apply splits_last. intros a b E. pose proof (Hno a b E) as Hle.
    apply (f_equal length) in E. rewrite !zlen_app in Hend.
    rewrite !length_app in E. unfold zlen in Hend. lia.
Qed.

Lemma sdscat_spec s bs ts k :
  rep s bs -> 0 ∉ ts -> fits (zlen bs + zlen ts) ->
  exists s', sdscat s (ts ++ 0 :: k) = Some s' /\ rep s' (bs ++ ts).
Proof.
  intros Hs Hn Hfit. unfold Sds.sdscat. rewrite strlen_spec by done. step.
  apply sdscatlen_spec; [done|by apply mem_read_prefix|done].
Qed.

(** [a] is a C string that reads [t]. *)
Definition cstring (a t : list Z) : Prop := 0 ∉ t /\ exists k, a = t ++ 0 :: k.

Lemma join_loop_spec sep csep : cstring csep sep ->
  forall argv ts s bs j argc,
  Forall2 cstring argv ts -> rep s bs -> argc = j + zlen argv ->
  zlen bs + zlen (join_bytes sep ts) < 2 ^ 31 ->
  exists s', join_loop s argv j argc csep = Some s' /\
    rep s' (bs ++ join_bytes sep ts).
Proof.
  intros [Hsep [ks ->]]. induction argv as [|a argv IH]; intros ts s bs j argc Hts Hs Hj Hlt.
  - inversion Hts; subst. exists s. cbn [join_bytes]. by rewrite app_nil_r.
  - inversion Hts as [|? t ? ts' [Ht [k ->]] Hts']; subst. cbn [join_loop].
    rewrite zlen_cons in *.
    destruct argv as [|a' argv].
    + inversion Hts'; subst. cbn [join_bytes] in *.
      destruct (sdscat_spec s bs t k Hs Ht) as (s' & -> & Hs'); [lens|]. step.
      change (zlen (@nil (list Z))) with 0.
      rewrite (proj2 (Z.eqb_eq j _)) by lia. cbn [negb join_loop]. step. by exists s'.
    + inversion Hts' as [|? t' ? ts'' Ha' Hts'']; subst. 
      assert (Hjb : join_bytes sep (t :: t' :: ts'') = t ++ sep ++ join_bytes sep (t' :: ts''))
        by done.
      rewrite Hjb, !zlen_app in *.
      destruct (sdscat_spec s bs t k Hs Ht) as (s1 & -> & Hs1); [lens|]. step.
      rewrite zlen_cons. rewrite (proj2 (Z.eqb_neq j _)) by lens. cbn [negb].
      destruct (sdscat_spec s1 (bs ++ t) sep ks Hs1 Hsep) as (s2 & -> & Hs2);
        [rewrite zlen_app; lens|]. step.
      destruct (IH (t' :: ts'') s2 ((bs ++ t) ++ sep) (j + 1) (j + (1 + (1 + zlen argv))))
        as (s3 & -> & Hs3); [done|done|rewrite zlen_cons; lia|rewrite !zlen_app; lia|].
      exists s3. rewrite <- !app_assoc in *. done.
Qed.

Lemma sdsjoin_spec argv ts csep sep :
  Forall2 cstring argv ts -> cstring csep sep -> zlen (join_bytes sep ts) < 2 ^ 31 ->
  exists s, sdsjoin argv csep = Some s /\ rep s (join_bytes sep ts).
Proof.
  intros Hts Hsep Hlt. unfold sdsjoin.
  destruct (sdsempty_spec junk) as (s0 & -> & Hs0 & _). step.
  apply (join_loop_spec sep csep Hsep argv ts s0 []); [done|done|lia|].
  change (zlen (@nil Z)) with 0. lia.
Qed.

Lemma splits_nozero sep l ts : splits sep l ts -> 0 ∉ l -> Forall (fun t => 0 ∉ t) ts.
Proof.
  induction 1; intros Hn; constructor; try done; [set_solver|].
  apply IHsplits. set_solver. 
Qed.

(** ** The quoted notation *)

(** How one byte is written between double quotes. *)
Definition repr1 (c : Z) : list Z :=
  if (c =? 92) || (c =? 34) then [92; c]
  else if c =? 10 then [92; 110]
  else if c =? 13 then [92; 114]
  else if c =? 9 then [92; 116]
  else if c =? 7 then [92; 97]
  else if c =? 8 then [92; 98]
  else if isprint c then [c]
  else [92; 120; hexdigit (c / 16); hexdigit (c mod 16)].

Definition quoted (p : list Z) : list Z := [34] ++ concat (repr1 <$> p) ++ [34].

Lemma hexdigit_spec n : 0 <= n < 16 ->
  is_hex_digit (hexdigit n) = true /\ hex_digit_to_int (hexdigit n) = n /\
  48 <= hexdigit n <= 102.
Proof.
  intros Hn. assert (H : Forall (fun d => is_hex_digit (hexdigit d) = true /\
    hex_digit_to_int (hexdigit d) = d /\ 48 <= hexdigit d <= 102) (seqZ 0 16)) by by_decide.
  rewrite Forall_forall in H. apply H, elem_of_seqZ. lia.
Qed.

Lemma byte_digits c : byte_ok c ->
  0 <= c / 16 < 16 /\ 0 <= c mod 16 < 16 /\ c / 16 * 16 + c mod 16 = c.
Proof.
  unfold byte_ok. intros Hc. pose proof (Z.div_mod c 16 ltac:(lia)).
  pose proof (Z.mod_pos_bound c 16 ltac:(lia)). lia.
Qed.

Lemma zlen_repr1 c : 1 <= zlen (repr1 c) <= 4.
Proof. unfold repr1. repeat case_match; by vm_compute. Qed.

Lemma repr_loop_spec p : forall s bs,
  rep s bs -> bytes_ok p -> fits (zlen bs + zlen (concat (repr1 <$> p))) ->
  exists s', repr_loop s p = Some s' /\ rep s' (bs ++ concat (repr1 <$> p)).
Proof.
  induction p as [|c p IH]; intros s bs Hs Hok Hfit.
  { exists s. simpl. by rewrite app_nil_r. }
  inversion Hok as [|? ? Hc Hok']; subst. cbn [repr_loop].
  rewrite fmap_cons in *. cbn [concat] in *. rewrite zlen_app in Hfit.
  assert (Hfit1 : fits (zlen bs + zlen (repr1 c))) by lens.
  assert (Hstep : exists s1,
    (if (c =? 92) || (c =? 34) then sdscat s [92; c; 0]
     else if c =? 10 then sdscatlen s [92; 110; 0] 2
     else if c =? 13 then sdscatlen s [92; 114; 0] 2
     else if c =? 9 then sdscatlen s [92; 116; 0] 2
     else if c =? 7 then sdscatlen s [92; 97; 0] 2
     else if c =? 8 then sdscatlen s [92; 98; 0] 2
     else if isprint c then sdscat s [c; 0]
     else sdscat s [92; 120; hexdigit (c / 16); hexdigit (c mod 16); 0]) = Some s1 /\
    rep s1 (bs ++ repr1 c)).
  { clear Hfit. unfold repr1 in *.
    destruct ((c =? 92) || (c =? 34)) eqn:E1.
    { apply (sdscat_spec s bs [92; c] []); [done| |done].
      apply orb_true_iff in E1. rewrite !Z.eqb_eq in E1. set_solver by lia. }
    repeat (match goal with |- context [if c =? ?n then _ else _] =>
      destruct (c =? n); [apply sdscatlen_spec; [done|done|done]|] end).
    destruct (isprint c) eqn:E2.
    { apply (sdscat_spec s bs [c] []); [done| |done].
      unfold isprint in E2. apply andb_true_iff in E2 as [E2 _].
      apply Z.leb_le in E2. set_solver by lia. }
    destruct (byte_digits c Hc) as (H1 & H2 & _).
    destruct (hexdigit_spec _ H1) as (_ & _ & H1').
    destruct (hexdigit_spec _ H2) as (_ & _ & H2').
    apply (sdscat_spec s bs [92; 120; _; _] []); [done| |done].
    set_solver by lia. }
  destruct Hstep as (s1 & -> & Hs1). step.
  destruct (IH s1 (bs ++ repr1 c)) as (s2 & -> & Hs2); [done|done| |].
  - rewrite zlen_app. lens.
  - exists s2. by rewrite app_assoc.
Qed.

Lemma sdscatrepr_spec s bs p k :
  rep s bs -> bytes_ok p -> fits (zlen bs + zlen (quoted p)) ->
  exists s', sdscatrepr s (p ++ k) (zlen p) = Some s' /\ rep s' (bs ++ quoted p).
Proof.
  intros Hs Hok Hfit. unfold sdscatrepr. unfold quoted in *.
  rewrite !zlen_app, zlen_one in Hfit.
  destruct (sdscatlen_spec junk s bs [34; 0] 1 [34] Hs eq_refl) as (s1 & -> & H1); [lens|].
  step. rewrite mem_read_prefix by done. step.
  destruct (repr_loop_spec p s1 (bs ++ [34]) H1 Hok) as (s2 & -> & H2);
    [rewrite zlen_app_one; lens|]. step.
  destruct (sdscatlen_spec junk s2 _ [34; 0] 1 [34] H2 eq_refl) as (s3 & -> & H3);
    [rewrite !zlen_app, zlen_one; lens|].
  exists s3. rewrite <- !app_assoc in H3. done.
Qed.

(** Reading at an offset past a known prefix. *)
Lemma znth_off {A} (a l : list A) i : 0 <= i -> znth (a ++ l) (zlen a + i) = znth l i.
Proof. intros. rewrite znth_app_r by lia. f_equal. lia. Qed.
Lemma znth_off0 {A} (a l : list A) : znth (a ++ l) (zlen a) = znth l 0.
Proof. rewrite znth_app_r by lia. f_equal. lia. Qed.

Definition quoting (p : Z) (c : sds) : scanner := mkScan p true false false c.

(** One byte appended to the current token. *)
Lemma cat_one t bs c k :
  rep t bs -> fits (zlen bs + 1) ->
  exists t', sdscatlen t (c :: k) 1 = Some t' /\ rep t' (bs ++ [c]).
Proof. intros Hs Hf. apply sdscatlen_spec; [done|by apply (mem_read_prefix [c] k)|done]. Qed.

Lemma scan_repr1 fuel a c k t bs :
  byte_ok c -> rep t bs -> fits (zlen bs + 1) ->
  exists t', rep t' (bs ++ [c]) /\
    scan_token (S fuel) (a ++ repr1 c ++ k) (quoting (zlen a) t) =
    scan_token fuel (a ++ repr1 c ++ k) (quoting (zlen (a ++ repr1 c)) t').
Proof.
  intros Hc Hs Hf.
  assert (Hesc : forall x, x <> 120 -> x <> 0 -> unescape x = c -> repr1 c = [92; x] ->
    exists t', rep t' (bs ++ [c]) /\
    scan_token (S fuel) (a ++ repr1 c ++ k) (quoting (zlen a) t) =
    scan_token fuel (a ++ repr1 c ++ k) (quoting (zlen (a ++ repr1 c)) t')).
  { intros x Hx Hx0 Hun ->. destruct (cat_one t bs c [] Hs Hf) as (t' & E & Hr).
    exists t'. split; [done|]. cbn [app scan_token]. unfold scan_char, quoting.
    cbn [sp inq insq fin cur]. unfold andthen.
    rewrite !znth_off0, !znth_off by lia.
    change (znth (92 :: x :: k) 0) with (Some 92).
    change (znth (92 :: x :: k) 1) with (Some x). step.
    change (92 =? 92) with true. cbn match. step.
    rewrite (proj2 (Z.eqb_neq x 120)), (proj2 (Z.eqb_neq x 0)) by done. cbn [negb]. step.
    rewrite Hun. cbv zeta. rewrite E. step. cbn [sp inq insq fin cur].
    rewrite !znth_off by lia.
    change (znth (92 :: x :: k) 1) with (Some x). step.
    rewrite (proj2 (Z.eqb_neq x 0)) by done.
    f_equal. unfold quoting. f_equal. rewrite zlen_app. change (zlen [92; x]) with 2. lia. }
  assert (Hne : c = 92 \/ c = 34 \/ c = 10 \/ c = 13 \/ c = 9 \/ c = 7 \/ c = 8 \/
    (c <> 92 /\ c <> 34 /\ c <> 10 /\ c <> 13 /\ c <> 9 /\ c <> 7 /\ c <> 8)) by lia.
  repeat (destruct Hne as [->|Hne];
    [first [by apply (Hesc 92)|by apply (Hesc 34)|by apply (Hesc 110)|by apply (Hesc 114)
           |by apply (Hesc 116)|by apply (Hesc 97)|by apply (Hesc 98)]|]).
  clear Hesc. destruct_and!.
  assert (Hr1 : repr1 c = if isprint c then [c]
                else [92; 120; hexdigit (c / 16); hexdigit (c mod 16)]).
  { unfold repr1. rewrite !(proj2 (Z.eqb_neq c _)) by done. done. }
  rewrite Hr1. clear Hr1. destruct (cat_one t bs c [] Hs Hf) as (t' & E & Hr).
  exists t'. split; [done|]. destruct (isprint c) eqn:Ep.
  - assert (Hc0 : c <> 0).
    { intros ->. done. }
    cbn [app scan_token]. unfold scan_char, quoting.
    cbn [sp inq insq fin cur]. unfold andthen. rewrite !znth_off0, znth_cons_0. step.
    rewrite (proj2 (Z.eqb_neq c 92)), (proj2 (Z.eqb_neq c 34)), (proj2 (Z.eqb_neq c 0))
      by done. step. rewrite E. step. cbn [sp inq insq fin cur].
    rewrite znth_off0, znth_cons_0. step.
    rewrite (proj2 (Z.eqb_neq c 0)) by done.
    f_equal. unfold quoting. f_equal. by rewrite zlen_app_one.
  - destruct (byte_digits c Hc) as (B1 & B2 & B3).
    destruct (hexdigit_spec _ B1) as (X1 & Y1 & Z1).
    destruct (hexdigit_spec _ B2) as (X2 & Y2 & Z2).
    set (h1 := hexdigit (c / 16)) in *. set (h2 := hexdigit (c mod 16)) in *.
    cbn [app scan_token]. unfold scan_char, quoting.
    cbn [sp inq insq fin cur]. unfold andthen. rewrite !znth_off0, !znth_off by lia.
    change (znth (92 :: 120 :: h1 :: h2 :: k) 0) with (Some 92).
    change (znth (92 :: 120 :: h1 :: h2 :: k) 1) with (Some 120).
    change (znth (92 :: 120 :: h1 :: h2 :: k) 2) with (Some h1).
    change (znth (92 :: 120 :: h1 :: h2 :: k) 3) with (Some h2). step.
    change (92 =? 92) with true. cbn match. step.
    change (120 =? 120) with true. cbn match. step.
    rewrite X1. step. rewrite X2, Y1, Y2, B3. cbv zeta.
    rewrite wrap_small by (unfold byte_ok in Hc; cint). rewrite E. step.
    cbn [sp inq insq fin cur]. rewrite !znth_off by lia.
    change (znth (92 :: 120 :: h1 :: h2 :: k) 3) with (Some h2). step.
    rewrite (proj2 (Z.eqb_neq h2 0)) by lia.
    f_equal. unfold quoting. f_equal. rewrite zlen_app.
    change (zlen [92; 120; h1; h2]) with 4. lia.
Qed.

(** The body of a quoted token, up to its closing quote. *)
Lemma scan_quoted x : forall fuel a k t bs,
  bytes_ok x -> rep t bs -> fits (zlen bs + zlen x) -> (length x < fuel)%nat ->
  exists t' fuel', rep t' (bs ++ x) /\ (0 < fuel')%nat /\
    scan_token fuel (a ++ concat (repr1 <$> x) ++ k) (quoting (zlen a) t) =
    scan_token fuel' (a ++ concat (repr1 <$> x) ++ k)
      (quoting (zlen (a ++ concat (repr1 <$> x))) t').
Proof.
  induction x as [|c x IH]; intros fuel a k t bs Hok Hs Hfit Hf.
  { exists t, fuel. rewrite !app_nil_r. split; [done|]. split; [lia|done]. }
  inversion Hok as [|? ? Hc Hok']; subst. rewrite zlen_cons in Hfit.
  destruct fuel as [|fuel]; [lia|]. rewrite fmap_cons. cbn [concat].
  destruct (scan_repr1 fuel a c (concat (repr1 <$> x) ++ k) t bs Hc Hs) as (t1 & H1 & E1);
    [lens|].
  rewrite <- app_assoc, E1.
  destruct (IH fuel (a ++ repr1 c) k t1 (bs ++ [c])) as (t2 & fuel2 & H2 & Hf2 & E2);
    [done|done|rewrite zlen_app_one; lens|simpl in Hf; lia|].
  exists t2, fuel2. rewrite <- !app_assoc in *. split; [done|]. split; [done|exact E2].
Qed.

(** A blank or the terminator. *)
Definition ends_token (c : Z) : Prop := c = 0 \/ isspace c = true.

Lemma scan_arg x fuel a e k t :
  bytes_ok x -> rep t [] -> fits (zlen x) -> (length x + 2 < fuel)%nat -> ends_token e ->
  exists t', rep t' x /\
    scan_token fuel (a ++ quoted x ++ e :: k) (mkScan (zlen a) false false false t) =
    Some (Some (zlen (a ++ quoted x), t')).
Proof.
  intros Hok Hs Hfit Hf He. destruct fuel as [|fuel]; [lia|]. unfold quoted.
  cbn [scan_token]. unfold scan_char at 1. cbn [sp inq insq fin cur].
  rewrite <- !app_assoc. cbn [app]. rewrite !znth_off0, !znth_cons_0. step.
  change (34 =? 32) with false. change (34 =? 10) with false. change (34 =? 13) with false.
  change (34 =? 9) with false. change (34 =? 0) with false. change (34 =? 34) with true.
  cbn [orb]. cbn match. step. cbn [sp inq insq fin cur].
  rewrite !znth_off0, !znth_cons_0. step. change (34 =? 0) with false. cbn match.
  destruct (scan_quoted x fuel (a ++ [34]) (34 :: e :: k) t [] Hok Hs)
    as (t' & [|fuel'] & Hr & Hf' & E); [done|lia|lia|].
  rewrite zlen_app_one in E. rewrite <- app_assoc in E. cbn [app] in E.
  unfold quoting in E. rewrite E. exists t'. split; [done|].
  cbn [scan_token]. unfold scan_char, closing_ok, andthen. cbn [sp inq insq fin cur].
  set (b := (a ++ [34]) ++ concat (repr1 <$> x)).
  replace (a ++ 34 :: concat (repr1 <$> x) ++ 34 :: e :: k) with (b ++ 34 :: e :: k)
    by (unfold b; by rewrite <- !app_assoc).
  rewrite !znth_off0, !znth_cons_0. step. change (34 =? 92) with false. cbn match. step.
  change (34 =? 34) with true. cbn match.
  rewrite znth_off by lia. change (znth (34 :: e :: k) 1) with (Some e). step.
  replace ((e =? 0) || isspace e) with true.
  2: { destruct He as [->|He]; [done|]. rewrite He. by rewrite orb_true_r. }
  step. cbn [sp inq insq fin cur]. rewrite znth_off0, znth_cons_0. step.
  change (34 =? 0) with false. cbn match. do 3 f_equal.
  unfold b. repeat rewrite ?zlen_app, ?zlen_cons. change (zlen (@nil Z)) with 0. lia.
Qed.

Lemma skip_blanks_spec b : forall fuel a c k,
  Forall (fun x => isspace x = true) b -> c = 0 \/ isspace c = false ->
  (length b < fuel)%nat ->
  skip_blanks fuel (a ++ b ++ c :: k) (zlen a) = Some (zlen (a ++ b)).
Proof.
  induction b as [|x b IH]; intros [|fuel] a c k Hb Hc Hf; simpl in Hf; try lia;
    cbn [skip_blanks].
  - cbn [app]. rewrite znth_off0, znth_cons_0. step. rewrite app_nil_r.
    destruct Hc as [-> | ->]; [done|]. by rewrite andb_false_r.
  - inversion Hb as [|? ? Hx Hb']; subst. cbn [app]. rewrite znth_off0, znth_cons_0. step.
    rewrite Hx. assert (x <> 0) by (intros ->; done).
    rewrite (proj2 (Z.eqb_neq x 0)) by done. cbn [negb andb].
    replace (a ++ x :: b ++ c :: k) with ((a ++ [x]) ++ b ++ c :: k)
      by (by rewrite <- app_assoc).
    rewrite <- zlen_app_one with (x := x). rewrite IH by (done || lia).
    by rewrite <- app_assoc.
Qed.

(** A line: each argument quoted, after some blanks. *)
Definition arg_text (ba : list Z * list Z) : list Z := ba.1 ++ quoted ba.2.
Definition blanks (b : list Z) : Prop := Forall (fun x => isspace x = true) b.
Definition arg_ok (ba : list Z * list Z) : Prop := blanks ba.1 /\ bytes_ok ba.2.

Lemma zlen_quoted x : zlen x + 2 <= zlen (quoted x).
Proof.
  unfold quoted. rewrite !zlen_app, !zlen_one.
  assert (zlen x <= zlen (concat (repr1 <$> x))); [|lia].
  induction x as [|c x IH]; [done|]. rewrite fmap_cons. cbn [concat].
  rewrite zlen_app, zlen_cons. pose proof (zlen_repr1 c). lia.
Qed.

Lemma splitargs_loop_spec args : forall fuel a tr k vec line,
  line = a ++ concat (arg_text <$> args) ++ tr ++ 0 :: k ->
  Forall arg_ok args -> Forall (fun ba => ba.1 <> []) (tail args) -> blanks tr ->
  zlen line < 2 ^ 31 -> (length args < fuel)%nat ->
  exists tokens, splitargs_loop fuel line (zlen a) vec = Some (Some (vec ++ tokens)) /\
    Forall2 rep tokens args.*2.
Proof.
  induction args as [|[b x] args IH]; intros [|fuel] a tr k vec line Hline Hok Htl Htr Hlen Hf;
    simpl in Hf; try lia; cbn [splitargs_loop].
  - cbn [fmap list_fmap concat app] in Hline.
    rewrite Hline, (skip_blanks_spec tr);
      [|done|by left|rewrite !length_app; simpl; lia]. step.
    replace (a ++ tr ++ 0 :: k) with ((a ++ tr) ++ 0 :: k) by (by rewrite <- app_assoc).
    rewrite znth_off0, znth_cons_0. step. exists []. rewrite app_nil_r. by split.
  - inversion Hok as [|? ? [Hb Hx] Hok']; subst. cbn [fst snd] in *.
    set (rest := concat (arg_text <$> args) ++ tr ++ 0 :: k).
    assert (Hrest : exists e k', rest = e :: k' /\ ends_token e).
    { unfold rest. destruct args as [|[b' x'] args].
      - cbn [fmap list_fmap concat app]. destruct tr as [|e tr]; [by exists 0, k; split; [|left]|].
        exists e, (tr ++ 0 :: k). split; [done|]. right. by inversion Htr.
      - cbn [tail] in Htl. inversion Htl as [|? ? Hb' _]; subst. cbn [fst] in Hb'.
        inversion Hok' as [|? ? [Hbl _] _]; subst. cbn [fst] in Hbl.
        destruct b' as [|e b']; [done|]. rewrite fmap_cons. cbn [concat].
        unfold arg_text at 1. cbn [fst snd]. eexists e, _.
        rewrite <- !app_assoc. cbn [app]. split; [done|]. right. by inversion Hbl. }
    destruct Hrest as (e & k' & He & Hend).
    assert (Hline : a ++ concat (arg_text <$> (b, x) :: args) ++ tr ++ 0 :: k
                    = (a ++ b) ++ quoted x ++ e :: k').
    { rewrite fmap_cons. cbn [concat]. unfold arg_text at 1. cbn [fst snd].
      rewrite <- !app_assoc. rewrite <- He. unfold rest. done. }
    rewrite Hline in *.
    assert (Hq : exists q, quoted x = 34 :: q) by (by eexists). destruct Hq as [q Hq].
    assert (Hskip : skip_blanks (S (length ((a ++ b) ++ quoted x ++ e :: k')))
              ((a ++ b) ++ quoted x ++ e :: k') (zlen a) = Some (zlen (a ++ b))).
    { rewrite <- app_assoc, Hq. cbn [app].
      apply skip_blanks_spec; [done|by right|rewrite !length_app; lia]. }
    rewrite Hskip. step.
    assert (H34 : znth ((a ++ b) ++ quoted x ++ e :: k') (zlen (a ++ b)) = Some 34)
      by (rewrite znth_off0, Hq; done).
    rewrite H34. step. change (34 =? 0) with false. cbn match.
    destruct (sdsempty_spec junk) as (s0 & -> & Hs0 & _). step.
    pose proof (zlen_quoted x) as Hzq. rewrite !zlen_app in Hlen.
    destruct (scan_arg x (S (length ((a ++ b) ++ quoted x ++ e :: k'))) (a ++ b) e k' s0)
      as (t & Ht & ->); [done|done|lens| |done|].
    { rewrite !length_app. unfold zlen in Hzq. lia. }
    step. destruct (IH fuel ((a ++ b) ++ quoted x) tr k (vec ++ [t]) ((a ++ b) ++ quoted x ++ e :: k'))
      as (tokens & E & Hall).
    + rewrite <- He. unfold rest. by rewrite <- !app_assoc.
    + done.
    + destruct args; [done|]. by inversion Htl.
    + done.
    + rewrite !zlen_app. lia.
    + lia.
    + exists (t :: tokens). rewrite E, <- app_assoc. split; [done|]. by constructor.
Qed.

(** ** [sdssplitargs] on every line *)

Section Total.
Context (bs k : list Z) (Hbs : 0 ∉ bs) (Hlen : zlen bs < 2 ^ 31).
Notation line := (bs ++ 0 :: k).

Lemma line_at i : 0 <= i <= zlen bs ->
  exists c, znth line i = Some c /\ (c = 0 <-> i = zlen bs).
Proof.
  intros Hi. destruct (decide (i = zlen bs)) as [->|Hne].
  - exists 0. by rewrite znth_off0, znth_cons_0.
  - rewrite znth_app_l by lia. destruct (znth_Some bs i) as [c Hc]; [lia|].
    exists c. split; [done|]. split; [|done]. intros ->. exfalso. apply Hbs.
    unfold znth in Hc. case_decide; [|done]. by eapply list_elem_of_lookup_2.
Qed.

(** The scanner is inside the line and its token is no longer than what was
    read. *)
Definition scan_ok (st : scanner) : Prop :=
  0 <= sp st <= zlen bs /\ exists cb, rep (cur st) cb /\ zlen cb <= sp st.

(** What a round leaves: the token is done, or it stopped on a byte of the
    line; the position never goes back. *)
Definition round_ok (p : Z) (st : scanner) : Prop :=
  p <= sp st <= zlen bs /\ (fin st = true \/ sp st < zlen bs) /\
  exists cb, rep (cur st) cb /\ zlen cb <= (if fin st then sp st else sp st + 1).

Lemma hex_nonzero c : is_hex_digit c = true -> c <> 0.
Proof. by intros H ->. Qed.

Lemma closing_ok_total p : 0 <= p < zlen bs -> exists b, closing_ok line p = Some b.
Proof.
  intros Hp. unfold closing_ok. destruct (line_at (p + 1)) as (c & -> & _); [lia|].
  step. by eexists.
Qed.

(** The two lookaheads of the double-quoted mode. *)
Lemma hex_test p : 0 <= p < zlen bs ->
  forall c, exists b,
    andthen (Some (c =? 92)) (andthen (x ← znth line (p + 1); Some (x =? 120))
      (andthen (x ← znth line (p + 2); Some (is_hex_digit x))
               (x ← znth line (p + 3); Some (is_hex_digit x)))) = Some b /\
    (b = true -> p + 3 < zlen bs).
Proof.
  intros Hp c. unfold andthen. step. destruct (c =? 92); [|by eexists].
  destruct (line_at (p + 1)) as (x & -> & Hx); [lia|]. step.
  destruct (Z.eqb_spec x 120) as [->|]; [|by eexists].
  assert (p + 1 <> zlen bs) by (intros E; by apply Hx in E).
  destruct (line_at (p + 2)) as (y & -> & Hy); [lia|]. step.
  destruct (is_hex_digit y) eqn:Ey; [|by eexists]. apply hex_nonzero in Ey.
  assert (p + 2 <> zlen bs) by (intros E; by apply Hy in E).
  destruct (line_at (p + 3)) as (z & -> & Hz); [lia|]. step. eexists. split; [done|].
  intros Ez%hex_nonzero. assert (p + 3 <> zlen bs) by (intros E; by apply Hz in E). lia.
Qed.

Lemma esc_test p q : 0 <= p < zlen bs -> (q 0 = false) ->
  forall c, exists b,
    andthen (Some (c =? 92)) (x ← znth line (p + 1); Some (q x)) = Some b /\
    (b = true -> p + 1 < zlen bs).
Proof.
  intros Hp Hq c. unfold andthen. step. destruct (c =? 92); [|by eexists].
  destruct (line_at (p + 1)) as (x & -> & Hx); [lia|]. step. eexists. split; [done|].
  intros E. assert (p + 1 <> zlen bs); [|lia]. intros Ep. apply Hx in Ep. congruence.
Qed.

(** A round that appends one byte and stops at [p']. *)
Lemma append_round t cb c k' p p' i1 i2 :
  rep t cb -> zlen cb <= p -> 0 <= p <= p' -> p' < zlen bs ->
  exists r, (cur ← sdscatlen t (c :: k') 1;
             Some (Some (mkScan p' i1 i2 false cur))) = Some r /\
    match r with None => True | Some st => round_ok p st end.
Proof.
  intros Ht Hz Hp Hp'. destruct (cat_one t cb c k' Ht) as (t' & -> & Ht'); [lens|].
  step. eexists. split; [done|]. split; [cbn [sp]; lia|]. split; [by right|].
  exists (cb ++ [c]). split; [done|]. rewrite zlen_app_one. cbn [fin sp]. lia.
Qed.

Lemma end_round st p i1 i2 cb t :
  st = mkScan p i1 i2 true t -> 0 <= p <= zlen bs -> rep t cb -> zlen cb <= p ->
  round_ok p st.
Proof.
  intros -> Hp Ht Hz. split; [cbn [sp]; lia|]. split; [by left|]. by exists cb.
Qed.

Lemma scan_char_total st : scan_ok st ->
  exists r, scan_char line st = Some r /\
    match r with None => True | Some st' => round_ok (sp st) st' end.
Proof.
  intros ([H0 Hp] & cb & Hcb & Hz). unfold scan_char.
  destruct (line_at (sp st)) as (c & -> & Hc); [lia|]. step.
  assert (Hin : c <> 0 -> sp st < zlen bs).
  { intros Hne. assert (sp st <> zlen bs); [|lia]. intros E. by apply Hc in E. }
  set (p := sp st) in *. set (t := cur st) in *. clearbody p t.
  destruct (decide (c = 0)) as [Hc0|Hc0].
  { subst c. unfold andthen. step. change (0 =? 92) with false. change (0 =? 34) with false.
    change (0 =? 39) with false. change (0 =? 0) with true. cbn match. step.
    destruct (inq st); [by eexists|]. destruct (insq st); [by eexists|].
    rewrite orb_true_r. eexists. split; [done|]. by eapply end_round. }
  specialize (Hin Hc0). destruct (inq st).
  { destruct (hex_test p ltac:(lia) c) as (b & -> & Hb). step. destruct b.
    { specialize (Hb eq_refl).
      destruct (line_at (p + 2)) as (x & -> & _); [lia|].
      destruct (line_at (p + 3)) as (y & -> & _); [lia|]. step.
      by apply append_round with (cb := cb); [| |lia|]. }
    destruct (esc_test p (fun x => negb (x =? 0)) ltac:(lia) eq_refl c) as (b & -> & Hb').
    step. destruct b.
    { specialize (Hb' eq_refl). cbv zeta.
      destruct (line_at (p + 1)) as (x & -> & _); [lia|]. step.
      by apply append_round with (cb := cb); [| |lia|]. }
    destruct (c =? 34).
    { destruct (closing_ok_total p) as (ok & ->); [lia|]. step.
      destruct ok; eexists; (split; [done|]); [by eapply end_round|done]. }
    rewrite (proj2 (Z.eqb_neq c 0)) by done.
    by apply append_round with (cb := cb); [| |lia|]. }
  destruct (insq st).
  { destruct (esc_test p (fun x => x =? 39) ltac:(lia) eq_refl c) as (b & -> & Hb').
    step. destruct b.
    { specialize (Hb' eq_refl). by apply append_round with (cb := cb); [| |lia|]. }
    destruct (c =? 39).
    { destruct (closing_ok_total p) as (ok & ->); [lia|]. step.
      destruct ok; eexists; (split; [done|]); [by eapply end_round|done]. }
    rewrite (proj2 (Z.eqb_neq c 0)) by done.
    by apply append_round with (cb := cb); [| |lia|]. }
  assert (Hmode : forall i1 i2, exists r, Some (Some (mkScan p i1 i2 false t)) = Some r /\
     match r with None => True | Some st' => round_ok p st' end).
  { intros i1 i2. eexists. split; [done|]. split; [cbn [sp]; lia|].
    split; [by right|]. exists cb. split; [done|]. cbn [fin sp]. lia. }
  destruct (_ || (c =? 0)).
  { eexists. split; [done|]. eapply end_round; [done|lia|done|done]. }
  destruct (c =? 34); [apply Hmode|]. destruct (c =? 39); [apply Hmode|].
  by apply append_round with (cb := cb); [| |lia|].
Qed.

Lemma scan_token_total fuel : forall st,
  scan_ok st -> zlen bs - sp st < Z.of_nat fuel ->
  exists r, scan_token fuel line st = Some r /\
    match r with
    | None => True
    | Some (p, t) => sp st <= p <= zlen bs /\ (sp st < zlen bs -> sp st < p) /\
        exists cb, rep t cb /\ zlen cb <= zlen bs
    end.
Proof.
  induction fuel as [|fuel IH]; intros st Hst Hf; [destruct Hst; lia|].
  cbn [scan_token]. destruct (scan_char_total st Hst) as (r & -> & Hr). step.
  destruct r as [st'|]; [|by eexists].
  destruct Hr as (Hp & Hfin & cb & Hcb & Hz). destruct Hst as ([H0 _] & _).
  destruct (line_at (sp st')) as (c & -> & Hc); [lia|]. step. cbv zeta.
  set (p := if c =? 0 then sp st' else sp st' + 1).
  assert (Hpb : sp st' <= p <= zlen bs /\ (sp st' < zlen bs -> p = sp st' + 1)).
  { unfold p. destruct (Z.eqb_spec c 0) as [E|E].
    - apply Hc in E. lia.
    - assert (sp st' <> zlen bs) by (intros E'; by apply Hc in E'). lia. }
  clearbody p. destruct (fin st').
  - eexists. split; [done|]. split; [lia|]. split; [lia|]. exists cb. split; [done|lia].
  - destruct Hfin as [|Hfin]; [done|].
    destruct (IH (mkScan p (inq st') (insq st') false (cur st'))) as (r & -> & Hr).
    + split; [cbn [sp]; lia|]. exists cb. split; [done|]. cbn [sp]. lia.
    + cbn [sp]. lia.
    + exists r. split; [done|]. destruct r as [[q u]|]; [|done]. cbn [sp] in Hr.
      destruct Hr as (? & ? & Hu). split; [lia|]. split; [lia|done].
Qed.

Lemma skip_blanks_total fuel : forall p,
  0 <= p <= zlen bs -> zlen bs - p < Z.of_nat fuel ->
  exists q, skip_blanks fuel line p = Some q /\ p <= q <= zlen bs.
Proof.
  induction fuel as [|fuel IH]; intros p Hp Hf; [lia|]. cbn [skip_blanks].
  destruct (line_at p Hp) as (c & -> & Hc). step.
  destruct (Z.eqb_spec c 0) as [->|Hne]; [exists p; split; [done|lia]|].
  assert (p <> zlen bs) by (intros E; by apply Hc in E). cbn [negb andb].
  destruct (isspace c); [|exists p; split; [done|lia]].
  destruct (IH (p + 1)) as (q & E & Hq); [lia|lia|]. exists q. split; [done|lia].
Qed.

(** A token handed back to the caller. *)
Definition token_ok (t : sds) : Prop := exists cb, rep t cb /\ zlen cb <= zlen bs.

Lemma splitargs_loop_total fuel : forall p vec,
  0 <= p <= zlen bs -> zlen bs - p < Z.of_nat fuel -> Forall token_ok vec ->
  exists r, splitargs_loop fuel line p vec = Some r /\
    match r with None => True | Some tokens => Forall token_ok tokens end.
Proof.
  induction fuel as [|fuel IH]; intros p vec Hp Hf Hvec; [lia|]. cbn [splitargs_loop].
  assert (Hll : zlen bs < Z.of_nat (S (length line)))
    by (rewrite length_app; unfold zlen; lia).
  destruct (skip_blanks_total (S (length line)) p Hp) as (q & -> & Hq); [lia|]. step.
  destruct (line_at q) as (c & -> & Hc); [lia|]. step.
  destruct (Z.eqb_spec c 0) as [E|Hne]; [by eexists|].
  assert (q <> zlen bs) by (intros E'; by apply Hc in E').
  destruct (sdsempty_spec junk) as (s0 & -> & Hs0 & _). step.
  destruct (scan_token_total (S (length line)) (mkScan q false false false s0))
    as (r & -> & Hr).
  - split; [cbn [sp]; lia|]. exists []. split; [done|]. cbn [sp].
    change (zlen (@nil Z)) with 0. lia.
  - cbn [sp]. lia.
  - step. destruct r as [[p' t]|]; [|by eexists]. cbn [sp] in Hr.
    destruct Hr as (Hp' & Hprog & Ht). apply IH; [lia|lia|].
    apply Forall_app. split; [done|]. by constructor.
Qed.
End Total.
End Text.

Lemma sdsfromlonglong_spec junk v :
  in_s 64 v -> v <> LLONG_MIN ->
  exists s, sdsfromlonglong junk v = Some s /\ rep s (sdec v).
Proof.
  intros Hv Hmin. unfold sdsfromlonglong.
  destruct (sdsll2str_spec _ v Hv Hmin (llstr_room junk)) as (k & -> & Hl). step.
  destruct (sdsnewlen_spec junk (sdec v ++ 0 :: k) (zlen (sdec v)) (sdec v))
    as (s & -> & Hs & _); [by apply mem_read_prefix| |by exists s].
  pose proof (zlen_nonneg (sdec v)). rewrite realloc_length in Hl.
  rewrite length_app in Hl. unfold fits, SDS_MAX_PREALLOC, SDS_LLSTR_SIZE, zlen in *.
  cint.
Qed.

Lemma args_length args : (length args <= length (concat (arg_text <$> args)))%nat.
Proof.
  induction args as [|ba args IH]; [done|]. rewrite fmap_cons. cbn [concat length].
  rewrite length_app. unfold arg_text at 1, quoted. rewrite !length_app. simpl. lia.
Qed.

(** ** The theorems *)

(** C30: [sdscatfmt] appends exactly the output of its format -- literal bytes,
    C strings, sds strings and decimal integers of both signs and widths, in
    order, growing the string as needed -- for every format made of complete
    directives; a format that ends in a lone percent sign makes it read past
    the terminator. *)
Theorem sdscatfmt_spec junk s bs ps
    (Hs : rep s bs) (Hok : Forall piece_ok ps)
    (Hlt : zlen bs + zlen (out_of ps) + 1 < 2 ^ 31) :
  (exists s', sdscatfmt junk s (fmt_of ps ++ [0]) (args_of ps) = Some s' /\
     rep s' (bs ++ out_of ps)) /\
  sdscatfmt junk s (fmt_of ps ++ [37; 0]) (args_of ps) = None.
Proof.
  split; [apply sdscatfmt_ok|eapply sdscatfmt_lone_percent]; (done || lia || eassumption).
Qed.

Lemma sdscatfmt_spec_witness :
  (exists s', sdscatfmt (fun _ => 170) (mkSds 1 0 [62; 0])
       (fmt_of [PChar 97; PStr (bytes_of "bc") []; POther 37; PInt (-7); PULL 42] ++ [0])
       (args_of [PChar 97; PStr (bytes_of "bc") []; POther 37; PInt (-7); PULL 42]) = Some s' /\
     rep s' ([62] ++ out_of [PChar 97; PStr (bytes_of "bc") []; POther 37; PInt (-7); PULL 42])) /\
  sdscatfmt (fun _ => 170) (mkSds 1 0 [62; 0])
       (fmt_of [PChar 97; PStr (bytes_of "bc") []; POther 37; PInt (-7); PULL 42] ++ [37; 0])
       (args_of [PChar 97; PStr (bytes_of "bc") []; POther 37; PInt (-7); PULL 42]) = None.
Proof.
  apply sdscatfmt_spec.
  - split; [done|]. split; [vm_compute; intuition congruence|]. by exists [].
  - repeat constructor; try by_decide; try done; vm_compute; intuition congruence.
  - vm_compute. reflexivity.
Defined.

(** C31: [sdssplitlen] cuts a string at the leftmost non-overlapping occurrences
    of the separator -- each token is followed by the first occurrence at or
    after its start, the last one contains none -- stays inside the string and
    the token array, and [sdsjoin] of the tokens gives the string back when it
    contains no zero byte. *)
Theorem sdssplitlen_join junk bs k sep
    (Hb : 1 <= zlen bs < 2 ^ 29) (Hsep : 1 <= zlen sep) :
  exists tokens ts,
    sdssplitlen junk (bs ++ k) (zlen bs) sep (zlen sep) = Some (Some tokens) /\
    Forall2 rep tokens ts /\ splits sep bs ts /\ join_bytes sep ts = bs /\
    (0 ∉ bs -> 0 ∉ sep ->
     exists s, sdsjoin junk (sds_buf <$> tokens) (sep ++ [0]) = Some s /\ rep s bs).
Proof.
  unfold sdssplitlen. rewrite (proj2 (Z.ltb_ge _ _)) by lia.
  rewrite (proj2 (Z.ltb_ge (zlen bs) 0)) by lia. cbn [orb].
  rewrite (proj2 (Z.eqb_neq _ _)) by lia.
  destruct (split_loop_spec junk k sep (S (Z.to_nat (zlen bs))) [] [] bs 5 [])
    as (tokens & ts & E & Hall & Hs);
    [done|cbn [app]; lia|split; [done|cint]|done|intros; simpl; lia|unfold zlen; lia|].
  cbn [app] in *. change (zlen (@nil Z)) with 0 in E. rewrite E. step.
  exists tokens, ts. split; [done|]. split; [done|]. split; [done|].
  pose proof (splits_join _ _ _ Hs) as Hj. split; [done|]. intros Hn Hns.
  rewrite <- Hj. apply sdsjoin_spec.
  - pose proof (splits_nozero _ _ _ Hs Hn) as Hnz. clear -Hall Hnz.
    induction Hall as [|t b tokens ts Ht _ IH]; [constructor|].
    inversion Hnz; subst. rewrite fmap_cons. constructor; [|by apply IH].
    apply rep_inv in Ht as (tail & -> & _). split; [done|]. by exists tail.
  - split; [done|]. by exists [].
  - rewrite Hj. cint.
Qed.

Lemma sdssplitlen_join_witness :
  exists tokens ts,
    sdssplitlen (fun _ => 170) (bytes_of "a--b---c" ++ [0]) 8 (bytes_of "--") 2
      = Some (Some tokens) /\
    Forall2 rep tokens ts /\ splits (bytes_of "--") (bytes_of "a--b---c") ts /\
    join_bytes (bytes_of "--") ts = bytes_of "a--b---c" /\
    (0 ∉ bytes_of "a--b---c" -> 0 ∉ bytes_of "--" ->
     exists s, sdsjoin (fun _ => 170) (sds_buf <$> tokens) (bytes_of "--" ++ [0]) = Some s /\
       rep s (bytes_of "a--b---c")).
Proof.
  apply (sdssplitlen_join (fun _ => 170) (bytes_of "a--b---c") [0] (bytes_of "--"));
    vm_compute; intuition congruence.
Defined.

(** C19: [sdssplitargs] reads back what [sdscatrepr] writes: a line of
    arguments, each of any bytes whatever and quoted by [sdscatrepr], separated
    by blanks, is split into exactly those arguments. *)
Theorem sdssplitargs_reads_sdscatrepr junk args tr k
    (Hok : Forall arg_ok args)
    (Htl : Forall (fun ba => ba.1 <> []) (tail args)) (Htr : blanks tr)
    (Hlen : zlen (concat (arg_text <$> args) ++ tr ++ 0 :: k) < 2 ^ 31) :
  (forall ba, ba ∈ args -> exists s0 s, sdsempty junk = Some s0 /\
     sdscatrepr junk s0 (ba.2 ++ k) (zlen ba.2) = Some s /\
     arg_text ba = ba.1 ++ take (Z.to_nat (sds_len s)) (sds_buf s)) /\
  exists tokens,
    sdssplitargs junk (concat (arg_text <$> args) ++ tr ++ 0 :: k) = Some (Some tokens) /\
    Forall2 rep tokens args.*2.
Proof.
  split.
  - intros [b x] Hin. rewrite Forall_forall in Hok. destruct (Hok _ Hin) as [_ Hx].
    cbn [fst snd] in *. destruct (sdsempty_spec junk) as (s0 & E0 & Hs0 & _).
    apply list_elem_of_split in Hin as (l1 & l2 & ->).
    rewrite fmap_app, fmap_cons, concat_app in Hlen. cbn [concat] in Hlen.
    unfold arg_text in Hlen at 2. cbn [fst snd] in Hlen.
    pose proof (zlen_quoted x). rewrite !zlen_app in Hlen.
    destruct (sdscatrepr_spec junk s0 [] x k Hs0 Hx) as (s & E & Hs).
    { change (zlen (@nil Z)) with 0. lens. }
    exists s0, s. split; [done|]. split; [done|].
    apply rep_inv in Hs as (tail & -> & _). cbn [sds_len sds_buf app].
    unfold arg_text, zlen. cbn [fst snd]. by rewrite Nat2Z.id, take_app_length.
  - apply (splitargs_loop_spec junk args _ [] tr k [] _ eq_refl); try done.
    rewrite !length_app. pose proof (args_length args). lia.
Qed.

Lemma sdssplitargs_reads_sdscatrepr_witness :
  (forall ba, ba ∈ [([], [0; 34; 92; 200]); ([32; 9], bytes_of "a b")] ->
     exists s0 s, sdsempty (fun _ => 170) = Some s0 /\
     sdscatrepr (fun _ => 170) s0 (ba.2 ++ []) (zlen ba.2) = Some s /\
     arg_text ba = ba.1 ++ take (Z.to_nat (sds_len s)) (sds_buf s)) /\
  exists tokens,
    sdssplitargs (fun _ => 170)
      (concat (arg_text <$> [([], [0; 34; 92; 200]); ([32; 9], bytes_of "a b")]) ++ [10] ++ [0])
      = Some (Some tokens) /\
    Forall2 rep tokens [[0; 34; 92; 200]; bytes_of "a b"].
Proof.
  apply (sdssplitargs_reads_sdscatrepr (fun _ => 170)
           [([], [0; 34; 92; 200]); ([32; 9], bytes_of "a b")] [10] []);
    [| |by constructor|vm_compute; reflexivity].
  - repeat constructor; unfold byte_ok; vm_compute; intuition congruence.
  - by repeat constructor.
Defined.

(** C32: [sdssplitargs] is defined on every C string: it terminates, never
    reads past the terminator whatever quotes and escapes the line contains,
    and returns either the null pointer or tokens that are well-formed strings
    no longer than the line. *)
Theorem sdssplitargs_total junk bs k
    (Hbs : 0 ∉ bs) (Hlen : zlen bs < 2 ^ 31) :
  exists r, sdssplitargs junk (bs ++ 0 :: k) = Some r /\
    match r with
    | None => True
    | Some tokens => Forall (fun t => exists cb, rep t cb /\ zlen cb <= zlen bs) tokens
    end.
Proof.
  apply (splitargs_loop_total junk bs k Hbs Hlen); [lens| |constructor].
  rewrite length_app. unfold zlen. lia.
Qed.

Lemma sdssplitargs_total_witness :
  exists r, sdssplitargs (fun _ => 170) (bytes_of "set 'x\" ++ 0 :: [1]) = Some r /\
    match r with
    | None => True
    | Some tokens => Forall (fun t => exists cb, rep t cb /\ zlen cb <= 7) tokens
    end.
Proof.
  apply (sdssplitargs_total (fun _ => 170) (bytes_of "set 'x\") [1]).
  - by_decide.
  - reflexivity.
Defined.
