(* ===== verification/Skiplist.v ===== *)
(** The skip list of [src/redis-3.0.0/src/t_zset.c]: creation, insertion,
    deletion, rank and range searches, on a heap of nodes with their forward
    pointers, spans and backward pointers.

    Scores and members come through interfaces: [Score] is what the code uses
    of C comparisons of doubles that are not NaN, [Member] is what it uses of
    [compareStringObjects] and [equalStringObjects] (object.c). *)
From stdpp Require Import sets gmap list.
From S2P Require Import Prelude Sds.
Local Open Scope c_scope.

Definition ZSKIPLIST_MAXLEVEL : Z := 32.

(** Comparison of scores and of members. *)
Class Score (T : Type) := {
  sc_cmp : T -> T -> comparison;
  sc_zero : T;
  sc_antisym a b : sc_cmp b a = CompOpp (sc_cmp a b);
  sc_eq_l a b c : sc_cmp a b = Eq -> sc_cmp a c = sc_cmp b c;
  sc_lt_trans a b c : sc_cmp a b = Lt -> sc_cmp b c = Lt -> sc_cmp a c = Lt;
}.

Class Member (M : Type) := {
  compareStringObjects : M -> M -> Z;
  equalStringObjects : M -> M -> bool;
  createStringObject : list Z -> M;
  sds_ptr : M -> option (list Z);
  key : M -> list Z;
  compare_key a b : (compareStringObjects a b ?= 0) = lex (key a) (key b);
  equal_key a b : equalStringObjects a b = bool_decide (key a = key b);
  create_key bs : zlen bs < 2 ^ 31 -> key (createStringObject bs) = bs;
}.

(** The C operators on scores. *)
Definition slt {T} `{Score T} (a b : T) : bool :=
  match sc_cmp a b with Lt => true | _ => false end.
Definition sle {T} `{Score T} (a b : T) : bool :=
  match sc_cmp a b with Gt => false | _ => true end.
Definition seq_ {T} `{Score T} (a b : T) : bool :=
  match sc_cmp a b with Eq => true | _ => false end.

Section Skiplist.
Context {T M : Type} `{HS : Score T} `{HM : Member M}.

(** ** Data *)

(** [zskiplistNode]; the object of the header is NULL.  A level is its
    forward pointer and its span. *)
Record znode := mkZnode {
  zn_score : T; zn_obj : option M; zn_backward : option Z;
  zn_level : list (option Z * Z) }.

Record zskiplist := mkZsl {
  zsl_header : Z; zsl_tail : option Z; zsl_length : Z; zsl_level : Z }.

(** The live nodes, and the objects released by [decrRefCount]. *)
Record zheap := mkZheap { zh : gmap Z znode; dropped : list M }.

Definition upd (h : zheap) (p : Z) (n : znode) : zheap :=
  mkZheap (<[p := n]> (zh h)) (dropped h).

(** [p->level[i]]. *)
Definition lvl (h : zheap) (p i : Z) : option (option Z * Z) :=
  n ← zh h !! p; znth (zn_level n) i.

Definition set_lvl (h : zheap) (p i : Z) (l : option Z * Z) : option zheap :=
  n ← zh h !! p;
  ls ← zset (zn_level n) i l;
  Some (upd h p (mkZnode (zn_score n) (zn_obj n) (zn_backward n) ls)).

Definition set_backward (h : zheap) (p : Z) (b : option Z) : option zheap :=
  n ← zh h !! p;
  Some (upd h p (mkZnode (zn_score n) (zn_obj n) b (zn_level n))).

(** ** Creation and release *)

(** A node as [zmalloc] returns it: the levels and the backward pointer hold
    [junk]. *)
Definition zslCreateNode (junk : Z -> option Z * Z) (h : zheap) (x level : Z)
    (score : T) (obj : option M) : zheap :=
  upd h x (mkZnode score obj (fst (junk (-1)))
             (junk <$> (Z.of_nat <$> seq 0 (Z.to_nat level)))).

Fixpoint create_loop (fuel : nat) (h : zheap) (x j : Z) : option zheap :=
  match fuel with
  | O => None
  | Datatypes.S fuel =>
      if j <? ZSKIPLIST_MAXLEVEL then
        '(_, s) ← lvl h x j;
        h ← set_lvl h x j (None, s);
        h ← set_lvl h x j (None, 0);
        create_loop fuel h x (j + 1)
      else Some h
  end.

(** [x] is the address [zmalloc] gives the header. *)
Definition zslCreate (junk : Z -> option Z * Z) (h : zheap) (x : Z)
    : option (zheap * zskiplist) :=
  let h := zslCreateNode junk h x ZSKIPLIST_MAXLEVEL sc_zero None in
  h ← create_loop 33 h x 0;
  h ← set_backward h x None;
  Some (h, mkZsl x None 0 1).

(** [decrRefCount(node->obj)], then the node is released. *)
Definition zslFreeNode (h : zheap) (x : Z) : option zheap :=
  n ← zh h !! x;
  o ← zn_obj n;
  Some (mkZheap (delete x (zh h)) (dropped h ++ [o])).

Fixpoint free_loop (fuel : nat) (h : zheap) (node : option Z) : option zheap :=
  match node with
  | None => Some h
  | Some x =>
      match fuel with
      | O => None
      | Datatypes.S fuel =>
          '(next, _) ← lvl h x 0;
          h ← zslFreeNode h x;
          free_loop fuel h next
      end
  end.

Definition zslFree (h : zheap) (z : zskiplist) : option zheap :=
  '(node, _) ← lvl h (zsl_header z) 0;
  _ ← zh h !! zsl_header z;
  let h := mkZheap (delete (zsl_header z) (zh h)) (dropped h) in
  free_loop (Z.to_nat (zsl_length z)) h node.

(** The results of [random()] are a list, one element per call.  The product
    [ZSKIPLIST_P * 0xFFFF] is 16383.75. *)
Fixpoint random_loop (random : list Z) (level : Z) : option Z :=
  match random with
  | [] => None
  | r :: random =>
      if 4 * (r .& 65535) <? 65535 then random_loop random (level + 1)
      else Some level
  end.

Definition zslRandomLevel (random : list Z) : option Z :=
  level ← random_loop random 1;
  Some (if level <? ZSKIPLIST_MAXLEVEL then level else ZSKIPLIST_MAXLEVEL).

(** ** The searches *)

(** [while (x->level[i].forward && test)], with the spans crossed added to [r]
    at width [w].  The test sees [r], the span and the next node. *)
Fixpoint walk (w : Z) (test : Z -> Z -> znode -> option bool) (fuel : nat)
    (h : zheap) (i x r : Z) : option (Z * Z) :=
  match fuel with
  | O => None
  | Datatypes.S fuel =>
      '(f, sp) ← lvl h x i;
      match f with
      | None => Some (x, r)
      | Some y =>
          ny ← zh h !! y;
          b ← test r sp ny;
          if (b : bool) then walk w test fuel h i y (r +[w] sp) else Some (x, r)
      end
  end.

(** [for (i = level-1; i >= 0; i--)]: one walk per level.  The arrays
    [update] and [rank] are filled from the top; the first element of each list
    is the lowest level done. *)
Fixpoint descend (w : Z) (test : Z -> Z -> znode -> option bool) (fuel : nat)
    (h : zheap) (n : nat) (x r : Z) (update rank : list Z)
    : option (Z * Z * list Z * list Z) :=
  match n with
  | O => Some (x, r, update, rank)
  | Datatypes.S n =>
      '(x, r) ← walk w test fuel h (Z.of_nat n) x r;
      descend w test fuel h n x r (x :: update) (r :: rank)
  end.

(** A walk visits at most every node. *)
Definition walk_fuel (z : zskiplist) : nat :=
  Datatypes.S (Z.to_nat (zsl_length z)).

Definition search (w : Z) (test : Z -> Z -> znode -> option bool)
    (h : zheap) (z : zskiplist) : option (Z * Z * list Z * list Z) :=
  descend w test (walk_fuel z) h (Z.to_nat (zsl_level z)) (zsl_header z) 0 [] [].

(** [forward->score < score || (forward->score == score &&
    compareStringObjects(forward->obj,obj) < 0)]. *)
Definition before (score : T) (obj : M) (_ _ : Z) (n : znode) : option bool :=
  if slt (zn_score n) score then Some true
  else if seq_ (zn_score n) score then
    o ← zn_obj n; Some (compareStringObjects o obj <? 0)
  else Some false.

(** ** Insertion *)

(** The levels above the current ones start at the header. *)
Fixpoint raise_loop (fuel : nat) (h : zheap) (z : zskiplist) (i level : Z)
    (update rank : list Z) : option (zheap * list Z * list Z) :=
  match fuel with
  | O => None
  | Datatypes.S fuel =>
      if i <? level then
        '(f, _) ← lvl h (zsl_header z) i;
        h ← set_lvl h (zsl_header z) i (f, u32 (zsl_length z));
        raise_loop fuel h z (i + 1) level
          (update ++ [zsl_header z]) (rank ++ [0])
      else Some (h, update, rank)
  end.

Fixpoint link_loop (fuel : nat) (h : zheap) (x i level : Z)
    (update rank : list Z) : option zheap :=
  match fuel with
  | O => None
  | Datatypes.S fuel =>
      if i <? level then
        u ← znth update i;
        r0 ← znth rank 0;
        ri ← znth rank i;
        '(_, sx) ← lvl h x i;
        '(f, _) ← lvl h u i;
        h ← set_lvl h x i (f, sx);
        '(_, su) ← lvl h u i;
        h ← set_lvl h u i (Some x, su);
        '(f, _) ← lvl h x i;
        h ← set_lvl h x i (f, su -[32] (r0 -[32] ri));
        '(f, _) ← lvl h u i;
        h ← set_lvl h u i (f, (r0 -[32] ri) +[32] 1);
        link_loop fuel h x (i + 1) level update rank
      else Some h
  end.

Fixpoint bump_loop (fuel : nat) (h : zheap) (i level : Z) (update : list Z)
    : option zheap :=
  match fuel with
  | O => None
  | Datatypes.S fuel =>
      if i <? level then
        u ← znth update i;
        '(f, s) ← lvl h u i;
        h ← set_lvl h u i (f, s +[32] 1);
        bump_loop fuel h (i + 1) level update
      else Some h
  end.

(** [x] is the address of the new node, [random] the random numbers drawn. *)
Definition zslInsert (junk : Z -> option Z * Z) (random : list Z)
    (h : zheap) (z : zskiplist) (x : Z) (score : T) (obj : M)
    : option (zheap * zskiplist) :=
  '(_, _, update, rank) ← search 32 (before score obj) h z;
  level ← zslRandomLevel random;
  '(h, update, rank) ← raise_loop 33 h z (zsl_level z) level update rank;
  let zlevel := if zsl_level z <? level then level else zsl_level z in
  let h := zslCreateNode junk h x level score (Some obj) in
  h ← link_loop 33 h x 0 level update rank;
  h ← bump_loop 33 h level zlevel update;
  u0 ← znth update 0;
  h ← set_backward h x (if u0 =? zsl_header z then None else Some u0);
  '(f, _) ← lvl h x 0;
  '(h, tail) ← match f with
               | Some y => h ← set_backward h y (Some x); Some (h, zsl_tail z)
               | None => Some (h, Some x)
               end;
  Some (h, mkZsl (zsl_header z) tail (zsl_length z +[64] 1) zlevel).

(** ** Deletion *)

Definition ptr_eqb (p : option Z) (x : Z) : bool :=
  match p with Some y => y =? x | None => false end.

Fixpoint unlink_loop (fuel : nat) (h : zheap) (x i level : Z) (update : list Z)
    : option zheap :=
  match fuel with
  | O => None
  | Datatypes.S fuel =>
      if i <? level then
        u ← znth update i;
        '(f, s) ← lvl h u i;
        h ← (if ptr_eqb f x then
               '(_, sx) ← lvl h x i;
               h ← set_lvl h u i (f, s +[32] (sx -[32] 1));
               '(fx, _) ← lvl h x i;
               '(_, s) ← lvl h u i;
               set_lvl h u i (fx, s)
             else set_lvl h u i (f, s -[32] 1));
        unlink_loop fuel h x (i + 1) level update
      else Some h
  end.

(** [while(level > 1 && header->level[level-1].forward == NULL) level--]. *)
Fixpoint lower_loop (fuel : nat) (h : zheap) (hd level : Z) : option Z :=
  match fuel with
  | O => None
  | Datatypes.S fuel =>
      if 1 <? level then
        '(f, _) ← lvl h hd (level - 1);
        match f with
        | None => lower_loop fuel h hd (level - 1)
        | Some _ => Some level
        end
      else Some level
  end.

Definition zslDeleteNode (h : zheap) (z : zskiplist) (x : Z) (update : list Z)
    : option (zheap * zskiplist) :=
  h ← unlink_loop 33 h x 0 (zsl_level z) update;
  '(f, _) ← lvl h x 0;
  nx ← zh h !! x;
  '(h, tail) ← match f with
               | Some y => h ← set_backward h y (zn_backward nx); Some (h, zsl_tail z)
               | None => Some (h, zn_backward nx)
               end;
  level ← lower_loop 33 h (zsl_header z) (zsl_level z);
  Some (h, mkZsl (zsl_header z) tail (zsl_length z -[64] 1) level).

Definition zslDelete (h : zheap) (z : zskiplist) (score : T) (obj : M)
    : option (zheap * zskiplist * Z) :=
  '(x, _, update, _) ← search 32 (before score obj) h z;
  '(f, _) ← lvl h x 0;
  match f with
  | None => Some (h, z, 0)
  | Some x =>
      nx ← zh h !! x;
      found ← (if seq_ score (zn_score nx) then
                 o ← zn_obj nx; Some (equalStringObjects o obj)
               else Some false);
      if (found : bool) then
        '(h, z) ← zslDeleteNode h z x update;
        h ← zslFreeNode h x;
        Some (h, z, 1)
      else Some (h, z, 0)
  end.

(** ** Ranks *)

(** [forward->score < score || (forward->score == score &&
    compareStringObjects(forward->obj,o) <= 0)]. *)
Definition upto (score : T) (obj : M) (_ _ : Z) (n : znode) : option bool :=
  if slt (zn_score n) score then Some true
  else if seq_ (zn_score n) score then
    o ← zn_obj n; Some (compareStringObjects o obj <=? 0)
  else Some false.

Fixpoint rank_loop (test : Z -> Z -> znode -> option bool) (fuel : nat)
    (o : M) (h : zheap) (n : nat) (x rank : Z) : option Z :=
  match n with
  | O => Some 0
  | Datatypes.S n =>
      '(x, rank) ← walk 64 test fuel h (Z.of_nat n) x rank;
      nx ← zh h !! x;
      if (match zn_obj nx with
          | Some ox => equalStringObjects ox o
          | None => false
          end)
      then Some rank
      else rank_loop test fuel o h n x rank
  end.

Definition zslGetRank (h : zheap) (z : zskiplist) (score : T) (o : M) : option Z :=
  rank_loop (upto score o) (walk_fuel z) o h (Z.to_nat (zsl_level z))
    (zsl_header z) 0.

(** [(traversed + span) <= rank] in [unsigned long]. *)
Definition up_to_rank (rank : Z) (r sp : Z) (_ : znode) : option bool :=
  Some (r +[64] sp <=? rank).

Fixpoint by_rank_loop (rank : Z) (fuel : nat) (h : zheap) (n : nat)
    (x traversed : Z) : option (option Z) :=
  match n with
  | O => Some None
  | Datatypes.S n =>
      '(x, traversed) ← walk 64 (up_to_rank rank) fuel h (Z.of_nat n) x traversed;
      if traversed =? rank then Some (Some x)
      else by_rank_loop rank fuel h n x traversed
  end.

Definition zslGetElementByRank (h : zheap) (z : zskiplist) (rank : Z)
    : option (option Z) :=
  by_rank_loop rank (walk_fuel z) h (Z.to_nat (zsl_level z)) (zsl_header z) 0.

(** ** Ranges of scores *)

Record zrangespec := mkRange { rg_min : T; rg_max : T; rg_minex : bool; rg_maxex : bool }.

Definition zslValueGteMin (value : T) (spec : zrangespec) : bool :=
  if rg_minex spec then slt (rg_min spec) value else sle (rg_min spec) value.

Definition zslValueLteMax (value : T) (spec : zrangespec) : bool :=
  if rg_maxex spec then slt value (rg_max spec) else sle value (rg_max spec).

(** The tests of the two ends, shared by [zslIsInRange] and
    [zslIsInLexRange]. *)
Definition ends_in (h : zheap) (z : zskiplist) (gte lte : znode -> option bool)
    : option bool :=
  match zsl_tail z with
  | None => Some false
  | Some x =>
      nx ← zh h !! x;
      b ← gte nx;
      if negb b then Some false
      else
        '(f, _) ← lvl h (zsl_header z) 0;
        match f with
        | None => Some false
        | Some x => nx ← zh h !! x; lte nx
        end
  end.

Definition score_gte (range : zrangespec) (n : znode) : option bool :=
  Some (zslValueGteMin (zn_score n) range).
Definition score_lte (range : zrangespec) (n : znode) : option bool :=
  Some (zslValueLteMax (zn_score n) range).

Definition zslIsInRange (h : zheap) (z : zskiplist) (range : zrangespec)
    : option bool :=
  if slt (rg_max range) (rg_min range) ||
     (seq_ (rg_min range) (rg_max range) && (rg_minex range || rg_maxex range))
  then Some false
  else ends_in h z (score_gte range) (score_lte range).

(** Forward while out of range, then the next node, if it is below the
    maximum; the assertion fails with [None]. *)
Definition first_in (h : zheap) (z : zskiplist) (gte lte : znode -> option bool)
    : option (option Z) :=
  '(x, _, _, _) ← search 32 (fun _ _ n => b ← gte n; Some (negb b)) h z;
  '(f, _) ← lvl h x 0;
  x ← f;
  nx ← zh h !! x;
  b ← lte nx;
  Some (if (b : bool) then Some x else None).

(** Forward while in range, if the node reached is above the minimum.  The
    header's score is compared when no element is in range. *)
Definition last_in (h : zheap) (z : zskiplist) (gte lte : znode -> option bool)
    : option (option Z) :=
  '(x, _, _, _) ← search 32 (fun _ _ n => lte n) h z;
  nx ← zh h !! x;
  b ← gte nx;
  Some (if (b : bool) then Some x else None).

Definition zslFirstInRange (h : zheap) (z : zskiplist) (range : zrangespec)
    : option (option Z) :=
  b ← zslIsInRange h z range;
  if negb b then Some None
  else first_in h z (score_gte range) (score_lte range).

Definition zslLastInRange (h : zheap) (z : zskiplist) (range : zrangespec)
    : option (option Z) :=
  b ← zslIsInRange h z range;
  if negb b then Some None
  else last_in h z (score_gte range) (score_lte range).

(** ** Deletion of ranges *)

Section DeleteRange.
(** The hash table of the sorted set and its [dictDelete]. *)
Context {D : Type} (dictDelete : D -> M -> option D).

(** [while (x && test)]: each node is unlinked, removed from the hash table and
    released. *)
Fixpoint delete_loop (test : Z -> znode -> option bool) (fuel : nat)
    (h : zheap) (z : zskiplist) (d : D) (x : option Z) (update : list Z)
    (traversed removed : Z) : option (zheap * zskiplist * D * Z) :=
  match x with
  | None => Some (h, z, d, removed)
  | Some x =>
      match fuel with
      | O => None
      | Datatypes.S fuel =>
          nx ← zh h !! x;
          b ← test traversed nx;
          if (b : bool) then
            '(next, _) ← lvl h x 0;
            '(h, z) ← zslDeleteNode h z x update;
            nx ← zh h !! x;
            o ← zn_obj nx;
            d ← dictDelete d o;
            h ← zslFreeNode h x;
            delete_loop test fuel h z d next update
              (traversed +[64] 1) (removed +[64] 1)
          else Some (h, z, d, removed)
      end
  end.

Definition delete_from (walk_test : Z -> Z -> znode -> option bool)
    (test : Z -> znode -> option bool) (h : zheap) (z : zskiplist) (d : D)
    : option (zheap * zskiplist * D * Z) :=
  '(x, traversed, update, _) ← search 64 walk_test h z;
  '(f, _) ← lvl h x 0;
  delete_loop test (Z.to_nat (zsl_length z)) h z d f update (traversed +[64] 1) 0.

Definition zslDeleteRangeByScore (h : zheap) (z : zskiplist) (range : zrangespec)
    (d : D) : option (zheap * zskiplist * D * Z) :=
  delete_from
    (fun _ _ n => Some (if rg_minex range then sle (zn_score n) (rg_min range)
                        else slt (zn_score n) (rg_min range)))
    (fun _ n => Some (if rg_maxex range then slt (zn_score n) (rg_max range)
                      else sle (zn_score n) (rg_max range)))
    h z d.

(** [start] and [last] are 1-based. *)
Definition zslDeleteRangeByRank (h : zheap) (z : zskiplist) (start last : Z)
    (d : D) : option (zheap * zskiplist * D * Z) :=
  delete_from (fun r sp _ => Some (r +[64] sp <? start))
    (fun r _ => Some (r <=? last)) h z d.
End DeleteRange.

(** ** Lexicographic ranges *)

(** The end of a range: one of the two shared objects, compared by address, or
    an object of its own. *)
Inductive lexobj := MinString | MaxString | LexObj (o : M).

Record zlexrangespec := mkLexRange {
  lx_min : lexobj; lx_max : lexobj; lx_minex : bool; lx_maxex : bool }.

(** The contents of the shared objects, from [createSharedObjects]. *)
Definition minstring : M := createStringObject (bytes_of "minstring").
Definition maxstring : M := createStringObject (bytes_of "maxstring").
Definition lex_robj (a : lexobj) : M :=
  match a with MinString => minstring | MaxString => maxstring | LexObj o => o end.

Definition compareStringObjectsForLexRange (a b : lexobj) : Z :=
  match a, b with
  | MinString, MinString | MaxString, MaxString => 0
  | MinString, _ | _, MaxString => -1
  | MaxString, _ | _, MinString => 1
  | LexObj a, LexObj b => compareStringObjects a b
  end.

Definition zslLexValueGteMin (value : M) (spec : zlexrangespec) : bool :=
  if lx_minex spec then 0 <? compareStringObjectsForLexRange (LexObj value) (lx_min spec)
  else 0 <=? compareStringObjectsForLexRange (LexObj value) (lx_min spec).

Definition zslLexValueLteMax (value : M) (spec : zlexrangespec) : bool :=
  if lx_maxex spec then compareStringObjectsForLexRange (LexObj value) (lx_max spec) <? 0
  else compareStringObjectsForLexRange (LexObj value) (lx_max spec) <=? 0.

Definition lex_gte (range : zlexrangespec) (n : znode) : option bool :=
  o ← zn_obj n; Some (zslLexValueGteMin o range).
Definition lex_lte (range : zlexrangespec) (n : znode) : option bool :=
  o ← zn_obj n; Some (zslLexValueLteMax o range).

Definition zslIsInLexRange (h : zheap) (z : zskiplist) (range : zlexrangespec)
    : option bool :=
  if (1 <? compareStringObjectsForLexRange (lx_min range) (lx_max range)) ||
     ((compareStringObjects (lex_robj (lx_min range)) (lex_robj (lx_max range)) =? 0) &&
      (lx_minex range || lx_maxex range))
  then Some false
  else ends_in h z (lex_gte range) (lex_lte range).

Definition zslFirstInLexRange (h : zheap) (z : zskiplist) (range : zlexrangespec)
    : option (option Z) :=
  b ← zslIsInLexRange h z range;
  if negb b then Some None else first_in h z (lex_gte range) (lex_lte range).

Definition zslLastInLexRange (h : zheap) (z : zskiplist) (range : zlexrangespec)
    : option (option Z) :=
  b ← zslIsInLexRange h z range;
  if negb b then Some None else last_in h z (lex_gte range) (lex_lte range).

Definition zslDeleteRangeByLex {D : Type} (dictDelete : D -> M -> option D)
    (h : zheap) (z : zskiplist) (range : zlexrangespec) (d : D)
    : option (zheap * zskiplist * D * Z) :=
  delete_from dictDelete
    (fun _ _ n => b ← lex_gte range n; Some (negb b))
    (fun _ n => lex_lte range n) h z d.

(** [None] inside is [REDIS_ERR]; [c] is read with its terminator. *)
Definition zslParseLexRangeItem (item : M) : option (option (lexobj * bool)) :=
  c ← sds_ptr item;
  c0 ← znth (c ++ [0]) 0;
  if c0 =? 43 then
    c1 ← znth (c ++ [0]) 1;
    if c1 =? 0 then Some (Some (MaxString, false)) else Some None
  else if c0 =? 45 then
    c1 ← znth (c ++ [0]) 1;
    if c1 =? 0 then Some (Some (MinString, false)) else Some None
  else if c0 =? 40 then Some (Some (LexObj (createStringObject (drop 1 c)), true))
  else if c0 =? 91 then Some (Some (LexObj (createStringObject (drop 1 c)), false))
  else Some None.

Definition zslParseLexRange (mn mx : M) : option (option zlexrangespec) :=
  match sds_ptr mn, sds_ptr mx with
  | Some _, Some _ =>
      a ← zslParseLexRangeItem mn;
      match a with
      | None => Some None
      | Some (omin, minex) =>
          b ← zslParseLexRangeItem mx;
          Some (match b with
                | None => None
                | Some (omax, maxex) => Some (mkLexRange omin omax minex maxex)
                end)
      end
  | _, _ => Some None
  end.

End Skiplist.
