(* ===== verification/SkipRep.v ===== *)
(** What a skip list stands for: the representation predicate that ties the
    heap of [Skiplist] to the list of its elements, and the effect of the
    searches, of linking and of unlinking on it. *)
From stdpp Require Import sets gmap list.
From S2P Require Import Prelude Sds Skiplist.
Local Open Scope c_scope.

Section Rep.
Context {T M : Type} `{HS : Score T} `{HM : Member M}.
Notation znode := (@znode T M).
Notation zheap := (@zheap T M).

(** An element: its node, its score and member, the height of its tower. *)
Record elem := mkElem { e_loc : Z; e_score : T; e_obj : M; e_height : nat }.

(** What level [i] of a node says when [l] are the elements after it: the next
    tower higher than [i] and its distance, or the number of elements left. *)
Fixpoint fwd (i : nat) (l : list elem) : option Z * Z :=
  match l with
  | [] => (None, 0)
  | e :: l => if (i <? e_height e)%nat then (Some (e_loc e), 1)
              else let '(p, s) := fwd i l in (p, s + 1)
  end.

Definition levels (e : elem) (l : list elem) : list (option Z * Z) :=
  (fun i => fwd i l) <$> seq 0 (e_height e).

Definition back (l : list elem) : option Z := e_loc <$> last l.

(** The towers: the header has 32 levels, [L] of them in use. *)
Definition header_ok (h : zheap) (L : nat) (hd : Z) (E : list elem) : Prop :=
  exists sc bk lv, zh h !! hd = Some (mkZnode sc None bk lv) /\
    length lv = 32%nat /\ (forall i, (i < L)%nat -> lv !! i = Some (fwd i E)) /\
    (forall i, (L <= i < 32)%nat -> exists s, lv !! i = Some (None, s)).

Definition node_ok (h : zheap) (bk : option Z) (e : elem) (l : list elem) : Prop :=
  zh h !! e_loc e = Some (mkZnode (e_score e) (Some (e_obj e)) bk (levels e l)).

Record rep (h : zheap) (z : zskiplist) (L : nat) (E : list elem) : Prop := mkRep {
  r_level : zsl_level z = Z.of_nat L /\ (1 <= L <= 32)%nat;
  r_heights : Forall (fun e => (1 <= e_height e <= L)%nat) E;
  r_nodup : NoDup (zsl_header z :: (e_loc <$> E));
  r_length : zsl_length z = zlen E /\ zlen E < 2 ^ 32 - 1;
  r_tail : zsl_tail z = back E;
  r_header : header_ok h L (zsl_header z) E;
  r_nodes : forall n e, E !! n = Some e ->
    node_ok h (back (take n E)) e (drop (S n) E) }.

(** ** Positions *)

(** Position 0 is the header, position [n+1] the element [n]. *)
Definition pos_loc (hd : Z) (E : list elem) (n : nat) : Z :=
  match n with
  | O => hd
  | S n => match E !! n with Some e => e_loc e | None => hd end
  end.

Definition pos_height (L : nat) (E : list elem) (n : nat) : nat :=
  match n with
  | O => L
  | S n => match E !! n with Some e => e_height e | None => 0 end
  end.

(** The last position of [a] whose tower is higher than [i]. *)
Fixpoint lastpos (i : nat) (a : list elem) : nat :=
  match a with
  | [] => 0
  | e :: a => match lastpos i a with
              | O => if (i <? e_height e)%nat then 1 else 0
              | S n => S (S n)
              end
  end.

Definition low (i : nat) (c : list elem) : Prop :=
  Forall (fun e => (e_height e <= i)%nat) c.

Lemma lastpos_low i c : low i c -> lastpos i c = 0%nat.
Proof.
  induction 1 as [|e c He _ IH]; [done|]. cbn [lastpos]. rewrite IH.
  by rewrite (proj2 (Nat.ltb_ge _ _)) by lia.
Qed.

Lemma lastpos_zero i c : lastpos i c = 0%nat -> low i c.
Proof.
  induction c as [|e c IH]; intros H; [constructor|]. cbn [lastpos] in H.
  destruct (lastpos i c) as [|n]; [|done].
  destruct (Nat.ltb_spec i (e_height e)); [done|]. constructor; [lia|by apply IH].
Qed.

Lemma lastpos_tall i c e d : low i c -> (i < e_height e)%nat ->
  lastpos i (c ++ e :: d) = (length c + 1 + lastpos i d)%nat.
Proof.
  intros Hc He. induction Hc as [|x c Hx _ IH].
  - cbn [app lastpos]. destruct (lastpos i d); [|simpl; lia].
    by rewrite (proj2 (Nat.ltb_lt _ _)) by lia.
  - cbn [app lastpos length]. rewrite IH. simpl. 
    destruct (length c + 1 + lastpos i d)%nat eqn:E; lia.
Qed.

(** Either no tower is higher than [i], or there is a first one. *)
Lemma first_tall i s :
  low i s \/ exists c e d, s = c ++ e :: d /\ low i c /\ (i < e_height e)%nat.
Proof.
  induction s as [|x s [Hl|(c & e & d & -> & Hc & He)]]; [by left; constructor| |].
  - destruct (decide (i < e_height x)%nat).
    + right. exists [], x, s. repeat split; [constructor|done].
    + left. constructor; [lia|done].
  - right. destruct (decide (i < e_height x)%nat).
    + exists [], x, (c ++ e :: d). repeat split; [constructor|done].
    + exists (x :: c), e, d. repeat split; [|done]. constructor; [lia|done].
Qed.

Lemma lastpos_le i a : (lastpos i a <= length a)%nat.
Proof. induction a as [|e a IH]; simpl; [lia|]. destruct (lastpos i a); repeat case_match; lia. Qed.

(** After the last high tower there are only low ones. *)
Lemma lastpos_drop_low i a : low i (drop (lastpos i a) a).
Proof.
  induction a as [|e a IH]; [constructor|]. cbn [lastpos].
  destruct (lastpos i a) as [|n] eqn:E.
  - apply lastpos_zero in E. destruct (Nat.ltb_spec i (e_height e)); simpl; [done|].
    by constructor.
  - simpl. done.
Qed.

Lemma lastpos_lookup i a n : lastpos i a = S n ->
  exists e, a !! n = Some e /\ (i < e_height e)%nat.
Proof.
  revert n. induction a as [|e a IH]; intros n H; cbn [lastpos] in H; [done|].
  destruct (lastpos i a) as [|m].
  - destruct (Nat.ltb_spec i (e_height e)); [|done]. injection H as <-. by exists e.
  - injection H as <-. apply (IH m eq_refl).
Qed.

(** A position whose tower is higher than [i] is at most the last one. *)
Lemma lastpos_max i a n e :
  a !! n = Some e -> (i < e_height e)%nat -> (n < lastpos i a)%nat.
Proof.
  revert n. induction a as [|x a IH]; intros n Hn He; [done|]. cbn [lastpos].
  destruct n as [|n]; simpl in Hn.
  - injection Hn as ->. destruct (lastpos i a); [|lia].
    rewrite (proj2 (Nat.ltb_lt _ _)); lia.
  - specialize (IH n Hn He). destruct (lastpos i a); lia.
Qed.

Lemma lastpos_mono i a : (lastpos (S i) a <= lastpos i a)%nat.
Proof.
  destruct (lastpos (S i) a) as [|n] eqn:E; [lia|].
  destruct (lastpos_lookup _ _ _ E) as (e & Hn & He).
  assert (n < lastpos i a)%nat by (eapply lastpos_max; [done|lia]). lia.
Qed.

Lemma lastpos_from i a n : (n <= lastpos i a)%nat ->
  (n + lastpos i (drop n a))%nat = lastpos i a.
Proof.
  revert a. induction n as [|n IH]; intros a Hn; [by rewrite drop_0|].
  destruct a as [|e a]; [simpl in Hn; lia|]. simpl drop. cbn [lastpos] in *.
  destruct (lastpos i a) as [|m] eqn:E.
  - case_match; [|lia]. assert (n = 0)%nat as -> by lia. rewrite drop_0, E. done.
  - specialize (IH a). lia.
Qed.

(** ** Forward pointers *)

Lemma fwd_skip i c s : low i c ->
  fwd i (c ++ s) = (fst (fwd i s), zlen c + snd (fwd i s)).
Proof.
  induction 1 as [|e c He _ IH]; [|].
  { change (zlen (@nil elem)) with 0. rewrite Z.add_0_l. cbn [app]. by destruct (fwd i s). }
  cbn [app fwd]. rewrite (proj2 (Nat.ltb_ge _ _)) by lia. rewrite IH, zlen_cons.
  f_equal. lia.
Qed.

Lemma fwd_tall i c e d : low i c -> (i < e_height e)%nat ->
  fwd i (c ++ e :: d) = (Some (e_loc e), zlen c + 1).
Proof.
  intros Hc He. rewrite fwd_skip by done. cbn [fwd].
  by rewrite (proj2 (Nat.ltb_lt _ _)) by lia.
Qed.

Lemma fwd_low i c : low i c -> fwd i c = (None, zlen c).
Proof.
  intros Hc. pose proof (fwd_skip i c [] Hc) as H. rewrite app_nil_r in H.
  rewrite H. cbn [fwd fst snd]. f_equal. lia.
Qed.

(** A high tower hides what comes after it. *)
Lemma fwd_hide i a s t : lastpos i a <> 0%nat -> fwd i (a ++ s) = fwd i (a ++ t).
Proof.
  intros H. destruct (first_tall i a) as [Hl|(c & e & d & -> & Hc & He)].
  - by rewrite lastpos_low in H.
  - rewrite <- !app_assoc. cbn [app]. by rewrite !fwd_tall.
Qed.

Lemma fwd_bound i s : 0 <= snd (fwd i s) <= zlen s.
Proof.
  induction s as [|e s IH]; [done|]. cbn [fwd]. rewrite zlen_cons.
  pose proof (zlen_nonneg s). case_match; simpl; [lia|].
  destruct (fwd i s). simpl in *. lia.
Qed.

Lemma fwd_in i s p : fst (fwd i s) = Some p -> p ∈ e_loc <$> s.
Proof.
  induction s as [|e s IH]; [done|]. cbn [fwd]. case_match; simpl.
  - intros [= <-]. by left.
  - destruct (fwd i s). simpl in *. intros. right. auto.
Qed.

Lemma slice_drop n k (l : list elem) : (n <= k)%nat ->
  drop n (take k l) = take (k - n) (drop n l).
Proof. intros. rewrite take_drop_commute. by replace (n + (k - n))%nat with k by lia. Qed.

(** ** Reading a position *)

Section Read.
Context (h : zheap) (z : zskiplist) (L : nat) (E : list elem) (R : rep h z L E).
Notation hd := (zsl_header z).

Lemma lookup_levels e l i : (i < e_height e)%nat -> levels e l !! i = Some (fwd i l).
Proof.
  intros Hi. unfold levels. rewrite list_lookup_fmap, lookup_seq_lt by done. done.
Qed.

Lemma lvl_pos n i : (i < pos_height L E n)%nat ->
  lvl h (pos_loc hd E n) (Z.of_nat i) = Some (fwd i (drop n E)).
Proof.
  intros Hi. unfold lvl. destruct n as [|n]; simpl in *.
  - destruct (r_header _ _ _ _ R) as (sc & bk & lv & -> & _ & Hlv & _). step.
    cbn [zn_level]. rewrite znth_nat, Hlv by done. done.
  - destruct (E !! n) as [e|] eqn:En; [|lia].
    pose proof (r_nodes _ _ _ _ R n e En) as Hn. unfold node_ok in Hn. rewrite Hn. step.
    cbn [zn_level]. rewrite znth_nat. by apply lookup_levels.
Qed.

Lemma node_pos n e : E !! n = Some e ->
  zh h !! e_loc e = Some (mkZnode (e_score e) (Some (e_obj e)) (back (take n E))
                            (levels e (drop (S n) E))).
Proof. intros. by apply (r_nodes _ _ _ _ R). Qed.

Lemma heights n e : E !! n = Some e -> (1 <= e_height e <= L)%nat.
Proof. intros. by eapply Forall_lookup_1 in H; [|apply (r_heights _ _ _ _ R)]. Qed.

(** A test that says whether the element [m] is among the first [k], seen from
    any position [n] before it; [n] is what the walk has counted. *)
Definition guided (test : Z -> Z -> znode -> option bool) (k : nat) : Prop :=
  forall n m e, E !! m = Some e -> (n <= m)%nat -> (n <= k)%nat ->
  forall nd, zn_score nd = e_score e -> zn_obj nd = Some (e_obj e) ->
  test (Z.of_nat n) (Z.of_nat (m + 1 - n)) nd = Some (bool_decide (m < k)%nat).

Lemma walk_spec w test k i : forall fuel n,
  32 <= w -> guided test k -> (k <= length E)%nat ->
  (n <= k)%nat -> (i < pos_height L E n)%nat -> (k - n < fuel)%nat ->
  walk w test fuel h (Z.of_nat i) (pos_loc hd E n) (Z.of_nat n) =
  let m := (n + lastpos i (drop n (take k E)))%nat in
  Some (pos_loc hd E m, Z.of_nat m).
Proof.
  induction fuel as [|fuel IH]; intros n Hw Hg Hk Hn Hi Hf; [lia|].
  cbn [walk]. rewrite lvl_pos by done.
  destruct (r_length _ _ _ _ R) as [_ Hlen].
  destruct (first_tall i (drop n E)) as [Hl|(c & e & d & Hd & Hc & He)].
  - rewrite fwd_low by done. step. rewrite lastpos_low.
    + by rewrite Nat.add_0_r.
    + rewrite <- (take_drop k E) in Hl. rewrite drop_app in Hl.
      by apply Forall_app in Hl as [Hl _].
  - rewrite Hd, fwd_tall by done. step.
    set (m := (n + length c)%nat).
    assert (Hm : E !! m = Some e).
    { assert (Hx : drop n E !! length c = Some e) by (rewrite Hd; by apply list_lookup_middle).
      by rewrite lookup_drop in Hx. }
    rewrite (node_pos m e Hm). step.
    replace (zlen c + 1) with (Z.of_nat (m + 1 - n)) by (unfold zlen, m; lia).
    rewrite (Hg n m e Hm) by (done || unfold m; lia). step.
    pose proof (lookup_lt_Some _ _ _ Hm) as Hlt.
    case_bool_decide as Hmk.
    + assert (Hw32 : Z.of_nat n +[w] Z.of_nat (m + 1 - n) = Z.of_nat (S m)).
      { rewrite wrap_small; [unfold m; lia|]. unfold in_u, zlen in *.
        assert (2 ^ 32 <= 2 ^ w) by (apply Z.pow_le_mono_r; lia). unfold m in *. lia. }
      rewrite Hw32. replace (e_loc e) with (pos_loc hd E (S m)) by (simpl; by rewrite Hm).
      rewrite IH; [|done|done|done|lia|simpl; by rewrite Hm|unfold m in *; lia].
      assert (Hdk : drop n (take k E) = c ++ e :: drop (S m) (take k E)).
      { rewrite (slice_drop n), (slice_drop (S m)) by lia. rewrite Hd.
        assert (Hd' : drop (S m) E = d).
        { replace (S m) with (n + S (length c))%nat by (unfold m; lia).
          rewrite <- drop_drop, Hd, <- Nat.add_1_r. by rewrite drop_app_add. }
        rewrite Hd'. rewrite take_app_ge by (unfold m in *; lia).
        f_equal. replace (k - n - length c)%nat with (S (k - S m)) by (unfold m in *; lia).
        done. }
      rewrite Hdk, lastpos_tall by done. cbv zeta.
      replace (n + (length c + 1 + lastpos i (drop (S m) (take k E))))%nat
        with (S m + lastpos i (drop (S m) (take k E)))%nat by (unfold m; lia). done.
    + rewrite lastpos_low; [by rewrite Nat.add_0_r|].
      rewrite slice_drop by lia. rewrite Hd, take_app_le by (unfold m in *; lia).
      by apply Forall_take.
Qed.

(** The loop over the levels: each walk goes on from the last high tower. *)
Lemma descend_spec w test k n : forall m update rank,
  32 <= w -> guided test k -> (k <= length E)%nat -> (n <= L)%nat ->
  (m <= lastpos (Nat.pred n) (take k E))%nat -> (n = 0%nat \/ (Nat.pred n < pos_height L E m)%nat) ->
  descend w test (walk_fuel z) h n (pos_loc hd E m) (Z.of_nat m) update rank =
  let p i := lastpos i (take k E) in
  Some (pos_loc hd E (if decide (n = 0%nat) then m else p 0%nat),
        Z.of_nat (if decide (n = 0%nat) then m else p 0%nat),
        ((fun i => pos_loc hd E (p i)) <$> seq 0 n) ++ update,
        ((fun i => Z.of_nat (p i)) <$> seq 0 n) ++ rank).
Proof.
  induction n as [|n IH]; intros m update rank Hw Hg Hk Hn Hm Hh; [done|].
  cbn [descend]. cbn [Nat.pred] in *. destruct Hh as [|Hh]; [done|].
  pose proof (lastpos_le n (take k E)) as Hle. rewrite length_take in Hle.
  destruct (r_length _ _ _ _ R) as [Hlen _].
  rewrite (walk_spec w test k) by (done || (try unfold walk_fuel; rewrite ?Hlen; unfold zlen; lia)).
  cbv zeta. step. rewrite lastpos_from by done.
  rewrite IH; [|done|done|done|lia| |].
  - cbv zeta. rewrite !seq_S, !fmap_app. cbn [fmap list_fmap Nat.add].
    rewrite <- !app_assoc. cbn [app].
    rewrite (decide_False (P := S n = 0%nat)) by done.
    destruct (decide (n = 0%nat)) as [->|]; done.
  - destruct n as [|n]; [done|]. apply lastpos_mono.
  - destruct n as [|n]; [by left|]. right. cbn [Nat.pred].
    destruct (lastpos (S n) (take k E)) as [|q] eqn:Eq; simpl; [lia|].
    destruct (lastpos_lookup _ _ _ Eq) as (e & He & Hhe).
    apply lookup_take_Some in He as [He _]. rewrite He. lia.
Qed.

Lemma search_spec w test k :
  32 <= w -> guided test k -> (k <= length E)%nat ->
  search w test h z =
  Some (pos_loc hd E k, Z.of_nat k,
        (fun i => pos_loc hd E (lastpos i (take k E))) <$> seq 0 L,
        (fun i => Z.of_nat (lastpos i (take k E))) <$> seq 0 L).
Proof.
  intros Hw Hg Hk. unfold search. destruct (r_level _ _ _ _ R) as [-> HL].
  rewrite Nat2Z.id. pose proof (descend_spec w test k L 0 [] [] Hw Hg Hk) as H.
  cbn [pos_loc] in H. change (Z.of_nat 0) with 0 in H. rewrite H; [|lia|lia|].
  - cbv zeta. rewrite decide_False by lia. rewrite !app_nil_r.
    assert (Hk0 : lastpos 0 (take k E) = k); [|by rewrite Hk0].
    destruct k as [|k]; [done|].
    assert (Hlast : exists e, E !! k = Some e) by (apply lookup_lt_is_Some; lia).
    destruct Hlast as [e He]. pose proof (heights _ _ He).
    pose proof (lastpos_le 0 (take (S k) E)) as Hle. rewrite length_take in Hle.
    assert (k < lastpos 0 (take (S k) E))%nat; [|lia].
    apply (lastpos_max _ _ _ e); [by rewrite lookup_take_lt by lia|lia].
  - right. simpl. lia.
Qed.
End Read.

(** ** Changing levels *)

(** [h'] is [h] with [f] applied to every level of every node. *)
Definition hmap (f : Z -> nat -> option Z * Z -> option Z * Z) (h h' : zheap) : Prop :=
  dropped h' = dropped h /\
  forall p, zh h' !! p =
    (fun nd => mkZnode (zn_score nd) (zn_obj nd) (zn_backward nd)
                 (imap (f p) (zn_level nd))) <$> zh h !! p.

Definition single (p : Z) (i : nat) (l : option Z * Z) (q : Z) (j : nat)
    (x : option Z * Z) : option Z * Z :=
  if decide (q = p /\ j = i) then l else x.

Lemma hmap_lvl f h h' p i : hmap f h h' ->
  lvl h' p (Z.of_nat i) = f p i <$> lvl h p (Z.of_nat i).
Proof.
  intros [_ H]. unfold lvl. rewrite H. destruct (zh h !! p) as [nd|]; [|done].
  cbn [fmap option_fmap option_map]. step. cbn [zn_level].
  rewrite !znth_nat, list_lookup_imap. done.
Qed.

Lemma hmap_comp f g h h1 h2 : hmap f h h1 -> hmap g h1 h2 ->
  hmap (fun p j x => g p j (f p j x)) h h2.
Proof.
  intros [Hd H] [Hd' H']. split; [congruence|]. intros p. rewrite H', H.
  destruct (zh h !! p) as [nd|]; [|done]. cbn [fmap option_fmap option_map]. f_equal.
  cbn [zn_score zn_obj zn_backward zn_level]. f_equal.
  apply list_eq. intros j. rewrite !list_lookup_imap. by destruct (_ !! j).
Qed.

Lemma hmap_ext f g h h' : hmap f h h' ->
  (forall p j x, lvl h p (Z.of_nat j) = Some x -> f p j x = g p j x) -> hmap g h h'.
Proof.
  intros [Hd H] E. split; [done|]. intros p. rewrite H.
  destruct (zh h !! p) as [nd|] eqn:Ep; [|done]. cbn [fmap option_fmap option_map]. f_equal.
  f_equal. apply list_eq. intros j. rewrite !list_lookup_imap.
  destruct (zn_level nd !! j) as [x|] eqn:Ej; [|done]. cbn. f_equal. apply E.
  unfold lvl. rewrite Ep. step. by rewrite znth_nat.
Qed.

Lemma hmap_id h : hmap (fun _ _ x => x) h h.
Proof.
  split; [done|]. intros p. destruct (zh h !! p) as [[]|]; [|done].
  cbn. do 2 f_equal. apply list_eq. intros j. rewrite list_lookup_imap.
  by destruct (_ !! j).
Qed.

Lemma set_lvl_spec h p i l old :
  lvl h p (Z.of_nat i) = Some old ->
  exists h', set_lvl h p (Z.of_nat i) l = Some h' /\ hmap (single p i l) h h'.
Proof.
  unfold lvl, set_lvl. destruct (zh h !! p) as [nd|] eqn:Ep; [|done]. step.
  rewrite znth_nat. intros Hi. pose proof (lookup_lt_Some _ _ _ Hi) as Hlt.
  rewrite zset_nat by done. step. eexists. split; [done|]. split; [done|]. intros q.
  unfold upd. cbn [zh]. destruct (decide (p = q)) as [<-|Hne].
  - rewrite lookup_insert_eq, Ep. cbn [fmap option_fmap option_map]. f_equal. f_equal.
    apply list_eq. intros j. rewrite list_lookup_imap. unfold single.
    destruct (decide (i = j)) as [<-|Hij].
    + rewrite list_lookup_insert_eq by done. rewrite Hi. cbn. by rewrite decide_True.
    + rewrite list_lookup_insert_ne by done. destruct (zn_level nd !! j); [|done].
      cbn. rewrite decide_False by (intros [_ ?]; congruence). done.
  - rewrite lookup_insert_ne by done. destruct (zh h !! q) as [[]|]; [|done].
    cbn. do 2 f_equal. apply list_eq. intros j. rewrite list_lookup_imap.
    destruct (_ !! j); [|done]. cbn. unfold single.
    rewrite decide_False by (intros [? _]; congruence). done.
Qed.

Ltac lvl_at H := rewrite (hmap_lvl _ _ _ _ _ H).

(** One store after another: the composition, simplified on demand. *)
Ltac set_level h1 H1 :=
  match goal with
  | |- context [set_lvl ?h ?p (Z.of_nat ?i) ?l] =>
      let E := fresh in
      destruct (set_lvl_spec h p i l _ ltac:(eassumption)) as (h1 & E & H1);
      rewrite E; clear E; step
  end.

Section Loops.
Context (update rank : list Z) (u r : nat -> Z) (r0 : Z) (old : nat -> option Z * Z).

(** One round of [link_loop]. *)
Lemma link_round h x i lx :
  u i <> x -> lvl h x (Z.of_nat i) = Some lx -> lvl h (u i) (Z.of_nat i) = Some (old i) ->
  exists h1 h2 h3 h4,
    set_lvl h x (Z.of_nat i) (fst (old i), snd lx) = Some h1 /\
    lvl h1 (u i) (Z.of_nat i) = Some (old i) /\
    set_lvl h1 (u i) (Z.of_nat i) (Some x, snd (old i)) = Some h2 /\
    lvl h2 x (Z.of_nat i) = Some (fst (old i), snd lx) /\
    set_lvl h2 x (Z.of_nat i) (fst (old i), snd (old i) -[32] (r0 -[32] r i)) = Some h3 /\
    lvl h3 (u i) (Z.of_nat i) = Some (Some x, snd (old i)) /\
    set_lvl h3 (u i) (Z.of_nat i) (Some x, (r0 -[32] r i) +[32] 1) = Some h4 /\
    hmap (fun p j l => if decide (j = i) then
            if decide (p = x) then (fst (old i), snd (old i) -[32] (r0 -[32] r i))
            else if decide (p = u i) then (Some x, (r0 -[32] r i) +[32] 1) else l
          else l) h h4.
Proof.
  intros Hne Hx Hu.
  destruct (set_lvl_spec h x i (fst (old i), snd lx) lx Hx) as (h1 & E1 & H1).
  assert (Hu1 : lvl h1 (u i) (Z.of_nat i) = Some (old i)).
  { rewrite (hmap_lvl _ _ _ _ _ H1), Hu. cbn. unfold single.
    by rewrite decide_False by (intros [? _]; congruence). }
  destruct (set_lvl_spec h1 (u i) i (Some x, snd (old i)) _ Hu1) as (h2 & E2 & H2).
  assert (Hx2 : lvl h2 x (Z.of_nat i) = Some (fst (old i), snd lx)).
  { rewrite (hmap_lvl _ _ _ _ _ H2), (hmap_lvl _ _ _ _ _ H1), Hx. cbn. unfold single.
    rewrite decide_False by (intros [? _]; congruence). by rewrite decide_True. }
  destruct (set_lvl_spec h2 x i (fst (old i), snd (old i) -[32] (r0 -[32] r i)) _ Hx2)
    as (h3 & E3 & H3).
  assert (Hu3 : lvl h3 (u i) (Z.of_nat i) = Some (Some x, snd (old i))).
  { rewrite (hmap_lvl _ _ _ _ _ H3), (hmap_lvl _ _ _ _ _ H2), Hu1. cbn. unfold single.
    rewrite (decide_False (P := u i = x /\ i = i)) by (intros [? _]; congruence).
    by rewrite decide_True. }
  destruct (set_lvl_spec h3 (u i) i (Some x, (r0 -[32] r i) +[32] 1) _ Hu3) as (h4 & E4 & H4).
  exists h1, h2, h3, h4. repeat (split; [done|]).
  pose proof (hmap_comp _ _ _ _ _ (hmap_comp _ _ _ _ _ (hmap_comp _ _ _ _ _ H1 H2) H3) H4) as H.
  refine (hmap_ext _ _ _ _ H _). intros p j l _. cbv beta. unfold single.
  destruct (decide (j = i)) as [->|Hj].
  - destruct (decide (p = x)) as [->|Hpx].
    + rewrite (decide_False (P := x = u i /\ i = i)) by (intros [? _]; congruence).
      by rewrite (decide_True (P := x = x /\ i = i)) by done.
    + rewrite !(decide_False (P := p = x /\ i = i)) by (intros [? _]; congruence).
      destruct (decide (p = u i)) as [->|Hpu].
      * by rewrite !(decide_True (P := u i = u i /\ i = i)) by done.
      * by rewrite !(decide_False (P := p = u i /\ i = i)) by (intros [? _]; congruence).
  - by rewrite !decide_False by (intros [_ ?]; congruence).
Qed.

Definition linkF (x : Z) (i lv : nat) (p : Z) (j : nat) (l : option Z * Z) : option Z * Z :=
  if decide (i <= j < lv)%nat then
    if decide (p = x) then (fst (old j), snd (old j) -[32] (r0 -[32] r j))
    else if decide (p = u j) then (Some x, (r0 -[32] r j) +[32] 1) else l
  else l.

Lemma link_loop_spec x lv : forall n i fuel h,
  (i + n = lv)%nat -> (n < fuel)%nat -> rank !! 0%nat = Some r0 ->
  (forall j, (i <= j < lv)%nat -> update !! j = Some (u j) /\ rank !! j = Some (r j) /\
     u j <> x /\ (exists l, lvl h x (Z.of_nat j) = Some l) /\
     lvl h (u j) (Z.of_nat j) = Some (old j)) ->
  exists h', link_loop fuel h x (Z.of_nat i) (Z.of_nat lv) update rank = Some h' /\
    hmap (linkF x i lv) h h'.
Proof.
  induction n as [|n IH]; intros i [|fuel] h Hin Hf Hr0 Hpre; try lia; cbn [link_loop].
  - rewrite (proj2 (Z.ltb_ge _ _)) by lia. exists h. split; [done|].
    refine (hmap_ext _ _ _ _ (hmap_id h) _). intros p j l _. unfold linkF.
    by rewrite decide_False by lia.
  - rewrite (proj2 (Z.ltb_lt _ _)) by lia.
    destruct (Hpre i) as (Hu & Hr & Hne & [lx Hx] & Hlu); [lia|].
    destruct (link_round h x i lx Hne Hx Hlu)
      as (h1 & h2 & h3 & h4 & E1 & L1 & E2 & L2 & E3 & L3 & E4 & H).
    rewrite !znth_nat, Hu, Hr. change 0 with (Z.of_nat 0). rewrite znth_nat, Hr0. step.
    rewrite Hx. step. destruct lx as [fx sx]. rewrite Hlu. step.
    destruct (old i) as [fo so] eqn:Eo. cbn [fst snd] in *.
    rewrite E1. step. rewrite L1. step. rewrite E2. step. rewrite L2. step.
    rewrite E3. step. rewrite L3. step. rewrite E4. step.
    replace (Z.of_nat i + 1) with (Z.of_nat (S i)) by lia.
    destruct (IH (S i) fuel h4) as (h' & E & H'); [lia|lia|done| |].
    + intros j Hj. destruct (Hpre j) as (Huj & Hrj & Hnj & [l Hl] & Hlj); [lia|].
      rewrite !(hmap_lvl _ _ _ _ _ H), Hl, Hlj. cbn.
      rewrite !(decide_False (P := j = i)) by lia. repeat split; eauto.
    + exists h'. split; [done|]. refine (hmap_ext _ _ _ _ (hmap_comp _ _ _ _ _ H H') _).
      intros p j l _. unfold linkF. destruct (decide (j = i)) as [->|Hj].
      * rewrite (decide_False (P := (S i <= i < lv)%nat)) by lia.
        rewrite (decide_True (P := (i <= i < lv)%nat)) by lia. by rewrite Eo.
      * destruct (decide (S i <= j < lv)%nat);
          [rewrite (decide_True (P := (i <= j < lv)%nat)) by lia
          |rewrite (decide_False (P := (i <= j < lv)%nat)) by lia]; done.
Qed.

Definition bumpF (i lv : nat) (p : Z) (j : nat) (l : option Z * Z) : option Z * Z :=
  if decide ((i <= j < lv)%nat /\ p = u j) then (fst l, snd l +[32] 1) else l.

Lemma bump_loop_spec lv : forall n i fuel h,
  (i + n = lv)%nat -> (n < fuel)%nat ->
  (forall j, (i <= j < lv)%nat -> update !! j = Some (u j) /\
     exists l, lvl h (u j) (Z.of_nat j) = Some l) ->
  exists h', bump_loop fuel h (Z.of_nat i) (Z.of_nat lv) update = Some h' /\
    hmap (bumpF i lv) h h'.
Proof.
  induction n as [|n IH]; intros i [|fuel] h Hin Hf Hpre; try lia; cbn [bump_loop].
  - rewrite (proj2 (Z.ltb_ge _ _)) by lia. exists h. split; [done|].
    refine (hmap_ext _ _ _ _ (hmap_id h) _). intros p j l _. unfold bumpF.
    by rewrite decide_False by lia.
  - rewrite (proj2 (Z.ltb_lt _ _)) by lia.
    destruct (Hpre i) as (Hu & [[f s] Hl]); [lia|].
    rewrite znth_nat, Hu. step. rewrite Hl. step.
    destruct (set_lvl_spec h (u i) i (f, s +[32] 1) _ Hl) as (h1 & -> & H). step.
    replace (Z.of_nat i + 1) with (Z.of_nat (S i)) by lia.
    destruct (IH (S i) fuel h1) as (h' & E & H'); [lia|lia| |].
    + intros j Hj. destruct (Hpre j) as (Huj & [l Hlj]); [lia|].
      rewrite (hmap_lvl _ _ _ _ _ H), Hlj. cbn. by eauto.
    + exists h'. split; [done|]. refine (hmap_ext _ _ _ _ (hmap_comp _ _ _ _ _ H H') _).
      intros p j l Hpj. unfold bumpF, single.
      destruct (decide (p = u i /\ j = i)) as [[-> ->]|Hne].
      * rewrite decide_False by lia. rewrite decide_True by (split; [lia|done]).
        rewrite Hl in Hpj. by injection Hpj as <-.
      * destruct (decide ((S i <= j < lv)%nat /\ p = u j)) as [[? ?]|Hn].
        -- by rewrite decide_True by (split; [lia|done]).
        -- rewrite decide_False; [done|]. intros [Hj ->].
           destruct (decide (j = i)) as [->|]; [by apply Hne|]. apply Hn. split; [lia|done].
Qed.

(** What [unlink_loop] stores at level [j] of [update[j]]. *)
Definition cut (h : zheap) (x : Z) (j : nat) (l : option Z * Z) : option Z * Z :=
  if ptr_eqb (fst l) x then
    match lvl h x (Z.of_nat j) with
    | Some (fx, sx) => (fx, snd l +[32] (sx -[32] 1))
    | None => l
    end
  else (fst l, snd l -[32] 1).

Definition unlinkF (h : zheap) (x : Z) (i lv : nat) (p : Z) (j : nat)
    (l : option Z * Z) : option Z * Z :=
  if decide ((i <= j < lv)%nat /\ p = u j) then cut h x j l else l.

Lemma unlink_loop_spec x lv : forall n i fuel h,
  (i + n = lv)%nat -> (n < fuel)%nat ->
  (forall j, (i <= j < lv)%nat -> update !! j = Some (u j) /\ u j <> x /\
     exists l, lvl h (u j) (Z.of_nat j) = Some l /\
       (fst l = Some x -> exists lx, lvl h x (Z.of_nat j) = Some lx)) ->
  exists h', unlink_loop fuel h x (Z.of_nat i) (Z.of_nat lv) update = Some h' /\
    hmap (unlinkF h x i lv) h h'.
Proof.
  induction n as [|n IH]; intros i [|fuel] h Hin Hf Hpre; try lia; cbn [unlink_loop].
  - rewrite (proj2 (Z.ltb_ge _ _)) by lia. exists h. split; [done|].
    refine (hmap_ext _ _ _ _ (hmap_id h) _). intros p j l _. unfold unlinkF.
    by rewrite decide_False by lia.
  - rewrite (proj2 (Z.ltb_lt _ _)) by lia.
    destruct (Hpre i) as (Hu & Hne & [[f s] [Hl Hlx]]); [lia|].
    rewrite znth_nat, Hu. step. rewrite Hl. step. cbn [fst] in Hlx.
    assert (Hbody : exists h1,
      (if ptr_eqb f x then
         '(_, sx) ← lvl h x (Z.of_nat i);
         h ← set_lvl h (u i) (Z.of_nat i) (f, s +[32] (sx -[32] 1));
         '(fx, _) ← lvl h x (Z.of_nat i);
         '(_, s) ← lvl h (u i) (Z.of_nat i);
         set_lvl h (u i) (Z.of_nat i) (fx, s)
       else set_lvl h (u i) (Z.of_nat i) (f, s -[32] 1)) = Some h1 /\
      hmap (single (u i) i (cut h x i (f, s))) h h1).
    { unfold cut. cbn [fst snd]. destruct (ptr_eqb f x) eqn:Ef.
      - assert (Hfx : f = Some x).
        { unfold ptr_eqb in Ef. destruct f as [y|]; [|done].
          apply Z.eqb_eq in Ef. by subst. }
        destruct (Hlx Hfx) as [[fx sx] Hx]. rewrite Hx. step.
        destruct (set_lvl_spec h (u i) i (f, s +[32] (sx -[32] 1)) _ Hl) as (h1 & -> & H1).
        step. rewrite (hmap_lvl _ _ _ x i H1), Hx. cbn [fmap option_fmap option_map].
        unfold single at 1. rewrite decide_False by (intros [? _]; congruence). step.
        assert (Hu1 : lvl h1 (u i) (Z.of_nat i) = Some (f, s +[32] (sx -[32] 1))).
        { rewrite (hmap_lvl _ _ _ _ _ H1), Hl. cbn. unfold single. by rewrite decide_True. }
        rewrite Hu1. step.
        destruct (set_lvl_spec h1 (u i) i (fx, s +[32] (sx -[32] 1)) _ Hu1) as (h2 & -> & H2).
        exists h2. split; [done|]. refine (hmap_ext _ _ _ _ (hmap_comp _ _ _ _ _ H1 H2) _).
        intros p j l _. unfold single. by destruct (decide (p = u i /\ j = i)).
      - destruct (set_lvl_spec h (u i) i (f, s -[32] 1) _ Hl) as (h1 & -> & H1).
        by exists h1. }
    destruct Hbody as (h1 & -> & H). step.
    replace (Z.of_nat i + 1) with (Z.of_nat (S i)) by lia.
    assert (Hsame : forall p j, (S i <= j)%nat -> lvl h1 p (Z.of_nat j) = lvl h p (Z.of_nat j)).
    { intros p j Hj. rewrite (hmap_lvl _ _ _ _ _ H). unfold single.
      destruct (lvl h p (Z.of_nat j)); [|done]. cbn.
      by rewrite decide_False by (intros [_ ?]; lia). }
    destruct (IH (S i) fuel h1) as (h' & E & H'); [lia|lia| |].
    + intros j Hj. rewrite !Hsame by lia. apply Hpre. lia.
    + exists h'. split; [done|]. refine (hmap_ext _ _ _ _ (hmap_comp _ _ _ _ _ H H') _).
      intros p j l Hpj. unfold unlinkF, single.
      destruct (decide (p = u i /\ j = i)) as [[-> ->]|Hn].
      * rewrite decide_False by lia. rewrite decide_True by (split; [lia|done]).
        rewrite Hl in Hpj. by injection Hpj as <-.
      * destruct (decide ((S i <= j < lv)%nat /\ p = u j)) as [[? ?]|Hn'].
        -- rewrite decide_True by (split; [lia|done]). unfold cut. by rewrite Hsame by lia.
        -- rewrite decide_False; [done|]. intros [Hj ->].
           destruct (decide (j = i)) as [->|]; [by apply Hn|]. apply Hn'. split; [lia|done].
Qed.
End Loops.

(** ** Linking and unlinking keep the representation *)

Lemma pos_loc_app hd a s k : (k <= length a)%nat -> pos_loc hd (a ++ s) k = pos_loc hd a k.
Proof. destruct k as [|k]; [done|]. intros. simpl. by rewrite lookup_app_l by lia. Qed.

Lemma pos_loc_lookup hd E n : (n <= length E)%nat ->
  (hd :: (e_loc <$> E)) !! n = Some (pos_loc hd E n).
Proof.
  destruct n as [|n]; [done|]. intros Hn.
  change ((e_loc <$> E) !! n = Some (pos_loc hd E (S n))).
  rewrite list_lookup_fmap. cbn [pos_loc]. destruct (lookup_lt_is_Some_2 E n) as [e He]; [lia|].
  by rewrite He.
Qed.

Lemma pos_loc_inj hd E n m : NoDup (hd :: (e_loc <$> E)) ->
  (n <= length E)%nat -> (m <= length E)%nat ->
  pos_loc hd E n = pos_loc hd E m -> n = m.
Proof.
  intros Hnd Hn Hm Heq. eapply NoDup_lookup; [done|by apply pos_loc_lookup|].
  rewrite Heq. by apply pos_loc_lookup.
Qed.

Lemma pos_loc_mid hd a1 e a2 : pos_loc hd (a1 ++ e :: a2) (S (length a1)) = e_loc e.
Proof. cbn [pos_loc]. by rewrite list_lookup_middle. Qed.

Definition relinkF (L : nat) (hd : Z) (a E2 : list elem) (p : Z) (j : nat)
    (l : option Z * Z) : option Z * Z :=
  if decide ((j < L)%nat /\ p = pos_loc hd a (lastpos j a))
  then fwd j (drop (lastpos j a) E2) else l.

Section Relink.
Context (h h' : zheap) (z : zskiplist) (L : nat) (a m1 m2 b : list elem).
Context (F : Z -> nat -> option Z * Z -> option Z * Z).
Context (R : rep h z L (a ++ m1 ++ b)) (HF : hmap F h h').
Notation hd := (zsl_header z).
Context (Hrel : forall p j l, p ∈ hd :: (e_loc <$> a ++ m1 ++ b) ->
  lvl h p (Z.of_nat j) = Some l -> F p j l = relinkF L hd a (a ++ m2 ++ b) p j l).

Lemma relink_pos p n j : (n <= length (a ++ m1 ++ b))%nat ->
  p = pos_loc hd (a ++ m1 ++ b) n ->
  p = pos_loc hd a (lastpos j a) <-> n = lastpos j a.
Proof.
  intros Hn ->. pose proof (lastpos_le j a). split.
  - intros Heq. eapply pos_loc_inj; [apply (r_nodup _ _ _ _ R)|done| |].
    + rewrite length_app. lia.
    + by rewrite Heq, pos_loc_app.
  - intros ->. by rewrite pos_loc_app.
Qed.

Lemma relink_header : header_ok h' L hd (a ++ m2 ++ b).
Proof.
  destruct (r_header _ _ _ _ R) as (sc & bk & lv & Hh & Hlen & Hlo & Hhi).
  exists sc, bk, (imap (F hd) lv). destruct HF as [_ HFp]. rewrite HFp, Hh.
  split; [done|]. split; [by rewrite length_imap|].
  assert (Hl : forall i l, lv !! i = Some l -> F hd i l = relinkF L hd a (a ++ m2 ++ b) hd i l).
  { intros i l Hi. apply Hrel; [by left|]. unfold lvl. rewrite Hh. step. by rewrite znth_nat. }
  split; intros i Hi; rewrite list_lookup_imap.
  - rewrite Hlo by done. cbn. f_equal. rewrite Hl by auto. unfold relinkF.
    pose proof (relink_pos hd 0 i ltac:(lia) eq_refl) as Hp.
    destruct (decide _) as [[_ Hd]|Hd].
    + apply Hp in Hd. by rewrite <- Hd, drop_0.
    + apply fwd_hide. intros H0. apply Hd. split; [done|]. by apply Hp.
  - destruct (Hhi i Hi) as [s Hs]. exists s. rewrite Hs. cbn. f_equal.
    rewrite Hl by done. unfold relinkF. by rewrite decide_False by lia.
Qed.

Lemma node_levels e l i x : levels e l !! i = Some x ->
  (i < e_height e)%nat /\ x = fwd i l.
Proof.
  unfold levels. intros H. rewrite list_lookup_fmap in H.
  destruct (seq 0 (e_height e) !! i) as [k|] eqn:E; [|done].
  apply lookup_seq in E as [-> Hi]. cbn in H. injection H as <-. done.
Qed.

(** The levels of a node after the change, read one by one. *)
Lemma relink_node bk e l l' :
  node_ok h bk e l -> e_loc e ∈ e_loc <$> a ++ m1 ++ b ->
  (forall j, (j < e_height e)%nat ->
     relinkF L hd a (a ++ m2 ++ b) (e_loc e) j (fwd j l) = fwd j l') ->
  node_ok h' bk e l'.
Proof.
  unfold node_ok. intros Hn Hin Hj. destruct HF as [_ HFp]. rewrite HFp, Hn. cbn. do 2 f_equal.
  apply list_eq. intros i. rewrite list_lookup_imap.
  destruct (levels e l !! i) as [x|] eqn:Ei.
  - destruct (node_levels _ _ _ _ Ei) as [Hi ->]. rewrite lookup_levels by done. cbn. f_equal.
    rewrite Hrel; [by apply Hj|by right|].
    unfold lvl. rewrite Hn. step. cbn [zn_level]. by rewrite znth_nat.
  - cbn. symmetry. apply lookup_ge_None. apply lookup_ge_None in Ei.
    unfold levels in *. rewrite length_fmap, length_seq in *. done.
Qed.

Lemma relink_before a1 e a2 : a = a1 ++ e :: a2 ->
  node_ok h' (back a1) e (a2 ++ m2 ++ b).
Proof.
  intros Ha.
  assert (HE : (a ++ m1 ++ b) !! length a1 = Some e)
    by (rewrite Ha, <- app_assoc; by apply list_lookup_middle).
  pose proof (r_nodes _ _ _ _ R _ _ HE) as Hn.
  pose proof (heights h z L _ R _ _ HE) as Hh.
  assert (Ht : take (length a1) (a ++ m1 ++ b) = a1)
    by (rewrite Ha, <- app_assoc; by rewrite take_app_length).
  assert (Hd : forall m, drop (S (length a1)) (a ++ m) = a2 ++ m).
  { intros m. rewrite Ha, <- app_assoc, <- Nat.add_1_r, drop_app_add. done. }
  rewrite Ht, Hd in Hn. refine (relink_node _ _ _ _ Hn _ _).
  - apply list_elem_of_fmap_2. by eapply list_elem_of_lookup_2.
  - intros j Hj. unfold relinkF.
    pose proof (relink_pos (e_loc e) (S (length a1)) j) as Hp.
    assert (Hlt : (length a1 < lastpos j a)%nat).
    { eapply lastpos_max; [|done]. rewrite Ha. by apply list_lookup_middle. }
    destruct (decide _) as [[_ Hdec]|Hdec].
    + apply Hp in Hdec; [|apply lookup_lt_Some in HE; lia
                         |cbn [pos_loc]; by rewrite HE].
      rewrite <- Hdec. by rewrite Hd.
    + apply fwd_hide. intros H0. apply Hdec. split; [lia|].
      apply Hp; [apply lookup_lt_Some in HE; lia|cbn [pos_loc]; by rewrite HE|].
      rewrite <- (lastpos_from j a (S (length a1))) by lia.
      rewrite Ha, <- Nat.add_1_r, drop_app_add. cbn [drop]. rewrite drop_0. lia.
Qed.

Lemma relink_after b1 e b2 : b = b1 ++ e :: b2 ->
  node_ok h' (back (a ++ m1 ++ b1)) e b2.
Proof.
  intros Hb.
  assert (Hsp : a ++ m1 ++ b = (a ++ m1 ++ b1) ++ e :: b2)
    by (by rewrite Hb, <- !app_assoc).
  assert (HE : (a ++ m1 ++ b) !! length (a ++ m1 ++ b1) = Some e)
    by (rewrite Hsp; by apply list_lookup_middle).
  pose proof (r_nodes _ _ _ _ R _ _ HE) as Hn.
  assert (Ht : take (length (a ++ m1 ++ b1)) (a ++ m1 ++ b) = a ++ m1 ++ b1)
    by (by rewrite Hsp, take_app_length).
  assert (Hd : drop (S (length (a ++ m1 ++ b1))) (a ++ m1 ++ b) = b2)
    by (by rewrite Hsp, <- Nat.add_1_r, drop_app_add).
  rewrite Ht, Hd in Hn. refine (relink_node _ _ _ _ Hn _ _).
  - apply list_elem_of_fmap_2. by eapply list_elem_of_lookup_2.
  - intros j Hj. unfold relinkF. rewrite decide_False; [done|]. intros [_ Hdec].
    apply (relink_pos _ (S (length (a ++ m1 ++ b1)))) in Hdec.
    + pose proof (lastpos_le j a). rewrite !length_app in Hdec. lia.
    + apply lookup_lt_Some in HE. lia.
    + cbn [pos_loc]. by rewrite HE.
Qed.
End Relink.

(** The heights and addresses of a list with a piece replaced. *)
Lemma hmap_dom f h h' : hmap f h h' -> dom (zh h') = dom (zh h).
Proof.
  intros [_ H]. apply set_eq. intros p. rewrite !elem_of_dom, H.
  split; intros [x Hx]; [|rewrite Hx; by eexists].
  destruct (zh h !! p); [by eexists|done].
Qed.

Definition with_level (z : zskiplist) (L : nat) : zskiplist :=
  mkZsl (zsl_header z) (zsl_tail z) (zsl_length z) (Z.of_nat L).

(** *** Raising the levels of the header *)

Lemma fwd_above z h L E i : rep h z L E -> (L <= i)%nat -> fwd i E = (None, zlen E).
Proof.
  intros R Hi. apply fwd_low. eapply Forall_impl; [apply (r_heights _ _ _ _ R)|].
  simpl. lia.
Qed.

Lemma raise_step h z L E : rep h z L E -> (L < 32)%nat ->
  exists h1, lvl h (zsl_header z) (Z.of_nat L) <> None /\
    (forall l, lvl h (zsl_header z) (Z.of_nat L) = Some l ->
      fst l = None /\
      set_lvl h (zsl_header z) (Z.of_nat L) (fst l, u32 (zsl_length z)) = Some h1) /\
    rep h1 (with_level z (S L)) (S L) E /\
    dropped h1 = dropped h /\ dom (zh h1) = dom (zh h).
Proof.
  intros R HL. destruct (r_header _ _ _ _ R) as (sc & bk & lv & Hh & Hlen & Hlo & Hhi).
  destruct (Hhi L) as [s Hs]; [lia|].
  destruct (r_length _ _ _ _ R) as [Hzl Hzb].
  assert (Hl : lvl h (zsl_header z) (Z.of_nat L) = Some (None, s))
    by (unfold lvl; rewrite Hh; step; by rewrite znth_nat).
  destruct (set_lvl_spec h (zsl_header z) L (None, u32 (zsl_length z)) _ Hl) as (h1 & E1 & HF).
  exists h1. split; [by rewrite Hl|]. split.
  { intros l Hl'. rewrite Hl in Hl'. injection Hl' as <-. done. }
  split; [|split; [apply HF|by eapply hmap_dom]].
  assert (Hnode : forall bk e l, e_loc e <> zsl_header z -> node_ok h bk e l -> node_ok h1 bk e l).
  { intros bk' e l Hne Hn. unfold node_ok in *. destruct HF as [_ HFp]. rewrite HFp, Hn. cbn.
    do 2 f_equal. apply list_eq. intros j. rewrite list_lookup_imap.
    destruct (levels e l !! j); [|done]. cbn. unfold single.
    by rewrite decide_False by (intros [? _]; congruence). }
  destruct (r_level _ _ _ _ R) as [_ HL1].
  split; cbn [zsl_level zsl_header zsl_tail zsl_length with_level].
  - split; [done|lia].
  - eapply Forall_impl; [apply (r_heights _ _ _ _ R)|]. simpl. lia.
  - apply (r_nodup _ _ _ _ R).
  - done.
  - apply (r_tail _ _ _ _ R).
  - exists sc, bk, (imap (single (zsl_header z) L (None, u32 (zsl_length z)) (zsl_header z)) lv).
    destruct HF as [_ HFp]. rewrite HFp, Hh. split; [done|].
    split; [by rewrite length_imap|]. unfold single.
    split; intros i Hi; rewrite list_lookup_imap.
    + destruct (decide (i = L)) as [->|Hne].
      * rewrite Hs. cbn. rewrite decide_True by done.
        rewrite (fwd_above z h L E) by (done || lia). rewrite Hzl. do 2 f_equal.
        apply wrap_small. unfold in_u. pose proof (zlen_nonneg E). lia.
      * rewrite Hlo by lia. cbn. by rewrite decide_False by (intros [_ ?]; congruence).
    + destruct (Hhi i) as [s' Hs']; [lia|]. exists s'. rewrite Hs'. cbn.
      by rewrite decide_False by (intros [_ ?]; lia).
  - intros n e He. apply Hnode; [|by apply (r_nodes _ _ _ _ R)].
    pose proof (r_nodup _ _ _ _ R) as Hnd. apply NoDup_cons in Hnd as [Hnin _].
    intros Heq. apply Hnin. rewrite <- Heq. apply list_elem_of_fmap_2.
    by eapply list_elem_of_lookup_2.
Qed.

Lemma raise_loop_spec z0 lv E : forall n h L fuel update rank,
  rep h (with_level z0 L) L E -> n = (lv - L)%nat -> (lv <= 32)%nat -> (n < fuel)%nat ->
  exists h', raise_loop fuel h z0 (Z.of_nat L) (Z.of_nat lv) update rank =
      Some (h', update ++ replicate n (zsl_header z0), rank ++ replicate n 0) /\
    rep h' (with_level z0 (max L lv)) (max L lv) E /\
    dropped h' = dropped h /\ dom (zh h') = dom (zh h).
Proof.
  induction n as [|n IH]; intros h L [|fuel] update rank R Hn Hlv Hf; try lia;
    cbn [raise_loop replicate].
  - rewrite (proj2 (Z.ltb_ge _ _)) by lia. exists h. rewrite !app_nil_r.
    rewrite Nat.max_l by lia. done.
  - rewrite (proj2 (Z.ltb_lt _ _)) by lia.
    destruct (raise_step h (with_level z0 L) L E R) as (h1 & Hsome & Hset & R1 & Hd1 & Hdm1); [lia|].
    cbn [zsl_header zsl_length with_level] in *.
    destruct (lvl h (zsl_header z0) (Z.of_nat L)) as [[f s]|] eqn:El; [|done]. step.
    destruct (Hset _ eq_refl) as [_ Hs]. cbn [fst] in Hs. rewrite Hs. step.
    replace (Z.of_nat L + 1) with (Z.of_nat (S L)) by lia.
    destruct (IH h1 (S L) fuel (update ++ [zsl_header z0]) (rank ++ [0]))
      as (h' & E' & R' & Hd' & Hdm'); [done|lia|lia|lia|].
    exists h'. rewrite E', <- !app_assoc. replace (max L lv) with (max (S L) lv) by lia.
    split; [done|]. split; [done|]. split; congruence.
Qed.
End Rep.
