(* ===== verification/SkipOps.v ===== *)
(** The operations that change a skip list, against its representation:
    creation, insertion between two parts of the list, unlinking and releasing
    a node, and the release of the whole list. *)
From stdpp Require Import sets gmap list.
From S2P Require Import Prelude Sds Skiplist SkipRep.
Local Open Scope c_scope.

Section Ops.
Context {T M : Type} `{HS : Score T} `{HM : Member M}.
Notation znode := (@znode T M).
Notation zheap := (@zheap T M).
Notation elem := (@elem T M).

(** ** Generalities *)

(** The representation only depends on the nodes of the list. *)
Lemma rep_agree (h h' : zheap) z L (E : list elem) :
  (forall p, p ∈ zsl_header z :: (e_loc <$> E) -> zh h' !! p = zh h !! p) ->
  rep h z L E -> rep h' z L E.
Proof.
  intros Hag [Hl Hh Hnd Hlen Ht Hhd Hn]. split; try done.
  - unfold header_ok in *. rewrite Hag; [done|by left].
  - intros n e He. unfold node_ok. rewrite Hag; [by apply Hn|].
    right. apply list_elem_of_fmap_2. by eapply list_elem_of_lookup_2.
Qed.

Lemma with_level_id (h : zheap) z L (E : list elem) : rep h z L E -> with_level z L = z.
Proof. intros R. destruct (r_level _ _ _ _ R) as [Hl _]. destruct z. simpl in *. by subst. Qed.

(** The nodes, one split of the list at a time. *)
Lemma nodes_split (h : zheap) (E : list elem) :
  (forall a e b, E = a ++ e :: b -> node_ok h (back a) e b) ->
  forall n e, E !! n = Some e -> node_ok h (back (take n E)) e (drop (S n) E).
Proof. intros H n e Hn. apply H. symmetry. by apply take_drop_middle. Qed.

Lemma split_cases {A} (a1 a2 a b : list A) e x :
  a1 ++ e :: a2 = a ++ x :: b ->
  (exists t, a = a1 ++ e :: t /\ a2 = t ++ x :: b) \/
  (a1 = a /\ e = x /\ a2 = b) \/
  (exists t, b = t ++ e :: a2 /\ a1 = a ++ x :: t).
Proof.
  revert a. induction a1 as [|y a1 IH]; intros [|w a] H; simpl in *; injection H as Hy H.
  - subst. right. left. done.
  - subst. left. by exists a.
  - subst. right. right. by exists a1.
  - subst. destruct (IH a H) as [(t & -> & ->)|[(-> & -> & ->)|(t & -> & ->)]].
    + left. by exists t.
    + right. by left.
    + right. right. by exists t.
Qed.

Lemma split_app_cases {A} (a1 a2 a b : list A) e :
  a1 ++ e :: a2 = a ++ b ->
  (exists t, a = a1 ++ e :: t /\ a2 = t ++ b) \/ (exists t, b = t ++ e :: a2 /\ a1 = a ++ t).
Proof.
  destruct b as [|x b].
  - rewrite app_nil_r. intros <-. left. exists a2. by rewrite app_nil_r.
  - intros [(t & -> & ->)|[(-> & -> & ->)|(t & -> & ->)]]%split_cases.
    + left. by exists t.
    + right. exists []. by rewrite app_nil_r.
    + right. by exists (x :: t).
Qed.

Lemma back_app_cons (a : list elem) x t : back (a ++ x :: t) = back (x :: t).
Proof. unfold back. by rewrite last_app_cons. Qed.

(** The nodes' addresses are distinct from the header's. *)
Lemma rep_ne (h : zheap) z L (E : list elem) e : rep h z L E -> e ∈ E ->
  e_loc e <> zsl_header z.
Proof.
  intros R He Heq. pose proof (r_nodup _ _ _ _ R) as Hnd.
  apply NoDup_cons in Hnd as [Hn _]. apply Hn. rewrite <- Heq.
  by apply list_elem_of_fmap_2.
Qed.

Lemma heights_all (h : zheap) z L (E : list elem) : rep h z L E ->
  forall e, e ∈ E -> (1 <= e_height e <= L)%nat.
Proof. intros R e He. pose proof (r_heights _ _ _ _ R) as H. rewrite Forall_forall in H. auto. Qed.

Lemma lastpos_0 (a : list elem) :
  (forall e, e ∈ a -> (1 <= e_height e)%nat) -> lastpos 0 a = length a.
Proof.
  intros Ha. destruct a as [|x a _] using rev_ind; [done|].
  assert (Hx : (1 <= e_height x)%nat) by (apply Ha; set_solver).
  pose proof (lastpos_le 0 (a ++ [x])). rewrite length_app in *. simpl in *.
  assert (length a < lastpos 0 (a ++ [x]))%nat; [|lia].
  apply (lastpos_max _ _ _ x); [by apply list_lookup_middle|lia].
Qed.

Lemma fwd_0 (l : list elem) : (forall e, e ∈ l -> (1 <= e_height e)%nat) ->
  fst (fwd 0 l) = e_loc <$> head l.
Proof.
  destruct l as [|e l]; [done|]. intros H. cbn [fwd].
  rewrite (proj2 (Nat.ltb_lt _ _)) by (pose proof (H e); set_solver by lia). done.
Qed.

(** [update[j]], in a list cut in two. *)
Lemma upd_height (h : zheap) z L (a b : list elem) j : rep h z L (a ++ b) -> (j < L)%nat ->
  (j < pos_height L (a ++ b) (lastpos j a))%nat.
Proof.
  intros R Hj. destruct (lastpos j a) as [|n] eqn:En; simpl; [done|].
  destruct (lastpos_lookup _ _ _ En) as (e & He & Hh).
  rewrite lookup_app_l by (by eapply lookup_lt_Some). by rewrite He.
Qed.

Lemma upd_lvl (h : zheap) z L (a b : list elem) j : rep h z L (a ++ b) -> (j < L)%nat ->
  lvl h (pos_loc (zsl_header z) a (lastpos j a)) (Z.of_nat j) =
  Some (fwd j (drop (lastpos j a) a ++ b)).
Proof.
  intros R Hj. pose proof (lastpos_le j a).
  rewrite <- (pos_loc_app _ a b) by done.
  rewrite (lvl_pos h z L (a ++ b) R) by (by eapply upd_height).
  by rewrite drop_app_le by done.
Qed.

Lemma pos_loc_in hd (a : list elem) n : pos_loc hd a n ∈ hd :: (e_loc <$> a).
Proof.
  destruct n as [|n]; simpl; [by left|]. destruct (a !! n) as [e|] eqn:E; [|by left].
  right. apply list_elem_of_fmap_2. by eapply list_elem_of_lookup_2.
Qed.

Lemma set_backward_spec (h : zheap) p bk nd : zh h !! p = Some nd ->
  exists h', set_backward h p bk = Some h' /\ dropped h' = dropped h /\
    dom (zh h') = dom (zh h) /\
    zh h' !! p = Some (mkZnode (zn_score nd) (zn_obj nd) bk (zn_level nd)) /\
    (forall q, q <> p -> zh h' !! q = zh h !! q).
Proof.
  intros Hp. unfold set_backward. rewrite Hp. step. eexists. split; [done|].
  unfold upd. cbn [zh dropped]. split; [done|]. split; [|split].
  - rewrite dom_insert_L. assert (p ∈ dom (zh h)) by (by eapply elem_of_dom_2). set_solver.
  - by rewrite lookup_insert_eq.
  - intros q Hq. by rewrite lookup_insert_ne.
Qed.

(** ** Insertion *)

Section Insert.
Context (junk : Z -> option Z * Z) (h : zheap) (z : zskiplist) (L : nat).
Context (a b : list elem) (R : rep h z L (a ++ b)).
Context (x : Z) (score : T) (obj : M) (lv : nat) (Hlv : (1 <= lv <= 32)%nat).
Context (Hx : zh h !! x = None) (Hlen : zlen (a ++ b) + 1 < 2 ^ 32 - 1).
Notation hd := (zsl_header z).
Notation ne := (mkElem x score obj lv).
Notation L1 := (max L lv).

Let u (j : nat) : Z := pos_loc hd a (lastpos j a).
Let r (j : nat) : Z := Z.of_nat (lastpos j a).

Lemma ins_ne p : p ∈ hd :: (e_loc <$> a ++ b) -> p <> x.
Proof.
  intros Hp ->. apply elem_of_cons in Hp as [->|Hp].
  - destruct (r_header _ _ _ _ R) as (? & ? & ? & Hh & _). congruence.
  - apply list_elem_of_fmap in Hp as (e & -> & He).
    apply list_elem_of_lookup in He as [n Hn].
    pose proof (r_nodes _ _ _ _ R _ _ Hn) as H. unfold node_ok in H. congruence.
Qed.

Lemma u_ne j : u j <> x.
Proof.
  apply ins_ne. pose proof (pos_loc_in hd a (lastpos j a)) as H.
  rewrite fmap_app. set_solver.
Qed.

Lemma lastpos_high j : (L <= j)%nat -> lastpos j a = 0%nat.
Proof.
  intros Hj. apply lastpos_low. apply Forall_forall. intros e He.
  pose proof (heights_all _ _ _ _ R e). set_solver by lia.
Qed.

(** The arrays after the levels were raised. *)
Lemma arrays j : (j < L1)%nat ->
  (((fun i => pos_loc hd (a ++ b) (lastpos i a)) <$> seq 0 L) ++
     replicate (lv - L) hd) !! j = Some (u j) /\
  (((fun i => Z.of_nat (lastpos i a)) <$> seq 0 L) ++ replicate (lv - L) 0) !! j
    = Some (r j).
Proof.
  intros Hj. destruct (decide (j < L)%nat) as [Hlt|Hge].
  - rewrite !lookup_app_l by (by rewrite length_fmap, length_seq).
    rewrite !list_lookup_fmap, !lookup_seq_lt by done. cbn.
    rewrite pos_loc_app by apply lastpos_le. done.
  - rewrite !lookup_app_r by (rewrite length_fmap, length_seq; lia).
    rewrite !length_fmap, !length_seq, !lookup_replicate_2 by lia.
    unfold u, r. rewrite lastpos_high by lia. done.
Qed.

(** The new node's levels, and what each [update[j]] gets. *)
Lemma zlink_new j : (j < L1)%nat ->
  (fst (fwd j (drop (lastpos j a) a ++ b)),
   snd (fwd j (drop (lastpos j a) a ++ b)) -[32] (Z.of_nat (length a) -[32] r j)) = fwd j b.
Proof.
  intros Hj. rewrite fwd_skip by apply lastpos_drop_low. cbn [fst snd].
  pose proof (lastpos_le j a) as Hle. pose proof (fwd_bound j b) as Hb.
  assert (Hz : zlen (drop (lastpos j a) a) = Z.of_nat (length a) - r j)
    by (unfold zlen, r; rewrite length_drop; lia).
  rewrite zlen_app in Hlen. unfold zlen in Hlen at 1.
  rewrite (u32_id (_ - r j)) by (unfold in_u, r; lia). rewrite Hz.
  rewrite u32_id; [|unfold in_u; lia].
  destruct (fwd j b). cbn [fst snd]. f_equal. lia.
Qed.

Lemma link_upd j : (j < lv)%nat ->
  (Some x, (Z.of_nat (length a) -[32] r j) +[32] 1) = fwd j (drop (lastpos j a) (a ++ ne :: b)).
Proof.
  intros Hj. pose proof (lastpos_le j a) as Hle.
  rewrite drop_app_le by done. rewrite fwd_tall; [|apply lastpos_drop_low|done].
  assert (Hz : zlen (drop (lastpos j a) a) = Z.of_nat (length a) - r j)
    by (unfold zlen, r; rewrite length_drop; lia).
  rewrite zlen_app in Hlen. unfold zlen in Hlen at 1. pose proof (zlen_nonneg b).
  rewrite (u32_id (_ - r j)) by (unfold in_u, r; lia).
  rewrite Hz, u32_id; [done|]. unfold in_u, r. lia.
Qed.

Lemma bump_upd j : (lv <= j)%nat ->
  (fst (fwd j (drop (lastpos j a) a ++ b)), snd (fwd j (drop (lastpos j a) a ++ b)) +[32] 1)
  = fwd j (drop (lastpos j a) (a ++ ne :: b)).
Proof.
  intros Hj. pose proof (lastpos_le j a) as Hle. rewrite drop_app_le by done.
  rewrite !fwd_skip by apply lastpos_drop_low. cbn [fwd e_height].
  rewrite (proj2 (Nat.ltb_ge _ _)) by done. pose proof (fwd_bound j b) as Hb.
  destruct (fwd j b) as [p s]. cbn [fst snd] in *.
  assert (zlen (drop (lastpos j a) a) <= zlen a) by (unfold zlen; rewrite length_drop; lia).
  rewrite zlen_app in Hlen. pose proof (zlen_nonneg (drop (lastpos j a) a)).
  rewrite u32_id; [f_equal; lia|]. unfold in_u. lia.
Qed.

(** Linking: the towers of the new list, the old backward pointers. *)
Lemma link_spec h1 update rank :
  rep h1 (with_level z L1) L1 (a ++ b) -> zh h1 !! x = None ->
  (forall j, (j < L1)%nat -> update !! j = Some (u j) /\ rank !! j = Some (r j)) ->
  exists h3 h4,
    link_loop 33 (zslCreateNode junk h1 x (Z.of_nat lv) score (Some obj)) x 0 (Z.of_nat lv)
      update rank = Some h3 /\
    bump_loop 33 h3 (Z.of_nat lv) (Z.of_nat L1) update = Some h4 /\
    dropped h4 = dropped h1 /\ dom (zh h4) = {[x]} ∪ dom (zh h1) /\
    header_ok h4 L1 hd (a ++ ne :: b) /\
    (exists bk, node_ok h4 bk ne b) /\
    (forall a1 e a2, a = a1 ++ e :: a2 -> node_ok h4 (back a1) e (a2 ++ ne :: b)) /\
    (forall b1 e b2, b = b1 ++ e :: b2 -> node_ok h4 (back (a ++ b1)) e b2).
Proof.
  intros R1 Hx1 Harr. set (h2 := zslCreateNode _ _ _ _ _ _).
  assert (Hx2 : zh h2 !! x = Some (mkZnode score (Some obj) (fst (junk (-1)))
                 (junk <$> (Z.of_nat <$> seq 0 lv)))).
  { unfold h2, zslCreateNode, upd. cbn [zh]. by rewrite lookup_insert_eq, Nat2Z.id. }
  assert (Hag : forall p, p <> x -> zh h2 !! p = zh h1 !! p).
  { intros p Hp. unfold h2, zslCreateNode, upd. cbn [zh]. by rewrite lookup_insert_ne. }
  assert (R2 : rep h2 (with_level z L1) L1 (a ++ b)).
  { eapply rep_agree; [|done]. intros p Hp. apply Hag. by apply ins_ne. }
  assert (Hlx : forall j, (j < lv)%nat -> exists l, lvl h2 x (Z.of_nat j) = Some l).
  { intros j Hj. unfold lvl. rewrite Hx2. step. cbn [zn_level].
    rewrite znth_nat, !list_lookup_fmap, lookup_seq_lt by done. by eexists. }
  set (old j := fwd j (drop (lastpos j a) a ++ b)).
  assert (Hlu : forall j, (j < L1)%nat -> lvl h2 (u j) (Z.of_nat j) = Some (old j)).
  { intros j Hj. exact (upd_lvl h2 _ _ a b j R2 Hj). }
  destruct (link_loop_spec update rank u r (Z.of_nat (length a)) old x lv lv 0 33 h2)
    as (h3 & E3 & H3); [lia|lia| | |].
  { destruct (Harr 0%nat) as [_ ->]; [lia|]. unfold r. rewrite lastpos_0; [done|].
    intros e He. pose proof (heights_all _ _ _ _ R e). set_solver by lia. }
  { intros j Hj. destruct (Harr j) as [-> ->]; [lia|]. split; [done|]. split; [done|].
    split; [apply u_ne|]. split; [apply Hlx; lia|apply Hlu; lia]. }
  destruct (r_level _ _ _ _ R) as [_ HL32].
  destruct (bump_loop_spec update u L1 (L1 - lv) lv 33 h3) as (h4 & E4 & H4);
    [lia|lia| |].
  { intros j Hj. destruct (Harr j) as [-> _]; [lia|]. split; [done|].
    rewrite (hmap_lvl _ _ _ _ _ H3), Hlu by lia. by eexists. }
  exists h3, h4. split; [exact E3|]. split; [exact E4|].
  pose proof (hmap_comp _ _ _ _ _ H3 H4) as HF. set (F := fun p j l => _) in HF.
  split; [by destruct HF as [-> _]|]. split.
  { rewrite (hmap_dom _ _ _ HF). unfold h2, zslCreateNode, upd. cbn [zh].
    by rewrite dom_insert_L. }
  assert (Hrel : forall p j l, p ∈ hd :: (e_loc <$> a ++ [] ++ b) ->
    lvl h2 p (Z.of_nat j) = Some l -> F p j l = relinkF L1 hd a (a ++ [ne] ++ b) p j l).
  { intros p j l Hp Hl. apply ins_ne in Hp. unfold F, linkF, bumpF, relinkF. fold (u j).
    rewrite (decide_False (P := p = x)) by done.
    destruct (decide (j < L1)%nat) as [HjL|HjL].
    2: { rewrite !decide_False by lia. done. }
    destruct (decide (p = u j)) as [->|Hpu].
    - rewrite Hlu in Hl by done. injection Hl as <-.
      rewrite (decide_True (P := (j < L1)%nat /\ u j = u j)) by done.
      destruct (decide (j < lv)%nat).
      + rewrite (decide_True (P := (0 <= j < lv)%nat)) by lia.
        rewrite decide_False by lia. by apply link_upd.
      + rewrite (decide_False (P := (0 <= j < lv)%nat)) by lia.
        rewrite decide_True by (split; [lia|done]). apply bump_upd. lia.
    - rewrite (decide_False (P := (j < L1)%nat /\ p = u j)) by (intros [_ ?]; done).
      rewrite decide_False by (intros [_ ?]; done). by destruct (decide _). }
  split; [exact (relink_header h2 h4 _ L1 a [] [ne] b F R2 HF Hrel)|].
  split; [|split].
  - exists (fst (junk (-1))). unfold node_ok. destruct HF as [_ HFp].
    cbn [e_loc]. rewrite HFp, Hx2. cbn [fmap option_fmap option_map e_score e_obj].
    f_equal. f_equal. cbn [zn_level]. apply list_eq. intros j.
    rewrite list_lookup_imap. destruct (decide (j < lv)%nat) as [Hj|Hj].
    + rewrite (lookup_levels ne b j Hj), !list_lookup_fmap, lookup_seq_lt by done.
      cbn. f_equal. unfold F, linkF, bumpF.
      rewrite decide_False by (intros [? _]; lia).
      rewrite decide_True by lia. rewrite decide_True by done. apply zlink_new. lia.
    + unfold levels. rewrite !list_lookup_fmap, !lookup_seq_ge by (simpl; lia). done.
  - intros a1 e a2 Ha. exact (relink_before h2 h4 _ L1 a [] [ne] b F R2 HF Hrel a1 e a2 Ha).
  - intros b1 e b2 Hb. exact (relink_after h2 h4 _ L1 a [] [ne] b F R2 HF Hrel b1 e b2 Hb).
Qed.

Lemma back_update0 : (if u 0 =? hd then None else Some (u 0)) = back a.
Proof.
  unfold u. rewrite lastpos_0; [|intros e He; pose proof (heights_all _ _ _ _ R e); set_solver by lia].
  destruct a as [|e a' _] using rev_ind; [by rewrite Z.eqb_refl|].
  rewrite length_app, Nat.add_1_r, pos_loc_mid. unfold back. rewrite last_snoc.
  rewrite (proj2 (Z.eqb_neq _ _)); [done|]. apply (rep_ne _ _ _ _ e R). set_solver.
Qed.

(** The two backward pointers and the tail. *)
Lemma finish_insert h4 :
  header_ok h4 L1 hd (a ++ ne :: b) ->
  (exists bk, node_ok h4 bk ne b) ->
  (forall a1 e a2, a = a1 ++ e :: a2 -> node_ok h4 (back a1) e (a2 ++ ne :: b)) ->
  (forall b1 e b2, b = b1 ++ e :: b2 -> node_ok h4 (back (a ++ b1)) e b2) ->
  exists h6,
    (h ← set_backward h4 x (back a);
     '(f, _) ← lvl h x 0;
     '(h, tail) ← match f with
                  | Some y => h ← set_backward h y (Some x); Some (h, zsl_tail z)
                  | None => Some (h, Some x)
                  end;
     Some (h, mkZsl hd tail (zsl_length z +[64] 1) (Z.of_nat L1))) =
    Some (h6, mkZsl hd (back (a ++ ne :: b)) (zsl_length z +[64] 1) (Z.of_nat L1)) /\
    dropped h6 = dropped h4 /\ dom (zh h6) = dom (zh h4) /\
    rep h6 (mkZsl hd (back (a ++ ne :: b)) (zsl_length z +[64] 1) (Z.of_nat L1)) L1
      (a ++ ne :: b).
Proof.
  intros Hhd [bk Hne] Hbef Haft.
  destruct (set_backward_spec h4 x (back a) _ Hne) as (h5 & -> & Hd5 & Hdom5 & Hx5 & Ho5). step.
  assert (Hl : lvl h5 x (Z.of_nat 0) = Some (fwd 0 b)).
  { unfold lvl. rewrite Hx5. step. cbn [zn_level]. rewrite znth_nat.
    apply lookup_levels. simpl. lia. }
  change 0 with (Z.of_nat 0). rewrite Hl. step.
  pose proof (fwd_0 b) as Hf0. destruct (fwd 0 b) as [f s0]. cbn [fst] in Hf0.
  rewrite Hf0 by (intros e He; pose proof (heights_all _ _ _ _ R e); set_solver by lia).
  pose proof (r_nodup _ _ _ _ R) as Hnd. rewrite fmap_app in Hnd.
  assert (Hfin : forall h6, dropped h6 = dropped h5 -> dom (zh h6) = dom (zh h5) ->
    (forall p, p ∈ hd :: x :: (e_loc <$> a) -> zh h6 !! p = zh h5 !! p) ->
    (forall b1 e b2, b = b1 ++ e :: b2 -> node_ok h6 (back (a ++ ne :: b1)) e b2) ->
    dropped h6 = dropped h4 /\ dom (zh h6) = dom (zh h4) /\
    rep h6 (mkZsl hd (back (a ++ ne :: b)) (zsl_length z +[64] 1) (Z.of_nat L1)) L1
      (a ++ ne :: b)).
  { intros h6 Hd6 Hdom6 Hag Hb6. split; [congruence|]. split; [congruence|].
    assert (Hag4 : forall p, p <> x -> p ∈ hd :: x :: (e_loc <$> a) -> zh h6 !! p = zh h4 !! p).
    { intros p Hp Hin. rewrite Hag by done. by apply Ho5. }
    destruct (r_level _ _ _ _ R) as [_ HL32].
    destruct (r_length _ _ _ _ R) as [Hzl _].
    split; cbn [zsl_level zsl_header zsl_tail zsl_length].
    - split; [done|lia].
    - apply Forall_app. split; [|constructor; [simpl; lia|]];
        (eapply Forall_impl; [|intros e He; exact (conj (proj1 He) (Nat.le_trans _ _ _ (proj2 He) (Nat.le_max_l L lv)))]);
        pose proof (r_heights _ _ _ _ R) as Hall; by apply Forall_app in Hall as [? ?].
    - rewrite fmap_app, fmap_cons. cbn [e_loc].
      rewrite app_comm_cons, <- Permutation_middle, <- app_comm_cons.
      apply NoDup_cons. split; [|done].
      intros Hin. apply (ins_ne x); [by rewrite fmap_app|done].
    - rewrite Hzl, !zlen_app, zlen_cons in *.
      pose proof (zlen_nonneg a). pose proof (zlen_nonneg b).
      rewrite u64_id by (unfold in_u; lia). split; lia.
    - done.
    - unfold header_ok in *. rewrite Hag4; [done| |by left].
      apply ins_ne. by left.
    - apply nodes_split. intros a1 e a2 Hsp. symmetry in Hsp.
      apply split_cases in Hsp as [(t & Ha & ->)|[(-> & -> & ->)|(t & Hb & ->)]].
      + unfold node_ok. rewrite Hag4.
        * apply Hbef. exact Ha.
        * apply ins_ne. rewrite Ha, !fmap_app, fmap_cons. set_solver.
        * rewrite Ha, fmap_app, fmap_cons. set_solver.
      + unfold node_ok. rewrite Hag by set_solver. exact Hx5.
      + by apply Hb6. }
  assert (Hcase : b = [] \/ exists eb b', b = eb :: b')
    by (destruct b as [|eb b']; [by left|right; by exists eb, b']).
  destruct Hcase as [Hb|(eb & b' & Hb)].
  - assert (Hhead : head b = None) by (by rewrite Hb). rewrite Hhead.
    cbn [fmap option_fmap option_map]. step. exists h5.
    split; [do 2 f_equal; unfold back; by rewrite Hb, last_snoc|].
    apply Hfin; [done|done|done|]. intros b1 e b2 Hb'. rewrite Hb in Hb'.
    by destruct b1.
  - assert (Hhead : head b = Some eb) by (by rewrite Hb). rewrite Hhead.
    cbn [fmap option_fmap option_map].
    pose proof (Haft [] eb b' Hb) as Hn. rewrite app_nil_r in Hn.
    assert (Hneb : e_loc eb <> x).
    { apply ins_ne. rewrite Hb, fmap_app, fmap_cons. set_solver. }
    unfold node_ok in Hn. rewrite <- Ho5 in Hn by done.
    destruct (set_backward_spec h5 (e_loc eb) (Some x) _ Hn) as (h6 & -> & Hd6 & Hdom6 & Hb6 & Ho6).
    step. exists h6. split.
    { do 2 f_equal. rewrite (r_tail _ _ _ _ R), Hb.
      change (ne :: eb :: b') with ([ne] ++ eb :: b').
      by rewrite app_assoc, !back_app_cons. }
    rewrite Hb, fmap_cons in Hnd.
    assert (Hnd' : NoDup (e_loc eb :: (hd :: (e_loc <$> a)) ++ (e_loc <$> b'))).
    { rewrite Permutation_middle. done. }
    apply NoDup_cons in Hnd' as [Hnin Hnd'].
    apply Hfin; [done|done| |].
    + intros p Hp. apply Ho6. intros ->. apply elem_of_cons in Hp as [Hp|Hp].
      * apply Hnin. rewrite Hp. by left.
      * apply elem_of_cons in Hp as [Hp|Hp]; [done|]. apply Hnin. set_solver.
    + intros b1 e b2 Hsp. rewrite Hb in Hsp.
      destruct b1 as [|y b1]; simpl in Hsp; injection Hsp as Hy Hb'.
      * subst e b2. unfold node_ok, back. rewrite last_snoc. exact Hb6.
      * subst y. change (ne :: eb :: b1) with ([ne] ++ eb :: b1).
        rewrite app_assoc, back_app_cons.
        pose proof (Haft (eb :: b1) e b2) as Hn'. rewrite back_app_cons in Hn'.
        unfold node_ok in *. rewrite Ho6, Ho5; [apply Hn'; by rewrite Hb, Hb'| |].
        -- apply ins_ne. rewrite Hb, Hb', fmap_app, fmap_cons, fmap_app, fmap_cons.
           right. apply elem_of_app. right. right. apply elem_of_app. right. by left.
        -- intros Heq. apply Hnin. rewrite <- Heq, Hb', fmap_app, fmap_cons.
           apply elem_of_app. right. apply elem_of_app. right. by left.
Qed.

Lemma zslInsert_spec random :
  guided (a ++ b) (before score obj) (length a) ->
  zslRandomLevel random = Some (Z.of_nat lv) ->
  exists h' z', zslInsert junk random h z x score obj = Some (h', z') /\
    rep h' z' L1 (a ++ ne :: b) /\ zsl_header z' = hd /\
    dropped h' = dropped h /\ dom (zh h') = {[x]} ∪ dom (zh h).
Proof.
  intros Hg Hrand. unfold zslInsert.
  rewrite (search_spec h z L (a ++ b) R 32 _ (length a)) by
    (done || (rewrite length_app; lia)).
  step. rewrite take_app_length, Hrand. step.
  destruct (r_level _ _ _ _ R) as [Hzl HL32]. rewrite Hzl.
  destruct (raise_loop_spec z lv (a ++ b) (lv - L) h L 33
     ((fun i => pos_loc hd (a ++ b) (lastpos i a)) <$> seq 0 L)
     ((fun i => Z.of_nat (lastpos i a)) <$> seq 0 L))
    as (h1 & -> & R1 & Hd1 & Hdom1); [by rewrite (with_level_id h z L _ R)|done|lia|lia|].
  step. cbv zeta.
  assert (Hx1 : zh h1 !! x = None).
  { apply not_elem_of_dom. rewrite Hdom1. by apply not_elem_of_dom. }
  destruct (link_spec h1 _ _ R1 Hx1 arrays)
    as (h3 & h4 & E3 & E4 & Hd4 & Hdom4 & Hhd & Hne & Hbef & Haft).
  rewrite E3. step.
  replace (if Z.of_nat L <? Z.of_nat lv then Z.of_nat lv else Z.of_nat L) with (Z.of_nat L1)
    by (destruct (Z.ltb_spec (Z.of_nat L) (Z.of_nat lv)); lia).
  rewrite E4. step. change 0 with (Z.of_nat 0). rewrite znth_nat.
  destruct (arrays 0) as [-> _]; [lia|]. step. rewrite back_update0.
  destruct (finish_insert h4 Hhd Hne Hbef Haft) as (h6 & E6 & Hd6 & Hdom6 & R6).
  change 0 with (Z.of_nat 0) in E6. rewrite E6.
  eexists _, _. split; [done|]. split; [exact R6|]. split; [done|].
  split; [congruence|]. rewrite Hdom6, Hdom4, Hdom1. done.
Qed.
End Insert.

(** ** Deletion *)

Lemma fwd_none_low i (l : list elem) : fst (fwd i l) = None -> low i l.
Proof.
  induction l as [|e l IH]; [constructor|]. cbn [fwd].
  destruct (Nat.ltb_spec i (e_height e)); [done|]. destruct (fwd i l). cbn [fst] in *.
  intros H0. constructor; [lia|by apply IH].
Qed.

Lemma lower_loop_spec (h : zheap) (E : list elem) L : forall fuel z,
  rep h z L E -> (L <= fuel)%nat ->
  exists L', lower_loop fuel h (zsl_header z) (Z.of_nat L) = Some (Z.of_nat L') /\
    (L' <= L)%nat /\ rep h (with_level z L') L' E.
Proof.
  induction L as [|L IH]; intros fuel z R Hf; [destruct (r_level _ _ _ _ R); lia|].
  destruct fuel as [|fuel]; [lia|]. cbn [lower_loop].
  destruct (Z.ltb_spec 1 (Z.of_nat (S L))) as [Hlt|Hge].
  - replace (Z.of_nat (S L) - 1) with (Z.of_nat L) by lia.
    pose proof (lvl_pos h z (S L) E R 0 L) as Hl. cbn [pos_loc pos_height] in Hl.
    rewrite Hl, drop_0 by lia. step.
    pose proof (fwd_none_low L E) as Hlow. destruct (fwd L E) as [f s] eqn:Ef.
    cbn [fst] in Hlow. step.
    destruct f as [y|].
    + exists (S L). split; [done|]. split; [lia|]. by rewrite (with_level_id h z _ _ R).
    + assert (R' : rep h (with_level z L) L E).
      { destruct (r_level _ _ _ _ R) as [_ HL].
        split; cbn [with_level zsl_level zsl_header zsl_tail zsl_length].
        - split; [done|lia].
        - specialize (Hlow eq_refl). pose proof (r_heights _ _ _ _ R) as Hh.
          unfold low in Hlow. rewrite Forall_forall in *. intros e He.
          specialize (Hlow e He). specialize (Hh e He). simpl in *. lia.
        - apply (r_nodup _ _ _ _ R).
        - apply (r_length _ _ _ _ R).
        - apply (r_tail _ _ _ _ R).
        - destruct (r_header _ _ _ _ R) as (sc & bk & lv & Hh & Hlen & Hlo & Hhi).
          exists sc, bk, lv. split; [done|]. split; [done|]. split.
          + intros i Hi. apply Hlo. lia.
          + intros i Hi. destruct (decide (i = L)) as [->|]; [|apply Hhi; lia].
            exists s. by rewrite Hlo, Ef by lia.
        - apply (r_nodes _ _ _ _ R). }
      destruct (IH fuel _ R') as (L' & E' & HL' & R''); [lia|].
      exists L'. split; [exact E'|]. split; [lia|]. exact R''.
  - exists (S L). split; [done|]. split; [lia|]. by rewrite (with_level_id h z _ _ R).
Qed.

Section Delete.
Context (h : zheap) (z : zskiplist) (L : nat) (a : list elem) (e : elem) (b : list elem).
Context (R : rep h z L (a ++ e :: b)).
Notation hd := (zsl_header z).
Context (update : list Z)
  (Hupd : forall j, (j < L)%nat -> update !! j = Some (pos_loc hd a (lastpos j a))).

Let u (j : nat) : Z := pos_loc hd a (lastpos j a).

Lemma del_ne p : p ∈ hd :: (e_loc <$> a ++ b) -> p <> e_loc e.
Proof.
  intros Hp ->. pose proof (r_nodup _ _ _ _ R) as Hnd.
  rewrite fmap_app, fmap_cons, app_comm_cons, <- Permutation_middle in Hnd.
  apply NoDup_cons in Hnd as [Hn _]. apply Hn. rewrite <- app_comm_cons, <- fmap_app. done.
Qed.

Lemma del_u_ne j : u j <> e_loc e.
Proof.
  apply del_ne. pose proof (pos_loc_in hd a (lastpos j a)). rewrite fmap_app. set_solver.
Qed.

Lemma node_e : node_ok h (back a) e b.
Proof.
  assert (HE : (a ++ e :: b) !! length a = Some e) by (by apply list_lookup_middle).
  pose proof (r_nodes _ _ _ _ R _ _ HE) as H.
  rewrite take_app_length, <- Nat.add_1_r, drop_app_add in H. exact H.
Qed.

Lemma lvl_e j : (j < e_height e)%nat -> lvl h (e_loc e) (Z.of_nat j) = Some (fwd j b).
Proof.
  intros Hj. unfold lvl. rewrite node_e. step. cbn [zn_level]. rewrite znth_nat.
  by apply lookup_levels.
Qed.

(** What unlinking stores at level [j] of [update[j]]. *)
Lemma cut_upd j : (j < L)%nat ->
  cut h (e_loc e) j (fwd j (drop (lastpos j a) a ++ e :: b)) =
  fwd j (drop (lastpos j a) (a ++ b)).
Proof.
  intros Hj. pose proof (lastpos_le j a) as Hle. rewrite drop_app_le by done.
  destruct (r_length _ _ _ _ R) as [_ Hlen]. rewrite zlen_app, zlen_cons in Hlen.
  assert (Hc : 0 <= zlen (drop (lastpos j a) a) <= zlen a)
    by (unfold zlen; rewrite length_drop; lia).
  pose proof (fwd_bound j b) as Hb. set (c := drop (lastpos j a) a) in *.
  assert (Hlow : low j c) by apply lastpos_drop_low.
  unfold cut. destruct (decide (j < e_height e)%nat) as [Hh|Hh].
  - rewrite fwd_tall by done. cbn [fst snd ptr_eqb]. rewrite Z.eqb_refl, lvl_e by done.
    rewrite fwd_skip by done. destruct (fwd j b) as [f s]. cbn [fst snd] in *.
    f_equal. rewrite wrap_add_r, wrap_small; [lia|]. unfold in_u. lia.
  - rewrite !fwd_skip by done. cbn [fwd].
    rewrite (proj2 (Nat.ltb_ge _ _)) by lia.
    pose proof (fwd_in j b) as Hin.
    destruct (fwd j b) as [f s]. cbn [fst snd] in *.
    assert (Hp : ptr_eqb f (e_loc e) = false).
    { destruct f as [y|]; [|done]. simpl. apply Z.eqb_neq. apply del_ne.
      rewrite fmap_app. specialize (Hin y eq_refl). set_solver. }
    rewrite Hp. f_equal. rewrite wrap_small; [lia|]. unfold in_u. lia.
Qed.

Lemma unlink_spec :
  exists h1, unlink_loop 33 h (e_loc e) 0 (zsl_level z) update = Some h1 /\
    dropped h1 = dropped h /\ dom (zh h1) = dom (zh h) /\
    node_ok h1 (back a) e b /\ header_ok h1 L hd (a ++ b) /\
    (forall a1 y a2, a = a1 ++ y :: a2 -> node_ok h1 (back a1) y (a2 ++ b)) /\
    (forall b1 y b2, b = b1 ++ y :: b2 -> node_ok h1 (back (a ++ e :: b1)) y b2).
Proof.
  destruct (r_level _ _ _ _ R) as [-> HL].
  assert (Hlu : forall j, (j < L)%nat ->
    lvl h (u j) (Z.of_nat j) = Some (fwd j (drop (lastpos j a) a ++ e :: b)))
    by (intros j Hj; exact (upd_lvl h _ _ a (e :: b) j R Hj)).
  destruct (unlink_loop_spec update u (e_loc e) L L 0 33 h) as (h1 & E1 & HF);
    [lia|lia| |].
  { intros j Hj. split; [apply Hupd; lia|]. split; [apply del_u_ne|].
    eexists. split; [apply Hlu; lia|]. intros Hf.
    destruct (decide (j < e_height e)%nat); [rewrite lvl_e by done; by eexists|].
    exfalso. rewrite fwd_skip in Hf by apply lastpos_drop_low. cbn [fst fwd] in Hf.
    rewrite (proj2 (Nat.ltb_ge _ _)) in Hf by lia.
    pose proof (fwd_in j b (e_loc e)) as Hin. destruct (fwd j b). cbn [fst] in *.
    apply (del_ne (e_loc e)); [|done]. rewrite fmap_app. set_solver. }
  set (F := unlinkF u h (e_loc e) 0 L) in *.
  assert (HeF : forall j l, F (e_loc e) j l = l).
  { intros j l. unfold F, unlinkF. rewrite decide_False; [done|].
    intros [_ Heq]. by apply (del_u_ne j). }
  assert (Hrel : forall p j l, p ∈ hd :: (e_loc <$> a ++ [e] ++ b) ->
    lvl h p (Z.of_nat j) = Some l -> F p j l = relinkF L hd a (a ++ [] ++ b) p j l).
  { intros p j l _ Hl. unfold F, unlinkF, relinkF. fold (u j).
    destruct (decide ((j < L)%nat /\ p = u j)) as [[Hj ->]|Hn].
    - rewrite decide_True by (split; [lia|done]). rewrite Hlu in Hl by done.
      injection Hl as <-. by apply cut_upd.
    - rewrite decide_False; [done|]. intros [? ?]. apply Hn. split; [lia|done]. }
  exists h1. split; [exact E1|]. split; [apply HF|]. split; [by eapply hmap_dom|].
  split; [|split; [exact (relink_header h h1 z L a [e] [] b F R HF Hrel)|split]].
  - unfold node_ok. destruct HF as [_ HFp]. rewrite HFp, node_e. cbn. do 2 f_equal.
    apply list_eq. intros j. rewrite list_lookup_imap. destruct (levels e b !! j); [|done].
    cbn. by rewrite HeF.
  - intros a1 y a2 Ha. exact (relink_before h h1 z L a [e] [] b F R HF Hrel a1 y a2 Ha).
  - intros b1 y b2 Hb. exact (relink_after h h1 z L a [e] [] b F R HF Hrel b1 y b2 Hb).
Qed.

Lemma zslDeleteNode_spec :
  exists h' z' L', zslDeleteNode h z (e_loc e) update = Some (h', z') /\
    rep h' z' L' (a ++ b) /\ (L' <= L)%nat /\ zsl_header z' = hd /\
    zh h' !! e_loc e = zh h !! e_loc e /\
    dropped h' = dropped h /\ dom (zh h') = dom (zh h).
Proof.
  unfold zslDeleteNode.
  destruct unlink_spec as (h1 & -> & Hd1 & Hdom1 & He1 & Hhd & Hbef & Haft). step.
  assert (Hhe : forall y, y ∈ a ++ e :: b -> (1 <= e_height y <= L)%nat)
    by (by eapply heights_all).
  assert (Hl : lvl h1 (e_loc e) (Z.of_nat 0) = Some (fwd 0 b)).
  { unfold lvl. rewrite He1. step. cbn [zn_level]. rewrite znth_nat. apply lookup_levels.
    pose proof (Hhe e). set_solver by lia. }
  change 0 with (Z.of_nat 0). rewrite Hl. step.
  pose proof (fwd_0 b) as Hf0. destruct (fwd 0 b) as [f s0]. cbn [fst] in Hf0.
  rewrite Hf0 by (intros y Hy; pose proof (Hhe y); set_solver by lia).
  rewrite He1. step. cbn [zn_backward].
  destruct (r_level _ _ _ _ R) as [Hzl HL]. rewrite Hzl.
  assert (Hfin : forall h2, dropped h2 = dropped h1 -> dom (zh h2) = dom (zh h1) ->
    zh h2 !! e_loc e = zh h1 !! e_loc e ->
    (forall p, p ∈ hd :: (e_loc <$> a) -> zh h2 !! p = zh h1 !! p) ->
    (forall b1 y b2, b = b1 ++ y :: b2 -> node_ok h2 (back (a ++ b1)) y b2) ->
    exists h' z' L',
      (level ← lower_loop 33 h2 hd (Z.of_nat L);
       Some (h2, mkZsl hd (back (a ++ b)) (zsl_length z -[64] 1) level)) = Some (h', z') /\
      rep h' z' L' (a ++ b) /\ (L' <= L)%nat /\ zsl_header z' = hd /\
      zh h' !! e_loc e = zh h !! e_loc e /\
      dropped h' = dropped h /\ dom (zh h') = dom (zh h)).
  { intros h2 Hd2 Hdom2 He2 Hag Hb2.
    set (z2 := mkZsl hd (back (a ++ b)) (zsl_length z -[64] 1) (Z.of_nat L)).
    assert (R2 : rep h2 z2 L (a ++ b)).
    { destruct (r_length _ _ _ _ R) as [Hlen Hlt]. rewrite zlen_app, zlen_cons in *.
      pose proof (zlen_nonneg a). pose proof (zlen_nonneg b).
      pose proof (r_nodup _ _ _ _ R) as Hnd. pose proof (r_heights _ _ _ _ R) as Hh.
      split; unfold z2; cbn [zsl_level zsl_header zsl_tail zsl_length].
      - done.
      - apply Forall_app in Hh as [? Hh]. apply Forall_cons in Hh as [_ ?].
        by apply Forall_app.
      - rewrite fmap_app, fmap_cons, app_comm_cons, <- Permutation_middle in Hnd.
        apply NoDup_cons in Hnd as [_ Hnd]. by rewrite fmap_app.
      - rewrite zlen_app, Hlen. rewrite u64_id by (unfold in_u; lia). split; lia.
      - done.
      - unfold header_ok. rewrite Hag by (by left). exact Hhd.
      - apply nodes_split. intros a1 y a2 Hsp. symmetry in Hsp.
        apply split_app_cases in Hsp as [(t & Ha & ->)|(t & Hb & ->)].
        + unfold node_ok. rewrite Hag; [by apply Hbef|].
          rewrite Ha, fmap_app, fmap_cons. set_solver.
        + by apply Hb2. }
    destruct (lower_loop_spec h2 (a ++ b) L 33 z2 R2) as (L' & E' & HL' & R'); [lia|].
    change (zsl_header z2) with hd in E'. rewrite E'. step. exists h2, (with_level z2 L'), L'.
    split; [done|]. split; [done|]. split; [done|]. split; [done|].
    split; [|split; congruence]. rewrite He2, He1, node_e. done. }
  pose proof (r_nodup _ _ _ _ R) as Hnd. pose proof (r_tail _ _ _ _ R) as Htl.
  destruct b as [|y b'].
  - cbn [head fmap option_fmap option_map]. step. rewrite app_nil_r in *.
    apply Hfin; [done|done|done|done|]. intros [|] ? ? Hb; discriminate.
  - cbn [head fmap option_fmap option_map].
    pose proof (Haft [] y b' eq_refl) as Hn. unfold node_ok in Hn.
    destruct (set_backward_spec h1 (e_loc y) (back a) _ Hn) as (h2 & -> & Hd2 & Hdom2 & Hy2 & Ho2).
    step. rewrite fmap_app, !fmap_cons in Hnd.
    assert (Hnd' : NoDup (e_loc y :: (hd :: (e_loc <$> a)) ++ e_loc e :: (e_loc <$> b'))).
    { rewrite Permutation_middle. cbn [app] in *.
      rewrite (Permutation_swap (e_loc e)). exact Hnd. }
    apply NoDup_cons in Hnd' as [Hnin _].
    replace (zsl_tail z) with (back (a ++ y :: b'))
      by (rewrite Htl; change (e :: y :: b') with ([e] ++ y :: b');
          by rewrite app_assoc, !back_app_cons).
    apply Hfin; [done|done| | |].
    + apply Ho2. intros Heq. apply Hnin. rewrite <- Heq. apply elem_of_app. right. by left.
    + intros p Hp. apply Ho2. intros ->. apply Hnin, elem_of_app. by left.
    + intros [|w b1] v b2 Hsp; simpl in Hsp; injection Hsp as Hw Hb'.
      * subst v b2. unfold node_ok. rewrite app_nil_r. exact Hy2.
      * subst w. pose proof (Haft (y :: b1) v b2) as Hn'.
        rewrite back_app_cons. change (e :: y :: b1) with ([e] ++ y :: b1) in Hn'.
        rewrite app_assoc, back_app_cons in Hn'.
        unfold node_ok in *. rewrite Ho2; [apply Hn'; by rewrite Hb'|].
        intros Heq. apply Hnin. rewrite <- Heq, Hb', fmap_app, fmap_cons.
        apply elem_of_app. right. right. apply elem_of_app. right. by left.
Qed.
End Delete.

(** Releasing a node that is not in the list. *)
Lemma zslFreeNode_spec (h : zheap) z L (E : list elem) e bk l :
  rep h z L E -> e_loc e ∉ zsl_header z :: (e_loc <$> E) ->
  zh h !! e_loc e = Some (mkZnode (e_score e) (Some (e_obj e)) bk l) ->
  exists h', zslFreeNode h (e_loc e) = Some h' /\ rep h' z L E /\
    dropped h' = dropped h ++ [e_obj e] /\ dom (zh h') = dom (zh h) ∖ {[e_loc e]} /\
    (forall p, p <> e_loc e -> zh h' !! p = zh h !! p).
Proof.
  intros R Hnin He. unfold zslFreeNode. rewrite He. step. cbn [zn_obj]. step.
  eexists. split; [done|]. cbn [zh dropped].
  assert (Hag : forall p, p <> e_loc e -> delete (e_loc e) (zh h) !! p = zh h !! p)
    by (intros p Hp; by rewrite lookup_delete_ne).
  split; [|split; [done|split; [by rewrite dom_delete_L|done]]].
  eapply rep_agree; [|done]. intros p Hp. cbn [zh]. apply Hag. congruence.
Qed.

(** ** Creation and release of the whole list *)

Lemma create_loop_spec x : forall n j fuel (h : zheap),
  (j + n = 32)%nat -> (n < fuel)%nat ->
  (forall i, (i < 32)%nat -> exists l, lvl h x (Z.of_nat i) = Some l) ->
  (forall i, (i < j)%nat -> lvl h x (Z.of_nat i) = Some (None, 0)) ->
  exists h' F, create_loop fuel h x (Z.of_nat j) = Some h' /\ hmap F h h' /\
    (forall p i l, p <> x -> F p i l = l) /\
    (forall i, (i < 32)%nat -> lvl h' x (Z.of_nat i) = Some (None, 0)).
Proof.
  induction n as [|n IH]; intros j [|fuel] h Hj Hf Hall Hlo; try lia; cbn [create_loop];
    unfold ZSKIPLIST_MAXLEVEL.
  - rewrite (proj2 (Z.ltb_ge _ _)) by lia. exists h, (fun _ _ l => l).
    split; [done|]. split; [apply hmap_id|]. split; [done|].
    intros i Hi. apply Hlo. lia.
  - rewrite (proj2 (Z.ltb_lt _ _)) by lia.
    destruct (Hall j) as [[f s] Hl]; [lia|]. rewrite Hl. step.
    destruct (set_lvl_spec h x j (None, s) _ Hl) as (h1 & -> & H1). step.
    assert (Hl1 : lvl h1 x (Z.of_nat j) = Some (None, s)).
    { rewrite (hmap_lvl _ _ _ _ _ H1), Hl. cbn. unfold single. by rewrite decide_True. }
    destruct (set_lvl_spec h1 x j (None, 0) _ Hl1) as (h2 & -> & H2). step.
    replace (Z.of_nat j + 1) with (Z.of_nat (S j)) by lia.
    assert (Hlv : forall i, lvl h2 x (Z.of_nat i) =
      (fun l => if decide (i = j) then (None, 0) else l) <$> lvl h x (Z.of_nat i)).
    { intros i. rewrite (hmap_lvl _ _ _ _ _ H2), (hmap_lvl _ _ _ _ _ H1).
      destruct (lvl h x (Z.of_nat i)); [|done]. cbn. f_equal. unfold single.
      destruct (decide (i = j)) as [->|].
      - by rewrite decide_True.
      - by rewrite !decide_False by (intros [_ ?]; done). }
    destruct (IH (S j) fuel h2) as (h' & F & E & HF & HFo & Hx); [lia|lia| | |].
    + intros i Hi. rewrite Hlv. destruct (Hall i Hi) as [l ->]. cbn. by eexists.
    + intros i Hi. rewrite Hlv. destruct (decide (i = j)) as [->|].
      * by rewrite Hl.
      * rewrite Hlo by lia. done.
    + eexists h', _. split; [exact E|].
      split; [exact (hmap_comp _ _ _ _ _ (hmap_comp _ _ _ _ _ H1 H2) HF)|].
      split; [|done]. intros p i l Hp. cbv beta. unfold single.
      rewrite !decide_False by (intros [? _]; done). by apply HFo.
Qed.

Lemma zslCreate_spec junk (h : zheap) x : zh h !! x = None ->
  exists h' z, zslCreate junk h x = Some (h', z) /\ rep h' z 1 [] /\
    zsl_header z = x /\ dropped h' = dropped h /\ dom (zh h') = {[x]} ∪ dom (zh h) /\
    (forall p, p <> x -> zh h' !! p = zh h !! p).
Proof.
  intros Hx. unfold zslCreate. set (h0 := zslCreateNode _ _ _ _ _ _).
  assert (H0 : zh h0 !! x = Some (mkZnode sc_zero None (fst (junk (-1)))
                 (junk <$> (Z.of_nat <$> seq 0 32)))).
  { unfold h0, zslCreateNode, upd. cbn [zh]. by rewrite lookup_insert_eq. }
  assert (Hall : forall i, (i < 32)%nat -> exists l, lvl h0 x (Z.of_nat i) = Some l).
  { intros i Hi. unfold lvl. rewrite H0. step. cbn [zn_level].
    rewrite znth_nat, !list_lookup_fmap, lookup_seq_lt by done. by eexists. }
  destruct (create_loop_spec x 32 0 33 h0) as (h1 & F & E1 & HF & HFo & Hx1);
    [lia|lia|done|lia|].
  change (Z.of_nat 0) with 0 in E1. rewrite E1. step.
  pose proof HF as [Hd1 HFp]. pose proof (HFp x) as Hxh. rewrite H0 in Hxh.
  cbn [fmap option_fmap option_map zn_score zn_obj zn_backward zn_level] in Hxh.
  destruct (set_backward_spec h1 x None _ Hxh) as (h2 & -> & Hd2 & Hdom2 & Hx2 & Ho2). step.
  eexists h2, _. split; [done|]. split; [|split; [done|split; [|split]]].
  - split; cbn [zsl_level zsl_header zsl_tail zsl_length].
    + split; [done|lia].
    + constructor.
    + apply NoDup_singleton.
    + done.
    + done.
    + eexists _, _, _. rewrite Hx2. split; [done|]. cbn [zn_level].
      assert (Hlv : forall i, (i < 32)%nat ->
        imap (F x) (junk <$> (Z.of_nat <$> seq 0 32)) !! i = Some (None, 0)).
      { intros i Hi. pose proof (Hx1 i Hi) as Hl. unfold lvl in Hl. rewrite Hxh in Hl.
        revert Hl. step. cbn [zn_level]. by rewrite znth_nat. }
      split; [by rewrite length_imap, !length_fmap, length_seq|].
      split; intros i Hi; [rewrite Hlv by lia; done|exists 0; rewrite Hlv by lia; done].
    + intros n e He. by destruct n.
  - rewrite Hd2, Hd1. done.
  - rewrite Hdom2, (hmap_dom _ _ _ HF). unfold h0, zslCreateNode, upd. cbn [zh].
    by rewrite dom_insert_L.
  - intros p Hp. rewrite Ho2, HFp by done. unfold h0, zslCreateNode, upd. cbn [zh].
    rewrite lookup_insert_ne by done. destruct (zh h !! p) as [[]|]; [|done].
    cbn. do 2 f_equal. apply list_eq. intros j. rewrite list_lookup_imap.
    destruct (_ !! j); [|done]. cbn. by rewrite HFo.
Qed.

Lemma free_loop_spec (E : list elem) : forall fuel (h : zheap),
  NoDup (e_loc <$> E) -> (forall e, e ∈ E -> (1 <= e_height e)%nat) ->
  (forall n e, E !! n = Some e -> exists bk, node_ok h bk e (drop (S n) E)) ->
  (length E <= fuel)%nat ->
  exists h', free_loop fuel h (e_loc <$> head E) = Some h' /\
    dropped h' = dropped h ++ (e_obj <$> E) /\
    dom (zh h') = dom (zh h) ∖ list_to_set (e_loc <$> E).
Proof.
  induction E as [|e E IH]; intros fuel h Hnd Hh Hn Hf.
  { exists h. destruct fuel; cbn; rewrite app_nil_r; (split; [done|split; [done|set_solver]]). }
  destruct fuel as [|fuel]; [simpl in Hf; lia|].
  cbn [head fmap option_fmap option_map free_loop].
  destruct (Hn 0%nat e eq_refl) as [bk He]. unfold node_ok in He. cbn [drop] in He.
  rewrite drop_0 in He.
  assert (Hl : lvl h (e_loc e) (Z.of_nat 0) = Some (fwd 0 E)).
  { unfold lvl. rewrite He. step. cbn [zn_level]. rewrite znth_nat. apply lookup_levels.
    apply Hh. by left. }
  change 0 with (Z.of_nat 0). rewrite Hl. step.
  pose proof (fwd_0 E) as Hf0. destruct (fwd 0 E) as [f s]. cbn [fst] in Hf0.
  rewrite Hf0 by (intros y Hy; apply Hh; by right). step.
  unfold zslFreeNode. rewrite He. step. cbn [zn_obj]. step.
  apply NoDup_cons in Hnd as [Hnin Hnd].
  destruct (IH fuel (mkZheap (delete (e_loc e) (zh h)) (dropped h ++ [e_obj e])))
    as (h' & E' & Hd & Hdom); [done|intros; apply Hh; by right| |simpl in Hf; lia|].
  - intros n y Hy. destruct (Hn (S n) y Hy) as [bk' Hy']. exists bk'.
    unfold node_ok in *. cbn [zh]. rewrite lookup_delete_ne; [exact Hy'|].
    intros Heq. apply Hnin. rewrite Heq. apply list_elem_of_fmap_2.
    by eapply list_elem_of_lookup_2.
  - exists h'. split; [exact E'|]. cbn [zh dropped] in *. split.
    + rewrite Hd, <- app_assoc. done.
    + rewrite Hdom, dom_delete_L, fmap_cons. cbn [list_to_set]. set_solver.
Qed.

Lemma zslFree_spec (h : zheap) z L (E : list elem) : rep h z L E ->
  exists h', zslFree h z = Some h' /\ dropped h' = dropped h ++ (e_obj <$> E) /\
    dom (zh h') = dom (zh h) ∖ list_to_set (zsl_header z :: (e_loc <$> E)).
Proof.
  intros R. unfold zslFree.
  destruct (r_level _ _ _ _ R) as [_ HL].
  pose proof (lvl_pos h z L E R 0 0) as Hl. cbn [pos_loc pos_height] in Hl.
  change 0 with (Z.of_nat 0). rewrite Hl, drop_0 by lia. step.
  pose proof (heights_all _ _ _ _ R) as Hh.
  pose proof (fwd_0 E) as Hf0. destruct (fwd 0 E) as [f s]. cbn [fst] in Hf0.
  rewrite Hf0 by (intros y Hy; by apply Hh). step.
  destruct (r_header _ _ _ _ R) as (sc & bk & lv & Hhd & _). rewrite Hhd. step.
  pose proof (r_nodup _ _ _ _ R) as Hnd. apply NoDup_cons in Hnd as [Hnin Hnd].
  destruct (r_length _ _ _ _ R) as [Hlen _].
  destruct (free_loop_spec E (Z.to_nat (zsl_length z))
              (mkZheap (delete (zsl_header z) (zh h)) (dropped h)))
    as (h' & E' & Hd & Hdom); [done|intros; by apply Hh| |rewrite Hlen; unfold zlen; lia|].
  - intros n e He. eexists. unfold node_ok. cbn [zh].
    rewrite lookup_delete_ne; [by apply (r_nodes _ _ _ _ R)|].
    intros Heq. apply Hnin. rewrite Heq. apply list_elem_of_fmap_2.
    by eapply list_elem_of_lookup_2.
  - exists h'. split; [exact E'|]. cbn [zh dropped] in *. split; [done|].
    rewrite Hdom, dom_delete_L. cbn [list_to_set]. set_solver.
Qed.
End Ops.
