(* ===== verification/SkipSpec.v ===== *)
(** What the skip list promises to sorted sets: it is the list of its (score,
    member) pairs in increasing order, with ranks, ranges and range deletions
    computed as on that list. *)
From stdpp Require Import sets gmap list.
From S2P Require Import Prelude Sds Skiplist SkipRep SkipOps.
Local Open Scope c_scope.

(** ** Orders *)

Section Order.
Context {T M : Type} `{HS : Score T} `{HM : Member M}.

(** The order of the list: by score, then by the bytes of the member. *)
Definition ecmp (p q : T * M) : comparison :=
  match sc_cmp (fst p) (fst q) with
  | Eq => lex (key (snd p)) (key (snd q))
  | c => c
  end.

Lemma sc_eq_sym a b : sc_cmp a b = Eq -> sc_cmp b a = Eq.
Proof. intros H. by rewrite sc_antisym, H. Qed.

Lemma sc_refl a : sc_cmp a a = Eq.
Proof. pose proof (sc_antisym a a) as H. by destruct (sc_cmp a a). Qed.

Lemma sc_eq_r a b c : sc_cmp a b = Eq -> sc_cmp c a = sc_cmp c b.
Proof. intros H. rewrite (sc_antisym a c), (sc_antisym b c). by rewrite (sc_eq_l a b c). Qed.

Lemma ecmp_antisym p q : ecmp q p = CompOpp (ecmp p q).
Proof.
  unfold ecmp. rewrite (sc_antisym (fst p) (fst q)).
  destruct (sc_cmp (fst p) (fst q)); cbn; [apply lex_antisym|done|done].
Qed.

Lemma ecmp_trans p q r : ecmp p q = Lt -> ecmp q r = Lt -> ecmp p r = Lt.
Proof.
  unfold ecmp. destruct (sc_cmp (fst p) (fst q)) eqn:Epq; [|intros _|done].
  - rewrite (sc_eq_l _ _ (fst r) Epq). destruct (sc_cmp (fst q) (fst r)); try done.
    apply lex_trans.
  - destruct (sc_cmp (fst q) (fst r)) eqn:Eqr; [|intros _|done].
    + rewrite <- (sc_eq_r _ _ (fst p) Eqr), Epq. done.
    + by rewrite (sc_lt_trans _ _ _ Epq Eqr).
Qed.

Lemma ecmp_irrefl p : ecmp p p <> Lt.
Proof. pose proof (ecmp_antisym p p) as H. by destruct (ecmp p p). Qed.

Definition ordered : list (T * M) -> Prop := StronglySorted (fun p q => ecmp p q = Lt).

Definition pairs (E : list elem) : list (T * M) := (fun e => (e_score e, e_obj e)) <$> E.

(** A property that holds of a part of an ordered list at its start. *)
Definition down (l : list (T * M)) (P : T * M -> bool) : Prop :=
  forall p q, p ∈ l -> q ∈ l -> ecmp p q = Lt -> P q = true -> P p = true.

Lemma ordered_cut P E : down (pairs E) P -> ordered (pairs E) ->
  exists a b, E = a ++ b /\ Forall (fun e => P (e_score e, e_obj e) = true) a /\
    Forall (fun e => P (e_score e, e_obj e) = false) b.
Proof.
  induction E as [|e E IH]; intros HP Ho; [by exists [], []|].
  unfold pairs in *. rewrite fmap_cons in *.
  apply StronglySorted_inv in Ho as [Ho Hall].
  destruct (P (e_score e, e_obj e)) eqn:Ee.
  - destruct IH as (a & b & -> & Ha & Hb); [|done|].
    { intros p q Hp Hq. apply HP; by right. }
    exists (e :: a), b. split; [done|]. split; [by constructor|done].
  - exists [], (e :: E). split; [done|]. split; [constructor|]. constructor; [done|].
    rewrite Forall_forall in Hall. apply Forall_forall. intros y Hy.
    assert (Hin : (e_score y, e_obj y) ∈ (fun e => (e_score e, e_obj e)) <$> E)
      by (by apply (list_elem_of_fmap_2 (fun e => (e_score e, e_obj e)))).
    apply not_true_iff_false. intros Hy'.
    rewrite (HP (e_score e, e_obj e) (e_score y, e_obj y)) in Ee; [done|by left|right; exact Hin|by apply Hall|done].
Qed.

(** A test on scores and members guides the walks to its cut. *)
Lemma guided_cut (P : T * M -> bool) (test : Z -> Z -> znode -> option bool) a b :
  (forall r sp nd s o, zn_score nd = s -> zn_obj nd = Some o -> test r sp nd = Some (P (s, o))) ->
  Forall (fun e => P (e_score e, e_obj e) = true) a ->
  Forall (fun e => P (e_score e, e_obj e) = false) b ->
  guided (a ++ b) test (length a).
Proof.
  intros Ht Ha Hb n m e He _ _ nd Hs Ho. rewrite (Ht _ _ _ _ _ Hs Ho). f_equal.
  destruct (decide (m < length a)%nat) as [Hm|Hm].
  - rewrite lookup_app_l in He by done. rewrite bool_decide_true by done.
    exact (Forall_lookup_1 _ a m e Ha He).
  - rewrite lookup_app_r in He by lia. rewrite bool_decide_false by done.
    exact (Forall_lookup_1 _ b _ e Hb He).
Qed.

Definition below (p : T * M) (q : T * M) : bool :=
  match ecmp q p with Lt => true | _ => false end.
Definition atmost (p : T * M) (q : T * M) : bool :=
  match ecmp q p with Gt => false | _ => true end.

Lemma below_down l p : down l (below p).
Proof.
  intros q r _ _ Hqr. unfold below. destruct (ecmp r p) eqn:E; try done.
  by rewrite (ecmp_trans q r p Hqr E).
Qed.

Lemma atmost_down l p : down l (atmost p).
Proof.
  intros q r _ _ Hqr. unfold atmost. destruct (ecmp q p) eqn:E; try done.
  pose proof (ecmp_antisym q p) as Ha. rewrite E in Ha. cbn in Ha.
  pose proof (ecmp_trans p q r Ha Hqr) as Hpr. rewrite (ecmp_antisym p r), Hpr. done.
Qed.

Lemma before_test s o r sp nd s' o' : zn_score nd = s' -> zn_obj nd = Some o' ->
  before s o r sp nd = Some (below (s, o) (s', o')).
Proof.
  intros <- Ho. unfold before, below, ecmp, slt, seq_. cbn [fst snd]. rewrite Ho. step.
  destruct (sc_cmp (zn_score nd) s); try done. f_equal.
  rewrite <- compare_key. unfold Z.ltb. done.
Qed.

Lemma upto_test s o r sp nd s' o' : zn_score nd = s' -> zn_obj nd = Some o' ->
  upto s o r sp nd = Some (atmost (s, o) (s', o')).
Proof.
  intros <- Ho. unfold upto, atmost, ecmp, slt, seq_. cbn [fst snd]. rewrite Ho. step.
  destruct (sc_cmp (zn_score nd) s); try done. f_equal.
  rewrite <- compare_key. unfold Z.leb. done.
Qed.

(** ** Insertion and deletion on the list of pairs *)

Fixpoint zins (p : T * M) (l : list (T * M)) : list (T * M) :=
  match l with
  | [] => [p]
  | q :: l => if below p q then q :: zins p l else p :: q :: l
  end.

Definition same (p q : T * M) : bool :=
  match ecmp q p with Eq => true | _ => false end.

Definition zdel (p : T * M) (l : list (T * M)) : list (T * M) :=
  filter (fun q => same p q = false) l.

Lemma zins_cut p a b :
  Forall (fun q => below p q = true) a -> Forall (fun q => below p q = false) b ->
  zins p (a ++ b) = a ++ p :: b.
Proof.
  intros Ha Hb. induction Ha as [|q a Hq _ IH]; simpl.
  - destruct b as [|q b]; [done|]. simpl. inversion Hb as [|? ? Hq _]; subst. by rewrite Hq.
  - by rewrite Hq, IH.
Qed.

Lemma ordered_app a b : ordered (a ++ b) <->
  ordered a /\ ordered b /\ (forall p q, p ∈ a -> q ∈ b -> ecmp p q = Lt).
Proof.
  unfold ordered. induction a as [|x a IH]; simpl.
  - split; [intros H; split; [constructor|split; [done|set_solver]]|tauto].
  - split.
    + intros [H Hx]%StronglySorted_inv. apply IH in H as (H1 & H2 & H3).
      apply Forall_app in Hx as [Hx1 Hx2]. split; [by constructor|]. split; [done|].
      intros p q [->|Hp]%elem_of_cons Hq; [|by apply H3].
      rewrite Forall_forall in Hx2. by apply Hx2.
    + intros (H1 & H2 & H3). apply StronglySorted_inv in H1 as [H1 Hx].
      constructor.
      * apply IH. split; [done|]. split; [done|]. intros p q Hp Hq. apply H3; [by right|done].
      * apply Forall_app. split; [done|]. apply Forall_forall. intros q Hq.
        apply H3; [by left|done].
Qed.

Lemma not_below p q : below p q = false -> same p q = false -> ecmp p q = Lt.
Proof.
  unfold below, same. intros H1 H2. rewrite (ecmp_antisym q p).
  by destruct (ecmp q p).
Qed.

Lemma ordered_ins p a b :
  ordered (a ++ b) -> Forall (fun q => below p q = true) a ->
  Forall (fun q => below p q = false /\ same p q = false) b ->
  ordered (a ++ p :: b).
Proof.
  rewrite !ordered_app. intros (Ha & Hb & Hab) Hla Hlb.
  rewrite Forall_forall in Hla. split; [done|]. split.
  - constructor; [done|]. eapply Forall_impl; [exact Hlb|].
    intros q [H1 H2]. by apply not_below.
  - intros x q Hx [->|Hq]%elem_of_cons.
    + specialize (Hla x Hx). unfold below in Hla. by destruct (ecmp x p).
    + by apply Hab.
Qed.

Lemma ordered_del a x b : ordered (a ++ x :: b) -> ordered (a ++ b).
Proof.
  rewrite !ordered_app. intros (Ha & Hb & Hab). apply StronglySorted_inv in Hb as [Hb _].
  split; [done|]. split; [done|]. intros p q Hp Hq. apply Hab; [done|by right].
Qed.

(** In an ordered list only one pair equals [p]; it is the one after the pairs
    below [p]. *)
Lemma zdel_cut p a x b :
  ordered (a ++ x :: b) -> Forall (fun q => below p q = true) a -> same p x = true ->
  zdel p (a ++ x :: b) = a ++ b.
Proof.
  intros Ho Ha Hx. unfold zdel.
  rewrite filter_app, filter_cons_False by (by rewrite Hx). rewrite !filter_all; [done| |];
    apply Forall_forall.
  - intros q Hq. apply ordered_app in Ho as (_ & Hb & _).
    apply StronglySorted_inv in Hb as [_ Hb]. rewrite Forall_forall in Hb.
    specialize (Hb q Hq). unfold same in *. destruct (ecmp q p) eqn:E; try done.
    pose proof (ecmp_antisym q p) as H1. rewrite E in H1. cbn in H1.
    destruct (ecmp x p) eqn:E2; try done.
    exfalso. clear Hx.
    assert (Hpx : ecmp p x = Eq) by (rewrite (ecmp_antisym x p), E2; done).
    unfold ecmp in *.
    destruct (sc_cmp (fst p) (fst x)) eqn:Epx; try done.
    rewrite <- (sc_eq_l _ _ (fst q) Epx) in Hb.
    destruct (sc_cmp (fst p) (fst q)) eqn:Epq; try done.
    apply lex_eq in Hpx, H1. rewrite <- Hpx, <- H1 in Hb.
    assert (lex (key (snd p)) (key (snd p)) = Eq) by (by apply lex_eq). congruence.
  - intros q Hq. rewrite Forall_forall in Ha. specialize (Ha q Hq).
    unfold below, same in *. by destruct (ecmp q p).
Qed.

Lemma zdel_absent p l : Forall (fun q => same p q = false) l -> zdel p l = l.
Proof.
  apply filter_all.
Qed.

(** Ordered lists: past the pairs below [p], only the first can equal it. *)
Lemma same_first p x b :
  ordered (x :: b) -> below p x = false -> same p x = false ->
  Forall (fun q => same p q = false) b.
Proof.
  intros [Hb Hx]%StronglySorted_inv H1 H2. pose proof (not_below p x H1 H2) as Hpx.
  eapply Forall_impl; [exact Hx|]. intros q Hq. simpl in Hq.
  unfold same. rewrite (ecmp_antisym p q), (ecmp_trans p x q Hpx Hq). done.
Qed.

(** ** The operations on the list of pairs *)

Notation znode := (@znode T M).
Notation zheap := (@zheap T M).
Notation elem := (@elem T M).

Lemma random_loop_spec random : forall level n,
  random_loop random level = Some n -> level <= n.
Proof.
  induction random as [|r random IH]; intros level n; cbn [random_loop]; [done|].
  destruct (_ <? 65535); [intros H; apply IH in H; lia|intros [= ->]; lia].
Qed.

Lemma zslRandomLevel_bound random n : zslRandomLevel random = Some n ->
  exists lv : nat, n = Z.of_nat lv /\ (1 <= lv <= 32)%nat.
Proof.
  unfold zslRandomLevel. destruct (random_loop random 1) as [k|] eqn:E; [|done]. step.
  apply random_loop_spec in E. unfold ZSKIPLIST_MAXLEVEL. intros [= <-].
  exists (Z.to_nat (if k <? 32 then k else 32)). destruct (Z.ltb_spec k 32); lia.
Qed.

(** The list is [l], in order; the live nodes are those of [d0] and its own. *)
Definition holds (h : zheap) (z : zskiplist) (d0 : gset Z) (l : list (T * M)) : Prop :=
  exists L E, rep h z L E /\ pairs E = l /\ ordered l /\
    dom (zh h) = d0 ∪ list_to_set (zsl_header z :: (e_loc <$> E)) /\
    d0 ## list_to_set (zsl_header z :: (e_loc <$> E)).

Lemma pairs_app a b : pairs (a ++ b) = pairs a ++ pairs b.
Proof. apply fmap_app. Qed.

Lemma pairs_Forall (P : T * M -> bool) c E :
  Forall (fun e => P (e_score e, e_obj e) = c) E -> Forall (fun q => P q = c) (pairs E).
Proof. intros H. by apply Forall_fmap. Qed.

Lemma insert_step junk random h z d0 l x s o :
  holds h z d0 l -> zh h !! x = None -> is_Some (zslRandomLevel random) ->
  Forall (fun q => same (s, o) q = false) l -> zlen l + 1 < 2 ^ 32 - 1 ->
  exists h' z', zslInsert junk random h z x s o = Some (h', z') /\
    holds h' z' d0 (zins (s, o) l) /\ dropped h' = dropped h.
Proof.
  intros (L & E & R & <- & Ho & Hdom & Hdis) Hx [n Hn] Hns Hlen.
  destruct (zslRandomLevel_bound _ _ Hn) as (lv & -> & Hlv).
  destruct (ordered_cut (below (s, o)) E (below_down _ _) Ho) as (a & b & -> & Ha & Hb).
  assert (Hzl : zlen (a ++ b) + 1 < 2 ^ 32 - 1) by (unfold pairs in Hlen; by rewrite zlen_fmap in Hlen).
  destruct (zslInsert_spec junk h z L a b R x s o lv Hlv Hx Hzl random)
    as (h' & z' & E' & R' & Hhd & Hd & Hdom'); [|done|].
  { apply (guided_cut (below (s, o))); [|done|done]. intros. by apply before_test. }
  exists h', z'. split; [done|]. split; [|done].
  rewrite pairs_app in *. apply pairs_Forall in Ha, Hb.
  exists (max L lv), (a ++ mkElem x s o lv :: b). split; [done|].
  rewrite zins_cut by done. split; [by rewrite pairs_app|]. split.
  { apply ordered_ins; [done|done|]. apply Forall_app in Hns as [_ Hns].
    apply Forall_forall. intros q Hq. rewrite Forall_forall in Hb, Hns. auto. }
  rewrite Hdom', Hdom, Hhd. rewrite !fmap_app, !fmap_cons in *. cbn [e_loc list_to_set].
  rewrite !list_to_set_app_L in *. cbn [list_to_set] in *.
  apply not_elem_of_dom in Hx. rewrite Hdom in Hx.
  split; set_solver.
Qed.

Lemma same_test s o (e : elem) :
  (if seq_ s (e_score e) then equalStringObjects (e_obj e) o else false) =
  same (s, o) (e_score e, e_obj e).
Proof.
  unfold same, ecmp, seq_. cbn [fst snd]. rewrite equal_key, (sc_antisym s (e_score e)).
  destruct (sc_cmp s (e_score e)); cbn; [|done|done].
  case_bool_decide as H.
  - by rewrite (proj2 (lex_eq _ _) H).
  - destruct (lex _ _) eqn:El; [|done|done]. apply lex_eq in El. done.
Qed.

(** What the level 0 of a position says is next. *)
Lemma next_pos h z L a (c : list elem) : rep h z L (a ++ c) ->
  exists sp, lvl h (pos_loc (zsl_header z) (a ++ c) (length a)) 0 =
    Some (e_loc <$> head c, sp).
Proof.
  intros R. change 0 with (Z.of_nat 0).
  pose proof (heights_all _ _ _ _ R) as Hh.
  rewrite (lvl_pos h z L (a ++ c) R).
  - rewrite drop_app_length. exists (snd (fwd 0 c)). f_equal.
    rewrite <- (fwd_0 c); [by destruct (fwd 0 c)|].
    intros e He. apply Hh. apply elem_of_app. by right.
  - destruct (r_level _ _ _ _ R) as [_ HL].
    destruct a as [|e a _] using rev_ind; [simpl; lia|].
    rewrite length_app, Nat.add_1_r. cbn [pos_height]. rewrite <- app_assoc. cbn [app].
    rewrite list_lookup_middle by done. assert (1 <= e_height e <= L)%nat; [|lia].
    apply Hh. apply elem_of_app. left. apply elem_of_app. right. by left.
Qed.

Lemma delete_arrays h z L a (c : list elem) : rep h z L (a ++ c) ->
  forall j, (j < L)%nat ->
  ((fun i => pos_loc (zsl_header z) (a ++ c) (lastpos i a)) <$> seq 0 L) !! j =
  Some (pos_loc (zsl_header z) a (lastpos j a)).
Proof.
  intros R j Hj. rewrite list_lookup_fmap, lookup_seq_lt by done. cbn. f_equal.
  apply pos_loc_app. apply lastpos_le.
Qed.

(** One node unlinked and released. *)
Lemma remove_node h z L a e (b : list elem) update :
  rep h z L (a ++ e :: b) ->
  (forall j, (j < L)%nat -> update !! j = Some (pos_loc (zsl_header z) a (lastpos j a))) ->
  exists h1 z' L' h2, zslDeleteNode h z (e_loc e) update = Some (h1, z') /\
    zh h1 !! e_loc e = zh h !! e_loc e /\
    zslFreeNode h1 (e_loc e) = Some h2 /\ rep h2 z' L' (a ++ b) /\ (L' <= L)%nat /\
    zsl_header z' = zsl_header z /\ dropped h2 = dropped h ++ [e_obj e] /\
    dom (zh h2) = dom (zh h) ∖ {[e_loc e]}.
Proof.
  intros R Hupd.
  destruct (zslDeleteNode_spec h z L a e b R update Hupd)
    as (h1 & z' & L' & E1 & R1 & HL & Hhd & He1 & Hd1 & Hdom1).
  pose proof (node_e h z L a e b R) as Hne. unfold node_ok in Hne.
  destruct (zslFreeNode_spec h1 z' L' (a ++ b) e (back a) (levels e b) R1)
    as (h2 & E2 & R2 & Hd2 & Hdom2 & _).
  - rewrite Hhd. intros Hin. by apply (del_ne h z L a e b R _ Hin).
  - by rewrite He1.
  - exists h1, z', L', h2. rewrite Hd2, Hd1, Hdom2, Hdom1. done.
Qed.

Lemma holds_remove (a : list elem) (e : elem) (b : list elem) (d0 dh dh' : gset Z) (hd : Z) :
  NoDup (hd :: (e_loc <$> a ++ e :: b)) ->
  dh = d0 ∪ list_to_set (hd :: (e_loc <$> a ++ e :: b)) ->
  d0 ## list_to_set (hd :: (e_loc <$> a ++ e :: b)) ->
  dh' = dh ∖ {[e_loc e]} ->
  dh' = d0 ∪ list_to_set (hd :: (e_loc <$> a ++ b)) /\
  d0 ## list_to_set (hd :: (e_loc <$> a ++ b)).
Proof.
  intros Hnd -> Hdis ->. rewrite fmap_app, fmap_cons in *.
  rewrite app_comm_cons, <- Permutation_middle in Hnd. apply NoDup_cons in Hnd as [Hn _].
  cbn [list_to_set] in *. rewrite fmap_app, !list_to_set_app_L in *. cbn [list_to_set] in *.
  assert (e_loc e ∉ ({[hd]} ∪ (list_to_set (e_loc <$> a) ∪ list_to_set (e_loc <$> b)) : gset Z)).
  { intros Hin. apply Hn. cbn [app]. apply elem_of_cons. apply elem_of_union in Hin as [Hin|Hin].
    - left. set_solver.
    - right. apply elem_of_app. set_solver. }
  split; [|set_solver]. apply set_eq. intros p. destruct (decide (p = e_loc e)); set_solver.
Qed.

Lemma delete_step h z d0 l s o :
  holds h z d0 l ->
  exists h' z', zslDelete h z s o =
      Some (h', z', if existsb (same (s, o)) l then 1 else 0) /\
    holds h' z' d0 (zdel (s, o) l) /\
    dropped h' = dropped h ++ (snd <$> filter (fun q => same (s, o) q = true) l).
Proof.
  intros (L & E & R & <- & Ho & Hdom & Hdis).
  destruct (ordered_cut (below (s, o)) E (below_down _ _) Ho) as (a & c & -> & Ha & Hc).
  unfold zslDelete.
  rewrite (search_spec h z L (a ++ c) R 32 _ (length a)); [|done| |rewrite length_app; lia].
  2: { apply (guided_cut (below (s, o))); [|done|done]. intros. by apply before_test. }
  step. rewrite take_app_length. destruct (next_pos h z L a c R) as [sp Hl]. rewrite Hl. step.
  assert (Hna : Forall (fun q => same (s, o) q = false) (pairs a)).
  { apply pairs_Forall in Ha. eapply Forall_impl; [exact Ha|]. intros q Hq. simpl in Hq.
    unfold below, same in *. by destruct (ecmp q (s, o)). }
  rewrite pairs_app in *.
  assert (Habs : Forall (fun q => same (s, o) q = false) (pairs c) ->
    existsb (same (s, o)) (pairs a ++ pairs c) = false /\
    filter (fun q => same (s, o) q = true) (pairs a ++ pairs c) = [] /\
    zdel (s, o) (pairs a ++ pairs c) = pairs a ++ pairs c).
  { intros Hn. assert (Hall : Forall (fun q => same (s, o) q = false) (pairs a ++ pairs c))
      by (by apply Forall_app). split; [|split].
    - apply not_true_iff_false. intros (q & Hq & Hs)%existsb_exists.
      rewrite Forall_forall in Hall. rewrite Hall in Hs by (by apply list_elem_of_In). done.
    - apply filter_none. eapply Forall_impl; [exact Hall|]. simpl. congruence.
    - by apply zdel_absent. }
  destruct c as [|e b]; cbn [head fmap option_fmap option_map].
  { destruct (Habs ltac:(constructor)) as (-> & -> & ->). exists h, z.
    split; [done|]. split; [|by rewrite fmap_nil, app_nil_r]. exists L, (a ++ []).
    by rewrite pairs_app. }
  pose proof (node_e h z L a e b R) as Hne. unfold node_ok in Hne. rewrite Hne. step.
  cbn [zn_score zn_obj].
  assert (Hfound : (if seq_ s (e_score e) then Some (equalStringObjects (e_obj e) o)
                    else Some false) = Some (same (s, o) (e_score e, e_obj e))).
  { rewrite <- same_test. by destruct (seq_ s (e_score e)). }
  step. rewrite Hfound. step. unfold pairs at 2 in Ho. rewrite fmap_cons in Ho.
  inversion Hc as [|? ? Hbe Hcb]; subst.
  destruct (same (s, o) (e_score e, e_obj e)) eqn:Esame.
  - destruct (remove_node h z L a e b _ R (delete_arrays h z L a (e :: b) R))
      as (h1 & z' & L' & h2 & E1 & He1 & E2 & R2 & HL & Hhd & Hd2 & Hdom2).
    rewrite E1. step. rewrite E2. step. exists h2, z'.
    pose proof (pairs_Forall _ _ _ Ha) as Hpa.
    assert (Hp : pairs (e :: b) = (e_score e, e_obj e) :: pairs b) by done. rewrite Hp in *.
    split.
    { do 2 f_equal. replace (existsb _ _) with true; [done|]. symmetry.
      apply existsb_exists. eexists. split; [|exact Esame].
      apply list_elem_of_In, elem_of_app. right. by left. }
    split.
    + exists L', (a ++ b). split; [done|].
      rewrite (zdel_cut (s, o) (pairs a) _ (pairs b) Ho Hpa Esame).
      split; [apply pairs_app|]. split; [by eapply ordered_del|].
      rewrite Hhd. eapply holds_remove; [apply (r_nodup _ _ _ _ R)|done|done|].
      by rewrite Hdom2, Hdom.
    + rewrite Hd2. f_equal. rewrite filter_app, filter_cons_True by done.
      rewrite (filter_none _ (pairs a)), (filter_none _ (pairs b)); [done| |].
      * assert (Hf : zdel (s, o) (pairs a ++ (e_score e, e_obj e) :: pairs b) = pairs a ++ pairs b)
          by (by apply zdel_cut).
        apply Forall_forall. intros q Hq Hs.
        assert (Hin : q ∈ zdel (s, o) (pairs a ++ (e_score e, e_obj e) :: pairs b))
          by (rewrite Hf; apply elem_of_app; by right).
        apply list_elem_of_filter in Hin as [Hin _]. congruence.
      * eapply Forall_impl; [exact Hna|]. simpl. congruence.
  - destruct Habs as (-> & -> & ->).
    { constructor; [done|]. apply ordered_app in Ho as (_ & Ho & _).
      by apply (same_first (s, o) (e_score e, e_obj e)). }
    exists h, z. split; [done|]. split; [|by rewrite fmap_nil, app_nil_r].
    exists L, (a ++ e :: b). by rewrite pairs_app.
Qed.

(** ** Sequences of operations *)

Section Client.
Context (junk : Z -> option Z * Z) (zmalloc : gmap Z znode -> Z).

(** An insertion comes with the random numbers it draws. *)
Inductive zop :=
  | ZInsert (score : T) (obj : M) (random : list Z)
  | ZDelete (score : T) (obj : M).

Definition exec (h : zheap) (z : zskiplist) (op : zop) : option (zheap * zskiplist * Z) :=
  match op with
  | ZInsert s o random =>
      '(h, z) ← zslInsert junk random h z (zmalloc (zh h)) s o; Some (h, z, 1)
  | ZDelete s o => zslDelete h z s o
  end.

Fixpoint exec_all (h : zheap) (z : zskiplist) (ops : list zop)
    : option (zheap * zskiplist * list Z) :=
  match ops with
  | [] => Some (h, z, [])
  | op :: ops =>
      '(h, z, r) ← exec h z op;
      '(h, z, rs) ← exec_all h z ops;
      Some (h, z, r :: rs)
  end.

(** The same on a list of pairs: the new list, the result, what is released. *)
Definition zspec (l : list (T * M)) (op : zop) : list (T * M) * Z * list M :=
  match op with
  | ZInsert s o _ => (zins (s, o) l, 1, [])
  | ZDelete s o => (zdel (s, o) l, if existsb (same (s, o)) l then 1 else 0,
                    snd <$> filter (fun q => same (s, o) q = true) l)
  end.

Fixpoint zspec_all (l : list (T * M)) (ops : list zop) : list (T * M) * list Z * list M :=
  match ops with
  | [] => (l, [], [])
  | op :: ops =>
      let '(l, r, d) := zspec l op in
      let '(l, rs, ds) := zspec_all l ops in
      (l, r :: rs, d ++ ds)
  end.

(** Callers do not insert a pair twice, and [random()] ends the level draw. *)
Definition zvalid (l : list (T * M)) (op : zop) : Prop :=
  match op with
  | ZInsert s o random => is_Some (zslRandomLevel random) /\
      Forall (fun q => same (s, o) q = false) l /\ zlen l + 1 < 2 ^ 32 - 1
  | ZDelete _ _ => True
  end.

Fixpoint zvalid_all (l : list (T * M)) (ops : list zop) : Prop :=
  match ops with
  | [] => True
  | op :: ops => zvalid l op /\ zvalid_all (zspec l op).1.1 ops
  end.

Context (Hfresh : forall m, m !! zmalloc m = None).

Lemma zexec_all_spec ops : forall h z d0 l,
  holds h z d0 l -> zvalid_all l ops ->
  exists h' z', exec_all h z ops = Some (h', z', (zspec_all l ops).1.2) /\
    holds h' z' d0 (zspec_all l ops).1.1 /\
    dropped h' = dropped h ++ (zspec_all l ops).2.
Proof.
  induction ops as [|op ops IH]; intros h z d0 l Hl Hv.
  { exists h, z. cbn. by rewrite app_nil_r. }
  destruct Hv as [Hv Hvs]. cbn [exec_all zspec_all].
  assert (Hstep : exists h1 z1, exec h z op = Some (h1, z1, (zspec l op).1.2) /\
    holds h1 z1 d0 (zspec l op).1.1 /\ dropped h1 = dropped h ++ (zspec l op).2).
  { destruct op as [s o random|s o]; cbn [exec zspec fst snd].
    - destruct Hv as (Hr & Hn & Hlen).
      destruct (insert_step junk random h z d0 l (zmalloc (zh h)) s o Hl (Hfresh _) Hr Hn Hlen)
        as (h1 & z1 & -> & Hl1 & Hd1). exists h1, z1. step. rewrite app_nil_r. done.
    - by apply delete_step. }
  destruct Hstep as (h1 & z1 & -> & Hl1 & Hd1). step.
  destruct (zspec l op) as [[l1 r] d]. cbn [fst snd] in *.
  destruct (IH h1 z1 d0 l1 Hl1 Hvs) as (h2 & z2 & -> & Hl2 & Hd2). step.
  destruct (zspec_all l1 ops) as [[l2 rs] ds]. cbn [fst snd] in *.
  exists h2, z2. split; [done|]. split; [done|]. by rewrite Hd2, Hd1, <- app_assoc.
Qed.

End Client.
End Order.
