(* ===== verification/SkipRange.v ===== *)
(** Ranks and ranges of the skip list, against the ordered list of its pairs:
    the rank of a member and the element of a rank, the first and last element
    of a score or lexicographic range, and the deletion of a range. *)
From stdpp Require Import sets gmap list.
From S2P Require Import Prelude Sds Skiplist SkipRep SkipOps SkipSpec.
Local Open Scope c_scope.

Section Range.
Context {T M : Type} `{HS : Score T} `{HM : Member M}.
Notation znode := (@znode T M).
Notation zheap := (@zheap T M).
Notation elem := (@elem T M).

(** ** Ranks *)

Section Ranks.
Context (h : zheap) (z : zskiplist) (L : nat) (E : list elem) (R : rep h z L E).
Notation hd := (zsl_header z).

(** From position [m], high enough for level [n-1], the walk of level [n-1]
    ends at its last tower among the first [k]. *)
Lemma walk_level w test k n m :
  32 <= w -> guided E test k -> (k <= length E)%nat ->
  (m <= lastpos n (take k E))%nat -> (n < pos_height L E m)%nat ->
  walk w test (walk_fuel z) h (Z.of_nat n) (pos_loc hd E m) (Z.of_nat m) =
  Some (pos_loc hd E (lastpos n (take k E)), Z.of_nat (lastpos n (take k E))).
Proof.
  intros Hw Hg Hk Hm Hh. destruct (r_length _ _ _ _ R) as [Hlen _].
  pose proof (lastpos_le n (take k E)) as Hle. rewrite length_take in Hle.
  rewrite (walk_spec h z L E R w test k)
    by (done || (try unfold walk_fuel; rewrite ?Hlen; unfold zlen; lia)).
  cbv zeta. by rewrite lastpos_from.
Qed.

Lemma lastpos_height n k : (S n < L)%nat ->
  (n < pos_height L E (lastpos (S n) (take k E)))%nat.
Proof.
  intros HL. destruct (lastpos (S n) (take k E)) as [|q] eqn:Eq; simpl; [lia|].
  destruct (lastpos_lookup _ _ _ Eq) as (e & He & Hhe).
  apply lookup_take_Some in He as [He _]. rewrite He. lia.
Qed.

Lemma node_at_pos p : (p <= length E)%nat ->
  exists nd, zh h !! pos_loc hd E p = Some nd /\
    zn_obj nd = match p with O => None | S q => e_obj <$> E !! q end.
Proof.
  intros Hp. destruct p as [|q]; simpl.
  - destruct (r_header _ _ _ _ R) as (sc & bk & lv & -> & _). by eexists.
  - destruct (lookup_lt_is_Some_2 E q) as [e He]; [lia|]. rewrite He.
    rewrite (node_pos h z L E R q e He). by eexists.
Qed.

Definition last_is (o : M) (a : list elem) : bool :=
  match last a with Some e => bool_decide (key (e_obj e) = key o) | None => false end.

Lemma rank_loop_spec test k o : guided E test k -> (k <= length E)%nat ->
  (forall q e, E !! q = Some e -> key (e_obj e) = key o -> S q = k) ->
  forall n m, (n < L)%nat ->
  (m <= lastpos n (take k E))%nat -> (n < pos_height L E m)%nat ->
  rank_loop test (walk_fuel z) o h (S n) (pos_loc hd E m) (Z.of_nat m) =
  Some (if last_is o (take k E) then Z.of_nat k else 0).
Proof.
  intros Hg Hk Huniq. induction n as [|n IH]; intros m Hn Hm Hh;
    cbn [rank_loop]; rewrite (walk_level 64 test k) by (done || lia); step.
  - assert (H0 : lastpos 0 (take k E) = k).
    { rewrite lastpos_0; [rewrite length_take; lia|].
      intros e He. apply list_elem_of_lookup in He as [q Hq].
      apply lookup_take_Some in Hq as [Hq _]. by apply (heights h z L E R q). }
    rewrite H0. destruct (node_at_pos k Hk) as (nd & -> & Ho). step. rewrite Ho.
    unfold last_is. destruct k as [|q]; [done|].
    destruct (lookup_lt_is_Some_2 E q) as [e He]; [lia|].
    rewrite (take_S_r _ _ _ He), last_snoc, He. cbn. rewrite equal_key.
    by case_bool_decide.
  - set (p := lastpos (S n) (take k E)).
    assert (Hp : (p <= k)%nat) by (unfold p; pose proof (lastpos_le (S n) (take k E)) as Hle;
                              rewrite length_take in Hle; lia).
    destruct (node_at_pos p) as (nd & -> & Ho); [lia|]. step. rewrite Ho.
    destruct p as [|q] eqn:Ep.
    + apply (IH 0%nat); [lia|lia|simpl; lia].
    + destruct (lookup_lt_is_Some_2 E q) as [e He]; [lia|]. rewrite He. cbn.
      rewrite equal_key. case_bool_decide as Hkey.
      * pose proof (Huniq q e He Hkey) as <-. unfold last_is.
        rewrite (take_S_r _ _ _ He), last_snoc. by rewrite bool_decide_true.
      * change (match E !! q with Some e0 => e_loc e0 | None => hd end) with (pos_loc hd E (S q)).
        apply IH; [lia|rewrite <- Ep; apply lastpos_mono|].
        rewrite <- Ep. apply lastpos_height. lia.
Qed.

Lemma zslGetRank_spec s o a c :
  E = a ++ c -> Forall (fun e => atmost (s, o) (e_score e, e_obj e) = true) a ->
  Forall (fun e => atmost (s, o) (e_score e, e_obj e) = false) c ->
  (forall q e, E !! q = Some e -> key (e_obj e) = key o -> S q = length a) ->
  zslGetRank h z s o = Some (if last_is o a then zlen a else 0).
Proof.
  intros HE Ha Hc Huniq. unfold zslGetRank.
  destruct (r_level _ _ _ _ R) as [-> HL]. rewrite Nat2Z.id.
  assert (exists n, L = S n) as [n HLn] by (exists (pred L); lia). rewrite HLn.
  assert (Hg : guided E (upto s o) (length a)).
  { rewrite HE. apply (guided_cut (atmost (s, o))); [|done|done].
    intros. by apply upto_test. }
  pose proof (rank_loop_spec (upto s o) (length a) o Hg
    ltac:(rewrite HE, length_app; lia) Huniq n 0%nat ltac:(lia) ltac:(lia)) as Hr.
  cbn [pos_loc pos_height] in Hr. change (Z.of_nat 0) with 0 in Hr.
  rewrite Hr by lia. rewrite HE, take_app_length. done.
Qed.

Lemma by_rank_spec rank k : k = Nat.min (Z.to_nat rank) (length E) -> 0 <= rank < 2 ^ 64 ->
  guided E (up_to_rank rank) k.
Proof.
  intros -> Hr n m e He Hn Hk nd _ _. unfold up_to_rank. f_equal.
  destruct (r_length _ _ _ _ R) as [_ Hlen]. apply lookup_lt_Some in He. unfold zlen in Hlen.
  rewrite u64_id by (unfold in_u; lia).
  destruct (Z.leb_spec (Z.of_nat n + Z.of_nat (m + 1 - n)) rank);
    [rewrite bool_decide_true by lia|rewrite bool_decide_false by lia]; done.
Qed.

Lemma by_rank_loop_spec rank k : 0 <= rank < 2 ^ 64 ->
  k = Nat.min (Z.to_nat rank) (length E) ->
  forall n m, (n < L)%nat ->
  (m <= lastpos n (take k E))%nat -> (n < pos_height L E m)%nat ->
  by_rank_loop rank (walk_fuel z) h (S n) (pos_loc hd E m) (Z.of_nat m) =
  Some (if rank <=? zlen E then Some (pos_loc hd E (Z.to_nat rank)) else None).
Proof.
  intros Hr Hk. pose proof (by_rank_spec rank k Hk Hr) as Hg.
  assert (Hle : (k <= length E)%nat) by lia.
  induction n as [|n IH]; intros m Hn Hm Hh;
    cbn [by_rank_loop]; rewrite (walk_level 64 _ k) by (done || lia); step.
  - assert (H0 : lastpos 0 (take k E) = k).
    { rewrite lastpos_0; [rewrite length_take; lia|].
      intros e He. apply list_elem_of_lookup in He as [q Hq].
      apply lookup_take_Some in Hq as [Hq _]. by apply (heights h z L E R q). }
    rewrite H0. unfold zlen. destruct (Z.leb_spec rank (Z.of_nat (length E))).
    + rewrite (proj2 (Z.eqb_eq _ _)) by lia. by replace k with (Z.to_nat rank) by lia.
    + by rewrite (proj2 (Z.eqb_neq _ _)) by lia.
  - set (p := lastpos (S n) (take k E)).
    assert (Hp : (p <= k)%nat) by (unfold p; pose proof (lastpos_le (S n) (take k E)) as Hl;
                              rewrite length_take in Hl; lia).
    destruct (Z.eqb_spec (Z.of_nat p) rank) as [Heq|Hne].
    + unfold zlen. rewrite (proj2 (Z.leb_le _ _)) by lia.
      by replace (Z.to_nat rank) with p by lia.
    + apply IH; [lia|apply lastpos_mono|apply lastpos_height; lia].
Qed.

Lemma zslGetElementByRank_spec rank : 0 <= rank < 2 ^ 64 ->
  zslGetElementByRank h z rank =
  Some (if rank <=? zlen E then Some (pos_loc hd E (Z.to_nat rank)) else None).
Proof.
  intros Hr. unfold zslGetElementByRank.
  destruct (r_level _ _ _ _ R) as [-> HL]. rewrite Nat2Z.id.
  assert (exists n, L = S n) as [n HLn] by (exists (pred L); lia). rewrite HLn.
  pose proof (by_rank_loop_spec rank _ Hr eq_refl n 0%nat ltac:(lia) ltac:(lia)) as H.
  cbn [pos_loc pos_height] in H. change (Z.of_nat 0) with 0 in H. rewrite H by lia. done.
Qed.
End Ranks.

(** ** The two ends of a range *)

Section Ends.
(** [G]: not below the minimum; [U]: not above the maximum. *)
Context (G U : T * M -> bool) (gte lte : znode -> option bool).
Context (Hgte : forall nd s o, zn_score nd = s -> zn_obj nd = Some o -> gte nd = Some (G (s, o))).
Context (Hlte : forall nd s o, zn_score nd = s -> zn_obj nd = Some o -> lte nd = Some (U (s, o))).
Context (h : zheap) (z : zskiplist) (L : nat) (E : list elem) (R : rep h z L E).
Context (Ho : ordered (pairs E)) (HG : down (pairs E) (fun p => negb (G p)))
  (HU : down (pairs E) U).
Notation hd := (zsl_header z).

Definition pr (e : elem) : T * M := (e_score e, e_obj e).
Definition in_range (e : elem) : Prop := G (pr e) && U (pr e) = true.
#[local] Instance in_range_dec e : Decision (in_range e).
Proof. unfold in_range. apply _. Defined.

Lemma read_node n e : E !! n = Some e -> exists nd, zh h !! e_loc e = Some nd /\
  gte nd = Some (G (pr e)) /\ lte nd = Some (U (pr e)).
Proof.
  intros He. eexists. split; [by apply (node_pos h z L E R n)|].
  split; [by apply Hgte|by apply Hlte].
Qed.

Lemma read_pos n : (n < length E)%nat -> exists e, E !! n = Some e /\
  pos_loc hd E (S n) = e_loc e.
Proof. intros Hn. destruct (lookup_lt_is_Some_2 E n Hn) as [e He]. exists e. simpl. by rewrite He. Qed.

(** A list with its last in [G] and its first in [U], or no pair in range. *)
Lemma ends_in_spec :
  exists b, ends_in h z gte lte = Some b /\
    (b = true -> (exists e, last E = Some e /\ G (pr e) = true) /\
                 (exists e, head E = Some e /\ U (pr e) = true)) /\
    (b = false -> filter in_range E = []).
Proof.
  destruct (ordered_cut _ E HG Ho) as (a & c & Hac & Ha & Hc).
  destruct (ordered_cut _ E HU Ho) as (a' & c' & Hac' & Ha' & Hc').
  unfold ends_in. rewrite (r_tail _ _ _ _ R). unfold back.
  destruct (last E) as [e|] eqn:El; cbn [fmap option_fmap option_map].
  2: { exists false. split; [done|]. split; [done|]. intros _.
       apply last_None in El. by rewrite El. }
  assert (Hel : exists n, E !! n = Some e).
  { apply list_elem_of_lookup. apply last_Some in El as [E' ->]. apply elem_of_app. right. by left. }
  destruct Hel as [n Hn]. destruct (read_node n e Hn) as (nd & Hnd & Hg & _). rewrite Hnd. step. rewrite Hg. step.
  destruct (G (pr e)) eqn:EG; cbn [negb].
  2: { exists false. split; [done|]. split; [done|]. intros _. apply filter_none.
    assert (Hc0 : c = []).
    { destruct c as [|y c] using rev_ind; [done|]. exfalso.
      rewrite Hac, app_assoc, last_snoc in El. injection El as ->.
      apply Forall_app in Hc as [_ Hc]. apply Forall_cons in Hc as [Hy _].
      unfold pr in EG. by rewrite EG in Hy. }
    rewrite Hac, Hc0, app_nil_r. eapply Forall_impl; [exact Ha|].
    intros y Hy. simpl in Hy. apply negb_true_iff in Hy. unfold in_range, pr. rewrite Hy. done. }
  destruct (next_pos h z L [] E R) as [sp Hl]. cbn [app length pos_loc] in Hl.
  rewrite Hl. step.
  assert (HEx : exists x E', E = x :: E') by (destruct E as [|x E']; [done|by exists x, E']).
  destruct HEx as (x & E' & EE).
  replace (head E) with (Some x) by (by rewrite EE). cbn [fmap option_fmap option_map].
  destruct (read_node 0 x) as (nd' & Hnd' & _ & Hu); [by rewrite EE|].
  rewrite Hnd'. step. rewrite Hu.
  exists (U (pr x)). split; [done|]. split.
  - intros HUx. split; [by exists e|by exists x].
  - intros HUx. apply filter_none.
    assert (Ha0 : a' = []).
    { destruct a' as [|y a']; [done|]. exfalso. rewrite Hac' in EE. injection EE as -> EE.
      inversion Ha' as [|? ? Hy _]; subst. unfold pr in HUx. by rewrite HUx in Hy. }
    rewrite Hac', Ha0. eapply Forall_impl; [exact Hc'|].
    intros y Hy. simpl in Hy. unfold in_range, pr. rewrite Hy, andb_false_r. done.
Qed.

Lemma first_in_spec :
  (exists e, last E = Some e /\ G (pr e) = true) ->
  first_in h z gte lte = Some (e_loc <$> head (filter in_range E)).
Proof.
  intros (el & Hlast & HGl).
  destruct (ordered_cut _ E HG Ho) as (a & c & Hac & Ha & Hc).
  unfold first_in.
  rewrite (search_spec h z L E R 32 _ (length a)); [|done| |rewrite Hac, length_app; lia].
  2: { rewrite Hac. apply (guided_cut (fun p => negb (G p))); [|done|done].
       intros r sp nd s o Hs Hob. rewrite (Hgte nd s o) by done. done. }
  step. pose proof R as R'. rewrite Hac in R'. destruct (next_pos h z L a c R') as [sp Hl].
  rewrite <- Hac in Hl. rewrite Hl. step.
  destruct c as [|e c].
  { exfalso. rewrite app_nil_r in Hac. rewrite Hac in Hlast. apply last_Some in Hlast as [a0 ->].
    apply Forall_app in Ha as [_ Ha]. apply Forall_cons in Ha as [He _].
    unfold pr in HGl. by rewrite HGl in He. }
  cbn [head fmap option_fmap option_map]. step.
  destruct (read_node (length a) e) as (nd & Hnd & _ & Hu); [rewrite Hac; by apply list_lookup_middle|].
  rewrite Hnd. step. rewrite Hu. step. apply Forall_cons in Hc as [HGe Hc'].
  rewrite Hac, filter_app, filter_none.
  2: { eapply Forall_impl; [exact Ha|]. intros y Hy. simpl in Hy. apply negb_true_iff in Hy.
       unfold in_range, pr. by rewrite Hy. }
  cbn [app]. apply negb_false_iff in HGe. fold (pr e) in HGe.
  destruct (U (pr e)) eqn:EU.
  - rewrite filter_cons_True; [done|]. unfold in_range. by rewrite HGe, EU.
  - rewrite filter_none; [done|]. 
    assert (Hrest : Forall (fun y => U (pr y) = false) (e :: c)).
    { constructor; [done|]. pose proof Ho as Ho'. rewrite Hac, pairs_app in Ho'. apply ordered_app in Ho' as (_ & Hoc & _).
      apply StronglySorted_inv in Hoc as [_ Hoc]. apply Forall_fmap in Hoc.
      apply Forall_forall. intros y Hy. rewrite Forall_forall in Hoc. specialize (Hoc y Hy).
      apply not_true_iff_false. intros HUy.
      assert (U (pr e) = true); [|congruence].
      apply (HU (pr e) (pr y)); [| |exact Hoc|done];
        rewrite Hac; unfold pairs; apply (list_elem_of_fmap_2 (fun e => (e_score e, e_obj e)));
        apply elem_of_app; right; [by left|by right]. }
    eapply Forall_impl; [exact Hrest|]. intros y Hy. simpl in Hy.
    unfold in_range. rewrite Hy, andb_false_r. done.
Qed.

Lemma last_in_spec :
  (exists e, head E = Some e /\ U (pr e) = true) ->
  last_in h z gte lte = Some (e_loc <$> last (filter in_range E)).
Proof.
  intros (eh & Hhead & HUh).
  destruct (ordered_cut _ E HU Ho) as (a & c & Hac & Ha & Hc).
  unfold last_in.
  rewrite (search_spec h z L E R 32 _ (length a)); [|done| |rewrite Hac, length_app; lia].
  2: { rewrite Hac. apply (guided_cut U); [|done|done]. intros. by apply Hlte. }
  step. destruct a as [|e a _] using rev_ind.
  { exfalso. simpl in Hac. destruct c as [|y c]; [by rewrite Hac in Hhead|].
    rewrite Hac in Hhead. injection Hhead as ->. apply Forall_cons in Hc as [He _]. unfold pr in HUh.
    by rewrite HUh in He. }
  assert (HE : E !! length a = Some e) by (rewrite Hac, <- app_assoc; by apply list_lookup_middle).
  rewrite length_app, Nat.add_1_r. cbn [pos_loc]. rewrite HE.
  destruct (read_node (length a) e HE) as (nd & Hnd & Hg & _).
  rewrite Hnd. step. rewrite Hg. step.
  apply Forall_app in Ha as [Ha He]. apply Forall_cons in He as [HUe _]. fold (pr e) in HUe.
  rewrite Hac, filter_app, (filter_none _ c), app_nil_r.
  2: { eapply Forall_impl; [exact Hc|]. intros y Hy. simpl in Hy.
       unfold in_range, pr. rewrite Hy, andb_false_r. done. }
  rewrite filter_app. destruct (G (pr e)) eqn:EG.
  - rewrite filter_cons_True, filter_nil, last_snoc; [done|]. unfold in_range. by rewrite HUe, EG.
  - rewrite filter_cons_False by (unfold in_range; rewrite EG; done).
    rewrite filter_nil, app_nil_r. rewrite filter_none; [done|].
    pose proof Ho as Ho'. rewrite Hac, !pairs_app in Ho'. apply ordered_app in Ho' as (Hoa & _ & _).
    apply ordered_app in Hoa as (_ & _ & Hlt).
    apply Forall_forall. intros y Hy Hin. unfold in_range in Hin.
    apply andb_true_iff in Hin as [HGy _].
    assert (negb (G (pr y)) = true); [|rewrite HGy in *; done].
    apply (HG (pr y) (pr e)); [| | |by rewrite EG].
    + rewrite Hac, !pairs_app. apply elem_of_app. left. apply elem_of_app. left.
      by apply (list_elem_of_fmap_2 pr).
    + rewrite Hac, !pairs_app. apply elem_of_app. left. apply elem_of_app. right. by left.
    + apply Hlt; [by apply (list_elem_of_fmap_2 pr)|by left].
Qed.
End Ends.

(** ** Deleting a run of elements *)

Section DeleteRun.
Context {D : Type} (dictDelete : D -> M -> option D).

(** The entries removed from the hash table, one after the other. *)
Fixpoint dict_del_all (d : D) (os : list M) : option D :=
  match os with
  | [] => Some d
  | o :: os => d ← dictDelete d o; dict_del_all d os
  end.

Definition owns (h : zheap) (d0 : gset Z) (hd : Z) (E : list elem) : Prop :=
  dom (zh h) = d0 ∪ list_to_set (hd :: (e_loc <$> E)) /\
  d0 ## list_to_set (hd :: (e_loc <$> E)).

Lemma delete_loop_spec (test : Z -> znode -> option bool) a c d0 update m :
  forall fuel h z L d d' t k,
  rep h z L (a ++ m ++ c) -> owns h d0 (zsl_header z) (a ++ m ++ c) ->
  (forall j, (j < L)%nat -> update !! j = Some (pos_loc (zsl_header z) a (lastpos j a))) ->
  (length (m ++ c) <= fuel)%nat -> 0 <= t -> 0 <= k ->
  t + zlen m < 2 ^ 64 -> k + zlen m < 2 ^ 64 ->
  (forall i e nd, m !! i = Some e -> zn_score nd = e_score e -> zn_obj nd = Some (e_obj e) ->
     test (t + Z.of_nat i) nd = Some true) ->
  (forall e nd, head c = Some e -> zn_score nd = e_score e -> zn_obj nd = Some (e_obj e) ->
     test (t + zlen m) nd = Some false) ->
  dict_del_all d (e_obj <$> m) = Some d' ->
  exists h' z', delete_loop dictDelete test fuel h z d (e_loc <$> head (m ++ c)) update t k =
      Some (h', z', d', k + zlen m) /\
    (exists L', rep h' z' L' (a ++ c)) /\ owns h' d0 (zsl_header z') (a ++ c) /\
    zsl_header z' = zsl_header z /\ dropped h' = dropped h ++ (e_obj <$> m).
Proof.
  induction m as [|e m IH]; intros fuel h z L d d' t k R Hown Hupd Hf Ht Hk Htl Hkl Hin Hout Hd.
  - cbn [app] in *. injection Hd as <-. exists h, z. change (zlen (@nil elem)) with 0 in *.
    rewrite !Z.add_0_r in *. rewrite app_nil_r.
    assert (Hres : delete_loop dictDelete test fuel h z d (e_loc <$> head c) update t k
                   = Some (h, z, d, k)).
    { destruct c as [|x c]; cbn [head fmap option_fmap option_map].
      - by destruct fuel.
      - destruct fuel as [|fuel]; [simpl in Hf; lia|]. cbn [delete_loop].
        pose proof (node_e h z L a x c R) as Hn. unfold node_ok in Hn. rewrite Hn. step.
        by rewrite (Hout x _ eq_refl) by done. }
    rewrite Hres. split; [done|]. split; [by exists L|]. done.
  - rewrite zlen_cons in *. pose proof (zlen_nonneg m).
    destruct fuel as [|fuel]; [simpl in Hf; lia|].
    cbn [app head fmap option_fmap option_map delete_loop] in *.
    pose proof (node_e h z L a e (m ++ c) R) as Hn. unfold node_ok in Hn. rewrite Hn. step.
    pose proof (Hin 0%nat e (mkZnode (e_score e) (Some (e_obj e)) (back a) (levels e (m ++ c)))
                  eq_refl eq_refl eq_refl) as H0.
    change (Z.of_nat 0) with 0 in H0. rewrite Z.add_0_r in H0. rewrite H0. step.
    assert (Hh : (1 <= e_height e)%nat).
    { apply (heights_all _ _ _ _ R e). apply elem_of_app. right. by left. }
    change 0 with (Z.of_nat 0) at 1. rewrite (lvl_e h z L a e (m ++ c) R) by lia. step.
    pose proof (fwd_0 (m ++ c)) as Hf0. destruct (fwd 0 (m ++ c)) as [f s0]. cbn [fst] in Hf0.
    rewrite Hf0.
    2: { intros y Hy. apply (heights_all _ _ _ _ R y). apply elem_of_app. right. by right. }
    destruct (remove_node h z L a e (m ++ c) update R Hupd)
      as (h1 & z' & L' & h2 & E1 & He1 & E2 & R2 & HL & Hhd & Hd2 & Hdom2).
    rewrite E1. step. rewrite He1, Hn. step. cbn [zn_obj]. step.
    rewrite fmap_cons in Hd. cbn [dict_del_all] in Hd.
    destruct (dictDelete d (e_obj e)) as [d1|]; [|done]. step.
    rewrite E2. step. rewrite !u64_id by (unfold in_u; lia).
    destruct Hown as [Hdom Hdis].
    destruct (IH fuel h2 z' L' d1 d' (t + 1) (k + 1)) as (h' & z'' & E' & R' & Hown' & Hhd' & Hd').
    + done.
    + rewrite Hhd. eapply (holds_remove a e (m ++ c)); [apply (r_nodup _ _ _ _ R)|done|done|].
      by rewrite Hdom2, Hdom.
    + intros j Hj. rewrite Hhd. apply Hupd. lia.
    + simpl in Hf. lia.
    + lia.
    + lia.
    + lia.
    + lia.
    + intros i y nd Hi Hs Ho. replace (t + 1 + Z.of_nat i) with (t + Z.of_nat (S i)) by lia.
      by apply (Hin (S i) y).
    + intros y nd Hy Hs Ho. replace (t + 1 + zlen m) with (t + (1 + zlen m)) by lia.
      by apply (Hout y).
    + exact Hd.
    + exists h', z''. replace (k + (1 + zlen m)) with (k + 1 + zlen m) by lia.
      split; [exact E'|]. split; [done|]. split; [done|]. split; [congruence|].
      rewrite Hd', Hd2, <- app_assoc. done.
Qed.

Lemma delete_from_spec walk_test test h z L a m c d0 d d' :
  rep h z L (a ++ m ++ c) -> owns h d0 (zsl_header z) (a ++ m ++ c) ->
  guided (a ++ m ++ c) walk_test (length a) ->
  (forall i e nd, m !! i = Some e -> zn_score nd = e_score e -> zn_obj nd = Some (e_obj e) ->
     test (zlen a + 1 + Z.of_nat i) nd = Some true) ->
  (forall e nd, head c = Some e -> zn_score nd = e_score e -> zn_obj nd = Some (e_obj e) ->
     test (zlen a + 1 + zlen m) nd = Some false) ->
  dict_del_all d (e_obj <$> m) = Some d' ->
  exists h' z', delete_from dictDelete walk_test test h z d = Some (h', z', d', zlen m) /\
    (exists L', rep h' z' L' (a ++ c)) /\ owns h' d0 (zsl_header z') (a ++ c) /\
    dropped h' = dropped h ++ (e_obj <$> m).
Proof.
  intros R Hown Hg Hin Hout Hd. unfold delete_from.
  rewrite (search_spec h z L (a ++ m ++ c) R 64 _ (length a)) by
    (done || (rewrite length_app; lia)).
  step. rewrite take_app_length. destruct (next_pos h z L a (m ++ c) R) as [sp Hl].
  rewrite Hl. step. destruct (r_length _ _ _ _ R) as [Hlen Hlt].
  pose proof (zlen_nonneg a). pose proof (zlen_nonneg m). pose proof (zlen_nonneg c).
  rewrite !zlen_app in Hlt.
  change (Z.of_nat (length a)) with (zlen a). rewrite u64_id by (unfold in_u; lia).
  destruct (delete_loop_spec test a c d0 _ m (Z.to_nat (zsl_length z)) h z L d d' (zlen a + 1) 0
      R Hown (delete_arrays h z L a (m ++ c) R)) as (h' & z' & E' & R' & Hown' & _ & Hd');
    [|lia|lia|lia|lia|done|done|done|].
  { rewrite Hlen. unfold zlen. rewrite !length_app. lia. }
  exists h', z'. rewrite Z.add_0_l in E'. done.
Qed.
End DeleteRun.

(** ** Ranges on the list of pairs *)

(** The pair a node holds. *)
Definition pair_at (h : zheap) (x : Z) : option (T * M) :=
  n ← zh h !! x; o ← zn_obj n; Some (zn_score n, o).

Lemma pair_at_elem h z L E e : rep h z L E -> e ∈ E -> pair_at h (e_loc e) = Some (pr e).
Proof.
  intros R [n Hn]%list_elem_of_lookup. unfold pair_at.
  by rewrite (node_pos h z L E R n e Hn).
Qed.

Lemma pairs_pr E : pairs E = pr <$> E.
Proof. done. Qed.

Section Between.
(** A range given by its two ends, whatever they compare. *)
Context (G U : T * M -> bool) (gte lte : znode -> option bool).
Context (Hgte : forall nd s o, zn_score nd = s -> zn_obj nd = Some o -> gte nd = Some (G (s, o))).
Context (Hlte : forall nd s o, zn_score nd = s -> zn_obj nd = Some o -> lte nd = Some (U (s, o))).
Context (h : zheap) (z : zskiplist) (d0 : gset Z) (l : list (T * M)).
Context (Hl : holds h z d0 l) (HG : down l (fun p => negb (G p))) (HU : down l U).

Definition between (p : T * M) : Prop := G p && U p = true.
#[local] Instance between_dec p : Decision (between p).
Proof. unfold between. apply _. Defined.
#[local] Existing Instance in_range_dec.

Lemma between_pairs E : filter between (pairs E) = pr <$> filter (in_range G U) E.
Proof.
  rewrite pairs_pr. induction E as [|e E IH]; [done|].
  rewrite fmap_cons. destruct (G (pr e) && U (pr e)) eqn:Ee.
  - rewrite !filter_cons_True by done. by rewrite IH.
  - rewrite !filter_cons_False by (unfold between, in_range; by rewrite Ee). done.
Qed.

(** What [zslFirstInRange] and its three variants compute. *)
Definition first_of (early : bool) : option (option Z) :=
  b ← (if early then Some false else ends_in h z gte lte);
  if negb b then Some None else first_in h z gte lte.
Definition last_of (early : bool) : option (option Z) :=
  b ← (if early then Some false else ends_in h z gte lte);
  if negb b then Some None else last_in h z gte lte.

Lemma ends_of early : (early = true -> filter between l = []) ->
  exists r r', first_of early = Some r /\ last_of early = Some r' /\
    (r ≫= pair_at h) = head (filter between l) /\
    (r' ≫= pair_at h) = last (filter between l).
Proof.
  intros Hearly. destruct Hl as (L & E & R & HE & Ho & _). rewrite <- HE in *.
  unfold first_of, last_of. rewrite between_pairs in *.
  assert (Hnone : filter (in_range G U) E = [] ->
    head (pr <$> filter (in_range G U) E) = None /\ last (pr <$> filter (in_range G U) E) = None)
    by (by intros ->).
  destruct early; step; cbn [negb].
  { destruct Hnone as [-> ->]; [by apply (fmap_nil_inv pr), Hearly|]. by exists None, None. }
  destruct (ends_in_spec G U gte lte Hgte Hlte h z L E R Ho HG HU) as (b & -> & Ht & Hf).
  step. destruct b; cbn [negb]; [|destruct (Hnone (Hf eq_refl)) as [-> ->]; by exists None, None].
  destruct (Ht eq_refl) as [Hlast Hhead].
  rewrite (first_in_spec G U gte lte Hgte Hlte h z L E R Ho HG HU Hlast).
  rewrite (last_in_spec G U gte lte Hgte Hlte h z L E R Ho HG HU Hhead).
  exists (e_loc <$> head (filter (in_range G U) E)), (e_loc <$> last (filter (in_range G U) E)).
  split; [done|]. split; [done|].
  assert (Hin : forall e, e ∈ filter (in_range G U) E -> pair_at h (e_loc e) = Some (pr e)).
  { intros e [_ He]%list_elem_of_filter. by apply (pair_at_elem h z L E). }
  split.
  - destruct (filter _ E) as [|e k]; [done|]. simpl. apply Hin. by left.
  - destruct (filter _ E) as [|e k] using rev_ind; [done|].
    rewrite fmap_app, fmap_cons, fmap_nil, !last_snoc. cbn. apply Hin, elem_of_app. right. by left.
Qed.

(** The three parts of the list around the range. *)
Definition around (a m c : list elem) : Prop :=
  Forall (fun e => G (pr e) = false) a /\ Forall (fun e => G (pr e) = true) (m ++ c) /\
  Forall (fun e => U (pr e) = true) m /\ Forall (fun e => U (pr e) = false) c.

Lemma range_cut E : ordered (pairs E) -> pairs E = l ->
  exists a m c, E = a ++ m ++ c /\ around a m c.
Proof.
  intros Ho HE. rewrite <- HE in *.
  destruct (ordered_cut _ E HG Ho) as (a & b & -> & Ha & Hb).
  rewrite pairs_app in *. apply ordered_app in Ho as (_ & Ho & _).
  destruct (ordered_cut U b) as (m & c & -> & Hm & Hc); [|done|].
  { intros p q Hp Hq. apply HU; apply elem_of_app; by right. }
  exists a, m, c. split; [done|]. split; [|split; [|done]].
  - eapply Forall_impl; [exact Ha|]. intros e He. simpl in He. by apply negb_true_iff in He.
  - eapply Forall_impl; [exact Hb|]. intros e He. simpl in He. by apply negb_false_iff in He.
Qed.

Lemma cut_between a m c : around a m c ->
  filter between (pairs (a ++ m ++ c)) = pairs m /\
  filter (fun p => ~ between p) (pairs (a ++ m ++ c)) = pairs (a ++ c).
Proof.
  intros (Ha & Hg & Hm & Hc). apply Forall_app in Hg as [Hg _].
  assert (Ha' : Forall (fun p => ~ between p) (pairs a)).
  { apply Forall_fmap. eapply Forall_impl; [exact Ha|]. intros e He. cbn. fold (pr e).
    unfold between. by rewrite He. }
  assert (Hc' : Forall (fun p => ~ between p) (pairs c)).
  { apply Forall_fmap. eapply Forall_impl; [exact Hc|]. intros e He. cbn. fold (pr e).
    unfold between. by rewrite He, andb_false_r. }
  assert (Hm' : Forall between (pairs m)).
  { apply Forall_fmap. apply Forall_forall. rewrite Forall_forall in Hg, Hm.
    intros e He. cbn. fold (pr e). unfold between. by rewrite Hg, Hm. }
  rewrite !pairs_app, !filter_app. split.
  - by rewrite (filter_none _ (pairs a)), (filter_none _ (pairs c)), (filter_all _ (pairs m)),
      app_nil_r.
  - rewrite (filter_all _ (pairs a)), (filter_all _ (pairs c)) by done.
    rewrite (filter_none _ (pairs m)); [done|]. eapply Forall_impl; [exact Hm'|]. tauto.
Qed.

Lemma snd_pairs (k : list elem) : snd <$> pairs k = e_obj <$> k.
Proof. unfold pairs. by rewrite <- list_fmap_compose. Qed.

Lemma delete_range_step {D} (dictDelete : D -> M -> option D) walk_test test d d' :
  (forall r sp nd s o, zn_score nd = s -> zn_obj nd = Some o ->
     walk_test r sp nd = Some (negb (G (s, o)))) ->
  (forall r nd s o, zn_score nd = s -> zn_obj nd = Some o -> test r nd = Some (U (s, o))) ->
  dict_del_all dictDelete d (snd <$> filter between l) = Some d' ->
  exists h' z', delete_from dictDelete walk_test test h z d =
      Some (h', z', d', zlen (filter between l)) /\
    holds h' z' d0 (filter (fun p => ~ between p) l) /\
    dropped h' = dropped h ++ (snd <$> filter between l).
Proof.
  intros Hw Ht Hd. destruct Hl as (L & E & R & HE & Ho & Hdom & Hdis).
  assert (Hord : ordered (pairs E)) by (by rewrite HE).
  destruct (range_cut E Hord HE) as (a & m & c & EE & Hcut).
  destruct (cut_between a m c Hcut) as [Hf1 Hf2]. destruct Hcut as (Ha & Hg & Hm & Hc).
  rewrite EE in *. rewrite <- HE in Hd |- *. rewrite Hf1 in Hd |- *. rewrite Hf2, snd_pairs in *.
  destruct (delete_from_spec dictDelete walk_test test h z L a m c d0 d d') as
    (h' & z' & E' & [L' R'] & [Hdom' Hdis'] & Hd'); [done|done| | | |done|].
  - apply (guided_cut (fun p => negb (G p))).
    + intros. by apply Hw.
    + eapply Forall_impl; [exact Ha|]. intros e He. fold (pr e). by rewrite He.
    + eapply Forall_impl; [exact Hg|]. intros e He. fold (pr e). by rewrite He.
  - intros i e nd Hi Hs Hob. rewrite (Ht _ _ _ _ Hs Hob). f_equal.
    exact (Forall_lookup_1 _ _ _ _ Hm Hi).
  - intros e nd Hi Hs Hob. rewrite (Ht _ _ _ _ Hs Hob). f_equal.
    destruct c as [|y c]; [done|]. injection Hi as ->. by apply Forall_cons in Hc as [Hc _].
  - exists h', z'. unfold pairs at 1. rewrite zlen_fmap. split; [done|]. split; [|done].
    exists L', (a ++ c). split; [done|]. split; [done|]. split; [|done].
    rewrite !pairs_app in *. apply ordered_app in Hord as (Ho1 & Ho2 & Ho3).
    apply ordered_app in Ho2 as (_ & Ho2 & _). apply ordered_app. split; [done|].
    split; [done|]. intros p q Hp Hq. apply Ho3; [done|]. apply elem_of_app. by right.
Qed.
End Between.
End Range.
