(* ===== verification/Object.v ===== *)
(** Redis objects of [src/redis-3.0.0/src/object.c]: the string encodings, the
    reference counts, and what the rest of the server relies on when it
    compares, decodes or converts string objects.

    A store maps the addresses of the live objects to their contents.  The LRU
    field is not modelled; the values of the other types are opaque.  [long] has
    the width of [long long], as on the 64-bit platforms of the build. *)
From stdpp Require Import gmap list.
From S2P Require Import Prelude Util Sds SdsText.
Local Open Scope c_scope.

Definition REDIS_SHARED_INTEGERS : Z := 10000.
Definition REDIS_ENCODING_EMBSTR_SIZE_LIMIT : Z := 39.

Inductive otype := REDIS_STRING | REDIS_LIST | REDIS_SET | REDIS_ZSET | REDIS_HASH.
Inductive oencoding :=
  | ENC_RAW | ENC_INT | ENC_HT | ENC_ZIPMAP | ENC_LINKEDLIST | ENC_ZIPLIST
  | ENC_INTSET | ENC_SKIPLIST | ENC_EMBSTR.
Global Instance otype_dec : EqDecision otype.
Proof. solve_decision. Defined.
Global Instance oencoding_dec : EqDecision oencoding.
Proof. solve_decision. Defined.

(** [o->ptr]: an sds, an integer in place of the pointer, or another value. *)
Inductive optr := PSds (s : sds) | PLong (v : Z) | POther.

Record robj := mkObj {
  o_type : otype; o_encoding : oencoding; o_refcount : Z; o_ptr : optr }.

Notation store := (gmap Z robj).

Definition sdsEncodedObject (o : robj) : bool :=
  bool_decide (o_encoding o = ENC_RAW) || bool_decide (o_encoding o = ENC_EMBSTR).

Definition is_string (o : robj) : bool := bool_decide (o_type o = REDIS_STRING).

Definition as_sds (o : robj) : option sds :=
  match o_ptr o with PSds s => Some s | _ => None end.
Definition as_long (o : robj) : option Z :=
  match o_ptr o with PLong v => Some v | _ => None end.

Inductive policy :=
  | VOLATILE_LRU | VOLATILE_TTL | VOLATILE_RANDOM | ALLKEYS_LRU | ALLKEYS_RANDOM
  | NO_EVICTION.
Global Instance policy_dec : EqDecision policy.
Proof. solve_decision. Defined.

Section Object.
(** Uninitialised memory; the allocator; the addresses of
    [shared.integers]; the two settings of the server that are consulted. *)
Context (junk : nat -> Z) (zmalloc : store -> Z) (integers : Z -> Z).
Context (maxmemory : Z) (maxmemory_policy : policy).
Notation sdsnewlen := (sdsnewlen junk).

(** A local buffer [char buf[n]]. *)
Definition local_buf (n : Z) : list Z := realloc junk [] n.

(** ** Creation *)

Definition createObject (h : store) (type : otype) (enc : oencoding) (ptr : optr)
    : store * Z :=
  let o := zmalloc h in
  (<[o := mkObj type enc 1 ptr]> h, o).

Definition createRawStringObject (h : store) (ptr : option (list Z)) (len : Z)
    : option (store * Z) :=
  s ← sdsnewlen ptr len;
  Some (createObject h REDIS_STRING ENC_RAW (PSds s)).

Definition createEmbeddedStringObject (h : store) (ptr : option (list Z)) (len : Z)
    : option (store * Z) :=
  buf ← match ptr with
        | Some t =>
            bs ← mem_read t 0 len;
            buf ← mem_write (realloc junk [] (len + 1)) 0 bs;
            zset buf len 0
        | None => Some (replicate (Z.to_nat (len + 1)) 0)
        end;
  Some (createObject h REDIS_STRING ENC_EMBSTR (PSds (mkSds (u32 len) 0 buf))).

Definition createStringObject (h : store) (ptr : option (list Z)) (len : Z)
    : option (store * Z) :=
  if len <=? REDIS_ENCODING_EMBSTR_SIZE_LIMIT
  then createEmbeddedStringObject h ptr len
  else createRawStringObject h ptr len.

(** ** Reference counts *)

Definition set_refcount (o : robj) (n : Z) : robj :=
  mkObj (o_type o) (o_encoding o) n (o_ptr o).

(** [refcount] is an [int]: its overflow is undefined. *)
Definition incrRefCount (h : store) (o : Z) : option store :=
  ob ← h !! o;
  n ← int_ok (o_refcount ob + 1);
  Some (<[o := set_refcount ob n]> h).

(** The value goes with the object; a count that is not positive panics. *)
Definition decrRefCount (h : store) (o : Z) : option store :=
  ob ← h !! o;
  if o_refcount ob <=? 0 then None
  else if o_refcount ob =? 1 then Some (delete o h)
  else Some (<[o := set_refcount ob (o_refcount ob - 1)]> h).

Definition createStringObjectFromLongLong (h : store) (value : Z)
    : option (store * Z) :=
  if (0 <=? value) && (value <? REDIS_SHARED_INTEGERS) then
    h ← incrRefCount h (integers value);
    Some (h, integers value)
  else if (LLONG_MIN <=? value) && (value <=? LLONG_MAX) then
    Some (createObject h REDIS_STRING ENC_INT (PLong value))
  else
    s ← sdsfromlonglong junk value;
    Some (createObject h REDIS_STRING ENC_RAW (PSds s)).

Definition dupStringObject (h : store) (o : Z) : option (store * Z) :=
  ob ← h !! o;
  if negb (is_string ob) then None else
  match o_encoding ob with
  | ENC_RAW => s ← as_sds ob; createRawStringObject h (Some (sds_buf s)) (sds_len s)
  | ENC_EMBSTR => s ← as_sds ob; createEmbeddedStringObject h (Some (sds_buf s)) (sds_len s)
  | ENC_INT => Some (createObject h REDIS_STRING ENC_INT (o_ptr ob))
  | _ => None
  end.

(** ** Encoding and decoding *)

(** The result is the flag and [*llval]. *)
Definition isObjectRepresentableAsLongLong (ob : robj) : option (option Z) :=
  if negb (is_string ob) then None
  else if bool_decide (o_encoding ob = ENC_INT) then v ← as_long ob; Some (Some v)
  else
    s ← as_sds ob;
    bs ← mem_read (sds_buf s) 0 (sds_len s);
    '(ok, v) ← string2ll bs (sds_len s);
    Some (if ok =? 0 then None else v).

(** [len <= 21 && string2l(s,len,&value)] *)
Definition as_integer (s : sds) : option (option Z) :=
  if sds_len s <=? 21 then
    bs ← mem_read (sds_buf s) 0 (sds_len s);
    '(ok, v) ← string2l bs (sds_len s);
    Some (if ok =? 0 then None else v)
  else Some None.

Definition may_share (value : Z) : bool :=
  ((maxmemory =? 0) ||
   (negb (bool_decide (maxmemory_policy = VOLATILE_LRU)) &&
    negb (bool_decide (maxmemory_policy = ALLKEYS_LRU)))) &&
  (0 <=? value) && (value <? REDIS_SHARED_INTEGERS).

Definition tryObjectEncoding (h : store) (o : Z) : option (store * Z) :=
  ob ← h !! o;
  if negb (is_string ob) then None
  else if negb (sdsEncodedObject ob) then Some (h, o)
  else if 1 <? o_refcount ob then Some (h, o)
  else
    s ← as_sds ob;
    let len := sds_len s in
    r ← as_integer s;
    match r with
    | Some value =>
        if may_share value then
          h ← decrRefCount h o;
          h ← incrRefCount h (integers value);
          Some (h, integers value)
        else
          Some (<[o := mkObj (o_type ob) ENC_INT (o_refcount ob) (PLong value)]> h, o)
    | None =>
        if len <=? REDIS_ENCODING_EMBSTR_SIZE_LIMIT then
          if bool_decide (o_encoding ob = ENC_EMBSTR) then Some (h, o)
          else
            '(h, emb) ← createEmbeddedStringObject h (Some (sds_buf s)) len;
            h ← decrRefCount h o;
            Some (h, emb)
        else if bool_decide (o_encoding ob = ENC_RAW) && (len / 10 <? sds_free s) then
          Some (<[o := mkObj (o_type ob) (o_encoding ob) (o_refcount ob)
                         (PSds (sdsRemoveFreeSpace junk s))]> h, o)
        else Some (h, o)
    end.

Definition getDecodedObject (h : store) (o : Z) : option (store * Z) :=
  ob ← h !! o;
  if sdsEncodedObject ob then h ← incrRefCount h o; Some (h, o)
  else if is_string ob && bool_decide (o_encoding ob = ENC_INT) then
    v ← as_long ob;
    '(_, buf) ← ll2string (local_buf 32) 32 v;
    n ← strlen buf;
    createStringObject h (Some buf) n
  else None.

(** ** Comparison *)

(** [astr] and [alen]. *)
Definition str_of (ob : robj) : option (list Z * Z) :=
  if sdsEncodedObject ob then s ← as_sds ob; Some (sds_buf s, sds_len s)
  else
    v ← as_long ob;
    '(n, buf) ← ll2string (local_buf 128) 128 v;
    Some (buf, n).

(** The binary comparison of two distinct objects. *)
Definition compare_contents (a b : robj) : option Z :=
  if negb (is_string a && is_string b) then None
  else
    '(astr, alen) ← str_of a;
    '(bstr, blen) ← str_of b;
    let minlen := if alen <? blen then alen else blen in
    x ← mem_read astr 0 minlen;
    y ← mem_read bstr 0 minlen;
    let cmp := memcmp x y in
    if cmp =? 0 then Some (s32 (alen -[64] blen)) else Some cmp.

(** [compareStringObjectsWithFlags] with [REDIS_COMPARE_BINARY]. *)
Definition compareStringObjects (h : store) (a b : Z) : option Z :=
  oa ← h !! a;
  ob ← h !! b;
  if negb (is_string oa && is_string ob) then None
  else if a =? b then Some 0
  else compare_contents oa ob.

Definition equal_contents (a b : robj) (cmp : option Z) : option bool :=
  if bool_decide (o_encoding a = ENC_INT) && bool_decide (o_encoding b = ENC_INT) then
    x ← as_long a;
    y ← as_long b;
    Some (x =? y)
  else
    c ← cmp;
    Some (c =? 0).

Definition equalStringObjects (h : store) (a b : Z) : option bool :=
  oa ← h !! a;
  ob ← h !! b;
  equal_contents oa ob (compareStringObjects h a b).

Definition stringObjectLen (ob : robj) : option Z :=
  if negb (is_string ob) then None
  else if sdsEncodedObject ob then s ← as_sds ob; Some (sds_len s)
  else
    v ← as_long ob;
    '(n, _) ← ll2string (local_buf 32) 32 v;
    Some n.

End Object.

(** ** Conversion to an integer *)

(** The C library's [strtoll(s, &eptr, 10)]: spaces, a sign, digits; the value,
    what [eptr] points at, and whether [errno] is set to ERANGE.  A number out of
    range saturates; with no digit [eptr] is [s].  The buffers of the strings
    it is given are terminated. *)
Fixpoint skip_spaces (s : list Z) : list Z :=
  match s with
  | c :: t => if isspace c then skip_spaces t else s
  | [] => []
  end.

Fixpoint digits_of (s : list Z) (v : Z) : Z * list Z :=
  match s with
  | c :: t => if is_digit c then digits_of t (10 * v + (c - 48)) else (v, s)
  | [] => (v, [])
  end.

Definition strtoll (s : list Z) : Z * list Z * bool :=
  let t := skip_spaces s in
  let '(neg, t) :=
    match t with
    | c :: t' => if c =? 45 then (true, t') else if c =? 43 then (false, t') else (false, t)
    | [] => (false, [])
    end in
  let '(v, rest) := digits_of t 0 in
  if bool_decide (rest = t) then (0, s, false)
  else
    let v := if neg : bool then - v else v in
    if v <? LLONG_MIN then (LLONG_MIN, rest, true)
    else if LLONG_MAX <? v then (LLONG_MAX, rest, true)
    else (v, rest, false).

(** The inner [None] is [REDIS_ERR]; a NULL object is zero. *)
Definition getLongLongFromObject (o : option robj) : option (option Z) :=
  match o with
  | None => Some (Some 0)
  | Some ob =>
      if negb (is_string ob) then None
      else if sdsEncodedObject ob then
        s ← as_sds ob;
        let '(value, eptr, erange) := strtoll (sds_buf s) in
        c0 ← znth (sds_buf s) 0;
        e0 ← znth eptr 0;
        Some (if isspace c0 || negb (e0 =? 0) || erange then None else Some value)
      else if bool_decide (o_encoding ob = ENC_INT) then v ← as_long ob; Some (Some v)
      else None
  end.

(** [getLongFromObjectOrReply], the reply aside. *)
Definition getLongFromObject (o : option robj) : option (option Z) :=
  r ← getLongLongFromObject o;
  Some (match r with
        | Some v => if (v <? LLONG_MIN) || (LLONG_MAX <? v) then None else Some v
        | None => None
        end).

(** ** What a string object stands for *)

(** The bytes of an object's value under its encoding. *)
Definition value_rep (enc : oencoding) (ptr : optr) (bs : list Z) : Prop :=
  match enc, ptr with
  | ENC_RAW, PSds s => rep s bs
  | ENC_EMBSTR, PSds s => rep s bs /\ sds_free s = 0
  | ENC_INT, PLong v => in_s 64 v /\ bs = sdec v
  | _, _ => False
  end.

Definition string_rep (ob : robj) (bs : list Z) : Prop :=
  o_type ob = REDIS_STRING /\ value_rep (o_encoding ob) (o_ptr ob) bs.

(** The references a store counts for an address. *)
Definition refs (h : store) (o : Z) : Z :=
  match h !! o with Some ob => o_refcount ob | None => 0 end.

(** A live string object. *)
Definition live (h : store) (o : Z) (bs : list Z) : Prop :=
  exists ob, h !! o = Some ob /\ string_rep ob bs /\ 1 <= o_refcount ob < 2 ^ 31.

Lemma sdec_chars v : in_s 64 v -> 0 ∉ sdec v.
Proof.
  intros Hv. destruct (sdec_parts v Hv) as (u & neg & _ & Hu & Hneg & ->).
  assert (Hd : Forall digit (dec u)) by (apply dec_digits; [lia|cint]).
  rewrite Forall_forall in Hd.
  intros [Hin|Hin]%elem_of_app.
  - destruct Hneg as [-> | ->]; simpl in Hin; [by apply elem_of_nil in Hin|].
    by apply list_elem_of_singleton in Hin.
  - apply Hd in Hin. unfold digit in Hin. lia.
Qed.

Section Facts.
Context (junk : nat -> Z) (zmalloc : store -> Z) (integers : Z -> Z).
Context (maxmemory : Z) (maxmemory_policy : policy).

Lemma local_buf_length n : 0 <= n -> zlen (local_buf junk n) = n.
Proof. intros. unfold zlen, local_buf. rewrite realloc_length. lia. Qed.

Lemma print_long n v : in_s 64 v -> 22 <= n ->
  exists k, ll2string (local_buf junk n) n v = Some (zlen (sdec v), sdec v ++ 0 :: k).
Proof.
  intros Hv Hn. pose proof (ll2string_spec (local_buf junk n) v Hv) as H.
  rewrite local_buf_length in H by lia. rewrite H. pose proof (sdec_zlen v Hv).
  destruct (Z.ltb_spec (zlen (sdec v)) n); [|lia]. by eexists.
Qed.

Lemma encoded_rep ob bs : string_rep ob bs ->
  (sdsEncodedObject ob = true /\ exists s, o_ptr ob = PSds s /\ rep s bs) \/
  (sdsEncodedObject ob = false /\ o_encoding ob = ENC_INT /\
     exists v, o_ptr ob = PLong v /\ in_s 64 v /\ bs = sdec v).
Proof.
  destruct ob as [ty enc rc ptr]. intros [_ Hv]. unfold sdsEncodedObject. simpl in *.
  destruct enc, ptr; simpl in Hv; try done.
  - left. split; [done|]. by exists s.
  - right. destruct Hv. split; [done|]. split; [done|]. by exists v.
  - left. destruct Hv. split; [done|]. by exists s.
Qed.

Lemma is_string_rep ob bs : string_rep ob bs -> is_string ob = true.
Proof. intros [Ht _]. unfold is_string. by rewrite Ht. Qed.

Lemma str_of_spec ob bs : string_rep ob bs ->
  exists k, str_of junk ob = Some (bs ++ 0 :: k, zlen bs).
Proof.
  intros H. unfold str_of, as_sds, as_long.
  destruct (encoded_rep ob bs H) as [(-> & s & -> & Hs)|(-> & _ & v & -> & Hv & ->)]; step.
  - destruct (rep_inv s bs Hs) as (tail & -> & _). by exists tail.
  - destruct (print_long 128 v Hv) as [k ->]; [lia|]. step. by exists k.
Qed.

(** The bytes of an object, read as the comparison reads them. *)
Definition obj_bytes (ob : robj) : list Z :=
  default [] ('(buf, n) ← str_of junk ob; mem_read buf 0 n).

Lemma obj_bytes_rep ob bs : string_rep ob bs -> obj_bytes ob = bs.
Proof.
  intros H. unfold obj_bytes. destruct (str_of_spec ob bs H) as [k ->]. step.
  by rewrite mem_read_prefix.
Qed.

Lemma compare_contents_spec a b x y :
  string_rep a x -> string_rep b y -> zlen x < 2 ^ 31 -> zlen y < 2 ^ 31 ->
  exists c, compare_contents junk a b = Some c /\ (c ?= 0) = lex x y.
Proof.
  intros Ha Hb Hx Hy. unfold compare_contents.
  rewrite (is_string_rep a x Ha), (is_string_rep b y Hb). cbn [andb negb].
  destruct (str_of_spec a x Ha) as [ka ->], (str_of_spec b y Hb) as [kb ->]. step.
  apply compare_prefixes; done.
Qed.

Lemma equal_contents_spec a b x y cmp :
  string_rep a x -> string_rep b y -> (exists c, cmp = Some c /\ (c ?= 0) = lex x y) ->
  equal_contents a b cmp = Some (bool_decide (x = y)).
Proof.
  intros Ha Hb (c & -> & Hc). unfold equal_contents, as_long.
  destruct (bool_decide (o_encoding a = ENC_INT) && bool_decide (o_encoding b = ENC_INT)) eqn:E.
  - apply andb_true_iff in E as [Ea%bool_decide_eq_true Eb%bool_decide_eq_true].
    destruct Ha as [_ Ha], Hb as [_ Hb]. rewrite Ea in Ha. rewrite Eb in Hb.
    destruct (o_ptr a), (o_ptr b); simpl in Ha, Hb; try done. step.
    destruct Ha as [Ha ->], Hb as [Hb ->]. f_equal.
    destruct (Z.eqb_spec v v0) as [->|Hne]; [by rewrite bool_decide_true|].
    rewrite bool_decide_false; [done|]. intros Heq. by apply sdec_inj in Heq.
  - step. f_equal. destruct (Z.eqb_spec c 0) as [->|Hne].
    + rewrite bool_decide_true; [done|]. by apply lex_eq.
    + rewrite bool_decide_false; [done|]. intros ->.
      pose proof (proj2 (lex_eq y y) eq_refl) as He. rewrite He in Hc.
      by apply Z.compare_eq_iff in Hc.
Qed.

(** ** Creation and reference counts *)

Lemma createEmbeddedStringObject_spec h t len bs :
  mem_read t 0 len = Some bs -> fits len ->
  exists ob, createEmbeddedStringObject junk zmalloc h (Some t) len =
      Some (<[zmalloc h := ob]> h, zmalloc h) /\
    string_rep ob bs /\ o_encoding ob = ENC_EMBSTR /\ o_refcount ob = 1.
Proof.
  intros Hr [H0 Hf]. pose proof (mem_read_spec _ _ _ _ Hr) as (_ & _ & Hz & _).
  unfold createEmbeddedStringObject. rewrite Hr. step.
  destruct (realloc_grow junk [] (len + 1)) as (j & -> & Hj); [change (zlen []) with 0; lia|].
  change (zlen []) with 0 in Hj. rewrite Z.sub_0_r in Hj.
  destruct (zlen_snoc j len H0 Hj) as (j' & x & -> & Hj').
  cbn [app]. rewrite (mem_write_app [] j' bs [x]) by (done || lia). step.
  cbn [app]. rewrite zset_app_mid by done. step.
  eexists. split; [done|]. split; [|done]. split; [done|]. cbn.
  rewrite u32_id, <- Hz by lens. split; [|done]. apply rep_intro; [done|lens].
Qed.

Lemma createStringObject_spec h t len bs :
  mem_read t 0 len = Some bs -> fits len ->
  exists ob, createStringObject junk zmalloc h (Some t) len =
      Some (<[zmalloc h := ob]> h, zmalloc h) /\
    string_rep ob bs /\ sdsEncodedObject ob = true /\ o_refcount ob = 1.
Proof.
  intros Hr Hf. unfold createStringObject. case_match.
  - destruct (createEmbeddedStringObject_spec h t len bs Hr Hf) as (ob & -> & Hs & He & Hc).
    exists ob. unfold sdsEncodedObject. rewrite He. done.
  - unfold createRawStringObject, createObject.
    destruct (sdsnewlen_spec junk t len bs Hr Hf) as (s & -> & Hs & _). step.
    eexists. split; [done|]. done.
Qed.

(** The references move from [o] to [o']. *)
Definition ref_moved (h h' : store) (o o' : Z) : Prop :=
  forall q, refs h' q + (if decide (q = o) then 1 else 0) =
            refs h q + (if decide (q = o') then 1 else 0).

Lemma refs_insert h o ob q :
  refs (<[o := ob]> h) q = if decide (q = o) then o_refcount ob else refs h q.
Proof.
  unfold refs. destruct (decide (q = o)) as [->|Hne]; [by rewrite lookup_insert_eq|].
  by rewrite lookup_insert_ne.
Qed.

Lemma refs_delete h o q : refs (delete o h) q = if decide (q = o) then 0 else refs h q.
Proof.
  unfold refs. destruct (decide (q = o)) as [->|Hne]; [by rewrite lookup_delete_eq|].
  by rewrite lookup_delete_ne.
Qed.

Lemma incrRefCount_spec h o ob :
  h !! o = Some ob -> 0 <= o_refcount ob < 2 ^ 31 - 1 ->
  incrRefCount h o = Some (<[o := set_refcount ob (o_refcount ob + 1)]> h).
Proof.
  intros Ho Hc. unfold incrRefCount, int_ok. rewrite Ho. step.
  rewrite decide_True by cint. done.
Qed.

Lemma decrRefCount_last h o ob :
  h !! o = Some ob -> o_refcount ob = 1 -> decrRefCount h o = Some (delete o h).
Proof. intros Ho Hc. unfold decrRefCount. rewrite Ho. step. by rewrite Hc. Qed.

Lemma string_rep_refcount ob n bs : string_rep ob bs -> string_rep (set_refcount ob n) bs.
Proof. done. Qed.

Lemma as_integer_spec s bs : rep s bs ->
  (exists v, in_s 64 v /\ bs = sdec v /\ as_integer s = Some (Some v)) \/
  ((forall v, in_s 64 v -> bs <> sdec v) /\ as_integer s = Some None).
Proof.
  intros (tail & -> & Hb)%rep_inv. unfold as_integer, string2l. cbn [sds_len sds_buf].
  destruct (Z.leb_spec (zlen bs) 21) as [Hl|Hl].
  - rewrite mem_read_prefix by done. step.
    destruct (string2ll_spec bs) as [(v & Hv & Hd & ->)|[Hn ->]]; step; [left|by right].
    exists v. split; [done|]. split; [done|]. cbn [Z.eqb]. step.
    unfold LLONG_MIN, LLONG_MAX.
    destruct (Z.ltb_spec v (- 2 ^ 63)); [cint|]. destruct (Z.ltb_spec (2 ^ 63 - 1) v); [cint|]. done.
  - right. split; [|done]. intros v Hv ->. pose proof (sdec_zlen v Hv). lia.
Qed.

(** ** Encoding *)

Notation tryObjectEncoding :=
  (tryObjectEncoding junk zmalloc integers maxmemory maxmemory_policy).

(** What [tryObjectEncoding] leaves alone. *)
Definition settled (ob : robj) (bs : list Z) : Prop :=
  o_encoding ob = ENC_INT \/ 1 < o_refcount ob \/
  ((forall v, in_s 64 v -> bs <> sdec v) /\
   (o_encoding ob = ENC_EMBSTR /\ zlen bs <= 39 \/
    39 < zlen bs /\ forall s, o_ptr ob = PSds s -> sds_free s <= zlen bs / 10)).

Lemma settled_fixed h o ob bs :
  h !! o = Some ob -> string_rep ob bs -> settled ob bs -> tryObjectEncoding h o = Some (h, o).
Proof.
  intros Ho Hr Hs. unfold Object.tryObjectEncoding, as_sds. rewrite Ho. step.
  rewrite (is_string_rep ob bs Hr). cbn [negb].
  destruct (encoded_rep ob bs Hr) as [(Henc & s & Hp & Hrep)|(-> & _)]; [|done].
  rewrite Henc. cbn [negb]. destruct (Z.ltb_spec 1 (o_refcount ob)) as [|Hc]; [done|].
  destruct Hs as [He|[|[Hn Hs]]]; [|lia|].
  { unfold sdsEncodedObject in Henc. by rewrite He in Henc. }
  rewrite Hp. step. destruct (as_integer_spec s bs Hrep) as [(v & Hv & -> & _)|[_ ->]];
    [by destruct (Hn v Hv)|]. step.
  assert (Hlen : sds_len s = zlen bs) by apply Hrep. rewrite Hlen.
  unfold REDIS_ENCODING_EMBSTR_SIZE_LIMIT.
  destruct Hs as [[He Hl]|[Hl Hf]].
  - rewrite He. destruct (Z.leb_spec (zlen bs) 39); [done|lia].
  - destruct (Z.leb_spec (zlen bs) 39); [lia|]. specialize (Hf s Hp).
    destruct (Z.ltb_spec (zlen bs / 10) (sds_free s)); [lia|]. by rewrite andb_false_r.
Qed.

(** The shared integers are live. *)
Definition shared_ok (h : store) : Prop :=
  forall v, 0 <= v < REDIS_SHARED_INTEGERS -> exists rc,
    h !! integers v = Some (mkObj REDIS_STRING ENC_INT rc (PLong v)) /\ 1 <= rc < 2 ^ 31 - 2.

(** What a successful encoding of [o] into [o'] guarantees. *)
Definition encodes (h h' : store) (o o' : Z) (bs : list Z) : Prop :=
  live h' o' bs /\ ref_moved h h' o o' /\
  (forall q, q <> o -> q <> o' -> h' !! q = h !! q) /\
  (exists ob, h' !! o' = Some ob /\ settled ob bs) /\
  (refs h o = 1 -> forall v, in_s 64 v -> bs = sdec v ->
     exists ob, h' !! o' = Some ob /\ o_ptr ob = PLong v) /\
  (refs h o < 2 ^ 31 - 1 -> refs h' o' < 2 ^ 31 - 1) /\
  (o' <> o -> h' !! o = None /\
     forall ob, h !! o' = Some ob -> exists n, h' !! o' = Some (set_refcount ob n)).

Lemma ref_moved_refl h o : ref_moved h h o o.
Proof. intros q. done. Qed.

(** A new value in place, under the same count. *)
Lemma encodes_in_place h o ob enc ptr bs :
  h !! o = Some ob -> 1 <= o_refcount ob < 2 ^ 31 -> value_rep enc ptr bs ->
  settled (mkObj REDIS_STRING enc (o_refcount ob) ptr) bs ->
  (forall v, in_s 64 v -> bs = sdec v -> ptr = PLong v) ->
  encodes h (<[o := mkObj REDIS_STRING enc (o_refcount ob) ptr]> h) o o bs.
Proof.
  intros Ho Hc Hv Hs Hint. split_and!.
  - eexists. by rewrite lookup_insert_eq.
  - intros q. rewrite refs_insert. unfold refs. destruct (decide (q = o)) as [->|]; [|lia].
    by rewrite Ho.
  - intros q Hq _. by rewrite lookup_insert_ne.
  - eexists. by rewrite lookup_insert_eq.
  - intros _ v Hv' Hb. eexists. rewrite lookup_insert_eq. split; [done|]. by apply Hint.
  - rewrite refs_insert, decide_True by done. unfold refs. by rewrite Ho.
  - done.
Qed.

Lemma encodes_unchanged h o ob bs :
  h !! o = Some ob -> string_rep ob bs -> 1 <= o_refcount ob < 2 ^ 31 -> settled ob bs ->
  encodes h h o o bs.
Proof.
  intros Ho Hr Hc Hs. split; [by exists ob|]. split; [apply ref_moved_refl|].
  split; [done|]. split; [by exists ob|]. split; [|done]. intros H1 v Hv ->.
  unfold refs in H1. rewrite Ho in H1. exists ob. split; [done|].
  destruct Hs as [He|[|[Hn _]]]; [|lia|by destruct (Hn v Hv)].
  destruct Hr as [_ Hr]. rewrite He in Hr. destruct (o_ptr ob) as [|w|]; simpl in Hr; try done.
  destruct Hr as [Hw Heq]. by apply sdec_inj in Heq as ->.
Qed.

Lemma encodes_shared h o ob v :
  shared_ok h -> h !! o = Some ob -> o_refcount ob = 1 -> o_encoding ob <> ENC_INT ->
  0 <= v < REDIS_SHARED_INTEGERS ->
  exists h', (h ← decrRefCount h o; h ← incrRefCount h (integers v); Some (h, integers v)) =
    Some (h', integers v) /\ encodes h h' o (integers v) (sdec v).
Proof.
  intros Hsh Ho Hc He Hv. destruct (Hsh v Hv) as (rc & Hi & Hrc).
  assert (Hne : integers v <> o) by (intros Heq; rewrite Heq in Hi; rewrite Hi in Ho; by injection Ho as <-).
  rewrite (decrRefCount_last h o ob Ho Hc). step.
  rewrite (incrRefCount_spec _ _ (mkObj REDIS_STRING ENC_INT rc (PLong v)));
    [|by rewrite lookup_delete_ne|cbn; lia]. step.
  eexists. split; [done|]. cbn [o_refcount]. unfold REDIS_SHARED_INTEGERS in Hv.
  split_and!.
  - eexists. rewrite lookup_insert_eq. split; [done|]. repeat split; cbn; cint.
  - intros q. rewrite refs_insert, refs_delete. unfold refs. cbn.
    destruct (decide (q = integers v)) as [->|].
    + rewrite decide_False by done. rewrite Hi. cbn. lia.
    + destruct (decide (q = o)) as [->|]; [rewrite Ho; lia|lia].
  - intros q Hq Hq'. by rewrite lookup_insert_ne, lookup_delete_ne.
  - eexists. rewrite lookup_insert_eq. split; [done|]. by left.
  - intros _ w Hw Heq. eexists. rewrite lookup_insert_eq. split; [done|]. cbn.
    apply sdec_inj in Heq as ->; [done| |done]. cint.
  - intros _. rewrite refs_insert, decide_True by done. cbn. lia.
  - intros _. split; [by rewrite lookup_insert_ne, lookup_delete_eq|].
    intros ob' Hob'. rewrite Hi in Hob'. injection Hob' as <-. eexists. by rewrite lookup_insert_eq.
Qed.

Lemma encodes_embstr h o ob t bs :
  (forall m, m !! zmalloc m = None) -> h !! o = Some ob -> o_refcount ob = 1 ->
  mem_read t 0 (zlen bs) = Some bs -> zlen bs <= 39 -> (forall v, in_s 64 v -> bs <> sdec v) ->
  exists h' o', ('(h, emb) ← createEmbeddedStringObject junk zmalloc h (Some t) (zlen bs);
    h ← decrRefCount h o; Some (h, emb)) = Some (h', o') /\ encodes h h' o o' bs.
Proof.
  intros Hfresh Ho Hc Hm Hl Hn.
  destruct (createEmbeddedStringObject_spec h t (zlen bs) bs Hm ltac:(lens))
    as (e & -> & He & Hee & Hec). step.
  assert (Hne : zmalloc h <> o) by (intros Heq; pose proof (Hfresh h) as Hf; rewrite Heq in Hf; congruence).
  rewrite (decrRefCount_last _ o ob) by (rewrite ?lookup_insert_ne; done). step.
  eexists _, _. split; [done|].
  assert (Hl' : delete o (<[zmalloc h := e]> h) !! zmalloc h = Some e)
    by (by rewrite lookup_delete_ne, lookup_insert_eq).
  split_and!.
  - exists e. split; [done|]. split; [done|]. rewrite Hec. lia.
  - intros q. rewrite refs_delete, refs_insert. pose proof (Hfresh h) as Hf. unfold refs.
    destruct (decide (q = o)) as [->|].
    + rewrite decide_False by done. rewrite Ho. lia.
    + destruct (decide (q = zmalloc h)) as [->|]; [rewrite Hf; lia|lia].
  - intros q Hq Hq'. by rewrite lookup_delete_ne, lookup_insert_ne.
  - exists e. split; [done|]. right. right. split; [done|]. by left.
  - intros _ v Hv Hb. by destruct (Hn v Hv).
  - intros _. unfold refs. rewrite Hl', Hec. lia.
  - intros _. split; [by rewrite lookup_delete_eq|]. intros ob' Hob'. pose proof (Hfresh h). congruence.
Qed.

(** The body of [tryObjectEncoding] past its early returns. *)
Ltac open_encoding :=
  unfold Object.tryObjectEncoding, as_sds;
  match goal with Ho : ?h !! ?o = Some ?ob, Hr : string_rep ?ob ?bs, He : sdsEncodedObject ?ob = true,
      Hp : o_ptr ?ob = _, Hi : as_integer _ = _ |- _ =>
    rewrite Ho; step; rewrite (is_string_rep ob bs Hr), He; cbn [negb];
    destruct (Z.ltb_spec 1 (o_refcount ob)); [lia|]; rewrite Hp; step; rewrite Hi; step
  end.

Lemma tryObjectEncoding_spec h o bs :
  (forall m, m !! zmalloc m = None) -> shared_ok h -> live h o bs ->
  exists h' o', tryObjectEncoding h o = Some (h', o') /\ encodes h h' o o' bs.
Proof.
  intros Hfresh Hsh (ob & Ho & Hr & Hc).
  assert (Hdone : settled ob bs -> exists h' o', tryObjectEncoding h o = Some (h', o') /\
    encodes h h' o o' bs).
  { intros Hs. exists h, o. split; [by apply (settled_fixed h o ob bs)|].
    by apply (encodes_unchanged h o ob). }
  destruct (encoded_rep ob bs Hr) as [(Henc & s & Hp & Hrep)|(_ & He & _)];
    [|apply Hdone; by left].
  destruct (decide (1 < o_refcount ob)) as [|Hc1]; [apply Hdone; by right; left|].
  assert (Hne : o_encoding ob <> ENC_INT)
    by (intros He; unfold sdsEncodedObject in Henc; by rewrite He in Henc).
  assert (Hlen : sds_len s = zlen bs) by apply Hrep.
  destruct (as_integer_spec s bs Hrep) as [(v & Hv & -> & Hi)|[Hn Hi]].
  - open_encoding. unfold may_share. rewrite (proj1 Hr).
    destruct (_ && (0 <=? v) && (v <? REDIS_SHARED_INTEGERS)) eqn:Em.
    + apply andb_true_iff in Em as [[_ E1]%andb_true_iff E2].
      destruct (encodes_shared h o ob v Hsh Ho) as (h' & -> & He); [lia|done|lia|].
      by exists h', (integers v).
    + eexists _, o. split; [done|].
      apply encodes_in_place; [done|done|done|by left|].
      intros w Hw Heq. by apply sdec_inj in Heq as ->.
  - destruct (Z.leb_spec (zlen bs) 39) as [Hl|Hl].
    + destruct (decide (o_encoding ob = ENC_EMBSTR)) as [He|He];
        [apply Hdone; right; right; split; [done|by left]|].
      open_encoding. rewrite Hlen. unfold REDIS_ENCODING_EMBSTR_SIZE_LIMIT.
      destruct (Z.leb_spec (zlen bs) 39); [|lia]. rewrite bool_decide_false by done.
      apply (encodes_embstr h o ob); [done|done|lia| |done|done].
      destruct (rep_inv s bs Hrep) as (tail & -> & _). by apply mem_read_prefix.
    + destruct (decide (zlen bs / 10 < sds_free s)) as [Hf|Hf].
      2: { apply Hdone. right. right. split; [done|]. right. split; [done|].
           intros s' Hs'. rewrite Hp in Hs'. injection Hs' as <-. lia. }
      open_encoding. rewrite Hlen. unfold REDIS_ENCODING_EMBSTR_SIZE_LIMIT.
      destruct (Z.leb_spec (zlen bs) 39); [lia|].
      destruct (Z.ltb_spec (zlen bs / 10) (sds_free s)); [|lia].
      assert (He : o_encoding ob = ENC_RAW).
      { destruct Hr as [_ Hr]. rewrite Hp in Hr. unfold sdsEncodedObject in Henc.
        destruct (o_encoding ob); try done. destruct Hr as [_ Hr].
        assert (0 <= zlen bs / 10) by (apply Z.div_pos; lia). lia. }
      rewrite He, bool_decide_true by done. cbn [andb]. rewrite (proj1 Hr).
      eexists _, o. split; [done|]. pose proof (sdsRemoveFreeSpace_spec junk s bs Hrep).
      apply encodes_in_place; [done|done|done| |intros v Hv Heq; by destruct (Hn v Hv)].
      right. right. split; [done|]. right. split; [done|]. cbn. intros s' [= <-]. cbn.
      apply Z.div_pos; lia.
Qed.

Lemma getDecodedObject_spec h o bs :
  (forall m, m !! zmalloc m = None) -> live h o bs -> refs h o < 2 ^ 31 - 1 ->
  exists h' o' ob, getDecodedObject junk zmalloc h o = Some (h', o') /\
    h' !! o' = Some ob /\ string_rep ob bs /\ sdsEncodedObject ob = true /\
    (forall q, refs h' q = refs h q + if decide (q = o') then 1 else 0).
Proof.
  intros Hfresh (ob & Ho & Hr & Hc) Hlt. unfold getDecodedObject. rewrite Ho. step.
  unfold refs in Hlt. rewrite Ho in Hlt.
  destruct (encoded_rep ob bs Hr) as [(Henc & _)|(Henc & He & v & Hp & Hv & ->)]; rewrite Henc.
  - rewrite (incrRefCount_spec h o ob) by (done || lia). step.
    eexists _, o, _. split; [done|]. rewrite lookup_insert_eq. split; [done|].
    split; [done|]. split; [done|]. intros q. rewrite refs_insert. cbn. unfold refs.
    destruct (decide (q = o)) as [->|]; [by rewrite Ho|lia].
  - rewrite (is_string_rep ob _ Hr), He. cbn [andb bool_decide_true]. rewrite bool_decide_true by done.
    unfold as_long. rewrite Hp. step. destruct (print_long 32 v Hv ltac:(lia)) as [k ->]. step.
    rewrite strlen_spec by (by apply sdec_chars). step.
    pose proof (sdec_zlen v Hv).
    destruct (createStringObject_spec h (sdec v ++ 0 :: k) (zlen (sdec v)) (sdec v))
      as (e & -> & Hre & Hee & Hec); [by apply mem_read_prefix|lens|].
    eexists _, _, e. rewrite lookup_insert_eq. split; [done|]. split; [done|]. split; [done|].
    split; [done|]. intros q. rewrite refs_insert. pose proof (Hfresh h) as Hf. unfold refs.
    destruct (decide (q = zmalloc h)) as [->|]; [rewrite Hf; lia|lia].
Qed.
End Facts.

Lemma string_rep_inj ob x y : string_rep ob x -> string_rep ob y -> x = y.
Proof.
  intros [_ Hx] [_ Hy]. unfold value_rep in *.
  assert (Hrep : forall s, rep s x -> rep s y -> x = y).
  { intros s (Hl & _ & tx & Ex & _) (Hl' & _ & ty & Ey & _). rewrite Ex in Ey.
    apply app_inj_1 in Ey as [? _]; [done|]. unfold zlen in *. lia. }
  destruct (o_encoding ob), (o_ptr ob) as [s|v|]; try done.
  - by apply (Hrep s).
  - destruct Hx as [_ ->], Hy as [_ ->]. done.
  - destruct Hx as [Hx _], Hy as [Hy _]. by apply (Hrep s).
Qed.

Lemma stringObjectLen_spec junk ob bs :
  string_rep ob bs -> stringObjectLen junk ob = Some (zlen bs).
Proof.
  intros Hr. unfold stringObjectLen, as_sds, as_long. rewrite (is_string_rep ob bs Hr). cbn [negb].
  destruct (encoded_rep ob bs Hr) as [(-> & s & -> & Hs)|(-> & _ & v & -> & Hv & ->)]; step.
  - by destruct Hs as (-> & _).
  - destruct (print_long junk 32 v Hv ltac:(lia)) as [k ->]. done.
Qed.

(** ** Conversion to an integer, the reference *)

(** An optional sign and digits, in range; nothing at all is zero. *)
Definition atoll (u : list Z) : option Z :=
  match u with
  | [] => Some 0
  | c :: t =>
      let neg := c =? 45 in
      let ds := if (c =? 45) || (c =? 43) then t else u in
      if bool_decide (ds <> []) && forallb is_digit ds then
        let v := if neg then - dval 0 ds else dval 0 ds in
        if bool_decide (in_s 64 v) then Some v else None
      else None
  end.

Lemma until_zero_split bs tail : exists k,
  bs ++ 0 :: tail = until_zero bs ++ 0 :: k /\ 0 ∉ until_zero bs.
Proof.
  induction bs as [|c bs (k & IH & Hn)]; simpl; [exists tail; split; [done|apply not_elem_of_nil]|].
  destruct (Z.eqb_spec c 0) as [->|Hc].
  - exists (bs ++ 0 :: tail). split; [done|apply not_elem_of_nil].
  - exists k. rewrite IH. split; [done|]. apply not_elem_of_cons. done.
Qed.

Lemma digits_of_spec ds rest : Forall digit ds ->
  match rest with [] => True | c :: _ => ~ digit c end ->
  forall v, digits_of (ds ++ rest) v = (dval v ds, rest).
Proof.
  intros Hds Hr. induction Hds as [|c ds Hc _ IH]; intros v; simpl.
  - destruct rest as [|c rest]; [done|]. simpl. by destruct (is_digit_spec c).
  - destruct (is_digit_spec c); [|done]. apply IH.
Qed.

Lemma forallb_digits ds : forallb is_digit ds = true <-> Forall digit ds.
Proof.
  rewrite forallb_forall, Forall_forall. split; intros H c Hc.
  - specialize (H c). rewrite <- list_elem_of_In in H. specialize (H Hc).
    by destruct (is_digit_spec c).
  - apply list_elem_of_In, H in Hc. by destruct (is_digit_spec c).
Qed.

(** The digits after the sign, and what the tests of the caller make of them. *)
Lemma strtoll_digits s neg t k c0 :
  0 ∉ t -> znth s 0 = Some c0 -> c0 <> 0 ->
  (let '(value, eptr, erange) :=
    (let '(v, rest) := digits_of (t ++ 0 :: k) 0 in
     if bool_decide (rest = t ++ 0 :: k) then (0, s, false)
     else
       let v := if neg : bool then - v else v in
       if v <? LLONG_MIN then (LLONG_MIN, rest, true)
       else if LLONG_MAX <? v then (LLONG_MAX, rest, true)
       else (v, rest, false)) in
   e0 ← znth eptr 0;
   Some (if negb (e0 =? 0) || erange then None else Some value)) =
  Some (if bool_decide (t <> []) && forallb is_digit t then
          let v := if neg then - dval 0 t else dval 0 t in
          if bool_decide (in_s 64 v) then Some v else None
        else None).
Proof.
  intros H0 Hs Hc.
  destruct (digits_prefix t) as (ds & rest & -> & Hds & Hr).
  assert (Hr' : match rest ++ 0 :: k with [] => True | c :: _ => ~ digit c end)
    by (destruct rest; [unfold digit; simpl; lia|done]).
  rewrite <- app_assoc, (digits_of_spec ds (rest ++ 0 :: k) Hds Hr').
  destruct ds as [|d ds].
  { cbn [app]. rewrite bool_decide_true by done. rewrite Hs. step.
    destruct (Z.eqb_spec c0 0); [done|]. cbn [negb orb]. f_equal.
    destruct rest as [|r rest]; [done|]. cbn [app forallb].
    destruct (is_digit_spec r); [done|]. by rewrite andb_false_r. }
  rewrite bool_decide_false.
  2: { intros Heq. apply (f_equal length) in Heq. rewrite !length_app in Heq. simpl in Heq. lia. }
  rewrite (bool_decide_true ((d :: ds) ++ rest <> [])) by done. cbn [andb].
  destruct rest as [|r rest].
  - rewrite app_nil_r, (proj2 (forallb_digits _) Hds). cbn [app].
    set (v := if neg then _ else _). cbv zeta. unfold LLONG_MIN, LLONG_MAX.
    destruct (Z.ltb_spec v (- 2 ^ 63)); [step; rewrite bool_decide_false by cint; done|].
    destruct (Z.ltb_spec (2 ^ 63 - 1) v); step; [rewrite bool_decide_false by cint; done|].
    rewrite bool_decide_true by cint. done.
  - assert (Hf : forallb is_digit ((d :: ds) ++ r :: rest) = false).
    { apply not_true_iff_false. rewrite forallb_digits. intros Hall.
      apply Forall_app in Hall as [_ Hall]. by apply Forall_cons in Hall as [? _]. }
    rewrite Hf.
    assert (Hrne : r <> 0).
    { intros ->. apply H0. apply elem_of_app. right. by left. }
    assert (Hz : forall x : Z * bool, (let '(value, eptr, erange) := (x.1, (r :: rest) ++ 0 :: k, x.2) in
      e0 ← znth eptr 0; Some (if negb (e0 =? 0) || erange then None else Some value)) = Some None).
    { intros [x b]. cbn [fst snd app]. rewrite znth_cons_0. step.
      rewrite (proj2 (Z.eqb_neq r 0)) by done. done. }
    destruct (_ <? LLONG_MIN); [apply (Hz (LLONG_MIN, true))|].
    destruct (LLONG_MAX <? _); [apply (Hz (LLONG_MAX, true))|].
    apply (Hz (_, false)).
Qed.

Lemma sdec_atoll v : in_s 64 v -> atoll (sdec v) = Some v.
Proof.
  intros Hv. unfold sdec.
  assert (Hd : forall u, in_u 64 u -> Forall digit (dec u) /\ dval 0 (dec u) = u /\ dec u <> []).
  { intros u Hu. split; [apply dec_digits; [lia|cint]|]. split; [apply dval_dec; [lia|cint]|].
    intros Hn. pose proof (dec_zlen u Hu) as Hl. rewrite Hn in Hl. change (zlen (@nil Z)) with 0 in Hl. lia. }
  destruct (Z.ltb_spec v 0).
  - destruct (Hd (- v) ltac:(cint)) as (Hf & Hval & Hne). cbn [atoll].
    change (45 =? 45) with true. cbn [orb]. rewrite bool_decide_true by done.
    rewrite (proj2 (forallb_digits _) Hf), Hval, Z.opp_involutive. cbn [andb].
    by rewrite bool_decide_true by done.
  - destruct (Hd v ltac:(cint)) as (Hf & Hval & Hne).
    destruct (dec v) as [|c t] eqn:E; [done|]. cbn [atoll].
    pose proof Hf as Hc. apply Forall_cons in Hc as [Hc _]. unfold digit in Hc.
    destruct (Z.eqb_spec c 45); [lia|]. destruct (Z.eqb_spec c 43); [lia|]. cbn [orb].
    rewrite bool_decide_true by done. rewrite (proj2 (forallb_digits _) Hf), Hval. cbn [andb].
    by rewrite bool_decide_true by done.
Qed.

Lemma until_zero_id bs : 0 ∉ bs -> until_zero bs = bs.
Proof.
  induction bs as [|c bs IH]; intros H; [done|]. apply not_elem_of_cons in H as [Hc H].
  cbn. destruct (Z.eqb_spec c 0); [done|]. by rewrite IH.
Qed.

(** [eptr] points inside a terminated buffer. *)
Lemma digits_of_split s : forall v, exists ds, s = ds ++ (digits_of s v).2 /\ 0 ∉ ds.
Proof.
  induction s as [|c s IH]; intros v; simpl; [exists []; split; [done|apply not_elem_of_nil]|].
  destruct (is_digit_spec c) as [Hc|].
  - destruct (IH (10 * v + (c - 48))) as (ds & E & Hn). exists (c :: ds).
    split; [by rewrite E at 1|]. apply not_elem_of_cons. unfold digit in Hc. split; [lia|done].
  - exists []. split; [done|apply not_elem_of_nil].
Qed.

Lemma skip_spaces_split s : exists sp, s = sp ++ skip_spaces s /\ 0 ∉ sp.
Proof.
  induction s as [|c s (sp & E & Hn)]; simpl; [exists []; split; [done|apply not_elem_of_nil]|].
  destruct (isspace c) eqn:Es.
  - exists (c :: sp). split; [by rewrite E at 1|]. apply not_elem_of_cons.
    split; [unfold isspace in Es; lia|done].
  - exists []. split; [done|apply not_elem_of_nil].
Qed.

Lemma suffix_nonempty (a b : list Z) : 0 ∈ a ++ b -> 0 ∉ a -> exists c, znth b 0 = Some c.
Proof.
  intros Hin Hn. destruct b as [|c b]; [|by exists c]. rewrite app_nil_r in Hin. done.
Qed.

Lemma strtoll_eptr s : 0 ∈ s -> exists e0, znth (strtoll s).1.2 0 = Some e0.
Proof.
  intros H0. unfold strtoll. destruct (skip_spaces_split s) as (sp & Es & Hsp).
  assert (H0' : 0 ∈ skip_spaces s).
  { rewrite Es in H0. by apply elem_of_app in H0 as [|]. }
  assert (Hs : exists c, znth s 0 = Some c) by (apply (suffix_nonempty []); [done|apply not_elem_of_nil]).
  set (p := match skip_spaces s with [] => _ | _ => _ end).
  assert (Hp : 0 ∈ p.2).
  { unfold p. destruct (skip_spaces s) as [|c t]; [done|].
    destruct (Z.eqb_spec c 45) as [->|]; [|destruct (Z.eqb_spec c 43) as [->|]; [|done]];
      by apply elem_of_cons in H0' as [|]. }
  destruct p as [neg t]. cbn [snd] in Hp. destruct (digits_of_split t 0) as (ds & Et & Hds).
  destruct (digits_of t 0) as [v rest]. cbn [snd] in Et.
  case_bool_decide; [done|].
  assert (Hrest : exists c, znth rest 0 = Some c) by (apply (suffix_nonempty ds); [by rewrite <- Et|done]).
  by repeat case_match.
Qed.

Lemma getLongLong_buffer u k :
  0 ∉ u ->
  (let '(value, eptr, erange) := strtoll (u ++ 0 :: k) in
   c0 ← znth (u ++ 0 :: k) 0;
   e0 ← znth eptr 0;
   Some (if isspace c0 || negb (e0 =? 0) || erange then None else Some value)) =
  Some (atoll u).
Proof.
  intros H0. destruct u as [|c t].
  { unfold strtoll. cbn. by rewrite bool_decide_true by done. }
  apply not_elem_of_cons in H0 as [Hc Ht].
  assert (Hc' : c <> 0) by lia. cbn [app atoll]. rewrite znth_cons_0. step.
  destruct (isspace c) eqn:Esp.
  - assert (Hr : forall x : Z * list Z * bool, (exists e0, znth x.1.2 0 = Some e0) ->
      (let '(value, eptr, erange) := x in
       e0 ← znth eptr 0;
       Some (if true || negb (e0 =? 0) || erange then None else Some value)) = Some None).
    { intros [[value eptr] erange] [e0 He]. cbn in He. by rewrite He. }
    assert (Hdig : ((c =? 45) = false) /\ ((c =? 43) = false) /\ is_digit c = false)
      by (unfold isspace, is_digit in *; lia).
    destruct Hdig as (-> & -> & Hd). cbn [orb]. cbn [forallb]. rewrite Hd, andb_false_r.
    apply Hr. apply strtoll_eptr. right. apply elem_of_app. right. by left.
  - unfold strtoll. cbn [skip_spaces]. rewrite Esp.
    destruct (c =? 45) eqn:E1; [|destruct (c =? 43) eqn:E2]; cbn [orb].
    + apply (strtoll_digits (c :: t ++ 0 :: k) true t k c); [done|done|done].
    + apply (strtoll_digits (c :: t ++ 0 :: k) false t k c); [done|done|done].
    + apply (strtoll_digits (c :: t ++ 0 :: k) false (c :: t) k c); [|done|done].
      by apply not_elem_of_cons.
Qed.

(** The integer of a string object, in any encoding. *)
Lemma getLongLong_value ob bs : string_rep ob bs ->
  getLongLongFromObject (Some ob) = Some (atoll (until_zero bs)).
Proof.
  intros Hob. unfold getLongLongFromObject. rewrite (is_string_rep ob bs Hob). cbn [negb].
  unfold as_sds, as_long.
  destruct (encoded_rep ob bs Hob) as [(-> & s & -> & Hs)|(-> & He & v & -> & Hv & ->)]; step.
  - destruct (rep_inv s bs Hs) as (tail & -> & _). cbn [sds_buf].
    destruct (until_zero_split bs tail) as (k & -> & Hn). by apply getLongLong_buffer.
  - by rewrite He, bool_decide_true, until_zero_id, sdec_atoll by (done || by apply sdec_chars).
Qed.

Lemma atoll_bound u v : atoll u = Some v -> in_s 64 v.
Proof.
  unfold atoll. intros E. destruct u; [injection E as <-; cint|].
  repeat case_match; simplify_eq; by case_bool_decide.
Qed.

(** ** Properties *)


(** A store with the shared integers at the addresses 0 to 9999. *)
Definition shared_store : store :=
  list_to_map ((fun v => (v, mkObj REDIS_STRING ENC_INT 1 (PLong v))) <$> seqZ 0 10000).

Lemma shared_store_ok o ob : o < 0 -> shared_ok id (<[o := ob]> shared_store).
Proof.
  intros Ho v Hv. exists 1. split; [|cint]. unfold id.
  rewrite lookup_insert_ne by lia. unfold shared_store. apply elem_of_list_to_map_1.
  - rewrite <- list_fmap_compose. change (fst ∘ _) with (id : Z -> Z).
    rewrite list_fmap_id. apply NoDup_seqZ.
  - apply (list_elem_of_fmap_2 (fun v => (v, mkObj REDIS_STRING ENC_INT 1 (PLong v)))).
    by apply elem_of_seqZ.
Qed.

(** The string "12" with room to spare, not referenced elsewhere. *)
Definition a_string : robj :=
  mkObj REDIS_STRING ENC_RAW 1 (PSds (mkSds 2 3 [49; 50; 0; 7; 7; 7])).

Lemma a_string_rep : string_rep a_string [49; 50].
Proof. split; [done|]. cbn. apply (rep_intro [49; 50] [7; 7; 7] 3); [done|by_decide]. Qed.

Definition fresh_addr (m : store) : Z := fresh (dom m : gset Z).
Lemma fresh_addr_ok m : m !! fresh_addr m = None.
Proof. apply not_elem_of_dom. exact (is_fresh (dom m : gset Z)). Qed.


(** C37: [compareStringObjects] orders string objects by their bytes, whatever
    their encodings, and [equalStringObjects] is equality of the bytes: an
    integer and its decimal notation are the same string. *)
Theorem string_objects_compare (junk : nat -> Z) (h : store) (a b : Z) (x y : list Z)
    (Ha : live h a x) (Hb : live h b y) (Hx : zlen x < 2 ^ 31) (Hy : zlen y < 2 ^ 31) :
  (exists c, compareStringObjects junk h a b = Some c /\ (c ?= 0) = lex x y) /\
  equalStringObjects junk h a b = Some (bool_decide (x = y)) /\
  exists ob, h !! a = Some ob /\ stringObjectLen junk ob = Some (zlen x).
Proof.
  destruct Ha as (oa & Ha & Hra & _), Hb as (ob & Hb & Hrb & _).
  assert (Hcmp : exists c, compareStringObjects junk h a b = Some c /\ (c ?= 0) = lex x y).
  { unfold compareStringObjects. rewrite Ha, Hb. step.
    rewrite (is_string_rep oa x Hra), (is_string_rep ob y Hrb). cbn [andb negb].
    destruct (Z.eqb_spec a b) as [->|_]; [|by apply compare_contents_spec].
    exists 0. split; [done|]. rewrite Ha in Hb. injection Hb as <-.
    rewrite (string_rep_inj oa x y Hra Hrb). by rewrite (proj2 (lex_eq y y)). }
  split; [done|]. split.
  - unfold equalStringObjects. rewrite Ha, Hb. step. by apply equal_contents_spec.
  - exists oa. split; [done|]. by apply stringObjectLen_spec.
Qed.

Lemma string_objects_compare_witness :
  let h : store := {[ 1 := a_string; 2 := mkObj REDIS_STRING ENC_INT 1 (PLong 12) ]} in
  equalStringObjects (fun _ => 7) h 1 2 = Some true.
Proof.
  intros h.
  assert (H1 : live h 1 [49; 50])
    by (exists a_string; split; [reflexivity|]; split; [apply a_string_rep|cbn; lia]).
  assert (H2 : live h 2 [49; 50]).
  { eexists. split; [reflexivity|]. split; [|cbn; lia]. split; [done|]. split; [cint|done]. }
  destruct (string_objects_compare (fun _ => 7) h 1 2 _ _ H1 H2 ltac:(done) ltac:(done))
    as (_ & H & _). exact H.
Defined.

(** C38: [getLongLongFromObject] is total on string objects and accepts exactly
    an optional sign and decimal digits in range (leading zeros included), on the
    bytes before the first NUL; the empty string is zero, and what follows an
    embedded NUL is ignored. *)
Theorem getLongLongFromObject_exact (ob : robj) (bs : list Z) (Hob : string_rep ob bs) :
  getLongLongFromObject (Some ob) = Some (atoll (until_zero bs)) /\
  getLongFromObject (Some ob) = getLongLongFromObject (Some ob).
Proof.
  pose proof (getLongLong_value ob bs Hob) as H. split; [done|].
  unfold getLongFromObject. rewrite H. step. f_equal.
  destruct (atoll (until_zero bs)) as [v|] eqn:E; [|done]. apply atoll_bound in E.
  unfold LLONG_MIN, LLONG_MAX.
  destruct (Z.ltb_spec v (- 2 ^ 63)); [cint|]. destruct (Z.ltb_spec (2 ^ 63 - 1) v); [cint|done].
Qed.

Lemma getLongLongFromObject_exact_witness :
  getLongLongFromObject (Some a_string) = Some (Some 12) /\
  getLongLongFromObject (Some (mkObj REDIS_STRING ENC_EMBSTR 1
    (PSds (mkSds 6 0 [43; 48; 55; 0; 120; 121; 0])))) = Some (Some 7).
Proof.
  split.
  - apply (getLongLongFromObject_exact a_string [49; 50] a_string_rep).
  - apply (getLongLongFromObject_exact _ [43; 48; 55; 0; 120; 121]).
    split; [done|]. split; [|done]. apply (rep_intro [43; 48; 55; 0; 120; 121] [] 0); [done|by_decide].
Defined.
