(* ===== verification/Zset.v ===== *)
(** The contract of the skip list towards the sorted sets: the list of its
    (score, member) pairs read through the pointers, ranks, score ranges,
    lexicographic ranges and the deletion of ranges, with string objects as
    members. *)
From stdpp Require Import sets gmap list sorting.
From S2P Require Import Prelude Util Sds Object Skiplist SkipRep SkipOps SkipSpec SkipRange.
Local Open Scope c_scope.

Section Zset.
Context {T M : Type} `{HS : Score T} `{HM : Member M}.
Notation znode := (@znode T M).
Notation zheap := (@zheap T M).
Notation elem := (@elem T M).

(** ** Reading the list through its pointers *)

Fixpoint read_forward (fuel : nat) (h : zheap) (p : option Z) : option (list (T * M)) :=
  match p, fuel with
  | None, _ => Some []
  | Some _, O => None
  | Some x, S fuel =>
      q ← pair_at h x; '(f, _) ← lvl h x 0; l ← read_forward fuel h f; Some (q :: l)
  end.

Fixpoint read_backward (fuel : nat) (h : zheap) (p : option Z) : option (list (T * M)) :=
  match p, fuel with
  | None, _ => Some []
  | Some _, O => None
  | Some x, S fuel =>
      q ← pair_at h x; n ← zh h !! x; l ← read_backward fuel h (zn_backward n); Some (q :: l)
  end.

(** What a client sees: the pairs from the header and from the tail. *)
Definition reads (h : zheap) (z : zskiplist) (l : list (T * M)) : Prop :=
  zsl_length z = zlen l /\
  (exists f s, lvl h (zsl_header z) 0 = Some (f, s) /\ read_forward (length l) h f = Some l) /\
  read_backward (length l) h (zsl_tail z) = Some (reverse l).

Lemma read_forward_spec h z L E : rep h z L E ->
  forall c a, E = a ++ c -> read_forward (length c) h (e_loc <$> head c) = Some (pairs c).
Proof.
  intros R. induction c as [|e c IH]; intros a HE; [done|].
  cbn [read_forward length head fmap option_fmap option_map].
  assert (Hin : e ∈ E) by (rewrite HE; apply elem_of_app; right; by left).
  rewrite (pair_at_elem h z L E e R Hin). step.
  pose proof R as R'. rewrite HE in R'. change 0 with (Z.of_nat 0).
  pose proof (heights_all _ _ _ _ R) as Hh.
  rewrite (lvl_e h z L a e c R') by (specialize (Hh e Hin); lia).
  pose proof (fwd_0 c) as Hf0. destruct (fwd 0 c) as [f s]. cbn [fst] in Hf0.
  rewrite Hf0 by (intros y Hy; apply Hh; rewrite HE; apply elem_of_app; right; by right).
  step. rewrite (IH (a ++ [e])) by (by rewrite <- app_assoc). done.
Qed.

Lemma read_backward_spec h z L E : rep h z L E ->
  forall a c, E = a ++ c -> read_backward (length a) h (back a) = Some (reverse (pairs a)).
Proof.
  intros R. induction a as [|e a IH] using rev_ind; intros c HE; [done|].
  assert (Hin : e ∈ E) by (rewrite HE; apply elem_of_app; left; apply elem_of_app; right; by left).
  unfold back. rewrite last_snoc, length_app, Nat.add_1_r.
  cbn [read_backward fmap option_fmap option_map].
  rewrite (pair_at_elem h z L E e R Hin). step.
  pose proof R as R'. rewrite HE, <- app_assoc in R'.
  pose proof (node_e h z L a e c R') as Hn. unfold node_ok in Hn. rewrite Hn. step.
  cbn [zn_backward]. rewrite (IH ([e] ++ c)) by (by rewrite HE, <- app_assoc).
  step. unfold pairs. rewrite fmap_app, reverse_app. done.
Qed.

Lemma holds_reads h z d0 l : holds h z d0 l -> reads h z l.
Proof.
  intros (L & E & R & <- & _ & _). destruct (r_length _ _ _ _ R) as [Hlen _].
  unfold reads. assert (Hl : length (pairs E) = length E) by (unfold pairs; apply length_fmap).
  rewrite Hl. split; [unfold pairs; by rewrite zlen_fmap|]. split.
  - destruct (next_pos h z L [] E R) as [sp Hsp]. cbn [app length pos_loc] in Hsp.
    exists (e_loc <$> head E), sp. split; [done|]. by apply (read_forward_spec h z L E R E []).
  - rewrite (r_tail _ _ _ _ R). apply (read_backward_spec h z L E R E []). by rewrite app_nil_r.
Qed.

(** The empty list, and its release. *)
Lemma create_holds junk h x : zh h !! x = None ->
  exists h' z, zslCreate junk h x = Some (h', z) /\ holds h' z (dom (zh h)) [] /\
    dropped h' = dropped h.
Proof.
  intros Hx. destruct (zslCreate_spec junk h x Hx) as (h' & z & -> & R & Hhd & Hd & Hdom & _).
  exists h', z. split; [done|]. split; [|done]. exists 1%nat, []. split; [done|]. split; [done|].
  split; [constructor|]. rewrite Hhd, Hdom. apply not_elem_of_dom in Hx. cbn. split; set_solver.
Qed.

Lemma free_holds h z d0 l : holds h z d0 l ->
  exists h', zslFree h z = Some h' /\ dom (zh h') = d0 /\ dropped h' = dropped h ++ (snd <$> l).
Proof.
  intros (L & E & R & <- & _ & Hdom & Hdis).
  destruct (zslFree_spec h z L E R) as (h' & -> & Hd & Hdom').
  exists h'. split; [done|]. rewrite snd_pairs. split; [|done]. rewrite Hdom', Hdom. set_solver.
Qed.

(** ** Ranks *)

(** Members are distinct, as the hash table of the sorted set makes them. *)
Definition distinct (l : list (T * M)) : Prop := NoDup ((fun p => key (snd p)) <$> l).

Lemma last_is_cut a (e : elem) o :
  last_is o (a ++ [e]) = bool_decide (key (e_obj e) = key o).
Proof. unfold last_is. by rewrite last_snoc. Qed.

Lemma distinct_lookup E q q' (e e' : elem) :
  distinct (pairs E) -> E !! q = Some e -> E !! q' = Some e' -> key (e_obj e) = key (e_obj e') ->
  q = q'.
Proof.
  intros Hd Hq Hq' Hk. unfold distinct, pairs in Hd. rewrite <- list_fmap_compose in Hd.
  eapply (NoDup_lookup _ q q'); [exact Hd| |].
  - rewrite list_lookup_fmap, Hq. reflexivity.
  - rewrite list_lookup_fmap, Hq'. cbn. by rewrite Hk.
Qed.

Lemma ordered_lookup E q i (y e : elem) :
  ordered (pairs E) -> E !! q = Some y -> E !! i = Some e -> (q < i)%nat ->
  ecmp (e_score y, e_obj y) (e_score e, e_obj e) = Lt.
Proof.
  intros Ho Hq Hi Hlt. rewrite <- (take_drop i E), pairs_app in Ho.
  apply ordered_app in Ho as (_ & _ & H). apply H; apply (list_elem_of_fmap_2 pr).
  - apply list_elem_of_lookup. exists q. by rewrite lookup_take_lt.
  - apply list_elem_of_lookup. exists 0%nat. by rewrite lookup_drop, Nat.add_0_r.
Qed.

Lemma ecmp_refl (p : T * M) : ecmp p p = Eq.
Proof. pose proof (ecmp_antisym p p) as H. by destruct (ecmp p p). Qed.

Lemma rank_present h z d0 l i s o o' :
  holds h z d0 l -> distinct l -> l !! i = Some (s, o') -> key o' = key o ->
  zslGetRank h z s o = Some (Z.of_nat i + 1).
Proof.
  intros (L & E & R & <- & Ho & _) Hd Hi Hk.
  unfold pairs in Hi. rewrite list_lookup_fmap in Hi.
  destruct (E !! i) as [e|] eqn:He; [|done]. injection Hi as <- <-.
  pose proof (take_drop_middle E i e He) as HE.
  pose proof (lookup_lt_Some _ _ _ He) as Hlt.
  assert (Hlen : length (take i E ++ [e]) = S i)
    by (rewrite length_app, length_take; simpl; lia).
  assert (Hcmp : forall q (y : elem), E !! q = Some y ->
    atmost (e_score e, o) (e_score y, e_obj y) = bool_decide (q <= i)%nat).
  { intros q y Hy. unfold atmost.
    assert (Hsame : ecmp (e_score y, e_obj y) (e_score e, o) =
                    ecmp (e_score y, e_obj y) (e_score e, e_obj e))
      by (unfold ecmp; cbn [fst snd]; by rewrite Hk).
    rewrite Hsame. destruct (lt_eq_lt_dec q i) as [[Hq|Hq]|Hq].
    - rewrite (ordered_lookup E q i y e) by done. by rewrite bool_decide_true by lia.
    - subst q. rewrite He in Hy. injection Hy as ->.
      rewrite bool_decide_true by lia. by rewrite ecmp_refl.
    - rewrite (ecmp_antisym (e_score e, e_obj e)), (ordered_lookup E i q e y) by done.
      by rewrite bool_decide_false by lia. }
  rewrite (zslGetRank_spec h z L E R (e_score e) o (take i E ++ [e]) (drop (S i) E)).
  - rewrite last_is_cut, bool_decide_true by done. unfold zlen. rewrite Hlen. f_equal. lia.
  - by rewrite <- app_assoc.
  - apply Forall_lookup. intros q y Hy. rewrite (Hcmp q).
    + apply bool_decide_true. apply lookup_lt_Some in Hy. lia.
    + rewrite <- HE. replace (take i E ++ e :: drop (S i) E)
        with ((take i E ++ [e]) ++ drop (S i) E) by (by rewrite <- app_assoc).
      by apply lookup_app_l_Some.
  - apply Forall_lookup. intros q y Hy. rewrite lookup_drop in Hy. rewrite (Hcmp (S i + q)%nat) by done.
    apply bool_decide_false. lia.
  - intros q y Hy Hky. rewrite Hlen. f_equal. apply (distinct_lookup E q i y e); [done..|congruence].
Qed.

Lemma rank_absent h z d0 l s o :
  holds h z d0 l -> (forall p, p ∈ l -> key (snd p) <> key o) -> zslGetRank h z s o = Some 0.
Proof.
  intros (L & E & R & <- & Ho & _) Hn.
  destruct (ordered_cut (atmost (s, o)) E (atmost_down _ _) Ho) as (a & c & HE & Ha & Hc).
  assert (Hk : forall e, e ∈ E -> key (e_obj e) <> key o).
  { intros e He. apply (Hn (pr e)). by apply (list_elem_of_fmap_2 pr). }
  rewrite (zslGetRank_spec h z L E R s o a c HE Ha Hc).
  - unfold last_is. destruct (last a) as [e|] eqn:El; [|done].
    rewrite bool_decide_false; [done|]. apply Hk. rewrite HE. apply elem_of_app. left.
    apply last_Some in El as [a' ->]. apply elem_of_app. right. by left.
  - intros q e He Hke. exfalso. apply (Hk e); [|done]. apply list_elem_of_lookup. by exists q.
Qed.

Lemma element_by_rank h z d0 l r :
  holds h z d0 l -> 1 <= r < 2 ^ 64 ->
  exists p, zslGetElementByRank h z r = Some p /\ (p ≫= pair_at h) = znth l (r - 1).
Proof.
  intros (L & E & R & <- & Ho & _) Hr.
  rewrite (zslGetElementByRank_spec h z L E R r) by lia. unfold znth.
  rewrite decide_True by lia. unfold pairs. rewrite list_lookup_fmap.
  destruct (Z.leb_spec r (zlen E)) as [Hle|Hgt].
  - eexists. split; [done|]. cbn. replace (Z.to_nat r) with (S (Z.to_nat (r - 1))) by lia. cbn.
    destruct (lookup_lt_is_Some_2 E (Z.to_nat (r - 1))) as [e He]; [unfold zlen in *; lia|].
    rewrite He. apply (pair_at_elem h z L E); [done|]. apply list_elem_of_lookup. by eexists.
  - exists None. split; [done|]. rewrite lookup_ge_None_2; [done|]. unfold zlen in *. lia.
Qed.

(** ** Score ranges *)

Definition in_scores (range : zrangespec) (p : T * M) : Prop :=
  between (fun p => zslValueGteMin (fst p) range) (fun p => zslValueLteMax (fst p) range) p.
#[export] Instance in_scores_dec range p : Decision (in_scores range p).
Proof. unfold in_scores, between. apply _. Defined.

Lemma ecmp_score p q : ecmp p q = Lt -> sc_cmp (fst p) (fst q) <> Gt.
Proof. unfold ecmp. by destruct (sc_cmp _ _). Qed.

(** The comparison of a score with a bound is monotone in the score. *)
Lemma cmp_mono_r (a b c : T) : sc_cmp b c <> Gt ->
  match sc_cmp a b with
  | Lt => sc_cmp a c = Lt
  | Eq => sc_cmp a c = sc_cmp b c
  | Gt => True
  end.
Proof.
  intros Hbc. destruct (sc_cmp a b) eqn:Eab; [by apply sc_eq_l| |done].
  destruct (sc_cmp b c) eqn:Ebc; [|by eapply sc_lt_trans|done].
  by rewrite <- (sc_eq_r b c a Ebc).
Qed.

Lemma gte_down range l : down l (fun p => negb (zslValueGteMin (fst p) range)).
Proof.
  intros p q _ _ Hpq. unfold zslValueGteMin, slt, sle.
  pose proof (cmp_mono_r (rg_min range) (fst p) (fst q) (ecmp_score p q Hpq)) as H.
  pose proof (ecmp_score p q Hpq) as H'.
  destruct (rg_minex range), (sc_cmp (rg_min range) (fst p)) eqn:Ep; try done;
    rewrite H; by destruct (sc_cmp (fst p) (fst q)).
Qed.

Lemma lte_down range l : down l (fun p => zslValueLteMax (fst p) range).
Proof.
  intros p q _ _ Hpq. unfold zslValueLteMax, slt, sle.
  pose proof (ecmp_score p q Hpq) as H'.
  assert (H : sc_cmp (rg_max range) (fst q) = CompOpp (sc_cmp (fst q) (rg_max range)))
    by apply sc_antisym.
  pose proof (sc_antisym (fst p) (fst q)) as Hqp.
  pose proof (sc_antisym (fst p) (rg_max range)) as Hpm.
  pose proof (cmp_mono_r (rg_max range) (fst p) (fst q) H') as Hm.
  rewrite H, Hpm in Hm.
  destruct (rg_maxex range), (sc_cmp (fst p) (rg_max range)), (sc_cmp (fst q) (rg_max range));
    cbn in Hm; done.
Qed.

(** The range [zslIsInRange] rejects at once holds nothing. *)
Lemma empty_scores range l :
  slt (rg_max range) (rg_min range) ||
  (seq_ (rg_min range) (rg_max range) && (rg_minex range || rg_maxex range)) = true ->
  filter (in_scores range) l = [].
Proof.
  intros He. apply filter_none, Forall_forall. intros p _ Hp.
  unfold in_scores, between in Hp. apply andb_true_iff in Hp as [Hg Hu].
  unfold zslValueGteMin, zslValueLteMax, slt, sle, seq_ in *.
  pose proof (cmp_mono_r (rg_min range) (fst p) (rg_max range)) as Hm.
  rewrite (sc_antisym (rg_min range) (rg_max range)) in He.
  destruct (rg_minex range), (rg_maxex range), (sc_cmp (rg_min range) (fst p)),
    (sc_cmp (fst p) (rg_max range)), (sc_cmp (rg_min range) (rg_max range));
    cbn in *; try done; specialize (Hm ltac:(done)); done.
Qed.

Lemma score_ends h z d0 l range : holds h z d0 l ->
  exists f g, zslFirstInRange h z range = Some f /\ zslLastInRange h z range = Some g /\
    (f ≫= pair_at h) = head (filter (in_scores range) l) /\
    (g ≫= pair_at h) = last (filter (in_scores range) l).
Proof.
  intros Hl. unfold zslFirstInRange, zslLastInRange, zslIsInRange.
  apply (ends_of (fun p => zslValueGteMin (fst p) range) (fun p => zslValueLteMax (fst p) range)
    (score_gte range) (score_lte range)
    ltac:(by intros nd s o <- _) ltac:(by intros nd s o <- _) h z d0 l Hl
    (gte_down range l) (lte_down range l)).
  apply empty_scores.
Qed.

Lemma score_delete {D} (dictDelete : D -> M -> option D) h z d0 l range d d' :
  holds h z d0 l ->
  dict_del_all dictDelete d (snd <$> filter (in_scores range) l) = Some d' ->
  exists h' z', zslDeleteRangeByScore dictDelete h z range d =
      Some (h', z', d', zlen (filter (in_scores range) l)) /\
    holds h' z' d0 (filter (fun p => ~ in_scores range p) l) /\
    dropped h' = dropped h ++ (snd <$> filter (in_scores range) l).
Proof.
  intros Hl Hd.
  apply (delete_range_step (fun p => zslValueGteMin (fst p) range)
    (fun p => zslValueLteMax (fst p) range) h z d0 l Hl (gte_down range l) (lte_down range l));
    [| |exact Hd].
  - intros r sp nd s o <- _. f_equal. cbn [fst]. unfold zslValueGteMin, slt, sle.
    rewrite (sc_antisym (zn_score nd) (rg_min range)).
    by destruct (rg_minex range), (sc_cmp (zn_score nd) (rg_min range)).
  - by intros r nd s o <- _.
Qed.

(** ** Lexicographic ranges *)

Definition in_lex (range : zlexrangespec) (p : T * M) : Prop :=
  between (fun p => zslLexValueGteMin (snd p) range) (fun p => zslLexValueLteMax (snd p) range) p.
#[export] Instance in_lex_dec range p : Decision (in_lex range p).
Proof. unfold in_lex, between. apply _. Defined.

(** Lexicographic ranges are for sorted sets with one score. *)
Definition one_score (l : list (T * M)) : Prop :=
  forall p q, p ∈ l -> q ∈ l -> sc_cmp (fst p) (fst q) = Eq.

Lemma one_score_lex l p q : one_score l -> p ∈ l -> q ∈ l -> ecmp p q = Lt ->
  lex (key (snd p)) (key (snd q)) = Lt.
Proof. intros H Hp Hq. unfold ecmp. by rewrite H. Qed.

(** The tests against a bound, on the bytes. *)
Lemma gte_lex v range : zslLexValueGteMin v range =
  match lx_min range with
  | MinString => true
  | MaxString => false
  | LexObj o => match lex (key v) (key o) with
                | Lt => false | Eq => negb (lx_minex range) | Gt => true
                end
  end.
Proof.
  unfold zslLexValueGteMin, compareStringObjectsForLexRange.
  destruct (lx_min range) as [| |o]; [by destruct (lx_minex range)..|].
  rewrite <- compare_key. destruct (lx_minex range).
  - unfold Z.ltb. rewrite Z.compare_antisym. by destruct (_ ?= 0).
  - unfold Z.leb. rewrite Z.compare_antisym. by destruct (_ ?= 0).
Qed.

Lemma lte_lex v range : zslLexValueLteMax v range =
  match lx_max range with
  | MinString => false
  | MaxString => true
  | LexObj o => match lex (key v) (key o) with
                | Gt => false | Eq => negb (lx_maxex range) | Lt => true
                end
  end.
Proof.
  unfold zslLexValueLteMax, compareStringObjectsForLexRange.
  destruct (lx_max range) as [| |o]; [by destruct (lx_maxex range)..|].
  rewrite <- compare_key. destruct (lx_maxex range).
  - unfold Z.ltb. by destruct (_ ?= 0).
  - unfold Z.leb. by destruct (_ ?= 0).
Qed.

Lemma lex_lt_r a b c : lex a b = Lt -> lex b c <> Gt -> lex a c = Lt.
Proof.
  intros H1 H2. destruct (lex b c) eqn:E; [|by eapply lex_trans|done].
  apply lex_eq in E as ->. done.
Qed.

Lemma gte_lex_down range l :
  one_score l -> down l (fun p => negb (zslLexValueGteMin (snd p) range)).
Proof.
  intros Hone p q Hp Hq Hpq. pose proof (one_score_lex l p q Hone Hp Hq Hpq) as Hlt.
  rewrite !gte_lex. destruct (lx_min range) as [| |o]; try done.
  pose proof (lex_lt_r (key (snd p)) (key (snd q)) (key o) Hlt) as Ht.
  destruct (lex (key (snd q)) (key o)); try done; by rewrite Ht.
Qed.

Lemma lte_lex_down range l : one_score l -> down l (fun p => zslLexValueLteMax (snd p) range).
Proof.
  intros Hone p q Hp Hq Hpq. pose proof (one_score_lex l p q Hone Hp Hq Hpq) as Hlt.
  rewrite !lte_lex. destruct (lx_max range) as [| |o]; try done.
  pose proof (lex_lt_r (key (snd p)) (key (snd q)) (key o) Hlt) as Ht.
  destruct (lex (key (snd q)) (key o)); try done; by rewrite Ht.
Qed.

(** The ranges the parser delivers exclude no shared end. *)
Lemma parse_excludes mn mx range : zslParseLexRange mn mx = Some (Some range) ->
  (lx_minex range = true -> exists o, lx_min range = LexObj o) /\
  (lx_maxex range = true -> exists o, lx_max range = LexObj o).
Proof.
  unfold zslParseLexRange.
  assert (Hitem : forall m b ex, zslParseLexRangeItem m = Some (Some (b, ex)) ->
    ex = true -> exists o, b = LexObj o).
  { intros m b ex. unfold zslParseLexRangeItem. destruct (sds_ptr m) as [c|]; [|done]. step.
    destruct (znth (c ++ [0]) 0) as [c0|]; [|done]. step.
    destruct (c0 =? 43), (c0 =? 45); try (destruct (znth (c ++ [0]) 1) as [c1|]; [|done]; step;
      destruct (c1 =? 0); intros [= <- <-]; done).
    destruct (c0 =? 40); [intros [= <- <-] _; by eexists|].
    destruct (c0 =? 91); [intros [= <- <-]; done|done]. }
  destruct (sds_ptr mn) as [?|]; [|done]. destruct (sds_ptr mx) as [?|]; [|done].
  destruct (zslParseLexRangeItem mn) as [[[a ea]|]|] eqn:Ea; try done. step.
  destruct (zslParseLexRangeItem mx) as [[[b eb]|]|] eqn:Eb; try done. step.
  intros [= <-]. cbn. split; [by apply (Hitem mn)|by apply (Hitem mx)].
Qed.

(** The two ranges the early test gets wrong: an own bound spelled like the
    shared object at the other end. *)
Definition clash (range : zlexrangespec) : Prop :=
  match lx_min range, lx_max range with
  | MinString, LexObj o => key o = bytes_of "minstring"
  | LexObj o, MaxString => key o = bytes_of "maxstring"
  | _, _ => False
  end.

Lemma key_shared (s : string) : zlen (bytes_of s) < 2 ^ 31 ->
  key (createStringObject (bytes_of s)) = bytes_of s.
Proof. apply create_key. Qed.

Lemma compare_zero a b : (compareStringObjects a b =? 0) = bool_decide (key a = key b).
Proof.
  pose proof (compare_key a b) as H. destruct (Z.eqb_spec (compareStringObjects a b) 0) as [E|E].
  - rewrite E in H. symmetry in H. apply lex_eq in H. by rewrite bool_decide_true.
  - rewrite bool_decide_false; [done|]. intros Hk. rewrite Hk, (proj2 (lex_eq _ _) eq_refl) in H.
    by apply Z.compare_eq_iff in H.
Qed.

Lemma empty_lex range l :
  (lx_minex range = true -> exists o, lx_min range = LexObj o) ->
  (lx_maxex range = true -> exists o, lx_max range = LexObj o) -> ~ clash range ->
  (1 <? compareStringObjectsForLexRange (lx_min range) (lx_max range)) ||
  ((compareStringObjects (lex_robj (lx_min range)) (lex_robj (lx_max range)) =? 0) &&
   (lx_minex range || lx_maxex range)) = true ->
  filter (in_lex range) l = [].
Proof.
  intros Hmn Hmx Hcl He. apply filter_none, Forall_forall. intros [s v] _ Hp.
  unfold in_lex, between in Hp. apply andb_true_iff in Hp as [Hg Hu]. cbn [snd] in *.
  rewrite gte_lex in Hg. rewrite lte_lex in Hu. rewrite compare_zero in He. unfold clash in Hcl.
  destruct range as [mn mx minex maxex]. cbn [lx_min lx_max lx_minex lx_maxex] in *.
  destruct mn as [| |a]; try done; destruct mx as [| |b]; try done; cbn in He.
  - unfold minstring, maxstring in He. rewrite !key_shared, bool_decide_false in He by done. done.
  - unfold minstring in He. rewrite key_shared, bool_decide_false in He; [done| |done].
    intros Heq. by apply Hcl.
  - unfold maxstring in He. rewrite key_shared, bool_decide_false in He; [done|done|done].
  - apply orb_true_iff in He as [He|[Hk Hex]%andb_true_iff].
    + assert (Hgt : lex (key a) (key b) = Gt).
      { rewrite <- compare_key. apply Z.compare_gt_iff. lia. }
      assert (Hba : lex (key b) (key a) = Lt) by (by rewrite lex_antisym, Hgt).
      destruct (lex (key v) (key b)) eqn:Eb; try done.
      * apply lex_eq in Eb. rewrite Eb, Hba in Hg. done.
      * rewrite (lex_trans _ _ _ Eb Hba) in Hg. done.
    + apply bool_decide_eq_true in Hk. rewrite Hk in Hg.
      destruct (lex (key v) (key b)); try done. by destruct minex, maxex.
Qed.

Lemma lex_ends h z d0 l mn mx range :
  holds h z d0 l -> one_score l -> zslParseLexRange mn mx = Some (Some range) -> ~ clash range ->
  exists f g, zslFirstInLexRange h z range = Some f /\ zslLastInLexRange h z range = Some g /\
    (f ≫= pair_at h) = head (filter (in_lex range) l) /\
    (g ≫= pair_at h) = last (filter (in_lex range) l).
Proof.
  intros Hl Hone Hparse Hcl. destruct (parse_excludes mn mx range Hparse) as [Hmn Hmx].
  unfold zslFirstInLexRange, zslLastInLexRange, zslIsInLexRange.
  apply (ends_of (fun p => zslLexValueGteMin (snd p) range) (fun p => zslLexValueLteMax (snd p) range)
    (lex_gte range) (lex_lte range)
    ltac:(intros nd s o _ Hs; unfold lex_gte; by rewrite Hs)
    ltac:(intros nd s o _ Hs; unfold lex_lte; by rewrite Hs) h z d0 l Hl
    (gte_lex_down range l Hone) (lte_lex_down range l Hone)).
  by apply empty_lex.
Qed.

Lemma lex_delete {D} (dictDelete : D -> M -> option D) h z d0 l range d d' :
  holds h z d0 l -> one_score l ->
  dict_del_all dictDelete d (snd <$> filter (in_lex range) l) = Some d' ->
  exists h' z', zslDeleteRangeByLex dictDelete h z range d =
      Some (h', z', d', zlen (filter (in_lex range) l)) /\
    holds h' z' d0 (filter (fun p => ~ in_lex range p) l) /\
    dropped h' = dropped h ++ (snd <$> filter (in_lex range) l).
Proof.
  intros Hl Hone Hd.
  apply (delete_range_step (fun p => zslLexValueGteMin (snd p) range)
    (fun p => zslLexValueLteMax (snd p) range) h z d0 l Hl (gte_lex_down range l Hone)
    (lte_lex_down range l Hone)); [| |exact Hd].
  - intros r sp nd s o _ Hs. unfold lex_gte. by rewrite Hs.
  - intros r nd s o _ Hs. unfold lex_lte. by rewrite Hs.
Qed.

(** ** Deletion by rank *)

Lemma rank_delete {D} (dictDelete : D -> M -> option D) h z d0 l start last d d' :
  holds h z d0 l -> 1 <= start < 2 ^ 64 -> 0 <= last < 2 ^ 64 ->
  let gone := take (Z.to_nat (last - start + 1)) (drop (Z.to_nat (start - 1)) l) in
  dict_del_all dictDelete d (snd <$> gone) = Some d' ->
  exists h' z', zslDeleteRangeByRank dictDelete h z start last d = Some (h', z', d', zlen gone) /\
    holds h' z' d0 (take (Z.to_nat (start - 1)) l ++ drop (Z.to_nat (start - 1) + length gone) l) /\
    dropped h' = dropped h ++ (snd <$> gone).
Proof.
  intros Hl Hs Hlast gone Hd. destruct Hl as (L & E & R & HE & Ho & Hdom & Hdis).
  set (a := take (Z.to_nat (start - 1)) E). set (b := drop (Z.to_nat (start - 1)) E).
  set (m := take (Z.to_nat (last - start + 1)) b). set (c := drop (Z.to_nat (last - start + 1)) b).
  assert (EE : E = a ++ m ++ c) by (unfold m, c, a, b; by rewrite !take_drop).
  assert (Hg : gone = pairs m).
  { unfold gone, m, b. rewrite <- HE. unfold pairs. by rewrite fmap_take, fmap_drop. }
  assert (Hrest : take (Z.to_nat (start - 1)) l ++ drop (Z.to_nat (start - 1) + length gone) l =
    pairs (a ++ c)).
  { rewrite pairs_app, <- drop_drop, <- HE, Hg. unfold pairs, a.
    rewrite fmap_take, length_fmap, <- fmap_drop. fold b.
    rewrite <- fmap_drop. do 2 f_equal.
    unfold c, m. rewrite length_take. destruct (decide (Z.to_nat (last - start + 1) <= length b)%nat).
    - by rewrite Nat.min_l.
    - rewrite Nat.min_r by lia. by rewrite !drop_ge by lia. }
  rewrite Hrest, Hg, snd_pairs in *.
  assert (Hla : length a = Nat.min (Z.to_nat (start - 1)) (length E)) by apply length_take.
  assert (Hlm : length m = Nat.min (Z.to_nat (last - start + 1)) (length b)) by apply length_take.
  destruct (r_length _ _ _ _ R) as [_ Hlt]. unfold zlen in Hlt.
  pose proof R as R'. rewrite EE in R'. rewrite EE in Hdom, Hdis.
  assert (Hb : length b = (length E - Z.to_nat (start - 1))%nat) by apply length_drop.
  assert (Hlc : length c = (length b - Z.to_nat (last - start + 1))%nat) by apply length_drop.
  destruct (delete_from_spec dictDelete (fun r sp _ => Some (r +[64] sp <? start))
    (fun r _ => Some (r <=? last)) h z L a m c d0 d d') as
    (h' & z' & E' & [L' R''] & [Hdom' Hdis'] & Hd'); [done|done| | | |done|].
  - intros n k e He Hn Hk nd _ _. f_equal. rewrite <- EE in He. apply lookup_lt_Some in He.
    rewrite u64_id by (unfold in_u; lia). rewrite Hla.
    destruct (Z.ltb_spec (Z.of_nat n + Z.of_nat (k + 1 - n)) start);
      [rewrite bool_decide_true by lia|rewrite bool_decide_false by lia]; done.
  - intros i e nd Hi _ _. f_equal. apply lookup_lt_Some in Hi. apply Z.leb_le. unfold zlen. lia.
  - intros e nd Hi _ _. f_equal. apply Z.leb_gt. unfold zlen.
    assert (0 < length c)%nat by (destruct c; [done|simpl; lia]). lia.
  - exists h', z'. unfold pairs at 1. rewrite zlen_fmap. split; [exact E'|]. split; [|done].
    exists L', (a ++ c). split; [done|]. split; [done|]. split; [|done].
    rewrite <- HE, EE, !pairs_app in Ho. rewrite pairs_app.
    apply ordered_app in Ho as (Ho1 & Ho2 & Ho3). apply ordered_app in Ho2 as (_ & Ho2 & _).
    apply ordered_app. split; [done|]. split; [done|]. intros p q Hp Hq.
    apply Ho3; [done|]. apply elem_of_app. by right.
Qed.
End Zset.

(** ** String objects as members *)

(** A string object short enough for the [int] that a comparison returns. *)
Definition member : Type := { ob : robj | exists bs, string_rep ob bs /\ zlen bs < 2 ^ 31 }.

Section Members.
Context (junk : nat -> Z).

(** What [createStringObject] returns for bytes that fit. *)
Definition new_string (bs : list Z) : robj :=
  let bs := if decide (zlen bs < 2 ^ 31) then bs else [] in
  mkObj REDIS_STRING
    (if zlen bs <=? REDIS_ENCODING_EMBSTR_SIZE_LIMIT then ENC_EMBSTR else ENC_RAW) 1
    (PSds (mkSds (zlen bs) 0 (bs ++ [0]))).

Lemma new_string_rep bs :
  string_rep (new_string bs) (if decide (zlen bs < 2 ^ 31) then bs else []).
Proof.
  unfold new_string. set (k := if decide _ then _ else _).
  assert (Hk : zlen k < 2 ^ 31) by (unfold k; case_decide; [done|done]).
  clearbody k. cbv zeta. split; [done|]. cbn.
  assert (Sds.rep (mkSds (zlen k) 0 (k ++ [0])) k) by (apply (rep_intro k [] 0); [done|lens]).
  by destruct (_ <=? _).
Qed.

Lemma new_string_member bs :
  exists k, string_rep (new_string bs) k /\ zlen k < 2 ^ 31.
Proof. eexists. split; [apply new_string_rep|]. by case_decide. Qed.

#[export] Program Instance obj_member : Member member := {|
  Skiplist.compareStringObjects a b := default 0 (compare_contents junk (proj1_sig a) (proj1_sig b));
  Skiplist.equalStringObjects a b :=
    default false (equal_contents (proj1_sig a) (proj1_sig b)
      (compare_contents junk (proj1_sig a) (proj1_sig b)));
  Skiplist.createStringObject bs := exist _ (new_string bs) (new_string_member bs);
  sds_ptr a := if sdsEncodedObject (proj1_sig a) then Some (obj_bytes junk (proj1_sig a)) else None;
  key a := obj_bytes junk (proj1_sig a) |}.
Next Obligation.
  intros [a (x & Ha & Hx)] [b (y & Hb & Hy)]. cbn [proj1_sig].
  destruct (compare_contents_spec junk a b x y Ha Hb Hx Hy) as (c & -> & Hc). cbn [default].
  by rewrite (obj_bytes_rep junk a x Ha), (obj_bytes_rep junk b y Hb).
Qed.
Next Obligation.
  intros [a (x & Ha & Hx)] [b (y & Hb & Hy)]. cbn [proj1_sig].
  rewrite (equal_contents_spec a b x y) by (done || by apply compare_contents_spec).
  by rewrite (obj_bytes_rep junk a x Ha), (obj_bytes_rep junk b y Hb).
Qed.
Next Obligation.
  intros bs Hbs. cbn [proj1_sig]. rewrite (obj_bytes_rep junk _ _ (new_string_rep bs)).
  by rewrite decide_True.
Qed.
End Members.

(** Integral scores. *)
#[export] Program Instance Z_score : Score Z := {| sc_cmp := Z.compare; sc_zero := 0 |}.
Next Obligation. intros a b. apply Z.compare_antisym. Qed.
Next Obligation. by intros a b c ->%Z.compare_eq. Qed.
Next Obligation. intros a b c. rewrite !Z.compare_lt_iff. lia. Qed.

(** ** Properties *)

Section Properties.
Context {T M : Type} `{HS : Score T} `{HM : Member M}.
Notation znode := (@znode T M).
Notation zheap := (@zheap T M).

(** C6: A skip list created empty and put through any valid sequence of
    insertions and deletions never faults, answers each operation as the ordered
    list of its (score, member) pairs does, reads as that list in both
    directions with its length counted, releases the members it deletes, and
    [zslFree] releases exactly the members left and every node: nothing leaks,
    whatever the random levels and the contents of fresh memory. *)
Theorem zsl_refines_sorted (junk : Z -> option Z * Z) (zmalloc : gmap Z znode -> Z)
    (ops : list zop) (Hfresh : forall m, m !! zmalloc m = None) (Hv : zvalid_all [] ops) :
  let '(l, rs, ds) := zspec_all [] ops in
  exists h0 z0 h z h', zslCreate junk (mkZheap ∅ []) (zmalloc ∅) = Some (h0, z0) /\
    exec_all junk zmalloc h0 z0 ops = Some (h, z, rs) /\
    StronglySorted (fun p q => ecmp p q = Lt) l /\ reads h z l /\
    zslFree h z = Some h' /\ zh h' = ∅ /\ dropped h' = ds ++ (snd <$> l).
Proof.
  destruct (create_holds junk (mkZheap ∅ []) (zmalloc ∅) (Hfresh ∅)) as (h0 & z0 & E0 & H0 & D0).
  destruct (zexec_all_spec junk zmalloc Hfresh ops h0 z0 _ [] H0 Hv) as (h & z & E & Hl & D).
  destruct (zspec_all [] ops) as [[l rs] ds]. cbn [fst snd] in *.
  destruct (free_holds h z _ l Hl) as (h' & Ef & Hdom & Hd).
  exists h0, z0, h, z, h'. split; [done|]. split; [done|]. split; [by destruct Hl as (? & ? & ? & ? & ? & _)|].
  split; [by eapply holds_reads|]. split; [done|]. split.
  - cbn in Hdom. apply dom_empty_iff_L. by rewrite Hdom, dom_empty_L.
  - by rewrite Hd, D, D0.
Qed.

(** C33: Ranks and positions agree: with distinct members, [zslGetRank] of the
    pair at index [i] of the ordered list is [i+1] whatever object denotes the
    member, 0 for a member that is absent, and [zslGetElementByRank r] is the
    node of the pair at index [r-1], NULL past the end. *)
Theorem zsl_ranks (h : zheap) (z : zskiplist) (d0 : gset Z) (l : list (T * M))
    (Hl : holds h z d0 l) (Hd : distinct l) :
  (forall i s o o', l !! i = Some (s, o') -> key o' = key o ->
     zslGetRank h z s o = Some (Z.of_nat i + 1)) /\
  (forall s o, (forall p, p ∈ l -> key (snd p) <> key o) -> zslGetRank h z s o = Some 0) /\
  (forall r, 1 <= r < 2 ^ 64 -> exists p, zslGetElementByRank h z r = Some p /\
     (p ≫= pair_at h) = znth l (r - 1)).
Proof.
  split; [|split].
  - intros i s o o' Hi Hk. by apply (rank_present h z d0 l i s o o').
  - intros s o Hn. by apply (rank_absent h z d0 l).
  - intros r Hr. by apply (element_by_rank h z d0 l).
Qed.

(** C34: The first and last node of a score range are those of the first and
    last pair of the list in the range, NULL when there is none (impossible
    ranges included), and deleting the range leaves exactly the other pairs, in
    order, each removed member taken out of the hash table once and released. *)
Theorem zsl_score_ranges {D : Type} (dictDelete : D -> M -> option D)
    (h : zheap) (z : zskiplist) (d0 : gset Z) (l : list (T * M)) (range : zrangespec) (d d' : D)
    (Hl : holds h z d0 l)
    (Hd : dict_del_all dictDelete d (snd <$> filter (in_scores range) l) = Some d') :
  (exists f g, zslFirstInRange h z range = Some f /\ zslLastInRange h z range = Some g /\
     (f ≫= pair_at h) = head (filter (in_scores range) l) /\
     (g ≫= pair_at h) = last (filter (in_scores range) l)) /\
  exists h' z', zslDeleteRangeByScore dictDelete h z range d =
      Some (h', z', d', zlen (filter (in_scores range) l)) /\
    holds h' z' d0 (filter (fun p => ~ in_scores range p) l) /\
    dropped h' = dropped h ++ (snd <$> filter (in_scores range) l).
Proof. split; [by eapply score_ends|by apply score_delete]. Qed.

(** C35: [zslDeleteRangeByRank start last] removes exactly the pairs at the
    1-based positions [start] to [last] that exist, wherever the two fall. *)
Theorem zsl_delete_by_rank {D : Type} (dictDelete : D -> M -> option D)
    (h : zheap) (z : zskiplist) (d0 : gset Z) (l : list (T * M)) (start last : Z) (d d' : D)
    (Hl : holds h z d0 l) (Hs : 1 <= start < 2 ^ 64) (Hlast : 0 <= last < 2 ^ 64)
    (Hd : let gone := take (Z.to_nat (last - start + 1)) (drop (Z.to_nat (start - 1)) l) in
          dict_del_all dictDelete d (snd <$> gone) = Some d') :
  let gone := take (Z.to_nat (last - start + 1)) (drop (Z.to_nat (start - 1)) l) in
  exists h' z', zslDeleteRangeByRank dictDelete h z start last d = Some (h', z', d', zlen gone) /\
    holds h' z' d0 (take (Z.to_nat (start - 1)) l ++ drop (Z.to_nat (start - 1) + length gone) l) /\
    dropped h' = dropped h ++ (snd <$> gone).
Proof. by apply rank_delete. Qed.


(** The range from [-] to [(minstring] is always reported empty, although
    members below "minstring" are in it: [zslIsInLexRange] compares the bytes of
    the shared object with those of the bound. *)
Theorem zslIsInLexRange_name_clash (h : zheap) (z : zskiplist) (o : M) :
  key o = bytes_of "minstring" ->
  let range := mkLexRange MinString (LexObj o) false true in
  zslIsInLexRange h z range = Some false /\
  (forall (s : T) v, lex (key v) (bytes_of "minstring") = Lt -> in_lex range (s, v)).
Proof.
  intros Ho range. split.
  - unfold zslIsInLexRange, range. cbn [lx_min lx_max lx_minex lx_maxex lex_robj].
    rewrite compare_zero. unfold minstring. rewrite key_shared, bool_decide_true by done. done.
  - intros s v Hv. unfold in_lex, between, range. cbn [snd]. rewrite gte_lex, lte_lex.
    cbn [lx_min lx_max lx_maxex]. by rewrite Ho, Hv.
Qed.
End Properties.

(** ** Witnesses *)

#[export] Instance zvalid_dec {T M} `{Score T} `{Member M} (l : list (T * M)) op :
  Decision (zvalid l op).
Proof. destruct op; simpl; apply _. Defined.

#[export] Instance zvalid_all_dec {T M} `{Score T} `{Member M} (ops : list (@zop T M)) :
  forall l, Decision (zvalid_all l ops).
Proof. induction ops; intros l; simpl; apply _. Defined.

Module Samples.

Definition stack : nat -> Z := fun _ => 7.
Definition nulls : Z -> option Z * Z := fun i => (Some i, 99).
#[local] Instance member_here : Member member := obj_member stack.

Definition str (s : string) : member := exist _ (new_string (bytes_of s)) (new_string_member _).

Definition zmalloc (m : gmap Z (@znode Z member)) : Z := fresh (dom m : gset Z).
Lemma zmalloc_fresh m : m !! zmalloc m = None.
Proof. apply not_elem_of_dom. exact (is_fresh (dom m : gset Z)). Qed.

(** Levels 2, 1 and 3; a deletion that fails and one that succeeds. *)
Definition ops : list (@zop Z member) :=
  [ZInsert 2 (str "b") [16; 65535]; ZInsert 1 (str "c") [65535]; ZDelete 1 (str "b");
   ZInsert 2 (str "a") [0; 1; 65535]; ZInsert 5 (str "z") [65535]; ZDelete 5 (str "z")].

Lemma zsl_refines_sorted_witness :
  exists h0 z0 h z h', zslCreate nulls (mkZheap ∅ []) (zmalloc ∅) = Some (h0, z0) /\
    exec_all nulls zmalloc h0 z0 ops = Some (h, z, [1; 1; 0; 1; 1; 1]) /\
    reads h z [(1, str "c"); (2, str "a"); (2, str "b")] /\
    zslFree h z = Some h' /\ zh h' = ∅ /\
    dropped h' = [str "z"; str "c"; str "a"; str "b"].
Proof.
  assert (Hv : zvalid_all [] ops) by by_decide.
  destruct (zsl_refines_sorted nulls zmalloc ops zmalloc_fresh Hv)
    as (h0 & z0 & h & z & h' & E0 & E & _ & Hr & Ef & He & Hd).
  exists h0, z0, h, z, h'. split; [exact E0|]. split; [exact E|]. split; [exact Hr|].
  split; [exact Ef|]. split; [exact He|exact Hd].
Defined.

(** A list for the other witnesses, with equal and with different scores. *)
Definition mixed : list (Z * member) := [(1, str "c"); (2, str "a"); (2, str "b")].
Definition level_ops (s1 s2 s3 : Z) : list (@zop Z member) :=
  [ZInsert s2 (str "a") [16; 65535]; ZInsert s1 (str "c") [65535]; ZInsert s3 (str "b") [0; 1; 65535]].

Lemma sample_holds s1 s2 s3 l : zvalid_all [] (level_ops s1 s2 s3) ->
  (zspec_all [] (level_ops s1 s2 s3)).1.1 = l -> exists h z, holds h z ∅ l.
Proof.
  intros Hv Hl.
  destruct (create_holds nulls (mkZheap ∅ []) 5 (lookup_empty 5)) as (h0 & z0 & _ & H0 & _).
  destruct (zexec_all_spec nulls zmalloc zmalloc_fresh _ h0 z0 _ [] H0 Hv) as (h & z & _ & Hh & _).
  exists h, z. rewrite <- Hl. cbn [zh] in Hh. by rewrite dom_empty_L in Hh.
Qed.

Lemma mixed_holds : exists h z, holds h z ∅ mixed.
Proof. apply (sample_holds 1 2 2); [by_decide|reflexivity]. Qed.

Definition flat : list (Z * member) := [(0, str "a"); (0, str "b"); (0, str "c")].
Lemma flat_holds : exists h z, holds h z ∅ flat.
Proof. apply (sample_holds 0 0 0); [by_decide|reflexivity]. Qed.

(** The members as a hash table would keep them. *)
Definition dictDelete (d : list (list Z)) (o : member) : option (list (list Z)) :=
  if decide (key o ∈ d) then Some (filter (fun k => k <> key o) d) else None.
Definition table : list (list Z) := [[97]; [98]; [99]].

Lemma zsl_ranks_witness : exists h z, holds h z ∅ mixed /\
  zslGetRank h z 2 (str "a") = Some 2 /\ zslGetRank h z 2 (str "q") = Some 0 /\
  exists p, zslGetElementByRank h z 3 = Some p /\ (p ≫= pair_at h) = Some (2, str "b").
Proof.
  destruct mixed_holds as (h & z & Hl). exists h, z. split; [exact Hl|].
  destruct (zsl_ranks h z ∅ mixed Hl ltac:(by_decide)) as (Hp & Ha & He).
  split; [apply (Hp 1%nat 2 (str "a") (str "a")); reflexivity|].
  split; [|destruct (He 3 ltac:(lia)) as (p & Hr & Hx); by exists p].
  apply Ha. intros p Hin. assert (Hall : Forall (fun p => key (snd p) <> key (str "q")) mixed)
    by by_decide. rewrite Forall_forall in Hall. exact (Hall p Hin).
Defined.

Lemma zsl_score_ranges_witness : exists h z f g h' z', holds h z ∅ mixed /\
  zslFirstInRange h z (mkRange 1 4 true false) = Some f /\ (f ≫= pair_at h) = Some (2, str "a") /\
  zslLastInRange h z (mkRange 1 4 true false) = Some g /\ (g ≫= pair_at h) = Some (2, str "b") /\
  zslDeleteRangeByScore dictDelete h z (mkRange 1 4 true false) table = Some (h', z', [[99]], 2) /\
  holds h' z' ∅ [(1, str "c")].
Proof.
  destruct mixed_holds as (h & z & Hl).
  destruct (zsl_score_ranges dictDelete h z ∅ mixed (mkRange 1 4 true false) table [[99]] Hl
    ltac:(vm_compute; reflexivity)) as ((f & g & Ef & Eg & Hf & Hg) & h' & z' & E & Hh & _).
  exists h, z, f, g, h', z'. split; [exact Hl|]. split; [exact Ef|]. split; [exact Hf|].
  split; [exact Eg|]. split; [exact Hg|]. split; [exact E|exact Hh].
Defined.

Lemma zsl_delete_by_rank_witness : exists h z h' z', holds h z ∅ mixed /\
  zslDeleteRangeByRank dictDelete h z 2 7 table = Some (h', z', [[99]], 2) /\
  holds h' z' ∅ [(1, str "c")].
Proof.
  destruct mixed_holds as (h & z & Hl).
  destruct (zsl_delete_by_rank dictDelete h z ∅ mixed 2 7 table [[99]] Hl ltac:(lia) ltac:(lia)
    ltac:(vm_compute; reflexivity)) as (h' & z' & E & Hh & _).
  exists h, z, h', z'. split; [exact Hl|]. split; [exact E|exact Hh].
Defined.

End Samples.
