(* ===== verification/Protocol.v ===== *)
(** The request parser of [src/redis-3.0.0/src/networking.c]: the query buffer of
    a client, the inline and multi bulk request formats, and the loop that hands
    complete requests to the command table.

    The query buffer is an sds of [Sds]; the arguments are string objects of
    [Object].  The command table ([processCommand], redis.c) is a parameter,
    and what it writes for the client is not modelled here, except that the
    replies to protocol errors are appended to the client's output. *)
From stdpp Require Import gmap list.
From S2P Require Import Prelude Util Sds SdsText Object.
Local Open Scope c_scope.

Definition REDIS_IOBUF_LEN : Z := 1024 * 16.
Definition REDIS_INLINE_MAX_SIZE : Z := 1024 * 64.
Definition REDIS_MBULK_BIG_ARG : Z := 1024 * 32.
Definition REDIS_REQ_INLINE : Z := 1.
Definition REDIS_REQ_MULTIBULK : Z := 2.
Definition REDIS_OK : Z := 0.
Definition REDIS_ERR : Z := -1.

(** The fields of [redisClient] that the parser uses.  [c_argv] holds the first
    [argc] arguments of an array with room for [c_room]; [c_asking_cmd] says that
    [c->cmd] is the ASKING command. *)
Record client := mkClient {
  c_querybuf : sds; c_querybuf_peak : Z;
  c_argv : list robj; c_room : Z; c_asking_cmd : bool;
  c_reqtype : Z; c_multibulklen : Z; c_bulklen : Z;
  c_slave : bool; c_master : bool; c_blocked : bool; c_close : bool;
  c_multi : bool; c_asking : bool;
  c_ack_time : Z; c_lastinteraction : Z; c_reploff : Z; c_reply : list Z }.

Definition set_querybuf (c : client) (s : sds) : client :=
  mkClient s (c_querybuf_peak c) (c_argv c) (c_room c) (c_asking_cmd c) (c_reqtype c)
    (c_multibulklen c) (c_bulklen c) (c_slave c) (c_master c) (c_blocked c) (c_close c)
    (c_multi c) (c_asking c) (c_ack_time c) (c_lastinteraction c) (c_reploff c) (c_reply c).

Definition set_argv (c : client) (argv : list robj) (room : Z) : client :=
  mkClient (c_querybuf c) (c_querybuf_peak c) argv room (c_asking_cmd c) (c_reqtype c)
    (c_multibulklen c) (c_bulklen c) (c_slave c) (c_master c) (c_blocked c) (c_close c)
    (c_multi c) (c_asking c) (c_ack_time c) (c_lastinteraction c) (c_reploff c) (c_reply c).

Definition set_parse (c : client) (reqtype multibulklen bulklen : Z) : client :=
  mkClient (c_querybuf c) (c_querybuf_peak c) (c_argv c) (c_room c) (c_asking_cmd c) reqtype
    multibulklen bulklen (c_slave c) (c_master c) (c_blocked c) (c_close c)
    (c_multi c) (c_asking c) (c_ack_time c) (c_lastinteraction c) (c_reploff c) (c_reply c).

Definition set_flags (c : client) (close asking asking_cmd : bool) : client :=
  mkClient (c_querybuf c) (c_querybuf_peak c) (c_argv c) (c_room c) asking_cmd (c_reqtype c)
    (c_multibulklen c) (c_bulklen c) (c_slave c) (c_master c) (c_blocked c) close
    (c_multi c) asking (c_ack_time c) (c_lastinteraction c) (c_reploff c) (c_reply c).

Definition set_times (c : client) (peak ack_time lastinteraction reploff : Z) : client :=
  mkClient (c_querybuf c) peak (c_argv c) (c_room c) (c_asking_cmd c) (c_reqtype c)
    (c_multibulklen c) (c_bulklen c) (c_slave c) (c_master c) (c_blocked c) (c_close c)
    (c_multi c) (c_asking c) ack_time lastinteraction reploff (c_reply c).

Definition set_reply (c : client) (reply : list Z) : client :=
  mkClient (c_querybuf c) (c_querybuf_peak c) (c_argv c) (c_room c) (c_asking_cmd c) (c_reqtype c)
    (c_multibulklen c) (c_bulklen c) (c_slave c) (c_master c) (c_blocked c) (c_close c)
    (c_multi c) (c_asking c) (c_ack_time c) (c_lastinteraction c) (c_reploff c) reply.

Definition qlen (c : client) : Z := sds_len (c_querybuf c).
Definition qbuf (c : client) : list Z := sds_buf (c_querybuf c).

(** [strchr(p, ch)] as an index, [p] being the byte number [i]. *)
Fixpoint index_of (buf : list Z) (ch i : Z) : option (option Z) :=
  match buf with
  | [] => None
  | x :: buf =>
      if x =? ch then Some (Some i)
      else if x =? 0 then Some None
      else index_of buf ch (i + 1)
  end.

Definition strchr_from (c : client) (pos ch : Z) : option (option Z) :=
  index_of (drop (Z.to_nat pos) (qbuf c)) ch pos.

(** ** Replies to protocol errors *)

Definition addReplyErrorLength (c : client) (s : list Z) : client :=
  set_reply c (c_reply c ++ bytes_of "-ERR " ++ s ++ [13; 10]).

Definition addReplyError (c : client) (err : string) : client :=
  addReplyErrorLength c (bytes_of err).

(** [addReplyErrorFormat] with the text the format expands to. *)
Definition addReplyErrorFormat (c : client) (s : list Z) : client :=
  addReplyErrorLength c ((fun x => if (x =? 13) || (x =? 10) then 32 else x) <$> s).

Definition setProtocolError (c : client) (pos : Z) : option client :=
  let c := set_flags c true (c_asking c) (c_asking_cmd c) in
  s ← sdsrange (c_querybuf c) pos (-1);
  Some (set_querybuf c s).

(** A protocol error: the reply, the flag, and [REDIS_ERR]. *)
Definition protocol_error (c : client) (err : string) (pos : Z) : option (client * Z) :=
  c ← setProtocolError (addReplyError c err) pos;
  Some (c, REDIS_ERR).

(** ** Resetting a client *)

(** The arguments lose a reference. *)
Definition freeClientArgv (c : client) : client :=
  let c := set_argv c [] (c_room c) in
  set_flags c (c_close c) (c_asking c) false.

Definition resetClient (c : client) : client :=
  let prevcmd := c_asking_cmd c in
  let c := set_parse (freeClientArgv c) 0 0 (-1) in
  if negb (c_multi c) && negb prevcmd
  then set_flags c (c_close c) false (c_asking_cmd c) else c.

Section Protocol.
(** Uninitialised memory; [server.unixtime]; [server.client_max_querybuf_len];
    the result of [clientsArePaused]. *)
Context (junk : nat -> Z) (unixtime client_max_querybuf_len : Z) (clientsArePaused : bool).
Notation sdsnewlen := (sdsnewlen junk).
Notation sdsMakeRoomFor := (sdsMakeRoomFor junk).

(** The object [createObject(REDIS_STRING, s)] makes. *)
Definition string_object (s : sds) : robj := mkObj REDIS_STRING ENC_RAW 1 (PSds s).

(** The object [createStringObject(querybuf+pos, len)] makes. *)
Definition string_arg (buf : list Z) (pos len : Z) : option robj :=
  '(h, o) ← createStringObject junk (fun _ => 0) ∅ (Some (drop (Z.to_nat pos) buf)) len;
  h !! o.

(** [c->argv[c->argc++] = o], inside the array. *)
Definition push_arg (c : client) (o : robj) : option client :=
  if zlen (c_argv c) <? c_room c
  then Some (set_argv c (c_argv c ++ [o]) (c_room c)) else None.

(** ** Inline requests *)

(** Empty arguments are dropped. *)
Fixpoint inline_args (c : client) (argv : list sds) : option client :=
  match argv with
  | [] => Some c
  | s :: argv =>
      if negb (sds_len s =? 0) then
        c ← push_arg c (string_object s); inline_args c argv
      else inline_args c argv
  end.

Definition processInlineBuffer (c : client) : option (client * Z) :=
  newline ← strchr_from c 0 10;
  match newline with
  | None =>
      if REDIS_INLINE_MAX_SIZE <? qlen c
      then protocol_error c "Protocol error: too big inline request" 0
      else Some (c, REDIS_ERR)
  | Some newline =>
      cr ← (if negb (newline =? 0)
            then x ← znth (qbuf c) (newline - 1); Some (x =? 13) else Some false);
      let newline := if (cr : bool) then newline - 1 else newline in
      let querylen := newline in
      aux ← sdsnewlen (Some (qbuf c)) querylen;
      argv ← sdssplitargs junk (sds_buf aux);
      match argv with
      | None => protocol_error c "Protocol error: unbalanced quotes in request" 0
      | Some argv =>
          let c := if (querylen =? 0) && c_slave c
                   then set_times c (c_querybuf_peak c) unixtime (c_lastinteraction c) (c_reploff c)
                   else c in
          s ← sdsrange (c_querybuf c) (s32 (querylen +[64] 2)) (-1);
          let c := set_querybuf c s in
          let c := if zlen argv =? 0 then c else set_argv c (c_argv c) (zlen argv) in
          c ← inline_args (set_argv c [] (c_room c)) argv;
          Some (c, REDIS_OK)
      end
  end.

(** ** Multi bulk requests *)

(** How a step of the parser leaves the function, the loop, or goes on. *)
Inductive flow :=
  | Return (c : client) (r : Z)
  | Break (c : client) (pos : Z)
  | Go (c : client) (pos : Z).

Definition fail_with (r : option (client * Z)) : option flow :=
  '(c, r) ← r; Some (Return c r).

(** [string2ll(querybuf+pos, newline-(querybuf+pos), &ll)]. *)
Definition read_number (c : client) (pos newline : Z) : option (option Z) :=
  bs ← mem_read (qbuf c) pos (newline - pos);
  '(ok, ll) ← string2ll bs (newline - pos);
  if ok =? 0 then Some None else v ← ll; Some (Some v).

Definition multibulk_header (c : client) : option flow :=
  if negb (zlen (c_argv c) =? 0) then None
  else
    newline ← strchr_from c 0 13;
    match newline with
    | None =>
        if REDIS_INLINE_MAX_SIZE <? qlen c
        then fail_with (protocol_error c "Protocol error: too big mbulk count string" 0)
        else Some (Return c REDIS_ERR)
    | Some newline =>
        if s32 (qlen c) - 2 <? newline then Some (Return c REDIS_ERR)
        else
          c0 ← znth (qbuf c) 0;
          if negb (c0 =? 42) then None
          else
            ll ← read_number c 1 newline;
            match ll with
            | None => fail_with (protocol_error c "Protocol error: invalid multibulk length" 0)
            | Some ll =>
                if 1024 * 1024 <? ll
                then fail_with (protocol_error c "Protocol error: invalid multibulk length" 0)
                else
                  let pos := newline + 2 in
                  if ll <=? 0 then
                    s ← sdsrange (c_querybuf c) pos (-1);
                    Some (Return (set_querybuf c s) REDIS_OK)
                  else
                    let c := set_parse c (c_reqtype c) (s32 ll) (c_bulklen c) in
                    Some (Go (set_argv c (c_argv c) (c_multibulklen c)) pos)
            end
    end.

(** [if (c->bulklen == -1)]: the length of the next argument. *)
Definition bulk_header (c : client) (pos : Z) : option flow :=
  if negb (c_bulklen c =? -1) then Some (Go c pos)
  else
    newline ← strchr_from c pos 13;
    match newline with
    | None =>
        if REDIS_INLINE_MAX_SIZE <? qlen c
        then fail_with (protocol_error c "Protocol error: too big bulk count string" 0)
        else Some (Break c pos)
    | Some newline =>
        if s32 (qlen c) - 2 <? newline then Some (Break c pos)
        else
          ch ← znth (qbuf c) pos;
          if negb (ch =? 36) then
            c ← setProtocolError (addReplyErrorFormat c
                  (bytes_of "Protocol error: expected '$', got '" ++ [ch] ++ bytes_of "'")) pos;
            Some (Return c REDIS_ERR)
          else
            ll ← read_number c (pos + 1) newline;
            match ll with
            | None => fail_with (protocol_error c "Protocol error: invalid bulk length" pos)
            | Some ll =>
                if (ll <? 0) || (512 * 1024 * 1024 <? ll)
                then fail_with (protocol_error c "Protocol error: invalid bulk length" pos)
                else
                  let pos := pos + (newline - pos) + 2 in
                  '(c, pos) ←
                    (if REDIS_MBULK_BIG_ARG <=? ll then
                       s ← sdsrange (c_querybuf c) pos (-1);
                       let qblen := sds_len s in
                       let s := if qblen <? ll +[64] 2
                                then sdsMakeRoomFor s (ll +[64] 2 -[64] qblen) else s in
                       Some (set_querybuf c s, 0)
                     else Some (c, pos));
                  Some (Go (set_parse c (c_reqtype c) (c_multibulklen c) ll) pos)
            end
    end.

(** The argument itself, when it is all there. *)
Definition bulk_body (c : client) (pos : Z) : option flow :=
  let bulklen := c_bulklen c in
  if (qlen c -[64] pos) <? u32 (bulklen + 2) then Some (Break c pos)
  else
    '(c, pos) ←
      (if (pos =? 0) && (REDIS_MBULK_BIG_ARG <=? bulklen) && (s32 (qlen c) =? bulklen + 2) then
         s ← sdsIncrLen (c_querybuf c) (-2);
         c ← push_arg c (string_object s);
         e ← sdsempty junk;
         Some (set_querybuf c (sdsMakeRoomFor e (bulklen + 2)), 0)
       else
         o ← string_arg (qbuf c) pos bulklen;
         c ← push_arg c o;
         Some (c, pos + (bulklen + 2)));
    Some (Go (set_parse c (c_reqtype c) (c_multibulklen c - 1) (-1)) pos).

(** [while(c->multibulklen)]. *)
Fixpoint bulk_loop (fuel : nat) (c : client) (pos : Z) : option flow :=
  match fuel with
  | O => None
  | S fuel =>
      if c_multibulklen c =? 0 then Some (Break c pos)
      else
        r ← bulk_header c pos;
        match r with
        | Go c pos =>
            r ← bulk_body c pos;
            match r with
            | Go c pos => bulk_loop fuel c pos
            | r => Some r
            end
        | r => Some r
        end
  end.

Definition processMultibulkBuffer (c : client) : option (client * Z) :=
  r ← (if c_multibulklen c =? 0 then multibulk_header c else Some (Go c 0));
  match r with
  | Return c r => Some (c, r)
  | Break c pos | Go c pos =>
      if negb (0 <? c_multibulklen c) then None
      else
        r ← bulk_loop (S (Z.to_nat (c_multibulklen c))) c pos;
        match r with
        | Return c r => Some (c, r)
        | Break c pos | Go c pos =>
            c ← (if negb (pos =? 0)
                 then s ← sdsrange (c_querybuf c) pos (-1); Some (set_querybuf c s)
                 else Some c);
            Some (c, if c_multibulklen c =? 0 then REDIS_OK else REDIS_ERR)
        end
  end.

(** ** The loop over the query buffer *)

Section Commands.
(** The rest of the server, and [processCommand]: the client afterwards and
    whether [REDIS_OK] is returned. *)
Context {W : Type} (processCommand : W -> client -> option (W * client * bool)).

Fixpoint processInputBuffer (fuel : nat) (w : W) (c : client) : option (W * client) :=
  match fuel with
  | O => None
  | S fuel =>
      if qlen c =? 0 then Some (w, c)
      else if negb (c_slave c) && clientsArePaused then Some (w, c)
      else if c_blocked c then Some (w, c)
      else if c_close c then Some (w, c)
      else
        c0 ← znth (qbuf c) 0;
        let reqtype := if c_reqtype c =? 0
                       then (if c0 =? 42 then REDIS_REQ_MULTIBULK else REDIS_REQ_INLINE)
                       else c_reqtype c in
        let c := set_parse c reqtype (c_multibulklen c) (c_bulklen c) in
        '(c, r) ← (if reqtype =? REDIS_REQ_INLINE then processInlineBuffer c
                   else if reqtype =? REDIS_REQ_MULTIBULK then processMultibulkBuffer c
                   else None);
        if negb (r =? REDIS_OK) then Some (w, c)
        else if zlen (c_argv c) =? 0 then processInputBuffer fuel w (resetClient c)
        else
          '(w, c, ok) ← processCommand w c;
          processInputBuffer fuel w (if (ok : bool) then resetClient c else c)
  end.

(** What [read] returns: bytes, EAGAIN, an error, the end of the file. *)
Inductive read_result := ReadData (bs : list Z) | ReadAgain | ReadError | ReadEof.

Definition read_length (c : client) : Z :=
  let readlen := REDIS_IOBUF_LEN in
  if (c_reqtype c =? REDIS_REQ_MULTIBULK) && negb (c_multibulklen c =? 0) &&
     negb (c_bulklen c =? -1) && (REDIS_MBULK_BIG_ARG <=? c_bulklen c)
  then
    let remaining := s32 (u32 (c_bulklen c + 2) -[64] qlen c) in
    if remaining <? readlen then remaining else readlen
  else readlen.

(** [read] stores its bytes after the string, in the room made for
    [readlen] of them.  [None] inside is a client that is freed. *)
Definition readQueryFromClient (w : W) (c : client) (rd : read_result)
    : option (W * option client) :=
  let readlen := read_length c in
  let qblen := qlen c in
  let peak := if c_querybuf_peak c <? qblen then qblen else c_querybuf_peak c in
  let c := set_times c peak (c_ack_time c) (c_lastinteraction c) (c_reploff c) in
  let s := sdsMakeRoomFor (c_querybuf c) (u64 readlen) in
  match rd with
  | ReadError | ReadEof => Some (w, None)
  | ReadAgain => Some (w, Some (set_querybuf c s))
  | ReadData bs =>
      buf ← mem_write (sds_buf s) qblen bs;
      s ← sdsIncrLen (mkSds (sds_len s) (sds_free s) buf) (zlen bs);
      let c := set_querybuf c s in
      let c := set_times c peak (c_ack_time c) unixtime
                 (if c_master c then c_reploff c + zlen bs else c_reploff c) in
      if client_max_querybuf_len <? qlen c then Some (w, None)
      else
        '(w, c) ← processInputBuffer (S (Z.to_nat (qlen c))) w c;
        Some (w, Some c)
  end.
End Commands.
End Protocol.
