(* ===== verification/ProtocolSpec.v ===== *)
(** The request parser against the request format: whatever the cuts between
    reads, pipelined requests are executed once each, in order, with the
    arguments the client sent. *)
From stdpp Require Import gmap list.
From S2P Require Import Prelude Util Sds SdsText Object Protocol.
Local Open Scope c_scope.

(** ** The request format *)

Definition crlf : list Z := [13; 10].
Definition enc_arg (a : list Z) : list Z := 36 :: sdec (zlen a) ++ crlf ++ a ++ crlf.
Definition enc_args (args : list (list Z)) : list Z := concat (enc_arg <$> args).
Definition header (args : list (list Z)) : list Z := 42 :: sdec (zlen args) ++ crlf.
Definition enc_request (args : list (list Z)) : list Z := header args ++ enc_args args.
Definition enc_requests (reqs : list (list (list Z))) : list Z := concat (enc_request <$> reqs).

Lemma enc_requests_cons args reqs :
  enc_requests (args :: reqs) = header args ++ enc_args args ++ enc_requests reqs.
Proof.
  unfold enc_requests, enc_request. rewrite fmap_cons. cbn [concat]. by rewrite <- app_assoc.
Qed.

Definition good_arg (a : list Z) : Prop := zlen a <= 512 * 1024 * 1024.
Definition good_request (args : list (list Z)) : Prop :=
  1 <= zlen args <= 1024 * 1024 /\ Forall good_arg args.
#[export] Instance good_request_dec args : Decision (good_request args).
Proof. unfold good_request, good_arg. apply _. Defined.

(** ** The operations on the query buffer *)

Lemma index_of_hit ch l k : forall i, 0 ∉ l -> ch ∉ l ->
  index_of (l ++ ch :: k) ch i = Some (Some (i + zlen l)).
Proof.
  induction l as [|x l IH]; intros i H0 Hc; cbn [app index_of].
  - rewrite Z.eqb_refl. change (zlen (@nil Z)) with 0. by rewrite Z.add_0_r.
  - apply not_elem_of_cons in H0 as [H0 H0'], Hc as [Hc Hc'].
    destruct (Z.eqb_spec x ch); [done|]. destruct (Z.eqb_spec x 0); [done|].
    rewrite IH by done. rewrite zlen_cons. do 2 f_equal. lia.
Qed.

Lemma index_of_miss ch l k : forall i, 0 ∉ l -> ch ∉ l -> ch <> 0 ->
  index_of (l ++ 0 :: k) ch i = Some None.
Proof.
  induction l as [|x l IH]; intros i H0 Hc Hne; cbn [app index_of].
  - destruct (Z.eqb_spec 0 ch); [done|]. done.
  - apply not_elem_of_cons in H0 as [H0 H0'], Hc as [Hc Hc'].
    destruct (Z.eqb_spec x ch); [done|]. destruct (Z.eqb_spec x 0); [done|]. by apply IH.
Qed.

(** In a terminated buffer the search is defined, and a hit is inside. *)
Lemma index_of_bound ch l k : ch <> 0 -> forall i,
  exists r, index_of (l ++ 0 :: k) ch i = Some r /\
    (forall n, r = Some n -> i <= n < i + zlen l /\ znth l (n - i) = Some ch /\
       0 ∉ take (Z.to_nat (n - i)) l).
Proof.
  intros Hne. induction l as [|x l IH]; intros i; cbn [app index_of].
  - destruct (Z.eqb_spec 0 ch); [done|]. by exists None.
  - pose proof (zlen_nonneg l). rewrite zlen_cons.
    destruct (Z.eqb_spec x ch) as [->|].
    + exists (Some i). split; [done|]. intros n [= <-]. rewrite Z.sub_diag.
      split; [lia|]. split; [done|]. apply not_elem_of_nil.
    + destruct (Z.eqb_spec x 0); [by exists None|].
      destruct (IH (i + 1)) as (r & -> & Hr). exists r. split; [done|]. intros m Hm.
      destruct (Hr m Hm) as (Hb & Hz & H0). split; [lia|].
      replace (m - i) with (1 + (m - (i + 1))) by lia. rewrite znth_cons_S by lia.
      split; [done|]. replace (Z.to_nat (1 + (m - (i + 1)))) with (S (Z.to_nat (m - (i + 1)))) by lia.
      cbn [take]. apply not_elem_of_cons. split; [lia|done].
Qed.

Lemma range_bytes_drop bs pos : 0 <= pos -> range_bytes bs pos (-1) = drop (Z.to_nat pos) bs.
Proof.
  intros Hp. unfold range_bytes, norm_index. pose proof (zlen_nonneg bs).
  destruct (Z.ltb_spec pos 0); [lia|]. destruct (Z.ltb_spec (-1) 0); [|lia].
  destruct (Z.ltb_spec (Z.max 0 (zlen bs + -1)) pos) as [Hlt|Hle].
  - symmetry. apply drop_ge. unfold zlen in *. lia.
  - apply take_ge. rewrite length_drop. unfold zlen in *. lia.
Qed.

Lemma sdsrange_drop s bs pos :
  rep s bs -> zlen bs < 2 ^ 31 -> 0 <= pos < 2 ^ 31 ->
  exists s', sdsrange s pos (-1) = Some s' /\ rep s' (drop (Z.to_nat pos) bs).
Proof.
  intros Hs Hl Hp. destruct (sdsrange_spec s bs pos (-1) Hs Hl) as (s' & -> & Hr); [cint|cint|done|].
  exists s'. split; [done|]. by rewrite range_bytes_drop in Hr by lia.
Qed.

Section Spec.
Context (junk : nat -> Z).

(** The argument cut out of the buffer. *)
Lemma string_arg_spec s p a k :
  rep s (p ++ a ++ k) -> fits (zlen a) ->
  exists o, string_arg junk (sds_buf s) (zlen p) (zlen a) = Some o /\ string_rep o a.
Proof.
  intros (tail & -> & _)%rep_inv Hf. unfold string_arg. cbn [sds_buf].
  destruct (createStringObject_spec junk (fun _ => 0) ∅
    (drop (Z.to_nat (zlen p)) ((p ++ a ++ k) ++ 0 :: tail)) (zlen a) a) as (o & -> & Ho & _).
  - rewrite <- !app_assoc. unfold zlen at 1. rewrite Nat2Z.id, drop_app_length.
    by apply mem_read_prefix.
  - done.
  - step. exists o. by rewrite lookup_insert_eq.
Qed.

Lemma read_number_spec c bs p v k :
  rep (c_querybuf c) bs -> bs = p ++ sdec v ++ k -> in_s 64 v ->
  read_number c (zlen p) (zlen p + zlen (sdec v)) = Some (Some v).
Proof.
  intros (tail & E & _)%rep_inv -> Hv. unfold read_number, qbuf. rewrite E. cbn [sds_buf].
  rewrite <- !app_assoc. replace (zlen p + zlen (sdec v) - zlen p) with (zlen (sdec v)) by lia.
  rewrite mem_read_app by done. step.
  destruct (string2ll_spec (sdec v)) as [(u & Hu & Heq & ->)|[Hno _]]; [|by destruct (Hno v Hv)].
  step. by apply sdec_inj in Heq as ->.
Qed.

Lemma strchr_from_hit c p l k ch :
  rep (c_querybuf c) (p ++ l ++ ch :: k) -> 0 ∉ l -> ch ∉ l ->
  strchr_from c (zlen p) ch = Some (Some (zlen p + zlen l)).
Proof.
  intros (tail & E & _)%rep_inv H0 Hc. unfold strchr_from, qbuf. rewrite E. cbn [sds_buf].
  unfold zlen at 1. rewrite Nat2Z.id, <- app_assoc, drop_app_length, <- app_assoc.
  cbn [app]. by apply index_of_hit.
Qed.

Lemma strchr_from_miss c p l ch :
  rep (c_querybuf c) (p ++ l) -> 0 ∉ l -> ch ∉ l -> ch <> 0 ->
  strchr_from c (zlen p) ch = Some None.
Proof.
  intros (tail & E & _)%rep_inv H0 Hc Hne. unfold strchr_from, qbuf. rewrite E. cbn [sds_buf].
  unfold zlen at 1. rewrite Nat2Z.id, <- app_assoc, drop_app_length. by apply index_of_miss.
Qed.

(** Numbers hold neither a line feed, a carriage return nor a NUL. *)
Lemma sdec_plain v : in_s 64 v -> 0 ∉ sdec v /\ 13 ∉ sdec v.
Proof.
  intros Hv. split; [by apply sdec_chars|].
  destruct (sdec_parts v Hv) as (u & neg & _ & Hu & Hneg & ->).
  assert (Hd : Forall digit (dec u)) by (apply dec_digits; [lia|cint]).
  rewrite Forall_forall in Hd. intros [Hin|Hin]%elem_of_app.
  - destruct Hneg as [-> | ->]; simpl in Hin; [by apply elem_of_nil in Hin|].
    by apply list_elem_of_singleton in Hin.
  - apply Hd in Hin. unfold digit in Hin. lia.
Qed.

(** A buffer that starts a line [x ++ crlf ++ k]: it ends before the line does, or
    it holds the whole line. *)
Lemma line_cases q fut x (rest : list Z) : q ++ fut = x ++ crlf ++ rest ->
  (exists l, q = l /\ exists m, x = l ++ m) \/ (q = x ++ [13]) \/
  (exists q', q = x ++ crlf ++ q' /\ q' ++ fut = rest).
Proof.
  intros H. apply app_eq_inv in H as [(k & -> & Hf)|(k & -> & Hf)].
  - destruct k as [|c k].
    { left. exists x. rewrite app_nil_r. split; [done|]. exists []. by rewrite app_nil_r. }
    injection Hf as <- Hf. destruct k as [|c k]; [right; by left|].
    injection Hf as <- Hf. right. right. by exists k.
  - left. exists q. split; [done|]. by exists k.
Qed.

(** ** In the middle of a request *)

(** What is still to come of the arguments [todo], the length of the first one
    being known when [blk] is set. *)
Definition stream (blk : bool) (todo : list (list Z)) : list Z :=
  match blk, todo with
  | true, a :: todo => a ++ crlf ++ enc_args todo
  | _, _ => enc_args todo
  end.

Record mid (c : client) (done todo : list (list Z)) (blk : bool) (bs : list Z) : Prop := mkMid {
  m_rep : rep (c_querybuf c) bs;
  m_type : c_reqtype c = REDIS_REQ_MULTIBULK;
  m_multi : c_multibulklen c = zlen todo;
  m_bulk : c_bulklen c = if blk then zlen (hd [] todo) else -1;
  m_argv : Forall2 string_rep (c_argv c) done;
  m_room : c_room c = zlen done + zlen todo }.

(** Room for [n] bytes, then a read of at most [n]. *)
Lemma read_room s q bs n :
  rep s q -> zlen bs <= n -> n <= REDIS_IOBUF_LEN -> zlen q < 2 ^ 31 ->
  let s1 := sdsMakeRoomFor junk s n in
  exists buf s2, mem_write (sds_buf s1) (zlen q) bs = Some buf /\
    sdsIncrLen (mkSds (sds_len s1) (sds_free s1) buf) (zlen bs) = Some s2 /\ rep s2 (q ++ bs).
Proof.
  intros Hr Hbs Hn Hq s1. unfold REDIS_IOBUF_LEN in Hn. pose proof (zlen_nonneg bs).
  pose proof (zlen_nonneg q).
  destruct (sdsMakeRoomFor_rep junk s q n Hr) as [Hr1 Hfree]; [lia|lens|]. fold s1 in Hr1, Hfree.
  destruct (sdsread_spec junk s1 q bs Hr1) as (s2 & E & Hr2); [lens|lia|].
  unfold sdsread in E.
  assert (Hnoop : sdsMakeRoomFor junk s1 (zlen bs) = s1)
    by (unfold sdsMakeRoomFor; by rewrite (proj2 (Z.leb_le _ _)) by lia).
  rewrite Hnoop in E. assert (Hl1 : sds_len s1 = zlen q) by apply Hr1. rewrite Hl1 in E |- *.
  destruct (mem_write (sds_buf s1) (zlen q) bs) as [buf|]; [|done].
  exists buf, s2. done.
Qed.

(** What the parser leaves alone. *)
Definition frame (c c' : client) : Prop :=
  c_slave c' = c_slave c /\ c_blocked c' = c_blocked c /\ c_close c' = c_close c /\
  c_reply c' = c_reply c.

Lemma frame_trans c1 c2 c3 : frame c1 c2 -> frame c2 c3 -> frame c1 c3.
Proof. unfold frame. intuition congruence. Qed.

(** The sizes of the query buffer the parser meets. *)
Definition small (bs : list Z) : Prop := zlen bs <= REDIS_INLINE_MAX_SIZE.
Definition exact (blk : bool) (todo : list (list Z)) (p q : list Z) : Prop :=
  blk = true /\ p = [] /\ REDIS_MBULK_BIG_ARG <= zlen (hd [] todo) /\
  zlen q <= zlen (hd [] todo) + 2.

Lemma qlen_rep c bs : rep (c_querybuf c) bs -> qlen c = zlen bs.
Proof. by intros [H _]. Qed.

Lemma zlen_sdec_len {A} (l : list A) : zlen l < 2 ^ 63 -> in_s 64 (zlen l).
Proof. pose proof (zlen_nonneg l). cint. Qed.

Lemma enc_args_cons a todo : enc_args (a :: todo) = (36 :: sdec (zlen a)) ++ crlf ++ a ++ crlf ++ enc_args todo.
Proof. unfold enc_args, enc_arg. rewrite fmap_cons. cbn [concat app]. by rewrite <- !app_assoc. Qed.

Lemma znth_at (p k : list Z) x tail : znth (((p ++ x :: k) ++ tail)) (zlen p) = Some x.
Proof. rewrite <- app_assoc. by apply znth_app_mid. Qed.

Lemma bulk_header_spec c done a todo p q fut X :
  mid c done (a :: todo) false (p ++ q) -> good_arg a -> small (p ++ q) ->
  q ++ fut = enc_args (a :: todo) ++ X ->
  (bulk_header junk c (zlen p) = Some (Break c (zlen p)) /\ zlen q <= 23 /\
     zlen q < zlen (enc_args (a :: todo))) \/
  (exists c' p' q', bulk_header junk c (zlen p) = Some (Go c' (zlen p')) /\
     mid c' done (a :: todo) true (p' ++ q') /\ small (p' ++ q') /\ frame c c' /\
     q' ++ fut = stream true (a :: todo) ++ X).
Proof.
  intros M Ha Hsm Hq. unfold bulk_header. rewrite (m_bulk _ _ _ _ _ M). cbn [negb Z.eqb].
  change (negb (-1 =? -1)) with false. cbv iota.
  unfold good_arg in Ha. pose proof Hsm as Hsm'. unfold small, REDIS_INLINE_MAX_SIZE in Hsm.
  assert (Hn : in_s 64 (zlen a)) by (apply zlen_sdec_len; lia).
  destruct (sdec_plain (zlen a) Hn) as [Hs0 Hs13]. pose proof (sdec_zlen (zlen a) Hn) as Hsl.
  assert (Hlen : zlen (enc_args (a :: todo)) >= zlen (sdec (zlen a)) + 5).
  { rewrite enc_args_cons. repeat rewrite zlen_app || rewrite zlen_cons.
    change (zlen crlf) with 2. pose proof (zlen_nonneg a). pose proof (zlen_nonneg (enc_args todo)). lia. }
  rewrite enc_args_cons, <- !app_assoc in Hq.
  pose proof (m_rep _ _ _ _ _ M) as Hr. pose proof (qlen_rep c _ Hr) as Hql.
  assert (Hplain : 0 ∉ 36 :: sdec (zlen a) /\ 13 ∉ 36 :: sdec (zlen a))
    by (rewrite !not_elem_of_cons; done).
  destruct (line_cases q fut (36 :: sdec (zlen a)) _ Hq)
    as [(l & -> & m & Hx)|[->|(q' & -> & Hq')]].
  - left. assert (Hl : 0 ∉ l /\ 13 ∉ l).
    { destruct Hplain as [H1 H2]. rewrite Hx in H1, H2. split; intros Hi;
        [apply H1|apply H2]; apply elem_of_app; by left. }
    apply (f_equal zlen) in Hx. rewrite zlen_app, zlen_cons in Hx. pose proof (zlen_nonneg m).
    rewrite (strchr_from_miss c p l 13 Hr) by (done || tauto). step.
    destruct (Z.ltb_spec REDIS_INLINE_MAX_SIZE (qlen c)) as [Hlt|_];
      [unfold REDIS_INLINE_MAX_SIZE in Hlt; lia|]. split; [done|]. lia.
  - left. destruct Hplain as [H1 H2].
    rewrite (strchr_from_hit c p (36 :: sdec (zlen a)) [] 13 Hr H1 H2). step.
    rewrite Hql, !zlen_app, !zlen_cons, zlen_nil in *. rewrite swrap_small by (lens).
    destruct (Z.ltb_spec (zlen p + (1 + zlen (sdec (zlen a)) + (1 + 0)) - 2)
      (zlen p + (1 + zlen (sdec (zlen a))))); [|lia]. split; [done|]. lia.
  - right. destruct Hplain as [H1 H2].
    rewrite (strchr_from_hit c p (36 :: sdec (zlen a)) (10 :: q') 13 Hr H1 H2). step.
    pose proof (zlen_nonneg p). pose proof (zlen_nonneg q').
    assert (Hqz : zlen (p ++ (36 :: sdec (zlen a)) ++ crlf ++ q') =
      zlen p + (1 + zlen (sdec (zlen a))) + 2 + zlen q').
    { rewrite !zlen_app, zlen_cons. change (zlen crlf) with 2. lia. }
    rewrite zlen_cons, Hql. rewrite Hqz in *. rewrite swrap_small by lens.
    destruct (Z.ltb_spec (zlen p + (1 + zlen (sdec (zlen a))) + 2 + zlen q' - 2)
      (zlen p + (1 + zlen (sdec (zlen a))))) as [|_]; [lia|].
    assert (Hch : znth (qbuf c) (zlen p) = Some 36).
    { destruct (rep_inv _ _ Hr) as (tail & E & _). unfold qbuf. rewrite E. cbn [sds_buf].
      apply znth_at. }
    rewrite Hch. step. change (negb (36 =? 36)) with false. cbv iota.
    pose proof (read_number_spec c _ (p ++ [36]) (zlen a) (crlf ++ q') Hr
      ltac:(by rewrite <- app_assoc) Hn) as Hnum.
    rewrite zlen_app_one in Hnum.
    replace (zlen p + (1 + zlen (sdec (zlen a)))) with (zlen p + 1 + zlen (sdec (zlen a))) by lia.
    rewrite Hnum. step. pose proof (zlen_nonneg a).
    destruct (Z.ltb_spec (zlen a) 0); [lia|].
    destruct (Z.ltb_spec (512 * 1024 * 1024) (zlen a)); [lia|]. cbn [orb].
    set (pos := zlen p + _ + 2).
    assert (Hpos : pos = zlen (p ++ (36 :: sdec (zlen a)) ++ crlf)).
    { unfold pos. rewrite !zlen_app, zlen_cons. change (zlen crlf) with 2. lia. }
    assert (Hsplit : p ++ (36 :: sdec (zlen a)) ++ crlf ++ q' =
      (p ++ (36 :: sdec (zlen a)) ++ crlf) ++ q') by (by rewrite <- !app_assoc).
    rewrite Hsplit in Hr. unfold REDIS_MBULK_BIG_ARG.
    destruct (Z.leb_spec (1024 * 32) (zlen a)) as [Hbig|Hbig].
    + destruct (sdsrange_drop (c_querybuf c) _ pos Hr) as (s' & -> & Hs').
      { rewrite <- Hsplit, Hqz. lens. }
      { unfold pos. lens. }
      step. rewrite Hpos in Hs'. unfold zlen in Hs' at 1. rewrite Nat2Z.id, drop_app_length in Hs'.
      eexists _, [], q'. split; [done|]. split; [|split; [unfold small, REDIS_INLINE_MAX_SIZE; cbn [app]; lia|split; [done|]]].
      * destruct M. constructor; cbn; try done.
        assert (Hl' : sds_len s' = zlen q') by apply Hs'.
        rewrite Hl', (u64_id (zlen a + 2)) by (unfold in_u; lia).
        destruct (Z.ltb_spec (zlen q') (zlen a + 2)); [|done].
        rewrite u64_id by (unfold in_u; lia).
        apply sdsMakeRoomFor_rep; [done|lia|lens].
      * cbn [stream]. by rewrite Hq', <- !app_assoc.
    + eexists _, (p ++ (36 :: sdec (zlen a)) ++ crlf), q'. split; [by rewrite <- Hpos|].
      split; [|split; [by rewrite <- Hsplit|split; [done|]]].
      * destruct M. by constructor.
      * cbn [stream]. by rewrite Hq', <- !app_assoc.
Qed.

Lemma push_arg_spec c o : zlen (c_argv c) < c_room c ->
  push_arg c o = Some (set_argv c (c_argv c ++ [o]) (c_room c)).
Proof. intros H. unfold push_arg. by rewrite (proj2 (Z.ltb_lt _ _) H). Qed.

Lemma mid_pushed c done a todo bs s' bs' o :
  mid c done (a :: todo) true bs -> rep s' bs' -> string_rep o a ->
  mid (set_parse (set_querybuf (set_argv c (c_argv c ++ [o]) (c_room c)) s') (c_reqtype c)
         (c_multibulklen c - 1) (-1)) (done ++ [a]) todo false bs'.
Proof.
  intros M Hs Ho. destruct M as [_ Ht Hm _ Ha Hr]. rewrite zlen_cons in *.
  constructor; cbn; [done|done|lia|done| |rewrite zlen_app_one; lia].
  apply Forall2_app; [done|]. by constructor.
Qed.

Lemma mid_room c done a todo blk bs : mid c done (a :: todo) blk bs -> zlen (c_argv c) < c_room c.
Proof.
  intros M. rewrite (m_room _ _ _ _ _ M). pose proof (Forall2_length _ _ _ (m_argv _ _ _ _ _ M)) as Hl.
  rewrite zlen_cons. pose proof (zlen_nonneg todo). unfold zlen in *. lia.
Qed.

(** The step that takes one whole argument out of the buffer. *)
Lemma bulk_body_take c done a todo p q' :
  mid c done (a :: todo) true (p ++ a ++ crlf ++ q') -> good_arg a ->
  small (p ++ a ++ crlf ++ q') \/ exact true (a :: todo) p (a ++ crlf ++ q') ->
  exists c' p', bulk_body junk c (zlen p) = Some (Go c' (zlen p')) /\
    mid c' (done ++ [a]) todo false (p' ++ q') /\ small (p' ++ q') /\ frame c c'.
Proof.
  intros M Ha Hsz. pose proof (m_rep _ _ _ _ _ M) as Hr. pose proof (qlen_rep c _ Hr) as Hql.
  unfold good_arg in Ha. pose proof (zlen_nonneg a). pose proof (zlen_nonneg p). pose proof (zlen_nonneg q').
  assert (Hz : zlen (p ++ a ++ crlf ++ q') = zlen p + zlen a + 2 + zlen q')
    by (rewrite !zlen_app; change (zlen crlf) with 2; lia).
  assert (Hmax : zlen p + zlen a + 2 + zlen q' < 2 ^ 31).
  { destruct Hsz as [Hsm|(_ & -> & _ & He)].
    - unfold small, REDIS_INLINE_MAX_SIZE in Hsm. rewrite Hz in Hsm. lia.
    - cbn [hd] in He. rewrite !zlen_app in He. change (zlen crlf) with 2 in He.
      change (zlen (@nil Z)) with 0. lia. }
  assert (Hbulk : c_bulklen c = zlen a) by (rewrite (m_bulk _ _ _ _ _ M); done).
  unfold bulk_body. rewrite Hbulk, Hql, Hz.
  rewrite u64_id, (u32_id (zlen a + 2)), swrap_small by lens.
  destruct (Z.ltb_spec (zlen p + zlen a + 2 + zlen q' - zlen p) (zlen a + 2)) as [|_]; [lia|].
  destruct ((zlen p =? 0) && (REDIS_MBULK_BIG_ARG <=? zlen a) &&
    (zlen p + zlen a + 2 + zlen q' =? zlen a + 2)) eqn:Eopt.
  - apply andb_true_iff in Eopt as [[Hp0 Hbig]%andb_true_iff Hex].
    assert (p = [] /\ q' = []) as [-> ->].
    { split; apply nil_length_inv; unfold zlen in *; lia. }
    cbn [app] in *. rewrite app_nil_r in *.
    destruct (sdsIncrLen_cut (c_querybuf c) _ 2 Hr) as (s' & Ecut & Hs'); [lia|rewrite zlen_app; change (zlen crlf) with 2; lia|].
    change (- (2)) with (-2) in Ecut. rewrite Ecut. step. rewrite zlen_app in Hs'. change (zlen crlf) with 2 in Hs'.
    replace (zlen a + 2 - 2) with (zlen a) in Hs' by lia.
    unfold zlen in Hs' at 1. rewrite Nat2Z.id, take_app_length in Hs'.
    rewrite push_arg_spec by (by eapply mid_room). step.
    destruct (sdsempty_spec junk) as (e & -> & He & _). step.
    eexists _, []. split; [done|]. split; [|split; [done|done]].
    apply (mid_pushed c done a todo (a ++ crlf)); [done| |by split].
    apply (sdsMakeRoomFor_rep junk e []); [done|lia|]. change (zlen (@nil Z)) with 0. lens.
  - destruct (string_arg_spec (c_querybuf c) p a (crlf ++ q') Hr) as (o & Ho & Hro); [lens|].
    unfold qbuf. rewrite Ho. step. rewrite push_arg_spec by (by eapply mid_room). step.
    eexists _, (p ++ a ++ crlf). split.
    { do 2 f_equal. rewrite !zlen_app. change (zlen crlf) with 2. lia. }
    assert (Hsplit : p ++ a ++ crlf ++ q' = (p ++ a ++ crlf) ++ q') by (by rewrite <- !app_assoc).
    rewrite <- Hsplit. split; [|split; [|done]].
    + apply (mid_pushed c done a todo (p ++ a ++ crlf ++ q') (c_querybuf c)); done.
    + destruct Hsz as [|(_ & -> & Hbig & He)]; [done|]. exfalso.
      cbn [hd] in He. rewrite !zlen_app in He. change (zlen crlf) with 2 in He.
      change (zlen (@nil Z)) with 0 in *. cbn [hd] in Hbig. unfold REDIS_MBULK_BIG_ARG in *. lia.
Qed.

Lemma app_prefix (q fut x r : list Z) : q ++ fut = x ++ r ->
  zlen q < zlen x \/ exists q', q = x ++ q' /\ q' ++ fut = r.
Proof.
  intros H. apply app_eq_inv in H as [(k & -> & Hf)|(k & -> & Hf)].
  - right. by exists k.
  - destruct k as [|c k]; [right; exists []; by rewrite !app_nil_r in *|].
    left. rewrite zlen_app, zlen_cons. pose proof (zlen_nonneg k). lia.
Qed.

Lemma bulk_body_wait c done a todo p q :
  mid c done (a :: todo) true (p ++ q) -> good_arg a ->
  small (p ++ q) \/ exact true (a :: todo) p q -> zlen q < zlen a + 2 ->
  bulk_body junk c (zlen p) = Some (Break c (zlen p)).
Proof.
  intros M Ha Hsz Hq. pose proof (qlen_rep c _ (m_rep _ _ _ _ _ M)) as Hql.
  unfold good_arg in Ha. pose proof (zlen_nonneg a). pose proof (zlen_nonneg p). pose proof (zlen_nonneg q).
  assert (Hbulk : c_bulklen c = zlen a) by (rewrite (m_bulk _ _ _ _ _ M); done).
  unfold bulk_body. rewrite Hbulk, Hql, zlen_app.
  assert (zlen p + zlen q < 2 ^ 31).
  { destruct Hsz as [Hsm|(_ & -> & _ & He)]; [unfold small, REDIS_INLINE_MAX_SIZE in Hsm; rewrite zlen_app in Hsm; lia|].
    change (zlen (@nil Z)) with 0. lia. }
  rewrite u64_id, (u32_id (zlen a + 2)) by lens.
  destruct (Z.ltb_spec (zlen p + zlen q - zlen p) (zlen a + 2)); [done|lia].
Qed.

(** What the parser leaves when it stops in the middle of a request: too little
    for the next step. *)
Definition short (blk : bool) (todo : list (list Z)) (q : list Z) : Prop :=
  if blk then zlen q < zlen (hd [] todo) + 2 else zlen q <= 23.

Lemma bulk_loop_spec todo : forall fuel c done blk p q fut X,
  (length todo < fuel)%nat -> Forall good_arg todo -> (blk = true -> todo <> []) ->
  mid c done todo blk (p ++ q) -> small (p ++ q) \/ exact blk todo p q ->
  q ++ fut = stream blk todo ++ X ->
  exists c' p' q' done' todo' blk', bulk_loop junk fuel c (zlen p) = Some (Break c' (zlen p')) /\
    mid c' done' todo' blk' (p' ++ q') /\ (blk' = true -> todo' <> []) /\ frame c c' /\
    done' ++ todo' = done ++ todo /\ Forall good_arg todo' /\
    q' ++ fut = stream blk' todo' ++ X /\ (small (p' ++ q') \/ exact blk' todo' p' q') /\
    (todo' = [] \/ short blk' todo' q' /\ zlen q' < zlen (stream blk' todo')).
Proof.
  induction todo as [|a todo IH]; intros fuel c done blk p q fut X Hf Hg Hb M Hsz Hq;
    (destruct fuel as [|fuel]; [simpl in Hf; lia|]); cbn [bulk_loop];
    rewrite (m_multi _ _ _ _ _ M).
  { exists c, p, q, done, [], blk. change (zlen (@nil (list Z)) =? 0) with true. cbv iota.
    destruct blk; [by destruct (Hb eq_refl)|].
    split; [done|]. split; [done|]. split; [done|]. split; [done|]. split; [done|].
    split; [done|]. split; [done|]. split; [done|by left]. }
  rewrite zlen_cons. pose proof (zlen_nonneg todo).
  destruct (Z.eqb_spec (1 + zlen todo) 0) as [|_]; [lia|].
  apply Forall_cons in Hg as [Ha Hg].
  (* the length of the argument, then the argument *)
  assert (Hbody : forall c1 p1 q1, mid c1 done (a :: todo) true (p1 ++ q1) -> frame c c1 ->
    small (p1 ++ q1) \/ exact true (a :: todo) p1 q1 -> q1 ++ fut = stream true (a :: todo) ++ X ->
    exists c' p' q' done' todo' blk',
      (r ← bulk_body junk c1 (zlen p1);
       match r with Go c pos => bulk_loop junk fuel c pos | r => Some r end) =
      Some (Break c' (zlen p')) /\
      mid c' done' todo' blk' (p' ++ q') /\ (blk' = true -> todo' <> []) /\ frame c c' /\
      done' ++ todo' = done ++ a :: todo /\ Forall good_arg todo' /\
      q' ++ fut = stream blk' todo' ++ X /\ (small (p' ++ q') \/ exact blk' todo' p' q') /\
      (todo' = [] \/ short blk' todo' q' /\ zlen q' < zlen (stream blk' todo'))).
  { intros c1 p1 q1 M1 Fr1 Hsz1 Hq1. cbn [stream] in Hq1. rewrite <- !app_assoc in Hq1.
    rewrite app_assoc in Hq1. destruct (app_prefix q1 fut (a ++ crlf) _ Hq1) as [Hlt|(q2 & -> & Hq2)].
    - rewrite zlen_app in Hlt. change (zlen crlf) with 2 in Hlt.
      rewrite (bulk_body_wait c1 done a todo p1 q1) by done. step.
      exists c1, p1, q1, done, (a :: todo), true. split; [done|]. split; [done|]. split; [done|].
      split; [done|]. split; [done|]. split; [by constructor|].
      split; [cbn [stream]; by rewrite Hq1, <- !app_assoc|]. split; [done|].
      right. split; [done|]. cbn [stream]. rewrite !zlen_app. change (zlen crlf) with 2.
      pose proof (zlen_nonneg (enc_args todo)). lia.
    - rewrite <- !app_assoc in *.
      destruct (bulk_body_take c1 done a todo p1 q2 M1 Ha Hsz1) as (c2 & p2 & -> & M2 & Hs2 & Fr2). step.
      destruct (IH fuel c2 (done ++ [a]) false p2 q2 fut X) as
        (c' & p' & q' & done' & todo' & blk' & -> & M' & Hb' & Fr' & Hd' & H'); try done.
      + simpl in Hf. lia.
      + by left.
      + exists c', p', q', done', todo', blk'. split; [done|]. split; [done|]. split; [done|].
        split; [by eapply frame_trans; [|eapply frame_trans]|]. split; [by rewrite Hd', <- app_assoc|done]. }
  destruct blk.
  - assert (Hh : bulk_header junk c (zlen p) = Some (Go c (zlen p))).
    { unfold bulk_header. rewrite (m_bulk _ _ _ _ _ M). cbn [hd].
      destruct (Z.eqb_spec (zlen a) (-1)); [pose proof (zlen_nonneg a); lia|done]. }
    rewrite Hh. step. by apply (Hbody c p q).
  - destruct Hsz as [Hsz|(Hbt & _)]; [|done].
    destruct (bulk_header_spec c done a todo p q fut X M Ha Hsz Hq)
      as [(-> & Hl & Hl')|(c1 & p1 & q1 & -> & M1 & Hs1 & Fr1 & Hq1)]; step.
    + exists c, p, q, done, (a :: todo), false.
      split; [done|]. split; [done|]. split; [done|]. split; [done|]. split; [done|].
      split; [by constructor|]. split; [done|]. split; [by left|]. right. split; [done|exact Hl'].
    + apply (Hbody c1 p1 q1); [done|done|by left|done].
Qed.

Lemma size_bound blk todo p q :
  small (p ++ q) \/ exact blk todo p q -> Forall good_arg todo -> zlen (p ++ q) < 2 ^ 31.
Proof.
  intros [H|(_ & -> & _ & H)] Hg; [unfold small, REDIS_INLINE_MAX_SIZE in H; lia|].
  cbn [app]. destruct todo as [|a todo]; cbn [hd] in H; [change (zlen (@nil Z)) with 0 in H; lia|].
  apply Forall_cons in Hg as [Hg _]. unfold good_arg in Hg. lia.
Qed.

(** ** Between two requests *)

Record start (c : client) (bs : list Z) : Prop := mkStart {
  s_rep : rep (c_querybuf c) bs;
  s_type : c_reqtype c = 0 \/ c_reqtype c = REDIS_REQ_MULTIBULK;
  s_multi : c_multibulklen c = 0;
  s_bulk : c_bulklen c = -1;
  s_argv : c_argv c = [] }.

Lemma multibulk_header_spec c q fut args X :
  start c q -> c_reqtype c = REDIS_REQ_MULTIBULK -> good_request args -> small q ->
  q ++ fut = header args ++ X ->
  (multibulk_header c = Some (Return c REDIS_ERR) /\ zlen q < zlen (header args) <= 24) \/
  (exists c' q', multibulk_header c = Some (Go c' (zlen (header args))) /\
     q = header args ++ q' /\ mid c' [] args false q /\ frame c c' /\ q' ++ fut = X).
Proof.
  intros M Ht [Hn Hg] Hsm Hq. pose proof (s_rep _ _ M) as Hr. pose proof (qlen_rep c _ Hr) as Hql.
  unfold multibulk_header. rewrite (s_argv _ _ M). change (zlen (@nil robj) =? 0) with true. cbn [negb].
  assert (Hnl : in_s 64 (zlen args)) by (apply zlen_sdec_len; lia).
  destruct (sdec_plain (zlen args) Hnl) as [Hs0 Hs13]. pose proof (sdec_zlen (zlen args) Hnl) as Hsl.
  assert (Hlen : zlen (header args) = zlen (sdec (zlen args)) + 3).
  { unfold header. rewrite zlen_cons, zlen_app. change (zlen crlf) with 2. lia. }
  unfold header in Hq. cbn [app] in Hq. rewrite <- app_assoc in Hq.
  change (42 :: sdec (zlen args) ++ crlf ++ X) with ((42 :: sdec (zlen args)) ++ crlf ++ X) in Hq.
  assert (Hplain : 0 ∉ 42 :: sdec (zlen args) /\ 13 ∉ 42 :: sdec (zlen args))
    by (rewrite !not_elem_of_cons; done).
  pose proof Hsm as Hsm'. unfold small, REDIS_INLINE_MAX_SIZE in Hsm'.
  destruct (line_cases q fut (42 :: sdec (zlen args)) _ Hq)
    as [(l & -> & m & Hx)|[->|(q' & -> & Hq')]].
  - left. assert (Hl : 0 ∉ l /\ 13 ∉ l).
    { destruct Hplain as [H1 H2]. rewrite Hx in H1, H2. split; intros Hi;
        [apply H1|apply H2]; apply elem_of_app; by left. }
    apply (f_equal zlen) in Hx. rewrite zlen_app, zlen_cons in Hx. pose proof (zlen_nonneg m).
    pose proof (strchr_from_miss c [] l 13 Hr ltac:(tauto) ltac:(tauto) ltac:(done)) as Hmiss.
    change (zlen (@nil Z)) with 0 in Hmiss. rewrite Hmiss. step.
    destruct (Z.ltb_spec REDIS_INLINE_MAX_SIZE (qlen c)) as [Hlt|_];
      [unfold REDIS_INLINE_MAX_SIZE in Hlt; lia|]. split; [done|]. lia.
  - left. destruct Hplain as [H1 H2].
    pose proof (strchr_from_hit c [] (42 :: sdec (zlen args)) [] 13 Hr H1 H2) as Hhit.
    change (zlen (@nil Z)) with 0 in Hhit. rewrite Z.add_0_l in Hhit. rewrite Hhit. step.
    rewrite Hql, zlen_app_one, zlen_cons, swrap_small by lens.
    destruct (Z.ltb_spec (1 + zlen (sdec (zlen args)) + 1 - 2) (1 + zlen (sdec (zlen args)))); [|lia].
    split; [done|]. lia.
  - right. destruct Hplain as [H1 H2].
    pose proof (strchr_from_hit c [] (42 :: sdec (zlen args)) (10 :: q') 13 Hr H1 H2) as Hhit.
    change (zlen (@nil Z)) with 0 in Hhit. rewrite Z.add_0_l in Hhit. rewrite Hhit. step.
    pose proof (zlen_nonneg q').
    assert (Hqz : zlen ((42 :: sdec (zlen args)) ++ crlf ++ q') = 1 + zlen (sdec (zlen args)) + 2 + zlen q').
    { rewrite !zlen_app, zlen_cons. change (zlen crlf) with 2. lia. }
    rewrite Hql, Hqz in *. rewrite zlen_cons, swrap_small by lens.
    destruct (Z.ltb_spec (1 + zlen (sdec (zlen args)) + 2 + zlen q' - 2) (1 + zlen (sdec (zlen args))))
      as [|_]; [lia|].
    assert (Hch : znth (qbuf c) 0 = Some 42).
    { destruct (rep_inv _ _ Hr) as (tail & E & _). unfold qbuf. by rewrite E. }
    rewrite Hch. step. change (negb (42 =? 42)) with false. cbv iota.
    pose proof (read_number_spec c _ [42] (zlen args) (crlf ++ q') Hr eq_refl Hnl) as Hnum.
    rewrite zlen_one in Hnum. rewrite Hnum. step.
    destruct (Z.ltb_spec (1024 * 1024) (zlen args)); [lia|].
    destruct (Z.leb_spec (zlen args) 0); [lia|].
    eexists _, q'. split; [rewrite Hlen; do 2 f_equal; lia|].
    split; [unfold header; cbn [app]; by rewrite <- app_assoc|]. split; [|done].
    destruct M as [Hrep _ _ Hbulk Hargv]. constructor; cbn; [done|done| |done| |].
    + rewrite swrap_small by cint. done.
    + rewrite Hargv. constructor.
    + rewrite swrap_small by cint. change (zlen (@nil (list Z))) with 0. lia.
Qed.

(** ** Where the parser is in the stream of requests *)

(** Between two requests, or with some arguments of one read. *)
Notation cursor := (option (list (list Z) * list (list Z) * bool)).

Definition waiting (c : client) (cur : cursor) (q : list Z) : Prop :=
  match cur with
  | None => start c q
  | Some (done, todo, blk) => mid c done todo blk q
  end.

Definition good_cursor (cur : cursor) : Prop :=
  match cur with
  | None => True
  | Some (_, todo, _) => todo <> [] /\ Forall good_arg todo
  end.

Definition remaining (cur : cursor) (reqs : list (list (list Z))) : list Z :=
  match cur with
  | None => enc_requests reqs
  | Some (_, todo, blk) => stream blk todo ++ enc_requests reqs
  end.

Definition pending (cur : cursor) (reqs : list (list (list Z))) : list (list (list Z)) :=
  match cur with None => reqs | Some (done, todo, _) => (done ++ todo) :: reqs end.

Definition sized (cur : cursor) (q : list Z) : Prop :=
  match cur with None => small q | Some (_, todo, blk) => small q \/ exact blk todo [] q end.

(** No whole request is left in the buffer. *)
Definition stuck (cur : cursor) (reqs : list (list (list Z))) (q : list Z) : Prop :=
  match cur, reqs with
  | None, [] => q = []
  | None, r :: _ => zlen q < zlen (header r) <= 24
  | Some (_, todo, blk), _ => zlen q < zlen (stream blk todo) /\ short blk todo q
  end.

Lemma trim_spec c done todo blk p q :
  mid c done todo blk (p ++ q) -> zlen (p ++ q) < 2 ^ 31 ->
  exists c', (if negb (zlen p =? 0)
              then s ← sdsrange (c_querybuf c) (zlen p) (-1); Some (set_querybuf c s)
              else Some c) = Some c' /\
    mid c' done todo blk q /\ frame c c'.
Proof.
  intros M Hl. destruct (Z.eqb_spec (zlen p) 0) as [Hp|Hp].
  - assert (p = []) as -> by (apply nil_length_inv; unfold zlen in Hp; lia). by exists c.
  - rewrite zlen_app in Hl. pose proof (zlen_nonneg p). pose proof (zlen_nonneg q).
    destruct (sdsrange_drop (c_querybuf c) (p ++ q) (zlen p) (m_rep _ _ _ _ _ M)) as (s' & E & Hs');
      [rewrite zlen_app; lia|lia|].
    cbn [negb]. rewrite E. step. unfold zlen in Hs' at 1. rewrite Nat2Z.id, drop_app_length in Hs'.
    eexists. split; [done|]. split; [|done]. destruct M. by constructor.
Qed.

Lemma stream_nonempty blk todo : todo <> [] -> 2 <= zlen (stream blk todo).
Proof.
  destruct todo as [|a todo]; [done|]. intros _.
  assert (H : 2 <= zlen (crlf ++ enc_args todo))
    by (rewrite zlen_app; change (zlen crlf) with 2; pose proof (zlen_nonneg (enc_args todo)); lia).
  pose proof (zlen_nonneg a). destruct blk; cbn [stream]; [rewrite zlen_app; lia|].
  rewrite enc_args_cons. rewrite zlen_app, zlen_cons, zlen_app, zlen_app.
  pose proof (zlen_nonneg (sdec (zlen a))). pose proof (zlen_nonneg crlf). lia.
Qed.

(** The loop over the arguments and what follows it. *)
Definition finish_bulk (c : client) (pos : Z) : option (client * Z) :=
  if negb (0 <? c_multibulklen c) then None
  else
    r ← bulk_loop junk (S (Z.to_nat (c_multibulklen c))) c pos;
    match r with
    | Return c r => Some (c, r)
    | Break c pos | Go c pos =>
        c ← (if negb (pos =? 0)
             then s ← sdsrange (c_querybuf c) pos (-1); Some (set_querybuf c s)
             else Some c);
        Some (c, if c_multibulklen c =? 0 then REDIS_OK else REDIS_ERR)
    end.

Lemma finish_bulk_spec c done todo blk p q fut reqs :
  mid c done todo blk (p ++ q) -> todo <> [] -> Forall good_arg todo ->
  small (p ++ q) \/ exact blk todo p q -> q ++ fut = stream blk todo ++ enc_requests reqs ->
  (exists c' q' done' todo' blk', finish_bulk c (zlen p) = Some (c', REDIS_ERR) /\
     mid c' done' todo' blk' q' /\ todo' <> [] /\ Forall good_arg todo' /\ frame c c' /\
     done' ++ todo' = done ++ todo /\ q' ++ fut = stream blk' todo' ++ enc_requests reqs /\
     zlen q' < zlen (stream blk' todo') /\ short blk' todo' q') \/
  (exists c' q', finish_bulk c (zlen p) = Some (c', REDIS_OK) /\
     rep (c_querybuf c') q' /\ small q' /\ zlen q' < zlen q /\
     Forall2 string_rep (c_argv c') (done ++ todo) /\ frame c c' /\
     q' ++ fut = enc_requests reqs).
Proof.
  intros M Hne Hg Hsz Hq. unfold finish_bulk. rewrite (m_multi _ _ _ _ _ M).
  assert (Hpos : 0 < zlen todo)
    by (destruct todo; [done|rewrite zlen_cons; pose proof (zlen_nonneg todo); lia]).
  destruct (Z.ltb_spec 0 (zlen todo)); [|lia]. cbn [negb].
  destruct (bulk_loop_spec todo (S (Z.to_nat (zlen todo))) c done blk p q fut _
    ltac:(unfold zlen; lia) Hg (fun _ => Hne) M Hsz Hq)
    as (c1 & p1 & q1 & done1 & todo1 & blk1 & -> & M1 & Hb1 & F1 & Hd1 & Hg1 & Hq1 & Hs1 & Hend).
  step. destruct (trim_spec c1 done1 todo1 blk1 p1 q1 M1 (size_bound _ _ _ _ Hs1 Hg1))
    as (c2 & -> & M2 & F2). step.
  rewrite (m_multi _ _ _ _ _ M2). pose proof (frame_trans _ _ _ F1 F2) as F.
  destruct (decide (todo1 = [])) as [->|Hne1].
  - right. change (zlen (@nil (list Z)) =? 0) with true. cbv iota.
    assert (blk1 = false) as -> by (destruct blk1; [by destruct (Hb1 eq_refl)|done]).
    cbn [stream] in Hq1. change (enc_args [] ++ enc_requests reqs) with (enc_requests reqs) in Hq1.
    exists c2, q1. split; [done|]. split; [apply M2|]. split.
    { destruct Hs1 as [Hs1|(Hbt & _)]; [|done]. unfold small in *. rewrite zlen_app in Hs1.
      pose proof (zlen_nonneg p1). lia. }
    split; [|split; [|done]].
    + apply (f_equal zlen) in Hq, Hq1. rewrite !zlen_app in Hq. rewrite zlen_app in Hq1.
      pose proof (stream_nonempty blk todo Hne). lia.
    + rewrite <- Hd1, app_nil_r. apply M2.
  - left. destruct Hend as [|[Hsh Hlt]]; [done|]. exists c2, q1, done1, todo1, blk1.
    assert (Hz : zlen todo1 <> 0) by (intros Hz; apply Hne1, nil_length_inv; unfold zlen in Hz; lia).
    rewrite (proj2 (Z.eqb_neq _ _) Hz). done.
Qed.

Lemma processMultibulk_spec c cur reqs q fut :
  waiting c cur q -> c_reqtype c = REDIS_REQ_MULTIBULK -> good_cursor cur ->
  Forall good_request reqs -> (cur = None -> reqs <> []) -> sized cur q ->
  q ++ fut = remaining cur reqs ->
  (exists c' q' cur' reqs', processMultibulkBuffer junk c = Some (c', REDIS_ERR) /\
     waiting c' cur' q' /\ good_cursor cur' /\ Forall good_request reqs' /\ frame c c' /\
     pending cur' reqs' = pending cur reqs /\ q' ++ fut = remaining cur' reqs' /\
     stuck cur' reqs' q') \/
  (exists c' q' args reqs', processMultibulkBuffer junk c = Some (c', REDIS_OK) /\
     rep (c_querybuf c') q' /\ small q' /\ zlen q' < zlen q /\ args <> [] /\
     Forall2 string_rep (c_argv c') args /\ frame c c' /\ Forall good_request reqs' /\
     pending cur reqs = args :: reqs' /\ q' ++ fut = enc_requests reqs').
Proof.
  intros Hw Ht Hgc Hg Hnone Hsz Hq. unfold processMultibulkBuffer.
  destruct cur as [[[done todo] blk]|]; cbn [waiting good_cursor remaining pending sized] in *.
  - destruct Hgc as [Hne Hga]. rewrite (m_multi _ _ _ _ _ Hw).
    assert (Hz : zlen todo <> 0) by (intros Hz; apply Hne, nil_length_inv; unfold zlen in Hz; lia).
    rewrite (proj2 (Z.eqb_neq _ _) Hz). step.
    destruct (finish_bulk_spec c done todo blk [] q fut reqs Hw Hne Hga Hsz Hq)
      as [(c' & q' & d' & t' & b' & E & M' & Hne' & Hga' & F & Hd & Hq' & Hlt & Hsh)|
          (c' & q' & E & Hr & Hs & Hlt & Ha & F & Hq')].
    + left. exists c', q', (Some (d', t', b')), reqs.
      split; [exact E|]. split; [done|]. split; [done|]. split; [done|]. split; [done|].
      split; [cbn [pending]; by rewrite Hd|done].
    + right. exists c', q', (done ++ todo), reqs.
      split; [exact E|]. repeat (split; [done|]). split; [|done]. by destruct done.
  - destruct reqs as [|args reqs]; [by destruct (Hnone eq_refl)|].
    apply Forall_cons in Hg as [Hga Hg].
    pose proof (enc_requests_cons args reqs) as Henc.
    rewrite Henc in Hq. rewrite (s_multi _ _ Hw). change (0 =? 0) with true. cbv iota.
    destruct (multibulk_header_spec c q fut args _ Hw Ht Hga Hsz Hq)
      as [[-> Hl]|(c1 & q1 & -> & -> & M1 & F1 & Hq1)]; step.
    + left. exists c, q, None, (args :: reqs). split; [done|]. split; [done|]. split; [done|].
      split; [by constructor|]. split; [done|]. split; [done|]. split; [cbn [remaining]; rewrite Henc; exact Hq|exact Hl].
    + assert (Hne : args <> []) by (destruct Hga as [Hl _]; intros ->;
        change (zlen (@nil (list Z))) with 0 in Hl; lia).
      destruct (finish_bulk_spec c1 [] args false (header args) q1 fut reqs M1 Hne (proj2 Hga)
        (or_introl Hsz) Hq1)
        as [(c' & q' & d' & t' & b' & E & M' & Hne' & Hga' & F & Hd & Hq' & Hlt & Hsh)|
            (c' & q' & E & Hr & Hs & Hlt & Ha & F & Hq')].
      * left. exists c', q', (Some (d', t', b')), reqs. split; [exact E|]. split; [done|].
        split; [done|]. split; [done|]. split; [by eapply frame_trans|].
        split; [cbn [pending]; by rewrite Hd|done].
      * right. exists c', q', args, reqs. split; [exact E|]. split; [done|]. split; [done|].
        split; [|split; [done|split; [done|split; [by eapply frame_trans|done]]]].
        rewrite zlen_app. pose proof (zlen_nonneg (header args)). lia.
Qed.

(** ** Requests executed *)

Section Run.
Context (unixtime client_max_querybuf_len : Z).
Context (Hmax : 512 * 1024 * 1024 + 2 <= client_max_querybuf_len).
Context {W : Type} (processCommand : W -> client -> option (W * client * bool)).
Context (run : W -> list (list Z) -> W).

Definition active (c : client) : Prop := c_blocked c = false /\ c_close c = false.

(** The command table executes the arguments, returns [REDIS_OK], and leaves
    the query buffer alone. *)
Definition executes : Prop := forall w c args,
  Forall2 string_rep (c_argv c) args -> args <> [] -> active c ->
  exists c', processCommand w c = Some (run w args, c', true) /\
    c_querybuf c' = c_querybuf c /\ active c'.

Context (Hcmd : executes).

Lemma frame_active c c' : frame c c' -> active c -> active c'.
Proof. unfold frame, active. intuition congruence. Qed.

Lemma resetClient_start c q : rep (c_querybuf c) q -> start (resetClient c) q.
Proof. intros H. unfold resetClient. case_match; by constructor; try (by left). Qed.

Lemma resetClient_active c : active c -> active (resetClient c).
Proof. intros H. unfold resetClient. by case_match. Qed.

Lemma waiting_rep c cur q : waiting c cur q -> rep (c_querybuf c) q.
Proof. destruct cur as [[[? ?] ?]|]; intros H; apply H. Qed.

Lemma header_bounds r : good_request r -> 4 <= zlen (header r) <= 24.
Proof.
  intros [Hl _]. unfold header. rewrite zlen_cons, zlen_app. change (zlen crlf) with 2.
  pose proof (sdec_zlen (zlen r) (zlen_sdec_len r ltac:(lia))). lia.
Qed.

Lemma stuck_nil cur reqs : good_cursor cur -> Forall good_request reqs -> stuck cur reqs [].
Proof.
  intros Hc Hg. destruct cur as [[[done todo] blk]|]; cbn [stuck].
  - destruct Hc as [Hne _]. pose proof (stream_nonempty blk todo Hne). cbn [short].
    change (zlen (@nil Z)) with 0. split; [lia|]. unfold short. change (zlen (@nil Z)) with 0.
    destruct blk; [|lia]. pose proof (zlen_nonneg (hd [] todo)). lia.
  - destruct reqs as [|r reqs]; [done|]. apply Forall_cons in Hg as [Hg _].
    pose proof (header_bounds r Hg). change (zlen (@nil Z)) with 0. lia.
Qed.

(** The first byte of a request settles its type. *)
Lemma settle_type c cur reqs x q fut :
  waiting c cur (x :: q) -> (x :: q) ++ fut = remaining cur reqs ->
  (if c_reqtype c =? 0 then (if x =? 42 then REDIS_REQ_MULTIBULK else REDIS_REQ_INLINE)
   else c_reqtype c) = REDIS_REQ_MULTIBULK /\ (cur = None -> reqs <> []).
Proof.
  intros Hw Hq. destruct cur as [[[done todo] blk]|]; cbn [waiting remaining] in *.
  - rewrite (m_type _ _ _ _ _ Hw). done.
  - destruct reqs as [|r reqs]; [done|]. injection Hq as -> _. split; [|done].
    by destruct (s_type _ _ Hw) as [-> | ->].
Qed.

Lemma waiting_typed c cur q m : waiting c cur q -> m = REDIS_REQ_MULTIBULK ->
  waiting (set_parse c m (c_multibulklen c) (c_bulklen c)) cur q.
Proof.
  intros Hw ->. destruct cur as [[[args todo] blk]|]; destruct Hw; constructor; cbn;
    first [assumption|reflexivity|by right].
Qed.

Lemma processInput_spec fuel : forall w c cur reqs q fut,
  (length q < fuel)%nat -> waiting c cur q -> good_cursor cur -> Forall good_request reqs ->
  active c -> sized cur q -> q ++ fut = remaining cur reqs ->
  exists c' q' cur' reqs' ran,
    processInputBuffer junk unixtime false processCommand fuel w c =
      Some (fold_left run ran w, c') /\
    waiting c' cur' q' /\ good_cursor cur' /\ Forall good_request reqs' /\ active c' /\
    pending cur reqs = ran ++ pending cur' reqs' /\ q' ++ fut = remaining cur' reqs' /\
    stuck cur' reqs' q'.
Proof.
  induction fuel as [|fuel IH]; intros w c cur reqs q fut Hf Hw Hgc Hg Ha Hsz Hq; [lia|].
  cbn [processInputBuffer]. pose proof (waiting_rep c cur q Hw) as Hr.
  rewrite (qlen_rep c q Hr). destruct q as [|x q].
  { exists c, [], cur, reqs, []. pose proof (stuck_nil cur reqs Hgc Hg). done. }
  rewrite zlen_cons. pose proof (zlen_nonneg q).
  destruct (Z.eqb_spec (1 + zlen q) 0) as [|_]; [lia|].
  rewrite andb_false_r. destruct Ha as [Hblk Hcl]. rewrite Hblk, Hcl.
  assert (H0 : znth (qbuf c) 0 = Some x).
  { destruct (rep_inv _ _ Hr) as (tail & E & _). unfold qbuf. by rewrite E. }
  rewrite H0. step. destruct (settle_type c cur reqs x q fut Hw Hq) as [-> Hnone].
  change (REDIS_REQ_MULTIBULK =? REDIS_REQ_INLINE) with false.
  change (REDIS_REQ_MULTIBULK =? REDIS_REQ_MULTIBULK) with true. cbv iota.
  set (c1 := set_parse c _ _ _).
  assert (Hw1 : waiting c1 cur (x :: q)) by (by apply waiting_typed).
  assert (Ha1 : active c1) by done.
  destruct (processMultibulk_spec c1 cur reqs (x :: q) fut Hw1 eq_refl Hgc Hg Hnone Hsz Hq)
    as [(c' & q' & cur' & reqs' & -> & Hw' & Hgc' & Hg' & F & Hp & Hq' & Hst)|
        (c' & q' & args & reqs' & -> & Hr' & Hs' & Hlt & Hne & Hargs & F & Hg' & Hp & Hq')]; step.
  - exists c', q', cur', reqs', []. pose proof (frame_active c1 c' F Ha1). done.
  - change (negb (REDIS_OK =? REDIS_OK)) with false. cbv iota.
    assert (Hz : zlen (c_argv c') <> 0).
    { pose proof (Forall2_length _ _ _ Hargs) as Hl. intros Hz. apply Hne, nil_length_inv.
      unfold zlen in Hz. lia. }
    rewrite (proj2 (Z.eqb_neq _ _) Hz).
    destruct (Hcmd w c' args Hargs Hne (frame_active c1 c' F Ha1)) as (c2 & -> & Hqb & Ha2). step.
    rewrite <- Hqb in Hr'.
    destruct (IH (run w args) (resetClient c2) None reqs' q' fut) as
      (c3 & q3 & cur3 & reqs3 & ran & -> & Hw3 & Hgc3 & Hg3 & Ha3 & Hp3 & Hq3 & Hst3);
      [|by apply resetClient_start|done|done|by apply resetClient_active|done|done|].
    { unfold zlen in Hlt. lia. }
    exists c3, q3, cur3, reqs3, (args :: ran). cbn [fold_left pending] in *.
    rewrite Hp, Hp3. done.
Qed.

(** ** Reads *)

Lemma set_buf_waiting c cur q s q' : waiting c cur q -> rep s q' ->
  waiting (set_querybuf c s) cur q'.
Proof.
  intros Hw Hs. destruct cur as [[[done todo] blk]|]; destruct Hw; by constructor.
Qed.

Lemma set_times_waiting c cur q a b d e : waiting c cur q -> waiting (set_times c a b d e) cur q.
Proof. intros Hw. destruct cur as [[[done todo] blk]|]; destruct Hw; by constructor. Qed.

(** What a read may deliver keeps the buffer small, or exact for a big argument. *)
Lemma read_length_spec c cur reqs q : waiting c cur q -> good_cursor cur -> stuck cur reqs q ->
  1 <= read_length c <= REDIS_IOBUF_LEN /\ zlen q <= 512 * 1024 * 1024 + 1 /\
  (forall bs, zlen bs <= read_length c -> sized cur (q ++ bs) /\
     zlen (q ++ bs) <= 512 * 1024 * 1024 + 2).
Proof.
  intros Hw Hgc Hst. unfold read_length. pose proof (zlen_nonneg q).
  unfold REDIS_IOBUF_LEN, sized, small, exact, REDIS_INLINE_MAX_SIZE, REDIS_MBULK_BIG_ARG.
  destruct cur as [[[done todo] blk]|]; cbn [waiting good_cursor stuck] in *.
  - destruct Hgc as [Hne Hga]. destruct Hst as [_ Hsh].
    rewrite (m_type _ _ _ _ _ Hw), (m_multi _ _ _ _ _ Hw), (m_bulk _ _ _ _ _ Hw).
    rewrite (qlen_rep c q (waiting_rep c (Some (done, todo, blk)) q Hw)).
    assert (Hz : zlen todo <> 0) by (intros Hz; apply Hne, nil_length_inv; unfold zlen in Hz; lia).
    rewrite (proj2 (Z.eqb_neq _ _) Hz). cbn [negb andb].
    destruct todo as [|a todo]; [done|]. apply Forall_cons in Hga as [Hga _]. unfold good_arg in Hga.
    cbn [hd short] in *. pose proof (zlen_nonneg a).
    change (REDIS_REQ_MULTIBULK =? REDIS_REQ_MULTIBULK) with true. cbn [andb].
    destruct blk; unfold short in Hsh; cbn [hd] in Hsh.
    + destruct (Z.eqb_spec (zlen a) (-1)); [lia|]. cbn [negb andb].
      destruct (Z.leb_spec (1024 * 32) (zlen a)) as [Hbig|Hsm].
      * rewrite (u32_id (zlen a + 2)), s32_u64, swrap_small by lens.
        destruct (Z.ltb_spec (zlen a + 2 - zlen q) (1024 * 16)).
        -- split; [lia|]. split; [lia|]. intros bs Hbs. rewrite zlen_app. split; [right|lia].
           split; [done|]. split; [done|]. split; [lia|lia].
        -- split; [lia|]. split; [lia|]. intros bs Hbs. rewrite zlen_app. split; [right|lia].
           split; [done|]. split; [done|]. split; [lia|lia].
      * split; [lia|]. split; [lia|]. intros bs Hbs. rewrite zlen_app. split; [left|]; lia.
    + change (negb (-1 =? -1)) with false. cbn [andb].
      split; [lia|]. split; [lia|]. intros bs Hbs. rewrite zlen_app. split; [left|]; lia.
  - rewrite (s_multi _ _ Hw). change (negb (0 =? 0)) with false. rewrite andb_false_r. cbn [andb].
    assert (zlen q <= 24).
    { destruct reqs; [rewrite Hst; change (zlen (@nil Z)) with 0; lia|lia]. }
    split; [lia|]. split; [lia|]. intros bs Hbs. rewrite zlen_app. lia.
Qed.

Lemma readQuery_spec w c cur reqs q bs fut :
  waiting c cur q -> good_cursor cur -> Forall good_request reqs -> active c ->
  stuck cur reqs q -> q ++ bs ++ fut = remaining cur reqs -> zlen bs <= read_length c ->
  exists c' q' cur' reqs' ran,
    readQueryFromClient junk unixtime client_max_querybuf_len false processCommand w c
      (ReadData bs) = Some (fold_left run ran w, Some c') /\
    waiting c' cur' q' /\ good_cursor cur' /\ Forall good_request reqs' /\ active c' /\
    pending cur reqs = ran ++ pending cur' reqs' /\ q' ++ fut = remaining cur' reqs' /\
    stuck cur' reqs' q'.
Proof.
  intros Hw Hgc Hg Ha Hst Hq Hbs.
  destruct (read_length_spec c cur reqs q Hw Hgc Hst) as (Hrl & Hql & Hsz).
  destruct (Hsz bs Hbs) as [Hsized Hmaxq]. unfold REDIS_IOBUF_LEN in Hrl.
  pose proof (waiting_rep c cur q Hw) as Hr. unfold readQueryFromClient.
  pose proof (zlen_nonneg bs). pose proof (zlen_nonneg q).
  set (peak := if c_querybuf_peak c <? qlen c then _ else _).
  cbn [c_querybuf set_times]. rewrite (qlen_rep c q Hr).
  rewrite (u64_id (read_length c)) by (unfold in_u; lia).
  destruct (read_room (c_querybuf c) q bs (read_length c) Hr Hbs) as (buf & s2 & -> & E & Hr2);
    [unfold REDIS_IOBUF_LEN; lia|lia|]. cbn [mbind option_bind].
  rewrite E. cbn [mbind option_bind].
  set (c1 := set_times _ _ _ _ _).
  assert (Hw1 : waiting c1 cur (q ++ bs)).
  { apply set_times_waiting. eapply set_buf_waiting; [|done]. by apply set_times_waiting. }
  assert (Hq1 : qlen c1 = zlen (q ++ bs)) by (apply (qlen_rep c1), (waiting_rep c1 cur), Hw1).
  rewrite Hq1. destruct (Z.ltb_spec client_max_querybuf_len (zlen (q ++ bs))); [lia|].
  destruct (processInput_spec (S (Z.to_nat (zlen (q ++ bs)))) w c1 cur reqs (q ++ bs) fut)
    as (c' & q' & cur' & reqs' & ran & -> & H'); try done.
  - unfold zlen. lia.
  - by rewrite <- app_assoc.
  - cbn [mbind option_bind]. exists c', q', cur', reqs', ran. done.
Qed.

(** EAGAIN leaves the parser where it is. *)
Lemma readAgain_spec w c cur reqs q :
  waiting c cur q -> good_cursor cur -> active c -> stuck cur reqs q ->
  exists c', readQueryFromClient junk unixtime client_max_querybuf_len false processCommand w c
      ReadAgain = Some (w, Some c') /\ waiting c' cur q /\ active c'.
Proof.
  intros Hw Hgc Ha Hst.
  destruct (read_length_spec c cur reqs q Hw Hgc Hst) as (Hrl & Hql & _).
  unfold REDIS_IOBUF_LEN in Hrl. unfold readQueryFromClient. eexists. split; [reflexivity|].
  split; [|done]. eapply set_buf_waiting; [by apply set_times_waiting|]. cbn [c_querybuf set_times].
  rewrite (u64_id (read_length c)) by (unfold in_u; lia). pose proof (zlen_nonneg q).
  apply sdsMakeRoomFor_rep; [by eapply waiting_rep|lia|lens].
Qed.

(** A connection: at each readable event the kernel gives at most as many bytes
    as asked for, and as many as [sched] says; none is EAGAIN. *)
Fixpoint run_reads (sched : list nat) (w : W) (c : client) (input : list Z)
    : option (W * option client * list Z) :=
  match sched, input with
  | [], _ | _, [] => Some (w, Some c, input)
  | n :: sched, _ =>
      let k := Z.to_nat (Z.min (Z.of_nat n) (read_length c)) in
      '(w, c) ← readQueryFromClient junk unixtime client_max_querybuf_len false processCommand w c
                  (match take k input with [] => ReadAgain | bs => ReadData bs end);
      match c with
      | Some c => run_reads sched w c (drop k input)
      | None => Some (w, None, input)
      end
  end.

Definition productive (sched : list nat) : Z := zlen (filter (fun n => n <> 0%nat) sched).

Lemma run_reads_spec sched : forall w c cur reqs q input,
  waiting c cur q -> good_cursor cur -> Forall good_request reqs -> active c ->
  stuck cur reqs q -> q ++ input = remaining cur reqs ->
  exists c' q' cur' reqs' ran rest,
    run_reads sched w c input = Some (fold_left run ran w, Some c', rest) /\
    waiting c' cur' q' /\ good_cursor cur' /\ active c' /\
    pending cur reqs = ran ++ pending cur' reqs' /\
    q' ++ rest = remaining cur' reqs' /\ stuck cur' reqs' q' /\
    (zlen input <= productive sched -> rest = []).
Proof.
  induction sched as [|n sched IH]; intros w c cur reqs q input Hw Hgc Hg Ha Hst Hq.
  { exists c, q, cur, reqs, [], input. repeat (split; [done|]). intros Hz.
    change (productive []) with 0 in Hz. destruct input; [done|].
    rewrite zlen_cons in Hz. pose proof (zlen_nonneg input). lia. }
  destruct input as [|x input].
  { exists c, q, cur, reqs, [], []. done. }
  cbn [run_reads]. set (k := Z.to_nat _).
  destruct (read_length_spec c cur reqs q Hw Hgc Hst) as (Hrl & _ & _).
  destruct (take k (x :: input)) as [|y bs] eqn:Ek.
  - assert (Hk : k = 0%nat) by (destruct k; [done|discriminate]).
    destruct (readAgain_spec w c cur reqs q Hw Hgc Ha Hst) as (c1 & -> & Hw1 & Ha1). step.
    rewrite Hk. cbn [drop].
    destruct (IH w c1 cur reqs q (x :: input) Hw1 Hgc Hg Ha1 Hst Hq)
      as (c' & q' & cur' & reqs' & ran & rest & -> & H1 & H2 & H2' & H3 & H4 & H5 & H6).
    exists c', q', cur', reqs', ran, rest. repeat (split; [done|]). intros Hz. apply H6.
    unfold productive in Hz. rewrite filter_cons_False in Hz; [done|]. unfold k in Hk.
    intros Hn. apply Hn. lia.
  - pose proof (take_drop k (x :: input)) as Htd. rewrite Ek in Htd.
    destruct (readQuery_spec w c cur reqs q (y :: bs) (drop k (x :: input)) Hw Hgc Hg Ha Hst)
      as (c1 & q1 & cur1 & reqs1 & ran1 & -> & Hw1 & Hgc1 & Hg1 & Ha1 & Hp1 & Hq1 & Hst1).
    { by rewrite Htd. }
    { rewrite <- Ek. unfold zlen. rewrite length_take. lia. }
    step. destruct (IH (fold_left run ran1 w) c1 cur1 reqs1 q1 _ Hw1 Hgc1 Hg1 Ha1 Hst1 Hq1)
      as (c' & q' & cur' & reqs' & ran & rest & -> & H1 & H2 & H2' & H3 & H4 & H5 & H6).
    exists c', q', cur', reqs', (ran1 ++ ran), rest. rewrite fold_left_app, Hp1, H3, <- app_assoc.
    repeat (split; [done|]). intros Hz. apply H6. unfold productive in *.
    assert (Hk : k <> 0%nat) by (intros Hk; by rewrite Hk in Ek).
    rewrite filter_cons_True in Hz by (intros ->; apply Hk; unfold k; lia).
    rewrite zlen_cons in Hz.
    apply (f_equal zlen) in Htd. rewrite zlen_app, !zlen_cons in *. pose proof (zlen_nonneg bs). lia.
Qed.

(** When every byte has been read nothing is pending. *)
Lemma stuck_end cur reqs q : good_cursor cur -> stuck cur reqs q -> q = remaining cur reqs ->
  cur = None /\ reqs = [].
Proof.
  intros Hgc Hst Hq. destruct cur as [[[args todo] blk]|]; cbn [stuck remaining] in *.
  - destruct Hst as [Hlt _]. apply (f_equal zlen) in Hq. rewrite zlen_app in Hq.
    pose proof (zlen_nonneg (enc_requests reqs)). lia.
  - destruct reqs as [|r reqs]; [done|]. apply (f_equal zlen) in Hq.
    rewrite enc_requests_cons, !zlen_app in Hq. pose proof (zlen_nonneg (enc_args r)).
    pose proof (zlen_nonneg (enc_requests reqs)). lia.
Qed.

End Run.
End Spec.

(** ** Properties *)

(** A client that has just connected. *)
Definition new_client (s : sds) : client :=
  mkClient s 0 [] 0 false 0 0 (-1) false false false false false false 0 0 0 [].

(** C9: However the bytes of pipelined requests are cut into reads (EAGAIN
    included), the requests are executed once each, in order, with exactly the
    arguments that were sent and no protocol error: after any number of reads a
    prefix of them has been executed, and once as many productive reads have
    happened as there are bytes, all of them, with nothing left in the buffer. *)
Theorem requests_executed (junk : nat -> Z) (unixtime client_max_querybuf_len : Z)
    (W : Type) (processCommand : W -> client -> option (W * client * bool))
    (run : W -> list (list Z) -> W) (w : W) (s : sds)
    (reqs : list (list (list Z))) (sched : list nat)
    (Hmax : 512 * 1024 * 1024 + 2 <= client_max_querybuf_len)
    (Hcmd : executes processCommand run) (Hs : rep s []) (Hreqs : Forall good_request reqs) :
  exists c ran later rest,
    run_reads junk unixtime client_max_querybuf_len processCommand sched w (new_client s)
      (enc_requests reqs) = Some (fold_left run ran w, Some c, rest) /\
    reqs = ran ++ later /\ c_close c = false /\
    (rest = [] -> later = [] /\ rep (c_querybuf c) []) /\
    (zlen (enc_requests reqs) <= productive sched -> rest = []).
Proof.
  destruct (run_reads_spec junk unixtime client_max_querybuf_len Hmax processCommand run Hcmd
    sched w (new_client s) None reqs [] (enc_requests reqs))
    as (c & q & cur & reqs' & ran & rest & -> & Hw & Hgc & Ha & Hp & Hq & Hst & Hrest);
    [by constructor; try (by left)|done|done|done|by apply stuck_nil|done|].
  exists c, ran, (pending cur reqs'), rest. split; [done|]. split; [done|].
  split; [apply Ha|]. split; [|done]. intros ->. rewrite app_nil_r in Hq.
  destruct (stuck_end cur reqs' q Hgc Hst Hq) as [-> ->]. split; [done|].
  rewrite Hst in Hw. apply Hw.
Qed.

(** A server that logs the arguments it executes. *)
Definition log_command (w : list (list (list Z))) (c : client)
    : option (list (list (list Z)) * client * bool) :=
  Some (w ++ [obj_bytes (fun _ => 7) <$> c_argv c], c, true).

Lemma log_executes : executes log_command (fun w args => w ++ [args]).
Proof.
  intros w c args Hargs _ Ha. exists c. split; [|done]. unfold log_command.
  replace (obj_bytes (fun _ => 7) <$> c_argv c) with args; [done|]. symmetry.
  induction Hargs as [|o a argv args Ho _ IH]; [done|].
  rewrite fmap_cons, IH. f_equal. by apply obj_bytes_rep.
Qed.

Lemma requests_executed_witness :
  let reqs := [[bytes_of "SET"; bytes_of "k"; [13; 10; 0; 42]]; [bytes_of "GET"; bytes_of "k"]] in
  exists c, run_reads (fun _ => 7) 0 (1024 * 1024 * 1024) log_command
      (0%nat :: replicate 60 1%nat) [] (new_client (mkSds 0 0 [0])) (enc_requests reqs) =
    Some (reqs, Some c, []) /\ rep (c_querybuf c) [].
Proof.
  intros reqs.
  destruct (requests_executed (fun _ => 7) 0 (1024 * 1024 * 1024) _ log_command
    (fun w args => w ++ [args]) [] (mkSds 0 0 [0]) reqs (0%nat :: replicate 60 1%nat))
    as (c & ran & later & rest & E & Hp & _ & Hend & Hall);
    [lia|exact log_executes|split; [done|split; [by_decide|by exists []]]|by_decide|].
  destruct (Hend (Hall ltac:(by_decide))) as [-> Hr]. rewrite app_nil_r in Hp.
  rewrite (Hall ltac:(by_decide)), <- Hp in E. exists c. split; [exact E|exact Hr].
Defined.
