(* ===== verification/ProtocolSafe.v ===== *)
(** The request parser on arbitrary input: whatever bytes a client sends and
    however they are cut, the parser is defined at every step - it reads and
    writes inside the query buffer and the argument array, and its assertions
    hold. *)
From stdpp Require Import gmap list.
From S2P Require Import Prelude Util Sds SdsText Object Protocol ProtocolSpec.
Local Open Scope c_scope.

Section Safe.
Context (junk : nat -> Z) (unixtime : Z).

(** What holds of an open connection. *)
Record sane (c : client) (bs : list Z) : Prop := mkSane {
  n_rep : rep (c_querybuf c) bs;
  n_len : zlen bs < 2 ^ 31 - 2;
  n_multi : 0 <= c_multibulklen c;
  n_bulk : c_bulklen c = -1 \/ 0 <= c_bulklen c <= 512 * 1024 * 1024;
  n_room : 0 < c_multibulklen c -> zlen (c_argv c) + c_multibulklen c <= c_room c }.

(** A connection that will be closed: its buffer is not parsed any more. *)
Definition closed (c : client) (n : Z) : Prop :=
  c_close c = true /\ c_bulklen c = -1 /\ exists bs, rep (c_querybuf c) bs /\ zlen bs <= n.

Lemma setProtocolError_safe c bs pos :
  rep (c_querybuf c) bs -> zlen bs < 2 ^ 31 -> c_bulklen c = -1 -> 0 <= pos < 2 ^ 31 ->
  exists c', setProtocolError c pos = Some c' /\ closed c' (zlen bs).
Proof.
  intros Hr Hl Hb Hp. unfold setProtocolError. cbn [c_querybuf set_flags].
  destruct (sdsrange_drop (c_querybuf c) bs pos Hr Hl Hp) as (s' & -> & Hs'). step.
  eexists. split; [done|]. split; [done|]. split; [done|]. eexists. split; [exact Hs'|].
  unfold zlen. rewrite length_drop. lia.
Qed.

Lemma protocol_error_safe c bs err pos :
  rep (c_querybuf c) bs -> zlen bs < 2 ^ 31 -> c_bulklen c = -1 -> 0 <= pos < 2 ^ 31 ->
  exists c', protocol_error c err pos = Some (c', REDIS_ERR) /\ closed c' (zlen bs).
Proof.
  intros Hr Hl Hb Hp. unfold protocol_error.
  destruct (setProtocolError_safe (addReplyError c err) bs pos) as (c' & -> & Hc); try done.
  by exists c'.
Qed.

(** The search for the end of a line from a position. *)
Lemma strchr_from_safe c bs pos ch :
  rep (c_querybuf c) bs -> 0 <= pos <= zlen bs -> ch <> 0 ->
  exists r, strchr_from c pos ch = Some r /\
    (forall n, r = Some n -> pos <= n < zlen bs /\ znth bs n = Some ch /\
       0 ∉ take (Z.to_nat (n - pos)) (drop (Z.to_nat pos) bs)).
Proof.
  intros (tail & E & _)%rep_inv Hp Hc. unfold strchr_from, qbuf. rewrite E. cbn [sds_buf].
  destruct (index_of_bound ch (drop (Z.to_nat pos) bs) tail Hc pos) as (r & Er & Hr).
  exists r. rewrite drop_app_le by (unfold zlen in Hp; lia). split; [done|]. intros n Hn.
  destruct (Hr n Hn) as (Hb & Hz & H0). unfold zlen in *. rewrite length_drop in Hb.
  split; [lia|]. split; [|done]. unfold znth in *. rewrite decide_True in Hz by lia. rewrite decide_True by lia.
  rewrite lookup_drop in Hz. rewrite <- Hz. f_equal. lia.
Qed.

Lemma read_number_safe c bs pos newline :
  rep (c_querybuf c) bs -> 0 <= pos <= newline -> newline <= zlen bs ->
  exists r, read_number c pos newline = Some r /\ (forall v, r = Some v -> in_s 64 v).
Proof.
  intros (tail & E & _)%rep_inv Hp Hn. unfold read_number, qbuf. rewrite E. cbn [sds_buf].
  destruct (slice_split bs pos (newline - pos)) as (a & m & k & -> & Ha & Hm & _); [lia|lia|lia|].
  rewrite <- !app_assoc, <- Hm, mem_read_app by lia. step.
  destruct (string2ll_spec m) as [(v & Hv & _ & ->)|[_ ->]]; step.
  - exists (Some v). split; [done|]. by intros w [= <-].
  - by exists None.
Qed.

Lemma znth_buf c bs pos x : rep (c_querybuf c) bs -> znth bs pos = Some x ->
  znth (qbuf c) pos = Some x.
Proof.
  intros (tail & E & _)%rep_inv Hx. unfold qbuf. rewrite E. cbn [sds_buf].
  rewrite znth_app_l; [done|]. apply znth_Some_bound in Hx. lia.
Qed.

(** ** The steps of the parser *)

Lemma bulk_header_safe c bs pos :
  sane c bs -> 0 <= pos <= zlen bs ->
  exists r, bulk_header junk c pos = Some r /\
    match r with
    | Return c' e => e = REDIS_ERR /\ closed c' (zlen bs)
    | Break c' p' => c' = c /\ p' = pos /\ c_bulklen c = -1
    | Go c' p' => exists bs', sane c' bs' /\ 0 <= p' <= zlen bs' /\ 0 <= c_bulklen c' /\
        zlen bs' - p' <= zlen bs - pos /\ zlen bs' <= zlen bs /\
        c_multibulklen c' = c_multibulklen c /\ frame c c' /\ c_reqtype c' = c_reqtype c
    end.
Proof.
  intros M Hp. destruct M as [Hr Hl Hm Hb Hroom]. unfold bulk_header.
  destruct (Z.eqb_spec (c_bulklen c) (-1)) as [Hbk|Hbk]; cbn [negb].
  2: { exists (Go c pos). split; [done|]. exists bs. split; [done|]. split; [done|].
       split; [lia|]. split; [lia|]. done. }
  pose proof (qlen_rep c bs Hr) as Hql.
  destruct (strchr_from_safe c bs pos 13 Hr Hp ltac:(done)) as (nl & -> & Hnl). step.
  destruct nl as [n|].
  2: { destruct (_ <? qlen c).
       - destruct (protocol_error_safe c bs "Protocol error: too big bulk count string" 0)
           as (c' & -> & Hc); [done|lia|done|lia|]. by exists (Return c' REDIS_ERR).
       - by exists (Break c pos). }
  destruct (Hnl n eq_refl) as (Hn & Hch & _). rewrite Hql, swrap_small by lens.
  destruct (Z.ltb_spec (zlen bs - 2) n); [by exists (Break c pos)|].
  destruct (znth_Some bs pos) as [x Hx]; [lia|]. rewrite (znth_buf c bs pos x Hr Hx). step.
  destruct (Z.eqb_spec x 36) as [->|Hne]; cbn [negb].
  2: { destruct (setProtocolError_safe (addReplyErrorFormat c
         (bytes_of "Protocol error: expected '$', got '" ++ [x] ++ bytes_of "'")) bs pos)
         as (c' & -> & Hc); [done|lia|done|lia|]. step. by exists (Return c' REDIS_ERR). }
  assert (Hnp : pos < n) by (destruct (decide (n = pos)) as [->|]; [congruence|lia]).
  destruct (read_number_safe c bs (pos + 1) n Hr) as (ll & -> & Hll); [lia|lia|]. step.
  assert (Herr : exists c', protocol_error c "Protocol error: invalid bulk length" pos =
    Some (c', REDIS_ERR) /\ closed c' (zlen bs)) by (apply protocol_error_safe; (done || lia)).
  destruct Herr as (ce & Ee & Hce).
  destruct ll as [v|]; [|rewrite Ee; by exists (Return ce REDIS_ERR)].
  destruct ((v <? 0) || (512 * 1024 * 1024 <? v)) eqn:Ev; [rewrite Ee; by exists (Return ce REDIS_ERR)|].
  apply orb_false_iff in Ev as [Ev1 Ev2].
  replace (pos + (n - pos) + 2) with (n + 2) by lia.
  destruct (REDIS_MBULK_BIG_ARG <=? v).
  - destruct (sdsrange_drop (c_querybuf c) bs (n + 2) Hr) as (s' & -> & Hs'); [lia|lia|]. step.
    set (bs' := drop (Z.to_nat (n + 2)) bs) in *.
    assert (Hz : zlen bs' = zlen bs - (n + 2)) by (unfold bs', zlen; rewrite length_drop; unfold zlen in *; lia).
    eexists. split; [done|]. exists bs'. pose proof (zlen_nonneg bs').
    split; [|cbn; repeat split; lia || done]. constructor; cbn; [|lia|done|lia|done].
    assert (Hl' : sds_len s' = zlen bs') by apply Hs'. rewrite Hl', (u64_id (v + 2)) by (unfold in_u; lia).
    destruct (Z.ltb_spec (zlen bs') (v + 2)); [|done]. rewrite u64_id by (unfold in_u; lia).
    apply sdsMakeRoomFor_rep; [done|lia|lens].
  - step. eexists. split; [done|]. exists bs. split; [|cbn; repeat split; lia || done].
    constructor; cbn; [done|done|done|lia|done].
Qed.

Lemma bulk_body_safe c bs pos :
  sane c bs -> 0 <= pos <= zlen bs -> 0 <= c_bulklen c -> 0 < c_multibulklen c ->
  exists r, bulk_body junk c pos = Some r /\
    match r with
    | Return c' e => False
    | Break c' p' => c' = c /\ p' = pos /\ zlen bs - pos < c_bulklen c + 2
    | Go c' p' => exists bs', sane c' bs' /\ 0 <= p' <= zlen bs' /\ c_bulklen c' = -1 /\
        zlen bs' - p' < zlen bs - pos /\ zlen bs' <= zlen bs /\
        c_multibulklen c' = c_multibulklen c - 1 /\ frame c c' /\ c_reqtype c' = c_reqtype c
    end.
Proof.
  intros M Hp Hbp Hmp. destruct M as [Hr Hl Hm Hb Hroom]. unfold bulk_body.
  destruct Hb as [Hb|Hb]; [lia|]. pose proof (qlen_rep c bs Hr) as Hql. rewrite Hql.
  rewrite u64_id, (u32_id (c_bulklen c + 2)), swrap_small by lens.
  destruct (Z.ltb_spec (zlen bs - pos) (c_bulklen c + 2)) as [Hlt|Hge].
  { exists (Break c pos). done. }
  assert (Hroom' : zlen (c_argv c) < c_room c) by (specialize (Hroom Hmp); lia).
  destruct ((pos =? 0) && (REDIS_MBULK_BIG_ARG <=? c_bulklen c) && (zlen bs =? c_bulklen c + 2)) eqn:E.
  - destruct (sdsIncrLen_cut (c_querybuf c) bs 2 Hr) as (s' & Ec & Hs'); [lia|lia|].
    change (- (2)) with (-2) in Ec. rewrite Ec. step. rewrite push_arg_spec by done. step.
    destruct (sdsempty_spec junk) as (e & -> & He & _). step. eexists. split; [done|].
    exists []. change (zlen (@nil Z)) with 0. cbn. split; [|repeat split; lia || done].
    constructor; cbn; [|change (zlen (@nil Z)) with 0; lia|lia|by left|].
    + apply (sdsMakeRoomFor_rep junk e []); [done|lia|]. change (zlen (@nil Z)) with 0. lens.
    + intros Hm'. rewrite zlen_app_one. specialize (Hroom Hmp). lia.
  - destruct (slice_split bs pos (c_bulklen c)) as (p & a & k & Hbs & Hzp & Hza & _); [lia|lia|lia|].
    assert (Hr' : rep (c_querybuf c) (p ++ a ++ k)) by (by rewrite <- Hbs).
    destruct (string_arg_spec junk (c_querybuf c) p a k Hr') as (o & Ho & _); [lens|].
    unfold qbuf. rewrite Hzp, Hza in Ho. rewrite Ho. step. rewrite push_arg_spec by done. step.
    eexists. split; [done|]. exists bs. cbn. split; [|repeat split; lia || done].
    constructor; cbn; [done|done|lia|by left|].
    intros Hm'. rewrite zlen_app_one. specialize (Hroom Hmp). lia.
Qed.

(** The end of the loop over the arguments. *)
Definition loop_end (c : client) (bs : list Z) (pos : Z) (r : flow) : Prop :=
  match r with
  | Return c' e => e = REDIS_ERR /\ closed c' (zlen bs)
  | Go _ _ => False
  | Break c' p' => exists bs', sane c' bs' /\ 0 <= p' <= zlen bs' /\
      zlen bs' - p' <= zlen bs - pos /\ zlen bs' <= zlen bs /\ frame c c' /\
      c_reqtype c' = c_reqtype c /\
      (c_multibulklen c' = 0 -> c_bulklen c' = -1 /\
         (0 < c_multibulklen c -> zlen bs' - p' < zlen bs - pos)) /\
      (0 < c_multibulklen c' -> 0 <= c_bulklen c' -> zlen bs' - p' < c_bulklen c' + 2)
  end.

Ltac loop_parts :=
  split; [done|]; split; [lia|]; split; [lia|]; split; [lia|]; split; [done|]; split; [done|].

Lemma bulk_loop_safe fuel : forall c bs pos,
  (Z.to_nat (c_multibulklen c) < fuel)%nat -> sane c bs -> 0 <= pos <= zlen bs ->
  (c_multibulklen c = 0 -> c_bulklen c = -1) ->
  exists r, bulk_loop junk fuel c pos = Some r /\ loop_end c bs pos r.
Proof.
  induction fuel as [|fuel IH]; intros c bs pos Hf M Hp H0; [lia|]. cbn [bulk_loop].
  destruct (Z.eqb_spec (c_multibulklen c) 0) as [Hm|Hm].
  { exists (Break c pos). split; [done|]. exists bs. loop_parts.
    split; [|lia]. intros _. split; [auto|lia]. }
  pose proof (n_multi _ _ M) as Hm0.
  destruct (bulk_header_safe c bs pos M Hp) as (r & -> & Hr). step.
  destruct r as [c1 e|c1 p1|c1 p1].
  { exists (Return c1 e). done. }
  { destruct Hr as (-> & -> & Hb). exists (Break c pos). split; [done|]. exists bs.
    loop_parts. split; [lia|]. rewrite Hb. lia. }
  destruct Hr as (bs1 & M1 & Hp1 & Hb1 & Hd1 & Hl1 & Hm1 & F1 & Ht1).
  destruct (bulk_body_safe c1 bs1 p1 M1 Hp1 Hb1 ltac:(lia)) as (r & -> & Hr). step.
  destruct r as [c2 e|c2 p2|c2 p2]; [done| |].
  { destruct Hr as (-> & -> & Hlt). exists (Break c1 p1). split; [done|]. exists bs1.
    loop_parts. split; lia. }
  destruct Hr as (bs2 & M2 & Hp2 & Hb2 & Hd2 & Hl2 & Hm2 & F2 & Ht2).
  destruct (IH c2 bs2 p2 ltac:(lia) M2 Hp2 (fun _ => Hb2)) as (r & -> & Hr).
  exists r. split; [done|]. destruct r as [c3 e|c3 p3|c3 p3]; [| |done].
  - destruct Hr as [-> (Hc & Hb & bs3 & Hr3 & Hz)]. split; [done|]. split; [done|].
    split; [done|]. exists bs3. split; [done|lia].
  - destruct Hr as (bs3 & M3 & Hp3 & Hd3 & Hl3 & F3 & Ht3 & Hz3 & Hn3). exists bs3.
    split; [done|]. split; [done|]. split; [lia|]. split; [lia|].
    split; [by eapply frame_trans; [|eapply frame_trans]|]. split; [congruence|].
    split; [|done]. intros Hz. destruct (Hz3 Hz) as [Hb Hlt]. split; [done|]. intros _. lia.
Qed.

(** An open connection between two calls of the parser. *)
Record openc (c : client) (bs : list Z) : Prop := mkOpen {
  o_sane : sane c bs;
  o_type : c_reqtype c = 0 \/ c_reqtype c = REDIS_REQ_INLINE \/ c_reqtype c = REDIS_REQ_MULTIBULK;
  o_new : c_multibulklen c = 0 -> c_argv c = [] /\ c_bulklen c = -1 /\
    (c_reqtype c = REDIS_REQ_MULTIBULK -> exists t, bs = 42 :: t);
  o_mid : 0 < c_multibulklen c -> c_reqtype c = REDIS_REQ_MULTIBULK }.

(** The argument being read is not all there. *)
Definition hungry (c : client) (bs : list Z) : Prop :=
  0 < c_multibulklen c -> 0 <= c_bulklen c -> zlen bs < c_bulklen c + 2.

(** How a parse function leaves the client. *)
Inductive outcome (c : client) (bs : list Z) (c' : client) : Z -> Prop :=
  | OutClosed : closed c' (zlen bs) -> outcome c bs c' REDIS_ERR
  | OutWait bs' : openc c' bs' -> hungry c' bs' -> zlen bs' <= zlen bs -> frame c c' ->
      outcome c bs c' REDIS_ERR
  | OutDone bs' : rep (c_querybuf c') bs' -> zlen bs' < zlen bs -> c_bulklen c' = -1 ->
      frame c c' -> outcome c bs c' REDIS_OK.

Lemma finish_bulk_safe c bs pos :
  sane c bs -> 0 <= pos <= zlen bs -> 0 < c_multibulklen c ->
  c_reqtype c = REDIS_REQ_MULTIBULK ->
  exists c' r, finish_bulk junk c pos = Some (c', r) /\ outcome c bs c' r.
Proof.
  intros M Hp Hm Ht. unfold finish_bulk.
  destruct (Z.ltb_spec 0 (c_multibulklen c)); [|lia]. cbn [negb].
  destruct (bulk_loop_safe (S (Z.to_nat (c_multibulklen c))) c bs pos ltac:(lia) M Hp ltac:(lia))
    as (r & -> & Hr). step.
  destruct r as [c1 e|c1 p1|c1 p1]; [| |done].
  { destruct Hr as [-> Hc]. exists c1, REDIS_ERR. split; [done|]. by apply OutClosed. }
  destruct Hr as (bs1 & M1 & Hp1 & Hd1 & Hl1 & F1 & Ht1 & Hz1 & Hn1).
  assert (Htrim : exists c2, (if negb (p1 =? 0)
      then s ← sdsrange (c_querybuf c1) p1 (-1); Some (set_querybuf c1 s) else Some c1) = Some c2 /\
      sane c2 (drop (Z.to_nat p1) bs1) /\ frame c1 c2 /\ c_reqtype c2 = c_reqtype c1 /\
      c_multibulklen c2 = c_multibulklen c1 /\ c_bulklen c2 = c_bulklen c1).
  { destruct (Z.eqb_spec p1 0) as [->|Hne]; cbn [negb]; [by exists c1|].
    pose proof (n_len _ _ M1) as Hlen.
    destruct (sdsrange_drop (c_querybuf c1) bs1 p1 (n_rep _ _ M1)) as (s' & -> & Hs'); [lia|lia|].
    step. eexists. split; [done|]. split; [|done]. destruct M1. constructor; cbn; try done.
    unfold zlen. rewrite length_drop. unfold zlen in Hlen. lia. }
  destruct Htrim as (c2 & -> & M2 & F2 & Ht2 & Hm2 & Hb2). step. eexists c2, _. split; [done|].
  assert (Hzl : zlen (drop (Z.to_nat p1) bs1) = zlen bs1 - p1)
    by (unfold zlen in *; rewrite length_drop; lia).
  pose proof (frame_trans _ _ _ F1 F2) as F.
  destruct (Z.eqb_spec (c_multibulklen c2) 0) as [Hz|Hz].
  - rewrite Hm2 in Hz. destruct (Hz1 Hz) as [Hb Hlt]. eapply OutDone; [apply M2|lia|congruence|done].
  - eapply (OutWait _ _ _ (drop (Z.to_nat p1) bs1)); [| |lia|done].
    + pose proof (n_multi _ _ M2). constructor; [done|right; right; congruence|lia|congruence].
    + intros H1 H2. rewrite Hzl. rewrite Hm2 in H1. rewrite Hb2 in *. auto.
Qed.

Lemma processMultibulk_safe c bs :
  openc c bs -> c_reqtype c = REDIS_REQ_MULTIBULK ->
  exists c' r, processMultibulkBuffer junk c = Some (c', r) /\ outcome c bs c' r.
Proof.
  intros O Ht. unfold processMultibulkBuffer. pose proof (o_sane _ _ O) as M.
  pose proof (zlen_nonneg bs) as Hbs. pose proof (n_multi _ _ M) as Hm0.
  destruct (Z.eqb_spec (c_multibulklen c) 0) as [Hm|Hm].
  2: { step. apply (finish_bulk_safe c bs 0); [done|lia|lia|done]. }
  destruct (o_new _ _ O Hm) as (Hargv & Hb & Hhd). destruct (Hhd Ht) as [t Hbt].
  assert (Hwait : outcome c bs c REDIS_ERR)
    by (eapply OutWait; [exact O|unfold hungry; lia|lia|done]).
  pose proof (n_rep _ _ M) as Hr. pose proof (n_len _ _ M) as Hl. pose proof (qlen_rep c bs Hr) as Hql.
  assert (Herr : forall err, exists c', protocol_error c err 0 = Some (c', REDIS_ERR) /\
    closed c' (zlen bs)) by (intros err; apply protocol_error_safe; (done || lia)).
  assert (Hfail : forall err, exists c' r, (r ← fail_with (protocol_error c err 0);
    match r with
    | Return c r => Some (c, r)
    | Break c pos | Go c pos => finish_bulk junk c pos
    end) = Some (c', r) /\ outcome c bs c' r).
  { intros err. destruct (Herr err) as (c' & -> & Hc). exists c', REDIS_ERR. split; [done|].
    by apply OutClosed. }
  unfold multibulk_header. rewrite Hargv. change (zlen (@nil robj) =? 0) with true. cbn [negb].
  destruct (strchr_from_safe c bs 0 13 Hr ltac:(lia) ltac:(done)) as (nl & -> & Hnl). step.
  destruct nl as [n|].
  2: { destruct (_ <? qlen c); [apply Hfail|]. step. by exists c, REDIS_ERR. }
  destruct (Hnl n eq_refl) as (Hn & Hch & _). rewrite Hql, swrap_small by lens.
  destruct (Z.ltb_spec (zlen bs - 2) n); [step; by exists c, REDIS_ERR|].
  assert (H0 : znth bs 0 = Some 42) by (by rewrite Hbt).
  rewrite (znth_buf c bs 0 42 Hr H0). step. change (negb (42 =? 42)) with false. cbv iota.
  assert (1 <= n) by (destruct (decide (n = 0)) as [->|]; [congruence|lia]).
  destruct (read_number_safe c bs 1 n Hr) as (ll & -> & Hll); [lia|lia|]. step.
  destruct ll as [v|]; [|apply Hfail].
  destruct (Z.ltb_spec (1024 * 1024) v); [apply Hfail|].
  destruct (Z.leb_spec v 0).
  - destruct (sdsrange_drop (c_querybuf c) bs (n + 2) Hr) as (s' & -> & Hs'); [lia|lia|]. step.
    eexists _, REDIS_OK. split; [done|]. eapply OutDone; [exact Hs'| |done|done].
    unfold zlen in *. rewrite length_drop. lia.
  - step. set (c1 := set_argv _ _ _).
    assert (Hc1 : c_multibulklen c1 = v) by (cbn; apply swrap_small; cint).
    assert (M1 : sane c1 bs).
    { constructor; [done|done|lia|by left|]. intros _. rewrite Hc1. cbn. rewrite Hargv.
      change (zlen (@nil robj)) with 0. rewrite swrap_small by cint. lia. }
    destruct (finish_bulk_safe c1 bs (n + 2) M1) as (c' & r & E & Hout); [lia|lia|done|].
    exists c', r. split; [exact E|]. destruct Hout as [Hc|bs' Ho Hh Hz F|bs' Hr' Hz Hb' F].
    + by apply OutClosed.
    + by eapply OutWait.
    + by eapply OutDone.
Qed.

(** ** Inline requests *)

Lemma inline_args_safe argv : forall c,
  zlen (c_argv c) + zlen argv <= c_room c ->
  exists c', inline_args c argv = Some c' /\ c_querybuf c' = c_querybuf c /\ frame c c' /\
    c_bulklen c' = c_bulklen c.
Proof.
  induction argv as [|a argv IH]; intros c Hroom; cbn [inline_args]; [by exists c|].
  rewrite zlen_cons in Hroom. pose proof (zlen_nonneg argv).
  destruct (negb (sds_len a =? 0)); [|apply IH; lia].
  rewrite push_arg_spec by lia. step.
  destruct (IH (set_argv c (c_argv c ++ [string_object a]) (c_room c))) as (c' & -> & Hq & F & Hb).
  - cbn. rewrite zlen_app_one. lia.
  - by exists c'.
Qed.

Lemma processInline_safe c bs :
  openc c bs -> c_reqtype c = REDIS_REQ_INLINE -> bs <> [] ->
  exists c' r, processInlineBuffer junk unixtime c = Some (c', r) /\ outcome c bs c' r.
Proof.
  intros O Ht Hne. unfold processInlineBuffer. pose proof (o_sane _ _ O) as M.
  pose proof (n_rep _ _ M) as Hr. pose proof (n_len _ _ M) as Hl. pose proof (qlen_rep c bs Hr) as Hql.
  pose proof (n_multi _ _ M) as Hm0.
  assert (Hm : c_multibulklen c = 0).
  { destruct (decide (0 < c_multibulklen c)) as [H|]; [|lia].
    rewrite (o_mid _ _ O H) in Ht. done. }
  destruct (o_new _ _ O Hm) as (Hargv & Hb & _).
  assert (Herr : forall err, exists c' r, protocol_error c err 0 = Some (c', r) /\ outcome c bs c' r).
  { intros err. destruct (protocol_error_safe c bs err 0) as (c' & E & Hc); [done|lia|done|lia|].
    exists c', REDIS_ERR. split; [done|]. by apply OutClosed. }
  pose proof (zlen_nonneg bs).
  destruct (strchr_from_safe c bs 0 10 Hr ltac:(lia) ltac:(done)) as (nl & -> & Hnl). step.
  destruct nl as [n|].
  2: { destruct (_ <? qlen c); [apply Herr|]. exists c, REDIS_ERR. split; [done|].
       eapply OutWait; [exact O|unfold hungry; lia|lia|done]. }
  destruct (Hnl n eq_refl) as (Hn & _ & Hz). rewrite drop_0, Z.sub_0_r in Hz.
  assert (Hcr : exists b, (if negb (n =? 0) then x ← znth (qbuf c) (n - 1); Some (x =? 13)
    else Some false) = Some b /\ (b = true -> 1 <= n)).
  { destruct (Z.eqb_spec n 0); cbn [negb]; [by exists false|].
    destruct (znth_Some bs (n - 1)) as [x Hx]; [lia|]. rewrite (znth_buf c bs _ x Hr Hx). step.
    eexists. split; [done|]. lia. }
  destruct Hcr as (b & -> & Hbn). step. set (q := if b then n - 1 else n).
  assert (Hq : 0 <= q <= n) by (unfold q; destruct b; [specialize (Hbn eq_refl)|]; lia).
  set (line := take (Z.to_nat q) bs).
  assert (Hline : zlen line = q) by (unfold line, zlen in *; rewrite length_take; lia).
  assert (Hread : mem_read (qbuf c) 0 q = Some line).
  { destruct (rep_inv _ _ Hr) as (tail & E & _). unfold qbuf. rewrite E. cbn [sds_buf].
    rewrite <- (take_drop (Z.to_nat q) bs), <- app_assoc. by apply mem_read_prefix. }
  destruct (sdsnewlen_spec junk (qbuf c) q line Hread) as (aux & -> & Haux & _); [lens|]. step.
  destruct (rep_inv _ _ Haux) as (tail & Eaux & _). rewrite Eaux. cbn [sds_buf].
  destruct (sdssplitargs_total junk line tail) as (argv & -> & _); [|lia|].
  { intros Hin. apply Hz. unfold line in Hin. apply elem_of_take in Hin as (i & Hi & Hlt).
    apply elem_of_take. exists i. split; [done|lia]. }
  step. destruct argv as [argv|]; [|apply Herr].
  set (c1 := if (q =? 0) && c_slave c then _ else _).
  assert (Hc1 : c_querybuf c1 = c_querybuf c /\ c_bulklen c1 = -1 /\ frame c c1)
    by (unfold c1; by destruct (_ && _)).
  destruct Hc1 as (Hq1 & Hb1 & F1). clearbody c1. rewrite Hq1.
  rewrite u64_id, swrap_small by lens.
  destruct (sdsrange_drop (c_querybuf c) bs (q + 2) Hr) as (s' & -> & Hs'); [lia|lia|]. step.
  assert (Hshort : zlen (drop (Z.to_nat (q + 2)) bs) < zlen bs)
    by (unfold zlen in *; rewrite length_drop; lia).
  destruct argv as [|a argv].
  { change (zlen (@nil sds) =? 0) with true. cbn [inline_args]. step.
    eexists _, REDIS_OK. split; [done|]. eapply OutDone; [exact Hs'|done|done|done]. }
  assert (Hza : zlen (a :: argv) <> 0) by (rewrite zlen_cons; pose proof (zlen_nonneg argv); lia).
  rewrite (proj2 (Z.eqb_neq _ _) Hza).
  destruct (inline_args_safe (a :: argv)
    (set_argv (set_argv (set_querybuf c1 s') (c_argv (set_querybuf c1 s')) (zlen (a :: argv))) []
       (zlen (a :: argv)))) as (c2 & E2 & Hq2 & F2 & Hb2).
  { cbn [c_argv c_room set_argv]. change (zlen (@nil robj)) with 0. lia. }
  cbn [c_room set_argv]. rewrite E2. step. exists c2, REDIS_OK. split; [done|].
  eapply OutDone; [rewrite Hq2; exact Hs'|done| |].
  - rewrite Hb2. exact Hb1.
  - eapply frame_trans; [exact F1|exact F2].
Qed.

(** ** The loop over the query buffer and the reads *)

Section Run.
Context (client_max_querybuf_len : Z) (Hmax : client_max_querybuf_len <= 2 ^ 30).
Context {W : Type} (processCommand : W -> client -> option (W * client * bool)).

(** The command table is total, leaves the parser's buffer and state alone, and
    answers [REDIS_ERR] only for a client that will be closed. *)
Definition commands_ok : Prop := forall w c, exists w' c' ok,
  processCommand w c = Some (w', c', ok) /\ c_querybuf c' = c_querybuf c /\
  c_bulklen c' = c_bulklen c /\ (ok = false -> c_close c' = true).

Context (Hcmd : commands_ok).

Definition closing (c : client) (bs : list Z) : Prop :=
  c_close c = true /\ c_bulklen c = -1 /\ rep (c_querybuf c) bs.

Definition parsing (c : client) (bs : list Z) : Prop :=
  openc c bs /\ c_close c = false /\ (c_blocked c = true -> c_multibulklen c = 0).

(** Between two reads. *)
Definition inv (c : client) (bs : list Z) : Prop :=
  closing c bs \/ parsing c bs /\ hungry c bs.

Lemma reset_inv c bs : rep (c_querybuf c) bs -> zlen bs < 2 ^ 31 - 2 ->
  closing (resetClient c) bs \/ parsing (resetClient c) bs.
Proof.
  intros Hr Hl.
  assert (H : rep (c_querybuf (resetClient c)) bs /\ c_bulklen (resetClient c) = -1 /\
    c_multibulklen (resetClient c) = 0 /\ c_reqtype (resetClient c) = 0 /\
    c_argv (resetClient c) = [] /\ c_close (resetClient c) = c_close c).
  { unfold resetClient. by case_match. }
  destruct H as (H1 & H2 & H3 & H4 & H5 & H6). unfold closing, parsing.
  destruct (c_close c) eqn:E; rewrite H6; [by left|]. right.
  split; [|done]. constructor; [|by left| |lia].
  - constructor; [done|done|lia|by left|lia].
  - intros _. split; [done|]. split; [done|]. rewrite H4. done.
Qed.

Lemma processInput_safe fuel : forall w c bs,
  (length bs < fuel)%nat -> zlen bs < 2 ^ 31 - 2 -> closing c bs \/ parsing c bs ->
  exists w' c' bs', processInputBuffer junk unixtime false processCommand fuel w c = Some (w', c') /\
    zlen bs' <= zlen bs /\ inv c' bs'.
Proof.
  induction fuel as [|fuel IH]; intros w c bs Hf Hl Hinv; [lia|]. cbn [processInputBuffer].
  assert (Hr : rep (c_querybuf c) bs)
    by (destruct Hinv as [(_ & _ & Hr)|(O & _)]; [done|apply (o_sane _ _ O)]).
  rewrite (qlen_rep c bs Hr), andb_false_r.
  assert (Hstop : (parsing c bs -> hungry c bs) ->
    exists w' c' bs', Some (w, c) = Some (w', c') /\ zlen bs' <= zlen bs /\ inv c' bs').
  { intros Hh. exists w, c, bs. split; [done|]. split; [lia|].
    destruct Hinv as [|Hp]; [by left|right; auto]. }
  destruct bs as [|x bs].
  { apply Hstop. intros _ H1 H2. change (zlen (@nil Z)) with 0. lia. }
  rewrite zlen_cons in Hstop |- *. pose proof (zlen_nonneg bs).
  destruct (Z.eqb_spec (1 + zlen bs) 0) as [|_]; [lia|].
  destruct (c_blocked c) eqn:Eb.
  { apply Hstop. intros (_ & _ & Hb) H1. rewrite (Hb Eb) in H1. lia. }
  destruct (c_close c) eqn:Ec.
  { apply Hstop. intros (_ & Hp & _). congruence. }
  destruct Hinv as [(Hc & _)|(O & _ & Hblk)]; [congruence|].
  rewrite (znth_buf c (x :: bs) 0 x Hr) by done. step.
  set (ty := if c_reqtype c =? 0 then _ else _). set (c1 := set_parse c ty _ _).
  assert (Hty : ty = REDIS_REQ_INLINE \/ ty = REDIS_REQ_MULTIBULK /\
    (c_reqtype c = REDIS_REQ_MULTIBULK \/ x = 42)).
  { unfold ty. destruct (o_type _ _ O) as [-> | [-> | ->]]; [|by left|right; by split; [|left]].
    change (0 =? 0) with true. cbv iota. destruct (Z.eqb_spec x 42) as [->|]; [right|by left].
    by split; [|right]. }
  assert (O1 : openc c1 (x :: bs)).
  { destruct O as [[? ? ? ? ?] Ht Hnew Hmid]. constructor; [by constructor| | |].
    - cbn. destruct Hty as [-> | [-> _]]; auto.
    - cbn. intros Hm. destruct (Hnew Hm) as (Ha & Hb & Hh). split; [done|]. split; [done|].
      intros Ht2. destruct Hty as [Hty|[_ [Hty| ->]]]; [by rewrite Hty in Ht2|auto|by exists bs].
    - cbn. intros Hm. unfold ty. rewrite (Hmid Hm). done. }
  assert (Hout : exists c' r, (if ty =? REDIS_REQ_INLINE then processInlineBuffer junk unixtime c1
      else if ty =? REDIS_REQ_MULTIBULK then processMultibulkBuffer junk c1 else None) = Some (c', r) /\
      outcome c1 (x :: bs) c' r).
  { destruct Hty as [Hty|[Hty _]].
    - replace (ty =? REDIS_REQ_INLINE) with true by (by rewrite Hty).
      by apply processInline_safe.
    - replace (ty =? REDIS_REQ_INLINE) with false by (by rewrite Hty).
      replace (ty =? REDIS_REQ_MULTIBULK) with true by (by rewrite Hty).
      by apply processMultibulk_safe. }
  destruct Hout as (c' & r & -> & Hout). step.
  destruct Hout as [(H1 & H2 & bs' & H3 & H4)|bs' O' Hh' Hz' F|bs' Hr' Hz' Hb' F].
  - exists w, c', bs'. split; [done|]. split; [rewrite zlen_cons in H4; lia|]. by left.
  - exists w, c', bs'. split; [done|]. split; [rewrite zlen_cons in Hz'; lia|]. right.
    destruct F as (_ & F2 & F3 & _). split; [|done]. split; [done|]. split; [rewrite F3; exact Ec|].
    rewrite F2. cbn. congruence.
  - change (negb (REDIS_OK =? REDIS_OK)) with false. cbv iota.
    assert (Hf' : (length bs' < fuel)%nat) by (unfold zlen in Hz'; lia).
    rewrite zlen_cons in Hz', Hl.
    assert (Hnext : forall w2 c2, closing c2 bs' \/ parsing c2 bs' ->
      exists w3 c3 bs3, processInputBuffer junk unixtime false processCommand fuel w2 c2 =
        Some (w3, c3) /\ zlen bs3 <= 1 + zlen bs /\ inv c3 bs3).
    { intros w2 c2 H2. destruct (IH w2 c2 bs' Hf' ltac:(lia) H2) as (w3 & c3 & bs3 & E & Hz & Hi).
      exists w3, c3, bs3. split; [done|]. split; [lia|done]. }
    destruct (zlen (c_argv c') =? 0); [apply Hnext, reset_inv; [done|lia]|].
    destruct (Hcmd w c') as (w2 & c2 & ok & -> & Hq & Hb & Hok). step. rewrite <- Hq in Hr'.
    apply Hnext. destruct ok; [apply reset_inv; [done|lia]|]. left.
    split; [auto|]. split; [congruence|done].
Qed.

Lemma read_length_safe c bs : inv c bs -> zlen bs < 2 ^ 31 - 2 ->
  0 <= read_length c <= REDIS_IOBUF_LEN.
Proof.
  intros Hi Hl. unfold read_length, REDIS_IOBUF_LEN, REDIS_MBULK_BIG_ARG.
  destruct Hi as [(_ & Hb & _)|[(O & _) Hh]].
  { rewrite Hb. change (negb (-1 =? -1)) with false. rewrite andb_false_r. cbn [andb]. lia. }
  destruct O as [[Hr _ Hm Hb _] _ _ _]. rewrite (qlen_rep c bs Hr).
  destruct (_ && _) eqn:E; [|lia].
  apply andb_true_iff in E as [[[_ E1]%andb_true_iff E2]%andb_true_iff E3].
  destruct Hb as [Hb|Hb]; [lia|]. specialize (Hh ltac:(lia) ltac:(lia)). pose proof (zlen_nonneg bs).
  rewrite (u32_id (c_bulklen c + 2)), s32_u64, swrap_small by lens. case_match; lia.
Qed.

Lemma readQuery_safe w c bs rd :
  inv c bs -> zlen bs <= client_max_querybuf_len ->
  (forall ts, rd = ReadData ts -> zlen ts <= read_length c) ->
  exists w' c', readQueryFromClient junk unixtime client_max_querybuf_len false processCommand w c rd
      = Some (w', c') /\
    (forall c2, c' = Some c2 -> exists bs', inv c2 bs' /\ zlen bs' <= client_max_querybuf_len).
Proof.
  intros Hi Hl Hrd. pose proof (read_length_safe c bs Hi ltac:(lia)) as Hrl.
  pose proof (zlen_nonneg bs).
  assert (Hr : rep (c_querybuf c) bs)
    by (destruct Hi as [(_ & _ & Hr)|[(O & _) _]]; [done|apply (o_sane _ _ O)]).
  unfold readQueryFromClient. set (peak := if c_querybuf_peak c <? qlen c then _ else _).
  cbn [c_querybuf set_times]. rewrite (qlen_rep c bs Hr).
  unfold REDIS_IOBUF_LEN in Hrl. rewrite (u64_id (read_length c)) by (unfold in_u; lia).
  destruct rd as [ts| | |].
  - specialize (Hrd ts eq_refl). pose proof (zlen_nonneg ts).
    destruct (read_room junk (c_querybuf c) bs ts (read_length c) Hr Hrd) as (buf & s2 & -> & E & Hr2);
      [unfold REDIS_IOBUF_LEN; lia|lia|]. step. rewrite E. step.
    set (c1 := set_times _ _ _ _ _).
    assert (Hq1 : qlen c1 = zlen (bs ++ ts)) by apply (qlen_rep c1 _ Hr2). rewrite Hq1.
    destruct (Z.ltb_spec client_max_querybuf_len (zlen (bs ++ ts))) as [|Hle].
    { eexists _, None. split; [done|]. intros c2 [=]. }
    assert (Hpre : closing c1 (bs ++ ts) \/ parsing c1 (bs ++ ts)).
    { destruct Hi as [(Hc & Hb & _)|[(O & Hc & Hblk) _]]; [by left|right].
      split; [|done]. destruct O as [[? ? ? ? ?] Ht Hnew Hmid].
      constructor; [constructor; try done; lia|done| |done].
      intros Hm. destruct (Hnew Hm) as (Ha & Hb & Hh). split; [done|]. split; [done|].
      intros Ht2. destruct (Hh Ht2) as [t ->]. by exists (t ++ ts). }
    destruct (processInput_safe (S (Z.to_nat (zlen (bs ++ ts)))) w c1 (bs ++ ts))
      as (w' & c' & bs' & -> & Hz & Hi'); [unfold zlen; lia|lia|done|]. step.
    eexists _, _. split; [done|]. intros c2 [= <-]. exists bs'. split; [done|lia].
  - eexists _, _. split; [done|]. intros c2 [= <-]. exists bs. split; [|done].
    assert (Hr1 : rep (sdsMakeRoomFor junk (c_querybuf c) (read_length c)) bs)
      by (apply sdsMakeRoomFor_rep; [done|lia|lens]).
    destruct Hi as [(Hc & Hb & _)|[(O & Hc & Hblk) Hh]]; [by left|right].
    split; [|done]. split; [|done]. destruct O as [[? ? ? ? ?] Ht Hnew Hmid]. by constructor.
  - eexists _, None. split; [done|]. intros c2 [=].
  - eexists _, None. split; [done|]. intros c2 [=].
Qed.

Lemma run_reads_safe sched : forall w c bs input,
  inv c bs -> zlen bs <= client_max_querybuf_len ->
  exists r, run_reads junk unixtime client_max_querybuf_len processCommand sched w c input = Some r.
Proof.
  induction sched as [|n sched IH]; intros w c bs input Hi Hl; [by eexists|].
  destruct input as [|x input]; [by eexists|]. cbn [run_reads]. set (k := Z.to_nat _).
  destruct (readQuery_safe w c bs
    (match take k (x :: input) with [] => ReadAgain | bs => ReadData bs end) Hi Hl)
    as (w' & c' & -> & Hn).
  { intros ts Hts. pose proof (read_length_safe c bs Hi ltac:(lia)) as Hrl.
    assert (Hle : zlen (take k (x :: input)) <= read_length c)
      by (unfold zlen, k; rewrite length_take; lia).
    destruct (take k (x :: input)) as [|y l]; [done|]. by injection Hts as <-. }
  step. destruct c' as [c'|]; [|by eexists].
  destruct (Hn c' eq_refl) as (bs' & Hi' & Hl'). by apply (IH w' c' bs').
Qed.
End Run.
End Safe.

(** ** Properties *)



(** What is asked for while a big argument is being read. *)
Lemma read_length_big c done a todo q :
  mid c done (a :: todo) true q -> REDIS_MBULK_BIG_ARG <= zlen a -> good_arg a ->
  zlen q <= zlen a + 2 -> read_length c = Z.min (zlen a + 2 - zlen q) REDIS_IOBUF_LEN.
Proof.
  intros M Hbig Ha Hq. unfold read_length, good_arg in *.
  rewrite (m_type _ _ _ _ _ M), (m_multi _ _ _ _ _ M), (m_bulk _ _ _ _ _ M),
    (qlen_rep c q (m_rep _ _ _ _ _ M)). cbn [hd].
  pose proof (zlen_nonneg q). pose proof (zlen_nonneg todo). rewrite zlen_cons.
  unfold REDIS_MBULK_BIG_ARG, REDIS_IOBUF_LEN in *.
  rewrite (proj2 (Z.eqb_neq (1 + zlen todo) 0)), (proj2 (Z.eqb_neq (zlen a) (-1))),
    (proj2 (Z.leb_le _ _) Hbig) by lia.
  change (REDIS_REQ_MULTIBULK =? REDIS_REQ_MULTIBULK) with true. cbn [negb andb].
  rewrite (u32_id (zlen a + 2)), s32_u64, swrap_small by lens.
  destruct (Z.ltb_spec (zlen a + 2 - zlen q) (1024 * 16)); lia.
Qed.

(** While clients are paused nothing is parsed, so the read that completes a big
    argument leaves [readQueryFromClient] with zero bytes to ask for: the
    next [read] returns 0, which it takes for the end of the connection. *)
Theorem paused_read_asks_nothing junk unixtime client_max_querybuf_len
    (W : Type) (processCommand : W -> client -> option (W * client * bool)) w c args a todo q bs :
  512 * 1024 * 1024 + 2 <= client_max_querybuf_len -> c_slave c = false ->
  mid c args (a :: todo) true q -> REDIS_MBULK_BIG_ARG <= zlen a -> good_arg a ->
  zlen q + zlen bs = zlen a + 2 -> zlen bs <= read_length c ->
  exists c', readQueryFromClient junk unixtime client_max_querybuf_len true processCommand w c
      (ReadData bs) = Some (w, Some c') /\ read_length c' = 0.
Proof.
  intros Hmax Hsl M Hbig Ha Hz Hbs. pose proof (m_rep _ _ _ _ _ M) as Hr.
  pose proof (zlen_nonneg bs). pose proof (zlen_nonneg q). pose proof Ha as Ha'. unfold good_arg in Ha'.
  pose proof (read_length_big c args a todo q M Hbig Ha ltac:(lia)) as Hrl.
  unfold readQueryFromClient. set (peak := if c_querybuf_peak c <? qlen c then _ else _).
  cbn [c_querybuf set_times]. rewrite (qlen_rep c q Hr).
  rewrite (u64_id (read_length c)) by (unfold in_u, REDIS_IOBUF_LEN in *; lia).
  destruct (read_room junk (c_querybuf c) q bs (read_length c) Hr Hbs) as (buf & s2 & -> & E & Hr2);
    [lia|lia|]. step. rewrite E. step. set (c1 := set_times _ _ _ _ _).
  assert (M1 : mid c1 args (a :: todo) true (q ++ bs)).
  { apply (set_times_waiting _ (Some (args, a :: todo, true))).
    apply (set_buf_waiting _ (Some (args, a :: todo, true)) q); [|done].
    by apply (set_times_waiting _ (Some (args, a :: todo, true))). }
  rewrite (qlen_rep c1 _ (m_rep _ _ _ _ _ M1)), zlen_app, Hz.
  destruct (Z.ltb_spec client_max_querybuf_len (zlen a + 2)); [lia|].
  cbn [processInputBuffer]. rewrite (qlen_rep c1 _ (m_rep _ _ _ _ _ M1)), zlen_app, Hz.
  unfold REDIS_MBULK_BIG_ARG in Hbig.
  rewrite (proj2 (Z.eqb_neq (zlen a + 2) 0)) by lia.
  assert (Hsl1 : c_slave c1 = false) by done. rewrite Hsl1. cbn [negb andb]. step.
  exists c1. split; [done|].
  rewrite (read_length_big c1 args a todo (q ++ bs) M1) by (done || rewrite zlen_app; lia).
  rewrite zlen_app. unfold REDIS_IOBUF_LEN. lia.
Qed.
