(* ===== verification/Server.v ===== *)
(** The state the command implementations share: the structures of
    [src/redis-3.0.0/src/redis.h] (databases, clients, the queue of a
    transaction), the heap of [Object], and the functions of networking.c that
    append to a client's output.

    The databases, the clients and what they own are polymorphic in what stands
    for a value: addresses of objects in the server, values in the abstract
    server that specifies it ([ServerSpec]).  A client's output is the bytes it
    is to be sent; notifications and propagated commands are recorded in a log.
    The clock stands still while a command runs.  Not modelled: statistics, the
    LRU clock, cluster mode, Lua callers. *)
From stdpp Require Import gmap list strings.
From S2P Require Import Prelude Util Sds SdsText Object.
Local Open Scope c_scope.

Notation bytes := (list Z).

(** ** Clients and commands *)

Inductive flag := REDIS_MULTI | REDIS_DIRTY_CAS | REDIS_DIRTY_EXEC | REDIS_PUBSUB
  | REDIS_CLOSE_AFTER_REPLY | REDIS_FORCE_AOF | REDIS_FORCE_REPL.
Global Instance flag_dec : EqDecision flag.
Proof. solve_decision. Defined.

Definition flag_code (f : flag) : positive :=
  match f with
  | REDIS_MULTI => 1 | REDIS_DIRTY_CAS => 2 | REDIS_DIRTY_EXEC => 3 | REDIS_PUBSUB => 4
  | REDIS_CLOSE_AFTER_REPLY => 5 | REDIS_FORCE_AOF => 6 | REDIS_FORCE_REPL => 7
  end%positive.
Definition flag_decode (p : positive) : option flag :=
  match p with
  | 1 => Some REDIS_MULTI | 2 => Some REDIS_DIRTY_CAS | 3 => Some REDIS_DIRTY_EXEC
  | 4 => Some REDIS_PUBSUB | 5 => Some REDIS_CLOSE_AFTER_REPLY
  | 6 => Some REDIS_FORCE_AOF | 7 => Some REDIS_FORCE_REPL | _ => None
  end%positive.
Global Program Instance flag_countable : Countable flag :=
  {| encode := flag_code; decode := flag_decode |}.
Next Obligation. by intros []. Qed.

(** The entry of the command table: the procedure, its name, the arity (at
    least [-n] for [-n]) and the flags the server consults. *)
Inductive proc :=
  | P_set | P_setnx | P_setex | P_psetex | P_get | P_getset | P_setrange | P_getrange
  | P_mget | P_mset | P_msetnx | P_incr | P_decr | P_incrby | P_decrby | P_append | P_strlen
  | P_del | P_exists | P_flushdb | P_flushall | P_select | P_dbsize | P_type
  | P_rename | P_renamenx | P_move | P_expire | P_expireat | P_pexpire | P_pexpireat
  | P_ttl | P_pttl | P_persist
  | P_multi | P_exec | P_discard | P_watch | P_unwatch
  | P_subscribe | P_unsubscribe | P_psubscribe | P_punsubscribe | P_publish
  | P_other (n : nat).
Global Instance proc_dec : EqDecision proc.
Proof. solve_decision. Defined.

(** The commands a transaction does not queue. *)
Definition while_queueing (p : proc) : bool :=
  match p with P_exec | P_discard | P_multi | P_watch => true | _ => false end.

Record redisCommand := mkCommand {
  cmd_name : bytes; cmd_proc : proc; cmd_arity : Z;
  cmd_write : bool; cmd_readonly : bool; cmd_denyoom : bool;
  cmd_stale : bool; cmd_loading : bool }.

Section State.
Context {V : Type}.

Record redisDb := mkDb {
  db_dict : gmap bytes V; db_expires : gmap bytes Z; db_watched_keys : gmap bytes (list Z) }.

Record multiCmd := mkMultiCmd { mc_argv : list V; mc_cmd : redisCommand }.

(** [watched_keys] pairs a key with the number of its database. *)
Record redisClient := mkClient {
  c_db : Z; c_flags : gset flag; c_argv : list V; c_cmd : option redisCommand;
  c_mstate : list multiCmd; c_watched_keys : list (bytes * Z);
  c_pubsub_channels : gset bytes; c_pubsub_patterns : list bytes; c_reply : bytes }.

Inductive event :=
  | Notified (type : string) (key : bytes) (dbid : Z)
  | Propagated (dbid : Z) (argv : list bytes) (aof repl : bool).

(** [s_master]: the server has no master; [s_now] is [mstime()]. *)
Record state := mkState {
  s_dbs : list redisDb; s_clients : gmap Z redisClient; s_dirty : Z; s_log : list event;
  s_channels : gmap bytes (list Z); s_patterns : list (Z * bytes);
  s_now : Z; s_loading : bool; s_master : bool; s_aof : bool }.

(** ** Field updates *)

Definition set_dict (m : gmap bytes V) (d : redisDb) : redisDb :=
  mkDb m (db_expires d) (db_watched_keys d).
Definition set_expires (m : gmap bytes Z) (d : redisDb) : redisDb :=
  mkDb (db_dict d) m (db_watched_keys d).
Definition set_watchers (m : gmap bytes (list Z)) (d : redisDb) : redisDb :=
  mkDb (db_dict d) (db_expires d) m.

Definition set_c_db (i : Z) (c : redisClient) : redisClient :=
  mkClient i (c_flags c) (c_argv c) (c_cmd c) (c_mstate c) (c_watched_keys c)
    (c_pubsub_channels c) (c_pubsub_patterns c) (c_reply c).
Definition set_flags (f : gset flag) (c : redisClient) : redisClient :=
  mkClient (c_db c) f (c_argv c) (c_cmd c) (c_mstate c) (c_watched_keys c)
    (c_pubsub_channels c) (c_pubsub_patterns c) (c_reply c).
Definition set_argv (l : list V) (c : redisClient) : redisClient :=
  mkClient (c_db c) (c_flags c) l (c_cmd c) (c_mstate c) (c_watched_keys c)
    (c_pubsub_channels c) (c_pubsub_patterns c) (c_reply c).
Definition set_cmd (p : option redisCommand) (c : redisClient) : redisClient :=
  mkClient (c_db c) (c_flags c) (c_argv c) p (c_mstate c) (c_watched_keys c)
    (c_pubsub_channels c) (c_pubsub_patterns c) (c_reply c).
Definition set_mstate (q : list multiCmd) (c : redisClient) : redisClient :=
  mkClient (c_db c) (c_flags c) (c_argv c) (c_cmd c) q (c_watched_keys c)
    (c_pubsub_channels c) (c_pubsub_patterns c) (c_reply c).
Definition set_watched (w : list (bytes * Z)) (c : redisClient) : redisClient :=
  mkClient (c_db c) (c_flags c) (c_argv c) (c_cmd c) (c_mstate c) w
    (c_pubsub_channels c) (c_pubsub_patterns c) (c_reply c).
Definition set_channels (ch : gset bytes) (c : redisClient) : redisClient :=
  mkClient (c_db c) (c_flags c) (c_argv c) (c_cmd c) (c_mstate c) (c_watched_keys c)
    ch (c_pubsub_patterns c) (c_reply c).
Definition set_patterns (ps : list bytes) (c : redisClient) : redisClient :=
  mkClient (c_db c) (c_flags c) (c_argv c) (c_cmd c) (c_mstate c) (c_watched_keys c)
    (c_pubsub_channels c) ps (c_reply c).
Definition set_reply (r : bytes) (c : redisClient) : redisClient :=
  mkClient (c_db c) (c_flags c) (c_argv c) (c_cmd c) (c_mstate c) (c_watched_keys c)
    (c_pubsub_channels c) (c_pubsub_patterns c) r.

Definition set_dbs (ds : list redisDb) (s : state) : state :=
  mkState ds (s_clients s) (s_dirty s) (s_log s) (s_channels s) (s_patterns s)
    (s_now s) (s_loading s) (s_master s) (s_aof s).
Definition set_clients (cs : gmap Z redisClient) (s : state) : state :=
  mkState (s_dbs s) cs (s_dirty s) (s_log s) (s_channels s) (s_patterns s)
    (s_now s) (s_loading s) (s_master s) (s_aof s).
Definition set_dirty (n : Z) (s : state) : state :=
  mkState (s_dbs s) (s_clients s) n (s_log s) (s_channels s) (s_patterns s)
    (s_now s) (s_loading s) (s_master s) (s_aof s).
Definition set_log (l : list event) (s : state) : state :=
  mkState (s_dbs s) (s_clients s) (s_dirty s) l (s_channels s) (s_patterns s)
    (s_now s) (s_loading s) (s_master s) (s_aof s).
Definition set_pubsub (ch : gmap bytes (list Z)) (ps : list (Z * bytes)) (s : state) : state :=
  mkState (s_dbs s) (s_clients s) (s_dirty s) (s_log s) ch ps
    (s_now s) (s_loading s) (s_master s) (s_aof s).

(** The database [i], updated; a client, updated.  Nothing happens out of range. *)
Definition upd_db (i : Z) (f : redisDb -> redisDb) (s : state) : state :=
  set_dbs (alter f (Z.to_nat i) (s_dbs s)) s.
Definition upd_client (c : Z) (f : redisClient -> redisClient) (s : state) : state :=
  set_clients (alter f c (s_clients s)) s.
Definition add_event (e : event) (s : state) : state := set_log (s_log s ++ [e]) s.
Definition add_dirty (n : Z) (s : state) : state := set_dirty (s_dirty s + n) s.

Definition db_at (s : state) (i : Z) : option redisDb := znth (s_dbs s) i.

(** ** Output *)

(** Nothing is added for a client that is to be closed after its reply. *)
Definition say (bs : bytes) (c : redisClient) : redisClient :=
  if bool_decide (REDIS_CLOSE_AFTER_REPLY ∈ c_flags c) then c else set_reply (c_reply c ++ bs) c.
End State.
Arguments redisDb : clear implicits.
Arguments multiCmd : clear implicits.
Arguments redisClient : clear implicits.
Arguments state : clear implicits.

(** ** Shared replies *)

Definition crlf : bytes := [13; 10].
Definition line (s : string) : bytes := bytes_of s ++ crlf.
Definition shared_ok_reply : bytes := line "+OK".
Definition shared_emptybulk : bytes := line "$0" ++ crlf.
Definition shared_czero : bytes := line ":0".
Definition shared_cone : bytes := line ":1".
Definition shared_nullbulk : bytes := line "$-1".
Definition shared_nullmultibulk : bytes := line "*-1".
Definition shared_queued : bytes := line "+QUEUED".
Definition shared_wrongtypeerr : bytes :=
  line "-WRONGTYPE Operation against a key holding the wrong kind of value".
Definition shared_syntaxerr : bytes := line "-ERR syntax error".
Definition shared_sameobjecterr : bytes :=
  line "-ERR source and destination objects are the same".
Definition shared_nokeyerr : bytes := line "-ERR no such key".
Definition shared_outofrangeerr : bytes := line "-ERR index out of range".
Definition shared_oomerr : bytes :=
  line "-OOM command not allowed when used memory > 'maxmemory'.".
Definition shared_noautherr : bytes := line "-NOAUTH Authentication required.".
Definition shared_loadingerr : bytes := line "-LOADING Redis is loading the dataset in memory".
Definition shared_execaborterr : bytes :=
  line "-EXECABORT Transaction discarded because of previous errors.".

(** The text of [<prefix><long long>\r\n]. *)
Definition with_prefix (prefix : Z) (ll : Z) : bytes := prefix :: sdec ll ++ crlf.
Definition bulk_text (bs : bytes) : bytes := with_prefix 36 (zlen bs) ++ bs ++ crlf.
Definition error_text (msg : bytes) : bytes := bytes_of "-ERR " ++ msg ++ crlf.

(** [listDelNode(l,listSearchKey(l,x))]: [None] when [x] is not in the list. *)
Fixpoint remove_first {A} `{EqDecision A} (x : A) (l : list A) : option (list A) :=
  match l with
  | [] => None
  | y :: l => if decide (y = x) then Some l else l ← remove_first x l; Some (y :: l)
  end.

(** ** The server as a state monad *)

Definition server : Type := store * state Z.

(** [None]: an access outside a block, a failed assertion, undefined behaviour. *)
Definition M (A : Type) : Type := server -> option (A * server).
Global Instance M_ret : MRet M := fun A a s => Some (a, s).
Global Instance M_bind : MBind M := fun A B k m s =>
  match m s with Some (a, s') => k a s' | None => None end.

Definition fail {A} : M A := fun _ => None.
Definition get_state : M (state Z) := fun s => Some (s.2, s).
Definition modify (f : state Z -> state Z) : M unit := fun s => Some (tt, (s.1, f s.2)).
Definition opt {A} (x : option A) : M A := fun s => a ← x; Some (a, s).
Definition check (b : bool) : M unit := if b then mret tt else fail.

(** Heap operations: reading an object; one that returns the new heap; one that
    also returns an address. *)
Definition obj (o : Z) : M robj := fun s => ob ← s.1 !! o; Some (ob, s).
Definition on_heap (f : store -> option store) : M unit :=
  fun s => h ← f s.1; Some (tt, (h, s.2)).
Definition on_heap_get (f : store -> option (store * Z)) : M Z :=
  fun s => '(h, o) ← f s.1; Some (o, (h, s.2)).

Definition client (c : Z) : M (redisClient Z) :=
  s ← get_state; opt (s_clients s !! c).
Definition upd (c : Z) (f : redisClient Z -> redisClient Z) : M unit :=
  cl ← client c; modify (upd_client c f).

(** [if (b) m] *)
Definition when (b : bool) (m : M unit) : M unit := if b then m else mret tt.

Fixpoint each {A} (f : A -> M unit) (l : list A) : M unit :=
  match l with
  | [] => mret tt
  | x :: l => f x;; each f l
  end.

(** The parameters of [Object]: uninitialised memory, the allocator, the shared
    integers, and the settings that forbid to share them. *)
Record platform := mkPlatform {
  junk : nat -> Z; zmalloc : store -> Z; integers : Z -> Z;
  maxmemory : Z; maxmemory_policy : policy }.

Section Operations.
Context (P : platform).

Definition incrRefCount (o : Z) : M unit := on_heap (fun h => Object.incrRefCount h o).
Definition decrRefCount (o : Z) : M unit := on_heap (fun h => Object.decrRefCount h o).
Definition tryObjectEncoding (o : Z) : M Z :=
  on_heap_get (fun h => Object.tryObjectEncoding (junk P) (zmalloc P) (integers P)
    (maxmemory P) (maxmemory_policy P) h o).
Definition getDecodedObject (o : Z) : M Z :=
  on_heap_get (fun h => Object.getDecodedObject (junk P) (zmalloc P) h o).
Definition createStringObjectFromLongLong (v : Z) : M Z :=
  on_heap_get (fun h =>
    Object.createStringObjectFromLongLong (junk P) (zmalloc P) (integers P) h v).
Definition createRawStringObject (t : list Z) (len : Z) : M Z :=
  on_heap_get (fun h => Object.createRawStringObject (junk P) (zmalloc P) h (Some t) len).
(** [createStringObject(t,strlen(t))] of a literal. *)
Definition createStringObject (t : list Z) : M Z :=
  on_heap_get (fun h => Object.createStringObject (junk P) (zmalloc P) h (Some t) (zlen t)).
(** [createObject(REDIS_STRING,s)]. *)
Definition createObject (s : sds) : M Z :=
  on_heap_get (fun h => Some (Object.createObject (zmalloc P) h REDIS_STRING ENC_RAW (PSds s))).

(** [o->ptr = s] *)
Definition set_ptr (o : Z) (p : optr) : M unit :=
  on_heap (fun h => ob ← h !! o;
    Some (<[o := mkObj (o_type ob) (o_encoding ob) (o_refcount ob) p]> h)).

(** [o->ptr] and [sdslen(o->ptr)] of an object that has to hold an sds. *)
Definition sds_of (o : Z) : M sds :=
  ob ← obj o;
  if sdsEncodedObject ob then opt (as_sds ob) else fail.
Definition str (o : Z) : M bytes :=
  s ← sds_of o; opt (mem_read (sds_buf s) 0 (sds_len s)).

(** ** Arguments *)

Definition argv (c j : Z) : M Z := cl ← client c; opt (znth (c_argv cl) j).
Definition argc (c : Z) : M Z := cl ← client c; mret (zlen (c_argv cl)).
Definition set_arg (c j o : Z) : M unit :=
  cl ← client c; l ← opt (zset (c_argv cl) j o); modify (upd_client c (set_argv l)).
(** [c->argv[j] = tryObjectEncoding(c->argv[j])] *)
Definition encode_arg (c j : Z) : M Z :=
  o ← argv c j; o' ← tryObjectEncoding o; set_arg c j o';; mret o'.

(** ** networking.c: the replies *)

(** [addReplyString]; with a shared object, [addReply]. *)
Definition addReplyString (c : Z) (bs : bytes) : M unit := upd c (say bs).
Definition addReplyError (c : Z) (msg : bytes) : M unit :=
  addReplyString c (bytes_of "-ERR ");; addReplyString c msg;; addReplyString c crlf.
(** Line ends inside the message become spaces. *)
Definition addReplyErrorFormat (c : Z) (msg : bytes) : M unit :=
  addReplyError c ((fun b => if (b =? 13) || (b =? 10) then 32 else b) <$> msg).

Definition REDIS_SHARED_BULKHDR_LEN : Z := 32.
(** [shared.mbulkhdr] and [shared.bulkhdr], indexed. *)
Definition shared_header (prefix i : Z) : M bytes :=
  check (0 <=? i);; mret (with_prefix prefix i).

Definition addReplyLongLongWithPrefix (c ll prefix : Z) : M unit :=
  if ((prefix =? 42) || (prefix =? 36)) && (ll <? REDIS_SHARED_BULKHDR_LEN) then
    h ← shared_header prefix ll; addReplyString c h
  else
    '(len, buf) ← opt (ll2string (local_buf (junk P) 127) 127 ll);
    bs ← opt (mem_read buf 0 len);
    addReplyString c (prefix :: bs ++ crlf).
Definition addReplyLongLong (c ll : Z) : M unit :=
  if ll =? 0 then addReplyString c shared_czero
  else if ll =? 1 then addReplyString c shared_cone
  else addReplyLongLongWithPrefix c ll 58.
Definition addReplyMultiBulkLen (c length : Z) : M unit :=
  if length <? REDIS_SHARED_BULKHDR_LEN then
    h ← shared_header 42 length; addReplyString c h
  else addReplyLongLongWithPrefix c length 42.

(** The decimal digits of [n], counted; C's division truncates.  Nineteen rounds
    are the most a [long] takes. *)
Fixpoint count_digits (fuel : nat) (n len : Z) : Z :=
  match fuel with
  | O => len
  | S fuel => let n := Z.quot n 10 in if n =? 0 then len else count_digits fuel n (len + 1)
  end.

(** [n = -n] wraps for the least [long]. *)
Definition addReplyBulkLen (c : Z) (o : Z) : M unit :=
  ob ← obj o;
  len ← (if sdsEncodedObject ob then s ← opt (as_sds ob); mret (sds_len s)
         else n ← opt (as_long ob);
              mret (if n <? 0 then count_digits 20 (s64 (- n)) 2 else count_digits 20 n 1));
  if len <? REDIS_SHARED_BULKHDR_LEN then h ← shared_header 36 len; addReplyString c h
  else addReplyLongLongWithPrefix c len 36.

(** [addReply] of a string object that is not shared text. *)
Definition addReply (c : Z) (o : Z) : M unit :=
  ob ← obj o;
  if sdsEncodedObject ob then bs ← str o; addReplyString c bs
  else if bool_decide (o_encoding ob = ENC_INT) then
    v ← opt (as_long ob);
    '(len, buf) ← opt (ll2string (local_buf (junk P) 32) 32 v);
    bs ← opt (mem_read buf 0 len);
    addReplyString c bs
  else fail.

Definition addReplyBulk (c : Z) (o : Z) : M unit :=
  addReplyBulkLen c o;; addReply c o;; addReplyString c crlf.
Definition addReplyBulkCBuffer (c : Z) (bs : bytes) : M unit :=
  addReplyLongLongWithPrefix c (zlen bs) 36;; addReplyString c bs;; addReplyString c crlf.

(** ** object.c: checks that reply *)

Definition checkType (c : Z) (o : Z) (type : otype) : M bool :=
  ob ← obj o;
  if bool_decide (o_type ob = type) then mret false
  else addReplyString c shared_wrongtypeerr;; mret true.

(** [None] is [REDIS_ERR]; [o] may be NULL. *)
Definition getLongLongFromObjectOrReply (c : Z) (o : option Z) (msg : option bytes)
    : M (option Z) :=
  ob ← (match o with None => mret None | Some a => ob ← obj a; mret (Some ob) end);
  r ← opt (Object.getLongLongFromObject ob);
  match r with
  | Some v => mret (Some v)
  | None =>
      addReplyError c (default (bytes_of "value is not an integer or out of range") msg);;
      mret None
  end.
Definition getLongFromObjectOrReply (c : Z) (o : option Z) (msg : option bytes)
    : M (option Z) :=
  r ← getLongLongFromObjectOrReply c o msg;
  match r with
  | Some v =>
      if (v <? LLONG_MIN) || (LLONG_MAX <? v) then
        addReplyError c (default (bytes_of "value is out of range") msg);; mret None
      else mret (Some v)
  | None => mret None
  end.

(** A reading of the object that is not a conversion: [stringObjectLen]. *)
Definition stringObjectLen (o : Z) : M Z :=
  ob ← obj o; opt (Object.stringObjectLen (junk P) ob).

Definition notifyKeyspaceEvent (type : string) (key : bytes) (dbid : Z) : M unit :=
  modify (add_event (Notified type key dbid)).
End Operations.
