(* ===== verification/Keyspace.v ===== *)
(** The key space of [src/redis-3.0.0/src/db.c]: lookups, additions,
    replacements and deletions with their reference counts, expiry, and the
    commands on keys of any type; with them the hooks of multi.c that a change
    of a key calls.

    The dictionaries of a database are finite maps ([Dict.dict_refines_map]).
    [dictEmpty] and the destructors release values in an order that no count
    depends on. *)
From stdpp Require Import gmap list strings.
From S2P Require Import Prelude Util Sds SdsText Object Server.
Local Open Scope c_scope.

(** ** multi.c: touching watched keys *)

Section Touch.
Context {V : Type}.

Definition add_flag (f : flag) (c : redisClient V) : redisClient V := set_flags ({[f]} ∪ c_flags c) c.
Definition clear_flags (fs : gset flag) (c : redisClient V) : redisClient V :=
  set_flags (c_flags c ∖ fs) c.
Definition has_flag (f : flag) (c : redisClient V) : bool := bool_decide (f ∈ c_flags c).

Definition touch_clients (cs : list Z) (s : state V) : state V :=
  fold_left (fun s c => upd_client c (add_flag REDIS_DIRTY_CAS) s) cs s.

Definition touchWatchedKey (d : Z) (key : bytes) (s : state V) : state V :=
  match db_at s d with
  | Some db =>
      if bool_decide (db_watched_keys db = ∅) then s
      else match db_watched_keys db !! key with
           | Some clients => touch_clients clients s
           | None => s
           end
  | None => s
  end.

Definition signalModifiedKey (d : Z) (key : bytes) (s : state V) : state V :=
  touchWatchedKey d key s.

(** A client watches a key of database [dbid] (-1: of any) that exists. *)
Definition watches_existing (dbid : Z) (s : state V) (c : redisClient V) : bool :=
  existsb (fun wk : bytes * Z =>
    ((dbid =? -1) || (wk.2 =? dbid)) &&
    match db_at s wk.2 with Some db => bool_decide (is_Some (db_dict db !! wk.1)) | None => false end)
    (c_watched_keys c).

Definition touchWatchedKeysOnFlush (dbid : Z) (s : state V) : state V :=
  set_clients ((fun c => if watches_existing dbid s c then add_flag REDIS_DIRTY_CAS c else c)
                 <$> s_clients s) s.

Definition signalFlushedDb (dbid : Z) (s : state V) : state V := touchWatchedKeysOnFlush dbid s.
End Touch.

Section Keyspace.
Context (P : platform).

Definition REDIS_OK : Z := 0.
Definition REDIS_ERR : Z := -1.

Definition db (d : Z) : M (redisDb Z) := s ← get_state; opt (db_at s d).
Definition upd_dict (d : Z) (f : gmap bytes Z -> gmap bytes Z) : M unit :=
  x ← db d; modify (upd_db d (set_dict (f (db_dict x)))).
Definition upd_expires (d : Z) (f : gmap bytes Z -> gmap bytes Z) : M unit :=
  x ← db d; modify (upd_db d (set_expires (f (db_expires x)))).

Definition lookupKey (d key : Z) : M (option Z) :=
  k ← str key; x ← db d; mret (db_dict x !! k).

Definition dbExists (d key : Z) : M bool :=
  o ← lookupKey d key; mret (bool_decide (is_Some o)).

(** [dictDelete] on the expires, then on the dictionary, whose destructor
    releases the value. *)
Definition dbDelete (d key : Z) : M bool :=
  k ← str key; x ← db d;
  when (negb (bool_decide (db_expires x = ∅))) (upd_expires d (delete k));;
  match db_dict x !! k with
  | Some o => upd_dict d (delete k);; decrRefCount o;; mret true
  | None => mret false
  end.

(** ** Expiry *)

Definition getExpire (d key : Z) : M Z :=
  k ← str key; x ← db d;
  if bool_decide (db_expires x = ∅) then mret (-1)
  else match db_expires x !! k with
       | None => mret (-1)
       | Some t => check (bool_decide (is_Some (db_dict x !! k)));; mret t
       end.

Definition removeExpire (d key : Z) : M bool :=
  k ← str key; x ← db d;
  check (bool_decide (is_Some (db_dict x !! k)));;
  upd_expires d (delete k);; mret (bool_decide (is_Some (db_expires x !! k))).

Definition setExpire (d key : Z) (t : Z) : M unit :=
  k ← str key; x ← db d;
  check (bool_decide (is_Some (db_dict x !! k)));;
  upd_expires d <[k := t]>.

Definition propagateExpire (d key : Z) : M unit :=
  k ← str key; s ← get_state;
  modify (add_event (Propagated d [bytes_of "DEL"; k] (s_aof s) true)).

Definition expireIfNeeded (d key : Z) : M bool :=
  t ← getExpire d key; s ← get_state;
  if t <? 0 then mret false
  else if s_loading s then mret false
  else if negb (s_master s) then mret (t <? s_now s)
  else if s_now s <=? t then mret false
  else
    propagateExpire d key;;
    k ← str key; notifyKeyspaceEvent "expired" k d;;
    dbDelete d key.

(** ** Lookups that expire, additions and replacements *)

Definition lookupKeyRead (d key : Z) : M (option Z) := expireIfNeeded d key;; lookupKey d key.
Definition lookupKeyWrite (d key : Z) : M (option Z) := expireIfNeeded d key;; lookupKey d key.

Definition lookupKeyReadOrReply (c d key : Z) (reply : bytes) : M (option Z) :=
  o ← lookupKeyRead d key;
  match o with
  | Some o => mret (Some o)
  | None => addReplyString c reply;; mret None
  end.
Definition lookupKeyWriteOrReply (c d key : Z) (reply : bytes) : M (option Z) :=
  o ← lookupKeyWrite d key;
  match o with
  | Some o => mret (Some o)
  | None => addReplyString c reply;; mret None
  end.

Definition dbAdd (d key val : Z) : M unit :=
  k ← str key; x ← db d;
  check (bool_decide (db_dict x !! k = None));;
  upd_dict d <[k := val]>;;
  ob ← obj val;
  when (bool_decide (o_type ob = REDIS_LIST)) (notifyKeyspaceEvent "ready" k d).

(** [dictReplace] stores the new value, then releases the old one. *)
Definition dbOverwrite (d key val : Z) : M unit :=
  k ← str key; x ← db d;
  match db_dict x !! k with
  | Some old => upd_dict d <[k := val]>;; decrRefCount old
  | None => fail
  end.

Definition signal (d key : Z) : M unit := k ← str key; modify (signalModifiedKey d k).

Definition setKey (d key val : Z) : M unit :=
  o ← lookupKeyWrite d key;
  (match o with None => dbAdd d key val | Some _ => dbOverwrite d key val end);;
  incrRefCount val;;
  removeExpire d key;;
  signal d key.

Definition dbUnshareStringValue (d key o : Z) : M Z :=
  ob ← obj o;
  check (is_string ob);;
  if negb (o_refcount ob =? 1) || negb (bool_decide (o_encoding ob = ENC_RAW)) then
    decoded ← getDecodedObject P o;
    s ← sds_of decoded;
    o' ← createRawStringObject P (sds_buf s) (sds_len s);
    decrRefCount decoded;;
    dbOverwrite d key o';;
    mret o'
  else mret o.

(** [dictEmpty]: every value is released. *)
Definition empty_dict (d : Z) : M unit :=
  x ← db d;
  upd_dict d (fun _ => ∅);; each decrRefCount (map_to_list (db_dict x)).*2;;
  upd_expires d (fun _ => ∅).

Definition emptyDb : M Z :=
  s ← get_state;
  each empty_dict (seqZ 0 (zlen (s_dbs s)));;
  mret (foldr Z.add 0 ((fun x => Z.of_nat (size (db_dict x))) <$> s_dbs s)).

Definition selectDb (c id : Z) : M Z :=
  s ← get_state;
  if (id <? 0) || (zlen (s_dbs s) <=? id) then mret REDIS_ERR
  else upd c (set_c_db id);; mret REDIS_OK.

Definition dirty (n : Z) : M unit := modify (add_dirty n).
Definition notify (type : string) (d key : Z) : M unit :=
  k ← str key; notifyKeyspaceEvent type k d.
(** [c->db] *)
Definition cdb (c : Z) : M Z := cl ← client c; mret (c_db cl).

(** ** Commands on keys of any type *)

Definition flushdbCommand (c : Z) : M unit :=
  d ← cdb c; x ← db d;
  dirty (Z.of_nat (size (db_dict x)));;
  modify (signalFlushedDb d);;
  empty_dict d;;
  addReplyString c shared_ok_reply.

(** The snapshot that is saved in the end leaves [server.dirty] as it was. *)
Definition flushallCommand (c : Z) : M unit :=
  modify (signalFlushedDb (-1));;
  n ← emptyDb; dirty n;;
  addReplyString c shared_ok_reply;;
  dirty 1.

Fixpoint del_loop (c d : Z) (keys : list Z) (deleted : Z) : M Z :=
  match keys with
  | [] => mret deleted
  | key :: keys =>
      expireIfNeeded d key;;
      ok ← dbDelete d key;
      if (ok : bool) then
        signal d key;; notify "del" d key;; dirty 1;; del_loop c d keys (deleted + 1)
      else del_loop c d keys deleted
  end.
Definition delCommand (c : Z) : M unit :=
  d ← cdb c; cl ← client c;
  deleted ← del_loop c d (drop 1 (c_argv cl)) 0;
  addReplyLongLong P c deleted.

Definition existsCommand (c : Z) : M unit :=
  d ← cdb c; key ← argv c 1;
  expireIfNeeded d key;;
  b ← dbExists d key;
  addReplyString c (if (b : bool) then shared_cone else shared_czero).

Definition selectCommand (c : Z) : M unit :=
  a ← argv c 1;
  id ← getLongFromObjectOrReply c (Some a) (Some (bytes_of "invalid DB index"));
  match id with
  | None => mret tt
  | Some id =>
      r ← selectDb c (s32 id);
      if r =? REDIS_ERR then addReplyError c (bytes_of "invalid DB index")
      else addReplyString c shared_ok_reply
  end.

Definition dbsizeCommand (c : Z) : M unit :=
  d ← cdb c; x ← db d; addReplyLongLong P c (Z.of_nat (size (db_dict x))).

Definition type_name (t : otype) : string :=
  match t with
  | REDIS_STRING => "string" | REDIS_LIST => "list" | REDIS_SET => "set"
  | REDIS_ZSET => "zset" | REDIS_HASH => "hash"
  end.
Definition typeCommand (c : Z) : M unit :=
  d ← cdb c; key ← argv c 1;
  o ← lookupKeyRead d key;
  match o with
  | None => addReplyString c (line "+none")
  | Some o => ob ← obj o; addReplyString c (43 :: bytes_of (type_name (o_type ob)) ++ crlf)
  end.

(** [sdscmp(a,b) == 0] *)
Definition same_key (a b : Z) : M bool :=
  x ← str a; y ← str b; mret (bool_decide (x = y)).

Definition renameGenericCommand (c : Z) (nx : bool) : M unit :=
  d ← cdb c; src ← argv c 1; dst ← argv c 2;
  same ← same_key src dst;
  if (same : bool) then addReplyString c shared_sameobjecterr else
  o ← lookupKeyWriteOrReply c d src shared_nokeyerr;
  match o with
  | None => mret tt
  | Some o =>
      incrRefCount o;;
      expire ← getExpire d src;
      old ← lookupKeyWrite d dst;
      if bool_decide (is_Some old) && nx then decrRefCount o;; addReplyString c shared_czero
      else
        when (bool_decide (is_Some old)) (dbDelete d dst;; mret tt);;
        dbAdd d dst o;;
        when (negb (expire =? -1)) (setExpire d dst expire);;
        dbDelete d src;;
        signal d src;; signal d dst;;
        notify "rename_from" d src;; notify "rename_to" d dst;;
        dirty 1;;
        addReplyString c (if nx then shared_cone else shared_ok_reply)
  end.
Definition renameCommand (c : Z) : M unit := renameGenericCommand c false.
Definition renamenxCommand (c : Z) : M unit := renameGenericCommand c true.

(** The object of the destination and of the source share it until the source's
    entry is deleted. *)
Definition moveCommand (c : Z) : M unit :=
  src ← cdb c; key ← argv c 1; a ← argv c 2; ob ← obj a;
  n ← opt (Object.getLongLongFromObject (Some ob));
  s ← get_state;
  match n with
  | None => addReplyString c shared_outofrangeerr
  | Some dst =>
      if (dst <? - 2 ^ 31) || (2 ^ 31 - 1 <? dst) || (dst <? 0) || (zlen (s_dbs s) <=? dst)
      then addReplyString c shared_outofrangeerr
      else if src =? dst then addReplyString c shared_sameobjecterr
      else
        o ← lookupKeyWrite src key;
        match o with
        | None => addReplyString c shared_czero
        | Some o =>
            o' ← lookupKeyWrite dst key;
            match o' with
            | Some _ => addReplyString c shared_czero
            | None =>
                dbAdd dst key o;; incrRefCount o;;
                dbDelete src key;;
                dirty 1;;
                addReplyString c shared_cone
            end
        end
  end.

(** ** Commands on expiry *)

Definition ll_ok (x : Z) : option Z := if decide (in_s 64 x) then Some x else None.

(** The command table's entry of DEL. *)
Definition del_command : redisCommand := mkCommand (bytes_of "del") P_del (-2) true false false false false.

(** [rewriteClientCommandVector]: the new arguments gain a reference, the old
    ones lose theirs. *)
Definition rewriteClientCommandVector (c : Z) (args : list Z) (cmd : redisCommand) : M unit :=
  each incrRefCount args;;
  cl ← client c;
  upd c (set_argv args);;
  each decrRefCount (c_argv cl);;
  upd c (set_cmd (Some cmd)).

(** Signed overflow is undefined. *)
Definition expireGenericCommand (c basetime : Z) (seconds : bool) : M unit :=
  d ← cdb c; key ← argv c 1; param ← argv c 2;
  r ← getLongLongFromObjectOrReply c (Some param) None;
  match r with
  | None => mret tt
  | Some t =>
      t ← (if seconds then opt (ll_ok (t * 1000)) else mret t);
      t ← opt (ll_ok (t + basetime));
      o ← lookupKeyRead d key;
      match o with
      | None => addReplyString c shared_czero
      | Some _ =>
          s ← get_state;
          if (t <=? s_now s) && negb (s_loading s) && s_master s then
            ok ← dbDelete d key;
            check ok;;
            dirty 1;;
            aux ← createStringObject P (bytes_of "DEL");
            rewriteClientCommandVector c [aux; key] del_command;;
            decrRefCount aux;;
            signal d key;; notify "del" d key;;
            addReplyString c shared_cone
          else
            setExpire d key t;;
            addReplyString c shared_cone;;
            signal d key;; notify "expire" d key;;
            dirty 1
      end
  end.
Definition expireCommand (c : Z) : M unit := s ← get_state; expireGenericCommand c (s_now s) true.
Definition expireatCommand (c : Z) : M unit := expireGenericCommand c 0 true.
Definition pexpireCommand (c : Z) : M unit := s ← get_state; expireGenericCommand c (s_now s) false.
Definition pexpireatCommand (c : Z) : M unit := expireGenericCommand c 0 false.

Definition ttlGenericCommand (c : Z) (output_ms : bool) : M unit :=
  d ← cdb c; key ← argv c 1;
  o ← lookupKeyRead d key;
  match o with
  | None => addReplyLongLong P c (-2)
  | Some _ =>
      expire ← getExpire d key;
      ttl ← (if negb (expire =? -1) then
               s ← get_state; ttl ← opt (ll_ok (expire - s_now s));
               mret (if ttl <? 0 then 0 else ttl)
             else mret (-1));
      if ttl =? -1 then addReplyLongLong P c (-1)
      else
        n ← (if output_ms then mret ttl else n ← opt (ll_ok (ttl + 500)); mret (Z.quot n 1000));
        addReplyLongLong P c n
  end.
Definition ttlCommand (c : Z) : M unit := ttlGenericCommand c false.
Definition pttlCommand (c : Z) : M unit := ttlGenericCommand c true.

(** The key is looked up without expiring it. *)
Definition persistCommand (c : Z) : M unit :=
  d ← cdb c; key ← argv c 1;
  o ← lookupKey d key;
  match o with
  | None => addReplyString c shared_czero
  | Some _ =>
      removed ← removeExpire d key;
      if (removed : bool) then addReplyString c shared_cone;; dirty 1
      else addReplyString c shared_czero
  end.
End Keyspace.
