(* ===== verification/ServerRep.v ===== *)
(** The invariant of the server's heap and its abstraction.

    Every reference count is the number of places that hold the object: the
    shared integers, the values of the databases, the arguments of the clients
    and of their queued commands, and the temporaries of the running function.
    Every object has an encoding of its type.  The abstraction replaces the
    addresses in a state by the values of their objects. *)
From stdpp Require Import gmap list strings.
From S2P Require Import Prelude Util Sds SdsText Object Server Keyspace.
Local Open Scope c_scope.

(** ** Counting *)

(** The sum of a weight over a list; [cnt] counts an address, and the constant
    weight 1 gives the length. *)
Definition total {V} (w : V -> Z) (l : list V) : Z := foldr (fun v n => w v + n) 0 l.

Lemma total_cons {V} (w : V -> Z) v l : total w (v :: l) = w v + total w l.
Proof. done. Qed.
Global Arguments total : simpl never.

Section Total.
Context {V : Type} (w : V -> Z).

Lemma total_split l k : total w (l ++ k) = total w l + total w k.
Proof. induction l as [|x l IH]; [done|]. cbn [app]. rewrite !total_cons, IH. lia. Qed.
Lemma total_perm l k : l ≡ₚ k -> total w l = total w k.
Proof. induction 1; rewrite ?total_cons; lia. Qed.
Lemma total_concat_alter {A} (f : A -> list V) (g : A -> A) (l : list A) (i : nat) x :
  l !! i = Some x ->
  total w (concat (f <$> alter g i l)) = total w (concat (f <$> l)) - total w (f x) + total w (f (g x)).
Proof.
  intros Hx. destruct (list_elem_of_split_length l i x Hx) as (l1 & l2 & -> & ->).
  rewrite alter_app_r_alt, Nat.sub_diag by lia.
  change (alter g 0%nat (x :: l2)) with (g x :: l2).
  rewrite !fmap_app, !fmap_cons, !concat_app. cbn [concat]. rewrite !total_split. lia.
Qed.
End Total.

Definition one (q o : Z) : Z := if decide (q = o) then 1 else 0.
Definition cnt (o : Z) (l : list Z) : Z := total (fun q => one q o) l.

Lemma one_eq o : one o o = 1.
Proof. unfold one. by rewrite decide_True. Qed.
Lemma one_bounds q o : 0 <= one q o <= 1.
Proof. unfold one. case_decide; lia. Qed.

Lemma cnt_nil o : cnt o [] = 0.
Proof. done. Qed.
Lemma cnt_cons o q l : cnt o (q :: l) = one q o + cnt o l.
Proof. done. Qed.
Lemma cnt_app o l k : cnt o (l ++ k) = cnt o l + cnt o k.
Proof. apply total_split. Qed.
Lemma cnt_nonneg o l : 0 <= cnt o l.
Proof. induction l as [|q l IH]; [done|]. rewrite cnt_cons. pose proof (one_bounds q o). lia. Qed.
Lemma total_one {V} (l : list V) : total (fun _ => 1) l = zlen l.
Proof. induction l as [|x l IH]; [done|]. rewrite zlen_cons, total_cons. lia. Qed.
Lemma cnt_le o l : cnt o l <= zlen l.
Proof.
  induction l as [|q l IH]; [done|]. rewrite cnt_cons, zlen_cons. pose proof (one_bounds q o). lia.
Qed.
Lemma cnt_elem o l : o ∈ l <-> 0 < cnt o l.
Proof.
  induction l as [|q l IH]; [rewrite cnt_nil; split; [by intros ?%elem_of_nil|lia]|].
  rewrite elem_of_cons, cnt_cons, IH. unfold one. pose proof (cnt_nonneg o l).
  case_decide; naive_solver lia.
Qed.

(** ** What a state refers to *)

Section Roots.
Context {V : Type}.

Definition dict_roots (m : gmap bytes V) : list V := (map_to_list m).*2.
Definition client_roots (c : redisClient V) : list V :=
  c_argv c ++ concat (mc_argv <$> c_mstate c).
Definition dbs_roots (ds : list (redisDb V)) : list V := concat ((dict_roots ∘ db_dict) <$> ds).
Definition clients_roots (cs : gmap Z (redisClient V)) : list V :=
  concat ((fun p => client_roots p.2) <$> map_to_list cs).
Definition roots (s : state V) : list V := dbs_roots (s_dbs s) ++ clients_roots (s_clients s).

Context (w : V -> Z).

Lemma total_dict_insert m k v : m !! k = None ->
  total w (dict_roots (<[k := v]> m)) = total w (dict_roots m) + w v.
Proof.
  intros Hk. unfold dict_roots. rewrite (total_perm w _ ((k, v) :: map_to_list m).*2).
  - change (w v + total w (map_to_list m).*2 = total w (map_to_list m).*2 + w v). lia.
  - by rewrite map_to_list_insert.
Qed.

Lemma total_dict_delete m k v : m !! k = Some v ->
  total w (dict_roots (delete k m)) = total w (dict_roots m) - w v.
Proof.
  intros Hk. rewrite <- (insert_delete_id m k v Hk) at 2.
  rewrite total_dict_insert; [lia|]. by rewrite lookup_delete_eq.
Qed.

Lemma total_dict_replace m k old v : m !! k = Some old ->
  total w (dict_roots (<[k := v]> m)) = total w (dict_roots m) - w old + w v.
Proof.
  intros Hk. rewrite <- insert_delete_eq, total_dict_insert by (by rewrite lookup_delete_eq).
  by rewrite (total_dict_delete m k old).
Qed.

Lemma dict_roots_elem (m : gmap bytes V) k v : m !! k = Some v -> v ∈ dict_roots m.
Proof. intros Hk. apply list_elem_of_fmap. exists (k, v). by rewrite elem_of_map_to_list. Qed.

Lemma total_upd_db s d x f : db_at s d = Some x ->
  total w (roots (upd_db d f s)) =
  total w (roots s) - total w (dict_roots (db_dict x)) + total w (dict_roots (db_dict (f x))).
Proof.
  unfold db_at, znth. case_decide as Hd; [|done]. intros Hx. unfold roots, dbs_roots.
  cbn [upd_db set_dbs s_dbs s_clients].
  rewrite !total_split, (total_concat_alter w _ f _ _ x Hx). cbn [compose]. lia.
Qed.

Lemma total_clients_insert cs c cl : cs !! c = None ->
  total w (clients_roots (<[c := cl]> cs)) = total w (clients_roots cs) + total w (client_roots cl).
Proof.
  intros Hc. unfold clients_roots.
  rewrite (total_perm w _ (concat ((fun p => client_roots p.2) <$> ((c, cl) :: map_to_list cs)))).
  - cbn. rewrite total_split. lia.
  - by rewrite map_to_list_insert.
Qed.

Lemma total_clients_alter cs c cl f : cs !! c = Some cl ->
  total w (clients_roots (alter f c cs)) =
  total w (clients_roots cs) - total w (client_roots cl) + total w (client_roots (f cl)).
Proof.
  intros Hc. rewrite <- (insert_delete_id cs c cl Hc) at 2.
  rewrite (total_clients_insert (delete c cs)) by (by rewrite lookup_delete_eq).
  replace (alter f c cs) with (<[c := f cl]> (delete c cs)).
  - rewrite total_clients_insert by (by rewrite lookup_delete_eq). lia.
  - apply map_eq. intros i. destruct (decide (i = c)) as [->|].
    + by rewrite lookup_insert_eq, lookup_alter_eq, Hc.
    + by rewrite lookup_insert_ne, lookup_delete_ne, lookup_alter_ne.
Qed.

Lemma total_upd_client s c cl f : s_clients s !! c = Some cl ->
  total w (roots (upd_client c f s)) =
  total w (roots s) - total w (client_roots cl) + total w (client_roots (f cl)).
Proof.
  intros Hc. unfold roots. cbn [upd_client set_clients s_dbs s_clients].
  rewrite !total_split, (total_clients_alter _ c cl f Hc). lia.
Qed.
End Roots.

Lemma cnt_dict_insert o m k v : m !! k = None ->
  cnt o (dict_roots (<[k := v]> m)) = cnt o (dict_roots m) + one v o.
Proof. apply (total_dict_insert (fun q => one q o)). Qed.
Lemma cnt_dict_delete o m k v : m !! k = Some v ->
  cnt o (dict_roots (delete k m)) = cnt o (dict_roots m) - one v o.
Proof. apply (total_dict_delete (fun q => one q o)). Qed.
Lemma cnt_dict_replace o m k old v : m !! k = Some old ->
  cnt o (dict_roots (<[k := v]> m)) = cnt o (dict_roots m) - one old o + one v o.
Proof. apply (total_dict_replace (fun q => one q o)). Qed.
Lemma cnt_upd_db o s d x f : db_at s d = Some x ->
  cnt o (roots (upd_db d f s)) =
  cnt o (roots s) - cnt o (dict_roots (db_dict x)) + cnt o (dict_roots (db_dict (f x))).
Proof. apply (total_upd_db (fun q => one q o)). Qed.
Lemma cnt_upd_client o s c cl f : s_clients s !! c = Some cl ->
  cnt o (roots (upd_client c f s)) =
  cnt o (roots s) - cnt o (client_roots cl) + cnt o (client_roots (f cl)).
Proof. apply (total_upd_client (fun q => one q o)). Qed.

(** The number of references. *)
Definition weight {V} (s : state V) : Z := zlen (roots s).
Lemma weight_total {V} (s : state V) : weight s = total (fun _ => 1) (roots s).
Proof. by rewrite total_one. Qed.

Lemma concat_elem {A B} (f : A -> list B) (l : list A) x y : x ∈ l -> y ∈ f x -> y ∈ concat (f <$> l).
Proof.
  intros Hx Hy. apply list_elem_of_In, in_concat. exists (f x). rewrite <- !list_elem_of_In.
  split; [|done]. apply list_elem_of_fmap. by exists x.
Qed.

Lemma root_of_db {V} (s : state V) d x k o : db_at s d = Some x -> db_dict x !! k = Some o -> o ∈ roots s.
Proof.
  unfold db_at, znth. case_decide; [|done]. intros Hx Ho. apply elem_of_app. left.
  apply (concat_elem _ _ x); [by eapply list_elem_of_lookup_2|]. by apply (dict_roots_elem _ k).
Qed.

Lemma root_of_client {V} (s : state V) c cl o : s_clients s !! c = Some cl -> o ∈ client_roots cl -> o ∈ roots s.
Proof.
  intros Hc Ho. apply elem_of_app. right.
  apply (concat_elem (fun p : Z * redisClient V => client_roots p.2) _ (c, cl)); [|done]. by apply elem_of_map_to_list.
Qed.

(** ** Values and the abstraction *)

(** Values of the types this development does not look into keep their type. *)
Inductive aval := AStr (bs : bytes) | AOther (t : otype).
Global Instance aval_dec : EqDecision aval.
Proof. solve_decision. Defined.

Section Map.
Context {A B : Type} (g : A -> B).

Definition map_db (x : redisDb A) : redisDb B :=
  mkDb (g <$> db_dict x) (db_expires x) (db_watched_keys x).
Definition map_cmd (q : multiCmd A) : multiCmd B := mkMultiCmd (g <$> mc_argv q) (mc_cmd q).
Definition map_client (c : redisClient A) : redisClient B :=
  mkClient (c_db c) (c_flags c) (g <$> c_argv c) (c_cmd c) (map_cmd <$> c_mstate c)
    (c_watched_keys c) (c_pubsub_channels c) (c_pubsub_patterns c) (c_reply c).
Definition map_state (s : state A) : state B :=
  mkState (map_db <$> s_dbs s) (map_client <$> s_clients s) (s_dirty s) (s_log s)
    (s_channels s) (s_patterns s) (s_now s) (s_loading s) (s_master s) (s_aof s).

Lemma map_upd_db d f f' s : (forall x, map_db (f x) = f' (map_db x)) ->
  map_state (upd_db d f s) = upd_db d f' (map_state s).
Proof.
  intros H. unfold map_state, upd_db, set_dbs. cbn. f_equal. by apply list_fmap_alter, Forall_true.
Qed.

Lemma map_upd_client c f f' s : (forall x, map_client (f x) = f' (map_client x)) ->
  map_state (upd_client c f s) = upd_client c f' (map_state s).
Proof.
  intros H. unfold map_state, upd_client, set_clients. cbn. f_equal.
  apply map_eq. intros i. rewrite !lookup_fmap. destruct (decide (i = c)) as [->|Hi].
  - rewrite !lookup_alter_eq, lookup_fmap. destruct (s_clients s !! c); cbn; [by rewrite H|done].
  - by rewrite !lookup_alter_ne, lookup_fmap by done.
Qed.

Lemma map_db_at s d : db_at (map_state s) d = map_db <$> db_at s d.
Proof.
  unfold db_at, znth, map_state. cbn. case_decide; [|done]. by rewrite list_lookup_fmap.
Qed.

Lemma map_clients s c : s_clients (map_state s) !! c = map_client <$> s_clients s !! c.
Proof. apply lookup_fmap. Qed.

Lemma map_touch_clients cs s : map_state (touch_clients cs s) = touch_clients cs (map_state s).
Proof.
  unfold touch_clients. revert s. induction cs as [|c cs IH]; intros s; [done|]. simpl.
  rewrite IH. f_equal. by apply map_upd_client.
Qed.

Lemma map_touch d k s : map_state (signalModifiedKey d k s) = signalModifiedKey d k (map_state s).
Proof.
  unfold signalModifiedKey, touchWatchedKey. rewrite map_db_at.
  destruct (db_at s d) as [x|]; [|done]. cbn. case_bool_decide; [done|].
  destruct (db_watched_keys x !! k); [apply map_touch_clients|done].
Qed.

Lemma map_watches_existing i s c :
  watches_existing i (map_state s) (map_client c) = watches_existing i s c.
Proof.
  unfold watches_existing. cbn. induction (c_watched_keys c) as [|wk l IH]; [done|]. cbn.
  rewrite IH, map_db_at. f_equal. f_equal. destruct (db_at s wk.2); [|done]. cbn.
  apply bool_decide_ext. by rewrite lookup_fmap, fmap_is_Some.
Qed.

Lemma map_flush i s : map_state (signalFlushedDb i s) = signalFlushedDb i (map_state s).
Proof.
  unfold signalFlushedDb, touchWatchedKeysOnFlush.
  change (s_clients (map_state s)) with (map_client <$> s_clients s).
  transitivity (set_clients (map_client <$> ((fun c => if watches_existing i s c
    then add_flag REDIS_DIRTY_CAS c else c) <$> s_clients s)) (map_state s)); [done|]. f_equal.
  rewrite <- !map_fmap_compose. apply map_fmap_ext. intros c cl _. cbn [compose].
  rewrite map_watches_existing. by destruct watches_existing.
Qed.
End Map.

(** The abstraction keeps the number of references. *)
Lemma zlen_concat_fmap {A B C} (f : A -> list B) (h : A -> list C) (l : list A) :
  (forall x, x ∈ l -> zlen (f x) = zlen (h x)) -> zlen (concat (f <$> l)) = zlen (concat (h <$> l)).
Proof.
  induction l as [|x l IH]; intros Hl; [done|]. cbn. rewrite !zlen_app, (Hl x) by left.
  rewrite IH; [done|]. intros y Hy. apply Hl. by right.
Qed.

Lemma weight_map {A B} (g : A -> B) s : weight (map_state g s) = weight s.
Proof.
  unfold weight, roots, dbs_roots, clients_roots. rewrite !zlen_app. f_equal.
  - cbn. rewrite <- list_fmap_compose. apply zlen_concat_fmap. intros x _. cbn. unfold dict_roots.
    rewrite !zlen_fmap. unfold zlen. rewrite !length_map_to_list. by rewrite map_size_fmap.
  - cbn. unfold zlen at 1. rewrite (Permutation_length (l' := concat ((fun p => client_roots p.2) <$>
      (prod_map id (map_client g) <$> map_to_list (s_clients s))))).
    2: { by rewrite map_to_list_fmap. }
    rewrite <- list_fmap_compose. apply (zlen_concat_fmap _ (fun p => client_roots p.2)).
    intros [c cl] _. cbn. unfold client_roots. cbn. rewrite !zlen_app, zlen_fmap. f_equal.
    rewrite <- list_fmap_compose. apply zlen_concat_fmap. intros q _. cbn. by rewrite zlen_fmap.
Qed.

Lemma map_state_ext {A B} (g g' : A -> B) s :
  (forall o, o ∈ roots s -> g o = g' o) -> map_state g s = map_state g' s.
Proof.
  intros H. unfold map_state. f_equal.
  - apply list_fmap_ext. intros i x Hx. unfold map_db. f_equal.
    apply map_fmap_ext. intros k o Ho. apply H. apply elem_of_app. left.
    apply (concat_elem _ _ x); [by eapply list_elem_of_lookup_2|]. by apply (dict_roots_elem _ k).
  - apply map_fmap_ext. intros c cl Hc. unfold map_client. f_equal.
    + apply list_fmap_ext. intros i o Ho. apply H. apply (root_of_client s c cl); [done|].
      apply elem_of_app. left. by eapply list_elem_of_lookup_2.
    + apply list_fmap_ext. intros i q Hq. unfold map_cmd. f_equal.
      apply list_fmap_ext. intros j o Ho. apply H. apply (root_of_client s c cl); [done|].
      apply elem_of_app. right. apply (concat_elem _ _ q); by eapply list_elem_of_lookup_2.
Qed.

(** ** The invariant *)

Class PlatformOk (P : platform) : Prop := { fresh : forall h, h !! zmalloc P h = None }.

Definition max_string : Z := 512 * 1024 * 1024.

Section Rep.
Context (P : platform).

Definition abs_obj (ob : robj) : aval :=
  if is_string ob then AStr (obj_bytes (junk P) ob) else AOther (o_type ob).
Definition abs_addr (h : store) (o : Z) : aval :=
  match h !! o with Some ob => abs_obj ob | None => AStr [] end.
Definition abs (s : server) : state aval := map_state (abs_addr s.1) s.2.

(** An object of a type has a value of that type. *)
Definition obj_ok (ob : robj) : Prop :=
  1 <= o_refcount ob /\
  if is_string ob then exists bs, string_rep ob bs /\ zlen bs <= max_string
  else o_ptr ob = POther.

Definition shared : list Z := integers P <$> seqZ 0 REDIS_SHARED_INTEGERS.

(** The references the server holds: [F] are the temporaries. *)
Definition held (s : server) (F : list Z) (o : Z) : Z :=
  cnt o shared + cnt o (roots s.2) + cnt o F.

(** The arguments of queued commands are distinct objects that hold an sds, and
    no command that controls a transaction is queued. *)
Definition encoded (h : store) (o : Z) : Prop :=
  exists ob, h !! o = Some ob /\ is_string ob = true /\ sdsEncodedObject ob = true.
Definition queue_ok (h : store) (st : state Z) : Prop :=
  forall c cl q, s_clients st !! c = Some cl -> q ∈ c_mstate cl ->
    (NoDup (mc_argv q) /\ while_queueing (cmd_proc (mc_cmd q)) = false) /\
    forall o, o ∈ mc_argv q -> encoded h o.

Record wf (s : server) (F : list Z) : Prop := {
  wf_refs : forall o, refs s.1 o = held s F o;
  wf_objs : map_Forall (fun _ ob => obj_ok ob) s.1;
  wf_shared : forall v, 0 <= v < REDIS_SHARED_INTEGERS -> exists rc,
    s.1 !! integers P v = Some (mkObj REDIS_STRING ENC_INT rc (PLong v));
  wf_expires : forall d x k, db_at s.2 d = Some x -> is_Some (db_expires x !! k) ->
    is_Some (db_dict x !! k);
  wf_db : forall c cl, s_clients s.2 !! c = Some cl -> is_Some (db_at s.2 (c_db cl));
  wf_queue : queue_ok s.1 s.2 }.

(** No count can overflow while [n] more references are taken. *)
Definition room {V} (s : state V) (n : Z) : Prop := zlen shared + weight s + n < 2 ^ 31 - 2.

(** An object used as an sds, such as a command's argument. *)
Definition sds_at (h : store) (o : Z) (bs : bytes) : Prop :=
  exists ob sd, h !! o = Some ob /\ is_string ob = true /\ sdsEncodedObject ob = true /\
    o_ptr ob = PSds sd /\ rep sd bs.

(** While client [c] with the arguments [L] runs: the server is well formed with
    the temporaries [F], whose values are known, and stands for [a]; the arguments
    [K] are known. *)
Record At (s : server) (c : Z) (L : list Z) (F : list (Z * aval)) (K : list (Z * bytes))
    (a : state aval) : Prop := {
  at_wf : wf s F.*1;
  at_abs : abs s = a;
  at_argv : exists cl, s_clients s.2 !! c = Some cl /\ c_argv cl = L;
  at_temps : forall o v, (o, v) ∈ F -> abs_addr s.1 o = v;
  at_keys : forall o bs, (o, bs) ∈ K -> o ∈ L /\ sds_at s.1 o bs }.

Lemma refs_pos h o : map_Forall (fun _ ob => obj_ok ob) h -> is_Some (h !! o) <-> 0 < refs h o.
Proof.
  intros H. unfold refs. split.
  - intros [ob Ho]. rewrite Ho. destruct (H o ob Ho). lia.
  - destruct (h !! o); [by eexists|lia].
Qed.

Lemma wf_alive s F o : wf s F -> 0 < held s F o -> exists ob, s.1 !! o = Some ob /\ obj_ok ob.
Proof.
  intros H Ho. rewrite <- (wf_refs s F H) in Ho. apply refs_pos in Ho as [ob Ho]; [|apply H].
  exists ob. split; [done|]. by apply (wf_objs s F H o).
Qed.

Lemma held_root s F o : o ∈ roots s.2 -> 0 < held s F o.
Proof.
  intros Ho%cnt_elem. unfold held. pose proof (cnt_nonneg o shared). pose proof (cnt_nonneg o F). lia.
Qed.
Lemma held_temp s F o : o ∈ F -> 0 < held s F o.
Proof.
  intros Ho%cnt_elem. unfold held. pose proof (cnt_nonneg o shared).
  pose proof (cnt_nonneg o (roots s.2)). lia.
Qed.

Lemma held_le s F o n : room s.2 (zlen F + n) -> held s F o + n < 2 ^ 31 - 2.
Proof.
  unfold held, room, weight. pose proof (cnt_le o shared). pose proof (cnt_le o (roots s.2)).
  pose proof (cnt_le o F). lia.
Qed.

Lemma abs_obj_rep ob bs : string_rep ob bs -> abs_obj ob = AStr bs.
Proof.
  intros H. unfold abs_obj. by rewrite (is_string_rep ob bs H), (obj_bytes_rep (junk P) ob bs H).
Qed.

Lemma abs_obj_refcount ob n : abs_obj (set_refcount ob n) = abs_obj ob.
Proof. done. Qed.

(** ** Changes of the heap *)

(** Outside [X] an object keeps its value or is gone. *)
Definition keep (X : list Z) (h h' : store) : Prop :=
  forall q ob, q ∉ X -> h !! q = Some ob ->
    h' !! q = None \/ exists n, h' !! q = Some (set_refcount ob n).

Lemma sds_at_keep X h h' o bs :
  keep X h h' -> o ∉ X -> is_Some (h' !! o) -> sds_at h o bs -> sds_at h' o bs.
Proof.
  intros Hk HX [ob' Ho'] (ob & sd & Ho & H1 & H2 & H3 & H4).
  destruct (Hk o ob HX Ho) as [Hn|[n Hn]]; [congruence|].
  exists (set_refcount ob n), sd. done.
Qed.

Lemma argv_root (s : state Z) c cl o : s_clients s !! c = Some cl -> o ∈ c_argv cl -> o ∈ roots s.
Proof. intros Hc Ho. apply (root_of_client s c cl); [done|]. apply elem_of_app. by left. Qed.

Lemma encoded_keep X h h' o :
  keep X h h' -> o ∉ X -> is_Some (h' !! o) -> encoded h o -> encoded h' o.
Proof.
  intros Hk HX [ob' Ho'] (ob & Ho & H1 & H2). destruct (Hk o ob HX Ho) as [Hn|[n Hn]]; [congruence|].
  by exists (set_refcount ob n).
Qed.

Lemma queued_root (st : state Z) c cl q o :
  s_clients st !! c = Some cl -> q ∈ c_mstate cl -> o ∈ mc_argv q -> o ∈ roots st.
Proof.
  intros Hc Hq Ho. apply (root_of_client st c cl); [done|]. apply elem_of_app. right. by apply (concat_elem _ _ q).
Qed.

(** The queues survive what keeps their objects. *)
Lemma queue_keep X h h' (st st' : state Z) : queue_ok h st -> keep X h h' ->
  (forall c cl', s_clients st' !! c = Some cl' -> exists cl, s_clients st !! c = Some cl /\ c_mstate cl' = c_mstate cl) ->
  (forall c cl q o, s_clients st !! c = Some cl -> q ∈ c_mstate cl -> o ∈ mc_argv q -> o ∉ X) ->
  (forall o, o ∈ roots st' -> is_Some (h' !! o)) -> queue_ok h' st'.
Proof.
  intros Hq Hk Hcl HX Ha c cl' q Hc Hin. destruct (Hcl c cl' Hc) as (cl & Hc0 & E). rewrite E in Hin.
  destruct (Hq c cl q Hc0 Hin) as [Hnd Henc]. split; [done|]. intros o Ho.
  apply (encoded_keep X h); [done|by apply (HX c cl q)| |by apply Henc].
  apply Ha, (queued_root st' c cl' q); [done|by rewrite E|done].
Qed.

(** Values outside [X] stay while the object is held. *)
Lemma keep_value s F h' F' X o : wf s F -> wf (h', s.2) F' -> keep X s.1 h' ->
  o ∉ X -> 0 < held s F o -> 0 < held (h', s.2) F' o -> abs_addr h' o = abs_addr s.1 o.
Proof.
  intros Hwf Hwf' Hk HX Ho Ho'.
  destruct (wf_alive s F o Hwf Ho) as (ob & Hob & _).
  destruct (wf_alive (h', s.2) F' o Hwf' Ho') as (ob' & Hob' & _).
  cbn in Hob'. destruct (Hk o ob HX Hob) as [Hn|[n Hn]]; [congruence|].
  unfold abs_addr. by rewrite Hn, Hob.
Qed.

Lemma At_heap s c L h' F F' K a X :
  At s c L F K a -> wf (h', s.2) F'.*1 -> keep X s.1 h' ->
  (forall o, o ∈ X -> o ∈ roots s.2 -> abs_addr h' o = abs_addr s.1 o) ->
  (forall o v, (o, v) ∈ F' -> (o, v) ∉ F \/ o ∈ X -> abs_addr h' o = v) ->
  (forall o bs, (o, bs) ∈ K -> o ∈ X -> sds_at h' o bs) ->
  At (h', s.2) c L F' K a.
Proof.
  intros [Hwf Habs Hargv Ht Hkeys] Hwf' Hk HX HF HK. split; [done| |done| |].
  - rewrite <- Habs. unfold abs. cbn [fst snd]. apply map_state_ext. intros o Ho.
    destruct (decide (o ∈ X)) as [Hin|Hin]; [by apply HX|].
    apply (keep_value s F.*1 h' F'.*1 X); [done|done|done|done|by apply held_root|by apply held_root].
  - intros o v Hov. destruct (decide (o ∈ X)) as [Hin|Hin]; [apply HF; auto|].
    destruct (decide ((o, v) ∈ F)) as [HinF|HinF]; [|apply HF; auto].
    rewrite <- (Ht o v HinF). apply (keep_value s F.*1 h' F'.*1 X); [done|done|done|done| |];
      apply held_temp, list_elem_of_fmap; by exists (o, v).
  - intros o bs Ho. destruct (Hkeys o bs Ho) as [Hr Hs]. split; [done|].
    destruct (decide (o ∈ X)) as [Hin|Hin]; [by apply HK|].
    apply (sds_at_keep X s.1); [done|done| |done].
    destruct Hargv as (cl & Hc & <-).
    destruct (wf_alive (h', s.2) F'.*1 o Hwf') as (ob' & Hob' & _); [|by exists ob'].
    by apply held_root, (argv_root _ c cl).
Qed.

(** The parts of [wf] that only the heap matters to. *)
Lemma wf_heap s h' F F' :
  wf s F ->
  (forall o, refs h' o = refs s.1 o + cnt o F' - cnt o F) ->
  map_Forall (fun _ ob => obj_ok ob) h' ->
  (forall v, 0 <= v < REDIS_SHARED_INTEGERS -> exists rc,
     h' !! integers P v = Some (mkObj REDIS_STRING ENC_INT rc (PLong v))) ->
  queue_ok h' s.2 -> wf (h', s.2) F'.
Proof.
  intros H Hr Ho Hs Hq. split; [|done|done|by apply H|by apply H|done].
  intros o. rewrite Hr, (wf_refs s F H). unfold held. cbn. lia.
Qed.

Lemma shared_elem v : 0 <= v < REDIS_SHARED_INTEGERS -> integers P v ∈ shared.
Proof. intros Hv. apply list_elem_of_fmap. exists v. split; [done|]. apply elem_of_seqZ. lia. Qed.

(** Shared integers survive whatever keeps the counts. *)
Lemma shared_keep X s h' F :
  wf s F -> keep X s.1 h' ->
  (forall v, 0 <= v < REDIS_SHARED_INTEGERS -> integers P v ∉ X) ->
  (forall v, 0 <= v < REDIS_SHARED_INTEGERS -> is_Some (h' !! integers P v)) ->
  forall v, 0 <= v < REDIS_SHARED_INTEGERS -> exists rc,
    h' !! integers P v = Some (mkObj REDIS_STRING ENC_INT rc (PLong v)).
Proof.
  intros H Hk HX Ha v Hv. destruct (wf_shared s F H v Hv) as [rc Hrc].
  destruct (Hk _ _ (HX v Hv) Hrc) as [Hn|[n Hn]]; [|by exists n].
  destruct (Ha v Hv) as [ob Hob]. congruence.
Qed.

(** A new count for [o], or its death. *)
Lemma keep_insert h o ob n : h !! o = Some ob -> keep [] h (<[o := set_refcount ob n]> h).
Proof.
  intros Ho q ob' _ Hq. right. destruct (decide (q = o)) as [->|Hne].
  - rewrite lookup_insert_eq. rewrite Ho in Hq. injection Hq as <-. by exists n.
  - exists (o_refcount ob'). rewrite lookup_insert_ne by done. by destruct ob'.
Qed.
Lemma keep_delete h o : keep [] h (delete o h).
Proof.
  intros q ob _ Hq. destruct (decide (q = o)) as [->|Hne]; [left; by rewrite lookup_delete_eq|right].
  exists (o_refcount ob). rewrite lookup_delete_ne by done. by destruct ob.
Qed.
Lemma keep_new h o ob : h !! o = None -> keep [] h (<[o := ob]> h).
Proof.
  intros Ho q ob' _ Hq. right. exists (o_refcount ob').
  rewrite lookup_insert_ne by congruence. by destruct ob'.
Qed.

(** A heap change that keeps every object but for its count. *)
Lemma At_heap_keep s c L h' F F' K a :
  At s c L F K a -> keep [] s.1 h' ->
  (forall o, refs h' o = refs s.1 o + cnt o F'.*1 - cnt o F.*1) ->
  map_Forall (fun _ ob => obj_ok ob) h' ->
  (forall o v, (o, v) ∈ F' -> (o, v) ∉ F -> abs_addr h' o = v) ->
  At (h', s.2) c L F' K a.
Proof.
  intros H Hk Hr Ho HF. assert (Hwf := at_wf _ _ _ _ _ _ H).
  apply (At_heap s c L h' F F' K a []); [done| |done|by intros o ?%elem_of_nil| |by intros o bs _ ?%elem_of_nil].
  - assert (Halive : forall o, o ∈ shared \/ o ∈ roots s.2 -> is_Some (h' !! o)).
    { intros o Hs. apply (refs_pos h'); [done|]. rewrite Hr, (wf_refs s F.*1 Hwf). unfold held.
      pose proof (cnt_nonneg o shared). pose proof (cnt_nonneg o (roots s.2)). pose proof (cnt_nonneg o F'.*1).
      destruct Hs as [Hs%cnt_elem|Hs%cnt_elem]; lia. }
    apply (wf_heap s h' F.*1 F'.*1); [done|done|done| |].
    + apply (shared_keep [] s h' F.*1); [done|done|by intros v _ ?%elem_of_nil|].
      intros v Hv. apply Halive. left. by apply shared_elem.
    + apply (queue_keep [] s.1 h' s.2); [apply Hwf|done|by intros c' cl' Hc; exists cl'|by intros ??????? ?%elem_of_nil|].
      intros o Hor. apply Halive. by right.
  - intros o v Hov [Hn|?%elem_of_nil]; [by apply HF|done].
Qed.
End Rep.

(** ** Total correctness of monadic code *)

Definition wp {A} (m : M A) (s : server) (Q : A -> server -> Prop) : Prop :=
  exists a s', m s = Some (a, s') /\ Q a s'.

Lemma wp_ret {A} (a : A) s (Q : A -> server -> Prop) : Q a s -> wp (mret a) s Q.
Proof. intros H. by exists a, s. Qed.
Lemma wp_bind {A B} (m : M A) (k : A -> M B) s Q :
  wp m s (fun a s' => wp (k a) s' Q) -> wp (mbind k m) s Q.
Proof.
  intros (a & s' & Hm & b & s'' & Hk & HQ). exists b, s''. split; [|done].
  unfold mbind, M_bind. by rewrite Hm.
Qed.
Lemma wp_mono {A} (m : M A) s (Q Q' : A -> server -> Prop) :
  wp m s Q -> (forall a s', Q a s' -> Q' a s') -> wp m s Q'.
Proof. intros (a & s' & Hm & HQ) H. exists a, s'. eauto. Qed.
Lemma wp_get s (Q : state Z -> server -> Prop) : Q s.2 s -> wp get_state s Q.
Proof. intros H. by exists s.2, s. Qed.
Lemma wp_modify f s (Q : unit -> server -> Prop) : Q tt (s.1, f s.2) -> wp (modify f) s Q.
Proof. intros H. by exists tt, (s.1, f s.2). Qed.
Lemma wp_opt {A} (x : option A) a s (Q : A -> server -> Prop) :
  x = Some a -> Q a s -> wp (opt x) s Q.
Proof. intros -> H. by exists a, s. Qed.
Lemma wp_check b s (Q : unit -> server -> Prop) : b = true -> Q tt s -> wp (check b) s Q.
Proof. intros -> H. by exists tt, s. Qed.
Lemma wp_obj o ob s (Q : robj -> server -> Prop) : s.1 !! o = Some ob -> Q ob s -> wp (obj o) s Q.
Proof. intros Ho H. exists ob, s. unfold obj. by rewrite Ho. Qed.
Lemma wp_on_heap f h s (Q : unit -> server -> Prop) :
  f s.1 = Some h -> Q tt (h, s.2) -> wp (on_heap f) s Q.
Proof. intros Hf H. exists tt, (h, s.2). unfold on_heap. by rewrite Hf. Qed.
Lemma wp_on_heap_get f h o s (Q : Z -> server -> Prop) :
  f s.1 = Some (h, o) -> Q o (h, s.2) -> wp (on_heap_get f) s Q.
Proof. intros Hf H. exists o, (h, s.2). unfold on_heap_get. by rewrite Hf. Qed.
Lemma wp_client c cl s (Q : redisClient Z -> server -> Prop) :
  s_clients s.2 !! c = Some cl -> Q cl s -> wp (client c) s Q.
Proof. intros Hc H. apply wp_bind, wp_get, (wp_opt _ cl); done. Qed.
Lemma wp_upd c cl f s (Q : unit -> server -> Prop) :
  s_clients s.2 !! c = Some cl -> Q tt (s.1, upd_client c f s.2) -> wp (upd c f) s Q.
Proof. intros Hc H. by apply wp_bind, (wp_client c cl), wp_modify. Qed.
Lemma wp_db d x s (Q : redisDb Z -> server -> Prop) :
  db_at s.2 d = Some x -> Q x s -> wp (db d) s Q.
Proof. intros Hd H. by apply wp_bind, wp_get, (wp_opt _ x). Qed.
