(* ===== verification/ServerOps.v ===== *)
(** Total correctness of the heap operations and of the replies: each keeps the
    invariant of [ServerRep] and has its effect on the abstraction. *)
From stdpp Require Import gmap list strings.
From S2P Require Import Prelude Util Sds SdsText Object Server Keyspace ServerRep.
Local Open Scope c_scope.

(** A field that a reply leaves. *)
Ltac by_say := intros; unfold say; cbn; case_bool_decide; done.

Section HeapOps.
Context (P : platform) {HP : PlatformOk P}.

Lemma obj_ok_refcount ob n : obj_ok ob -> 1 <= n -> obj_ok (set_refcount ob n).
Proof. intros [_ H] Hn. by split. Qed.

Lemma wp_decr s c L o v F K a Q : At P s c L ((o, v) :: F) K a ->
  (forall h, At P (h, s.2) c L F K a -> keep [] s.1 h -> (forall q, q <> o -> h !! q = s.1 !! q) ->
     Q tt (h, s.2)) -> wp (decrRefCount o) s Q.
Proof.
  intros H HQ. pose proof (at_wf _ _ _ _ _ _ _ H) as Hwf.
  destruct (wf_alive P s (o :: F.*1) o Hwf) as (ob & Ho & Hok);
    [apply held_temp; left|]. pose proof (proj1 Hok) as Hc.
  apply (wp_on_heap _ (if o_refcount ob =? 1 then delete o s.1
                       else <[o := set_refcount ob (o_refcount ob - 1)]> s.1)).
  { unfold Object.decrRefCount. rewrite Ho. step. destruct (Z.leb_spec (o_refcount ob) 0); [lia|].
    by destruct (o_refcount ob =? 1). }
  assert (Hrefs : refs s.1 o = o_refcount ob) by (unfold refs; by rewrite Ho).
  pose proof (wf_objs P s (o :: F.*1) Hwf) as Hobjs.
  assert (HF : forall q w, (q, w) ∈ F -> (q, w) ∉ (o, v) :: F -> False)
    by (intros q w Hin Hn; apply Hn; by right).
  destruct (Z.eqb_spec (o_refcount ob) 1) as [He|He].
  - apply HQ; [|apply keep_delete|intros q Hq; by rewrite lookup_delete_ne].
    apply (At_heap_keep P s c L _ ((o, v) :: F)); [done|apply keep_delete| |by apply map_Forall_delete|].
    + intros q. rewrite refs_delete. cbn [fmap list_fmap fst]. rewrite cnt_cons. unfold one.
      case_decide; subst; case_decide; try done; lia.
    + intros q w Hin Hn. by destruct (HF q w).
  - apply HQ; [|by apply keep_insert|intros q Hq; by rewrite lookup_insert_ne].
    apply (At_heap_keep P s c L _ ((o, v) :: F)); [done|by apply keep_insert| | |].
    + intros q. rewrite refs_insert. cbn [fmap list_fmap fst]. rewrite cnt_cons. cbn. unfold one.
      case_decide; subst; case_decide; try done; lia.
    + apply map_Forall_insert_2; [apply obj_ok_refcount; [done|lia]|done].
    + intros q w Hin Hn. by destruct (HF q w).
Qed.

Lemma at_held_le s c L o F K a n : At P s c L F K a -> room P a (zlen F + n) ->
  held P s F.*1 o + n < 2 ^ 31 - 2.
Proof.
  intros H Hroom. apply held_le. rewrite zlen_fmap. unfold room in *.
  rewrite <- (at_abs _ _ _ _ _ _ _ H) in Hroom. unfold abs in Hroom. by rewrite weight_map in Hroom.
Qed.

Lemma wp_incr s c L o F K a n Q : At P s c L F K a -> 0 < held P s F.*1 o ->
  room P a (zlen F + n) -> 0 < n ->
  (forall h, At P (h, s.2) c L ((o, abs_addr P s.1 o) :: F) K a -> keep [] s.1 h -> Q tt (h, s.2)) ->
  wp (incrRefCount o) s Q.
Proof.
  intros H Hh Hroom Hn HQ. pose proof (at_wf _ _ _ _ _ _ _ H) as Hwf.
  destruct (wf_alive P s F.*1 o Hwf Hh) as (ob & Ho & Hok).
  pose proof (at_held_le s c L o F K a n H Hroom) as Hle. rewrite <- (wf_refs P s F.*1 Hwf) in Hle.
  assert (Hrefs : refs s.1 o = o_refcount ob) by (unfold refs; by rewrite Ho).
  pose proof (proj1 Hok) as Hc.
  apply (wp_on_heap _ (<[o := set_refcount ob (o_refcount ob + 1)]> s.1)).
  { apply incrRefCount_spec; [done|lia]. }
  apply HQ; [|by apply keep_insert].
  apply (At_heap_keep P s c L _ F); [done|by apply keep_insert| | |].
  - intros q. rewrite refs_insert. cbn [fmap list_fmap fst]. rewrite cnt_cons. cbn. unfold one.
    case_decide; subst; case_decide; try done; lia.
  - apply map_Forall_insert_2; [apply obj_ok_refcount; [done|lia]|apply Hwf].
  - intros q w [[= -> ->]|Hin]%elem_of_cons Hn'; [|done]. unfold abs_addr. by rewrite lookup_insert_eq, Ho.
Qed.

(** A new object with one reference is a temporary. *)
Lemma wp_new s c L f ob F K a Q : At P s c L F K a ->
  f s.1 = Some (<[zmalloc P s.1 := ob]> s.1, zmalloc P s.1) ->
  obj_ok ob -> o_refcount ob = 1 ->
  (forall h o, At P (h, s.2) c L ((o, abs_obj P ob) :: F) K a -> h !! o = Some ob ->
     keep [] s.1 h -> s.1 !! o = None -> Q o (h, s.2)) ->
  wp (on_heap_get f) s Q.
Proof.
  intros H Hf Hok Hc HQ. eapply wp_on_heap_get; [done|]. pose proof (fresh s.1) as Hfr.
  apply HQ; [|by rewrite lookup_insert_eq|by apply keep_new|done].
  apply (At_heap_keep P s c L _ F); [done|by apply keep_new| | |].
  - intros q. rewrite refs_insert. cbn [fmap list_fmap fst]. rewrite cnt_cons, Hc. unfold one, refs.
    case_decide; subst; case_decide; try done; [rewrite Hfr|]; lia.
  - apply map_Forall_insert_2; [done|]. by eapply wf_objs, at_wf.
  - intros q w [[= -> ->]|Hin]%elem_of_cons Hn'; [|done]. unfold abs_addr. by rewrite lookup_insert_eq.
Qed.

Lemma string_ok ob bs : string_rep ob bs -> zlen bs <= max_string -> 1 <= o_refcount ob -> obj_ok ob.
Proof. intros Hr Hl Hc. split; [done|]. rewrite (is_string_rep ob bs Hr). by exists bs. Qed.

Lemma sdec_max v : in_s 64 v -> zlen (sdec v) <= max_string.
Proof. intros Hv. pose proof (sdec_zlen v Hv). unfold max_string. lia. Qed.

Lemma held_shared s F v : 0 <= v < REDIS_SHARED_INTEGERS -> 0 < held P s F (integers P v).
Proof.
  intros Hs. unfold held. pose proof (proj1 (cnt_elem _ _) (shared_elem P v Hs)).
  pose proof (cnt_nonneg (integers P v) (roots s.2)). pose proof (cnt_nonneg (integers P v) F). lia.
Qed.

Lemma wp_createStringObjectFromLongLong s c L v F K a n Q :
  At P s c L F K a -> in_s 64 v -> room P a (zlen F + n) -> 0 < n ->
  (forall h o, At P (h, s.2) c L ((o, AStr (sdec v)) :: F) K a -> keep [] s.1 h -> Q o (h, s.2)) ->
  wp (createStringObjectFromLongLong P v) s Q.
Proof.
  intros H Hv Hroom Hn HQ. unfold createStringObjectFromLongLong.
  destruct (decide (0 <= v < REDIS_SHARED_INTEGERS)) as [Hs|Hs].
  - destruct (wp_incr s c L (integers P v) F K a n (fun _ s' =>
      At P s' c L ((integers P v, AStr (sdec v)) :: F) K a /\ keep [] s.1 s'.1 /\ s'.2 = s.2))
      as ([] & s' & Hi & HA & Hk & Hs2); [done|by apply held_shared|done|done| |].
    { intros h HA Hk. split; [|done]. destruct (wf_shared P s F.*1 (at_wf _ _ _ _ _ _ _ H) v Hs) as [rc Hrc].
      unfold abs_addr in HA. rewrite Hrc, (abs_obj_rep P _ (sdec v)) in HA; [done|by repeat split; cint]. }
    unfold incrRefCount, on_heap in Hi.
    destruct (Object.incrRefCount s.1 (integers P v)) as [h|] eqn:E; [|done].
    cbn in Hi. injection Hi as <-. cbn in *.
    apply (wp_on_heap_get _ h (integers P v)); [|by apply HQ].
    unfold Object.createStringObjectFromLongLong.
    rewrite (proj2 (Z.leb_le _ _)), (proj2 (Z.ltb_lt _ _)) by lia. cbn [andb]. by rewrite E.
  - assert (Hnew : Object.createStringObjectFromLongLong (junk P) (zmalloc P) (integers P) s.1 v =
      Some (Object.createObject (zmalloc P) s.1 REDIS_STRING ENC_INT (PLong v))).
    { unfold Object.createStringObjectFromLongLong.
      destruct ((0 <=? v) && (v <? REDIS_SHARED_INTEGERS)) eqn:E; [lia|].
      destruct ((LLONG_MIN <=? v) && (v <=? LLONG_MAX)) eqn:E'; [done|].
      unfold LLONG_MIN, LLONG_MAX in E'. cint. }
    assert (Hr : string_rep (mkObj REDIS_STRING ENC_INT 1 (PLong v)) (sdec v)) by done.
    eapply wp_new; [done|by apply Hnew|eapply string_ok; [done|by apply sdec_max|done]|done|].
    rewrite (abs_obj_rep P _ _ Hr). intros h o HA Ho Hk _. by apply HQ.
Qed.

(** The order of the temporaries does not matter. *)
Lemma At_perm s c L F F' K a : F ≡ₚ F' -> At P s c L F K a -> At P s c L F' K a.
Proof.
  intros Hp [Hwf Habs Hargv Ht Hkeys]. split; [|done|done| |done].
  - destruct Hwf as [Hr Ho Hs He Hd Hq]. split; [|done..]. intros o. rewrite Hr. unfold held.
    f_equal. apply total_perm. by rewrite Hp.
  - intros o v Hin. apply Ht. by rewrite Hp.
Qed.

(** The object itself, or its digits in a new one. *)
Lemma wp_getDecodedObject s c L o ob bs F K a Q :
  At P s c L F K a -> 0 < held P s F.*1 o -> s.1 !! o = Some ob -> string_rep ob bs ->
  zlen bs <= max_string -> room P a (zlen F + 1) ->
  (forall h o' ob', At P (h, s.2) c L ((o', AStr bs) :: F) K a -> keep [] s.1 h ->
     h !! o' = Some ob' -> string_rep ob' bs -> sdsEncodedObject ob' = true -> Q o' (h, s.2)) ->
  wp (getDecodedObject P o) s Q.
Proof.
  intros H Hheld Ho Hr Hl Hroom HQ. unfold getDecodedObject.
  destruct (encoded_rep ob bs Hr) as [(He & sd & Hp & Hs)|(He & Hi & v & Hp & Hv & ->)].
  - destruct (wp_incr s c L o F K a 1 (fun _ s' => At P s' c L ((o, AStr bs) :: F) K a /\
      keep [] s.1 s'.1 /\ s'.2 = s.2) H Hheld Hroom ltac:(lia)) as ([] & s' & Hi & HA & Hk & Hs2).
    { intros h HA Hk. unfold abs_addr in HA. by rewrite Ho, (abs_obj_rep P _ bs) in HA. }
    unfold incrRefCount, on_heap in Hi. destruct (Object.incrRefCount s.1 o) as [h|] eqn:E; [|done].
    cbn in Hi. injection Hi as <-. cbn in *.
    apply (wp_on_heap_get _ h o).
    { unfold Object.getDecodedObject. rewrite Ho. step. rewrite He. by rewrite E. }
    destruct (wf_alive P (h, s.2) _ o (at_wf _ _ _ _ _ _ _ HA)) as (ob' & Ho' & _);
      [by apply held_temp; left|]. cbn in Ho'.
    destruct (Hk o ob ltac:(apply not_elem_of_nil) Ho) as [Hn|[n Hn]]; [congruence|].
    by apply (HQ h o (set_refcount ob n)).
  - destruct (print_long (junk P) 32 v Hv ltac:(lia)) as [k Hpl].
    assert (Hnew : exists e, Object.createStringObject (junk P) (zmalloc P) s.1 (Some (sdec v ++ 0 :: k)) (zlen (sdec v)) =
      Some (<[zmalloc P s.1 := e]> s.1, zmalloc P s.1) /\ string_rep e (sdec v) /\
      sdsEncodedObject e = true /\ o_refcount e = 1).
    { apply createStringObject_spec; [by apply mem_read_prefix|]. pose proof (sdec_zlen v Hv). lens. }
    destruct Hnew as (e & Hcr & Hre & Hee & Hec).
    eapply wp_new; [exact H| | |exact Hec|].
    + unfold Object.getDecodedObject. rewrite Ho. step. rewrite He, (is_string_rep ob _ Hr), Hi.
      rewrite bool_decide_true by done. cbn [andb]. unfold as_long. rewrite Hp. step. rewrite Hpl. step.
      rewrite strlen_spec by (by apply sdec_chars). step. exact Hcr.
    + by apply (string_ok e (sdec v)); [|by apply sdec_max|lia].
    + intros h o' HA Hoo Hk _. rewrite (abs_obj_rep P e _ Hre) in HA. by apply (HQ h o' e).
Qed.

Lemma wp_createRawStringObject s c L t n bs F K a Q :
  At P s c L F K a -> mem_read t 0 n = Some bs -> zlen bs <= max_string ->
  (forall h o sd, At P (h, s.2) c L ((o, AStr bs) :: F) K a -> keep [] s.1 h ->
     h !! o = Some (mkObj REDIS_STRING ENC_RAW 1 (PSds sd)) -> rep sd bs -> s.1 !! o = None ->
     Q o (h, s.2)) ->
  wp (createRawStringObject P t n) s Q.
Proof.
  intros H Hr Hl HQ. pose proof (mem_read_spec _ _ _ _ Hr) as (_ & _ & Hz & _).
  unfold max_string in Hl. pose proof (zlen_nonneg bs).
  destruct (sdsnewlen_spec (junk P) t n bs Hr) as (sd & Hsd & Hrep & _); [lens|].
  assert (Hre : string_rep (mkObj REDIS_STRING ENC_RAW 1 (PSds sd)) bs) by done.
  eapply wp_new; [exact H| |by apply (string_ok _ bs); [exact Hre|unfold max_string|]|done|].
  - unfold Object.createRawStringObject. rewrite Hsd. done.
  - intros h o HA Ho Hk Hf. rewrite (abs_obj_rep P _ bs Hre) in HA. by apply (HQ h o sd).
Qed.

(** ** Encoding an argument *)

Lemma upd_client_id {V} c f (s : state V) cl :
  s_clients s !! c = Some cl -> f cl = cl -> upd_client c f s = s.
Proof.
  intros Hc Hf. destruct s. unfold upd_client, set_clients. cbn in *. f_equal.
  apply map_eq. intros i. destruct (decide (i = c)) as [->|Hi].
  - by rewrite lookup_alter_eq, Hc; cbn; rewrite Hf.
  - by rewrite lookup_alter_ne.
Qed.

Lemma cnt_insert q l j o o' : l !! j = Some o ->
  cnt q (<[j := o']> l) = cnt q l - one o q + one o' q.
Proof.
  intros Hj. destruct (list_elem_of_split_length l j o Hj) as (l1 & l2 & -> & ->).
  rewrite insert_app_r_alt, Nat.sub_diag by lia.
  change (<[0%nat := o']> (o :: l2)) with (o' :: l2). rewrite !cnt_app, !cnt_cons. lia.
Qed.

Lemma cnt_set_arg q s c cl j o o' : s_clients s !! c = Some cl -> c_argv cl !! j = Some o ->
  cnt q (roots (upd_client c (set_argv (<[j := o']> (c_argv cl))) s)) =
  cnt q (roots s) - one o q + one o' q.
Proof.
  intros Hc Hj. rewrite (cnt_upd_client q s c cl _ Hc). unfold client_roots. cbn [c_argv c_mstate set_argv].
  rewrite !cnt_app, (cnt_insert q _ j o o' Hj). lia.
Qed.

(** The abstraction when the argument [o] has become [o'] with the same value. *)
Lemma abs_set_arg s c cl j o o' h' v :
  s_clients s.2 !! c = Some cl -> c_argv cl !! j = Some o ->
  abs_addr P s.1 o = v -> abs_addr P h' o' = v ->
  (o' ∈ roots s.2 -> abs_addr P s.1 o' = v) ->
  (forall q, q ∈ roots (upd_client c (set_argv (<[j := o']> (c_argv cl))) s.2) -> q <> o' ->
     abs_addr P h' q = abs_addr P s.1 q) ->
  abs P (h', upd_client c (set_argv (<[j := o']> (c_argv cl))) s.2) = abs P s.
Proof.
  intros Hc Hj Ho Ho' Hold Hrest. unfold abs. cbn [fst snd].
  set (gg := fun q => if decide (q = o') then v else abs_addr P s.1 q).
  rewrite (map_state_ext _ gg).
  2: { intros q Hq. unfold gg. case_decide; [by subst|]. by apply Hrest. }
  rewrite (map_upd_client gg _ _ (set_argv (gg <$> <[j := o']> (c_argv cl)))) by done.
  rewrite (upd_client_id c _ _ (map_client gg cl)).
  - apply map_state_ext. intros q Hq. unfold gg. case_decide; [|done]. subst. symmetry. by apply Hold.
  - by rewrite map_clients, Hc.
  - unfold map_client, set_argv. cbn. f_equal. rewrite list_fmap_insert.
    apply list_insert_id. rewrite list_lookup_fmap, Hj. cbn. f_equal. unfold gg.
    rewrite (decide_True _ _ (eq_refl o')). case_decide; [done|congruence].
Qed.

(** Heaps in which no object outside [X] changed but for its count, with the
    same databases. *)
Definition calm (s s' : server) : Prop :=
  s_dbs s'.2 = s_dbs s.2 /\ keep [] s.1 s'.1.

Lemma sds_at_value h o bs : sds_at h o bs -> abs_addr P h o = AStr bs.
Proof.
  intros (ob & sd & Ho & Hs & He & Hp & Hr). unfold abs_addr. rewrite Ho. unfold abs_obj. rewrite Hs.
  f_equal. unfold obj_bytes, str_of. rewrite He. unfold as_sds. rewrite Hp. step.
  destruct (rep_inv sd bs Hr) as (tail & -> & _). cbn. by rewrite mem_read_prefix.
Qed.

(** An argument that is queued as well has two references. *)
Lemma queued_argument (st : state Z) c cl j o c' cl' q :
  s_clients st !! c = Some cl -> c_argv cl !! j = Some o ->
  s_clients st !! c' = Some cl' -> q ∈ c_mstate cl' -> o ∈ mc_argv q -> 2 <= cnt o (roots st).
Proof.
  intros Hc Hj Hc' Hq Ho. pose proof (cnt_set_arg o st c cl j o (o + 1) Hc Hj) as Hn.
  rewrite one_eq in Hn. unfold one in Hn. rewrite decide_False in Hn by lia.
  set (f := set_argv (<[j := o + 1]> (c_argv cl))) in *.
  enough (o ∈ roots (upd_client c f st)) as ?%cnt_elem by lia.
  destruct (decide (c' = c)) as [->|Hne].
  - rewrite Hc in Hc'. injection Hc' as <-.
    apply (queued_root _ c (f cl) q); [cbn; by rewrite lookup_alter_eq, Hc|done|done].
  - apply (queued_root _ c' cl' q); [cbn; by rewrite lookup_alter_ne|done|done].
Qed.

Lemma queue_set_argv h (st : state Z) c L : queue_ok h st -> queue_ok h (upd_client c (set_argv L) st).
Proof.
  intros H i cl q Hi Hq. cbn in Hi. destruct (decide (i = c)) as [->|Hne].
  - rewrite lookup_alter_eq in Hi. destruct (s_clients st !! c) as [cl0|] eqn:Hc; [|done].
    injection Hi as <-. by apply (H c cl0 q).
  - rewrite lookup_alter_ne in Hi by done. by apply (H i cl q).
Qed.

(** The queues keep their objects encoded while an argument is encoded. *)
Lemma queue_encoded s F c cl j o h' L :
  wf P s F -> s_clients s.2 !! c = Some cl -> c_argv cl !! j = Some o ->
  (1 < refs s.1 o -> h' = s.1) -> keep [o] s.1 h' ->
  (forall q, q ∈ roots (upd_client c (set_argv L) s.2) -> is_Some (h' !! q)) ->
  queue_ok h' (upd_client c (set_argv L) s.2).
Proof.
  intros Hwf Hc Hj Hone Hk Ha. pose proof (queue_set_argv s.1 s.2 c L (wf_queue P s F Hwf)) as Hq.
  destruct (decide (1 < refs s.1 o)) as [Hlt|Hle]; [by rewrite (Hone Hlt)|].
  apply (queue_keep [o] s.1 h' (upd_client c (set_argv L) s.2)); [done|done|by intros i cl' Hi; exists cl'| |done].
  intros i cl' q r Hi Hin Hr Heq. rewrite list_elem_of_singleton in Heq. subst r. apply Hle.
  rewrite (wf_refs P s F Hwf). unfold held. pose proof (cnt_nonneg o (shared P)). pose proof (cnt_nonneg o F).
  enough (2 <= cnt o (roots s.2)) by lia. cbn in Hi. destruct (decide (i = c)) as [->|Hne].
  - rewrite lookup_alter_eq, Hc in Hi. injection Hi as <-. by apply (queued_argument s.2 c cl j o c cl q).
  - rewrite lookup_alter_ne in Hi by done. by apply (queued_argument s.2 c cl j o i cl' q).
Qed.

(** The heap side of the encoding of [o]. *)
Lemma encoded_wf s F c cl j o o' h' bs :
  wf P s F -> s_clients s.2 !! c = Some cl -> c_argv cl !! j = Some o ->
  sds_at s.1 o bs -> zlen bs <= max_string -> encodes s.1 h' o o' bs ->
  (1 < refs s.1 o -> h' = s.1) ->
  wf P (h', upd_client c (set_argv (<[j := o']> (c_argv cl))) s.2) F /\ keep [o] s.1 h'.
Proof.
  intros Hwf Hc Hj Hsds Hlen (Hlive & Hmv & Hother & _ & _ & _ & Hne) Hone.
  assert (Hk : keep [o] s.1 h').
  { intros q ob Hq Hob. rewrite list_elem_of_singleton in Hq. right. destruct (decide (q = o')) as [->|Hq'].
    - by apply Hne.
    - exists (o_refcount ob). rewrite Hother by done. by destruct ob. }
  split; [|done]. destruct Hlive as (e & He & Hre & Hce).
  assert (Hr : forall q, refs h' q = held P (h', upd_client c (set_argv (<[j := o']> (c_argv cl))) s.2) F q).
  { intros q. unfold held. cbn [snd]. rewrite (cnt_set_arg q s.2 c cl j o o' Hc Hj).
    pose proof (wf_refs P s F Hwf q) as Hq. unfold held in Hq. specialize (Hmv q). unfold one.
    repeat case_decide; subst; try done; lia. }
  assert (Hobjs : map_Forall (fun _ ob => obj_ok ob) h').
  { intros q ob Hq. destruct (decide (q = o')) as [->|Hq'].
    - rewrite He in Hq. injection Hq as <-. apply (string_ok e bs); [done|done|lia].
    - destruct (decide (q = o)) as [->|Hqo]; [destruct (Hne ltac:(congruence)); congruence|].
      rewrite Hother in Hq by done. by apply (wf_objs P s F Hwf q). }
  split; [done|done| |apply Hwf| |].
  3: { apply (queue_encoded s F c cl j o h'); [done..|]. intros q Hq. apply (refs_pos h'); [done|].
       rewrite Hr. by apply held_root. }
  - intros v Hv. apply (shared_keep P [o] s h' F); [done|done| | |done].
    + intros w Hw Heq. rewrite list_elem_of_singleton in Heq. subst o. destruct (wf_shared P s F Hwf w Hw) as [rc Hrc].
      destruct Hsds as (ob & sd & Ho & _ & Henc & _). rewrite Hrc in Ho. by injection Ho as <-.
    + intros w Hw. apply (refs_pos h'); [done|]. rewrite Hr. by apply held_shared.
  - intros i cl' Hi. cbn in Hi. destruct (decide (i = c)) as [->|Hic].
    + rewrite lookup_alter_eq, Hc in Hi. injection Hi as <-. by apply (wf_db P s F Hwf c cl).
    + rewrite lookup_alter_ne in Hi by done. by apply (wf_db P s F Hwf i cl').
Qed.

(** An object that is there before and after keeps its value. *)
Lemma encodes_value h h' o o' bs q e e' :
  encodes h h' o o' bs -> sds_at h o bs -> h !! q = Some e -> h' !! q = Some e' ->
  abs_addr P h' q = abs_addr P h q.
Proof.
  intros ((eo & Heo & Hreo & _) & _ & Hother & _ & _ & _ & Hlast) Hsds He He'.
  destruct (decide (q = o)) as [->|Hqo].
  - rewrite (sds_at_value h o bs Hsds). destruct (decide (o' = o)) as [->|Hne].
    + unfold abs_addr. rewrite Heo. by apply abs_obj_rep.
    + destruct (Hlast Hne). congruence.
  - unfold abs_addr. destruct (decide (q = o')) as [->|Hqo']; [|by rewrite Hother].
    destruct (Hlast ltac:(congruence)) as [_ Hn]. destruct (Hn e He) as [n ->]. by rewrite He.
Qed.

(** Encoding the argument [o] with its address replaced. *)
Lemma At_encoded s c cl j o o' h' bs F K K' a :
  At P s c (c_argv cl) F K a -> s_clients s.2 !! c = Some cl -> c_argv cl !! j = Some o ->
  sds_at s.1 o bs -> zlen bs <= max_string -> encodes s.1 h' o o' bs -> (1 < refs s.1 o -> h' = s.1) ->
  (forall p, p ∈ K' -> p ∈ K /\ p.1 <> o) ->
  At P (h', upd_client c (set_argv (<[j := o']> (c_argv cl))) s.2) c (<[j := o']> (c_argv cl)) F K' a.
Proof.
  intros H Hc Hj Hsds Hlen Henc Hone HK. pose proof (at_wf _ _ _ _ _ _ _ H) as Hwf.
  destruct (encoded_wf s F.*1 c cl j o o' h' bs Hwf Hc Hj Hsds Hlen Henc Hone) as [Hwf' Hk].
  assert (Hval : forall q, 0 < held P s F.*1 q ->
    0 < held P (h', upd_client c (set_argv (<[j := o']> (c_argv cl))) s.2) F.*1 q ->
    abs_addr P h' q = abs_addr P s.1 q).
  { intros q Hq Hq'. destruct (wf_alive P s F.*1 q Hwf Hq) as (e & He & _).
    destruct (wf_alive P _ F.*1 q Hwf' Hq') as (e' & He' & _). by apply (encodes_value _ _ o o' bs q e e'). }
  assert (Hnew : abs_addr P h' o' = AStr bs).
  { destruct Henc as ((e & Hee & Hre & _) & _). unfold abs_addr. rewrite Hee. by apply abs_obj_rep. }
  assert (Hcl : s_clients (upd_client c (set_argv (<[j := o']> (c_argv cl))) s.2) !! c =
    Some (set_argv (<[j := o']> (c_argv cl)) cl)) by (cbn; by rewrite lookup_alter_eq, Hc).
  split; [done| | | |].
  - rewrite <- (at_abs _ _ _ _ _ _ _ H).
    apply (abs_set_arg s c cl j o o' h' (AStr bs)); [done|done|by apply sds_at_value|done| |].
    + intros Hr. rewrite <- Hval; [done|by apply held_root|]. apply held_root.
      apply (argv_root _ c _ o' Hcl). cbn. apply (list_elem_of_lookup_2 _ j), list_lookup_insert_eq.
      by apply lookup_lt_Some in Hj.
    + intros q Hq Hqo. apply Hval; [|by apply held_root]. apply held_root. apply cnt_elem.
      apply cnt_elem in Hq. rewrite (cnt_set_arg q s.2 c cl j o o' Hc Hj) in Hq.
      pose proof (one_bounds o q). unfold one at 2 in Hq. rewrite decide_False in Hq by congruence. lia.
  - by exists (set_argv (<[j := o']> (c_argv cl)) cl).
  - intros q v Hq. rewrite <- (at_temps _ _ _ _ _ _ _ H q v Hq).
    assert (HqF : q ∈ F.*1) by (apply list_elem_of_fmap; by exists (q, v)).
    apply Hval; by apply held_temp.
  - intros q bs' Hq. destruct (HK _ Hq) as [Hq' Hne]. cbn in Hne.
    destruct (at_keys _ _ _ _ _ _ _ H q bs' Hq') as [HqL Hqs].
    assert (HqL' : q ∈ <[j := o']> (c_argv cl)).
    { apply cnt_elem. rewrite (cnt_insert q _ j o o' Hj). apply cnt_elem in HqL.
      pose proof (one_bounds o' q). unfold one at 1. rewrite decide_False by congruence. lia. }
    split; [done|]. apply (sds_at_keep [o] s.1); [done|by rewrite list_elem_of_singleton| |done].
    destruct (wf_alive P _ F.*1 q Hwf') as (e & He' & _); [|by exists e].
    apply held_root. by apply (argv_root _ c _ q Hcl).
Qed.

Lemma wp_encode_arg s c L j o bs F K K' a Q :
  At P s c L F K a -> znth L j = Some o -> (o, bs) ∈ K -> zlen bs <= max_string ->
  room P a (zlen F + 1) -> (forall p, p ∈ K' -> p ∈ K /\ p.1 <> o) ->
  (forall s' o', At P s' c (<[Z.to_nat j := o']> L) F K' a -> abs_addr P s'.1 o' = AStr bs ->
     s_dbs s'.2 = s_dbs s.2 -> Q o' s') ->
  wp (encode_arg P c j) s Q.
Proof.
  intros H Hj Hin Hlen Hroom HK HQ. pose proof (at_wf _ _ _ _ _ _ _ H) as Hwf.
  destruct (at_argv _ _ _ _ _ _ _ H) as (cl & Hc & HL).
  destruct (at_keys _ _ _ _ _ _ _ H o bs Hin) as [HoL Hsds]. pose proof Hsds as (ob & sd & Ho & Hs & He & Hp & Hrep).
  assert (Hrefs : 1 <= refs s.1 o < 2 ^ 31 - 2).
  { rewrite (wf_refs P s F.*1 Hwf). pose proof (at_held_le s c L o F K a 1 H Hroom).
    pose proof (held_root P s F.*1 o (argv_root s.2 c cl o Hc ltac:(by subst))). lia. }
  assert (Hlive : live s.1 o bs).
  { exists ob. split; [done|]. unfold refs in Hrefs. rewrite Ho in Hrefs. split; [|lia].
    destruct (wf_objs P s F.*1 Hwf o ob Ho) as [_ Hok]. rewrite Hs in Hok. destruct Hok as (bs' & Hr & _).
    pose proof (sds_at_value s.1 o bs Hsds) as Hv. unfold abs_addr in Hv.
    rewrite Ho, (abs_obj_rep P ob bs' Hr) in Hv. by injection Hv as ->. }
  assert (Hshared : shared_ok (integers P) s.1).
  { intros v Hv. destruct (wf_shared P s F.*1 Hwf v Hv) as [rc Hrc]. exists rc. split; [done|].
    pose proof (at_held_le s c L (integers P v) F K a 1 H Hroom) as Hle.
    pose proof (held_shared s F.*1 v Hv). rewrite <- (wf_refs P s F.*1 Hwf) in *.
    unfold refs in *. rewrite Hrc in *. cbn in *. lia. }
  assert (Hone : forall r, 1 < refs s.1 o -> Object.tryObjectEncoding (junk P) (zmalloc P) (integers P)
    (maxmemory P) (maxmemory_policy P) s.1 o = Some r -> r.1 = s.1).
  { intros r Hgt. destruct Hlive as (ob' & Ho' & Hr & _). unfold refs in Hgt. rewrite Ho' in Hgt.
    rewrite (settled_fixed _ _ _ _ _ s.1 o ob' bs Ho' Hr) by (right; by left). by intros [= <-]. }
  destruct (tryObjectEncoding_spec (junk P) (zmalloc P) (integers P) (maxmemory P)
    (maxmemory_policy P) s.1 o bs fresh Hshared Hlive) as (h' & o' & Htry & Henc).
  assert (Hj' : c_argv cl !! Z.to_nat j = Some o).
  { rewrite HL. unfold znth in Hj. by case_decide. }
  subst L.
  apply wp_bind. apply wp_bind, (wp_client c cl); [done|]. apply (wp_opt _ o); [done|].
  apply wp_bind, (wp_on_heap_get _ h' o'); [done|].
  apply wp_bind, wp_bind, (wp_client c cl); [done|].
  apply wp_bind, (wp_opt _ (<[Z.to_nat j := o']> (c_argv cl))).
  { unfold zset. rewrite decide_True; [done|]. by apply (znth_Some_bound _ _ _ Hj). }
  apply wp_modify, wp_ret. apply HQ; [| |done].
  - apply (At_encoded s c cl _ o o' h' bs F K); try done. intros Hgt. by apply (Hone (h', o')).
  - destruct Henc as ((e & Hee & Hre & _) & _). unfold abs_addr. cbn. rewrite Hee. by apply abs_obj_rep.
Qed.
End HeapOps.

Section StateOps.
Context (P : platform) {HP : PlatformOk P}.

(** ** Changes of the state that move no reference *)

(** An update of a client that leaves its database, arguments and queue. *)
Record light {V} (f : redisClient V -> redisClient V) : Prop := {
  light_db : forall x, c_db (f x) = c_db x;
  light_argv : forall x, c_argv (f x) = c_argv x;
  light_mstate : forall x, c_mstate (f x) = c_mstate x }.

Lemma say_light {V} bs : light (@say V bs).
Proof. split; by_say. Qed.
Lemma say_map {A B} (g : A -> B) bs x : map_client g (say bs x) = say bs (map_client g x).
Proof. by_say. Qed.
Lemma add_flag_light {V} fl : light (@add_flag V fl).
Proof. by split. Qed.
Lemma clear_flags_light {V} fs : light (@clear_flags V fs).
Proof. by split. Qed.

(** What a change of the state has to leave for the invariant. *)
Record quiet (s s' : state Z) : Prop := {
  quiet_roots : forall o, cnt o (roots s') = cnt o (roots s);
  quiet_argv : forall c cl, s_clients s !! c = Some cl -> exists cl',
    s_clients s' !! c = Some cl' /\ c_argv cl' = c_argv cl;
  quiet_expires : (forall d x k, db_at s d = Some x -> is_Some (db_expires x !! k) ->
      is_Some (db_dict x !! k)) ->
    forall d x k, db_at s' d = Some x -> is_Some (db_expires x !! k) -> is_Some (db_dict x !! k);
  quiet_db : (forall c cl, s_clients s !! c = Some cl -> is_Some (db_at s (c_db cl))) ->
    forall c cl, s_clients s' !! c = Some cl -> is_Some (db_at s' (c_db cl));
  quiet_queue : forall c cl', s_clients s' !! c = Some cl' -> exists cl,
    s_clients s !! c = Some cl /\ c_mstate cl' = c_mstate cl }.

Lemma At_quiet s c L F K a st' a' : At P s c L F K a -> quiet s.2 st' ->
  map_state (abs_addr P s.1) st' = a' -> At P (s.1, st') c L F K a'.
Proof.
  intros [Hwf Habs (cl & Hc & HL) Ht Hkeys] [Hr Hargv He Hd Hq] Hmap. split; [|done| |done|].
  - split; [|apply Hwf|apply Hwf| | |].
    4: { intros i cl' q Hi Hin. destruct (Hq i cl' Hi) as (cl0 & Hc0 & E). rewrite E in Hin.
         by apply (wf_queue P s F.*1 Hwf i cl0 q). }
    + intros o. rewrite (wf_refs P s F.*1 Hwf). unfold held. cbn. by rewrite Hr.
    + by apply He; apply (wf_expires P s F.*1 Hwf).
    + by apply Hd; apply (wf_db P s F.*1 Hwf).
  - destruct (Hargv c cl Hc) as (cl' & Hc' & Hl). exists cl'. split; [done|congruence].
  - done.
Qed.

Lemma quiet_client s c f : light f -> quiet s (upd_client c f s).
Proof.
  intros Hf. split.
  - intros o. destruct (s_clients s !! c) as [cl|] eqn:Hc.
    + rewrite (cnt_upd_client o s c cl f Hc). unfold client_roots.
      rewrite (light_argv f Hf), (light_mstate f Hf). lia.
    + replace (upd_client c f s) with s; [done|]. destruct s. unfold upd_client, set_clients. cbn in *.
      f_equal. apply map_eq. intros i. destruct (decide (i = c)) as [->|];
        [by rewrite lookup_alter_eq, Hc|by rewrite lookup_alter_ne].
  - intros i cl Hi. cbn. destruct (decide (i = c)) as [->|].
    + exists (f cl). rewrite lookup_alter_eq, Hi. split; [done|]. by apply light_argv.
    + exists cl. by rewrite lookup_alter_ne.
  - done.
  - intros Hd i cl Hi. cbn in Hi. destruct (decide (i = c)) as [->|].
    + rewrite lookup_alter_eq in Hi. destruct (s_clients s !! c) as [cl'|] eqn:Hc; [|done].
      injection Hi as <-. rewrite (light_db f Hf). by apply (Hd c).
    + rewrite lookup_alter_ne in Hi by done. by apply (Hd i).
  - intros i cl' Hi. cbn in Hi. destruct (decide (i = c)) as [->|].
    + rewrite lookup_alter_eq in Hi. destruct (s_clients s !! c) as [cl|] eqn:Hc; [|done].
      injection Hi as <-. exists cl. split; [done|]. by apply light_mstate.
    + rewrite lookup_alter_ne in Hi by done. by exists cl'.
Qed.

Lemma quiet_trans s s' s'' : quiet s s' -> quiet s' s'' -> quiet s s''.
Proof.
  intros [A1 B1 C1 D1 E1] [A2 B2 C2 D2 E2]. split.
  - intros o. by rewrite A2.
  - intros c cl Hc. destruct (B1 c cl Hc) as (cl' & Hc' & E). destruct (B2 c cl' Hc') as (cl'' & Hc'' & E').
    exists cl''. split; [done|congruence].
  - exact (fun H => C2 (C1 H)).
  - exact (fun H => D2 (D1 H)).
  - intros c cl'' Hc. destruct (E2 c cl'' Hc) as (cl' & Hc' & E). destruct (E1 c cl' Hc') as (cl & Hc0 & E').
    exists cl. split; [done|congruence].
Qed.
Lemma quiet_refl s : quiet s s.
Proof. split; eauto. Qed.

Lemma quiet_touch_clients cs s : quiet s (touch_clients cs s).
Proof.
  revert s. induction cs as [|c cs IH]; intros s; [apply quiet_refl|]. simpl.
  eapply quiet_trans; [apply (quiet_client s c), add_flag_light|]. apply IH.
Qed.
Lemma quiet_touch d k s : quiet s (signalModifiedKey d k s).
Proof.
  unfold signalModifiedKey, touchWatchedKey. destruct (db_at s d); [|apply quiet_refl].
  case_bool_decide; [apply quiet_refl|]. destruct (_ !! k); [apply quiet_touch_clients|apply quiet_refl].
Qed.
Lemma quiet_event e s : quiet s (add_event e s).
Proof. split; eauto. Qed.
Lemma quiet_dirty n s : quiet s (add_dirty n s).
Proof. split; eauto. Qed.

(** ** The steps of commands, as rules *)

Lemma wp_quiet s c L F K a f (f' : state aval -> state aval) (Q : unit -> server -> Prop) :
  At P s c L F K a -> quiet s.2 (f s.2) ->
  map_state (abs_addr P s.1) (f s.2) = f' (map_state (abs_addr P s.1) s.2) ->
  (At P (s.1, f s.2) c L F K (f' a) -> Q tt (s.1, f s.2)) -> wp (modify f) s Q.
Proof.
  intros H Hq Hmap HQ. apply wp_modify, HQ. apply (At_quiet s c L F K a); [done|done|].
  rewrite Hmap. f_equal. apply H.
Qed.

Lemma dbs_touch d k (s : state Z) : s_dbs (signalModifiedKey d k s) = s_dbs s.
Proof.
  unfold signalModifiedKey, touchWatchedKey. destruct (db_at s d); [|done]. case_bool_decide; [done|].
  destruct (_ !! k) as [cs|]; [|done]. unfold touch_clients. revert s.
  induction cs as [|c cs IH]; intros s; [done|]. simpl. by rewrite IH.
Qed.

Lemma wp_str s c L F K a key k (Q : bytes -> server -> Prop) :
  At P s c L F K a -> (key, k) ∈ K -> Q k s -> wp (str key) s Q.
Proof.
  intros H Hin HQ. destruct (at_keys _ _ _ _ _ _ _ H key k Hin) as [_ (ob & sd & Ho & _ & He & Hp & Hr)].
  apply wp_bind, wp_bind, (wp_obj _ ob); [done|]. rewrite He. apply (wp_opt _ sd).
  { unfold as_sds. by rewrite Hp. }
  apply (wp_opt _ k); [|done]. destruct (rep_inv sd k Hr) as (tail & -> & _). by apply mem_read_prefix.
Qed.

Lemma wp_argv s c L F K a j o (Q : Z -> server -> Prop) :
  At P s c L F K a -> znth L j = Some o -> Q o s -> wp (argv c j) s Q.
Proof.
  intros H Hj HQ. destruct (at_argv _ _ _ _ _ _ _ H) as (cl & Hc & HL).
  apply wp_bind, (wp_client c cl); [done|]. apply (wp_opt _ o); [by rewrite HL|done].
Qed.

(** The client and the database it has selected, in the server and in the
    abstraction. *)
Lemma at_client s c L F K a : At P s c L F K a ->
  exists cl, s_clients s.2 !! c = Some cl /\ c_argv cl = L /\
    s_clients a !! c = Some (map_client (abs_addr P s.1) cl).
Proof.
  intros H. destruct (at_argv _ _ _ _ _ _ _ H) as (cl & Hc & HL). exists cl.
  rewrite <- (at_abs _ _ _ _ _ _ _ H). unfold abs. by rewrite map_clients, Hc.
Qed.

Lemma at_db s c L F K a d x : At P s c L F K a -> db_at a d = Some x ->
  exists y, db_at s.2 d = Some y /\ x = map_db (abs_addr P s.1) y.
Proof.
  intros H. rewrite <- (at_abs _ _ _ _ _ _ _ H). unfold abs. rewrite map_db_at.
  destruct (db_at s.2 d) as [y|]; [|done]. intros [= <-]. by exists y.
Qed.

Lemma wp_cdb s c L F K a cl (Q : Z -> server -> Prop) :
  At P s c L F K a -> s_clients a !! c = Some cl -> Q (c_db cl) s -> wp (cdb c) s Q.
Proof.
  intros H Hc HQ. destruct (at_client s c L F K a H) as (cl' & Hc' & _ & Ha).
  rewrite Hc in Ha. injection Ha as ->. by apply wp_bind, (wp_client c cl'), wp_ret.
Qed.

Lemma wp_signal s c L F K a d key k (Q : unit -> server -> Prop) :
  At P s c L F K a -> (key, k) ∈ K ->
  (forall s', At P s' c L F K (signalModifiedKey d k a) -> s'.1 = s.1 ->
     s_dbs s'.2 = s_dbs s.2 -> Q tt s') ->
  wp (signal d key) s Q.
Proof.
  intros H Hin HQ. apply wp_bind, (wp_str s c L F K a key k); [done|done|].
  apply (wp_quiet s c L F K a _ (signalModifiedKey d k)); [done|apply quiet_touch|apply map_touch|].
  intros H'. apply HQ; [done|done|apply dbs_touch].
Qed.

Lemma wp_notify s c L F K a type d key k (Q : unit -> server -> Prop) :
  At P s c L F K a -> (key, k) ∈ K ->
  (forall s', At P s' c L F K (add_event (Notified type k d) a) -> s'.1 = s.1 ->
     s_dbs s'.2 = s_dbs s.2 -> Q tt s') ->
  wp (notify type d key) s Q.
Proof.
  intros H Hin HQ. apply wp_bind, (wp_str s c L F K a key k); [done|done|].
  apply (wp_quiet s c L F K a _ (add_event (Notified type k d))); [done|apply quiet_event|done|].
  intros H'. by apply HQ.
Qed.

Lemma wp_dirty s c L F K a n (Q : unit -> server -> Prop) :
  At P s c L F K a ->
  (forall s', At P s' c L F K (add_dirty n a) -> s'.1 = s.1 -> s_dbs s'.2 = s_dbs s.2 -> Q tt s') ->
  wp (dirty n) s Q.
Proof.
  intros H HQ. apply (wp_quiet s c L F K a _ (add_dirty n)); [done|apply quiet_dirty|done|].
  intros H'. by apply HQ.
Qed.

(** ** Replies *)

(** A procedure that does nothing but say [bs] to the client. *)
Definition says (c : Z) (m : M unit) (s : server) (bs : bytes) : Prop :=
  forall L F K a (Q : unit -> server -> Prop), At P s c L F K a ->
  (forall s', At P s' c L F K (upd_client c (say bs) a) -> s'.1 = s.1 ->
     s_dbs s'.2 = s_dbs s.2 -> Q tt s') -> wp m s Q.

Lemma say_say {V} c x y (s : state V) :
  upd_client c (say y) (upd_client c (say x) s) = upd_client c (say (x ++ y)) s.
Proof.
  destruct s. unfold upd_client, set_clients. cbn. f_equal.
  apply map_eq. intros i. destruct (decide (i = c)) as [->|]; [|by rewrite !lookup_alter_ne].
  rewrite !lookup_alter_eq. destruct (_ !! c); [|done]. cbn. f_equal.
  unfold say, set_reply. case_bool_decide; cbn; case_bool_decide; try done. by rewrite app_assoc.
Qed.

Lemma addReplyString_says c bs s : says c (addReplyString c bs) s bs.
Proof.
  intros L F K a Q H HQ. destruct (at_client s c L F K a H) as (cl & Hc & _).
  apply (wp_upd c cl); [done|]. apply HQ; [|done|done].
  apply (At_quiet s c L F K a); [done|apply quiet_client, say_light|].
  rewrite (map_upd_client _ _ _ (say bs)) by apply say_map. f_equal. apply H.
Qed.

Lemma says_seq c m k s x y :
  says c m s x -> (forall s', s'.1 = s.1 -> says c k s' y) -> says c (m;; k) s (x ++ y).
Proof.
  intros Hm Hk L F K a Q H HQ. apply wp_bind, (Hm L F K a); [done|]. intros s' H' E D.
  apply (Hk s' E L F K _ _ H'). intros s'' H'' E' D'. apply HQ; [|congruence|congruence].
  by rewrite say_say in H''.
Qed.

Lemma says_opt {A} c (x : option A) (v : A) k s bs :
  x = Some v -> says c (k v) s bs -> says c (mbind k (opt x)) s bs.
Proof. intros Hx Hk L F K a Q H HQ. apply wp_bind, (wp_opt _ v); [done|]. by apply (Hk L F K a). Qed.

Lemma addReplyLongLongWithPrefix_says c ll prefix s :
  in_s 64 ll -> (prefix = 58 \/ 0 <= ll) ->
  says c (addReplyLongLongWithPrefix P c ll prefix) s (with_prefix prefix ll).
Proof.
  intros Hll Hp. unfold addReplyLongLongWithPrefix.
  destruct (((prefix =? 42) || (prefix =? 36)) && (ll <? REDIS_SHARED_BULKHDR_LEN)) eqn:E.
  - unfold shared_header. intros L F K a Q H HQ. apply wp_bind, wp_bind, wp_check; [lia|].
    apply wp_ret. by apply (addReplyString_says c _ s L F K a).
  - destruct (print_long (junk P) 127 ll Hll ltac:(lia)) as [k Hk].
    eapply says_opt; [done|]. cbn beta iota. eapply says_opt; [by apply mem_read_prefix|].
    apply addReplyString_says.
Qed.

Lemma addReplyLongLong_says c ll s :
  in_s 64 ll -> says c (addReplyLongLong P c ll) s (with_prefix 58 ll).
Proof.
  intros Hll. unfold addReplyLongLong. destruct (Z.eqb_spec ll 0) as [->|]; [apply addReplyString_says|].
  destruct (Z.eqb_spec ll 1) as [->|]; [apply addReplyString_says|].
  apply addReplyLongLongWithPrefix_says; auto.
Qed.

Lemma addReplyMultiBulkLen_says c n s :
  in_s 64 n -> 0 <= n -> says c (addReplyMultiBulkLen P c n) s (with_prefix 42 n).
Proof.
  intros Hn H0. unfold addReplyMultiBulkLen. destruct (_ <? _).
  - unfold shared_header. intros L F K a Q H HQ. apply wp_bind, wp_bind, wp_check; [lia|].
    apply wp_ret. by apply (addReplyString_says c _ s L F K a).
  - apply addReplyLongLongWithPrefix_says; auto.
Qed.

Lemma addReplyError_says c msg s : says c (addReplyError c msg) s (error_text msg).
Proof.
  unfold error_text. apply says_seq; [apply addReplyString_says|]. intros s' _.
  apply says_seq; [apply addReplyString_says|]. intros s'' _. apply addReplyString_says.
Qed.


Lemma addReplyBulkCBuffer_says c bs s :
  zlen bs < 2 ^ 63 -> says c (addReplyBulkCBuffer P c bs) s (bulk_text bs).
Proof.
  intros Hb. pose proof (zlen_nonneg bs). apply says_seq.
  { apply addReplyLongLongWithPrefix_says; [cint|auto]. }
  intros s' _. apply says_seq; [apply addReplyString_says|]. intros s'' _. apply addReplyString_says.
Qed.
End StateOps.

(** ** The length of a number *)

Lemma count_digits_dec fuel : forall n len, 0 <= n < 10 ^ Z.of_nat fuel -> (0 < fuel)%nat ->
  count_digits fuel n len = len - 1 + zlen (dec_rec fuel n).
Proof.
  induction fuel as [|fuel IH]; intros n len Hn Hf; [lia|]. cbn [count_digits dec_rec].
  rewrite Z.quot_div_nonneg by lia.
  destruct (Z.ltb_spec n 10) as [Hl|Hl].
  - rewrite Z.div_small by lia. rewrite zlen_one. cbn [Z.eqb]. lia.
  - rewrite Nat2Z.inj_succ, Z.pow_succ_r in Hn by lia.
    assert (Hd : 1 <= n / 10 < 10 ^ Z.of_nat fuel).
    { split; [apply Z.div_le_lower_bound; lia|apply Z.div_lt_upper_bound; lia]. }
    destruct (Z.eqb_spec (n / 10) 0); [lia|]. destruct fuel as [|fuel]; [change (10 ^ Z.of_nat 0) with 1 in Hd; lia|].
    rewrite IH by lia. rewrite zlen_app, zlen_one. lia.
Qed.

Lemma count_digits_opp fuel : forall n len, count_digits fuel (- n) len = count_digits fuel n len.
Proof.
  induction fuel as [|fuel IH]; intros n len; [done|]. cbn [count_digits].
  rewrite Z.quot_opp_l by lia. destruct (Z.eqb_spec (n ÷ 10) 0) as [->|]; [done|].
  destruct (Z.eqb_spec (- (n ÷ 10)) 0); [lia|]. apply IH.
Qed.

Lemma bulk_len n : in_s 64 n ->
  (if n <? 0 then count_digits 20 (s64 (- n)) 2 else count_digits 20 n 1) = zlen (sdec n).
Proof.
  intros Hn. unfold sdec, dec. destruct (Z.ltb_spec n 0).
  - rewrite zlen_cons. destruct (decide (n = - 2 ^ 63)) as [->|Hne]; [done|].
    rewrite swrap_small by cint. rewrite count_digits_dec by cint. lia.
  - rewrite count_digits_dec by cint. lia.
Qed.

(** ** Replies and checks that read an object *)

Section ObjectOps.
Context (P : platform) {HP : PlatformOk P}.

Lemma addReply_says c o ob bs s : s.1 !! o = Some ob -> string_rep ob bs ->
  says P c (addReply P c o) s bs.
Proof.
  intros Ho Hr L F K a Q H HQ. apply wp_bind, (wp_obj _ ob); [done|].
  destruct (encoded_rep ob bs Hr) as [(He & sd & Hp & Hs)|(He & Hi & v & Hp & Hv & ->)]; rewrite He.
  - apply wp_bind, wp_bind, wp_bind, (wp_obj _ ob); [done|]. rewrite He.
    apply (wp_opt _ sd); [unfold as_sds; by rewrite Hp|].
    apply (wp_opt _ bs); [|by apply (addReplyString_says P c bs s L F K a)].
    destruct (rep_inv sd bs Hs) as (tail & -> & _). by apply mem_read_prefix.
  - rewrite Hi, bool_decide_true by done. apply wp_bind, (wp_opt _ v); [unfold as_long; by rewrite Hp|].
    destruct (print_long (junk P) 32 v Hv ltac:(lia)) as [k Hk].
    apply wp_bind. eapply wp_opt; [done|]. cbn beta iota.
    apply wp_bind. eapply wp_opt; [by apply mem_read_prefix|].
    by apply (addReplyString_says P c _ s L F K a).
Qed.

Lemma addReplyBulkLen_says c o ob bs s : s.1 !! o = Some ob -> string_rep ob bs ->
  zlen bs <= max_string -> says P c (addReplyBulkLen P c o) s (with_prefix 36 (zlen bs)).
Proof.
  intros Ho Hr Hl L F K a Q H HQ. unfold max_string in Hl. pose proof (zlen_nonneg bs) as H0.
  apply wp_bind, (wp_obj _ ob); [done|]. apply wp_bind.
  assert (Hlen : forall Q' : Z -> server -> Prop, Q' (zlen bs) s ->
    wp (if sdsEncodedObject ob then s ← opt (as_sds ob); mret (sds_len s)
        else n ← opt (as_long ob);
             mret (if n <? 0 then count_digits 20 (s64 (- n)) 2 else count_digits 20 n 1)) s Q').
  { intros Q' HQ'. unfold as_sds, as_long.
    destruct (encoded_rep ob bs Hr) as [(-> & sd & -> & Hs)|(-> & Hi & v & -> & Hv & ->)].
    - apply wp_bind, (wp_opt _ sd); [done|]. apply wp_ret. destruct Hs as [-> _]. done.
    - apply wp_bind, (wp_opt _ v); [done|]. apply wp_ret. by rewrite bulk_len. }
  apply Hlen. clear Hlen. destruct (Z.ltb_spec (zlen bs) REDIS_SHARED_BULKHDR_LEN).
  - apply wp_bind, wp_bind, wp_check; [lia|]. apply wp_ret.
    by apply (addReplyString_says P c _ s L F K a).
  - apply (addReplyLongLongWithPrefix_says P c (zlen bs) 36 s) with L F K a; [cint|auto|done|done].
Qed.

Lemma addReplyBulk_says c o ob bs s : s.1 !! o = Some ob -> string_rep ob bs ->
  zlen bs <= max_string -> says P c (addReplyBulk P c o) s (bulk_text bs).
Proof.
  intros Ho Hr Hl. apply says_seq; [by apply (addReplyBulkLen_says c o ob)|]. intros s' E.
  apply says_seq; [apply (addReply_says c o ob); [by rewrite E|done]|]. intros s'' _.
  apply addReplyString_says.
Qed.

(** The value of a held object, concretely. *)
Lemma held_value s F o : wf P s F -> 0 < held P s F o -> exists ob, s.1 !! o = Some ob /\
  abs_addr P s.1 o = abs_obj P ob /\ 1 <= o_refcount ob /\
  ((exists bs, abs_obj P ob = AStr bs /\ string_rep ob bs /\ zlen bs <= max_string) \/
   (abs_obj P ob = AOther (o_type ob) /\ is_string ob = false)).
Proof.
  intros Hwf Ho. destruct (wf_alive P s F o Hwf Ho) as (ob & Hob & Hc & Hok). exists ob.
  split; [done|]. split; [unfold abs_addr; by rewrite Hob|]. split; [done|].
  destruct (is_string ob) eqn:E; [left|right; split; [unfold abs_obj; by rewrite E|done]].
  destruct Hok as (bs & Hr & Hl). exists bs. split; [by apply abs_obj_rep|done].
Qed.

(** The integer of an argument, or an error reply. *)
Lemma wp_getLongLongOr s c L F K a o ob bs msg (Q : option Z -> server -> Prop) :
  At P s c L F K a -> s.1 !! o = Some ob -> string_rep ob bs ->
  (forall v, atoll (until_zero bs) = Some v -> in_s 64 v -> Q (Some v) s) ->
  (atoll (until_zero bs) = None ->
     forall s', At P s' c L F K (upd_client c (say (error_text
       (default (bytes_of "value is not an integer or out of range") msg))) a) ->
     s'.1 = s.1 -> s_dbs s'.2 = s_dbs s.2 -> Q None s') ->
  wp (getLongLongFromObjectOrReply c (Some o) msg) s Q.
Proof.
  intros H Ho Hr Hok Herr. apply wp_bind, wp_bind, (wp_obj _ ob); [done|]. apply wp_ret.
  apply wp_bind. eapply wp_opt; [by apply getLongLong_value|].
  destruct (atoll (until_zero bs)) as [v|] eqn:E.
  - apply wp_ret, Hok; [done|]. by apply (atoll_bound (until_zero bs)).
  - apply wp_bind. apply (addReplyError_says P c _ s L F K a); [done|].
    intros s' H' E1 E2. apply wp_ret. by apply Herr.
Qed.

Lemma wp_getLongOr s c L F K a o ob bs msg (Q : option Z -> server -> Prop) :
  At P s c L F K a -> s.1 !! o = Some ob -> string_rep ob bs ->
  (forall v, atoll (until_zero bs) = Some v -> in_s 64 v -> Q (Some v) s) ->
  (atoll (until_zero bs) = None ->
     forall s', At P s' c L F K (upd_client c (say (error_text
       (default (bytes_of "value is not an integer or out of range") msg))) a) ->
     s'.1 = s.1 -> s_dbs s'.2 = s_dbs s.2 -> Q None s') ->
  wp (getLongFromObjectOrReply c (Some o) msg) s Q.
Proof.
  intros H Ho Hr Hok Herr. apply wp_bind.
  apply (wp_getLongLongOr s c L F K a o ob bs); [done|done|done| |].
  - intros v Hv Hin. unfold LLONG_MIN, LLONG_MAX.
    destruct (Z.ltb_spec v (- 2 ^ 63)); [cint|]. destruct (Z.ltb_spec (2 ^ 63 - 1) v); [cint|].
    apply wp_ret. by apply Hok.
  - intros Hn s' H' E1 E2. apply wp_ret. by apply Herr.
Qed.

(** A known argument is a string object. *)
Lemma key_rep s c L F K a o bs : At P s c L F K a -> (o, bs) ∈ K ->
  exists ob, s.1 !! o = Some ob /\ string_rep ob bs /\ zlen bs <= max_string /\
    sdsEncodedObject ob = true.
Proof.
  intros H Hin. destruct (at_keys _ _ _ _ _ _ _ H o bs Hin) as [HL Hs].
  destruct (at_argv _ _ _ _ _ _ _ H) as (cl & Hc & Hl). subst L.
  destruct (held_value s F.*1 o (at_wf _ _ _ _ _ _ _ H)) as (ob & Ho & Hv & _ & Hcase).
  { by apply held_root, (argv_root _ c cl). }
  exists ob. split; [done|]. pose proof (sds_at_value P s.1 o bs Hs) as E. rewrite Hv in E.
  destruct Hs as (ob' & sd & Ho' & His & He & _). rewrite Ho in Ho'. injection Ho' as <-.
  destruct Hcase as [(bs' & Ha & Hr & Hl)|(Ha & Hn)]; [|congruence].
  rewrite Ha in E. injection E as ->. done.
Qed.

Lemma wp_checkType s c L F K a o ob (Q : bool -> server -> Prop) t :
  At P s c L F K a -> s.1 !! o = Some ob ->
  (o_type ob = t -> Q false s) ->
  (o_type ob <> t -> forall s', At P s' c L F K (upd_client c (say shared_wrongtypeerr) a) ->
     s'.1 = s.1 -> s_dbs s'.2 = s_dbs s.2 -> Q true s') ->
  wp (checkType c o t) s Q.
Proof.
  intros H Ho Hok Herr. apply wp_bind, (wp_obj _ ob); [done|]. case_bool_decide.
  - apply wp_ret. by apply Hok.
  - apply wp_bind. apply (addReplyString_says P c _ s L F K a); [done|]. intros s' H' E1 E2.
    apply wp_ret. by apply Herr.
Qed.
End ObjectOps.
