(* ===== verification/KeyspaceSpec.v ===== *)
(** What the functions of [Keyspace] do to the abstract server, whose databases
    map keys to values: the rules the specifications of the commands are proved
    with. *)
From stdpp Require Import gmap list strings.
From S2P Require Import Prelude Util Sds SdsText Object Server Keyspace ServerRep ServerOps.
Local Open Scope c_scope.

(** ** The abstract key space *)

Definition a_get (d : Z) (k : bytes) (a : state aval) : option aval :=
  x ← db_at a d; db_dict x !! k.
Definition a_deadline (d : Z) (k : bytes) (a : state aval) : option Z :=
  x ← db_at a d; db_expires x !! k.
Definition a_set (d : Z) (k : bytes) (v : aval) (a : state aval) : state aval :=
  upd_db d (fun x => set_dict (<[k := v]> (db_dict x)) x) a.
Definition a_del (d : Z) (k : bytes) (a : state aval) : state aval :=
  upd_db d (fun x => set_dict (delete k (db_dict x)) (set_expires (delete k (db_expires x)) x)) a.
Definition a_persist (d : Z) (k : bytes) (a : state aval) : state aval :=
  upd_db d (fun x => set_expires (delete k (db_expires x)) x) a.
Definition a_set_deadline (d : Z) (k : bytes) (t : Z) (a : state aval) : state aval :=
  upd_db d (fun x => set_expires (<[k := t]> (db_expires x)) x) a.

(** A deadline that has passed deletes the key, on a master that is not loading. *)
Definition due (d : Z) (k : bytes) (a : state aval) : bool :=
  match a_deadline d k a with
  | Some t => (0 <=? t) && (t <? s_now a) && negb (s_loading a) && s_master a
  | None => false
  end.
Definition a_expire (d : Z) (k : bytes) (a : state aval) : state aval :=
  if due d k a then
    a_del d k (add_event (Notified "expired" k d)
      (add_event (Propagated d [bytes_of "DEL"; k] (s_aof a) true) a))
  else a.
Definition a_setKey (d : Z) (k : bytes) (v : aval) (a : state aval) : state aval :=
  signalModifiedKey d k (a_persist d k (a_set d k v (a_expire d k a))).

(** ** Databases under updates *)

Section Db.
Context {V : Type}.

Lemma upd_db_ext d f f' (s : state V) x : db_at s d = Some x -> f x = f' x -> upd_db d f s = upd_db d f' s.
Proof.
  unfold db_at, znth. case_decide; [|done]. intros Hx Hf. unfold upd_db. f_equal.
  apply list_eq. intros i. rewrite !list_lookup_alter. case_decide as E; [|done].
  subst i. by rewrite Hx; cbn; rewrite Hf.
Qed.

Lemma db_at_upd d d' f (s : state V) x : db_at s d = Some x ->
  db_at (upd_db d f s) d' = if decide (d' = d) then Some (f x) else db_at s d'.
Proof.
  unfold db_at, znth, upd_db. cbn. intros Hx. destruct (decide (d' = d)) as [->|Hne].
  - case_decide; [|done]. by rewrite list_lookup_alter_eq, Hx.
  - destruct (decide (0 <= d')); [|done]. destruct (decide (0 <= d)); [|done].
    apply list_lookup_alter_ne. lia.
Qed.

Lemma db_at_range (s : state V) d : is_Some (db_at s d) <-> 0 <= d < zlen (s_dbs s).
Proof.
  unfold db_at. split; [intros [x Hx]; by eapply znth_Some_bound|].
  intros H. destruct (znth_Some (s_dbs s) d H) as [x Hx]. by exists x.
Qed.

Lemma upd_db_twice d f g (s : state V) : upd_db d g (upd_db d f s) = upd_db d (g ∘ f) s.
Proof.
  unfold upd_db, set_dbs. cbn. f_equal. apply list_eq. intros i.
  destruct (decide (Z.to_nat d = i)) as [<-|]; [|by rewrite !list_lookup_alter_ne].
  rewrite !list_lookup_alter_eq. by destruct (s_dbs s !! Z.to_nat d).
Qed.
End Db.

Section Rules.
Context (P : platform) {HP : PlatformOk P}.

(** [o] is stored at [k]. *)
Definition lives (s : server) (d : Z) (k : bytes) (o : Z) : Prop :=
  exists y, db_at s.2 d = Some y /\ db_dict y !! k = Some o.

Lemma lives_dbs s s' d k o : s_dbs s'.2 = s_dbs s.2 -> lives s d k o -> lives s' d k o.
Proof. intros E (y & Hy & Hk). exists y. unfold db_at. by rewrite E. Qed.

Lemma lives_root s d k o : lives s d k o -> o ∈ roots s.2.
Proof. intros (y & Hy & Hk). by apply (root_of_db s.2 d y k). Qed.

Lemma at_get s c L F K a d k o : At P s c L F K a -> lives s d k o ->
  a_get d k a = Some (abs_addr P s.1 o).
Proof.
  intros H (y & Hy & Hk). unfold a_get. rewrite <- (at_abs _ _ _ _ _ _ _ H). unfold abs.
  rewrite map_db_at, Hy. cbn. by rewrite lookup_fmap, Hk.
Qed.

Lemma at_get_none s c L F K a d k y : At P s c L F K a -> db_at s.2 d = Some y ->
  db_dict y !! k = None -> a_get d k a = None.
Proof.
  intros H Hy Hk. unfold a_get. rewrite <- (at_abs _ _ _ _ _ _ _ H). unfold abs.
  rewrite map_db_at, Hy. cbn. by rewrite lookup_fmap, Hk.
Qed.

Lemma wp_lookupKey s c L F K a d key k x (Q : option Z -> server -> Prop) :
  At P s c L F K a -> (key, k) ∈ K -> db_at a d = Some x ->
  (a_get d k a = None -> Q None s) ->
  (forall o ob v, a_get d k a = Some v -> s.1 !! o = Some ob -> abs_obj P ob = v ->
     lives s d k o -> Q (Some o) s) ->
  wp (lookupKey d key) s Q.
Proof.
  intros H Hin Hx Hn Ho. apply wp_bind, (wp_str P s c L F K a key k); [done|done|].
  destruct (at_db P s c L F K a d x H Hx) as (y & Hy & ->).
  apply wp_bind, (wp_db d y); [done|]. apply wp_ret. destruct (db_dict y !! k) as [o|] eqn:E.
  - assert (Hl : lives s d k o) by (by exists y).
    destruct (held_value P s F.*1 o (at_wf _ _ _ _ _ _ _ H)) as (ob & Hob & Hv & _).
    { apply held_root. by apply (lives_root s d k). }
    apply (Ho o ob (abs_obj P ob)); [|done|done|done].
    rewrite <- Hv. by apply (at_get s c L F K).
  - by apply Hn, (at_get_none s c L F K a d k y).
Qed.

(** ** Storing and removing *)

Lemma At_roots s c L F F' K a st' a' :
  At P s c L F K a ->
  (forall o, cnt o (roots st') + cnt o F'.*1 = cnt o (roots s.2) + cnt o F.*1) ->
  (forall d x k, db_at st' d = Some x -> is_Some (db_expires x !! k) -> is_Some (db_dict x !! k)) ->
  s_clients st' = s_clients s.2 -> zlen (s_dbs st') = zlen (s_dbs s.2) ->
  map_state (abs_addr P s.1) st' = a' ->
  (forall o v, (o, v) ∈ F' -> (o, v) ∉ F -> abs_addr P s.1 o = v) ->
  At P (s.1, st') c L F' K a'.
Proof.
  intros [Hwf Habs Hargv Ht Hkeys] Hr He Hc Hlen Hmap HF. split.
  - split; [|apply Hwf|apply Hwf|done| |].
    3: { unfold queue_ok. cbn [snd fst]. rewrite Hc. apply (wf_queue P s F.*1 Hwf). }
    + intros o. rewrite (wf_refs P s F.*1 Hwf). unfold held. cbn. specialize (Hr o). lia.
    + intros i cl Hi. cbn in Hi. rewrite Hc in Hi. apply db_at_range. cbn. rewrite Hlen.
      apply db_at_range. by apply (wf_db P s F.*1 Hwf i).
  - done.
  - cbn. by rewrite Hc.
  - intros o v Hin. destruct (decide ((o, v) ∈ F)); [by apply Ht|by apply HF].
  - done.
Qed.

Lemma zlen_upd_db {V} d f (s : state V) : zlen (s_dbs (upd_db d f s)) = zlen (s_dbs s).
Proof. unfold zlen. cbn. by rewrite length_alter. Qed.

Lemma map_a_set (g : Z -> aval) d k o s : map_state g (upd_db d (fun x => set_dict (<[k := o]> (db_dict x)) x) s) =
  a_set d k (g o) (map_state g s).
Proof. apply map_upd_db. intros x. unfold map_db, set_dict. cbn. by rewrite fmap_insert. Qed.
Lemma map_a_del (g : Z -> aval) d k s : map_state g (upd_db d (fun x => set_dict (delete k (db_dict x))
  (set_expires (delete k (db_expires x)) x)) s) = a_del d k (map_state g s).
Proof. apply map_upd_db. intros x. unfold map_db, set_dict. cbn. by rewrite fmap_delete. Qed.

Lemma expires_upd s F d y f : wf P s F -> db_at s.2 d = Some y ->
  (forall k, is_Some (db_expires (f y) !! k) -> is_Some (db_dict (f y) !! k)) ->
  forall e x k, db_at (upd_db d f s.2) e = Some x -> is_Some (db_expires x !! k) -> is_Some (db_dict x !! k).
Proof.
  intros Hwf Hy Hf e x k. rewrite (db_at_upd d e f s.2 y Hy).
  case_decide; [intros [= <-]; apply Hf|]. apply (wf_expires P s F Hwf).
Qed.

(** A temporary, stored under a key that is not there. *)
Lemma At_store s c L o v F K a d y k :
  At P s c L ((o, v) :: F) K a -> db_at s.2 d = Some y -> db_dict y !! k = None ->
  At P (s.1, upd_db d (fun x => set_dict (<[k := o]> (db_dict x)) x) s.2) c L F K (a_set d k v a).
Proof.
  intros H Hy Hk. apply (At_roots s c L ((o, v) :: F) F K a); [done| | |done|apply zlen_upd_db| |].
  - intros q. rewrite (cnt_upd_db q s.2 d y) by done. cbn [db_dict set_dict].
    rewrite (cnt_dict_insert q (db_dict y) k o Hk). cbn [fmap list_fmap fst]. rewrite cnt_cons. lia.
  - apply (expires_upd s ((o, v) :: F).*1 d y); [apply H|done|]. cbn. intros k' Hk'.
    destruct (decide (k' = k)) as [->|]; [by rewrite lookup_insert_eq|]. rewrite lookup_insert_ne by done.
    by apply (wf_expires P s ((o, v) :: F).*1 (at_wf _ _ _ _ _ _ _ H) d y).
  - rewrite map_a_set. f_equal; [|apply H]. apply (at_temps _ _ _ _ _ _ _ H o v). by left.
  - intros q w Hin Hn. exfalso. apply Hn. by right.
Qed.

(** A temporary, stored in the place of another object. *)
Lemma At_replace s c L o v old F K a d y k :
  At P s c L ((o, v) :: F) K a -> db_at s.2 d = Some y -> db_dict y !! k = Some old ->
  At P (s.1, upd_db d (fun x => set_dict (<[k := o]> (db_dict x)) x) s.2) c L
    ((old, abs_addr P s.1 old) :: F) K (a_set d k v a).
Proof.
  intros H Hy Hk. apply (At_roots s c L ((o, v) :: F) _ K a); [done| | |done|apply zlen_upd_db| |].
  - intros q. rewrite (cnt_upd_db q s.2 d y) by done. cbn [db_dict set_dict].
    rewrite (cnt_dict_replace q (db_dict y) k old o Hk). cbn [fmap list_fmap fst]. rewrite !cnt_cons. lia.
  - apply (expires_upd s ((o, v) :: F).*1 d y); [apply H|done|]. cbn. intros k' Hk'.
    destruct (decide (k' = k)) as [->|]; [by rewrite lookup_insert_eq|]. rewrite lookup_insert_ne by done.
    by apply (wf_expires P s ((o, v) :: F).*1 (at_wf _ _ _ _ _ _ _ H) d y).
  - rewrite map_a_set. f_equal; [|apply H]. apply (at_temps _ _ _ _ _ _ _ H o v). by left.
  - intros q w [[= -> ->]|Hin]%elem_of_cons Hn; [done|]. exfalso. apply Hn. by right.
Qed.

(** A key removed with its deadline. *)
Lemma At_remove s c L o F K a d y k :
  At P s c L F K a -> db_at s.2 d = Some y -> db_dict y !! k = Some o ->
  At P (s.1, upd_db d (fun x => set_dict (delete k (db_dict x)) (set_expires (delete k (db_expires x)) x)) s.2)
    c L ((o, abs_addr P s.1 o) :: F) K (a_del d k a).
Proof.
  intros H Hy Hk. apply (At_roots s c L F _ K a); [done| | |done|apply zlen_upd_db| |].
  - intros q. rewrite (cnt_upd_db q s.2 d y) by done. cbn [db_dict set_dict set_expires].
    rewrite (cnt_dict_delete q (db_dict y) k o Hk). cbn [fmap list_fmap fst]. rewrite cnt_cons. lia.
  - apply (expires_upd s F.*1 d y); [apply H|done|]. cbn. intros k' Hk'.
    destruct (decide (k' = k)) as [->|]; [rewrite lookup_delete_eq in Hk'; by destruct Hk'|].
    rewrite lookup_delete_ne in Hk' |- * by done.
    by apply (wf_expires P s F.*1 (at_wf _ _ _ _ _ _ _ H) d y).
  - rewrite map_a_del. f_equal. apply H.
  - intros q w [[= -> ->]|Hin]%elem_of_cons Hn; [done|]. by destruct Hn.
Qed.

(** ** The functions of db.c *)

Lemma upd_db_id {V} d f (s : state V) x : db_at s d = Some x -> f x = x -> upd_db d f s = s.
Proof.
  intros Hx Hf. rewrite (upd_db_ext d f id s x Hx Hf). unfold upd_db.
  assert (E : forall l : list (redisDb V), alter id (Z.to_nat d) l = l).
  { intros l. apply list_eq. intros i. destruct (decide (Z.to_nat d = i)) as [<-|].
    - rewrite list_lookup_alter_eq. by destruct (l !! _).
    - by rewrite list_lookup_alter_ne. }
  rewrite E. by destruct s.
Qed.

Lemma wp_upd_dict d y f s (Q : unit -> server -> Prop) : db_at s.2 d = Some y ->
  Q tt (s.1, upd_db d (fun x => set_dict (f (db_dict x)) x) s.2) -> wp (upd_dict d f) s Q.
Proof.
  intros Hy HQ. apply wp_bind, (wp_db d y); [done|]. apply wp_modify.
  by rewrite (upd_db_ext d _ (fun x => set_dict (f (db_dict x)) x) s.2 y).
Qed.

Lemma wp_upd_expires d y f s (Q : unit -> server -> Prop) : db_at s.2 d = Some y ->
  Q tt (s.1, upd_db d (fun x => set_expires (f (db_expires x)) x) s.2) -> wp (upd_expires d f) s Q.
Proof.
  intros Hy HQ. apply wp_bind, (wp_db d y); [done|]. apply wp_modify.
  by rewrite (upd_db_ext d _ (fun x => set_expires (f (db_expires x)) x) s.2 y).
Qed.

Lemma a_deadline_at s c L F K a d y k : At P s c L F K a -> db_at s.2 d = Some y ->
  a_deadline d k a = db_expires y !! k.
Proof.
  intros H Hy. unfold a_deadline. rewrite <- (at_abs _ _ _ _ _ _ _ H). unfold abs.
  by rewrite map_db_at, Hy.
Qed.

Lemma a_get_at s c L F K a d y k : At P s c L F K a -> db_at s.2 d = Some y ->
  a_get d k a = abs_addr P s.1 <$> db_dict y !! k.
Proof.
  intros H Hy. unfold a_get. rewrite <- (at_abs _ _ _ _ _ _ _ H). unfold abs.
  rewrite map_db_at, Hy. cbn. by rewrite lookup_fmap.
Qed.

(** Deadlines change without a reference moving. *)
Lemma quiet_expires_upd s d y f : db_at s d = Some y ->
  (forall k, (forall k', is_Some (db_expires y !! k') -> is_Some (db_dict y !! k')) ->
     is_Some (f (db_expires y) !! k) -> is_Some (db_dict y !! k)) ->
  quiet s (upd_db d (fun x => set_expires (f (db_expires x)) x) s).
Proof.
  intros Hy Hf. split.
  - intros o. rewrite (cnt_upd_db o s d y) by done. cbn. lia.
  - intros c cl Hc. by exists cl.
  - intros He e x k. rewrite (db_at_upd d e _ s y Hy). case_decide; [|by apply He].
    intros [= <-]. cbn. apply Hf. intros k'. by apply (He d).
  - intros Hd c cl Hc. apply db_at_range. rewrite zlen_upd_db. apply db_at_range. by apply (Hd c).
  - intros c cl Hc. by exists cl.
Qed.

Lemma At_expires s c L F K a d y f : At P s c L F K a -> db_at s.2 d = Some y ->
  (forall k, (forall k', is_Some (db_expires y !! k') -> is_Some (db_dict y !! k')) ->
     is_Some (f (db_expires y) !! k) -> is_Some (db_dict y !! k)) ->
  At P (s.1, upd_db d (fun x => set_expires (f (db_expires x)) x) s.2) c L F K
    (upd_db d (fun x => set_expires (f (db_expires x)) x) a).
Proof.
  intros H Hy Hf. apply (At_quiet P s c L F K a); [done|by apply (quiet_expires_upd s.2 d y)|].
  rewrite (map_upd_db _ d _ (fun x => set_expires (f (db_expires x)) x)) by done. f_equal. apply H.
Qed.

Lemma wp_dbDelete s c L F K a d key k x (Q : bool -> server -> Prop) :
  At P s c L F K a -> (key, k) ∈ K -> db_at a d = Some x ->
  (a_get d k a = None -> forall s', At P s' c L F K a -> Q false s') ->
  (is_Some (a_get d k a) -> forall s', At P s' c L F K (a_del d k a) -> Q true s') ->
  wp (dbDelete d key) s Q.
Proof.
  intros H Hin Hx Hn Ho. apply wp_bind, (wp_str P s c L F K a key k); [done|done|].
  destruct (at_db P s c L F K a d x H Hx) as (y & Hy & ->).
  apply wp_bind, (wp_db d y); [done|].
  assert (Hwhen : forall Q' : unit -> server -> Prop,
    Q' tt (s.1, upd_db d (fun x => set_expires (delete k (db_expires x)) x) s.2) ->
    wp (when (negb (bool_decide (db_expires y = ∅))) (upd_expires d (delete k))) s Q').
  { intros Q' HQ'. unfold when. case_bool_decide as E; cbn [negb].
    - rewrite (upd_db_id d _ s.2 y) in HQ'; [by destruct s; apply wp_ret|done|].
      destruct y. unfold set_expires. cbn in *. f_equal. by rewrite E, delete_empty.
    - by apply (wp_upd_expires d y). }
  apply wp_bind, Hwhen. clear Hwhen. destruct (db_dict y !! k) as [o|] eqn:Ek.
  - apply wp_bind. eapply wp_upd_dict; [cbn; rewrite (db_at_upd d d _ s.2 y Hy); by rewrite decide_True|].
    cbn [fst snd]. rewrite upd_db_twice.
    pose proof (At_remove s c L o F K a d y k H Hy Ek) as H'.
    apply wp_bind, (wp_decr P _ c L o (abs_addr P s.1 o) F K (a_del d k a)); [exact H'|].
    intros h Hh _ _. apply wp_ret, Ho; [|done]. rewrite (a_get_at s c L F K a d y k H Hy), Ek. by eexists.
  - apply wp_ret, Hn; [by rewrite (a_get_at s c L F K a d y k H Hy), Ek|].
    rewrite (upd_db_id d _ s.2 y); [by destruct s|done|].
    destruct y. unfold set_expires. cbn in *. f_equal. apply delete_id.
    apply eq_None_not_Some. intros He.
    pose proof (wf_expires P s F.*1 (at_wf _ _ _ _ _ _ _ H) d _ k Hy He) as Hd. cbn in Hd.
    rewrite Ek in Hd. by destruct Hd.
Qed.

Lemma wp_getExpire s c L F K a d key k x (Q : Z -> server -> Prop) :
  At P s c L F K a -> (key, k) ∈ K -> db_at a d = Some x ->
  Q (default (-1) (a_deadline d k a)) s -> wp (getExpire d key) s Q.
Proof.
  intros H Hin Hx HQ. apply wp_bind, (wp_str P s c L F K a key k); [done|done|].
  destruct (at_db P s c L F K a d x H Hx) as (y & Hy & ->).
  rewrite (a_deadline_at s c L F K a d y k H Hy) in HQ.
  apply wp_bind, (wp_db d y); [done|]. case_bool_decide as E.
  - apply wp_ret. by rewrite E, lookup_empty in HQ.
  - destruct (db_expires y !! k) as [t|] eqn:Et; [|by apply wp_ret].
    apply wp_bind, wp_check; [|by apply wp_ret]. apply bool_decide_eq_true.
    apply (wf_expires P s F.*1 (at_wf _ _ _ _ _ _ _ H) d y k Hy). by eexists.
Qed.

Lemma at_flags s c L F K a : At P s c L F K a ->
  s_now s.2 = s_now a /\ s_loading s.2 = s_loading a /\ s_master s.2 = s_master a /\ s_aof s.2 = s_aof a.
Proof. intros H. by rewrite <- (at_abs _ _ _ _ _ _ _ H). Qed.

Lemma wp_event s c L F K a e (Q : unit -> server -> Prop) :
  At P s c L F K a ->
  (forall s', At P s' c L F K (add_event e a) -> Q tt s') -> wp (modify (add_event e)) s Q.
Proof.
  intros H HQ. apply (wp_quiet P s c L F K a _ (add_event e)); [done|apply quiet_event|done|].
  intros H'. by apply HQ.
Qed.

Lemma wp_expireIfNeeded s c L F K a d key k x (Q : bool -> server -> Prop) :
  At P s c L F K a -> (key, k) ∈ K -> db_at a d = Some x ->
  (forall b s', At P s' c L F K (a_expire d k a) -> Q b s') ->
  wp (expireIfNeeded d key) s Q.
Proof.
  intros H Hin Hx HQ. apply wp_bind, (wp_getExpire s c L F K a d key k x); [done|done|done|].
  apply wp_bind, wp_get. destruct (at_flags s c L F K a H) as (-> & -> & -> & Haof).
  assert (Hstay : forall b, due d k a = false -> wp (mret b) s Q).
  { intros b E. apply wp_ret, HQ. unfold a_expire. by rewrite E. }
  unfold due in Hstay. unfold a_expire, due in HQ.
  destruct (a_deadline d k a) as [t|] eqn:Et; [change (default (-1) (Some t)) with t|by apply Hstay].
  destruct (Z.ltb_spec t 0); [apply Hstay; by rewrite (proj2 (Z.leb_gt 0 t))|].
  destruct (s_loading a); [apply Hstay; by rewrite andb_false_r|].
  destruct (s_master a); [|apply Hstay; by rewrite andb_false_r]. cbn [negb].
  destruct (Z.leb_spec (s_now a) t); [apply Hstay; by rewrite (proj2 (Z.ltb_ge t (s_now a))), andb_false_r|].
  rewrite (proj2 (Z.leb_le 0 t)), (proj2 (Z.ltb_lt t (s_now a))) in HQ by done. cbn [negb andb] in HQ.
  apply wp_bind, wp_bind, (wp_str P s c L F K a key k); [done|done|].
  apply wp_bind, wp_get. rewrite Haof. apply (wp_event s c L F K a); [done|]. intros s1 A1.
  apply wp_bind. eapply wp_str; [exact A1|exact Hin|].
  apply wp_bind. eapply wp_event; [exact A1|]. intros s2 A2.
  eapply wp_dbDelete; [exact A2|exact Hin|exact Hx| |].
  - intros Hn. exfalso. destruct (at_db P s c L F K a d x H Hx) as (y & Hy & ->).
    change (a_get d k a = None) in Hn. rewrite (a_get_at s c L F K a d y k H Hy) in Hn.
    rewrite (a_deadline_at s c L F K a d y k H Hy) in Et.
    destruct (wf_expires P s F.*1 (at_wf _ _ _ _ _ _ _ H) d y k Hy) as [o Ho]; [by eexists|].
    by rewrite Ho in Hn.
  - intros _ s3 A3. by apply HQ.
Qed.

Lemma db_at_expire d d' k a : is_Some (db_at a d') -> is_Some (db_at (a_expire d k a) d').
Proof.
  intros H. unfold a_expire. destruct (due d k a); [|done].
  apply db_at_range. unfold a_del. rewrite zlen_upd_db. by apply db_at_range in H.
Qed.

Lemma wp_lookupKeyWrite s c L F K a d key k x (Q : option Z -> server -> Prop) :
  At P s c L F K a -> (key, k) ∈ K -> db_at a d = Some x ->
  (a_get d k (a_expire d k a) = None -> forall s', At P s' c L F K (a_expire d k a) -> Q None s') ->
  (forall o ob v s', a_get d k (a_expire d k a) = Some v -> At P s' c L F K (a_expire d k a) ->
     s'.1 !! o = Some ob -> abs_obj P ob = v -> lives s' d k o -> Q (Some o) s') ->
  wp (lookupKeyWrite d key) s Q.
Proof.
  intros H Hin Hx Hn Ho. apply wp_bind. eapply wp_expireIfNeeded; [exact H|exact Hin|exact Hx|].
  intros b s' H'. destruct (db_at_expire d d k a) as [x' Hx']; [by eexists|].
  eapply wp_lookupKey; [exact H'|exact Hin|exact Hx'|by auto|]. intros o ob v Hv Hob Habs Hl. by eauto.
Qed.

Lemma wp_lookupKeyRead s c L F K a d key k x (Q : option Z -> server -> Prop) :
  At P s c L F K a -> (key, k) ∈ K -> db_at a d = Some x ->
  (a_get d k (a_expire d k a) = None -> forall s', At P s' c L F K (a_expire d k a) -> Q None s') ->
  (forall o ob v s', a_get d k (a_expire d k a) = Some v -> At P s' c L F K (a_expire d k a) ->
     s'.1 !! o = Some ob -> abs_obj P ob = v -> lives s' d k o -> Q (Some o) s') ->
  wp (lookupKeyRead d key) s Q.
Proof. apply wp_lookupKeyWrite. Qed.

(** Adding a value also announces lists to blocked clients. *)
Definition a_add (d : Z) (k : bytes) (v : aval) (a : state aval) : state aval :=
  match v with
  | AOther REDIS_LIST => add_event (Notified "ready" k d) (a_set d k v a)
  | _ => a_set d k v a
  end.

(** The last steps of [dbAdd]: the heap may have changed in the meantime. *)
Lemma wp_announce s c L F K a v ob o d k (Q : unit -> server -> Prop) :
  At P s c L F K (a_set d k v a) -> s.1 !! o = Some ob -> obj_ok ob -> abs_obj P ob = v ->
  (forall s', At P s' c L F K (a_add d k v a) -> s'.1 = s.1 -> s_dbs s'.2 = s_dbs s.2 -> Q tt s') ->
  wp (ob ← obj o; when (bool_decide (o_type ob = REDIS_LIST)) (notifyKeyspaceEvent "ready" k d)) s Q.
Proof.
  intros H Ho Hok Hv HQ. apply wp_bind, (wp_obj _ ob); [done|].
  unfold abs_obj, is_string in Hv. unfold a_add in HQ.
  destruct (o_type ob); subst v; cbn in *; try (by apply wp_ret, HQ).
  apply (wp_quiet P s c L F K _ _ (add_event (Notified "ready" k d)) Q H); [apply quiet_event|done|].
  intros H'. by apply HQ.
Qed.

Lemma wp_dbAdd s c L o v F K a d key k x (Q : unit -> server -> Prop) :
  At P s c L ((o, v) :: F) K a -> (key, k) ∈ K -> db_at a d = Some x -> a_get d k a = None ->
  (forall s', At P s' c L F K (a_add d k v a) -> s'.1 = s.1 -> lives s' d k o -> Q tt s') ->
  wp (dbAdd d key o) s Q.
Proof.
  intros H Hin Hx Hn HQ. apply wp_bind. eapply wp_str; [exact H|exact Hin|].
  destruct (at_db P s c L _ K a d x H Hx) as (y & Hy & ->).
  rewrite (a_get_at s c L _ K a d y k H Hy) in Hn. apply fmap_None in Hn.
  apply wp_bind, (wp_db d y); [done|]. apply wp_bind, wp_check; [by apply bool_decide_eq_true|].
  apply wp_bind, (wp_upd_dict d y); [done|].
  pose proof (At_store s c L o v F K a d y k H Hy Hn) as H'.
  destruct (held_value P s _ o (at_wf _ _ _ _ _ _ _ H)) as (ob & Hob & Hv & Hc & _);
    [apply held_temp; by left|].
  assert (Hval : abs_addr P s.1 o = v) by (apply (at_temps _ _ _ _ _ _ _ H o v); by left).
  assert (Hl : lives (s.1, upd_db d (fun x => set_dict (<[k := o]> (db_dict x)) x) s.2) d k o).
  { eexists. split; [cbn [snd]; rewrite (db_at_upd d d _ _ y Hy), decide_True by done; done|].
    cbn. by rewrite lookup_insert_eq. }
  eapply wp_announce; [exact H'|exact Hob| |congruence|].
  2: { intros s' Hs' E1 E2. apply HQ; [exact Hs'|exact E1|by apply (lives_dbs _ _ d k o E2)]. }
  by apply (wf_objs P s _ (at_wf _ _ _ _ _ _ _ H) o).
Qed.

Lemma wp_dbOverwrite s c L o v F K a d key k x (Q : unit -> server -> Prop) :
  At P s c L ((o, v) :: F) K a -> (key, k) ∈ K -> db_at a d = Some x -> is_Some (a_get d k a) ->
  (forall s', At P s' c L F K (a_set d k v a) -> keep [] s.1 s'.1 ->
     (forall q, ~ lives s d k q -> s'.1 !! q = s.1 !! q) -> lives s' d k o -> Q tt s') ->
  wp (dbOverwrite d key o) s Q.
Proof.
  intros H Hin Hx [v0 Hn] HQ. apply wp_bind. eapply wp_str; [exact H|exact Hin|].
  destruct (at_db P s c L _ K a d x H Hx) as (y & Hy & ->).
  rewrite (a_get_at s c L _ K a d y k H Hy) in Hn. apply fmap_Some in Hn as (old & Hold & _).
  apply wp_bind, (wp_db d y); [done|]. rewrite Hold.
  apply wp_bind, (wp_upd_dict d y); [done|].
  eapply wp_decr; [exact (At_replace s c L o v old F K a d y k H Hy Hold)|].
  intros h Hh Hk Hsame. apply HQ; [done|done| |].
  - intros q Hq. apply Hsame. intros ->. apply Hq. by exists y.
  - exists (set_dict (<[k := o]> (db_dict y)) y). cbn. rewrite (db_at_upd d d _ s.2 y Hy), decide_True by done.
    split; [done|]. cbn. by rewrite lookup_insert_eq.
Qed.

Lemma wp_removeExpire s c L F K a d key k x (Q : bool -> server -> Prop) :
  At P s c L F K a -> (key, k) ∈ K -> db_at a d = Some x -> is_Some (a_get d k a) ->
  (forall s', At P s' c L F K (a_persist d k a) -> s'.1 = s.1 ->
     Q (bool_decide (is_Some (a_deadline d k a))) s') ->
  wp (removeExpire d key) s Q.
Proof.
  intros H Hin Hx [v Hv] HQ. apply wp_bind. eapply wp_str; [exact H|exact Hin|].
  destruct (at_db P s c L _ K a d x H Hx) as (y & Hy & ->).
  rewrite (a_get_at s c L _ K a d y k H Hy) in Hv. apply fmap_Some in Hv as (o & Ho & _).
  apply wp_bind, (wp_db d y); [done|]. apply wp_bind, wp_check.
  { apply bool_decide_eq_true. by eexists. }
  apply wp_bind, (wp_upd_expires d y); [done|]. apply wp_ret.
  rewrite (a_deadline_at s c L F K a d y k H Hy) in HQ. apply HQ; [|done].
  apply (At_expires s c L F K a d y (delete k)); [done|done|]. intros k' Hwf Hk'.
  apply Hwf. destruct (decide (k' = k)) as [->|]; [rewrite lookup_delete_eq in Hk'; by destruct Hk'|].
  by rewrite lookup_delete_ne in Hk'.
Qed.

Lemma wp_setExpire s c L F K a d key k x t (Q : unit -> server -> Prop) :
  At P s c L F K a -> (key, k) ∈ K -> db_at a d = Some x -> is_Some (a_get d k a) ->
  (forall s', At P s' c L F K (a_set_deadline d k t a) -> s'.1 = s.1 -> Q tt s') ->
  wp (setExpire d key t) s Q.
Proof.
  intros H Hin Hx [v Hv] HQ. apply wp_bind. eapply wp_str; [exact H|exact Hin|].
  destruct (at_db P s c L _ K a d x H Hx) as (y & Hy & ->).
  rewrite (a_get_at s c L _ K a d y k H Hy) in Hv. apply fmap_Some in Hv as (o & Ho & _).
  apply wp_bind, (wp_db d y); [done|]. apply wp_bind, wp_check.
  { apply bool_decide_eq_true. by eexists. }
  apply (wp_upd_expires d y); [done|]. apply HQ; [|done].
  apply (At_expires s c L F K a d y (insert k t)); [done|done|]. intros k' Hwf Hk'.
  destruct (decide (k' = k)) as [->|]; [by eexists|]. rewrite lookup_insert_ne in Hk' by done. by apply Hwf.
Qed.

(** ** Storing an argument: it is stored first and counted afterwards *)

Lemma incr_after_decr h val old h1 h2 :
  Object.incrRefCount h val = Some h1 -> Object.decrRefCount h1 old = Some h2 ->
  (old = val -> 2 <= refs h val) -> 1 <= refs h val ->
  exists h0, Object.decrRefCount h old = Some h0 /\ Object.incrRefCount h0 val = Some h2.
Proof.
  unfold Object.incrRefCount, Object.decrRefCount, refs. destruct (h !! val) as [ob|] eqn:Ev; [|done]. step.
  destruct (int_ok (o_refcount ob + 1)) as [n|] eqn:En; [|done]. step. intros [= <-] Hd Hsame H1.
  destruct (decide (old = val)) as [->|Hne].
  - specialize (Hsame eq_refl). rewrite lookup_insert_eq in Hd. cbn in Hd. rewrite Ev. step.
    unfold int_ok in En. case_decide; [|done]. injection En as <-.
    destruct (Z.leb_spec (o_refcount ob + 1) 0); [lia|]. destruct (Z.eqb_spec (o_refcount ob + 1) 1); [lia|].
    injection Hd as <-. destruct (Z.leb_spec (o_refcount ob) 0); [lia|].
    destruct (Z.eqb_spec (o_refcount ob) 1); [lia|]. eexists. split; [done|].
    rewrite lookup_insert_eq. step. cbn. unfold int_ok. rewrite decide_True by cint. step.
    rewrite !insert_insert_eq. unfold set_refcount. cbn. do 3 f_equal; lia.
  - rewrite lookup_insert_ne in Hd by done. destruct (h !! old) as [oo|]; [|done]. cbn in Hd |- *.
    destruct (o_refcount oo <=? 0); [done|]. destruct (o_refcount oo =? 1); injection Hd as <-;
      (eexists; split; [done|]).
    + rewrite lookup_delete_ne, Ev by done. step. rewrite En. step. by rewrite delete_insert_ne.
    + rewrite lookup_insert_ne, Ev by done. step. rewrite En. step. by rewrite insert_insert_ne.
Qed.

(** An argument that also is a value in a database has two references. *)
Lemma refs_stored s c L F K a d k o : At P s c L F K a -> lives s d k o -> o ∈ L -> 2 <= refs s.1 o.
Proof.
  intros H (y & Hy & Hk) HL. rewrite (wf_refs P s F.*1 (at_wf _ _ _ _ _ _ _ H)). unfold held, roots.
  rewrite cnt_app. destruct (at_argv _ _ _ _ _ _ _ H) as (cl & Hc & <-).
  assert (H1 : o ∈ dbs_roots (s_dbs s.2)).
  { unfold db_at, znth in Hy. case_decide; [|done].
    apply (concat_elem _ _ y); [by eapply list_elem_of_lookup_2|]. by apply (dict_roots_elem _ k). }
  assert (H2 : o ∈ clients_roots (s_clients s.2)).
  { apply (concat_elem (fun p : Z * redisClient Z => client_roots p.2) _ (c, cl));
      [by apply elem_of_map_to_list|]. apply elem_of_app. by left. }
  apply cnt_elem in H1, H2. pose proof (cnt_nonneg o (shared P)). pose proof (cnt_nonneg o F.*1). lia.
Qed.

Lemma arg_held s c L F K a o : At P s c L F K a -> o ∈ L -> 0 < held P s F.*1 o.
Proof.
  intros H Hin. destruct (at_argv _ _ _ _ _ _ _ H) as (cl & Hc & <-). by apply held_root, (argv_root _ c cl).
Qed.

(** Taking the reference that the dictionary will hold. *)
Lemma incr_runs s c L F K a o : At P s c L F K a -> 0 < held P s F.*1 o -> room P a (zlen F + 1) ->
  exists h1, Object.incrRefCount s.1 o = Some h1 /\
    At P (h1, s.2) c L ((o, abs_addr P s.1 o) :: F) K a.
Proof.
  intros H Hheld Hroom.
  destruct (wp_incr P s c L o F K a 1 (fun _ s' => At P s' c L ((o, abs_addr P s.1 o) :: F) K a)
    H Hheld Hroom ltac:(lia)) as ([] & s1 & Hi & H1); [by intros h Hh Hk|].
  unfold incrRefCount, on_heap in Hi. destruct (Object.incrRefCount s.1 o) as [h1|]; [|done].
  cbn in Hi. injection Hi as <-. by exists h1.
Qed.

Lemma wp_add_ref s c L F K a d key k x o v (Q : unit -> server -> Prop) :
  At P s c L F K a -> (key, k) ∈ K -> db_at a d = Some x -> a_get d k a = None ->
  0 < held P s F.*1 o -> abs_addr P s.1 o = v -> room P a (zlen F + 1) ->
  (forall s', At P s' c L F K (a_add d k v a) -> lives s' d k o -> Q tt s') ->
  wp (dbAdd d key o;; incrRefCount o) s Q.
Proof.
  intros H Hin Hx Hn Hheld Hv Hroom HQ. destruct (incr_runs s c L F K a o H Hheld Hroom) as (h1 & Eh & H1).
  destruct (at_db P s c L F K a d x H Hx) as (y & Hy & ->).
  rewrite (a_get_at s c L F K a d y k H Hy) in Hn. apply fmap_None in Hn. rewrite Hv in H1.
  apply wp_bind, wp_bind. eapply wp_str; [exact H|exact Hin|]. apply wp_bind, (wp_db d y); [done|].
  apply wp_bind, wp_check; [by apply bool_decide_eq_true|]. apply wp_bind, (wp_upd_dict d y); [done|].
  pose proof (At_store (h1, s.2) c L o v F K a d y k H1 Hy Hn) as H2. cbn [fst snd] in H2.
  set (st := upd_db d (fun x => set_dict (<[k := o]> (db_dict x)) x) s.2) in *.
  assert (Hl : lives (h1, st) d k o).
  { eexists. split; [cbn [snd]; unfold st; rewrite (db_at_upd d d _ _ y Hy), decide_True by done; done|].
    cbn. by rewrite lookup_insert_eq. }
  destruct (held_value P s _ o (at_wf _ _ _ _ _ _ _ H) Hheld) as (ob & Hob & Hab & _).
  apply wp_bind, (wp_obj _ ob); [done|]. unfold a_add in HQ. rewrite <- Hv, Hab in *.
  unfold abs_obj, is_string in *. destruct (o_type ob); cbn in *;
    try (apply wp_ret; eapply wp_on_heap; [exact Eh|]; by apply HQ).
  apply wp_modify. eapply wp_on_heap; [exact Eh|]. apply HQ; [|done]. cbn [fst snd].
  by apply (At_quiet P (h1, st) c L F K (a_set d k (AOther REDIS_LIST) a));
    [exact H2|apply quiet_event|rewrite <- (at_abs _ _ _ _ _ _ _ H2)].
Qed.

Lemma wp_replace_ref s c L F K a d key k x o v (Q : unit -> server -> Prop) :
  At P s c L F K a -> (key, k) ∈ K -> db_at a d = Some x -> is_Some (a_get d k a) ->
  o ∈ L -> abs_addr P s.1 o = v -> room P a (zlen F + 1) ->
  (forall s', At P s' c L F K (a_set d k v a) -> Q tt s') ->
  wp (dbOverwrite d key o;; incrRefCount o) s Q.
Proof.
  intros H Hin Hx Hs HoL Hv Hroom HQ. pose proof (arg_held s c L F K a o H HoL) as Hheld.
  destruct (incr_runs s c L F K a o H Hheld Hroom) as (h1 & Eh & H1).
  destruct (at_db P s c L F K a d x H Hx) as (y & Hy & ->).
  rewrite (a_get_at s c L F K a d y k H Hy), fmap_is_Some in Hs. destruct Hs as [old Ek]. rewrite Hv in H1.
  apply wp_bind, wp_bind. eapply wp_str; [exact H|exact Hin|]. apply wp_bind, (wp_db d y); [done|]. rewrite Ek.
  apply wp_bind, (wp_upd_dict d y); [done|].
  pose proof (At_replace (h1, s.2) c L o v old F K a d y k H1 Hy Ek) as H2.
  destruct (wp_decr P _ c L old _ F K _ (fun _ s' => At P s' c L F K (a_set d k v a) /\
    s'.2 = upd_db d (fun x => set_dict (<[k := o]> (db_dict x)) x) s.2) H2) as ([] & s3 & Hd & H3 & E3).
  { intros h Hh _ _. done. }
  unfold decrRefCount, on_heap in Hd. cbn in Hd.
  destruct (Object.decrRefCount h1 old) as [h2|] eqn:Eh2; [|done]. cbn in Hd. injection Hd as <-.
  destruct (incr_after_decr s.1 o old h1 h2 Eh Eh2) as (h0 & Ed & Ei).
  { intros ->. apply (refs_stored s c L F K a d k); [done|by exists y|done]. }
  { rewrite (wf_refs P s F.*1 (at_wf _ _ _ _ _ _ _ H)). lia. }
  eapply wp_on_heap; [exact Ed|]. eapply wp_on_heap; [exact Ei|]. by apply HQ.
Qed.

Lemma wp_assoc {A B} (m : M A) (n : M B) s (Q : B -> server -> Prop) C (k : B -> M C) Q' :
  wp (m;; n) s Q -> (forall b s', Q b s' -> wp (k b) s' Q') -> wp (m;; (b ← n; k b)) s Q'.
Proof.
  intros (b & s' & Hm & HQ) Hk. destruct (Hk b s' HQ) as (x & s'' & Hx & HQ').
  exists x, s''. split; [|done]. unfold mbind, M_bind in *. destruct (m s) as [[]|]; [|done]. by rewrite Hm.
Qed.

(** The value of an argument is told by the abstraction. *)
Lemma arg_value s s' c L F F' K K' a a' o : At P s c L F K a -> At P s' c L F' K' a' ->
  (c_argv <$> s_clients a' !! c) = (c_argv <$> s_clients a !! c) -> o ∈ L ->
  abs_addr P s'.1 o = abs_addr P s.1 o.
Proof.
  intros H H' E HoL. destruct (at_client P s c L F K a H) as (cl & _ & HL & Ha).
  destruct (at_client P s' c L F' K' a' H') as (cl' & _ & HL' & Ha').
  rewrite Ha, Ha' in E. cbn in E. rewrite HL, HL' in E. injection E as E.
  apply list_elem_of_lookup in HoL as [i Hi]. apply (f_equal (lookup i)) in E.
  rewrite !list_lookup_fmap, Hi in E. by injection E.
Qed.

Lemma expire_clients d k a : s_clients (a_expire d k a) = s_clients a.
Proof. unfold a_expire. by destruct (due d k a). Qed.

(** How the number of references changes. *)
Lemma weight_del d k a x : db_at a d = Some x -> weight (a_del d k a) <= weight a.
Proof.
  intros Hx. rewrite !weight_total. unfold a_del. rewrite (total_upd_db _ a d x _ Hx). cbn.
  destruct (db_dict x !! k) as [v|] eqn:Hk.
  - rewrite (total_dict_delete _ _ k v Hk). lia.
  - rewrite (delete_id (db_dict x) k Hk). lia.
Qed.

Lemma weight_expire d k a x : db_at a d = Some x -> weight (a_expire d k a) <= weight a.
Proof.
  intros Hx. unfold a_expire. destruct (due d k a); [|lia]. apply (weight_del d k _ x Hx).
Qed.

Lemma a_get_set d k v a x : db_at a d = Some x -> a_get d k (a_set d k v a) = Some v.
Proof.
  intros Hx. unfold a_get, a_set. rewrite (db_at_upd d d _ a x Hx), decide_True by done. cbn.
  by rewrite lookup_insert_eq.
Qed.

Lemma a_add_string d k bs a : a_add d k (AStr bs) a = a_set d k (AStr bs) a.
Proof. done. Qed.

Lemma room_le {V W} (s : state V) (s' : state W) n : weight s' <= weight s -> room P s n -> room P s' n.
Proof. unfold room. lia. Qed.

Lemma wp_setKey s c L F K a d key k x o bs (Q : unit -> server -> Prop) :
  At P s c L F K a -> (key, k) ∈ K -> db_at a d = Some x -> o ∈ L ->
  abs_addr P s.1 o = AStr bs -> room P a (zlen F + 1) ->
  (forall s', At P s' c L F K (a_setKey d k (AStr bs) a) -> Q tt s') ->
  wp (setKey d key o) s Q.
Proof.
  intros H Hin Hx HoL Hv Hroom HQ.
  assert (Hrest : forall s1, At P s1 c L F K (a_expire d k a) ->
    wp ((if a_get d k (a_expire d k a) then dbOverwrite d key o else dbAdd d key o);;
        (incrRefCount o;; (removeExpire d key;; signal d key))) s1 Q).
  { intros s1 H1. destruct (db_at_expire d d k a) as [x1 Hx1]; [by eexists|].
    apply (wp_assoc _ (incrRefCount o) s1 (fun _ s' => At P s' c L F K (a_set d k (AStr bs) (a_expire d k a)))).
    - assert (Hv1 : abs_addr P s1.1 o = AStr bs).
      { rewrite <- Hv. apply (arg_value s s1 c L F F K K a _ o H H1); [by rewrite expire_clients|done]. }
      assert (Hroom1 : room P (a_expire d k a) (zlen F + 1))
        by (eapply room_le; [by eapply weight_expire|exact Hroom]).
      destruct (a_get d k (a_expire d k a)) as [v|] eqn:Eg.
      + eapply wp_replace_ref; [exact H1|exact Hin|exact Hx1|by rewrite Eg|exact HoL|exact Hv1|exact Hroom1|done].
      + eapply wp_add_ref; [exact H1|exact Hin|exact Hx1|exact Eg| |exact Hv1|exact Hroom1|].
        * by apply (arg_held s1 c L F K (a_expire d k a)).
        * rewrite a_add_string. by intros s2 H2 _.
    - intros [] s2 H2. apply wp_bind.
      assert (Hx2 : db_at (a_set d k (AStr bs) (a_expire d k a)) d =
        Some (set_dict (<[k := AStr bs]> (db_dict x1)) x1))
        by (unfold a_set; by rewrite (db_at_upd d d _ _ x1 Hx1), decide_True).
      eapply wp_removeExpire; [exact H2|exact Hin|exact Hx2| |].
      + rewrite (a_get_set d k _ _ x1 Hx1). by eexists.
      + intros s3 H3 _. eapply wp_signal; [exact H3|exact Hin|]. intros s4 H4 _ _. by apply HQ. }
  apply wp_bind. eapply wp_lookupKeyWrite; [exact H|exact Hin|exact Hx| |].
  - intros Hn s1 H1. specialize (Hrest s1 H1). by rewrite Hn in Hrest.
  - intros o' ob v s1 Hs H1 _ _ _. specialize (Hrest s1 H1). by rewrite Hs in Hrest.
Qed.

(** ** Strings that are modified in place *)

Lemma a_set_same d k v a x : db_at a d = Some x -> db_dict x !! k = Some v -> a_set d k v a = a.
Proof.
  intros Hx Hk. apply (upd_db_id d _ a x Hx). destruct x. unfold set_dict. cbn in *.
  by rewrite insert_id.
Qed.

(** The only reference to the object is the database's. *)
Definition owned (s : server) (d : Z) (k : bytes) (o : Z) (ob : robj) : Prop :=
  s.1 !! o = Some ob /\ o_refcount ob = 1 /\ lives s d k o.

Lemma owned_other s c L F K a d k o ob q : At P s c L F K a -> owned s d k o ob ->
  (q ∈ L \/ q ∈ F.*1 \/ q ∈ shared P) -> q <> o.
Proof.
  intros H (Ho & Hc & Hl) Hq ->. pose proof (wf_refs P s F.*1 (at_wf _ _ _ _ _ _ _ H) o) as Hr.
  unfold refs in Hr. rewrite Ho, Hc in Hr. unfold held in Hr.
  pose proof (proj1 (cnt_elem o (roots s.2)) (lives_root s d k o Hl)).
  pose proof (cnt_nonneg o (shared P)). pose proof (cnt_nonneg o F.*1).
  destruct Hq as [Hq|[Hq|Hq]].
  - pose proof (refs_stored s c L F K a d k o H Hl Hq) as Hrs. unfold refs in Hrs. rewrite Ho in Hrs. lia.
  - apply cnt_elem in Hq. lia.
  - apply cnt_elem in Hq. lia.
Qed.

Lemma abs_set_ptr s d k o y h' v : db_at s.2 d = Some y -> db_dict y !! k = Some o ->
  cnt o (roots s.2) = 1 -> (forall q, q <> o -> h' !! q = s.1 !! q) -> abs_addr P h' o = v ->
  abs P (h', s.2) = a_set d k v (abs P s).
Proof.
  intros Hy Hk Hone Hsame Hv. unfold abs. cbn [fst snd].
  set (st0 := upd_db d (fun x => set_dict (delete k (db_dict x)) x) s.2).
  assert (Hst : s.2 = upd_db d (fun x => set_dict (<[k := o]> (db_dict x)) x) st0).
  { unfold st0. rewrite upd_db_twice. symmetry. apply (upd_db_id d _ s.2 y Hy). destruct y.
    unfold set_dict. cbn in *. by rewrite insert_delete_eq, insert_id. }
  rewrite Hst, !map_a_set, Hv.
  rewrite (map_state_ext (abs_addr P h') (abs_addr P s.1) st0).
  - unfold a_set at 2 3. rewrite upd_db_twice. unfold a_set.
    destruct (db_at (map_state (abs_addr P s.1) st0) d) as [z|] eqn:Hz.
    + apply (upd_db_ext d _ _ _ z Hz). destruct z. unfold set_dict. cbn. by rewrite insert_insert_eq.
    + exfalso. unfold st0 in Hz. rewrite map_db_at, (db_at_upd d d _ s.2 y Hy), decide_True in Hz by done. done.
  - intros q Hq. unfold abs_addr. rewrite Hsame; [done|]. intros ->.
    apply cnt_elem in Hq. unfold st0 in Hq. rewrite (cnt_upd_db o s.2 d y _ Hy) in Hq. cbn in Hq.
    rewrite (cnt_dict_delete o _ k o Hk), one_eq in Hq. lia.
Qed.

(** An object only a database refers to is in no queue. *)
Lemma stored_not_queued (st : state Z) d y k o c cl q : db_at st d = Some y -> db_dict y !! k = Some o ->
  cnt o (roots st) = 1 -> s_clients st !! c = Some cl -> q ∈ c_mstate cl -> o ∉ mc_argv q.
Proof.
  intros Hy Hk Hone Hc Hq Ho.
  set (f := fun x : redisDb Z => set_dict (delete k (db_dict x)) x).
  pose proof (cnt_upd_db o st d y f Hy) as Hn. unfold f at 2 in Hn. cbn [db_dict set_dict] in Hn.
  rewrite (cnt_dict_delete o _ k o Hk), one_eq, Hone in Hn.
  assert (Hr : 0 < cnt o (roots (upd_db d f st))) by (by apply cnt_elem, (queued_root _ c cl q)). lia.
Qed.

Lemma wp_set_ptr s c L F K a d k o ob p bs (Q : unit -> server -> Prop) :
  At P s c L F K a -> owned s d k o ob ->
  string_rep (mkObj (o_type ob) (o_encoding ob) (o_refcount ob) p) bs -> zlen bs <= max_string ->
  (forall s', At P s' c L F K (a_set d k (AStr bs) a) -> lives s' d k o ->
     s'.1 !! o = Some (mkObj (o_type ob) (o_encoding ob) (o_refcount ob) p) -> Q tt s') ->
  wp (set_ptr o p) s Q.
Proof.
  intros H Hown Hr Hl HQ. pose proof Hown as (Ho & Hc & Hli). destruct Hli as (y & Hy & Hk).
  pose proof (at_wf _ _ _ _ _ _ _ H) as Hwf.
  set (e := mkObj (o_type ob) (o_encoding ob) (o_refcount ob) p) in *.
  assert (Hsame : forall q, q <> o -> <[o := e]> s.1 !! q = s.1 !! q)
    by (intros q Hq; by rewrite lookup_insert_ne).
  assert (Hval : abs_addr P (<[o := e]> s.1) o = AStr bs).
  { unfold abs_addr. rewrite lookup_insert_eq. by apply abs_obj_rep. }
  assert (Hone : cnt o (roots s.2) = 1).
  { pose proof (wf_refs P s F.*1 Hwf o) as Hrf. unfold refs, held in Hrf. rewrite Ho, Hc in Hrf.
    pose proof (proj1 (cnt_elem o (roots s.2)) (lives_root s d k o ltac:(by exists y))).
    pose proof (cnt_nonneg o (shared P)). pose proof (cnt_nonneg o F.*1). lia. }
  apply (wp_on_heap _ (<[o := e]> s.1)); [by rewrite Ho|].
  apply HQ; [|by exists y|cbn; by rewrite lookup_insert_eq]. split.
  - apply (wf_heap P s _ F.*1 F.*1 Hwf).
    + intros q. rewrite refs_insert. unfold refs. case_decide; [subst; rewrite Ho; cbn|]; lia.
    + apply map_Forall_insert_2; [apply (string_ok e bs); [done|done|cbn; lia]|apply Hwf].
    + intros v Hv. destruct (wf_shared P s F.*1 Hwf v Hv) as [rc Hrc]. exists rc.
      rewrite Hsame; [done|]. apply (owned_other s c L F K a d k o ob _ H Hown). right. right. by apply shared_elem.
    + intros i cl q Hi Hin. destruct (wf_queue P s F.*1 Hwf i cl q Hi Hin) as [Hnd Henc]. split; [done|].
      intros r Hrq. destruct (Henc r Hrq) as (er & Her & He1). exists er. rewrite Hsame; [done|]. intros ->.
      by apply (stored_not_queued s.2 d y k o i cl q).
  - rewrite (abs_set_ptr s d k o y _ (AStr bs)); [|done..]. f_equal. apply H.
  - apply H.
  - intros q v Hin. rewrite <- (at_temps _ _ _ _ _ _ _ H q v Hin). unfold abs_addr. cbn [fst]. rewrite Hsame; [done|].
    apply (owned_other s c L F K a d k o ob _ H Hown). right. left. apply list_elem_of_fmap. by exists (q, v).
  - intros q bs' Hin. destruct (at_keys _ _ _ _ _ _ _ H q bs' Hin) as [HqL Hs]. split; [done|].
    destruct Hs as (oq & sd & Hoq & Hs). exists oq, sd. cbn [fst]. rewrite Hsame; [done|].
    apply (owned_other s c L F K a d k o ob _ H Hown). by left.
Qed.

(** [o] is not referenced elsewhere and holds a plain sds afterwards. *)
Lemma wp_dbUnshareStringValue s c L F K a d key k x o ob bs (Q : Z -> server -> Prop) :
  At P s c L F K a -> (key, k) ∈ K -> db_at a d = Some x -> lives s d k o ->
  s.1 !! o = Some ob -> string_rep ob bs -> zlen bs <= max_string -> room P a (zlen F + 2) ->
  (forall s' o' sd, At P s' c L F K a ->
     owned s' d k o' (mkObj REDIS_STRING ENC_RAW 1 (PSds sd)) -> rep sd bs -> Q o' s') ->
  wp (dbUnshareStringValue P d key o) s Q.
Proof.
  intros H Hin Hx Hli Ho Hr Hl Hroom HQ. apply wp_bind, (wp_obj _ ob); [done|].
  apply wp_bind, wp_check; [by apply (is_string_rep ob bs)|].
  destruct (negb (o_refcount ob =? 1) || negb (bool_decide (o_encoding ob = ENC_RAW))) eqn:E.
  - apply wp_bind. eapply (wp_getDecodedObject P); [exact H| |exact Ho|exact Hr|exact Hl| |].
    { by apply held_root, (lives_root s d k). }
    { unfold room in *. lia. }
    intros h dec od H1 Hk1 Hod Hrd Hed. apply wp_bind, wp_bind, (wp_obj _ od); [done|]. rewrite Hed.
    destruct (encoded_rep od bs Hrd) as [(_ & sd & Hp & Hs)|(He' & _)]; [|congruence].
    apply (wp_opt _ sd); [unfold as_sds; by rewrite Hp|].
    destruct (rep_inv sd bs Hs) as (tail & -> & _). cbn [sds_buf sds_len].
    apply wp_bind. eapply (wp_createRawStringObject P); [exact H1|by apply mem_read_prefix|exact Hl|].
    intros h2 o' sd' H2 Hk2 Ho' Hs' Hfr. cbn [fst snd] in *.
    apply (At_perm P _ c L _ ((dec, AStr bs) :: (o', AStr bs) :: F)) in H2; [|by apply perm_swap].
    assert (Hne : o' <> dec).
    { intros ->. rewrite Hod in Hfr. done. }
    assert (Hne2 : o' <> o).
    { intros ->. destruct (Hk1 o ob ltac:(apply not_elem_of_nil) Ho) as [Hn|[n Hn]]; [|congruence].
      destruct (wf_alive P (h, s.2) _ o (at_wf _ _ _ _ _ _ _ H1)) as (e & He & _); [|cbn in He; congruence].
      by apply held_root, (lives_root s d k). }
    apply wp_bind. eapply wp_decr; [exact H2|]. intros h3 H3 Hk3 Hsame3.
    assert (Hget : a_get d k a = Some (AStr bs)).
    { rewrite (at_get s c L F K a d k o H Hli). unfold abs_addr. by rewrite Ho, (abs_obj_rep P ob bs Hr). }
    assert (Hset : a_set d k (AStr bs) a = a).
    { unfold a_get in Hget. rewrite Hx in Hget. by apply (a_set_same d k _ a x). }
    apply wp_bind. eapply wp_dbOverwrite; [exact H3|exact Hin|exact Hx|by rewrite Hget|].
    intros s4 H4 Hk4 Hsame4 Hl4. rewrite Hset in H4. apply wp_ret, (HQ s4 o' sd'); [done| |done].
    split; [|done]. rewrite Hsame4; [cbn; by rewrite Hsame3|].
    intros (y & Hy & Hyo). destruct Hli as (y' & Hy' & Hyo'). cbn in Hy. rewrite Hy' in Hy.
    injection Hy as <-. congruence.
  - apply wp_ret. apply orb_false_iff in E as [E1%negb_false_iff E2%negb_false_iff].
    apply bool_decide_eq_true in E2. destruct ob as [ty enc rc ptr]. cbn in *. subst enc.
    assert (rc = 1) as -> by lia. destruct Hr as [Hty Hv]. cbn in Hty, Hv. subst ty.
    destruct ptr as [sd| |]; try done. by apply (HQ s o sd).
Qed.
End Rules.
