(* ===== verification/StringCmd.v ===== *)
(** The string commands of [src/redis-3.0.0/src/t_string.c], on the server of
    [Server] and the key space of [Keyspace].  INCRBYFLOAT, which computes with
    [long double], is not modelled. *)
From stdpp Require Import gmap list strings.
From S2P Require Import Prelude Util Sds SdsText Object Server Keyspace.
Local Open Scope c_scope.

(** [if (checkStringLength(c,size) != REDIS_OK)]: an error reply is sent. *)
Definition checkStringLength (c : Z) (size : Z) : M bool :=
  if 512 * 1024 * 1024 <? size then
    addReplyError c (bytes_of "string exceeds maximum allowed size (512MB)");; mret false
  else mret true.

Definition REDIS_SET_NO_FLAGS : Z := 0.
Definition REDIS_SET_NX : Z := 1.
Definition REDIS_SET_XX : Z := 2.

Section StringCommands.
Context (P : platform).

(** [unit == UNIT_SECONDS] is [seconds]. *)
Definition setGenericCommand (c flags key val : Z) (expire : option Z) (seconds : bool)
    (ok_reply abort_reply : option bytes) : M unit :=
  d ← cdb c; cl ← client c;
  ms ← (match expire with
        | None => mret (Some 0)
        | Some e =>
            r ← getLongLongFromObjectOrReply c (Some e) None;
            match r with
            | None => mret None
            | Some ms =>
                if ms <=? 0 then
                  name ← opt (c_cmd cl);
                  addReplyErrorFormat c (bytes_of "invalid expire time in " ++ cmd_name name);;
                  mret None
                else if seconds then ms ← opt (ll_ok (ms * 1000)); mret (Some ms)
                else mret (Some ms)
            end
        end);
  match ms with
  | None => mret tt
  | Some ms =>
      abort ← (nx ← (if negb (flags .& REDIS_SET_NX =? 0) then
                       o ← lookupKeyWrite d key; mret (bool_decide (is_Some o))
                     else mret false);
               if (nx : bool) then mret true
               else if negb (flags .& REDIS_SET_XX =? 0) then
                 o ← lookupKeyWrite d key; mret (bool_decide (o = None))
               else mret false);
      if (abort : bool) then addReplyString c (default shared_nullbulk abort_reply)
      else
        setKey d key val;;
        dirty 1;;
        (match expire with
         | Some _ => s ← get_state; t ← opt (ll_ok (s_now s + ms)); setExpire d key t
         | None => mret tt
         end);;
        notify "set" d key;;
        when (bool_decide (is_Some expire)) (notify "expire" d key);;
        addReplyString c (default shared_ok_reply ok_reply)
  end.

(** [(a[0] == l1 || a[0] == u1) && (a[1] == l2 || a[1] == u2) && a[2] == '\0'] *)
Definition two_letters (a : list Z) (l1 u1 l2 u2 : Z) : option bool :=
  c0 ← znth a 0;
  if (c0 =? l1) || (c0 =? u1) then
    c1 ← znth a 1;
    if (c1 =? l2) || (c1 =? u2) then c2 ← znth a 2; Some (c2 =? 0) else Some false
  else Some false.

(** The options from the third argument on; [None] is a syntax error. *)
Fixpoint set_options (args : list Z) (flags : Z) (seconds : bool) (expire : option Z)
    : M (option (Z * bool * option Z)) :=
  match args with
  | [] => mret (Some (flags, seconds, expire))
  | x :: rest =>
      a ← sds_of x;
      nx ← opt (two_letters (sds_buf a) 110 78 120 88);
      if (nx : bool) then set_options rest (flags .| REDIS_SET_NX) seconds expire else
      xx ← opt (two_letters (sds_buf a) 120 88 120 88);
      if (xx : bool) then set_options rest (flags .| REDIS_SET_XX) seconds expire else
      ex ← opt (two_letters (sds_buf a) 101 69 120 88);
      px ← opt (two_letters (sds_buf a) 112 80 120 88);
      match rest with
      | next :: rest' =>
          if (ex : bool) then set_options rest' flags true (Some next)
          else if (px : bool) then set_options rest' flags false (Some next)
          else mret None
      | [] => mret None
      end
  end.

Definition setCommand (c : Z) : M unit :=
  cl ← client c;
  r ← set_options (drop 3 (c_argv cl)) REDIS_SET_NO_FLAGS true None;
  match r with
  | None => addReplyString c shared_syntaxerr
  | Some (flags, seconds, expire) =>
      val ← encode_arg P c 2;
      key ← argv c 1;
      setGenericCommand c flags key val expire seconds None None
  end.

Definition setnxCommand (c : Z) : M unit :=
  val ← encode_arg P c 2; key ← argv c 1;
  setGenericCommand c REDIS_SET_NX key val None true (Some shared_cone) (Some shared_czero).
Definition setexCommand (c : Z) : M unit :=
  val ← encode_arg P c 3; key ← argv c 1; e ← argv c 2;
  setGenericCommand c REDIS_SET_NO_FLAGS key val (Some e) true None None.
Definition psetexCommand (c : Z) : M unit :=
  val ← encode_arg P c 3; key ← argv c 1; e ← argv c 2;
  setGenericCommand c REDIS_SET_NO_FLAGS key val (Some e) false None None.

Definition getGenericCommand (c : Z) : M Z :=
  d ← cdb c; key ← argv c 1;
  o ← lookupKeyReadOrReply c d key shared_nullbulk;
  match o with
  | None => mret REDIS_OK
  | Some o =>
      ob ← obj o;
      if negb (bool_decide (o_type ob = REDIS_STRING)) then
        addReplyString c shared_wrongtypeerr;; mret REDIS_ERR
      else addReplyBulk P c o;; mret REDIS_OK
  end.
Definition getCommand (c : Z) : M unit := getGenericCommand c;; mret tt.

Definition getsetCommand (c : Z) : M unit :=
  r ← getGenericCommand c;
  if r =? REDIS_ERR then mret tt
  else
    d ← cdb c; val ← encode_arg P c 2; key ← argv c 1;
    setKey d key val;;
    notify "set" d key;;
    dirty 1.

(** [offset+sdslen(value)] is a [size_t]; [checkStringLength] takes a
    [long long]. *)
Definition setrangeCommand (c : Z) : M unit :=
  d ← cdb c; v ← argv c 3; value ← str v;
  a ← argv c 2;
  r ← getLongFromObjectOrReply c (Some a) None;
  match r with
  | None => mret tt
  | Some offset =>
      if offset <? 0 then addReplyError c (bytes_of "offset is out of range")
      else
        key ← argv c 1;
        let total := offset +[64] zlen value in
        o ← lookupKeyWrite d key;
        o ← (match o with
             | None =>
                 if zlen value =? 0 then addReplyString c shared_czero;; mret None
                 else
                   ok ← checkStringLength c (s64 total);
                   if negb ok then mret None
                   else
                     e ← opt (sdsempty (junk P));
                     o ← createObject P e;
                     dbAdd d key o;; mret (Some o)
             | Some o =>
                 bad ← checkType c o REDIS_STRING;
                 if (bad : bool) then mret None
                 else
                   olen ← stringObjectLen P o;
                   if zlen value =? 0 then addReplyLongLong P c olen;; mret None
                   else
                     ok ← checkStringLength c (s64 total);
                     if negb ok then mret None
                     else o ← dbUnshareStringValue P d key o; mret (Some o)
             end);
        match o with
        | None => mret tt
        | Some o =>
            when (0 <? zlen value) (
              e ← sds_of o;
              e ← opt (sdsgrowzero (junk P) e total);
              set_ptr o (PSds e);;
              buf ← opt (mem_write (sds_buf e) offset value);
              set_ptr o (PSds (mkSds (sds_len e) (sds_free e) buf));;
              signal d key;;
              notify "setrange" d key;;
              dirty 1);;
            e ← sds_of o;
            addReplyLongLong P c (sds_len e)
        end
  end.

(** The bytes of [o->ptr], or of the integer printed. *)
Definition range_source (o : Z) : M (list Z * Z) :=
  ob ← obj o;
  if bool_decide (o_encoding ob = ENC_INT) then
    v ← opt (as_long ob);
    '(n, buf) ← opt (ll2string (local_buf (junk P) 32) 32 v); mret (buf, n)
  else e ← opt (as_sds ob); mret (sds_buf e, sds_len e).

Definition getrangeCommand (c : Z) : M unit :=
  d ← cdb c; a2 ← argv c 2; a3 ← argv c 3; key ← argv c 1;
  start ← getLongLongFromObjectOrReply c (Some a2) None;
  match start with None => mret tt | Some start =>
  last ← getLongLongFromObjectOrReply c (Some a3) None;
  match last with None => mret tt | Some last =>
  o ← lookupKeyReadOrReply c d key shared_emptybulk;
  match o with None => mret tt | Some o =>
  bad ← checkType c o REDIS_STRING;
  if (bad : bool) then mret tt else
  '(text, strlen) ← range_source o;
  let start := if start <? 0 then s64 (strlen +[64] start) else start in
  let last := if last <? 0 then s64 (strlen +[64] last) else last in
  let start := if start <? 0 then 0 else start in
  let last := if last <? 0 then 0 else last in
  let last := if strlen <=? u64 last then s64 (strlen -[64] 1) else last in
  if (last <? start) || (strlen =? 0) then addReplyString c shared_emptybulk
  else
    bs ← opt (mem_read text start (last - start + 1));
    addReplyBulkCBuffer P c bs
  end end end.

Definition mget_one (c d key : Z) : M unit :=
  o ← lookupKeyRead d key;
  match o with
  | None => addReplyString c shared_nullbulk
  | Some o =>
      ob ← obj o;
      if negb (bool_decide (o_type ob = REDIS_STRING)) then addReplyString c shared_nullbulk
      else addReplyBulk P c o
  end.
Definition mgetCommand (c : Z) : M unit :=
  d ← cdb c; cl ← client c;
  addReplyMultiBulkLen P c (zlen (c_argv cl) - 1);;
  each (mget_one c d) (drop 1 (c_argv cl)).

(** The keys of [argv[1]], [argv[3]], ... that exist, counted. *)
Fixpoint busy_loop (c d : Z) (n : nat) (j busykeys : Z) : M Z :=
  match n with
  | O => mret busykeys
  | S n =>
      key ← argv c j;
      o ← lookupKeyWrite d key;
      busy_loop c d n (j + 2) (if bool_decide (is_Some o) then busykeys + 1 else busykeys)
  end.

Fixpoint mset_loop (c d : Z) (n : nat) (j : Z) : M unit :=
  match n with
  | O => mret tt
  | S n =>
      val ← encode_arg P c (j + 1); key ← argv c j;
      setKey d key val;;
      notify "set" d key;;
      mset_loop c d n (j + 2)
  end.

Definition msetGenericCommand (c : Z) (nx : bool) : M unit :=
  d ← cdb c; n ← argc c;
  if Z.rem n 2 =? 0 then addReplyError c (bytes_of "wrong number of arguments for MSET")
  else
    let pairs := Z.to_nat (Z.quot (n - 1) 2) in
    busykeys ← (if nx then busy_loop c d pairs 1 0 else mret 0);
    if negb (busykeys =? 0) then addReplyString c shared_czero
    else
      mset_loop c d pairs 1;;
      dirty (Z.quot (n - 1) 2);;
      addReplyString c (if nx then shared_cone else shared_ok_reply).
Definition msetCommand (c : Z) : M unit := msetGenericCommand c false.
Definition msetnxCommand (c : Z) : M unit := msetGenericCommand c true.

Definition incr_overflows (incr oldvalue : Z) : bool :=
  ((incr <? 0) && (oldvalue <? 0) && (incr <? LLONG_MIN - oldvalue)) ||
  ((0 <? incr) && (0 <? oldvalue) && (LLONG_MAX - oldvalue <? incr)).

Definition incrDecrCommand (c incr : Z) : M unit :=
  d ← cdb c; key ← argv c 1;
  o ← lookupKeyWrite d key;
  bad ← (match o with None => mret false | Some o => checkType c o REDIS_STRING end);
  if (bad : bool) then mret tt else
  r ← getLongLongFromObjectOrReply c o None;
  match r with
  | None => mret tt
  | Some oldvalue =>
      if incr_overflows incr oldvalue then
        addReplyError c (bytes_of "increment or decrement would overflow")
      else
        let value := oldvalue + incr in
        in_place ← (match o with
                    | None => mret None
                    | Some o =>
                        ob ← obj o;
                        mret (if (o_refcount ob =? 1) && bool_decide (o_encoding ob = ENC_INT) &&
                                 ((value <? 0) || (REDIS_SHARED_INTEGERS <=? value))
                              then Some o else None)
                    end);
        new ← (match in_place with
               | Some o => set_ptr o (PLong value);; mret o
               | None =>
                   new ← createStringObjectFromLongLong P value;
                   (match o with Some _ => dbOverwrite d key new | None => dbAdd d key new end);;
                   mret new
               end);
        signal d key;;
        notify "incrby" d key;;
        dirty 1;;
        addReplyString c (bytes_of ":");;
        addReply P c new;;
        addReplyString c crlf
  end.
Definition incrCommand (c : Z) : M unit := incrDecrCommand c 1.
Definition decrCommand (c : Z) : M unit := incrDecrCommand c (-1).
Definition incrbyCommand (c : Z) : M unit :=
  a ← argv c 2; r ← getLongLongFromObjectOrReply c (Some a) None;
  match r with None => mret tt | Some incr => incrDecrCommand c incr end.
(** [-incr] is undefined for the least [long long]. *)
Definition decrbyCommand (c : Z) : M unit :=
  a ← argv c 2; r ← getLongLongFromObjectOrReply c (Some a) None;
  match r with
  | None => mret tt
  | Some incr => n ← opt (ll_ok (- incr)); incrDecrCommand c n
  end.

Definition appendCommand (c : Z) : M unit :=
  d ← cdb c; key ← argv c 1;
  o ← lookupKeyWrite d key;
  r ← (match o with
       | None =>
           val ← encode_arg P c 2;
           dbAdd d key val;; incrRefCount val;;
           n ← stringObjectLen P val; mret (Some n)
       | Some o =>
           bad ← checkType c o REDIS_STRING;
           if (bad : bool) then mret None
           else
             append ← argv c 2; t ← str append;
             olen ← stringObjectLen P o;
             ok ← checkStringLength c (s64 (olen +[64] zlen t));
             if negb ok then mret None
             else
               o ← dbUnshareStringValue P d key o;
               e ← sds_of o;
               e ← opt (sdscatlen (junk P) e t (zlen t));
               set_ptr o (PSds e);; mret (Some (sds_len e))
       end);
  match r with
  | None => mret tt
  | Some totlen =>
      signal d key;;
      notify "append" d key;;
      dirty 1;;
      addReplyLongLong P c totlen
  end.

Definition strlenCommand (c : Z) : M unit :=
  d ← cdb c; key ← argv c 1;
  o ← lookupKeyReadOrReply c d key shared_czero;
  match o with
  | None => mret tt
  | Some o =>
      bad ← checkType c o REDIS_STRING;
      if (bad : bool) then mret tt
      else n ← stringObjectLen P o; addReplyLongLong P c n
  end.
End StringCommands.
