(* ===== verification/StringSpec.v ===== *)
(** The string commands, specified on the abstract server: keys hold byte
    strings or values of other types, and there are no encodings, reference
    counts or buffers.  [None]: the C code has undefined behaviour (a signed
    overflow) or asks for more memory than there is.

    The commands of [StringCmd] implement it ([StringProofs]). *)
From stdpp Require Import gmap list strings.
From S2P Require Import Prelude Util Sds SdsText Object Server Keyspace ServerRep ServerOps KeyspaceSpec StringCmd.
Local Open Scope c_scope.

Definition tell (c : Z) (bs : bytes) (a : state aval) : state aval := upd_client c (say bs) a.
Definition tell_int (c n : Z) (a : state aval) : state aval := tell c (with_prefix 58 n) a.
Definition tell_error (c : Z) (msg : string) (a : state aval) : state aval :=
  tell c (error_text (bytes_of msg)) a.
Definition noted (type : string) (d : Z) (k : bytes) (a : state aval) : state aval :=
  add_event (Notified type k d) a.

(** A successful change of [k]: watchers, notification, the dirty count. *)
Definition changed (type : string) (d : Z) (k : bytes) (a : state aval) : state aval :=
  add_dirty 1 (noted type d k (signalModifiedKey d k a)).

Definition not_an_integer : string := "value is not an integer or out of range".
(** The integer an argument is. *)
Definition num (bs : bytes) : option Z := atoll (until_zero bs).

(** The time to live an argument asks for, or an error. *)
Definition ttl_ms (name : bytes) (expire : option bytes) (seconds : bool)
    : option (bytes + option Z) :=
  match expire with
  | None => Some (inr None)
  | Some e =>
      match num e with
      | None => Some (inl (error_text (bytes_of not_an_integer)))
      | Some ms =>
          if ms <=? 0 then
            Some (inl (error_text ((fun b => if (b =? 13) || (b =? 10) then 32 else b) <$>
              (bytes_of "invalid expire time in " ++ name))))
          else if seconds then ms ← ll_ok (ms * 1000); Some (inr (Some ms))
          else Some (inr (Some ms))
      end
  end.

Definition spec_set (c d flags : Z) (k v name : bytes) (expire : option bytes) (seconds : bool)
    (ok abort : bytes) (a : state aval) : option (state aval) :=
  r ← ttl_ms name expire seconds;
  match r with
  | inl err => Some (tell c err a)
  | inr ms =>
      let nx := negb (flags .& REDIS_SET_NX =? 0) in
      let xx := negb (flags .& REDIS_SET_XX =? 0) in
      let a := if nx || xx then a_expire d k a else a in
      let present := bool_decide (is_Some (a_get d k a)) in
      if (nx && present) || (xx && negb present) then Some (tell c abort a)
      else
        let a := add_dirty 1 (a_setKey d k (AStr v) a) in
        a ← match ms with
            | Some ms => t ← ll_ok (s_now a + ms); Some (a_set_deadline d k t a)
            | None => Some a
            end;
        let a := noted "set" d k a in
        let a := match ms with Some _ => noted "expire" d k a | None => a end in
        Some (tell c ok a)
  end.

(** An option: two letters in any case, up to a NUL byte. *)
Definition is_option (bs : bytes) (l1 u1 l2 u2 : Z) : bool :=
  match until_zero bs with
  | [x; y] => ((x =? l1) || (x =? u1)) && ((y =? l2) || (y =? u2))
  | _ => false
  end.

Fixpoint options (args : list bytes) (flags : Z) (seconds : bool) (expire : option bytes)
    : option (Z * bool * option bytes) :=
  match args with
  | [] => Some (flags, seconds, expire)
  | x :: rest =>
      if is_option x 110 78 120 88 then options rest (flags .| REDIS_SET_NX) seconds expire
      else if is_option x 120 88 120 88 then options rest (flags .| REDIS_SET_XX) seconds expire
      else match rest with
           | next :: rest' =>
               if is_option x 101 69 120 88 then options rest' flags true (Some next)
               else if is_option x 112 80 120 88 then options rest' flags false (Some next)
               else None
           | [] => None
           end
  end.

(** GET; the flag tells that the type was right. *)
Definition spec_get (c d : Z) (k : bytes) (a : state aval) : state aval * bool :=
  let a := a_expire d k a in
  match a_get d k a with
  | None => (tell c shared_nullbulk a, true)
  | Some (AStr bs) => (tell c (bulk_text bs) a, true)
  | Some (AOther _) => (tell c shared_wrongtypeerr a, false)
  end.

Definition spec_getset (c d : Z) (k v : bytes) (a : state aval) : state aval :=
  let '(a, ok) := spec_get c d k a in
  if ok then add_dirty 1 (noted "set" d k (a_setKey d k (AStr v) a)) else a.

(** [v] written over [old] at [offset], with zeros in a gap. *)
Definition overwrite (old v : bytes) (offset : Z) : bytes :=
  let n := Z.to_nat offset in
  take n old ++ replicate (n - length old) 0 ++ v ++ drop (n + length v) old.

Definition too_long : string := "string exceeds maximum allowed size (512MB)".

Definition spec_setrange (c d : Z) (k off v : bytes) (a : state aval) : option (state aval) :=
  match num off with
  | None => Some (tell_error c not_an_integer a)
  | Some offset =>
      if offset <? 0 then Some (tell_error c "offset is out of range" a)
      else if 2 ^ 63 <=? offset + zlen v then None
      else
        let a := a_expire d k a in
        let write old :=
          if max_string <? offset + zlen v then tell_error c too_long a
          else
            let new := overwrite old v offset in
            tell_int c (zlen new) (changed "setrange" d k (a_set d k (AStr new) a)) in
        match a_get d k a with
        | Some (AOther _) => Some (tell c shared_wrongtypeerr a)
        | Some (AStr old) => Some (if zlen v =? 0 then tell_int c (zlen old) a else write old)
        | None => Some (if zlen v =? 0 then tell_int c 0 a else write [])
        end
  end.

(** The bytes from [start] to [last], counted from the end if negative. *)
Definition substring (bs : bytes) (start last : Z) : bytes :=
  let n := zlen bs in
  let start := Z.max 0 (if start <? 0 then n + start else start) in
  let last := Z.min (n - 1) (Z.max 0 (if last <? 0 then n + last else last)) in
  if last <? start then [] else take (Z.to_nat (last - start + 1)) (drop (Z.to_nat start) bs).

Definition spec_getrange (c d : Z) (k first last : bytes) (a : state aval) : state aval :=
  match num first with None => tell_error c not_an_integer a | Some start =>
  match num last with None => tell_error c not_an_integer a | Some last =>
  let a := a_expire d k a in
  match a_get d k a with
  | None => tell c shared_emptybulk a
  | Some (AOther _) => tell c shared_wrongtypeerr a
  | Some (AStr bs) => tell c (bulk_text (substring bs start last)) a
  end end end.

Definition spec_mget_one (c d : Z) (a : state aval) (k : bytes) : state aval :=
  let a := a_expire d k a in
  match a_get d k a with
  | Some (AStr bs) => tell c (bulk_text bs) a
  | _ => tell c shared_nullbulk a
  end.
Definition spec_mget (c d : Z) (keys : list bytes) (a : state aval) : state aval :=
  fold_left (spec_mget_one c d) keys (tell c (with_prefix 42 (zlen keys)) a).

(** The keys and values of MSET, two by two. *)
Fixpoint pairs (l : list bytes) : option (list (bytes * bytes)) :=
  match l with
  | [] => Some []
  | k :: v :: l => ps ← pairs l; Some ((k, v) :: ps)
  | [_] => None
  end.
Definition mset_one (d : Z) (a : state aval) (kv : bytes * bytes) : state aval :=
  noted "set" d kv.1 (a_setKey d kv.1 (AStr kv.2) a).
Definition spec_mset (c d : Z) (nx : bool) (args : list bytes) (a : state aval) : state aval :=
  match pairs args with
  | None => tell_error c "wrong number of arguments for MSET" a
  | Some ps =>
      let a := if nx then fold_left (fun a kv => a_expire d kv.1 a) ps a else a in
      if nx && existsb (fun kv => bool_decide (is_Some (a_get d kv.1 a))) ps
      then tell c shared_czero a
      else tell c (if nx then shared_cone else shared_ok_reply)
             (add_dirty (zlen ps) (fold_left (mset_one d) ps a))
  end.

Definition spec_incr (c d : Z) (k : bytes) (incr : Z) (a : state aval) : state aval :=
  let a := a_expire d k a in
  match a_get d k a with
  | Some (AOther _) => tell c shared_wrongtypeerr a
  | cur =>
      match num (match cur with Some (AStr bs) => bs | _ => [] end) with
      | None => tell_error c not_an_integer a
      | Some old =>
          if decide (in_s 64 (old + incr)) then
            tell_int c (old + incr) (changed "incrby" d k (a_set d k (AStr (sdec (old + incr))) a))
          else tell_error c "increment or decrement would overflow" a
      end
  end.

Definition spec_incrby (c d : Z) (k n : bytes) (sign : Z) (a : state aval) : option (state aval) :=
  match num n with
  | None => Some (tell_error c not_an_integer a)
  | Some n => n ← ll_ok (sign * n); Some (spec_incr c d k n a)
  end.

Definition spec_append (c d : Z) (k v : bytes) (a : state aval) : state aval :=
  let a := a_expire d k a in
  match a_get d k a with
  | Some (AOther _) => tell c shared_wrongtypeerr a
  | None => tell_int c (zlen v) (changed "append" d k (a_set d k (AStr v) a))
  | Some (AStr old) =>
      if max_string <? zlen (old ++ v) then tell_error c too_long a
      else tell_int c (zlen (old ++ v)) (changed "append" d k (a_set d k (AStr (old ++ v)) a))
  end.

Definition spec_strlen (c d : Z) (k : bytes) (a : state aval) : state aval :=
  let a := a_expire d k a in
  match a_get d k a with
  | None => tell_int c 0 a
  | Some (AStr bs) => tell_int c (zlen bs) a
  | Some (AOther _) => tell c shared_wrongtypeerr a
  end.

(** The command with its arguments, the name first. *)
Definition spec_string (p : proc) (c d : Z) (name : bytes) (args : list bytes) (a : state aval)
    : option (state aval) :=
  match p, args with
  | P_set, _ :: k :: v :: opts =>
      match options opts 0 true None with
      | None => Some (tell c shared_syntaxerr a)
      | Some (flags, seconds, expire) =>
          spec_set c d flags k v name expire seconds shared_ok_reply shared_nullbulk a
      end
  | P_setnx, [_; k; v] => spec_set c d REDIS_SET_NX k v name None true shared_cone shared_czero a
  | P_setex, [_; k; e; v] => spec_set c d 0 k v name (Some e) true shared_ok_reply shared_nullbulk a
  | P_psetex, [_; k; e; v] => spec_set c d 0 k v name (Some e) false shared_ok_reply shared_nullbulk a
  | P_get, [_; k] => Some (spec_get c d k a).1
  | P_getset, [_; k; v] => Some (spec_getset c d k v a)
  | P_setrange, [_; k; off; v] => spec_setrange c d k off v a
  | P_getrange, [_; k; first; last] => Some (spec_getrange c d k first last a)
  | P_mget, _ :: keys => Some (spec_mget c d keys a)
  | P_mset, _ :: kvs => Some (spec_mset c d false kvs a)
  | P_msetnx, _ :: kvs => Some (spec_mset c d true kvs a)
  | P_incr, [_; k] => Some (spec_incr c d k 1 a)
  | P_decr, [_; k] => Some (spec_incr c d k (-1) a)
  | P_incrby, [_; k; n] => spec_incrby c d k n 1 a
  | P_decrby, [_; k; n] => spec_incrby c d k n (-1) a
  | P_append, [_; k; v] => Some (spec_append c d k v a)
  | P_strlen, [_; k] => Some (spec_strlen c d k a)
  | _, _ => None
  end.

(** The procedures of the command table. *)
Definition run_string (P : platform) (p : proc) (c : Z) : M unit :=
  match p with
  | P_set => setCommand P c | P_setnx => setnxCommand P c
  | P_setex => setexCommand P c | P_psetex => psetexCommand P c
  | P_get => getCommand P c | P_getset => getsetCommand P c
  | P_setrange => setrangeCommand P c | P_getrange => getrangeCommand P c
  | P_mget => mgetCommand P c | P_mset => msetCommand P c | P_msetnx => msetnxCommand P c
  | P_incr => incrCommand P c | P_decr => decrCommand P c
  | P_incrby => incrbyCommand P c | P_decrby => decrbyCommand P c
  | P_append => appendCommand P c | P_strlen => strlenCommand P c
  | _ => fail
  end.
