(* ===== verification/StringProofs.v ===== *)
(** The string commands implement their specification and keep the server's
    invariant: [StringCmd] against [StringSpec]. *)
From Stdlib Require Import Wf_nat.
From stdpp Require Import gmap list strings.
From S2P Require Import Prelude Util Sds SdsText Object Server Keyspace ServerRep ServerOps KeyspaceSpec StringCmd StringSpec.
Local Open Scope c_scope.

(** ** The number of databases *)

Lemma db_the {V} (a : state V) d : 0 <= d < zlen (s_dbs a) ->
  db_at a d = Some (default (mkDb ∅ ∅ ∅) (db_at a d)).
Proof. intros [x Hx]%db_at_range. by rewrite Hx. Qed.

Lemma dbnum_upd_client {V} c f (a : state V) : s_dbs (upd_client c f a) = s_dbs a.
Proof. done. Qed.
Lemma dbnum_tell c bs a : s_dbs (tell c bs a) = s_dbs a.
Proof. done. Qed.
Lemma dbnum_event {V} e (a : state V) : s_dbs (add_event e a) = s_dbs a.
Proof. done. Qed.
Lemma dbnum_noted t d k a : s_dbs (noted t d k a) = s_dbs a.
Proof. done. Qed.
Lemma dbnum_dirty {V} n (a : state V) : s_dbs (add_dirty n a) = s_dbs a.
Proof. done. Qed.
Lemma dbnum_touch {V} d k (a : state V) : s_dbs (signalModifiedKey d k a) = s_dbs a.
Proof.
  unfold signalModifiedKey, touchWatchedKey. destruct (db_at a d); [|done]. case_bool_decide; [done|].
  destruct (_ !! k) as [cs|]; [|done]. unfold touch_clients. revert a.
  induction cs as [|c cs IH]; intros a; [done|]. simpl. by rewrite IH.
Qed.
Lemma dbnum_set d k v a : zlen (s_dbs (a_set d k v a)) = zlen (s_dbs a).
Proof. apply zlen_upd_db. Qed.
Lemma dbnum_del d k a : zlen (s_dbs (a_del d k a)) = zlen (s_dbs a).
Proof. apply zlen_upd_db. Qed.
Lemma dbnum_persist d k a : zlen (s_dbs (a_persist d k a)) = zlen (s_dbs a).
Proof. apply zlen_upd_db. Qed.
Lemma dbnum_deadline d k t a : zlen (s_dbs (a_set_deadline d k t a)) = zlen (s_dbs a).
Proof. apply zlen_upd_db. Qed.
Lemma dbnum_expire d k a : zlen (s_dbs (a_expire d k a)) = zlen (s_dbs a).
Proof. unfold a_expire. destruct (due d k a); [|done]. by rewrite dbnum_del. Qed.
Lemma dbnum_setKey d k v a : zlen (s_dbs (a_setKey d k v a)) = zlen (s_dbs a).
Proof. unfold a_setKey. by rewrite dbnum_touch, dbnum_persist, dbnum_set, dbnum_expire. Qed.
Lemma dbnum_changed t d k a : s_dbs (changed t d k a) = s_dbs a.
Proof. unfold changed. by rewrite dbnum_dirty, dbnum_noted, dbnum_touch. Qed.

Create Rewrite HintDb dbnum.
#[export] Hint Rewrite @dbnum_upd_client dbnum_tell @dbnum_event dbnum_noted @dbnum_dirty @dbnum_touch
  dbnum_set dbnum_del dbnum_persist dbnum_deadline dbnum_expire dbnum_setKey dbnum_changed : dbnum.

(** The selected database is there, whatever happened to it. *)
Ltac hasdb := apply db_the; autorewrite with dbnum; assumption.
(** Membership in an explicit list of arguments. *)
Ltac inK := repeat (first [by left | right]).

(** ** Expiry is idempotent, and leaves the clients *)

Lemma due_expire d k a : 0 <= d < zlen (s_dbs a) -> due d k (a_expire d k a) = false.
Proof.
  intros Hd. unfold a_expire. destruct (due d k a) eqn:E; [|done].
  unfold due, a_deadline, a_del. erewrite db_at_upd by (apply db_the; exact Hd).
  rewrite decide_True by done. cbn. by rewrite lookup_delete_eq.
Qed.
Lemma expire_idem d k a : 0 <= d < zlen (s_dbs a) -> a_expire d k (a_expire d k a) = a_expire d k a.
Proof. intros Hd. unfold a_expire at 1. by rewrite due_expire. Qed.

Lemma upd_db_fun {V} d f g (s : state V) : (forall x, f x = g x) -> upd_db d f s = upd_db d g s.
Proof.
  intros E. unfold upd_db. f_equal. apply list_eq. intros i.
  destruct (decide (Z.to_nat d = i)) as [<-|]; [|by rewrite !list_lookup_alter_ne].
  rewrite !list_lookup_alter_eq. destruct (s_dbs s !! _); cbn; [by rewrite E|done].
Qed.
Lemma a_set_set d k v w a : a_set d k v (a_set d k w a) = a_set d k v a.
Proof.
  unfold a_set. rewrite upd_db_twice. apply upd_db_fun. intros []. unfold set_dict. cbn.
  by rewrite insert_insert_eq.
Qed.

(** The database the client has selected and the command it runs. *)
Definition who (c : Z) (a : state aval) : option (Z * option redisCommand) :=
  (fun cl => (c_db cl, c_cmd cl)) <$> s_clients a !! c.
Definition selected (c d : Z) (a : state aval) : Prop := fst <$> who c a = Some d.

Lemma who_client c c' f a : (forall cl, c_db (f cl) = c_db cl /\ c_cmd (f cl) = c_cmd cl) ->
  who c (upd_client c' f a) = who c a.
Proof.
  intros Hf. unfold who. cbn. destruct (decide (c' = c)) as [->|]; [|by rewrite lookup_alter_ne].
  rewrite lookup_alter_eq. destruct (s_clients a !! c) as [cl|]; [|done]. cbn.
  by destruct (Hf cl) as [-> ->].
Qed.
Lemma who_tell c c' bs a : who c (tell c' bs a) = who c a.
Proof. apply who_client. by_say. Qed.
Lemma who_expire c d k a : who c (a_expire d k a) = who c a.
Proof. unfold who. by rewrite expire_clients. Qed.
Lemma who_touch c d k (a : state aval) : who c (signalModifiedKey d k a) = who c a.
Proof.
  unfold signalModifiedKey, touchWatchedKey. destruct (db_at a d); [|done]. case_bool_decide; [done|].
  destruct (_ !! k) as [cs|]; [|done]. unfold touch_clients. revert a.
  induction cs as [|c' cs IH]; intros a; [done|]. simpl. by rewrite IH, who_client.
Qed.
Lemma who_setKey c d k v a : who c (a_setKey d k v a) = who c a.
Proof.
  unfold a_setKey. rewrite who_touch. change (who c (a_expire d k a) = who c a). apply who_expire.
Qed.
Lemma who_noted c t d k a : who c (noted t d k a) = who c a.
Proof. done. Qed.
#[export] Hint Rewrite who_tell who_expire who_touch who_setKey who_noted : dbnum.

(** ** Reading what was written *)

Lemma a_get_dbs d k a a' : s_dbs a = s_dbs a' -> a_get d k a = a_get d k a'.
Proof. intros E. unfold a_get, db_at. by rewrite E. Qed.
Lemma a_get_persist d k a : 0 <= d < zlen (s_dbs a) -> a_get d k (a_persist d k a) = a_get d k a.
Proof.
  intros [x Hx]%db_at_range. unfold a_get, a_persist. by rewrite (db_at_upd d d _ a x Hx), decide_True, Hx.
Qed.
Lemma a_get_written d k v a : 0 <= d < zlen (s_dbs a) -> a_get d k (a_set d k v a) = Some v.
Proof. intros Hd. eapply a_get_set. by apply db_the. Qed.
Lemma a_get_setKey d k v a : 0 <= d < zlen (s_dbs a) -> a_get d k (a_setKey d k v a) = Some v.
Proof.
  intros Hd. unfold a_setKey. rewrite (a_get_dbs d k _ _ (dbnum_touch d k _)).
  rewrite a_get_persist by (autorewrite with dbnum; done). apply a_get_written. by autorewrite with dbnum.
Qed.

Section Proofs.
Context (P : platform) {HP : PlatformOk P} (c d : Z).
Implicit Types (s : server) (a : state aval) (L : list Z) (F : list (Z * aval)) (K : list (Z * bytes)).

Lemma wp_seldb s L F K a (Q : Z -> server -> Prop) :
  At P s c L F K a -> selected c d a -> Q d s -> wp (cdb c) s Q.
Proof.
  unfold selected, who. intros H Hs HQ. destruct (s_clients a !! c) as [cl|] eqn:Hc; [|done].
  cbn in Hs. injection Hs as <-. eapply wp_cdb; [exact H|exact Hc|done].
Qed.

Lemma wp_tell s L F K a bs (Q : unit -> server -> Prop) :
  At P s c L F K a ->
  (forall s', At P s' c L F K (tell c bs a) -> s'.1 = s.1 -> s_dbs s'.2 = s_dbs s.2 -> Q tt s') ->
  wp (addReplyString c bs) s Q.
Proof. apply addReplyString_says. Qed.

Lemma wp_tell_int s L F K a n (Q : unit -> server -> Prop) :
  At P s c L F K a -> in_s 64 n ->
  (forall s', At P s' c L F K (tell_int c n a) -> Q tt s') -> wp (addReplyLongLong P c n) s Q.
Proof.
  intros H Hn HQ. apply (addReplyLongLong_says P c n s Hn L F K a Q H). intros s' H' _ _. by apply HQ.
Qed.

Lemma wp_tell_error s L F K a msg (Q : unit -> server -> Prop) :
  At P s c L F K a -> (forall s', At P s' c L F K (tell_error c msg a) -> Q tt s') ->
  wp (addReplyError c (bytes_of msg)) s Q.
Proof. intros H HQ. apply (addReplyError_says P c _ s L F K a Q H). intros s' H' _ _. by apply HQ. Qed.

Lemma wp_tell_bulk s L F K a o ob bs (Q : unit -> server -> Prop) :
  At P s c L F K a -> s.1 !! o = Some ob -> string_rep ob bs -> zlen bs <= max_string ->
  (forall s', At P s' c L F K (tell c (bulk_text bs) a) -> Q tt s') -> wp (addReplyBulk P c o) s Q.
Proof.
  intros H Ho Hr Hl HQ. apply (addReplyBulk_says P c o ob bs s Ho Hr Hl L F K a Q H).
  intros s' H' _ _. by apply HQ.
Qed.

(** The object found under a key, by its value. *)
Lemma found_string s L F K a k o ob bs : At P s c L F K a -> lives s d k o ->
  s.1 !! o = Some ob -> abs_obj P ob = AStr bs ->
  o_type ob = REDIS_STRING /\ string_rep ob bs /\ zlen bs <= max_string.
Proof.
  intros H Hl Ho Hv. destruct (held_value P s F.*1 o (at_wf _ _ _ _ _ _ _ H)) as (ob' & Ho' & _ & _ & Hc).
  { by apply held_root, (lives_root s d k). }
  rewrite Ho in Ho'. injection Ho' as <-. destruct Hc as [(bs' & Ha & Hr & Hb)|(Ha & _)]; [|congruence].
  rewrite Hv in Ha. injection Ha as ->. split; [apply Hr|done].
Qed.
Lemma found_other ob t : abs_obj P ob = AOther t -> o_type ob = t /\ t <> REDIS_STRING.
Proof.
  unfold abs_obj, is_string. case_bool_decide as E; [done|]. intros [= <-]. done.
Qed.

(** ** GET *)

Lemma wp_getGeneric s L F K a key k (Q : Z -> server -> Prop) :
  At P s c L F K a -> selected c d a -> 0 <= d < zlen (s_dbs a) -> znth L 1 = Some key -> (key, k) ∈ K ->
  (forall s', At P s' c L F K (spec_get c d k a).1 ->
     Q (if (spec_get c d k a).2 then REDIS_OK else REDIS_ERR) s') ->
  wp (getGenericCommand P c) s Q.
Proof.
  intros H Hsel Hd HL Hin HQ. unfold spec_get in HQ.
  apply wp_bind. eapply wp_seldb; [exact H|done|]. apply wp_bind. eapply wp_argv; [exact H|exact HL|].
  apply wp_bind, wp_bind. eapply wp_lookupKeyRead; [exact H|exact Hin|hasdb| |].
  - intros Hn s1 H1. rewrite Hn in HQ. apply wp_bind. eapply wp_tell; [exact H1|].
    intros s2 H2 _ _. apply wp_ret, wp_ret. by apply HQ.
  - intros o ob v s1 Hv H1 Ho Hob Hl. rewrite Hv in HQ. apply wp_ret.
    apply wp_bind, (wp_obj _ ob); [done|]. destruct v as [bs|t].
    + destruct (found_string s1 L F K _ k o ob bs H1 Hl Ho Hob) as (Ht & Hr & Hb).
      rewrite bool_decide_true by done. cbn [negb]. apply wp_bind.
      eapply wp_tell_bulk; [exact H1|exact Ho|exact Hr|exact Hb|]. intros s2 H2. apply wp_ret. by apply HQ.
    + destruct (found_other ob t Hob) as [<- Ht]. rewrite bool_decide_false by done. cbn [negb].
      apply wp_bind. eapply wp_tell; [exact H1|]. intros s2 H2 _ _. apply wp_ret. by apply HQ.
Qed.

(** ** SET and its variants *)

Lemma wp_abort s L F K a flags key k (Q : bool -> server -> Prop) :
  At P s c L F K a -> 0 <= d < zlen (s_dbs a) -> (key, k) ∈ K ->
  (let nx := negb (flags .& REDIS_SET_NX =? 0) in
   let xx := negb (flags .& REDIS_SET_XX =? 0) in
   let a := if nx || xx then a_expire d k a else a in
   let present := bool_decide (is_Some (a_get d k a)) in
   forall s', At P s' c L F K a -> Q ((nx && present) || (xx && negb present)) s') ->
  wp (nx ← (if negb (flags .& REDIS_SET_NX =? 0) then
              o ← lookupKeyWrite d key; mret (bool_decide (is_Some o))
            else mret false);
      if (nx : bool) then mret true
      else if negb (flags .& REDIS_SET_XX =? 0) then
        o ← lookupKeyWrite d key; mret (bool_decide (o = None))
      else mret false) s Q.
Proof.
  intros H Hd Hin HQ. cbv zeta in HQ. revert HQ.
  destruct (negb (flags .& REDIS_SET_NX =? 0)), (negb (flags .& REDIS_SET_XX =? 0)); cbn [orb andb]; intros HQ.
  - apply wp_bind, wp_bind. eapply wp_lookupKeyWrite; [exact H|exact Hin|hasdb| |].
    + intros Hn s1 H1. rewrite Hn in HQ. apply wp_ret. cbn [bool_decide]. apply wp_bind.
      eapply wp_lookupKeyWrite; [exact H1|exact Hin|hasdb| |].
      * intros _ s2 H2. apply wp_ret. rewrite expire_idem in H2 by done. by apply HQ.
      * intros o ob v s2 Hv. rewrite expire_idem in Hv by done. congruence.
    + intros o ob v s1 Hv H1 _ _ _. rewrite Hv in HQ. apply wp_ret, wp_ret. by apply HQ.
  - apply wp_bind, wp_bind. eapply wp_lookupKeyWrite; [exact H|exact Hin|hasdb| |].
    + intros Hn s1 H1. rewrite Hn in HQ. apply wp_ret, wp_ret. by apply HQ.
    + intros o ob v s1 Hv H1 _ _ _. rewrite Hv in HQ. apply wp_ret, wp_ret. by apply HQ.
  - apply wp_bind, wp_ret, wp_bind. eapply wp_lookupKeyWrite; [exact H|exact Hin|hasdb| |].
    + intros Hn s1 H1. rewrite Hn in HQ. apply wp_ret. by apply HQ.
    + intros o ob v s1 Hv H1 _ _ _. rewrite Hv in HQ. apply wp_ret. by apply HQ.
  - apply wp_bind, wp_ret, wp_ret. by apply HQ.
Qed.

(** The argument that gives a time to live. *)
Definition ttl_arg (K : list (Z * bytes)) (expire : option Z) (e : option bytes) : Prop :=
  match expire, e with
  | None, None => True
  | Some x, Some bs => (x, bs) ∈ K
  | _, _ => False
  end.

Lemma wp_ttl s L F K a expire e seconds cl cmd r (Q : option Z -> server -> Prop) :
  At P s c L F K a -> ttl_arg K expire e -> s_clients s.2 !! c = Some cl -> c_cmd cl = Some cmd ->
  ttl_ms (cmd_name cmd) e seconds = Some r ->
  match r with
  | inl err => forall s', At P s' c L F K (tell c err a) -> Q None s'
  | inr ms => (ms = None <-> expire = None) -> Q (Some (default 0 ms)) s
  end ->
  wp (match expire with
      | None => mret (Some 0)
      | Some e =>
          r ← getLongLongFromObjectOrReply c (Some e) None;
          match r with
          | None => mret None
          | Some ms =>
              if ms <=? 0 then
                name ← opt (c_cmd cl);
                addReplyErrorFormat c (bytes_of "invalid expire time in " ++ cmd_name name);;
                mret None
              else if seconds then ms ← opt (ll_ok (ms * 1000)); mret (Some ms)
              else mret (Some ms)
          end
      end) s Q.
Proof.
  intros H Harg Hc Hcmd Hr HQ. unfold ttl_ms in Hr. destruct expire as [x|], e as [bs|]; try done.
  2: { injection Hr as <-. by apply wp_ret, HQ. }
  destruct (key_rep P s c L F K a x bs H Harg) as (ob & Ho & Hrep & _).
  apply wp_bind. eapply wp_getLongLongOr; [exact H|exact Ho|exact Hrep| |].
  - intros v Hv Hin. unfold num in Hr. rewrite Hv in Hr.
    destruct (v <=? 0) eqn:E.
    + injection Hr as <-. apply wp_bind, (wp_opt _ cmd); [done|]. apply wp_bind.
      apply (addReplyError_says P c _ s L F K a); [done|]. intros s' H' _ _. apply wp_ret. by apply HQ.
    + destruct seconds.
      * destruct (ll_ok (v * 1000)) as [ms|] eqn:Em; [|done]. injection Hr as <-.
        apply wp_bind, (wp_opt _ ms); [done|]. apply wp_ret. by apply HQ.
      * injection Hr as <-. apply wp_ret. by apply HQ.
  - intros Hn s' H' _ _. unfold num in Hr. rewrite Hn in Hr. injection Hr as <-. apply wp_ret. by apply HQ.
Qed.

Lemma wp_setGeneric s L F K a flags key k val v expire e seconds ok abort cl cmd a' (Q : unit -> server -> Prop) :
  At P s c L F K a -> selected c d a -> 0 <= d < zlen (s_dbs a) -> (key, k) ∈ K ->
  val ∈ L -> abs_addr P s.1 val = AStr v -> room P a (zlen F + 1) ->
  ttl_arg K expire e -> s_clients s.2 !! c = Some cl -> c_cmd cl = Some cmd ->
  spec_set c d flags k v (cmd_name cmd) e seconds
    (default shared_ok_reply ok) (default shared_nullbulk abort) a = Some a' ->
  (forall s', At P s' c L F K a' -> Q tt s') ->
  wp (setGenericCommand c flags key val expire seconds ok abort) s Q.
Proof.
  intros H Hsel Hd Hin Hval Hv Hroom Harg Hc Hcmd Hspec HQ. unfold spec_set in Hspec.
  destruct (ttl_ms (cmd_name cmd) e seconds) as [r|] eqn:Er; [|done]. cbn [mbind option_bind] in Hspec.
  apply wp_bind. eapply wp_seldb; [exact H|done|]. apply wp_bind, (wp_client c cl); [done|].
  apply wp_bind. eapply wp_ttl; [exact H|exact Harg|exact Hc|exact Hcmd|exact Er|].
  destruct r as [err|ms].
  { injection Hspec as <-. intros s1 H1. apply wp_ret. by apply HQ. }
  intros Hms.
  apply wp_bind. eapply wp_abort; [exact H|done|exact Hin|].
  cbv zeta. cbv zeta in Hspec.
  set (nx := negb (flags .& REDIS_SET_NX =? 0)) in *. set (xx := negb (flags .& REDIS_SET_XX =? 0)) in *.
  set (a1 := if nx || xx then a_expire d k a else a) in *.
  assert (Hd1 : 0 <= d < zlen (s_dbs a1)) by (unfold a1; destruct (nx || xx); [by rewrite dbnum_expire|done]).
  assert (Hcl1 : s_clients a1 = s_clients a) by (unfold a1; destruct (nx || xx); [apply expire_clients|done]).
  assert (Hw1 : weight a1 <= weight a)
    by (unfold a1; destruct (nx || xx); [by eapply weight_expire, db_the|lia]).
  intros s1 H1. destruct ((nx && _) || (xx && _)) eqn:Eab.
  { injection Hspec as <-. eapply wp_tell; [exact H1|]. intros s2 H2 _ _. by apply HQ. }
  assert (Hv1 : abs_addr P s1.1 val = AStr v).
  { rewrite <- Hv. apply (arg_value P s s1 c L F F K K a a1); [done|done|by rewrite Hcl1|done]. }
  apply wp_bind. eapply wp_setKey; [exact H1|exact Hin|hasdb|exact Hval|exact Hv1| |].
  { by eapply room_le. }
  intros s2 H2. apply wp_bind. eapply wp_dirty; [exact H2|]. intros s3 H3 _ _.
  set (a3 := add_dirty 1 (a_setKey d k (AStr v) a1)) in *.
  assert (Hd3 : 0 <= d < zlen (s_dbs a3)) by (unfold a3; by autorewrite with dbnum).
  assert (Hg3 : a_get d k a3 = Some (AStr v)).
  { unfold a3. rewrite (a_get_dbs d k _ _ (dbnum_dirty 1 _)). by apply a_get_setKey. }
  destruct expire as [x|]; [destruct ms as [ms|]; [|discriminate (proj1 Hms eq_refl)]
                           |destruct ms as [ms|]; [discriminate (proj2 Hms eq_refl)|]];
    cbn [default bool_decide is_Some] in *.
  - destruct (ll_ok (s_now a3 + ms)) as [t|] eqn:Et; [|done]. injection Hspec as <-.
    apply wp_bind, wp_bind, wp_get. destruct (at_flags P s3 c L F K a3 H3) as (-> & _).
    apply wp_bind, (wp_opt _ t); [done|].
    eapply wp_setExpire; [exact H3|exact Hin|hasdb|by rewrite Hg3|]. intros s4 H4 _.
    apply wp_bind. eapply wp_notify; [exact H4|exact Hin|]. intros s5 H5 _ _.
    apply wp_bind. cbn [when]. eapply wp_notify; [exact H5|exact Hin|]. intros s6 H6 _ _.
    eapply wp_tell; [exact H6|]. intros s7 H7 _ _. by apply HQ.
  - injection Hspec as <-. apply wp_bind, wp_ret.
    apply wp_bind. eapply wp_notify; [exact H3|exact Hin|]. intros s5 H5 _ _.
    apply wp_bind, wp_ret. eapply wp_tell; [exact H5|]. intros s7 H7 _ _. by apply HQ.
Qed.

Lemma two_letters_spec e bs l1 u1 l2 u2 : rep e bs -> l1 <> 0 -> u1 <> 0 -> l2 <> 0 -> u2 <> 0 ->
  two_letters (sds_buf e) l1 u1 l2 u2 = Some (is_option bs l1 u1 l2 u2).
Proof.
  intros Hr H1 H2 H3 H4. destruct (rep_inv e bs Hr) as (tail & -> & _). cbn [sds_buf].
  unfold two_letters, is_option.
  destruct bs as [|x bs]; cbn [app until_zero].
  { rewrite znth_cons_0. step. by destruct (Z.eqb_spec 0 l1), (Z.eqb_spec 0 u1). }
  rewrite znth_cons_0. step. destruct (Z.eqb_spec x 0) as [->|Hx].
  { by destruct (Z.eqb_spec 0 l1), (Z.eqb_spec 0 u1). }
  change 1 with (1 + 0) at 1. change 2 with (1 + 1) at 1. rewrite !znth_cons_S by lia.
  destruct bs as [|y bs]; cbn [app until_zero].
  { rewrite znth_cons_0. step. destruct ((x =? l1) || (x =? u1)); [|done].
    by destruct (Z.eqb_spec 0 l2), (Z.eqb_spec 0 u2). }
  rewrite znth_cons_0. step. destruct (Z.eqb_spec y 0) as [->|Hy].
  { destruct ((x =? l1) || (x =? u1)); [|done]. by destruct (Z.eqb_spec 0 l2), (Z.eqb_spec 0 u2). }
  change 1 with (1 + 0) at 1. rewrite !znth_cons_S by lia.
  destruct bs as [|z bs]; cbn [app until_zero]; rewrite znth_cons_0; step.
  { by destruct ((x =? l1) || (x =? u1)), ((y =? l2) || (y =? u2)). }
  destruct (Z.eqb_spec z 0) as [->|Hz]; by destruct ((x =? l1) || (x =? u1)), ((y =? l2) || (y =? u2)).
Qed.

Lemma wp_arg_sds s L F K a x bs (Q : sds -> server -> Prop) :
  At P s c L F K a -> (x, bs) ∈ K -> (forall e, rep e bs -> Q e s) -> wp (sds_of x) s Q.
Proof.
  intros H Hin HQ. destruct (at_keys _ _ _ _ _ _ _ H x bs Hin) as [_ (ob & e & Ho & _ & He & Hp & Hr)].
  apply wp_bind, (wp_obj _ ob); [done|]. rewrite He. apply (wp_opt _ e); [unfold as_sds; by rewrite Hp|].
  by apply HQ.
Qed.

Lemma wp_set_options s L F K a xs bss flags seconds expire e
    (Q : option (Z * bool * option Z) -> server -> Prop) :
  At P s c L F K a -> Forall2 (fun x bs => (x, bs) ∈ K) xs bss -> ttl_arg K expire e ->
  match options bss flags seconds e with
  | None => Q None s
  | Some (fl, sec, e') => forall expire', ttl_arg K expire' e' -> Q (Some (fl, sec, expire')) s
  end ->
  wp (set_options xs flags seconds expire) s Q.
Proof.
  intros H. revert xs flags seconds expire e.
  induction bss as [bss IH] using (induction_ltof1 _ (@length bytes)).
  unfold ltof in IH. intros xs flags seconds expire e Hf Harg HQ.
  destruct Hf as [|x bs xs bss Hx Hf]; cbn [options set_options] in *.
  { apply wp_ret. by apply HQ. }
  apply wp_bind. eapply wp_arg_sds; [exact H|exact Hx|]. intros sd Hsd.
  apply wp_bind. eapply wp_opt; [by apply two_letters_spec|].
  destruct (is_option bs 110 78 120 88); [by apply (IH bss ltac:(simpl; lia) xs _ seconds expire e)|].
  apply wp_bind. eapply wp_opt; [by apply two_letters_spec|].
  destruct (is_option bs 120 88 120 88); [by apply (IH bss ltac:(simpl; lia) xs _ seconds expire e)|].
  apply wp_bind. eapply wp_opt; [by apply two_letters_spec|].
  apply wp_bind. eapply wp_opt; [by apply two_letters_spec|].
  destruct Hf as [|x' bs' xs bss Hx' Hf]; [by apply wp_ret|].
  destruct (is_option bs 101 69 120 88); [by apply (IH bss ltac:(simpl; lia) xs _ _ _ (Some bs'))|].
  destruct (is_option bs 112 80 120 88); [by apply (IH bss ltac:(simpl; lia) xs _ _ _ (Some bs'))|].
  by apply wp_ret.
Qed.

Lemma At_weaken s L F K K' a : (forall p, p ∈ K' -> p ∈ K) -> At P s c L F K a -> At P s c L F K' a.
Proof. intros Hsub [Hwf Habs Hargv Ht Hk]. split; [done..|]. intros o bs Hin. by apply Hk, Hsub. Qed.

End Proofs.

Section Meets.
Context (P : platform) {HP : PlatformOk P} (c d : Z) (F : list (Z * aval)).
Implicit Types (s : server) (a : state aval) (L : list Z) (K : list (Z * bytes)).

(** A command about to run, with its arguments; [F] are the caller's temporaries. *)
Record Ready (s : server) (L : list Z) (args : list bytes) (cmd : redisCommand) (a : state aval) : Prop := {
  r_at : At P s c L F (zip L args) a;
  r_len : length L = length args;
  r_nodup : NoDup L;
  r_max : Forall (fun bs => zlen bs <= max_string) args;
  r_who : who c a = Some (d, Some cmd);
  r_db : 0 <= d < zlen (s_dbs a);
  r_room : room P a (zlen F + zlen args + 2) }.

Lemma r_sel s L args cmd a : Ready s L args cmd a -> selected c d a.
Proof. intros H. unfold selected. by rewrite (r_who _ _ _ _ _ H). Qed.

Lemma cmd_of s L G K a cmd : At P s c L G K a -> who c a = Some (d, Some cmd) ->
  exists cl, s_clients s.2 !! c = Some cl /\ c_cmd cl = Some cmd.
Proof.
  intros H Hw. destruct (at_client P s c L G K a H) as (cl & Hc & _ & Ha).
  exists cl. split; [done|]. unfold who in Hw. rewrite Ha in Hw. cbn in Hw. congruence.
Qed.

(** The command goes on in a state no larger than the one it started in. *)
Lemma ready_next s s' L args cmd a a' :
  Ready s L args cmd a -> At P s' c L F (zip L args) a' -> who c a' = who c a ->
  zlen (s_dbs a') = zlen (s_dbs a) -> weight a' <= weight a -> Ready s' L args cmd a'.
Proof.
  intros [H Hlen Hnd Hmax Hwho Hd Hroom] H2 Hw Hz Hle.
  split; [done|done|done|done|by rewrite Hw|by rewrite Hz|by eapply room_le].
Qed.

(** What is left to know of the arguments once the one at [j] is encoded. *)
Lemma rest_of_args L (args : list bytes) j o : NoDup L -> length L = length args -> L !! j = Some o ->
  forall p, p ∈ delete j (zip L args) -> p ∈ zip L args /\ p.1 <> o.
Proof.
  intros Hnd Hlen Hj p Hp. rewrite list_elem_of_lookup in Hp. destruct Hp as [i Hi].
  assert (Hex : exists i', i' <> j /\ zip L args !! i' = Some p).
  { destruct (decide (i < j)%nat).
    - rewrite list_lookup_delete_lt in Hi by done. exists i. split; [lia|done].
    - rewrite list_lookup_delete_ge in Hi by lia. exists (S i). split; [lia|done]. }
  destruct Hex as (i' & Hne & Hi'). split; [by eapply list_elem_of_lookup_2|].
  intros E. apply Hne. destruct p as [q bs]. cbn in E. subst q.
  apply lookup_zip_Some in Hi' as [HL _]. by apply (NoDup_lookup L i' j o).
Qed.

Lemma wp_encode s L args cmd a j (Q : Z -> server -> Prop) o bs :
  Ready s L args cmd a -> znth L j = Some o -> args !! Z.to_nat j = Some bs ->
  (forall s' o', At P s' c (<[Z.to_nat j := o']> L) F (delete (Z.to_nat j) (zip L args)) a ->
     abs_addr P s'.1 o' = AStr bs -> o' ∈ <[Z.to_nat j := o']> L ->
     (exists cl, s_clients s'.2 !! c = Some cl /\ c_cmd cl = Some cmd) -> Q o' s') ->
  wp (encode_arg P c j) s Q.
Proof.
  intros [H Hlen Hnd Hmax Hwho Hd Hroom] Hj Hbs HQ.
  assert (HjL : L !! Z.to_nat j = Some o) by (unfold znth in Hj; by case_decide).
  eapply (wp_encode_arg P); [exact H|exact Hj| | | |by eapply rest_of_args|].
  - apply (list_elem_of_lookup_2 _ (Z.to_nat j)). apply lookup_zip_Some. split; [exact HjL|exact Hbs].
  - by apply (Forall_lookup_1 _ _ _ _ Hmax Hbs).
  - unfold room in *. pose proof (zlen_nonneg args). lia.
  - intros s' o' H' Hv _. apply HQ; [exact H'|done| |by eapply cmd_of].
    apply (list_elem_of_lookup_2 _ (Z.to_nat j)), list_lookup_insert_eq. by apply lookup_lt_Some in HjL.
Qed.

Lemma room1 s L args cmd a : Ready s L args cmd a -> room P a (zlen F + 1).
Proof.
  intros H. pose proof (r_room _ _ _ _ _ H). unfold room in *. pose proof (zlen_nonneg args). lia.
Qed.

(** A procedure meets its specification. *)
Definition meets (m : M unit) (args : list bytes) (spec : bytes -> state aval -> option (state aval)) : Prop :=
  forall s L cmd a a', Ready s L args cmd a -> spec (cmd_name cmd) a = Some a' ->
  wp m s (fun _ s' => exists L' K', At P s' c L' F K' a').

Lemma set_meets n k v opts : meets (setCommand P c) (n :: k :: v :: opts) (fun name a =>
  match options opts 0 true None with
  | None => Some (tell c shared_syntaxerr a)
  | Some (flags, seconds, expire) =>
      spec_set c d flags k v name expire seconds shared_ok_reply shared_nullbulk a
  end).
Proof.
  intros s L cmd a a' HR Hspec. pose proof (r_len _ _ _ _ _ HR) as Hl.
  destruct L as [|l0 [|l1 [|l2 lo]]]; [done..|]. injection Hl as Hl. pose proof (r_at _ _ _ _ _ HR) as H.
  destruct (at_argv _ _ _ _ _ _ _ H) as (cl & Hc & HL).
  apply wp_bind, (wp_client c cl); [done|]. rewrite HL. cbn [drop].
  apply wp_bind. eapply (wp_set_options P c s _ _ (delete 2%nat (zip (l0 :: l1 :: l2 :: lo) (n :: k :: v :: opts))) a
    lo opts 0 true None None); [|  |done|].
  - eapply At_weaken; [|exact H]. intros p Hp.
    by apply (rest_of_args (l0 :: l1 :: l2 :: lo) (n :: k :: v :: opts) 2%nat l2 (r_nodup _ _ _ _ _ HR) (r_len _ _ _ _ _ HR)).
  - apply Forall2_same_length_lookup_2; [done|]. intros i x bs Hx Hbs. cbn. right. right.
    apply (list_elem_of_lookup_2 _ i). by apply lookup_zip_Some.
  - destruct (options opts 0 true None) as [[[flags seconds] e]|].
    + intros expire Harg. apply wp_bind. eapply (wp_encode s _ _ cmd a 2); [exact HR|done|done|].
      intros s1 o1 H1 Hv1 Hin1 (cl1 & Hc1 & Hcmd1). apply wp_bind. eapply wp_argv; [exact H1|done|].
      eapply wp_setGeneric; [exact H1|by eapply r_sel|apply HR| |exact Hin1|exact Hv1|by eapply room1|exact Harg|exact Hc1|exact Hcmd1|exact Hspec|].
      * cbn. right. left.
      * intros s2 H2. by eexists _, _.
    + injection Hspec as <-. eapply wp_tell; [exact H|]. intros s1 H1 _ _. by eexists _, _.
Qed.

End Meets.

(** Openings of the proofs that a command meets its specification. *)
Ltac args_of H :=
  match goal with
  | Hl : length ?L = length (?x :: _) |- _ => destruct L as [|? L]; [done|]; injection Hl as Hl; args_of H
  | Hl : length ?L = S _ |- _ => destruct L as [|? L]; [done|]; injection Hl as Hl; args_of H
  | Hl : length ?L = length [] |- _ => destruct L; [clear Hl|done]
  | Hl : length ?L = 0%nat |- _ => destruct L; [clear Hl|done]
  | _ => idtac
  end.

Ltac start HR H :=
  intros s L cmd a a' HR Hspec; pose proof HR as [H Hl _ _ _ Hd _]; args_of Hl;
  assert (Hsel : selected _ _ a) by (eapply r_sel; exact HR).
