(* ===== verification/StringEdits.v ===== *)
(** The string commands that edit a value in place, and those on several keys:
    the rest of the proof that [StringCmd] implements [StringSpec], and the
    theorem. *)
From Stdlib Require Import Wf_nat.
From stdpp Require Import gmap list strings.
From S2P Require Import Prelude Util Sds SdsText Object Server Keyspace ServerRep ServerOps KeyspaceSpec StringCmd StringSpec StringProofs.
Local Open Scope c_scope.

(** ** The number of references *)

Lemma weight_client {V} c f (a : state V) : (forall cl, client_roots (f cl) = client_roots cl) ->
  weight (upd_client c f a) = weight a.
Proof.
  intros Hf. rewrite !weight_total. destruct (s_clients a !! c) as [cl|] eqn:E.
  - rewrite (total_upd_client _ a c cl f E), Hf. lia.
  - unfold upd_client. f_equal. unfold roots. cbn. do 2 f_equal. apply map_eq. intros i.
    destruct (decide (i = c)) as [->|]; [by rewrite lookup_alter_eq, E|by rewrite lookup_alter_ne].
Qed.
Lemma weight_tell c bs a : weight (tell c bs a) = weight a.
Proof. apply weight_client. by_say. Qed.
Lemma weight_touch d k (a : state aval) : weight (signalModifiedKey d k a) = weight a.
Proof.
  unfold signalModifiedKey, touchWatchedKey. destruct (db_at a d); [|done]. case_bool_decide; [done|].
  destruct (_ !! k) as [cs|]; [|done]. unfold touch_clients. revert a.
  induction cs as [|c cs IH]; intros a; [done|]. simpl. by rewrite IH, weight_client.
Qed.
Lemma weight_dbs d f (a : state aval) x : db_at a d = Some x ->
  weight (upd_db d f a) = weight a - zlen (dict_roots (db_dict x)) + zlen (dict_roots (db_dict (f x))).
Proof. intros Hx. rewrite !weight_total, (total_upd_db _ a d x f Hx), !total_one. done. Qed.
Lemma weight_set d k v a x : db_at a d = Some x -> weight (a_set d k v a) <= weight a + 1.
Proof.
  intros Hx. unfold a_set. rewrite (weight_dbs d _ a x Hx). cbn.
  rewrite <- (total_one (dict_roots (<[k := v]> (db_dict x)))), <- (total_one (dict_roots (db_dict x))).
  destruct (db_dict x !! k) as [old|] eqn:E.
  - rewrite (total_dict_replace _ _ _ old) by done. lia.
  - rewrite total_dict_insert by done. lia.
Qed.
Lemma weight_setKey d k v a : 0 <= d < zlen (s_dbs a) -> weight (a_setKey d k v a) <= weight a + 1.
Proof.
  intros Hd. unfold a_setKey. rewrite weight_touch. pose proof (weight_expire d k a _ (db_the a d Hd)).
  unfold a_persist. erewrite weight_dbs by (apply db_the; by autorewrite with dbnum). cbn.
  assert (0 <= d < zlen (s_dbs (a_expire d k a))) as Hd' by (by autorewrite with dbnum).
  pose proof (weight_set d k v (a_expire d k a) _ (db_the _ d Hd')). lia.
Qed.

Section Edits.
Context (P : platform) {HP : PlatformOk P} (c d : Z) (F : list (Z * aval)).
Implicit Types (s : server) (a : state aval) (L : list Z) (K : list (Z * bytes)).

Lemma setnx_meets n k v : meets P c d F (setnxCommand P c) [n; k; v] (fun name a =>
  spec_set c d REDIS_SET_NX k v name None true shared_cone shared_czero a).
Proof.
  start HR H. apply wp_bind. eapply (wp_encode P c d F s _ _ cmd a 2); [exact HR|done|done|].
  intros s1 o1 H1 Hv1 Hin1 (cl1 & Hc1 & Hcmd1). apply wp_bind. eapply wp_argv; [exact H1|done|].
  eapply wp_setGeneric; [exact H1|exact Hsel|exact Hd| |exact Hin1|exact Hv1|by eapply room1| |exact Hc1|exact Hcmd1|exact Hspec|].
  - cbn. inK.
  - done.
  - intros s2 H2. by eexists _, _.
Qed.

(** SETEX and PSETEX. *)
Lemma setex_meets seconds n k e v : meets P c d F
  (val ← encode_arg P c 3; key ← argv c 1; e ← argv c 2;
   setGenericCommand c REDIS_SET_NO_FLAGS key val (Some e) seconds None None) [n; k; e; v] (fun name a =>
  spec_set c d 0 k v name (Some e) seconds shared_ok_reply shared_nullbulk a).
Proof.
  start HR H. apply wp_bind. eapply (wp_encode P c d F s _ _ cmd a 3); [exact HR|done|done|].
  intros s1 o1 H1 Hv1 Hin1 (cl1 & Hc1 & Hcmd1). apply wp_bind. eapply wp_argv; [exact H1|done|].
  apply wp_bind. eapply wp_argv; [exact H1|done|].
  eapply wp_setGeneric; [exact H1|exact Hsel|exact Hd| |exact Hin1|exact Hv1|by eapply room1| |exact Hc1|exact Hcmd1|exact Hspec|].
  - cbn. inK.
  - cbn. inK.
  - intros s2 H2. by eexists _, _.
Qed.

Lemma get_meets n k : meets P c d F (getCommand P c) [n; k] (fun _ a => Some (spec_get c d k a).1).
Proof.
  start HR H. injection Hspec as <-. apply wp_bind.
  eapply (wp_getGeneric P); [exact H|exact Hsel|exact Hd|done| |].
  - cbn. inK.
  - intros s1 H1. apply wp_ret. by eexists _, _.
Qed.
Lemma spec_get_small k a : 0 <= d < zlen (s_dbs a) ->
  zlen (s_dbs (spec_get c d k a).1) = zlen (s_dbs a) /\ weight (spec_get c d k a).1 <= weight a /\
  who c (spec_get c d k a).1 = who c a.
Proof.
  intros Hd. unfold spec_get. pose proof (weight_expire d k a _ (db_the a d Hd)).
  destruct (a_get _ _ _) as [[]|]; cbn [fst]; autorewrite with dbnum; by rewrite weight_tell.
Qed.

Lemma getset_meets n k v : meets P c d F (getsetCommand P c) [n; k; v]
  (fun _ a => Some (spec_getset c d k v a)).
Proof.
  start HR H. injection Hspec as <-. apply wp_bind.
  eapply (wp_getGeneric P); [exact H|exact Hsel|exact Hd|done| |].
  { cbn. inK. }
  intros s1 H1. unfold spec_getset. destruct (spec_get_small k a Hd) as (Hz & Hle & Hw).
  destruct (spec_get c d k a) as [a1 ok]. cbn [fst snd] in *. destruct ok.
  2: { apply wp_ret. by eexists _, _. }
  pose proof (ready_next P c d F s s1 _ _ _ a a1 HR H1 Hw Hz Hle) as HR1.
  apply wp_bind. eapply wp_seldb; [exact H1|by eapply r_sel|].
  apply wp_bind. eapply (wp_encode P c d F s1 _ _ cmd a1 2); [exact HR1|done|done|].
  intros s2 o2 H2 Hv2 Hin2 _. apply wp_bind. eapply wp_argv; [exact H2|done|].
  apply wp_bind. eapply wp_setKey; [exact H2| |apply db_the, HR1|exact Hin2|exact Hv2|by eapply room1|].
  { cbn. inK. }
  intros s3 H3. apply wp_bind. eapply wp_notify; [exact H3| |].
  { cbn. inK. }
  intros s4 H4 _ _. eapply wp_dirty; [exact H4|]. intros s5 H5 _ _. by eexists _, _.
Qed.

Lemma strlen_meets n k : meets P c d F (strlenCommand P c) [n; k] (fun _ a => Some (spec_strlen c d k a)).
Proof.
  start HR H. injection Hspec as <-. unfold spec_strlen.
  apply wp_bind. eapply wp_seldb; [exact H|exact Hsel|]. apply wp_bind. eapply wp_argv; [exact H|done|].
  apply wp_bind, wp_bind. eapply wp_lookupKeyRead; [exact H| |hasdb| |].
  { cbn. inK. }
  - intros -> s1 H1. apply wp_bind. eapply wp_tell; [exact H1|]. intros s2 H2 _ _.
    apply wp_ret, wp_ret. by eexists _, _.
  - intros o ob v s1 -> H1 Ho Hob Hl. apply wp_ret. apply wp_bind.
    eapply wp_checkType; [exact H1|exact Ho| |].
    + intros Ht. destruct v as [bs|t]; [|destruct (found_other P ob t Hob); congruence].
      destruct (found_string P c d s1 _ _ _ _ k o ob bs H1 Hl Ho Hob) as (_ & Hr & Hb).
      apply wp_bind, (wp_bind (obj o)), (wp_obj _ ob); [done|].
      eapply wp_opt; [by apply stringObjectLen_spec|]. eapply wp_tell_int; [exact H1| |].
      { pose proof (zlen_nonneg bs). unfold max_string in Hb. cint. }
      intros s2 H2. by eexists _, _.
    + intros Ht s2 H2 _ _. apply wp_ret. destruct v as [bs|t]; [|by eexists _, _].
      destruct (found_string P c d s1 _ _ _ _ k o ob bs H1 Hl Ho Hob) as (? & _). done.
Qed.

(** ** INCR and its variants *)

(** An argument read as a number. *)
Lemma wp_num s L K a x bs (Q : option Z -> server -> Prop) : At P s c L F K a -> (x, bs) ∈ K ->
  match num bs with
  | Some v => in_s 64 v -> Q (Some v) s
  | None => forall s', At P s' c L F K (tell_error c not_an_integer a) -> Q None s'
  end ->
  wp (getLongLongFromObjectOrReply c (Some x) None) s Q.
Proof.
  intros H Hin HQ. destruct (key_rep P s c L F K a x bs H Hin) as (ob & Ho & Hr & _).
  unfold num in HQ. eapply wp_getLongLongOr; [exact H|exact Ho|exact Hr| |].
  - intros v Hv Hb. rewrite Hv in HQ. by apply HQ.
  - intros Hn s' H' _ _. rewrite Hn in HQ. by apply HQ.
Qed.

(** A change is made known. *)
Lemma wp_changed {A} s L K a key k type (m : M A) (Q : A -> server -> Prop) :
  At P s c L F K a -> (key, k) ∈ K ->
  (forall s', At P s' c L F K (changed type d k a) -> s'.1 = s.1 -> wp m s' Q) ->
  wp (signal d key;; notify type d key;; dirty 1;; m) s Q.
Proof.
  intros H Hin HQ. apply wp_bind. eapply wp_signal; [exact H|exact Hin|]. intros s1 H1 E1 _.
  apply wp_bind. eapply wp_notify; [exact H1|exact Hin|]. intros s2 H2 E2 _.
  apply wp_bind. eapply wp_dirty; [exact H2|]. intros s3 H3 E3 _. apply HQ; [exact H3|congruence].
Qed.

Lemma wp_reply_int s L K a o ob n (Q : unit -> server -> Prop) :
  At P s c L F K a -> s.1 !! o = Some ob -> string_rep ob (sdec n) ->
  (forall s', At P s' c L F K (tell_int c n a) -> Q tt s') ->
  wp (addReplyString c (bytes_of ":");; addReply P c o;; addReplyString c crlf) s Q.
Proof.
  intros H Ho Hr HQ.
  assert (Hs : says P c (addReplyString c (bytes_of ":");; addReply P c o;; addReplyString c crlf) s
    (bytes_of ":" ++ sdec n ++ crlf)).
  { apply says_seq; [apply addReplyString_says|]. intros s1 E1.
    apply says_seq; [apply (addReply_says P c o ob); [by rewrite E1|done]|].
    intros s2 _. apply addReplyString_says. }
  apply (Hs L F K a Q H). intros s' H' _ _. by apply HQ.
Qed.

Lemma incr_overflows_spec incr old : in_s 64 incr -> in_s 64 old ->
  incr_overflows incr old = negb (bool_decide (in_s 64 (old + incr))).
Proof.
  unfold incr_overflows, LLONG_MIN, LLONG_MAX. intros H1 H2. apply eq_true_iff_eq.
  rewrite orb_true_iff, negb_true_iff, bool_decide_eq_false. unfold in_s in *.
  rewrite !andb_true_iff, !Z.ltb_lt. lia.
Qed.

(** The object a key holds, its value known. *)
Lemma holds s L K a k o bs : At P s c L F K a -> lives s d k o -> a_get d k a = Some (AStr bs) ->
  exists ob, s.1 !! o = Some ob /\ o_type ob = REDIS_STRING /\ string_rep ob bs /\ zlen bs <= max_string.
Proof.
  intros H Hl Hg. rewrite (at_get P s c L F K a d k o H Hl) in Hg. injection Hg as Hg.
  destruct (held_value P s F.*1 o (at_wf _ _ _ _ _ _ _ H)) as (ob & Ho & Hv & _).
  { by apply held_root, (lives_root s d k). }
  exists ob. split; [done|]. apply (found_string P c d s L F K a k o); [done|done|done|congruence].
Qed.

Lemma wp_incr_store s L K a key k v (o : option Z) (Q : Z -> server -> Prop) :
  At P s c L F K a -> 0 <= d < zlen (s_dbs a) -> (key, k) ∈ K -> in_s 64 v -> room P a (zlen F + 1) ->
  match o with
  | None => a_get d k a = None
  | Some o => lives s d k o /\ exists bs, a_get d k a = Some (AStr bs)
  end ->
  (forall s' o', At P s' c L F K (a_set d k (AStr (sdec v)) a) -> lives s' d k o' -> Q o' s') ->
  wp (in_place ← (match o with
                  | None => mret None
                  | Some o =>
                      ob ← obj o;
                      mret (if (o_refcount ob =? 1) && bool_decide (o_encoding ob = ENC_INT) &&
                               ((v <? 0) || (REDIS_SHARED_INTEGERS <=? v))
                            then Some o else None)
                  end);
      match in_place with
      | Some o => set_ptr o (PLong v);; mret o
      | None =>
          new ← createStringObjectFromLongLong P v;
          (match o with Some _ => dbOverwrite d key new | None => dbAdd d key new end);;
          mret new
      end) s Q.
Proof.
  intros H Hd Hin Hv Hroom Ho HQ.
  assert (Hnew : wp (new ← createStringObjectFromLongLong P v;
    (match o with Some _ => dbOverwrite d key new | None => dbAdd d key new end);; mret new) s Q).
  { apply wp_bind. eapply (wp_createStringObjectFromLongLong P); [exact H|done|exact Hroom|lia|].
    intros h new H1 _. apply wp_bind. destruct o as [o|].
    - destruct Ho as (_ & bs & Hg).
      eapply wp_dbOverwrite; [exact H1|exact Hin|hasdb|by rewrite Hg|].
      intros s2 H2 _ _ Hl. apply wp_ret. by apply HQ.
    - eapply wp_dbAdd; [exact H1|exact Hin|hasdb|done|]. rewrite a_add_string.
      intros s2 H2 _ Hl. apply wp_ret. by apply HQ. }
  apply wp_bind. destruct o as [o|]; [|by apply wp_ret].
  destruct Ho as (Hl & bs & Hg). destruct (holds s L _ a k o bs H Hl Hg) as (ob & Hob & Ht & Hr & _).
  apply wp_bind, (wp_obj _ ob); [done|]. apply wp_ret.
  destruct ((o_refcount ob =? 1) && _ && _) eqn:E; [|exact Hnew].
  apply andb_true_iff in E as [E _]. apply andb_true_iff in E as [E1 E2].
  apply Z.eqb_eq in E1. apply bool_decide_eq_true in E2.
  apply wp_bind. eapply (wp_set_ptr P s c L F K a d k o ob); [exact H|split; [exact Hob|by split]| |by apply sdec_max|].
  - rewrite Ht, E2. by split; [|econstructor].
  - intros s2 H2 Hl2 _. apply wp_ret. by apply HQ.
Qed.

Lemma wp_regroup {A B C} (m : M A) (n : A -> M B) (k : B -> M C) s (Q : C -> server -> Prop) :
  wp (x ← m; n x) s (fun b s' => wp (k b) s' Q) -> wp (x ← m; y ← n x; k y) s Q.
Proof.
  intros (b & s' & Hm & cc & s'' & Hk & HQ). exists cc, s''. split; [|done].
  unfold mbind, M_bind in *. destruct (m s) as [[x s1]|]; [|done]. by rewrite Hm.
Qed.

(** What follows the lookup of INCR. *)
Lemma wp_incr_found s L K a key k incr bs (o : option Z) (Q : unit -> server -> Prop) :
  At P s c L F K a -> 0 <= d < zlen (s_dbs a) -> (key, k) ∈ K -> in_s 64 incr -> room P a (zlen F + 1) ->
  match o with
  | None => a_get d k a = None /\ bs = []
  | Some o => lives s d k o /\ a_get d k a = Some (AStr bs)
  end ->
  (forall s', At P s' c L F K (match num bs with
     | None => tell_error c not_an_integer a
     | Some old =>
         if decide (in_s 64 (old + incr)) then
           tell_int c (old + incr) (changed "incrby" d k (a_set d k (AStr (sdec (old + incr))) a))
         else tell_error c "increment or decrement would overflow" a
     end) -> Q tt s') ->
  wp (r ← getLongLongFromObjectOrReply c o None;
  match r with
  | None => mret tt
  | Some oldvalue =>
      if incr_overflows incr oldvalue then
        addReplyError c (bytes_of "increment or decrement would overflow")
      else
        let value := oldvalue + incr in
        in_place ← (match o with
                    | None => mret None
                    | Some o =>
                        ob ← obj o;
                        mret (if (o_refcount ob =? 1) && bool_decide (o_encoding ob = ENC_INT) &&
                                 ((value <? 0) || (REDIS_SHARED_INTEGERS <=? value))
                              then Some o else None)
                    end);
        new ← (match in_place with
               | Some o => set_ptr o (PLong value);; mret o
               | None =>
                   new ← createStringObjectFromLongLong P value;
                   (match o with Some _ => dbOverwrite d key new | None => dbAdd d key new end);;
                   mret new
               end);
        signal d key;;
        notify "incrby" d key;;
        dirty 1;;
        addReplyString c (bytes_of ":");;
        addReply P c new;;
        addReplyString c crlf
  end) s Q.
Proof.
  intros H Hd Hin Hi Hroom Ho HQ. apply wp_bind.
  apply (wp_mono _ s (fun r s' => match r with
    | Some old => num bs = Some old /\ in_s 64 old /\ s' = s
    | None => num bs = None /\ At P s' c L F K (tell_error c not_an_integer a) end)).
  { destruct o as [o|].
    - destruct Ho as [Hl Hg]. destruct (holds s L _ a k o bs H Hl Hg) as (ob & Hob & _ & Hr & _).
      eapply wp_getLongLongOr; [exact H|exact Hob|exact Hr|by intros v Hv Hb|by intros Hn s1 H1 _ _].
    - destruct Ho as [_ ->]. apply wp_bind, wp_ret, wp_bind, (wp_opt _ (Some 0)); [done|]. by apply wp_ret. }
  intros [old|] s1.
  2: { intros [Hn H1]. rewrite Hn in HQ. by apply wp_ret, HQ. }
  intros (Hn & Hold & ->). rewrite Hn in HQ. rewrite (incr_overflows_spec incr old Hi Hold).
  destruct (decide (in_s 64 (old + incr))) as [Hv|Hv].
  2: { rewrite bool_decide_false by done. cbn [negb]. by eapply wp_tell_error. }
  rewrite bool_decide_true by done. cbn [negb]. cbv zeta. apply wp_regroup.
  eapply wp_incr_store; [exact H|exact Hd|exact Hin|exact Hv|exact Hroom| |].
  { destruct o as [o|]; [|apply Ho]. split; [apply Ho|]. exists bs. apply Ho. }
  intros s2 new H2 Hl2. eapply wp_changed; [exact H2|exact Hin|]. intros s3 H3 E3.
  destruct (holds s2 L _ _ k new _ H2 Hl2 (a_get_written d k _ a Hd)) as (ob & Hob & _ & Hr & _).
  eapply wp_reply_int; [exact H3|by rewrite E3|exact Hr|]. exact HQ.
Qed.

Lemma wp_incrDecr s L K a key k incr (Q : unit -> server -> Prop) :
  At P s c L F K a -> selected c d a -> 0 <= d < zlen (s_dbs a) -> znth L 1 = Some key ->
  (key, k) ∈ K -> in_s 64 incr -> room P a (zlen F + 1) ->
  (forall s', At P s' c L F K (spec_incr c d k incr a) -> Q tt s') ->
  wp (incrDecrCommand P c incr) s Q.
Proof.
  intros H Hsel Hd HL Hin Hi Hroom HQ. unfold spec_incr in HQ. pose proof (weight_expire d k a _ (db_the a d Hd)) as Hw.
  apply wp_bind. eapply wp_seldb; [exact H|exact Hsel|]. apply wp_bind. eapply wp_argv; [exact H|exact HL|].
  apply wp_bind. eapply (wp_lookupKeyWrite P); [exact H|exact Hin|hasdb| |].
  - intros Hn s1 H1. rewrite Hn in HQ. apply wp_bind, wp_ret.
    eapply (wp_incr_found s1 L K _ key k incr [] None);
      [exact H1|by autorewrite with dbnum|exact Hin|exact Hi|by eapply room_le|done|exact HQ].
  - intros o ob v s1 Hv H1 Ho Hob Hl. rewrite Hv in HQ. apply wp_bind.
    eapply wp_checkType; [exact H1|exact Ho| |].
    + intros Ht. destruct v as [bs|t]; [|destruct (found_other P ob t Hob); congruence].
      eapply (wp_incr_found s1 L K _ key k incr bs (Some o));
        [exact H1|by autorewrite with dbnum|exact Hin|exact Hi|by eapply room_le|done|exact HQ].
    + intros Ht s2 H2 _ _. apply wp_ret. destruct v as [bs|t]; [|by apply HQ].
      destruct (found_string P c d s1 _ _ _ _ k o ob bs H1 Hl Ho Hob) as (? & _). done.
Qed.

Lemma incr_meets incr n k : in_s 64 incr ->
  meets P c d F (incrDecrCommand P c incr) [n; k] (fun _ a => Some (spec_incr c d k incr a)).
Proof.
  intros Hi. start HR H. injection Hspec as <-.
  eapply wp_incrDecr; [exact H|exact Hsel|exact Hd|done| |exact Hi|by eapply room1|].
  - cbn. inK.
  - intros s1 H1. by eexists _, _.
Qed.

Lemma incrby_meets n k e : meets P c d F (incrbyCommand P c) [n; k; e]
  (fun _ a => spec_incrby c d k e 1 a).
Proof.
  start HR H. apply wp_bind. eapply wp_argv; [exact H|done|]. unfold spec_incrby in Hspec.
  apply wp_bind. eapply wp_num; [exact H|cbn; inK|]. destruct (num e) as [v|].
  - intros Hv. unfold ll_ok in Hspec. rewrite Z.mul_1_l, decide_True in Hspec by done. injection Hspec as <-.
    eapply wp_incrDecr; [exact H|exact Hsel|exact Hd|done|cbn; inK|exact Hv|by eapply room1|].
    intros s1 H1. by eexists _, _.
  - injection Hspec as <-. intros s1 H1. apply wp_ret. by eexists _, _.
Qed.

Lemma decrby_meets n k e : meets P c d F (decrbyCommand P c) [n; k; e]
  (fun _ a => spec_incrby c d k e (-1) a).
Proof.
  start HR H. apply wp_bind. eapply wp_argv; [exact H|done|]. unfold spec_incrby in Hspec.
  apply wp_bind. eapply wp_num; [exact H|cbn; inK|]. destruct (num e) as [v|].
  - intros Hv. replace (-1 * v) with (- v) in Hspec by lia.
    unfold ll_ok in Hspec. case_decide as Hn; [|done]. injection Hspec as <-.
    apply wp_bind, (wp_opt _ (- v)); [unfold ll_ok; by rewrite decide_True|].
    eapply wp_incrDecr; [exact H|exact Hsel|exact Hd|done|cbn; inK|exact Hn|by eapply room1|].
    intros s1 H1. by eexists _, _.
  - injection Hspec as <-. intros s1 H1. apply wp_ret. by eexists _, _.
Qed.

(** ** APPEND *)

Lemma signed_sum x y : 0 <= x -> 0 <= y -> x + y < 2 ^ 63 -> s64 (x +[64] y) = x + y.
Proof. intros Hx Hy H. rewrite wrap_small by cint. rewrite swrap_small; [done|lia|cint]. Qed.

Lemma arg_string s L K a o bs : At P s c L F K a -> o ∈ L -> abs_addr P s.1 o = AStr bs ->
  exists ob, s.1 !! o = Some ob /\ string_rep ob bs /\ zlen bs <= max_string.
Proof.
  intros H Hin Hv. destruct (at_argv _ _ _ _ _ _ _ H) as (cl & Hc & <-).
  destruct (held_value P s F.*1 o (at_wf _ _ _ _ _ _ _ H)) as (ob & Ho & Ha & _ & [(x & Hx & Hr & Hb)|[Hx _]]).
  - by apply held_root, (argv_root _ c cl).
  - exists ob. rewrite Hv, Hx in Ha. by injection Ha as ->.
  - rewrite Hv, Hx in Ha. done.
Qed.

(** The sds of an object the key alone holds, edited. *)
Lemma wp_edit s L K a k o sd sd' (bs' : bytes) (Q : unit -> server -> Prop) :
  At P s c L F K a -> owned s d k o (mkObj REDIS_STRING ENC_RAW 1 (PSds sd)) -> rep sd' bs' ->
  zlen bs' <= max_string ->
  (forall s', At P s' c L F K (a_set d k (AStr bs') a) ->
     owned s' d k o (mkObj REDIS_STRING ENC_RAW 1 (PSds sd')) -> Q tt s') ->
  wp (set_ptr o (PSds sd')) s Q.
Proof.
  intros H Ho Hr Hb HQ. eapply (wp_set_ptr P s c L F K a d k o _ (PSds sd') bs'); [exact H|exact Ho|by split|done|].
  intros s' H' Hl Ho'. apply HQ; [done|]. by split.
Qed.
Lemma wp_owned_sds s k o sd (Q : sds -> server -> Prop) :
  owned s d k o (mkObj REDIS_STRING ENC_RAW 1 (PSds sd)) -> Q sd s -> wp (sds_of o) s Q.
Proof. intros (Ho & _) HQ. eapply wp_bind, wp_obj; [exact Ho|]. by apply (wp_opt _ sd). Qed.

Lemma wp_length s L K a n (Q : bool -> server -> Prop) : At P s c L F K a ->
  (if max_string <? n then forall s', At P s' c L F K (tell_error c too_long a) -> Q false s' else Q true s) ->
  wp (checkStringLength c n) s Q.
Proof.
  intros H HQ. unfold checkStringLength. change (512 * 1024 * 1024) with max_string.
  destruct (max_string <? n); [|by apply wp_ret].
  apply wp_bind. eapply wp_tell_error; [exact H|]. intros s' H'. by apply wp_ret, HQ.
Qed.

Lemma fits_string n : 0 <= n <= max_string -> fits n.
Proof. unfold fits, max_string, SDS_MAX_PREALLOC. lia. Qed.

Lemma append_meets n k v : meets P c d F (appendCommand P c) [n; k; v]
  (fun _ a => Some (spec_append c d k v a)).
Proof.
  start HR H. injection Hspec as <-. unfold spec_append.
  pose proof (weight_expire d k a _ (db_the a d Hd)) as Hw.
  pose proof (r_room _ _ _ _ _ _ _ _ _ HR) as Hroom. apply (room_le P a (a_expire d k a) _ Hw) in Hroom.
  change (zlen [n; k; v]) with 3 in Hroom.
  apply wp_bind. eapply wp_seldb; [exact H|exact Hsel|]. apply wp_bind. eapply wp_argv; [exact H|done|].
  apply wp_bind. eapply (wp_lookupKeyWrite P); [exact H|cbn; inK|hasdb| |].
  - intros Hn s1 H1. rewrite Hn. apply wp_bind.
    pose proof (ready_next P c d F s s1 _ _ _ a _ HR H1 ltac:(by rewrite who_expire)
      ltac:(by rewrite dbnum_expire) Hw) as HR1.
    apply wp_bind. eapply (wp_encode P c d F s1 _ _ cmd _ 2); [exact HR1|done|done|].
    intros s2 o2 H2 Hv2 Hin2 _.
    eapply (wp_assoc _ _ _ (fun _ s' => At P s' c _ F _ (a_set d k (AStr v) (a_expire d k a)))).
    { eapply (wp_add_ref P); [exact H2|cbn; inK|hasdb|exact Hn|by eapply arg_held|exact Hv2|by eapply room1|].
      rewrite a_add_string. by intros s3 H3 _. }
    intros [] s3 H3. cbn beta in H3.
    rewrite <- (arg_value P s2 s3 c _ _ _ _ _ _ _ o2 H2 H3 ltac:(done) Hin2) in Hv2.
    destruct (arg_string s3 _ _ _ o2 v H3 Hin2 Hv2) as (ob & Ho & Hr & Hb).
    apply wp_bind, (wp_bind (obj o2)), (wp_obj _ ob); [done|].
    eapply wp_opt; [by apply stringObjectLen_spec|]. apply wp_ret.
    eapply wp_changed; [exact H3|cbn; inK|]. intros s4 H4 _. eapply wp_tell_int; [exact H4| |].
    { pose proof (zlen_nonneg v). unfold max_string in Hb. cint. }
    intros s5 H5. by eexists _, _.
  - intros o ob w s1 Hv H1 Ho Hob Hl. rewrite Hv. apply wp_bind, wp_bind.
    eapply wp_checkType; [exact H1|exact Ho| |].
    2: { intros Ht s2 H2 _ _. apply wp_ret, wp_ret. destruct w as [bs|t]; [|by eexists _, _].
         destruct (found_string P c d s1 _ _ _ _ k o ob bs H1 Hl Ho Hob) as (? & _). done. }
    intros Ht. destruct w as [old|t]; [|destruct (found_other P ob t Hob); congruence].
    destruct (found_string P c d s1 _ _ _ _ k o ob old H1 Hl Ho Hob) as (_ & Hr & Hb).
    apply wp_bind. eapply wp_argv; [exact H1|done|]. apply wp_bind.
    eapply wp_str; [exact H1|cbn; inK|].
    apply wp_bind, (wp_bind (obj o)), (wp_obj _ ob); [done|].
    eapply wp_opt; [by apply stringObjectLen_spec|].
    assert (Hbv : zlen v <= max_string).
    { apply (Forall_lookup_1 _ _ 2%nat v (r_max _ _ _ _ _ _ _ _ _ HR)). done. }
    assert (Ez : s64 (zlen old +[64] zlen v) = zlen (old ++ v)).
    { pose proof (zlen_nonneg v). pose proof (zlen_nonneg old). rewrite zlen_app.
      apply signed_sum; [lia..|unfold max_string in *; lia]. }
    rewrite Ez. apply wp_bind. eapply wp_length; [exact H1|].
    destruct (Z.ltb_spec max_string (zlen (old ++ v))) as [Hlong|Hshort]; cbn [negb].
    { intros s2 H2. apply wp_ret, wp_ret. by eexists _, _. }
    apply wp_bind. eapply (wp_dbUnshareStringValue P); [exact H1|cbn; inK|hasdb|exact Hl|exact Ho|exact Hr|exact Hb| |].
    { unfold room in *. lia. }
    intros s2 o2 sd H2 Hown Hsd. apply wp_bind. eapply wp_owned_sds; [exact Hown|].
    destruct (sdscatlen_spec (junk P) sd old v (zlen v) v Hsd) as (sd' & Hcat & Hsd').
    { rewrite <- (app_nil_r v) at 1. by apply mem_read_prefix. }
    { rewrite <- zlen_app. by apply fits_string; split; [apply zlen_nonneg|]. }
    apply wp_bind, (wp_opt _ sd'); [done|].
    apply wp_bind. eapply wp_edit; [exact H2|exact Hown|exact Hsd'|done|]. intros s3 H3 _. apply wp_ret.
    eapply wp_changed; [exact H3|cbn; inK|]. intros s4 H4 _.
    replace (sds_len sd') with (zlen (old ++ v)) by (symmetry; apply Hsd').
    eapply wp_tell_int; [exact H4| |].
    { pose proof (zlen_nonneg (old ++ v)). unfold max_string in Hshort. cint. }
    intros s5 H5. by eexists _, _.
Qed.

(** ** SETRANGE *)

Lemma rep_overwrite sd bs off v : rep sd bs -> 0 <= off -> off + zlen v <= zlen bs ->
  exists buf, mem_write (sds_buf sd) off v = Some buf /\
    rep (mkSds (sds_len sd) (sds_free sd) buf)
      (take (Z.to_nat off) bs ++ v ++ drop (Z.to_nat off + length v) bs).
Proof.
  intros Hr H0 Hle. destruct (rep_inv sd bs Hr) as (tail & -> & Hb). cbn [sds_buf sds_len sds_free].
  assert (Hn : (Z.to_nat off + length v <= length bs)%nat) by (unfold zlen in *; lia).
  set (n := Z.to_nat off) in *. set (A := take n bs). set (B := take (length v) (drop n bs)).
  set (C := drop (n + length v) bs).
  assert (E : bs = A ++ B ++ C).
  { unfold A, B, C. by rewrite <- drop_drop, !take_drop. }
  assert (HA : zlen A = off) by (unfold zlen, A; rewrite length_take; lia).
  assert (HB : zlen B = zlen v) by (unfold zlen, B; rewrite length_take, length_drop; lia).
  exists (A ++ v ++ C ++ 0 :: tail). split.
  - rewrite E at 1. rewrite <- !app_assoc. by apply mem_write_app.
  - replace (A ++ v ++ C ++ 0 :: tail) with ((A ++ v ++ C) ++ 0 :: tail) by (by rewrite <- !app_assoc).
    replace (zlen bs) with (zlen (A ++ v ++ C)) by (rewrite E, !zlen_app; lia).
    apply rep_intro; [done|]. rewrite E, !zlen_app, HB in Hb. by rewrite !zlen_app.
Qed.

Lemma overwrite_grown old v off : 0 <= off ->
  let grown := old ++ replicate (Z.to_nat (off + zlen v - zlen old)) 0 in
  take (Z.to_nat off) grown ++ v ++ drop (Z.to_nat off + length v) grown = overwrite old v off.
Proof.
  intros H0. cbv zeta. unfold overwrite, zlen. set (n := Z.to_nat off).
  replace (Z.to_nat _) with (n + length v - length old)%nat by lia.
  rewrite take_app, drop_app, <- !app_assoc. f_equal. rewrite take_replicate, drop_replicate.
  replace (_ `min` _)%nat with (n - length old)%nat by lia.
  by rewrite Nat.sub_diag, app_nil_r.
Qed.
Lemma zlen_grown old n : zlen (old ++ replicate (Z.to_nat (n - zlen old)) 0) = Z.max (zlen old) n.
Proof. rewrite zlen_app. unfold zlen. rewrite length_replicate. lia. Qed.
Lemma zlen_overwrite old v off : 0 <= off -> zlen (overwrite old v off) = Z.max (zlen old) (off + zlen v).
Proof.
  intros H0. unfold overwrite, zlen. rewrite !length_app, length_take, length_replicate, length_drop. lia.
Qed.

(** The bytes are written into a string the key alone holds. *)
Lemma wp_overwrite s L K a key k o sd old v offset (Q : unit -> server -> Prop) :
  At P s c L F K a -> (key, k) ∈ K -> owned s d k o (mkObj REDIS_STRING ENC_RAW 1 (PSds sd)) ->
  rep sd old -> zlen old <= max_string -> 0 <= offset -> 0 < zlen v -> offset + zlen v <= max_string ->
  (forall s', let new := overwrite old v offset in
    At P s' c L F K (tell_int c (zlen new) (changed "setrange" d k (a_set d k (AStr new) a))) -> Q tt s') ->
  wp (when (0 <? zlen v) (
        e ← sds_of o;
        e ← opt (sdsgrowzero (junk P) e (offset + zlen v));
        set_ptr o (PSds e);;
        buf ← opt (mem_write (sds_buf e) offset v);
        set_ptr o (PSds (mkSds (sds_len e) (sds_free e) buf));;
        signal d key;;
        notify "setrange" d key;;
        dirty 1);;
      e ← sds_of o;
      addReplyLongLong P c (sds_len e)) s Q.
Proof.
  intros H Hin Hown Hr Hold H0 Hv Hmax HQ. cbv zeta in HQ. rewrite (proj2 (Z.ltb_lt 0 (zlen v)) Hv). cbn [when].
  pose proof (zlen_overwrite old v offset H0) as Hz.
  destruct (sdsgrowzero_spec (junk P) sd old (offset + zlen v) Hr) as (sd1 & Hgrow & Hr1); [by apply fits_string; lia|].
  destruct (rep_overwrite sd1 _ offset v Hr1 H0) as (buf & Hbuf & Hr2).
  { rewrite zlen_grown. lia. }
  rewrite (overwrite_grown old v offset H0) in Hr2.
  apply wp_bind, wp_bind. eapply wp_owned_sds; [exact Hown|]. apply wp_bind, (wp_opt _ sd1); [done|].
  apply wp_bind. eapply wp_edit; [exact H|exact Hown|exact Hr1| |].
  { rewrite zlen_grown. lia. }
  intros s1 H1 Hown1. apply wp_bind, (wp_opt _ buf); [done|].
  apply wp_bind. eapply wp_edit; [exact H1|exact Hown1|exact Hr2|lia|]. rewrite a_set_set.
  intros s2 H2 Hown2. apply wp_bind. eapply wp_signal; [exact H2|exact Hin|]. intros s3 H3 E3 D3.
  apply wp_bind. eapply wp_notify; [exact H3|exact Hin|]. intros s4 H4 E4 D4.
  eapply wp_dirty; [exact H4|]. intros s5 H5 E5 D5.
  apply wp_bind. eapply (wp_owned_sds s5 k o); [split; [rewrite E5, E4, E3; apply Hown2|split; [done|]]|].
  { apply (lives_dbs s2); [congruence|apply Hown2]. }
  replace (sds_len _) with (zlen (overwrite old v offset)) by (symmetry; apply Hr2).
  eapply wp_tell_int; [exact H5| |exact HQ].
  pose proof (zlen_nonneg old). unfold max_string in *. cint.
Qed.

(** The string to write to: the key's own, or a new empty one. *)
Lemma wp_setrange_target s L K a key k offset (v : bytes) (Q : option Z -> server -> Prop) :
  At P s c L F K a -> 0 <= d < zlen (s_dbs a) -> (key, k) ∈ K -> room P a (zlen F + 2) ->
  0 <= offset -> offset + zlen v < 2 ^ 63 ->
  let a1 := a_expire d k a in
  let fits := offset + zlen v <= max_string /\ 0 < zlen v in
  match a_get d k a1 with
  | Some (AOther _) => forall s', At P s' c L F K (tell c shared_wrongtypeerr a1) -> Q None s'
  | cur =>
      let old := match cur with Some (AStr old) => old | _ => [] end in
      if zlen v =? 0 then forall s', At P s' c L F K (tell_int c (zlen old) a1) -> Q None s'
      else if max_string <? offset + zlen v then
        forall s', At P s' c L F K (tell_error c too_long a1) -> Q None s'
      else forall s' o sd a2, At P s' c L F K a2 ->
        owned s' d k o (mkObj REDIS_STRING ENC_RAW 1 (PSds sd)) -> rep sd old -> zlen old <= max_string ->
        (forall w, a_set d k w a2 = a_set d k w a1) -> Q (Some o) s'
  end ->
  wp (o ← lookupKeyWrite d key;
      match o with
      | None =>
          if zlen v =? 0 then addReplyString c shared_czero;; mret None
          else
            ok ← checkStringLength c (offset + zlen v);
            if negb ok then mret None
            else
              e ← opt (sdsempty (junk P));
              o ← createObject P e;
              dbAdd d key o;; mret (Some o)
      | Some o =>
          bad ← checkType c o REDIS_STRING;
          if (bad : bool) then mret None
          else
            olen ← stringObjectLen P o;
            if zlen v =? 0 then addReplyLongLong P c olen;; mret None
            else
              ok ← checkStringLength c (offset + zlen v);
              if negb ok then mret None
              else o ← dbUnshareStringValue P d key o; mret (Some o)
      end) s Q.
Proof.
  intros H Hd Hin Hroom H0 Hsmall. cbv zeta. intros HQ.
  pose proof (weight_expire d k a _ (db_the a d Hd)) as Hw.
  apply wp_bind. eapply (wp_lookupKeyWrite P); [exact H|exact Hin|hasdb| |].
  - intros Hn s1 H1. rewrite Hn in HQ. destruct (zlen v =? 0).
    { apply wp_bind. eapply wp_tell; [exact H1|]. intros s2 H2 _ _. apply wp_ret. by apply HQ. }
    apply wp_bind. eapply wp_length; [exact H1|]. destruct (max_string <? offset + zlen v).
    { intros s2 H2. by apply wp_ret, HQ. }
    cbn [negb]. destruct (sdsempty_spec (junk P)) as (e & He & Hre & _).
    apply wp_bind, (wp_opt _ e); [done|]. apply wp_bind.
    eapply (wp_new P s1 c L _ (mkObj REDIS_STRING ENC_RAW 1 (PSds e)) F K);
      [exact H1|done|by apply (string_ok _ []); [split| |]|done|].
    intros h o H2 Ho _ _. apply wp_bind.
    rewrite (abs_obj_rep P _ []) in H2 by done.
    eapply wp_dbAdd; [exact H2|exact Hin|by apply db_the; autorewrite with dbnum|exact Hn|]. rewrite a_add_string.
    intros s3 H3 E3 Hl. apply wp_ret. eapply HQ; [exact H3| |exact Hre|done|].
    { split; [by rewrite E3|by split]. }
    intros w. by rewrite a_set_set.
  - intros o ob w s1 Hv H1 Ho Hob Hl. rewrite Hv in HQ. apply wp_bind.
    eapply wp_checkType; [exact H1|exact Ho| |].
    2: { intros Ht s2 H2 _ _. apply wp_ret. destruct w as [bs|t]; [|by apply HQ].
         destruct (found_string P c d s1 _ _ _ _ k o ob bs H1 Hl Ho Hob) as (? & _). done. }
    intros Ht. destruct w as [old|t]; [|destruct (found_other P ob t Hob); congruence].
    destruct (found_string P c d s1 _ _ _ _ k o ob old H1 Hl Ho Hob) as (_ & Hr & Hb).
    apply wp_bind, (wp_bind (obj o)), (wp_obj _ ob); [done|].
    eapply wp_opt; [by apply stringObjectLen_spec|]. destruct (zlen v =? 0).
    { apply wp_bind. eapply wp_tell_int; [exact H1| |].
      - pose proof (zlen_nonneg old). unfold max_string in *. cint.
      - intros s2 H2. by apply wp_ret, HQ. }
    apply wp_bind. eapply wp_length; [exact H1|]. destruct (max_string <? offset + zlen v).
    { intros s2 H2. by apply wp_ret, HQ. }
    cbn [negb]. apply wp_bind.
    eapply (wp_dbUnshareStringValue P); [exact H1|exact Hin|hasdb|exact Hl|exact Ho|exact Hr|exact Hb|by eapply room_le|].
    intros s2 o2 sd H2 Hown Hsd. apply wp_ret. by eapply HQ.
Qed.

Lemma wp_num_long s L K a x bs (Q : option Z -> server -> Prop) : At P s c L F K a -> (x, bs) ∈ K ->
  match num bs with
  | Some v => in_s 64 v -> Q (Some v) s
  | None => forall s', At P s' c L F K (tell_error c not_an_integer a) -> Q None s'
  end ->
  wp (getLongFromObjectOrReply c (Some x) None) s Q.
Proof.
  intros H Hin HQ. destruct (key_rep P s c L F K a x bs H Hin) as (ob & Ho & Hr & _).
  unfold num in HQ. eapply wp_getLongOr; [exact H|exact Ho|exact Hr| |].
  - intros v Hv Hb. rewrite Hv in HQ. by apply HQ.
  - intros Hn s' H' _ _. rewrite Hn in HQ. by apply HQ.
Qed.

Lemma setrange_meets n k off v : meets P c d F (setrangeCommand P c) [n; k; off; v]
  (fun _ a => spec_setrange c d k off v a).
Proof.
  start HR H. unfold spec_setrange in Hspec.
  apply wp_bind. eapply wp_seldb; [exact H|exact Hsel|]. apply wp_bind. eapply wp_argv; [exact H|done|].
  apply wp_bind. eapply wp_str; [exact H|cbn; inK|]. apply wp_bind. eapply wp_argv; [exact H|done|].
  apply wp_bind. eapply wp_num_long; [exact H|cbn; inK|]. destruct (num off) as [offset|].
  2: { injection Hspec as <-. intros s1 H1. apply wp_ret. by eexists _, _. }
  intros _. destruct (Z.ltb_spec offset 0) as [|H0].
  { injection Hspec as <-. eapply wp_tell_error; [exact H|]. intros s1 H1. by eexists _, _. }
  destruct (Z.leb_spec (2 ^ 63) (offset + zlen v)) as [|Hsmall]; [done|]. pose proof (zlen_nonneg v) as Hv0.
  apply wp_bind. eapply wp_argv; [exact H|done|]. cbv zeta. rewrite signed_sum by lia.
  rewrite wrap_small by cint. apply wp_regroup.
  pose proof (r_room _ _ _ _ _ _ _ _ _ HR) as Hroom. change (zlen [n; k; off; v]) with 4 in Hroom.
  eapply (wp_setrange_target s _ _ a _ k offset v);
    [exact H|exact Hd|cbn; inK|unfold room in *; lia|exact H0|lia|].
  cbv zeta. cbv zeta in Hspec.
  destruct (a_get d k (a_expire d k a)) as [[old|t]|]; injection Hspec as <-;
    [|intros s5 H5; apply wp_ret; by eexists _, _|];
    (destruct (Z.eqb_spec (zlen v) 0) as [|Hv]; [intros s5 H5; apply wp_ret; by eexists _, _|];
     destruct (Z.ltb_spec max_string (offset + zlen v)) as [|Hmax];
       [intros s5 H5; apply wp_ret; by eexists _, _|];
     intros s3 o sd a2 H3 Hown Hsd Hold Ha2;
     eapply wp_overwrite; [exact H3|cbn; inK|exact Hown|exact Hsd|exact Hold|exact H0|lia|exact Hmax|];
     cbv zeta; rewrite Ha2; intros s4 H4; by eexists _, _).
Qed.

(** ** GETRANGE *)

Lemma wp_range_source s L K a o ob bs (Q : list Z * Z -> server -> Prop) :
  At P s c L F K a -> s.1 !! o = Some ob -> string_rep ob bs ->
  (forall k, Q (bs ++ k, zlen bs) s) -> wp (range_source P o) s Q.
Proof.
  intros H Ho Hr HQ. apply wp_bind, (wp_obj _ ob); [done|].
  destruct (encoded_rep ob bs Hr) as [(E & sd & Hp & Hsd)|(E & E' & v & Hp & Hv & ->)].
  - assert (bool_decide (o_encoding ob = ENC_INT) = false) as ->.
    { apply bool_decide_eq_false. unfold sdsEncodedObject in E. by destruct (o_encoding ob). }
    destruct (rep_inv sd bs Hsd) as (tail & -> & _).
    apply wp_bind, (wp_opt _ (mkSds (zlen bs) (zlen tail) (bs ++ 0 :: tail))); [unfold as_sds; by rewrite Hp|].
    apply wp_ret. apply HQ.
  - rewrite bool_decide_true by done. apply wp_bind, (wp_opt _ v); [unfold as_long; by rewrite Hp|].
    destruct (print_long (junk P) 32 v Hv ltac:(lia)) as [k Hk].
    apply wp_bind. eapply wp_opt; [exact Hk|]. apply wp_ret. apply HQ.
Qed.

(** The range, clipped the way the code clips it. *)
Definition clip (strlen start last : Z) : Z * Z :=
  let start := if start <? 0 then s64 (strlen +[64] start) else start in
  let last := if last <? 0 then s64 (strlen +[64] last) else last in
  let start := if start <? 0 then 0 else start in
  let last := if last <? 0 then 0 else last in
  let last := if strlen <=? u64 last then s64 (strlen -[64] 1) else last in
  (start, last).

Lemma swrap_wrap w x : swrap w (wrap w x) = swrap w x.
Proof. unfold swrap, wrap. by rewrite Zplus_mod_idemp_l. Qed.
Lemma from_end n i : 0 <= n < 2 ^ 63 -> in_s 64 i -> i < 0 -> s64 (n +[64] i) = n + i.
Proof. intros Hn Hi Hneg. rewrite swrap_wrap. apply swrap_small; [lia|cint]. Qed.

Lemma clip_min (bs : bytes) start last : in_s 64 start -> in_s 64 last -> zlen bs <= max_string ->
  clip (zlen bs) start last =
  (Z.max 0 (if start <? 0 then zlen bs + start else start),
   Z.min (zlen bs - 1) (Z.max 0 (if last <? 0 then zlen bs + last else last))).
Proof.
  intros Hs Hl Hb. pose proof (zlen_nonneg bs) as H0. unfold max_string in Hb. set (n := zlen bs) in *. unfold clip.
  assert (Hend : forall i, in_s 64 i ->
    (if (if i <? 0 then s64 (n +[64] i) else i) <? 0 then 0 else if i <? 0 then s64 (n +[64] i) else i) =
    Z.max 0 (if i <? 0 then n + i else i)).
  { intros i Hi. destruct (Z.ltb_spec i 0); [rewrite from_end by (done || lia)|].
    - destruct (Z.ltb_spec (n + i) 0); lia.
    - destruct (Z.ltb_spec i 0); lia. }
  cbv zeta. rewrite !Hend by done. f_equal. set (l := Z.max 0 _).
  assert (Hl0 : in_u 64 l) by (unfold l; destruct (Z.ltb_spec last 0); cint).
  rewrite (wrap_small 64 l) by done.
  assert (E : s64 (n -[64] 1) = n - 1) by (rewrite swrap_wrap; apply swrap_small; cint).
  rewrite E. destruct (Z.leb_spec n l); lia.
Qed.

Lemma clip_read (bs k : bytes) start last : in_s 64 start -> in_s 64 last -> zlen bs <= max_string ->
  let '(st, la) := clip (zlen bs) start last in
  if (la <? st) || (zlen bs =? 0) then substring bs start last = []
  else mem_read (bs ++ k) st (la - st + 1) = Some (substring bs start last).
Proof.
  intros Hs Hl Hb. rewrite clip_min by done. unfold substring. cbv zeta.
  generalize (if start <? 0 then zlen bs + start else start) as x. generalize (if last <? 0 then zlen bs + last else last) as y.
  intros y x. set (st := Z.max 0 x). set (la := Z.min _ _). pose proof (zlen_nonneg bs). pose proof (zlen_nonneg k).
  destruct (Z.ltb_spec la st); [done|]. cbn [orb]. destruct (Z.eqb_spec (zlen bs) 0) as [E|E].
  { exfalso. unfold la, st in *. lia. }
  unfold mem_read. rewrite decide_True by (rewrite zlen_app; unfold la, st in *; lia). f_equal.
  assert (Hst : 0 <= st /\ la < zlen bs) by (unfold la, st; lia). clearbody la st. unfold zlen in *.
  rewrite drop_app_le by lia. rewrite take_app_le; [done|]. rewrite length_drop. lia.
Qed.

Lemma zlen_substring bs start last : zlen (substring bs start last) <= zlen bs.
Proof.
  unfold substring. cbv zeta. destruct (_ <? _); [apply zlen_nonneg|].
  unfold zlen. rewrite length_take, length_drop. lia.
Qed.

Lemma getrange_meets n k first last : meets P c d F (getrangeCommand P c) [n; k; first; last]
  (fun _ a => Some (spec_getrange c d k first last a)).
Proof.
  start HR H. injection Hspec as <-. unfold spec_getrange.
  apply wp_bind. eapply wp_seldb; [exact H|exact Hsel|]. apply wp_bind. eapply wp_argv; [exact H|done|].
  apply wp_bind. eapply wp_argv; [exact H|done|]. apply wp_bind. eapply wp_argv; [exact H|done|].
  apply wp_bind. eapply wp_num; [exact H|cbn; inK|]. destruct (num first) as [st|].
  2: { intros s1 H1. apply wp_ret. by eexists _, _. }
  intros Hst. apply wp_bind. eapply wp_num; [exact H|cbn; inK|]. destruct (num last) as [la|].
  2: { intros s1 H1. apply wp_ret. by eexists _, _. }
  intros Hla. apply wp_bind, wp_bind. eapply (wp_lookupKeyRead P); [exact H|cbn; inK|hasdb| |].
  { intros -> s1 H1. apply wp_bind. eapply wp_tell; [exact H1|]. intros s2 H2 _ _.
    apply wp_ret, wp_ret. by eexists _, _. }
  intros o ob v s1 -> H1 Ho Hob Hl. apply wp_ret. apply wp_bind. eapply wp_checkType; [exact H1|exact Ho| |].
  2: { intros Ht s2 H2 _ _. apply wp_ret. destruct v as [bs|t]; [|by eexists _, _].
       destruct (found_string P c d s1 _ _ _ _ k o ob bs H1 Hl Ho Hob) as (? & _). done. }
  intros Ht. destruct v as [bs|t]; [|destruct (found_other P ob t Hob); congruence].
  destruct (found_string P c d s1 _ _ _ _ k o ob bs H1 Hl Ho Hob) as (_ & Hr & Hb).
  apply wp_bind. eapply wp_range_source; [exact H1|exact Ho|exact Hr|]. intros tail.
  pose proof (clip_read bs tail st la Hst Hla Hb) as Hclip. unfold clip in Hclip. cbv zeta. cbv zeta in Hclip.
  destruct (_ || _).
  - rewrite Hclip. eapply wp_tell; [exact H1|]. intros s2 H2 _ _. by eexists _, _.
  - apply wp_bind. eapply wp_opt; [exact Hclip|].
    assert (Hlen : zlen (substring bs st la) < 2 ^ 63).
    { pose proof (zlen_substring bs st la). unfold max_string in Hb. lia. }
    apply (addReplyBulkCBuffer_says P c _ s1 Hlen _ _ _ _ _ H1). intros s2 H2 _ _. by eexists _, _.
Qed.

(** ** MGET, MSET and MSETNX *)

Lemma wp_mget_one s L K a x k (Q : unit -> server -> Prop) : At P s c L F K a ->
  0 <= d < zlen (s_dbs a) -> (x, k) ∈ K ->
  (forall s', At P s' c L F K (spec_mget_one c d a k) -> Q tt s') -> wp (mget_one P c d x) s Q.
Proof.
  intros H Hd Hin HQ. unfold spec_mget_one in HQ. apply wp_bind.
  eapply (wp_lookupKeyRead P); [exact H|exact Hin|hasdb| |].
  - intros Hn s1 H1. rewrite Hn in HQ. eapply wp_tell; [exact H1|]. intros s2 H2 _ _. by apply HQ.
  - intros o ob v s1 Hv H1 Ho Hob Hl. rewrite Hv in HQ. apply wp_bind, (wp_obj _ ob); [done|].
    destruct v as [bs|t].
    + destruct (found_string P c d s1 _ _ _ _ k o ob bs H1 Hl Ho Hob) as (Ht & Hr & Hb).
      rewrite bool_decide_true by done. cbn [negb].
      eapply (wp_tell_bulk P); [exact H1|exact Ho|exact Hr|exact Hb|exact HQ].
    + destruct (found_other P ob t Hob) as [<- Ht]. rewrite bool_decide_false by done. cbn [negb].
      eapply wp_tell; [exact H1|]. intros s2 H2 _ _. by apply HQ.
Qed.

Lemma dbnum_mget_one a k : zlen (s_dbs (spec_mget_one c d a k)) = zlen (s_dbs a).
Proof. unfold spec_mget_one. destruct (a_get _ _ _) as [[]|]; by autorewrite with dbnum. Qed.

Lemma wp_mget xs keys : forall s L K a (Q : unit -> server -> Prop), At P s c L F K a ->
  0 <= d < zlen (s_dbs a) -> Forall2 (fun x k => (x, k) ∈ K) xs keys ->
  (forall s', At P s' c L F K (fold_left (spec_mget_one c d) keys a) -> Q tt s') ->
  wp (each (mget_one P c d) xs) s Q.
Proof.
  revert keys. induction xs as [|x xs IH]; intros keys s L K a Q H Hd Hf HQ;
    [apply Forall2_nil_inv_l in Hf as ->|apply Forall2_cons_inv_l in Hf as (k & ks & Hx & Hxs & ->)].
  { apply wp_ret. by apply HQ. }
  cbn [each]. apply wp_bind. eapply wp_mget_one; [exact H|exact Hd|exact Hx|]. intros s1 H1.
  eapply IH; [exact H1|by rewrite dbnum_mget_one|exact Hxs|exact HQ].
Qed.

Lemma args_zip (xs : list Z) (bss : list bytes) (K : list (Z * bytes)) : length xs = length bss ->
  (forall p, p ∈ zip xs bss -> p ∈ K) -> Forall2 (fun x bs => (x, bs) ∈ K) xs bss.
Proof.
  intros Hl HK. apply Forall2_same_length_lookup_2; [done|]. intros i x bs Hx Hbs.
  apply HK, (list_elem_of_lookup_2 _ i). by apply lookup_zip_Some.
Qed.

Lemma mget_meets n keys : meets P c d F (mgetCommand P c) (n :: keys)
  (fun _ a => Some (spec_mget c d keys a)).
Proof.
  start HR H. injection Hspec as <-. destruct (at_argv _ _ _ _ _ _ _ H) as (cl & Hc & HL).
  pose proof (r_room _ _ _ _ _ _ _ _ _ HR) as Hroom. unfold room, weight in Hroom. rewrite zlen_cons in Hroom.
  apply wp_bind. eapply wp_seldb; [exact H|exact Hsel|]. apply wp_bind, (wp_client c cl); [done|]. rewrite HL.
  assert (Ez : zlen (z :: L) - 1 = zlen keys) by (unfold zlen; cbn; lia). rewrite Ez.
  assert (Hz : in_s 64 (zlen keys)).
  { pose proof (zlen_nonneg F). pose proof (zlen_nonneg (shared P)). pose proof (zlen_nonneg (roots a)). pose proof (zlen_nonneg keys). cint. }
  apply wp_bind. apply (addReplyMultiBulkLen_says P c _ s Hz (zlen_nonneg keys) _ _ _ _ _ H).
  intros s1 H1 _ _. eapply wp_mget; [exact H1|exact Hd| |].
  - apply args_zip; [done|]. intros p Hp. cbn. by right.
  - intros s2 H2. by eexists _, _.
Qed.

Lemma pairs_length args ps : pairs args = Some ps -> length args = (2 * length ps)%nat.
Proof.
  revert ps. induction args as [args IH] using (induction_ltof1 _ (@length bytes)). unfold ltof in IH.
  destruct args as [|k [|v args]]; intros ps Hps; cbn [pairs] in Hps; [by injection Hps as <-|done|].
  destruct (pairs args) as [qs|] eqn:E; [|done]. injection Hps as <-.
  specialize (IH args ltac:(cbn; lia) qs E). cbn. lia.
Qed.
Lemma pairs_even args : pairs args = None <-> Z.rem (zlen args + 1) 2 = 0.
Proof.
  induction args as [args IH] using (induction_ltof1 _ (@length bytes)). unfold ltof in IH.
  destruct args as [|k [|v args]]; cbn [pairs]; [done..|].
  specialize (IH args ltac:(cbn; lia)). rewrite !zlen_cons.
  assert (E : Z.rem (1 + (1 + zlen args) + 1) 2 = Z.rem (zlen args + 1) 2).
  { pose proof (zlen_nonneg args). rewrite !Z.rem_mod_nonneg by lia.
    replace (1 + (1 + zlen args) + 1) with (zlen args + 1 + 1 * 2) by lia. by rewrite Z.mod_add. }
  rewrite E, <- IH. by destruct (pairs args).
Qed.

(** Expiring other keys leaves a key that is not due. *)
Lemma expire_stable k k' a : 0 <= d < zlen (s_dbs a) -> due d k a = false ->
  due d k (a_expire d k' a) = false /\ a_get d k (a_expire d k' a) = a_get d k a.
Proof.
  intros [x Hx]%db_at_range Hn. unfold a_expire. destruct (due d k' a) eqn:E; [|done].
  assert (Hk : k <> k') by congruence. revert Hn. unfold due, a_deadline, a_get, a_del.
  erewrite !db_at_upd by exact Hx. rewrite !decide_True by done.
  change (db_at (add_event _ (add_event _ a)) d) with (db_at a d). rewrite Hx. cbn.
  by rewrite !lookup_delete_ne by done.
Qed.

Lemma expires_stable (ps : list (bytes * bytes)) k : forall a, 0 <= d < zlen (s_dbs a) -> due d k a = false ->
  a_get d k (fold_left (fun a kv => a_expire d kv.1 a) ps a) = a_get d k a.
Proof.
  induction ps as [|kv ps IH]; intros a Hd Hn; [done|]. cbn [fold_left].
  destruct (expire_stable k kv.1 a Hd Hn) as [Hn' <-]. apply IH; [by autorewrite with dbnum|done].
Qed.

Lemma argv_next (pre rest : list Z) x j : zlen pre = j -> znth (pre ++ x :: rest) j = Some x.
Proof.
  intros <-. unfold znth. rewrite decide_True by apply zlen_nonneg. unfold zlen.
  rewrite Nat2Z.id. by apply list_lookup_middle.
Qed.
Lemma argv_shift (pre : list Z) x y j : zlen pre = j -> zlen (pre ++ [x; y]) = j + 2.
Proof. intros <-. by rewrite zlen_app. Qed.

Lemma wp_busy rargs : forall ps s pre rest K a j busy (Q : Z -> server -> Prop),
  At P s c (pre ++ rest) F K a -> 0 <= d < zlen (s_dbs a) -> pairs rargs = Some ps ->
  Forall2 (fun x k => (x, k) ∈ K) rest rargs -> zlen pre = j ->
  (let a' := fold_left (fun a kv => a_expire d kv.1 a) ps a in
   forall s' n, At P s' c (pre ++ rest) F K a' -> busy <= n ->
     (n = busy <-> existsb (fun kv => bool_decide (is_Some (a_get d kv.1 a'))) ps = false) -> Q n s') ->
  wp (busy_loop c d (length ps) j busy) s Q.
Proof.
  induction rargs as [rargs IH] using (induction_ltof1 _ (@length bytes)). unfold ltof in IH.
  intros ps s pre rest K a j busy Q H Hd Hps Hf Hj HQ.
  destruct rargs as [|k [|v rargs]]; cbn [pairs] in Hps; [injection Hps as <-; by apply wp_ret, HQ|done|].
  destruct (pairs rargs) as [qs|] eqn:Eqs; [|done]. injection Hps as <-.
  apply Forall2_cons_inv_r in Hf as (ko & r1 & Hk & Hf & ->).
  apply Forall2_cons_inv_r in Hf as (vo & r2 & Hv & Hf & ->). cbn [length busy_loop].
  apply wp_bind. eapply wp_argv; [exact H|by apply argv_next|]. cbv zeta in HQ. cbn [fold_left fst existsb] in HQ.
  pose proof (expires_stable qs k (a_expire d k a) ltac:(by autorewrite with dbnum) (due_expire d k a Hd)) as Hst.
  rewrite Hst in HQ.
  assert (Hnext : forall s1 n, At P s1 c (pre ++ ko :: vo :: r2) F K (a_expire d k a) ->
    busy <= n -> (n = busy <-> bool_decide (is_Some (a_get d k (a_expire d k a))) = false) ->
    wp (busy_loop c d (length qs) (j + 2) n) s1 Q).
  { intros s1 n H1 Hle Hn. replace (pre ++ ko :: vo :: r2) with ((pre ++ [ko; vo]) ++ r2) in H1, HQ
      by (by rewrite <- app_assoc).
    eapply (IH rargs ltac:(cbn; lia) qs); [exact H1|by autorewrite with dbnum|done|exact Hf|by apply argv_shift|].
    intros s2 m H2 Hle2 Hm. apply HQ; [exact H2|lia|]. rewrite orb_false_iff, <- Hn, <- Hm. lia. }
  apply wp_bind. eapply (wp_lookupKeyWrite P); [exact H|exact Hk|hasdb| |].
  - intros Hn s1 H1. rewrite bool_decide_false by (by intros []). apply Hnext; [exact H1|lia|].
    rewrite Hn. by rewrite bool_decide_false by (by intros []).
  - intros o ob w s1 Hw H1 _ _ _. rewrite bool_decide_true by done. apply Hnext; [exact H1|lia|].
    rewrite Hw, bool_decide_true by done. split; [lia|done].
Qed.

Lemma insert_value (pre rest : list Z) x y z j : zlen pre = j ->
  <[Z.to_nat (j + 1) := z]> (pre ++ x :: y :: rest) = (pre ++ [x; z]) ++ rest.
Proof.
  intros <-. unfold zlen. replace (Z.to_nat (_ + 1)) with (length pre + 1)%nat by lia.
  rewrite insert_app_r. by rewrite <- app_assoc.
Qed.

Lemma wp_mset_loop rargs : forall ps s pre rest a j (Q : unit -> server -> Prop),
  At P s c (pre ++ rest) F (zip rest rargs) a -> 0 <= d < zlen (s_dbs a) -> pairs rargs = Some ps ->
  length rest = length rargs -> NoDup rest -> Forall (fun bs => zlen bs <= max_string) rargs ->
  room P a (zlen F + zlen ps + 1) -> zlen pre = j ->
  (forall s' L' K', At P s' c L' F K' (fold_left (mset_one d) ps a) -> Q tt s') ->
  wp (mset_loop P c d (length ps) j) s Q.
Proof.
  induction rargs as [rargs IH] using (induction_ltof1 _ (@length bytes)). unfold ltof in IH.
  intros ps s pre rest a j Q H Hd Hps Hlen Hnd Hmax Hroom Hj HQ.
  destruct rargs as [|k [|v rargs]]; cbn [pairs] in Hps; [injection Hps as <-; by eapply wp_ret, HQ|done|].
  destruct (pairs rargs) as [qs|] eqn:Eqs; [|done]. injection Hps as <-.
  destruct rest as [|ko [|vo rest]]; [done..|]. injection Hlen as Hlen.
  apply NoDup_cons in Hnd as [Hko Hnd]. apply NoDup_cons in Hnd as [Hvo Hnd].
  apply Forall_cons in Hmax as [_ Hmax]. apply Forall_cons in Hmax as [Hv Hmax].
  rewrite zlen_cons in Hroom. pose proof (zlen_nonneg qs) as Hq0. cbn [length mset_loop].
  apply wp_bind. eapply (wp_encode_arg P s c _ (j + 1) vo v F _ ((ko, k) :: zip rest rargs));
    [exact H| |cbn; inK|exact Hv|unfold room in *; lia| |].
  { replace (pre ++ ko :: vo :: rest) with ((pre ++ [ko]) ++ vo :: rest) by (by rewrite <- app_assoc).
    apply argv_next. by rewrite zlen_app, Hj. }
  { intros p [->|Hp]%elem_of_cons; cbn; [split; [by left|set_solver]|]. split; [by do 2 right|].
    intros <-. apply Hvo. destruct p as [q bs]. by apply elem_of_zip_l in Hp. }
  intros s1 o1 H1 Hv1 _. rewrite (insert_value pre rest ko vo _ j Hj) in H1.
  apply wp_bind. eapply wp_argv; [exact H1|by rewrite <- app_assoc; apply argv_next|].
  apply wp_bind. eapply wp_setKey; [exact H1|by left|hasdb| |exact Hv1|unfold room in *; lia|].
  { set_solver. }
  intros s2 H2. apply wp_bind. eapply wp_notify; [exact H2|by left|]. intros s3 H3 _ _.
  eapply (IH rargs ltac:(cbn; lia) qs);
    [eapply At_weaken; [|exact H3]; by right|by autorewrite with dbnum|done|lia|done|done| |by apply argv_shift|exact HQ].
  unfold room in *. change (weight (add_event _ _)) with (weight (a_setKey d k (AStr v) a)).
  pose proof (weight_setKey d k (AStr v) a Hd). lia.
Qed.

Lemma expires_small (ps : list (bytes * bytes)) : forall a, 0 <= d < zlen (s_dbs a) ->
  let a' := fold_left (fun a kv => a_expire d kv.1 a) ps a in
  zlen (s_dbs a') = zlen (s_dbs a) /\ weight a' <= weight a.
Proof.
  induction ps as [|kv ps IH]; intros a Hd; [done|]. cbn [fold_left].
  destruct (IH (a_expire d kv.1 a)) as [E1 E2]; [by autorewrite with dbnum|].
  cbv zeta. rewrite E1, dbnum_expire. pose proof (weight_expire d kv.1 a _ (db_the a d Hd)). split; [done|lia].
Qed.

Lemma mset_meets nx n kvs : meets P c d F (msetGenericCommand P c nx) (n :: kvs)
  (fun _ a => Some (spec_mset c d nx kvs a)).
Proof.
  start HR H. injection Hspec as <-. unfold spec_mset. destruct (at_argv _ _ _ _ _ _ _ H) as (cl & Hc & HL).
  apply wp_bind. eapply wp_seldb; [exact H|exact Hsel|].
  apply wp_bind, wp_bind, (wp_client c cl); [done|]. apply wp_ret. rewrite HL.
  assert (Ez : zlen (z :: L) = zlen kvs + 1) by (unfold zlen; cbn; lia). rewrite Ez.
  destruct (pairs kvs) as [ps|] eqn:Eps.
  2: { rewrite (proj1 (pairs_even kvs) Eps). cbn [Z.eqb]. eapply wp_tell_error; [exact H|].
       intros s1 H1. by eexists _, _. }
  destruct (Z.eqb_spec (Z.rem (zlen kvs + 1) 2) 0) as [E|_]; [apply pairs_even in E; congruence|].
  pose proof (pairs_length kvs ps Eps) as Hlen.
  assert (Eq : Z.quot (zlen kvs + 1 - 1) 2 = zlen ps).
  { unfold zlen. rewrite Hlen, Z.quot_div_nonneg by lia. 
    replace (_ + 1 - 1) with (Z.of_nat (length ps) * 2) by lia. by rewrite Z.div_mul. }
  rewrite Eq. change (Z.to_nat (zlen ps)) with (Z.to_nat (Z.of_nat (length ps))). rewrite Nat2Z.id.
  set (a1 := if nx then fold_left (fun a kv => a_expire d kv.1 a) ps a else a).
  assert (Ha1 : zlen (s_dbs a1) = zlen (s_dbs a) /\ weight a1 <= weight a).
  { unfold a1. destruct nx; [by apply expires_small|done]. }
  destruct Ha1 as [Hz Hw]. pose proof (r_nodup _ _ _ _ _ _ _ _ _ HR) as Hnd. apply NoDup_cons in Hnd as [_ Hnd].
  pose proof (r_max _ _ _ _ _ _ _ _ _ HR) as Hmax. apply Forall_cons in Hmax as [_ Hmax].
  apply wp_bind. apply (wp_mono _ s (fun b s' => At P s' c (z :: L) F (zip (z :: L) (n :: kvs)) a1 /\
    (b = 0 <-> nx && existsb (fun kv => bool_decide (is_Some (a_get d kv.1 a1))) ps = false))).
  { unfold a1. destruct nx; [|by apply wp_ret].
    eapply (wp_busy kvs ps s [z] L); [exact H|exact Hd|done| |done|].
    - apply args_zip; [done|]. intros p Hp. cbn. by right.
    - cbv zeta. intros s1 b H1 _ Hb. by split. }
  intros b s1 [H1 Hb]. destruct (Z.eqb_spec b 0) as [E|E]; cbn [negb].
  2: { destruct (nx && _); [|by destruct E; apply Hb]. eapply wp_tell; [exact H1|].
       intros s2 H2 _ _. by eexists _, _. }
  rewrite (proj1 Hb E). apply wp_bind.
  eapply (wp_mset_loop kvs ps s1 [z] L a1); [|by rewrite Hz|done|done|done|done| |done|].
  { eapply At_weaken; [|exact H1]. intros p Hp. cbn. by right. }
  { eapply room_le; [exact Hw|]. pose proof (r_room _ _ _ _ _ _ _ _ _ HR) as Hr. unfold room in *.
    rewrite zlen_cons in Hr. unfold zlen in *. lia. }
  intros s2 L' K' H2. apply wp_bind. eapply wp_dirty; [exact H2|]. intros s3 H3 _ _.
  eapply wp_tell; [exact H3|]. intros s4 H4 _ _. by eexists _, _.
Qed.
End Edits.
