(* ===== verification/Frames.v ===== *)
(** What an operation leaves alone: a relation between the server before and
    after that every way the operation ends satisfies.  The rules follow the
    constructs of the monad, so the frame of a function is found by going
    through its text. *)
From stdpp Require Import gmap list strings.
From S2P Require Import Prelude Util Sds SdsText Object Server Keyspace.
Local Open Scope c_scope.

Definition preserves {A} (R : relation server) (m : M A) : Prop :=
  forall s a s', m s = Some (a, s') -> R s s'.

Section Rules.
Context (R : relation server) `{!PreOrder R}.

Lemma pres_same {A} (m : M A) : (forall s a s', m s = Some (a, s') -> s' = s) -> preserves R m.
Proof. intros H s a s' Hm. rewrite (H s a s' Hm). reflexivity. Qed.
Lemma pres_ret {A} (a : A) : preserves R (mret a).
Proof. apply pres_same. by intros s x s' [= _ <-]. Qed.
Lemma pres_bind {A B} (m : M A) (k : A -> M B) :
  preserves R m -> (forall a, preserves R (k a)) -> preserves R (mbind k m).
Proof.
  intros Hm Hk s b s' H. unfold mbind, M_bind in H. destruct (m s) as [[a s1]|] eqn:E; [|done].
  transitivity s1; [by apply (Hm s a)|by apply (Hk a s1 b)].
Qed.
Lemma pres_fail {A} : preserves R (@fail A).
Proof. done. Qed.
Lemma pres_get : preserves R get_state.
Proof. apply pres_same. by intros s x s' [= _ <-]. Qed.
Lemma pres_opt {A} (x : option A) : preserves R (opt x).
Proof. apply pres_same. intros s a s'. unfold opt. destruct x; [|done]. by intros [= _ <-]. Qed.
Lemma pres_obj o : preserves R (obj o).
Proof. apply pres_same. intros s a s'. unfold obj. destruct (s.1 !! o); [|done]. by intros [= _ <-]. Qed.
Lemma pres_check b : preserves R (check b).
Proof. destruct b; [apply pres_ret|apply pres_fail]. Qed.
Lemma pres_when b m : preserves R m -> preserves R (when b m).
Proof. intros H. destruct b; [done|apply pres_ret]. Qed.
Lemma pres_each {A} (f : A -> M unit) l : (forall x, preserves R (f x)) -> preserves R (each f l).
Proof. intros H. induction l as [|x l IH]; [apply pres_ret|]. by apply pres_bind. Qed.
Lemma pres_modify f : (forall s, R s (s.1, f s.2)) -> preserves R (modify f).
Proof. intros H s a s' [= _ <-]. apply H. Qed.
Lemma pres_heap f : (forall s h, R s (h, s.2)) -> preserves R (on_heap f).
Proof.
  intros H s a s'. unfold on_heap. destruct (f s.1) as [h|]; [|done]. intros [= _ <-]. apply H.
Qed.
Lemma pres_heap_get f : (forall s h, R s (h, s.2)) -> preserves R (on_heap_get f).
Proof.
  intros H s a s'. unfold on_heap_get. destruct (f s.1) as [[h o]|]; [|done]. intros [= _ <-]. apply H.
Qed.
Lemma pres_client c : preserves R (client c).
Proof. apply pres_bind; [apply pres_get|]. intros s. apply pres_opt. Qed.
Lemma pres_db d : preserves R (db d).
Proof. apply pres_bind; [apply pres_get|]. intros s. apply pres_opt. Qed.
Lemma pres_str o : preserves R (str o).
Proof.
  apply pres_bind; [|intros s; apply pres_opt]. apply pres_bind; [apply pres_obj|].
  intros ob. destruct (sdsEncodedObject ob); [apply pres_opt|apply pres_fail].
Qed.
End Rules.

(** A frame about a part [f] of the state. *)
Definition same {B} (f : state Z -> B) : relation server := fun s s' => f s'.2 = f s.2.
Global Instance same_pre {B} (f : state Z -> B) : PreOrder (same f).
Proof. split; [by intros s|]. intros s1 s2 s3 H1 H2. unfold same in *. congruence. Qed.

(** Goes through the text of an operation; stops at changes of the state. *)
Ltac frame_step :=
  match goal with
  | |- preserves _ (mbind _ _) => apply pres_bind; [apply _| |intros ?]
  | |- preserves _ (mret _) => apply pres_ret; apply _
  | |- preserves _ fail => apply pres_fail
  | |- preserves _ get_state => apply pres_get; apply _
  | |- preserves _ (opt _) => apply pres_opt; apply _
  | |- preserves _ (client _) => apply pres_client; apply _
  | |- preserves _ (db _) => apply pres_db; apply _
  | |- preserves _ (str _) => apply pres_str; apply _
  | |- preserves _ (obj _) => apply pres_obj; apply _
  | |- preserves _ (check _) => apply pres_check; apply _
  | |- preserves _ (when _ _) => apply pres_when; [apply _|]
  | |- preserves _ (each _ _) => apply pres_each; [apply _|intros ?]
  | |- preserves _ (on_heap _) => apply pres_heap; [by intros ? ?]
  | |- preserves _ (on_heap_get _) => apply pres_heap_get; [by intros ? ?]
  | |- preserves _ (let _ := _ in _) => cbv zeta
  | |- preserves _ (match ?x with _ => _ end) => destruct x
  end.
Create HintDb frames.
Ltac frame := repeat first [ solve [auto with frames nocore] | frame_step ].

(** ** Expiry changes one database only *)

Definition other_dbs (d : Z) : relation server := fun s s' =>
  forall e, e <> d -> db_at s'.2 e = db_at s.2 e.
Global Instance other_dbs_pre d : PreOrder (other_dbs d).
Proof. split; [by intros s e|]. intros s1 s2 s3 H1 H2 e He. by rewrite H2, H1. Qed.

Lemma db_at_upd_ne {V} d e f (s : state V) : 0 <= d -> e <> d -> db_at (upd_db d f s) e = db_at s e.
Proof.
  intros Hd He. unfold db_at, znth. case_decide; [|done]. cbn. apply list_lookup_alter_ne. lia.
Qed.
Lemma db_in s d x s' : db d s = Some (x, s') -> 0 <= d /\ s' = s.
Proof.
  unfold db, get_state, opt, mbind, M_bind, db_at, znth. case_decide; [|done].
  cbn. destruct (_ !! _); [|done]. by intros [= _ <-].
Qed.
Lemma upd_dict_frame d f : preserves (other_dbs d) (upd_dict d f).
Proof.
  intros s a s' H. unfold upd_dict, mbind, M_bind in H. destruct (db d s) as [[x s1]|] eqn:E; [|done].
  apply db_in in E as [Hd ->]. injection H as _ <-. intros e He. by apply db_at_upd_ne.
Qed.
Lemma upd_expires_frame d f : preserves (other_dbs d) (upd_expires d f).
Proof.
  intros s a s' H. unfold upd_expires, mbind, M_bind in H. destruct (db d s) as [[x s1]|] eqn:E; [|done].
  apply db_in in E as [Hd ->]. injection H as _ <-. intros e He. by apply db_at_upd_ne.
Qed.
#[export] Hint Resolve upd_dict_frame upd_expires_frame : frames.

Lemma dbDelete_frame d key : preserves (other_dbs d) (dbDelete d key).
Proof. unfold dbDelete, decrRefCount. frame. Qed.
#[export] Hint Resolve dbDelete_frame : frames.
Lemma event_frame d e : preserves (other_dbs d) (modify (add_event e)).
Proof. by apply pres_modify. Qed.
#[export] Hint Resolve event_frame : frames.
Lemma expireIfNeeded_frame d key : preserves (other_dbs d) (expireIfNeeded d key).
Proof. unfold expireIfNeeded, getExpire, propagateExpire, notifyKeyspaceEvent. frame. Qed.
Lemma lookupKeyWrite_frame d key : preserves (other_dbs d) (lookupKeyWrite d key).
Proof.
  unfold lookupKeyWrite, lookupKey. apply pres_bind; [apply _|apply expireIfNeeded_frame|]. intros b. frame.
Qed.
