(* ===== verification/KeySpec.v ===== *)
(** The commands on keys of any type and on whole databases, specified on the
    abstract server.  [None]: the C code has undefined behaviour (a signed
    overflow).

    The commands of [Keyspace] implement it ([KeyProofs]). *)
From stdpp Require Import gmap list strings.
From S2P Require Import Prelude Util Sds SdsText Object Server Keyspace ServerRep ServerOps KeyspaceSpec StringSpec.
Local Open Scope c_scope.

(** ** Whole databases *)

Definition keys_in (d : Z) (a : state aval) : Z :=
  match db_at a d with Some x => Z.of_nat (size (db_dict x)) | None => 0 end.
Definition emptied {V} (x : redisDb V) : redisDb V := set_expires ∅ (set_dict ∅ x).
Definition a_clear (d : Z) (a : state aval) : state aval := upd_db d emptied a.
Definition a_clear_all (a : state aval) : state aval := set_dbs (emptied <$> s_dbs a) a.

Definition spec_flushdb (c d : Z) (a : state aval) : state aval :=
  tell c shared_ok_reply (a_clear d (signalFlushedDb d (add_dirty (keys_in d a) a))).
Definition spec_flushall (c : Z) (a : state aval) : state aval :=
  let n := foldr Z.add 0 ((fun x => Z.of_nat (size (db_dict x))) <$> s_dbs a) in
  add_dirty 1 (tell c shared_ok_reply (add_dirty n (a_clear_all (signalFlushedDb (-1) a)))).

(** ** Keys *)

Definition del_one (d : Z) (r : state aval * Z) (k : bytes) : state aval * Z :=
  let a := a_expire d k r.1 in
  if a_get d k a then (changed "del" d k (a_del d k a), r.2 + 1) else (a, r.2).
Definition spec_del (c d : Z) (keys : list bytes) (a : state aval) : state aval :=
  let '(a, n) := fold_left (del_one d) keys (a, 0) in tell_int c n a.

Definition spec_exists (c d : Z) (k : bytes) (a : state aval) : state aval :=
  let a := a_expire d k a in
  tell c (if a_get d k a then shared_cone else shared_czero) a.

(** The index is truncated to an [int]. *)
Definition spec_select (c : Z) (i : bytes) (a : state aval) : state aval :=
  match num i with
  | None => tell_error c "invalid DB index" a
  | Some i =>
      let i := s32 i in
      if (i <? 0) || (zlen (s_dbs a) <=? i) then tell_error c "invalid DB index" a
      else tell c shared_ok_reply (upd_client c (set_c_db i) a)
  end.

Definition spec_dbsize (c d : Z) (a : state aval) : state aval := tell_int c (keys_in d a) a.

Definition val_type (v : aval) : otype := match v with AStr _ => REDIS_STRING | AOther t => t end.
Definition spec_type (c d : Z) (k : bytes) (a : state aval) : state aval :=
  let a := a_expire d k a in
  match a_get d k a with
  | None => tell c (line "+none") a
  | Some v => tell c (43 :: bytes_of (type_name (val_type v)) ++ crlf) a
  end.

(** The value moves with its deadline; a key in the way is replaced or kept. *)
Definition spec_rename (c d : Z) (nx : bool) (src dst : bytes) (a : state aval) : state aval :=
  if bool_decide (src = dst) then tell c shared_sameobjecterr a else
  let a := a_expire d src a in
  match a_get d src a with
  | None => tell c shared_nokeyerr a
  | Some v =>
      let expire := default (-1) (a_deadline d src a) in
      let a := a_expire d dst a in
      if nx && bool_decide (is_Some (a_get d dst a)) then tell c shared_czero a
      else
        let a := if a_get d dst a then a_del d dst a else a in
        let a := a_add d dst v a in
        let a := if expire =? -1 then a else a_set_deadline d dst expire a in
        let a := signalModifiedKey d dst (signalModifiedKey d src (a_del d src a)) in
        let a := add_dirty 1 (noted "rename_to" d dst (noted "rename_from" d src a)) in
        tell c (if nx then shared_cone else shared_ok_reply) a
  end.

(** Neither watchers nor the deadline follow the key. *)
Definition spec_move (c src : Z) (k n : bytes) (a : state aval) : state aval :=
  match num n with
  | None => tell c shared_outofrangeerr a
  | Some dst =>
      if (dst <? 0) || (zlen (s_dbs a) <=? dst) || (2 ^ 31 - 1 <? dst) then tell c shared_outofrangeerr a
      else if src =? dst then tell c shared_sameobjecterr a
      else
        let a := a_expire src k a in
        match a_get src k a with
        | None => tell c shared_czero a
        | Some v =>
            let a := a_expire dst k a in
            if a_get dst k a then tell c shared_czero a
            else tell c shared_cone (add_dirty 1 (a_del src k (a_add dst k v a)))
        end
  end.

(** ** Deadlines *)

(** A deadline in the past deletes the key, and the command is rewritten. *)
Definition spec_expire (c d basetime : Z) (seconds : bool) (k n : bytes) (a : state aval)
    : option (state aval) :=
  match num n with
  | None => Some (tell_error c not_an_integer a)
  | Some t =>
      t ← (if seconds then ll_ok (t * 1000) else Some t);
      t ← ll_ok (t + basetime);
      let a := a_expire d k a in
      Some (match a_get d k a with
        | None => tell c shared_czero a
        | Some _ =>
            if (t <=? s_now a) && negb (s_loading a) && s_master a then
              let a := add_dirty 1 (a_del d k a) in
              let a := upd_client c (set_argv [AStr (bytes_of "DEL"); AStr k]) a in
              let a := upd_client c (set_cmd (Some del_command)) a in
              tell c shared_cone (noted "del" d k (signalModifiedKey d k a))
            else
              changed "expire" d k (tell c shared_cone (a_set_deadline d k t a))
        end)
  end.

Definition spec_ttl (c d : Z) (ms : bool) (k : bytes) (a : state aval) : option (state aval) :=
  let a := a_expire d k a in
  match a_get d k a with
  | None => Some (tell_int c (-2) a)
  | Some _ =>
      let expire := default (-1) (a_deadline d k a) in
      if expire =? -1 then Some (tell_int c (-1) a)
      else
        left ← ll_ok (expire - s_now a);
        n ← (if ms then Some (Z.max 0 left) else n ← ll_ok (Z.max 0 left + 500); Some (n / 1000));
        Some (tell_int c n a)
  end.

(** The key is not expired first. *)
Definition spec_persist (c d : Z) (k : bytes) (a : state aval) : state aval :=
  if a_get d k a then
    if a_deadline d k a then add_dirty 1 (tell c shared_cone (a_persist d k a))
    else tell c shared_czero (a_persist d k a)
  else tell c shared_czero a.

(** The command with its arguments, the name first. *)
Definition spec_key (p : proc) (c d : Z) (args : list bytes) (a : state aval) : option (state aval) :=
  match p, args with
  | P_flushdb, [_] => Some (spec_flushdb c d a)
  | P_flushall, [_] => Some (spec_flushall c a)
  | P_del, _ :: keys => Some (spec_del c d keys a)
  | P_exists, [_; k] => Some (spec_exists c d k a)
  | P_select, [_; i] => Some (spec_select c i a)
  | P_dbsize, [_] => Some (spec_dbsize c d a)
  | P_type, [_; k] => Some (spec_type c d k a)
  | P_rename, [_; src; dst] => Some (spec_rename c d false src dst a)
  | P_renamenx, [_; src; dst] => Some (spec_rename c d true src dst a)
  | P_move, [_; k; n] => Some (spec_move c d k n a)
  | P_expire, [_; k; n] => spec_expire c d (s_now a) true k n a
  | P_expireat, [_; k; n] => spec_expire c d 0 true k n a
  | P_pexpire, [_; k; n] => spec_expire c d (s_now a) false k n a
  | P_pexpireat, [_; k; n] => spec_expire c d 0 false k n a
  | P_ttl, [_; k] => spec_ttl c d false k a
  | P_pttl, [_; k] => spec_ttl c d true k a
  | P_persist, [_; k] => Some (spec_persist c d k a)
  | _, _ => None
  end.

(** The procedures of the command table. *)
Definition run_key (P : platform) (p : proc) (c : Z) : M unit :=
  match p with
  | P_flushdb => flushdbCommand c | P_flushall => flushallCommand c
  | P_del => delCommand P c | P_exists => existsCommand c
  | P_select => selectCommand c | P_dbsize => dbsizeCommand P c | P_type => typeCommand c
  | P_rename => renameCommand c | P_renamenx => renamenxCommand c | P_move => moveCommand c
  | P_expire => expireCommand P c | P_expireat => expireatCommand P c
  | P_pexpire => pexpireCommand P c | P_pexpireat => pexpireatCommand P c
  | P_ttl => ttlCommand P c | P_pttl => pttlCommand P c | P_persist => persistCommand c
  | _ => fail
  end.
