(* ===== verification/KeyProofs.v ===== *)
(** The commands on keys and databases implement their specification: [Keyspace]
    against [KeySpec]. *)
From stdpp Require Import gmap list strings.
From S2P Require Import Prelude Util Sds SdsText Object Server Keyspace ServerRep ServerOps KeyspaceSpec StringCmd StringSpec StringProofs StringEdits Frames KeySpec.
Local Open Scope c_scope.

Lemma wp_framed {A} R (m : M A) s (Q : A -> server -> Prop) :
  wp m s Q -> preserves R m -> wp m s (fun a s' => Q a s' /\ R s s').
Proof. intros (a & s' & Hm & HQ) HR. exists a, s'. split; [done|]. split; [done|by eapply HR]. Qed.

Lemma ll_ok_in x y : ll_ok x = Some y -> in_s 64 y.
Proof. unfold ll_ok. case_decide; [|done]. by intros [= <-]. Qed.

Section Keys.
Context (P : platform) {HP : PlatformOk P} (c d : Z) (F : list (Z * aval)).
Implicit Types (s : server) (a : state aval) (L : list Z) (K : list (Z * bytes)).

(** ** One key *)

Lemma exists_meets n k : meets P c d F (existsCommand c) [n; k] (fun _ a => Some (spec_exists c d k a)).
Proof.
  start HR H. injection Hspec as <-. unfold spec_exists.
  apply wp_bind. eapply wp_seldb; [exact H|exact Hsel|]. apply wp_bind. eapply wp_argv; [exact H|done|].
  apply wp_bind. eapply (wp_expireIfNeeded P); [exact H|cbn; inK|hasdb|]. intros b s1 H1.
  apply wp_bind, wp_bind. eapply (wp_lookupKey P); [exact H1|cbn; inK|hasdb| |].
  - intros Hn. apply wp_ret. rewrite Hn. eapply wp_tell; [exact H1|]. intros s2 H2 _ _. by eexists _, _.
  - intros o ob v Hv _ _ _. apply wp_ret. rewrite Hv. eapply wp_tell; [exact H1|]. intros s2 H2 _ _. by eexists _, _.
Qed.

Lemma type_of_value ob v : abs_obj P ob = v -> o_type ob = val_type v.
Proof. unfold abs_obj, is_string. case_bool_decide; by intros <-. Qed.

Lemma type_meets n k : meets P c d F (typeCommand c) [n; k] (fun _ a => Some (spec_type c d k a)).
Proof.
  start HR H. injection Hspec as <-. unfold spec_type.
  apply wp_bind. eapply wp_seldb; [exact H|exact Hsel|]. apply wp_bind. eapply wp_argv; [exact H|done|].
  apply wp_bind. eapply (wp_lookupKeyRead P); [exact H|cbn; inK|hasdb| |].
  - intros -> s1 H1. eapply wp_tell; [exact H1|]. intros s2 H2 _ _. by eexists _, _.
  - intros o ob v s1 -> H1 Ho Hob _. apply wp_bind, (wp_obj _ ob); [done|].
    rewrite (type_of_value ob v Hob). eapply wp_tell; [exact H1|]. intros s2 H2 _ _. by eexists _, _.
Qed.

(** The keys of a database are no more than the references of the server. *)
Lemma keys_bound s L args cmd a e : Ready P c d F s L args cmd a -> 0 <= keys_in e a <= weight a.
Proof.
  intros HR. unfold keys_in. destruct (db_at a e) as [x|] eqn:Hx; [|pose proof (zlen_nonneg (roots a)); unfold weight; lia].
  split; [lia|]. unfold db_at, znth in Hx. case_decide; [|done].
  destruct (list_elem_of_split_length _ _ _ Hx) as (l1 & l2 & E & _).
  unfold weight, roots, dbs_roots. rewrite E, fmap_app, fmap_cons, concat_app. cbn [concat compose].
  rewrite !zlen_app. unfold zlen, dict_roots. cbn. rewrite length_fmap, length_map_to_list. lia.
Qed.
Lemma keys_at s L K a e x : At P s c L F K a -> db_at s.2 e = Some x ->
  Z.of_nat (size (db_dict x)) = keys_in e a.
Proof.
  intros H Hx. unfold keys_in. rewrite <- (at_abs _ _ _ _ _ _ _ H). unfold abs. rewrite map_db_at, Hx. cbn.
  by rewrite map_size_fmap.
Qed.

Lemma dbsize_meets n : meets P c d F (dbsizeCommand P c) [n] (fun _ a => Some (spec_dbsize c d a)).
Proof.
  start HR H. injection Hspec as <-. unfold spec_dbsize.
  destruct (at_db P s c _ _ _ a d _ H (db_the a d Hd)) as (y & Hy & _).
  apply wp_bind. eapply wp_seldb; [exact H|exact Hsel|]. apply wp_bind, (wp_db d y); [done|].
  rewrite (keys_at s _ _ a d y H Hy). eapply wp_tell_int; [exact H| |].
  - pose proof (keys_bound s _ _ cmd a d HR). pose proof (r_room _ _ _ _ _ _ _ _ _ HR) as Hr. unfold room in Hr.
    pose proof (zlen_nonneg (shared P)). change (zlen [n]) with 1 in Hr. pose proof (zlen_nonneg F). cint.
  - intros s1 H1. by eexists _, _.
Qed.

Lemma ttl_meets ms n k : meets P c d F (ttlGenericCommand P c ms) [n; k] (fun _ a => spec_ttl c d ms k a).
Proof.
  start HR H. unfold spec_ttl in Hspec.
  apply wp_bind. eapply wp_seldb; [exact H|exact Hsel|]. apply wp_bind. eapply wp_argv; [exact H|done|].
  apply wp_bind. eapply (wp_lookupKeyRead P); [exact H|cbn; inK|hasdb| |].
  - intros Hn s1 H1. rewrite Hn in Hspec. injection Hspec as <-. eapply wp_tell_int; [exact H1|by_decide|].
    intros s2 H2. by eexists _, _.
  - intros o ob v s1 Hv H1 _ _ _. rewrite Hv in Hspec.
    apply wp_bind. eapply (wp_getExpire P); [exact H1|cbn; inK|hasdb|].
    set (expire := default (-1) _) in *. destruct (Z.eqb_spec expire (-1)) as [E|E]; cbn [negb].
    { injection Hspec as <-. apply wp_bind, wp_ret. eapply wp_tell_int; [exact H1|by_decide|].
      intros s2 H2. by eexists _, _. }
    apply wp_bind, wp_bind, wp_get. destruct (at_flags P s1 c _ _ _ _ H1) as (-> & _).
    destruct (ll_ok (expire - s_now (a_expire d k a))) as [left|] eqn:El; [|done].
    apply wp_bind, (wp_opt _ left), wp_ret; [done|]. cbn [mbind option_bind] in Hspec. apply ll_ok_in in El.
    replace (if left <? 0 then 0 else left) with (Z.max 0 left) by (destruct (Z.ltb_spec left 0); lia).
    destruct (Z.eqb_spec (Z.max 0 left) (-1)) as [|_]; [lia|]. destruct ms.
    { injection Hspec as <-. apply wp_bind, wp_ret. eapply wp_tell_int; [exact H1|cint|].
      intros s2 H2. by eexists _, _. }
    destruct (ll_ok (Z.max 0 left + 500)) as [m|] eqn:Em; [|done]. injection Hspec as <-.
    apply wp_bind, wp_bind, (wp_opt _ m), wp_ret; [done|].
    assert (m = Z.max 0 left + 500) as -> by (unfold ll_ok in Em; case_decide; congruence).
    apply ll_ok_in in Em. rewrite Z.quot_div_nonneg by lia.
    eapply wp_tell_int; [exact H1| |intros s2 H2; by eexists _, _].
    pose proof (Z.div_pos (Z.max 0 left + 500) 1000). pose proof (Z.div_le_upper_bound (Z.max 0 left + 500) 1000 (Z.max 0 left + 500)).
    cint.
Qed.

Lemma persist_meets n k : meets P c d F (persistCommand c) [n; k] (fun _ a => Some (spec_persist c d k a)).
Proof.
  start HR H. injection Hspec as <-. unfold spec_persist.
  apply wp_bind. eapply wp_seldb; [exact H|exact Hsel|]. apply wp_bind. eapply wp_argv; [exact H|done|].
  apply wp_bind. eapply (wp_lookupKey P); [exact H|cbn; inK|hasdb| |].
  - intros ->. eapply wp_tell; [exact H|]. intros s2 H2 _ _. by eexists _, _.
  - intros o ob v Hv _ _ _. rewrite Hv. apply wp_bind.
    eapply (wp_removeExpire P); [exact H|cbn; inK|hasdb|by rewrite Hv|]. intros s1 H1 _.
    destruct (a_deadline d k a); cbn.
    + apply wp_bind. eapply wp_tell; [exact H1|]. intros s2 H2 _ _. eapply wp_dirty; [exact H2|].
      intros s3 H3 _ _. by eexists _, _.
    + eapply wp_tell; [exact H1|]. intros s2 H2 _ _. by eexists _, _.
Qed.

(** ** DEL and SELECT *)

Lemma dbnum_del_one r k : zlen (s_dbs (del_one d r k).1) = zlen (s_dbs r.1).
Proof. unfold del_one. cbv zeta. destruct (a_get _ _ _); cbn [fst]; by autorewrite with dbnum. Qed.

Lemma wp_del_loop xs : forall keys s L K a n (Q : Z -> server -> Prop), At P s c L F K a ->
  0 <= d < zlen (s_dbs a) -> Forall2 (fun x k => (x, k) ∈ K) xs keys ->
  (let r := fold_left (del_one d) keys (a, n) in
   forall s', At P s' c L F K r.1 -> n <= r.2 <= n + zlen keys -> Q r.2 s') ->
  wp (del_loop c d xs n) s Q.
Proof.
  induction xs as [|x xs IH]; intros keys s L K a n Q H Hd Hf HQ;
    [apply Forall2_nil_inv_l in Hf as ->|apply Forall2_cons_inv_l in Hf as (k & ks & Hx & Hxs & ->)].
  { apply wp_ret. apply HQ; [done|]. rewrite zlen_nil. cbn. lia. }
  cbv zeta in HQ. cbn [fold_left] in HQ. rewrite zlen_cons in HQ. pose proof (dbnum_del_one (a, n) k) as Hz.
  cbn [del_loop]. apply wp_bind. eapply (wp_expireIfNeeded P); [exact H|exact Hx|hasdb|]. intros b s1 H1.
  assert (E : del_one d (a, n) k = if a_get d k (a_expire d k a)
    then (changed "del" d k (a_del d k (a_expire d k a)), n + 1) else (a_expire d k a, n)) by done.
  rewrite E in HQ, Hz. apply wp_bind. eapply (wp_dbDelete P); [exact H1|exact Hx|hasdb| |].
  - intros Hn s2 H2. rewrite Hn in HQ, Hz. cbn [fst] in Hz.
    eapply (IH ks); [exact H2|by rewrite Hz|exact Hxs|]. cbv zeta. intros s3 H3 Hb. apply HQ; [done|lia].
  - intros [v Hv] s2 H2. rewrite Hv in HQ, Hz. cbn [fst] in Hz. eapply wp_changed; [exact H2|exact Hx|].
    intros s3 H3 _. eapply (IH ks); [exact H3|by rewrite Hz|exact Hxs|].
    cbv zeta. intros s4 H4 Hb. apply HQ; [done|lia].
Qed.

Lemma del_meets n keys : meets P c d F (delCommand P c) (n :: keys) (fun _ a => Some (spec_del c d keys a)).
Proof.
  start HR H. injection Hspec as <-. unfold spec_del. destruct (at_argv _ _ _ _ _ _ _ H) as (cl & Hc & HL).
  apply wp_bind. eapply wp_seldb; [exact H|exact Hsel|]. apply wp_bind, (wp_client c cl); [done|]. rewrite HL.
  apply wp_bind. eapply (wp_del_loop L keys); [exact H|exact Hd| |].
  { apply args_zip; [done|]. intros p Hp. cbn. by right. }
  cbv zeta. destruct (fold_left _ keys (a, 0)) as [a1 m]. cbn [fst snd]. intros s1 H1 Hm.
  eapply wp_tell_int; [exact H1| |intros s2 H2; by eexists _, _].
  pose proof (r_room _ _ _ _ _ _ _ _ _ HR) as Hr. unfold room, weight in Hr. rewrite zlen_cons in Hr.
  pose proof (zlen_nonneg F). pose proof (zlen_nonneg (shared P)). pose proof (zlen_nonneg (roots a)). cint.
Qed.

Lemma At_select s L K a i : At P s c L F K a -> 0 <= i < zlen (s_dbs a) ->
  At P (s.1, upd_client c (set_c_db i) s.2) c L F K (upd_client c (set_c_db i) a).
Proof.
  intros H Hi. destruct (at_argv _ _ _ _ _ _ _ H) as (cl & Hc & _).
  destruct (at_db P s c _ _ _ a i _ H (db_the a i Hi)) as (y & Hy & _).
  apply (At_quiet P s c L F K a); [done| |].
  2: { rewrite <- (at_abs _ _ _ _ _ _ _ H). by apply map_upd_client. }
  split; [|intros c' cl' Hc'|done|intros Hdb c' cl' Hc'; cbn in Hc'|].
  4: { intros e cl' He. cbn in He. destruct (decide (e = c)) as [->|].
       - rewrite lookup_alter_eq, Hc in He. injection He as <-. by exists cl.
       - rewrite lookup_alter_ne in He by done. by exists cl'. }
  - intros o. rewrite (cnt_upd_client o s.2 c cl) by done. unfold client_roots. cbn. lia.
  - cbn. destruct (decide (c' = c)) as [->|]; [|rewrite lookup_alter_ne by done; by exists cl'].
    rewrite lookup_alter_eq, Hc'. by eexists.
  - change (db_at _ _) with (db_at s.2 (c_db cl')). destruct (decide (c' = c)) as [->|].
    + rewrite lookup_alter_eq, Hc in Hc'. injection Hc' as <-. by exists y.
    + rewrite lookup_alter_ne in Hc' by done. by apply (Hdb c').
Qed.

Lemma select_meets n i : meets P c d F (selectCommand c) [n; i] (fun _ a => Some (spec_select c i a)).
Proof.
  start HR H. injection Hspec as <-. unfold spec_select.
  apply wp_bind. eapply wp_argv; [exact H|done|].
  destruct (key_rep P s c _ _ _ a z0 i H) as (ob & Ho & Hr & _); [cbn; inK|].
  apply wp_bind. eapply wp_getLongOr; [exact H|exact Ho|exact Hr| |].
  2: { unfold num. intros -> s1 H1 _ _. apply wp_ret. by eexists _, _. }
  unfold num. intros v -> _. apply wp_bind, wp_bind, wp_get.
  assert (Ez : zlen (s_dbs s.2) = zlen (s_dbs a)).
  { rewrite <- (at_abs _ _ _ _ _ _ _ H). cbn. by rewrite zlen_fmap. }
  rewrite Ez. destruct (Z.ltb_spec (s32 v) 0) as [|H0].
  { apply wp_ret. eapply wp_tell_error; [exact H|]. intros s1 H1. by eexists _, _. }
  destruct (Z.leb_spec (zlen (s_dbs a)) (s32 v)) as [|H1].
  { apply wp_ret. eapply wp_tell_error; [exact H|]. intros s1 H2. by eexists _, _. }
  destruct (at_argv _ _ _ _ _ _ _ H) as (cl & Hc & _). cbn [orb].
  apply wp_bind, (wp_upd c cl); [done|]. apply wp_ret.
  eapply wp_tell; [by apply At_select|]. intros s2 H2 _ _. by eexists _, _.
Qed.

(** ** RENAME *)

Lemma a_get_del e e' k k' a : 0 <= e' < zlen (s_dbs a) ->
  a_get e k (a_del e' k' a) = if decide (e = e' /\ k = k') then None else a_get e k a.
Proof.
  intros [x Hx]%db_at_range. unfold a_get, a_del. rewrite (db_at_upd e' e _ a x Hx).
  destruct (decide (e = e')) as [->|]; [|by rewrite decide_False by tauto].
  rewrite Hx. cbn. destruct (decide (k = k')) as [->|].
  - by rewrite lookup_delete_eq, decide_True.
  - rewrite lookup_delete_ne by done. by rewrite decide_False by tauto.
Qed.
Lemma a_get_expire_ne e e' k k' a : 0 <= e' < zlen (s_dbs a) -> (e, k) <> (e', k') ->
  a_get e k (a_expire e' k' a) = a_get e k a.
Proof.
  intros He Hne. unfold a_expire. destruct (due e' k' a); [|done].
  rewrite a_get_del by done. rewrite decide_False by (intros [-> ->]; done). done.
Qed.
Lemma a_get_set_if e e' k k' v a : 0 <= e' < zlen (s_dbs a) ->
  a_get e k (a_set e' k' v a) = if decide (e = e' /\ k = k') then Some v else a_get e k a.
Proof.
  intros [x Hx]%db_at_range. unfold a_get, a_set. rewrite (db_at_upd e' e _ a x Hx).
  destruct (decide (e = e')) as [->|]; [|by rewrite decide_False by tauto].
  rewrite Hx. cbn. destruct (decide (k = k')) as [->|].
  - by rewrite lookup_insert_eq, decide_True.
  - rewrite lookup_insert_ne by done. by rewrite decide_False by tauto.
Qed.
Lemma a_get_add e e' k k' v a : 0 <= e' < zlen (s_dbs a) ->
  a_get e k (a_add e' k' v a) = if decide (e = e' /\ k = k') then Some v else a_get e k a.
Proof. intros He. rewrite <- a_get_set_if by done. by destruct v as [|[]]. Qed.
Lemma a_get_deadline e e' k k' t a : 0 <= e' < zlen (s_dbs a) ->
  a_get e k (a_set_deadline e' k' t a) = a_get e k a.
Proof.
  intros [x Hx]%db_at_range. unfold a_get, a_set_deadline. rewrite (db_at_upd e' e _ a x Hx).
  destruct (decide (e = e')) as [->|]; [by rewrite Hx|done].
Qed.
Lemma dbnum_add e k v a : zlen (s_dbs (a_add e k v a)) = zlen (s_dbs a).
Proof. destruct v as [|[]]; apply dbnum_set. Qed.
#[local] Hint Rewrite dbnum_add : dbnum.

(** The value is stored under the new name and removed under the old one. *)
Lemma wp_renamed s L K a o v xs src xd dst expire (nx : bool) (Q : unit -> server -> Prop) :
  At P s c L ((o, v) :: F) K a -> 0 <= d < zlen (s_dbs a) -> (xs, src) ∈ K -> (xd, dst) ∈ K -> src <> dst ->
  is_Some (a_get d src a) -> a_get d dst a = None ->
  (let b := a_add d dst v a in
   let b := if expire =? -1 then b else a_set_deadline d dst expire b in
   let b := signalModifiedKey d dst (signalModifiedKey d src (a_del d src b)) in
   forall s', At P s' c L F K (tell c (if nx then shared_cone else shared_ok_reply)
     (add_dirty 1 (noted "rename_to" d dst (noted "rename_from" d src b)))) -> Q tt s') ->
  wp (dbAdd d xd o;;
      when (negb (expire =? -1)) (setExpire d xd expire);;
      dbDelete d xs;;
      signal d xs;; signal d xd;;
      notify "rename_from" d xs;; notify "rename_to" d xd;;
      dirty 1;;
      addReplyString c (if nx then shared_cone else shared_ok_reply)) s Q.
Proof.
  intros H Hd Hs Hdst Hne Hsrc Hn HQ. cbv zeta in HQ.
  apply wp_bind. eapply wp_dbAdd; [exact H|exact Hdst|hasdb|exact Hn|]. intros s1 H1 _ _.
  set (b := if expire =? -1 then _ else _) in HQ. apply wp_bind.
  apply (wp_mono _ _ (fun _ s' => At P s' c L F K b)).
  { unfold b. destruct (expire =? -1); cbn [negb when]; [by apply wp_ret|].
    eapply (wp_setExpire P); [exact H1|exact Hdst|apply db_the; by autorewrite with dbnum| |by intros s2 H2 _].
    rewrite a_get_add by done. by rewrite decide_True. }
  intros [] s2 H2. assert (Hb : zlen (s_dbs b) = zlen (s_dbs a)).
  { unfold b. destruct (expire =? -1); by autorewrite with dbnum. }
  assert (Hg : is_Some (a_get d src b)).
  { unfold b. destruct (expire =? -1); [|rewrite a_get_deadline by (by autorewrite with dbnum)];
      rewrite a_get_add by done; by rewrite decide_False by naive_solver. }
  apply wp_bind. eapply (wp_dbDelete P); [exact H2|exact Hs|by apply db_the; rewrite Hb| |].
  { intros Hno. rewrite Hno in Hg. by destruct Hg. }
  intros _ s3 H3. apply wp_bind. eapply wp_signal; [exact H3|exact Hs|]. intros s4 H4 _ _.
  apply wp_bind. eapply wp_signal; [exact H4|exact Hdst|]. intros s5 H5 _ _.
  apply wp_bind. eapply wp_notify; [exact H5|exact Hs|]. intros s6 H6 _ _.
  apply wp_bind. eapply wp_notify; [exact H6|exact Hdst|]. intros s7 H7 _ _.
  apply wp_bind. eapply wp_dirty; [exact H7|]. intros s8 H8 _ _.
  eapply wp_tell; [exact H8|]. intros s9 H9 _ _. by apply HQ.
Qed.

Lemma rename_meets nx n src dst : meets P c d F (renameGenericCommand c nx) [n; src; dst]
  (fun _ a => Some (spec_rename c d nx src dst a)).
Proof.
  start HR H. injection Hspec as <-. unfold spec_rename.
  apply wp_bind. eapply wp_seldb; [exact H|exact Hsel|]. apply wp_bind. eapply wp_argv; [exact H|done|].
  apply wp_bind. eapply wp_argv; [exact H|done|].
  apply wp_bind, wp_bind. eapply wp_str; [exact H|cbn; inK|].
  apply wp_bind. eapply wp_str; [exact H|cbn; inK|]. apply wp_ret.
  case_bool_decide as Hne.
  { eapply wp_tell; [exact H|]. intros s1 H1 _ _. by eexists _, _. }
  apply wp_bind, wp_bind. eapply (wp_lookupKeyWrite P); [exact H|cbn; inK|hasdb| |].
  { intros -> s1 H1. apply wp_bind. eapply wp_tell; [exact H1|]. intros s2 H2 _ _.
    apply wp_ret, wp_ret. by eexists _, _. }
  intros o ob v s1 Hv H1 Ho Hob Hl. rewrite Hv. apply wp_ret. cbv zeta.
  pose proof (r_room _ _ _ _ _ _ _ _ _ HR) as Hroom. change (zlen [n; src; dst]) with 3 in Hroom.
  apply (room_le P a _ _ (weight_expire d src a _ (db_the a d Hd))) in Hroom.
  apply wp_bind. eapply (wp_incr P _ _ _ o F _ _ 1); [exact H1|by eapply held_root, lives_root|..].
  { unfold room in *. lia. }
  { done. }
  intros h H2 _. assert (Hvo : abs_addr P s1.1 o = v) by (unfold abs_addr; by rewrite Ho).
  rewrite Hvo in H2. apply wp_bind.
  eapply (wp_getExpire P); [exact H2|cbn; inK|hasdb|]. set (expire := default (-1) _).
  set (a1 := a_expire d src a) in *. assert (Hd1 : 0 <= d < zlen (s_dbs a1)) by (unfold a1; by autorewrite with dbnum).
  assert (Hsrc : forall b, a_get d src b = a_get d src (a_expire d dst a1) -> is_Some (a_get d src b)).
  { intros b ->. rewrite a_get_expire_ne by (by try congruence). by rewrite Hv. }
  apply wp_bind. eapply (wp_lookupKeyWrite P); [exact H2|cbn; inK|hasdb| |].
  - intros Hn s3 H3. rewrite Hn. rewrite !bool_decide_false by (by intros []). cbn [andb when].
    rewrite andb_false_r. apply wp_bind, wp_ret.
    eapply wp_renamed; [exact H3|by autorewrite with dbnum|cbn; inK|cbn; inK|exact Hne|by apply Hsrc|exact Hn|].
    intros s4 H4. by eexists _, _.
  - intros o' ob' v' s3 Hn H3 _ _ _. rewrite Hn. rewrite !bool_decide_true by done. rewrite andb_true_r. cbn [andb].
    destruct nx.
    { apply wp_bind. eapply wp_decr; [exact H3|]. intros h' H4 _ _. eapply wp_tell; [exact H4|].
      intros s5 H5 _ _. by eexists _, _. }
    assert (Hd2 : 0 <= d < zlen (s_dbs (a_expire d dst a1))) by (by autorewrite with dbnum).
    cbn [when]. apply wp_bind, wp_bind. eapply (wp_dbDelete P); [exact H3|cbn; inK|hasdb|by rewrite Hn|].
    intros _ s4 H4. apply wp_ret.
    eapply (wp_renamed _ _ _ _ _ _ _ src _ dst _ false); [exact H4|by autorewrite with dbnum|cbn; inK|cbn; inK|exact Hne| | |].
    + apply Hsrc. rewrite a_get_del by done. by rewrite decide_False by naive_solver.
    + rewrite a_get_del by done. by rewrite decide_True.
    + intros s5 H5. by eexists _, _.
Qed.

(** ** MOVE *)

(** The source's object is still there after the destination was looked up. *)
Lemma wp_lookup_other s L K a key k e o (Q : option Z -> server -> Prop) :
  At P s c L F K a -> (key, k) ∈ K -> 0 <= e < zlen (s_dbs a) -> d <> e -> lives s d k o ->
  (a_get e k (a_expire e k a) = None -> forall s', At P s' c L F K (a_expire e k a) -> lives s' d k o -> Q None s') ->
  (forall o' v s', a_get e k (a_expire e k a) = Some v -> At P s' c L F K (a_expire e k a) -> Q (Some o') s') ->
  wp (lookupKeyWrite e key) s Q.
Proof.
  intros H Hin He Hne (y & Hy & Hk) Hnone Hsome.
  set (Q' := fun (r : option Z) s' => At P s' c L F K (a_expire e k a) /\
    match r with Some _ => is_Some (a_get e k (a_expire e k a)) | None => a_get e k (a_expire e k a) = None end).
  assert (HQ' : wp (lookupKeyWrite e key) s Q').
  { eapply (wp_lookupKeyWrite P); [exact H|exact Hin|by apply db_the|by intros Hn s1 H1|].
    intros o' ob v s1 Hv H1 _ _ _. split; [done|]. by rewrite Hv. }
  eapply wp_mono; [exact (wp_framed (other_dbs e) _ s _ HQ' (lookupKeyWrite_frame e key))|].
  intros [o'|] s1 [[H1 Hr] HR]; [destruct Hr as [v Hv]; by eapply Hsome|].
  apply Hnone; [done|done|]. exists y. by rewrite HR.
Qed.

Lemma move_meets n k i : meets P c d F (moveCommand c) [n; k; i] (fun _ a => Some (spec_move c d k i a)).
Proof.
  start HR H. injection Hspec as <-. unfold spec_move.
  apply wp_bind. eapply wp_seldb; [exact H|exact Hsel|]. apply wp_bind. eapply wp_argv; [exact H|done|].
  apply wp_bind. eapply wp_argv; [exact H|done|].
  destruct (key_rep P s c _ _ _ a z1 i H) as (ob & Ho & Hr & _); [cbn; inK|].
  apply wp_bind, (wp_obj _ ob); [done|].
  apply wp_bind. eapply wp_opt; [by apply getLongLong_value|]. apply wp_bind, wp_get.
  change (atoll (until_zero i)) with (num i). destruct (num i) as [e|].
  2: { eapply wp_tell; [exact H|]. intros s1 H1 _ _. by eexists _, _. }
  assert (Ez : zlen (s_dbs s.2) = zlen (s_dbs a)).
  { rewrite <- (at_abs _ _ _ _ _ _ _ H). cbn. by rewrite zlen_fmap. }
  rewrite Ez.
  assert (Eb : (e <? - 2 ^ 31) || (2 ^ 31 - 1 <? e) || (e <? 0) || (zlen (s_dbs a) <=? e) =
    (e <? 0) || (zlen (s_dbs a) <=? e) || (2 ^ 31 - 1 <? e)).
  { apply eq_true_iff_eq. rewrite !orb_true_iff, !Z.ltb_lt, Z.leb_le. lia. }
  rewrite Eb. destruct ((e <? 0) || _ || _) eqn:Er.
  { eapply wp_tell; [exact H|]. intros s1 H1 _ _. by eexists _, _. }
  apply orb_false_iff in Er as [Er _]. apply orb_false_iff in Er as [E0 E1].
  apply Z.ltb_ge in E0. apply Z.leb_gt in E1.
  destruct (Z.eqb_spec d e) as [|Hne].
  { eapply wp_tell; [exact H|]. intros s1 H1 _ _. by eexists _, _. }
  apply wp_bind. eapply (wp_lookupKeyWrite P); [exact H|cbn; inK|hasdb| |].
  { intros -> s1 H1. eapply wp_tell; [exact H1|]. intros s2 H2 _ _. by eexists _, _. }
  intros o ob' v s1 Hv H1 _ _ Hl. rewrite Hv. cbv zeta.
  apply wp_bind. eapply wp_lookup_other; [exact H1|cbn; inK|by autorewrite with dbnum|exact Hne|exact Hl| |].
  2: { intros o' v' s2 -> H2. eapply wp_tell; [exact H2|]. intros s3 H3 _ _. by eexists _, _. }
  intros Hn s2 H2 Hl2. rewrite Hn.
  set (a1 := a_expire d k a) in *. assert (Hz1 : zlen (s_dbs a1) = zlen (s_dbs a)) by apply dbnum_expire.
  set (a2 := a_expire e k a1) in *. assert (Hz2 : zlen (s_dbs a2) = zlen (s_dbs a)) by (unfold a2; by rewrite dbnum_expire).
  assert (Hg : a_get d k a2 = Some v).
  { unfold a2. rewrite a_get_expire_ne by (lia || congruence). exact Hv. }
  eapply (wp_assoc _ _ _ (fun _ s' => At P s' c _ F _ (a_add e k v a2))).
  { eapply (wp_add_ref P); [exact H2|cbn; inK|apply db_the; lia|exact Hn| | | |by intros s3 H3 _].
    - by eapply held_root, lives_root.
    - rewrite (at_get P s2 c _ _ _ a2 d k o H2 Hl2) in Hg. congruence.
    - eapply room_le; [|by eapply room1]. etransitivity; [by eapply weight_expire, db_the; lia|].
      by eapply weight_expire, db_the. }
  intros [] s3 H3. apply wp_bind.
  assert (Hg3 : a_get d k (a_add e k v a2) = Some v).
  { rewrite a_get_add by lia. rewrite decide_False by naive_solver. exact Hg. }
  eapply (wp_dbDelete P); [exact H3|cbn; inK|apply db_the; rewrite dbnum_add; lia|by rewrite Hg3|].
  intros _ s4 H4. apply wp_bind. eapply wp_dirty; [exact H4|]. intros s5 H5 _ _.
  eapply wp_tell; [exact H5|]. intros s6 H6 _ _. by eexists _, _.
Qed.

(** ** Rewriting the arguments *)

(** References taken go to the client, the ones it had become temporaries. *)
Lemma At_set_argv s L (args : list (Z * aval)) G K K' a :
  At P s c L (args ++ G) K a -> (forall o bs, (o, bs) ∈ K' -> (o, bs) ∈ K /\ o ∈ args.*1) ->
  At P (s.1, upd_client c (set_argv args.*1) s.2) c args.*1
    (((fun o => (o, abs_addr P s.1 o)) <$> L) ++ G) K' (upd_client c (set_argv args.*2) a).
Proof.
  intros H HK. pose proof (at_wf _ _ _ _ _ _ _ H) as Hwf.
  destruct (at_argv _ _ _ _ _ _ _ H) as (cl & Hc & HL).
  assert (Etemps : (((fun o => (o, abs_addr P s.1 o)) <$> L) ++ G).*1 = L ++ G.*1).
  { rewrite fmap_app, <- list_fmap_compose. f_equal. change (fst ∘ _) with (id : Z -> Z). apply list_fmap_id. }
  assert (Hvals : abs_addr P s.1 <$> args.*1 = args.*2).
  { rewrite <- list_fmap_compose. apply list_fmap_ext. intros i [o v] Hi. cbn.
    apply (at_temps _ _ _ _ _ _ _ H). apply elem_of_app. left. by eapply list_elem_of_lookup_2. }
  split; [split| | | |].
  - intros q. rewrite (wf_refs P s _ Hwf). unfold held. cbn [fst snd].
    rewrite Etemps, (cnt_upd_client q s.2 c cl) by done.
    unfold client_roots. cbn. rewrite HL, fmap_app, !cnt_app. lia.
  - apply (wf_objs P s _ Hwf).
  - apply (wf_shared P s _ Hwf).
  - apply (wf_expires P s _ Hwf).
  - intros i cl' Hi. cbn in Hi. change (db_at _ _) with (db_at s.2 (c_db cl')).
    destruct (decide (i = c)) as [->|]; [|rewrite lookup_alter_ne in Hi by done; by apply (wf_db P s _ Hwf i)].
    rewrite lookup_alter_eq, Hc in Hi. injection Hi as <-. by apply (wf_db P s _ Hwf c cl).
  - apply queue_set_argv, (wf_queue P s _ Hwf).
  - rewrite <- (at_abs _ _ _ _ _ _ _ H). unfold abs. apply map_upd_client. intros x.
    unfold map_client. cbn. by rewrite Hvals.
  - exists (set_argv args.*1 cl). split; [cbn; by rewrite lookup_alter_eq, Hc|done].
  - intros o v [Hov|Hov]%elem_of_app.
    + apply list_elem_of_fmap in Hov as (q & [= -> ->] & _). done.
    + apply (at_temps _ _ _ _ _ _ _ H). apply elem_of_app. by right.
  - intros o bs Hin. destruct (HK o bs Hin) as [H1 H2]. split; [done|].
    by apply (at_keys _ _ _ _ _ _ _ H).
Qed.

Lemma wp_each_decr (l : list (Z * aval)) : forall s L G K a (Q : unit -> server -> Prop),
  At P s c L (l ++ G) K a -> (forall h, At P (h, s.2) c L G K a -> Q tt (h, s.2)) ->
  wp (each decrRefCount l.*1) s Q.
Proof.
  induction l as [|[o v] l IH]; intros s L G K a Q H HQ; [apply wp_ret; destruct s; by apply HQ|].
  cbn [each fmap list_fmap fst]. apply wp_bind. eapply (wp_decr P); [exact H|]. intros h1 H1 _ _.
  eapply IH; [exact H1|exact HQ].
Qed.

(** EXPIRE with a time in the past is rewritten to DEL. *)
Lemma wp_rewrite_del s L K a key k (Q : unit -> server -> Prop) :
  At P s c L F K a -> (key, k) ∈ K -> room P a (zlen F + 4) ->
  (forall s' L', At P s' c L' F [(key, k)] (upd_client c (set_cmd (Some del_command))
     (upd_client c (set_argv [AStr (bytes_of "DEL"); AStr k]) a)) -> Q tt s') ->
  wp (aux ← createStringObject P (bytes_of "DEL");
      rewriteClientCommandVector c [aux; key] del_command;;
      decrRefCount aux) s Q.
Proof.
  intros H Hin Hroom HQ. destruct (at_keys _ _ _ _ _ _ _ H key k Hin) as [HkL Hsds].
  destruct (createStringObject_spec (junk P) (zmalloc P) s.1 (bytes_of "DEL") 3 (bytes_of "DEL"))
    as (ob & Hc & Hr & _ & Hn); [done|by_decide|].
  apply wp_bind. eapply (wp_new P s c L _ ob F K); [exact H|exact Hc|by apply (string_ok ob (bytes_of "DEL")); [|by_decide|lia]|done|].
  rewrite (abs_obj_rep P ob _ Hr). intros h aux H1 Ho Hkeep Hfresh. apply wp_bind.
  unfold rewriteClientCommandVector. cbn [each]. apply wp_bind, wp_bind.
  eapply (wp_incr P _ _ _ aux _ _ _ 1); [exact H1|apply held_temp; by left| |lia|].
  { unfold room in *. rewrite zlen_cons. lia. }
  intros h2 H2 _. rewrite (at_temps _ _ _ _ _ _ _ H1 aux _ ltac:(by left)) in H2. apply wp_bind.
  eapply (wp_incr P _ _ _ key _ _ _ 1); [exact H2|by apply (arg_held P _ c L _ K a)| |lia|].
  { unfold room in *. rewrite !zlen_cons. lia. }
  intros h3 H3 _. rewrite (sds_at_value P _ key k) in H3 by apply (at_keys _ _ _ _ _ _ _ H2 key k Hin).
  apply wp_ret. destruct (at_argv _ _ _ _ _ _ _ H3) as (cl & Hcl & HL). cbn [fst snd] in *.
  apply wp_bind, (wp_client c cl); [done|]. apply wp_bind, (wp_upd c cl); [done|]. cbn [fst snd].
  set (args := [(aux, AStr (bytes_of "DEL")); (key, AStr k)]).
  apply (At_perm P _ _ _ _ (args ++ (aux, AStr (bytes_of "DEL")) :: F)) in H3; [|apply perm_swap].
  pose proof (At_set_argv _ _ args _ _ [(key, k)] _ H3) as H4. specialize (H4 ltac:(set_solver)).
  cbn [fst snd] in H4. change (args.*1) with [aux; key] in H4. change (args.*2) with [AStr (bytes_of "DEL"); AStr k] in H4.
  apply wp_bind. rewrite HL. set (old := (fun o => (o, abs_addr P h3 o)) <$> L) in H4.
  assert (Eold : L = old.*1).
  { unfold old. rewrite <- list_fmap_compose. change (fst ∘ _) with (id : Z -> Z). by rewrite list_fmap_id. }
  rewrite Eold. eapply wp_each_decr; [exact H4|]. cbn [fst snd]. intros h4 H5.
  destruct (at_argv _ _ _ _ _ _ _ H5) as (cl5 & Hcl5 & _). apply (wp_upd c cl5); [done|]. cbn [fst snd].
  assert (H6 : At P (h4, upd_client c (set_cmd (Some del_command)) (upd_client c (set_argv [aux; key]) s.2)) c
    [aux; key] ((aux, AStr (bytes_of "DEL")) :: F) [(key, k)]
    (upd_client c (set_cmd (Some del_command)) (upd_client c (set_argv [AStr (bytes_of "DEL"); AStr k]) a))).
  { apply (At_quiet P _ _ _ _ _ _ _ _ H5); [by apply quiet_client|].
    rewrite <- (at_abs _ _ _ _ _ _ _ H5). by apply map_upd_client. }
  eapply (wp_decr P); [exact H6|]. intros h5 H7 _ _. by eapply HQ.
Qed.

Lemma wp_regroup3 {A B C D} (m : M A) (n : A -> M B) (p : A -> M C) (k : M D) s (Q : D -> server -> Prop) :
  wp (x ← m; n x;; p x) s (fun _ s' => wp k s' Q) -> wp (x ← m; n x;; p x;; k) s Q.
Proof.
  intros (b & s' & Hm & cc & s'' & Hk & HQ). exists cc, s''. split; [|done].
  unfold mbind, M_bind in *. destruct (m s) as [[x s1]|]; [|done].
  destruct (n x s1) as [[y s2]|]; [|done]. by rewrite Hm.
Qed.

Lemma expire_meets basetime seconds n k t :
  meets P c d F (expireGenericCommand P c basetime seconds) [n; k; t]
    (fun _ a => spec_expire c d basetime seconds k t a).
Proof.
  start HR H. unfold spec_expire in Hspec.
  apply wp_bind. eapply wp_seldb; [exact H|exact Hsel|]. apply wp_bind. eapply wp_argv; [exact H|done|].
  apply wp_bind. eapply wp_argv; [exact H|done|].
  apply wp_bind. eapply wp_num; [exact H|cbn; inK|]. destruct (num t) as [v|].
  2: { injection Hspec as <-. intros s1 H1. apply wp_ret. by eexists _, _. }
  intros _. apply wp_bind. destruct (if seconds then ll_ok (v * 1000) else Some v) as [v1|] eqn:E1; [|done].
  apply (wp_mono _ s (fun x s' => x = v1 /\ s' = s)).
  { destruct seconds; [apply (wp_opt _ v1); [done|by split]|]. injection E1 as ->. by apply wp_ret. }
  intros _ _ [-> ->]. cbn [mbind option_bind] in Hspec. destruct (ll_ok (v1 + basetime)) as [when|] eqn:E2; [|done].
  injection Hspec as <-. apply wp_bind, (wp_opt _ when); [done|].
  apply wp_bind. eapply (wp_lookupKeyRead P); [exact H|cbn; inK|hasdb| |].
  { intros -> s1 H1. eapply wp_tell; [exact H1|]. intros s2 H2 _ _. by eexists _, _. }
  intros o ob w s1 Hv H1 _ _ _. rewrite Hv. apply wp_bind, wp_get.
  destruct (at_flags P s1 c _ _ _ _ H1) as (-> & -> & -> & _).
  assert (Hd1 : 0 <= d < zlen (s_dbs (a_expire d k a))) by (by autorewrite with dbnum).
  pose proof (weight_expire d k a _ (db_the a d Hd)) as Hw. set (a1 := a_expire d k a) in *.
  destruct ((when <=? s_now a1) && _ && _).
  - apply wp_bind. eapply (wp_dbDelete P); [exact H1|cbn; inK|by apply db_the|by rewrite Hv|].
    intros _ s2 H2. apply wp_bind, wp_check; [done|]. apply wp_bind. eapply wp_dirty; [exact H2|]. intros s3 H3 _ _.
    apply wp_regroup3. eapply wp_rewrite_del; [exact H3|cbn; inK| |].
    { eapply room_le.
      - etransitivity; [by eapply weight_del, db_the|exact Hw].
      - pose proof (r_room _ _ _ _ _ _ _ _ _ HR) as Hr. change (zlen [n; k; t]) with 3 in Hr.
        unfold room in *. lia. }
    intros s4 L4 H4. apply wp_bind. eapply wp_signal; [exact H4|by left|]. intros s5 H5 _ _.
    apply wp_bind. eapply wp_notify; [exact H5|by left|]. intros s6 H6 _ _.
    eapply wp_tell; [exact H6|]. intros s7 H7 _ _. by eexists _, _.
  - apply wp_bind. eapply (wp_setExpire P); [exact H1|cbn; inK|by apply db_the|by rewrite Hv|]. intros s2 H2 _.
    apply wp_bind. eapply wp_tell; [exact H2|]. intros s3 H3 _ _.
    apply wp_bind. eapply wp_signal; [exact H3|cbn; inK|]. intros s4 H4 _ _.
    apply wp_bind. eapply wp_notify; [exact H4|cbn; inK|]. intros s5 H5 _ _.
    eapply wp_dirty; [exact H5|]. intros s6 H6 _ _. by eexists _, _.
Qed.

(** ** FLUSHDB and FLUSHALL *)

Lemma cnt_clients_fmap o (f : redisClient Z -> redisClient Z) cs :
  (forall x, client_roots (f x) = client_roots x) -> cnt o (clients_roots (f <$> cs)) = cnt o (clients_roots cs).
Proof.
  intros Hf. unfold clients_roots. rewrite map_to_list_fmap. generalize (map_to_list cs) as l.
  induction l as [|[i x] l IH]; [done|]. cbn. rewrite !cnt_app, Hf. cbn in IH. by rewrite IH.
Qed.

Lemma quiet_flush i s : quiet s.2 (signalFlushedDb i s.2).
Proof.
  unfold signalFlushedDb, touchWatchedKeysOnFlush. set (f := fun x => if watches_existing i s.2 x then _ else x).
  assert (Hf : forall x, client_roots (f x) = client_roots x /\ c_db (f x) = c_db x /\
    c_argv (f x) = c_argv x /\ c_mstate (f x) = c_mstate x)
    by (intros x; unfold f; by destruct watches_existing).
  split.
  - intros o. unfold roots. cbn. rewrite !cnt_app, cnt_clients_fmap; [done|]. apply Hf.
  - intros c' cl Hc. exists (f cl). cbn. rewrite lookup_fmap, Hc. split; [done|]. apply Hf.
  - done.
  - intros Hd c' cl Hc. cbn in Hc. rewrite lookup_fmap in Hc. destruct (s_clients s.2 !! c') as [x|] eqn:E; [|done].
    injection Hc as <-. rewrite (proj1 (proj2 (Hf x))). by apply (Hd c').
  - intros e cl' He. cbn in He. rewrite lookup_fmap in He. destruct (s_clients s.2 !! e) as [x|] eqn:E; [|done].
    injection He as <-. exists x. split; [done|]. apply Hf.
Qed.

Lemma wp_flush_signal s L K a i (Q : unit -> server -> Prop) : At P s c L F K a ->
  (forall s', At P s' c L F K (signalFlushedDb i a) -> s_dbs s'.2 = s_dbs s.2 -> Q tt s') ->
  wp (modify (signalFlushedDb i)) s Q.
Proof.
  intros H HQ. apply (wp_quiet P s c L F K a _ (signalFlushedDb i)); [done|apply quiet_flush|apply map_flush|].
  intros H'. by apply HQ.
Qed.

Lemma each_decr_heap l : forall h st x h' st2, each decrRefCount l (h, st) = Some (x, (h', st)) ->
  each decrRefCount l (h, st2) = Some (x, (h', st2)).
Proof.
  induction l as [|o l IH]; intros h st x h' st2; cbn [each].
  { by intros [= <- <-]. }
  unfold mbind, M_bind, decrRefCount, on_heap. cbn [fst snd].
  destruct (Object.decrRefCount h o) as [h1|]; [|done]. cbn. apply IH.
Qed.

Lemma dict_roots_empty {V} : dict_roots (∅ : gmap bytes V) = [].
Proof. unfold dict_roots. by rewrite map_to_list_empty. Qed.

Lemma wp_empty_dict s L K a e (Q : unit -> server -> Prop) : At P s c L F K a -> 0 <= e < zlen (s_dbs a) ->
  (forall s', At P s' c L F K (a_clear e a) -> Q tt s') -> wp (empty_dict e) s Q.
Proof.
  intros H He HQ. destruct (at_db P s c _ _ _ a e _ H (db_the a e He)) as (y & Hy & _).
  set (vals := (fun o => (o, abs_addr P s.1 o)) <$> dict_roots (db_dict y)).
  assert (Evals : vals.*1 = dict_roots (db_dict y)).
  { unfold vals. rewrite <- list_fmap_compose. change (fst ∘ _) with (id : Z -> Z). apply list_fmap_id. }
  set (st2 := upd_db e emptied s.2).
  assert (H2 : At P (s.1, st2) c L (vals ++ F) K (a_clear e a)).
  { apply (At_roots P s c L F (vals ++ F) K a); [done| | |done|apply zlen_upd_db| |].
    - intros o. unfold st2. rewrite (cnt_upd_db o s.2 e y) by done. cbn. rewrite dict_roots_empty, fmap_app, Evals, cnt_app, cnt_nil. lia.
    - apply (expires_upd P s F.*1 e y _ (at_wf _ _ _ _ _ _ _ H) Hy). intros k [t Ht]. cbn in Ht. by rewrite lookup_empty in Ht.
    - rewrite <- (at_abs _ _ _ _ _ _ _ H). apply map_upd_db. intros x. unfold map_db, emptied. cbn. by rewrite fmap_empty.
    - intros o v [Hov|Hov]%elem_of_app Hn; [|done]. by apply list_elem_of_fmap in Hov as (q & [= -> ->] & _). }
  destruct (wp_each_decr vals (s.1, st2) L F K (a_clear e a)
    (fun _ s' => At P s' c L F K (a_clear e a) /\ s'.2 = st2) H2) as ([] & [h' x] & Hd & H3 & Ex); [by intros h Hh|].
  cbn in Ex. subst x. rewrite Evals in Hd.
  apply wp_bind, (wp_db e y); [done|]. apply wp_bind, (wp_upd_dict e y); [done|].
  set (st1 := upd_db e _ s.2). apply wp_bind. exists tt, (h', st1). split; [by apply (each_decr_heap _ _ st2)|].
  assert (Hy1 : db_at st1 e = Some (set_dict ∅ y)) by (unfold st1; by rewrite (db_at_upd e e _ _ y Hy), decide_True).
  apply (wp_upd_expires e _ _ (h', st1) _ Hy1). cbn [fst snd].
  assert (E : upd_db e (fun x => set_expires ∅ x) st1 = st2) by apply upd_db_twice.
  rewrite E. by apply HQ.
Qed.

Lemma flushdb_meets n : meets P c d F (flushdbCommand c) [n] (fun _ a => Some (spec_flushdb c d a)).
Proof.
  start HR H. injection Hspec as <-. unfold spec_flushdb.
  destruct (at_db P s c _ _ _ a d _ H (db_the a d Hd)) as (y & Hy & _).
  apply wp_bind. eapply wp_seldb; [exact H|exact Hsel|]. apply wp_bind, (wp_db d y); [done|].
  rewrite (keys_at s _ _ a d y H Hy). apply wp_bind. eapply wp_dirty; [exact H|]. intros s1 H1 _ _.
  apply wp_bind. eapply wp_flush_signal; [exact H1|]. intros s2 H2 _.
  apply wp_bind. eapply wp_empty_dict; [exact H2|done|]. intros s3 H3.
  eapply wp_tell; [exact H3|]. intros s4 H4 _ _. by eexists _, _.
Qed.

Lemma wp_empty_each es : forall s L K a (Q : unit -> server -> Prop), At P s c L F K a ->
  Forall (fun e => 0 <= e < zlen (s_dbs a)) es ->
  (forall s', At P s' c L F K (fold_left (fun a e => a_clear e a) es a) -> Q tt s') ->
  wp (each empty_dict es) s Q.
Proof.
  induction es as [|e es IH]; intros s L K a Q H Hes HQ; [by apply wp_ret, HQ|].
  apply Forall_cons in Hes as [He Hes]. cbn [each]. apply wp_bind. eapply wp_empty_dict; [exact H|done|].
  intros s1 H1. eapply IH; [exact H1| |exact HQ]. eapply Forall_impl; [exact Hes|].
  intros e' He'. change (0 <= e' < zlen (s_dbs (upd_db e emptied a))). by rewrite zlen_upd_db.
Qed.

Lemma clear_each es : forall a, Forall (fun e => 0 <= e) es ->
  fold_left (fun a e => a_clear e a) es a = set_dbs (imap (fun i x => if decide (Z.of_nat i ∈ es) then emptied x else x) (s_dbs a)) a.
Proof.
  induction es as [|e es IH]; intros a Hes.
  - cbn. destruct a. unfold set_dbs. cbn. f_equal. apply list_eq. intros i. rewrite list_lookup_imap.
    destruct (_ !! i); cbn; [|done]. rewrite decide_False; [done|apply not_elem_of_nil].
  - apply Forall_cons in Hes as [He Hes]. cbn [fold_left]. rewrite IH by done. unfold a_clear, upd_db, set_dbs. cbn. f_equal.
    apply list_eq. intros i. rewrite !list_lookup_imap.
    destruct (decide (Z.to_nat e = i)) as [<-|Hne].
    + rewrite list_lookup_alter_eq. destruct (s_dbs a !! _) as [x|]; cbn; [|done]. f_equal.
      rewrite (decide_True _ _ (P := _ ∈ e :: es)); [by destruct (decide _)|]. rewrite Z2Nat.id by done. by left.
    + rewrite list_lookup_alter_ne by done. destruct (s_dbs a !! i) as [x|]; cbn; [|done]. f_equal.
      apply decide_ext. rewrite elem_of_cons. split; [by right|]. intros [<-|]; [lia|done].
Qed.

Lemma flushall_meets n : meets P c d F (flushallCommand c) [n] (fun _ a => Some (spec_flushall c a)).
Proof.
  start HR H. injection Hspec as <-. unfold spec_flushall.
  apply wp_bind. eapply wp_flush_signal; [exact H|]. intros s1 H1 _.
  assert (Edbs : map_db (abs_addr P s1.1) <$> s_dbs s1.2 = s_dbs a)
    by exact (f_equal s_dbs (at_abs _ _ _ _ _ _ _ H1)).
  assert (Ez : zlen (s_dbs s1.2) = zlen (s_dbs a)) by (by rewrite <- Edbs, zlen_fmap).
  apply wp_bind, wp_bind, wp_get, wp_bind. rewrite Ez.
  eapply (wp_empty_each (seqZ 0 (zlen (s_dbs a)))); [exact H1| |].
  { apply Forall_forall. intros e He. apply elem_of_seqZ in He. cbn. lia. }
  intros s2 H2. apply wp_ret. rewrite clear_each in H2.
  2: { apply Forall_forall. intros e He. apply elem_of_seqZ in He. lia. }
  assert (E : set_dbs (imap (fun i x => if decide (Z.of_nat i ∈ seqZ 0 (zlen (s_dbs a))) then emptied x else x)
    (s_dbs (signalFlushedDb (-1) a))) (signalFlushedDb (-1) a) = a_clear_all (signalFlushedDb (-1) a)).
  { unfold a_clear_all. f_equal. change (s_dbs (signalFlushedDb (-1) a)) with (s_dbs a). apply list_eq. intros i.
    rewrite list_lookup_imap, list_lookup_fmap. destruct (s_dbs a !! i) as [x|] eqn:Hi; cbn; [|done].
    rewrite decide_True; [done|]. apply elem_of_seqZ. apply lookup_lt_Some in Hi. unfold zlen. lia. }
  rewrite E in H2. apply wp_bind. eapply wp_dirty; [exact H2|]. intros s3 H3 _ _.
  assert (En : (fun x : redisDb Z => Z.of_nat (size (db_dict x))) <$> s_dbs s1.2 =
    (fun x => Z.of_nat (size (db_dict x))) <$> s_dbs a).
  { rewrite <- Edbs, <- list_fmap_compose. apply list_fmap_ext. intros i x _. cbn. by rewrite map_size_fmap. }
  rewrite En in H3. apply wp_bind. eapply wp_tell; [exact H3|]. intros s4 H4 _ _.
  eapply wp_dirty; [exact H4|]. intros s5 H5 _ _. by eexists _, _.
Qed.
End Keys.
