(* ===== verification/Commands.v ===== *)
(** The commands on strings and keys, run on a well-formed server: they do not
    go wrong, keep it well formed, and do what their specification says. *)
From stdpp Require Import gmap list strings.
From S2P Require Import Prelude Util Sds SdsText Object Server Keyspace ServerRep ServerOps KeyspaceSpec StringCmd StringSpec StringProofs StringEdits KeySpec KeyProofs.
Local Open Scope c_scope.

(** ** The command table *)

Definition string_proc (p : proc) : bool :=
  match p with
  | P_set | P_setnx | P_setex | P_psetex | P_get | P_getset | P_setrange | P_getrange
  | P_mget | P_mset | P_msetnx | P_incr | P_decr | P_incrby | P_decrby | P_append | P_strlen => true
  | _ => false
  end.

(** The procedure of a command, and what it is specified to do. *)
Definition run_command (P : platform) (p : proc) (c : Z) : M unit :=
  if string_proc p then run_string P p c else run_key P p c.
Definition spec_command (p : proc) (c d : Z) (name : bytes) (args : list bytes) (a : state aval)
    : option (state aval) :=
  if string_proc p then spec_string p c d name args a else spec_key p c d args a.

Section Commands.
Context (P : platform) {HP : PlatformOk P} (c d : Z) (F : list (Z * aval)).

Lemma meets_nothing m args spec : (forall name a, spec name a = None) -> meets P c d F m args spec.
Proof. intros Hn s L cmd a a' _ Ha. by rewrite Hn in Ha. Qed.

Lemma meets_run m args spec s L cmd a a' : meets P c d F m args spec -> Ready P c d F s L args cmd a ->
  spec (cmd_name cmd) a = Some a' ->
  exists s', m s = Some (tt, s') /\ wf P s' F.*1 /\ abs P s' = a'.
Proof.
  intros Hm HR Ha. destruct (Hm s L cmd a a' HR Ha) as ([] & s' & Hs & L' & K' & H').
  exists s'. split; [done|]. split; [apply (at_wf _ _ _ _ _ _ _ H')|apply (at_abs _ _ _ _ _ _ _ H')].
Qed.

Lemma string_meets p args :
  meets P c d F (run_string P p c) args (fun name a => spec_string p c d name args a).
Proof.
  destruct p; try (by apply meets_nothing);
    destruct args as [|n [|k [|v [|w [|x args]]]]]; try (by apply meets_nothing); cbn [run_string spec_string];
    first [ apply (set_meets P c d F) | apply (setnx_meets P c d F) | apply (setex_meets P c d F)
          | apply (get_meets P c d F) | apply (getset_meets P c d F) | apply (setrange_meets P c d F)
          | apply (getrange_meets P c d F) | apply (mget_meets P c d F) | apply (mset_meets P c d F)
          | apply (incr_meets P c d F); by_decide | apply (incrby_meets P c d F) | apply (decrby_meets P c d F)
          | apply (append_meets P c d F) | apply (strlen_meets P c d F) ].
Qed.

Lemma key_meets p args : meets P c d F (run_key P p c) args (fun _ a => spec_key p c d args a).
Proof.
  destruct p; cbn [run_key]; try (by apply meets_nothing);
    destruct args as [|n [|k [|v [|w args]]]]; try (by apply meets_nothing); cbn [spec_key];
    lazymatch goal with
    | |- meets _ _ _ _ (flushdbCommand _) _ _ => apply (flushdb_meets P c d F)
    | |- meets _ _ _ _ (flushallCommand _) _ _ => apply (flushall_meets P c d F)
    | |- meets _ _ _ _ (delCommand _ _) _ _ => apply (del_meets P c d F)
    | |- meets _ _ _ _ (existsCommand _) _ _ => apply (exists_meets P c d F)
    | |- meets _ _ _ _ (selectCommand _) _ _ => apply (select_meets P c d F)
    | |- meets _ _ _ _ (dbsizeCommand _ _) _ _ => apply (dbsize_meets P c d F)
    | |- meets _ _ _ _ (typeCommand _) _ _ => apply (type_meets P c d F)
    | |- meets _ _ _ _ (renameCommand _) _ _ => apply (rename_meets P c d F)
    | |- meets _ _ _ _ (renamenxCommand _) _ _ => apply (rename_meets P c d F)
    | |- meets _ _ _ _ (moveCommand _) _ _ => apply (move_meets P c d F)
    | |- meets _ _ _ _ (ttlCommand _ _) _ _ => apply (ttl_meets P c d F)
    | |- meets _ _ _ _ (pttlCommand _ _) _ _ => apply (ttl_meets P c d F)
    | |- meets _ _ _ _ (persistCommand _) _ _ => apply (persist_meets P c d F)
    | |- meets _ _ _ _ (expireatCommand _ _) _ _ => apply (expire_meets P c d F)
    | |- meets _ _ _ _ (pexpireatCommand _ _) _ _ => apply (expire_meets P c d F)
    | |- meets _ _ _ _ _ _ _ => idtac
    end.
  all: intros s L cmd a a' HR Ha; apply wp_bind, wp_get;
    destruct (at_flags P s c _ _ _ a (r_at _ _ _ _ _ _ _ _ _ HR)) as (-> & _).
  - by eapply (expire_meets P c d F (s_now a) true).
  - by eapply (expire_meets P c d F (s_now a) false).
Qed.

Lemma command_meets p args :
  meets P c d F (run_command P p c) args (fun name a => spec_command p c d name args a).
Proof. unfold run_command, spec_command. destruct (string_proc p); [apply string_meets|apply key_meets]. Qed.
End Commands.


(** ** A server to start from *)

Definition a_platform : platform := mkPlatform (fun _ => 7) fresh_addr id 0 NO_EVICTION.
Global Instance a_platform_ok : PlatformOk a_platform.
Proof. split. apply fresh_addr_ok. Qed.

Lemma cnt_NoDup o l : NoDup l -> cnt o l = if decide (o ∈ l) then 1 else 0.
Proof.
  induction 1 as [|q l Hq Hl IH].
  - rewrite decide_False; [done|apply not_elem_of_nil].
  - rewrite cnt_cons, IH. unfold one. destruct (decide (q = o)) as [->|Hne].
    + rewrite decide_False by done. rewrite decide_True; [done|by left].
    + rewrite Z.add_0_l. apply decide_ext. rewrite elem_of_cons. naive_solver.
Qed.

Lemma shared_store_lookup o : shared_store !! o =
  if decide (0 <= o < 10000) then Some (mkObj REDIS_STRING ENC_INT 1 (PLong o)) else None.
Proof.
  unfold shared_store. case_decide as Ho.
  - apply elem_of_list_to_map_1.
    + rewrite <- list_fmap_compose. change (fst ∘ _) with (id : Z -> Z). rewrite list_fmap_id. apply NoDup_seqZ.
    + apply (list_elem_of_fmap_2 (fun v => (v, mkObj REDIS_STRING ENC_INT 1 (PLong v)))).
      apply elem_of_seqZ. lia.
  - apply not_elem_of_list_to_map_1. rewrite <- list_fmap_compose. change (fst ∘ _) with (id : Z -> Z).
    rewrite list_fmap_id, elem_of_seqZ. lia.
Qed.

(** The shared integers, and objects of negative addresses that are counted. *)
Lemma wf_start (st : state Z) (objs : list (Z * robj)) :
  NoDup objs.*1 ->
  Forall (fun p => p.1 < 0 /\ obj_ok p.2 /\ o_refcount p.2 = cnt p.1 (roots st)) objs ->
  Forall (fun o => o ∈ objs.*1) (roots st) ->
  (forall d x k, db_at st d = Some x -> is_Some (db_expires x !! k) -> is_Some (db_dict x !! k)) ->
  (forall c cl, s_clients st !! c = Some cl -> is_Some (db_at st (c_db cl))) ->
  queue_ok (list_to_map objs ∪ shared_store) st ->
  wf a_platform (list_to_map objs ∪ shared_store, st) [].
Proof.
  intros Hnd Hobjs Hroots He Hd Hq.
  pose proof (proj1 (Forall_forall _ _) Hobjs) as Hobj. pose proof (proj1 (Forall_forall _ _) Hroots) as Hroot.
  assert (Hneg : forall o ob, (list_to_map objs : store) !! o = Some ob ->
    o < 0 /\ obj_ok ob /\ o_refcount ob = cnt o (roots st)).
  { intros o ob Ho%elem_of_list_to_map_2. by apply (Hobj (o, ob)). }
  assert (Hshared : forall o, cnt o (shared a_platform) = if decide (0 <= o < 10000) then 1 else 0).
  { intros o. unfold shared. cbn [integers a_platform]. rewrite list_fmap_id, cnt_NoDup by apply NoDup_seqZ.
    apply decide_ext. rewrite elem_of_seqZ. unfold REDIS_SHARED_INTEGERS. lia. }
  assert (Hno : forall o, (list_to_map objs : store) !! o = None -> cnt o (roots st) = 0).
  { intros o Hn%not_elem_of_list_to_map_2. pose proof (cnt_nonneg o (roots st)) as H0.
    destruct (decide (o ∈ roots st)) as [Hin|Hin]; [by apply Hroot in Hin|].
    rewrite cnt_elem in Hin. lia. }
  split; [| | |exact He|exact Hd|exact Hq].
  - intros o. unfold held, refs. cbn [fst snd]. rewrite cnt_nil, Hshared, lookup_union.
    destruct ((list_to_map objs : store) !! o) as [ob|] eqn:Eo.
    + destruct (Hneg o ob Eo) as (Hlt & _ & Hc). rewrite union_Some_l, Hc. rewrite decide_False by lia. lia.
    + rewrite (left_id None _), (Hno o Eo), shared_store_lookup. by case_decide.
  - intros o ob. cbn [fst]. rewrite lookup_union_Some_raw. intros [Ho|[_ Ho]]; [by apply Hneg in Ho as (_ & Hok & _)|].
    rewrite shared_store_lookup in Ho. case_decide; [|done]. injection Ho as <-.
    split; [done|]. exists (sdec o). split; [|apply sdec_max; cint]. split; [done|]. split; [cint|done].
  - intros v Hv. exists 1. unfold REDIS_SHARED_INTEGERS in Hv. cbn [integers a_platform fst]. unfold id.
    rewrite lookup_union_r; [by rewrite shared_store_lookup, decide_True|].
    destruct ((list_to_map objs : store) !! v) as [ob|] eqn:Ev; [|done].
    destruct (Hneg v ob Ev) as [Hlt _]. lia.
Qed.

(** The shared integers are not seen from a state that does not use them. *)
Lemma abs_start (st : state Z) (objs : list (Z * robj)) : Forall (fun o => o ∈ objs.*1) (roots st) ->
  abs a_platform (list_to_map objs ∪ shared_store, st) = abs a_platform (list_to_map objs, st).
Proof.
  intros Hroots. apply map_state_ext. intros o Ho. unfold abs_addr. cbn [fst].
  pose proof (proj1 (Forall_forall _ _) Hroots o Ho) as Hin.
  destruct ((list_to_map objs : store) !! o) as [ob|] eqn:E; [by rewrite (lookup_union_Some_l _ _ _ _ E)|].
  by apply not_elem_of_list_to_map_2 in E.
Qed.

(** A string object, and a client whose arguments are such objects. *)
Definition raw (n : Z) (bs : bytes) : robj :=
  mkObj REDIS_STRING ENC_RAW n (PSds (mkSds (zlen bs) 0 (bs ++ [0]))).
Definition a_client (argv : list Z) (cmd : redisCommand) : redisClient Z :=
  mkClient 0 ∅ argv (Some cmd) [] [] ∅ [] [].

Lemma raw_rep n bs : zlen bs <= max_string -> string_rep (raw n bs) bs.
Proof.
  intros Hb. split; [done|]. cbn. apply rep_intro; [done|].
  pose proof (zlen_nonneg bs). unfold max_string in Hb. cint.
Qed.
Lemma raw_ok n bs : 1 <= n -> zlen bs <= max_string -> obj_ok (raw n bs).
Proof. intros Hn Hb. apply (string_ok _ bs); [by apply raw_rep|done|done]. Qed.
Lemma raw_at h o n bs : h !! o = Some (raw n bs) -> zlen bs <= max_string -> sds_at h o bs.
Proof.
  intros Ho Hb. eexists (raw n bs), _. split; [done|]. split; [done|]. split; [done|]. split; [done|].
  by apply raw_rep.
Qed.

(** Client 1 sends [APPEND n 2]; [n] holds "41", and client 2 watches it. *)
Definition append_command : redisCommand := mkCommand (bytes_of "append") P_append 3 true false true false false.
Definition append_args : list bytes := [bytes_of "append"; bytes_of "n"; bytes_of "2"].
Definition a_state : state Z :=
  mkState [mkDb {[ bytes_of "n" := -4 ]} ∅ {[ bytes_of "n" := [2] ]}]
    {[ 1 := a_client [-1; -2; -3] append_command;
       2 := set_watched [(bytes_of "n", 0)] (a_client [] append_command) ]}
    0 [] ∅ [] 0 false true false.
Definition a_heap : list (Z * robj) :=
  [(-1, raw 1 (bytes_of "append")); (-2, raw 1 (bytes_of "n")); (-3, raw 1 (bytes_of "2"));
   (-4, raw 1 (bytes_of "41"))].
Definition a_server : server := (list_to_map a_heap ∪ shared_store, a_state).

Ltac a_roots := vm_compute; repeat constructor; by_decide.

Lemma a_server_wf : wf a_platform a_server [].
Proof.
  apply wf_start.
  - by_decide.
  - repeat constructor; cbn; try lia; try (by apply raw_ok; [done|by_decide]); by vm_compute.
  - a_roots.
  - intros d x k Hx [t Ht]. unfold db_at, znth in Hx. case_decide; [|done].
    destruct (Z.to_nat d) as [|[]]; cbn in Hx; [|done..]. injection Hx as <-. cbn in Ht. by rewrite lookup_empty in Ht.
  - intros c cl Hc. cbn in Hc. apply lookup_insert_Some in Hc as [[_ <-]|[_ Hc]]; [by eexists|].
    apply lookup_singleton_Some in Hc as [_ <-]. by eexists.
  - intros c cl q Hc Hq. cbn in Hc. apply lookup_insert_Some in Hc as [[_ <-]|[_ Hc]];
      [|apply lookup_singleton_Some in Hc as [_ <-]]; by apply not_elem_of_nil in Hq.
Qed.

Lemma a_heap_lookup o ob : (list_to_map a_heap : store) !! o = Some ob -> a_server.1 !! o = Some ob.
Proof. intros Ho. by apply lookup_union_Some_l. Qed.

Lemma a_server_ready :
  Ready a_platform 1 0 [] a_server [-1; -2; -3] append_args append_command (abs a_platform a_server).
Proof.
  split; [|done|by_decide|by_decide|done|done|].
  - split; [apply a_server_wf|reflexivity|eexists; split; reflexivity| |].
    { intros o v Hov. destruct (not_elem_of_nil _ Hov). }
    intros o bs Hin. cbn in Hin. rewrite !elem_of_cons in Hin.
    destruct Hin as [[= -> ->]|[[= -> ->]|[[= -> ->]|?%elem_of_nil]]]; [..|done];
      (split; [set_solver|]; eapply raw_at; [by apply a_heap_lookup|by_decide]).
  - unfold room, abs. rewrite weight_map. unfold shared. rewrite zlen_fmap. unfold zlen at 1. rewrite length_seqZ.
    by vm_compute.
Qed.

