(* ===== verification/Pubsub.v ===== *)
(** Publish and subscribe: the tables of [src/redis-3.0.0/src/pubsub.c].

    A client keeps the channels and the patterns it is subscribed to, the server
    the clients of every channel and a list of pairs of a client and a pattern;
    the two sides are updated one after the other.  The operations say the same
    on the server and on the abstract server, so they are given for a state over
    any type of values.  [None] is a failed assertion, a null list node, or a
    pattern that [stringmatchlen] reads past.

    Channels and patterns are kept by their bytes: the references the tables
    hold on the objects of the arguments are not counted.  [elements] stands for
    the order in which the iterator of a dictionary meets the channels. *)
From stdpp Require Import gmap list strings.
From S2P Require Import Prelude Util Glob Server Keyspace.
Local Open Scope c_scope.

(** ** Texts *)

Definition shared_messagebulk : bytes := line "$7" ++ line "message".
Definition shared_pmessagebulk : bytes := line "$8" ++ line "pmessage".
Definition shared_subscribebulk : bytes := line "$9" ++ line "subscribe".
Definition shared_unsubscribebulk : bytes := line "$11" ++ line "unsubscribe".
Definition shared_psubscribebulk : bytes := line "$10" ++ line "psubscribe".
Definition shared_punsubscribebulk : bytes := line "$12" ++ line "punsubscribe".

(** A reply of three parts: the kind, the channel or pattern, the subscriptions left. *)
Definition subscription_text (kind name : bytes) (count : Z) : bytes :=
  line "*3" ++ kind ++ name ++ with_prefix 58 count.
Definition message_text (channel message : bytes) : bytes :=
  line "*3" ++ shared_messagebulk ++ bulk_text channel ++ bulk_text message.
Definition pmessage_text (pattern channel message : bytes) : bytes :=
  line "*4" ++ shared_pmessagebulk ++ bulk_text pattern ++ bulk_text channel ++ bulk_text message.

Section Pubsub.
Context {V : Type}.
Implicit Types (s : state V) (c : Z) (channel pattern : bytes).

Definition clientSubscriptionsCount (cl : redisClient V) : Z :=
  Z.of_nat (size (c_pubsub_channels cl)) + zlen (c_pubsub_patterns cl).

Definition tell_client c (bs : bytes) s : state V := upd_client c (say bs) s.
(** [addReply...(c,clientSubscriptionsCount(c))] ends the reply. *)
Definition notify_subscription c (kind name : bytes) s : option (state V) :=
  cl ← s_clients s !! c;
  Some (tell_client c (subscription_text kind name (clientSubscriptionsCount cl)) s).

(** ** Channels *)

Definition pubsubSubscribeChannel c channel s : option (state V * Z) :=
  cl ← s_clients s !! c;
  let '(s, retval) :=
    if bool_decide (channel ∈ c_pubsub_channels cl) then (s, 0)
    else
      let s := upd_client c (set_channels ({[channel]} ∪ c_pubsub_channels cl)) s in
      let clients := default [] (s_channels s !! channel) in
      (set_pubsub (<[channel := clients ++ [c]]> (s_channels s)) (s_patterns s) s, 1) in
  s ← notify_subscription c shared_subscribebulk (bulk_text channel) s;
  Some (s, retval).

(** [listSearchKey] has to find the client, or the assertion fails. *)
Definition pubsubUnsubscribeChannel c channel (notify : bool) s : option (state V * Z) :=
  cl ← s_clients s !! c;
  '(s, retval) ←
    (if bool_decide (channel ∈ c_pubsub_channels cl) then
       let s := upd_client c (set_channels (c_pubsub_channels cl ∖ {[channel]})) s in
       clients ← s_channels s !! channel;
       clients ← remove_first c clients;
       let chs := match clients with
                  | [] => delete channel (s_channels s)
                  | _ => <[channel := clients]> (s_channels s)
                  end in
       Some (set_pubsub chs (s_patterns s) s, 1)
     else Some (s, 0));
  s ← (if notify then notify_subscription c shared_unsubscribebulk (bulk_text channel) s else Some s);
  Some (s, retval).

(** ** Patterns *)

Definition pubsubSubscribePattern c pattern s : option (state V * Z) :=
  cl ← s_clients s !! c;
  let '(s, retval) :=
    if bool_decide (pattern ∈ c_pubsub_patterns cl) then (s, 0)
    else
      let s := upd_client c (set_patterns (c_pubsub_patterns cl ++ [pattern])) s in
      (set_pubsub (s_channels s) (s_patterns s ++ [(c, pattern)]) s, 1) in
  s ← notify_subscription c shared_psubscribebulk (bulk_text pattern) s;
  Some (s, retval).

Definition pubsubUnsubscribePattern c pattern (notify : bool) s : option (state V * Z) :=
  cl ← s_clients s !! c;
  '(s, retval) ←
    match remove_first pattern (c_pubsub_patterns cl) with
    | Some rest =>
        let s := upd_client c (set_patterns rest) s in
        pats ← remove_first (c, pattern) (s_patterns s);
        Some (set_pubsub (s_channels s) pats s, 1)
    | None => Some (s, 0)
    end;
  s ← (if notify then notify_subscription c shared_punsubscribebulk (bulk_text pattern) s else Some s);
  Some (s, retval).

(** ** All of them *)

(** [for (...) count += f(x)] *)
Fixpoint counting {A} (f : A -> state V -> option (state V * Z)) (l : list A) s (count : Z)
    : option (state V * Z) :=
  match l with
  | [] => Some (s, count)
  | x :: l => '(s, n) ← f x s; counting f l s (count + n)
  end.

Definition pubsubUnsubscribeAllChannels c (notify : bool) s : option (state V * Z) :=
  cl ← s_clients s !! c;
  '(s, count) ← counting (fun channel => pubsubUnsubscribeChannel c channel notify)
                  (elements (c_pubsub_channels cl)) s 0;
  s ← (if notify && (count =? 0) then notify_subscription c shared_unsubscribebulk shared_nullbulk s
       else Some s);
  Some (s, count).

Definition pubsubUnsubscribeAllPatterns c (notify : bool) s : option (state V * Z) :=
  cl ← s_clients s !! c;
  '(s, count) ← counting (fun pattern => pubsubUnsubscribePattern c pattern notify)
                  (c_pubsub_patterns cl) s 0;
  s ← (if notify && (count =? 0) then notify_subscription c shared_punsubscribebulk shared_nullbulk s
       else Some s);
  Some (s, count).

(** ** Messages *)

(** To a client of the channel; to a client of a pattern that matches. *)
Definition deliver channel (message : bytes) c s : option (state V * Z) :=
  Some (tell_client c (message_text channel message) s, 1).
Definition deliver_matching channel (message : bytes) (p : Z * bytes) s : option (state V * Z) :=
  r ← stringmatch p.2 channel false;
  if r =? 0 then Some (s, 0)
  else Some (tell_client p.1 (pmessage_text p.2 channel message) s, 1).

Definition pubsubPublishMessage channel (message : bytes) s : option (state V * Z) :=
  '(s, receivers) ← counting (deliver channel message) (default [] (s_channels s !! channel)) s 0;
  counting (deliver_matching channel message) (s_patterns s) s receivers.

(** ** Commands, with the bytes of their arguments *)

Definition done_unsubscribing c s : option (state V) :=
  cl ← s_clients s !! c;
  Some (if clientSubscriptionsCount cl =? 0 then upd_client c (clear_flags {[REDIS_PUBSUB]}) s else s).

Definition subscribeCommand c (args : list bytes) s : option (state V) :=
  '(s, _) ← counting (pubsubSubscribeChannel c) (drop 1 args) s 0;
  Some (upd_client c (add_flag REDIS_PUBSUB) s).
Definition unsubscribeCommand c (args : list bytes) s : option (state V) :=
  '(s, _) ← (if zlen args =? 1 then pubsubUnsubscribeAllChannels c true s
             else counting (fun channel => pubsubUnsubscribeChannel c channel true) (drop 1 args) s 0);
  done_unsubscribing c s.
Definition psubscribeCommand c (args : list bytes) s : option (state V) :=
  '(s, _) ← counting (pubsubSubscribePattern c) (drop 1 args) s 0;
  Some (upd_client c (add_flag REDIS_PUBSUB) s).
Definition punsubscribeCommand c (args : list bytes) s : option (state V) :=
  '(s, _) ← (if zlen args =? 1 then pubsubUnsubscribeAllPatterns c true s
             else counting (fun pattern => pubsubUnsubscribePattern c pattern true) (drop 1 args) s 0);
  done_unsubscribing c s.
Definition publishCommand c (args : list bytes) s : option (state V) :=
  match args with
  | [_; channel; message] =>
      '(s, receivers) ← pubsubPublishMessage channel message s;
      let s := upd_client c (add_flag REDIS_FORCE_REPL) s in
      Some (tell_client c (with_prefix 58 receivers) s)
  | _ => None
  end.

Definition pubsub_command (p : proc) c (args : list bytes) s : option (state V) :=
  match p with
  | P_subscribe => subscribeCommand c args s
  | P_unsubscribe => unsubscribeCommand c args s
  | P_psubscribe => psubscribeCommand c args s
  | P_punsubscribe => punsubscribeCommand c args s
  | P_publish => publishCommand c args s
  | _ => None
  end.
End Pubsub.
