(* ===== verification/Multi.v ===== *)
(** Requests and transactions: [processCommand] and [call] of
    [src/redis-3.0.0/src/redis.c], the command table, [src/redis-3.0.0/src/multi.c],
    and the clients of networking.c around a request.

    The watch tables hold keys by their bytes: the references [watchForKey] takes
    on its arguments are not counted.  What decides about a refusal outside the
    modelled state (passwords, the disk, the link with a master, memory) is a
    parameter, [config].  Not modelled: cluster redirection, monitors, eviction,
    the slow log, clients blocked on lists, commands of other files. *)
From stdpp Require Import gmap list strings.
From S2P Require Import Prelude Util Glob Sds SdsText Object Server Keyspace StringCmd KeySpec Commands Pubsub.
Local Open Scope c_scope.

(** ** The command table *)

(** [populateCommandTable]: the letters of the flags. *)
Definition letter (l f : string) : bool := bool_decide (Forall (fun b => b ∈ bytes_of f) (bytes_of l)).
Definition entry (name : string) (p : proc) (arity : Z) (flags : string) : redisCommand :=
  mkCommand (bytes_of name) p arity (letter "w" flags) (letter "r" flags) (letter "m" flags)
    (letter "t" flags) (letter "l" flags).

(** The numbers of [P_other] tell the procedures of the other files apart. *)
Definition redisCommandTable : list redisCommand :=
  [entry "get" P_get 2 "rF"; entry "set" P_set (-3) "wm"; entry "setnx" P_setnx 3 "wmF";
    entry "setex" P_setex 4 "wm"; entry "psetex" P_psetex 4 "wm"; entry "append" P_append 3 "wm";
    entry "strlen" P_strlen 2 "rF"; entry "del" P_del (-2) "w"; entry "exists" P_exists 2 "rF";
    entry "setbit" (P_other 0) 4 "wm"; entry "getbit" (P_other 1) 3 "rF";
    entry "setrange" P_setrange 4 "wm"; entry "getrange" P_getrange 4 "r";
    entry "substr" P_getrange 4 "r"; entry "incr" P_incr 2 "wmF"; entry "decr" P_decr 2 "wmF";
    entry "mget" P_mget (-2) "r"; entry "rpush" (P_other 2) (-3) "wmF";
    entry "lpush" (P_other 3) (-3) "wmF"; entry "rpushx" (P_other 4) 3 "wmF";
    entry "lpushx" (P_other 5) 3 "wmF"; entry "linsert" (P_other 6) 5 "wm";
    entry "rpop" (P_other 7) 2 "wF"; entry "lpop" (P_other 8) 2 "wF";
    entry "brpop" (P_other 9) (-3) "ws"; entry "brpoplpush" (P_other 10) 4 "wms";
    entry "blpop" (P_other 11) (-3) "ws"; entry "llen" (P_other 12) 2 "rF";
    entry "lindex" (P_other 13) 3 "r"; entry "lset" (P_other 14) 4 "wm";
    entry "lrange" (P_other 15) 4 "r"; entry "ltrim" (P_other 16) 4 "w";
    entry "lrem" (P_other 17) 4 "w"; entry "rpoplpush" (P_other 18) 3 "wm";
    entry "sadd" (P_other 19) (-3) "wmF"; entry "srem" (P_other 20) (-3) "wF";
    entry "smove" (P_other 21) 4 "wF"; entry "sismember" (P_other 22) 3 "rF";
    entry "scard" (P_other 23) 2 "rF"; entry "spop" (P_other 24) 2 "wRsF";
    entry "srandmember" (P_other 25) (-2) "rR"; entry "sinter" (P_other 26) (-2) "rS";
    entry "sinterstore" (P_other 27) (-3) "wm"; entry "sunion" (P_other 28) (-2) "rS";
    entry "sunionstore" (P_other 29) (-3) "wm"; entry "sdiff" (P_other 30) (-2) "rS";
    entry "sdiffstore" (P_other 31) (-3) "wm"; entry "smembers" (P_other 26) 2 "rS";
    entry "sscan" (P_other 32) (-3) "rR"; entry "zadd" (P_other 33) (-4) "wmF";
    entry "zincrby" (P_other 34) 4 "wmF"; entry "zrem" (P_other 35) (-3) "wF";
    entry "zremrangebyscore" (P_other 36) 4 "w"; entry "zremrangebyrank" (P_other 37) 4 "w";
    entry "zremrangebylex" (P_other 38) 4 "w"; entry "zunionstore" (P_other 39) (-4) "wm";
    entry "zinterstore" (P_other 40) (-4) "wm"; entry "zrange" (P_other 41) (-4) "r";
    entry "zrangebyscore" (P_other 42) (-4) "r"; entry "zrevrangebyscore" (P_other 43) (-4) "r";
    entry "zrangebylex" (P_other 44) (-4) "r"; entry "zrevrangebylex" (P_other 45) (-4) "r";
    entry "zcount" (P_other 46) 4 "rF"; entry "zlexcount" (P_other 47) 4 "rF";
    entry "zrevrange" (P_other 48) (-4) "r"; entry "zcard" (P_other 49) 2 "rF";
    entry "zscore" (P_other 50) 3 "rF"; entry "zrank" (P_other 51) 3 "rF";
    entry "zrevrank" (P_other 52) 3 "rF"; entry "zscan" (P_other 53) (-3) "rR";
    entry "hset" (P_other 54) 4 "wmF"; entry "hsetnx" (P_other 55) 4 "wmF";
    entry "hget" (P_other 56) 3 "rF"; entry "hmset" (P_other 57) (-4) "wm";
    entry "hmget" (P_other 58) (-3) "r"; entry "hincrby" (P_other 59) 4 "wmF";
    entry "hincrbyfloat" (P_other 60) 4 "wmF"; entry "hdel" (P_other 61) (-3) "wF";
    entry "hlen" (P_other 62) 2 "rF"; entry "hkeys" (P_other 63) 2 "rS";
    entry "hvals" (P_other 64) 2 "rS"; entry "hgetall" (P_other 65) 2 "r";
    entry "hexists" (P_other 66) 3 "rF"; entry "hscan" (P_other 67) (-3) "rR";
    entry "incrby" P_incrby 3 "wmF"; entry "decrby" P_decrby 3 "wmF";
    entry "incrbyfloat" (P_other 68) 3 "wmF"; entry "getset" P_getset 3 "wm";
    entry "mset" P_mset (-3) "wm"; entry "msetnx" P_msetnx (-3) "wm";
    entry "randomkey" (P_other 69) 1 "rR"; entry "select" P_select 2 "rlF"; entry "move" P_move 3 "wF";
    entry "rename" P_rename 3 "w"; entry "renamenx" P_renamenx 3 "wF"; entry "expire" P_expire 3 "wF";
    entry "expireat" P_expireat 3 "wF"; entry "pexpire" P_pexpire 3 "wF";
    entry "pexpireat" P_pexpireat 3 "wF"; entry "keys" (P_other 70) 2 "rS";
    entry "scan" (P_other 71) (-2) "rR"; entry "dbsize" P_dbsize 1 "rF";
    entry "auth" (P_other 72) 2 "rsltF"; entry "ping" (P_other 73) (-1) "rtF";
    entry "echo" (P_other 74) 2 "rF"; entry "save" (P_other 75) 1 "ars";
    entry "bgsave" (P_other 76) 1 "ar"; entry "bgrewriteaof" (P_other 77) 1 "ar";
    entry "shutdown" (P_other 78) (-1) "arlt"; entry "lastsave" (P_other 79) 1 "rRF";
    entry "type" P_type 2 "rF"; entry "multi" P_multi 1 "rsF"; entry "exec" P_exec 1 "sM";
    entry "discard" P_discard 1 "rsF"; entry "sync" (P_other 80) 1 "ars";
    entry "psync" (P_other 80) 3 "ars"; entry "replconf" (P_other 81) (-1) "arslt";
    entry "flushdb" P_flushdb 1 "w"; entry "flushall" P_flushall 1 "w";
    entry "sort" (P_other 82) (-2) "wm"; entry "info" (P_other 83) (-1) "rlt";
    entry "monitor" (P_other 84) 1 "ars"; entry "ttl" P_ttl 2 "rF"; entry "pttl" P_pttl 2 "rF";
    entry "persist" P_persist 2 "wF"; entry "slaveof" (P_other 85) 3 "ast";
    entry "role" (P_other 86) 1 "lst"; entry "debug" (P_other 87) (-2) "as";
    entry "config" (P_other 88) (-2) "art"; entry "subscribe" P_subscribe (-2) "rpslt";
    entry "unsubscribe" P_unsubscribe (-1) "rpslt"; entry "psubscribe" P_psubscribe (-2) "rpslt";
    entry "punsubscribe" P_punsubscribe (-1) "rpslt"; entry "publish" P_publish 3 "pltrF";
    entry "pubsub" (P_other 89) (-2) "pltrR"; entry "watch" P_watch (-2) "rsF";
    entry "unwatch" P_unwatch 1 "rsF"; entry "cluster" (P_other 90) (-2) "ar";
    entry "restore" (P_other 91) (-4) "wm"; entry "restore-asking" (P_other 91) (-4) "wmk";
    entry "migrate" (P_other 92) (-6) "w"; entry "asking" (P_other 93) 1 "r";
    entry "readonly" (P_other 94) 1 "rF"; entry "readwrite" (P_other 95) 1 "rF";
    entry "dump" (P_other 96) 2 "r"; entry "object" (P_other 97) 3 "r";
    entry "client" (P_other 98) (-2) "rs"; entry "eval" (P_other 99) (-3) "s";
    entry "evalsha" (P_other 100) (-3) "s"; entry "slowlog" (P_other 101) (-2) "r";
    entry "script" (P_other 102) (-2) "rs"; entry "time" (P_other 103) 1 "rRF";
    entry "bitop" (P_other 104) (-4) "wm"; entry "bitcount" (P_other 105) (-2) "r";
    entry "bitpos" (P_other 106) (-3) "r"; entry "wait" (P_other 107) 3 "rs";
    entry "command" (P_other 108) 0 "rlt"; entry "pfselftest" (P_other 109) 1 "r";
    entry "pfadd" (P_other 110) (-2) "wmF"; entry "pfcount" (P_other 111) (-2) "r";
    entry "pfmerge" (P_other 112) (-2) "wm"; entry "pfdebug" (P_other 113) (-3) "w";
    entry "latency" (P_other 114) (-2) "arslt"].

(** [strcasecmp(a,b) == 0] *)
Definition strcasecmp_eq (a b : bytes) : bool :=
  bool_decide (tolower <$> until_zero a = tolower <$> until_zero b).

(** The table is hashed by the whole name and compared up to a zero byte: a name
    with a zero byte may be found or not, and has no model. *)
Definition lookupCommand (name : bytes) : option (option redisCommand) :=
  if bool_decide (0 ∈ name) then None
  else Some (List.find (fun cmd => strcasecmp_eq (cmd_name cmd) name) redisCommandTable).

Definition modelled (p : proc) : bool := match p with P_other _ => false | _ => true end.

(** ** Watched keys *)

Section Watch.
Context {V : Type}.
Implicit Types (s : state V) (c : Z) (key : bytes).

Definition watchForKey c key s : option (state V) :=
  cl ← s_clients s !! c;
  let d := c_db cl in
  if existsb (fun wk : bytes * Z => (wk.2 =? d) && bool_decide (key = wk.1)) (c_watched_keys cl)
  then Some s
  else
    x ← db_at s d;
    let clients := default [] (db_watched_keys x !! key) in
    let s := upd_db d (set_watchers (<[key := clients ++ [c]]> (db_watched_keys x))) s in
    Some (upd_client c (set_watched (c_watched_keys cl ++ [(key, d)])) s).

(** The assertion that the key has watchers, and the search for the client; the
    node that is deleted is the first of the list. *)
Definition unwatch_key c (wk : bytes * Z) s : option (state V) :=
  x ← db_at s wk.2;
  clients ← db_watched_keys x !! wk.1;
  clients ← remove_first c clients;
  let w := match clients with
           | [] => delete wk.1 (db_watched_keys x)
           | _ => <[wk.1 := clients]> (db_watched_keys x)
           end in
  Some (upd_client c (fun cl => set_watched (tail (c_watched_keys cl)) cl)
         (upd_db wk.2 (set_watchers w) s)).

Fixpoint unwatch_loop c (l : list (bytes * Z)) s : option (state V) :=
  match l with
  | [] => Some s
  | wk :: l => s ← unwatch_key c wk s; unwatch_loop c l s
  end.
Definition unwatchAllKeys c s : option (state V) :=
  cl ← s_clients s !! c; unwatch_loop c (c_watched_keys cl) s.
End Watch.

(** ** What refuses a command *)

Record config := mkConfig {
  unauthenticated : Z -> bool;     (* a password is required and was not given *)
  out_of_memory : bool;            (* [freeMemoryIfNeeded] fails *)
  bgsave_failed : bool;            (* and [stop-writes-on-bgsave-error] is set *)
  aof_failed : option bytes;       (* [strerror(server.aof_last_write_errno)] *)
  few_slaves : bool;
  slave_ro : bool;                 (* and the client is not the master *)
  stale_link : bool;               (* no link, and [slave-serve-stale-data] is off *)
  lua_timedout : bool }.

Definition shared_bgsaveerr : bytes :=
  line "-MISCONF Redis is configured to save RDB snapshots, but is currently not able to persist on disk. Commands that may modify the data set are disabled. Please check Redis logs for details about the error.".
Definition shared_noreplicaserr : bytes := line "-NOREPLICAS Not enough good slaves to write.".
Definition shared_roslaveerr : bytes := line "-READONLY You can't write against a read only slave.".
Definition shared_masterdownerr : bytes :=
  line "-MASTERDOWN Link with MASTER is down and slave-serve-stale-data is set to 'no'.".
Definition shared_slowscripterr : bytes :=
  line "-BUSY Redis is busy running a script. You can only call SCRIPT KILL or SHUTDOWN NOSAVE.".
Definition pubsub_only : string := "only (P)SUBSCRIBE / (P)UNSUBSCRIBE / QUIT allowed in this context".

Definition subscriber (p : proc) : bool :=
  match p with P_subscribe | P_unsubscribe | P_psubscribe | P_punsubscribe => true | _ => false end.

(** The first check that fails: whether it spoils a transaction, and the reply. *)
Definition refusal {V} (E : config) (s : state V) (cl : redisClient V) (c : Z) (cmd : redisCommand)
    : option (bool * bytes) :=
  if unauthenticated E c then Some (true, shared_noautherr)
  else if out_of_memory E && cmd_denyoom cmd then Some (true, shared_oomerr)
  else if (bgsave_failed E || bool_decide (is_Some (aof_failed E))) && s_master s && cmd_write cmd then
    Some (true, match aof_failed E with
                | None => shared_bgsaveerr
                | Some e => bytes_of "-MISCONF Errors writing to the AOF file: " ++ e ++ crlf
                end)
  else if s_master s && few_slaves E && cmd_write cmd then Some (true, shared_noreplicaserr)
  else if negb (s_master s) && slave_ro E && cmd_write cmd then Some (false, shared_roslaveerr)
  else if has_flag REDIS_PUBSUB cl && negb (subscriber (cmd_proc cmd)) then
    Some (false, error_text (bytes_of pubsub_only))
  else if negb (s_master s) && stale_link E && negb (cmd_stale cmd) then Some (true, shared_masterdownerr)
  else if s_loading s && negb (cmd_loading cmd) then Some (false, shared_loadingerr)
  else if lua_timedout E then Some (true, shared_slowscripterr)
  else None.

Section Requests.
Context (P : platform) (E : config).

(** A change of the state that may fail. *)
Definition change (f : state Z -> option (state Z)) : M unit :=
  s ← get_state; s' ← opt (f s); modify (fun _ => s').

(** ** Transactions *)

Definition initClientMultiState (c : Z) : M unit := upd c (set_mstate []).
Definition freeClientMultiState (c : Z) : M unit :=
  cl ← client c; each (fun mc => each decrRefCount (mc_argv mc)) (c_mstate cl).

Definition queueMultiCommand (c : Z) : M unit :=
  cl ← client c; cmd ← opt (c_cmd cl);
  each incrRefCount (c_argv cl);;
  upd c (fun cl => set_mstate (c_mstate cl ++ [mkMultiCmd (c_argv cl) cmd]) cl).

Definition discardTransaction (c : Z) : M unit :=
  freeClientMultiState c;;
  initClientMultiState c;;
  upd c (clear_flags {[REDIS_MULTI; REDIS_DIRTY_CAS; REDIS_DIRTY_EXEC]});;
  change (unwatchAllKeys c).

Definition flagTransaction (c : Z) : M unit :=
  cl ← client c; when (has_flag REDIS_MULTI cl) (upd c (add_flag REDIS_DIRTY_EXEC)).

Definition multiCommand (c : Z) : M unit :=
  cl ← client c;
  if has_flag REDIS_MULTI cl then addReplyError c (bytes_of "MULTI calls can not be nested")
  else upd c (add_flag REDIS_MULTI);; addReplyString c shared_ok_reply.

Definition discardCommand (c : Z) : M unit :=
  cl ← client c;
  if negb (has_flag REDIS_MULTI cl) then addReplyError c (bytes_of "DISCARD without MULTI")
  else discardTransaction c;; addReplyString c shared_ok_reply.

(** The text of an argument, as it is fed to the file and the slaves. *)
Definition arg_text (o : Z) : M bytes :=
  ob ← obj o; check (is_string ob);;
  '(t, len) ← opt (Object.str_of (junk P) ob); opt (mem_read t 0 len).
Fixpoint arg_texts (l : list Z) : M (list bytes) :=
  match l with
  | [] => mret []
  | o :: l => t ← arg_text o; ts ← arg_texts l; mret (t :: ts)
  end.
Definition propagate (d : Z) (args : list Z) (aof repl : bool) : M unit :=
  ts ← arg_texts args; s ← get_state;
  when (s_aof s && aof || repl) (modify (add_event (Propagated d ts (s_aof s && aof) repl))).

Definition execCommandPropagateMulti (c : Z) : M unit :=
  multistring ← createStringObject P (bytes_of "MULTI");
  cl ← client c;
  propagate (c_db cl) [multistring] true true;;
  decrRefCount multistring.

(** The queue shrinks to the commands still to run; those that ran come back in
    the end, with the arguments they left. *)
Fixpoint exec_loop (call : Z -> M unit) (c : Z) (l ran : list (multiCmd Z)) (must_propagate : bool)
    : M (list (multiCmd Z) * bool) :=
  match l with
  | [] => mret (ran, must_propagate)
  | mc :: l =>
      upd c (fun cl => set_cmd (Some (mc_cmd mc)) (set_argv (mc_argv mc) (set_mstate l cl)));;
      let first := negb must_propagate && negb (cmd_readonly (mc_cmd mc)) in
      when first (execCommandPropagateMulti c);;
      call c;;
      cl ← client c; cmd ← opt (c_cmd cl);
      exec_loop call c l (ran ++ [mkMultiCmd (c_argv cl) cmd]) (must_propagate || first)
  end.

Definition execCommand (call : Z -> M unit) (c : Z) : M unit :=
  cl ← client c;
  if negb (has_flag REDIS_MULTI cl) then addReplyError c (bytes_of "EXEC without MULTI")
  else if has_flag REDIS_DIRTY_CAS cl || has_flag REDIS_DIRTY_EXEC cl then
    addReplyString c (if has_flag REDIS_DIRTY_EXEC cl then shared_execaborterr else shared_nullmultibulk);;
    discardTransaction c
  else
    change (unwatchAllKeys c);;
    cl ← client c;
    addReplyMultiBulkLen P c (zlen (c_mstate cl));;
    '(ran, must_propagate) ← exec_loop call c (c_mstate cl) [] false;
    upd c (fun x => set_cmd (c_cmd cl) (set_argv (c_argv cl) x));;
    upd c (set_mstate ran);;
    discardTransaction c;;
    when must_propagate (dirty 1).

(** [str] of every key *)
Fixpoint strs (l : list Z) : M (list bytes) :=
  match l with
  | [] => mret []
  | o :: l => t ← str o; ts ← strs l; mret (t :: ts)
  end.

Fixpoint watch_loop (c : Z) (keys : list Z) : M unit :=
  match keys with
  | [] => mret tt
  | key :: keys => k ← str key; change (watchForKey c k);; watch_loop c keys
  end.
Definition watchCommand (c : Z) : M unit :=
  cl ← client c;
  if has_flag REDIS_MULTI cl then addReplyError c (bytes_of "WATCH inside MULTI is not allowed")
  else watch_loop c (drop 1 (c_argv cl));; addReplyString c shared_ok_reply.

Definition unwatchCommand (c : Z) : M unit :=
  change (unwatchAllKeys c);;
  upd c (clear_flags {[REDIS_DIRTY_CAS]});;
  addReplyString c shared_ok_reply.

(** ** Running a command *)

(** [c->flags & (REDIS_FORCE_AOF|REDIS_FORCE_REPL)] *)
Definition force_flags : gset flag := {[REDIS_FORCE_AOF; REDIS_FORCE_REPL]}.

Definition call (run : proc -> Z -> M unit) (c : Z) : M unit :=
  cl ← client c; let client_old_flags := c_flags cl in
  upd c (clear_flags force_flags);;
  s ← get_state; let dirty := s_dirty s in
  cmd ← opt (c_cmd cl);
  run (cmd_proc cmd) c;;
  s ← get_state; let dirty := Z.max 0 (s_dirty s - dirty) in
  cl ← client c;
  let repl := has_flag REDIS_FORCE_REPL cl || negb (dirty =? 0) in
  let aof := has_flag REDIS_FORCE_AOF cl || negb (dirty =? 0) in
  when (repl || aof) (propagate (c_db cl) (c_argv cl) aof repl);;
  upd c (fun cl => set_flags (c_flags cl ∖ force_flags ∪ client_old_flags ∩ force_flags) cl).

(** The procedures; a transaction runs within [depth] others, of which there are none. *)
Fixpoint run_proc (depth : nat) (p : proc) (c : Z) : M unit :=
  match p with
  | P_multi => multiCommand c
  | P_discard => discardCommand c
  | P_watch => watchCommand c
  | P_unwatch => unwatchCommand c
  | P_exec => match depth with
              | O => fail
              | S depth => execCommand (call (run_proc depth)) c
              end
  | P_subscribe | P_unsubscribe | P_psubscribe | P_punsubscribe | P_publish =>
      cl ← client c; args ← strs (c_argv cl); change (pubsub_command p c args)
  | _ => run_command P p c
  end.

(** The result tells that the client is still to be served. *)
Definition processCommand (c : Z) : M bool :=
  a ← argv c 0; name ← str a;
  if strcasecmp_eq name (bytes_of "quit") then
    addReplyString c shared_ok_reply;;
    upd c (add_flag REDIS_CLOSE_AFTER_REPLY);; mret false
  else
    cmd ← opt (lookupCommand name);
    upd c (set_cmd cmd);;
    match cmd with
    | None =>
        flagTransaction c;;
        addReplyErrorFormat c (bytes_of "unknown command '" ++ name ++ bytes_of "'");; mret true
    | Some cmd =>
        argc ← argc c;
        if (0 <? cmd_arity cmd) && negb (cmd_arity cmd =? argc) || (argc <? - cmd_arity cmd) then
          flagTransaction c;;
          addReplyErrorFormat c (bytes_of "wrong number of arguments for '" ++ cmd_name cmd
            ++ bytes_of "' command");; mret true
        else
          check (modelled (cmd_proc cmd));;
          cl ← client c; s ← get_state;
          match refusal E s cl c cmd with
          | Some (spoils, text) =>
              when spoils (flagTransaction c);; addReplyString c text;; mret true
          | None =>
              if has_flag REDIS_MULTI cl && negb (while_queueing (cmd_proc cmd)) then
                queueMultiCommand c;; addReplyString c shared_queued;; mret true
              else call (run_proc 1) c;; mret true
          end
    end.

(** ** Clients *)

Definition freeClientArgv (c : Z) : M unit :=
  cl ← client c; each decrRefCount (c_argv cl);; upd c (fun cl => set_cmd None (set_argv [] cl)).

(** The parser's part of a client is that of [Protocol]. *)
Definition resetClient (c : Z) : M unit := freeClientArgv c.

(** The arguments of a request, as the parser makes them: of 32 KB or more, one is
    the query buffer itself, with the same text. *)
Fixpoint receive (c : Z) (args : list bytes) : M unit :=
  match args with
  | [] => mret tt
  | bs :: args =>
      o ← createStringObject P bs;
      upd c (fun cl => set_argv (c_argv cl ++ [o]) cl);; receive c args
  end.

Definition new_client : redisClient Z := mkClient 0 ∅ [] None [] [] ∅ [] [].
Definition createClient (c : Z) : M unit :=
  s ← get_state; check (bool_decide (s_clients s !! c = None));;
  modify (set_clients (<[c := new_client]> (s_clients s))).

Definition freeClient (c : Z) : M unit :=
  change (unwatchAllKeys c);;
  change (fun s => fst <$> pubsubUnsubscribeAllChannels c false s);;
  change (fun s => fst <$> pubsubUnsubscribeAllPatterns c false s);;
  freeClientArgv c;;
  cl ← client c;
  modify (fun s => set_clients (delete c (s_clients s)) s);;
  each (fun mc => each decrRefCount (mc_argv mc)) (c_mstate cl).

(** What a server is sent. *)
Inductive input :=
  | Connect (c : Z) | Request (c : Z) (args : list bytes) | Disconnect (c : Z).

(** [processInputBuffer] around one request. *)
Definition serve (i : input) : M unit :=
  match i with
  | Connect c => createClient c
  | Disconnect c => freeClient c
  | Request c args =>
      cl ← client c;
      if has_flag REDIS_CLOSE_AFTER_REPLY cl then mret tt
      else if zlen args =? 0 then resetClient c
      else
        receive c args;; ok ← processCommand c; when ok (resetClient c)
  end.
Definition serve_all (l : list input) : M unit := each serve l.
End Requests.
