(* ===== verification/MultiSpec.v ===== *)
(** Requests and transactions, specified on the abstract server: arguments and
    queued commands are byte strings, and nothing is counted.  A transaction is
    the sequence of its commands.

    [None]: a command has no specified behaviour (see [StringSpec], [KeySpec]),
    or the references or the queued commands could outgrow their counters.  [Multi] implements it
    ([MultiProofs]). *)
From stdpp Require Import gmap list strings.
From S2P Require Import Prelude Util Sds SdsText Object Server Keyspace ServerRep ServerOps KeyspaceSpec StringSpec KeySpec Commands Pubsub Multi.
Local Open Scope c_scope.

Definition text (v : aval) : option bytes := match v with AStr bs => Some bs | AOther _ => None end.
Definition texts (l : list aval) : option (list bytes) := mapM text l.

(** No count can overflow while [n] more references are taken. *)
Definition roomy {V} (a : state V) (n : Z) : bool :=
  REDIS_SHARED_INTEGERS + weight a + n <? 2 ^ 31 - 2.
Definition short (args : list bytes) : bool := bool_decide (Forall (fun bs => zlen bs <= max_string) args).

(** [guard] as a test *)
Definition assume {A} (b : bool) (x : option A) : option A := if b then x else None.

(** ** Commands that run *)

Definition spec_propagate (d : Z) (args : list aval) (aof repl : bool) (a : state aval)
    : option (state aval) :=
  ts ← texts args;
  Some (if s_aof a && aof || repl then add_event (Propagated d ts (s_aof a && aof) repl) a else a).

(** The arguments are those of the client; [extra] more references are held. *)
Definition spec_base (extra : Z) (p : proc) (c : Z) (a : state aval) : option (state aval) :=
  cl ← s_clients a !! c; cmd ← c_cmd cl; args ← texts (c_argv cl);
  assume (short args && roomy a (extra + zlen args + 2))
    (spec_command p c (c_db cl) (cmd_name cmd) args a).

Definition spec_call (run : Z -> proc -> Z -> state aval -> option (state aval)) (extra : Z) (c : Z)
    (a : state aval) : option (state aval) :=
  cl ← s_clients a !! c; cmd ← c_cmd cl;
  a' ← run extra (cmd_proc cmd) c (upd_client c (clear_flags force_flags) a);
  cl' ← s_clients a' !! c;
  let changed := negb (Z.max 0 (s_dirty a' - s_dirty a) =? 0) in
  let repl := has_flag REDIS_FORCE_REPL cl' || changed in
  let aof := has_flag REDIS_FORCE_AOF cl' || changed in
  a' ← (if repl || aof then spec_propagate (c_db cl') (c_argv cl') aof repl a' else Some a');
  Some (upd_client c (fun x => set_flags (c_flags x ∖ force_flags ∪ c_flags cl ∩ force_flags) x) a').

(** ** Transactions *)

Definition spec_discard (c : Z) (a : state aval) : option (state aval) :=
  unwatchAllKeys c (upd_client c (clear_flags {[REDIS_MULTI; REDIS_DIRTY_CAS; REDIS_DIRTY_EXEC]})
    (upd_client c (set_mstate []) a)).

Definition queued_args (l : list (multiCmd aval)) : list aval := concat (mc_argv <$> l).

(** [n] commands are taken from the queue and run; what they leave of their
    arguments is kept aside. *)
Fixpoint spec_exec_loop (call : Z -> Z -> state aval -> option (state aval)) (extra : Z) (c : Z)
    (n : nat) (ran : list (multiCmd aval)) (multi_sent : bool) (a : state aval)
    : option (state aval * list (multiCmd aval) * bool) :=
  match n with
  | O => Some (a, ran, multi_sent)
  | S n =>
      cl ← s_clients a !! c; mc ← head (c_mstate cl);
      let a := upd_client c (fun cl => set_cmd (Some (mc_cmd mc)) (set_argv (mc_argv mc)
                 (set_mstate (tail (c_mstate cl)) cl))) a in
      let first := negb multi_sent && negb (cmd_readonly (mc_cmd mc)) in
      a ← (if first then spec_propagate (c_db cl) [AStr (bytes_of "MULTI")] true true a else Some a);
      a ← call (extra + zlen (queued_args ran)) c a;
      cl ← s_clients a !! c; cmd ← c_cmd cl;
      spec_exec_loop call extra c n (ran ++ [mkMultiCmd (c_argv cl) cmd]) (multi_sent || first) a
  end.

Definition spec_exec (call : Z -> Z -> state aval -> option (state aval)) (extra : Z) (c : Z)
    (a : state aval) : option (state aval) :=
  cl ← s_clients a !! c;
  if negb (has_flag REDIS_MULTI cl) then Some (tell_error c "EXEC without MULTI" a)
  else if has_flag REDIS_DIRTY_CAS cl || has_flag REDIS_DIRTY_EXEC cl then
    spec_discard c (tell c (if has_flag REDIS_DIRTY_EXEC cl then shared_execaborterr
                            else shared_nullmultibulk) a)
  else
    a ← unwatchAllKeys c a; cl ← s_clients a !! c;
    let a := tell c (with_prefix 42 (zlen (c_mstate cl))) a in
    '(a, _, multi_sent) ← assume (zlen (c_mstate cl) <? 2 ^ 31)
      (spec_exec_loop call (extra + zlen (c_argv cl)) c (length (c_mstate cl)) [] false a);
    a ← spec_discard c (upd_client c (fun x => set_cmd (c_cmd cl) (set_argv (c_argv cl) x)) a);
    Some (if (multi_sent : bool) then add_dirty 1 a else a).

Fixpoint spec_watch (c : Z) (keys : list bytes) (a : state aval) : option (state aval) :=
  match keys with
  | [] => Some a
  | k :: keys => a ← watchForKey c k a; spec_watch c keys a
  end.

Fixpoint spec_proc (depth : nat) (extra : Z) (p : proc) (c : Z) (a : state aval) : option (state aval) :=
  cl ← s_clients a !! c;
  match p with
  | P_multi =>
      Some (if has_flag REDIS_MULTI cl then tell_error c "MULTI calls can not be nested" a
            else tell c shared_ok_reply (upd_client c (add_flag REDIS_MULTI) a))
  | P_discard =>
      if negb (has_flag REDIS_MULTI cl) then Some (tell_error c "DISCARD without MULTI" a)
      else tell c shared_ok_reply <$> spec_discard c a
  | P_watch =>
      if has_flag REDIS_MULTI cl then Some (tell_error c "WATCH inside MULTI is not allowed" a)
      else args ← texts (c_argv cl); tell c shared_ok_reply <$> spec_watch c (drop 1 args) a
  | P_unwatch =>
      a ← unwatchAllKeys c a;
      Some (tell c shared_ok_reply (upd_client c (clear_flags {[REDIS_DIRTY_CAS]}) a))
  | P_exec =>
      match depth with
      | O => None
      | S depth => spec_exec (spec_call (spec_proc depth)) extra c a
      end
  | P_subscribe | P_unsubscribe | P_psubscribe | P_punsubscribe | P_publish =>
      args ← texts (c_argv cl); pubsub_command p c args a
  | _ => spec_base extra p c a
  end.

(** ** Requests *)

Definition spec_flag (c : Z) (a : state aval) : state aval :=
  match s_clients a !! c with
  | Some cl => if has_flag REDIS_MULTI cl then upd_client c (add_flag REDIS_DIRTY_EXEC) a else a
  | None => a
  end.
Definition spec_queue (c : Z) (cmd : redisCommand) (a : state aval) : state aval :=
  upd_client c (fun cl => set_mstate (c_mstate cl ++ [mkMultiCmd (c_argv cl) cmd]) cl) a.

(** An error message: line ends inside become spaces. *)
Definition format_text (msg : bytes) : bytes :=
  error_text ((fun b => if (b =? 13) || (b =? 10) then 32 else b) <$> msg).

Definition spec_process (E : config) (c : Z) (args : list bytes) (a : state aval)
    : option (state aval * bool) :=
  name ← head args;
  if strcasecmp_eq name (bytes_of "quit") then
    Some (upd_client c (add_flag REDIS_CLOSE_AFTER_REPLY) (tell c shared_ok_reply a), false)
  else
    cmd ← lookupCommand name;
    let a := upd_client c (set_cmd cmd) a in
    match cmd with
    | None =>
        Some (tell c (format_text (bytes_of "unknown command '" ++ name ++ bytes_of "'")) (spec_flag c a), true)
    | Some cmd =>
        let argc := zlen args in
        if (0 <? cmd_arity cmd) && negb (cmd_arity cmd =? argc) || (argc <? - cmd_arity cmd) then
          Some (tell c (format_text (bytes_of "wrong number of arguments for '" ++ cmd_name cmd
            ++ bytes_of "' command")) (spec_flag c a), true)
        else
          assume (modelled (cmd_proc cmd))
          (cl ← s_clients a !! c;
           match refusal E a cl c cmd with
           | Some (spoils, txt) => Some (tell c txt (if spoils : bool then spec_flag c a else a), true)
           | None =>
               if has_flag REDIS_MULTI cl && negb (while_queueing (cmd_proc cmd)) then
                 assume (roomy a (2 * argc)) (Some (tell c shared_queued (spec_queue c cmd a), true))
               else
                 a ← spec_call (spec_proc 1) 0 c a; Some (a, true)
           end)
    end.

Definition a_new_client : redisClient aval := mkClient 0 ∅ [] None [] [] ∅ [] [].

Definition spec_serve (E : config) (i : input) (a : state aval) : option (state aval) :=
  match i with
  | Connect c =>
      assume (bool_decide (s_clients a !! c = None) && bool_decide (is_Some (db_at a 0)))
        (Some (set_clients (<[c := a_new_client]> (s_clients a)) a))
  | Disconnect c =>
      a ← unwatchAllKeys c a;
      a ← fst <$> pubsubUnsubscribeAllChannels c false a;
      a ← fst <$> pubsubUnsubscribeAllPatterns c false a;
      Some (set_clients (delete c (s_clients a)) a)
  | Request c args =>
      cl ← s_clients a !! c;
      if has_flag REDIS_CLOSE_AFTER_REPLY cl then Some a
      else if zlen args =? 0 then Some (upd_client c (fun x => set_cmd None (set_argv [] x)) a)
      else
        assume (short args && bool_decide (c_argv cl = []))
        ('(a, ok) ← spec_process E c args (upd_client c (set_argv (AStr <$> args)) a);
         Some (if (ok : bool) then upd_client c (fun x => set_cmd None (set_argv [] x)) a else a))
  end.
Fixpoint spec_serve_all (E : config) (l : list input) (a : state aval) : option (state aval) :=
  match l with
  | [] => Some a
  | i :: l => a ← spec_serve E i a; spec_serve_all E l a
  end.
