(* ===== verification/MultiOps.v ===== *)
(** The tables of watchers and subscribers next to the heap: their operations
    move no reference and say the same on the server and on its abstraction. *)
From stdpp Require Import gmap list strings.
From S2P Require Import Prelude Util Glob Sds SdsText Object Server Keyspace ServerRep ServerOps KeyspaceSpec Pubsub Multi.
Local Open Scope c_scope.

(** ** Operations on tables *)

(** The same operation on states over any values. *)
Definition table_op (R : Type) : Type := forall V : Type, state V -> option (state V * R).

Record natural {R} (f : table_op R) : Prop := {
  natural_map : forall A B (g : A -> B) s, f B (map_state g s) = prod_map (map_state g) id <$> f A s;
  natural_quiet : forall s s' r, f Z s = Some (s', r) -> quiet s s' }.

Lemma natural_ext {R} (f f' : table_op R) : (forall V s, f V s = f' V s) -> natural f -> natural f'.
Proof.
  intros E [Hm Hq]. split.
  - intros A B g s. by rewrite <- !E.
  - intros s s' r. rewrite <- E. apply Hq.
Qed.

(** What an operation may look at. *)
Definition observable {X} (obs : forall V : Type, state V -> X) : Prop :=
  forall A B (g : A -> B) s, obs B (map_state g s) = obs A s.

Lemma natural_ret {R} (r : R) : natural (fun V s => Some (s, r)).
Proof. split; [done|]. intros s s' r' [= <- _]. apply quiet_refl. Qed.
Lemma natural_none {R} : natural (fun V s => @None (state V * R)).
Proof. by split. Qed.
Lemma natural_bind {R R'} (f : table_op R) (k : R -> table_op R') :
  natural f -> (forall r, natural (k r)) -> natural (fun V s => '(s, r) ← f V s; k r V s).
Proof.
  intros [Hm Hq] Hk. split.
  - intros A B g s. rewrite Hm. destruct (f A s) as [[s1 r]|]; [|done]. cbn. apply (natural_map _ (Hk r)).
  - intros s s' r' H. destruct (f Z s) as [[s1 r]|] eqn:E; [|done]. cbn in H.
    eapply quiet_trans; [by apply (Hq s s1 r)|by eapply (natural_quiet _ (Hk r))].
Qed.
Lemma natural_obs {X R} (obs : forall V, state V -> X) (k : X -> table_op R) :
  observable obs -> (forall x, natural (k x)) -> natural (fun V s => k (obs V s) V s).
Proof.
  intros Ho Hk. split.
  - intros A B g s. rewrite Ho. apply (natural_map _ (Hk _)).
  - intros s s' r. apply (natural_quiet _ (Hk _)).
Qed.
(** An observation that may fail. *)
Lemma natural_opt {X R} (obs : forall V, state V -> option X) (k : X -> table_op R) :
  observable obs -> (forall x, natural (k x)) -> natural (fun V s => x ← obs V s; k x V s).
Proof.
  intros Ho Hk. eapply (natural_obs obs (fun o V s => x ← o; k x V s)); [done|].
  intros [x|]; [apply Hk|apply natural_none].
Qed.
Lemma natural_then {R R'} (f : forall V : Type, state V -> state V) (k : table_op R') (r : R) :
  natural (fun V s => Some (f V s, r)) -> natural k -> natural (fun V s => k V (f V s)).
Proof. intros Hf Hk. exact (natural_bind _ (fun _ => k) Hf (fun _ => Hk)). Qed.

Lemma natural_comp {R} (f g : forall V : Type, state V -> state V) (r : R) :
  natural (fun V s => Some (f V s, tt)) -> natural (fun V s => Some (g V s, r)) ->
  natural (fun V s => Some (g V (f V s), r)).
Proof. intros Hf Hg. exact (natural_then f (fun V s => Some (g V s, r)) tt Hf Hg). Qed.

(** The changes *)
Lemma natural_client {R} c (f : forall V : Type, redisClient V -> redisClient V) (r : R) :
  (forall A B (g : A -> B) x, map_client g (f A x) = f B (map_client g x)) -> light (f Z) ->
  natural (fun V s => Some (upd_client c (f V) s, r)).
Proof.
  intros Hf Hl. split.
  - intros A B g s. cbn. by rewrite (map_upd_client g c (f A) (f B)).
  - intros s s' r' [= <- _]. by apply quiet_client.
Qed.
Lemma natural_pubsub {R} f g (r : R) :
  natural (fun V s => Some (set_pubsub (f (s_channels s)) (g (s_patterns s)) s, r)).
Proof. split; [done|]. intros s s' r' [= <- _]. split; eauto. Qed.
Lemma quiet_watchers d w (s : state Z) : quiet s (upd_db d (set_watchers w) s).
Proof.
  destruct (db_at s d) as [y|] eqn:Hy.
  - split; [|by intros c cl Hc; exists cl| | |by intros c cl Hc; exists cl].
    + intros o. rewrite (cnt_upd_db o s d y) by done. cbn. lia.
    + intros He e x k. rewrite (db_at_upd d e _ s y Hy). case_decide; [|by apply He].
      intros [= <-]. cbn. by apply (He d).
    + intros Hd c cl Hc. apply db_at_range. rewrite zlen_upd_db. apply db_at_range. by apply (Hd c).
  - split; [|by intros c cl Hc; exists cl| | |by intros c cl Hc; exists cl].
    + intros o. unfold roots, upd_db. cbn [set_dbs s_dbs s_clients]. rewrite !cnt_app.
      apply (f_equal2 Z.add); [|done]. unfold dbs_roots. do 2 f_equal. apply list_eq. intros i.
      rewrite !list_lookup_fmap, list_lookup_alter. case_decide as E; [|done].
      subst i. by destruct (s_dbs s !! Z.to_nat d).
    + intros He e x k Hx. unfold db_at, znth in Hx, Hy. destruct (decide (0 <= e)); [|done]. cbn in Hx.
      assert (Hn : forall z, s_dbs s !! Z.to_nat e = Some z -> is_Some (db_expires z !! k) ->
        is_Some (db_dict z !! k)).
      { intros z Hz. apply (He e). unfold db_at, znth. by rewrite decide_True. }
      rewrite list_lookup_alter in Hx. destruct (decide (Z.to_nat d = Z.to_nat e)) as [E|]; [rewrite E in Hx|by apply Hn].
      destruct (s_dbs s !! Z.to_nat e) as [z|] eqn:Ez; [|done]. injection Hx as <-. exact (Hn z eq_refl).
    + intros Hd c cl Hc. apply db_at_range. rewrite zlen_upd_db. apply db_at_range. by apply (Hd c).
Qed.
Lemma natural_watchers {R} d w (r : R) : natural (fun V s => Some (upd_db d (set_watchers w) s, r)).
Proof.
  split.
  - intros A B g s. cbn. by rewrite (map_upd_db g d _ (set_watchers w)).
  - intros s s' r' [= <- _]. apply quiet_watchers.
Qed.

(** An operation without a result. *)
Definition quietly (f : forall V : Type, state V -> option (state V)) : table_op unit :=
  fun V s => (fun s => (s, tt)) <$> f V s.

Section Change.
Context (P : platform) {HP : PlatformOk P}.

Lemma wp_table s c L F K a a' (f : forall V : Type, state V -> option (state V)) (Q : unit -> server -> Prop) :
  natural (quietly f) -> At P s c L F K a -> f aval a = Some a' ->
  (forall s', At P s' c L F K a' -> s'.1 = s.1 -> Q tt s') -> wp (change (f Z)) s Q.
Proof.
  intros [Hm Hq] H Ha HQ. rewrite <- (at_abs _ _ _ _ _ _ _ H) in Ha. unfold abs in Ha.
  pose proof (Hm _ _ (abs_addr P s.1) s.2) as E. unfold quietly in E. rewrite Ha in E. cbn in E.
  destruct (f Z s.2) as [st|] eqn:Ef; [|done]. cbn in E. injection E as E.
  apply wp_bind, wp_get, wp_bind, (wp_opt _ st); [done|]. apply wp_modify, HQ; [|done].
  apply (At_quiet P s c L F K a); [done| |done]. apply (Hq s.2 st tt). unfold quietly. by rewrite Ef.
Qed.
End Change.

(** ** What the operations look at *)

Definition tables {V} (c : Z) (s : state V) : option (Z * list (bytes * Z) * gset bytes * list bytes) :=
  (fun cl => (c_db cl, c_watched_keys cl, c_pubsub_channels cl, c_pubsub_patterns cl)) <$> s_clients s !! c.
Definition watchers {V} (d : Z) (s : state V) : option (gmap bytes (list Z)) :=
  db_watched_keys <$> db_at s d.

Lemma tables_observable c : observable (fun V s => tables c s).
Proof. intros A B g s. unfold tables. rewrite map_clients. by destruct (s_clients s !! c). Qed.
Lemma watchers_observable d : observable (fun V s => watchers d s).
Proof. intros A B g s. unfold watchers. rewrite map_db_at. by destruct (db_at s d). Qed.
Lemma channels_observable : observable (fun V s => s_channels s).
Proof. done. Qed.
Lemma patterns_observable : observable (fun V s => s_patterns s).
Proof. done. Qed.

Lemma natural_light {R} c f (r : R) : (forall V, light (f V)) ->
  (forall A B (g : A -> B) x, map_client g (f A x) = f B (map_client g x)) ->
  natural (fun V s => Some (upd_client c (f V) s, r)).
Proof. intros Hl Hf. by apply natural_client. Qed.
#[export] Hint Resolve natural_ret natural_none natural_pubsub natural_watchers : natural.

(** ** Watched keys *)

Lemma natural_watchForKey c key : natural (quietly (fun V => watchForKey c key)).
Proof.
  eapply natural_ext; [|eapply (natural_opt (fun V s => tables c s) (fun v => let '(d, wks, _, _) := v in
    if existsb (fun wk : bytes * Z => (wk.2 =? d) && bool_decide (key = wk.1)) wks then fun V s => Some (s, tt)
    else fun V s => w ← watchers d s;
      Some (upd_client c (set_watched (wks ++ [(key, d)]))
        (upd_db d (set_watchers (<[key := default [] (w !! key) ++ [c]]> w)) s), tt)));
    [apply tables_observable|]].
  - intros V s. unfold quietly, watchForKey, tables, watchers. destruct (s_clients s !! c) as [cl|]; [|done].
    cbn. destruct existsb; [done|]. by destruct (db_at s (c_db cl)).
  - intros [[[d wks] chs] ps]. destruct existsb; [apply natural_ret|].
    eapply (natural_opt (fun V s => watchers d s) (fun w V s => Some (upd_client c (set_watched (wks ++ [(key, d)]))
      (upd_db d (set_watchers (<[key := default [] (w !! key) ++ [c]]> w)) s), tt))); [apply watchers_observable|].
    intros w. eapply (natural_comp (fun V s => upd_db d (set_watchers _) s)
      (fun V s => upd_client c (set_watched _) s)); [apply natural_watchers|by apply natural_client].
Qed.

Lemma natural_unwatch_key c wk : natural (quietly (fun V => unwatch_key c wk)).
Proof.
  eapply natural_ext; [|eapply (natural_opt (fun V s => watchers wk.2 s) (fun w =>
    match w !! wk.1 ≫= remove_first c with
    | None => fun V s => None
    | Some clients => fun V s =>
        Some (upd_client c (fun cl => set_watched (tail (c_watched_keys cl)) cl)
          (upd_db wk.2 (set_watchers (match clients with [] => delete wk.1 w | _ => <[wk.1 := clients]> w end)) s), tt)
    end)); [apply watchers_observable|]].
  - intros V s. unfold quietly, unwatch_key, watchers. destruct (db_at s wk.2) as [x|]; [|done]. cbn.
    destruct (db_watched_keys x !! wk.1) as [cs|]; [|done]. cbn. by destruct (remove_first c cs).
  - intros w. destruct (w !! wk.1 ≫= remove_first c) as [cs|]; [|apply natural_none].
    eapply (natural_comp (fun V s => upd_db wk.2 (set_watchers _) s)
      (fun V s => upd_client c (fun cl => set_watched (tail (c_watched_keys cl)) cl) s));
      [apply natural_watchers|by apply natural_client].
Qed.

Lemma natural_unwatch_loop c l : natural (quietly (fun V => unwatch_loop c l)).
Proof.
  induction l as [|wk l IH]; [apply (natural_ret tt)|].
  eapply natural_ext; [|exact (natural_bind _ (fun _ => quietly (fun V => unwatch_loop c l))
    (natural_unwatch_key c wk) (fun _ => IH))].
  intros V s. unfold quietly. cbn. by destruct (unwatch_key c wk s).
Qed.
Lemma natural_unwatchAllKeys c : natural (quietly (fun V => unwatchAllKeys c)).
Proof.
  eapply natural_ext; [|eapply (natural_opt (fun V s => tables c s)
    (fun v => let '(_, wks, _, _) := v in quietly (fun V => unwatch_loop c wks))); [apply tables_observable|]].
  - intros V s. unfold quietly, unwatchAllKeys, tables. by destruct (s_clients s !! c).
  - intros [[[d wks] chs] ps]. apply natural_unwatch_loop.
Qed.

(** ** Subscriptions *)

Lemma natural_tell c bs {R} (r : R) : natural (fun V s => Some (tell_client c bs s, r)).
Proof. apply natural_client; [intros A B g x; apply say_map|apply say_light]. Qed.
Lemma natural_notify c kind name : natural (quietly (fun V => notify_subscription c kind name)).
Proof.
  eapply natural_ext; [|eapply (natural_opt (fun V s => tables c s) (fun v => let '(_, _, chs, ps) := v in
    fun V s => Some (tell_client c (subscription_text kind name (Z.of_nat (size chs) + zlen ps)) s, tt)));
    [apply tables_observable|]].
  - intros V s. unfold quietly, notify_subscription, tables. by destruct (s_clients s !! c).
  - intros [[[d wks] chs] ps]. apply natural_tell.
Qed.
(** [s ← notify; Some (s, r)] *)
Lemma natural_notified {R} c kind name (r : R) :
  natural (fun V s => s ← notify_subscription c kind name s; Some (s, r)).
Proof.
  eapply natural_ext; [|exact (natural_bind _ (fun _ V s => Some (s, r)) (natural_notify c kind name)
    (fun _ => natural_ret r))].
  intros V s. unfold quietly. by destruct (notify_subscription c kind name s).
Qed.
Lemma natural_notified_if {R} b c kind name (r : R) :
  natural (fun V s => s ← (if b : bool then notify_subscription c kind name s else Some s); Some (s, r)).
Proof. destruct b; [apply natural_notified|apply natural_ret]. Qed.

Lemma natural_subscribe c channel : natural (fun V => pubsubSubscribeChannel (V := V) c channel).
Proof.
  eapply natural_ext; [|eapply (natural_opt (fun V s => tables c s) (fun v => let '(_, _, chs, _) := v in
    if bool_decide (channel ∈ chs) then
      fun V s => s ← notify_subscription c shared_subscribebulk (bulk_text channel) s; Some (s, 0)
    else fun V s => s ← notify_subscription c shared_subscribebulk (bulk_text channel)
        (set_pubsub (<[channel := default [] (s_channels s !! channel) ++ [c]]> (s_channels s)) (s_patterns s)
          (upd_client c (set_channels ({[channel]} ∪ chs)) s)); Some (s, 1)));
    [apply tables_observable|]].
  - intros V s. unfold pubsubSubscribeChannel, tables. destruct (s_clients s !! c) as [cl|]; [|done]. cbn.
    by case_bool_decide.
  - intros [[[d wks] chs] ps]. case_bool_decide; [apply natural_notified|].
    apply (natural_then (fun V s => upd_client c (set_channels ({[channel]} ∪ chs)) s)
      (fun V s => s ← notify_subscription c _ _ (set_pubsub
        (<[channel := default [] (s_channels s !! channel) ++ [c]]> (s_channels s)) (s_patterns s) s);
        Some (s, 1)) tt); [by apply natural_client|].
    apply (natural_then (fun V s => set_pubsub _ _ s) (fun V s => s ← notify_subscription c _ _ s; Some (s, 1)) tt).
    + apply (natural_pubsub (fun m => <[channel := default [] (m !! channel) ++ [c]]> m) (fun l => l)).
    + apply natural_notified.
Qed.

(** A table of channels without [c] under [channel]. *)
Definition drop_subscriber (c : Z) (channel : bytes) (m : gmap bytes (list Z)) : option (gmap bytes (list Z)) :=
  clients ← m !! channel; clients ← remove_first c clients;
  Some match clients with [] => delete channel m | _ => <[channel := clients]> m end.

Lemma natural_unsubscribe c channel b : natural (fun V => pubsubUnsubscribeChannel (V := V) c channel b).
Proof.
  eapply natural_ext; [|eapply (natural_opt (fun V s => tables c s) (fun v => let '(_, _, chs, _) := v in
    if bool_decide (channel ∈ chs) then
      fun V s => m ← drop_subscriber c channel (s_channels s);
        s ← (if b : bool then notify_subscription c shared_unsubscribebulk (bulk_text channel)
          (set_pubsub m (s_patterns s) (upd_client c (set_channels (chs ∖ {[channel]})) s))
             else Some (set_pubsub m (s_patterns s) (upd_client c (set_channels (chs ∖ {[channel]})) s)));
        Some (s, 1)
    else fun V s => s ← (if b : bool then notify_subscription c shared_unsubscribebulk (bulk_text channel) s else Some s);
      Some (s, 0))); [apply tables_observable|]].
  - intros V s. unfold pubsubUnsubscribeChannel, drop_subscriber, tables.
    destruct (s_clients s !! c) as [cl|]; [|done]. cbn. case_bool_decide; [|by destruct b].
    cbn. destruct (s_channels s !! channel) as [cs|]; [|done]. cbn. destruct (remove_first c cs) as [[|]|]; [..|done];
      cbn; by destruct b.
  - intros [[[d wks] chs] ps]. case_bool_decide; [|by apply natural_notified_if].
    apply (natural_opt (fun V s => drop_subscriber c channel (s_channels s)) (fun m V s =>
      s ← (if b then notify_subscription c _ _ (set_pubsub m (s_patterns s) (upd_client c _ s))
           else Some (set_pubsub m (s_patterns s) (upd_client c _ s))); Some (s, 1))); [done|]. intros m.
    apply (natural_then (fun V s => upd_client c (set_channels (chs ∖ {[channel]})) s)
      (fun V s => s ← (if b then notify_subscription c _ _ (set_pubsub m (s_patterns s) s)
                       else Some (set_pubsub m (s_patterns s) s)); Some (s, 1)) tt); [by apply natural_client|].
    apply (natural_then (fun V s => set_pubsub m (s_patterns s) s)
      (fun V s => s ← (if b then notify_subscription c _ _ s else Some s); Some (s, 1)) tt).
    + apply (natural_pubsub (fun _ => m) (fun l => l)).
    + apply natural_notified_if.
Qed.

Lemma natural_psubscribe c pattern : natural (fun V => pubsubSubscribePattern (V := V) c pattern).
Proof.
  eapply natural_ext; [|eapply (natural_opt (fun V s => tables c s) (fun v => let '(_, _, _, ps) := v in
    if bool_decide (pattern ∈ ps) then
      fun V s => s ← notify_subscription c shared_psubscribebulk (bulk_text pattern) s; Some (s, 0)
    else fun V s => s ← notify_subscription c shared_psubscribebulk (bulk_text pattern)
        (set_pubsub (s_channels s) (s_patterns s ++ [(c, pattern)])
          (upd_client c (set_patterns (ps ++ [pattern])) s)); Some (s, 1)));
    [apply tables_observable|]].
  - intros V s. unfold pubsubSubscribePattern, tables. destruct (s_clients s !! c) as [cl|]; [|done]. cbn.
    by case_bool_decide.
  - intros [[[d wks] chs] ps]. case_bool_decide; [apply natural_notified|].
    apply (natural_then (fun V s => upd_client c (set_patterns (ps ++ [pattern])) s)
      (fun V s => s ← notify_subscription c _ _ (set_pubsub (s_channels s) (s_patterns s ++ [(c, pattern)]) s);
        Some (s, 1)) tt); [by apply natural_client|].
    apply (natural_then (fun V s => set_pubsub _ _ s) (fun V s => s ← notify_subscription c _ _ s; Some (s, 1)) tt).
    + apply (natural_pubsub (fun m => m) (fun l => l ++ [(c, pattern)])).
    + apply natural_notified.
Qed.

Lemma natural_punsubscribe c pattern b : natural (fun V => pubsubUnsubscribePattern (V := V) c pattern b).
Proof.
  eapply natural_ext; [|eapply (natural_opt (fun V s => tables c s) (fun v => let '(_, _, _, ps) := v in
    match remove_first pattern ps with
    | Some rest => fun V s => pats ← remove_first (c, pattern) (s_patterns s);
        s ← (if b : bool then notify_subscription c shared_punsubscribebulk (bulk_text pattern)
          (set_pubsub (s_channels s) pats (upd_client c (set_patterns rest) s))
             else Some (set_pubsub (s_channels s) pats (upd_client c (set_patterns rest) s)));
        Some (s, 1)
    | None => fun V s =>
        s ← (if b : bool then notify_subscription c shared_punsubscribebulk (bulk_text pattern) s else Some s);
        Some (s, 0)
    end)); [apply tables_observable|]].
  - intros V s. unfold pubsubUnsubscribePattern, tables.
    destruct (s_clients s !! c) as [cl|]; [|done]. cbn. destruct (remove_first pattern _) as [rest|]; [|by destruct b].
    cbn. destruct (remove_first (c, pattern) _) as [pats|]; [|done]. by destruct b.
  - intros [[[d wks] chs] ps]. destruct (remove_first pattern ps) as [rest|]; [|by apply natural_notified_if].
    apply (natural_opt (fun V s => remove_first (c, pattern) (s_patterns s)) (fun pats V s =>
      s ← (if b then notify_subscription c _ _ (set_pubsub (s_channels s) pats (upd_client c _ s))
           else Some (set_pubsub (s_channels s) pats (upd_client c _ s))); Some (s, 1))); [done|]. intros pats.
    apply (natural_then (fun V s => upd_client c (set_patterns rest) s)
      (fun V s => s ← (if b then notify_subscription c _ _ (set_pubsub (s_channels s) pats s)
                       else Some (set_pubsub (s_channels s) pats s)); Some (s, 1)) tt); [by apply natural_client|].
    apply (natural_then (fun V s => set_pubsub (s_channels s) pats s)
      (fun V s => s ← (if b then notify_subscription c _ _ s else Some s); Some (s, 1)) tt).
    + apply (natural_pubsub (fun m => m) (fun _ => pats)).
    + apply natural_notified_if.
Qed.

Lemma natural_counting {A} (f : A -> table_op Z) l : (forall x, natural (f x)) ->
  forall n, natural (fun V s => counting (fun x => f x V) l s n).
Proof.
  intros Hf. induction l as [|x l IH]; intros n; [apply natural_ret|].
  exact (natural_bind (f x) (fun m V s => counting (fun x => f x V) l s (n + m)) (Hf x) (fun m => IH (n + m))).
Qed.

Lemma natural_unsubscribe_all c b : natural (fun V => pubsubUnsubscribeAllChannels (V := V) c b).
Proof.
  eapply natural_ext; [|eapply (natural_opt (fun V s => tables c s) (fun v => let '(_, _, chs, _) := v in
    fun V s => '(s, count) ← counting (fun channel => pubsubUnsubscribeChannel c channel b) (elements chs) s 0;
      s ← (if b && (count =? 0) then notify_subscription c shared_unsubscribebulk shared_nullbulk s else Some s);
      Some (s, count))); [apply tables_observable|]].
  - intros V s. unfold pubsubUnsubscribeAllChannels, tables. by destruct (s_clients s !! c).
  - intros [[[d wks] chs] ps]. apply (natural_bind (fun V s => counting _ _ s 0) (fun count V s =>
      s ← (if b && (count =? 0) then notify_subscription c _ _ s else Some s); Some (s, count))).
    + apply (natural_counting (fun channel V => pubsubUnsubscribeChannel c channel b)).
      intros channel. apply natural_unsubscribe.
    + intros count. apply natural_notified_if.
Qed.
Lemma natural_punsubscribe_all c b : natural (fun V => pubsubUnsubscribeAllPatterns (V := V) c b).
Proof.
  eapply natural_ext; [|eapply (natural_opt (fun V s => tables c s) (fun v => let '(_, _, _, ps) := v in
    fun V s => '(s, count) ← counting (fun pattern => pubsubUnsubscribePattern c pattern b) ps s 0;
      s ← (if b && (count =? 0) then notify_subscription c shared_punsubscribebulk shared_nullbulk s else Some s);
      Some (s, count))); [apply tables_observable|]].
  - intros V s. unfold pubsubUnsubscribeAllPatterns, tables. by destruct (s_clients s !! c).
  - intros [[[d wks] chs] ps]. apply (natural_bind (fun V s => counting _ _ s 0) (fun count V s =>
      s ← (if b && (count =? 0) then notify_subscription c _ _ s else Some s); Some (s, count))).
    + apply (natural_counting (fun pattern V => pubsubUnsubscribePattern c pattern b)).
      intros pattern. apply natural_punsubscribe.
    + intros count. apply natural_notified_if.
Qed.

Lemma natural_deliver channel message c : natural (fun V => deliver (V := V) channel message c).
Proof. apply natural_tell. Qed.
Lemma natural_deliver_matching channel message p :
  natural (fun V => deliver_matching (V := V) channel message p).
Proof.
  apply (natural_opt (fun V s => stringmatch p.2 channel false) (fun r V s =>
    if r =? 0 then Some (s, 0) else Some (tell_client p.1 (pmessage_text p.2 channel message) s, 1))); [done|].
  intros r. destruct (r =? 0); [apply natural_ret|apply natural_tell].
Qed.
Lemma natural_publish channel message :
  natural (fun V => pubsubPublishMessage (V := V) channel message).
Proof.
  apply (natural_bind (fun V s => counting (deliver channel message) (default [] (s_channels s !! channel)) s 0)
    (fun n V s => counting (deliver_matching channel message) (s_patterns s) s n)).
  - apply (natural_obs (fun V s => default [] (s_channels s !! channel))
      (fun cs V s => counting (deliver channel message) cs s 0)); [done|]. intros cs.
    apply (natural_counting (fun c V => deliver channel message c)). intros c. apply natural_deliver.
  - intros n. apply (natural_obs (fun V s => s_patterns s)
      (fun ps V s => counting (deliver_matching channel message) ps s n)); [done|]. intros ps.
    apply (natural_counting (fun p V => deliver_matching channel message p)). apply natural_deliver_matching.
Qed.

(** ** The commands *)

Lemma natural_done_unsubscribing c : natural (quietly (fun V => done_unsubscribing c)).
Proof.
  eapply natural_ext; [|eapply (natural_opt (fun V s => tables c s) (fun v => let '(_, _, chs, ps) := v in
    if Z.of_nat (size chs) + zlen ps =? 0 then fun V s => Some (upd_client c (clear_flags {[REDIS_PUBSUB]}) s, tt)
    else fun V s => Some (s, tt))); [apply tables_observable|]].
  - intros V s. unfold quietly, done_unsubscribing, tables, clientSubscriptionsCount.
    destruct (s_clients s !! c) as [cl|]; [|done]. cbn. by destruct (_ =? 0).
  - intros [[[d wks] chs] ps]. destruct (_ =? 0); [by apply natural_client|apply natural_ret].
Qed.

(** [f; g], the result of [f] dropped *)
Lemma natural_first {R} (f : table_op R) (g : forall V : Type, state V -> option (state V)) :
  natural f -> natural (quietly g) -> natural (quietly (fun V s => '(s, _) ← f V s; g V s)).
Proof.
  intros Hf Hg. eapply natural_ext; [|exact (natural_bind f (fun _ => quietly g) Hf (fun _ => Hg))].
  intros V s. unfold quietly. by destruct (f V s) as [[s' r]|].
Qed.

Lemma natural_command p c args : natural (quietly (fun V => pubsub_command (V := V) p c args)).
Proof.
  assert (Hflag : natural (quietly (fun V s => Some (upd_client c (add_flag REDIS_PUBSUB) s))))
    by (by apply natural_client).
  destruct p; try apply natural_none; cbn [pubsub_command].
  - apply (natural_first (fun V s => counting (pubsubSubscribeChannel c) (drop 1 args) s 0)); [|done].
    apply (natural_counting (fun x V => pubsubSubscribeChannel c x)). intros x. apply natural_subscribe.
  - apply (natural_first (fun V s => if zlen args =? 1 then pubsubUnsubscribeAllChannels c true s else
      counting (fun channel => pubsubUnsubscribeChannel c channel true) (drop 1 args) s 0));
      [|apply natural_done_unsubscribing].
    destruct (zlen args =? 1); [apply natural_unsubscribe_all|].
    apply (natural_counting (fun x V => pubsubUnsubscribeChannel c x true)). intros x. apply natural_unsubscribe.
  - apply (natural_first (fun V s => counting (pubsubSubscribePattern c) (drop 1 args) s 0)); [|done].
    apply (natural_counting (fun x V => pubsubSubscribePattern c x)). intros x. apply natural_psubscribe.
  - apply (natural_first (fun V s => if zlen args =? 1 then pubsubUnsubscribeAllPatterns c true s else
      counting (fun pattern => pubsubUnsubscribePattern c pattern true) (drop 1 args) s 0));
      [|apply natural_done_unsubscribing].
    destruct (zlen args =? 1); [apply natural_punsubscribe_all|].
    apply (natural_counting (fun x V => pubsubUnsubscribePattern c x true)). intros x. apply natural_punsubscribe.
  - destruct args as [|n [|channel [|message [|]]]]; try apply natural_none.
    eapply natural_ext; [|apply (natural_bind (fun V => pubsubPublishMessage channel message)
      (fun n V s => Some (tell_client c (with_prefix 58 n) (upd_client c (add_flag REDIS_FORCE_REPL) s), tt)));
      [apply natural_publish|]].
    + intros V s. unfold quietly. cbn. by destruct (pubsubPublishMessage channel message s) as [[s' r]|].
    + intros k. apply (natural_comp (fun V s => upd_client c (add_flag REDIS_FORCE_REPL) s)
        (fun V s => tell_client c (with_prefix 58 k) s)); [by apply natural_client|apply natural_tell].
Qed.
