(* ===== verification/CommandFrame.v ===== *)
(** What a command on strings or keys leaves alone: the queues, the tables of
    watchers and subscribers, and other clients but for the flag of a touched
    key. *)
From stdpp Require Import gmap list strings.
From S2P Require Import Prelude Util Sds SdsText Object Server Keyspace StringCmd StringSpec Frames KeySpec Commands.
Local Open Scope c_scope.

(** ** The relation *)

Section Kept.
Context {V : Type}.

(** A client before and after; [mine]: it is the one that runs the command. *)
Record kept (mine : Prop) (x y : redisClient V) : Prop := {
  kept_mstate : c_mstate y = c_mstate x;
  kept_watched : c_watched_keys y = c_watched_keys x;
  kept_channels : c_pubsub_channels y = c_pubsub_channels x;
  kept_patterns : c_pubsub_patterns y = c_pubsub_patterns x;
  kept_flags : c_flags y ∖ {[REDIS_DIRTY_CAS]} = c_flags x ∖ {[REDIS_DIRTY_CAS]};
  kept_dirty : c_flags x ⊆ c_flags y;
  kept_other : mine \/ (c_argv y = c_argv x /\ c_db y = c_db x /\ c_cmd y = c_cmd x /\ c_reply y = c_reply x) }.

Lemma kept_refl mine x : kept mine x x.
Proof. split; try done. by right. Qed.
Lemma kept_trans mine x y z : kept mine x y -> kept mine y z -> kept mine x z.
Proof.
  intros [A1 B1 C1 D1 E1 F1 G1] [A2 B2 C2 D2 E2 F2 G2]. split; [congruence..|set_solver|].
  destruct G1 as [|(G1 & G1' & G1'' & G1r)]; [by left|]. destruct G2 as [|(G2 & G2' & G2'' & G2r)]; [by left|].
  right. split_and!; congruence.
Qed.
Lemma kept_weaken (mine mine' : Prop) x y : (mine -> mine') -> kept mine x y -> kept mine' x y.
Proof. intros Hm [A1 B1 C1 D1 E1 F1 G1]. split; try done. destruct G1; auto. Qed.
Lemma kept_flag mine x : kept mine x (add_flag REDIS_DIRTY_CAS x).
Proof. split; cbn; [done..|set_solver|set_solver|by right]. Qed.

Record own (c : Z) (s s' : state V) : Prop := {
  own_clients : forall i, option_Forall2 (kept (i = c)) (s_clients s !! i) (s_clients s' !! i);
  own_watchers : db_watched_keys <$> s_dbs s' = db_watched_keys <$> s_dbs s;
  own_channels : s_channels s' = s_channels s;
  own_patterns : s_patterns s' = s_patterns s;
  own_time : s_now s' = s_now s /\ s_loading s' = s_loading s /\ s_master s' = s_master s /\ s_aof s' = s_aof s }.

Global Instance own_pre c : PreOrder (own c).
Proof.
  split.
  - intros s. split; [|done..]. intros i. destruct (s_clients s !! i); constructor. apply kept_refl.
  - intros s1 s2 s3 [A1 B1 C1 D1 E1] [A2 B2 C2 D2 E2].
    split; [|congruence..|destruct E1 as (?&?&?&?), E2 as (?&?&?&?); split_and!; congruence].
    intros i. specialize (A1 i). specialize (A2 i). revert A1 A2.
    generalize (s_clients s1 !! i), (s_clients s2 !! i), (s_clients s3 !! i). intros ??? A1 A2.
    destruct A1 as [x y Hxy|]; inversion A2; subst; constructor. by eapply kept_trans.
Qed.

Lemma own_at c s s' i x : own c s s' -> s_clients s !! i = Some x ->
  exists y, s_clients s' !! i = Some y /\ kept (i = c) x y.
Proof.
  intros H Hx. pose proof (own_clients c s s' H i) as Hi. rewrite Hx in Hi. inversion Hi as [? y Hk|]; subst.
  by exists y.
Qed.

Lemma own_upd c c' f s : (forall x, kept (c' = c) x (f x)) -> own c s (upd_client c' f s).
Proof.
  intros Hf. split; [|done..]. intros i. cbn. destruct (decide (i = c')) as [->|Hne].
  - rewrite lookup_alter_eq. destruct (s_clients s !! c'); constructor. apply Hf.
  - rewrite lookup_alter_ne by done. destruct (s_clients s !! i); constructor. apply kept_refl.
Qed.
Lemma own_db c d f s : (forall x, db_watched_keys (f x) = db_watched_keys x) -> own c s (upd_db d f s).
Proof.
  intros Hf. split; [|cbn|done..].
  - intros i. cbn. destruct (s_clients s !! i); constructor. apply kept_refl.
  - apply list_eq. intros i. rewrite !list_lookup_fmap, list_lookup_alter. case_decide; [|done].
    subst i. destruct (s_dbs s !! Z.to_nat d); [|done]. cbn. by rewrite Hf.
Qed.
Lemma own_event c e s : own c s (add_event e s).
Proof. split; [|done..]. intros i. cbn. destruct (s_clients s !! i); constructor. apply kept_refl. Qed.
Lemma own_dirty c n s : own c s (add_dirty n s).
Proof. split; [|done..]. intros i. cbn. destruct (s_clients s !! i); constructor. apply kept_refl. Qed.

Lemma own_touch c d k s : own c s (signalModifiedKey d k s).
Proof.
  unfold signalModifiedKey, touchWatchedKey. destruct (db_at s d) as [x|]; [|reflexivity].
  case_bool_decide; [reflexivity|]. destruct (_ !! k) as [cs|]; [|reflexivity].
  unfold touch_clients. revert s. induction cs as [|i cs IH]; intros s; [reflexivity|]. cbn.
  transitivity (upd_client i (add_flag REDIS_DIRTY_CAS) s); [|apply IH].
  apply own_upd. intros y. apply kept_flag.
Qed.
Lemma own_flush c d s : own c s (signalFlushedDb d s).
Proof.
  split; [|done..]. intros i. cbn. rewrite lookup_fmap. destruct (s_clients s !! i) as [x|]; constructor.
  destruct watches_existing; [apply kept_flag|apply kept_refl].
Qed.
End Kept.

(** ** Every command *)

Definition owns (c : Z) : relation server := fun s s' => own c s.2 s'.2.
Global Instance owns_pre c : PreOrder (owns c).
Proof.
  unfold owns. split; [intros s; reflexivity|]. intros s1 s2 s3 H1 H2. by transitivity s2.2.
Qed.

Section Frame.
Context (P : platform) (c : Z).
Notation keeps := (preserves (owns c)).

Lemma keeps_modify f : (forall s, own c s (f s)) -> keeps (modify f).
Proof. intros H. apply pres_modify. intros s. apply H. Qed.
Lemma keeps_heap f : keeps (on_heap f).
Proof. apply pres_heap. intros s h. unfold owns. reflexivity. Qed.
Lemma keeps_heap_get f : keeps (on_heap_get f).
Proof. apply pres_heap_get. intros s h. unfold owns. reflexivity. Qed.
Lemma keeps_upd f : (forall x, kept True x (f x)) -> keeps (upd c f).
Proof.
  intros H. apply pres_bind; [apply _|apply pres_client, _|]. intros cl.
  apply keeps_modify. intros s. apply own_upd. intros x. by eapply kept_weaken; [|apply H].
Qed.
Lemma keeps_upd_dict d f : keeps (upd_dict d f).
Proof. apply pres_bind; [apply _|apply pres_db, _|]. intros x. apply keeps_modify. intros s. by apply own_db. Qed.
Lemma keeps_upd_expires d f : keeps (upd_expires d f).
Proof. apply pres_bind; [apply _|apply pres_db, _|]. intros x. apply keeps_modify. intros s. by apply own_db. Qed.
Lemma keeps_event e : keeps (modify (add_event e)).
Proof. apply keeps_modify. intros s. apply own_event. Qed.
Lemma keeps_dirty n : keeps (dirty n).
Proof. apply keeps_modify. intros s. apply own_dirty. Qed.
Lemma keeps_flush d : keeps (modify (signalFlushedDb d)).
Proof. apply keeps_modify. intros s. apply own_flush. Qed.
#[local] Hint Resolve keeps_heap keeps_heap_get keeps_upd_dict keeps_upd_expires keeps_event keeps_dirty keeps_flush : frames.

Lemma kept_say bs (x : redisClient Z) : kept True x (say bs x).
Proof. unfold say. case_bool_decide; [apply kept_refl|]. split; try done. by left. Qed.
Lemma keeps_addReplyString bs : keeps (addReplyString c bs).
Proof. apply keeps_upd, kept_say. Qed.
Lemma keeps_set_arg j o : keeps (set_arg c j o).
Proof.
  apply pres_bind; [apply _|apply pres_client, _|]. intros cl. apply pres_bind; [apply _|apply pres_opt, _|]. intros l.
  apply keeps_modify. intros s. apply own_upd. intros x. split; try done. by left.
Qed.
Lemma keeps_set_argv l : keeps (upd c (set_argv l)).
Proof. apply keeps_upd. intros x. split; try done. by left. Qed.
Lemma keeps_set_cmd l : keeps (upd c (set_cmd l)).
Proof. apply keeps_upd. intros x. split; try done. by left. Qed.
Lemma keeps_set_db l : keeps (upd c (set_c_db l)).
Proof. apply keeps_upd. intros x. split; try done. by left. Qed.
Lemma keeps_signal d key : keeps (signal d key).
Proof. apply pres_bind; [apply _|apply pres_str, _|]. intros k. apply keeps_modify. intros s. apply own_touch. Qed.
#[local] Hint Resolve keeps_addReplyString keeps_set_arg keeps_set_argv keeps_set_cmd keeps_set_db keeps_signal : frames.

Ltac open_head :=
  match goal with
  | |- preserves _ ?m =>
      let rec head t := lazymatch t with ?f _ => head f | ?f => f end in
      let h := head m in unfold h
  end.
Ltac frames := repeat first [ solve [auto with frames nocore] | frame_step | open_head ].

Lemma keeps_say_ll ll : keeps (addReplyLongLong P c ll).
Proof. frames. Qed.
Lemma keeps_say_bulk o : keeps (addReplyBulk P c o).
Proof. frames. Qed.
Lemma keeps_multibulk n : keeps (addReplyMultiBulkLen P c n).
Proof. frames. Qed.
Lemma keeps_number o msg : keeps (getLongLongFromObjectOrReply c o msg).
Proof. frames. Qed.
Lemma keeps_delete d key : keeps (dbDelete d key).
Proof. frames. Qed.
#[local] Hint Resolve keeps_say_ll keeps_say_bulk keeps_number keeps_delete : frames.
Lemma keeps_expire d key : keeps (expireIfNeeded d key).
Proof. frames. Qed.
#[local] Hint Resolve keeps_expire : frames.
Lemma keeps_setKey d key val : keeps (setKey d key val).
Proof. frames. Qed.
Lemma keeps_encode_arg j : keeps (encode_arg P c j).
Proof. frames. Qed.
Lemma keeps_generic flags key val e b r1 r2 : keeps (setGenericCommand c flags key val e b r1 r2).
Proof. frames. Qed.
Lemma keeps_unshare d key o : keeps (dbUnshareStringValue P d key o).
Proof. frames. Qed.
#[local] Hint Resolve keeps_setKey keeps_encode_arg keeps_generic keeps_unshare : frames.

(** The loops *)
Lemma keeps_set_options l : forall flags b e, keeps (set_options l flags b e).
Proof.
  induction l as [l IH] using (induction_ltof1 _ (@length Z)). unfold ltof in IH. intros flags b e.
  destruct l as [|x rest]; cbn [set_options]; [frames|].
  assert (H0 : forall f b e, keeps (set_options rest f b e)) by (intros; apply IH; cbn; lia).
  assert (H1 : forall y l, rest = y :: l -> forall f b e, keeps (set_options l f b e))
    by (intros y l ->; intros; apply IH; cbn; lia).
  frames; by apply (H1 _ _ eq_refl).
Qed.
Lemma keeps_del_loop d l : forall n, keeps (del_loop c d l n).
Proof. induction l as [|x l IH]; intros n; cbn [del_loop]; frames. Qed.
Lemma keeps_busy_loop d n : forall j k, keeps (busy_loop c d n j k).
Proof. induction n as [|n IH]; intros j k; cbn [busy_loop]; frames. Qed.
Lemma keeps_mset_loop d n : forall j, keeps (mset_loop P c d n j).
Proof. induction n as [|n IH]; intros j; cbn [mset_loop]; frames. Qed.
#[local] Hint Resolve keeps_set_options keeps_del_loop keeps_busy_loop keeps_mset_loop : frames.

Lemma command_owns p : keeps (run_command P p c).
Proof.
  unfold run_command. destruct (string_proc p) eqn:E; destruct p; try discriminate E;
    cbn [run_string run_key]; frames.
Qed.
End Frame.
