(* ===== verification/MultiRep.v ===== *)
(** Transactions and the heap: moving arguments between a client, its queue and
    the temporaries of the function that runs. *)
From stdpp Require Import gmap list strings.
From S2P Require Import Prelude Util Sds SdsText Object Server Keyspace ServerRep ServerOps KeyspaceSpec StringSpec StringProofs KeyProofs Commands Pubsub Multi MultiSpec MultiOps.
Local Open Scope c_scope.

Lemma upd_client_ext {V} c f g (s : state V) cl :
  s_clients s !! c = Some cl -> f cl = g cl -> upd_client c f s = upd_client c g s.
Proof.
  intros Hc E. unfold upd_client. f_equal. apply map_eq. intros i. destruct (decide (i = c)) as [->|Hi].
  - by rewrite !lookup_alter_eq, Hc; cbn; rewrite E.
  - by rewrite !lookup_alter_ne.
Qed.

Section Moves.
Context (P : platform) {HP : PlatformOk P} (c : Z).
Implicit Types (s : server) (a : state aval) (L : list Z) (F : list (Z * aval)) (K : list (Z * bytes)).

(** What the queue of a client needs. *)
Definition queueable (h : store) (q : multiCmd Z) : Prop :=
  (NoDup (mc_argv q) /\ while_queueing (cmd_proc (mc_cmd q)) = false) /\ forall o, o ∈ mc_argv q -> encoded h o.

(** The client changes; references move between it and the temporaries. *)
Lemma At_client s L L' F F' K K' a cl f f' :
  At P s c L F K a -> s_clients s.2 !! c = Some cl ->
  (forall o, cnt o (client_roots (f cl)) + cnt o F'.*1 = cnt o (client_roots cl) + cnt o F.*1) ->
  c_db (f cl) = c_db cl ->
  (forall q, q ∈ c_mstate (f cl) -> q ∈ c_mstate cl \/ queueable s.1 q) ->
  map_client (abs_addr P s.1) (f cl) = f' (map_client (abs_addr P s.1) cl) ->
  c_argv (f cl) = L' -> (forall o v, (o, v) ∈ F' -> abs_addr P s.1 o = v) ->
  (forall o bs, (o, bs) ∈ K' -> o ∈ L' /\ sds_at s.1 o bs) ->
  At P (s.1, upd_client c f s.2) c L' F' K' (upd_client c f' a).
Proof.
  intros [Hwf Habs Hargv Ht Hkeys] Hc Hr Hdb Hq Hmap HL HF HK.
  rewrite (upd_client_ext c f (fun _ => f cl) s.2 cl) by done.
  assert (Ha : s_clients a !! c = Some (map_client (abs_addr P s.1) cl)).
  { rewrite <- Habs. unfold abs. by rewrite map_clients, Hc. }
  rewrite (upd_client_ext c f' (fun _ => map_client (abs_addr P s.1) (f cl)) a _ Ha) by (by rewrite Hmap).
  split; [split| | | |done].
  - intros o. rewrite (wf_refs P s _ Hwf). unfold held. cbn [fst snd].
    rewrite (cnt_upd_client o s.2 c cl) by done. specialize (Hr o). lia.
  - apply (wf_objs P s _ Hwf).
  - apply (wf_shared P s _ Hwf).
  - apply (wf_expires P s _ Hwf).
  - intros i cl' Hi. cbn in Hi. change (db_at _ _) with (db_at s.2 (c_db cl')).
    destruct (decide (i = c)) as [->|]; [|rewrite lookup_alter_ne in Hi by done; by apply (wf_db P s _ Hwf i)].
    rewrite lookup_alter_eq, Hc in Hi. injection Hi as <-. rewrite Hdb. by apply (wf_db P s _ Hwf c cl).
  - intros i cl' q Hi Hin. cbn in Hi. destruct (decide (i = c)) as [->|].
    + rewrite lookup_alter_eq, Hc in Hi. injection Hi as <-.
      destruct (Hq q Hin) as [Hin'|Hok]; [by apply (wf_queue P s _ Hwf c cl)|exact Hok].
    + rewrite lookup_alter_ne in Hi by done. by apply (wf_queue P s _ Hwf i cl').
  - rewrite <- Habs. by apply map_upd_client.
  - exists (f cl). cbn. by rewrite lookup_alter_eq, Hc.
  - done.
Qed.

(** The temporaries a list of objects makes. *)
Definition valued (h : store) (l : list Z) : list (Z * aval) := (fun o => (o, abs_addr P h o)) <$> l.
Lemma valued_fst h l : (valued h l).*1 = l.
Proof. unfold valued. rewrite <- list_fmap_compose. change (fst ∘ _) with (id : Z -> Z). apply list_fmap_id. Qed.
Lemma valued_elem h l o v : (o, v) ∈ valued h l -> abs_addr P h o = v.
Proof. intros Hin. apply list_elem_of_fmap in Hin as (q & [= -> ->] & _). done. Qed.
Lemma valued_temps s L F K a (l : list Z) o v :
  At P s c L F K a -> (o, v) ∈ valued s.1 l ++ F -> abs_addr P s.1 o = v.
Proof.
  intros H [Hin|Hin]%elem_of_app; [by apply valued_elem in Hin|by apply (at_temps _ _ _ _ _ _ _ H)].
Qed.

(** A change that moves nothing. *)
Lemma wp_light s L F K a (f : forall V, redisClient V -> redisClient V) (Q : unit -> server -> Prop) :
  (forall V, light (f V)) -> (forall A B (g : A -> B) x, map_client g (f A x) = f B (map_client g x)) ->
  At P s c L F K a -> (forall s', At P s' c L F K (upd_client c (f aval) a) -> s'.1 = s.1 -> Q tt s') ->
  wp (upd c (f Z)) s Q.
Proof.
  intros Hl Hf H HQ. destruct (at_client P s c L F K a H) as (cl & Hc & _).
  apply (wp_upd c cl); [done|]. apply HQ; [|done].
  apply (At_quiet P s c L F K a); [done|by apply quiet_client|].
  rewrite (map_upd_client _ _ _ (f aval)) by done. f_equal. apply H.
Qed.

(** ** Arguments *)

Lemma encoded_sds s (F : list Z) o : wf P s F -> encoded s.1 o -> exists bs, sds_at s.1 o bs.
Proof.
  intros Hwf (ob & Ho & Hs & He). destruct (wf_objs P s F Hwf o ob Ho) as [_ Hok]. rewrite Hs in Hok.
  destruct Hok as (bs & Hr & _). destruct (encoded_rep ob bs Hr) as [(_ & sd & Hp & Hrep)|(He' & _)]; [|congruence].
  by exists bs, ob, sd.
Qed.

Lemma encoded_all s (F l : list Z) : wf P s F -> (forall o, o ∈ l -> encoded s.1 o) ->
  exists args, Forall2 (fun o bs => sds_at s.1 o bs) l args.
Proof.
  intros Hwf. induction l as [|o l IH]; intros Hl; [by exists []|].
  destruct IH as [args Hargs]; [intros q Hq; apply Hl; by right|].
  destruct (encoded_sds s F o Hwf) as [bs Hbs]; [apply Hl; by left|]. exists (bs :: args). by constructor.
Qed.

Lemma sds_encoded h o bs : sds_at h o bs -> encoded h o.
Proof. intros (ob & sd & Ho & Hs & He & _). by exists ob. Qed.

Lemma sds_values h l args : Forall2 (fun o bs => sds_at h o bs) l args -> abs_addr P h <$> l = AStr <$> args.
Proof. induction 1 as [|o bs l args Ho _ IH]; [done|]. cbn. by rewrite IH, (sds_at_value P h o bs). Qed.

Lemma texts_values args : texts (AStr <$> args) = Some args.
Proof. induction args as [|bs args IH]; [done|]. unfold texts in *. cbn. by rewrite IH. Qed.
Lemma texts_inv l args : texts l = Some args -> l = AStr <$> args.
Proof.
  revert args. induction l as [|v l IH]; intros args; [by intros [= <-]|].
  unfold texts. cbn. destruct v as [bs|t]; [|done]. cbn. fold (texts l).
  destruct (texts l) as [k|] eqn:E; [|done]. intros [= <-]. cbn. by rewrite (IH k).
Qed.

Lemma zip_elem {A B} (l : list A) (k : list B) (R : A -> B -> Prop) x y :
  Forall2 R l k -> (x, y) ∈ zip l k -> x ∈ l /\ R x y.
Proof.
  induction 1 as [|a b l k Hab _ IH]; cbn; [by intros ?%elem_of_nil|].
  intros [[= -> ->]|Hin]%elem_of_cons; [split; [by left|done]|]. destruct (IH Hin). split; [by right|done].
Qed.

(** A client with its arguments, before the command runs. *)
Record Loaded s L (args : list bytes) F a : Prop := {
  l_at : At P s c L F (zip L args) a; l_len : length L = length args; l_nodup : NoDup L }.

Lemma loaded_sds s L args F a : Loaded s L args F a -> Forall2 (fun o bs => sds_at s.1 o bs) L args.
Proof.
  intros [H Hl _]. pose proof (at_keys _ _ _ _ _ _ _ H) as Hk. clear H. revert args Hl Hk.
  induction L as [|o L IH]; intros [|bs args] Hl Hk; try done; constructor.
  - apply Hk. by left.
  - apply IH; [by injection Hl|]. intros o' bs' Hin. split; [|by apply Hk; right].
    by apply elem_of_zip_l in Hin.
Qed.

Lemma loaded_values s L args F a cl : Loaded s L args F a -> s_clients a !! c = Some cl ->
  c_argv cl = AStr <$> args.
Proof.
  intros H Hc. destruct (at_client P s c L F _ a (l_at _ _ _ _ _ H)) as (cl0 & _ & HL & Ha).
  rewrite Hc in Ha. injection Ha as ->. cbn. rewrite HL. by apply sds_values, (loaded_sds s L args F a).
Qed.

Lemma room_of a n F m : roomy a n = true -> zlen F + m <= n -> room P a (zlen F + m).
Proof.
  unfold roomy, room, shared. rewrite zlen_fmap. unfold zlen at 2. rewrite length_seqZ.
  unfold REDIS_SHARED_INTEGERS. lia.
Qed.
End Moves.
