(* ===== verification/MultiProofs.v ===== *)
(** Transactions and the commands that run in them implement their
    specification: [Multi] against [MultiSpec]. *)
From stdpp Require Import gmap list strings.
From S2P Require Import Prelude Util Glob Sds SdsText Object Server Keyspace ServerRep ServerOps KeyspaceSpec StringSpec StringProofs KeySpec KeyProofs Frames Commands Pubsub Multi MultiSpec MultiOps CommandFrame MultiRep.
Local Open Scope c_scope.

Section Runs.
Context (P : platform) {HP : PlatformOk P} (c : Z).
Implicit Types (s : server) (a : state aval) (L : list Z) (F : list (Z * aval)) (K : list (Z * bytes)).

(** ** Strings *)

Lemma wp_newString s L F K a bs (Q : Z -> server -> Prop) : At P s c L F K a -> zlen bs <= max_string ->
  (forall h o, At P (h, s.2) c L ((o, AStr bs) :: F) K a -> sds_at h o bs -> s.1 !! o = None -> Q o (h, s.2)) ->
  wp (createStringObject P bs) s Q.
Proof.
  intros H Hl HQ. assert (Hb : zlen bs < 2 ^ 31) by (unfold max_string in Hl; lia).
  destruct (createStringObject_spec (junk P) (zmalloc P) s.1 bs (zlen bs) bs) as (ob & Hc & Hr & He & Hn);
    [by rewrite <- (app_nil_r bs) at 1; apply mem_read_prefix|unfold max_string in Hl; lens|].
  eapply (wp_new P s c L _ ob F K); [exact H|exact Hc|by apply (string_ok ob bs); [| |lia]|done|].
  rewrite (abs_obj_rep P ob _ Hr). intros h o H1 Ho _ Hfresh. apply HQ; [done| |done].
  destruct (encoded_rep ob bs Hr) as [(_ & sd & Hp & Hs)|(He' & _)]; [|congruence].
  exists ob, sd. split_and!; try done. apply (is_string_rep ob bs Hr).
Qed.

Lemma wp_arg_text s L F K a o bs (Q : bytes -> server -> Prop) : At P s c L F K a ->
  0 < held P s F.*1 o -> abs_addr P s.1 o = AStr bs -> Q bs s -> wp (arg_text P o) s Q.
Proof.
  intros H Ho Hv HQ.
  destruct (held_value P s F.*1 o (at_wf _ _ _ _ _ _ _ H) Ho) as (ob & Hob & Ha & _ & Hcase).
  rewrite Hv in Ha. destruct Hcase as [(bs' & Hb & Hr & _)|(Hb & _)]; [|congruence].
  rewrite Hb in Ha. injection Ha as <-.
  apply wp_bind, (wp_obj _ ob); [done|]. apply wp_bind, wp_check; [by apply (is_string_rep ob bs)|].
  destruct (str_of_spec (junk P) ob bs Hr) as [k Hk]. apply wp_bind, (wp_opt _ (bs ++ 0 :: k, zlen bs)); [done|].
  apply (wp_opt _ bs); [by apply mem_read_prefix|done].
Qed.

Lemma wp_arg_texts s L F K a l : forall ts (Q : list bytes -> server -> Prop), At P s c L F K a ->
  (forall o, o ∈ l -> 0 < held P s F.*1 o) -> texts (abs_addr P s.1 <$> l) = Some ts -> Q ts s ->
  wp (arg_texts P l) s Q.
Proof.
  induction l as [|o l IH]; intros ts Q H Hh Ht HQ; apply texts_inv in Ht;
    destruct ts as [|t ts]; try done; [by apply wp_ret|].
  injection Ht as Hv Ht. apply wp_bind. eapply wp_arg_text; [exact H|apply Hh; by left|exact Hv|].
  apply wp_bind. eapply (IH ts); [done|intros q Hq; apply Hh; by right| |by apply wp_ret].
  etransitivity; [exact (f_equal texts Ht)|apply texts_values].
Qed.

Lemma wp_propagate s L F K a a' l d aof repl (Q : unit -> server -> Prop) : At P s c L F K a ->
  (forall o, o ∈ l -> 0 < held P s F.*1 o) ->
  spec_propagate d (abs_addr P s.1 <$> l) aof repl a = Some a' ->
  (forall s', At P s' c L F K a' -> s'.1 = s.1 -> s_clients s'.2 = s_clients s.2 -> Q tt s') ->
  wp (propagate P d l aof repl) s Q.
Proof.
  intros H Hh Ha HQ. unfold spec_propagate in Ha. destruct (texts _) as [ts|] eqn:Et; [|done].
  cbn in Ha. injection Ha as <-. apply wp_bind. eapply wp_arg_texts; [exact H|exact Hh|exact Et|].
  apply wp_bind, wp_get. destruct (at_flags P s c L F K a H) as (_ & _ & _ & E). rewrite E.
  destruct (s_aof a && aof || repl); [|by apply wp_ret, HQ].
  apply (wp_quiet P s c L F K a _ (add_event (Propagated d ts (s_aof a && aof) repl)));
    [done|apply quiet_event|done|]. intros H'. by apply HQ.
Qed.

(** ** A command of the table *)

Lemma base_runs s L args F a a' extra p : Loaded P c s L args F a -> zlen F <= extra ->
  spec_base extra p c a = Some a' ->
  wp (run_command P p c) s (fun _ s' => exists L' K', At P s' c L' F K' a').
Proof.
  intros H Hx Ha. unfold spec_base in Ha. destruct (s_clients a !! c) as [cl|] eqn:Hcl; [|done]. cbn in Ha.
  destruct (c_cmd cl) as [cmd|] eqn:Hcmd; [|done]. cbn in Ha.
  rewrite (loaded_values P c s L args F a cl H Hcl), texts_values in Ha. cbn in Ha.
  unfold assume in Ha. destruct (short args && _) eqn:E; [|done]. apply andb_true_iff in E as [Es Er].
  apply (command_meets P c (c_db cl) F p args s L cmd a a'); [|exact Ha].
  destruct H as [H Hl Hnd]. split; [done|done|done| | | |].
  - by apply bool_decide_eq_true in Es.
  - unfold who. by rewrite Hcl; cbn; rewrite Hcmd.
  - destruct (at_client P s c L F _ a H) as (cl0 & Hc0 & _ & Hcl0). rewrite Hcl in Hcl0. injection Hcl0 as ->.
    pose proof (wf_db P s _ (at_wf _ _ _ _ _ _ _ H) c cl0 Hc0) as Hdb. apply db_at_range in Hdb.
    rewrite <- (at_abs _ _ _ _ _ _ _ H). unfold abs. cbn. by rewrite zlen_fmap.
  - replace (zlen F + zlen args + 2) with (zlen F + (zlen args + 2)) by lia.
    eapply room_of; [exact Er|lia].
Qed.

(** ** Releasing a queue *)

Lemma each_app {A} (f : A -> M unit) l k s : each f (l ++ k) s = (each f l;; each f k) s.
Proof.
  revert s. induction l as [|x l IH]; intros s; [by destruct s|]. cbn [each app]. unfold mbind, M_bind in *.
  destruct (f x s) as [[[] s1]|]; [|done]. apply IH.
Qed.
Lemma each_queue q s :
  each (fun mc : multiCmd Z => each decrRefCount (mc_argv mc)) q s = each decrRefCount (concat (mc_argv <$> q)) s.
Proof.
  revert s. induction q as [|mc q IH]; intros s; [done|]. cbn [each fmap list_fmap concat]. rewrite each_app.
  unfold mbind, M_bind. destruct (each decrRefCount (mc_argv mc) s) as [[[] s1]|]; [|done]. apply IH.
Qed.
(** References are released whatever the state next to the heap. *)
Lemma each_decr_any l : forall h h' st st0, each decrRefCount l (h, st0) = Some (tt, (h', st0)) ->
  each decrRefCount l (h, st) = Some (tt, (h', st)).
Proof.
  induction l as [|o l IH]; intros h h' st st0; cbn [each].
  - unfold mret, M_ret. by intros [= ->].
  - unfold mbind, M_bind, decrRefCount, on_heap. cbn [fst snd].
    destruct (Object.decrRefCount h o) as [h1|]; [|done]. cbn. apply IH.
Qed.

Lemma wp_free_queue s L F K a cl (Q : unit -> server -> Prop) : s_clients s.2 !! c = Some cl ->
  At P (s.1, upd_client c (set_mstate []) s.2) c L (valued P s.1 (concat (mc_argv <$> c_mstate cl)) ++ F) K a ->
  (forall h, At P (h, upd_client c (set_mstate []) s.2) c L F K a -> Q tt (h, upd_client c (set_mstate []) s.2)) ->
  wp (freeClientMultiState c;; initClientMultiState c) s Q.
Proof.
  intros Hc H HQ. set (st0 := upd_client c (set_mstate []) s.2) in *.
  destruct (wp_each_decr P c (valued P s.1 (concat (mc_argv <$> c_mstate cl))) (s.1, st0) L F K a
    (fun _ s' => At P s' c L F K a /\ s'.2 = st0) H) as ([] & [h st] & Hrun & H' & Est); [done|].
  cbn in Est. subst st. rewrite valued_fst in Hrun.
  apply wp_bind, wp_bind, (wp_client c cl); [done|]. exists tt, (h, s.2). split.
  { rewrite each_queue. destruct s as [h0 st]. by apply (each_decr_any _ _ _ _ st0). }
  apply (wp_upd c cl); [done|]. by apply HQ.
Qed.

Lemma unwatch_clear s L F K a a' fs (Q : unit -> server -> Prop) : At P s c L F K a ->
  unwatchAllKeys c (upd_client c (clear_flags fs) a) = Some a' ->
  (forall s', At P s' c L F K a' -> Q tt s') ->
  wp (upd c (clear_flags fs);; change (unwatchAllKeys c)) s Q.
Proof.
  intros H Ha HQ. apply wp_bind. eapply (wp_light P c s L F K a (fun V => clear_flags fs)); [done|done|exact H|].
  intros s1 H1 _. eapply (wp_table P s1 c L F K _ a' (fun V => unwatchAllKeys c)); [apply natural_unwatchAllKeys|exact H1|exact Ha|].
  intros s2 H2 _. by apply HQ.
Qed.

Lemma wp_assoc4 {A B C D} (m : M A) (n : M B) (p : M C) (k : M D) s Q :
  wp (m;; n) s (fun _ s' => wp (p;; k) s' Q) -> wp (m;; n;; p;; k) s Q.
Proof.
  intros (b & s' & Hm & x & s'' & Hk & HQ). exists x, s''. split; [|done].
  unfold mbind, M_bind in *. destruct (m s) as [[? s1]|]; [|done]. by rewrite Hm.
Qed.

(** The queue is in the client still, with arguments that need not be encoded. *)
Lemma wp_discard_queue s L F K a a' cl (Q : unit -> server -> Prop) : s_clients s.2 !! c = Some cl ->
  At P (s.1, upd_client c (set_mstate []) s.2) c L (valued P s.1 (concat (mc_argv <$> c_mstate cl)) ++ F) K a ->
  unwatchAllKeys c (upd_client c (clear_flags {[REDIS_MULTI; REDIS_DIRTY_CAS; REDIS_DIRTY_EXEC]}) a) = Some a' ->
  (forall s', At P s' c L F K a' -> Q tt s') -> wp (discardTransaction c) s Q.
Proof.
  intros Hc H Ha HQ. apply wp_assoc4. eapply wp_free_queue; [exact Hc|exact H|]. intros h H1.
  eapply unwatch_clear; [exact H1|exact Ha|exact HQ].
Qed.

(** The arguments of the queue become temporaries. *)
Lemma At_drop_queue s L F K a cl : At P s c L F K a -> s_clients s.2 !! c = Some cl ->
  At P (s.1, upd_client c (set_mstate []) s.2) c L (valued P s.1 (concat (mc_argv <$> c_mstate cl)) ++ F) K
    (upd_client c (set_mstate []) a).
Proof.
  intros H Hc. destruct (at_argv _ _ _ _ _ _ _ H) as (cl0 & Hc0 & HL). rewrite Hc in Hc0. injection Hc0 as <-.
  eapply (At_client P c s L); [exact H|exact Hc| |done| |done|done| |].
  - intros o. unfold client_roots. cbn. rewrite !fmap_app, !cnt_app, valued_fst, cnt_nil. lia.
  - cbn. by intros q ?%elem_of_nil.
  - intros o v Hin. by eapply valued_temps.
  - apply H.
Qed.

Lemma wp_discardTransaction s L F K a a' (Q : unit -> server -> Prop) : At P s c L F K a ->
  spec_discard c a = Some a' -> (forall s', At P s' c L F K a' -> Q tt s') -> wp (discardTransaction c) s Q.
Proof.
  intros H Ha HQ. destruct (at_argv _ _ _ _ _ _ _ H) as (cl & Hc & _).
  eapply wp_discard_queue; [exact Hc|by apply At_drop_queue|exact Ha|exact HQ].
Qed.

(** ** [call] *)

(** A procedure and what it is specified to do. *)
Definition runs_as (m : M unit) (spec : Z -> state aval -> option (state aval)) : Prop :=
  forall s L args F a a' extra, Loaded P c s L args F a -> zlen F <= extra -> spec extra a = Some a' ->
  wp m s (fun _ s' => exists L' K', At P s' c L' F K' a').

Lemma at_dirty s L F K a : At P s c L F K a -> s_dirty s.2 = s_dirty a.
Proof. intros H. by rewrite <- (at_abs _ _ _ _ _ _ _ H). Qed.

Lemma client_at s L F K a cl : At P s c L F K a -> s_clients a !! c = Some cl ->
  exists x, s_clients s.2 !! c = Some x /\ c_argv x = L /\ cl = map_client (abs_addr P s.1) x.
Proof.
  intros H Hc. destruct (at_client P s c L F K a H) as (x & Hx & HL & Ha). exists x. split; [done|].
  split; [done|]. congruence.
Qed.

Lemma argv_held s L F K a o : At P s c L F K a -> o ∈ L -> 0 < held P s F.*1 o.
Proof.
  intros H Ho. destruct (at_argv _ _ _ _ _ _ _ H) as (cl & Hc & HL).
  apply held_root, (argv_root _ c cl); [done|by rewrite HL].
Qed.

Lemma loaded_light s L args F a s' a' : Loaded P c s L args F a -> At P s' c L F (zip L args) a' ->
  Loaded P c s' L args F a'.
Proof. intros [_ Hl Hn] H. by split. Qed.

Lemma call_runs run srun : (forall p, runs_as (run p c) (fun extra => srun extra p c)) ->
  runs_as (call P run c) (fun extra => spec_call srun extra c).
Proof.
  intros Hrun s L args F a a' extra HL Hx Ha. unfold spec_call in Ha.
  destruct (s_clients a !! c) as [cl|] eqn:Hcl; [|done]. cbn in Ha.
  destruct (c_cmd cl) as [cmd|] eqn:Hcmd; [|done]. cbn in Ha.
  destruct (srun _ _ _ _) as [a1|] eqn:Ha1; [|done]. cbn in Ha.
  destruct (s_clients a1 !! c) as [cl1|] eqn:Hcl1; [|done]. cbn in Ha.
  pose proof (l_at _ _ _ _ _ _ _ HL) as H. destruct (client_at _ _ _ _ _ _ H Hcl) as (x & Hx' & HxL & ->).
  apply wp_bind, (wp_client c x); [done|]. cbv zeta. apply wp_bind.
  eapply (wp_light P c s L F _ _ (fun V => clear_flags force_flags)); [done|done|exact H|]. intros s1 H1 _.
  apply wp_bind, wp_get. rewrite (at_dirty _ _ _ _ _ H1).
  apply wp_bind, (wp_opt _ cmd); [exact Hcmd|]. apply wp_bind.
  eapply wp_mono; [exact (Hrun _ s1 L args F _ a1 extra (loaded_light _ _ _ _ _ _ _ HL H1) Hx Ha1)|].
  intros [] s2 (L2 & K2 & H2). apply wp_bind, wp_get. rewrite (at_dirty _ _ _ _ _ H2).
  destruct (client_at _ _ _ _ _ _ H2 Hcl1) as (x2 & Hx2 & HL2 & ->).
  apply wp_bind, (wp_client c x2); [done|]. cbv zeta. cbn [c_db c_argv c_flags map_client] in Ha |- *.
  change (has_flag ?f (map_client _ x2)) with (has_flag f x2) in Ha.
  change (s_dirty (upd_client c _ a)) with (s_dirty a).
  set (repl := has_flag REDIS_FORCE_REPL x2 || _) in *. set (aof := has_flag REDIS_FORCE_AOF x2 || _) in *.
  assert (Hend : forall s3 a3, At P s3 c L2 F K2 a3 ->
    Some (upd_client c (fun y => set_flags (c_flags y ∖ force_flags ∪ c_flags x ∩ force_flags) y) a3) = Some a' ->
    wp (upd c (fun y => set_flags (c_flags y ∖ force_flags ∪ c_flags x ∩ force_flags) y)) s3
      (fun _ s' => exists L' K', At P s' c L' F K' a')).
  { intros s3 a3 H3 [= <-]. eapply (wp_light P c s3 L2 F K2 a3 (fun V y =>
      set_flags (c_flags y ∖ force_flags ∪ c_flags x ∩ force_flags) y)); [done|done|exact H3|].
    intros s4 H4 _. by exists L2, K2. }
  apply wp_bind. destruct (repl || aof); cbn [when].
  - destruct (spec_propagate _ _ _ _ _) as [a3|] eqn:Ha3; [|done]. cbn in Ha.
    eapply wp_propagate; [exact H2|intros o Ho; eapply argv_held; [exact H2|by rewrite <- HL2]|exact Ha3|].
    intros s3 H3 _ _. by eapply Hend.
  - apply wp_ret. by eapply Hend.
Qed.

(** ** The commands that only touch tables *)

Lemma has_flag_map f (g : Z -> aval) x : has_flag f (map_client g x) = has_flag f x.
Proof. done. Qed.

Lemma tell_runs s L F K a a' bs : At P s c L F K a -> a' = tell c bs a ->
  wp (addReplyString c bs) s (fun _ s' => exists L' K', At P s' c L' F K' a').
Proof. intros H ->. eapply wp_tell; [exact H|]. intros s' H' _ _. by exists L, K. Qed.
Lemma tell_error_runs s L F K a a' msg : At P s c L F K a -> a' = tell_error c msg a ->
  wp (addReplyError c (bytes_of msg)) s (fun _ s' => exists L' K', At P s' c L' F K' a').
Proof. intros H ->. eapply wp_tell_error; [exact H|]. intros s' H'. by exists L, K. Qed.

Lemma multi_runs depth : runs_as (run_proc P depth P_multi c) (fun extra => spec_proc depth extra P_multi c).
Proof.
  intros s L args F a a' extra HL Hx Ha. pose proof (l_at _ _ _ _ _ _ _ HL) as H.
  replace (run_proc P depth P_multi c) with (multiCommand c) by (by destruct depth).
  replace (spec_proc depth extra P_multi c a) with (spec_proc 0 extra P_multi c a) in Ha by (by destruct depth).
  cbn in Ha. destruct (s_clients a !! c) as [cl|] eqn:Hcl; [|done]. cbn in Ha. injection Ha as <-.
  destruct (client_at _ _ _ _ _ _ H Hcl) as (x & Hx' & _ & ->). rewrite has_flag_map.
  apply wp_bind, (wp_client c x); [done|]. destruct (has_flag REDIS_MULTI x).
  - by eapply tell_error_runs.
  - apply wp_bind. eapply (wp_light P c s L F _ a (fun V => add_flag REDIS_MULTI)); [done|done|exact H|].
    intros s1 H1 _. by eapply tell_runs.
Qed.

Lemma discard_runs depth : runs_as (run_proc P depth P_discard c) (fun extra => spec_proc depth extra P_discard c).
Proof.
  intros s L args F a a' extra HL Hx Ha. pose proof (l_at _ _ _ _ _ _ _ HL) as H.
  replace (run_proc P depth P_discard c) with (discardCommand c) by (by destruct depth).
  replace (spec_proc depth extra P_discard c a) with (spec_proc 0 extra P_discard c a) in Ha by (by destruct depth).
  cbn in Ha. destruct (s_clients a !! c) as [cl|] eqn:Hcl; [|done]. cbn in Ha.
  destruct (client_at _ _ _ _ _ _ H Hcl) as (x & Hx' & _ & ->). rewrite has_flag_map in Ha.
  apply wp_bind, (wp_client c x); [done|]. destruct (negb (has_flag REDIS_MULTI x)).
  - injection Ha as <-. by eapply tell_error_runs.
  - destruct (spec_discard c a) as [a1|] eqn:E; [|done]. injection Ha as <-. apply wp_bind.
    eapply wp_discardTransaction; [exact H|exact E|]. intros s1 H1. by eapply tell_runs.
Qed.

Lemma unwatch_runs depth : runs_as (run_proc P depth P_unwatch c) (fun extra => spec_proc depth extra P_unwatch c).
Proof.
  intros s L args F a a' extra HL Hx Ha. pose proof (l_at _ _ _ _ _ _ _ HL) as H.
  replace (run_proc P depth P_unwatch c) with (unwatchCommand c) by (by destruct depth).
  replace (spec_proc depth extra P_unwatch c a) with (spec_proc 0 extra P_unwatch c a) in Ha by (by destruct depth).
  cbn in Ha. destruct (s_clients a !! c) as [cl|] eqn:Hcl; [|done]. cbn in Ha.
  destruct (unwatchAllKeys c a) as [a1|] eqn:E; [|done]. injection Ha as <-. apply wp_bind.
  eapply (wp_table P s c L F _ a a1 (fun V => unwatchAllKeys c)); [apply natural_unwatchAllKeys|exact H|exact E|].
  intros s1 H1 _. apply wp_bind.
  eapply (wp_light P c s1 L F _ _ (fun V => clear_flags {[REDIS_DIRTY_CAS]})); [done|done|exact H1|].
  intros s2 H2 _. by eapply tell_runs.
Qed.

Lemma wp_watch_loop L F K keys : forall ks s a a' (Q : unit -> server -> Prop), At P s c L F K a ->
  length keys = length ks -> (forall p, p ∈ zip keys ks -> p ∈ K) -> spec_watch c ks a = Some a' ->
  (forall s', At P s' c L F K a' -> Q tt s') -> wp (watch_loop c keys) s Q.
Proof.
  induction keys as [|key keys IH]; intros [|k ks] s a a' Q H Hl Hk Ha HQ; try done.
  - injection Ha as <-. by apply wp_ret, HQ.
  - cbn in Ha. destruct (watchForKey c k a) as [a1|] eqn:E; [|done]. cbn in Ha. apply wp_bind.
    eapply (wp_str P); [exact H|apply Hk; by left|]. apply wp_bind.
    eapply (wp_table P s c L F K a a1 (fun V => watchForKey c k)); [apply natural_watchForKey|exact H|exact E|].
    intros s1 H1 _. eapply (IH ks); [exact H1|by injection Hl|intros p Hp; apply Hk; by right|exact Ha|exact HQ].
Qed.

Lemma zip_drop1 {A B} (l : list A) (k : list B) p : p ∈ zip (drop 1 l) (drop 1 k) -> p ∈ zip l k.
Proof.
  destruct l as [|x l]; [done|]. destruct k as [|y k]; cbn [drop].
  - rewrite drop_0. destruct l; by intros ?%elem_of_nil.
  - rewrite !drop_0. intros Hp. by right.
Qed.

Lemma watch_runs depth : runs_as (run_proc P depth P_watch c) (fun extra => spec_proc depth extra P_watch c).
Proof.
  intros s L args F a a' extra HL Hx Ha. pose proof (l_at _ _ _ _ _ _ _ HL) as H.
  replace (run_proc P depth P_watch c) with (watchCommand c) by (by destruct depth).
  replace (spec_proc depth extra P_watch c a) with (spec_proc 0 extra P_watch c a) in Ha by (by destruct depth).
  cbn in Ha. destruct (s_clients a !! c) as [cl|] eqn:Hcl; [|done]. cbn in Ha.
  pose proof (loaded_values P c s L args F a cl HL Hcl) as Hv.
  destruct (client_at _ _ _ _ _ _ H Hcl) as (x & Hx' & HxL & ->). rewrite has_flag_map in Ha.
  apply wp_bind, (wp_client c x); [done|]. destruct (has_flag REDIS_MULTI x).
  - injection Ha as <-. by eapply tell_error_runs.
  - rewrite Hv, texts_values in Ha. cbn in Ha. destruct (spec_watch c (drop 1 args) a) as [a1|] eqn:E; [|done].
    injection Ha as <-. apply wp_bind. rewrite HxL.
    eapply (wp_watch_loop L F _ (drop 1 L) (drop 1 args)); [exact H| |apply zip_drop1|exact E|].
    { rewrite !length_drop. by rewrite (l_len _ _ _ _ _ _ _ HL). }
    intros s1 H1. by eapply tell_runs.
Qed.

Lemma wp_strs s L F K a l : forall ts (Q : list bytes -> server -> Prop), At P s c L F K a ->
  length l = length ts -> (forall p, p ∈ zip l ts -> p ∈ K) -> Q ts s -> wp (strs l) s Q.
Proof.
  induction l as [|o l IH]; intros [|t ts] Q H Hl Hk HQ; try done; [by apply wp_ret|].
  apply wp_bind. eapply (wp_str P); [exact H|apply Hk; by left|]. apply wp_bind.
  eapply (IH ts); [exact H|by injection Hl|intros p Hp; apply Hk; by right|by apply wp_ret].
Qed.

Definition pubsub_proc (p : proc) : bool :=
  match p with P_subscribe | P_unsubscribe | P_psubscribe | P_punsubscribe | P_publish => true | _ => false end.

Lemma pubsub_runs depth p : pubsub_proc p = true ->
  runs_as (run_proc P depth p c) (fun extra => spec_proc depth extra p c).
Proof.
  intros Hp s L args F a a' extra HL Hx Ha. pose proof (l_at _ _ _ _ _ _ _ HL) as H.
  assert (Er : run_proc P depth p c = (cl ← client c; args ← strs (c_argv cl); change (pubsub_command p c args)))
    by (by destruct depth, p).
  assert (Es : spec_proc depth extra p c a =
    (cl ← s_clients a !! c; args ← texts (c_argv cl); pubsub_command p c args a)) by (by destruct depth, p).
  rewrite Er. rewrite Es in Ha. destruct (s_clients a !! c) as [cl|] eqn:Hcl; [|done]. cbn in Ha.
  pose proof (loaded_values P c s L args F a cl HL Hcl) as Hv. rewrite Hv, texts_values in Ha. cbn in Ha.
  destruct (client_at _ _ _ _ _ _ H Hcl) as (x & Hx' & HxL & ->).
  apply wp_bind, (wp_client c x); [done|]. rewrite HxL. apply wp_bind.
  eapply (wp_strs s L F _ a L args); [exact H|apply HL|done|].
  eapply (wp_table P s c L F _ a a' (fun V => pubsub_command p c args)); [apply natural_command|exact H|exact Ha|].
  intros s1 H1 _. by exists L, (zip L args).
Qed.

(** Every procedure but a transaction's. *)
Definition plain (p : proc) : Prop := p <> P_exec.

Lemma plain_runs depth p : plain p -> runs_as (run_proc P depth p c) (fun extra => spec_proc depth extra p c).
Proof.
  intros Hp. destruct (pubsub_proc p) eqn:E; [by apply pubsub_runs|].
  destruct (decide (p = P_multi)) as [->|]; [apply multi_runs|].
  destruct (decide (p = P_discard)) as [->|]; [apply discard_runs|].
  destruct (decide (p = P_watch)) as [->|]; [apply watch_runs|].
  destruct (decide (p = P_unwatch)) as [->|]; [apply unwatch_runs|].
  intros s L args F a a' extra HL Hx Ha.
  replace (run_proc P depth p c) with (run_command P p c) by (by destruct depth, p).
  assert (Es : spec_proc depth extra p c a = (cl ← s_clients a !! c; spec_base extra p c a))
    by (by destruct depth, p).
  rewrite Es in Ha. destruct (s_clients a !! c); [|done]. cbn in Ha. by apply (base_runs s L args F a a' extra).
Qed.

(** ** Queues stay *)

Definition qsame : relation server := fun s s' =>
  forall i, c_mstate <$> s_clients s'.2 !! i = c_mstate <$> s_clients s.2 !! i.
Global Instance qsame_pre : PreOrder qsame.
Proof. split; [by intros s i|]. intros s1 s2 s3 H1 H2 i. by rewrite H2. Qed.

Lemma quiet_qsame h h' (st st' : state Z) : quiet st st' -> qsame (h, st) (h', st').
Proof.
  intros [_ Ha _ _ Hq] i. cbn. destruct (s_clients st' !! i) as [y|] eqn:Hy.
  - destruct (Hq i y Hy) as (x & -> & E). cbn. by rewrite E.
  - destruct (s_clients st !! i) as [x|] eqn:Hx; [|done]. destruct (Ha i x Hx) as (y & Hy' & _). congruence.
Qed.
Lemma owns_qsame s s' : owns c s s' -> qsame s s'.
Proof.
  intros H i. pose proof (own_clients _ _ _ H i) as Hi.
  destruct (s_clients s.2 !! i), (s_clients s'.2 !! i); inversion Hi as [? ? Hk|]; subst; [|done].
  cbn. by rewrite (kept_mstate _ _ _ Hk).
Qed.
Lemma table_qsame f : natural (quietly f) -> preserves qsame (change (f Z)).
Proof.
  intros [_ Hq] s [] s' H. unfold change, mbind, M_bind, get_state, opt in H. cbn in H.
  destruct (f Z s.2) as [st|] eqn:E; [|done]. cbn in H. injection H as <-. destruct s as [h st0].
  apply (quiet_qsame h h). apply (Hq st0 st tt). unfold quietly. cbn in E. by rewrite E.
Qed.
Lemma light_qsame f : light f -> preserves qsame (upd c f).
Proof.
  intros Hf. apply pres_bind; [apply _|apply pres_client, _|]. intros x. apply pres_modify. intros [h st].
  by apply quiet_qsame, quiet_client.
Qed.

Lemma wp_with_frame {A} (R : relation server) (m : M A) s (Q : A -> server -> Prop) :
  preserves R m -> wp m s (fun b s' => R s s' -> Q b s') -> wp m s Q.
Proof. intros HR (b & s' & Hm & HQ). exists b, s'. split; [done|]. by apply HQ, (HR s b s'). Qed.

Lemma strs_same l : preserves qsame (strs l).
Proof.
  induction l as [|o l IH]; cbn [strs]; [apply pres_ret, _|]. apply pres_bind; [apply _|apply pres_str, _|].
  intros t. apply pres_bind; [apply _|done|]. intros ts. apply pres_ret, _.
Qed.

Lemma run_qsame depth p : while_queueing p = false -> preserves qsame (run_proc P depth p c).
Proof.
  intros Hp. destruct (pubsub_proc p) eqn:E.
  { replace (run_proc P depth p c) with (cl ← client c; args ← strs (c_argv cl); change (pubsub_command p c args))
      by (by destruct depth, p).
    apply pres_bind; [apply _|apply pres_client, _|]. intros cl. apply pres_bind; [apply _|apply strs_same|].
    intros args. apply (table_qsame (fun V => pubsub_command p c args)), natural_command. }
  destruct (decide (p = P_unwatch)) as [->|].
  { replace (run_proc P depth P_unwatch c) with (unwatchCommand c) by (by destruct depth).
    apply pres_bind; [apply _|apply (table_qsame (fun V => unwatchAllKeys c)), natural_unwatchAllKeys|]. intros _.
    apply pres_bind; [apply _|by apply light_qsame|]. intros _. apply light_qsame, say_light. }
  intros s b s' Hm. apply owns_qsame. apply (command_owns P c p s b s').
  by replace (run_proc P depth p c) with (run_command P p c) in Hm by (by destruct depth, p).
Qed.

Lemma texts_qsame l : preserves qsame (arg_texts P l).
Proof.
  induction l as [|o l IH]; cbn [arg_texts]; [apply pres_ret, _|].
  apply pres_bind; [apply _| |intros t; apply pres_bind; [apply _|done|]; intros ts; apply pres_ret, _].
  unfold arg_text. frame.
Qed.
Lemma propagate_qsame d l b b' : preserves qsame (propagate P d l b b').
Proof.
  apply pres_bind; [apply _|apply texts_qsame|]. intros ts. apply pres_bind; [apply _|apply pres_get, _|]. intros s.
  apply pres_when; [apply _|]. apply pres_modify. intros [h st] i. done.
Qed.

Lemma bind_eq {A B} (m : M A) (k : A -> M B) s x s1 : m s = Some (x, s1) -> mbind k m s = k x s1.
Proof. intros E. unfold mbind, M_bind. by rewrite E. Qed.
Lemma client_eq s x : s_clients s.2 !! c = Some x -> client c s = Some (x, s).
Proof. intros E. unfold client. rewrite (bind_eq get_state _ s s.2 s eq_refl). unfold opt. by rewrite E. Qed.

(** [call], whose command is the client's. *)
Lemma call_qsame run s x cmd s' : (forall p, while_queueing p = false -> preserves qsame (run p c)) ->
  s_clients s.2 !! c = Some x -> c_cmd x = Some cmd -> while_queueing (cmd_proc cmd) = false ->
  call P run c s = Some (tt, s') -> qsame s s'.
Proof.
  intros Hrun Hx Hcmd Hw Hcall. set (run' p := if while_queueing p then fun _ => fail else run p).
  assert (E : call P run c s = call P (fun p => run' p) c s).
  { unfold call. rewrite !(bind_eq (client c) _ s x s (client_eq s x Hx)). cbv zeta.
    destruct (upd c (clear_flags force_flags) s) as [[[] s1]|] eqn:Eu;
      [rewrite !(bind_eq _ _ _ _ _ Eu)|unfold mbind, M_bind; by rewrite Eu].
    rewrite !(bind_eq get_state _ s1 s1.2 s1 eq_refl), Hcmd. unfold opt at 1 2.
    unfold run', mbind, M_bind. cbn. by rewrite Hw. }
  rewrite E in Hcall. revert Hcall. generalize tt as r. clear E Hx Hcmd. revert s s'.
  cut (preserves qsame (call P (fun p => run' p) c)); [intros H s s' r; apply (H s r s')|].
  apply pres_bind; [apply _|apply pres_client, _|]. intros cl. apply pres_bind; [apply _|by apply light_qsame|]. intros _.
  apply pres_bind; [apply _|apply pres_get, _|]. intros st. apply pres_bind; [apply _|apply pres_opt, _|]. intros cm.
  apply pres_bind; [apply _| |].
  { unfold run'. destruct (while_queueing (cmd_proc cm)) eqn:Ew; [apply pres_fail|by apply Hrun]. }
  intros _. apply pres_bind; [apply _|apply pres_get, _|]. intros st'. apply pres_bind; [apply _|apply pres_client, _|].
  intros cl'. apply pres_bind; [apply _|apply pres_when; [apply _|apply propagate_qsame]|]. intros _. by apply light_qsame.
Qed.
End Runs.
