(* ===== verification/MultiExec.v ===== *)
(** EXEC implements its specification: the commands of the queue, one after the
    other, as if the client had sent them. *)
From stdpp Require Import gmap list strings.
From S2P Require Import Prelude Util Glob Sds SdsText Object Server Keyspace ServerRep ServerOps KeyspaceSpec StringSpec StringProofs KeySpec KeyProofs Frames Commands Pubsub Multi MultiSpec MultiOps CommandFrame MultiRep MultiProofs.
Local Open Scope c_scope.

Section Exec.
Context (P : platform) {HP : PlatformOk P} (c : Z).
Implicit Types (s : server) (a : state aval) (L : list Z) (F : list (Z * aval)) (K : list (Z * bytes)).

(** The next command of the queue becomes the client's. *)
Definition load (mc : multiCmd Z) (l : list (multiCmd Z)) : redisClient Z -> redisClient Z :=
  fun cl => set_cmd (Some (mc_cmd mc)) (set_argv (mc_argv mc) (set_mstate l cl)).
Definition a_load (mc : multiCmd aval) : redisClient aval -> redisClient aval :=
  fun cl => set_cmd (Some (mc_cmd mc)) (set_argv (mc_argv mc) (set_mstate (tail (c_mstate cl)) cl)).

Lemma At_load s A F K a x mc l : At P s c A F K a -> s_clients s.2 !! c = Some x -> c_mstate x = mc :: l ->
  exists args, Loaded P c (s.1, upd_client c (load mc l) s.2) (mc_argv mc) args (valued P s.1 A ++ F)
    (upd_client c (a_load (map_cmd (abs_addr P s.1) mc)) a).
Proof.
  intros H Hx Hm. pose proof (at_wf _ _ _ _ _ _ _ H) as Hwf.
  destruct (wf_queue P s _ Hwf c x mc Hx ltac:(rewrite Hm; by left)) as [[Hnd _] Henc].
  destruct (encoded_all P s F.*1 (mc_argv mc) Hwf Henc) as [args Hargs]. exists args.
  destruct (at_argv _ _ _ _ _ _ _ H) as (x0 & Hx0 & HxA). rewrite Hx in Hx0. injection Hx0 as <-.
  split; [|by apply Forall2_length in Hargs|done].
  eapply (At_client P c s A); [exact H|exact Hx| |done| | |done| |].
  - intros o. unfold client_roots. cbn. rewrite Hm, HxA. cbn. rewrite fmap_app, valued_fst, !cnt_app. lia.
  - intros q Hq. left. rewrite Hm. by right.
  - unfold load, a_load, map_client, set_cmd, set_argv, set_mstate. cbn. by rewrite Hm.
  - intros o v Hin. by eapply (valued_temps P c).
  - intros o bs Hin. by apply (zip_elem _ _ (fun o bs => sds_at s.1 o bs) o bs Hargs).
Qed.

Lemma wp_propagate_multi s L F K a a' x (Q : unit -> server -> Prop) : At P s c L F K a ->
  s_clients a !! c = Some x -> spec_propagate (c_db x) [AStr (bytes_of "MULTI")] true true a = Some a' ->
  (forall s', At P s' c L F K a' -> s_clients s'.2 = s_clients s.2 -> Q tt s') ->
  wp (execCommandPropagateMulti P c) s Q.
Proof.
  intros H Hx Ha HQ. apply wp_bind. eapply (wp_newString P c); [exact H|by_decide|]. intros h o H1 _ _.
  destruct (client_at P c _ _ _ _ _ _ H1 Hx) as (y & Hy & _ & ->).
  apply wp_bind, (wp_client c y); [done|]. apply wp_bind.
  pose proof (at_temps _ _ _ _ _ _ _ H1 o _ ltac:(by left)) as Hv.
  eapply (wp_propagate P c); [exact H1| | |].
  - intros q Hq%list_elem_of_singleton. subst q. apply held_temp. by left.
  - cbn [fmap list_fmap]. rewrite Hv. exact Ha.
  - intros s2 H2 _ E2. eapply (wp_decr P); [exact H2|]. intros h3 H3 _ _. by apply HQ.
Qed.

(** The loop: the client's arguments and the temporaries are what the caller
    held, [orig], what it holds for its own callers, [F0], and what the commands
    that ran have left. *)
Lemma exec_loop_runs call scall orig F0 extra :
  runs_as P c (call c) (fun extra => scall extra c) ->
  (forall s x cmd s', s_clients s.2 !! c = Some x -> c_cmd x = Some cmd ->
     while_queueing (cmd_proc cmd) = false -> call c s = Some (tt, s') -> qsame s s') ->
  zlen orig + zlen F0 <= extra ->
  forall l s A F K a must ran ra (ranv : list (Z * aval)) a' ra' must',
  At P s c A F K a -> c_mstate <$> s_clients s.2 !! c = Some l ->
  valued P s.1 A ++ F ≡ₚ orig ++ ranv ++ F0 ->
  ranv.*1 = concat (mc_argv <$> ran) -> zlen (queued_args ra) = zlen ranv ->
  spec_exec_loop scall extra c (length l) ra must a = Some (a', ra', must') ->
  wp (exec_loop P call c l ran must) s (fun r s' => r.2 = must' /\ exists A' F' K' ranv',
    At P s' c A' F' K' a' /\ c_mstate <$> s_clients s'.2 !! c = Some [] /\
    valued P s'.1 A' ++ F' ≡ₚ orig ++ ranv' ++ F0 /\ ranv'.*1 = concat (mc_argv <$> r.1)).
Proof.
  intros Hcall Hq Hx. induction l as [|mc l IH]; intros s A F K a must ran ra ranv a' ra' must' H Hm Hp Hr Hz Ha.
  { injection Ha as <- <- <-. apply wp_ret. split; [done|]. by exists A, F, K, ranv. }
  destruct (at_client P s c A F K a H) as (x & Hcx & _ & Hax). rewrite Hcx in Hm. injection Hm as Hm.
  cbn [spec_exec_loop length] in Ha. rewrite Hax in Ha. cbn [mbind option_bind] in Ha.
  replace (head (c_mstate (map_client (abs_addr P s.1) x))) with (Some (map_cmd (abs_addr P s.1) mc)) in Ha
    by (cbn; by rewrite Hm). cbn [mbind option_bind mc_cmd mc_argv map_cmd c_db map_client] in Ha.
  destruct (At_load s A F K a x mc l H Hcx Hm) as [args H1].
  cbn [exec_loop]. apply wp_bind, (wp_upd c x); [done|].
  change (fun cl => set_cmd (Some (mc_cmd mc)) (set_argv (mc_argv mc) (set_mstate l cl))) with (load mc l).
  set (first := negb must && negb (cmd_readonly (mc_cmd mc))) in *.
  set (a1 := upd_client c (a_load (map_cmd (abs_addr P s.1) mc)) a) in *.
  change (upd_client c (fun cl => set_cmd (Some (mc_cmd mc)) _) a) with a1 in Ha.
  set (st1 := upd_client c (load mc l) s.2) in *.
  assert (Hst1 : s_clients st1 !! c = Some (load mc l x)) by (unfold st1; cbn; by rewrite lookup_alter_eq, Hcx).
  destruct (if first then _ else _) as [a2|] eqn:Ea2; [|done]. cbn [mbind option_bind] in Ha.
  destruct (scall _ c a2) as [a3|] eqn:Ea3; [|done]. cbn [mbind option_bind] in Ha.
  destruct (s_clients a3 !! c) as [x3|] eqn:Hx3; [|done]. cbn [mbind option_bind] in Ha.
  destruct (c_cmd x3) as [cmd3|] eqn:Hcmd3; [|done]. cbn [mbind option_bind] in Ha.
  assert (Hrest : forall s2, At P s2 c (mc_argv mc) (valued P s.1 A ++ F) (zip (mc_argv mc) args) a2 ->
    s_clients s2.2 = s_clients st1 ->
    wp (call c;; (cl ← client c; cmd ← opt (c_cmd cl);
        exec_loop P call c l (ran ++ [mkMultiCmd (c_argv cl) cmd]) (must || first))) s2
      (fun r s' => r.2 = must' /\ exists A' F' K' ranv', At P s' c A' F' K' a' /\
        c_mstate <$> s_clients s'.2 !! c = Some [] /\
        valued P s'.1 A' ++ F' ≡ₚ orig ++ ranv' ++ F0 /\ ranv'.*1 = concat (mc_argv <$> r.1))).
  { intros s2 H2 E2. assert (HL2 : Loaded P c s2 (mc_argv mc) args (valued P s.1 A ++ F) a2)
      by (by eapply loaded_light).
    assert (Hroom : zlen (valued P s.1 A ++ F) <= extra + zlen (queued_args ra))
      by (unfold zlen at 1; rewrite Hp; fold (zlen (orig ++ ranv ++ F0)); rewrite !zlen_app, Hz; lia).
    destruct (Hcall s2 _ args _ a2 a3 _ HL2 Hroom Ea3) as ([] & s3 & Hrun & L3 & K3 & H3).
    assert (Hqs : qsame s2 s3).
    { apply (Hq s2 (load mc l x) (mc_cmd mc)); [by rewrite E2|done| |done].
      apply (wf_queue P s _ (at_wf _ _ _ _ _ _ _ H) c x mc Hcx ltac:(rewrite Hm; by left)). }
    destruct (client_at P c _ _ _ _ _ _ H3 Hx3) as (y & Hy & HyL & ->). cbn in Hcmd3.
    apply wp_bind. exists tt, s3. split; [done|]. apply wp_bind, (wp_client c y); [done|].
    apply wp_bind, (wp_opt _ cmd3); [done|].
    eapply (IH s3 L3 _ K3 a3 _ _ _ (ranv ++ valued P s3.1 L3)); [exact H3| | | | |exact Ha].
    - rewrite (Hqs c), E2, Hst1. done.
    - rewrite Hp. solve_Permutation.
    - rewrite fmap_app, valued_fst, Hr, fmap_app, concat_app. cbn. by rewrite app_nil_r, HyL.
    - unfold queued_args in *. rewrite fmap_app, concat_app, !zlen_app, Hz. cbn. rewrite app_nil_r, HyL.
      unfold valued. by rewrite !zlen_fmap. }
  apply wp_bind. destruct first; cbn [when].
  - destruct H1 as [H1 _ _]. eapply (wp_propagate_multi _ _ _ _ a1 a2
      (a_load (map_cmd (abs_addr P s.1) mc) (map_client (abs_addr P s.1) x))); [exact H1| |exact Ea2|].
    { unfold a1. cbn. by rewrite lookup_alter_eq, Hax. }
    intros s2 H2 E2. by apply Hrest.
  - injection Ea2 as <-. apply wp_ret, Hrest; [apply H1|done].
Qed.

(** ** EXEC *)

Lemma reply_qsame n : preserves qsame (addReplyMultiBulkLen P c n).
Proof. intros s b s' Hm. apply (owns_qsame c). revert s b s' Hm. apply keeps_multibulk. Qed.
Lemma wp_assoc3 {A B C} (m : M A) (n : M B) (k : M C) s Q :
  wp (m;; n) s (fun _ s' => wp k s' Q) -> wp (m;; n;; k) s Q.
Proof.
  intros (b & s' & Hm & x & s'' & Hk & HQ). exists x, s''. split; [|done].
  unfold mbind, M_bind in *. destruct (m s) as [[? s1]|]; [|done]. by rewrite Hm.
Qed.

Lemma valued_known h (l : list (Z * aval)) : (forall o v, (o, v) ∈ l -> abs_addr P h o = v) -> l = valued P h l.*1.
Proof.
  intros Hl. unfold valued. rewrite <- list_fmap_compose. symmetry. rewrite <- (list_fmap_id l) at 2.
  apply list_fmap_ext. intros i [o v] Hi. cbn. f_equal. apply Hl. by eapply list_elem_of_lookup_2.
Qed.
Lemma valued_snd h l : (valued P h l).*2 = abs_addr P h <$> l.
Proof. unfold valued. by rewrite <- list_fmap_compose. Qed.

(** The arguments of the caller come back; those of the commands that ran stay
    behind as temporaries. *)
Lemma At_back s A F K a x h0 L ranv F0 cmd : At P s c A F K a -> s_clients s.2 !! c = Some x -> c_mstate x = [] ->
  valued P s.1 A ++ F ≡ₚ valued P h0 L ++ ranv ++ F0 ->
  At P (s.1, upd_client c (fun x => set_cmd cmd (set_argv L x)) s.2) c L (ranv ++ F0) []
    (upd_client c (fun x => set_cmd cmd (set_argv (abs_addr P h0 <$> L) x)) a).
Proof.
  intros H Hx Hm Hp. destruct (at_argv _ _ _ _ _ _ _ H) as (x0 & Hx0 & HxA). rewrite Hx in Hx0. injection Hx0 as <-.
  assert (Hval : forall o v, (o, v) ∈ valued P h0 L ++ ranv ++ F0 -> abs_addr P s.1 o = v)
    by (intros o v; rewrite <- Hp; by eapply (valued_temps P c)).
  eapply (At_client P c s A); [exact H|exact Hx| |done| | |done| |by intros o bs ?%elem_of_nil].
  - intros o. unfold client_roots. cbn. rewrite Hm, HxA, !app_nil_r. apply (fmap_Permutation fst) in Hp.
    apply (total_perm (fun q => one q o)) in Hp. fold (cnt o (valued P s.1 A ++ F).*1) in Hp.
    fold (cnt o (valued P h0 L ++ ranv ++ F0).*1) in Hp. rewrite !fmap_app, !valued_fst, !cnt_app in Hp.
    rewrite fmap_app, cnt_app. lia.
  - cbn. rewrite Hm. by intros q ?%elem_of_nil.
  - unfold map_client, set_cmd, set_argv. cbn. f_equal. apply list_fmap_ext. intros i o Hi.
    apply Hval, elem_of_app. left. apply list_elem_of_fmap. exists o. split; [done|]. by eapply list_elem_of_lookup_2.
  - intros o v Hin. apply Hval, elem_of_app. by right.
Qed.

(** The queue of a transaction that has run is put back and released. *)
Lemma wp_finish s L F K a a' x ran (ranv : list (Z * aval)) (Q : unit -> server -> Prop) :
  At P s c L (ranv ++ F) K a -> s_clients s.2 !! c = Some x -> c_mstate x = [] ->
  ranv.*1 = concat (mc_argv <$> ran) -> spec_discard c a = Some a' ->
  (forall s', At P s' c L F K a' -> Q tt s') ->
  wp (upd c (set_mstate ran);; discardTransaction c) s Q.
Proof.
  intros H Hx Hm Hr Ha HQ. apply wp_bind, (wp_upd c x); [done|].
  assert (Hback : upd_client c (set_mstate []) (upd_client c (set_mstate ran) s.2) = s.2).
  { rewrite (upd_client_ext c _ (fun _ => x) _ (set_mstate ran x)); [|cbn; by rewrite lookup_alter_eq, Hx|by destruct x; cbn in *; subst].
    unfold upd_client. cbn. destruct s as [h []]. unfold set_clients. cbn in *. f_equal. apply map_eq. intros i.
    destruct (decide (i = c)) as [->|]; [by rewrite !lookup_alter_eq, Hx|by rewrite !lookup_alter_ne]. }
  destruct (at_client P s c L _ K a H) as (x0 & Hx0 & _ & Hax). rewrite Hx in Hx0. injection Hx0 as <-.
  eapply (wp_discard_queue P c _ L F K a a' (set_mstate ran x)); [cbn; by rewrite lookup_alter_eq, Hx| | |exact HQ].
  - cbn [fst snd c_mstate set_mstate]. rewrite Hback, <- Hr.
    rewrite <- (valued_known s.1 ranv); [by destruct s|].
    intros o v Hin. apply (at_temps _ _ _ _ _ _ _ H), elem_of_app. by left.
  - unfold spec_discard in Ha. rewrite (upd_client_id c (set_mstate []) a _ Hax) in Ha; [done|].
    unfold map_client, set_mstate. cbn. by rewrite Hm.
Qed.

Lemma exec_runs call scall : runs_as P c (call c) (fun extra => scall extra c) ->
  (forall s x cmd s', s_clients s.2 !! c = Some x -> c_cmd x = Some cmd ->
     while_queueing (cmd_proc cmd) = false -> call c s = Some (tt, s') -> qsame s s') ->
  runs_as P c (execCommand P call c) (fun extra => spec_exec scall extra c).
Proof.
  intros Hcall Hq s L args F a a' extra HL Hx Ha. pose proof (l_at _ _ _ _ _ _ _ HL) as H.
  unfold spec_exec in Ha. destruct (s_clients a !! c) as [cl|] eqn:Hcl; [|done]. cbn [mbind option_bind] in Ha.
  destruct (client_at P c _ _ _ _ _ _ H Hcl) as (x & Hcx & HxL & ->). rewrite !has_flag_map in Ha.
  apply wp_bind, (wp_client c x); [done|]. destruct (negb (has_flag REDIS_MULTI x)).
  { injection Ha as <-. by eapply (tell_error_runs P c). }
  destruct (has_flag REDIS_DIRTY_CAS x || has_flag REDIS_DIRTY_EXEC x).
  { apply wp_bind. eapply (wp_tell P c); [exact H|]. intros s1 H1 _ _.
    eapply (wp_discardTransaction P c); [exact H1|exact Ha|]. intros s2 H2. by eexists _, _. }
  destruct (unwatchAllKeys c a) as [a1|] eqn:Ea1; [|done]. cbn [mbind option_bind] in Ha.
  destruct (s_clients a1 !! c) as [cl1|] eqn:Hcl1; [|done]. cbn [mbind option_bind] in Ha. apply wp_bind.
  eapply (wp_table P s c L F _ a a1 (fun V => unwatchAllKeys c)); [apply natural_unwatchAllKeys|exact H|exact Ea1|].
  intros s1 H1 E1. destruct (client_at P c _ _ _ _ _ _ H1 Hcl1) as (x1 & Hcx1 & HxL1 & ->).
  apply wp_bind, (wp_client c x1); [done|]. cbn [c_mstate c_argv c_cmd map_client] in Ha.
  rewrite zlen_fmap, length_fmap in Ha. unfold assume in Ha. destruct (Z.ltb_spec (zlen (c_mstate x1)) (2 ^ 31)); [|done].
  destruct (spec_exec_loop _ _ _ _ _ _ _) as [[[a2 ra] must]|] eqn:Ea2; [|done]. cbn [mbind option_bind] in Ha.
  destruct (spec_discard c _) as [a3|] eqn:Ea3; [|done]. cbn [mbind option_bind] in Ha. injection Ha as <-.
  apply wp_bind. eapply (wp_with_frame qsame); [by apply reply_qsame|].
  pose proof (zlen_nonneg (c_mstate x1)) as Hpos.
  apply (addReplyMultiBulkLen_says P c (zlen (c_mstate x1)) s1 ltac:(cint) Hpos L F _ _ _ H1). intros s2 H2 E2 _ Hq2.
  apply wp_bind. rewrite HxL1 in Ea2, Ea3 |- *.
  assert (Hroom : zlen (valued P s1.1 L) + zlen F <= extra + zlen (abs_addr P s1.1 <$> L))
    by (unfold valued; rewrite !zlen_fmap; lia).
  eapply wp_mono; [apply (exec_loop_runs call scall (valued P s1.1 L) F _ Hcall Hq Hroom (c_mstate x1)
    s2 L F _ _ false [] [] [] a2 ra must H2)|].
  - by rewrite (Hq2 c), Hcx1.
  - by rewrite E2.
  - done.
  - done.
  - exact Ea2.
  - intros [ran must'] s3 [Em (A & F' & K' & ranv & H3 & Hm3 & Hp3 & Hr3)]. cbn in Em, Hr3. subst must'.
    destruct (at_client P s3 c _ _ _ _ H3) as (x3 & Hcx3 & _). rewrite Hcx3 in Hm3. injection Hm3 as Hm3.
    apply wp_bind, (wp_upd c x3); [done|].
    pose proof (At_back s3 A F' K' a2 x3 s1.1 L ranv F (c_cmd x1) H3 Hcx3 Hm3 Hp3) as H4. apply wp_assoc3.
    eapply (wp_finish _ L F [] _ a3 _ ran ranv); [exact H4|cbn; by rewrite lookup_alter_eq, Hcx3|done|exact Hr3|exact Ea3|].
    intros s5 H5. destruct must; [|apply wp_ret; by eexists _, _].
    eapply (wp_dirty P); [exact H5|]. intros s6 H6 _ _. by eexists _, _.
Qed.
End Exec.
