(* ===== verification/Requests.v ===== *)
(** Requests, served on a well-formed server: the queue and the arguments of
    the clients are accounted for, and the server follows its specification. *)
From stdpp Require Import gmap list strings.
From S2P Require Import Prelude Util Glob Sds SdsText Object Server Keyspace ServerRep ServerOps KeyspaceSpec StringSpec StringProofs KeySpec KeyProofs Frames Commands Pubsub Multi MultiSpec MultiOps CommandFrame MultiRep MultiProofs MultiExec.
Local Open Scope c_scope.

Section Requests.
Context (P : platform) {HP : PlatformOk P} (E : config).

Section Client.
Context (c : Z).
Implicit Types (s : server) (a : state aval) (L : list Z) (F : list (Z * aval)) (K : list (Z * bytes)).

(** ** Every procedure *)

Lemma run_runs depth : forall p, runs_as P c (run_proc P depth p c) (fun extra => spec_proc depth extra p c).
Proof.
  induction depth as [|depth IH]; intros p; (destruct (decide (p = P_exec)) as [->|Hp]; [|by apply plain_runs]).
  - intros s L args F a a' extra _ _ Ha. cbn in Ha. by destruct (s_clients a !! c).
  - intros s L args F a a' extra HL Hx Ha. cbn [spec_proc] in Ha.
    destruct (s_clients a !! c) eqn:Hc; [|done]. cbn [mbind option_bind] in Ha.
    eapply (exec_runs P c (call P (run_proc P depth)) (spec_call (spec_proc depth)));
      [exact (call_runs P c _ _ IH)| |exact HL|exact Hx|exact Ha].
    intros s1 x cmd s2 Hcx Hcmd Hw. eapply call_qsame; [|exact Hcx|exact Hcmd|exact Hw].
    intros p. apply run_qsame.
Qed.

(** ** Queueing *)

Lemma wp_each_incr l : forall s L F K a (Q : unit -> server -> Prop), At P s c L F K a ->
  (forall o, o ∈ l -> o ∈ L) -> room P a (zlen F + zlen l) ->
  (forall h F', At P (h, s.2) c L (F' ++ F) K a -> F'.*1 ≡ₚ l -> Q tt (h, s.2)) ->
  wp (each incrRefCount l) s Q.
Proof.
  induction l as [|o l IH]; intros s L F K a Q H Hl Hroom HQ.
  { apply wp_ret. destruct s. by apply (HQ _ []). }
  rewrite zlen_cons in Hroom. pose proof (zlen_nonneg l). cbn [each]. apply wp_bind.
  eapply (wp_incr P s c L o F K a 1); [exact H|eapply (argv_held P c); [exact H|apply Hl; by left]| |lia|].
  { unfold room in *. lia. }
  intros h H1 _. eapply (IH (h, s.2)); [exact H1|intros q Hq; apply Hl; by right| |].
  { unfold room in *. rewrite zlen_cons. lia. }
  intros h' F' H2 Hp. cbn [snd] in *. apply (HQ h' (F' ++ [(o, abs_addr P s.1 o)])).
  - by rewrite <- app_assoc.
  - rewrite fmap_app. cbn. rewrite Hp. symmetry. apply Permutation_cons_append.
Qed.

Lemma room_zero a n F : roomy a n = true -> zlen F <= n -> room P a (zlen F + (n - zlen F)).
Proof. intros Hr Hle. eapply room_of; [exact Hr|lia]. Qed.

Lemma wp_queue s L args a cmd (Q : unit -> server -> Prop) : Loaded P c s L args [] a ->
  (c_cmd <$> s_clients a !! c) = Some (Some cmd) -> while_queueing (cmd_proc cmd) = false ->
  roomy a (2 * zlen args) = true -> (forall s', At P s' c L [] (zip L args) (spec_queue c cmd a) -> Q tt s') ->
  wp (queueMultiCommand c) s Q.
Proof.
  intros HL Hcmd Hw Hr HQ. pose proof (l_at _ _ _ _ _ _ _ HL) as H. pose proof (l_len _ _ _ _ _ _ _ HL) as Hlen.
  destruct (at_client P s c L [] _ a H) as (x & Hcx & HxL & Hax). rewrite Hax in Hcmd. cbn in Hcmd.
  apply wp_bind, (wp_client c x); [done|]. apply wp_bind, (wp_opt _ cmd); [congruence|]. rewrite HxL.
  assert (Ez : zlen L = zlen args) by (unfold zlen; by rewrite Hlen).
  apply wp_bind. eapply wp_each_incr; [exact H|done| |].
  { rewrite Ez. pose proof (zlen_nonneg args). eapply (room_of P a _ []); [exact Hr|]. rewrite zlen_nil. lia. }
  intros h F' H1 Hp. rewrite app_nil_r in H1. apply (wp_upd c x); [done|]. cbn [fst snd] in *.
  apply HQ. eapply (At_client P c (h, s.2) L L F' [] _ _ a x); [exact H1|exact Hcx| |done| | |done| |apply H1].
  - intros o. unfold client_roots. cbn. rewrite fmap_app, concat_app, !cnt_app. cbn.
    rewrite app_nil_r, cnt_nil, HxL. apply (total_perm (fun q => one q o)) in Hp.
    fold (cnt o F'.*1) in Hp. fold (cnt o L) in Hp. lia.
  - cbn [set_mstate c_mstate]. intros q [Hq|Hq%list_elem_of_singleton]%elem_of_app; [by left|right]. subst q.
    split; [split; [rewrite HxL; apply HL|done]|]. cbn. rewrite HxL. intros o Ho.
    apply list_elem_of_lookup in Ho as [i Hi]. destruct (lookup_lt_is_Some_2 args i) as [bs Hbs].
    { rewrite <- Hlen. by eapply lookup_lt_Some. }
    apply (sds_encoded _ _ bs), (at_keys _ _ _ _ _ _ _ H1). apply (list_elem_of_lookup_2 _ i), lookup_zip_with_Some.
    by exists o, bs.
  - unfold map_client, set_mstate. cbn. by rewrite fmap_app.
  - intros o v ?%elem_of_nil. done.
Qed.

(** ** [processCommand] *)

Definition ends_as (a' : state aval) (s : server) : Prop := exists L K, At P s c L [] K a'.

Lemma wp_flagTransaction s L F K a (Q : unit -> server -> Prop) : At P s c L F K a ->
  (forall s', At P s' c L F K (spec_flag c a) -> Q tt s') -> wp (flagTransaction c) s Q.
Proof.
  intros H HQ. destruct (at_client P s c L F K a H) as (x & Hcx & _ & Hax).
  apply wp_bind, (wp_client c x); [done|]. unfold spec_flag in HQ. rewrite Hax, has_flag_map in HQ.
  destruct (has_flag REDIS_MULTI x); [|by apply wp_ret, HQ].
  eapply (wp_light P c s L F K a (fun V => add_flag REDIS_DIRTY_EXEC)); [done|done|exact H|]. intros s' H' _. by apply HQ.
Qed.

Lemma wp_error_format s L F K a msg (Q : unit -> server -> Prop) : At P s c L F K a ->
  (forall s', At P s' c L F K (tell c (format_text msg) a) -> Q tt s') -> wp (addReplyErrorFormat c msg) s Q.
Proof. intros H HQ. eapply (addReplyError_says P c); [exact H|]. intros s' H' _ _. by apply HQ. Qed.

Lemma refusal_abs s a x cmd : abs P s = a ->
  refusal E s.2 x c cmd = refusal E a (map_client (abs_addr P s.1) x) c cmd.
Proof. by intros <-. Qed.

Lemma wp_answer s L F K a msg (b b' : bool) (a' : state aval) : At P s c L F K a -> F = [] ->
  (tell c msg a, b') = (a', b) ->
  wp (addReplyString c msg;; mret b') s (fun r s' => r = b /\ ends_as a' s').
Proof.
  intros H -> [= <- <-]. apply wp_bind. eapply (wp_tell P c); [exact H|]. intros s' H' _ _.
  apply wp_ret. split; [done|]. by eexists _, _.
Qed.

Lemma process_runs s L args a a' ok : Loaded P c s L args [] a -> spec_process E c args a = Some (a', ok) ->
  wp (processCommand P E c) s (fun r s' => r = ok /\ ends_as a' s').
Proof.
  intros HL Ha. pose proof (l_at _ _ _ _ _ _ _ HL) as H. pose proof (l_len _ _ _ _ _ _ _ HL) as Hlen.
  unfold spec_process in Ha. destruct args as [|name args]; [done|]. destruct L as [|o L]; [done|].
  cbn [head mbind option_bind] in Ha. apply wp_bind. eapply (wp_argv P s c); [exact H|done|].
  apply wp_bind. eapply (wp_str P); [exact H|cbn; by left|].
  destruct (strcasecmp_eq name (bytes_of "quit")).
  { injection Ha as <- <-. apply wp_bind. eapply (wp_tell P c); [exact H|]. intros s1 H1 _ _. apply wp_bind.
    eapply (wp_light P c s1 _ _ _ _ (fun V => add_flag REDIS_CLOSE_AFTER_REPLY)); [done|done|exact H1|].
    intros s2 H2 _. apply wp_ret. split; [done|]. by eexists _, _. }
  destruct (lookupCommand name) as [cmd|] eqn:Ecmd; [|done]. cbn [mbind option_bind] in Ha.
  apply wp_bind, (wp_opt _ cmd); [done|]. apply wp_bind.
  eapply (wp_light P c s _ _ _ _ (fun V => set_cmd cmd)); [done|done|exact H|]. intros s1 H1 _.
  destruct cmd as [cmd|].
  2: { injection Ha as <- <-. apply wp_bind. eapply wp_flagTransaction; [exact H1|]. intros s2 H2. apply wp_bind.
       eapply wp_error_format; [exact H2|]. intros s3 H3. apply wp_ret. split; [done|]. by eexists _, _. }
  set (a1 := upd_client c (set_cmd (Some cmd)) a) in *.
  destruct (at_client P s1 c _ _ _ _ H1) as (x & Hcx & HxL & Hax).
  apply wp_bind, wp_bind, (wp_client c x); [done|]. apply wp_ret.
  replace (zlen (c_argv x)) with (zlen (name :: args)) by (rewrite HxL; unfold zlen; by rewrite <- Hlen).
  destruct (_ && _ || _).
  { injection Ha as <- <-. apply wp_bind. eapply wp_flagTransaction; [exact H1|]. intros s2 H2. apply wp_bind.
    eapply wp_error_format; [exact H2|]. intros s3 H3. apply wp_ret. split; [done|]. by eexists _, _. }
  unfold assume in Ha. destruct (modelled (cmd_proc cmd)) eqn:Emod; [|done].
  apply wp_bind, wp_check; [done|]. apply wp_bind, (wp_client c x); [done|]. apply wp_bind, wp_get.
  rewrite Hax in Ha. cbn [mbind option_bind] in Ha.
  rewrite (refusal_abs s1 a1 x cmd (at_abs _ _ _ _ _ _ _ H1)). rewrite has_flag_map in Ha.
  destruct (refusal E a1 _ c cmd) as [[spoils txt]|].
  { injection Ha as <- <-. apply wp_bind. destruct spoils; cbn [when].
    - eapply wp_flagTransaction; [exact H1|]. intros s2 H2. by eapply wp_answer.
    - apply wp_ret. by eapply wp_answer. }
  pose proof (loaded_light P c _ _ _ _ _ _ _ HL H1) as HL1.
  destruct (has_flag REDIS_MULTI x && negb (while_queueing (cmd_proc cmd))) eqn:Eq.
  - apply andb_true_iff in Eq as [_ Eq%negb_true_iff]. destruct (roomy a1 _) eqn:Er; [|done]. injection Ha as <- <-.
    assert (Hcmd : c_cmd <$> s_clients a1 !! c = Some (Some cmd)).
    { destruct (at_client P s c _ _ _ _ H) as (y & _ & _ & Hy). unfold a1. cbn. by rewrite lookup_alter_eq, Hy. }
    apply wp_bind. eapply wp_queue; [exact HL1|exact Hcmd|exact Eq|exact Er|]. intros s2 H2. by eapply wp_answer.
  - destruct (spec_call _ 0 c a1) as [a2|] eqn:Ea2; [|done]. injection Ha as <- <-. apply wp_bind.
    eapply wp_mono; [exact (call_runs P c _ _ (run_runs 1) s1 _ _ [] _ _ 0 HL1 ltac:(done) Ea2)|].
    intros [] s2 H2. apply wp_ret. by split.
Qed.

(** ** Arguments come and go *)

Lemma upd_upd {V} (f g : redisClient V -> redisClient V) (s : state V) :
  upd_client c g (upd_client c f s) = upd_client c (g ∘ f) s.
Proof.
  unfold upd_client, set_clients. cbn. f_equal. apply map_eq. intros i. destruct (decide (i = c)) as [->|].
  - rewrite !lookup_alter_eq. by destruct (s_clients s !! c).
  - by rewrite !lookup_alter_ne.
Qed.

Lemma At_push s L args F a o bs : Loaded P c s L args ((o, AStr bs) :: F) a -> sds_at s.1 o bs -> o ∉ L ->
  Loaded P c (s.1, upd_client c (fun cl => set_argv (c_argv cl ++ [o]) cl) s.2) (L ++ [o]) (args ++ [bs]) F
    (upd_client c (fun cl => set_argv (c_argv cl ++ [AStr bs]) cl) a).
Proof.
  intros [H Hl Hnd] Ho HoL. destruct (at_argv _ _ _ _ _ _ _ H) as (x & Hcx & HxL).
  split; [|by rewrite !length_app, Hl|].
  - eapply (At_client P c s L); [exact H|exact Hcx| |done|by left| |cbn; by rewrite HxL| |].
    + intros q. unfold client_roots. cbn. rewrite !cnt_app, !cnt_cons, cnt_nil. lia.
    + unfold map_client, set_argv. cbn. rewrite fmap_app. cbn. by rewrite (sds_at_value P s.1 o bs).
    + intros q v Hin. apply (at_temps _ _ _ _ _ _ _ H). by right.
    + intros q b Hin. rewrite zip_with_app in Hin by done. apply elem_of_app in Hin as [Hin|Hin].
      * destruct (at_keys _ _ _ _ _ _ _ H q b Hin) as [H1 H2]. split; [|done]. apply elem_of_app. by left.
      * cbn in Hin. apply list_elem_of_singleton in Hin. injection Hin as -> ->. split; [|done].
        apply elem_of_app. right. by left.
  - apply NoDup_app. split; [done|]. split; [|apply NoDup_singleton]. intros q Hq Hin%list_elem_of_singleton. congruence.
Qed.

Lemma receive_runs args : forall s L args0 a, Loaded P c s L args0 [] a -> short args = true ->
  wp (receive P c args) s (fun _ s' => exists L', Loaded P c s' L' (args0 ++ args) []
    (upd_client c (fun cl => set_argv (c_argv cl ++ (AStr <$> args)) cl) a)).
Proof.
  induction args as [|bs args IH]; intros s L args0 a HL Hs; pose proof (l_at _ _ _ _ _ _ _ HL) as H;
    destruct (at_client P s c L _ _ _ H) as (x & Hcx & HxL & Hax).
  { apply wp_ret. exists L. rewrite app_nil_r. rewrite (upd_client_id c _ a _ Hax); [done|].
    unfold map_client, set_argv. cbn. by rewrite app_nil_r. }
  unfold short in Hs. apply bool_decide_eq_true in Hs. apply Forall_cons in Hs as [Hb Hs]. cbn [receive].
  apply wp_bind. eapply (wp_newString P c); [exact H|exact Hb|]. intros h o H1 Ho Hfresh. apply wp_bind.
  apply (wp_upd c x); [done|]. cbn [fst snd].
  assert (HoL : o ∉ L).
  { intros Hin. destruct (wf_alive P s _ o (at_wf _ _ _ _ _ _ _ H)) as (ob & Hob & _); [|congruence].
    by eapply (argv_held P c). }
  pose proof (At_push (h, s.2) L args0 [] a o bs) as H2. destruct HL as [_ Hl Hnd].
  specialize (H2 ltac:(by split) Ho HoL). eapply wp_mono; [eapply (IH _ _ _ _ H2); by apply bool_decide_eq_true|].
  intros [] s' (L' & H3). exists L'. rewrite <- app_assoc in H3. cbn in H3.
  rewrite upd_upd in H3. erewrite (upd_client_ext c _ _ a); [exact H3|exact Hax|].
  unfold compose, set_argv. cbn. by rewrite <- app_assoc.
Qed.

Definition bare {V} (x : redisClient V) : redisClient V := set_cmd None (set_argv [] x).

Lemma wp_freeClientArgv s L K a (Q : unit -> server -> Prop) : At P s c L [] K a ->
  (forall s', At P s' c [] [] [] (upd_client c bare a) -> Q tt s') -> wp (freeClientArgv c) s Q.
Proof.
  intros H HQ. destruct (at_argv _ _ _ _ _ _ _ H) as (x & Hcx & HxL).
  assert (H1 : At P (s.1, upd_client c bare s.2) c [] (valued P s.1 L ++ []) [] (upd_client c bare a)).
  { eapply (At_client P c s L); [exact H|exact Hcx| |done|by left|done|done| |by intros o bs ?%elem_of_nil].
    - intros o. unfold client_roots. cbn. rewrite app_nil_r, valued_fst, HxL, cnt_app, cnt_nil. lia.
    - intros o v Hin. by eapply (valued_temps P c). }
  destruct (wp_each_decr P c (valued P s.1 L) _ _ _ _ _ (fun _ s' => At P s' c [] [] [] (upd_client c bare a) /\
    s'.2 = upd_client c bare s.2) H1) as ([] & [h st] & Hrun & H2 & E2); [done|].
  cbn in E2. subst st. rewrite valued_fst in Hrun. apply wp_bind, (wp_client c x); [done|]. apply wp_bind.
  rewrite HxL. exists tt, (h, s.2). split.
  { destruct s as [h0 st]. exact (each_decr_any _ _ _ st (upd_client c bare st) Hrun). }
  apply (wp_upd c x); [done|]. by apply HQ.
Qed.
End Client.

(** ** Clients come and go *)

Implicit Types (s : server) (a : state aval).

Lemma At_client_of s a c x : wf P s [] -> abs P s = a -> s_clients s.2 !! c = Some x ->
  At P s c (c_argv x) [] [] a.
Proof. intros Hwf Ha Hx. split; [done|done|by exists x|by intros o v ?%elem_of_nil|by intros o v ?%elem_of_nil]. Qed.

Lemma cnt_clients_delete o (cs : gmap Z (redisClient Z)) c x : cs !! c = Some x ->
  cnt o (clients_roots cs) = cnt o (clients_roots (delete c cs)) + cnt o (client_roots x).
Proof.
  intros Hx. rewrite <- (insert_delete_id cs c x Hx) at 1.
  apply (total_clients_insert (fun q => one q o)). by rewrite lookup_delete_eq.
Qed.

(** A client that holds no reference is removed. *)
Lemma wf_remove s c x : wf P s [] -> s_clients s.2 !! c = Some x -> client_roots x = [] ->
  wf P (s.1, set_clients (delete c (s_clients s.2)) s.2) [].
Proof.
  intros Hwf Hx Hr. split; [|apply Hwf|apply Hwf|apply (wf_expires P s _ Hwf)| |].
  - intros o. rewrite (wf_refs P s _ Hwf). unfold held, roots. cbn [fst snd set_clients s_dbs s_clients]. rewrite !cnt_app.
    rewrite (cnt_clients_delete o (s_clients s.2) c x Hx), Hr, cnt_nil. lia.
  - intros i y Hy. cbn in Hy. apply lookup_delete_Some in Hy as [_ Hy]. by apply (wf_db P s _ Hwf i y).
  - intros i y q Hy. cbn in Hy. apply lookup_delete_Some in Hy as [_ Hy]. by apply (wf_queue P s _ Hwf i y).
Qed.

Lemma abs_remove s c : abs P (s.1, set_clients (delete c (s_clients s.2)) s.2) =
  set_clients (delete c (s_clients (abs P s))) (abs P s).
Proof. unfold abs, map_state. cbn. by rewrite fmap_delete. Qed.

Lemma natural_fst {R} (f : table_op R) : natural f -> natural (quietly (fun V (x : state V) => fst <$> f V x)).
Proof.
  intros Hf. eapply natural_ext; [|exact (natural_bind f (fun _ V (x : state V) => Some (x, tt)) Hf (fun _ => natural_ret tt))].
  intros V x. unfold quietly. by destruct (f V x) as [[x' r]|].
Qed.

Definition serves (i : input) s (a' : state aval) : Prop :=
  wp (serve P E i) s (fun _ s' => wf P s' [] /\ abs P s' = a').

Lemma connect_serves c s a a' : wf P s [] -> abs P s = a -> spec_serve E (Connect c) a = Some a' ->
  serves (Connect c) s a'.
Proof.
  intros Hwf <- Ha. cbn [spec_serve] in Ha. unfold assume in Ha. destruct (_ && _) eqn:Eb; [|done]. injection Ha as <-.
  apply andb_true_iff in Eb as [En%bool_decide_eq_true Ed%bool_decide_eq_true].
  unfold abs in En, Ed. rewrite map_clients in En. rewrite map_db_at in Ed.
  apply fmap_None in En as Hn. apply fmap_is_Some in Ed as Hd.
  apply wp_bind, wp_get, wp_bind, wp_check; [by apply bool_decide_eq_true|]. apply wp_modify. split.
  - split; [|apply Hwf|apply Hwf|apply (wf_expires P s _ Hwf)| |].
    + intros o. rewrite (wf_refs P s _ Hwf). unfold held, roots. cbn [fst snd set_clients s_dbs s_clients]. rewrite !cnt_app.
      pose proof (total_clients_insert (fun q => one q o) _ c new_client Hn) as Ht.
      change (cnt o (clients_roots (<[c := new_client]> (s_clients s.2))) = cnt o (clients_roots (s_clients s.2)) + 0) in Ht.
      rewrite Ht. lia.
    + intros i y Hy. cbn in Hy. apply lookup_insert_Some in Hy as [[_ <-]|[_ Hy]]; [done|by apply (wf_db P s _ Hwf i y)].
    + intros i y q Hy. cbn in Hy. apply lookup_insert_Some in Hy as [[_ <-]|[_ Hy]]; [by intros ?%elem_of_nil|].
      by apply (wf_queue P s _ Hwf i y).
  - unfold abs, map_state. cbn. by rewrite fmap_insert.
Qed.

Lemma disconnect_serves c s a a' : wf P s [] -> abs P s = a -> spec_serve E (Disconnect c) a = Some a' ->
  serves (Disconnect c) s a'.
Proof.
  intros Hwf Habs Ha. cbn [spec_serve] in Ha.
  destruct (unwatchAllKeys c a) as [a1|] eqn:E1; [|done]. cbn [mbind option_bind] in Ha.
  destruct (fst <$> pubsubUnsubscribeAllChannels c false a1) as [a2|] eqn:E2; [|done]. cbn [mbind option_bind] in Ha.
  destruct (fst <$> pubsubUnsubscribeAllPatterns c false a2) as [a3|] eqn:E3; [|done]. injection Ha as <-.
  assert (Hx : exists x, s_clients s.2 !! c = Some x).
  { unfold unwatchAllKeys in E1. rewrite <- Habs in E1. unfold abs in E1. rewrite map_clients in E1.
    destruct (s_clients s.2 !! c) as [x|]; [by exists x|done]. }
  destruct Hx as [x Hx]. pose proof (At_client_of s a c x Hwf Habs Hx) as H. unfold serves. cbn [serve]. unfold freeClient.
  apply wp_bind. eapply (wp_table P s c _ _ _ a a1 (fun V => unwatchAllKeys c)); [apply natural_unwatchAllKeys|exact H|exact E1|].
  intros s1 H1 _. apply wp_bind.
  eapply (wp_table P s1 c _ _ _ a1 a2 (fun V (x : state V) => fst <$> pubsubUnsubscribeAllChannels c false x));
    [apply (natural_fst (fun V => pubsubUnsubscribeAllChannels c false)), natural_unsubscribe_all|exact H1|exact E2|].
  intros s2 H2 _. apply wp_bind.
  eapply (wp_table P s2 c _ _ _ a2 a3 (fun V (x : state V) => fst <$> pubsubUnsubscribeAllPatterns c false x));
    [apply (natural_fst (fun V => pubsubUnsubscribeAllPatterns c false)), natural_punsubscribe_all|exact H2|exact E3|].
  intros s3 H3 _. apply wp_bind. eapply wp_freeClientArgv; [exact H3|]. intros s4 H4.
  destruct (at_argv _ _ _ _ _ _ _ H4) as (y & Hy & HyL). apply wp_bind, (wp_client c y); [done|].
  apply wp_bind, wp_modify. pose proof (At_drop_queue P c s4 [] [] [] _ y H4 Hy) as H5.
  set (st5 := upd_client c (set_mstate []) s4.2) in *.
  destruct (wp_each_decr P c (valued P s4.1 (concat (mc_argv <$> c_mstate y))) _ _ _ _ _ (fun _ s' =>
    At P s' c [] [] [] (upd_client c (set_mstate []) (upd_client c bare a3)) /\ s'.2 = st5) H5)
    as ([] & [h st] & Hrun & H6 & E6); [done|]. cbn in E6. subst st. rewrite valued_fst in Hrun.
  set (st6 := set_clients (delete c (s_clients s4.2)) s4.2).
  exists tt, (h, st6). split; [rewrite each_queue; exact (each_decr_any _ _ _ st6 st5 Hrun)|].
  assert (Est : st6 = set_clients (delete c (s_clients st5)) st5).
  { unfold st6, st5, upd_client, set_clients. cbn. by rewrite delete_alter_eq. }
  rewrite Est. split.
  - apply (wf_remove (h, st5) c (set_mstate [] y)); [apply H6|cbn; by rewrite lookup_alter_eq, Hy|].
    unfold client_roots. cbn. by rewrite HyL.
  - change h with (fst (h, st5)). change st5 with (snd (h, st5)) at 1 2. rewrite abs_remove, (at_abs _ _ _ _ _ _ _ H6).
    unfold upd_client, set_clients. cbn. by rewrite !delete_alter_eq.
Qed.

Lemma request_serves c args s a a' : wf P s [] -> abs P s = a -> spec_serve E (Request c args) a = Some a' ->
  serves (Request c args) s a'.
Proof.
  intros Hwf Habs Ha. cbn [spec_serve] in Ha. destruct (s_clients a !! c) as [cl|] eqn:Hcl; [|done].
  cbn [mbind option_bind] in Ha.
  assert (Hx : exists x, s_clients s.2 !! c = Some x /\ cl = map_client (abs_addr P s.1) x).
  { rewrite <- Habs in Hcl. unfold abs in Hcl. rewrite map_clients in Hcl. apply fmap_Some in Hcl as (x & Hx & ->).
    by exists x. }
  destruct Hx as (x & Hx & ->). pose proof (At_client_of s a c x Hwf Habs Hx) as H.
  rewrite has_flag_map in Ha. apply wp_bind, (wp_client c x); [done|].
  destruct (has_flag REDIS_CLOSE_AFTER_REPLY x); [injection Ha as <-; by apply wp_ret|].
  destruct (zlen args =? 0).
  { injection Ha as <-. eapply wp_freeClientArgv; [exact H|]. intros s1 H1. split; apply H1. }
  unfold assume in Ha. destruct (short args && _) eqn:Eb; [|done]. apply andb_true_iff in Eb as [Hs He%bool_decide_eq_true].
  cbn in He. apply fmap_nil_inv in He. rewrite He in H.
  destruct (spec_process E c args _) as [[a1 ok]|] eqn:Ea1; [|done]. cbn [mbind option_bind] in Ha.
  assert (HL : Loaded P c s [] [] [] a) by (by split; [|done|apply NoDup_nil_2]).
  apply wp_bind. eapply wp_mono; [exact (receive_runs c args s [] [] a HL Hs)|].
  intros [] s1 (L1 & HL1). cbn [app] in HL1. 
  rewrite (upd_client_ext c _ (set_argv (AStr <$> args)) a _ Hcl) in HL1 by (cbn; by rewrite He).
  apply wp_bind. eapply wp_mono; [exact (process_runs c s1 L1 args _ a1 ok HL1 Ea1)|].
  intros r s2 [-> (L2 & K2 & H2)]. injection Ha as <-. destruct ok; cbn [when].
  - eapply wp_freeClientArgv; [exact H2|]. intros s3 H3. split; apply H3.
  - apply wp_ret. split; apply H2.
Qed.

Lemma serve_runs i s a' : wf P s [] -> spec_serve E i (abs P s) = Some a' -> serves i s a'.
Proof.
  intros Hwf Ha. destruct i as [c|c args|c].
  - by eapply connect_serves.
  - by eapply request_serves.
  - by eapply disconnect_serves.
Qed.

Lemma serve_all_runs l : forall s a', wf P s [] -> spec_serve_all E l (abs P s) = Some a' ->
  wp (serve_all P E l) s (fun _ s' => wf P s' [] /\ abs P s' = a').
Proof.
  induction l as [|i l IH]; intros s a' Hwf Ha; cbn in Ha.
  { injection Ha as <-. by apply wp_ret. }
  destruct (spec_serve E i (abs P s)) as [a1|] eqn:Ea1; [|done]. cbn in Ha. unfold serve_all. cbn [each].
  apply wp_bind. eapply wp_mono; [by apply serve_runs|]. intros [] s1 [Hwf1 Habs1]. apply IH; [done|by rewrite Habs1].
Qed.
End Requests.


(** Client 5 watches [n], queues INCR, and client 6 changes [n] before EXEC; the
    second transaction runs. *)
Definition a_config : config := mkConfig (fun _ => false) false false None false false false false.
Definition words (l : list string) : list bytes := bytes_of <$> l.
Definition a_session : list input :=
  [Connect 5; Connect 6; Request 5 (words ["watch"; "n"]); Request 5 (words ["MULTI"]);
   Request 5 (words ["INCR"; "n"]); Request 6 (words ["append"; "n"; "2"]); Request 5 (words ["EXEC"]);
   Request 5 (words ["MULTI"]); Request 5 (words ["INCR"; "n"]); Disconnect 6; Request 5 (words ["EXEC"])]%string.
Definition a_transcript : bytes :=
  line "+OK" ++ line "+OK" ++ line "+QUEUED" ++ line "*-1" ++
  line "+OK" ++ line "+QUEUED" ++ line "*1" ++ line ":413".

Lemma a_session_runs :
  option_map (fun a => (c_reply <$> s_clients a !! 5, a_get 0 (bytes_of "n") a))
    (spec_serve_all a_config a_session (abs a_platform (list_to_map a_heap, a_state))) =
  Some (Some a_transcript, Some (AStr (bytes_of "413"))).
Proof. vm_compute. reflexivity. Qed.

