(* ===== verification/Subscriptions.v ===== *)
(** Publish and subscribe: the tables of the clients and of the server say the
    same, whatever is served, so no assertion of pubsub.c can fail; and a message
    reaches exactly the subscribers of its channel and of the patterns that match. *)
From stdpp Require Import gmap list strings.
From S2P Require Import Prelude Util Glob Sds SdsText Object Server Keyspace Frames Commands ServerRep KeyspaceSpec StringSpec Pubsub Multi MultiSpec CommandFrame MultiOps MultiProofs Requests.
Local Open Scope c_scope.

(** ** Lists without one element *)

Lemma remove_first_elem {A} `{EqDecision A} (x : A) l : x ∈ l ->
  exists k, remove_first x l = Some k /\ l ≡ₚ x :: k.
Proof.
  induction l as [|y l IH]; [by intros ?%elem_of_nil|]. cbn. intros Hin. destruct (decide (y = x)) as [->|Hne].
  { by exists l. }
  apply elem_of_cons in Hin as [->|Hin]; [done|]. destruct (IH Hin) as (k & -> & Hk). cbn. exists (y :: k).
  split; [done|]. rewrite Hk. apply Permutation_swap.
Qed.

Lemma remove_first_perm {A} `{EqDecision A} (x : A) l k : remove_first x l = Some k -> l ≡ₚ x :: k.
Proof.
  revert k. induction l as [|y l IH]; intros k; [done|]. cbn. case_decide as E; [by intros [= ->]; subst|].
  destruct (remove_first x l) as [r|]; [|done]. intros [= <-]. rewrite (IH r) by done. apply Permutation_swap.
Qed.

(** The pairs of one client. *)
Definition patterns_of (c : Z) (l : list (Z * bytes)) : list bytes := (filter (fun p => p.1 = c) l).*2.

#[global] Arguments patterns_of : simpl never.
Lemma patterns_of_cons c d p l : patterns_of c ((d, p) :: l) = if decide (d = c) then p :: patterns_of c l else patterns_of c l.
Proof. unfold patterns_of. rewrite filter_cons. cbn. by case_decide. Qed.
Lemma patterns_of_app c l k : patterns_of c (l ++ k) = patterns_of c l ++ patterns_of c k.
Proof. unfold patterns_of. by rewrite filter_app, fmap_app. Qed.

Lemma remove_pattern c p l rest : remove_first p (patterns_of c l) = Some rest ->
  exists k, remove_first (c, p) l = Some k /\ patterns_of c k = rest /\
    forall d, d <> c -> patterns_of d k = patterns_of d l.
Proof.
  revert rest. induction l as [|[d q] l IH]; intros rest; [done|]. rewrite patterns_of_cons. cbn [remove_first].
  destruct (decide (d = c)) as [->|Hd].
  - cbn [remove_first]. destruct (decide (q = p)) as [->|Hq].
    + intros [= <-]. rewrite decide_True by done. exists l. split; [done|]. split; [done|]. intros d Hd.
      by rewrite patterns_of_cons, decide_False.
    + destruct (remove_first p (patterns_of c l)) as [r|]; [|done]. intros [= <-].
      destruct (IH r eq_refl) as (k & Hk & Hc & Ho). rewrite decide_False by congruence. rewrite Hk.
      exists ((c, q) :: k). split; [done|]. rewrite patterns_of_cons, decide_True, Hc by done. split; [done|].
      intros d Hd. rewrite !patterns_of_cons, !decide_False by done. by apply Ho.
  - intros Hr. destruct (IH rest Hr) as (k & Hk & Hc & Ho). rewrite decide_False by congruence. rewrite Hk.
    exists ((d, q) :: k). split; [done|]. rewrite patterns_of_cons, decide_False by done. split; [done|].
    intros e He. rewrite !patterns_of_cons. case_decide; [by rewrite Ho|by apply Ho].
Qed.

Section Tables.
Context {V : Type}.
Implicit Types (s : state V) (c : Z) (channel pattern : bytes).

(** ** The two sides agree *)

(** What a client is subscribed to. *)
Definition subscriptions (cl : redisClient V) : gset bytes * list bytes :=
  (c_pubsub_channels cl, c_pubsub_patterns cl).
Definition subs_of c s : option (gset bytes * list bytes) := subscriptions <$> s_clients s !! c.
Definition subscribers channel s : list Z := default [] (s_channels s !! channel).

(** The clients of a channel are those that list it, each once, and a channel
    without clients has no entry; the pairs of a client in the list of patterns
    are its own list, in its order. *)
Record consistent s : Prop := {
  con_channel : forall channel c,
    c ∈ subscribers channel s <-> exists v, subs_of c s = Some v /\ channel ∈ v.1;
  con_once : forall channel l, s_channels s !! channel = Some l -> NoDup l /\ l <> [];
  con_pattern : forall c, patterns_of c (s_patterns s) = default [] (snd <$> subs_of c s);
  con_distinct : forall c v, subs_of c s = Some v -> NoDup v.2 }.

Lemma consistent_ext s s' : consistent s -> s_channels s' = s_channels s -> s_patterns s' = s_patterns s ->
  (forall c, subs_of c s' = subs_of c s) -> consistent s'.
Proof.
  intros [H1 H2 H3 H4] Ec Ep Es. split.
  - intros channel c. unfold subscribers. rewrite Ec, Es. apply H1.
  - rewrite Ec. apply H2.
  - intros c. rewrite Ep, Es. apply H3.
  - intros c v. rewrite Es. apply H4.
Qed.

Lemma subs_upd c d f s : subs_of d (upd_client c f s) =
  if decide (c = d) then (fun cl => subscriptions (f cl)) <$> s_clients s !! d else subs_of d s.
Proof.
  unfold subs_of. cbn. case_decide as E.
  - subst d. rewrite lookup_alter_eq. by destruct (s_clients s !! c).
  - by rewrite lookup_alter_ne.
Qed.
Lemma subs_pubsub d chs ps s : subs_of d (set_pubsub chs ps s) = subs_of d s.
Proof. done. Qed.
Lemma subs_keep c d f s : (forall cl, subscriptions (f cl) = subscriptions cl) ->
  subs_of d (upd_client c f s) = subs_of d s.
Proof.
  intros Hf. rewrite subs_upd. case_decide; [|done]. unfold subs_of. destruct (s_clients s !! d); [|done].
  cbn. by rewrite Hf.
Qed.
Lemma consistent_upd c f s : (forall cl, subscriptions (f cl) = subscriptions cl) -> consistent s ->
  consistent (upd_client c f s).
Proof. intros Hf H. eapply consistent_ext; [exact H|done|done|]. intros d. by apply subs_keep. Qed.
Lemma say_subs bs (cl : redisClient V) : subscriptions (say bs cl) = subscriptions cl.
Proof. unfold say. by case_bool_decide. Qed.

(** ** One subscription *)

Definition yields {R} (o : option (state V * R)) (Q : state V -> Prop) : Prop :=
  exists s r, o = Some (s, r) /\ Q s.

(** The tables agree and the client has these subscriptions. *)
Definition has c (v : gset bytes * list bytes) s : Prop := consistent s /\ subs_of c s = Some v.

Lemma notify_yields {R} c kind name (r : R) v s : has c v s ->
  yields (s ← notify_subscription c kind name s; Some (s, r)) (has c v).
Proof.
  intros [H Hv]. unfold notify_subscription, tell_client. unfold subs_of in Hv.
  destruct (s_clients s !! c) as [cl|] eqn:Hc; [|done]. cbn. eexists _, _. split; [done|]. split.
  - apply consistent_upd; [apply say_subs|done].
  - rewrite subs_keep by apply say_subs. unfold subs_of. by rewrite Hc.
Qed.
Lemma notify_if_yields {R} (b : bool) c kind name (r : R) v s : has c v s ->
  yields (s ← (if b then notify_subscription c kind name s else Some s); Some (s, r)) (has c v).
Proof. intros H. destruct b; [by apply notify_yields|]. by eexists _, _. Qed.

Lemma subscribe_yields c channel chs ps s : has c (chs, ps) s ->
  yields (pubsubSubscribeChannel c channel s) (has c ({[channel]} ∪ chs, ps)).
Proof.
  intros [H Hv]. unfold pubsubSubscribeChannel. unfold subs_of in Hv.
  destruct (s_clients s !! c) as [cl|] eqn:Hc; [|done]. cbn in Hv. injection Hv as <- <-. cbn [mbind option_bind].
  case_bool_decide as Hin.
  { apply notify_yields. replace ({[channel]} ∪ c_pubsub_channels cl) with (c_pubsub_channels cl) by set_solver.
    split; [done|]. unfold subs_of. by rewrite Hc. }
  apply notify_yields. assert (Hs : subs_of c s = Some (subscriptions cl)) by (unfold subs_of; by rewrite Hc).
  assert (Hn : c ∉ subscribers channel s).
  { intros (v & Hv & Hch)%(con_channel s H). rewrite Hs in Hv. by injection Hv as <-. }
  split; [split|].
  - intros ch d. unfold subscribers. cbn [set_pubsub s_channels]. rewrite subs_pubsub, subs_upd.
    pose proof (con_channel s H ch d) as Hcd. destruct (decide (ch = channel)) as [->|Hch].
    + rewrite lookup_insert_eq. cbn. fold (subscribers channel s). rewrite elem_of_app, list_elem_of_singleton, Hcd.
      case_decide as E; [subst d|naive_solver]. rewrite Hc. cbn. split; [|by right]. intros _. eexists; split; [done|].
      cbn. set_solver.
    + rewrite lookup_insert_ne by done. fold (subscribers ch s). rewrite Hcd. case_decide as E; [subst d|done].
      rewrite Hs, Hc. cbn. split; intros (v & [= <-] & Hx); eexists; (split; [done|]); cbn in *; set_solver.
  - intros ch l. cbn. rewrite lookup_insert_Some. intros [[<- <-]|[_ Hl]]; [|by apply (con_once s H ch)].
    split; [|by destruct (default [] _)]. apply NoDup_app. fold (subscribers channel s).
    split; [|split; [|apply NoDup_singleton]].
    + unfold subscribers. destruct (s_channels s !! channel) as [l|] eqn:El; [by apply (con_once s H channel)|constructor].
    + intros d Hd ->%list_elem_of_singleton. done.
  - intros d. rewrite subs_pubsub, subs_upd. change (s_patterns _) with (s_patterns s). rewrite (con_pattern s H d).
    case_decide as E; [subst d|done]. by rewrite Hs, Hc.
  - intros d v. rewrite subs_pubsub, subs_upd. case_decide as E; [subst d|by apply (con_distinct s H d)].
    rewrite Hc. cbn. intros [= <-]. by apply (con_distinct s H c _ Hs).
  - rewrite subs_pubsub, subs_upd, decide_True, Hc by done. done.
Qed.

Lemma unsubscribe_yields c channel b chs ps s : has c (chs, ps) s ->
  yields (pubsubUnsubscribeChannel c channel b s) (has c (chs ∖ {[channel]}, ps)).
Proof.
  intros [H Hv]. unfold pubsubUnsubscribeChannel. pose proof Hv as Hs. unfold subs_of in Hv.
  destruct (s_clients s !! c) as [cl|] eqn:Hc; [|done]. cbn in Hv. injection Hv as <- <-. cbn [mbind option_bind].
  case_bool_decide as Hin; cbn [mbind option_bind].
  2: { apply notify_if_yields. replace (c_pubsub_channels cl ∖ {[channel]}) with (c_pubsub_channels cl) by set_solver.
       by split. }
  assert (Hmem : c ∈ subscribers channel s) by (apply (con_channel s H); by eexists).
  unfold subscribers in Hmem. destruct (s_channels s !! channel) as [l|] eqn:El; [|by apply elem_of_nil in Hmem].
  cbn in Hmem. destruct (remove_first_elem c l Hmem) as (k & Hk & Hp).
  change (s_channels (upd_client _ _ _)) with (s_channels s). rewrite El. cbn [mbind option_bind]. rewrite Hk.
  cbn [mbind option_bind]. apply notify_if_yields.
  change (s_patterns (upd_client _ _ _)) with (s_patterns s).
  set (m := match k with [] => delete channel (s_channels s) | _ => <[channel := k]> (s_channels s) end).
  assert (Hnd : NoDup (c :: k)) by (rewrite <- Hp; by apply (con_once s H channel)). apply NoDup_cons in Hnd as [Hck Hnd].
  assert (Hm : forall ch, default [] (m !! ch) = if decide (ch = channel) then k else subscribers ch s).
  { intros ch. unfold m, subscribers. case_decide as E; [subst ch|].
    - destruct k; [by rewrite lookup_delete_eq|by rewrite lookup_insert_eq].
    - destruct k; [by rewrite lookup_delete_ne|by rewrite lookup_insert_ne]. }
  split; [split|].
  - intros ch d. unfold subscribers. cbn [set_pubsub s_channels]. rewrite Hm, subs_pubsub, subs_upd.
    pose proof (con_channel s H ch d) as Hcd. case_decide as E; [subst ch|].
    + unfold subscribers in Hcd. rewrite El in Hcd. cbn in Hcd. rewrite Hp, elem_of_cons in Hcd.
      case_decide as E; [subst d|naive_solver]. rewrite Hc. cbn. split; [done|]. intros (v & [= <-] & Hx). cbn in Hx. set_solver.
    + rewrite Hcd. case_decide as E'; [subst d|done]. rewrite Hs, Hc. cbn.
      split; intros (v & [= <-] & Hx); eexists; (split; [done|]); cbn in *; set_solver.
  - intros ch l' Hl'. cbn in Hl'. assert (Hd := Hm ch). rewrite Hl' in Hd. cbn in Hd. case_decide as E; [subst ch|].
    + subst l'. split; [done|]. intros ->. unfold m in Hl'. by rewrite lookup_delete_eq in Hl'.
    + apply (con_once s H ch). unfold m in Hl'. destruct k;
        [by rewrite lookup_delete_ne in Hl'|by rewrite lookup_insert_ne in Hl'].
  - intros d. rewrite subs_pubsub, subs_upd. change (s_patterns _) with (s_patterns s).
    rewrite (con_pattern s H d). case_decide as E; [subst d|done]. by rewrite Hs, Hc.
  - intros d v. rewrite subs_pubsub, subs_upd. case_decide as E; [subst d|by apply (con_distinct s H d)].
    rewrite Hc. cbn. intros [= <-]. by apply (con_distinct s H c _ Hs).
  - rewrite subs_pubsub, subs_upd, decide_True, Hc by done. done.
Qed.

(** A change of the patterns of one client, on both sides. *)
Lemma patterns_has c ps' l s chs ps : has c (chs, ps) s -> NoDup ps' -> patterns_of c l = ps' ->
  (forall d, d <> c -> patterns_of d l = patterns_of d (s_patterns s)) ->
  has c (chs, ps') (set_pubsub (s_channels s) l (upd_client c (set_patterns ps') s)).
Proof.
  intros [H Hs] Hnd Hl Ho.
  assert (Hsub : forall d, subs_of d (upd_client c (set_patterns ps') s) =
    if decide (c = d) then Some (chs, ps') else subs_of d s).
  { intros d. rewrite subs_upd. case_decide as E; [subst d|done]. unfold subs_of in Hs.
    destruct (s_clients s !! c); [|done]. cbn in *. by injection Hs as <- _. }
  split; [split|].
  - intros ch d. change (subscribers ch _) with (subscribers ch s). rewrite (con_channel s H), subs_pubsub, Hsub.
    case_decide as E; [subst d; rewrite Hs|done]. split; intros (v & [= <-] & Hx); by eexists.
  - apply (con_once s H).
  - intros d. rewrite subs_pubsub, Hsub. change (s_patterns _) with l.
    case_decide as E; [by subst d|]. rewrite Ho by done. apply (con_pattern s H).
  - intros d v. rewrite subs_pubsub, Hsub. case_decide as E; [by intros [= <-]|apply (con_distinct s H)].
  - by rewrite subs_pubsub, Hsub, decide_True.
Qed.

Lemma psubscribe_yields c pattern chs ps s : has c (chs, ps) s ->
  yields (pubsubSubscribePattern c pattern s)
    (has c (chs, if decide (pattern ∈ ps) then ps else ps ++ [pattern])).
Proof.
  intros [H Hs]. unfold pubsubSubscribePattern. pose proof Hs as Hv. unfold subs_of in Hv.
  destruct (s_clients s !! c) as [cl|] eqn:Hc; [|done]. cbn in Hv. injection Hv as <- <-. cbn [mbind option_bind].
  case_bool_decide as Hin; case_decide; try done; apply notify_yields; [by split|].
  apply (patterns_has c _ _ s _ (c_pubsub_patterns cl)); [by split| | |].
  - apply NoDup_app. split; [by apply (con_distinct s H c _ Hs)|]. split; [|apply NoDup_singleton].
    intros q Hq ->%list_elem_of_singleton. done.
  - change (s_patterns (upd_client _ _ _)) with (s_patterns s).
    rewrite patterns_of_app, (con_pattern s H c), Hs, patterns_of_cons, decide_True by done. done.
  - intros d Hd. change (s_patterns (upd_client _ _ _)) with (s_patterns s).
    rewrite patterns_of_app, patterns_of_cons, decide_False by done. apply app_nil_r.
Qed.

Lemma punsubscribe_yields c pattern b chs ps s : has c (chs, ps) s ->
  yields (pubsubUnsubscribePattern c pattern b s) (has c (chs, default ps (remove_first pattern ps))).
Proof.
  intros [H Hs]. unfold pubsubUnsubscribePattern. pose proof Hs as Hv. unfold subs_of in Hv.
  destruct (s_clients s !! c) as [cl|] eqn:Hc; [|done]. cbn in Hv. injection Hv as <- <-. cbn [mbind option_bind].
  destruct (remove_first pattern (c_pubsub_patterns cl)) as [rest|] eqn:Hr; [|by apply notify_if_yields].
  change (s_patterns (upd_client _ _ _)) with (s_patterns s).
  assert (Hp : patterns_of c (s_patterns s) = c_pubsub_patterns cl) by (by rewrite (con_pattern s H c), Hs).
  rewrite <- Hp in Hr. destruct (remove_pattern c pattern _ rest Hr) as (k & -> & Hk & Ho).
  cbn [mbind option_bind]. apply notify_if_yields. cbn [default from_option].
  apply (patterns_has c _ _ s _ (c_pubsub_patterns cl)); [by split| |done|done].
  rewrite Hp in Hr. apply remove_first_perm in Hr as Hperm.
  pose proof (con_distinct s H c _ Hs) as Hnd. cbn in Hnd. rewrite Hperm in Hnd. by apply NoDup_cons in Hnd as [_ ?].
Qed.

(** ** Several *)

Lemma yields_mono {R} (o : option (state V * R)) (Q Q' : state V -> Prop) :
  yields o Q -> (forall s, Q s -> Q' s) -> yields o Q'.
Proof. intros (s & r & E & H) HQ. exists s, r. split; [done|by apply HQ]. Qed.
Lemma yields_bind {R R'} (o : option (state V * R)) (k : state V -> R -> option (state V * R')) (Q Q' : state V -> Prop) :
  yields o Q -> (forall s r, Q s -> yields (k s r) Q') -> yields ('(s, r) ← o; k s r) Q'.
Proof. intros (s & r & -> & H) Hk. cbn. by apply Hk. Qed.

(** [J l] holds when [l] is left to do. *)
Lemma counting_yields {A} (f : A -> state V -> option (state V * Z)) (J : list A -> state V -> Prop) l :
  (forall x l s, J (x :: l) s -> yields (f x s) (J l)) ->
  forall s n, J l s -> yields (counting f l s n) (J []).
Proof.
  intros Hf. induction l as [|x l IH]; intros s n HJ; [by eexists _, _|]. cbn [counting].
  eapply yields_bind; [by apply Hf|]. intros s' r H. by apply IH.
Qed.

Definition served c s : Prop := exists v, has c v s.

Lemma counting_served c (f : bytes -> state V -> option (state V * Z)) l s n :
  (forall x v s, has c v s -> exists v', yields (f x s) (has c v')) ->
  served c s -> yields (counting f l s n) (served c).
Proof.
  intros Hf Hs. apply (counting_yields f (fun _ => served c)); [|done].
  intros x k s' [v Hv]. destruct (Hf x v s' Hv) as [v' Hy]. eapply yields_mono; [exact Hy|]. intros s2 H2. by exists v'.
Qed.

Lemma unsubscribe_all_yields c b chs ps s : has c (chs, ps) s ->
  yields (pubsubUnsubscribeAllChannels c b s) (has c (∅, ps)).
Proof.
  intros [H Hs]. unfold pubsubUnsubscribeAllChannels. pose proof Hs as Hv. unfold subs_of in Hv.
  destruct (s_clients s !! c) as [cl|] eqn:Hc; [|done]. cbn in Hv. injection Hv as <- <-. cbn [mbind option_bind].
  set (J (l : list bytes) s := exists chs, has c (chs, c_pubsub_patterns cl) s /\ chs ⊆ list_to_set l).
  apply (yields_bind _ _ (J [])).
  - apply (counting_yields _ J).
    + intros x l s' (chs & Hh & Hl). eapply yields_mono; [by apply unsubscribe_yields|]. intros s2 H2.
      eexists. split; [exact H2|]. cbn in Hl. set_solver.
    + exists (c_pubsub_channels cl). split; [by split|]. rewrite list_to_set_elements_L. done.
  - intros s' r (chs & Hh & Hl). apply notify_if_yields. cbn in Hl. by replace ∅ with chs by set_solver.
Qed.

Lemma punsubscribe_all_yields c b chs ps s : has c (chs, ps) s ->
  yields (pubsubUnsubscribeAllPatterns c b s) (has c (chs, [])).
Proof.
  intros [H Hs]. unfold pubsubUnsubscribeAllPatterns. pose proof Hs as Hv. unfold subs_of in Hv.
  destruct (s_clients s !! c) as [cl|] eqn:Hc; [|done]. cbn in Hv. injection Hv as <- <-. cbn [mbind option_bind].
  apply (yields_bind _ _ (has c (c_pubsub_channels cl, []))).
  - apply (counting_yields _ (fun l => has c (c_pubsub_channels cl, l))); [|by split].
    intros x l s' Hh. eapply yields_mono; [by apply punsubscribe_yields|]. intros s2. cbn. by rewrite decide_True.
  - intros s' r Hh. by apply notify_if_yields.
Qed.

(** ** The commands *)

Definition subscription_proc (p : proc) : bool :=
  match p with P_subscribe | P_unsubscribe | P_psubscribe | P_punsubscribe => true | _ => false end.

Lemma done_consistent c s : served c s -> exists s', done_unsubscribing c s = Some s' /\ consistent s'.
Proof.
  intros (v & H & Hs). unfold done_unsubscribing. unfold subs_of in Hs.
  destruct (s_clients s !! c) as [cl|]; [|done]. cbn. eexists. split; [done|].
  destruct (_ =? 0); [by apply consistent_upd|done].
Qed.

Lemma subscription_total c p args s : consistent s -> is_Some (s_clients s !! c) -> subscription_proc p = true ->
  exists s', pubsub_command p c args s = Some s' /\ consistent s'.
Proof.
  intros H [cl Hc] Hp.
  assert (Hs : served c s) by (eexists; split; [done|]; unfold subs_of; by rewrite Hc).
  assert (Hv : forall o k, yields o (served c) -> (forall s, served c s -> exists s', k s = Some s' /\ consistent s') ->
    exists s', ('(s, _) ← (o : option (state V * Z)); k s) = Some s' /\ consistent s').
  { intros o k (s1 & r & -> & H1) Hk. cbn. by apply Hk. }
  assert (Hflag : forall s, served c s -> exists s', Some (upd_client c (add_flag REDIS_PUBSUB) s) = Some s' /\ consistent s').
  { intros s1 (v & H1 & _). eexists. split; [done|]. by apply consistent_upd. }
  destruct p; try discriminate Hp; cbn [pubsub_command].
  - apply Hv; [|done]. apply counting_served; [|done]. intros x [chs ps] s1 H1. eexists. by apply subscribe_yields.
  - apply Hv; [|apply done_consistent]. destruct (zlen args =? 1).
    + destruct Hs as [[chs ps] Hs]. eapply yields_mono; [by eapply unsubscribe_all_yields|]. intros s1 H1. by eexists.
    + apply counting_served; [|done]. intros x [chs ps] s1 H1. eexists. by apply unsubscribe_yields.
  - apply Hv; [|done]. apply counting_served; [|done]. intros x [chs ps] s1 H1. eexists. by apply psubscribe_yields.
  - apply Hv; [|apply done_consistent]. destruct (zlen args =? 1).
    + destruct Hs as [[chs ps] Hs]. eapply yields_mono; [by eapply punsubscribe_all_yields|]. intros s1 H1. by eexists.
    + apply counting_served; [|done]. intros x [chs ps] s1 H1. eexists. by apply punsubscribe_yields.
Qed.

(** ** Messages *)

(** The matcher says yes. *)
Definition accepts channel pattern : Prop :=
  match stringmatch pattern channel false with Some r => r <> 0 | None => False end.
Global Instance accepts_dec channel pattern : Decision (accepts channel pattern).
Proof. unfold accepts. destruct (stringmatch _ _ _); apply _. Defined.

(** What a client is sent. *)
Definition messages channel (message : bytes) (cl : redisClient V) : bytes :=
  (if decide (channel ∈ c_pubsub_channels cl) then message_text channel message else []) ++
  concat ((fun p => pmessage_text p channel message) <$> filter (accepts channel) (c_pubsub_patterns cl)).

(** Replies to several clients. *)
Definition tell_all (l : list (Z * bytes)) s : state V := fold_left (fun s p => tell_client p.1 p.2 s) l s.

Lemma say_nil (cl : redisClient V) : say [] cl = cl.
Proof. unfold say, set_reply. case_bool_decide; [done|]. rewrite app_nil_r. by destruct cl. Qed.
Lemma say_app x y (cl : redisClient V) : say y (say x cl) = say (x ++ y) cl.
Proof. unfold say, set_reply. case_bool_decide; cbn; case_bool_decide; try done. by rewrite app_assoc. Qed.

Lemma tell_all_client l : forall s c, s_clients (tell_all l s) !! c = say (concat (patterns_of c l)) <$> s_clients s !! c.
Proof.
  induction l as [|[d t] l IH]; intros s c.
  { cbn. destruct (s_clients s !! c); [|done]. cbn. by rewrite say_nil. }
  change (tell_all ((d, t) :: l) s) with (tell_all l (tell_client d t s)). rewrite IH, patterns_of_cons. cbn.
  case_decide as E; [subst d; rewrite lookup_alter_eq|by rewrite lookup_alter_ne].
  destruct (s_clients s !! c); [|done]. cbn. by rewrite say_app.
Qed.
Lemma tell_all_rest l : forall s, exists cs, tell_all l s = set_clients cs s.
Proof.
  induction l as [|[d t] l IH]; intros s; [exists (s_clients s); by destruct s|].
  change (tell_all ((d, t) :: l) s) with (tell_all l (tell_client d t s)).
  destruct (IH (tell_client d t s)) as [cs ->]. by exists cs.
Qed.

Lemma counting_deliver channel message l : forall s n, counting (deliver channel message) l s n =
  Some (tell_all ((fun c => (c, message_text channel message)) <$> l) s, n + zlen l).
Proof.
  induction l as [|c l IH]; intros s n; [by rewrite zlen_nil, Z.add_0_r|]. cbn [counting]. unfold deliver at 2.
  cbn [mbind option_bind]. rewrite IH, zlen_cons. cbn. do 2 f_equal. lia.
Qed.
Lemma counting_matching channel message l : forall s n s' m,
  counting (deliver_matching channel message) l s n = Some (s', m) ->
  s' = tell_all ((fun p => (p.1, pmessage_text p.2 channel message)) <$> filter (fun p => accepts channel p.2) l) s /\
  m = n + zlen (filter (fun p => accepts channel p.2) l).
Proof.
  induction l as [|p l IH]; intros s n s' m; [intros [= <- <-]; split; [done|unfold zlen; cbn; lia]|]. cbn [counting].
  unfold deliver_matching at 2. rewrite filter_cons.
  assert (Ha : accepts channel p.2 <-> match stringmatch p.2 channel false with Some r => r <> 0 | None => False end) by done.
  destruct (stringmatch p.2 channel false) as [r|]; [|done]. cbn [mbind option_bind].
  destruct (Z.eqb_spec r 0) as [->|Hr]; cbn [mbind option_bind].
  - intros H. rewrite decide_False by (rewrite Ha; by intros []). apply IH in H as [-> ->]. split; [done|]. lia.
  - intros H. rewrite decide_True by (by rewrite Ha). apply IH in H as [-> ->]. split; [done|]. rewrite zlen_cons. lia.
Qed.

Lemma patterns_of_const c t l : NoDup l ->
  patterns_of c ((fun c => (c, t)) <$> l) = if decide (c ∈ l) then [t] else [].
Proof.
  induction 1 as [|d l Hd _ IH]; [by rewrite decide_False by apply not_elem_of_nil|].
  rewrite fmap_cons, patterns_of_cons, IH. destruct (decide (d = c)) as [->|Hne].
  - rewrite (decide_False _ _ (P := c ∈ l)) by done. by rewrite decide_True by left.
  - destruct (decide (c ∈ l)); [by rewrite decide_True by (by right)|]. rewrite decide_False; [done|set_solver].
Qed.
Lemma patterns_of_matching c channel message l :
  patterns_of c ((fun p => (p.1, pmessage_text p.2 channel message)) <$> filter (fun p => accepts channel p.2) l) =
  (fun p => pmessage_text p channel message) <$> filter (accepts channel) (patterns_of c l).
Proof.
  induction l as [|[d p] l IH]; [done|]. rewrite filter_cons, patterns_of_cons. cbn [fst snd].
  destruct (decide (accepts channel p)) as [Ha|Ha].
  - rewrite fmap_cons, patterns_of_cons, IH. cbn [fst snd]. case_decide; [|done].
    by rewrite filter_cons, decide_True.
  - rewrite IH. case_decide; [|done]. by rewrite filter_cons, (decide_False _ _ (P := accepts channel p)).
Qed.

Lemma publish_exact channel message s s' n : consistent s ->
  pubsubPublishMessage channel message s = Some (s', n) ->
  (forall c, s_clients s' !! c = (fun cl => say (messages channel message cl) cl) <$> s_clients s !! c) /\
  n = zlen (subscribers channel s) + zlen (filter (fun p => accepts channel p.2) (s_patterns s)) /\
  s' = set_clients (s_clients s') s.
Proof.
  intros H. unfold pubsubPublishMessage. fold (subscribers channel s). rewrite counting_deliver.
  cbn [mbind option_bind]. set (l1 := _ <$> subscribers channel s). destruct (tell_all_rest l1 s) as [cs E].
  assert (Ep : s_patterns (tell_all l1 s) = s_patterns s) by (by rewrite E). rewrite Ep.
  intros [-> ->]%counting_matching. set (l2 := _ <$> filter _ _). split; [|split; [lia|]].
  - intros c. rewrite !tell_all_client. destruct (s_clients s !! c) as [cl|] eqn:Hc; [|done]. cbn. f_equal.
    rewrite say_app. f_equal. unfold messages, l1, l2.
    assert (Hs : subs_of c s = Some (subscriptions cl)) by (unfold subs_of; by rewrite Hc).
    rewrite patterns_of_const, patterns_of_matching, (con_pattern s H c), Hs. cbn [snd fmap option_fmap option_map subscriptions default from_option].
    + f_equal. pose proof (con_channel s H channel c) as Hch. rewrite Hs in Hch. unfold subscriptions in Hch.
      destruct (decide (c ∈ _)) as [Hin|Hin], (decide (channel ∈ _)) as [Hin'|Hin']; cbn; rewrite ?app_nil_r; try done.
      * apply Hch in Hin as (v & [= <-] & Hx). by cbn in Hx.
      * exfalso. apply Hin, Hch. by eexists.
    + unfold subscribers. destruct (s_channels s !! channel) as [l|] eqn:El; [by apply (con_once s H channel)|constructor].
  - destruct (tell_all_rest l2 (tell_all l1 s)) as [cs' ->]. rewrite E. done.
Qed.

(** A new server has no subscriptions. *)
Lemma consistent_empty s : s_channels s = ∅ -> s_patterns s = [] ->
  (forall c cl, s_clients s !! c = Some cl -> subscriptions cl = (∅, [])) -> consistent s.
Proof.
  intros Ec Ep Hc.
  assert (Hs : forall c v, subs_of c s = Some v -> v = (∅, [])).
  { intros c v. unfold subs_of. destruct (s_clients s !! c) as [cl|] eqn:E; [|done]. cbn. intros [= <-]. by eapply Hc. }
  split.
  - intros ch c. unfold subscribers. rewrite Ec, lookup_empty. split; [by intros ?%elem_of_nil|].
    intros (v & ->%Hs & Hx). cbn in Hx. set_solver.
  - intros ch l. by rewrite Ec, lookup_empty.
  - intros c. rewrite Ep. destruct (subs_of c s) as [v|] eqn:E; [|done]. by rewrite (Hs c v).
  - intros c v ->%Hs. constructor.
Qed.
End Tables.

(** ** Nothing that is served breaks the agreement *)

Definition agrees : relation server := fun s s' => consistent s.2 -> consistent s'.2.
Global Instance agrees_pre : PreOrder agrees.
Proof. unfold agrees. split; [by intros s|]. intros s1 s2 s3 H1 H2 H. by apply H2, H1. Qed.
Notation agree := (preserves agrees).

Lemma own_agrees c s s' : own c s.2 s'.2 -> agrees s s'.
Proof.
  intros Ho H. eapply consistent_ext; [exact H|apply Ho|apply Ho|]. intros i. unfold subs_of.
  pose proof (own_clients c _ _ Ho i) as Hi. inversion Hi as [x y Hk Hx Hy|Hx Hy]; cbn; [|done].
  unfold subscriptions. by rewrite (kept_channels _ _ _ Hk), (kept_patterns _ _ _ Hk).
Qed.
Lemma heap_agrees f : agree (on_heap f).
Proof. apply pres_heap. by intros s h H. Qed.
Lemma heap_get_agrees f : agree (on_heap_get f).
Proof. apply pres_heap_get. by intros s h H. Qed.
Lemma event_agrees e : agree (modify (add_event e)).
Proof. apply pres_modify. intros s H. by apply (consistent_ext _ _ H). Qed.
Lemma dirty_agrees n : agree (dirty n).
Proof. apply pres_modify. intros s H. by apply (consistent_ext _ _ H). Qed.
Lemma upd_agrees c f : (forall cl, subscriptions (f cl) = subscriptions cl) -> agree (upd c f).
Proof.
  intros Hf. apply pres_bind; [apply _|apply pres_client, _|]. intros cl. apply pres_modify. intros s H.
  by apply consistent_upd.
Qed.
Lemma change_agrees f : (forall s s', f s = Some s' -> consistent s -> consistent s') -> agree (change f).
Proof.
  intros Hf s [] s' H. unfold change, mbind, M_bind, get_state, opt in H. cbn in H.
  destruct (f s.2) as [st|] eqn:E; [|done]. cbn in H. injection H as <-. unfold agrees. cbn. by apply Hf.
Qed.
#[local] Hint Resolve heap_agrees heap_get_agrees event_agrees dirty_agrees : agrees.
#[local] Hint Extern 3 (agree (upd _ _)) => apply upd_agrees; done : agrees.

Lemma watch_consistent c k (s s' : state Z) : watchForKey c k s = Some s' -> consistent s -> consistent s'.
Proof.
  unfold watchForKey. destruct (s_clients s !! c) as [cl|]; [|done]. cbn [mbind option_bind].
  destruct (existsb _ _); [by intros [= <-]|]. destruct (db_at s (c_db cl)) as [x|]; [|done]. cbn [mbind option_bind].
  intros [= <-] H. apply consistent_upd; [done|]. by apply (consistent_ext _ _ H).
Qed.
Lemma unwatch_loop_consistent c l : forall s s' : state Z, unwatch_loop c l s = Some s' -> consistent s -> consistent s'.
Proof.
  induction l as [|wk l IH]; intros s s'; [by intros [= <-]|]. cbn [unwatch_loop]. unfold unwatch_key.
  destruct (db_at s wk.2) as [x|]; [|done]. cbn [mbind option_bind].
  destruct (db_watched_keys x !! wk.1) as [cs|]; [|done]. cbn [mbind option_bind].
  destruct (remove_first c cs) as [k|]; [|done]. cbn [mbind option_bind].
  intros Hl H. apply (IH _ _ Hl). apply consistent_upd; [done|]. by apply (consistent_ext _ _ H).
Qed.
Lemma unwatch_consistent c (s s' : state Z) : unwatchAllKeys c s = Some s' -> consistent s -> consistent s'.
Proof.
  unfold unwatchAllKeys. destruct (s_clients s !! c) as [cl|]; [|done]. apply unwatch_loop_consistent.
Qed.

(** A command for a client that is not there. *)
Lemma counting_missing {A} (f : A -> state Z -> option (state Z * Z)) l s s' n m :
  (forall x, f x s = None) -> counting f l s n = Some (s', m) -> s' = s.
Proof. intros Hf. destruct l as [|x l]; [by intros [= <-]|]. cbn. by rewrite Hf. Qed.

Lemma command_consistent p c args (s s' : state Z) : pubsub_command p c args s = Some s' ->
  consistent s -> consistent s'.
Proof.
  intros E H. destruct (decide (p = P_publish)) as [->|Hp].
  { cbn in E. destruct args as [|? [|channel [|message [|]]]]; try done. cbn in E.
    destruct (pubsubPublishMessage channel message s) as [[s1 n]|] eqn:Ep; [|done]. cbn in E. injection E as <-.
    apply consistent_upd; [apply say_subs|]. apply consistent_upd; [done|].
    destruct (publish_exact channel message s s1 n H Ep) as (Hc & _ & Hr). rewrite Hr.
    apply (consistent_ext _ _ H); [done..|]. intros c'. unfold subs_of. cbn. rewrite Hc.
    destruct (s_clients s !! c'); [|done]. cbn. by rewrite say_subs. }
  destruct (subscription_proc p) eqn:Es; [|by destruct p].
  destruct (s_clients s !! c) as [cl|] eqn:Hc.
  { destruct (subscription_total c p args s H) as (s2 & E2 & H2); [by rewrite Hc|done|]. congruence. }
  assert (Hn : forall s' : state Z, done_unsubscribing c s = Some s' -> False)
    by (intros s2; unfold done_unsubscribing; by rewrite Hc).
  destruct p; try discriminate Es; try done; cbn in E;
    unfold subscribeCommand, unsubscribeCommand, psubscribeCommand, punsubscribeCommand in E.
  - destruct (counting _ _ _ _) as [[s1 n]|] eqn:El; [|done]. cbn in E. injection E as <-.
    apply counting_missing in El as ->; [by apply consistent_upd|]. intros x. unfold pubsubSubscribeChannel. by rewrite Hc.
  - destruct (zlen args =? 1); [unfold pubsubUnsubscribeAllChannels in E; by rewrite Hc in E|].
    destruct (counting _ _ _ _) as [[s1 n]|] eqn:El; [|done]. cbn in E.
    apply counting_missing in El as ->; [by apply Hn in E|]. intros x. unfold pubsubUnsubscribeChannel. by rewrite Hc.
  - destruct (counting _ _ _ _) as [[s1 n]|] eqn:El; [|done]. cbn in E. injection E as <-.
    apply counting_missing in El as ->; [by apply consistent_upd|]. intros x. unfold pubsubSubscribePattern. by rewrite Hc.
  - destruct (zlen args =? 1); [unfold pubsubUnsubscribeAllPatterns in E; by rewrite Hc in E|].
    destruct (counting _ _ _ _) as [[s1 n]|] eqn:El; [|done]. cbn in E.
    apply counting_missing in El as ->; [by apply Hn in E|]. intros x. unfold pubsubUnsubscribePattern. by rewrite Hc.
Qed.

Section Served.
Context (P : platform) (E : config).

Lemma reply_agrees c bs : agree (addReplyString c bs).
Proof. apply upd_agrees, say_subs. Qed.
Lemma change_unwatch_agrees c : agree (change (unwatchAllKeys c)).
Proof. apply change_agrees, unwatch_consistent. Qed.
Lemma change_watch_agrees c k : agree (change (watchForKey c k)).
Proof. apply change_agrees, watch_consistent. Qed.
Lemma change_command_agrees p c args : agree (change (pubsub_command p c args)).
Proof. apply change_agrees, command_consistent. Qed.
#[local] Hint Resolve reply_agrees change_unwatch_agrees change_watch_agrees change_command_agrees : agrees.

Ltac open_term :=
  match goal with
  | |- preserves _ ?m =>
      let rec head t := lazymatch t with ?f _ => head f | ?f => f end in
      let h := head m in unfold h
  end.
Ltac agrees := repeat first [ solve [auto with agrees nocore] | frame_step | open_term ].

Lemma strs_agrees l : agree (strs l).
Proof. induction l as [|o l IH]; cbn [strs]; agrees. Qed.
Lemma arg_texts_agrees l : agree (arg_texts P l).
Proof. induction l as [|o l IH]; cbn [arg_texts]; agrees. Qed.
Lemma watch_loop_agrees c l : agree (watch_loop c l).
Proof. induction l as [|o l IH]; cbn [watch_loop]; agrees. Qed.
#[local] Hint Resolve strs_agrees arg_texts_agrees watch_loop_agrees : agrees.
Lemma multibulk_agrees c n : agree (addReplyMultiBulkLen P c n).
Proof. agrees. Qed.
Lemma error_agrees c msg : agree (addReplyError c msg).
Proof. agrees. Qed.
Lemma error_format_agrees c msg : agree (addReplyErrorFormat c msg).
Proof. agrees. Qed.
Lemma discard_agrees c : agree (discardTransaction c).
Proof. agrees. Qed.
Lemma propagate_agrees d l b b' : agree (propagate P d l b b').
Proof. agrees. Qed.
#[local] Hint Resolve multibulk_agrees error_agrees error_format_agrees discard_agrees propagate_agrees : agrees.

Lemma exec_loop_agrees call c l : agree (call c) -> forall ran b, agree (exec_loop P call c l ran b).
Proof. intros Hc. induction l as [|mc l IH]; intros ran b; cbn [exec_loop]; agrees. Qed.
#[local] Hint Resolve exec_loop_agrees : agrees.
Lemma exec_agrees call c : agree (call c) -> agree (execCommand P call c).
Proof. intros Hc. agrees. Qed.
Lemma call_agrees run c : (forall p, agree (run p c)) -> agree (call P run c).
Proof. intros Hr. agrees. Qed.
Lemma watch_command_agrees c : agree (watchCommand c).
Proof. agrees. Qed.
#[local] Hint Resolve exec_agrees call_agrees watch_command_agrees : agrees.

Lemma run_agrees depth : forall p c, agree (run_proc P depth p c).
Proof.
  induction depth as [|depth IH]; intros p c; destruct p; cbn [run_proc];
    try solve [agrees];
    (intros s b s' Hm; exact (own_agrees c s s' (command_owns P c _ s b s' Hm))).
Qed.
#[local] Hint Resolve run_agrees : agrees.

Lemma process_agrees c : agree (processCommand P E c).
Proof. agrees. Qed.
Lemma receive_agrees c args : agree (receive P c args).
Proof. induction args as [|bs args IH]; cbn [receive]; agrees. Qed.
Lemma free_argv_agrees c : agree (freeClientArgv c).
Proof. agrees. Qed.
#[local] Hint Resolve process_agrees receive_agrees free_argv_agrees : agrees.

(** ** The end of a client *)

Lemma delete_consistent c (s : state Z) : has c (∅, []) s -> consistent (set_clients (delete c (s_clients s)) s).
Proof.
  intros [H Hs].
  assert (Hd : forall d, subs_of d (set_clients (delete c (s_clients s)) s) = if decide (c = d) then None else subs_of d s).
  { intros d. unfold subs_of. cbn. case_decide as Ed; [subst d; by rewrite lookup_delete_eq|by rewrite lookup_delete_ne]. }
  split.
  - intros ch d. change (subscribers ch _) with (subscribers ch s). rewrite (con_channel s H), Hd.
    case_decide as Ed; [subst d; rewrite Hs|done]. split; intros (v & [= <-] & Hx). cbn in Hx. set_solver.
  - apply (con_once s H).
  - intros d. rewrite Hd. change (s_patterns _) with (s_patterns s). rewrite (con_pattern s H d).
    case_decide as Ed; [subst d; by rewrite Hs|done].
  - intros d v. rewrite Hd. case_decide; [done|apply (con_distinct s H)].
Qed.

Definition stays (c : Z) v : relation server := fun s s' => has c v s.2 -> has c v s'.2.
Global Instance stays_pre c v : PreOrder (stays c v).
Proof. unfold stays. split; [by intros s|]. intros s1 s2 s3 H1 H2 H. by apply H2, H1. Qed.
Lemma free_argv_stays c v : preserves (stays c v) (freeClientArgv c).
Proof.
  apply pres_bind; [apply _|apply pres_client, _|]. intros x. apply pres_bind; [apply _| |intros _].
  - apply pres_each; [apply _|]. intros o. apply pres_heap. by intros s h H.
  - apply pres_bind; [apply _|apply pres_client, _|]. intros y. apply pres_modify. intros s [H Hs]. split.
    + by apply consistent_upd.
    + cbn [snd]. by rewrite subs_keep.
Qed.

Lemma change_run {B} f (k : unit -> M B) s b s' : (x ← change f; k x) s = Some (b, s') ->
  exists st, f s.2 = Some st /\ k tt (s.1, st) = Some (b, s').
Proof.
  unfold change, mbind, M_bind, get_state, opt. cbn. destruct (f s.2) as [st|]; [|done]. cbn. intros H. by exists st.
Qed.

Lemma yields_inv {R} (o : option (state Z * R)) Q st : yields o Q -> fst <$> o = Some st -> Q st.
Proof. intros (s & r & -> & H). by intros [= <-]. Qed.

Lemma free_agrees c : agree (freeClient c).
Proof.
  intros s [] s' Hrun H. unfold freeClient in Hrun.
  apply change_run in Hrun as (s1 & E1 & Hrun). apply unwatch_consistent in E1; [|exact H].
  apply change_run in Hrun as (s2 & E2 & Hrun). apply change_run in Hrun as (s3 & E3 & Hrun). cbn [fst snd] in *.
  assert (Hc : exists chs ps, has c (chs, ps) s1).
  { unfold pubsubUnsubscribeAllChannels in E2. destruct (s_clients s1 !! c) as [cl|] eqn:Hc; [|done].
    exists (c_pubsub_channels cl), (c_pubsub_patterns cl). split; [done|]. unfold subs_of. by rewrite Hc. }
  destruct Hc as (chs & ps & Hh). apply (yields_inv _ (has c (∅, ps))) in E2; [|by eapply unsubscribe_all_yields].
  apply (yields_inv _ (has c (∅, []))) in E3; [|by eapply punsubscribe_all_yields].
  unfold mbind at 1, M_bind at 1 in Hrun. destruct (freeClientArgv c _) as [[[] s4]|] eqn:E4; [|done].
  pose proof (free_argv_stays c (∅, []) _ _ _ E4 E3) as H4.
  revert Hrun. unfold mbind at 1, M_bind at 1. destruct (client c s4) as [[cl s5]|] eqn:E5; [|done].
  assert (s5 = s4) as ->.
  { revert E5. unfold client, get_state, opt, mbind, M_bind. destruct (s_clients s4.2 !! c); [|done]. by intros [= _ <-]. }
  unfold mbind at 1, M_bind at 1, modify. cbn [fst snd]. intros Hrun.
  assert (Hq : agree (each (fun mc => each decrRefCount (mc_argv mc)) (c_mstate cl))) by agrees.
  exact (Hq _ _ _ Hrun (delete_consistent c _ H4)).
Qed.

Lemma create_agrees c : agree (createClient c).
Proof.
  intros s [] s' Hrun H. unfold createClient, mbind, M_bind, get_state, check, modify, mret, M_ret in Hrun.
  destruct (bool_decide _) eqn:Hn; [|done]. apply bool_decide_eq_true in Hn. injection Hrun as <-. cbn [fst snd].
  assert (Hd : forall d v, subs_of d (set_clients (<[c := new_client]> (s_clients s.2)) s.2) = Some v <->
    (d = c /\ v = (∅, [])) \/ subs_of d s.2 = Some v).
  { intros d v. unfold subs_of. cbn. destruct (decide (c = d)) as [<-|Hcd].
    - rewrite lookup_insert_eq, Hn. cbn. naive_solver.
    - rewrite lookup_insert_ne by done. naive_solver. }
  split.
  - intros ch d. change (subscribers ch _) with (subscribers ch s.2). rewrite (con_channel s.2 H). split.
    + intros (v & Hv & Hx). exists v. split; [|done]. apply Hd. by right.
    + intros (v & [[-> ->]|Hv]%Hd & Hx); [cbn in Hx; set_solver|by exists v].
  - apply (con_once s.2 H).
  - intros d. change (s_patterns _) with (s_patterns s.2). rewrite (con_pattern s.2 H d).
    unfold subs_of. cbn. destruct (decide (c = d)) as [<-|Hcd].
    + by rewrite lookup_insert_eq, Hn.
    + by rewrite lookup_insert_ne.
  - intros d v [[-> ->]|Hv]%Hd; [constructor|by apply (con_distinct s.2 H d)].
Qed.
#[local] Hint Resolve free_agrees create_agrees : agrees.

Lemma serve_agrees i : agree (serve P E i).
Proof.
  destruct i as [c|c args|c]; cbn [serve]; [auto with agrees| |auto with agrees].
  agrees.
Qed.
Lemma serve_all_agrees l : agree (serve_all P E l).
Proof. apply pres_each; [apply _|]. apply serve_agrees. Qed.
End Served.

(** A pattern that the matcher can read is accepted as the glob relation says. *)
Lemma match_cases channel pattern : pattern_ok pattern -> channel <> [] ->
  (glob false pattern channel /\ stringmatch pattern channel false = Some 1) \/
  (~ glob false pattern channel /\ stringmatch pattern channel false = Some 0).
Proof.
  intros Hp Hc. apply (match_loop_spec (pattern ++ [0]) (channel ++ [0]) false (S (length pattern)));
    [split; [lia|done]|split; [lia|done]|lia|done|by left].
Qed.
Lemma accepts_glob channel pattern : pattern_ok pattern -> channel <> [] ->
  accepts channel pattern <-> glob false pattern channel.
Proof. intros Hp Hc. unfold accepts. destruct (match_cases channel pattern Hp Hc) as [[Hg ->]|[Hg ->]]; by split. Qed.

Lemma publish_total {V} channel message (s : state V) :
  Forall (fun p => pattern_ok p.2) (s_patterns s) -> channel <> [] ->
  is_Some (pubsubPublishMessage channel message s).
Proof.
  intros Hp Hc. unfold pubsubPublishMessage. rewrite counting_deliver. cbn [mbind option_bind].
  assert (H : forall l s n, Forall (fun p : Z * bytes => pattern_ok p.2) l ->
    is_Some (counting (V := V) (deliver_matching channel message) l s n)).
  { induction l as [|p l IH]; intros s1 n; [by eexists|]. intros [Hp1 Hl]%Forall_cons. cbn [counting].
    unfold deliver_matching at 2. destruct (match_cases channel p.2 Hp1 Hc) as [[_ ->]|[_ ->]]; cbn; by apply IH. }
  apply H. destruct (tell_all_rest ((fun c => (c, message_text channel message)) <$> default [] (s_channels s !! channel)) s) as [cs ->].
  done.
Qed.

(** C3: Whatever connections, requests and disconnections are served, the channels
    and patterns each client lists and the tables of the server stay in agreement,
    so afterwards no subscription command of a connected client fails an assertion
    or follows a null pointer; and a message published then reaches every client
    of the channel once, and once for each of its own patterns that matches as a
    glob, in their order, and nobody else, and the count returned is the number of
    messages sent. *)
Theorem subscriptions_agree P E (l : list input) (s s' : server) :
  consistent s.2 -> serve_all P E l s = Some (tt, s') ->
  consistent s'.2 /\
  (forall c p args, is_Some (s_clients s'.2 !! c) -> subscription_proc p = true ->
     is_Some (pubsub_command p c args s'.2)) /\
  (forall channel message, Forall (fun p => pattern_ok p.2) (s_patterns s'.2) -> channel <> [] ->
     exists st n, pubsubPublishMessage channel message s'.2 = Some (st, n) /\
     (forall c, s_clients st !! c = (fun cl => say (messages channel message cl) cl) <$> s_clients s'.2 !! c) /\
     n = zlen (subscribers channel s'.2) + zlen (filter (fun p => accepts channel p.2) (s_patterns s'.2)) /\
     (forall p, p ∈ (s_patterns s'.2).*2 -> accepts channel p <-> glob false p channel)).
Proof.
  intros H Hrun. pose proof (serve_all_agrees P E l s tt s' Hrun H) as H'. split; [done|]. split.
  - intros c p args Hc Hp. destruct (subscription_total c p args _ H' Hc Hp) as (st & -> & _). by eexists.
  - intros channel message Hp Hc. destruct (publish_total channel message _ Hp Hc) as [[st n] Hpub].
    exists st, n. split; [done|]. destruct (publish_exact channel message _ st n H' Hpub) as (Hcl & Hn & _).
    split; [done|]. split; [done|]. intros p ([q x] & -> & Hin)%list_elem_of_fmap.
    apply accepts_glob; [|done]. by apply (proj1 (Forall_forall _ _) Hp (q, x)).
Qed.

(** Client 5 listens to a channel, client 6 to two patterns, and client 5 leaves a
    channel again. *)
Definition a_broadcast : list input :=
  [Connect 5; Connect 6; Request 5 (words ["subscribe"; "news"; "talk"]);
   Request 6 (words ["psubscribe"; "n?ws"; "[a-m]*"]); Request 5 (words ["unsubscribe"; "talk"])]%string.

Lemma a_broadcast_runs :
  option_map (fun a => (s_channels a !! bytes_of "news", s_channels a !! bytes_of "talk", s_patterns a))
    (spec_serve_all a_config a_broadcast (abs a_platform (list_to_map a_heap, a_state))) =
  Some (Some [5], None, [(6, bytes_of "n?ws"); (6, bytes_of "[a-m]*")]).
Proof. vm_compute. reflexivity. Qed.

Lemma subscriptions_agree_witness : exists s' st,
  serve_all a_platform a_config a_broadcast a_server = Some (tt, s') /\ consistent s'.2 /\
  pubsubPublishMessage (bytes_of "news") (bytes_of "hi") s'.2 = Some (st, 2).
Proof.
  pose proof a_broadcast_runs as H. rewrite <- abs_start in H by a_roots.
  destruct (spec_serve_all _ _ _) as [a'|] eqn:Es; [|done]. injection H as Hn Ht Hp.
  destruct (serve_all_runs a_platform a_config a_broadcast a_server a' a_server_wf Es) as ([] & s' & Hrun & _ & Ha).
  rewrite <- Ha in Hn, Hp. change (s_channels s'.2 !! bytes_of "news" = Some [5]) in Hn.
  change (s_patterns s'.2 = [(6, bytes_of "n?ws"); (6, bytes_of "[a-m]*")]) in Hp.
  assert (H0 : consistent a_server.2).
  { apply consistent_empty; [done|done|]. intros c cl Hc. cbn in Hc.
    apply lookup_insert_Some in Hc as [[_ <-]|[_ Hc]]; [done|]. by apply lookup_singleton_Some in Hc as [_ <-]. }
  destruct (subscriptions_agree a_platform a_config a_broadcast a_server s' H0 Hrun) as (H' & _ & Hpub).
  destruct (Hpub (bytes_of "news") (bytes_of "hi")) as (st & n & E & _ & En & _).
  - rewrite Hp. repeat constructor; by_decide.
  - done.
  - exists s', st. split; [exact Hrun|]. split; [exact H'|]. rewrite E, En, Hp. unfold subscribers. rewrite Hn.
    vm_compute. reflexivity.
Defined.
