(* ===== verification/Values.v ===== *)
(** Values as snapshots see them: string objects under their encodings, and the
    lists, sets and hashes with their small and their large representation.
    Here are the conversions between the two (t_list.c, t_set.c, t_hash.c), the
    content a value stands for, and that conversions keep it.

    Objects are values here, without their addresses and reference counts, which
    [Object] and [ServerRep] are about.  A linked list is the list of its values
    ([Adlist.adlist_refines_list]), a dictionary a finite map from the text of the
    keys ([Dict.dict_refines_map]).  Sorted sets are left out, as their scores are
    floating-point numbers. *)
From stdpp Require Import gmap list strings.
From S2P Require Import Prelude Util Sds SdsText Intset Ziplist ZiplistRep ZiplistSpec ZiplistProps Object.
Local Open Scope c_scope.

Notation bytes := (list Z).

(** ** Strings *)

(** [REDIS_ENCODING_INT], or an sds of its own or embedded. *)
Inductive strobj := SInt (v : Z) | SSds (bs : bytes).

Definition sdsEncoded (o : strobj) : bool := match o with SSds _ => true | SInt _ => false end.

Section Strings.
Context (junk : nat -> Z).

Definition createStringObjectFromLongLong (value : Z) : strobj :=
  if (0 <=? value) && (value <? REDIS_SHARED_INTEGERS) then SInt value
  else if (LLONG_MIN <=? value) && (value <=? LLONG_MAX) then SInt value
  else SSds (sdec value).

(** The object is not shared: it has just been created. *)
Definition tryObjectEncoding (o : strobj) : option strobj :=
  match o with
  | SInt _ => Some o
  | SSds bs =>
      if zlen bs <=? 21 then
        '(ok, value) ← string2l bs (zlen bs);
        if ok =? 0 then Some o else v ← value; Some (SInt v)
      else Some o
  end.

(** [getDecodedObject(o)->ptr]. *)
Definition decoded (o : strobj) : option bytes :=
  match o with
  | SSds bs => Some bs
  | SInt v =>
      '(_, buf) ← ll2string (local_buf junk 32) 32 v;
      n ← strlen buf; mem_read buf 0 n
  end.

Definition isObjectRepresentableAsLongLong (o : strobj) : option (option Z) :=
  match o with
  | SInt v => Some (Some v)
  | SSds bs => '(ok, v) ← string2ll bs (zlen bs); Some (if ok =? 0 then None else v)
  end.

(** The bytes an object stands for. *)
Definition text (o : strobj) : bytes := match o with SInt v => sdec v | SSds bs => bs end.

(** ** Values *)

Inductive value :=
  | VString (o : strobj)
  | VListZiplist (zl : bytes) | VLinkedList (l : list strobj)
  | VIntset (s : intset) | VSetTable (m : gmap bytes strobj)
  | VHashZiplist (zl : bytes) | VHashTable (m : gmap bytes (strobj * strobj)).

(** [dictAdd]; [None] is [DICT_ERR]. *)
Definition dictAdd {V} (m : gmap bytes V) (k : strobj) (v : V) : option (gmap bytes V) :=
  match m !! text k with None => Some (<[text k := v]> m) | Some _ => None end.

(** ** Conversions *)

(** The object of an entry: [listTypeGet] and [hashTypeCurrentObject]. *)
Definition entry_object (zl : bytes) (p : Z) : option strobj :=
  r ← ziplistGet zl (Some p);
  v ← r;
  match v with
  | ZStr sstr slen => bs ← mem_read zl sstr slen; Some (SSds bs)
  | ZInt n => Some (createStringObjectFromLongLong n)
  end.

(** [while (listTypeNext(li,&entry)) listAddNodeTail(l,listTypeGet(&entry));] *)
Fixpoint list_loop (fuel : nat) (zl : bytes) (zi : option Z) (l : list strobj) : option (list strobj) :=
  match fuel with
  | O => None
  | S fuel =>
      match zi with
      | None => Some l
      | Some p => next ← ziplistNext zl p; o ← entry_object zl p; list_loop fuel zl next (l ++ [o])
      end
  end.
Definition listTypeConvert (zl : bytes) : option value :=
  zi ← ziplistIndex zl 0;
  l ← list_loop (S (length zl)) zl zi [];
  Some (VLinkedList l).

(** [while (setTypeNext(si,NULL,&intele) != -1) ...]; the element must be new. *)
Fixpoint set_loop (fuel : nat) (s : intset) (ii : Z) (m : gmap bytes strobj) : option (gmap bytes strobj) :=
  match fuel with
  | O => None
  | S fuel =>
      '(found, intele) ← intsetGet s ii;
      if found =? 0 then Some m
      else
        n ← intele;
        let element := createStringObjectFromLongLong n in
        m ← dictAdd m element element;
        set_loop fuel s (ii +[32] 1) m
  end.
Definition setTypeConvert (s : intset) : option value :=
  m ← set_loop (S (Z.to_nat (intsetLen s))) s 0 ∅; Some (VSetTable m).

(** [while (hashTypeNext(hi) != REDIS_ERR) ...]: [fptr] is the next field, and
    the assertions that a value follows and that the field is new. *)
Fixpoint hash_loop (fuel : nat) (zl : bytes) (fptr : option Z) (m : gmap bytes (strobj * strobj))
    : option (gmap bytes (strobj * strobj)) :=
  match fuel with
  | O => None
  | S fuel =>
      match fptr with
      | None => Some m
      | Some f =>
          vptr ← ziplistNext zl f;
          v ← vptr;
          field ← entry_object zl f; field ← tryObjectEncoding field;
          val ← entry_object zl v; val ← tryObjectEncoding val;
          m ← dictAdd m field (field, val);
          fptr ← ziplistNext zl v;
          hash_loop fuel zl fptr m
      end
  end.
Definition hashTypeConvert (zl : bytes) : option value :=
  fptr ← ziplistIndex zl 0;
  m ← hash_loop (S (length zl)) zl fptr ∅;
  Some (VHashTable m).

(** [hashTypeLength] of a ziplist, which [ziplistLen] may write to. *)
Definition hashTypeLength (zl : bytes) : option (Z * bytes) :=
  '(n, zl) ← ziplistLen zl; Some (n / 2, zl).
End Strings.

(** ** What a value stands for *)

Inductive content :=
  | CString (bs : bytes) | CList (l : list bytes) | CSet (X : gset bytes) | CHash (m : gmap bytes bytes).

Definition max_text : Z := 512 * 1024 * 1024.

(** A string of bytes that fits a string object. *)
Definition text_ok (bs : bytes) : Prop := bytes_ok bs /\ zlen bs <= max_text.
Definition str_ok (o : strobj) : Prop :=
  match o with SInt v => in_s 64 v | SSds bs => text_ok bs end.
Global Instance text_ok_dec bs : Decision (text_ok bs).
Proof. unfold text_ok, bytes_ok. apply _. Defined.
Global Instance str_ok_dec o : Decision (str_ok o).
Proof. destruct o; apply _. Defined.

(** The fields and values of a hash, in turn. *)
Definition flat (kvs : list (bytes * bytes)) : list bytes := concat ((fun p => [p.1; p.2]) <$> kvs).

Inductive holds : value -> content -> Prop :=
  | holds_string o : str_ok o -> holds (VString o) (CString (text o))
  | holds_list l : Forall str_ok l -> holds (VLinkedList l) (CList (text <$> l))
  | holds_list_ziplist zl l : zrep zl l -> Forall text_ok (ze_data <$> l) ->
      holds (VListZiplist zl) (CList (ze_data <$> l))
  | holds_set m : map_Forall (fun k o => text o = k /\ str_ok o) m -> holds (VSetTable m) (CSet (dom m))
  | holds_intset s xs : irep s xs -> fits xs -> holds (VIntset s) (CSet (list_to_set (sdec <$> xs)))
  | holds_hash m : map_Forall (fun k p => text p.1 = k /\ str_ok p.1 /\ str_ok p.2) m ->
      holds (VHashTable m) (CHash (text ∘ snd <$> m))
  | holds_hash_ziplist zl l kvs : zrep zl l -> Forall text_ok (ze_data <$> l) ->
      ze_data <$> l = flat kvs -> NoDup kvs.*1 -> holds (VHashZiplist zl) (CHash (list_to_map kvs)).

(** The count a snapshot writes of a value in a large representation. *)
Definition content_size (c : content) : Z :=
  match c with
  | CString _ => 0 | CList l => zlen l | CSet X => Z.of_nat (size X) | CHash m => Z.of_nat (size m)
  end.

(** ** Strings under their encodings *)

Lemma sdec_ok v : in_s 64 v -> text_ok (sdec v).
Proof.
  intros Hv. split; [|pose proof (sdec_zlen v Hv); unfold max_text; lia].
  destruct (sdec_parts v Hv) as (u & neg & _ & Hu & Hneg & ->).
  apply Forall_app. split; [destruct Hneg as [-> | ->]; by_decide|].
  eapply Forall_impl; [apply dec_digits; [lia|cint]|]. unfold digit, byte_ok. lia.
Qed.
Lemma text_str_ok o : str_ok o -> text_ok (text o).
Proof. destruct o as [v|bs]; cbn; [apply sdec_ok|done]. Qed.
Lemma text_length o : str_ok o -> zlen (text o) <= max_text.
Proof. intros H. apply (text_str_ok o H). Qed.

Lemma long_object v : in_s 64 v -> createStringObjectFromLongLong v = SInt v.
Proof.
  intros Hv. unfold createStringObjectFromLongLong, LLONG_MIN, LLONG_MAX. destruct (_ && _); [done|].
  destruct (Z.leb_spec (- 2 ^ 63) v); [|cint]. destruct (Z.leb_spec v (2 ^ 63 - 1)); [done|cint].
Qed.

Lemma tryObjectEncoding_text o : str_ok o -> exists o', tryObjectEncoding o = Some o' /\ text o' = text o /\ str_ok o'.
Proof.
  intros Ho. destruct o as [v|bs]; [by exists (SInt v)|]. cbn. destruct (zlen bs <=? 21); [|by exists (SSds bs)].
  unfold string2l. destruct (string2ll_spec bs) as [(v & Hv & -> & ->)|[_ ->]]; step; cbn [Z.eqb]; step.
  - unfold LLONG_MIN, LLONG_MAX. destruct (Z.ltb_spec v (- 2 ^ 63)); [cint|].
    destruct (Z.ltb_spec (2 ^ 63 - 1) v); [cint|]. cbn [orb Z.eqb]. by exists (SInt v).
  - by exists (SSds bs).
Qed.

Lemma decoded_text junk o : str_ok o -> decoded junk o = Some (text o).
Proof.
  destruct o as [v|bs]; [|done]. intros Hv. cbn in Hv |- *.
  destruct (print_long junk 32 v Hv ltac:(lia)) as [k ->]. step.
  rewrite strlen_spec by by apply sdec_chars. step. by apply mem_read_prefix.
Qed.

Lemma representable_text o : str_ok o ->
  (exists v, in_s 64 v /\ text o = sdec v /\ isObjectRepresentableAsLongLong o = Some (Some v)) \/
  ((forall v, in_s 64 v -> text o <> sdec v) /\ isObjectRepresentableAsLongLong o = Some None).
Proof.
  destruct o as [v|bs]; cbn; intros Ho; [left; by exists v|].
  destruct (string2ll_spec bs) as [(v & Hv & -> & ->)|[Hn ->]]; step; [left; by exists v|by right].
Qed.

(** ** Entries of a ziplist *)

Lemma long_object_text n : text_ok (sdec n) ->
  text (createStringObjectFromLongLong n) = sdec n /\ str_ok (createStringObjectFromLongLong n).
Proof.
  intros Hn. unfold createStringObjectFromLongLong, LLONG_MIN, LLONG_MAX, REDIS_SHARED_INTEGERS.
  destruct ((0 <=? n) && (n <? 10000)) eqn:E1; [split; [done|]; cbn; cint|].
  destruct ((- 2 ^ 63 <=? n) && (n <=? 2 ^ 63 - 1)) eqn:E2; [split; [done|]; cbn; cint|done].
Qed.

Lemma entry_object_spec zl l k s : zrep zl l -> (ze_data <$> l) !! k = Some s -> text_ok s ->
  exists o, entry_object zl (offset l k) = Some o /\ text o = s /\ str_ok o.
Proof.
  intros Hr Hk Hs. pose proof (ziplist_reads zl l Hr) as (_ & H & _).
  destruct (H k s Hk) as (_ & _ & (v & Ev & Hv) & _). unfold entry_object. rewrite Ev. step.
  destruct v as [p n|n]; cbn in Hv.
  - rewrite Hv. step. by exists (SSds s).
  - injection Hv as <-. exists (createStringObjectFromLongLong n). split; [done|]. by apply long_object_text.
Qed.

Lemma next_entry zl l k s : zrep zl l -> (ze_data <$> l) !! k = Some s ->
  ziplistNext zl (offset l k) = Some (if decide (S k < length l)%nat then Some (offset l (S k)) else None).
Proof.
  intros Hr Hk. pose proof (ziplist_reads zl l Hr) as (_ & H & _). destruct (H k s Hk) as (E & _).
  by rewrite length_fmap in E.
Qed.

(** The cursor on entry [k], past the last one NULL. *)
Definition cursor (l : list zent) (k : nat) : option Z :=
  if decide (k < length l)%nat then Some (offset l k) else None.
Lemma first_entry zl l : zrep zl l -> ziplistIndex zl 0 = Some (cursor l 0).
Proof.
  intros Hr. pose proof (ziplist_reads zl l Hr) as (H & _). rewrite H by lia. unfold index_pos, cursor.
  rewrite zlen_fmap. cbn [Z.leb Z.compare]. unfold zlen. case_decide; destruct (Z.ltb_spec 0 (Z.of_nat (length l))); try done; lia.
Qed.
Lemma zrep_fuel zl l : zrep zl l -> (length l < S (length zl))%nat.
Proof. intros [c -> _ _ _ _]. apply zblock_fuel. Qed.

(** ** The conversions keep the content *)

Lemma list_loop_spec zl l : zrep zl l -> Forall text_ok (ze_data <$> l) -> forall fuel k acc,
  (length l - k < fuel)%nat -> Forall str_ok acc -> exists l', list_loop fuel zl (cursor l k) acc = Some l' /\
    Forall str_ok l' /\ text <$> l' = (text <$> acc) ++ drop k (ze_data <$> l).
Proof.
  intros Hr Hok. induction fuel as [|fuel IH]; intros k acc Hf Hacc; [lia|]. cbn [list_loop].
  unfold cursor at 1. case_decide as Hk.
  - destruct (lookup_lt_is_Some_2 (ze_data <$> l) k ltac:(by rewrite length_fmap)) as [s Hs].
    rewrite (next_entry zl l k s Hr Hs). step. fold (cursor l (S k)).
    destruct (entry_object_spec zl l k s Hr Hs) as (o & -> & Ho & Hok'); [by eapply Forall_lookup_1|]. step.
    destruct (IH (S k) (acc ++ [o])) as (l' & -> & Hl & Ht); [lia|by apply Forall_app; split; [|constructor]|].
    exists l'. split; [done|]. split; [done|]. rewrite Ht, fmap_app, <- app_assoc, (drop_S _ _ _ Hs). cbn. by rewrite Ho.
  - exists acc. split; [done|]. split; [done|]. rewrite drop_ge by (rewrite length_fmap; lia). by rewrite app_nil_r.
Qed.

Lemma listTypeConvert_spec zl c : holds (VListZiplist zl) c ->
  exists v, listTypeConvert zl = Some (VLinkedList v) /\ holds (VLinkedList v) c.
Proof.
  inversion 1 as [| |? l Hr Hok| | | |]; subst. unfold listTypeConvert. rewrite (first_entry zl l Hr). step.
  pose proof (zrep_fuel zl l Hr).
  destruct (list_loop_spec zl l Hr Hok (S (length zl)) 0 []) as (l' & -> & Hl & Ht); [lia|done|]. step.
  exists l'. split; [done|]. cbn in Ht. rewrite drop_0 in Ht. rewrite <- Ht. by constructor.
Qed.

Lemma dictAdd_new {V} (m : gmap bytes V) k v : m !! text k = None -> dictAdd m k v = Some (<[text k := v]> m).
Proof. intros H. unfold dictAdd. by rewrite H. Qed.

Lemma setTypeConvert_loop s xs : irep s xs -> fits xs -> forall fuel k m, (length xs - k < fuel)%nat -> (k <= length xs)%nat ->
  map_Forall (fun t o => text o = t /\ str_ok o) m -> dom m = list_to_set (sdec <$> take k xs) ->
  exists m', set_loop fuel s (Z.of_nat k) m = Some m' /\
    map_Forall (fun t o => text o = t /\ str_ok o) m' /\ dom m' = list_to_set (sdec <$> xs).
Proof.
  intros Hr Hf. pose proof (fits_len xs Hf) as Hl.
  assert (Hin : Forall (in_s 64) xs).
  { eapply Forall_impl; [apply (irep_range _ _ Hr)|]. intros x Hx. destruct (irep_enc _ _ Hr) as [E|[E|E]]; rewrite E in Hx; cint. }
  induction fuel as [|fuel IH]; intros k m Hfuel Hk Hm Hd; [lia|]. cbn [set_loop].
  assert (Hpos : in_u 32 (Z.of_nat k)) by (unfold zlen in Hl; cint).
  destruct (intset_reads s xs (Z.of_nat k) 0 Hr Hf Hpos) as (_ & Hnd & _ & -> & _). rewrite znth_nat.
  destruct (xs !! k) as [x|] eqn:Ex; step; cbn [Z.eqb]; step.
  - assert (Hx : in_s 64 x) by (by eapply Forall_lookup_1 in Hin). rewrite (long_object x Hx).
    pose proof (lookup_lt_Some _ _ _ Ex). rewrite dictAdd_new; step.
    + rewrite wrap_small by (unfold zlen in Hl; cint). replace (Z.of_nat k + 1) with (Z.of_nat (S k)) by lia.
      apply IH; [lia|lia|by apply map_Forall_insert_2|].
      rewrite dom_insert_L, Hd, (take_S_r _ _ _ Ex), fmap_app, list_to_set_app_L. cbn. set_solver.
    + cbn [text]. apply not_elem_of_dom. rewrite Hd, elem_of_list_to_set, list_elem_of_fmap.
      intros (y & Hy & Hyin). apply list_elem_of_lookup in Hyin as [j Hj]. apply lookup_take_Some in Hj as [Hj Hlt].
      assert (in_s 64 y) by (by eapply Forall_lookup_1 in Hin). apply sdec_inj in Hy; [|done|done]. subst y.
      pose proof (NoDup_lookup xs j k x Hnd Hj Ex). lia.
  - exists m. split; [done|]. split; [done|]. apply lookup_ge_None in Ex. by rewrite Hd, take_ge.
Qed.

Lemma setTypeConvert_spec s c : holds (VIntset s) c ->
  exists m, setTypeConvert s = Some (VSetTable m) /\ holds (VSetTable m) c.
Proof.
  inversion 1 as [| | | |? xs Hr Hf| |]; subst. unfold setTypeConvert, intsetLen. rewrite (irep_len _ _ Hr).
  destruct (setTypeConvert_loop s xs Hr Hf (S (Z.to_nat (zlen xs))) 0 ∅) as (m & E & Hm & Hd);
    [unfold zlen; lia|lia|apply map_Forall_empty|done|].
  change (Z.of_nat 0) with 0 in E. rewrite E. step. exists m. split; [done|]. rewrite <- Hd. by constructor.
Qed.

Lemma flat_lookup kvs j f v : kvs !! j = Some (f, v) ->
  flat kvs !! (2 * j)%nat = Some f /\ flat kvs !! S (2 * j) = Some v.
Proof.
  revert j. induction kvs as [|p kvs IH]; intros [|j] Hj; try done; cbn in Hj.
  - injection Hj as ->. done.
  - replace (2 * S j)%nat with (S (S (2 * j))) by lia. by apply IH.
Qed.
Lemma flat_length kvs : length (flat kvs) = (2 * length kvs)%nat.
Proof. unfold flat. induction kvs as [|p kvs IH]; [done|]. cbn in *. lia. Qed.

Definition pairs_ok (m : gmap bytes (strobj * strobj)) : Prop :=
  map_Forall (fun k p => text p.1 = k /\ str_ok p.1 /\ str_ok p.2) m.

Lemma encoded_entry zl l k s : zrep zl l -> Forall text_ok (ze_data <$> l) -> (ze_data <$> l) !! k = Some s ->
  exists o o', entry_object zl (offset l k) = Some o /\ tryObjectEncoding o = Some o' /\ text o' = s /\ str_ok o'.
Proof.
  intros Hr Hok Hk. destruct (entry_object_spec zl l k s Hr Hk) as (o & E & Ho & Hs); [by eapply Forall_lookup_1|].
  destruct (tryObjectEncoding_text o Hs) as (o' & E' & Ht & Hs'). exists o, o'. by rewrite Ht.
Qed.

Lemma hash_loop_spec zl l kvs : zrep zl l -> Forall text_ok (ze_data <$> l) -> ze_data <$> l = flat kvs ->
  NoDup kvs.*1 -> forall fuel j m, (length kvs - j < fuel)%nat -> (j <= length kvs)%nat ->
  pairs_ok m -> text ∘ snd <$> m = list_to_map (take j kvs) ->
  exists m', hash_loop fuel zl (cursor l (2 * j)) m = Some m' /\ pairs_ok m' /\ text ∘ snd <$> m' = list_to_map kvs.
Proof.
  intros Hr Hok Hd Hnd. assert (Hlen : length l = (2 * length kvs)%nat).
  { by rewrite <- flat_length, <- Hd, length_fmap. }
  induction fuel as [|fuel IH]; intros j m Hf Hj Hm Hmap; [lia|]. cbn [hash_loop].
  unfold cursor at 1. case_decide as Hk.
  - destruct (lookup_lt_is_Some_2 kvs j ltac:(lia)) as [[f v] Hfv].
    destruct (flat_lookup kvs j f v Hfv) as [Ef Ev]. rewrite <- Hd in Ef, Ev.
    rewrite (next_entry zl l _ f Hr Ef), decide_True by lia. step.
    destruct (encoded_entry zl l _ f Hr Hok Ef) as (fo & fo' & -> & E1 & Hft & Hfo). step. rewrite E1. step.
    destruct (encoded_entry zl l _ v Hr Hok Ev) as (vo & vo' & -> & E2 & Hvt & Hvo). step. rewrite E2. step.
    assert (Hnew : list_to_map (M := gmap bytes bytes) (take j kvs) !! f = None).
    { apply not_elem_of_list_to_map_1. intros Hin. apply list_elem_of_fmap in Hin as ([f' v'] & Ef' & Hin).
      cbn in Ef'. subst f'. apply list_elem_of_lookup in Hin as [i Hi]. apply lookup_take_Some in Hi as [Hi Hlt].
      assert (Ei : kvs.*1 !! i = Some f) by by rewrite list_lookup_fmap, Hi.
      assert (Ej : kvs.*1 !! j = Some f) by by rewrite list_lookup_fmap, Hfv.
      pose proof (NoDup_lookup _ _ _ _ Hnd Ei Ej). lia. }
    rewrite dictAdd_new by (rewrite Hft; rewrite <- Hmap, lookup_fmap in Hnew; by destruct (m !! f)). step.
    rewrite (next_entry zl l _ v Hr Ev). step. replace (S (S (2 * j))) with (2 * S j)%nat by lia.
    fold (cursor l (2 * S j)). apply IH; [lia|lia| |].
    + apply map_Forall_insert_2; [done|done].
    + rewrite fmap_insert, Hmap, (take_S_r _ _ _ Hfv), Hft. cbn. rewrite Hvt. symmetry. apply list_to_map_snoc.
      by apply not_elem_of_list_to_map.
  - exists m. split; [done|]. split; [done|]. by rewrite Hmap, take_ge by lia.
Qed.

Lemma hashTypeConvert_spec zl c : holds (VHashZiplist zl) c ->
  exists m, hashTypeConvert zl = Some (VHashTable m) /\ holds (VHashTable m) c.
Proof.
  inversion 1 as [| | | | | |? l kvs Hr Hok Hd Hnd]; subst. unfold hashTypeConvert.
  rewrite (first_entry zl l Hr). step. pose proof (zrep_fuel zl l Hr).
  assert (length l = (2 * length kvs)%nat) by by rewrite <- flat_length, <- Hd, length_fmap.
  destruct (hash_loop_spec zl l kvs Hr Hok Hd Hnd (S (length zl)) 0 ∅) as (m & E & Hm & Hmap);
    [lia|lia|apply map_Forall_empty|by rewrite fmap_empty|].
  change (2 * 0)%nat with 0%nat in E. rewrite E. step. exists m. split; [done|]. rewrite <- Hmap. by constructor.
Qed.
