(* ===== verification/Rdb.v ===== *)
(** Snapshots: [src/redis-3.0.0/src/rdb.c] over the streams of rio.c and rio.h.

    A stream has the bytes still to be read, the bytes written and the checksum.
    A function of rdb.c is a computation over a stream that yields a value, fails
    (the values -1, NULL and REDIS_RDB_LENERR, which every caller hands on), or
    goes wrong (a panic, a failed assertion, an access outside a block).

    The settings of the server and what the C program leaves open (uninitialised
    memory, the order of iteration of a dictionary) are a [config], the answers of
    the operating system a [system].  Not modelled: sorted sets (their scores are
    floating-point), zipmaps, background saving, the events served while loading. *)
From stdpp Require Import gmap list strings.
From S2P Require Import Prelude Util Sds SdsText Intset Ziplist Crc Lzf Object Server Values.
Local Open Scope c_scope.

Record config := mkConfig {
  rdb_checksum : bool; rdb_compression : bool;
  list_max_ziplist_entries : Z; list_max_ziplist_value : Z; set_max_intset_entries : Z;
  hash_max_ziplist_entries : Z; hash_max_ziplist_value : Z;
  loading_process_events_interval_bytes : Z; masterhost : bool;
  junk : nat -> Z; stack : Z -> Z;
  iterate : forall A, gmap bytes A -> list (bytes * A) }.

(** Whether the system carries out an operation on a file; [fwrite] depends on the
    offset and the count. *)
Record system := mkSystem {
  fopen_ok : bool; fwrite_ok : Z -> Z -> bool; fflush_ok : bool; fsync_ok : bool;
  fclose_ok : bool; rename_ok : bool }.

(** ** Streams *)

Record rio := mkRio { r_in : bytes; r_out : bytes; r_cksum : Z }.

Definition IO (A : Type) : Type := rio -> option (option (A * rio)).
Global Instance IO_ret : MRet IO := fun A a r => Some (Some (a, r)).
Global Instance IO_bind : MBind IO := fun A B k m r =>
  x ← m r; match x with Some (a, r) => k a r | None => Some None end.
Definition throw {A} : IO A := fun _ => Some None.
Definition fail {A} : IO A := fun _ => None.
(** [rdb->cksum] *)
Definition get_cksum : IO Z := fun r => Some (Some (r_cksum r, r)).
Definition opt {A} (x : option A) : IO A := fun r => a ← x; Some (Some (a, r)).
Definition assert (b : bool) : IO unit := if b then mret tt else fail.

Section Rdb.
Context (C : config) (S : system).

(** [rioGenericUpdateChecksum], installed when checksums are computed. *)
Definition update_cksum (buf : bytes) : IO unit := fun r =>
  if rdb_checksum C then
    c ← crc64 (r_cksum r) buf (zlen buf); Some (Some (tt, mkRio (r_in r) (r_out r) c))
  else Some (Some (tt, r)).

(** The stream of a snapshot has no [autosync]. *)
Definition rioFileWrite (buf : bytes) : IO unit := fun r =>
  if fwrite_ok S (zlen (r_out r)) (zlen buf)
  then Some (Some (tt, mkRio (r_in r) (r_out r ++ buf) (r_cksum r))) else Some None.
Definition rioFileRead (len : Z) : IO bytes := fun r =>
  if len <=? zlen (r_in r)
  then Some (Some (take (Z.to_nat len) (r_in r), mkRio (drop (Z.to_nat len) (r_in r)) (r_out r) (r_cksum r)))
  else Some None.

(** [(r->max_processing_chunk && r->max_processing_chunk < len) ? ... : len] *)
Definition chunk (max_processing_chunk len : Z) : Z :=
  if negb (max_processing_chunk =? 0) && (max_processing_chunk <? len) then max_processing_chunk else len.

(** A file that is written has no greatest chunk. *)
Fixpoint write_loop (fuel : nat) (buf : bytes) : IO unit :=
  match fuel with
  | O => fail
  | Datatypes.S fuel =>
      if zlen buf =? 0 then mret tt
      else
        let n := chunk 0 (zlen buf) in
        update_cksum (take (Z.to_nat n) buf);;
        rioFileWrite (take (Z.to_nat n) buf);;
        write_loop fuel (drop (Z.to_nat n) buf)
  end.
Definition rioWrite (buf : bytes) : IO unit := write_loop (Datatypes.S (length buf)) buf.

Fixpoint read_loop (fuel : nat) (len : Z) : IO bytes :=
  match fuel with
  | O => fail
  | Datatypes.S fuel =>
      if len =? 0 then mret []
      else
        let n := chunk (u64 (loading_process_events_interval_bytes C)) len in
        buf ← rioFileRead n; update_cksum buf;;
        rest ← read_loop fuel (len - n);
        mret (buf ++ rest)
  end.
Definition rioRead (len : Z) : IO bytes := read_loop (Datatypes.S (Z.to_nat len)) len.

(** ** Types, times and lengths *)

(** The count is returned as an [int]; -1 is the failure. *)
Definition rdbWriteRaw (p : bytes) : IO Z :=
  rioWrite p;;
  let n := s32 (zlen p) in if n =? -1 then throw else mret n.
(** [nwritten += n] *)
Definition plus (nwritten n : Z) : IO Z := opt (int_ok (nwritten + n)).

Definition REDIS_RDB_VERSION : Z := 6.
Definition REDIS_RDB_6BITLEN : Z := 0.
Definition REDIS_RDB_14BITLEN : Z := 1.
Definition REDIS_RDB_32BITLEN : Z := 2.
Definition REDIS_RDB_ENCVAL : Z := 3.
Definition REDIS_RDB_LENERR : Z := 2 ^ 32 - 1.
Definition REDIS_RDB_ENC_INT8 : Z := 0.
Definition REDIS_RDB_ENC_INT16 : Z := 1.
Definition REDIS_RDB_ENC_INT32 : Z := 2.
Definition REDIS_RDB_ENC_LZF : Z := 3.
Definition REDIS_RDB_TYPE_STRING : Z := 0.
Definition REDIS_RDB_TYPE_LIST : Z := 1.
Definition REDIS_RDB_TYPE_SET : Z := 2.
Definition REDIS_RDB_TYPE_HASH : Z := 4.
Definition REDIS_RDB_TYPE_LIST_ZIPLIST : Z := 10.
Definition REDIS_RDB_TYPE_SET_INTSET : Z := 11.
Definition REDIS_RDB_TYPE_HASH_ZIPLIST : Z := 13.
Definition REDIS_RDB_OPCODE_EXPIRETIME_MS : Z := 252.
Definition REDIS_RDB_OPCODE_EXPIRETIME : Z := 253.
Definition REDIS_RDB_OPCODE_SELECTDB : Z := 254.
Definition REDIS_RDB_OPCODE_EOF : Z := 255.

Definition rdbSaveType (type : Z) : IO Z := rdbWriteRaw [u8 type].
Definition byte_at (buf : bytes) (i : Z) : IO Z := opt (znth buf i).
Definition rdbLoadType : IO Z := buf ← rioRead 1; byte_at buf 0.
Definition rdbLoadTime : IO Z := t32 ← rioRead 4; mret (s32 (le_decode t32)).
Definition rdbSaveMillisecondTime (t : Z) : IO Z := rdbWriteRaw (le_encode 8 t).
Definition rdbLoadMillisecondTime : IO Z := t64 ← rioRead 8; mret (s64 (le_decode t64)).

(** The parameter is a [uint32_t]; [htonl] puts the high byte first. *)
Definition rdbSaveLen (len : Z) : IO Z :=
  let len := u32 len in
  if len <? Z.shiftl 1 6 then
    rdbWriteRaw [u8 ((len .& 0xFF) .| Z.shiftl REDIS_RDB_6BITLEN 6)];; mret 1
  else if len <? Z.shiftl 1 14 then
    rdbWriteRaw [u8 (((len >> 8) .& 0xFF) .| Z.shiftl REDIS_RDB_14BITLEN 6); len .& 0xFF];; mret 2
  else
    rdbWriteRaw [u8 (Z.shiftl REDIS_RDB_32BITLEN 6)];;
    rdbWriteRaw (reverse (le_encode 4 len));;
    mret (1 + 4).

(** The result is [*isencoded] and the length. *)
Definition rdbLoadLen : IO (bool * Z) :=
  buf ← rioRead 1; b ← byte_at buf 0;
  let type := (b .& 0xC0) >> 6 in
  if type =? REDIS_RDB_ENCVAL then mret (true, b .& 0x3F)
  else if type =? REDIS_RDB_6BITLEN then mret (false, b .& 0x3F)
  else if type =? REDIS_RDB_14BITLEN then
    buf ← rioRead 1; b1 ← byte_at buf 0;
    mret (false, Z.shiftl (b .& 0x3F) 8 .| b1)
  else
    buf ← rioRead 4;
    let len := le_decode (reverse buf) in
    if len =? REDIS_RDB_LENERR then throw else mret (false, len).
(** [rdbLoadLen(rdb,NULL)] *)
Definition rdbLoadLen_plain : IO Z := '(_, len) ← rdbLoadLen; mret len.

(** ** Strings *)

(** The bytes of [enc], none when the value is not encoded. *)
Definition rdbEncodeInteger (value : Z) : bytes :=
  let encval t := u8 (Z.shiftl REDIS_RDB_ENCVAL 6 .| t) in
  if (- Z.shiftl 1 7 <=? value) && (value <=? Z.shiftl 1 7 - 1) then
    [encval REDIS_RDB_ENC_INT8; value .& 0xFF]
  else if (- Z.shiftl 1 15 <=? value) && (value <=? Z.shiftl 1 15 - 1) then
    [encval REDIS_RDB_ENC_INT16; value .& 0xFF; (value >> 8) .& 0xFF]
  else if (- Z.shiftl 1 31 <=? value) && (value <=? Z.shiftl 1 31 - 1) then
    [encval REDIS_RDB_ENC_INT32; value .& 0xFF; (value >> 8) .& 0xFF; (value >> 16) .& 0xFF;
     (value >> 24) .& 0xFF]
  else [].

Definition rdbLoadIntegerObject (enctype : Z) (encode : bool) : IO strobj :=
  val ← (if enctype =? REDIS_RDB_ENC_INT8 then
           enc ← rioRead 1; e0 ← byte_at enc 0; mret (s8 e0)
         else if enctype =? REDIS_RDB_ENC_INT16 then
           enc ← rioRead 2; e0 ← byte_at enc 0; e1 ← byte_at enc 1;
           mret (s16 (e0 .| Z.shiftl e1 8))
         else if enctype =? REDIS_RDB_ENC_INT32 then
           enc ← rioRead 4; e0 ← byte_at enc 0; e1 ← byte_at enc 1; e2 ← byte_at enc 2; e3 ← byte_at enc 3;
           mret (s32 (e0 .| Z.shiftl e1 8 .| Z.shiftl e2 16 .| Z.shiftl e3 24))
         else fail);
  mret (if encode then createStringObjectFromLongLong val else SSds (sdec val)).

(** [s] is the block of the string with what follows it. *)
Definition rdbTryIntegerEncoding (s : bytes) (len : Z) : option bytes :=
  let '(value, endptr, _) := strtoll s in
  e0 ← znth endptr 0;
  if negb (e0 =? 0) then Some []
  else
    '(_, buf) ← ll2string (local_buf (junk C) 32) 32 value;
    n ← strlen buf;
    if negb (n =? len) then Some []
    else
      x ← mem_read buf 0 len; y ← mem_read s 0 len;
      Some (if bool_decide (x = y) then rdbEncodeInteger value else []).

(** 0: not compressed. *)
Definition rdbSaveLzfStringObject (s : bytes) (len : Z) : IO Z :=
  if len <=? 4 then mret 0
  else
    let outlen := len - 4 in
    bs ← opt (mem_read s 0 len);
    '(comprlen, out) ← opt (lzf_compress bs (u32 len) (u32 outlen) (stack C) (realloc (junk C) [] (outlen + 1)));
    if comprlen =? 0 then mret 0
    else
      let byte := u8 (Z.shiftl REDIS_RDB_ENCVAL 6 .| REDIS_RDB_ENC_LZF) in
      nwritten ← rdbWriteRaw [byte];
      n ← rdbSaveLen comprlen; nwritten ← plus nwritten n;
      n ← rdbSaveLen len; nwritten ← plus nwritten n;
      p ← opt (mem_read out 0 comprlen);
      n ← rdbWriteRaw p; plus nwritten n.

Definition rdbLoadLzfStringObject : IO strobj :=
  clen ← rdbLoadLen_plain; len ← rdbLoadLen_plain;
  c ← rioRead clen;
  '(n, val) ← opt (lzf_decompress c clen len (replicate (Z.to_nat len) 0));
  if n =? 0 then throw else mret (SSds val).

Definition rdbSaveRawString (s : bytes) (len : Z) : IO Z :=
  enc ← (if len <=? 11 then opt (rdbTryIntegerEncoding s len) else mret []);
  if 0 <? zlen enc then rdbWriteRaw enc
  else
    n ← (if rdb_compression C && (20 <? len) then rdbSaveLzfStringObject s len else mret 0);
    if 0 <? n then mret n
    else
      nwritten ← rdbSaveLen len;
      if 0 <? len then
        p ← opt (mem_read s 0 len); rdbWriteRaw p;;
        plus nwritten len
      else mret nwritten.

Definition rdbSaveLongLongAsStringObject (value : Z) : IO Z :=
  let enc := rdbEncodeInteger value in
  if 0 <? zlen enc then rdbWriteRaw enc
  else
    '(enclen, buf) ← opt (ll2string (local_buf (junk C) 32) 32 value);
    assert (enclen <? 32);;
    nwritten ← rdbSaveLen enclen;
    p ← opt (mem_read buf 0 enclen); n ← rdbWriteRaw p;
    plus nwritten n.

(** The bytes of an sds are followed by a zero. *)
Definition rdbSaveStringObject (o : strobj) : IO Z :=
  match o with
  | SInt v => rdbSaveLongLongAsStringObject v
  | SSds bs => rdbSaveRawString (bs ++ [0]) (zlen bs)
  end.

Definition rdbGenericLoadStringObject (encode : bool) : IO strobj :=
  '(isencoded, len) ← rdbLoadLen;
  if isencoded : bool then
    if (len =? REDIS_RDB_ENC_INT8) || (len =? REDIS_RDB_ENC_INT16) || (len =? REDIS_RDB_ENC_INT32)
    then rdbLoadIntegerObject len encode
    else if len =? REDIS_RDB_ENC_LZF then rdbLoadLzfStringObject
    else fail
  else bs ← rioRead len; mret (SSds bs).
Definition rdbLoadStringObject : IO strobj := rdbGenericLoadStringObject false.
Definition rdbLoadEncodedStringObject : IO strobj := rdbGenericLoadStringObject true.

(** ** Values *)

(** No value of the model is a sorted set. *)
Definition rdb_type (o : value) : Z :=
  match o with
  | VString _ => REDIS_RDB_TYPE_STRING
  | VListZiplist _ => REDIS_RDB_TYPE_LIST_ZIPLIST | VLinkedList _ => REDIS_RDB_TYPE_LIST
  | VIntset _ => REDIS_RDB_TYPE_SET_INTSET | VSetTable _ => REDIS_RDB_TYPE_SET
  | VHashZiplist _ => REDIS_RDB_TYPE_HASH_ZIPLIST | VHashTable _ => REDIS_RDB_TYPE_HASH
  end.
Definition rdbSaveObjectType (o : value) : IO Z := rdbSaveType (rdb_type o).

(** The structure of an integer set in memory, and a block read as one. *)
Definition intset_block (s : intset) : bytes :=
  le_encode 4 (is_encoding s) ++ le_encode 4 (is_length s) ++ is_contents s.
Definition intset_at (block : bytes) : option intset :=
  e ← mem_read block 0 4; n ← mem_read block 4 4;
  Some (mk_intset (le_decode e) (le_decode n) (drop 8 block)).

(** [while (...) { rdbSaveStringObject(rdb,eleobj); nwritten += n; }] *)
Fixpoint save_strings (l : list strobj) (nwritten : Z) : IO Z :=
  match l with
  | [] => mret nwritten
  | o :: l => n ← rdbSaveStringObject o; nwritten ← plus nwritten n; save_strings l nwritten
  end.

Definition rdbSaveObject (o : value) : IO Z :=
  match o with
  | VString s => rdbSaveStringObject s
  | VListZiplist zl | VHashZiplist zl => l ← opt (ziplistBlobLen zl); rdbSaveRawString zl l
  | VLinkedList l => nwritten ← rdbSaveLen (zlen l); save_strings l nwritten
  | VSetTable m =>
      nwritten ← rdbSaveLen (Z.of_nat (size m));
      save_strings (snd <$> iterate C strobj m) nwritten
  | VIntset s => rdbSaveRawString (intset_block s) (intsetBlobLen s)
  | VHashTable m =>
      nwritten ← rdbSaveLen (Z.of_nat (size m));
      save_strings (concat ((fun e => [e.2.1; e.2.2]) <$> iterate C (strobj * strobj) m)) nwritten
  end.

(** [while(len--) ...] of a list. *)
Fixpoint load_list (len : nat) (o : value) : IO value :=
  match len with
  | O => mret o
  | Datatypes.S len =>
      ele ← rdbLoadEncodedStringObject;
      o ← (match o with
           | VListZiplist zl =>
               if sdsEncoded ele && (list_max_ziplist_value C <? zlen (text ele))
               then opt (listTypeConvert zl) else mret o
           | _ => mret o
           end);
      match o with
      | VListZiplist zl =>
          dec ← opt (decoded (junk C) ele);
          zl ← opt (ziplistPush (junk C) zl dec (zlen dec) ZIPLIST_TAIL);
          load_list len (VListZiplist zl)
      | VLinkedList l => ele ← opt (tryObjectEncoding ele); load_list len (VLinkedList (l ++ [ele]))
      | _ => fail
      end
  end.

(** The result of [dictAdd] is not looked at. *)
Definition add_member (m : gmap bytes strobj) (ele : strobj) : gmap bytes strobj :=
  default m (dictAdd m ele ele).
Fixpoint load_set (len : nat) (o : value) : IO value :=
  match len with
  | O => mret o
  | Datatypes.S len =>
      ele ← rdbLoadEncodedStringObject; ele ← opt (tryObjectEncoding ele);
      match o with
      | VIntset s =>
          llval ← opt (isObjectRepresentableAsLongLong ele);
          match llval with
          | Some llval => '(s, _) ← opt (intsetAdd (junk C) s llval); load_set len (VIntset s)
          | None =>
              o ← opt (setTypeConvert s);
              match o with VSetTable m => load_set len (VSetTable (add_member m ele)) | _ => fail end
          end
      | VSetTable m => load_set len (VSetTable (add_member m ele))
      | _ => fail
      end
  end.

(** The loop over the ziplist of a hash; the result is also the count of pairs
    left when it breaks off. *)
Fixpoint load_hash_ziplist (len : nat) (zl : bytes) : IO (value * nat) :=
  match len with
  | O => mret (VHashZiplist zl, O)
  | Datatypes.S len =>
      field ← rdbLoadStringObject; assert (sdsEncoded field);;
      val ← rdbLoadStringObject; assert (sdsEncoded val);;
      zl ← opt (ziplistPush (junk C) zl (text field) (zlen (text field)) ZIPLIST_TAIL);
      zl ← opt (ziplistPush (junk C) zl (text val) (zlen (text val)) ZIPLIST_TAIL);
      if (hash_max_ziplist_value C <? zlen (text field)) || (hash_max_ziplist_value C <? zlen (text val))
      then o ← opt (hashTypeConvert zl); mret (o, len)
      else load_hash_ziplist len zl
  end.
Fixpoint load_hash_table (len : nat) (m : gmap bytes (strobj * strobj)) : IO value :=
  match len with
  | O => mret (VHashTable m)
  | Datatypes.S len =>
      field ← rdbLoadEncodedStringObject; val ← rdbLoadEncodedStringObject;
      field ← opt (tryObjectEncoding field); val ← opt (tryObjectEncoding val);
      m ← opt (dictAdd m field (field, val));
      load_hash_table len m
  end.

(** Sorted sets and zipmaps (types 3, 9 and 12) are outside the model, like the
    types that make the code panic. *)
Definition rdbLoadObject (rdbtype : Z) : IO value :=
  if rdbtype =? REDIS_RDB_TYPE_STRING then
    o ← rdbLoadEncodedStringObject; o ← opt (tryObjectEncoding o); mret (VString o)
  else if rdbtype =? REDIS_RDB_TYPE_LIST then
    len ← rdbLoadLen_plain;
    o ← (if list_max_ziplist_entries C <? len then mret (VLinkedList [])
         else zl ← opt (ziplistNew (junk C)); mret (VListZiplist zl));
    load_list (Z.to_nat len) o
  else if rdbtype =? REDIS_RDB_TYPE_SET then
    len ← rdbLoadLen_plain;
    load_set (Z.to_nat len)
      (if set_max_intset_entries C <? len then VSetTable ∅ else VIntset intsetNew)
  else if rdbtype =? REDIS_RDB_TYPE_HASH then
    len ← rdbLoadLen_plain;
    zl ← opt (ziplistNew (junk C));
    '(o, len) ← (if hash_max_ziplist_entries C <? len
                 then o ← opt (hashTypeConvert zl); mret (o, Z.to_nat len)
                 else load_hash_ziplist (Z.to_nat len) zl);
    match o with
    | VHashTable m => load_hash_table len m
    | _ => assert (bool_decide (len = O));; mret o
    end
  else if (rdbtype =? REDIS_RDB_TYPE_LIST_ZIPLIST) || (rdbtype =? REDIS_RDB_TYPE_SET_INTSET)
          || (rdbtype =? REDIS_RDB_TYPE_HASH_ZIPLIST) then
    aux ← rdbLoadStringObject;
    let block := text aux in
    if rdbtype =? REDIS_RDB_TYPE_LIST_ZIPLIST then
      '(n, zl) ← opt (ziplistLen block);
      if list_max_ziplist_entries C <? n then opt (listTypeConvert zl) else mret (VListZiplist zl)
    else if rdbtype =? REDIS_RDB_TYPE_SET_INTSET then
      s ← opt (intset_at block);
      if set_max_intset_entries C <? intsetLen s then opt (setTypeConvert s) else mret (VIntset s)
    else
      '(n, zl) ← opt (hashTypeLength block);
      if hash_max_ziplist_entries C <? n then opt (hashTypeConvert zl) else mret (VHashZiplist zl)
  else fail.

(** ** Databases *)

Notation database := (redisDb value).

(** An expire set for a key that is not there fails an assertion. *)
Definition expire_of (x : database) (k : bytes) : option Z :=
  if bool_decide (db_expires x = ∅) then Some (-1)
  else match db_expires x !! k with
       | None => Some (-1)
       | Some t => if bool_decide (is_Some (db_dict x !! k)) then Some t else None
       end.

(** 1: saved; 0: already expired. *)
Definition rdbSaveKeyValuePair (key : bytes) (val : value) (expiretime now : Z) : IO Z :=
  if negb (expiretime =? -1) && (expiretime <? now) then mret 0
  else
    (if negb (expiretime =? -1) then
       rdbSaveType REDIS_RDB_OPCODE_EXPIRETIME_MS;; rdbSaveMillisecondTime expiretime
     else mret 0);;
    rdbSaveObjectType val;;
    rdbSaveStringObject (SSds key);;
    rdbSaveObject val;;
    mret 1.

Fixpoint save_entries (x : database) (es : list (bytes * value)) (now : Z) : IO unit :=
  match es with
  | [] => mret tt
  | (key, o) :: es =>
      expire ← opt (expire_of x key);
      rdbSaveKeyValuePair key o expire now;;
      save_entries x es now
  end.
Fixpoint save_dbs (dbs : list database) (j now : Z) : IO unit :=
  match dbs with
  | [] => mret tt
  | x :: dbs =>
      (if bool_decide (size (db_dict x) = O) then mret tt
       else
         rdbSaveType REDIS_RDB_OPCODE_SELECTDB;; rdbSaveLen j;;
         save_entries x (iterate C value (db_dict x)) now);;
      save_dbs dbs (j + 1) now
  end.

Definition rdbSaveRio (dbs : list database) (now : Z) : IO unit :=
  rdbWriteRaw (bytes_of "REDIS000" ++ [48 + REDIS_RDB_VERSION]);;
  save_dbs dbs 0 now;;
  rdbSaveType REDIS_RDB_OPCODE_EOF;;
  cksum ← get_cksum; rioWrite (le_encode 8 cksum).

(** ** Files *)

(** What [rdbSave] changes in the server. *)
Record saved := mkSaved { sv_dirty : Z; sv_lastsave : Z; sv_lastbgsave_ok : bool }.

(** The temporary file is removed when the snapshot cannot be completed.  After
    [fclose] has failed the stream is closed a second time. *)
Definition rdbSave (tmpfile filename : bytes) (dbs : list database) (now time : Z) (fs : gmap bytes bytes)
    (sv : saved) : option (bool * gmap bytes bytes * saved) :=
  if negb (fopen_ok S) then Some (false, fs, sv)
  else
    let werr := Some (false, delete tmpfile fs, sv) in
    r ← rdbSaveRio dbs now (mkRio [] [] 0);
    match r with
    | None => werr
    | Some (_, r) =>
        if negb (fflush_ok S) then werr
        else if negb (fsync_ok S) then werr
        else if negb (fclose_ok S) then None
        else if negb (rename_ok S) then werr
        else Some (true, <[filename := r_out r]> (delete tmpfile fs), mkSaved 0 time true)
    end.

(** [None]: [exit(1)]. *)
Inductive loaded := Load_ok (dbs : list database) | Load_err | Load_exit.

(** [dbAdd] and [setExpire]; no client waits for a list while a snapshot is loaded. *)
Definition add_key (x : database) (key : bytes) (val : value) (expiretime : Z) : option database :=
  match db_dict x !! key with
  | Some _ => None
  | None =>
      let x := set_dict (<[key := val]> (db_dict x)) x in
      Some (if expiretime =? -1 then x else set_expires (<[key := expiretime]> (db_expires x)) x)
  end.

(** The expire before the type of an entry, -1 without one; an expire of -1 is
    taken for the end of the file. *)
Definition load_expire (type : Z) : IO (Z * Z) :=
  if type =? REDIS_RDB_OPCODE_EXPIRETIME then
    t ← rdbLoadTime;
    if t =? -1 then throw else type ← rdbLoadType; mret (t * 1000, type)
  else if type =? REDIS_RDB_OPCODE_EXPIRETIME_MS then
    t ← rdbLoadMillisecondTime;
    if t =? -1 then throw else type ← rdbLoadType; mret (t, type)
  else mret (-1, type).

(** What follows the type in a round of the loop: the databases and the selected
    one after it. *)
Definition load_entry (dbs : list database) (db now expiretime type : Z) : IO (list database * Z) :=
  if type =? REDIS_RDB_OPCODE_SELECTDB then
    dbid ← rdbLoadLen_plain;
    if zlen dbs <=? dbid then throw else mret (dbs, dbid)
  else
    key ← rdbLoadStringObject;
    val ← rdbLoadObject type;
    if negb (masterhost C) && negb (expiretime =? -1) && (expiretime <? now) then mret (dbs, db)
    else
      x ← opt (znth dbs db);
      x ← opt (add_key x (text key) val expiretime);
      dbs ← opt (zset dbs db x);
      mret (dbs, db).
(** [None]: the end of the file. *)
Definition load_round (dbs : list database) (db now : Z) : IO (option (list database * Z)) :=
  type ← rdbLoadType;
  '(expiretime, type) ← load_expire type;
  if type =? REDIS_RDB_OPCODE_EOF then mret None
  else r ← load_entry dbs db now expiretime type; mret (Some r).
Fixpoint load_loop (fuel : nat) (dbs : list database) (db now : Z) : IO (list database) :=
  match fuel with
  | O => fail
  | Datatypes.S fuel =>
      r ← load_round dbs db now;
      match r with None => mret dbs | Some (dbs, db) => load_loop fuel dbs db now end
  end.

(** The trailer is read when the version has one and checksums are checked. *)
Definition load_trailer (rdbver : Z) : IO unit :=
  if (5 <=? rdbver) && rdb_checksum C then
    expected ← get_cksum; buf ← rioRead 8;
    let cksum := le_decode buf in
    if negb (cksum =? 0) && negb (cksum =? expected) then throw else mret tt
  else mret tt.

(** [size] is the length of the file: each round of the loop takes a byte or more. *)
Definition load_file (size : nat) (dbs : list database) (now : Z) : IO loaded :=
  buf ← rioRead 9;
  if bool_decide (take 5 buf <> bytes_of "REDIS") then mret Load_err
  else
    let '(v, _, _) := strtoll (drop 5 buf ++ [0]) in
    let rdbver := s32 v in
    if (rdbver <? 1) || (REDIS_RDB_VERSION <? rdbver) then mret Load_err
    else
      dbs ← load_loop (Datatypes.S size) dbs 0 now;
      load_trailer rdbver;;
      mret (Load_ok dbs).

(** [None]: there is no such file. *)
Definition rdbLoad (file : option bytes) (dbs : list database) (now : Z) : option loaded :=
  match file with
  | None => Some Load_err
  | Some file =>
      r ← load_file (length file) dbs now (mkRio file [] 0);
      Some (match r with Some (x, _) => x | None => Load_exit end)
  end.
End Rdb.
