(* ===== verification/RdbStrings.v ===== *)
(** What the primitives of [Rdb] write, and that it is read back: a calculus of
    computations that write some bytes, or fail because the device does, and of
    computations that read given bytes; lengths, integers and strings. *)
From stdpp Require Import gmap list strings.
From S2P Require Import Prelude Util Endian Sds SdsText Intset Ziplist ZiplistRep Crc Lzf Object Server Values Rdb.
Local Open Scope c_scope.

(** The checksum after [bs]. *)
Definition ck (C : config) (c : Z) (bs : bytes) : Z := if rdb_checksum C then ref64 c bs else c.

Lemma ck_nil C c : ck C c [] = c.
Proof. unfold ck. by destruct (rdb_checksum C). Qed.
Lemma ck_app C c a b : ck C c (a ++ b) = ck C (ck C c a) b.
Proof. unfold ck. destruct (rdb_checksum C); [|done]. unfold ref64. by rewrite foldl_app. Qed.
Lemma ck_u64 C c a : in_u 64 c -> bytes_ok a -> in_u 64 (ck C c a).
Proof. intros Hc Ha. unfold ck. destruct (rdb_checksum C); [|done]. by apply crc64_spec. Qed.

Lemma update_cksum_spec C r buf : in_u 64 (r_cksum r) -> bytes_ok buf ->
  update_cksum C buf r = Some (Some (tt, mkRio (r_in r) (r_out r) (ck C (r_cksum r) buf))).
Proof.
  intros Hr Hb. unfold update_cksum, ck. destruct (rdb_checksum C); [|by destruct r].
  by destruct (crc64_spec (r_cksum r) buf Hr Hb) as [-> _].
Qed.

(** ** Reading *)

Section Reads.
Context (C : config).

(** [m] consumes exactly [bs] and yields a result in [Q]. *)
Definition reads {A} (m : IO A) (bs : bytes) (Q : A -> Prop) : Prop :=
  bytes_ok bs /\ forall r rest, in_u 64 (r_cksum r) -> r_in r = bs ++ rest ->
  exists a, m r = Some (Some (a, mkRio rest (r_out r) (ck C (r_cksum r) bs))) /\ Q a.

Lemma reads_ret {A} (a : A) (Q : A -> Prop) : Q a -> reads (mret a) [] Q.
Proof.
  intros Ha. split; [constructor|]. intros [i o c] rest _ E. cbn in *. subst i. exists a. by rewrite ck_nil.
Qed.
Lemma reads_bind {A B} (m : IO A) (k : A -> IO B) b1 b2 (Q : A -> Prop) (R : B -> Prop) :
  reads m b1 Q -> (forall a, Q a -> reads (k a) b2 R) -> reads (mbind k m) (b1 ++ b2) R.
Proof.
  intros [H1 Hm] Hk. assert (H2 : bytes_ok b2).
  { destruct (Hm (mkRio b1 [] 0) []) as (a & _ & Ha); [done|by rewrite app_nil_r|]. by destruct (Hk a Ha). }
  split; [by apply Forall_app|]. intros r rest Hr Hi. rewrite <- app_assoc in Hi.
  destruct (Hm r (b2 ++ rest) Hr Hi) as (a & Ea & Ha). destruct (Hk a Ha) as [_ Hka].
  destruct (Hka (mkRio (b2 ++ rest) (r_out r) (ck C (r_cksum r) b1)) rest) as (b & Eb & Hb); [by apply ck_u64|done|].
  exists b. split; [|done]. unfold mbind, IO_bind. rewrite Ea. step. rewrite Eb. cbn. by rewrite ck_app.
Qed.
Lemma reads_last {A B} (m : IO A) (k : A -> IO B) bs (Q : A -> Prop) (R : B -> Prop) :
  reads m bs Q -> (forall a, Q a -> reads (k a) [] R) -> reads (mbind k m) bs R.
Proof. intros Hm Hk. rewrite <- (app_nil_r bs). by eapply reads_bind. Qed.
Lemma reads_opt {A B} (x : option A) (a : A) (k : A -> IO B) bs (R : B -> Prop) :
  x = Some a -> reads (k a) bs R -> reads (mbind k (opt x)) bs R.
Proof. intros -> [Hb Hk]. split; [done|]. intros r rest Hr Hi. destruct (Hk r rest Hr Hi) as (b & E & Hq). by exists b. Qed.
Lemma reads_opt_ret {A} (x : option A) (a : A) (R : A -> Prop) : x = Some a -> R a -> reads (opt x) [] R.
Proof.
  intros -> Ha. split; [constructor|]. intros [i o c] rest _ E. cbn in *. subst i. exists a. by rewrite ck_nil.
Qed.
Lemma reads_assert {B} (b : bool) (k : unit -> IO B) bs (R : B -> Prop) :
  b = true -> reads (k tt) bs R -> reads (mbind k (assert b)) bs R.
Proof. intros ->. by apply (reads_opt (Some tt)). Qed.
Lemma reads_weaken {A} (m : IO A) bs (Q R : A -> Prop) : reads m bs Q -> (forall a, Q a -> R a) -> reads m bs R.
Proof.
  intros [Hb Hm] HQ. split; [done|]. intros r rest Hr Hi. destruct (Hm r rest Hr Hi) as (a & E & Ha).
  exists a. split; [done|]. by apply HQ.
Qed.

Lemma chunk_bounds max len : 0 <= max -> 0 < len -> 0 < chunk max len <= len.
Proof.
  intros Hm Hl. unfold chunk. destruct (Z.eqb_spec max 0); cbn [negb andb]; [lia|]. destruct (Z.ltb_spec max len); lia.
Qed.

Lemma rioRead_reads bs : bytes_ok bs -> reads (rioRead C (zlen bs)) bs (fun b => b = bs).
Proof.
  unfold rioRead. assert (H : forall fuel bs, (length bs < fuel)%nat -> bytes_ok bs ->
    reads (read_loop C fuel (zlen bs)) bs (fun b => b = bs)).
  2: { intros Hb. apply H; [rewrite zlen_to_nat; lia|done]. }
  clear bs. induction fuel as [|fuel IH]; intros bs Hf Hb; [lia|]. cbn [read_loop].
  destruct (Z.eqb_spec (zlen bs) 0) as [E|E].
  { destruct bs; [by apply reads_ret|]. rewrite zlen_cons in E. pose proof (zlen_nonneg bs). lia. }
  pose proof (zlen_nonneg bs). destruct (wrap_in_u 64 (loading_process_events_interval_bytes C) ltac:(lia)) as [Hu _].
  set (n := chunk _ _). assert (Hn : 0 < n <= zlen bs) by (apply chunk_bounds; lia).
  set (b1 := take (Z.to_nat n) bs). set (b2 := drop (Z.to_nat n) bs).
  assert (Eb : bs = b1 ++ b2) by by rewrite <- (take_drop (Z.to_nat n) bs).
  assert (Hl : zlen b1 = n) by (unfold zlen, b1 in *; rewrite length_take; lia).
  assert (Hok : bytes_ok b1 /\ bytes_ok b2) by (by apply Forall_app; rewrite <- Eb).
  destruct Hok as [Hok1 Hok2]. clearbody b1 b2. subst bs. rewrite zlen_app, Hl in *.
  replace (n + zlen b2 - n) with (zlen b2) by lia.
  destruct (IH b2) as [_ IH2]; [|done|].
  { rewrite length_app in Hf. unfold zlen in Hl. lia. }
  split; [done|]. intros r rest Hr Hi. unfold mbind, IO_bind, rioFileRead. rewrite Hi, !zlen_app, Hl.
  pose proof (zlen_nonneg b2). pose proof (zlen_nonneg rest). destruct (Z.leb_spec n (n + zlen b2 + zlen rest)); [|lia].
  rewrite <- app_assoc, <- Hl, zlen_to_nat, take_app_length, drop_app_length. step.
  rewrite update_cksum_spec by done. step. cbn [r_in r_out r_cksum].
  destruct (IH2 (mkRio (b2 ++ rest) (r_out r) (ck C (r_cksum r) b1)) rest) as (x & -> & ->); [by apply ck_u64|done|].
  cbn. exists (b1 ++ b2). by rewrite ck_app.
Qed.
End Reads.

(** ** Writing *)

Definition reliable (S : system) : Prop := forall off n, fwrite_ok S off n = true.

Section Writes.
Context (C : config) (S : system).

Definition wrote (r : rio) (bs : bytes) : rio := mkRio (r_in r) (r_out r ++ bs) (ck C (r_cksum r) bs).

(** [m] writes some bytes, related to its result by [Q], unless the device fails. *)
Definition writes {A} (m : IO A) (Q : A -> bytes -> Prop) : Prop := forall r, in_u 64 (r_cksum r) ->
  (exists a bs, m r = Some (Some (a, wrote r bs)) /\ bytes_ok bs /\ Q a bs) \/
  (m r = Some None /\ ~ reliable S).

Lemma writes_ret {A} (a : A) (Q : A -> bytes -> Prop) : Q a [] -> writes (mret a) Q.
Proof.
  intros Ha [i o c] _. left. exists a, []. split; [|split; [constructor|done]]. unfold wrote. cbn. by rewrite app_nil_r, ck_nil.
Qed.
Lemma writes_bind {A B} (m : IO A) (k : A -> IO B) (Q : A -> bytes -> Prop) (R : B -> bytes -> Prop) :
  writes m Q -> (forall a b1, bytes_ok b1 -> Q a b1 -> writes (k a) (fun b b2 => bytes_ok b2 -> R b (b1 ++ b2))) ->
  writes (mbind k m) R.
Proof.
  intros Hm Hk r Hr. unfold mbind, IO_bind. destruct (Hm r Hr) as [(a & b1 & -> & Hb1 & Ha)|[-> Hd]]; step; [|by right].
  destruct (Hk a b1 Hb1 Ha (wrote r b1)) as [(b & b2 & -> & Hb2 & Hb)|[-> Hd]]; [by apply ck_u64| |by right].
  left. exists b, (b1 ++ b2). split; [|split; [by apply Forall_app|by apply Hb]].
  unfold wrote. cbn. by rewrite <- app_assoc, ck_app.
Qed.
Lemma writes_opt {A B} (x : option A) (a : A) (k : A -> IO B) (R : B -> bytes -> Prop) :
  x = Some a -> writes (k a) R -> writes (mbind k (opt x)) R.
Proof. intros -> Hk r Hr. destruct (Hk r Hr) as [(b & bs & E & Hb)|[E Hd]]; [left; by exists b, bs|by right]. Qed.
Lemma writes_opt_ret {A} (x : option A) (a : A) (R : A -> bytes -> Prop) :
  x = Some a -> R a [] -> writes (opt x) R.
Proof.
  intros -> Ha [i o c] _. left. exists a, []. split; [|split; [constructor|done]]. unfold wrote. cbn. by rewrite app_nil_r, ck_nil.
Qed.
Lemma writes_weaken {A} (m : IO A) (Q R : A -> bytes -> Prop) :
  writes m Q -> (forall a bs, bytes_ok bs -> Q a bs -> R a bs) -> writes m R.
Proof.
  intros Hm HQ r Hr. destruct (Hm r Hr) as [(a & bs & E & Hb & Ha)|[E Hd]]; [left|by right].
  exists a, bs. split; [done|]. split; [done|]. by apply HQ.
Qed.

Lemma rioWrite_writes buf : bytes_ok buf -> writes (rioWrite C S buf) (fun _ bs => bs = buf).
Proof.
  intros Hb r Hr. unfold rioWrite. cbn [write_loop]. pose proof (zlen_nonneg buf).
  destruct (Z.eqb_spec (zlen buf) 0) as [E|E].
  { destruct buf; [by apply writes_ret|]. rewrite zlen_cons in E. pose proof (zlen_nonneg buf). lia. }
  unfold chunk. cbn [Z.eqb negb andb]. rewrite zlen_to_nat, take_ge, drop_ge by done.
  unfold mbind, IO_bind. rewrite update_cksum_spec by done. step. unfold rioFileWrite. cbn [r_in r_out r_cksum].
  destruct (fwrite_ok S _ _) eqn:Ef; [left|right; split; [done|]; intros Hd; by rewrite Hd in Ef].
  exists tt, buf. split; [|done]. cbn [option_bind]. destruct buf; [done|]. cbn. done.
Qed.

Lemma rdbWriteRaw_writes p : bytes_ok p -> zlen p < 2 ^ 31 ->
  writes (rdbWriteRaw C S p) (fun n bs => n = zlen p /\ bs = p).
Proof.
  intros Hp Hl. pose proof (zlen_nonneg p). eapply writes_bind; [by apply rioWrite_writes|]. intros _ b1 _ ->.
  cbv zeta. rewrite swrap_small by cint. destruct (Z.eqb_spec (zlen p) (-1)); [lia|]. apply writes_ret. by rewrite app_nil_r.
Qed.
Lemma rdbSaveType_writes type : 0 <= type < 256 -> writes (rdbSaveType C S type) (fun n bs => n = 1 /\ bs = [type]).
Proof.
  intros Ht. unfold rdbSaveType. rewrite wrap_small by cint. apply rdbWriteRaw_writes; [|done].
  constructor; [done|constructor].
Qed.
Lemma plus_writes a b (R : Z -> bytes -> Prop) : in_s 32 (a + b) -> R (a + b) [] -> writes (plus a b) R.
Proof. intros Hab. apply writes_opt_ret. unfold int_ok. by rewrite decide_True. Qed.
Lemma plus_bind {B} a b (k : Z -> IO B) (R : B -> bytes -> Prop) : in_s 32 (a + b) -> writes (k (a + b)) R ->
  writes (mbind k (plus a b)) R.
Proof. intros Hab. apply writes_opt. unfold int_ok. by rewrite decide_True. Qed.
End Writes.

(** ** Lengths *)

Lemma land_low_byte x : x .& 0xFF = x mod 256.
Proof. change 0xFF with (Z.ones 8). by rewrite Z.land_ones. Qed.
Lemma high_bits b : byte_ok b -> (b .& 0xC0) >> 6 = b / 64.
Proof.
  unfold byte_ok. intros Hb. rewrite Z.shiftr_land. change (0xC0 >> 6) with (Z.ones 2).
  rewrite Z.land_ones, Z.shiftr_div_pow2 by lia. change (2 ^ 6) with 64. change (2 ^ 2) with 4.
  apply Z.mod_small. split; [apply Z.div_pos; lia|apply Z.div_lt_upper_bound; lia].
Qed.
Lemma low_bits b : b .& 0x3F = b mod 64.
Proof. change 0x3F with (Z.ones 6). by rewrite Z.land_ones. Qed.

Lemma byte_at_reads {B} C (i : Z) b buf (k : Z -> IO B) bs R : znth buf i = Some b -> reads C (k b) bs R ->
  reads C (mbind k (byte_at buf i)) bs R.
Proof. intros. by apply (reads_opt C _ b). Qed.

Lemma rdbLoadType_reads C t : byte_ok t -> reads C (rdbLoadType C) [t] (fun t' => t' = t).
Proof.
  intros Ht. eapply (reads_last C); [apply (rioRead_reads C [t]); by constructor|]. intros ? ->.
  by apply (reads_opt_ret C _ t).
Qed.

(** The first byte of a length, with the rest of the function. *)
Lemma len_first_byte {B} C b bs (k : bytes -> IO B) R : byte_ok b -> reads C (k [b]) bs R ->
  reads C (mbind k (rioRead C 1)) (b :: bs) R.
Proof.
  intros Hb Hk. apply (reads_bind C (rioRead C 1) k [b] bs (fun x => x = [b])); [|by intros ? ->].
  apply (rioRead_reads C [b]). by constructor.
Qed.

(** The three forms, read. *)
Lemma read_len6 C len : 0 <= len < 64 -> reads C (rdbLoadLen C) [len] (fun r => r = (false, len)).
Proof.
  intros Hl. assert (Hb : byte_ok len) by (unfold byte_ok; lia). apply len_first_byte; [done|].
  apply (byte_at_reads C 0 len); [done|]. cbv zeta. rewrite high_bits, low_bits, Z.div_small, Z.mod_small by (done || lia).
  by apply reads_ret.
Qed.
Lemma read_len14 C hi lo : 0 <= hi < 64 -> byte_ok lo ->
  reads C (rdbLoadLen C) [64 + hi; lo] (fun r => r = (false, 256 * hi + lo)).
Proof.
  intros Hhi Hlo. assert (Hb : byte_ok (64 + hi)) by (unfold byte_ok; lia).
  apply len_first_byte; [done|]. apply (byte_at_reads C 0 (64 + hi)); [done|]. cbv zeta. rewrite high_bits, low_bits by done.
  assert ((64 + hi) / 64 = 1) as -> by (symmetry; apply (Z.div_unique _ _ _ hi); lia).
  assert ((64 + hi) mod 64 = hi) as -> by (symmetry; apply (Z.mod_unique _ _ 1); lia).
  change (1 =? REDIS_RDB_ENCVAL) with false. change (1 =? REDIS_RDB_6BITLEN) with false.
  change (1 =? REDIS_RDB_14BITLEN) with true. cbv iota.
  apply len_first_byte; [done|]. apply (byte_at_reads C 0 lo); [done|]. apply reads_ret. f_equal.
  unfold byte_ok in Hlo. rewrite Z.shiftl_mul_pow2, high_lor_low by lia. lia.
Qed.
Lemma read_len32 C len : 0 <= len < REDIS_RDB_LENERR ->
  reads C (rdbLoadLen C) (128 :: reverse (le_encode 4 len)) (fun r => r = (false, len)).
Proof.
  unfold REDIS_RDB_LENERR. intros Hlen. apply len_first_byte; [by_decide|]. apply (byte_at_reads C 0 128); [done|]. cbv zeta.
  change ((128 .& 0xC0) >> 6) with 2. change (2 =? REDIS_RDB_ENCVAL) with false. change (2 =? REDIS_RDB_6BITLEN) with false.
  change (2 =? REDIS_RDB_14BITLEN) with false. cbv iota.
  assert (Hl : 4 = zlen (reverse (le_encode 4 len))) by (rewrite zlen_reverse; unfold zlen; by rewrite le_encode_length).
  rewrite Hl at 1. eapply (reads_last C); [apply rioRead_reads, bytes_ok_reverse, le_encode_ok|]. intros ? ->. cbv zeta.
  rewrite reverse_involutive, le_decode_encode. change (256 ^ Z.of_nat 4) with (2 ^ 32). rewrite Z.mod_small by lia.
  unfold REDIS_RDB_LENERR. destruct (Z.eqb_spec len (2 ^ 32 - 1)); [lia|]. by apply reads_ret.
Qed.

Lemma rdbSaveLen_writes C S len : 0 <= len < REDIS_RDB_LENERR ->
  writes C S (rdbSaveLen C S len) (fun n bs => n = zlen bs /\ 1 <= zlen bs <= 5 /\
    forall C', reads C' (rdbLoadLen C') bs (fun r => r = (false, len))).
Proof.
  intros Hlen. pose proof Hlen as Hlen'. unfold REDIS_RDB_LENERR in Hlen'. unfold rdbSaveLen. cbv zeta.
  rewrite wrap_small by cint. change (Z.shiftl 1 6) with 64. change (Z.shiftl 1 14) with 16384.
  destruct (Z.ltb_spec len 64) as [H1|H1]; [|destruct (Z.ltb_spec len 16384) as [H2|H2]].
  - change (Z.shiftl REDIS_RDB_6BITLEN 6) with 0. rewrite Z.lor_0_r, land_low_byte, Z.mod_small, wrap_small by cint.
    eapply writes_bind; [apply rdbWriteRaw_writes; [repeat constructor; lia|done]|]. intros ? ? _ [_ ->]. apply writes_ret.
    intros _. split; [done|]. split; [done|]. intros C'. apply read_len6. lia.
  - assert (Hhi : 0 <= len / 256 < 64) by (split; [apply Z.div_pos; lia|apply Z.div_lt_upper_bound; lia]).
    pose proof (Z.mod_pos_bound len 256 ltac:(lia)) as Hlo.
    rewrite !land_low_byte, Z.shiftr_div_pow2 by lia. change (2 ^ 8) with 256.
    rewrite (Z.mod_small (len / 256)), Z.lor_comm by lia. change (Z.shiftl REDIS_RDB_14BITLEN 6) with (1 * 2 ^ 6).
    rewrite high_lor_low by lia. change (1 * 2 ^ 6) with 64. rewrite wrap_small by cint.
    eapply writes_bind; [apply rdbWriteRaw_writes; [repeat constructor; lia|done]|]. intros ? ? _ [_ ->]. apply writes_ret.
    intros _. split; [done|]. split; [done|]. intros C'. 
    pose proof (read_len14 C' (len / 256) (len mod 256) Hhi Hlo) as E. by rewrite <- Z.div_mod in E by lia.
  - change (u8 (Z.shiftl REDIS_RDB_32BITLEN 6)) with 128.
    assert (Hl : zlen (reverse (le_encode 4 len)) = 4) by (rewrite zlen_reverse; unfold zlen; by rewrite le_encode_length).
    eapply writes_bind; [apply rdbWriteRaw_writes; [by_decide|done]|]. intros ? ? _ [_ ->].
    eapply writes_bind; [apply rdbWriteRaw_writes; [apply bytes_ok_reverse, le_encode_ok|lia]|]. intros ? ? _ [_ ->]. apply writes_ret.
    intros _ _. rewrite app_nil_r, zlen_app, Hl. split; [done|]. split; [done|]. intros C'. by apply read_len32.
Qed.

Lemma load_len_plain C bs len : reads C (rdbLoadLen C) bs (fun r => r = (false, len)) ->
  reads C (rdbLoadLen_plain C) bs (fun n => n = len).
Proof. intros H. eapply (reads_last C); [done|]. intros ? ->. by apply reads_ret. Qed.

(** ** Integers *)

(** [bs] is read as a string object of the bytes [t]. *)
Definition decodes (t bs : bytes) : Prop := forall C encode,
  reads C (rdbGenericLoadStringObject C encode) bs
    (fun o => text o = t /\ str_ok o /\ (encode = false -> sdsEncoded o = true)).

(** A first byte 11xxxxxx. *)
Lemma read_encoded C enc bs encode R : 0 <= enc <= 3 ->
  reads C (if (enc =? REDIS_RDB_ENC_INT8) || (enc =? REDIS_RDB_ENC_INT16) || (enc =? REDIS_RDB_ENC_INT32)
           then rdbLoadIntegerObject C enc encode
           else if enc =? REDIS_RDB_ENC_LZF then rdbLoadLzfStringObject C else fail) bs R ->
  reads C (rdbGenericLoadStringObject C encode) (192 + enc :: bs) R.
Proof.
  intros He H. assert (Hb : byte_ok (192 + enc)) by (unfold byte_ok; lia).
  apply (reads_bind C (rdbLoadLen C) _ [192 + enc] bs (fun r => r = (true, enc))); [|by intros ? ->].
  apply len_first_byte; [done|]. apply (byte_at_reads C 0 (192 + enc)); [done|]. cbv zeta. rewrite high_bits, low_bits by done.
  assert ((192 + enc) / 64 = 3) as -> by (symmetry; apply (Z.div_unique _ _ _ enc); lia).
  assert ((192 + enc) mod 64 = enc) as -> by (symmetry; apply (Z.mod_unique _ _ 3); lia).
  change (3 =? REDIS_RDB_ENCVAL) with true. cbv iota. by apply reads_ret.
Qed.

Lemma encode_low n v : le_encode n v = match n with O => [] | S n => v .& 0xFF :: le_encode n (v >> 8) end.
Proof. destruct n; [done|]. cbn [le_encode]. by rewrite land_low_byte, Z.shiftr_div_pow2 by lia. Qed.
Lemma shift_byte a e k : 0 <= k -> 0 <= a < 2 ^ k -> a .| Z.shiftl e k = a + 2 ^ k * e.
Proof. intros Hk Ha. rewrite Z.lor_comm, Z.shiftl_mul_pow2, high_lor_low by lia. lia. Qed.
Lemma join2 e0 e1 : byte_ok e0 -> byte_ok e1 -> e0 .| Z.shiftl e1 8 = le_decode [e0; e1].
Proof. unfold byte_ok. intros. rewrite shift_byte by lia. cbn. lia. Qed.
Lemma join4 e0 e1 e2 e3 : byte_ok e0 -> byte_ok e1 -> byte_ok e2 -> byte_ok e3 ->
  e0 .| Z.shiftl e1 8 .| Z.shiftl e2 16 .| Z.shiftl e3 24 = le_decode [e0; e1; e2; e3].
Proof.
  unfold byte_ok. intros. rewrite (shift_byte e0 e1 8) by lia. rewrite (shift_byte _ e2 16) by lia.
  rewrite (shift_byte _ e3 24) by lia. cbn. lia.
Qed.

Definition encoded_ok (v : Z) (encode : bool) (o : strobj) : Prop :=
  text o = sdec v /\ str_ok o /\ (encode = false -> sdsEncoded o = true).
Lemma loaded_integer (v : Z) (encode : bool) : in_s 64 v ->
  encoded_ok v encode (if encode then createStringObjectFromLongLong v else SSds (sdec v)).
Proof.
  intros Hv. destruct encode; [rewrite long_object by done; by split; [|split]|].
  by split; [|split; [apply sdec_ok|]].
Qed.

(** The three forms, read. *)
Lemma read_int8 C encode v : in_s 8 v ->
  reads C (rdbLoadIntegerObject C REDIS_RDB_ENC_INT8 encode) (le_encode 1 v) (encoded_ok v encode).
Proof.
  intros Hv. apply (reads_last C) with (fun x => x = v); [|intros ? ->; apply reads_ret, loaded_integer; cint].
  cbv iota beta. change (REDIS_RDB_ENC_INT8 =? REDIS_RDB_ENC_INT8) with true. cbv iota.
  eapply (reads_last C); [apply (rioRead_reads C (le_encode 1 v)), le_encode_ok|]. intros ? ->.
  apply (byte_at_reads C 0 (v mod 256)); [done|]. apply reads_ret.
  pose proof (sdecode 1 v ltac:(lia) Hv) as E. rewrite <- E at 2. change (8 * 1) with 8. change (Z.to_nat 1) with 1%nat.
  f_equal. cbn [le_encode le_decode]. lia.
Qed.
Lemma read_int16 C encode v : in_s 16 v ->
  reads C (rdbLoadIntegerObject C REDIS_RDB_ENC_INT16 encode) (le_encode 2 v) (encoded_ok v encode).
Proof.
  intros Hv. apply (reads_last C) with (fun x => x = v); [|intros ? ->; apply reads_ret, loaded_integer; cint].
  change (REDIS_RDB_ENC_INT16 =? REDIS_RDB_ENC_INT8) with false. change (REDIS_RDB_ENC_INT16 =? REDIS_RDB_ENC_INT16) with true. cbv iota.
  eapply (reads_last C); [apply (rioRead_reads C (le_encode 2 v)), le_encode_ok|]. intros ? ->.
  pose proof (le_encode_ok 2 v) as Hok. pose proof (sdecode 2 v ltac:(lia) Hv) as E.
  change (Z.to_nat 2) with 2%nat in E. cbn [le_encode] in *. inversion_clear Hok as [|? ? H0 Hok']. inversion_clear Hok' as [|? ? H1 _].
  eapply (byte_at_reads C 0); [done|]. eapply (byte_at_reads C 1); [done|]. apply reads_ret. by rewrite join2.
Qed.
Lemma read_int32 C encode v : in_s 32 v ->
  reads C (rdbLoadIntegerObject C REDIS_RDB_ENC_INT32 encode) (le_encode 4 v) (encoded_ok v encode).
Proof.
  intros Hv. apply (reads_last C) with (fun x => x = v); [|intros ? ->; apply reads_ret, loaded_integer; cint].
  change (REDIS_RDB_ENC_INT32 =? REDIS_RDB_ENC_INT8) with false. change (REDIS_RDB_ENC_INT32 =? REDIS_RDB_ENC_INT16) with false.
  change (REDIS_RDB_ENC_INT32 =? REDIS_RDB_ENC_INT32) with true. cbv iota.
  eapply (reads_last C); [apply (rioRead_reads C (le_encode 4 v)), le_encode_ok|]. intros ? ->.
  pose proof (le_encode_ok 4 v) as Hok. pose proof (sdecode 4 v ltac:(lia) Hv) as E.
  change (Z.to_nat 4) with 4%nat in E. cbn [le_encode] in *. inversion_clear Hok as [|? ? H0 Hok']. inversion_clear Hok' as [|? ? H1 Hok].
  inversion_clear Hok as [|? ? H2 Hok']. inversion_clear Hok' as [|? ? H3 _].
  eapply (byte_at_reads C 0); [done|]. eapply (byte_at_reads C 1); [done|]. eapply (byte_at_reads C 2); [done|].
  eapply (byte_at_reads C 3); [done|]. apply reads_ret. by rewrite join4.
Qed.

(** An encoded integer is five bytes at most. *)
Lemma rdbEncodeInteger_spec v : in_s 64 v ->
  rdbEncodeInteger v = [] \/ 2 <= zlen (rdbEncodeInteger v) <= 5 /\ decodes (sdec v) (rdbEncodeInteger v).
Proof.
  intros Hv. unfold rdbEncodeInteger. cbv zeta.
  assert (He : forall t n, 0 <= t <= 3 -> (forall C encode, reads C (if (t =? REDIS_RDB_ENC_INT8) || (t =? REDIS_RDB_ENC_INT16) || (t =? REDIS_RDB_ENC_INT32)
      then rdbLoadIntegerObject C t encode else if t =? REDIS_RDB_ENC_LZF then rdbLoadLzfStringObject C else fail)
      (le_encode n v) (encoded_ok v encode)) -> decodes (sdec v) (192 + t :: le_encode n v)).
  { intros t n Ht H C encode. by apply read_encoded. }
  change (- Z.shiftl 1 7) with (- 128). change (Z.shiftl 1 7 - 1) with 127. change (- Z.shiftl 1 15) with (- 32768).
  change (Z.shiftl 1 15 - 1) with 32767. change (- Z.shiftl 1 31) with (- 2147483648). change (Z.shiftl 1 31 - 1) with 2147483647.
  destruct ((- 128 <=? v) && (v <=? 127)) eqn:E1; [|destruct ((- 32768 <=? v) && (v <=? 32767)) eqn:E2;
    [|destruct ((- 2147483648 <=? v) && (v <=? 2147483647)) eqn:E3; [|by left]]]; right; split; try done.
  - assert (E : le_encode 1 v = [v .& 255]) by by rewrite !encode_low.
    change (decodes (sdec v) (192 + 0 :: [v .& 255])). rewrite <- E. apply He; [lia|]. intros C encode. apply read_int8. cint.
  - assert (E : le_encode 2 v = [v .& 255; (v >> 8) .& 255]) by by rewrite !encode_low.
    change (decodes (sdec v) (192 + 1 :: [v .& 255; (v >> 8) .& 255])). rewrite <- E. apply He; [lia|]. intros C encode. apply read_int16. cint.
  - assert (E : le_encode 4 v = [v .& 255; (v >> 8) .& 255; (v >> 16) .& 255; (v >> 24) .& 255]).
    { rewrite !encode_low, !Z.shiftr_shiftr by lia. done. }
    change (decodes (sdec v) (192 + 2 :: [v .& 255; (v >> 8) .& 255; (v >> 16) .& 255; (v >> 24) .& 255])).
    rewrite <- E. apply He; [lia|]. intros C encode. apply read_int32. cint.
Qed.

(** ** Strings *)

Lemma strtoll_range s : in_s 64 (strtoll s).1.1.
Proof.
  unfold strtoll, LLONG_MIN, LLONG_MAX. destruct (match skip_spaces s with [] => _ | _ => _ end) as [neg t].
  destruct (digits_of t 0) as [v rest]. case_bool_decide; [by_decide|].
  destruct (Z.ltb_spec (if neg then - v else v) (- 2 ^ 63)); [by_decide|].
  destruct (Z.ltb_spec (2 ^ 63 - 1) (if neg then - v else v)); [by_decide|]. cbn. cint.
Qed.

(** A block that starts with a small word is no number. *)
Lemma strtoll_word c s : 0 <= c < 32 -> strtoll (c :: 0 :: s) = (0, c :: 0 :: s, false).
Proof.
  intros Hc. assert (E : skip_spaces (c :: 0 :: s) = c :: 0 :: s \/ skip_spaces (c :: 0 :: s) = 0 :: s).
  { cbn [skip_spaces]. destruct (isspace c); [right|by left]. done. }
  unfold strtoll. destruct E as [-> | ->].
  - destruct (Z.eqb_spec c 45); [lia|]. destruct (Z.eqb_spec c 43); [lia|]. cbn [digits_of].
    destruct (is_digit_spec c) as [Hd|_]; [unfold digit in Hd; lia|]. by rewrite bool_decide_true.
  - cbn. by rewrite bool_decide_true.
Qed.

(** A string that is read as a number up to a zero. *)
Definition terminated (s : bytes) : Prop := exists e0, znth (strtoll s).1.2 0 = Some e0.

Lemma rdbTryIntegerEncoding_spec C bs k : terminated (bs ++ k) ->
  exists enc, rdbTryIntegerEncoding C (bs ++ k) (zlen bs) = Some enc /\
    (enc = [] \/ 2 <= zlen enc <= 5 /\ decodes bs enc).
Proof.
  intros (e0 & He). unfold rdbTryIntegerEncoding. pose proof (strtoll_range (bs ++ k)) as Hv.
  destruct (strtoll (bs ++ k)) as [[v endptr] er]. cbn in He, Hv. rewrite He. step.
  destruct (e0 =? 0); cbn [negb]; [|by exists []; split; [|left]].
  destruct (print_long (junk C) 32 v Hv ltac:(lia)) as [j ->]. step.
  rewrite strlen_spec by by apply sdec_chars. step.
  destruct (Z.eqb_spec (zlen (sdec v)) (zlen bs)) as [E|]; cbn [negb]; [|by exists []; split; [|left]].
  rewrite mem_read_prefix by (by rewrite E || done). step. rewrite mem_read_prefix by done. step.
  eexists. split; [done|]. case_bool_decide as Eb; [|by left]. rewrite <- Eb. by apply rdbEncodeInteger_spec.
Qed.

Lemma decodes_reads C encode t bs : decodes t bs ->
  reads C (rdbGenericLoadStringObject C encode) bs (fun o => text o = t /\ str_ok o /\ (encode = false -> sdsEncoded o = true)).
Proof. intros H. apply H. Qed.

(** The stack holds positions within the address space. *)
Definition stack_ok (C : config) : Prop := forall i, - 2 ^ 62 <= stack C i < 2 ^ 62.

Lemma read_lzf comprlen_bs len_bs p t n : zlen t < 2 ^ 32 - 1 -> text_ok t -> bytes_ok p -> zlen p = n -> n <> 0 ->
  (forall C, reads C (rdbLoadLen C) comprlen_bs (fun r => r = (false, n))) ->
  (forall C, reads C (rdbLoadLen C) len_bs (fun r => r = (false, zlen t))) ->
  (forall back, zlen back = zlen t -> lzf_decompress p n (zlen t) back = Some (zlen t, t)) -> t <> [] ->
  decodes t (195 :: comprlen_bs ++ len_bs ++ p).
Proof.
  intros Ht Hok Hp Hn Hn0 H1 H2 Hd Hne C encode. apply (read_encoded C 3); [lia|].
  change (reads C (rdbLoadLzfStringObject C) (comprlen_bs ++ len_bs ++ p)
    (fun o => text o = t /\ str_ok o /\ (encode = false -> sdsEncoded o = true))).
  eapply reads_bind; [apply load_len_plain, H1|]. intros ? ->.
  eapply reads_bind; [apply load_len_plain, H2|]. intros ? ->. rewrite <- Hn.
  eapply (reads_last C); [by apply rioRead_reads|]. intros ? ->. rewrite Hn.
  eapply reads_opt; [apply Hd; unfold zlen; rewrite length_replicate; lia|]. cbn iota beta.
  destruct (Z.eqb_spec (zlen t) 0) as [E|_]; [by destruct t|]. by apply reads_ret.
Qed.

Lemma rdbSaveLzfStringObject_writes C S t k : stack_ok C -> text_ok t -> 20 < zlen t ->
  writes C S (rdbSaveLzfStringObject C S (t ++ k) (zlen t)) (fun n bs =>
    n = 0 /\ bs = [] \/ n = zlen bs /\ 0 < zlen bs <= zlen t + 9 /\ decodes t bs).
Proof.
  intros Hst Hok Hlen. pose proof Hok as [Hb Hmax]. unfold max_text in Hmax. unfold rdbSaveLzfStringObject.
  destruct (Z.leb_spec (zlen t) 4); [lia|]. cbv zeta. eapply writes_opt; [by apply mem_read_prefix|].
  rewrite (wrap_small 32 (zlen t)), (wrap_small 32 (zlen t - 4)) by cint.
  assert (Hout : zlen (realloc (junk C) [] (zlen t - 4 + 1)) = zlen t - 4 + 1) by (unfold zlen at 1; rewrite realloc_length; lia).
  destruct (lzf_back t (zlen t - 4) (stack C) _ ltac:(lia) ltac:(lia) Hout Hst) as (n & out & E & Hn).
  eapply writes_opt; [done|]. cbn iota beta. destruct (Z.eqb_spec n 0) as [->|Hn0]; [apply writes_ret; by left|].
  destruct Hn as [->|(Hn1 & Hn2 & Hb' & Hd)]; [done|]. specialize (Hb' Hb).
  set (p := take (Z.to_nat n) out) in *. assert (Hp : zlen p = n) by (unfold zlen, p in *; rewrite length_take; lia).
  eapply writes_bind; [apply rdbWriteRaw_writes; [by_decide|done]|]. intros ? ? _ [-> ->].
  eapply writes_bind; [apply (rdbSaveLen_writes C S n); unfold REDIS_RDB_LENERR; lia|]. intros ? b1 _ (-> & Hl1 & H1).
  apply plus_bind; [rewrite zlen_one; cint|].
  eapply writes_bind; [apply (rdbSaveLen_writes C S (zlen t)); unfold REDIS_RDB_LENERR; lia|]. intros ? b2 _ (-> & Hl2 & H2).
  apply plus_bind; [rewrite zlen_one; cint|].
  eapply writes_opt.
  { unfold mem_read. rewrite decide_True by lia. change (Z.to_nat 0) with 0%nat. by rewrite drop_0. }
  fold p. eapply writes_bind; [apply rdbWriteRaw_writes; [done|lia]|]. intros ? ? _ [-> ->].
  apply plus_writes; [rewrite zlen_one; cint|]. intros. right.
  rewrite !app_nil_r, !zlen_app, !zlen_one. split; [lia|]. split; [lia|].
  apply (read_lzf b1 b2 p t n); try done; [lia|]. intros ->. change (zlen (@nil Z)) with 0 in Hlen. lia.
Qed.

Lemma decodes_plain t len_bs : text_ok t -> (forall C, reads C (rdbLoadLen C) len_bs (fun r => r = (false, zlen t))) ->
  decodes t (len_bs ++ t).
Proof.
  intros Ht H C encode. eapply reads_bind; [apply H|]. intros ? ->. cbv iota.
  eapply (reads_last C); [by apply rioRead_reads, Ht|]. intros ? ->. by apply reads_ret.
Qed.

(** [t] is a text the functions of snapshots save. *)
Definition saved_as (t : bytes) (n : Z) (bs : bytes) : Prop :=
  n = zlen bs /\ 0 < zlen bs <= zlen t + 9 /\ decodes t bs.

Lemma rdbSaveRawString_writes C S t k : stack_ok C -> text_ok t -> (zlen t <= 11 -> terminated (t ++ k)) ->
  writes C S (rdbSaveRawString C S (t ++ k) (zlen t)) (saved_as t).
Proof.
  intros Hst Hok Hterm. pose proof Hok as [Hb Hmax]. unfold max_text in Hmax. pose proof (zlen_nonneg t).
  unfold rdbSaveRawString.
  apply (writes_bind C S) with (fun enc bs => bs = [] /\ (enc = [] \/ bytes_ok enc /\ 2 <= zlen enc <= 5 /\ decodes t enc)).
  { destruct (Z.leb_spec (zlen t) 11) as [Hs|_]; [|apply writes_ret; by split; [|left]].
    destruct (rdbTryIntegerEncoding_spec C t k (Hterm Hs)) as (enc & E & Henc).
    apply (writes_opt_ret C S _ enc); [done|]. split; [done|]. destruct Henc as [->|[Hl Hd]]; [by left|right].
    split; [|done]. by destruct (Hd C true). }
  intros enc ? _ [-> Henc]. destruct (Z.ltb_spec 0 (zlen enc)) as [Hpos|Hz].
  { destruct Henc as [->|(Hbe & Hl & Hd)]; [done|]. eapply writes_weaken; [apply rdbWriteRaw_writes; [done|lia]|].
    intros ? ? _ [-> ->] _. split; [done|]. split; [cbn [app]; lia|done]. }
  eapply (writes_bind C S) with (fun n bs => n = 0 /\ bs = [] \/ saved_as t n bs).
  { destruct (rdb_compression C && (20 <? zlen t)) eqn:Ec; [|apply writes_ret; by left].
    apply andb_true_iff in Ec as [_ Ec%Z.ltb_lt]. by apply rdbSaveLzfStringObject_writes. }
  intros n b1 _ Hn. destruct (Z.ltb_spec 0 n) as [Hn1|Hn1].
  { destruct Hn as [[-> _]|Hn]; [lia|]. apply writes_ret. rewrite app_nil_r. done. }
  destruct Hn as [[-> ->]|[-> Hn]]; [|lia].
  eapply writes_bind; [apply (rdbSaveLen_writes C S (zlen t)); unfold REDIS_RDB_LENERR; lia|]. intros ? b2 _ (-> & Hl2 & H2).
  destruct (Z.ltb_spec 0 (zlen t)) as [Ht|Ht].
  - eapply writes_opt; [by apply mem_read_prefix|].
    eapply writes_bind; [apply rdbWriteRaw_writes; [done|lia]|]. intros ? ? _ [_ ->].
    apply plus_writes; [cint|]. intros. cbn [app]. rewrite app_nil_r. split; [by rewrite zlen_app|].
    split; [rewrite zlen_app; lia|]. by apply decodes_plain.
  - apply writes_ret. intros. cbn [app]. rewrite app_nil_r. split; [done|]. split; [lia|].
    rewrite <- (app_nil_r b2). destruct t; [by apply decodes_plain|]. rewrite zlen_cons in Ht. pose proof (zlen_nonneg t). lia.
Qed.

Lemma rdbSaveLongLongAsStringObject_writes C S v : in_s 64 v ->
  writes C S (rdbSaveLongLongAsStringObject C S v) (saved_as (sdec v)).
Proof.
  intros Hv. pose proof (sdec_ok v Hv) as Hok. pose proof (sdec_zlen v Hv) as Hl. unfold rdbSaveLongLongAsStringObject. cbv zeta.
  destruct (Z.ltb_spec 0 (zlen (rdbEncodeInteger v))) as [Hpos|_].
  { destruct (rdbEncodeInteger_spec v Hv) as [E|[Hle Hd]]; [by rewrite E in Hpos|].
    eapply writes_weaken; [apply rdbWriteRaw_writes; [by destruct (Hd C true)|lia]|].
    intros ? ? _ [-> ->]. split; [done|]. split; [lia|done]. }
  destruct (print_long (junk C) 32 v Hv ltac:(lia)) as [k E]. eapply writes_opt; [done|]. cbn iota beta.
  destruct (Z.ltb_spec (zlen (sdec v)) 32); [|lia]. eapply (writes_opt C S (Some tt)); [done|].
  eapply writes_bind; [apply (rdbSaveLen_writes C S (zlen (sdec v))); unfold REDIS_RDB_LENERR; lia|]. intros ? b2 _ (-> & Hl2 & H2).
  eapply writes_opt; [by apply mem_read_prefix|].
  eapply writes_bind; [apply rdbWriteRaw_writes; [apply Hok|lia]|]. intros ? ? _ [-> ->].
  apply plus_writes; [cint|]. intros. rewrite app_nil_r. split; [by rewrite zlen_app|].
  split; [rewrite zlen_app; lia|]. by apply decodes_plain.
Qed.

Lemma rdbSaveStringObject_writes C S o : stack_ok C -> str_ok o ->
  writes C S (rdbSaveStringObject C S o) (saved_as (text o)).
Proof.
  intros Hst Ho. destruct o as [v|bs]; cbn [rdbSaveStringObject text]; [by apply rdbSaveLongLongAsStringObject_writes|].
  apply rdbSaveRawString_writes; [done|done|]. intros _. apply strtoll_eptr. apply elem_of_app. right. by left.
Qed.
