(* ===== verification/RdbValues.v ===== *)
(** Values through a snapshot: what [rdbSaveObject] writes of a value that holds
    some content, [rdbLoadObject] reads as a value that holds it, in whatever
    representation the settings of the reader ask for. *)
From stdpp Require Import gmap list strings.
From S2P Require Import Prelude Util Sds SdsText Intset Ziplist ZiplistRep ZiplistOps ZiplistIns ZiplistSpec Crc Lzf Object Server Values Rdb RdbStrings.
Local Open Scope c_scope.

(** ** Blocks are bytes *)

Lemma le_byte x : byte_ok (x .& 0xFF).
Proof. rewrite land_low_byte. pose proof (Z.mod_pos_bound x 256). unfold byte_ok. lia. Qed.

Lemma hdr_bytes s : small s -> bytes_ok (hdr s).
Proof.
  intros Hs. destruct (int_of s) as [v|] eqn:Hi.
  - rewrite (int_hdr s v Hi). constructor; [|constructor]. apply int_of_Some in Hi as [Hv _].
    destruct (int_code_cases v Hv) as [[Hr ->]|(c & n & Hin & -> & _)]; [unfold byte_ok, ZIP_INT_IMM_MIN; lia|].
    cbn in Hin. destruct Hin as [E|[E|[E|[E|[E|[]]]]]]; injection E as <- <-; by_decide.
  - unfold hdr, code, zipEncodeLength_buf. rewrite Hi. change (ZIP_IS_STR 0) with true. cbv iota.
    pose proof (zlen_nonneg s). destruct (Z.leb_spec (zlen s) 0x3f); [|destruct (Z.leb_spec (zlen s) 0x3fff)].
    + change (ZIP_STR_06B .| zlen s) with (zlen s). repeat constructor; lia.
    + constructor; [|constructor; [apply le_byte|constructor]]. change ZIP_STR_14B with (1 * 2 ^ 6).
      rewrite low_bits. pose proof (Z.mod_pos_bound (zlen s >> 8) 64 ltac:(lia)). rewrite high_lor_low by lia.
      unfold byte_ok. lia.
    + constructor; [by_decide|]. repeat constructor; apply le_byte.
Qed.

Lemma enc_data_bytes s : small s -> bytes_ok s -> bytes_ok (enc_data s).
Proof.
  intros Hs Hb. apply Forall_app. split; [by apply hdr_bytes|]. unfold payload. destruct (int_of s); [|done].
  apply le_encode_ok.
Qed.

Lemma ents_bytes l : forall prev, wf prev l -> Forall bytes_ok (ze_data <$> l) -> bytes_ok (ents prev l).
Proof.
  induction l as [|e l IH]; intros prev Hw Hb; [constructor|]. destruct Hw as ([Hp1 Hp2] & Hs & Hw).
  apply Forall_cons in Hb as [Hb1 Hb2]. cbn [ents]. apply Forall_app. split; [|by apply IH].
  apply Forall_app. split; [|by apply enc_data_bytes]. unfold enc_prev. destruct (ze_large e).
  - constructor; [by_decide|apply le_encode_ok].
  - specialize (Hp2 eq_refl). unfold ZIP_BIGLEN in Hp2. repeat constructor; lia.
Qed.

Lemma zrep_bytes zl l : zrep zl l -> Forall text_ok (ze_data <$> l) -> bytes_ok zl.
Proof.
  intros [c -> Hw _ _ _] Hok. unfold zblock, zhead. repeat (apply Forall_app; split); try apply le_encode_ok; [|by_decide].
  apply ents_bytes; [done|]. eapply Forall_impl; [done|]. by intros ? [].
Qed.

(** A small block of either kind is not taken for a number. *)
Lemma zrep_terminated zl l : zrep zl l -> zlen zl <= 11 -> terminated zl.
Proof.
  intros [c -> _ _ _ _] Hl. assert (Ht : total l = 0).
  { pose proof (total_nonneg l). unfold zlen in Hl. rewrite zblock_length in Hl. lia. }
  unfold zblock, zhead. rewrite Ht. unfold terminated.
  change (le_encode 4 (11 + 0)) with [11; 0; 0; 0]. cbn [app]. rewrite strtoll_word by lia. by eexists.
Qed.
Lemma intset_terminated s xs : irep s xs -> terminated (intset_block s).
Proof.
  intros Hr. unfold terminated, intset_block.
  destruct (irep_enc _ _ Hr) as [-> | [-> | ->]];
    [change (le_encode 4 2) with [2; 0; 0; 0]|change (le_encode 4 4) with [4; 0; 0; 0]|change (le_encode 4 8) with [8; 0; 0; 0]];
    cbn [app]; rewrite strtoll_word by lia; by eexists.
Qed.

Lemma elems_bytes e xs : bytes_ok (elems e xs).
Proof. unfold elems. induction xs as [|x xs IH]; [constructor|]. cbn. apply Forall_app. split; [apply le_encode_ok|done]. Qed.
Lemma intset_block_bytes s xs : irep s xs -> bytes_ok (intset_block s).
Proof.
  intros Hr. unfold intset_block. rewrite (irep_mem _ _ Hr). repeat (apply Forall_app; split); try apply le_encode_ok.
  apply elems_bytes.
Qed.
Lemma intset_block_length s xs : irep s xs -> fits xs -> intsetBlobLen s = zlen (intset_block s).
Proof.
  intros Hr Hf. destruct (intset_reads s xs 0 0 Hr Hf ltac:(cint)) as (_ & _ & -> & _). unfold intset_block.
  rewrite !zlen_app. unfold zlen at 2 3. rewrite !le_encode_length. lia.
Qed.
Lemma intset_at_block s xs : irep s xs -> fits xs -> intset_at (intset_block s) = Some s.
Proof.
  intros Hr Hf. pose proof (irep_enc _ _ Hr) as He. pose proof (irep_len _ _ Hr) as Hn. destruct s as [e n m].
  unfold intset_at, intset_block. cbn [is_encoding is_length is_contents] in *. pose proof (zlen_nonneg xs).
  assert (Hl : zlen (le_encode 4 e) = 4 /\ zlen (le_encode 4 n) = 4) by (unfold zlen; by rewrite !le_encode_length).
  destruct Hl as [Hl1 Hl2]. rewrite mem_read_prefix by done. step. rewrite mem_read_app by done. step.
  rewrite !le_decode_encode. change (256 ^ Z.of_nat 4) with (2 ^ 32).
  rewrite app_assoc, drop_app_length' by by rewrite length_app, !le_encode_length.
  rewrite !Z.mod_small; [done|unfold fits in Hf; lia|]. destruct He as [-> | [-> | ->]]; done.
Qed.

(** ** Loading: the settings *)

(** The bounds keep a small representation below 2 GiB; a hash is converted only
    after a pair that is too long has been pushed. *)
Class ConfigOk (C : config) : Prop := {
  cfg_stack : stack_ok C;
  cfg_iterate : forall A (m : gmap bytes A), iterate C A m ≡ₚ map_to_list m;
  cfg_list : 0 <= list_max_ziplist_entries C /\ 0 <= list_max_ziplist_value C /\
    list_max_ziplist_entries C * (list_max_ziplist_value C + 35) <= 2 ^ 29;
  cfg_hash : 0 <= hash_max_ziplist_entries C /\ 0 <= hash_max_ziplist_value C /\
    2 * hash_max_ziplist_entries C * (hash_max_ziplist_value C + 35) <= 2 ^ 29;
  cfg_set : 0 <= set_max_intset_entries C < 2 ^ 28 }.

(** ** Strings, one after the other *)

Definition footprint (l : list strobj) : Z := foldr (fun o n => zlen (text o) + 9 + n) 0 l.
Lemma footprint_cons o l : footprint (o :: l) = zlen (text o) + 9 + footprint l.
Proof. done. Qed.
Lemma footprint_count l : 9 * zlen l <= footprint l.
Proof. induction l as [|o l IH]; [done|]. rewrite zlen_cons, footprint_cons. pose proof (zlen_nonneg (text o)). lia. Qed.

Lemma save_strings_writes C S l : stack_ok C -> Forall str_ok l -> forall nwritten, 0 <= nwritten ->
  nwritten + footprint l < 2 ^ 31 ->
  writes C S (save_strings C S l nwritten) (fun _ bs => exists bss, bs = concat bss /\ Forall2 decodes (text <$> l) bss).
Proof.
  intros Hst. induction 1 as [|o l Ho _ IH]; intros nw Hn Hf.
  { apply writes_ret. by exists []. }
  rewrite footprint_cons in Hf. cbn [save_strings]. pose proof (zlen_nonneg l). pose proof (footprint_count l).
  eapply writes_bind; [by apply rdbSaveStringObject_writes|]. intros ? b1 _ (-> & Hl & Hd).
  apply plus_bind; [cint|]. eapply writes_weaken; [apply IH; lia|].
  intros ? b2 _ (bss & -> & Hbss) _. exists (b1 :: bss). split; [done|]. by constructor.
Qed.

(** A string read with encoding, then encoded. *)
Lemma load_encode C {B} (k : strobj -> IO B) t b1 b2 R : decodes t b1 ->
  (forall o, text o = t -> str_ok o -> reads C (k o) b2 R) ->
  reads C (mbind k (rdbLoadEncodedStringObject C)) (b1 ++ b2) R.
Proof. intros Hd Hk. eapply reads_bind; [apply Hd|]. intros o (Ht & Ho & _). by apply Hk. Qed.
Lemma load_try C {B} (k : strobj -> IO B) o b R : str_ok o ->
  (forall o', text o' = text o -> str_ok o' -> reads C (k o') b R) ->
  reads C (mbind k (opt (tryObjectEncoding o))) b R.
Proof.
  intros Ho Hk. destruct (tryObjectEncoding_text o Ho) as (o' & E & Ht & Ho'). eapply reads_opt; [done|]. by apply Hk.
Qed.

(** ** Lists *)

Lemma ziplistPush_tail junk zl l s : zrep zl l -> text_ok s -> 25 + total l + zlen s < 2 ^ 31 ->
  exists zl' e, ziplistPush junk zl s (zlen s) ZIPLIST_TAIL = Some zl' /\ zrep zl' (l ++ [e]) /\ ze_data e = s /\
    total (l ++ [e]) <= total l + zlen s + 14.
Proof.
  intros Hr [_ Hs] Hb. unfold max_text in Hs. set (e := new_ent (prev_of 0 l) s).
  assert (Hnext : znext l (ZPush s ZIPLIST_TAIL) = l ++ [e]).
  { unfold znext, zpos, ins_ents. change (ZIPLIST_TAIL =? ZIPLIST_HEAD) with false. cbv iota. by rewrite take_ge, drop_ge by done. }
  assert (Ht : total (l ++ [e]) <= total l + zlen s + 14).
  { rewrite total_app. cbn [total]. unfold esize, e. cbn [ze_large ze_data new_ent].
    pose proof (dsize_small s ltac:(unfold small; lia)). destruct (psize_cases (bool_decide (ZIP_BIGLEN <= prev_of 0 l))); lia. }
  destruct (zexec_spec junk zl l (ZPush s ZIPLIST_TAIL) Hr) as (zl' & E & Hr' & _).
  { unfold zvalid. rewrite Hnext. split; [lia|]. split; [done|]. unfold zpos.
    change (ZIPLIST_TAIL =? ZIPLIST_HEAD) with false. cbv iota. by rewrite drop_ge. }
  rewrite Hnext in Hr'. exists zl', e. done.
Qed.

Section Load.
Context (C : config) {HC : ConfigOk C}.

(** A list of which [ts] has been read. *)
Definition list_state (o : value) (ts : list bytes) : Prop :=
  match o with
  | VListZiplist zl => exists l, zrep zl l /\ ze_data <$> l = ts /\ Forall text_ok ts /\
      total l <= zlen ts * (list_max_ziplist_value C + 35)
  | VLinkedList l => Forall str_ok l /\ text <$> l = ts
  | _ => False
  end.
Lemma list_state_holds o ts : list_state o ts -> holds o (CList ts).
Proof.
  destruct o; cbn; try done.
  - intros (l & Hr & <- & Hok & _). by constructor.
  - intros [Hok <-]. by constructor.
Qed.

Lemma load_list_reads ts bss : Forall2 decodes ts bss -> forall o acc, list_state o acc ->
  match o with VListZiplist _ => zlen acc + zlen ts <= list_max_ziplist_entries C | _ => True end ->
  reads C (load_list C (length ts) o) (concat bss) (fun v => holds v (CList (acc ++ ts))).
Proof.
  destruct (cfg_list (C := C)) as (He & Hv & Hmul).
  induction 1 as [|t b ts bss Hd _ IH]; intros o acc Ho Hn.
  { apply reads_ret. rewrite app_nil_r. by apply list_state_holds. }
  cbn [length load_list concat]. apply (load_encode C _ t); [done|]. intros ele Ht Hele. rewrite zlen_cons in Hn.
  replace (acc ++ t :: ts) with ((acc ++ [t]) ++ ts) by by rewrite <- app_assoc. pose proof (zlen_nonneg ts). pose proof (zlen_nonneg acc).
  assert (Hlinked : forall l, list_state (VLinkedList l) acc ->
    reads C (ele ← opt (tryObjectEncoding ele); load_list C (length ts) (VLinkedList (l ++ [ele]))) (concat bss)
      (fun v => holds v (CList ((acc ++ [t]) ++ ts)))).
  { intros l [Hl Hacc]. apply load_try; [done|]. intros e' He' Hok. apply IH; [|done]. split.
    - apply Forall_app. by split; [|constructor].
    - rewrite fmap_app, Hacc. cbn. by rewrite He', Ht. }
  destruct o as [|zl|l| | | |]; try done; cbv iota beta.
  2: { eapply (reads_opt C (Some (VLinkedList l))); [done|]. by apply Hlinked. }
  destruct (sdsEncoded ele && (list_max_ziplist_value C <? zlen (text ele))) eqn:E.
  { destruct (listTypeConvert_spec zl _ (list_state_holds _ _ Ho)) as (v & Ev & Hlv).
    eapply reads_opt; [done|]. apply Hlinked. inversion Hlv. by split. }
  eapply (reads_opt C (Some (VListZiplist zl))); [done|]. cbv iota beta.
  eapply reads_opt; [by apply decoded_text|]. destruct Ho as (l & Hr & Hd' & Hok & Htot).
  assert (Hlen : zlen t <= list_max_ziplist_value C + 21).
  { rewrite <- Ht. destruct ele as [v|bs]; cbn in E |- *; [pose proof (sdec_zlen v Hele); lia|lia]. }
  assert (Hgrow : total l + zlen t + 14 <= (zlen acc + 1) * (list_max_ziplist_value C + 35)) by nia.
  assert (Hcap : (zlen acc + 1) * (list_max_ziplist_value C + 35) <= 2 ^ 29) by nia.
  destruct (ziplistPush_tail (junk C) zl l (text ele) Hr) as (zl' & e & E' & Hr' & He' & Ht'); [by apply text_str_ok|rewrite Ht; lia|].
  eapply reads_opt; [done|]. apply IH; [|rewrite zlen_app_one; lia].
  exists (l ++ [e]). rewrite fmap_app, Hd', zlen_app_one. cbn. rewrite He', Ht. split; [done|]. split; [done|].
  rewrite Ht in Ht'. split; [|lia]. apply Forall_app. split; [done|]. constructor; [|constructor]. rewrite <- Ht. by apply text_str_ok.
Qed.

(** ** Sets *)

Definition set_state (o : value) (ts : list bytes) : Prop :=
  match o with
  | VIntset s => exists xs, irep s xs /\ (forall t, t ∈ ts <-> t ∈ sdec <$> xs) /\ zlen xs <= zlen ts
  | VSetTable m => map_Forall (fun k o => text o = k /\ str_ok o) m /\ dom m = list_to_set ts
  | _ => False
  end.
Definition small_set (o : value) (n : Z) : Prop :=
  match o with VIntset _ => n <= set_max_intset_entries C | _ => True end.
Lemma set_state_holds o ts : set_state o ts -> small_set o (zlen ts) -> holds o (CSet (list_to_set ts)).
Proof.
  pose proof (cfg_set (C := C)) as Hm. destruct o; cbn; try done.
  - intros (xs & Hr & Hin & Hl) Hn. assert (list_to_set ts = (list_to_set (sdec <$> xs) : gset bytes)) as ->.
    { apply set_eq. intros t. rewrite !elem_of_list_to_set. apply Hin. }
    constructor; [done|]. unfold fits. lia.
  - intros [Hm' <-] _. by constructor.
Qed.

Lemma add_member_dom m ele : dom (add_member m ele) = {[text ele]} ∪ dom m.
Proof.
  unfold add_member, dictAdd. destruct (m !! text ele) as [x|] eqn:E; cbn.
  - assert (text ele ∈ dom m) by (apply elem_of_dom; by eexists). set_solver.
  - by rewrite dom_insert_L.
Qed.
Lemma add_member_state m ts ele : set_state (VSetTable m) ts -> str_ok ele ->
  set_state (VSetTable (add_member m ele)) (ts ++ [text ele]).
Proof.
  intros [Hm Hd] He. split; [|rewrite add_member_dom, Hd, list_to_set_app_L; cbn; set_solver].
  unfold add_member, dictAdd. destruct (m !! text ele); cbn; [done|]. by apply map_Forall_insert_2.
Qed.
Lemma intsetAdd_state s ts v : set_state (VIntset s) ts -> zlen ts < 2 ^ 28 -> in_s 64 v ->
  exists s' x, intsetAdd (junk C) s v = Some (s', x) /\ set_state (VIntset s') (ts ++ [sdec v]).
Proof.
  intros (xs & Hr & Hin & Hl) Hn Hv. destruct (intsetAdd_spec (junk C) s xs v Hr ltac:(unfold fits; lia) Hv) as (s' & xs' & E & Hr' & Hx).
  exists s', (if decide (v ∈ xs) then 0 else 1). split; [exact E|]. exists xs'. split; [done|]. split.
  - intros t. rewrite elem_of_app, Hin, list_elem_of_singleton, !list_elem_of_fmap. naive_solver.
  - rewrite zlen_app_one. assert (Hsub : xs' ⊆+ v :: xs).
    { apply NoDup_submseteq; [|intros x Hx'; apply Hx in Hx'; by apply elem_of_cons].
      pose proof (irep_sorted _ _ Hr') as Hs. clear -Hs. induction Hs as [|x xs _ IH Hfa]; constructor; [|done].
      rewrite Forall_forall in Hfa. intros Hx%Hfa. lia. }
    apply submseteq_length in Hsub. unfold zlen in *. cbn in Hsub. lia.
Qed.

Lemma load_set_reads ts bss : Forall2 decodes ts bss -> forall o acc, set_state o acc ->
  small_set o (zlen acc + zlen ts) ->
  reads C (load_set C (length ts) o) (concat bss) (fun v => holds v (CSet (list_to_set (acc ++ ts)))).
Proof.
  pose proof (cfg_set (C := C)) as Hm. induction 1 as [|t b ts bss Hd _ IH]; intros o acc Ho Hn.
  { apply reads_ret. rewrite app_nil_r. rewrite zlen_nil, Z.add_0_r in Hn. by apply set_state_holds. }
  cbn [length load_set concat]. apply (load_encode C _ t); [done|]. intros ele0 Ht0 Hele0. apply load_try; [done|].
  intros ele Ht Hele. rewrite Ht0 in Ht. rewrite zlen_cons in Hn. pose proof (zlen_nonneg ts). pose proof (zlen_nonneg acc).
  replace (acc ++ t :: ts) with ((acc ++ [t]) ++ ts) by by rewrite <- app_assoc.
  assert (Htable : forall m, set_state (VSetTable m) acc ->
    reads C (load_set C (length ts) (VSetTable (add_member m ele))) (concat bss)
      (fun v => holds v (CSet (list_to_set ((acc ++ [t]) ++ ts))))).
  { intros m Hs. apply IH; [|done]. rewrite <- Ht. by apply add_member_state. }
  destruct o as [| | |s|m| |]; try done; cbv iota beta; [|by apply Htable]. cbn in Hn.
  destruct (representable_text ele Hele) as [(v & Hv & Etxt & E)|[Hno E]]; (eapply reads_opt; [done|]); cbv iota beta.
  - destruct (intsetAdd_state s acc v Ho ltac:(lia) Hv) as (s' & x & E' & Hs'). eapply reads_opt; [done|]. cbv iota beta.
    apply IH; [by rewrite <- Ht, Etxt|cbn; rewrite zlen_app_one; lia].
  - destruct (setTypeConvert_spec s _ (set_state_holds _ _ Ho ltac:(cbn; lia))) as (m & E' & Hm').
    eapply reads_opt; [done|]. cbv iota beta. apply Htable. inversion Hm' as [| | |m' Hall Em Ec| | |]. by split.
Qed.

(** ** Hashes *)

Lemma load_hash_table_reads kvs : forall bss m acc, Forall2 decodes (flat kvs) bss -> pairs_ok m ->
  text ∘ snd <$> m = list_to_map acc -> NoDup (acc ++ kvs).*1 ->
  reads C (load_hash_table C (length kvs) m) (concat bss) (fun v => holds v (CHash (list_to_map (acc ++ kvs)))).
Proof.
  induction kvs as [|[f v] kvs IH]; intros bss m acc Hd Hm Hmap Hnd.
  { inversion Hd. subst. apply reads_ret. rewrite app_nil_r, <- Hmap. by constructor. }
  change (flat ((f, v) :: kvs)) with (f :: v :: flat kvs) in Hd.
  apply Forall2_cons_inv_l in Hd as (fb & bss1 & Hf & Hd & ->). apply Forall2_cons_inv_l in Hd as (vb & bss2 & Hv & Hd & ->).
  cbn [length load_hash_table concat]. apply (load_encode C _ f); [done|]. intros fo0 Hft0 Hfo0.
  apply (load_encode C _ v); [done|]. intros vo0 Hvt0 Hvo0. apply load_try; [done|]. intros fo Hft Hfo.
  apply load_try; [done|]. intros vo Hvt Hvo. rewrite Hft0 in Hft. rewrite Hvt0 in Hvt.
  assert (Hnew : f ∉ acc.*1).
  { rewrite fmap_app, fmap_cons in Hnd. apply NoDup_app in Hnd as (_ & Hdis & _). intros Hin. apply (Hdis f Hin). by left. }
  eapply reads_opt.
  { apply dictAdd_new. rewrite Hft. assert (Hnone : (list_to_map acc : gmap bytes bytes) !! f = None) by by apply not_elem_of_list_to_map_1.
    rewrite <- Hmap, lookup_fmap in Hnone. by destruct (m !! f). }
  replace (acc ++ (f, v) :: kvs) with ((acc ++ [(f, v)]) ++ kvs) in * by by rewrite <- app_assoc.
  apply IH; [done|by apply map_Forall_insert_2| |done].
  rewrite fmap_insert, Hmap. cbn. rewrite Hft, Hvt. symmetry. by apply list_to_map_snoc.
Qed.

Lemma reads_assoc {A B D} (m : IO A) (f : A -> IO B) (k : B -> IO D) bs R :
  reads C (mbind (fun a => mbind k (f a)) m) bs R -> reads C (mbind k (mbind f m)) bs R.
Proof.
  intros [Hb H]. split; [done|]. intros r rest Hr Hi. destruct (H r rest Hr Hi) as (a & E & Ha). exists a. split; [|done].
  rewrite <- E. unfold mbind, IO_bind. by destruct (m r) as [[[x r']|]|].
Qed.
(** A bind whose first part is one too, on its first part. *)
Lemma load_plain {B} (k : strobj -> IO B) t b1 b2 R : decodes t b1 ->
  (forall o, text o = t -> str_ok o -> sdsEncoded o = true -> reads C (k o) b2 R) ->
  reads C (mbind k (rdbLoadStringObject C)) (b1 ++ b2) R.
Proof. intros Hd Hk. eapply reads_bind; [apply Hd|]. intros o (Ht & Ho & He). apply Hk; [done|done|by apply He]. Qed.

(** The rest of the function after the loop over the ziplist. *)
Definition hash_rest (r : value * nat) : IO value :=
  let '(o, len) := r in
  match o with
  | VHashTable m => load_hash_table C len m
  | _ => assert (bool_decide (len = O));; mret o
  end.

(** A hash of which the pairs [acc] have been read into a ziplist. *)
Record hash_state (zl : bytes) (l : list zent) (acc : list (bytes * bytes)) : Prop := {
  hs_rep : zrep zl l; hs_data : ze_data <$> l = flat acc; hs_ok : Forall text_ok (ze_data <$> l);
  hs_total : total l <= 2 * zlen acc * (hash_max_ziplist_value C + 35) }.

Lemma flat_snoc acc f v : flat (acc ++ [(f, v)]) = flat acc ++ [f; v].
Proof. unfold flat. by rewrite fmap_app, concat_app. Qed.

Lemma push_pair zl l acc f v : hash_state zl l acc -> text_ok f -> text_ok v ->
  zlen acc < hash_max_ziplist_entries C ->
  exists zl1 zl2 l2, ziplistPush (junk C) zl f (zlen f) ZIPLIST_TAIL = Some zl1 /\
    ziplistPush (junk C) zl1 v (zlen v) ZIPLIST_TAIL = Some zl2 /\ zrep zl2 l2 /\
    ze_data <$> l2 = flat (acc ++ [(f, v)]) /\ Forall text_ok (ze_data <$> l2) /\ total l2 <= total l + zlen f + zlen v + 28.
Proof.
  destruct (cfg_hash (C := C)) as (He & Hv & Hmul). intros [Hr Hd Hok Ht] Hf Hvt Hn.
  pose proof Hf as [_ Hfl]. pose proof Hvt as [_ Hvl]. unfold max_text in Hfl, Hvl. pose proof (zlen_nonneg acc).
  assert (Hcap : 2 * zlen acc * (hash_max_ziplist_value C + 35) <= 2 ^ 29) by nia.
  destruct (ziplistPush_tail (junk C) zl l f Hr Hf) as (zl1 & e1 & E1 & Hr1 & He1 & Ht1); [lia|].
  destruct (ziplistPush_tail (junk C) zl1 _ v Hr1 Hvt) as (zl2 & e2 & E2 & Hr2 & He2 & Ht2); [lia|].
  assert (Hdata : ze_data <$> ((l ++ [e1]) ++ [e2]) = flat (acc ++ [(f, v)])).
  { rewrite !fmap_app, Hd, flat_snoc, <- app_assoc. cbn. by rewrite He1, He2. }
  exists zl1, zl2, ((l ++ [e1]) ++ [e2]). split; [done|]. split; [done|]. split; [done|]. split; [done|]. split; [|lia].
  rewrite Hdata, flat_snoc, <- Hd. apply Forall_app. split; [done|]. constructor; [done|constructor; [done|constructor]].
Qed.

Lemma load_hash_ziplist_reads kvs : forall bss zl l acc, Forall2 decodes (flat kvs) bss -> hash_state zl l acc ->
  zlen acc + zlen kvs <= hash_max_ziplist_entries C -> NoDup (acc ++ kvs).*1 ->
  reads C (mbind hash_rest (load_hash_ziplist C (length kvs) zl)) (concat bss)
    (fun v => holds v (CHash (list_to_map (acc ++ kvs)))).
Proof.
  induction kvs as [|[f v] kvs IH]; intros bss zl l acc Hd Hs Hn Hnd.
  { inversion Hd. subst. rewrite app_nil_r in *. destruct Hs. cbn [load_hash_ziplist length concat].
    eapply (reads_opt C (Some (VHashZiplist zl, O))); [done|]. apply reads_assert; [done|]. apply reads_ret. by econstructor. }
  change (flat ((f, v) :: kvs)) with (f :: v :: flat kvs) in Hd. rewrite zlen_cons in Hn. pose proof (zlen_nonneg kvs).
  apply Forall2_cons_inv_l in Hd as (fb & bss1 & Hf & Hd & ->). apply Forall2_cons_inv_l in Hd as (vb & bss2 & Hv & Hd & ->).
  cbn [length load_hash_ziplist concat]. apply reads_assoc, (load_plain _ f); [done|]. intros fo Hft Hfo Hfe.
  apply reads_assoc, reads_assert; [done|]. apply reads_assoc, (load_plain _ v); [done|]. intros vo Hvt Hvo Hve.
  apply reads_assoc, reads_assert; [done|]. rewrite Hft, Hvt.
  assert (Hfok : text_ok f) by (rewrite <- Hft; by apply text_str_ok). assert (Hvok : text_ok v) by (rewrite <- Hvt; by apply text_str_ok).
  destruct (push_pair zl l acc f v Hs Hfok Hvok) as (zl1 & zl2 & l2 & E1 & E2 & Hr2 & Hd2 & Hok2 & Ht2); [lia|].
  apply reads_assoc. eapply reads_opt; [done|]. apply reads_assoc. eapply reads_opt; [done|].
  replace (acc ++ (f, v) :: kvs) with ((acc ++ [(f, v)]) ++ kvs) in * by by rewrite <- app_assoc.
  assert (Hnd1 : NoDup (acc ++ [(f, v)]).*1) by (rewrite fmap_app in Hnd; by apply NoDup_app in Hnd as [? _]).
  destruct (_ || _) eqn:E.
  - assert (Hh : holds (VHashZiplist zl2) (CHash (list_to_map (acc ++ [(f, v)])))) by by econstructor.
    destruct (hashTypeConvert_spec zl2 _ Hh) as (m & E3 & Hm). apply reads_assoc. eapply reads_opt; [done|].
    eapply (reads_opt C (Some (VHashTable m, length kvs))); [done|]. inversion Hm as [| | | | |m' Hall Em Ec|]. subst m'.
    by apply load_hash_table_reads.
  - apply (IH _ _ l2); [done| |rewrite zlen_app_one; lia|done]. apply orb_false_iff in E as [Ef%Z.ltb_ge Ev%Z.ltb_ge].
    split; [done|done|done|]. destruct Hs as [_ _ _ Ht]. rewrite zlen_app_one. lia.
Qed.
End Load.

(** ** Saving *)

(** The string objects a value in a large representation is written as. *)
Definition written (C : config) (v : value) : list strobj :=
  match v with
  | VLinkedList l => l
  | VSetTable m => snd <$> iterate C strobj m
  | VHashTable m => concat ((fun e => [e.2.1; e.2.2]) <$> iterate C (strobj * strobj) m)
  | _ => []
  end.

(** A block fits a string; what else is written of a value is counted in an [int]. *)
Definition small_enough (C : config) (v : value) : Prop :=
  match v with
  | VString _ => True
  | VListZiplist zl | VHashZiplist zl => zlen zl <= max_text
  | VIntset s => intsetBlobLen s <= max_text
  | _ => 5 + footprint (written C v) < 2 ^ 31
  end.

(** What is written of a value is read as a value that holds [c]. *)
Definition restores (v : value) (c : content) (bs : bytes) : Prop := forall C, ConfigOk C ->
  reads C (rdbLoadObject C (rdb_type v)) bs (fun v' => holds v' c).

Section Save.
Context (C : config) (S : system) {HC : ConfigOk C}.

Lemma save_block_writes block v c : bytes_ok block -> zlen block <= max_text -> (zlen block <= 11 -> terminated block) ->
  (forall bs, decodes block bs -> restores v c bs) ->
  writes C S (rdbSaveRawString C S block (zlen block)) (fun _ bs => restores v c bs).
Proof.
  intros Hb Hl Ht Hr. pose proof (rdbSaveRawString_writes C S block [] cfg_stack (conj Hb Hl)) as H. rewrite app_nil_r in H.
  eapply writes_weaken; [by apply H|]. intros n bs _ (_ & _ & Hd). by apply Hr.
Qed.

(** A count and the strings. *)
Lemma save_all_writes l n v c : Forall str_ok l -> 5 + footprint l < 2 ^ 31 -> 0 <= n <= zlen l ->
  (forall len_bs bss, (forall C', reads C' (rdbLoadLen C') len_bs (fun r => r = (false, n))) ->
     Forall2 decodes (text <$> l) bss -> restores v c (len_bs ++ concat bss)) ->
  writes C S (nwritten ← rdbSaveLen C S n; save_strings C S l nwritten) (fun _ bs => restores v c bs).
Proof.
  intros Hl Hf Hn Hr. pose proof (footprint_count l).
  eapply writes_bind; [apply (rdbSaveLen_writes C S n); unfold REDIS_RDB_LENERR; lia|]. intros ? b1 _ (-> & Hl1 & H1).
  eapply writes_weaken; [apply save_strings_writes; [apply cfg_stack|done|lia|lia]|].
  intros ? b2 _ (bss & -> & Hbss) _. by apply Hr.
Qed.

Lemma set_written m : map_Forall (fun k o => text o = k /\ str_ok o) m ->
  Forall str_ok (written C (VSetTable m)) /\ list_to_set (text <$> written C (VSetTable m)) = dom m /\
  zlen (written C (VSetTable m)) = Z.of_nat (size m).
Proof.
  intros Hm. cbn [written]. pose proof (cfg_iterate (C := C) strobj m) as Hp. split; [|split].
  - apply Forall_fmap, Forall_forall. intros [k o] Hin. rewrite Hp in Hin. apply elem_of_map_to_list in Hin. cbn. by apply (Hm k).
  - apply set_eq. intros k. rewrite elem_of_list_to_set, elem_of_dom, <- list_fmap_compose, list_elem_of_fmap. split.
    + intros ([k' o] & -> & Hin). rewrite Hp in Hin. apply elem_of_map_to_list in Hin. cbn.
      destruct (Hm k' o Hin) as [-> _]. by eexists.
    + intros [o Ho]. exists (k, o). split; [cbn; symmetry; by apply (Hm k o)|]. rewrite Hp. by apply elem_of_map_to_list.
  - unfold zlen. rewrite length_fmap, (Permutation_length Hp), length_map_to_list. done.
Qed.

(** The pairs of a hash in the order of iteration. *)
Definition hash_pairs (m : gmap bytes (strobj * strobj)) : list (bytes * bytes) :=
  (fun e => (text e.2.1, text e.2.2)) <$> iterate C (strobj * strobj) m.
Lemma flat_map_text (l : list (bytes * (strobj * strobj))) :
  text <$> concat ((fun e => [e.2.1; e.2.2]) <$> l) = flat ((fun e => (text e.2.1, text e.2.2)) <$> l).
Proof. unfold flat. induction l as [|e l IH]; [done|]. cbn in *. by rewrite IH. Qed.
Lemma hash_written m : pairs_ok m ->
  Forall str_ok (written C (VHashTable m)) /\ text <$> written C (VHashTable m) = flat (hash_pairs m) /\
  NoDup (hash_pairs m).*1 /\ list_to_map (hash_pairs m) = text ∘ snd <$> m /\ length (hash_pairs m) = size m.
Proof.
  intros Hm. cbn [written]. unfold hash_pairs. pose proof (cfg_iterate (C := C) _ m) as Hp.
  assert (Hall : Forall (fun e => m !! e.1 = Some e.2) (iterate C (strobj * strobj) m)).
  { apply Forall_forall. intros [k p] Hin. rewrite Hp in Hin. by apply elem_of_map_to_list in Hin. }
  assert (Hpairs : (fun e : bytes * (strobj * strobj) => (text e.2.1, text e.2.2)) <$> iterate C (strobj * strobj) m =
    prod_map id (text ∘ snd) <$> iterate C (strobj * strobj) m).
  { apply list_fmap_ext. intros i [k p] Hi. eapply Forall_lookup_1 in Hall; [|done]. cbn in *. f_equal. by apply (Hm k p). }
  split; [|split; [apply flat_map_text|]].
  - apply Forall_concat, Forall_fmap. eapply Forall_impl; [done|]. intros [k p] Hk. cbn in *. destruct (Hm k p Hk) as (_ & H1 & H2). by repeat constructor.
  - rewrite Hpairs. assert (Hfst : (prod_map id (text ∘ snd) <$> iterate C (strobj * strobj) m).*1 ≡ₚ (map_to_list m).*1).
    { rewrite <- list_fmap_compose, Hp. done. }
    assert (Hnd : NoDup (prod_map id (text ∘ snd) <$> iterate C (strobj * strobj) m).*1) by (rewrite Hfst; apply NoDup_fst_map_to_list).
    split; [done|]. split; [|by rewrite length_fmap, (Permutation_length Hp), length_map_to_list].
    rewrite (list_to_map_proper _ (prod_map id (text ∘ snd) <$> map_to_list m)); [|done|by rewrite Hp].
    rewrite <- map_to_list_fmap. apply list_to_map_to_list.
Qed.
End Save.

(** ** Restoring *)

Lemma restores_string o bs : decodes (text o) bs -> restores (VString o) (CString (text o)) bs.
Proof.
  intros Hd C _. change (rdbLoadObject C (rdb_type (VString o))) with
    (o ← rdbLoadEncodedStringObject C; o ← opt (tryObjectEncoding o); mret (VString o)).
  rewrite <- (app_nil_r bs). apply (load_encode C _ (text o)); [done|]. intros o1 Ht Ho. apply load_try; [done|].
  intros o2 Ht2 Ho2. apply reads_ret. rewrite <- Ht, <- Ht2. by constructor.
Qed.

Lemma restores_list l len_bs bss : (forall C, reads C (rdbLoadLen C) len_bs (fun r => r = (false, zlen l))) ->
  Forall2 decodes (text <$> l) bss -> restores (VLinkedList l) (CList (text <$> l)) (len_bs ++ concat bss).
Proof.
  intros Hlen Hd C HC. change (rdbLoadObject C (rdb_type (VLinkedList l))) with
    (len ← rdbLoadLen_plain C;
     o ← (if list_max_ziplist_entries C <? len then mret (VLinkedList [])
          else zl ← opt (ziplistNew (junk C)); mret (VListZiplist zl));
     load_list C (Z.to_nat len) o).
  eapply reads_bind; [apply load_len_plain, Hlen|]. intros ? ->. rewrite zlen_to_nat, <- (length_fmap text l), <- (zlen_fmap text l).
  destruct (Z.ltb_spec (list_max_ziplist_entries C) (zlen (text <$> l))).
  - eapply (reads_opt C (Some (VLinkedList []))); [done|]. by apply (load_list_reads C _ bss Hd _ []).
  - destruct (ziplistNew_spec (junk C)) as (zl & E & Hr). apply reads_assoc. eapply reads_opt; [done|].
    eapply (reads_opt C (Some (VListZiplist zl))); [done|]. apply (load_list_reads C _ bss Hd _ []); [|rewrite zlen_nil; lia].
    exists []. split; [done|]. split; [done|]. split; [constructor|]. change (zlen (@nil bytes)) with 0. cbn [total]. lia.
Qed.

Lemma restores_set m ts len_bs bss : (forall C, reads C (rdbLoadLen C) len_bs (fun r => r = (false, zlen ts))) ->
  Forall2 decodes ts bss -> restores (VSetTable m) (CSet (list_to_set ts)) (len_bs ++ concat bss).
Proof.
  intros Hlen Hd C HC. change (rdbLoadObject C (rdb_type (VSetTable m))) with
    (len ← rdbLoadLen_plain C;
     load_set C (Z.to_nat len) (if set_max_intset_entries C <? len then VSetTable ∅ else VIntset intsetNew)).
  eapply reads_bind; [apply load_len_plain, Hlen|]. intros ? ->. rewrite zlen_to_nat.
  apply (load_set_reads C _ bss Hd _ []); destruct (Z.ltb_spec (set_max_intset_entries C) (zlen ts)); cbn; try done.
  exists []. split; [apply irep_new|]. split; [done|]. done.
Qed.

Lemma restores_hash m kvs len_bs bss : (forall C, reads C (rdbLoadLen C) len_bs (fun r => r = (false, zlen kvs))) ->
  Forall2 decodes (flat kvs) bss -> NoDup kvs.*1 ->
  restores (VHashTable m) (CHash (list_to_map kvs)) (len_bs ++ concat bss).
Proof.
  intros Hlen Hd Hnd C HC. change (rdbLoadObject C (rdb_type (VHashTable m))) with
    (len ← rdbLoadLen_plain C;
     zl ← opt (ziplistNew (junk C));
     mbind (hash_rest C) (if hash_max_ziplist_entries C <? len
       then o ← opt (hashTypeConvert zl); mret (o, Z.to_nat len)
       else load_hash_ziplist C (Z.to_nat len) zl)).
  eapply reads_bind; [apply load_len_plain, Hlen|]. intros ? ->. rewrite zlen_to_nat.
  destruct (ziplistNew_spec (junk C)) as (zl & E & Hr). eapply reads_opt; [done|].
  destruct (Z.ltb_spec (hash_max_ziplist_entries C) (zlen kvs)).
  - assert (Hh : holds (VHashZiplist zl) (CHash (list_to_map []))) by (eapply holds_hash_ziplist; [done|constructor|done|constructor]).
    destruct (hashTypeConvert_spec zl _ Hh) as (m0 & E0 & Hm). apply reads_assoc. eapply reads_opt; [done|].
    eapply (reads_opt C (Some (VHashTable m0, length kvs))); [done|]. inversion Hm as [| | | | |m' Hall Em Ec|]. subst m'.
    by apply (load_hash_table_reads C kvs bss m0 []).
  - apply (load_hash_ziplist_reads C kvs bss zl [] []); [done| |rewrite zlen_nil; lia|done].
    split; [done|done|constructor|]. change (zlen (@nil (bytes * bytes))) with 0. cbn [total]. lia.
Qed.

(** The small representations, as blocks. *)
Section Blocks.
Context (C : config) {HC : ConfigOk C}.

Lemma load_block_reads {A} (k : bytes -> IO A) block bs R : decodes block bs -> reads C (k block) [] R ->
  reads C (aux ← rdbLoadStringObject C; k (text aux)) bs R.
Proof. intros Hd Hk. rewrite <- (app_nil_r bs). apply (load_plain C _ block); [done|]. by intros o -> _ _. Qed.

Definition list_block (block : bytes) : IO value :=
  '(n, zl) ← opt (ziplistLen block);
  if list_max_ziplist_entries C <? n then opt (listTypeConvert zl) else mret (VListZiplist zl).
Definition hash_block (block : bytes) : IO value :=
  '(n, zl) ← opt (hashTypeLength block);
  if hash_max_ziplist_entries C <? n then opt (hashTypeConvert zl) else mret (VHashZiplist zl).
Definition set_block (block : bytes) : IO value :=
  s ← opt (intset_at block);
  if set_max_intset_entries C <? intsetLen s then opt (setTypeConvert s) else mret (VIntset s).

Lemma read_list_block zl l : zrep zl l -> Forall text_ok (ze_data <$> l) ->
  reads C (list_block zl) [] (fun v => holds v (CList (ze_data <$> l))).
Proof.
  intros Hr Hok. destruct (ziplistLen_spec zl l Hr) as (zl' & E & Hr'). eapply reads_opt; [done|]. cbv iota beta.
  assert (Hh : holds (VListZiplist zl') (CList (ze_data <$> l))) by by constructor. destruct (_ <? _); [|by apply reads_ret].
  destruct (listTypeConvert_spec zl' _ Hh) as (l' & E' & Hl'). by eapply reads_opt_ret.
Qed.
Lemma read_hash_block zl l kvs : zrep zl l -> Forall text_ok (ze_data <$> l) -> ze_data <$> l = flat kvs -> NoDup kvs.*1 ->
  reads C (hash_block zl) [] (fun v => holds v (CHash (list_to_map kvs))).
Proof.
  intros Hr Hok Hd Hnd. destruct (ziplistLen_spec zl l Hr) as (zl' & E & Hr'). eapply reads_opt; [unfold hashTypeLength; by rewrite E|].
  cbv iota beta. assert (Hh : holds (VHashZiplist zl') (CHash (list_to_map kvs))) by by econstructor.
  destruct (_ <? _); [|by apply reads_ret].
  destruct (hashTypeConvert_spec zl' _ Hh) as (m & E' & Hm). by eapply reads_opt_ret.
Qed.
Lemma read_set_block s xs : irep s xs -> fits xs ->
  reads C (set_block (intset_block s)) [] (fun v => holds v (CSet (list_to_set (sdec <$> xs)))).
Proof.
  intros Hr Hf. eapply reads_opt; [by eapply intset_at_block|].
  assert (Hh : holds (VIntset s) (CSet (list_to_set (sdec <$> xs)))) by by constructor. destruct (_ <? _); [|by apply reads_ret].
  destruct (setTypeConvert_spec s _ Hh) as (m & E' & Hm). by eapply reads_opt_ret.
Qed.
End Blocks.

Lemma rdbSaveObject_writes C S v c : ConfigOk C -> holds v c -> small_enough C v ->
  writes C S (rdbSaveObject C S v) (fun _ bs => restores v c bs).
Proof.
  intros HC Hv Hs. pose proof Hv as Hv'. destruct Hv' as [o Ho|l Hl|zl l Hr Hok|m Hm|s xs Hr Hf|m Hm|zl l kvs Hr Hok Hd Hnd]; cbn [rdbSaveObject].
  - eapply writes_weaken; [apply rdbSaveStringObject_writes; [apply cfg_stack|done]|].
    intros n bs _ (_ & _ & Hd). by apply restores_string.
  - pose proof (zlen_nonneg l). apply (save_all_writes C S); [done|done|lia|]. intros. by apply restores_list.
  - rewrite (ziplistBlobLen_spec zl l Hr). eapply writes_opt; [done|].
    apply (save_block_writes C S); [by eapply zrep_bytes|done| |].
    { by eapply zrep_terminated. }
    intros bs Hd C' HC'. change (reads C' (aux ← rdbLoadStringObject C'; list_block C' (text aux)) bs (fun v' => holds v' (CList (ze_data <$> l)))).
    apply (load_block_reads C' _ zl); [done|]. by apply read_list_block.
  - destruct (set_written C m Hm) as (Hok & Hset & Hlen). cbn [written small_enough] in *. rewrite <- Hset.
    apply (save_all_writes C S); [done|done|rewrite Hlen; lia|]. intros len_bs bss Hread Hd. apply restores_set; [|done].
    by rewrite zlen_fmap, Hlen.
  - cbn [small_enough] in Hs. rewrite (intset_block_length s xs Hr Hf) in *. apply (save_block_writes C S); [by eapply intset_block_bytes|done| |].
    { intros _. by eapply intset_terminated. }
    intros bs Hd C' HC'. change (reads C' (aux ← rdbLoadStringObject C'; set_block C' (text aux)) bs (fun v' => holds v' (CSet (list_to_set (sdec <$> xs))))).
    apply (load_block_reads C' _ (intset_block s)); [done|]. by apply read_set_block.
  - destruct (hash_written C m Hm) as (Hok & Hflat & Hnd & Hmap & Hlen). cbn [written small_enough] in *. rewrite <- Hmap.
    apply (save_all_writes C S); [done|done| |].
    { split; [lia|]. rewrite <- Hlen, <- (zlen_fmap text). cbn [written]. rewrite Hflat. unfold zlen. rewrite flat_length. lia. }
    intros len_bs bss Hread Hd. rewrite Hflat in Hd. apply restores_hash; [|done|done]. unfold zlen. by rewrite Hlen.
  - rewrite (ziplistBlobLen_spec zl l Hr). eapply writes_opt; [done|].
    apply (save_block_writes C S); [by eapply zrep_bytes|done| |].
    { by eapply zrep_terminated. }
    intros bs Hd' C' HC'. change (reads C' (aux ← rdbLoadStringObject C'; hash_block C' (text aux)) bs (fun v' => holds v' (CHash (list_to_map kvs)))).
    apply (load_block_reads C' _ zl); [done|]. by eapply read_hash_block.
Qed.
