(* ===== verification/Snapshots.v ===== *)
(** Whole snapshots: [rdbSave] leaves in the file system a file from which [rdbLoad]
    restores the databases, or it leaves the previous snapshot. *)
From stdpp Require Import gmap list strings.
From S2P Require Import Prelude Util Sds SdsText Intset Ziplist Crc Lzf ZiplistRep Object Server Values Rdb RdbStrings RdbValues.
Local Open Scope c_scope.

Notation database := (redisDb value).

(** ** Databases as maps *)

(** A key has a content and perhaps a deadline. *)
Notation keys := (gmap bytes (content * option Z)).

Record shows (x : database) (m : keys) : Prop := {
  sh_dict : forall k, match db_dict x !! k, m !! k with
    | Some v, Some (c, t) => holds v c /\ t = db_expires x !! k
    | None, None => True
    | _, _ => False
    end;
  sh_expires : forall k, is_Some (db_expires x !! k) -> is_Some (db_dict x !! k) }.

(** Sizes that a snapshot can take; -1 stands for no deadline. *)
Record savable (C : config) (x : database) : Prop := {
  sv_keys : map_Forall (fun k v => text_ok k /\ small_enough C v) (db_dict x);
  sv_times : map_Forall (fun _ t => in_s 64 t /\ t <> -1) (db_expires x) }.

Definition alive (now : Z) (t : option Z) : bool := match t with Some t => now <=? t | None => true end.

(** What is left of the keys: those that had not expired when they were saved, nor,
    unless a master is to expire them, when they are loaded. *)
Definition stays (C : config) (now now' : Z) (t : option Z) : bool :=
  alive now t && (masterhost C || alive now' t).
Definition restored (C : config) (now now' : Z) (m : keys) : keys :=
  filter (fun e => stays C now now' e.2.2 = true) m.

Definition empty_db : database := mkDb ∅ ∅ ∅.
Lemma shows_empty : shows empty_db ∅.
Proof. split; intros k; cbn; rewrite !lookup_empty; [done|by intros []]. Qed.

(** ** The loop over a file *)

Section Steps.
Context (C : config) (now : Z).

(** [n] rounds take the bytes [bs] and lead to a state in [Q]. *)
Definition steps (n : nat) (dbs : list database) (db : Z) (bs : bytes) (Q : list database -> Z -> Prop) : Prop :=
  bytes_ok bs /\ forall fuel r rest, in_u 64 (r_cksum r) -> r_in r = bs ++ rest ->
  exists dbs' db', load_loop C (n + fuel) dbs db now r =
    load_loop C fuel dbs' db' now (mkRio rest (r_out r) (ck C (r_cksum r) bs)) /\ Q dbs' db'.

Lemma steps_nil dbs db (Q : list database -> Z -> Prop) : Q dbs db -> steps 0 dbs db [] Q.
Proof.
  intros HQ. split; [constructor|]. intros fuel [i o c] rest _ E. cbn in *. subst i. exists dbs, db. by rewrite ck_nil.
Qed.
Lemma steps_app n1 n2 dbs db b1 b2 Q R : steps n1 dbs db b1 Q ->
  (forall dbs' db', Q dbs' db' -> steps n2 dbs' db' b2 R) -> steps (n1 + n2) dbs db (b1 ++ b2) R.
Proof.
  intros [H1 Hs] Hk. assert (H2 : bytes_ok b2).
  { destruct (Hs O (mkRio b1 [] 0) []) as (? & ? & _ & HQ); [done|by rewrite app_nil_r|]. by destruct (Hk _ _ HQ). }
  split; [by apply Forall_app|]. intros fuel r rest Hr Hi. rewrite <- app_assoc in Hi. rewrite <- Nat.add_assoc.
  destruct (Hs (n2 + fuel)%nat r (b2 ++ rest) Hr Hi) as (dbs1 & db1 & -> & HQ). destruct (Hk _ _ HQ) as [_ Hs2].
  destruct (Hs2 fuel (mkRio (b2 ++ rest) (r_out r) (ck C (r_cksum r) b1)) rest) as (dbs2 & db2 & -> & HR); [by apply ck_u64|done|].
  exists dbs2, db2. by rewrite ck_app.
Qed.
Lemma steps_weaken n dbs db bs (Q R : list database -> Z -> Prop) : steps n dbs db bs Q ->
  (forall dbs' db', Q dbs' db' -> R dbs' db') -> steps n dbs db bs R.
Proof.
  intros [Hb Hs] HQ. split; [done|]. intros fuel r rest Hr Hi. destruct (Hs fuel r rest Hr Hi) as (dbs' & db' & -> & H).
  exists dbs', db'. split; [done|]. by apply HQ.
Qed.

Lemma steps_round dbs db bs (Q : list database -> Z -> Prop) :
  reads C (load_round C dbs db now) bs (fun r => exists dbs' db', r = Some (dbs', db') /\ Q dbs' db') ->
  steps 1 dbs db bs Q.
Proof.
  intros [Hb Hm]. split; [done|]. intros fuel r rest Hr Hi. destruct (Hm r rest Hr Hi) as (? & E & dbs' & db' & -> & HQ).
  exists dbs', db'. split; [|done]. change (1 + fuel)%nat with (Datatypes.S fuel). cbn [load_loop]. unfold mbind, IO_bind. by rewrite E.
Qed.

(** A round without an expire, and one with. *)
Lemma round_plain dbs db type bs (Q : list database -> Z -> Prop) :
  0 <= type < REDIS_RDB_OPCODE_EXPIRETIME_MS \/ type = REDIS_RDB_OPCODE_SELECTDB ->
  reads C (load_entry C dbs db now (-1) type) bs (fun r => Q r.1 r.2) -> steps 1 dbs db (type :: bs) Q.
Proof.
  unfold REDIS_RDB_OPCODE_EXPIRETIME_MS, REDIS_RDB_OPCODE_SELECTDB. intros Ht Hr. apply steps_round.
  apply (reads_bind C (rdbLoadType C) _ [type] bs (fun t => t = type)); [apply rdbLoadType_reads; unfold byte_ok; lia|].
  intros ? ->. unfold load_expire, REDIS_RDB_OPCODE_EXPIRETIME, REDIS_RDB_OPCODE_EXPIRETIME_MS.
  destruct (Z.eqb_spec type 253); [lia|]. destruct (Z.eqb_spec type 252); [lia|].
  eapply (reads_opt C (Some (-1, type))); [done|]. unfold REDIS_RDB_OPCODE_EOF. destruct (Z.eqb_spec type 255); [lia|].
  eapply (reads_last C); [done|]. intros [dbs' db'] HQ. apply reads_ret. by exists dbs', db'.
Qed.
Lemma rdbLoadMillisecondTime_reads t : in_s 64 t ->
  reads C (rdbLoadMillisecondTime C) (le_encode 8 t) (fun t' => t' = t).
Proof.
  intros Ht. eapply (reads_last C); [apply (rioRead_reads C (le_encode 8 t)), le_encode_ok|]. intros ? ->. apply reads_ret.
  by apply (sdecode 8).
Qed.
Lemma round_expire dbs db t type bs (Q : list database -> Z -> Prop) : in_s 64 t -> t <> -1 ->
  0 <= type < REDIS_RDB_OPCODE_EXPIRETIME_MS ->
  reads C (load_entry C dbs db now t type) bs (fun r => Q r.1 r.2) ->
  steps 1 dbs db (REDIS_RDB_OPCODE_EXPIRETIME_MS :: le_encode 8 t ++ type :: bs) Q.
Proof.
  unfold REDIS_RDB_OPCODE_EXPIRETIME_MS. intros Ht Hne Hty Hr. apply steps_round.
  apply (reads_bind C (rdbLoadType C) _ [252] (le_encode 8 t ++ type :: bs) (fun t => t = 252)); [by apply rdbLoadType_reads; by_decide|].
  intros ? ->. unfold load_expire, REDIS_RDB_OPCODE_EXPIRETIME, REDIS_RDB_OPCODE_EXPIRETIME_MS.
  change (252 =? 253) with false. change (252 =? 252) with true. cbv iota. apply reads_assoc.
  eapply reads_bind; [by apply rdbLoadMillisecondTime_reads|]. intros ? ->. destruct (Z.eqb_spec t (-1)); [lia|]. apply reads_assoc.
  apply (reads_bind C (rdbLoadType C) _ [type] bs (fun t => t = type)); [apply rdbLoadType_reads; unfold byte_ok; lia|].
  intros ? ->. eapply (reads_opt C (Some (t, type))); [done|]. unfold REDIS_RDB_OPCODE_EOF. destruct (Z.eqb_spec type 255); [lia|].
  eapply (reads_last C); [done|]. intros [dbs' db'] HQ. apply reads_ret. by exists dbs', db'.
Qed.
Lemma round_end dbs db : reads C (load_round C dbs db now) [REDIS_RDB_OPCODE_EOF] (fun r => r = None).
Proof.
  eapply (reads_last C); [apply (rdbLoadType_reads C REDIS_RDB_OPCODE_EOF); by_decide|]. intros ? ->.
  eapply (reads_opt C (Some (-1, REDIS_RDB_OPCODE_EOF))); [done|]. by apply reads_ret.
Qed.
End Steps.

(** ** One key *)

Lemma rdb_type_range v : 0 <= rdb_type v < 252 /\ rdb_type v <> REDIS_RDB_OPCODE_SELECTDB.
Proof. destruct v; cbn; done. Qed.

(** An entry of a dictionary, and the key it stands for. *)
Record entry_ok (C : config) (x : database) (e : bytes * value) (a : bytes * (content * option Z)) : Prop := {
  en_key : e.1 = a.1; en_text : text_ok e.1; en_holds : holds e.2 a.2.1; en_small : small_enough C e.2;
  en_expire : expire_of x e.1 = Some (default (-1) a.2.2);
  en_time : forall t, a.2.2 = Some t -> in_s 64 t /\ t <> -1 }.

Definition entry_bytes (e : bytes * value) (t : option Z) (kb vb : bytes) : bytes :=
  match t with
  | Some t => REDIS_RDB_OPCODE_EXPIRETIME_MS :: le_encode 8 t ++ rdb_type e.2 :: kb ++ vb
  | None => rdb_type e.2 :: kb ++ vb
  end.

Lemma rdbSaveKeyValuePair_writes C S x e a now : ConfigOk C -> entry_ok C x e a ->
  writes C S (rdbSaveKeyValuePair C S e.1 e.2 (default (-1) a.2.2) now) (fun _ bs =>
    if alive now a.2.2 then exists kb vb, decodes e.1 kb /\ restores e.2 a.2.1 vb /\ bs = entry_bytes e a.2.2 kb vb
    else bs = []).
Proof.
  intros HC [Hk Ht Hh Hs He Htime]. destruct (rdb_type_range e.2) as [Hty _]. unfold rdbSaveKeyValuePair.
  assert (Hbody : writes C S (rdbSaveObjectType C S e.2;; rdbSaveStringObject C S (SSds e.1);; rdbSaveObject C S e.2;; mret 1)
    (fun _ bs => exists kb vb, decodes e.1 kb /\ restores e.2 a.2.1 vb /\ bs = rdb_type e.2 :: kb ++ vb)).
  { eapply writes_bind; [apply rdbSaveType_writes; lia|]. intros ? ? _ [_ ->].
    eapply writes_bind; [apply rdbSaveStringObject_writes; [apply cfg_stack|done]|]. intros ? kb _ (_ & _ & Hkb).
    eapply writes_bind; [by apply rdbSaveObject_writes|]. intros ? vb _ Hvb. apply writes_ret. intros. cbn [app].
    exists kb, vb. by rewrite app_nil_r. }
  destruct a as [k [c [t|]]]; cbn [alive fst snd] in *; [change (default (-1) (Some t)) with t|change (default (-1) (@None Z)) with (-1)].
  - destruct (Htime t eq_refl) as [Hr Hne]. destruct (Z.eqb_spec t (-1)); [done|]. cbn [negb andb].
    destruct (Z.ltb_spec t now) as [Hlt|Hge].
    { destruct (Z.leb_spec now t); [lia|]. by apply writes_ret. }
    destruct (Z.leb_spec now t); [|lia].
    eapply (writes_bind C S) with (fun _ bs => bs = REDIS_RDB_OPCODE_EXPIRETIME_MS :: le_encode 8 t).
    { eapply writes_bind; [by apply rdbSaveType_writes|]. intros ? ? _ [_ ->].
      eapply writes_weaken; [apply rdbWriteRaw_writes; [apply le_encode_ok|unfold zlen; by rewrite le_encode_length]|].
      by intros ? ? _ [_ ->] _. }
    intros ? ? _ ->. eapply writes_weaken; [apply Hbody|]. intros ? ? _ (kb & vb & Hkb & Hvb & ->) _. by exists kb, vb.
  - change (-1 =? -1) with true. cbn [negb andb]. eapply (writes_bind C S) with (fun _ bs => bs = []); [by apply writes_ret|].
    intros ? ? _ ->. eapply writes_weaken; [apply Hbody|]. intros ? ? _ (kb & vb & Hkb & Hvb & ->) _. by exists kb, vb.
Qed.

Lemma add_key_shows y m k v c (t : option Z) : shows y m -> m !! k = None -> holds v c -> t <> Some (-1) ->
  exists y', add_key y k v (default (-1) t) = Some y' /\ shows y' (<[k := (c, t)]> m).
Proof.
  intros [Hd He] Hk Hv Ht. unfold add_key. pose proof (Hd k) as Hk'. rewrite Hk in Hk'.
  destruct (db_dict y !! k) eqn:Ek; [done|]. assert (Hek : db_expires y !! k = None).
  { destruct (db_expires y !! k) eqn:E; [|done]. destruct (He k ltac:(by eexists)) as [? E']. congruence. }
  eexists. split; [done|]. split.
  - intros k'. destruct t as [t|].
    + change (default (-1) (Some t)) with t. destruct (Z.eqb_spec t (-1)); [by subst|]. cbn. destruct (decide (k' = k)) as [->|Hne].
      * by rewrite !lookup_insert_eq.
      * rewrite !lookup_insert_ne by done. apply Hd.
    + cbn. destruct (decide (k' = k)) as [->|Hne].
      * by rewrite !lookup_insert_eq.
      * rewrite !lookup_insert_ne by done. apply Hd.
  - intros k' Hk2. destruct t as [t|].
    + change (default (-1) (Some t)) with t in *. destruct (Z.eqb_spec t (-1)); [by subst|]. cbn in *. destruct (decide (k' = k)) as [->|Hne]; [by rewrite lookup_insert_eq|].
      rewrite !lookup_insert_ne in * by done. by apply He.
    + cbn in *. destruct (decide (k' = k)) as [->|Hne]; [by rewrite lookup_insert_eq|].
      rewrite lookup_insert_ne by done. by apply He.
Qed.

Section Load.
Context (C : config) (now : Z) {HC : ConfigOk C}.

(** The selected database is [y] now, the others are as they were. *)
Definition at_db (dbs : list database) (db : Z) (m : keys) (dbs' : list database) (db' : Z) : Prop :=
  db' = db /\ exists y, dbs' = <[Z.to_nat db := y]> dbs /\ shows y m.

Lemma load_entry_reads dbs db y m v c k (t : option Z) kb vb : decodes k kb -> restores v c vb ->
  znth dbs db = Some y -> shows y m -> m !! k = None -> t <> Some (-1) ->
  reads C (load_entry C dbs db now (default (-1) t) (rdb_type v)) (kb ++ vb) (fun r =>
    at_db dbs db (if masterhost C || alive now t then <[k := (c, t)]> m else m) r.1 r.2).
Proof.
  intros Hkb Hvb Hy Hm Hk Ht. unfold load_entry. destruct (rdb_type_range v) as [_ Hne].
  destruct (Z.eqb_spec (rdb_type v) REDIS_RDB_OPCODE_SELECTDB); [done|].
  apply (load_plain C _ k); [done|]. intros ko Hko _ _. eapply (reads_last C); [by apply Hvb|]. intros v' Hv'.
  assert (Hskip : negb (masterhost C) && negb (default (-1) t =? -1) && (default (-1) t <? now) = negb (masterhost C || alive now t)).
  { destruct t as [t|]; [change (default (-1) (Some t)) with t; destruct (Z.eqb_spec t (-1)); [by subst|]; cbn|cbn; by rewrite orb_true_r, andb_false_r].
    destruct (Z.ltb_spec t now), (Z.leb_spec now t); try lia; by destruct (masterhost C). }
  rewrite Hskip. destruct (znth_Some_bound _ _ _ Hy) as [Hr1 Hr2]. destruct (masterhost C || alive now t); cbn [negb].
  - eapply reads_opt; [done|]. rewrite Hko. destruct (add_key_shows y m k v' c t Hm Hk Hv' Ht) as (y' & E & Hy').
    eapply reads_opt; [done|]. eapply reads_opt; [unfold zset; by rewrite decide_True|]. apply reads_ret. split; [done|]. by exists y'.
  - apply reads_ret. split; [done|]. exists y. split; [|done]. cbn. symmetry. apply list_insert_id.
    unfold znth in Hy. by rewrite decide_True in Hy.
Qed.
End Load.

(** ** One database *)

(** The keys [aes] added to [m], those that stay. *)
Definition absorb (C : config) (now now' : Z) (aes : list (bytes * (content * option Z))) (m : keys) : keys :=
  foldl (fun m a => if stays C now now' a.2.2 then <[a.1 := a.2]> m else m) m aes.

Lemma save_entries_writes C S x now es aes : ConfigOk C -> Forall2 (entry_ok C x) es aes ->
  writes C S (save_entries C S x es now) (fun _ bs => exists n, (n <= length bs)%nat /\
    forall C' now' dbs db y m, ConfigOk C' -> znth dbs db = Some y -> shows y m -> NoDup aes.*1 ->
      (forall a, a ∈ aes -> m !! a.1 = None) ->
      steps C' now' n dbs db bs (at_db dbs db (absorb C' now now' aes m))).
Proof.
  intros HC. induction 1 as [|e a es aes He _ IH].
  { apply writes_ret. exists O. split; [done|]. intros C' now' dbs db y m _ Hy Hm _ _. apply steps_nil. split; [done|].
    exists y. split; [|done]. symmetry. apply list_insert_id. unfold znth in Hy. by case_decide. }
  destruct e as [k v]. cbn [save_entries]. eapply writes_opt; [apply (en_expire _ _ _ _ He)|].
  eapply writes_bind; [by apply (rdbSaveKeyValuePair_writes C S x (k, v) a now)|]. intros ? b1 Hok1 Hb1.
  eapply writes_weaken; [apply IH|]. intros ? b2 _ (n & Hn & Hs) _. cbn [fst snd] in *.
  destruct a as [k' [c t]]. pose proof (en_key _ _ _ _ He) as Ek. cbn in Ek. subst k'. cbn [fst snd] in *.
  assert (Ht : t <> Some (-1)) by (intros ->; by destruct (en_time _ _ _ _ He (-1) eq_refl)).
  destruct (alive now t) eqn:Ea.
  - destruct Hb1 as (kb & vb & Hkb & Hvb & ->). exists (Datatypes.S n).
    assert (Hlen : (1 <= length (entry_bytes (k, v) t kb vb))%nat) by (destruct t; cbn; lia).
    split; [rewrite length_app; lia|]. intros C' now' dbs db y m HC' Hy Hm Hnd Hfresh.
    apply NoDup_cons in Hnd as [Hnew Hnd]. pose proof (Hfresh (k, (c, t)) ltac:(by left)) as Hk. cbn in Hk.
    set (m' := if masterhost C' || alive now' t then <[k := (c, t)]> m else m).
    apply (steps_app C' now' 1 n) with (Q := at_db dbs db m').
    + pose proof (load_entry_reads C' now' dbs db y m v c k t kb vb Hkb Hvb Hy Hm Hk Ht) as Hr.
      destruct (rdb_type_range v) as [Hty _]. destruct t as [t|]; cbn [entry_bytes snd].
      * destruct (en_time _ _ _ _ He t eq_refl). by apply round_expire.
      * apply round_plain; [by left|done].
    + intros dbs' db' (-> & y' & -> & Hy'). pose proof (znth_Some_bound _ _ _ Hy) as [Hd1 Hd2].
      eapply steps_weaken; [apply (Hs C' now' _ db y' m')|]; try done.
      * unfold znth. rewrite decide_True by done. apply list_lookup_insert_eq. unfold zlen in Hd2. lia.
      * intros a Ha. assert (Hne : a.1 <> k) by (intros <-; apply Hnew, list_elem_of_fmap; by exists a).
        unfold m'. destruct (_ || _); [rewrite lookup_insert_ne by done|]; apply Hfresh; by right.
      * intros dbs'' db'' (-> & y'' & -> & Hy''). split; [done|]. exists y''. rewrite list_insert_insert_eq. split; [done|].
        cbn [absorb foldl fst snd]. unfold stays. by rewrite Ea.
  - subst b1. exists n. split; [done|]. intros C' now' dbs db y m HC' Hy Hm Hnd Hfresh. apply NoDup_cons in Hnd as [_ Hnd].
    cbn [app]. eapply steps_weaken; [apply (Hs C' now' dbs db y m); [done..|]|].
    + intros a Ha. apply Hfresh. by right.
    + intros dbs' db' H. cbn [absorb foldl fst snd]. unfold stays. by rewrite Ea.
Qed.

(** On the keys of a database, from nothing, what stays is the filter. *)
Lemma absorb_restored C now now' aes : NoDup aes.*1 -> forall m, (forall a, a ∈ aes -> m !! a.1 = None) ->
  absorb C now now' aes m = restored C now now' (list_to_map aes) ∪ m.
Proof.
  induction aes as [|[k [c t]] aes IH]; intros Hnd m Hm.
  { cbn. unfold restored. by rewrite map_filter_empty, (left_id_L ∅ (∪)). }
  apply NoDup_cons in Hnd as [Hk Hnd]. unfold restored. cbn [absorb foldl list_to_map foldr fst snd] in *.
  assert (Hnone : (list_to_map aes : keys) !! k = None) by by apply not_elem_of_list_to_map_1.
  pose proof (Hm (k, (c, t)) ltac:(by left)) as Hmk. cbn in Hmk.
  destruct (stays C now now' t) eqn:E.
  - rewrite map_filter_insert_True by done. fold (restored C now now' (list_to_map aes)).
    change (foldl _ _ aes) with (absorb C now now' aes (<[k := (c, t)]> m)). rewrite IH; [|done|].
    + rewrite <- insert_union_l. symmetry. rewrite insert_union_r; [done|]. unfold restored. apply map_lookup_filter_None. by left.
    + intros a Ha. rewrite lookup_insert_ne; [apply Hm; by right|]. intros ->. apply Hk, list_elem_of_fmap. by exists a.
  - rewrite map_filter_insert_False, delete_id by (done || cbn; by rewrite E). fold (restored C now now' (list_to_map aes)).
    apply IH; [done|]. intros a Ha. apply Hm. by right.
Qed.

(** What a database shows, in the order of iteration. *)
Definition entries (C : config) (x : database) (m : keys) : list (bytes * (content * option Z)) :=
  (fun e => (e.1, default (CString [], None) (m !! e.1))) <$> iterate C value (db_dict x).

Lemma expire_of_shows x m k : shows x m -> is_Some (db_dict x !! k) -> expire_of x k = Some (default (-1) (db_expires x !! k)).
Proof.
  intros Hm Hk. unfold expire_of. case_bool_decide as E; [by rewrite E, lookup_empty|].
  destruct (db_expires x !! k) as [t|]; [|done]. by rewrite bool_decide_true.
Qed.

Lemma entries_spec C x m : ConfigOk C -> shows x m -> savable C x ->
  Forall2 (entry_ok C x) (iterate C value (db_dict x)) (entries C x m) /\ NoDup (entries C x m).*1 /\
  list_to_map (entries C x m) = m.
Proof.
  intros HC Hm [Hsk Hst]. pose proof (cfg_iterate (C := C) value (db_dict x)) as Hp. unfold entries.
  assert (Hin : forall k v, (k, v) ∈ iterate C value (db_dict x) <-> db_dict x !! k = Some v).
  { intros k v. rewrite Hp. apply elem_of_map_to_list. }
  assert (Hfst : ((fun e : bytes * value => (e.1, default (CString [], None) (m !! e.1))) <$> iterate C value (db_dict x)).*1 ≡ₚ
    (map_to_list (db_dict x)).*1) by by rewrite <- list_fmap_compose, Hp.
  assert (Hnd : NoDup ((fun e : bytes * value => (e.1, default (CString [], None) (m !! e.1))) <$> iterate C value (db_dict x)).*1)
    by (rewrite Hfst; apply NoDup_fst_map_to_list).
  split; [|split; [done|]].
  - apply Forall2_fmap_r, Forall_Forall2_diag, Forall_forall. intros [k v] Hk. apply Hin in Hk. cbn.
    pose proof (sh_dict _ _ Hm k) as Hd. rewrite Hk in Hd. destruct (m !! k) as [[c t]|] eqn:Emk; [|done]. destruct Hd as [Hh ->].
    destruct (Hsk k v Hk). split; cbn; try rewrite Emk; cbn; try done.
    + apply (expire_of_shows x m k Hm). by eexists.
    + intros t Ht. by apply (Hst k t).
  - apply map_eq. intros k. pose proof (sh_dict _ _ Hm k) as Hd. destruct (db_dict x !! k) as [v|] eqn:Ek.
    + destruct (m !! k) as [a|] eqn:Emk; [|done]. apply elem_of_list_to_map; [done|]. apply list_elem_of_fmap.
      exists (k, v). cbn. rewrite Emk. split; [done|by apply Hin].
    + destruct (m !! k) eqn:Emk; [done|]. apply not_elem_of_list_to_map_1. rewrite Hfst.
      intros ([k' v] & -> & Hk')%list_elem_of_fmap. apply elem_of_map_to_list in Hk'. cbn in Ek. congruence.
Qed.

Lemma restored_empty C now now' : restored C now now' ∅ = ∅.
Proof. apply map_filter_empty. Qed.
Lemma shows_empty_dict x m : shows x m -> size (db_dict x) = O -> m = ∅.
Proof.
  intros Hm Hs. apply map_size_empty_iff in Hs. apply map_eq. intros k. pose proof (sh_dict _ _ Hm k) as Hd.
  rewrite Hs, lookup_empty in Hd. rewrite lookup_empty. by destruct (m !! k).
Qed.

(** ** All databases *)

Lemma select_round C now dbs db len_bs j : (forall C', reads C' (rdbLoadLen C') len_bs (fun r => r = (false, j))) ->
  0 <= j < zlen dbs -> steps C now 1 dbs db (REDIS_RDB_OPCODE_SELECTDB :: len_bs) (fun dbs' db' => dbs' = dbs /\ db' = j).
Proof.
  intros Hr Hj. apply round_plain; [by right|]. unfold load_entry.
  change (REDIS_RDB_OPCODE_SELECTDB =? REDIS_RDB_OPCODE_SELECTDB) with true. cbv iota.
  eapply (reads_last C); [apply load_len_plain, Hr|]. intros ? ->. destruct (Z.leb_spec (zlen dbs) j); [lia|]. by apply reads_ret.
Qed.

Lemma save_dbs_writes C S now xs ms : ConfigOk C -> Forall2 (fun x m => shows x m /\ savable C x) xs ms ->
  forall j, 0 <= j -> j + zlen xs < 2 ^ 31 ->
  writes C S (save_dbs C S xs j now) (fun _ bs => exists n, (n <= length bs)%nat /\
    forall C' now' done_dbs db, ConfigOk C' -> zlen done_dbs = j ->
      steps C' now' n (done_dbs ++ replicate (length xs) empty_db) db bs (fun dbs' _ =>
        exists new, dbs' = done_dbs ++ new /\ Forall2 shows new (restored C' now now' <$> ms))).
Proof.
  intros HC. induction 1 as [|x m xs ms [Hm Hsv] _ IH]; intros j Hj Hlen.
  { apply writes_ret. exists O. split; [done|]. intros C' now' dbs db _ _. apply steps_nil. by exists []. }
  cbn [save_dbs]. rewrite zlen_cons in Hlen. pose proof (zlen_nonneg xs). specialize (IH (j + 1) ltac:(lia) ltac:(lia)).
  eapply (writes_bind C S) with (fun _ bs => exists n, (n <= length bs)%nat /\ forall C' now' done_dbs db todo, ConfigOk C' ->
    zlen done_dbs = j -> steps C' now' n (done_dbs ++ empty_db :: todo) db bs (fun dbs' _ =>
      exists y, dbs' = done_dbs ++ y :: todo /\ shows y (restored C' now now' m))).
  { case_bool_decide as Es.
    - apply writes_ret. exists O. split; [done|]. intros C' now' done_dbs db todo _ _. apply steps_nil. exists empty_db.
      split; [done|]. rewrite (shows_empty_dict x m Hm Es), restored_empty. apply shows_empty.
    - destruct (entries_spec C x m HC Hm Hsv) as (He & Hnd & Hmap).
      eapply writes_bind; [by apply rdbSaveType_writes|]. intros ? ? _ [_ ->].
      eapply writes_bind; [apply (rdbSaveLen_writes C S j); unfold REDIS_RDB_LENERR; lia|]. intros ? len_bs _ (_ & Hl & Hr).
      eapply writes_weaken; [by apply save_entries_writes|]. intros ? bs _ (n & Hn & Hs) _ _. exists (1 + n)%nat.
      split; [rewrite !length_app; cbn [length]; lia|]. intros C' now' done_dbs db todo HC' Hdone.
      rewrite app_assoc. eapply (steps_app C' now' 1 n); [apply (select_round C' now' _ _ len_bs j Hr)|].
      { rewrite zlen_app, zlen_cons. pose proof (zlen_nonneg todo). lia. }
      intros ? ? [-> ->]. eapply steps_weaken; [apply (Hs C' now' _ j empty_db ∅ HC')|]; [|apply shows_empty|done|by intros; apply lookup_empty|].
      { by apply znth_app_mid. }
      intros ? ? (-> & y & -> & Hy). exists y. split.
      + subst j. rewrite zlen_to_nat. by rewrite list_insert_alter, alter_app_r_alt, Nat.sub_diag by done.
      + rewrite absorb_restored, Hmap, (right_id_L ∅ (∪)) in Hy; [done|done|]. intros. apply lookup_empty. }
  intros ? b1 _ (n1 & Hn1 & H1). eapply writes_weaken; [exact IH|]. intros ? b2 _ (n2 & Hn2 & H2) _. exists (n1 + n2)%nat.
  split; [rewrite length_app; lia|]. intros C' now' done_dbs db HC' Hdone.
  eapply steps_app; [apply (H1 C' now' done_dbs db _ HC' Hdone)|]. intros ? db' (y & -> & Hy).
  rewrite cons_middle, app_assoc.
  eapply steps_weaken; [apply (H2 C' now' (done_dbs ++ [y]) db' HC')|]; [rewrite zlen_app_one; lia|].
  intros dbs' _ (new & -> & Hnew). exists (y :: new). split; [by rewrite <- app_assoc|]. by constructor.
Qed.

(** ** The whole stream *)

Definition magic : bytes := bytes_of "REDIS000" ++ [48 + REDIS_RDB_VERSION].

Lemma run_writes {A B} C S (m : IO A) (k : A -> IO B) (Q : A -> bytes -> Prop) r (P : option (option (B * rio)) -> Prop) :
  writes C S m Q -> in_u 64 (r_cksum r) ->
  (forall a bs, bytes_ok bs -> Q a bs -> P (k a (wrote C r bs))) -> (~ reliable S -> P (Some None)) ->
  P (mbind k m r).
Proof.
  intros Hm Hr Hk Hd. unfold mbind, IO_bind. destruct (Hm r Hr) as [(a & bs & -> & Hb & Ha)|[-> Hn]]; step; [by apply Hk|by apply Hd].
Qed.

Lemma run_reads {A B} C (m : IO A) (k : A -> IO B) bs (Q : A -> Prop) r rest (P : option (option (B * rio)) -> Prop) :
  reads C m bs Q -> in_u 64 (r_cksum r) -> r_in r = bs ++ rest ->
  (forall a, Q a -> P (k a (mkRio rest (r_out r) (ck C (r_cksum r) bs)))) -> P (mbind k m r).
Proof. intros [_ Hm] Hr Hi Hk. unfold mbind, IO_bind. destruct (Hm r rest Hr Hi) as (a & -> & Ha). step. by apply Hk. Qed.
Lemma bind_run {A B} (m : IO A) (k : A -> IO B) r a r' : m r = Some (Some (a, r')) -> mbind k m r = k a r'.
Proof. intros E. unfold mbind, IO_bind. by rewrite E. Qed.
Lemma bind_cksum {B} (k : Z -> IO B) r : mbind k get_cksum r = k (r_cksum r) r.
Proof. done. Qed.
Lemma wrote_u64 C r bs : in_u 64 (r_cksum r) -> bytes_ok bs -> in_u 64 (r_cksum (wrote C r bs)).
Proof. apply ck_u64. Qed.

(** A file with the databases [ms] in its body. *)
Record snapshot_of (C : config) (now : Z) (ms : list keys) (file body : bytes) : Prop := {
  sn_file : file = (magic ++ body ++ [REDIS_RDB_OPCODE_EOF]) ++
    le_encode 8 (ck C 0 (magic ++ body ++ [REDIS_RDB_OPCODE_EOF]));
  sn_body : exists n, (n <= length body)%nat /\ forall C' now' db, ConfigOk C' ->
    steps C' now' n (replicate (length ms) empty_db) db body
      (fun dbs' _ => Forall2 shows dbs' (restored C' now now' <$> ms)) }.

Lemma rdbSaveRio_snapshot C S xs ms now : ConfigOk C -> Forall2 (fun x m => shows x m /\ savable C x) xs ms ->
  zlen xs < 2 ^ 31 ->
  (exists r body, rdbSaveRio C S xs now (mkRio [] [] 0) = Some (Some (tt, r)) /\ snapshot_of C now ms (r_out r) body) \/
  (rdbSaveRio C S xs now (mkRio [] [] 0) = Some None /\ ~ reliable S).
Proof.
  intros HC Hx Hl. unfold rdbSaveRio. fold magic.
  assert (Hm : bytes_ok magic) by by_decide. assert (H0 : in_u 64 (r_cksum (mkRio [] [] 0))) by done.
  eapply run_writes; [by apply (rdbWriteRaw_writes C S magic)|done| |by right].
  intros ? ? _ [_ ->]. pose proof (wrote_u64 C _ _ H0 Hm) as H1.
  eapply run_writes; [by apply (save_dbs_writes C S now xs ms HC Hx 0)|done| |by right].
  intros ? body Hbody (n & Hn & Hs). pose proof (wrote_u64 C _ _ H1 Hbody) as H2.
  eapply run_writes; [by apply rdbSaveType_writes|done| |by right].
  intros ? ? Heof [_ ->]. pose proof (wrote_u64 C _ _ H2 Heof) as H3. set (r3 := wrote C (wrote C (wrote C _ _) _) _) in *.
  rewrite bind_cksum.
  destruct (rioWrite_writes C S (le_encode 8 (r_cksum r3)) (le_encode_ok _ _) r3 H3) as [([] & bs & -> & _ & ->)|[-> Hd]]; [|by right].
  left. exists (wrote C r3 (le_encode 8 (r_cksum r3))), body. split; [done|]. unfold r3, wrote. cbn [r_out r_cksum r_in].
  split; [by rewrite <- !ck_app, <- !app_assoc|]. exists n. split; [done|]. intros C' now' db HC'.
  rewrite <- (Forall2_length _ _ _ Hx). eapply steps_weaken; [by apply (Hs C' now' [] db)|]. by intros ? ? (new & -> & ?).
Qed.

(** The two sides compute the same checksum, or one of them none. *)
Lemma load_trailer_snapshot C C' all r : bytes_ok all -> r_in r = le_encode 8 (ck C 0 all) -> r_cksum r = ck C' 0 all ->
  exists r', load_trailer C' 6 r = Some (Some (tt, r')).
Proof.
  intros Hall Hi Hc. assert (H8 : zlen (le_encode 8 (ck C 0 all)) = 8) by (unfold zlen; by rewrite le_encode_length).
  unfold load_trailer. change (5 <=? 6) with true. destruct (rdb_checksum C') eqn:EC'; cbn [andb]; [|by eexists].
  rewrite bind_cksum. rewrite <- (app_nil_r (le_encode 8 _)) in Hi. rewrite <- H8.
  eapply run_reads; [apply rioRead_reads, le_encode_ok|rewrite Hc; by apply ck_u64|exact Hi|]. intros ? ->.
  rewrite le_decode_encode, Z.mod_small by (apply (ck_u64 C); done).
  destruct (Z.eqb_spec (ck C 0 all) 0) as [|Hne]; cbn [negb andb]; [by eexists|].
  replace (ck C 0 all =? r_cksum r) with true; [by eexists|]. symmetry. apply Z.eqb_eq. rewrite Hc. unfold ck in *. rewrite EC'.
  by destruct (rdb_checksum C).
Qed.

Lemma load_file_snapshot C C' ms file body now now' : ConfigOk C' -> snapshot_of C now ms file body ->
  exists dbs, rdbLoad C' (Some file) (replicate (length ms) empty_db) now' = Some (Load_ok dbs) /\
    Forall2 shows dbs (restored C' now now' <$> ms).
Proof.
  intros HC' [Hf (n & Hn & Hs)]. destruct (Hs C' now' 0 HC') as [Hbody Hrun]. assert (Hm : bytes_ok magic) by by_decide.
  set (all := magic ++ body ++ [REDIS_RDB_OPCODE_EOF]) in Hf. assert (Hall : bytes_ok all).
  { apply Forall_app. split; [done|]. apply Forall_app. split; [done|by_decide]. }
  set (tail := le_encode 8 (ck C 0 all)) in Hf.
  assert (Hsize : exists k, Datatypes.S (length file) = (n + Datatypes.S k)%nat).
  { exists (length file - n)%nat. subst file. unfold all. rewrite !length_app. lia. }
  destruct Hsize as [k Hsize].
  assert (Hi : r_in (mkRio file [] 0) = magic ++ body ++ [REDIS_RDB_OPCODE_EOF] ++ tail).
  { subst file. unfold all. by rewrite <- !app_assoc. }
  enough (exists dbs r, load_file C' (length file) (replicate (length ms) empty_db) now' (mkRio file [] 0) = Some (Some (Load_ok dbs, r)) /\
    Forall2 shows dbs (restored C' now now' <$> ms)) as (dbs & r & E & Hd) by (exists dbs; unfold rdbLoad; by rewrite E).
  unfold load_file. eapply run_reads; [apply (rioRead_reads C' magic Hm)|done|exact Hi|]. intros ? ->.
  rewrite bool_decide_false by (intros Hne; by apply Hne).
  change (strtoll (drop 5 magic ++ [0])) with (6, [0], false). cbv beta iota zeta.
  change ((s32 6 <? 1) || (REDIS_RDB_VERSION <? s32 6)) with false. cbv iota. rewrite Hsize.
  set (r1 := mkRio _ _ _). assert (H1 : in_u 64 (r_cksum r1)) by by apply ck_u64.
  destruct (Hrun (Datatypes.S k) r1 ([REDIS_RDB_OPCODE_EOF] ++ tail) H1 eq_refl) as (dbs & db & E & Hd). exists dbs.
  set (r2 := mkRio _ _ _) in E. assert (H2 : in_u 64 (r_cksum r2)) by by apply ck_u64.
  destruct (round_end C' now' dbs db) as [_ Hend]. destruct (Hend r2 tail H2 eq_refl) as (? & E' & ->).
  cbn [load_loop] in E. rewrite (bind_run _ _ _ _ _ E') in E. rewrite (bind_run _ _ _ _ _ E).
  set (r3 := mkRio _ _ _). destruct (load_trailer_snapshot C C' all r3 Hall eq_refl) as [r4 E4].
  { unfold r3, r2, r1, all. cbn [r_cksum]. by rewrite !ck_app. }
  exists r4. split; [|done]. exact (bind_run _ _ _ _ _ E4).
Qed.

(** ** The file *)

Definition works (S : system) : Prop :=
  fopen_ok S = true /\ reliable S /\ fflush_ok S = true /\ fsync_ok S = true /\ rename_ok S = true.

(** C4: a snapshot is complete or it does not replace the previous one.  When the
    server can save, the file it writes loads, under the settings of any server, to
    databases with the same keys, contents and deadlines, less the keys that had
    expired when they were saved and, unless a master is to expire them, those that
    have when they are loaded.  When it cannot, because an operation of the system
    fails, the previous snapshot and the count of changes since are kept; no other
    file is touched but the temporary one. *)
Theorem snapshots_restore (C C' : config) (S : system) (dbs : list database) (ms : list keys) (now now' time : Z)
    (tmpfile filename : bytes) (fs : gmap bytes bytes) (sv : saved) :
  ConfigOk C -> ConfigOk C' -> Forall2 (fun x m => shows x m /\ savable C x) dbs ms -> zlen dbs < 2 ^ 31 ->
  tmpfile <> filename -> fclose_ok S = true ->
  exists ok fs' sv', rdbSave C S tmpfile filename dbs now time fs sv = Some (ok, fs', sv') /\
    (forall f, f <> tmpfile -> f <> filename -> fs' !! f = fs !! f) /\
    if ok : bool then
      sv' = mkSaved 0 time true /\ exists dbs',
        rdbLoad C' (fs' !! filename) (replicate (length dbs) empty_db) now' = Some (Load_ok dbs') /\
        Forall2 shows dbs' (restored C' now now' <$> ms)
    else sv' = sv /\ fs' !! filename = fs !! filename /\ ~ works S.
Proof.
  intros HC HC' Hx Hl Hne Hclose. unfold rdbSave, works. rewrite Hclose. cbn [negb].
  assert (Hwerr : forall (P : Prop), ~ P -> exists ok fs' sv', Some (false, delete tmpfile fs, sv) = Some (ok, fs', sv') /\
    (forall f, f <> tmpfile -> f <> filename -> fs' !! f = fs !! f) /\
    if ok : bool then sv' = mkSaved 0 time true /\ exists dbs',
        rdbLoad C' (fs' !! filename) (replicate (length dbs) empty_db) now' = Some (Load_ok dbs') /\
        Forall2 shows dbs' (restored C' now now' <$> ms)
    else sv' = sv /\ fs' !! filename = fs !! filename /\ ~ P).
  { intros P HP. exists false, (delete tmpfile fs), sv. split; [done|]. split; [intros; by rewrite lookup_delete_ne|].
    by rewrite lookup_delete_ne. }
  destruct (fopen_ok S); cbn [negb]; [|exists false, fs, sv; naive_solver].
  destruct (rdbSaveRio_snapshot C S dbs ms now HC Hx Hl) as [(r & body & -> & Hsn)|[-> Hr]]; step; [|apply Hwerr; naive_solver].
  destruct (fflush_ok S); cbn [negb]; [|apply Hwerr; naive_solver].
  destruct (fsync_ok S); cbn [negb]; [|apply Hwerr; naive_solver].
  destruct (rename_ok S); cbn [negb]; [|apply Hwerr; naive_solver].
  eexists true, _, _. split; [done|]. split.
  { intros. by rewrite lookup_insert_ne, lookup_delete_ne. }
  split; [done|]. rewrite lookup_insert_eq, (Forall2_length _ _ _ Hx). by eapply load_file_snapshot.
Qed.

(** ** An instance *)

Definition sample_config : config := mkConfig true true 512 64 512 512 64 (2 * 1024 * 1024) false
  (fun _ => 170) (fun _ => 0) (fun A m => map_to_list m).
Definition sample_system : system := mkSystem true (fun _ _ => true) true true true true.
Definition sample_db : database := mkDb
  {[ bytes_of "counter" := VString (SInt 12345); bytes_of "queue" := VLinkedList [SInt 1; SSds (bytes_of "xx")] ]}
  {[ bytes_of "counter" := 1000 ]} ∅.
Definition sample_keys : keys :=
  {[ bytes_of "counter" := (CString (text (SInt 12345)), Some 1000);
     bytes_of "queue" := (CList (text <$> [SInt 1; SSds (bytes_of "xx")]), None) ]}.

Lemma savable_empty C : savable C empty_db.
Proof. split; apply map_Forall_empty. Qed.
Lemma sample_config_ok : ConfigOk sample_config.
Proof. split; cbn; [by intros i|done|lia|lia|lia]. Qed.
Lemma sample_shows : shows sample_db sample_keys.
Proof.
  split; intros k; unfold sample_db, sample_keys; cbn [db_dict db_expires].
  - destruct (decide (k = bytes_of "counter")) as [->|H1].
    { rewrite !lookup_insert_eq. split; [|done]. constructor. by_decide. }
    destruct (decide (k = bytes_of "queue")) as [->|H2].
    { split; [apply (holds_list [SInt 1; SSds (bytes_of "xx")]); by_decide|done]. }
    rewrite !lookup_insert_ne, !lookup_singleton_ne by done. done.
  - destruct (decide (k = bytes_of "counter")) as [->|H1]; [by eexists|]. rewrite lookup_singleton_ne by done. by intros [].
Qed.
Lemma sample_savable : savable sample_config sample_db.
Proof.
  split; [|by_decide]. cbn [sample_db db_dict].
  apply map_Forall_insert_2; [|apply map_Forall_singleton]; (split; [by_decide|done]).
Qed.

Lemma snapshots_restore_witness : exists ok fs' sv',
  rdbSave sample_config sample_system (bytes_of "temp") (bytes_of "dump") [sample_db; empty_db] 999 5 ∅ (mkSaved 3 4 false)
    = Some (ok, fs', sv') /\
  (forall f, f <> bytes_of "temp" -> f <> bytes_of "dump" -> fs' !! f = (∅ : gmap bytes bytes) !! f) /\
  if ok : bool then
    sv' = mkSaved 0 5 true /\ exists dbs',
      rdbLoad sample_config (fs' !! bytes_of "dump") (replicate 2 empty_db) 1001 = Some (Load_ok dbs') /\
      Forall2 shows dbs' (restored sample_config 999 1001 <$> [sample_keys; ∅])
  else sv' = mkSaved 3 4 false /\ fs' !! bytes_of "dump" = (∅ : gmap bytes bytes) !! bytes_of "dump" /\ ~ works sample_system.
Proof.
  apply (snapshots_restore sample_config sample_config sample_system [sample_db; empty_db] [sample_keys; ∅] 999 1001 5);
    [apply sample_config_ok|apply sample_config_ok| |done|done|done].
  constructor; [split; [apply sample_shows|apply sample_savable]|]. constructor; [|constructor].
  split; [apply shows_empty|apply savable_empty].
Defined.
